(* ===== verification/_CoqProject ===== *)
-Q . S2P
Prelude.v
Span.v
Compress.v
Coalesce.v
Intervals.v
Slices.v
BlockStore.v
ObjectStore.v
Reader.v
Writer.v
FileLock.v
Acl.v
Layers.v
LayerExtents.v
LayerCompact.v
LayerHistory.v
LayerNames.v
MetaTypes.v
Namespace.v
Access.v
Overlay.v
OverlayCommits.v
OverlayView.v
OverlayPlan.v
OverlayOps.v
OverlayTree.v
OverlayState.v
OverlaySteps.v
OverlayWell.v
OverlayAttempts.v
OverlayFuel.v
OverlayData.v
OverlayFiles.v
OverlayTrace.v
OverlayRequests.v
MetaTxn.v
Keys.v
ObjectExact.v
ObjectRuns.v
PageCache.v
WriteBuffer.v
WriteInv.v
WriteView.v
WriteSteps.v
WriteCoalesce.v
WriteReads.v
WriteFlush.v
WriteRaces.v
CachedWrites.v
TxnRun.v
MetaOps.v
MetaInv.v
MetaRename.v
MetaChunks.v
ChunkTxns.v
Volume.v
Paths.v
Requests.v
Compactor.v
Lifecycle.v
MarkSweep.v
