(* ===== verification/Prelude.v ===== *)
(** * BrewFS: verification of volumes and workspaces

    BrewFS stores a file system in two places: metadata rows in a transactional
    key-value store and file content as blocks in an object store. A file is cut
    into chunks (64 MiB by default), a chunk holds a list of slices in the order
    of their publication, and a slice is a run of blocks (4 MiB) that is written
    once under a fresh slice id and never modified. A reader sees, at every
    position, the newest slice that covers it. Compaction rewrites slice lists,
    collectors delete the blocks of slices that no list names any more.

    A workspace is a second metadata format over the same blocks: a writable head
    layer over a sealed base layer. Inodes, names, attributes and data extents are
    rows of a layer, a row of the head hides the row of the base under the same key,
    and clients change a workspace by committing mutations of its head, each against
    the versions of the layers that it read. All paths below are relative to the
    crate's [src/] directory.

    ** Which file models what

    - [Prelude] (this file): integers at their width with wrapping, checked and
      saturating arithmetic, results, little-endian bytes, stable sort, buffers.
    - [Span]: [chunk/layout.rs], [chunk/span.rs], the block iterators of
      [chunk/slice.rs], [split_chunk_spans] of [vfs/io/mod.rs], the chunk ids of
      [vfs/mod.rs] (module [ChunkId]).
    - [Intervals]: [utils/intervals.rs], the positions a read still needs.
    - [Slices]: [SliceDesc] of [chunk/slice.rs] with fragmentation, light
      compaction and the delayed-deletion records.
    - [BlockStore]: the trait [BlockStore] of [chunk/store.rs] as a class with
      laws, and [InMemoryBlockStore] as its instance.
    - [Compress]: [chunk/compress.rs], the frames blocks are stored in.
    - [Coalesce]: [chunk/store/coalesce.rs], objects shared by small slices and
      the queue that forms them.
    - [ObjectStore]: [ObjectBlockStore] of [chunk/store.rs] with the tiers of
      [chunk/cache.rs], [chunk/page_cache.rs] and [chunk/singleflight.rs], in a
      monad over its state and a tape of environment choices.
    - [ObjectExact]: the invariant of that store and a specification of each of
      its operations. [ObjectRuns]: histories of it and their theorems.
    - [Reader]: [chunk/reader.rs]: [visible_reads], the carving of the buffer into
      [ReadJob]s that run in any order, [read_at] and [read_at_into].
    - [Writer]: [chunk/writer.rs]: the payload cursor and the concurrent upload.
    - [PageCache]: [vfs/cache/page.rs], the paged buffer of one dirty slice, and
      the settings of [vfs/config.rs] it needs.
    - [WriteBuffer]: [vfs/io/writer.rs], the dirty slices of a chunk from the write
      to the publication. A [Buffer] holds the slices in a heap of cells, the
      chunk's queue, the batches on their way to the store, the commit tasks, the
      published slices and the block store; an [Event] is one section of the code
      between two waits, [step] its effect. [WriteInv], [WriteView]: the invariant
      of a slice and of the buffer, and what a reader sees of it; [WriteSteps],
      [WriteCoalesce], [WriteReads]: each event keeps the invariant, and reads.
      [WriteFlush]: flushes. [WriteRaces]: runs outside that invariant.
    - [CachedWrites]: the write-back of cached pages in the same file, with the
      watermarks and the filter for preallocated ranges.
    - [FileLock]: [meta/file_lock.rs] and the lock table of the TiKV store.
    - [MetaTypes]: [meta/store.rs] and the row types of [meta/stores/tikv/mod.rs].
    - [MetaTxn]: [run_txn], row accessors, counters and leases of that store. The
      key space is a record [DB] of maps, one per kind of row; [Sys] adds the
      leases the clients hold. A transaction is a function on [TxnState], a
      committed and a pending database.
    - [Keys]: its key strings and scans, which justify one map per kind of row.
    - [TxnRun]: lemmas and tactics to take runs of transactions apart.
    - [MetaOps], [MetaChunks]: every operation of the [MetaStore] trait that the
      store implements, on the namespace and attributes, and on chunks, garbage
      and locks.
    - [Namespace], [MetaInv], [MetaRename], [Volume]: the namespace invariant, each
      operation's proof that it keeps it, and the reachable volumes.
    - [Paths], [Requests]: what path resolution and the namespace requests do.
    - [ChunkTxns], [Lifecycle]: what the chunk transactions commit, and the state
      machine of writers, compactors and collectors.
    - [Compactor]: [chunk/compact/compactor.rs] and [chunk/compact/gc.rs].
    - [MarkSweep]: the older collector of [daemon/worker.rs].
    - [Acl]: [meta/posix_acl.rs], module [PosixAcl] for the binary lists and module
      [Control] for the entries of [control/protocol.rs].
    - [Access]: [meta/permission.rs], the checks of the client library ([fs.rs]) and
      of the FUSE adapter ([fuse/mod.rs]), and [inode_allows_actor] of
      [workspace_overlay/meta_layer/mod.rs].
    - [Layers]: [workspace_overlay/model.rs] and [workspace_overlay/resolver/]: the
      rows and their resolution through a chain of layers; [LayerExtents],
      [LayerNames]: what resolution of data and of directories gives.
    - [LayerCompact], [LayerHistory]: [stores/kv_store/extent_compaction.rs] and
      [extent_ownership.rs], the compaction that runs when extents are published.
    - [Overlay]: [VersionedMutation] of [catalog.rs] and its commit in
      [stores/kv_store.rs]. A [Store] is a map per kind of row; [prepare] is what
      an attempt reads and computes, [commit_packet] the compare-and-swap.
      [OverlayCommits], [OverlayView]: histories of commits.
    - [OverlayPlan], [OverlayOps]: the operations of
      [workspace_overlay/meta_layer/mod.rs] as plans, which read one row after the
      other and end with an answer or one mutation.
    - [OverlayTree]: trees of inodes and names, and what keeps them. [OverlayState]:
      what reads of a store answer. [OverlaySteps], [OverlayWell]: a weakest
      precondition of plans, and that each operation keeps the view well formed.
      [OverlayAttempts]: the requests, [OverlayFuel]: that they end.
      [OverlayData], [OverlayFiles]: where the bytes of files are, and what each
      operation does to them. [OverlayTrace]: the stores that a workspace goes
      through while clients work on it. [OverlayRequests]: their theorems.

    ** What the theorems show

    - Content. [chunk_content_refined]: for every interleaving of writers, light
      and heavy compactions with stale snapshots, and collectors, a read returns
      what the published writes, in order, say; [collector_spares_live]: blocks
      are deleted only for slices that no list names now or later.
      [read_at_exact], [write_then_read], [heavy_compaction_exact] and the
      theorems of [Slices], [Intervals] and [Span] are the parts of it.
    - Buffered writes. [buffered_reads_exact]: a chunk read through the buffer
      returns the acknowledged writes over the published content after any
      interleaving of writes, freezes, uploads with failures, publications by any
      number of tasks, coalescing and splits, up to the first recorded error.
      [flush_durable]: when a flush returns, the published slices alone hold what
      was written before it.
      It leaves out two interleavings, which [drained_chunk_loses_write] and
      [gated_write_lost] show to lose writes, and assumes blocks are uploaded
      before publication; [published_slice_hides_newer] is about the other mode.
      [claim_never_retried]: a publication that failed once for a transient
      reason is never repeated. [slice_refines_array]: the paged buffer is an
      array. [cached_writes_ordered]: write-backs count by the kernel's numbers,
      not by arrival; [zero_rewrite_lost] is the exception.
    - Objects. [object_reads_exact]: a block read that succeeds is right, whatever
      the caches, the shared requests and the backend did before and during it;
      [written_block_readable]: a written block stays readable;
      [delete_range_exact]: deletions are exact. [persisted_upload_exact],
      [coalesced_object_exact] and [queue_strands_no_member] are the formats and
      the queue under them.
    - Workspaces. Clients read row after row while others commit, and commit one
      mutation; still [workspace_names_refine] and [workspace_files_refine]: each
      committed request is one step of its specification on the names, sizes and
      bytes of the workspace at the moment of its commit.
      [workspace_well_formed]: every store shows a tree with exact link counts and
      access lists that agree with the modes. [reads_end_with_file]: reads answer
      with the bytes of the file and with holes past its end.
      [name_changes_authorized]: nobody changes names without the permissions.
      Under them: [mutation_serializable] and [mutation_view] for commits,
      [extents_resolved_exact] and [directory_lists_lookups] for layers,
      [extent_compaction_exact] for compaction.
    - Access. [posix_acl_codec_exact]: what decodes is well formed, in one way;
      [acl_access_exact]: the access decision; [access_checks_agree]: the FUSE
      adapter, the workspace metadata and the client library decide alike.
    - Namespace. [volume_well_formed]: every reachable volume is a tree with exact
      link counts and bindings. [requests_exact], [create_exact]: each request
      succeeds exactly when it should and changes exactly what it should.
      [paths_roundtrip]: reported paths are the resolvable ones.
    - Transactions. [run_txn_atomic], [leased_ids_unique],
      [versioned_replace_exact]; [keys_separate] and [scan_prefix_exact] for the
      key space under them.
    - Locks. [plock_update_sound], [plock_query_agrees].
    - Deviations. [chunk_id_collision], [sweep_deletes_by_position],
      [heavy_forced_when_disabled] and the theorems of [WriteRaces] state
      behaviour that the code's comments or documents do not intend.

    ** Bounds and fuel

    Integers keep their width: u64 and u32 arithmetic wraps, is checked or
    saturates as in the source. Loops that are not structural have fuel that is
    shown to be enough: the span iterator ([collect_fuel], bounded by the length
    of the range), the ancestry walk of a directory move (one more step than
    there are inodes), the scan loop (one more round than rows), the doubling
    loops of statfs (64 rounds), the climb of [get_paths] (one more than the
    inodes), the loop over missing pages ([fill_pages_fuel], one round per page),
    the header probe (four reads for four bytes), the append loop (one round per
    byte at most), the coalescing loop (one round per queued slice,
    [coalesce_settles]), the merge of covered ranges in the compaction of extents
    (one round per range, [absorb_settles]), the loop over the chunks of a hole (one
    round per chunk, [fueled_hole]), the load of a layer chain (the limit of the
    code), the walks to the ancestors of a workspace directory (one more step than
    there are inodes, [attempts_end]; the other theorems on workspaces hold for
    every number of steps). The retry
    bounds of [run_txn], of uploads and of publications are the code's own. Theorems on link
    counts assume that fewer than 2^32 rows exist ([small]): beyond that the u32
    counters saturate.

    ** What is assumed

    Transactions of different clients are serialised, as the pessimistic locks of
    the TiKV client are meant to ensure; what else its library does is chosen by
    an oracle for every attempt. JSON encoding of rows is taken to be lossless.
    Block stores are used through the laws of [BlockStoreLaws]. In [Lifecycle]
    blocks are uploaded before a slice is published; [WriteView] shows that the
    write buffer keeps to this. In the write buffer a metadata write and the claim
    before it are one event, slice ids are fresh when they are assigned, and a flush
    collects and freezes its slices in one go.
    The LZ4 and Zstandard codecs satisfy [CodecLaws], and a SHA-256 digest has 32
    bytes. The object backend does what the trait [ObjectBackend] documents.
    Operations of one object store run one after the other and meet through the
    shared requests, whose results stay available for as long as the environment
    likes.
    In a workspace an inode id that the allocator gives has no rows yet, the mount
    is at the root of the workspace, the rows of extents hold unsigned numbers
    ([typed]), and what happens to a workspace beside the operations modelled only
    advances layer records and leaves rows alone. A store answers the reads of one
    call from one state.

    ** What is not modelled

    The disk format and promotion policy of the block cache (an entry is there
    or not, by choice of the environment), the back pressure, timers and local
    stage files of the write buffer, the read-ahead of file handles, the VFS and
    the requests of the FUSE adapter beyond their access checks, the SQL, Redis and
    etcd stores (written against other languages). Of workspaces: the row caches
    and read-ahead of the metadata layer, the packed immutable base and its
    indexes, the checks of the topology index and the byte budgets (on which more
    commits fail), the id allocator, mounts below the root, and the opening,
    sealing, publication and collection of workspaces. Gateways, CLI and
    observability. *)
From stdpp Require Export base gmap list strings sorting pretty.
From stdpp Require Import options.
From coqutil Require Byte Word.LittleEndianList.
From Stdlib Require Export ZArith Lia Permutation.

Open Scope Z_scope.

(** ** Machine integers

    A Rust [uN] is a [Z]; the ranges are predicates and the arithmetic of a
    release build, which wraps, is written out. *)

Definition u64_modulus : Z := 2 ^ 64.
Definition u32_modulus : Z := 2 ^ 32.
Definition u32_max : Z := u32_modulus - 1.
Definition u64_max : Z := u64_modulus - 1.

Definition is_u64 (z : Z) : Prop := 0 <= z < u64_modulus.
Definition is_u32 (z : Z) : Prop := 0 <= z < u32_modulus.

Definition u64_add (a b : Z) : Z := (a + b) mod u64_modulus.
Definition u64_sub (a b : Z) : Z := (a - b) mod u64_modulus.
Definition u64_mul (a b : Z) : Z := (a * b) mod u64_modulus.
Definition as_u32 (a : Z) : Z := a mod u32_modulus.

(** [checked_add] and [checked_mul] answer [None] on overflow. *)
Definition u64_checked_add (a b : Z) : option Z :=
  if a + b <? u64_modulus then Some (a + b) else None.
Definition u64_checked_mul (a b : Z) : option Z :=
  if a * b <? u64_modulus then Some (a * b) else None.

Definition u64_saturating_sub (a b : Z) : Z := Z.max 0 (a - b).
Definition u64_saturating_add (a b : Z) : Z := Z.min u64_max (a + b).
Definition u32_saturating_add (a b : Z) : Z := Z.min u32_max (a + b).
Definition u32_saturating_sub (a b : Z) : Z := Z.max 0 (a - b).

(** [a.div_ceil(b)]. *)
Definition div_ceil (a b : Z) : Z :=
  if a mod b =? 0 then a / b else a / b + 1.

Declare Scope u64_scope.
Delimit Scope u64_scope with u64.
Notation "a ⊕ b" := (u64_add a b) (at level 50, left associativity) : u64_scope.
Notation "a ⊖ b" := (u64_sub a b) (at level 50, left associativity) : u64_scope.
Notation "a ⊗ b" := (u64_mul a b) (at level 40, left associativity) : u64_scope.
Open Scope u64_scope.

Create HintDb brewfs discriminated.

(** Unfolds the range predicates so that [lia] sees inequalities. *)
Ltac uints :=
  unfold is_u64, is_u32, u64_max, u32_max in *;
  change u64_modulus with 18446744073709551616 in *;
  change u32_modulus with 4294967296 in *.
Ltac u64_lia := uints; lia.

Lemma u64_add_small a b : is_u64 (a + b) -> a ⊕ b = a + b.
Proof. intros. unfold u64_add. apply Z.mod_small. u64_lia. Qed.

Lemma u64_sub_small a b : is_u64 (a - b) -> a ⊖ b = a - b.
Proof. intros. unfold u64_sub. apply Z.mod_small. u64_lia. Qed.

Lemma u64_mul_small a b : is_u64 (a * b) -> a ⊗ b = a * b.
Proof. intros. unfold u64_mul. apply Z.mod_small. u64_lia. Qed.

Lemma as_u32_small a : is_u32 a -> as_u32 a = a.
Proof. intros. unfold as_u32. apply Z.mod_small. u64_lia. Qed.

Lemma u64_add_range a b : is_u64 (a ⊕ b).
Proof. unfold is_u64, u64_add. apply Z.mod_pos_bound. u64_lia. Qed.

Lemma u64_checked_add_Some a b c :
  u64_checked_add a b = Some c <-> c = a + b /\ a + b < u64_modulus.
Proof.
  unfold u64_checked_add. destruct (Z.ltb_spec (a + b) u64_modulus);
    split; [intros [= <-]|intros [-> ?]|done|]; by try (f_equal; lia).
Qed.

Lemma div_ceil_spec a b : 0 <= a -> 0 < b ->
  (div_ceil a b - 1) * b < a <= div_ceil a b * b.
Proof.
  intros Ha Hb. unfold div_ceil.
  pose proof (Z.div_mod a b ltac:(lia)). pose proof (Z.mod_pos_bound a b Hb).
  destruct (Z.eqb_spec (a mod b) 0); nia.
Qed.

Lemma div_ceil_nonneg a b : 0 <= a -> 0 < b -> 0 <= div_ceil a b.
Proof. intros Ha Hb. pose proof (div_ceil_spec a b Ha Hb). nia. Qed.

#[export] Hint Resolve u64_add_range div_ceil_nonneg : brewfs.

(** ** Results

    [Result<A, E>] with the [?] operator as a bind. *)

Inductive result (E A : Type) : Type :=
| Ok (a : A)
| Err (e : E).
Arguments Ok {E A} a.
Arguments Err {E A} e.

Definition result_bind {E A B} (r : result E A) (k : A -> result E B) : result E B :=
  match r with Ok a => k a | Err e => Err e end.

Declare Scope result_scope.
Delimit Scope result_scope with result.
Notation "'let?' x := r 'in' k" := (result_bind r (fun x => k))
  (at level 10, x pattern, r at level 100, k at level 200)
  : result_scope.
Open Scope result_scope.

Definition is_Ok {E A} (r : result E A) : bool :=
  match r with Ok _ => true | Err _ => false end.

Definition of_option {E A} (e : E) (o : option A) : result E A :=
  match o with Some a => Ok a | None => Err e end.

(** Splits the [match]es of a hypothesis of the form [let? .. = Ok _]. *)
Ltac result_inv :=
  repeat match goal with
  | H : Ok _ = Ok _ |- _ => injection H as H; subst
  | H : Ok _ = Err _ |- _ => discriminate H
  | H : Err _ = Ok _ |- _ => discriminate H
  | H : context [result_bind ?r _] |- _ =>
      let E := fresh "E" in destruct r eqn:E; cbn [result_bind] in H
  | H : of_option _ ?o = Ok _ |- _ =>
      let E := fresh "E" in destruct o eqn:E; cbn [of_option] in H
  end.

(** ** Bytes and little-endian integers *)

Abbreviation byte := Corelib.Init.Byte.byte.

(** [z.to_le_bytes()] for an [n]-byte integer, and [from_le_bytes]. *)
Definition to_le_bytes (n : nat) (z : Z) : list byte := LittleEndianList.le_split n z.
Definition from_le_bytes (bs : list byte) : Z := LittleEndianList.le_combine bs.

Lemma length_to_le_bytes n z : length (to_le_bytes n z) = n.
Proof. apply LittleEndianList.length_le_split. Qed.

Lemma from_to_le_bytes n z :
  0 <= z < 2 ^ (8 * Z.of_nat n) -> from_le_bytes (to_le_bytes n z) = z.
Proof.
  intros. unfold from_le_bytes, to_le_bytes.
  rewrite LittleEndianList.le_combine_split. apply Z.mod_small.
  by rewrite Z.mul_comm.
Qed.

Lemma from_to_le_bytes_u64 z : is_u64 z -> from_le_bytes (to_le_bytes 8 z) = z.
Proof. intros. by apply from_to_le_bytes. Qed.
Lemma from_to_le_bytes_u32 z : is_u32 z -> from_le_bytes (to_le_bytes 4 z) = z.
Proof. intros. by apply from_to_le_bytes. Qed.

#[export] Instance byte_eq_dec : EqDecision byte := Byte.byte_eq_dec.
#[export] Instance byte_countable : Countable byte.
Proof. apply (inj_countable Byte.to_N Byte.of_N). intros b. apply Byte.of_to_N. Defined.

Lemma StronglySorted_weaken {A} (R R' : relation A) l :
  (forall x y, R x y -> R' x y) -> StronglySorted R l -> StronglySorted R' l.
Proof. induction 2; constructor; eauto using Forall_impl. Qed.

(** ** Stable sorting

    [slice::sort_by_key] is stable; insertion from the right is the reference. *)
Section sort_by.
Context {A : Type} (leb : A -> A -> bool).

Fixpoint insert_by (x : A) (l : list A) : list A :=
  match l with
  | [] => [x]
  | y :: l' => if leb x y then x :: y :: l' else y :: insert_by x l'
  end.
Definition sort_by (l : list A) : list A := foldr insert_by [] l.

Lemma insert_by_perm x l : insert_by x l ≡ₚ x :: l.
Proof.
  induction l as [|y l IH]; cbn; [done|]. destruct (leb x y); [done|].
  rewrite IH. by constructor.
Qed.

Lemma sort_by_perm l : sort_by l ≡ₚ l.
Proof. induction l as [|x l IH]; cbn; [done|]. by rewrite insert_by_perm, IH. Qed.

Context (leb_total : forall x y, leb x y = false -> leb y x = true).
Context (leb_trans : forall x y z, leb x y = true -> leb y z = true -> leb x z = true).

Lemma insert_by_sorted x l :
  StronglySorted (fun a b => leb a b = true) l ->
  StronglySorted (fun a b => leb a b = true) (insert_by x l).
Proof using leb_total leb_trans.
  induction 1 as [|y l Hs IH Hf]; cbn; [by repeat constructor|].
  destruct (leb x y) eqn:E.
  - constructor; [by constructor|]. constructor; [done|].
    eapply Forall_impl; [exact Hf|]. eauto.
  - constructor; [done|]. rewrite insert_by_perm. constructor; eauto.
Qed.

Lemma sort_by_sorted l : StronglySorted (fun a b => leb a b = true) (sort_by l).
Proof using leb_total leb_trans.
  induction l as [|x l IH]; cbn; [constructor|]. by apply insert_by_sorted.
Qed.
End sort_by.

Definition sort_by_key {A} (key : A -> Z) (l : list A) : list A :=
  sort_by (fun a b => key a <=? key b) l.

Lemma sort_by_key_perm {A} (key : A -> Z) l : sort_by_key key l ≡ₚ l.
Proof. apply sort_by_perm. Qed.

Lemma sort_by_key_sorted {A} (key : A -> Z) l :
  StronglySorted (fun a b => key a <= key b) (sort_by_key key l).
Proof.
  eapply StronglySorted_weaken; [|apply sort_by_sorted]; cbn; intros; lia.
Qed.

(** [Vec::dedup]: drops an element equal to the one before it. *)
Fixpoint dedup {A} `{!EqDecision A} (l : list A) : list A :=
  match l with
  | a :: ((b :: _) as rest) => if bool_decide (a = b) then dedup rest else a :: dedup rest
  | l => l
  end.

Lemma dedup_elem {A} `{!EqDecision A} (l : list A) x : x ∈ dedup l <-> x ∈ l.
Proof.
  induction l as [|a [|b l] IH]; [done..|]. change (dedup (a :: b :: l)) with (if bool_decide (a = b) then dedup (b :: l) else a :: dedup (b :: l)).
  case_bool_decide as E; rewrite ?elem_of_cons, IH; [subst; set_solver|set_solver].
Qed.

Lemma dedup_sorted {A} `{!EqDecision A} (R : A -> A -> Prop) (l : list A) : StronglySorted R l -> StronglySorted R (dedup l).
Proof.
  induction l as [|a [|b l] IH]; [done..|]. intros [Hs Hf]%StronglySorted_inv.
  change (dedup (a :: b :: l)) with (if bool_decide (a = b) then dedup (b :: l) else a :: dedup (b :: l)).
  case_bool_decide; [by apply IH|]. constructor; [by apply IH|]. rewrite Forall_forall in *. intros x Hx. by apply Hf, dedup_elem.
Qed.

(** ** Lists *)

Lemma filter_ext_elem {A} (P Q : A -> Prop) `{!forall x, Decision (P x), !forall x, Decision (Q x)}
    (l : list A) :
  (forall x, x ∈ l -> P x <-> Q x) -> filter P l = filter Q l.
Proof.
  induction l as [|x l IH]; intros Hpq; [done|]. rewrite !filter_cons.
  rewrite IH by set_solver. specialize (Hpq x ltac:(set_solver)).
  do 2 case_decide; by (done || tauto).
Qed.

(** A sublist is what its keys select, when the keys are distinct. *)
Lemma filter_key_sublist {A B} `{!EqDecision B} (f : A -> B) (l1 l2 : list A) :
  sublist l1 l2 -> NoDup (f <$> l2) ->
  filter (fun x => f x ∈ f <$> l1) l2 = l1.
Proof.
  induction 1 as [|x l1 l2 Hs IH|x l1 l2 Hs IH]; [done| |];
    rewrite fmap_cons, NoDup_cons; intros [Hx Hnd]; rewrite filter_cons.
  - rewrite decide_True by set_solver. f_equal. transitivity (filter (fun x => f x ∈ f <$> l1) l2); [|by apply IH].
    apply filter_ext_elem. intros y Hy. rewrite fmap_cons, elem_of_cons. split; [|auto].
    intros [Heq|]; [|done]. destruct Hx. rewrite <-Heq. by apply list_elem_of_fmap_2.
  - rewrite decide_False; [by apply IH|].
    intros Hin. apply Hx. eapply elem_of_sublist; [exact Hin|]. by apply fmap_sublist.
Qed.

(** [l[off..off + data.len()].copy_from_slice(data)], for a range inside [l]. *)
Definition splice {A} (l : list A) (off : nat) (data : list A) : list A :=
  take off l ++ data ++ drop (off + length data) l.

Lemma length_splice {A} (l data : list A) off :
  (off + length data <= length l)%nat -> length (splice l off data) = length l.
Proof. intros. unfold splice. rewrite !length_app, length_take, length_drop. lia. Qed.

Lemma lookup_splice {A} (l data : list A) off i :
  (off + length data <= length l)%nat ->
  splice l off data !! i =
  if decide (off <= i < off + length data)%nat then data !! (i - off)%nat else l !! i.
Proof.
  intros Hl. unfold splice. case_decide as Hd.
  - rewrite lookup_app_r, length_take_le by (rewrite ?length_take; lia).
    by rewrite lookup_app_l by lia.
  - destruct (decide (i < off)%nat).
    + rewrite lookup_app_l, lookup_take_lt; [done|lia|rewrite length_take; lia].
    + rewrite lookup_app_r, length_take_le by (rewrite ?length_take; lia).
      rewrite lookup_app_r, lookup_drop by lia. f_equal. lia.
Qed.

(** A symmetric relation between any two members, in whatever order. *)
Lemma ForallOrdPairs_perm {A} (R : relation A) (l l' : list A) :
  (forall x y, R x y -> R y x) -> l ≡ₚ l' -> ForallOrdPairs R l -> ForallOrdPairs R l'.
Proof.
  intros Hsym. induction 1 as [|x l l' Hp IH|x y l|l l' l'' _ IH1 _ IH2]; intros Hl; auto.
  - inversion_clear Hl. constructor; [by rewrite <-Hp|auto].
  - inversion_clear Hl as [|? ? Hy Hl']. inversion_clear Hl' as [|? ? Hx Hl''].
    inversion_clear Hy. repeat constructor; auto.
Qed.

Lemma ForallOrdPairs_app {A} (R : relation A) (l l' : list A) :
  ForallOrdPairs R l -> ForallOrdPairs R l' ->
  (forall x y, x ∈ l -> y ∈ l' -> R x y) -> ForallOrdPairs R (l ++ l').
Proof.
  intros Hl Hl' Hx. induction Hl as [|x l Hxl Hl IH]; cbn; [done|]. constructor.
  - apply Forall_app. split; [done|]. apply Forall_forall. set_solver.
  - apply IH. set_solver.
Qed.

(** [l[off..off + n]], for a range inside [l]. *)
Definition subrange {A} (l : list A) (off n : Z) : list A := take (Z.to_nat n) (drop (Z.to_nat off) l).

(** [l.len()]. *)
Abbreviation zlen l := (Z.of_nat (length l)).

Lemma length_subrange {A} (l : list A) off n :
  0 <= off -> 0 <= n -> off + n <= zlen l -> zlen (subrange l off n) = n.
Proof. intros. unfold subrange. rewrite length_take, length_drop. lia. Qed.

Lemma lookup_subrange {A} (l : list A) off n (i : nat) : 0 <= off ->
  Z.of_nat i < n -> subrange l off n !! i = l !! Z.to_nat (off + Z.of_nat i).
Proof. intros. unfold subrange. rewrite lookup_take_lt, lookup_drop by lia. f_equal. lia. Qed.

Lemma subrange_all {A} (l : list A) n : n = zlen l -> subrange l 0 n = l.
Proof. intros ->. unfold subrange. by rewrite drop_0, Nat2Z.id, firstn_all. Qed.

Lemma subrange_app_l {A} (l k : list A) off n :
  0 <= off -> 0 <= n -> off + n <= zlen l -> subrange (l ++ k) off n = subrange l off n.
Proof.
  intros. unfold subrange. rewrite skipn_app, take_app_le; [done|]. rewrite length_drop. lia.
Qed.

Lemma subrange_app_r {A} (l k : list A) off n :
  0 <= off -> subrange (l ++ k) (zlen l + off) n = subrange k off n.
Proof.
  intros. unfold subrange. f_equal. rewrite skipn_app, (skipn_all2 l) by lia. cbn. f_equal. lia.
Qed.

Lemma subrange_subrange {A} (l : list A) a n b m :
  0 <= a -> 0 <= b -> b + m <= n -> subrange (subrange l a n) b m = subrange l (a + b) m.
Proof.
  intros. unfold subrange. rewrite skipn_firstn_comm, firstn_firstn, drop_drop.
  rewrite Z2Nat.inj_add by done. f_equal. lia.
Qed.

Lemma subrange_split {A} (l : list A) a n m :
  0 <= a -> 0 <= n -> 0 <= m -> subrange l a n ++ subrange l (a + n) m = subrange l a (n + m).
Proof.
  intros. unfold subrange. rewrite !Z2Nat.inj_add by done. rewrite <-drop_drop. apply take_take_drop.
Qed.

Lemma splice_app_split {A} (l a b : list A) off :
  (off + length a + length b <= length l)%nat ->
  splice (splice l off a) (off + length a) b = splice l off (a ++ b).
Proof.
  intros Hl. apply list_eq. intros i.
  rewrite !lookup_splice by (rewrite ?length_splice, ?length_app; lia). rewrite length_app.
  repeat case_decide; try lia; try done.
  - rewrite lookup_app_r by lia. f_equal. lia.
  - by rewrite lookup_app_l by lia.
Qed.

(** ** Zero padding

    [utils/zero.rs]: zeros as parts of at most [ZEROS_LEN] bytes. *)

Definition ZEROS_LEN : Z := 4 * 1024 * 1024.

(** The loop of [make_zero_bytes]; [full] parts are whole. *)
Fixpoint zero_parts (full : nat) (n : Z) : list (list byte) :=
  match full with
  | O => if 0 <? n then [replicate (Z.to_nat n) Byte.x00] else []
  | S full => replicate (Z.to_nat ZEROS_LEN) Byte.x00 :: zero_parts full (n - ZEROS_LEN)
  end.
Definition make_zero_bytes (n : Z) : list (list byte) := zero_parts (Z.to_nat (n / ZEROS_LEN)) n.

Lemma concat_zero_parts full : forall n, Z.of_nat full = n / ZEROS_LEN -> 0 <= n ->
  concat (zero_parts full n) = replicate (Z.to_nat n) Byte.x00.
Proof.
  assert (0 < ZEROS_LEN) as Hz by done.
  induction full as [|full IH]; intros n Hf Hn; cbn [zero_parts].
  - destruct (Z.ltb_spec 0 n); cbn [concat]; [by rewrite app_nil_r|]. by replace n with 0 by lia.
  - assert (ZEROS_LEN <= n) as Hle.
    { destruct (Z.le_gt_cases ZEROS_LEN n); [done|]. rewrite Z.div_small in Hf by lia. lia. }
    assert ((n - ZEROS_LEN) / ZEROS_LEN = n / ZEROS_LEN - 1) as E.
    { replace (n - ZEROS_LEN) with (n + (-1) * ZEROS_LEN) by lia. rewrite Z.div_add by lia. lia. }
    cbn [concat]. rewrite IH by lia. rewrite <-replicate_add. f_equal. lia.
Qed.

Lemma make_zero_bytes_exact n : 0 <= n -> concat (make_zero_bytes n) = replicate (Z.to_nat n) Byte.x00.
Proof. intros Hn. apply concat_zero_parts; [|done]. rewrite Z2Nat.id; [done|]. apply Z.div_pos; [done|]. done. Qed.
