(* ===== verification/Span.v ===== *)
(** Chunk geometry: [src/chunk/layout.rs], [src/chunk/span.rs], the block
    iterators of [src/chunk/slice.rs], the chunk splitter of
    [src/vfs/io/mod.rs] and the chunk identifiers of [src/vfs/mod.rs]. *)
From stdpp Require Import options.
From Stdlib Require Import ZArith Lia.
From S2P Require Import Prelude.

(** ** Layout *)
Module Layout.

Definition DEFAULT_CHUNK_SIZE : Z := 64 * 1024 * 1024.
Definition DEFAULT_BLOCK_SIZE : Z := 4 * 1024 * 1024.

Record ChunkLayout := mkLayout { chunk_size : Z; block_size : Z }.

Definition default_layout : ChunkLayout :=
  {| chunk_size := DEFAULT_CHUNK_SIZE; block_size := DEFAULT_BLOCK_SIZE |}.

Definition blocks_per_chunk (l : ChunkLayout) : Z :=
  as_u32 (div_ceil (chunk_size l) (block_size l)).
Definition chunk_index_of (l : ChunkLayout) (file_offset : Z) : Z :=
  file_offset / chunk_size l.
Definition within_chunk_offset (l : ChunkLayout) (file_offset : Z) : Z :=
  file_offset mod chunk_size l.
Definition block_index_of (l : ChunkLayout) (offset_in_chunk : Z) : Z :=
  as_u32 (offset_in_chunk / block_size l).
Definition within_block_offset (l : ChunkLayout) (offset_in_chunk : Z) : Z :=
  as_u32 (offset_in_chunk mod block_size l).
Definition chunk_byte_range (l : ChunkLayout) (chunk_index : Z) : Z * Z :=
  let start := chunk_index ⊗ chunk_size l in (start, start ⊕ chunk_size l).

(** A layout the program can run with: the sizes are positive, fit their
    machine types, a chunk is a whole number of blocks (the debug assertions of
    [Span::split_into]) and block indices fit the [u32] of a block key. *)
Record layout_ok (l : ChunkLayout) : Prop := {
  lo_block : 0 < block_size l < u32_modulus;
  lo_chunk : block_size l <= chunk_size l < u64_modulus;
  lo_multiple : chunk_size l mod block_size l = 0;
  lo_blocks : chunk_size l <= block_size l * u32_modulus
}.

Lemma default_layout_ok : layout_ok default_layout.
Proof. constructor; vm_compute; intuition congruence. Qed.

End Layout.
Export Layout.

(** ** Spans *)
Module Spans.

Inductive SpanTag := ChunkTag | BlockTag | PageTag.

Record Span (t : SpanTag) := mkSpan { index : Z; offset : Z; len : Z }.
Arguments mkSpan {t} _ _ _.
Arguments index {t} _.
Arguments offset {t} _.
Arguments len {t} _.

Record SpanIter (t : SpanTag) := mkIter {
  cursor : Z; remaining : Z; target_align : Z; base_offset : Z }.
Arguments mkIter {t} _ _ _ _.
Arguments cursor {t} _.
Arguments remaining {t} _.
Arguments target_align {t} _.
Arguments base_offset {t} _.

Definition split_into {t} (target : SpanTag) (s : Span t)
    (my_align talign : Z) (relative : bool) : SpanIter target :=
  let start_abs := index s ⊗ my_align ⊕ offset s in
  let base := if relative then index s ⊗ my_align else 0 in
  {| cursor := start_abs; remaining := len s;
     target_align := talign; base_offset := base |}.

Definition next {t} (it : SpanIter t) : option (Span t * SpanIter t) :=
  if remaining it =? 0 then None else
  let effective_val := cursor it ⊖ base_offset it in
  let idx := effective_val / target_align it in
  let off := effective_val mod target_align it in
  let capacity := target_align it ⊖ off in
  let take := Z.min (remaining it) capacity in
  Some (mkSpan idx off take,
        {| cursor := cursor it ⊕ take; remaining := remaining it ⊖ take;
           target_align := target_align it; base_offset := base_offset it |}).

(** [Iterator::collect], with fuel. *)
Fixpoint collect_fuel {t} (fuel : nat) (it : SpanIter t) : list (Span t) :=
  match fuel with
  | O => []
  | S f => match next it with
           | None => []
           | Some (s, it') => s :: collect_fuel f it'
           end
  end.

(** A span covers at most one target unit, so one step per unit started is
    enough: see [collect_tiles], whose length accounting fails if the fuel
    stops the loop early. *)
Definition collect {t} (it : SpanIter t) : list (Span t) :=
  collect_fuel (Z.to_nat (remaining it / target_align it + 2)) it.

(** *** Tilings: what a split is meant to be

    [tiles a p n l]: the spans [l], read in order, cover the [n] bytes from
    position [p] without gap or overlap, each inside one unit of size [a], and
    only the last may stop before the end of its unit. *)
Inductive tiles {t} (a : Z) : Z -> Z -> list (Span t) -> Prop :=
| tiles_nil p : tiles a p 0 []
| tiles_cons p n s l :
    0 < len s -> 0 <= offset s -> offset s + len s <= a ->
    index s * a + offset s = p ->
    (n <> len s -> offset s + len s = a) ->
    tiles a (p + len s) (n - len s) l ->
    tiles a p n (s :: l).

Definition spans_len {t} (l : list (Span t)) : Z := foldr (fun s acc => len s + acc) 0 l.

(** The [i]-th byte of a tiled range lies in unit [(p + i) / a] at offset
    [(p + i) mod a]. *)
Lemma tile_coordinates a p off idx k :
  0 < a -> idx * a + off = p -> 0 <= off -> 0 <= k -> off + k < a ->
  (p + k) / a = idx /\ (p + k) mod a = off + k.
Proof.
  intros. replace (p + k) with (off + k + idx * a) by lia.
  rewrite Z.div_add, Z.mod_add, Z.div_small, Z.mod_small by lia. lia.
Qed.

Lemma unit_multiple a d : 0 < a -> - a < d * a < a -> d = 0.
Proof. intros. assert (- 1 < d < 1) by nia. lia. Qed.

Lemma tiles_nonneg {t} a p n (l : list (Span t)) : tiles a p n l -> 0 <= n.
Proof. induction 1; lia. Qed.

Lemma tiles_zero {t} a p (l : list (Span t)) : tiles a p 0 l -> l = [].
Proof.
  inversion_clear 1 as [|? ? s ? ? ? ? ? ? Ht]; [done|].
  pose proof (tiles_nonneg _ _ _ _ Ht). lia.
Qed.

Lemma tiles_spans_len {t} a p n (l : list (Span t)) : tiles a p n l -> spans_len l = n.
Proof. induction 1; simpl; lia. Qed.

(** Unit indices increase by exactly one along a tiling. *)
Lemma tiles_consecutive {t} a p n (l : list (Span t)) (i : nat) (s s' : Span t) :
  0 < a -> tiles a p n l -> l !! i = Some s -> l !! S i = Some s' ->
  index s' = index s + 1 /\ offset s' = 0 /\ offset s + len s = a.
Proof.
  intros Ha Ht. revert i. induction Ht as [|p n s0 l Hl Ho Hoa Hp Hfull Ht IH];
    intros i Hi Hi'; [done|].
  destruct i as [|i]; [|by apply (IH i)].
  cbn in Hi, Hi'. simplify_eq. destruct l as [|s1 l]; [done|]. cbn in Hi'. simplify_eq.
  inversion Ht as [|? ? ? ? ? ? ? ? ? Hrest]; subst.
  apply tiles_nonneg in Hrest.
  assert (offset s + len s = a) by (apply Hfull; lia).
  assert (offset s' < a) by lia.
  assert (index s' - index s - 1 = 0) by (apply (unit_multiple a); lia).
  assert (index s' = index s + 1) as Heq by lia. rewrite Heq in *. lia.
Qed.

Lemma spans_len_cons {t} (s : Span t) l : spans_len (s :: l) = len s + spans_len l.
Proof. done. Qed.

Lemma tiles_lookup {t} a p n (l : list (Span t)) (i : nat) (s : Span t) :
  tiles a p n l -> l !! i = Some s ->
  0 < len s /\ 0 <= offset s /\ offset s + len s <= a /\
  index s * a + offset s = p + spans_len (take i l).
Proof.
  intros Ht. revert i. induction Ht as [|p n s0 l ? ? ? ? ? ? IH]; intros i Hi; [done|].
  destruct i as [|i]; [cbn in *; simplify_eq; lia|]. destruct (IH i Hi) as (?&?&?&?).
  cbn [take]. rewrite spans_len_cons. lia.
Qed.

(** Every byte of a tiled range belongs to the tile of its unit. *)
Lemma tiles_byte {t} a p n (l : list (Span t)) x :
  0 < a -> tiles a p n l -> p <= x < p + n ->
  exists i s, l !! i = Some s /\ index s = x / a /\
    offset s <= x mod a < offset s + len s.
Proof.
  intros Ha Ht. revert x. induction Ht as [|p n s l ? ? ? Hp ? ? IH]; intros x Hx; [lia|].
  destruct (Z.lt_ge_cases x (p + len s)) as [Hlt|Hge].
  - exists 0%nat, s. destruct (tile_coordinates a p (offset s) (index s) (x - p)) as [E1 E2];
      [lia..|]. replace (p + (x - p)) with x in * by lia. split; [done|lia].
  - destruct (IH x) as (i&s'&?&?&?); [lia|]. by exists (S i), s'.
Qed.

Lemma next_Some {t} (it : SpanIter t) :
  0 < target_align it < u64_modulus ->
  0 <= base_offset it <= cursor it ->
  0 < remaining it -> cursor it + remaining it < u64_modulus ->
  let v := cursor it - base_offset it in
  let a := target_align it in
  let k := Z.min (remaining it) (a - v mod a) in
  next it = Some (mkSpan (v / a) (v mod a) k,
                  {| cursor := cursor it + k; remaining := remaining it - k;
                     target_align := a; base_offset := base_offset it |}).
Proof.
  intros Ha Hb Hr Hc v a k. unfold next.
  destruct (Z.eqb_spec (remaining it) 0); [lia|].
  pose proof (Z.mod_pos_bound v a ltac:(lia)).
  rewrite !(u64_sub_small (cursor it)), (u64_sub_small (target_align it))
    by (subst v a; u64_lia).
  fold v a k. by rewrite u64_add_small, u64_sub_small by (subst v a k; u64_lia).
Qed.

Lemma collect_fuel_tiles {t} fuel (it : SpanIter t) :
  0 < target_align it < u64_modulus ->
  0 <= base_offset it <= cursor it ->
  0 <= remaining it -> cursor it + remaining it < u64_modulus ->
  remaining it = 0 \/
  (cursor it - base_offset it) mod target_align it + remaining it
    <= Z.of_nat fuel * target_align it ->
  tiles (target_align it) (cursor it - base_offset it) (remaining it)
    (collect_fuel fuel it).
Proof.
  revert it; induction fuel as [|f IH]; intros it Ha Hb Hr Hc Hf.
  { pose proof (Z.mod_pos_bound (cursor it - base_offset it) (target_align it) ltac:(lia)).
    assert (remaining it = 0) as -> by lia. constructor. }
  cbn [collect_fuel]. destruct (Z.eq_dec (remaining it) 0) as [Hz|Hz].
  { unfold next. rewrite Hz. simpl. constructor. }
  rewrite next_Some by lia.
  set (v := cursor it - base_offset it) in *. set (a := target_align it) in *.
  pose proof (Z.mod_pos_bound v a ltac:(lia)).
  pose proof (Z.div_mod v a ltac:(lia)).
  set (k := Z.min (remaining it) (a - v mod a)).
  constructor; cbn; [subst k; lia..|].
  replace (v + k) with (cursor it + k - base_offset it) by lia.
  refine (IH (mkIter (cursor it + k) (remaining it - k) a (base_offset it)) _ _ _ _ _);
    cbn; [subst k; lia..|].
  destruct (Z.le_gt_cases (remaining it) (a - v mod a)); [left; lia|right].
  fold a. replace (cursor it + k - base_offset it) with ((v / a + 1) * a) by lia.
  rewrite Z.mod_mul by lia. nia.
Qed.

Lemma collect_tiles {t} c r a b p :
  0 < a < u64_modulus -> 0 <= b <= c -> 0 <= r -> c + r < u64_modulus -> p = c - b ->
  tiles a p r (collect (mkIter (t := t) c r a b)).
Proof.
  intros Ha Hb Hr Hc ->.
  apply (collect_fuel_tiles _ (mkIter c r a b)); cbn; [done..|right].
  pose proof (Z.mod_pos_bound (c - b) a ltac:(lia)).
  pose proof (Z.div_mod r a ltac:(lia)).
  pose proof (Z.mod_pos_bound r a ltac:(lia)).
  pose proof (Z.div_pos r a ltac:(lia) ltac:(lia)).
  rewrite Z2Nat.id by lia. nia.
Qed.

End Spans.

(** ** The splits the program performs *)
Section splits.
Import Spans.

(** [block_span_iter_range], with its two typed wrappers. *)
Definition block_span_iter_range (off length : Z) (l : ChunkLayout) : list (Span BlockTag) :=
  collect (split_into BlockTag (mkSpan (t := ChunkTag) 0 off length)
             (chunk_size l) (block_size l) true).
Definition block_span_iter_chunk (off length : Z) (l : ChunkLayout) : list (Span BlockTag) :=
  block_span_iter_range off length l.
Definition block_span_iter_slice (off length : Z) (l : ChunkLayout) : list (Span BlockTag) :=
  block_span_iter_range off length l.

(** [split_chunk_spans]: a file range cut at chunk boundaries. *)
Definition split_chunk_spans (l : ChunkLayout) (off length : Z) : list (Span ChunkTag) :=
  if length =? 0 then []
  else collect (split_into ChunkTag
                  (mkSpan (t := ChunkTag) (chunk_index_of l off) (within_chunk_offset l off) length)
                  (chunk_size l) (chunk_size l) false).

Lemma block_spans_tile (l : ChunkLayout) (off length : Z) :
  layout_ok l -> 0 <= off -> 0 <= length -> off + length < u64_modulus ->
  tiles (block_size l) off length (block_span_iter_range off length l).
Proof.
  intros [Hb Hc _ _] Ho Hl Hs. unfold block_span_iter_range, split_into; cbn.
  rewrite u64_mul_small, u64_add_small by u64_lia. apply collect_tiles; u64_lia.
Qed.

Lemma chunk_spans_tile (l : ChunkLayout) (off length : Z) :
  layout_ok l -> 0 <= off -> 0 <= length -> off + length < u64_modulus ->
  tiles (chunk_size l) off length (split_chunk_spans l off length).
Proof.
  intros [Hb Hc _ _] Ho Hl Hs. unfold split_chunk_spans.
  destruct (Z.eqb_spec length 0) as [->|Hn]; [constructor|].
  unfold split_into, chunk_index_of, within_chunk_offset; cbn.
  pose proof (Z.div_mod off (chunk_size l) ltac:(lia)).
  pose proof (Z.mod_pos_bound off (chunk_size l) ltac:(lia)).
  pose proof (Z.mod_le off (chunk_size l) ltac:(lia) ltac:(lia)).
  rewrite u64_mul_small, u64_add_small by u64_lia.
  apply collect_tiles; u64_lia.
Qed.

(** [block_span_iter_slice] cuts a slice range into block spans whose
    lengths add up to the range, each lies inside one block and starts exactly
    where the previous one stopped, and the block indices go up by one. *)
Theorem block_split_exact (l : ChunkLayout) (off length : Z) :
  layout_ok l -> 0 <= off -> 0 <= length -> off + length < u64_modulus ->
  let sp := block_span_iter_slice off length l in
  spans_len sp = length /\
  (forall i s, sp !! i = Some s ->
     0 < len s /\ 0 <= offset s /\ offset s + len s <= block_size l /\
     index s * block_size l + offset s = off + spans_len (take i sp)) /\
  (forall i s s', sp !! i = Some s -> sp !! S i = Some s' ->
     index s' = index s + 1 /\ offset s' = 0 /\ offset s + len s = block_size l).
Proof.
  intros Hl Ho Hn Hs sp. pose proof (block_spans_tile l off length Hl Ho Hn Hs) as Ht.
  destruct Hl. split_and!; eauto using tiles_spans_len, tiles_lookup.
  intros i s s'. eapply tiles_consecutive; [lia|done].
Qed.

(** Splitting a file range at chunk boundaries and every piece at block
    boundaries sends byte [x] of the file to chunk [x / chunk_size], to the block
    of its offset in that chunk and to the offset of that byte in the block. *)
Theorem two_level_split_addresses (l : ChunkLayout) (off length x : Z) :
  layout_ok l -> 0 <= off -> off + length < u64_modulus -> off <= x < off + length ->
  exists i cs j bs,
    split_chunk_spans l off length !! i = Some cs /\
    block_span_iter_chunk (offset cs) (len cs) l !! j = Some bs /\
    index cs = chunk_index_of l x /\
    index bs = block_index_of l (within_chunk_offset l x) /\
    offset bs <= within_block_offset l (within_chunk_offset l x) < offset bs + len bs.
Proof.
  intros Hl Ho Hs Hx. pose proof Hl as [Hb Hc Hm Hn].
  pose proof (chunk_spans_tile l off length Hl Ho ltac:(lia) Hs) as Ht.
  destruct (tiles_byte (chunk_size l) off length _ x ltac:(lia) Ht Hx) as (i&cs&Hi&Hidx&Hoff).
  destruct (tiles_lookup _ _ _ _ _ _ Ht Hi) as (?&?&?&_).
  assert (tiles (block_size l) (offset cs) (len cs) (block_span_iter_chunk (offset cs) (len cs) l))
    as Hbt by (apply block_spans_tile; lia || done).
  destruct (tiles_byte (block_size l) (offset cs) (len cs) _ (x mod chunk_size l) ltac:(lia) Hbt Hoff) as (j&bs&Hj&Hbi&Hbo).
  exists i, cs, j, bs. unfold chunk_index_of, block_index_of, within_block_offset, within_chunk_offset.
  pose proof (Z.mod_pos_bound (x mod chunk_size l) (block_size l) ltac:(lia)).
  pose proof (Z.mod_pos_bound x (chunk_size l) ltac:(lia)).
  assert (0 <= x mod chunk_size l / block_size l < u32_modulus)
    by (split; [apply Z.div_pos|apply Z.div_lt_upper_bound]; lia).
  rewrite !as_u32_small by (unfold is_u32; lia). done.
Qed.

End splits.

(** ** Chunk identifiers *)
Module ChunkId.

Definition CHUNK_ID_BASE : Z := 1000000000.

Inductive IdError := NegativeInode | ChunkIdOverflow.

Definition chunk_id_for (ino chunk_index : Z) : result IdError Z :=
  if ino <? 0 then Err NegativeInode else
  match u64_checked_mul ino CHUNK_ID_BASE with
  | None => Err ChunkIdOverflow
  | Some v => of_option ChunkIdOverflow (u64_checked_add v chunk_index)
  end.

(** [(chunk_id / BASE) as i64]: the quotient is below [2^63], so the cast keeps it. *)
Definition extract_ino_and_chunk_index (chunk_id : Z) : Z * Z :=
  (chunk_id / CHUNK_ID_BASE, chunk_id mod CHUNK_ID_BASE).

Lemma chunk_id_for_Ok ino ci id :
  chunk_id_for ino ci = Ok id <->
  0 <= ino /\ ino * CHUNK_ID_BASE < u64_modulus /\
  ino * CHUNK_ID_BASE + ci < u64_modulus /\ id = ino * CHUNK_ID_BASE + ci.
Proof.
  unfold chunk_id_for, u64_checked_mul, u64_checked_add.
  destruct (Z.ltb_spec ino 0); [split; [done|lia]|].
  destruct (Z.ltb_spec (ino * CHUNK_ID_BASE) u64_modulus); [|split; [done|lia]].
  destruct (Z.ltb_spec (ino * CHUNK_ID_BASE + ci) u64_modulus); simpl; [|split; [done|lia]].
  split; [intros [= <-]; lia|intros (?&?&?&->); done].
Qed.


(** Chunk identifiers keep the inode and the chunk index apart: an
    identifier issued for an index below the base gives both back. *)
Theorem chunk_id_roundtrip ino ci id :
  0 <= ci < CHUNK_ID_BASE -> chunk_id_for ino ci = Ok id ->
  extract_ino_and_chunk_index id = (ino, ci).
Proof.
  intros Hci (?&?&?&->)%chunk_id_for_Ok. unfold extract_ino_and_chunk_index.
  rewrite (Z.add_comm (ino * _)), Z.div_add, Z.mod_add, Z.div_small, Z.mod_small by lia.
  f_equal; lia.
Qed.

(** Above the base the identifiers collide: the index is not checked. *)
Example chunk_id_collision : chunk_id_for 1 1000000000 = chunk_id_for 2 0.
Proof. reflexivity. Qed.

End ChunkId.
