(* ===== verification/Compress.v ===== *)
(** The persisted form of a block, [src/chunk/compress.rs]: a four-byte frame
    header and the block, compressed when that pays off. What is uploaded decodes
    to the block, whichever way the upload was prepared. *)
From stdpp Require Import options.
From S2P Require Import Prelude.

(** ** Codecs

    [lz4_flex] and [zstd] are libraries; [None] is an error. [zstd_new] is whether
    a compressor can be created, [zstd_sample] what it makes of a sample. *)
Class Codecs := {
  lz4_compress_prepend_size : list byte -> list byte;
  lz4_uncompressed_size : list byte -> option (Z * list byte);
  lz4_decompress : list byte -> Z -> option (list byte);
  zstd_compress : Z -> list byte -> option (list byte);
  zstd_decompress : list byte -> Z -> option (list byte);
  zstd_new : Z -> bool;
  zstd_sample : Z -> list byte -> option (list byte)
}.

(** Both libraries document that they decompress what they compressed; the size
    that [lz4_flex] prepends is a [u32], and the [zstd] call is given a capacity. *)
Class CodecLaws `{!Codecs} := {
  lz4_roundtrip data : is_u32 (zlen data) -> exists body,
    lz4_uncompressed_size (lz4_compress_prepend_size data) = Some (zlen data, body) /\
    lz4_decompress body (zlen data) = Some data;
  zstd_roundtrip level data compressed capacity :
    zstd_compress level data = Some compressed -> zlen data <= capacity ->
    zstd_decompress compressed capacity = Some data
}.

(** ** The header *)

Definition MAGIC : list byte := [Byte.x53; Byte.x46].
Definition PERSISTED_HEADER_LEN : Z := 4.
Definition ZSTD_PROBE_MIN_BLOCK : Z := 1024 * 1024.
Definition ZSTD_PROBE_LEN : Z := 8192.

Inductive Compression := NoCompression | Lz4 | Zstd (level : Z).

#[global] Instance Compression_eq_dec : EqDecision Compression.
Proof. solve_decision. Defined.

Definition algo_byte (c : Compression) : byte :=
  match c with NoCompression => Byte.x00 | Lz4 => Byte.x01 | Zstd _ => Byte.x02 end.

Definition from_algo_byte (b : byte) : option Compression :=
  match b with
  | Byte.x00 => Some NoCompression
  | Byte.x01 => Some Lz4
  | Byte.x02 => Some (Zstd 0)
  | _ => None
  end.

Inductive PersistedHeader := Incomplete | NotFramed | Framed (c : Compression) | Invalid.

Definition parse_persisted_header (data : list byte) : PersistedHeader :=
  if zlen data <? PERSISTED_HEADER_LEN then Incomplete else
  if negb (bool_decide (take 2 data = MAGIC)) then NotFramed else
  if negb (bool_decide (data !! 3%nat = Some Byte.x00)) then Invalid else
  match b ← data !! 2%nat; from_algo_byte b with
  | Some compression => Framed compression
  | None => Invalid
  end.

(** ** Encoding *)

(** [Cow]: the input itself or new bytes. *)
Inductive Cow := Borrowed (data : list byte) | Owned (data : list byte).

Section encode.
Context {codecs : Codecs}.

(** The loop over the samples, with the decision after it. *)
Fixpoint probe_loop (level : Z) (samples : list (list byte)) (compressed_len : Z) : bool :=
  match samples with
  | [] => compressed_len * 100 <? 3 * ZSTD_PROBE_LEN * 95
  | sample :: rest =>
      match zstd_sample level sample with
      | None => true
      | Some compressed =>
          if zlen compressed * 5 <=? zlen sample * 4 then true
          else probe_loop level rest (compressed_len + zlen compressed)
      end
  end.

Definition zstd_samples_worth_compressing (level : Z) (s0 s1 s2 : list byte) : bool :=
  if bool_decide (s0 = s1) || bool_decide (s0 = s2) || bool_decide (s1 = s2) then true else
  if negb (zstd_new level) then true else probe_loop level [s0; s1; s2] 0.

(** [Err] is an error of the encoder, [Ok None] the decision to store raw. *)
Definition compress_zstd (data : list byte) (level : Z) : result unit (option (list byte)) :=
  let len := zlen data in
  if (ZSTD_PROBE_MIN_BLOCK <=? len)
     && negb (zstd_samples_worth_compressing level
          (subrange data 0 ZSTD_PROBE_LEN) (subrange data (len / 2) ZSTD_PROBE_LEN)
          (subrange data (len - ZSTD_PROBE_LEN) ZSTD_PROBE_LEN))
  then Ok None
  else let? compressed := of_option tt (zstd_compress level data) in Ok (Some compressed).

Definition header (c : Compression) : list byte := MAGIC ++ [algo_byte c; Byte.x00].

Definition compress (data : list byte) (algo : Compression) : Cow :=
  let finish compressed_body :=
    if zlen data <=? zlen compressed_body + PERSISTED_HEADER_LEN then Borrowed data
    else Owned (header algo ++ compressed_body) in
  match algo with
  | NoCompression => Borrowed data
  | Lz4 => if bool_decide (data = []) then Borrowed data else finish (lz4_compress_prepend_size data)
  | Zstd level =>
      if bool_decide (data = []) then Borrowed data else
      match compress_zstd data level with
      | Ok (Some compressed) => finish compressed
      | Ok None | Err _ => Borrowed data
      end
  end.

Definition encode_persisted_block (data : list byte) (compression : Compression) : list byte :=
  match compress data compression with
  | Owned encoded => encoded
  | Borrowed raw => header NoCompression ++ raw
  end.

(** The raw block for the cache, and the frame. *)
Definition encode_persisted_block_vectored (parts : list (list byte)) (compression : Compression)
  : list byte * list byte :=
  match parts with
  | [single] => (single, encode_persisted_block single compression)
  | _ =>
      let framed := header NoCompression ++ concat parts in
      let raw := drop (Z.to_nat PERSISTED_HEADER_LEN) framed in
      (raw, match compress raw compression with Owned encoded => encoded | Borrowed _ => framed end)
  end.

(** One sample gathered from the parts into [sampled] at [base]; [part_start] is
    where the parts left begin in the block. *)
Fixpoint copy_sample (base start part_start : Z) (parts : list (list byte)) (sampled : list byte)
  : list byte :=
  match parts with
  | [] => sampled
  | part :: rest =>
      let begin := Z.max start part_start in
      let end_ := Z.min (start + ZSTD_PROBE_LEN) (part_start + zlen part) in
      let sampled := if begin <? end_
        then splice sampled (Z.to_nat (base + begin - start))
               (subrange part (begin - part_start) (end_ - begin))
        else sampled in
      let part_start := part_start + zlen part in
      if start + ZSTD_PROBE_LEN <=? part_start then sampled
      else copy_sample base start part_start rest sampled
  end.

Record PersistedUpload := mkUpload {
  cache_block : option (list byte); chunks : list (list byte); compression : Compression }.

(** Whether a large block is uploaded raw, its parts shared with the backend. *)
Definition shares_parts (parts : list (list byte)) (c : Compression) : bool :=
  let total_len := zlen (concat parts) in
  match c with
  | NoCompression => true
  | Lz4 => false
  | Zstd level =>
      let sampled := replicate (Z.to_nat (3 * ZSTD_PROBE_LEN)) Byte.x00 in
      let sampled := copy_sample 0 0 0 parts sampled in
      let sampled := copy_sample ZSTD_PROBE_LEN (total_len / 2) 0 parts sampled in
      let sampled := copy_sample (2 * ZSTD_PROBE_LEN) (total_len - ZSTD_PROBE_LEN) 0 parts sampled in
      negb (zstd_samples_worth_compressing level (subrange sampled 0 ZSTD_PROBE_LEN)
              (subrange sampled ZSTD_PROBE_LEN ZSTD_PROBE_LEN)
              (drop (Z.to_nat (2 * ZSTD_PROBE_LEN)) sampled))
  end.

(** [None]: the [unreachable!] branch, see [prepare_frame]. *)
Definition prepare_persisted_upload (parts : list (list byte)) (c : Compression) (needs_contiguous : bool)
  : option PersistedUpload :=
  if negb needs_contiguous && (ZSTD_PROBE_MIN_BLOCK <=? zlen (concat parts)) && shares_parts parts c
  then Some (mkUpload None (header NoCompression :: parts) NoCompression)
  else
    let '(block, frame) := encode_persisted_block_vectored parts c in
    match parse_persisted_header frame with
    | Framed c => Some (mkUpload (Some block) [frame] c)
    | _ => None
    end.

(** ** Decoding *)

Inductive DecodeError := TruncatedHeader | MissingHeader | UnsupportedHeader | TooLarge | CodecFailed.

Definition decompress_framed (data : list byte) (max_decoded_len : Z) : result DecodeError Cow :=
  match parse_persisted_header data with
  | Incomplete => Err TruncatedHeader
  | NotFramed => Err MissingHeader
  | Invalid => Err UnsupportedHeader
  | Framed algo =>
      let body := drop (Z.to_nat PERSISTED_HEADER_LEN) data in
      match algo with
      | NoCompression => if zlen body <=? max_decoded_len then Ok (Borrowed body) else Err TooLarge
      | Lz4 =>
          let? (decoded_len, compressed) := of_option CodecFailed (lz4_uncompressed_size body) in
          if decoded_len <=? max_decoded_len
          then let? d := of_option CodecFailed (lz4_decompress compressed decoded_len) in Ok (Owned d)
          else Err TooLarge
      | Zstd _ => let? d := of_option CodecFailed (zstd_decompress body max_decoded_len) in Ok (Owned d)
      end
  end.

Definition decompress (data : list byte) (max_decoded_len : Z) : result DecodeError Cow :=
  if (zlen data <? 4) || negb (bool_decide (take 2 data = MAGIC))
  then if zlen data <=? max_decoded_len then Ok (Borrowed data) else Err TooLarge
  else decompress_framed data max_decoded_len.

Definition cow_bytes (c : Cow) : list byte := match c with Borrowed d | Owned d => d end.

(** The offsets of a borrowed part inside its buffer select that part. *)
Definition decompress_bytes (data : list byte) (max_decoded_len : Z) : result DecodeError (list byte) :=
  let? c := decompress data max_decoded_len in Ok (cow_bytes c).
Definition decompress_framed_bytes (data : list byte) (max_decoded_len : Z)
  : result DecodeError (list byte) :=
  let? c := decompress_framed data max_decoded_len in Ok (cow_bytes c).
End encode.

(** ** The frame header *)

Lemma parse_header c body : parse_persisted_header (header c ++ body) =
  Framed (match c with Zstd _ => Zstd 0 | c => c end).
Proof.
  unfold parse_persisted_header, PERSISTED_HEADER_LEN. rewrite length_app.
  destruct (Z.ltb_spec (Z.of_nat (length (header c) + length body)) 4) as [Hs|_]; [cbn in Hs; lia|].
  rewrite !bool_decide_eq_true_2 by done. by destruct c.
Qed.

Lemma drop_header c body : drop (Z.to_nat PERSISTED_HEADER_LEN) (header c ++ body) = body.
Proof. done. Qed.

Section facts.
Context {codecs : Codecs}.

(** What [compress] makes is a frame of the block, or the block. *)
Lemma compress_cases data c :
  compress data c = Borrowed data \/
  exists body, compress data c = Owned (header c ++ body) /\
    match c with
    | NoCompression => False
    | Lz4 => body = lz4_compress_prepend_size data
    | Zstd level => zstd_compress level data = Some body
    end.
Proof.
  unfold compress, compress_zstd. destruct c as [| |level]; [auto|..]; destruct (bool_decide _); [auto| |auto|].
  - destruct (_ <=? _); eauto.
  - destruct (_ && _); [auto|]. destruct (zstd_compress level data) eqn:E; cbn; [|auto].
    destruct (_ <=? _); eauto.
Qed.

Lemma encode_cases data c :
  encode_persisted_block data c = header NoCompression ++ data \/
  exists body, encode_persisted_block data c = header c ++ body /\
    match c with
    | NoCompression => False
    | Lz4 => body = lz4_compress_prepend_size data
    | Zstd level => zstd_compress level data = Some body
    end.
Proof.
  unfold encode_persisted_block. destruct (compress_cases data c) as [->|(body & -> & ?)]; eauto.
Qed.

(** The vectored encoder gives the block and its frame, however it is cut. *)
Lemma encode_vectored parts c :
  encode_persisted_block_vectored parts c = (concat parts, encode_persisted_block (concat parts) c).
Proof.
  assert (match compress (concat parts) c with
    | Owned encoded => encoded
    | Borrowed _ => header NoCompression ++ concat parts end = encode_persisted_block (concat parts) c) as E.
  { unfold encode_persisted_block. by destruct (compress_cases (concat parts) c) as [->|(body & -> & _)]. }
  unfold encode_persisted_block_vectored. rewrite drop_header, E.
  destruct parts as [|p [|q parts]]; [done| |done]. cbn [concat]. by rewrite app_nil_r.
Qed.

(** ** Sampling

    A sample gathered from the parts is that range of the block. *)

Lemma copy_sample_exact pre parts : forall base start sampled,
  let block := pre ++ concat parts in
  0 <= start -> 0 <= base -> zlen pre < start + ZSTD_PROBE_LEN -> start + ZSTD_PROBE_LEN <= zlen block ->
  base + ZSTD_PROBE_LEN <= zlen sampled ->
  let from := Z.max start (zlen pre) in
  copy_sample base start (zlen pre) parts sampled =
    splice sampled (Z.to_nat (base + from - start)) (subrange block from (start + ZSTD_PROBE_LEN - from)).
Proof.
  revert pre. induction parts as [|part parts IH]; intros pre base start sampled block Hs Hb Hp He Hl from;
    subst block from; cbn [concat] in *; unfold ZSTD_PROBE_LEN in *.
  { rewrite app_nil_r in He. lia. }
  cbn [copy_sample]. unfold ZSTD_PROBE_LEN. rewrite !length_app in He.
  set (begin := Z.max start (zlen pre)). set (end_ := Z.min (start + 8192) (zlen pre + zlen part)).
  assert (forall n, begin + n <= zlen pre + zlen part -> 0 <= n ->
    subrange part (begin - zlen pre) n = subrange (pre ++ part ++ concat parts) begin n) as Hpart.
  { intros n Hn Hn0. replace begin with (zlen pre + (begin - zlen pre)) at 2 by lia.
    rewrite subrange_app_r, subrange_app_l by lia. done. }
  destruct (Z.leb_spec (start + 8192) (zlen pre + zlen part)) as [Hd|Hd].
  - destruct (Z.ltb_spec begin end_); [|lia]. rewrite Hpart by lia. f_equal. f_equal. lia.
  - specialize (IH (pre ++ part) base start). rewrite length_app, Nat2Z.inj_add in IH.
    rewrite <-app_assoc in IH. set (block := pre ++ part ++ concat parts) in *.
    assert (zlen block = zlen pre + zlen part + zlen (concat parts)) as Hbl by (subst block; rewrite !length_app; lia).
    destruct (Z.ltb_spec begin end_) as [Hc|Hc].
    + rewrite Hpart by lia. assert (zlen (subrange block begin (end_ - begin)) = end_ - begin) as Hsub
        by (apply length_subrange; lia).
      rewrite IH by (rewrite ?length_splice; lia).
      replace (Z.max start (zlen pre + zlen part)) with end_ by lia.
      replace (Z.to_nat (base + end_ - start))
        with (Z.to_nat (base + begin - start) + length (subrange block begin (end_ - begin)))%nat by lia.
      rewrite splice_app_split; [f_equal|].
      * replace end_ with (begin + (end_ - begin)) at 2 by lia. rewrite subrange_split by lia. f_equal. lia.
      * assert (zlen (subrange block end_ (start + 8192 - end_)) = start + 8192 - end_)
          by (apply length_subrange; lia). lia.
    + rewrite IH by lia. f_equal; f_equal; lia.
Qed.

Lemma splice_all {A} (l d : list A) : length d = length l -> splice l 0 d = d.
Proof. intros H. unfold splice. cbn. by rewrite H, skipn_all, app_nil_r. Qed.

Lemma three_samples {A} (l a b c : list A) n :
  length l = (3 * n)%nat -> length a = n -> length b = n -> length c = n ->
  splice (splice (splice l 0 a) n b) (2 * n) c = a ++ b ++ c.
Proof.
  intros Hl Ha Hb Hc. replace (splice (splice l 0 a) n b) with (splice l 0 (a ++ b)).
  2: { subst n. rewrite <-splice_app_split by lia. f_equal. }
  replace (2 * n)%nat with (0 + length (a ++ b))%nat by (rewrite length_app; lia).
  rewrite splice_app_split, splice_all, app_assoc; rewrite ?length_app; (done || lia).
Qed.

(** Sampling the parts decides like sampling the contiguous block. *)
Lemma shares_parts_exact parts level : let d := concat parts in
  ZSTD_PROBE_MIN_BLOCK <= zlen d ->
  shares_parts parts (Zstd level) = negb (zstd_samples_worth_compressing level
    (subrange d 0 ZSTD_PROBE_LEN) (subrange d (zlen d / 2) ZSTD_PROBE_LEN)
    (subrange d (zlen d - ZSTD_PROBE_LEN) ZSTD_PROBE_LEN)).
Proof.
  intros d Hd. unfold ZSTD_PROBE_MIN_BLOCK in Hd.
  assert (0 <= zlen d / 2 <= zlen d - ZSTD_PROBE_LEN) as Hhalf.
  { unfold ZSTD_PROBE_LEN. split; [apply Z.div_pos; lia|]. apply Z.div_le_upper_bound; lia. }
  assert (ZSTD_PROBE_LEN <= zlen d) as Hfit by (unfold ZSTD_PROBE_LEN; lia).
  assert (0 < ZSTD_PROBE_LEN) as Hpos by done.
  assert (forall start, 0 <= start -> start + ZSTD_PROBE_LEN <= zlen d ->
    length (subrange d start ZSTD_PROBE_LEN) = Z.to_nat ZSTD_PROBE_LEN) as Hlen.
  { intros start ??. pose proof (length_subrange d start ZSTD_PROBE_LEN). lia. }
  assert (forall base start sampled, 0 <= start -> 0 <= base -> start + ZSTD_PROBE_LEN <= zlen d ->
    base + ZSTD_PROBE_LEN <= zlen sampled -> copy_sample base start 0 parts sampled =
      splice sampled (Z.to_nat base) (subrange d start ZSTD_PROBE_LEN)) as Hcopy.
  { intros base start sampled ????. pose proof (copy_sample_exact [] parts base start sampled) as Hc.
    cbn [length app] in Hc. change (Z.of_nat 0) with 0 in Hc. cbv zeta in Hc. fold d in Hc. rewrite Hc by lia. f_equal; f_equal; lia. }
  unfold shares_parts. fold d. set (z := replicate _ _).
  assert (length z = 3 * Z.to_nat ZSTD_PROBE_LEN)%nat as Hz by (subst z; rewrite length_replicate; lia).
  assert (forall base start sampled, 0 <= start -> 0 <= base -> start + ZSTD_PROBE_LEN <= zlen d ->
    base + ZSTD_PROBE_LEN <= zlen sampled ->
    length (splice sampled (Z.to_nat base) (subrange d start ZSTD_PROBE_LEN)) = length sampled) as Hsp
    by (intros; apply length_splice; rewrite Hlen; lia).
  rewrite (Hcopy 0 0 z), (Hcopy ZSTD_PROBE_LEN (zlen d / 2)), Hcopy by (rewrite ?Hsp; rewrite ?Hsp; lia).
  change (Z.to_nat 0) with 0%nat. replace (Z.to_nat (2 * ZSTD_PROBE_LEN)) with (2 * Z.to_nat ZSTD_PROBE_LEN)%nat by lia.
  rewrite three_samples by (exact Hz || apply Hlen; lia). f_equal. f_equal.
  - rewrite subrange_app_l by (rewrite ?Hlen; lia). apply subrange_all. rewrite Hlen by lia. lia.
  - assert (forall k, subrange (subrange d 0 ZSTD_PROBE_LEN ++ k) ZSTD_PROBE_LEN ZSTD_PROBE_LEN
      = subrange k 0 ZSTD_PROBE_LEN) as ->.
    { intros k. pose proof (subrange_app_r (subrange d 0 ZSTD_PROBE_LEN) k 0 ZSTD_PROBE_LEN) as E.
      rewrite Hlen in E by lia. rewrite <-E by lia. f_equal; lia. }
    rewrite subrange_app_l by (rewrite ?Hlen; lia). apply subrange_all. rewrite Hlen by lia. lia.
  - rewrite app_assoc. rewrite skipn_app, skipn_all2 by (rewrite length_app, !Hlen; lia).
    rewrite length_app, !Hlen by lia. replace (_ - _)%nat with 0%nat by lia. done.
Qed.

(** An upload carries the frame of the block. *)
Lemma prepare_frame parts c contiguous : exists u, prepare_persisted_upload parts c contiguous = Some u /\
  concat (chunks u) = encode_persisted_block (concat parts) c /\
  parse_persisted_header (concat (chunks u)) = Framed (compression u) /\
  (cache_block u = Some (concat parts) \/ cache_block u = None /\ contiguous = false).
Proof.
  unfold prepare_persisted_upload. destruct (negb contiguous && _ && _) eqn:E.
  - apply andb_true_iff in E as [[Hn Hm]%andb_true_iff Hs]. eexists. split; [done|]. cbn [chunks concat compression cache_block].
    rewrite parse_header. split; [|split; [done|right; by destruct contiguous]].
    unfold encode_persisted_block, compress, compress_zstd. destruct c as [| |level]; [done|done|].
    rewrite shares_parts_exact in Hs by lia. destruct (bool_decide _); [done|]. by rewrite Hm, Hs.
  - rewrite encode_vectored. destruct (encode_cases (concat parts) c) as [->|(body & -> & _)];
      rewrite parse_header; eexists; (split; [done|]); cbn [chunks concat compression cache_block];
      rewrite app_nil_r, parse_header; auto.
Qed.

Lemma encode_decodes {laws : CodecLaws} data c max : is_u32 (zlen data) -> zlen data <= max ->
  decompress_framed_bytes (encode_persisted_block data c) max = Ok data.
Proof.
  intros Hu Hm. unfold decompress_framed_bytes, decompress_framed.
  destruct (encode_cases data c) as [->|(body & -> & Hb)]; rewrite parse_header, drop_header.
  - by destruct (Z.leb_spec (zlen data) max); [|lia].
  - destruct c as [| |level]; [done|subst body|].
    + destruct (lz4_roundtrip data Hu) as (body & -> & Hd). cbn [of_option result_bind].
      destruct (Z.leb_spec (zlen data) max); [|lia]. by rewrite Hd.
    + by rewrite (zstd_roundtrip level data body max Hb Hm).
Qed.
End facts.


(** A codec that knows runs of zeros, in the layout of both libraries. *)
Definition w_pack (data : list byte) : list byte :=
  if bool_decide (data = replicate (length data) Byte.x00) then [Byte.x00] else Byte.x01 :: data.
Definition w_unpack (packed : list byte) (n : Z) : option (list byte) :=
  match packed with
  | [Byte.x00] => Some (replicate (Z.to_nat n) Byte.x00)
  | Byte.x01 :: data => Some data
  | _ => None
  end.
Definition w_size (body : list byte) : option (Z * list byte) :=
  if zlen body <? 4 then None else Some (from_le_bytes (take 4 body), drop 4 body).

#[local] Instance w_codecs : Codecs := {|
  lz4_compress_prepend_size data := to_le_bytes 4 (zlen data) ++ w_pack data;
  lz4_uncompressed_size := w_size;
  lz4_decompress := w_unpack;
  zstd_compress _ data := if zlen data <? u32_modulus
    then Some (to_le_bytes 4 (zlen data) ++ w_pack data) else None;
  zstd_decompress body capacity :=
    '(n, packed) ← w_size body; if n <=? capacity then w_unpack packed n else None;
  zstd_new _ := true;
  zstd_sample _ data := Some (w_pack data)
|}.

Lemma w_unpack_pack data : w_unpack (w_pack data) (zlen data) = Some data.
Proof.
  unfold w_pack. case_bool_decide as E; [|done]. cbn [w_unpack]. by rewrite Nat2Z.id, <-E.
Qed.

Lemma w_size_pack data : is_u32 (zlen data) ->
  w_size (to_le_bytes 4 (zlen data) ++ w_pack data) = Some (zlen data, w_pack data).
Proof.
  intros Hu. unfold w_size. rewrite length_app, length_to_le_bytes.
  destruct (Z.ltb_spec (Z.of_nat (4 + length (w_pack data))) 4); [lia|].
  rewrite take_app_length', drop_app_length' by (by rewrite length_to_le_bytes). by rewrite from_to_le_bytes_u32.
Qed.

#[local] Instance w_codec_laws : CodecLaws.
Proof.
  split; cbv [lz4_uncompressed_size lz4_compress_prepend_size lz4_decompress zstd_compress zstd_decompress w_codecs].
  - intros data Hu. exists (w_pack data). split; [by apply w_size_pack|apply w_unpack_pack].
  - intros _ data compressed capacity Hc Hm. destruct (Z.ltb_spec (zlen data) u32_modulus); [|done].
    apply (inj Some) in Hc as <-. rewrite w_size_pack by u64_lia. cbn [mbind option_bind].
    destruct (Z.leb_spec (zlen data) capacity); [apply w_unpack_pack|lia].
Qed.

