(* ===== verification/Coalesce.v ===== *)
(** Shared objects for small slices, [src/chunk/store/coalesce.rs]: the ids of
    their members, the indexed object format, and the queue that forms groups. *)
From stdpp Require Import options.
From S2P Require Import Prelude Compress.

(** ** Ids *)

Definition ID_FLAG : Z := Z.shiftl 1 52.
Definition MAX_MEMBER_BYTES : Z := 65536.
Definition MAX_MEMBERS : Z := 32.
Definition HEADER : Z := 64.
Definition ENTRY : Z := 48.
Definition MAX_OBJECT : Z := Z.shiftl 4 20.
(** The bytes of [BFSCOA01]. *)
Definition GROUP_MAGIC : list byte :=
  [Byte.x42; Byte.x46; Byte.x53; Byte.x43; Byte.x4f; Byte.x41; Byte.x30; Byte.x31].

Inductive GroupError :=
| IdExhausted | InvalidGroupSize | ObjectTooLarge
| InvalidLength | InvalidMagic | GroupMismatch | InvalidBounds | IndexDigestMismatch
| InvalidMember | MemberExceedsObject | TrailingBytes
| MemberDigestMismatch | MemberDecode (e : DecodeError) | DecodedLengthMismatch
| Ineligible | RegisterFailed | PutFailed.

Definition encode_id (group slot : Z) : result GroupError Z :=
  if (1 <=? group) && (group <? Z.shiftl 1 47) && (slot <? MAX_MEMBERS)
  then Ok (Z.lor (Z.lor ID_FLAG (Z.shiftl group 5)) slot) else Err IdExhausted.

Definition decode_id (id : Z) : option (Z * Z) :=
  if (ID_FLAG <=? id) && (id <? ID_FLAG * 2)
  then Some (Z.shiftr (Z.ldiff id ID_FLAG) 5, Z.land id 31) else None.

Definition object_key (group : Z) : string := ("chunks-coalesced-v1/" ++ pretty group ++ "/0")%string.
Definition ledger_key (group : Z) : string := ("write_coalesce/" ++ pretty group)%string.

(** ** The object *)

Record IndexEntry := mkEntry { e_offset : Z; e_stored : Z; e_raw : Z; e_digest : list byte }.

(** [m_meta] is the identity of the metadata layer the member is for; the memory
    and upload permits and the answer channel carry no data. *)
Record Member := mkMember {
  m_seed : Z; m_chunk_id : Z; m_raw : Z; m_frame : list byte; m_meta : Z }.

Section format.
Context {codecs : Codecs}.
(** [Sha256::digest]. *)
Context (digest : list byte -> list byte).

Definition encode_entry (offset : Z) (m : Member) : list byte :=
  to_le_bytes 4 offset ++ to_le_bytes 4 (zlen (m_frame m)) ++ to_le_bytes 4 (m_raw m) ++
  replicate 4 Byte.x00 ++ digest (m_frame m).

Fixpoint encode_entries (offset : Z) (members : list Member) : list byte :=
  match members with
  | [] => []
  | m :: rest => encode_entry offset m ++ encode_entries (offset + zlen (m_frame m)) rest
  end.

Definition frames (members : list Member) : list byte := concat (m_frame <$> members).

Definition encode_object (group : Z) (members : list Member) : result GroupError (list byte) :=
  if bool_decide (members = []) || (MAX_MEMBERS <? zlen members) then Err InvalidGroupSize else
  let index_len := HEADER + ENTRY * zlen members in
  let total := index_len + zlen (frames members) in
  if MAX_OBJECT <? total then Err ObjectTooLarge else
  let fixed := GROUP_MAGIC ++ to_le_bytes 8 group ++ to_le_bytes 4 (zlen members) ++
    to_le_bytes 4 index_len ++ to_le_bytes 8 total in
  let index := encode_entries index_len members in
  Ok (fixed ++ digest (fixed ++ index) ++ index ++ frames members).

(** The loop over the slots; [cursor] is where the next member begins. *)
Fixpoint parse_entries (data : list byte) (count : nat) (slot cursor : Z) (acc : list IndexEntry)
  : result GroupError (list IndexEntry * Z) :=
  match count with
  | O => Ok (acc, cursor)
  | S count =>
      let start := HEADER + slot * ENTRY in
      let offset := from_le_bytes (subrange data start 4) in
      let stored := from_le_bytes (subrange data (start + 4) 4) in
      let raw := from_le_bytes (subrange data (start + 8) 4) in
      if (offset =? cursor) && ((PERSISTED_HEADER_LEN <=? stored) && (stored <=? MAX_MEMBER_BYTES + 1024))
         && (0 <? raw) && (raw <=? MAX_MEMBER_BYTES)
         && bool_decide (subrange data (start + 12) 4 = replicate 4 Byte.x00)
      then
        let cursor := cursor + stored in
        if cursor <=? zlen data then
          parse_entries data count (slot + 1) cursor
            (acc ++ [mkEntry offset stored raw (subrange data (start + 16) 32)])
        else Err MemberExceedsObject
      else Err InvalidMember
  end.

Definition parse_index (group : Z) (data : list byte) : result GroupError (list IndexEntry) :=
  if negb ((HEADER <=? zlen data) && (zlen data <=? MAX_OBJECT)) then Err InvalidLength else
  if negb (bool_decide (subrange data 0 8 = GROUP_MAGIC)) then Err InvalidMagic else
  if negb (from_le_bytes (subrange data 8 8) =? group) then Err GroupMismatch else
  let count := from_le_bytes (subrange data 16 4) in
  let index_len := from_le_bytes (subrange data 20 4) in
  let total := from_le_bytes (subrange data 24 8) in
  if negb ((0 <? count) && (count <=? MAX_MEMBERS) && (index_len =? HEADER + count * ENTRY)
           && (index_len <=? zlen data) && (total =? zlen data)) then Err InvalidBounds else
  if negb (bool_decide (digest (subrange data 0 32 ++ subrange data HEADER (index_len - HEADER))
                        = subrange data 32 32)) then Err IndexDigestMismatch else
  let? (entries, cursor) := parse_entries data (Z.to_nat count) 0 index_len [] in
  if cursor =? zlen data then Ok entries else Err TrailingBytes.

Definition decode_member (entry : IndexEntry) (frame : list byte) : result GroupError (list byte) :=
  if negb ((zlen frame =? e_stored entry) && bool_decide (digest frame = e_digest entry))
  then Err MemberDigestMismatch else
  match decompress_framed_bytes frame MAX_MEMBER_BYTES with
  | Err e => Err (MemberDecode e)
  | Ok bytes => if zlen bytes =? e_raw entry then Ok bytes else Err DecodedLengthMismatch
  end.

(** ** Upload of a group

    What the upload does outside the process, in order. *)
Inductive Effect :=
| Register (group : Z) (descriptors : list (Z * Z * Z))
| Put (key : string) (body : list byte).

Fixpoint descriptors_of (group slot : Z) (members : list Member) : result GroupError (list (Z * Z * Z)) :=
  match members with
  | [] => Ok []
  | m :: rest =>
      let? id := encode_id group slot in
      let? ds := descriptors_of group (slot + 1) rest in
      Ok ((id, m_chunk_id m, m_raw m) :: ds)
  end.

(** Five attempts; [put_ok n] is whether attempt [n] succeeds. *)
Fixpoint put_attempts (put_ok : nat -> bool) (key : string) (body : list byte) (left_ attempt : nat)
  : result GroupError unit * list Effect :=
  match left_ with
  | O => (Err PutFailed, [])
  | S left_ =>
      if put_ok attempt then (Ok tt, [Put key body]) else
      let '(r, es) := put_attempts put_ok key body left_ (S attempt) in (r, Put key body :: es)
  end.

Definition upload_group (register_ok : bool) (put_ok : nat -> bool) (members : list Member)
  : result GroupError Z * list Effect :=
  let group := default 0 (m_seed <$> head members) in
  match descriptors_of group 0 members with
  | Err e => (Err e, [])
  | Ok descriptors =>
      if negb register_ok then (Err RegisterFailed, [Register group descriptors]) else
      match encode_object group members with
      | Err e => (Err e, [Register group descriptors])
      | Ok body =>
          let '(r, es) := put_attempts put_ok (object_key group) body 5 0 in
          (let? _ := r in Ok group, Register group descriptors :: es)
      end
  end.

(** What [spawn_group] answers to the members, by slot. *)
Definition answers (result : result GroupError Z) (members : list Member) : list (Prelude.result GroupError Z) :=
  imap (fun slot _ => let? group := result in encode_id group (Z.of_nat slot)) members.
End format.

(** ** The queue *)

Record Pending := mkPending { generation : Z; p_raw : Z; members : list Member }.

Definition new_queue : Pending := mkPending 0 0 [].

(** [Coalescer::take]: what a timer of [generation] finds. *)
Definition take_group (p : Pending) (gen : Z) : Pending * list Member :=
  if negb (generation p =? gen) then (p, []) else (mkPending (generation p) 0 [], members p).

Record Enqueued := mkEnqueued {
  q_pending : Pending;
  q_previous : list Member;  (** a group of another metadata layer, now sent *)
  q_ready : list Member;     (** a group that is full, now sent *)
  q_timer : option Z         (** the generation of the timer that was started *)
}.

(** The critical section of [enqueue_coalesced] and what it decides. *)
Definition enqueue (write_coalesce_bytes : Z) (p : Pending) (m : Member) : Enqueued :=
  let foreign := match members p with first :: _ => negb (m_meta first =? m_meta m) | [] => false end in
  let previous := if foreign then members p else [] in
  let p := if foreign then mkPending (generation p) 0 [] else p in
  let first := bool_decide (members p = []) in
  let gen := if first then generation p + 1 else generation p in
  let raw := p_raw p + m_raw m in
  let ms := members p ++ [m] in
  if (write_coalesce_bytes <=? raw) || (zlen ms =? MAX_MEMBERS)
  then mkEnqueued (mkPending gen 0 []) previous ms None
  else mkEnqueued (mkPending gen raw ms) previous [] (if first then Some gen else None).

(** [enqueue_coalesced]: the checks, and the member that is queued. *)
Definition enqueue_coalesced {codecs : Codecs} (write_coalesce_bytes limit : Z) (c : Compression)
    (p : Pending) (seed chunk_id : Z) (parts : list (list byte)) (meta : Z) : result GroupError Enqueued :=
  let? _ := encode_id seed 0 in
  let raw := zlen (concat parts) in
  if (0 <? raw) && (raw <=? limit) then
    let frame := (encode_persisted_block_vectored parts c).2 in
    Ok (enqueue write_coalesce_bytes p (mkMember seed chunk_id raw frame meta))
  else Err Ineligible.

(** ** Ids round trip *)

Lemma high_bit b n i : 0 <= b < 2 ^ n -> 0 <= n <= i -> Z.testbit b i = false.
Proof. intros. rewrite <-(Z.mod_small b (2 ^ n)) by lia. apply Z.mod_pow2_bits_high. lia. Qed.

Lemma land_shiftl a b n : 0 <= n -> 0 <= b < 2 ^ n -> Z.land (Z.shiftl a n) b = 0.
Proof.
  intros Hn Hb. apply Z.bits_inj'. intros i Hi. rewrite Z.land_spec, Z.bits_0, Z.shiftl_spec by done.
  destruct (Z.lt_ge_cases i n); [by rewrite Z.testbit_neg_r by lia|].
  by rewrite (high_bit b n), andb_false_r.
Qed.

Lemma lor_shiftl a b n : 0 <= n -> 0 <= b < 2 ^ n -> Z.lor (Z.shiftl a n) b = a * 2 ^ n + b.
Proof.
  intros. rewrite <-Z.lxor_lor, <-Z.add_nocarry_lxor, Z.shiftl_mul_pow2; auto using land_shiftl.
Qed.

Lemma encode_id_value group slot id : 0 <= slot -> encode_id group slot = Ok id ->
  1 <= group < 2 ^ 47 /\ slot < 32 /\ id = 2 ^ 52 + group * 32 + slot.
Proof.
  intros Hs. unfold encode_id, MAX_MEMBERS. change (Z.shiftl 1 47) with (2 ^ 47).
  destruct (Z.leb_spec 1 group), (Z.ltb_spec group (2 ^ 47)), (Z.ltb_spec slot 32); try done.
  intros [= <-]. split_and!; [lia..|]. change ID_FLAG with (Z.shiftl 1 52).
  rewrite <-Z.lor_assoc, (lor_shiftl group slot 5), lor_shiftl by lia. lia.
Qed.

Lemma decode_id_value group slot : 0 <= slot < 32 -> 0 <= group < 2 ^ 47 ->
  decode_id (2 ^ 52 + group * 32 + slot) = Some (group, slot).
Proof.
  intros Hs Hg. unfold decode_id. change ID_FLAG with (2 ^ 52).
  destruct (Z.leb_spec (2 ^ 52) (2 ^ 52 + group * 32 + slot)); [|lia].
  destruct (Z.ltb_spec (2 ^ 52 + group * 32 + slot) (2 ^ 52 * 2)); [|lia]. cbn [andb].
  assert (2 ^ 52 + group * 32 + slot = Z.lor (Z.shiftl 1 52) (group * 32 + slot)) as ->
    by (rewrite lor_shiftl; lia).
  assert (Z.ldiff (Z.lor (Z.shiftl 1 52) (group * 32 + slot)) (2 ^ 52) = group * 32 + slot) as ->.
  { apply Z.bits_inj'. intros i Hi. change (Z.shiftl 1 52) with (2 ^ 52).
    rewrite Z.ldiff_spec, Z.lor_spec, Z.pow2_bits_eqb by lia. destruct (Z.eqb_spec 52 i) as [<-|].
    - rewrite (high_bit (group * 32 + slot) 52) by lia. done.
    - by rewrite orb_false_l, andb_true_r. }
  f_equal. f_equal.
  - rewrite Z.shiftr_div_pow2 by lia. change (2 ^ 5) with 32. rewrite Z.div_add_l by lia.
    rewrite Z.div_small by lia. lia.
  - change 31 with (Z.ones 5). rewrite Z.land_ones, lor_shiftl by lia.
    change (2 ^ 5) with 32. replace (1 * 2 ^ 52 + (group * 32 + slot)) with (slot + (2 ^ 47 + group) * 32) by lia.
    rewrite Z.mod_add, Z.mod_small by lia. done.
Qed.

Lemma coalesced_ids group slot id : 0 <= slot -> encode_id group slot = Ok id ->
  decode_id id = Some (group, slot).
Proof. intros Hs H%encode_id_value; [|done]. destruct H as (? & ? & ->). apply decode_id_value; lia. Qed.

(** ** The object round trips *)

(** The entries of members whose frames begin at [cursor]. *)
Fixpoint entries_of (digest : list byte -> list byte) (cursor : Z) (ms : list Member) : list IndexEntry :=
  match ms with
  | [] => []
  | m :: rest => mkEntry cursor (zlen (m_frame m)) (m_raw m) (digest (m_frame m))
                   :: entries_of digest (cursor + zlen (m_frame m)) rest
  end.

(** A member as [enqueue_coalesced] makes them. *)
Definition member_ok (m : Member) : Prop :=
  PERSISTED_HEADER_LEN <= zlen (m_frame m) <= MAX_MEMBER_BYTES + 1024 /\ 0 < m_raw m <= MAX_MEMBER_BYTES.

(** Entries that tile the object from [cursor] to [end_]. *)
Fixpoint entries_tile (cursor end_ : Z) (es : list IndexEntry) : Prop :=
  match es with
  | [] => cursor = end_
  | e :: rest => e_offset e = cursor /\ 0 < e_stored e /\ entries_tile (cursor + e_stored e) end_ rest
  end.

Section format_facts.
Context {codecs : Codecs} (digest : list byte -> list byte).
Context (digest_length : forall data, length (digest data) = 32%nat).

Lemma length_index_entry offset m : length (encode_entry digest offset m) = 48%nat.
Proof using digest_length.
  unfold encode_entry. rewrite !length_app, !length_to_le_bytes, length_replicate, digest_length. done.
Qed.

Lemma length_encode_entries ms : forall cursor, zlen (encode_entries digest cursor ms) = ENTRY * zlen ms.
Proof using digest_length.
  induction ms as [|m ms IH]; intros cursor; [done|]. cbn [encode_entries length].
  rewrite length_app, length_index_entry, Nat2Z.inj_add, IH. unfold ENTRY. lia.
Qed.

(** The fields of an entry. *)
Lemma entry_fields offset m : member_ok m -> 0 <= offset <= MAX_OBJECT ->
  let e := encode_entry digest offset m in
  from_le_bytes (subrange e 0 4) = offset /\ from_le_bytes (subrange e 4 4) = zlen (m_frame m) /\
  from_le_bytes (subrange e 8 4) = m_raw m /\ subrange e 12 4 = replicate 4 Byte.x00 /\
  subrange e 16 32 = digest (m_frame m).
Proof using digest_length.
  intros [Hf Hr] Ho e. unfold MAX_MEMBER_BYTES, MAX_OBJECT, PERSISTED_HEADER_LEN in *. change (Z.shiftl 4 20) with 4194304 in *.
  assert (forall z, 0 <= z <= 4194304 -> from_le_bytes (to_le_bytes 4 z) = z) as Hle
    by (intros; apply from_to_le_bytes_u32; u64_lia).
  assert (forall (a b : list byte) n, length a = n -> take n (a ++ b) = a) as Ht
    by (intros a b n <-; apply take_app_length).
  assert (forall (a b : list byte) n k, length a = n -> drop (n + k) (a ++ b) = drop k b) as Hd
    by (intros a b n k <-; apply drop_app_add).
  unfold e, encode_entry, subrange.
  change (Z.to_nat 4) with (4 + 0)%nat at 2. change (Z.to_nat 8) with (4 + (4 + 0))%nat.
  change (Z.to_nat 12) with (4 + (4 + (4 + 0)))%nat. change (Z.to_nat 16) with (4 + (4 + (4 + (4 + 0))))%nat.
  change (Z.to_nat 4) with 4%nat. change (Z.to_nat 32) with 32%nat. change (Z.to_nat 0) with 0%nat.
  rewrite !Hd by (rewrite ?length_to_le_bytes, ?length_replicate; done). rewrite !drop_0.
  rewrite !Ht by (rewrite ?length_to_le_bytes, ?length_replicate; done).
  rewrite (firstn_all2 (digest (m_frame m))) by (rewrite digest_length; done).
  split_and!; [apply Hle; lia..|done|done].
Qed.

Lemma parse_entries_exact data ms : forall slot cursor acc,
  Forall member_ok ms -> 0 <= slot -> 0 <= cursor ->
  subrange data (HEADER + slot * ENTRY) (ENTRY * zlen ms) = encode_entries digest cursor ms ->
  cursor + zlen (frames ms) <= zlen data -> zlen data <= MAX_OBJECT ->
  parse_entries data (length ms) slot cursor acc =
    Ok (acc ++ entries_of digest cursor ms, cursor + zlen (frames ms)).
Proof using digest_length.
  induction ms as [|m ms IH]; intros slot cursor acc Hms Hs Hc Hdata Hend Hmax.
  { cbn. rewrite app_nil_r. do 2 f_equal. lia. }
  inversion_clear Hms as [|? ? Hm Hms']. unfold frames in Hend. cbn [encode_entries fmap list_fmap concat length] in *.
  fold (frames ms) in Hend. rewrite length_app in Hend.
  set (start := HEADER + slot * ENTRY) in *. assert (0 <= start) by (subst start; unfold HEADER, ENTRY; lia).
  assert (forall b k, 0 <= b -> 0 <= k -> b + k <= 48 -> subrange data (start + b) k
    = subrange (encode_entry digest cursor m) b k) as Hentry.
  { intros b k ???. rewrite <-(subrange_app_l (encode_entry digest cursor m) (encode_entries digest (cursor + zlen (m_frame m)) ms)),
      <-Hdata, subrange_subrange by (rewrite ?length_index_entry; unfold ENTRY; lia). done. }
  assert (subrange data (HEADER + (slot + 1) * ENTRY) (ENTRY * zlen ms)
    = encode_entries digest (cursor + zlen (m_frame m)) ms) as Hrest.
  { replace (HEADER + (slot + 1) * ENTRY) with (start + 48) by (subst start; unfold ENTRY; lia).
    pose proof (length_encode_entries ms (cursor + zlen (m_frame m))) as Hl.
    rewrite <-(subrange_all (encode_entries _ _ ms) _ eq_refl), Hl.
    rewrite <-(subrange_app_r (encode_entry digest cursor m) (encode_entries _ _ ms) 0) by done.
    rewrite <-Hdata, length_index_entry, subrange_subrange by (unfold ENTRY; lia). f_equal; lia. }
  destruct (entry_fields cursor m Hm ltac:(lia)) as (F1 & F2 & F3 & F4 & F5).
  assert (subrange data start 4 = subrange (encode_entry digest cursor m) 0 4) as Hentry0
    by (rewrite <-Hentry by lia; f_equal; lia).
  cbn [parse_entries]. fold start.
  rewrite Hentry0, !Hentry, F1, F2, F3, F4, F5 by lia. destruct Hm as [Hf Hr].
  rewrite Z.eqb_refl, bool_decide_eq_true_2 by done.
  destruct (Z.leb_spec PERSISTED_HEADER_LEN (zlen (m_frame m))); [|lia].
  destruct (Z.leb_spec (zlen (m_frame m)) (MAX_MEMBER_BYTES + 1024)); [|lia].
  destruct (Z.ltb_spec 0 (m_raw m)); [|lia]. destruct (Z.leb_spec (m_raw m) MAX_MEMBER_BYTES); [|lia].
  cbn [andb]. destruct (Z.leb_spec (cursor + zlen (m_frame m)) (zlen data)); [|lia].
  rewrite IH by (done || lia). cbn [entries_of]. rewrite <-app_assoc. do 2 f_equal.
  unfold frames at 2. cbn [fmap list_fmap concat]. fold (frames ms). rewrite length_app. lia.
Qed.

Lemma sub_at {A} (a b c : list A) off n : off = zlen a -> n = zlen b -> subrange (a ++ b ++ c) off n = b.
Proof.
  intros -> ->. rewrite <-(Z.add_0_r (zlen a)), subrange_app_r, subrange_app_l by lia. by apply subrange_all.
Qed.

(** The header fields. *)
Lemma header_fields group count index_len total tail :
  is_u64 group -> is_u32 count -> is_u32 index_len -> is_u64 total ->
  let fixed := GROUP_MAGIC ++ to_le_bytes 8 group ++ to_le_bytes 4 count ++
    to_le_bytes 4 index_len ++ to_le_bytes 8 total in
  let data := fixed ++ tail in
  subrange data 0 8 = GROUP_MAGIC /\ from_le_bytes (subrange data 8 8) = group /\
  from_le_bytes (subrange data 16 4) = count /\ from_le_bytes (subrange data 20 4) = index_len /\
  from_le_bytes (subrange data 24 8) = total /\ subrange data 0 32 = fixed /\ length fixed = 32%nat.
Proof.
  intros Hg Hc Hi Ht fixed data. assert (length fixed = 32%nat) as Hlen
    by (unfold fixed; rewrite !length_app, !length_to_le_bytes; done).
  assert (subrange data 0 32 = fixed) as Hfix.
  { unfold data. rewrite subrange_app_l by lia. apply subrange_all. lia. }
  assert (forall b k, 0 <= b -> 0 <= k -> b + k <= 32 -> subrange data b k = subrange fixed b k) as Hsub
    by (intros; unfold data; apply subrange_app_l; lia).
  rewrite !Hsub by lia.
  assert (subrange fixed 0 8 = GROUP_MAGIC) as -> by (apply (sub_at [] GROUP_MAGIC); done).
  assert (subrange fixed 8 8 = to_le_bytes 8 group) as ->
    by (apply (sub_at GROUP_MAGIC); rewrite ?length_to_le_bytes; done).
  assert (subrange fixed 16 4 = to_le_bytes 4 count) as ->.
  { unfold fixed. rewrite (app_assoc GROUP_MAGIC). apply sub_at; rewrite ?length_app, ?length_to_le_bytes; done. }
  assert (subrange fixed 20 4 = to_le_bytes 4 index_len) as ->.
  { unfold fixed. rewrite (app_assoc GROUP_MAGIC), (app_assoc (_ ++ _)).
    apply sub_at; rewrite ?length_app, ?length_to_le_bytes; done. }
  assert (subrange fixed 24 8 = to_le_bytes 8 total) as ->.
  { unfold fixed. rewrite (app_assoc GROUP_MAGIC), (app_assoc (_ ++ _)), (app_assoc (_ ++ _)).
    rewrite <-(app_nil_r (to_le_bytes 8 total)). apply sub_at; rewrite ?length_app, ?length_to_le_bytes; done. }
  rewrite !from_to_le_bytes_u64, !from_to_le_bytes_u32 by done. done.
Qed.

Lemma entries_of_lookup ms : forall cursor slot m, ms !! slot = Some m ->
  exists o, entries_of digest cursor ms !! slot = Some (mkEntry o (zlen (m_frame m)) (m_raw m) (digest (m_frame m))) /\
    forall pre, zlen pre = cursor -> subrange (pre ++ frames ms) o (zlen (m_frame m)) = m_frame m.
Proof.
  induction ms as [|m' ms IH]; intros cursor slot m H; [done|]. destruct slot as [|slot].
  - injection H as ->. exists cursor. split; [done|]. intros pre <-. unfold frames. cbn [fmap list_fmap concat].
    by apply sub_at.
  - destruct (IH (cursor + zlen (m_frame m')) slot m H) as (o & Ho & Hp). exists o. split; [done|].
    intros pre Hpre. specialize (Hp (pre ++ m_frame m')). rewrite length_app, <-app_assoc in Hp. apply Hp. lia.
Qed.

Lemma length_entries_of ms : forall cursor, length (entries_of digest cursor ms) = length ms.
Proof. induction ms as [|m ms IH]; intros; [done|]. cbn. by rewrite IH. Qed.

(** Parsing what was encoded gives the entries of the members. *)
Lemma parse_encoded group ms data : is_u64 group -> Forall member_ok ms ->
  encode_object digest group ms = Ok data ->
  parse_index digest group data = Ok (entries_of digest (HEADER + ENTRY * zlen ms) ms) /\
  exists pre, zlen pre = HEADER + ENTRY * zlen ms /\ data = pre ++ frames ms.
Proof using digest_length.
  intros Hg Hms. unfold encode_object. destruct (bool_decide (ms = []) || _) eqn:Hn; [done|].
  apply orb_false_iff in Hn as [Hne%bool_decide_eq_false Hn]. unfold MAX_MEMBERS, MAX_OBJECT in *.
  change (Z.shiftl 4 20) with 4194304 in *. destruct (Z.ltb_spec 32 (zlen ms)); [done|].
  set (index_len := HEADER + ENTRY * zlen ms). set (total := index_len + zlen (frames ms)).
  destruct (Z.ltb_spec 4194304 total) as [|Ht]; [done|].
  assert (0 < zlen ms) as Hpos by (destruct ms; [done|cbn; lia]).
  assert (64 <= index_len <= total) as Hil by (subst total index_len; unfold HEADER, ENTRY; lia).
  pose proof (length_encode_entries ms index_len) as Hidx. set (index := encode_entries digest index_len ms) in *.
  destruct (header_fields group (zlen ms) index_len total
    (digest ((GROUP_MAGIC ++ to_le_bytes 8 group ++ to_le_bytes 4 (zlen ms) ++ to_le_bytes 4 index_len ++
       to_le_bytes 8 total) ++ index) ++ index ++ frames ms)) as (F1 & F2 & F3 & F4 & F5 & F6 & F7); [u64_lia..|].
  set (fixed := GROUP_MAGIC ++ _) in *. set (dg := digest _) in *.
  intros Heq. assert (data = fixed ++ dg ++ index ++ frames ms) as -> by congruence. clear Heq Hn.
  assert (zlen dg = 32) as Hdg by (subst dg; rewrite digest_length; done).
  set (data := fixed ++ dg ++ index ++ frames ms) in *.
  assert (zlen data = total) as Hdl.
  { unfold data, total. rewrite !length_app. unfold index_len, HEADER. lia. }
  assert (subrange data 32 32 = dg) as F8 by (apply sub_at; lia).
  assert (subrange data HEADER (ENTRY * zlen ms) = index) as F9.
  { unfold data. rewrite (app_assoc fixed). apply sub_at; rewrite ?length_app; unfold HEADER; lia. }
  split.
  2: { exists (fixed ++ dg ++ index). unfold data. rewrite <-!app_assoc. split; [|done].
       rewrite !length_app. subst index_len. unfold HEADER in *. lia. }
  unfold parse_index. rewrite F1, F2, F3, F4, F5, F6, F8, Hdl. unfold MAX_OBJECT, MAX_MEMBERS.
  change (Z.shiftl 4 20) with 4194304. unfold HEADER at 1.
  destruct (Z.leb_spec 64 total); [|lia]. destruct (Z.leb_spec total 4194304); [|lia].
  rewrite bool_decide_eq_true_2, !Z.eqb_refl by done.
  destruct (Z.ltb_spec 0 (zlen ms)); [|lia]. destruct (Z.leb_spec (zlen ms) 32); [|lia].
  destruct (Z.eqb_spec index_len (HEADER + zlen ms * ENTRY)); [|lia].
  destruct (Z.leb_spec index_len total); [|lia]. cbn [negb andb].
  replace (index_len - HEADER) with (ENTRY * zlen ms) by lia. rewrite F9, bool_decide_eq_true_2 by done. cbn [negb].
  rewrite Nat2Z.id, parse_entries_exact; [|done|lia|lia| |lia|unfold MAX_OBJECT; change (Z.shiftl 4 20) with 4194304; lia].
  - cbn [result_bind app]. by rewrite Z.eqb_refl.
  - rewrite Z.mul_0_l, Z.add_0_r. done.
Qed.

(** An index that is accepted describes members that lie one behind the other and
    fill the object to its last byte. *)
Lemma parse_entries_tile data count : forall slot cursor acc entries end_,
  parse_entries data count slot cursor acc = Ok (entries, end_) ->
  exists es, entries = acc ++ es /\ length es = count /\ entries_tile cursor end_ es.
Proof.
  induction count as [|count IH]; intros slot cursor acc entries end_ H; cbn [parse_entries] in H.
  { injection H as <- <-. exists []. by rewrite app_nil_r. }
  destruct (_ && _) eqn:Hc in H; [|done]. destruct (_ <=? _) in H; [|done].
  apply IH in H as (es & -> & Hl & Ht). eexists (_ :: es). rewrite <-app_assoc. split; [done|].
  rewrite !andb_true_iff in Hc. destruct Hc as [[[[Ho [Hs _]] _] _] _].
  cbn [length entries_tile e_offset e_stored]. split; [by rewrite Hl|]. unfold PERSISTED_HEADER_LEN in Hs.
  split_and!; [lia|lia|done].
Qed.

Lemma parse_index_tile group data entries : parse_index digest group data = Ok entries ->
  entries_tile (HEADER + ENTRY * zlen entries) (zlen data) entries.
Proof.
  unfold parse_index. intros H. do 5 (destruct (negb _) eqn:? in H; [discriminate H|]).
  set (count := from_le_bytes (subrange data 16 4)) in *. set (index_len := from_le_bytes (subrange data 20 4)) in *.
  destruct (parse_entries _ _ _ _ _) as [[es cursor]|] eqn:Hp; [|done]. cbn [result_bind] in H.
  destruct (Z.eqb_spec cursor (zlen data)); [|done]. injection H as ->.
  apply parse_entries_tile in Hp as (es' & -> & Hl & Ht). cbn [app] in *.
  match goal with H : negb (_ && _ && (index_len =? _) && _ && _) = false |- _ =>
    rewrite negb_false_iff, !andb_true_iff in H; destruct H as [[[[Hc _] Hi] _] _] end.
  replace (HEADER + ENTRY * zlen es') with index_len by lia. by subst.
Qed.
End format_facts.

(** C30: the object made of a group of small slices contains every member: its index
    is accepted, has one entry per member, and the bytes that entry describes
    decode to the content of the member whenever the member's frame does. The
    members lie one behind the other and fill the object to its last byte, and
    the ids given to them lead back to the group and the slot. *)
Theorem coalesced_object_exact {codecs : Codecs} digest group ms data :
  (forall d, length (digest d) = 32%nat) -> is_u64 group -> Forall member_ok ms ->
  encode_object digest group ms = Ok data ->
  exists entries, parse_index digest group data = Ok entries /\ length entries = length ms /\
    entries_tile (HEADER + ENTRY * zlen ms) (zlen data) entries /\
    forall slot m, ms !! slot = Some m -> exists e, entries !! slot = Some e /\
      (forall content, decompress_framed_bytes (m_frame m) MAX_MEMBER_BYTES = Ok content ->
         zlen content = m_raw m ->
         decode_member digest e (subrange data (e_offset e) (e_stored e)) = Ok content) /\
      (forall id, encode_id group (Z.of_nat slot) = Ok id -> decode_id id = Some (group, Z.of_nat slot)).
Proof.
  intros Hd Hg Hms He. destruct (parse_encoded digest Hd group ms data Hg Hms He) as (Hp & pre & Hpre & ->).
  eexists. split; [exact Hp|]. rewrite length_entries_of. split; [done|]. split.
  { pose proof (parse_index_tile digest group _ _ Hp) as Ht. by rewrite length_entries_of in Ht. }
  intros slot m Hm. destruct (entries_of_lookup digest ms (HEADER + ENTRY * zlen ms) slot m Hm) as (o & Ho & Hsub).
  eexists. split; [exact Ho|]. split; [|intros id; apply coalesced_ids; lia]. intros content Hdec Hraw.
  cbn [e_offset e_stored]. rewrite (Hsub pre Hpre). unfold decode_member. cbn [e_stored e_digest e_raw].
  rewrite Z.eqb_refl, bool_decide_eq_true_2, Hdec by done. cbn [andb negb]. by rewrite Hraw, Z.eqb_refl.
Qed.

(** A group of two raw members. *)
Lemma coalesced_object_exact_witness :
  let frame body := header NoCompression ++ body in
  let ms := [mkMember 7 70 3 (frame [Byte.x61; Byte.x62; Byte.x63]) 0; mkMember 8 70 1 (frame [Byte.x64]) 0] in
  let digest (_ : list byte) := replicate 32 Byte.xff in
  exists data entries e, encode_object digest 7 ms = Ok data /\ parse_index digest 7 data = Ok entries /\
    entries !! 1%nat = Some e /\
    decode_member (codecs := w_codecs) digest e (subrange data (e_offset e) (e_stored e)) = Ok [Byte.x64].
Proof.
  intros frame ms digest. destruct (encode_object digest 7 ms) as [data|] eqn:He; [|by vm_compute in He].
  destruct (coalesced_object_exact (codecs := w_codecs) digest 7 ms data) as (entries & Hp & _ & _ & Hm);
    [done|done| |done|].
  { repeat constructor; vm_compute; done. }
  destruct (Hm 1%nat _ eq_refl) as (e & Hl & Hd & _). exists data, entries, e. split_and!; [done..|].
  by apply Hd.
Defined.

(** ** No member is left behind

    A run of the queue: members arrive and timers fire; [q_timers] are the timers
    that run, [q_sent] the groups that were sent, in order. *)
Record Queue := mkQueue { q_p : Pending; q_timers : list Z; q_sent : list (list Member) }.

Inductive QueueEvent := Arrive (m : Member) | Fire (i : nat).

Definition send (group : list Member) (sent : list (list Member)) : list (list Member) :=
  match group with [] => sent | _ => sent ++ [group] end.

Definition queue_step (write_coalesce_bytes : Z) (q : Queue) (ev : QueueEvent) : Queue :=
  match ev with
  | Arrive m =>
      let r := enqueue write_coalesce_bytes (q_p q) m in
      mkQueue (q_pending r) (q_timers q ++ option_list (q_timer r))
        (send (q_ready r) (send (q_previous r) (q_sent q)))
  | Fire i =>
      match q_timers q !! i with
      | None => q
      | Some gen => let '(p, group) := take_group (q_p q) gen in
                    mkQueue p (delete i (q_timers q)) (send group (q_sent q))
      end
  end.

Definition arrivals (evs : list QueueEvent) : list Member :=
  omap (fun ev => match ev with Arrive m => Some m | Fire _ => None end) evs.

Definition group_ok (g : list Member) : Prop :=
  g <> [] /\ zlen g <= MAX_MEMBERS /\ forall m m', m ∈ g -> m' ∈ g -> m_meta m = m_meta m'.

Record queue_ok (arrived : list Member) (q : Queue) : Prop := {
  qo_order : concat (q_sent q) ++ members (q_p q) = arrived;
  qo_groups : Forall group_ok (q_sent q);
  qo_pending : members (q_p q) <> [] -> group_ok (members (q_p q)) /\ generation (q_p q) ∈ q_timers q;
  qo_room : zlen (members (q_p q)) < MAX_MEMBERS
}.

Lemma send_concat g sent : concat (send g sent) = concat sent ++ g.
Proof. destruct g as [|m g]; cbn [send]; [by rewrite app_nil_r|]. by rewrite concat_app; cbn; rewrite app_nil_r. Qed.

Lemma send_groups g sent : Forall group_ok sent -> (g <> [] -> group_ok g) -> Forall group_ok (send g sent).
Proof. intros Hs Hg. destruct g; cbn [send]; [done|]. apply Forall_app. split; [done|]. by constructor; [apply Hg|]. Qed.

Lemma enqueue_ok bytes arrived q m : queue_ok arrived q ->
  queue_ok (arrived ++ [m]) (queue_step bytes q (Arrive m)).
Proof.
  intros [Ho Hg Hp Hr]. cbn [queue_step]. unfold enqueue. destruct q as [[gen raw ms] timers sent].
  cbn [q_p q_timers q_sent generation p_raw members] in *.
  set (foreign := match ms with first :: _ => negb (m_meta first =? m_meta m) | [] => false end).
  set (kept := if foreign then [] else ms). set (prev := if foreign then ms else []).
  assert (members (if foreign then mkPending gen 0 [] else mkPending gen raw ms) = kept) as -> by (by destruct foreign).
  assert (generation (if foreign then mkPending gen 0 [] else mkPending gen raw ms) = gen) as -> by (by destruct foreign).
  assert (prev ++ kept = ms) as Hms by (unfold prev, kept; destruct foreign; by rewrite ?app_nil_r).
  assert (group_ok (kept ++ [m])) as Hnew.
  { split; [by destruct kept|]. split.
    { rewrite length_app. unfold kept. destruct foreign; cbn; unfold MAX_MEMBERS in *; lia. }
    assert (forall x, x ∈ kept -> m_meta x = m_meta m) as Hmeta.
    { unfold kept, foreign. destruct ms as [|first rest]; [set_solver|].
      destruct (Z.eqb_spec (m_meta first) (m_meta m)) as [<-|]; cbn [negb]; [|set_solver].
      intros x Hx. destruct (Hp ltac:(done)) as [(_ & _ & Hsame) _]. apply Hsame; set_solver. }
    assert (forall x, x ∈ kept ++ [m] -> m_meta x = m_meta m) as Hall.
    { intros x [Hx|Hx%list_elem_of_singleton]%elem_of_app; [by apply Hmeta|by subst x]. }
    intros x y Hx Hy. by rewrite (Hall x Hx), (Hall y Hy). }
  assert (Forall group_ok (send prev sent)) as Hsent.
  { apply send_groups; [done|]. unfold prev. destruct foreign; [|done]. intros Hne. by apply Hp. }
  destruct (_ || _) eqn:Hfull; cbn [q_pending q_previous q_ready q_timer].
  - split; cbn [q_p q_sent q_timers members]; [|by apply send_groups|done|done].
    rewrite !send_concat, app_nil_r, <-!app_assoc, <-Ho, <-Hms. by rewrite <-!app_assoc.
  - apply orb_false_iff in Hfull as [_ Hlen]. split; cbn [q_p q_sent q_timers members generation send].
    + rewrite send_concat, <-Ho, <-Hms, <-!app_assoc. done.
    + done.
    + intros _. split; [done|]. case_bool_decide as Hk; [set_solver|].
      assert (kept = ms) as Hkm by (unfold kept in *; by destruct foreign). rewrite Hkm in Hk.
      destruct (Hp Hk) as [_ Hin]. set_solver.
    + destruct Hnew as (_ & Hle & _). lia.
Qed.

Lemma fire_ok bytes arrived q i : queue_ok arrived q -> queue_ok arrived (queue_step bytes q (Fire i)).
Proof.
  intros Hq. cbn [queue_step]. destruct (q_timers q !! i) as [gen|] eqn:Hi; [|done]. destruct Hq as [Ho Hg Hp Hr].
  unfold take_group. destruct (Z.eqb_spec (generation (q_p q)) gen) as [Hgen|Hgen]; cbn [negb].
  - split; cbn [q_p q_sent q_timers members]; [|apply send_groups; [done|intros; by apply Hp]|done|done].
    by rewrite send_concat, app_nil_r.
  - split; cbn [q_p q_sent q_timers send]; [done|done| |done]. intros Hne. destruct (Hp Hne) as [? Hin]. split; [done|].
    rewrite (delete_Permutation _ _ _ Hi) in Hin. set_solver.
Qed.

Lemma queue_run bytes evs : queue_ok (arrivals evs) (foldl (queue_step bytes) (mkQueue new_queue [] []) evs).
Proof.
  induction evs as [|ev evs IH] using rev_ind; [by split|]. rewrite foldl_app. cbn [foldl]. unfold arrivals.
  rewrite omap_app. fold (arrivals evs). destruct ev as [m|i].
  - exact (enqueue_ok bytes _ _ m IH).
  - cbn [omap list_omap]. rewrite app_nil_r. exact (fire_ok bytes _ _ i IH).
Qed.

(** However members arrive and timers fire, the groups sent and the members
    that still wait are, in order, the members that arrived: none is lost, sent
    twice or overtaken. A group is not empty, not larger than an object's index,
    and for one metadata layer only. While members wait a timer for them runs,
    and when it fires they are sent. *)
Theorem queue_strands_no_member bytes evs :
  let q := foldl (queue_step bytes) (mkQueue new_queue [] []) evs in
  concat (q_sent q) ++ members (q_p q) = arrivals evs /\ Forall group_ok (q_sent q) /\
  (members (q_p q) <> [] -> exists i, q_timers q !! i = Some (generation (q_p q)) /\
     members (q_p (queue_step bytes q (Fire i))) = [] /\ members (q_p q) ∈ q_sent (queue_step bytes q (Fire i))).
Proof.
  intros q. destruct (queue_run bytes evs) as [Ho Hg Hp _]. fold q in Ho, Hg, Hp. split_and!; [done..|].
  intros Hne. destruct (Hp Hne) as [_ [i Hi]%list_elem_of_lookup]. exists i. split; [done|].
  cbn [queue_step]. rewrite Hi. unfold take_group. rewrite Z.eqb_refl. cbn [negb q_p members q_sent]. split; [done|].
  destruct (members (q_p q)); [done|]. cbn [send]. set_solver.
Qed.
