(* ===== verification/Intervals.v ===== *)
(** [src/utils/intervals.rs]: the set of file positions a read still has to
    find, kept as a list of half-open intervals and cut slice by slice. *)
From stdpp Require Import options.
From Stdlib Require Import ZArith Lia.
From S2P Require Import Prelude.

Module Intervals.

(** [Intervals(Vec<(T, T)>)] at [T = u64]. *)
Definition Intervals := list (Z * Z).

Definition new (l r : Z) : Intervals := [(l, r)].

(** The loop of [cut_each]: what stays, what [on_cut] receives in order, and
    whether an interval was touched. *)
Fixpoint cut_loop (ivs : Intervals) (slice_l slice_r : Z) : Intervals * list (Z * Z) * bool :=
  match ivs with
  | [] => ([], [], false)
  | (l, r) :: rest =>
      let '(remaining, cuts, touched) := cut_loop rest slice_l slice_r in
      if (r <=? slice_l) || (slice_r <=? l)
      then ((l, r) :: remaining, cuts, touched)
      else
        let cut_l := Z.max l slice_l in
        let cut_r := Z.min r slice_r in
        ((if l <? cut_l then [(l, cut_l)] else []) ++
         (if cut_r <? r then [(cut_r, r)] else []) ++ remaining,
         (if cut_l <? cut_r then [(cut_l, cut_r)] else []) ++ cuts,
         true)
  end.

Definition cut_each (ivs : Intervals) (slice_l slice_r : Z) : Intervals * list (Z * Z) * bool :=
  if bool_decide (ivs = []) then (ivs, [], false) else
  let '(remaining, cuts, touched) := cut_loop ivs slice_l slice_r in
  if touched then (remaining, cuts, true) else (ivs, cuts, false).

Definition cut (ivs : Intervals) (slice_l slice_r : Z) : Intervals * list (Z * Z) :=
  let '(ivs', cuts, _) := cut_each ivs slice_l slice_r in (ivs', cuts).

Definition collect (ivs : Intervals) : list (Z * Z) := ivs.
Definition is_empty (ivs : Intervals) : bool := bool_decide (ivs = []).

(** ** The set an interval list denotes *)

Definition covers (ivs : list (Z * Z)) (x : Z) : Prop :=
  exists l r, (l, r) ∈ ivs /\ l <= x < r.

(** Ordered, pairwise disjoint, inside [[lo, hi]]. *)
Inductive ordered (hi : Z) : Z -> list (Z * Z) -> Prop :=
| ordered_nil lo : ordered hi lo []
| ordered_cons lo l r ivs :
    lo <= l -> l <= r -> r <= hi -> ordered hi r ivs -> ordered hi lo ((l, r) :: ivs).

#[export] Hint Constructors ordered : brewfs.

Lemma covers_nil x : covers [] x <-> False.
Proof. unfold covers. set_solver. Qed.
Lemma covers_cons l r ivs x : covers ((l, r) :: ivs) x <-> l <= x < r \/ covers ivs x.
Proof. unfold covers. set_solver. Qed.
Lemma covers_app ivs ivs' x : covers (ivs ++ ivs') x <-> covers ivs x \/ covers ivs' x.
Proof. unfold covers. set_solver. Qed.

Lemma ordered_weaken hi lo lo' ivs : ordered hi lo ivs -> lo' <= lo -> ordered hi lo' ivs.
Proof. destruct 1; intros; constructor; try done; lia. Qed.

Lemma ordered_covers hi lo ivs x : ordered hi lo ivs -> covers ivs x -> lo <= x < hi.
Proof.
  induction 1 as [|lo l r ivs ? ? ? ? IH]; [by rewrite covers_nil|].
  rewrite covers_cons. intros [|Hc]; [lia|]. specialize (IH Hc). lia.
Qed.

Lemma cut_loop_untouched ivs sl sr :
  (cut_loop ivs sl sr).2 = false -> cut_loop ivs sl sr = (ivs, [], false).
Proof.
  induction ivs as [|[l r] ivs IH]; [done|]. cbn.
  destruct (cut_loop ivs sl sr) as [[rem cuts] t]; cbn in *.
  destruct (_ || _); cbn; [|done]. intros ->. by injection (IH eq_refl) as -> ->.
Qed.

Lemma cut_each_loop ivs sl sr : (cut_each ivs sl sr).1 = (cut_loop ivs sl sr).1.
Proof.
  unfold cut_each. case_bool_decide as He; [by subst|].
  pose proof (cut_loop_untouched ivs sl sr) as Hu.
  destruct (cut_loop ivs sl sr) as [[rem cuts] [|]]; [done|]. by injection (Hu eq_refl) as -> ->.
Qed.

Ltac cut_cases :=
  repeat match goal with
  | |- context [?a <? ?b] => destruct (Z.ltb_spec a b)
  | H : context [?a <? ?b] |- _ => destruct (Z.ltb_spec a b)
  end.

(** What stays and what is handed out split the set exactly. *)
Lemma cut_loop_covers ivs sl sr x : sl <= sr ->
  (covers (cut_loop ivs sl sr).1.1 x <-> covers ivs x /\ ~ sl <= x < sr) /\
  (covers (cut_loop ivs sl sr).1.2 x <-> covers ivs x /\ sl <= x < sr).
Proof.
  intros Hs. induction ivs as [|[l r] ivs [IH1 IH2]]; cbn.
  { rewrite covers_nil. tauto. }
  destruct (cut_loop ivs sl sr) as [[rem cuts] t]; cbn in *.
  destruct (Z.leb_spec r sl), (Z.leb_spec sr l); cbn;
    cut_cases; cbn; rewrite ?covers_cons, ?covers_nil, ?IH1, ?IH2;
    clear IH1 IH2; destruct (Z.le_gt_cases l x), (Z.le_gt_cases r x);
    split; split; try tauto; lia || intuition lia.
Qed.

(** A position outside the range stays, whatever the range. *)
Lemma cut_keeps ivs sl sr x : covers ivs x -> ~ sl <= x < sr -> covers (cut ivs sl sr).1 x.
Proof.
  intros Hc Hx. unfold cut. pose proof (cut_each_loop ivs sl sr) as He. destruct (cut_each ivs sl sr) as [[ivs' cuts] t]. cbn in He |- *.
  assert (ivs' = (cut_loop ivs sl sr).1.1) as -> by (by rewrite <-He). clear He cuts t.
  induction ivs as [|[l r] ivs IH]; [done|]. cbn. destruct (cut_loop ivs sl sr) as [[rem cuts] t]; cbn in *.
  rewrite covers_cons in Hc. destruct (_ || _) eqn:E; cbn; [rewrite covers_cons; tauto|].
  rewrite !covers_app. destruct Hc as [Hc|Hc]; [|by auto]. cut_cases; rewrite ?covers_cons; lia.
Qed.

Lemma cut_loop_ordered ivs sl sr lo hi : ordered hi lo ivs -> sl <= sr ->
  ordered hi lo (cut_loop ivs sl sr).1.1 /\ ordered hi lo (cut_loop ivs sl sr).1.2.
Proof.
  intros Ho Hs. induction Ho as [|lo l r ivs ? ? ? ? [IH1 IH2]]; cbn; [auto with brewfs|].
  destruct (cut_loop ivs sl sr) as [[rem cuts] t]; cbn in *.
  destruct (Z.leb_spec r sl), (Z.leb_spec sr l); cbn;
    cut_cases; cbn; split; repeat (constructor; try lia);
    eauto using ordered_weaken with lia.
Qed.

Lemma cut_loop_nonempty ivs sl sr :
  Forall (fun '(l, r) => sl <= l /\ l < r /\ r <= sr) (cut_loop ivs sl sr).1.2.
Proof.
  induction ivs as [|[l r] ivs IH]; cbn; [constructor|].
  destruct (cut_loop ivs sl sr) as [[rem cuts] t]; cbn in *.
  destruct (_ || _); cbn; [done|]. cut_cases; cbn; [constructor; [lia|done]|done].
Qed.

(** Cutting a range out of an ordered interval set hands out exactly the
    positions of the set inside the range, keeps exactly those outside, and both
    lists stay ordered and disjoint. *)
Theorem cut_each_splits ivs sl sr lo hi x :
  ordered hi lo ivs -> sl <= sr ->
  let '(ivs', cuts, _) := cut_each ivs sl sr in
  (covers ivs' x <-> covers ivs x /\ ~ sl <= x < sr) /\
  (covers cuts x <-> covers ivs x /\ sl <= x < sr) /\
  ordered hi lo ivs' /\ ordered hi lo cuts.
Proof.
  intros Ho Hs. pose proof (cut_each_loop ivs sl sr) as He.
  destruct (cut_each ivs sl sr) as [[ivs' cuts] t]. cbn in He.
  pose proof (cut_loop_covers ivs sl sr x Hs) as [H1 H2].
  pose proof (cut_loop_ordered ivs sl sr lo hi Ho Hs) as [H3 H4].
  rewrite <-He in *. done.
Qed.

End Intervals.
