(* ===== verification/Slices.v ===== *)
(** Slice descriptors, [src/chunk/slice.rs]: which slice a reader sees at a
    position, the metadata-only compaction step, the delayed-deletion record
    format and the fragmentation measure. *)
From stdpp Require Import options.
From Stdlib Require Import QArith.
From S2P Require Import Prelude Span.
Open Scope Z_scope.

Module Slice.

Record SliceDesc := mkSlice { slice_id : Z; chunk_id : Z; s_offset : Z; s_length : Z }.

#[global] Instance SliceDesc_eq_dec : EqDecision SliceDesc.
Proof. solve_decision. Defined.

(** [slice.offset + slice.length], the exclusive end, as the code computes it. *)
Definition s_end (s : SliceDesc) : Z := s_offset s ⊕ s_length s.

(** A descriptor whose fields are [u64]s and whose range does not overflow. *)
Record slice_ok (s : SliceDesc) : Prop := {
  so_id : is_u64 (slice_id s);
  so_offset : 0 <= s_offset s;
  so_length : 0 <= s_length s;
  so_end : s_offset s + s_length s < u64_modulus
}.

(** *** Fragmentation *)

(** The sweep over the sorted intervals. *)
Fixpoint merge_coverage (cur_start cur_end acc : Z) (ivs : list (Z * Z)) : Z :=
  match ivs with
  | [] => acc ⊕ (cur_end ⊖ cur_start)
  | (s, e) :: rest =>
      if s <=? cur_end then merge_coverage cur_start (Z.max cur_end e) acc rest
      else merge_coverage s e (acc ⊕ (cur_end ⊖ cur_start)) rest
  end.

Definition pair_leb (a b : Z * Z) : bool :=
  (a.1 <? b.1) || ((a.1 =? b.1) && (a.2 <=? b.2)).

Definition intervals_of (slices : list SliceDesc) : list (Z * Z) :=
  (fun s => (s_offset s, s_end s)) <$> filter (fun s => 0 < s_length s) slices.

Definition total_size (slices : list SliceDesc) : Z :=
  foldr (fun s acc => s_length s ⊕ acc) 0 slices.

Definition merged_coverage (slices : list SliceDesc) : Z :=
  match sort_by pair_leb (intervals_of slices) with
  | [] => 0
  | (s, e) :: rest => merge_coverage s e 0 rest
  end.

(** [calculate_fragmentation], with the [f64] quotient as an exact rational. *)
Definition calculate_fragmentation (slices : list SliceDesc) : Q :=
  let total := total_size slices in
  if bool_decide (slices = []) then 0%Q
  else if total =? 0 then 0%Q
  else if bool_decide (intervals_of slices = []) then 0%Q
  else ((total ⊖ merged_coverage slices) # Z.to_pos total)%Q.

(** *** Metadata-only compaction *)

Definition range_covers (start end_ : Z) (r : Z * Z) : bool :=
  (r.1 <=? start) && (end_ <=? r.2).

(** The loop body over [slices.iter().rev()]; [result] is in push order. *)
Fixpoint remove_loop (rev_slices : list SliceDesc) (covered_ranges : list (Z * Z))
    (acc : list SliceDesc) : list SliceDesc :=
  match rev_slices with
  | [] => acc
  | s :: rest =>
      let start := s_offset s in
      let end_ := s_end s in
      let is_fully_covered := existsb (range_covers start end_) covered_ranges in
      remove_loop rest (covered_ranges ++ [(start, end_)])
        (if is_fully_covered then acc else acc ++ [s])
  end.

Definition remove_fully_covered (slices : list SliceDesc) : list SliceDesc :=
  if bool_decide (slices = []) then []
  else reverse (remove_loop (reverse slices) [] []).

Definition find_replaced_ids (original merged : list SliceDesc) : list Z :=
  let merged_ids : gset Z := list_to_set (slice_id <$> merged) in
  slice_id <$> filter (fun s => slice_id s ∉ merged_ids) original.

(** *** Delayed-deletion records *)

Definition delayed_entry (s : SliceDesc) : Z * Z * Z :=
  (slice_id s, s_offset s, as_u32 (Z.min (s_length s) u32_max)).

Definition encode_entry (e : Z * Z * Z) : list byte :=
  let '(id, off, size) := e in to_le_bytes 8 id ++ to_le_bytes 8 off ++ to_le_bytes 4 size.

Definition encode_delayed_data (slices : list SliceDesc) (replaced_ids : list Z) : list byte :=
  let replaced_set : gset Z := list_to_set replaced_ids in
  foldr (fun s buf => if bool_decide (slice_id s ∈ replaced_set)
                      then encode_entry (delayed_entry s) ++ buf else buf) [] slices.

Definition decode_entry (chunk : list byte) : Z * Z * Z :=
  (from_le_bytes (take 8 chunk), from_le_bytes (take 8 (drop 8 chunk)),
   from_le_bytes (take 4 (drop 16 chunk))).

(** [data.as_chunks::<20>()]: [n] whole chunks. *)
Fixpoint decode_chunks (n : nat) (data : list byte) : list (Z * Z * Z) :=
  match n with
  | O => []
  | S n => decode_entry (take 20 data) :: decode_chunks n (drop 20 data)
  end.

Definition decode_delayed_data (data : list byte) : option (list (Z * Z * Z)) :=
  if (length data mod 20 =? 0)%nat then Some (decode_chunks (length data / 20) data) else None.

(** *** What a reader sees *)

Definition slice_covers (x : Z) (s : SliceDesc) : bool :=
  (s_offset s <=? x) && (x <? s_offset s + s_length s).

(** The slice that supplies position [x]: the last published one covering it. *)
Fixpoint visible (slices : list SliceDesc) (x : Z) : option SliceDesc :=
  match slices with
  | [] => None
  | s :: rest =>
      match visible rest x with
      | Some t => Some t
      | None => if slice_covers x s then Some s else None
      end
  end.

(** ** Visibility *)

Lemma slice_covers_spec x s :
  slice_covers x s = true <-> s_offset s <= x < s_offset s + s_length s.
Proof. unfold slice_covers. lia. Qed.

Lemma s_end_ok s : slice_ok s -> s_end s = s_offset s + s_length s.
Proof. intros []. unfold s_end. apply u64_add_small. u64_lia. Qed.

Lemma visible_app a b x :
  visible (a ++ b) x = match visible b x with Some t => Some t | None => visible a x end.
Proof.
  induction a as [|s a IH]; cbn; [by destruct (visible b x)|].
  rewrite IH. by destruct (visible b x).
Qed.

Lemma visible_Some slices x s :
  visible slices x = Some s -> s ∈ slices /\ slice_covers x s = true.
Proof.
  induction slices as [|t l IH]; cbn; [done|].
  destruct (visible l x); intros; simplify_eq.
  - destruct (IH eq_refl). set_solver.
  - case_match; simplify_eq. set_solver.
Qed.

Lemma visible_None slices x :
  visible slices x = None <-> forall s, s ∈ slices -> slice_covers x s = false.
Proof.
  induction slices as [|t l IH]; cbn; [set_solver|].
  setoid_rewrite elem_of_cons. destruct (visible l x) as [u|].
  - split; [done|]. intros H. destruct IH as [_ IH]. discriminate IH. eauto.
  - destruct IH as [IH _]. specialize (IH eq_refl).
    destruct (slice_covers x t) eqn:E; split; try done; [|naive_solver].
    intros H. rewrite H in E by auto. done.
Qed.

(** ** Light compaction keeps the view *)

(** The slices no later slice contains, in publication order: the reference
    reading of [remove_fully_covered]. *)
Fixpoint survivors (slices : list SliceDesc) : list SliceDesc :=
  match slices with
  | [] => []
  | s :: rest =>
      if existsb (range_covers (s_offset s) (s_end s)) ((fun t => (s_offset t, s_end t)) <$> rest)
      then survivors rest else s :: survivors rest
  end.

Lemma existsb_perm {A} (f : A -> bool) l l' : l ≡ₚ l' -> existsb f l = existsb f l'.
Proof.
  induction 1; cbn; [done|by f_equal| |congruence]. by rewrite !orb_assoc, (orb_comm (f x)).
Qed.

Lemma remove_loop_snoc l s cov acc :
  remove_loop (l ++ [s]) cov acc =
  remove_loop l cov acc ++
    (if existsb (range_covers (s_offset s) (s_end s))
          (cov ++ ((fun t => (s_offset t, s_end t)) <$> l)) then [] else [s]).
Proof.
  revert cov acc. induction l as [|t l IH]; intros cov acc; cbn.
  - rewrite app_nil_r. destruct (existsb _ _); by rewrite ?app_nil_r.
  - rewrite IH. by rewrite <-app_assoc.
Qed.

Lemma remove_fully_covered_survivors slices :
  remove_fully_covered slices = survivors slices.
Proof.
  assert (reverse (remove_loop (reverse slices) [] []) = survivors slices) as E.
  { induction slices as [|s l IH]; [done|].
    rewrite reverse_cons, remove_loop_snoc, reverse_app, IH. cbn.
    rewrite (existsb_perm _ _ ((fun t => (s_offset t, s_end t)) <$> l))
      by (by rewrite reverse_Permutation).
    by destruct (existsb _ _). }
  unfold remove_fully_covered. case_bool_decide; [by subst|done].
Qed.

Lemma survivors_subseteq slices : survivors slices ⊆ slices.
Proof.
  induction slices as [|s l IH]; cbn; [done|]. destruct (existsb _ _); set_solver.
Qed.

Lemma survivors_sublist slices : survivors slices `sublist_of` slices.
Proof.
  induction slices as [|s l IH]; cbn; [done|].
  destruct (existsb _ _); by constructor.
Qed.

Lemma survivors_visible slices x :
  Forall slice_ok slices -> visible (survivors slices) x = visible slices x.
Proof.
  induction 1 as [|s l Hs Hl IH]; cbn; [done|].
  destruct (existsb _ _) eqn:E; cbn; rewrite IH; [|done].
  destruct (visible l x) eqn:Ev; [done|].
  destruct (slice_covers x s) eqn:Ec; [|done].
  rewrite visible_None in Ev.
  apply existsb_exists in E as (r&Hin&Hr).
  apply list_elem_of_In, list_elem_of_fmap in Hin as (t&->&Ht).
  rewrite Forall_forall in Hl. rewrite slice_covers_spec in Ec.
  unfold range_covers in Hr; cbn in Hr. rewrite !s_end_ok in Hr by auto.
  specialize (Ev t Ht). assert (slice_covers x t = true) by (rewrite slice_covers_spec; lia).
  congruence.
Qed.

(** ** Delayed-deletion records *)

Lemma length_encode_entry e : length (encode_entry e) = 20%nat.
Proof. destruct e as [[? ?] ?]. unfold encode_entry. by rewrite !length_app, !length_to_le_bytes. Qed.

Lemma take_app_len {A} (n : nat) (a b : list A) : length a = n -> take n (a ++ b) = a.
Proof. intros <-. by rewrite take_app_length. Qed.
Lemma drop_app_len {A} (n : nat) (a b : list A) : length a = n -> drop n (a ++ b) = b.
Proof. intros <-. by rewrite drop_app_length. Qed.

Lemma decode_encode_entry id off size :
  is_u64 id -> is_u64 off -> is_u32 size ->
  decode_entry (encode_entry (id, off, size)) = (id, off, size).
Proof.
  intros. unfold decode_entry, encode_entry.
  rewrite (take_app_len 8), (drop_app_len 8) by apply length_to_le_bytes.
  rewrite (take_app_len 8) by apply length_to_le_bytes.
  rewrite app_assoc, (drop_app_len 16) by (by rewrite length_app, !length_to_le_bytes).
  rewrite take_ge by (by rewrite length_to_le_bytes).
  by rewrite !from_to_le_bytes_u64, from_to_le_bytes_u32.
Qed.

Lemma decode_chunks_encode es :
  Forall (fun '(id, off, size) => is_u64 id /\ is_u64 off /\ is_u32 size) es ->
  decode_chunks (length es) (concat (encode_entry <$> es)) = es.
Proof.
  induction 1 as [|[[id off] size] es [? [? ?]] ? IH]; cbn [length fmap list_fmap concat decode_chunks];
    [done|].
  rewrite (take_app_len 20), (drop_app_len 20) by apply length_encode_entry.
  by rewrite decode_encode_entry, IH.
Qed.

Lemma encode_delayed_concat slices ids :
  encode_delayed_data slices ids =
  concat (encode_entry <$> (delayed_entry <$> filter (fun s => slice_id s ∈ ids) slices)).
Proof.
  unfold encode_delayed_data. induction slices as [|s l IH]; [done|]. cbn [foldr].
  rewrite IH, filter_cons. case_bool_decide as H; rewrite elem_of_list_to_set in H.
  - by rewrite decide_True.
  - by rewrite decide_False.
Qed.

Lemma length_concat_entries (es : list (Z * Z * Z)) :
  length (concat (encode_entry <$> es)) = (length es * 20)%nat.
Proof.
  induction es as [|e es IH]; [done|]. cbn [fmap list_fmap concat].
  rewrite length_app, length_encode_entry, IH. cbn. lia.
Qed.

Lemma delayed_entry_ok s : slice_ok s ->
  let '(id, off, size) := delayed_entry s in is_u64 id /\ is_u64 off /\ is_u32 size.
Proof.
  intros []. cbn. split_and!; [done|u64_lia|].
  unfold is_u32, as_u32. apply Z.mod_pos_bound. u64_lia.
Qed.

Lemma decode_encode_delayed slices ids :
  Forall slice_ok slices ->
  decode_delayed_data (encode_delayed_data slices ids) =
  Some (delayed_entry <$> filter (fun s => slice_id s ∈ ids) slices).
Proof.
  intros Hok. rewrite encode_delayed_concat. unfold decode_delayed_data.
  set (es := delayed_entry <$> _).
  rewrite length_concat_entries, Nat.Div0.mod_mul, Nat.div_mul by lia. cbn [Nat.eqb]. f_equal.
  apply decode_chunks_encode, Forall_fmap, Forall_forall.
  intros s [_ Hs]%list_elem_of_filter. rewrite Forall_forall in Hok.
  apply (delayed_entry_ok s). auto.
Qed.

(** ** Fragmentation measures the union *)

Definition iv_set (iv : Z * Z) : gset Z := list_to_set (seqZ iv.1 (iv.2 - iv.1)).
Definition ivs_set (ivs : list (Z * Z)) : gset Z := ⋃ (iv_set <$> ivs).

Lemma elem_of_iv_set iv x : x ∈ iv_set iv <-> iv.1 <= x < iv.2.
Proof. unfold iv_set. rewrite elem_of_list_to_set, elem_of_seqZ. lia. Qed.

Lemma elem_of_ivs_set ivs x : x ∈ ivs_set ivs <-> exists iv, iv ∈ ivs /\ iv.1 <= x < iv.2.
Proof.
  unfold ivs_set. rewrite elem_of_union_list. setoid_rewrite list_elem_of_fmap. split.
  - intros (X&(iv&->&Hin)&Hx). rewrite elem_of_iv_set in Hx. eauto.
  - intros (iv&Hin&Hx). exists (iv_set iv). rewrite elem_of_iv_set. eauto.
Qed.

Lemma size_iv_set iv : iv.1 <= iv.2 -> Z.of_nat (size (iv_set iv)) = iv.2 - iv.1.
Proof.
  intros. unfold iv_set. rewrite size_list_to_set by apply NoDup_seqZ.
  rewrite length_seqZ. lia.
Qed.

(** The sweep over intervals sorted by start adds up the length of their union. *)
Lemma merge_coverage_size ivs cs ce acc :
  cs <= ce -> Forall (fun iv => cs <= iv.1 <= iv.2 /\ iv.2 < u64_modulus) ivs ->
  0 <= cs -> ce < u64_modulus ->
  StronglySorted (fun a b => a.1 <= b.1) ivs ->
  0 <= acc -> acc + Z.of_nat (size (iv_set (cs, ce) ∪ ivs_set ivs)) < u64_modulus ->
  merge_coverage cs ce acc ivs = acc + Z.of_nat (size (iv_set (cs, ce) ∪ ivs_set ivs)).
Proof.
  revert cs ce acc. induction ivs as [|[s e] ivs IH];
    intros cs ce acc Hc Hall Hcs Hce Hsorted Hacc Hb; cbn [merge_coverage].
  { change (ivs_set []) with (∅ : gset Z) in *.
    rewrite (right_id_L ∅ (∪)), size_iv_set in * by done. cbn in *.
    by rewrite u64_sub_small, u64_add_small by u64_lia. }
  apply Forall_cons in Hall as [Hse Hall]. cbn in Hse.
  apply StronglySorted_inv in Hsorted as [Hsorted Hhd]. cbn in Hhd.
  destruct (Z.leb_spec s ce) as [Hle|Hgt].
  - assert (iv_set (cs, ce) ∪ ivs_set ((s, e) :: ivs) = iv_set (cs, Z.max ce e) ∪ ivs_set ivs)
      as Heq.
    { apply set_eq. intros x. rewrite !elem_of_union.
      change (ivs_set ((s, e) :: ivs)) with (iv_set (s, e) ∪ ivs_set ivs).
      rewrite elem_of_union, !elem_of_iv_set. cbn. clear -Hc Hse Hle.
      destruct (Z.lt_ge_cases x ce); intuition lia. }
    rewrite Heq in *. apply IH; try done; lia.
  - assert (iv_set (cs, ce) ## iv_set (s, e) ∪ ivs_set ivs) as Hdisj.
    { intros x. rewrite elem_of_union, !elem_of_iv_set, elem_of_ivs_set. cbn.
      intros Hx [?|(iv&Hin&?)]; [lia|].
      rewrite Forall_forall in Hhd. specialize (Hhd iv Hin). lia. }
    change (ivs_set ((s, e) :: ivs)) with (iv_set (s, e) ∪ ivs_set ivs) in *.
    rewrite size_union in * by done. rewrite Nat2Z.inj_add, size_iv_set in * by done. cbn in *.
    rewrite u64_sub_small, u64_add_small by u64_lia.
    rewrite IH; try done; try lia.
    rewrite Forall_forall in Hall, Hhd |- *. intros iv Hin.
    specialize (Hall iv Hin); specialize (Hhd iv Hin). lia.
Qed.

Definition positions (slices : list SliceDesc) : gset Z :=
  ivs_set ((fun s => (s_offset s, s_offset s + s_length s)) <$> slices).

Lemma elem_of_positions slices x :
  x ∈ positions slices <-> exists s, s ∈ slices /\ slice_covers x s = true.
Proof.
  unfold positions. rewrite elem_of_ivs_set. setoid_rewrite list_elem_of_fmap.
  setoid_rewrite slice_covers_spec. naive_solver.
Qed.

Definition sum_lengths (slices : list SliceDesc) : Z := foldr (fun s acc => s_length s + acc) 0 slices.

Lemma sum_lengths_cons s l : sum_lengths (s :: l) = s_length s + sum_lengths l.
Proof. done. Qed.

Lemma sum_lengths_nonneg slices : Forall slice_ok slices -> 0 <= sum_lengths slices.
Proof. induction 1 as [|? ? []]; [done|]. rewrite sum_lengths_cons. lia. Qed.

Lemma total_size_exact slices :
  Forall slice_ok slices -> sum_lengths slices < u64_modulus -> total_size slices = sum_lengths slices.
Proof.
  induction 1 as [|s l [] Hl IH]; [done|]. rewrite sum_lengths_cons. intros Hb.
  pose proof (sum_lengths_nonneg l Hl). change (total_size (s :: l)) with (s_length s ⊕ total_size l).
  rewrite IH by lia. apply u64_add_small. u64_lia.
Qed.

Lemma sum_lengths_pos slices : 0 < sum_lengths slices -> exists s, s ∈ slices /\ 0 < s_length s.
Proof.
  induction slices as [|s l IH]; [done|]. rewrite sum_lengths_cons. intros H.
  destruct (Z.lt_ge_cases 0 (s_length s)); [set_solver|].
  destruct IH as (t&?&?); [lia|set_solver].
Qed.

Lemma size_positions_le slices :
  Forall slice_ok slices -> Z.of_nat (size (positions slices)) <= sum_lengths slices.
Proof.
  induction 1 as [|s l [] Hl IH]; [done|].
  change (positions (s :: l)) with
    (iv_set (s_offset s, s_offset s + s_length s) ∪ positions l).
  rewrite size_union_alt, Nat2Z.inj_add, size_iv_set by (cbn; lia). rewrite sum_lengths_cons.
  pose proof (subseteq_size (positions l ∖ iv_set (s_offset s, s_offset s + s_length s))
    (positions l) ltac:(set_solver)).
  cbn [fst snd]. lia.
Qed.

Lemma intervals_of_set slices : Forall slice_ok slices ->
  ivs_set (intervals_of slices) = positions slices.
Proof.
  intros Hok. apply set_eq. intros x. rewrite elem_of_positions, elem_of_ivs_set.
  unfold intervals_of. setoid_rewrite list_elem_of_fmap.
  setoid_rewrite list_elem_of_filter. setoid_rewrite slice_covers_spec.
  rewrite Forall_forall in Hok. split.
  - intros (?&(s&->&?&?)&Hx). cbn in Hx. rewrite s_end_ok in Hx by auto. eauto.
  - intros (s&Hs&Hx). eexists. split; [exists s; split_and!; [done|lia|done]|].
    cbn. by rewrite s_end_ok by auto.
Qed.

Lemma merged_coverage_exact slices :
  Forall slice_ok slices -> sum_lengths slices < u64_modulus ->
  merged_coverage slices = Z.of_nat (size (positions slices)).
Proof.
  intros Hok Hsum. pose proof (size_positions_le slices Hok).
  rewrite <-(intervals_of_set slices Hok) in *. unfold merged_coverage.
  pose proof (sort_by_perm pair_leb (intervals_of slices)) as Hp.
  assert (StronglySorted (fun a b => a.1 <= b.1) (sort_by pair_leb (intervals_of slices))) as Hs.
  { eapply StronglySorted_weaken, sort_by_sorted; unfold pair_leb; cbn; intros; lia. }
  assert (Forall (fun iv => 0 <= iv.1 <= iv.2 /\ iv.2 < u64_modulus)
            (sort_by pair_leb (intervals_of slices))) as Hr.
  { rewrite Hp. unfold intervals_of. apply Forall_fmap, Forall_forall.
    intros s [_ Hs']%list_elem_of_filter. rewrite Forall_forall in Hok.
    destruct (Hok s Hs'). cbn. rewrite s_end_ok by auto. lia. }
  assert (ivs_set (intervals_of slices) = ivs_set (sort_by pair_leb (intervals_of slices))) as E.
  { apply set_eq. intros x. rewrite !elem_of_ivs_set. by setoid_rewrite Hp. }
  rewrite E in *. destruct (sort_by _ _) as [|[s e] rest]; [done|].
  apply Forall_cons in Hr as [Hse Hr]. apply StronglySorted_inv in Hs as [Hs Hhd]. cbn [fst snd] in *.
  change (ivs_set ((s, e) :: rest)) with (iv_set (s, e) ∪ ivs_set rest) in *.
  rewrite merge_coverage_size; try done; try lia.
  rewrite Forall_forall in Hr, Hhd |- *. intros iv Hin.
  specialize (Hr iv Hin); specialize (Hhd iv Hin). cbn in *; lia.
Qed.

(** ** The replaced identifiers name exactly the removed slices *)

Lemma find_replaced_elem original merged id :
  id ∈ find_replaced_ids original merged <->
  id ∈ slice_id <$> original /\ id ∉ slice_id <$> merged.
Proof.
  unfold find_replaced_ids. rewrite !list_elem_of_fmap.
  setoid_rewrite list_elem_of_filter. setoid_rewrite elem_of_list_to_set.
  setoid_rewrite list_elem_of_fmap. naive_solver.
Qed.

(** Dropping the replaced identifiers leaves the survivors. *)
Lemma retain_survivors slices : NoDup (slice_id <$> slices) ->
  filter (fun s => slice_id s ∉ find_replaced_ids slices (survivors slices)) slices
  = survivors slices.
Proof.
  intros Hnd. rewrite <-(filter_key_sublist slice_id (survivors slices) slices)
    by auto using survivors_sublist.
  apply filter_ext_elem. intros s Hs.
  rewrite (filter_key_sublist slice_id) by auto using survivors_sublist.
  rewrite find_replaced_elem.
  assert (slice_id s ∈ slice_id <$> slices) by (by apply list_elem_of_fmap_2).
  destruct (decide (slice_id s ∈ slice_id <$> survivors slices)); tauto.
Qed.

(** ** Properties *)

(** Removing the fully covered slices changes no position of the view, also
    when further slices are published afterwards, and keeps the publication
    order of the slices that stay. *)
Theorem light_compaction_preserves_view slices later x :
  Forall slice_ok slices ->
  visible (remove_fully_covered slices ++ later) x = visible (slices ++ later) x /\
  sublist (remove_fully_covered slices) slices.
Proof.
  intros Hok. rewrite remove_fully_covered_survivors. split; [|apply survivors_sublist].
  by rewrite !visible_app, survivors_visible.
Qed.

(** A slice is dropped by light compaction only when one later slice spans
    its whole range, and every slice no later slice spans is kept. *)
Theorem light_compaction_removes_covered slices s i :
  Forall slice_ok slices -> NoDup slices -> slices !! i = Some s ->
  (s ∈ remove_fully_covered slices <->
   forall t, t ∈ drop (S i) slices ->
     ~ (s_offset t <= s_offset s /\ s_offset s + s_length s <= s_offset t + s_length t)).
Proof.
  rewrite remove_fully_covered_survivors. intros Hok. revert i.
  induction Hok as [|u l Hu Hl IH]; intros i Hnd Hi; [done|].
  apply NoDup_cons in Hnd as [Hnu Hnd]. destruct i as [|i]; cbn in Hi |- *.
  - simplify_eq. destruct (existsb _ _) eqn:E.
    + apply existsb_exists in E as (r&Hin&Hr).
      apply list_elem_of_In, list_elem_of_fmap in Hin as (t&->&Ht).
      rewrite Forall_forall in Hl. unfold range_covers in Hr; cbn in Hr.
      rewrite !s_end_ok in Hr by auto. split.
      * intros Hs. destruct Hnu. by apply survivors_subseteq.
      * intros Hno. destruct (Hno t); [by rewrite drop_0|lia].
    + split; [|set_solver]. intros _ t Ht Hc. rewrite drop_0 in Ht.
      apply not_true_iff_false in E. apply E, existsb_exists.
      exists (s_offset t, s_end t). rewrite Forall_forall in Hl. split.
      * apply list_elem_of_In, list_elem_of_fmap. eauto.
      * unfold range_covers. cbn. rewrite !s_end_ok by auto. lia.
  - assert (s ≠ u) by (intros ->; apply Hnu, list_elem_of_lookup; eauto).
    rewrite <-(IH i) by done. destruct (existsb _ _); [done|]. set_solver.
Qed.

(** The delayed-deletion records written for a set of replaced slices decode
    to exactly those slices, in order, with identifier and offset intact and the
    length clamped to 32 bits. *)
Theorem delayed_records_roundtrip slices ids :
  Forall slice_ok slices ->
  decode_delayed_data (encode_delayed_data slices ids) =
  Some ((fun s => (slice_id s, s_offset s, Z.min (s_length s) u32_max))
          <$> filter (fun s => slice_id s ∈ ids) slices).
Proof.
  intros Hok. rewrite decode_encode_delayed by done. f_equal.
  apply list_fmap_ext. intros _ s [_ Hs]%list_elem_of_lookup_2%list_elem_of_filter.
  rewrite Forall_forall in Hok. destruct (Hok s Hs). unfold delayed_entry.
  rewrite as_u32_small; [done|u64_lia].
Qed.

(** The fragmentation ratio is the share of the slice bytes that are not in
    the union of the slice ranges; it lies in [[0, 1)]. *)
Theorem fragmentation_exact slices :
  Forall slice_ok slices -> 0 < sum_lengths slices < u64_modulus ->
  let union := Z.of_nat (size (positions slices)) in
  calculate_fragmentation slices = ((sum_lengths slices - union) # Z.to_pos (sum_lengths slices))%Q /\
  0 <= sum_lengths slices - union < sum_lengths slices.
Proof.
  intros Hok Hsum union. pose proof (size_positions_le slices Hok) as Hle.
  destruct (sum_lengths_pos slices ltac:(lia)) as (s&Hs&Hlen).
  assert (0 < union).
  { assert (s_offset s ∈ positions slices) as Hin
      by (apply elem_of_positions; exists s; rewrite slice_covers_spec; lia || auto with lia).
    assert (size (positions slices) <> 0%nat); [|lia].
    intros Hz%size_empty_inv. set_solver. }
  split; [|lia]. unfold calculate_fragmentation.
  rewrite total_size_exact, merged_coverage_exact by (done || lia). fold union.
  rewrite bool_decide_eq_false_2 by (intros ->; set_solver).
  destruct (Z.eqb_spec (sum_lengths slices) 0); [lia|].
  rewrite bool_decide_eq_false_2, u64_sub_small; [done|u64_lia|].
  intros Hnil. assert ((s_offset s, s_end s) ∈ intervals_of slices) as Hin; [|by rewrite Hnil in Hin; apply not_elem_of_nil in Hin].
  unfold intervals_of. apply list_elem_of_fmap. exists s. by rewrite list_elem_of_filter.
Qed.

End Slice.
