(* ===== verification/BlockStore.v ===== *)
(** The block store contract of [src/chunk/store.rs]: the operations as a class,
    what they promise as laws over the stored bytes, and [InMemoryBlockStore] as
    an implementation of both. *)
From stdpp Require Import options.
From S2P Require Import Prelude.

(** ** The interface *)

(** [BlockKey = (slice_id, block_index)]. *)
Abbreviation BlockKey := (Z * Z)%type.

Inductive StoreError :=
| IncompleteBlockRead (slice_id block_index offset expected actual : Z)
| StoreFailure (code : Z).

(** The methods every store implements. [read_range] returns the bytes it copies
    into the caller's buffer, whose length it is given. *)
Class BlockStore (S : Type) := {
  read_range : S -> BlockKey -> Z -> Z -> result StoreError (list byte);
  write_fresh_range : S -> BlockKey -> Z -> list byte -> result StoreError Z * S;
  delete_range : S -> BlockKey -> Z -> result StoreError unit * S
}.

(** [write_fresh_vectored], the provided method: concatenate, then write. *)
Definition write_fresh_vectored {S} `{!BlockStore S} (s : S) (key : BlockKey) (offset : Z)
    (chunks : list (list byte)) : result StoreError Z * S :=
  write_fresh_range s key offset (concat chunks).

(** What the callers rely on. [stored s k x] is byte [x] of block [k]: a read
    succeeds exactly when every byte asked for is stored, a write to a fresh key
    stores its data, and no operation touches a block it was not given. *)
Class BlockStoreLaws (S : Type) `{!BlockStore S} := {
  stored : S -> BlockKey -> Z -> option byte;
  read_range_spec s k off n : 0 <= off -> 0 <= n ->
    match read_range s k off n with
    | Ok bs => Z.of_nat (length bs) = n /\
        forall i : nat, Z.of_nat i < n -> bs !! i = stored s k (off + Z.of_nat i)
    | Err _ => exists i : nat, Z.of_nat i < n /\ stored s k (off + Z.of_nat i) = None
    end;
  write_fresh_spec s k off data r s' : 0 <= off ->
    write_fresh_range s k off data = (r, s') ->
    (forall k' x, k' <> k -> stored s' k' x = stored s k' x) /\
    match r with
    | Ok n => n = Z.of_nat (length data) /\
        forall i : nat, (i < length data)%nat -> stored s' k (off + Z.of_nat i) = data !! i
    | Err _ => True
    end;
  delete_range_frame s id b n r s' : delete_range s (id, b) n = (r, s') ->
    forall k x, k.1 <> id -> stored s' k x = stored s k x;
  delete_range_spec s id b n r s' : 0 <= b -> 0 <= n -> b + n < u32_modulus ->
    delete_range s (id, b) n = (r, s') ->
    (forall k x, stored s' k x = stored s k x \/
       (k.1 = id /\ b <= k.2 < b + n /\ stored s' k x = None)) /\
    match r with
    | Ok _ => forall k x, k.1 = id -> b <= k.2 < b + n -> stored s' k x = None
    | Err _ => True
    end
}.

(** ** The in-memory store *)
Module InMemory.

Record InMemoryBlockStore := mkStore { map : gmap BlockKey (list byte) }.

Definition new : InMemoryBlockStore := {| map := ∅ |}.

Definition require_complete_read (key : BlockKey) (offset expected actual : Z)
  : result StoreError unit :=
  if actual =? expected then Ok tt
  else Err (IncompleteBlockRead key.1 key.2 offset expected actual).

(** [Vec::resize(end, 0)] when the block is shorter. *)
Definition resize (entry : list byte) (end_ : nat) : list byte :=
  if (length entry <? end_)%nat
  then entry ++ replicate (end_ - length entry) Byte.x00 else entry.

Definition write_fresh_range (s : InMemoryBlockStore) (key : BlockKey) (offset : Z)
    (data : list byte) : result StoreError Z * InMemoryBlockStore :=
  let entry := default [] (map s !! key) in
  let start := Z.to_nat offset in
  let end_ := (start + length data)%nat in
  let entry := splice (resize entry end_) start data in
  (Ok (Z.of_nat (length data)), {| map := <[key := entry]> (map s) |}).

Definition read_range (s : InMemoryBlockStore) (key : BlockKey) (offset n : Z)
  : result StoreError (list byte) :=
  match map s !! key with
  | None => let? _ := require_complete_read key offset n 0 in Ok []
  | Some src =>
      let available := Z.min (u64_saturating_sub (Z.of_nat (length src)) offset) n in
      let? _ := require_complete_read key offset n available in
      Ok (take (Z.to_nat available) (drop (Z.to_nat offset) src))
  end.

Definition delete_range (s : InMemoryBlockStore) (key : BlockKey) (block_count : Z)
  : result StoreError unit * InMemoryBlockStore :=
  let '(chunk_id, block_index) := key in
  let end_ := as_u32 (block_index + as_u32 block_count) in
  let m := foldl (fun m i => delete (chunk_id, i) m) (map s)
             (seqZ block_index (end_ - block_index)) in
  (Ok tt, {| map := m |}).

#[global] Instance in_memory_store : BlockStore InMemoryBlockStore := {|
  BlockStore.read_range := read_range;
  BlockStore.write_fresh_range := write_fresh_range;
  BlockStore.delete_range := delete_range
|}.

Definition stored (s : InMemoryBlockStore) (k : BlockKey) (x : Z) : option byte :=
  if 0 <=? x then b ← map s !! k; b !! Z.to_nat x else None.

(** ** The laws hold *)

Lemma stored_Some s k x b : map s !! k = Some b -> 0 <= x -> stored s k x = b !! Z.to_nat x.
Proof. intros Hk Hx. unfold stored. rewrite Hk. by destruct (Z.leb_spec 0 x); [|lia]. Qed.

Lemma stored_None s k x : map s !! k = None -> stored s k x = None.
Proof. intros Hk. unfold stored. rewrite Hk. by destruct (0 <=? x). Qed.

Lemma in_memory_read s k off n : 0 <= off -> 0 <= n ->
  match read_range s k off n with
  | Ok bs => Z.of_nat (length bs) = n /\
      forall i : nat, Z.of_nat i < n -> bs !! i = stored s k (off + Z.of_nat i)
  | Err _ => exists i : nat, Z.of_nat i < n /\ stored s k (off + Z.of_nat i) = None
  end.
Proof.
  intros Ho Hn. unfold read_range, require_complete_read, u64_saturating_sub.
  destruct (map s !! k) as [src|] eqn:Hk; last first.
  { destruct (Z.eqb_spec 0 n); cbn; [split; [done|lia]|].
    exists 0%nat. split; [lia|by apply stored_None]. }
  destruct (Z.eqb_spec (Z.min (Z.max 0 (Z.of_nat (length src) - off)) n) n) as [E|E]; cbn.
  - rewrite E, length_take, length_drop. split; [lia|]. intros i Hi.
    rewrite (stored_Some s k _ src) by (done || lia).
    rewrite lookup_take_lt, lookup_drop by lia. f_equal. lia.
  - exists (Z.to_nat (Z.max 0 (Z.of_nat (length src) - off))). split; [lia|].
    rewrite (stored_Some s k _ src) by (done || lia). apply lookup_ge_None_2. lia.
Qed.

Lemma length_resize entry e : (e <= length (resize entry e))%nat.
Proof.
  unfold resize. destruct (Nat.ltb_spec (length entry) e); [|lia].
  rewrite length_app, length_replicate. lia.
Qed.

Lemma in_memory_write s k off data r s' : 0 <= off ->
  write_fresh_range s k off data = (r, s') ->
  (forall k' x, k' <> k -> stored s' k' x = stored s k' x) /\
  match r with
  | Ok n => n = Z.of_nat (length data) /\
      forall i : nat, (i < length data)%nat -> stored s' k (off + Z.of_nat i) = data !! i
  | Err _ => True
  end.
Proof.
  intros Ho [= <- <-]. split; [|split; [done|]].
  - intros k' x Hk. unfold stored; cbn. by rewrite lookup_insert_ne.
  - intros i Hi. erewrite stored_Some by (apply lookup_insert_eq || lia).
    rewrite lookup_splice by apply length_resize.
    rewrite decide_True by lia. f_equal. lia.
Qed.

Lemma lookup_delete_seqZ (m : gmap BlockKey (list byte)) id l k :
  foldl (fun m i => delete (id, i) m) m l !! k =
  if decide (k.1 = id /\ k.2 ∈ l) then None else m !! k.
Proof.
  revert m. induction l as [|i l IH]; intros m; cbn.
  { rewrite decide_False; [done|set_solver]. }
  rewrite IH. destruct k as [a b]. destruct (decide ((id, i) = (a, b))) as [E|E].
  - rewrite E, lookup_delete_eq. simplify_eq. repeat case_decide; set_solver.
  - rewrite lookup_delete_ne by done. repeat case_decide; set_solver.
Qed.

Lemma in_memory_delete_frame s id b n r s' : delete_range s (id, b) n = (r, s') ->
  forall k x, k.1 <> id -> stored s' k x = stored s k x.
Proof.
  unfold delete_range. intros [= <- <-] k x Hk. unfold stored; cbn [map].
  by rewrite lookup_delete_seqZ, decide_False by naive_solver.
Qed.

Lemma in_memory_delete s id b n r s' : 0 <= b -> 0 <= n -> b + n < u32_modulus ->
  delete_range s (id, b) n = (r, s') ->
  (forall k x, stored s' k x = stored s k x \/
     (k.1 = id /\ b <= k.2 < b + n /\ stored s' k x = None)) /\
  match r with
  | Ok _ => forall k x, k.1 = id -> b <= k.2 < b + n -> stored s' k x = None
  | Err _ => True
  end.
Proof.
  intros Hb Hn Hs. unfold delete_range. rewrite !as_u32_small by (rewrite ?as_u32_small; u64_lia).
  intros [= <- <-]. unfold stored; cbn [map].
  split; intros k x; rewrite lookup_delete_seqZ; case_decide as Hd;
    rewrite elem_of_seqZ in Hd; auto.
  - right. split_and!; [intuition lia..|]. by destruct (0 <=? x).
  - by destruct (0 <=? x).
  - intros. destruct Hd. split; [done|lia].
Qed.

#[global] Instance in_memory_laws : BlockStoreLaws InMemoryBlockStore := {|
  BlockStore.stored := stored;
  read_range_spec := in_memory_read;
  write_fresh_spec := in_memory_write;
  delete_range_frame := in_memory_delete_frame;
  delete_range_spec := in_memory_delete
|}.

End InMemory.
