(* ===== verification/ObjectStore.v ===== *)
(** [ObjectBlockStore] of [src/chunk/store.rs]: blocks kept as objects behind a
    block cache, a page cache, a cache of object layouts, staged slice files and
    shared requests, with [read_coalesced] of [src/chunk/store/coalesce.rs] and the
    tiers of [src/chunk/cache.rs].

    Everything that is not decided by the code is read from a tape of choices: what
    a backend call does, whether a cache still has an entry, whether a request for
    the same key is in flight. *)
From stdpp Require Import options.
From S2P Require Import Prelude Compress Coalesce BlockStore.
Import InMemory.

(** ** State *)

Inductive ObjectLayout := Versioned (c : Compression) | Legacy.
Inductive ReadFetchPolicy := BackendDefault | WholeObject | Sparse.

#[global] Instance ReadFetchPolicy_eq_dec : EqDecision ReadFetchPolicy.
Proof. solve_decision. Defined.

(** [range_size_threshold] is the rounded product that the method computes,
    [prefers_full_object_reads] what the backend answers, [disk_cache] whether the
    disk tier has a budget, [persistent_slice_cache] whether its directory is set. *)
Record BlockStoreConfig := mkConfig {
  write_coalesce_bytes : Z; block_size : Z; range_size_threshold : Z; page_size : Z;
  range_background_prefetch : bool; cfg_compression : Compression;
  populate_write_cache_after_upload : bool; persist_write_cache_after_upload : bool;
  persistent_slice_cache : bool; create_only_writes : bool; versioned_objects_only : bool;
  versioned_objects_uncompressed : bool; read_fetch_policy : ReadFetchPolicy;
  prefers_full_object_reads : bool; disk_cache : bool; legacy_delete_allowed : bool }.

(** One choice of the environment: does a call fail, and if it was a change, was it
    applied; how many of the available bytes a range read withholds; is a cache
    entry still there, or an insertion accepted; is a flight joined; the clock. *)
Record Choice := mkChoice {
  ch_fails : bool; ch_applied : bool; ch_withheld : Z; ch_present : bool; ch_shares : bool; ch_now : Z }.

Record ChunksCache := mkCache {
  write_hot_cache : gmap string (list byte); hot_cache : gmap string (list byte);
  disk_storage : gmap string (list byte) }.

(** Requests in flight whose result is shared, by key. *)
Record Flights := mkFlights {
  read_flight : gmap BlockKey (list byte); range_flight : gmap (BlockKey * Z * Z) (list byte);
  format_flight : gmap BlockKey ObjectLayout; group_flight : gmap Z (option (list byte)) }.

(** What steers prefetching, and the prefetch tasks that were spawned. *)
Record Hints := mkHints {
  sparse_streams : gmap BlockKey Z; sparse_slice_misses : gmap Z (Z * Z);
  prefetches : list (BlockKey * string * ObjectLayout) }.

Record ObjectBlockStore := mkObs {
  tape : nat -> Choice; objects : gmap string (list byte); slice_files : gmap Z (list byte);
  block_cache : ChunksCache; page_cache : gmap (Z * Z * Z) (list byte);
  format_cache : gmap BlockKey ObjectLayout; group_index : gmap Z (list IndexEntry);
  flights : Flights; hints : Hints }.

Definition with_tape (t : nat -> Choice) (s : ObjectBlockStore) :=
  mkObs t (objects s) (slice_files s) (block_cache s) (page_cache s) (format_cache s) (group_index s) (flights s) (hints s).
Definition with_objects (f : gmap string (list byte) -> gmap string (list byte)) (s : ObjectBlockStore) :=
  mkObs (tape s) (f (objects s)) (slice_files s) (block_cache s) (page_cache s) (format_cache s) (group_index s) (flights s) (hints s).
Definition with_cache (f : ChunksCache -> ChunksCache) (s : ObjectBlockStore) :=
  mkObs (tape s) (objects s) (slice_files s) (f (block_cache s)) (page_cache s) (format_cache s) (group_index s) (flights s) (hints s).
Definition with_pages (f : gmap (Z * Z * Z) (list byte) -> gmap (Z * Z * Z) (list byte)) (s : ObjectBlockStore) :=
  mkObs (tape s) (objects s) (slice_files s) (block_cache s) (f (page_cache s)) (format_cache s) (group_index s) (flights s) (hints s).
Definition with_formats (f : gmap BlockKey ObjectLayout -> gmap BlockKey ObjectLayout) (s : ObjectBlockStore) :=
  mkObs (tape s) (objects s) (slice_files s) (block_cache s) (page_cache s) (f (format_cache s)) (group_index s) (flights s) (hints s).
Definition with_index (f : gmap Z (list IndexEntry) -> gmap Z (list IndexEntry)) (s : ObjectBlockStore) :=
  mkObs (tape s) (objects s) (slice_files s) (block_cache s) (page_cache s) (format_cache s) (f (group_index s)) (flights s) (hints s).
Definition with_flights (f : Flights -> Flights) (s : ObjectBlockStore) :=
  mkObs (tape s) (objects s) (slice_files s) (block_cache s) (page_cache s) (format_cache s) (group_index s) (f (flights s)) (hints s).
Definition with_hints (f : Hints -> Hints) (s : ObjectBlockStore) :=
  mkObs (tape s) (objects s) (slice_files s) (block_cache s) (page_cache s) (format_cache s) (group_index s) (flights s) (f (hints s)).

(** ** The monad *)

Definition io (A : Type) := ObjectBlockStore -> result StoreError A * ObjectBlockStore.
Definition io_ret {A} (a : A) : io A := fun s => (Ok a, s).
Definition io_err {A} (e : StoreError) : io A := fun s => (Err e, s).
Definition io_bind {A B} (m : io A) (k : A -> io B) : io B := fun s =>
  match m s with (Ok a, s) => k a s | (Err e, s) => (Err e, s) end.
Definition io_get {A} (f : ObjectBlockStore -> A) : io A := fun s => (Ok (f s), s).
Definition io_set (f : ObjectBlockStore -> ObjectBlockStore) : io unit := fun s => (Ok tt, f s).
Definition io_lift {A} (r : result StoreError A) : io A := fun s => (r, s).

Declare Scope io_scope.
Delimit Scope io_scope with io.
Notation "'let*' x := m 'in' k" := (io_bind m (fun x => k))
  (at level 10, x pattern, m at level 100, k at level 200) : io_scope.
Notation "m ';*' k" := (io_bind m (fun _ => k)) (at level 60, right associativity) : io_scope.
Open Scope io_scope.

(** The next choice of the environment. *)
Definition choose : io Choice := fun s => (Ok (tape s 0), with_tape (fun n => tape s (S n)) s).

Definition failure : StoreError := StoreFailure 0.

(** ** The object client: what [ObjectBackend] documents *)

(** A range read may return less than is there, but nothing only when nothing is
    there: the object is missing or ends before the range. *)
Definition range_answer (data : option (list byte)) (offset n withheld : Z) : list byte :=
  let there := subrange (default [] data) offset n in
  take (Z.to_nat (Z.max 1 (zlen there - Z.max 0 withheld))) there.

Definition get_object_range (key : string) (offset n : Z) : io (list byte) :=
  let* c := choose in
  if ch_fails c then io_err failure else
  let* data := io_get (fun s => objects s !! key) in
  io_ret (range_answer data offset n (ch_withheld c)).

(** [typed_full]: a whole object of bounded length. *)
Definition get_full (key : string) (limit : Z) : io (option (list byte)) :=
  let* c := choose in
  if ch_fails c then io_err failure else
  let* data := io_get (fun s => objects s !! key) in
  match data with
  | None => io_ret None
  | Some data => if limit <? zlen data then io_err failure else io_ret (Some data)
  end.

(** [typed_exact]: a range, complete or an error. *)
Definition get_exact (key : string) (offset n : Z) : io (list byte) :=
  let* data := get_object_range key offset n in
  if zlen data =? n then io_ret data else io_err failure.

Definition put_object (key : string) (data : list byte) : io unit :=
  let* c := choose in
  if ch_fails c then
    (if ch_applied c then io_set (with_objects <[key := data]>) else io_ret tt) ;* io_err failure
  else io_set (with_objects <[key := data]>).

(** The same object may be accepted as a repetition of the request that stored it. *)
Definition put_object_create_only (key : string) (data : list byte) : io unit :=
  let* existing := io_get (fun s => objects s !! key) in
  match existing with
  | Some existing =>
      let* c := choose in
      if bool_decide (existing = data) && ch_applied c then io_ret tt else io_err failure
  | None => put_object key data
  end.

Definition delete_object (key : string) : io unit :=
  let* c := choose in
  if ch_fails c then
    (if ch_applied c then io_set (with_objects (delete key)) else io_ret tt) ;* io_err failure
  else io_set (with_objects (delete key)).

(** ** The block cache: [ChunksCache] *)

(** A lookup in a tier that may have evicted the entry. *)
Definition tier_get (tier : ChunksCache -> gmap string (list byte)) (key : string) : io (option (list byte)) :=
  let* c := choose in
  io_get (fun s => if ch_present c then tier (block_cache s) !! key else None).

Definition insert_write_hot (key : string) (data : list byte) (c : ChunksCache) :=
  mkCache (<[key := data]> (write_hot_cache c)) (hot_cache c) (disk_storage c).
Definition insert_hot (key : string) (data : list byte) (c : ChunksCache) :=
  mkCache (write_hot_cache c) (<[key := data]> (hot_cache c)) (disk_storage c).
Definition insert_disk (key : string) (data : list byte) (c : ChunksCache) :=
  mkCache (write_hot_cache c) (hot_cache c) (<[key := data]> (disk_storage c)).

(** An insertion that is skipped when the entry's generation changed, the tier is
    saturated or its device unhealthy. *)
Definition try_insert (ins : string -> list byte -> ChunksCache -> ChunksCache) (key : string)
    (data : list byte) : io bool :=
  let* c := choose in
  if ch_present c then io_set (with_cache (ins key data)) ;* io_ret true else io_ret false.

Definition commit_disk_hit (key : string) (promote : option (list byte)) : io unit :=
  match promote with
  | Some value => let* _ := try_insert insert_hot key value in io_ret tt
  | None => io_ret tt
  end.

(** Whether the policy promotes a disk hit. *)
Definition should_promote : io bool := let* c := choose in io_ret (ch_shares c).

Section store.
Context {codecs : Codecs} (digest : list byte -> list byte) (cfg : BlockStoreConfig).

Definition cache_get (key : string) : io (option (list byte)) :=
  let* value := tier_get write_hot_cache key in
  match value with Some value => io_ret (Some value) | None =>
  let* value := tier_get hot_cache key in
  match value with Some value => io_ret (Some value) | None =>
  if negb (disk_cache cfg) then io_ret None else
  let* value := tier_get disk_storage key in
  match value with
  | None | Some [] => io_ret None
  | Some value =>
      let* promote := should_promote in
      commit_disk_hit key (if promote then Some value else None) ;*
      io_ret (Some value)
  end end end.

(** [copy_full_cached_range]. *)
Definition copy_full_cached_range (value : list byte) (offset n : Z) : option (list byte) :=
  if zlen value <? offset + n then None else Some (subrange value offset n).

Definition get_cached_range (key : string) (offset n : Z) : io (option (list byte)) :=
  let* value := tier_get write_hot_cache key in
  match (v ← value; copy_full_cached_range v offset n) with
  | Some bs => io_ret (Some bs)
  | None =>
      let* value := tier_get hot_cache key in
      io_ret (v ← value; copy_full_cached_range v offset n)
  end.

Definition get_range_into (key : string) (offset n : Z) : io (option (list byte)) :=
  if n =? 0 then io_ret (Some []) else
  let* hit := get_cached_range key offset n in
  match hit with Some bs => io_ret (Some bs) | None =>
  if negb (disk_cache cfg) then io_ret None else
  let* value := tier_get disk_storage key in
  match value with
  | None => io_ret None
  | Some value =>
      match copy_full_cached_range value offset n with
      | None => io_ret None
      | Some bs =>
          let* promote := should_promote in
          commit_disk_hit key (if promote then Some value else None) ;*
          io_ret (Some bs)
      end
  end end.

Definition persist_opportunistic (key : string) (data : list byte) : io unit :=
  if negb (disk_cache cfg) then io_ret tt else let* _ := try_insert insert_disk key data in io_ret tt.

Definition insert_opportunistic (key : string) (data : list byte) : io unit :=
  let* inserted := try_insert insert_hot key data in
  if inserted then persist_opportunistic key data else io_ret tt.

Definition insert_recent_write_opportunistic (key : string) (data : list byte) : io unit :=
  let* inserted := try_insert insert_write_hot key data in
  if inserted then persist_opportunistic key data else io_ret tt.

(** ** Objects and their layout *)

Definition key_for (key : BlockKey) : string :=
  ("chunks/" ++ pretty key.1 ++ "/" ++ pretty key.2)%string.
Definition versioned_key_for (key : BlockKey) : string :=
  ("chunks-v2/" ++ pretty key.1 ++ "/" ++ pretty key.2)%string.

Definition object_key_for (key : BlockKey) (layout : ObjectLayout) : string :=
  match layout with Versioned _ => versioned_key_for key | Legacy => key_for key end.

(** A cached or shared value for a key. *)
Definition evicting_get {A} (f : ObjectBlockStore -> option A) : io (option A) :=
  let* c := choose in io_get (fun s => if ch_present c then f s else None).

(** Joining a flight gives its result, or its error. *)
Definition join {A} (f : ObjectBlockStore -> option A) : io (option A) :=
  let* c := choose in
  if negb (ch_shares c) then io_ret None else
  let* r := io_get f in
  match r with
  | None => io_ret None
  | Some v => if ch_fails c then io_err failure else io_ret (Some v)
  end.

(** [SingleFlight::execute_with_status]: whether the caller ran [leader], and the
    result. *)
Definition execute {A} (f : ObjectBlockStore -> option A) (publish : A -> ObjectBlockStore -> ObjectBlockStore)
    (leader : io A) : io (bool * A) :=
  let* joined := join f in
  match joined with
  | Some v => io_ret (false, v)
  | None => let* v := leader in io_set (publish v) ;* io_ret (true, v)
  end.

(** The loop that reads the header, in as many reads as the backend needs. *)
Fixpoint read_header (fuel : nat) (key : string) (header : list byte) : io (option (list byte)) :=
  match fuel with
  | O => io_ret (Some header)
  | S fuel =>
      let* bs := get_object_range key (zlen header) (PERSISTED_HEADER_LEN - zlen header) in
      if zlen bs =? 0 then (if zlen header =? 0 then io_ret None else io_err failure) else
      let header := header ++ bs in
      if zlen header =? PERSISTED_HEADER_LEN then io_ret (Some header) else read_header fuel key header
  end.

Definition set_format_flight (key : BlockKey) (layout : ObjectLayout) (f : Flights) : Flights :=
  mkFlights (read_flight f) (range_flight f) (<[key := layout]> (format_flight f)) (group_flight f).
Definition set_read_flight (key : BlockKey) (data : list byte) (f : Flights) : Flights :=
  mkFlights (<[key := data]> (read_flight f)) (range_flight f) (format_flight f) (group_flight f).
Definition set_range_flight (key : BlockKey * Z * Z) (data : list byte) (f : Flights) : Flights :=
  mkFlights (read_flight f) (<[key := data]> (range_flight f)) (format_flight f) (group_flight f).
Definition set_group_flight (group : Z) (data : option (list byte)) (f : Flights) : Flights :=
  mkFlights (read_flight f) (range_flight f) (format_flight f) (<[group := data]> (group_flight f)).

Definition cache_format (key : BlockKey) (layout : ObjectLayout) : io unit :=
  io_set (with_formats <[key := layout]>).

(** The closure of the layout probe. The header takes at most four reads. *)
Definition probe_layout (key : BlockKey) : io ObjectLayout :=
  let* header := read_header 4 (versioned_key_for key) [] in
  match header with
  | None => cache_format key Legacy ;* io_ret Legacy
  | Some header =>
      match parse_persisted_header header with
      | Framed c => cache_format key (Versioned c) ;* io_ret (Versioned c)
      | _ => io_err failure
      end
  end.

Definition resolve_object_layout (key : BlockKey) : io ObjectLayout :=
  let* cached := evicting_get (fun s => format_cache s !! key) in
  match cached with
  | Some layout => io_ret layout
  | None =>
      if versioned_objects_only cfg then
        let layout := Versioned (if versioned_objects_uncompressed cfg then NoCompression else Lz4) in
        cache_format key layout ;* io_ret layout
      else
        let* r := execute (fun s => format_flight (flights s) !! key)
                    (fun layout => with_flights (set_format_flight key layout)) (probe_layout key) in
        io_ret r.2
  end.

Definition decode_object (layout : ObjectLayout) (bytes : list byte) : result DecodeError (list byte) :=
  match layout, cfg_compression cfg with
  | Versioned _, _ => decompress_framed_bytes bytes (block_size cfg)
  | Legacy, NoCompression => Ok bytes
  | Legacy, _ => decompress_bytes bytes (block_size cfg)
  end.

Definition range_base_offset (layout : ObjectLayout) : option Z :=
  match layout, cfg_compression cfg with
  | Versioned NoCompression, _ => Some PERSISTED_HEADER_LEN
  | Versioned _, _ => None
  | Legacy, NoCompression => Some 0
  | Legacy, _ => None
  end.

(** [observed_full]: a whole object, decoded and no longer than a block. *)
Definition observed_full (key : string) (layout : ObjectLayout) : io (option (list byte)) :=
  match (n ← u64_checked_mul (block_size cfg) 2; u64_checked_add n (Z.shiftl 1 20)) with
  | None => io_err failure
  | Some limit =>
      let* bytes := get_full key limit in
      match bytes with
      | None => io_ret None
      | Some bytes =>
          match decode_object layout bytes with
          | Err _ => io_err failure
          | Ok decoded => if block_size cfg <? zlen decoded then io_err failure else io_ret (Some decoded)
          end
      end
  end.

(** ** Prefetching *)

Definition SPARSE_DENSE_SLICE_MISSES : Z := 10.
Definition SPARSE_DENSITY_WINDOW : Z := 1000000000.
Definition SPARSE_SEQUENTIAL_READ_BYTES : Z := 128 * 1024.

Definition sparse_read_continues_stream (key : BlockKey) (offset n : Z) : io bool :=
  let* previous_end := evicting_get (fun s => sparse_streams (hints s) !! key) in
  io_set (with_hints (fun h => mkHints (<[key := offset + n]> (sparse_streams h)) (sparse_slice_misses h) (prefetches h))) ;*
  if bool_decide (previous_end = Some offset) then io_ret true else
  if (offset =? 0) && (0 <? key.2) then
    let* before := evicting_get (fun s => sparse_streams (hints s) !! (key.1, key.2 - 1)) in
    io_ret (bool_decide (before = Some (block_size cfg)))
  else io_ret false.

Definition sparse_miss_makes_slice_dense (slice_id : Z) : io bool :=
  let* c := choose in
  let* current := io_get (fun s => if ch_present c then sparse_slice_misses (hints s) !! slice_id else None) in
  let entry := match current with
    | Some (start, misses) =>
        if ch_now c - start <? SPARSE_DENSITY_WINDOW then (start, u32_saturating_add misses 1) else (ch_now c, 1)
    | None => (ch_now c, 1)
    end in
  io_set (with_hints (fun h => mkHints (sparse_streams h) (<[slice_id := entry]> (sparse_slice_misses h)) (prefetches h))) ;*
  io_ret (SPARSE_DENSE_SLICE_MISSES <=? entry.2).

Definition page_get (key : BlockKey) (page_idx : Z) : io (option (list byte)) :=
  evicting_get (fun s => page_cache s !! (key.1, key.2, page_idx)).
Definition page_insert (key : BlockKey) (page_idx : Z) (page : list byte) : io unit :=
  io_set (with_pages <[(key.1, key.2, page_idx) := page]>).

(** All of the pages, or nothing. *)
Fixpoint pages_get (key : BlockKey) (page_idxs : list Z) : io (option (list (list byte))) :=
  match page_idxs with
  | [] => io_ret (Some [])
  | page_idx :: rest =>
      let* page := page_get key page_idx in
      match page with
      | None => io_ret None
      | Some page =>
          let* pages := pages_get key rest in
          io_ret (pages ← pages; Some (page :: pages))
      end
  end.

Definition try_promote_page_cache_to_block_cache (key : BlockKey) : io bool :=
  let page_count := div_ceil (block_size cfg) (page_size cfg) in
  let* pages := pages_get key (seqZ 0 page_count) in
  match pages with
  | None => io_ret false
  | Some pages =>
      insert_opportunistic (key_for key) (take (Z.to_nat (block_size cfg)) (concat pages)) ;* io_ret true
  end.

Definition prefetch_full_block_background (key : BlockKey) (object_key : string) (layout : ObjectLayout) : io unit :=
  io_set (with_hints (fun h => mkHints (sparse_streams h) (sparse_slice_misses h)
                                 (prefetches h ++ [(key, object_key, layout)]))).

(** The spawned task. The choice between lookup and download is whether it gets
    one of the prefetch permits. *)
Definition prefetch_task (key : BlockKey) (object_key : string) (layout : ObjectLayout) : io unit :=
  let* cached := cache_get (key_for key) in
  match cached with Some _ => io_ret tt | None =>
  let* permit := choose in
  if negb (ch_present permit) then io_ret tt else
  let* _ := execute (fun s => read_flight (flights s) !! key)
    (fun data => with_flights (set_read_flight key data))
    (let* cached := cache_get (key_for key) in
     match cached with Some data => io_ret data | None =>
     let* fetched := observed_full object_key layout in
     match fetched with
     | Some data =>
         (if bool_decide (data = []) then io_ret tt else insert_opportunistic (key_for key) data) ;* io_ret data
     | None => io_ret []
     end end) in
  io_ret tt
  end.

(** After a range read that went to the backend. *)
Definition after_range_miss (key : BlockKey) (object_key : string) (layout : ObjectLayout)
    (allow_range_prefetch : bool) : io unit :=
  let* dense_slice := if bool_decide (read_fetch_policy cfg = Sparse)
    then sparse_miss_makes_slice_dense key.1 else io_ret false in
  if negb (range_background_prefetch cfg) then io_ret tt else
  let* promoted := try_promote_page_cache_to_block_cache key in
  if negb promoted && (allow_range_prefetch || dense_slice)
  then prefetch_full_block_background key object_key layout else io_ret tt.

(** ** Reading *)

Definition supports_coalesced_objects : bool :=
  legacy_delete_allowed cfg && negb (create_only_writes cfg) && negb (versioned_objects_only cfg).

(** The closure of the group request: the object is verified before it is shared. *)
Definition fetch_group (group : Z) : io (option (list byte)) :=
  let* data := get_full (object_key group) MAX_OBJECT in
  match data with
  | None => io_ret None
  | Some data =>
      match parse_index digest group data with
      | Err _ => io_err failure
      | Ok index =>
          if forallb (fun e => bool_decide (digest (subrange data (e_offset e) (e_stored e)) = e_digest e)) index
          then io_ret (Some data) else io_err failure
      end
  end.

(** The index of the group, with the object when it was fetched; [None] when there
    is no such object. *)
Definition group_entries (group : Z) : io (option (list IndexEntry * option (list byte))) :=
  let* cached := evicting_get (fun s => group_index s !! group) in
  match cached with
  | Some index => io_ret (Some (index, None))
  | None =>
      let* r := execute (fun s => group_flight (flights s) !! group)
                  (fun data => with_flights (set_group_flight group data)) (fetch_group group) in
      match r.2 with
      | None => io_ret None
      | Some data =>
          match parse_index digest group data with
          | Err _ => io_err failure
          | Ok index => io_set (with_index <[group := index]>) ;* io_ret (Some (index, Some data))
          end
      end
  end.

Definition of_group {A} (r : result GroupError A) : io A :=
  match r with Ok a => io_ret a | Err _ => io_err failure end.

(** [None]: the block is not part of a shared object. *)
Definition read_coalesced (key : BlockKey) (offset n : Z) : io (option (list byte)) :=
  let* cached := get_cached_range (key_for key) offset n in
  match cached with Some bs => io_ret (Some bs) | None =>
  match decode_id key.1 with None => io_err failure | Some (group, slot) =>
  let* r := group_entries group in
  match r with None => io_ret None | Some (index, whole) =>
  if negb (key.2 =? 0) then io_err failure else
  match index !! Z.to_nat slot with None => io_err failure | Some entry =>
  let* frame := match whole with
    | Some whole => io_ret (subrange whole (e_offset entry) (e_stored entry))
    | None => get_exact (object_key group) (e_offset entry) (e_stored entry)
    end in
  let* decoded := of_group (decode_member digest entry frame) in
  let available := if offset + n <=? zlen decoded then n else 0 in
  io_lift (require_complete_read key offset n available) ;*
  insert_opportunistic (key_for key) decoded ;*
  io_ret (Some (subrange decoded offset n))
  end end end end.

Definition read_persistent_slice_cache (key : BlockKey) (offset n : Z) : io (option (list byte)) :=
  if negb (persistent_slice_cache cfg) then io_ret None else
  let* c := choose in
  let* file := io_get (fun s => slice_files s !! key.1) in
  if ch_fails c then io_ret None else
  io_ret (file ← file;
          from ← u64_checked_mul key.2 (block_size cfg);
          from ← u64_checked_add from offset;
          copy_full_cached_range file from n).

(** What a block answers to a read: the part of the range it has. *)
Definition copy_out (key : BlockKey) (offset n : Z) (block_data : list byte) : io (list byte) :=
  let copy_len := if offset <? zlen block_data then Z.min (offset + n) (zlen block_data) - offset else 0 in
  io_lift (require_complete_read key offset n copy_len) ;* io_ret (subrange block_data offset copy_len).

(** One page copied into the buffer; [inner] is how much of a page before the last
    one is asked for. *)
Definition copy_page (offset n start_page end_page inner : Z) (acc : list byte * Z) (page_idx : Z) (page : list byte)
  : list byte * Z :=
  let '(buf, total_read) := acc in
  let page_start := page_idx * page_size cfg in
  let copy_start := if page_idx =? start_page then offset - page_start else 0 in
  let requested_end := if page_idx =? end_page then u64_saturating_sub (offset + n) page_start else inner in
  let copy_end := Z.min requested_end (zlen page) in
  if copy_start <? copy_end
  then (splice buf (Z.to_nat (page_start + copy_start - offset)) (subrange page copy_start (copy_end - copy_start)),
        total_read + (copy_end - copy_start))
  else (buf, total_read).

Fixpoint copy_pages (offset n start_page end_page : Z) (inner : Z -> Z) (acc : list byte * Z) (page_idx : Z)
    (pages : list (list byte)) : list byte * Z :=
  match pages with
  | [] => acc
  | page :: rest =>
      copy_pages offset n start_page end_page inner
        (copy_page offset n start_page end_page (inner page_idx) acc page_idx page) (page_idx + 1) rest
  end.

(** Serving a read from the page cache alone. *)
Definition read_cached_pages (key : BlockKey) (offset n : Z) : io (option (list byte)) :=
  let start_page := offset / page_size cfg in
  let end_page := (offset + n - 1) / page_size cfg in
  let* pages := pages_get key (seqZ start_page (end_page - start_page + 1)) in
  match pages with
  | None => io_ret None
  | Some pages =>
      let '(buf, total_read) := copy_pages offset n start_page end_page (fun _ => page_size cfg)
        (replicate (Z.to_nat n) Byte.x00, 0) start_page pages in
      io_lift (require_complete_read key offset n total_read) ;* io_ret (Some buf)
  end.

(** Where page [page_idx] ends in its block, and how long it is. *)
Definition page_end (page_idx : Z) : Z := Z.min (page_idx * page_size cfg + page_size cfg) (block_size cfg).
Definition page_len (page_idx : Z) : Z := page_end page_idx - page_idx * page_size cfg.

(** Admission to the page cache of the whole pages of a response. *)
Fixpoint admit_pages (key : BlockKey) (range_start : Z) (len : Z -> Z) (fetched : list byte) (page_idxs : list Z)
  : io unit :=
  match page_idxs with
  | [] => io_ret tt
  | page_idx :: rest =>
      let local_start := page_idx * page_size cfg - range_start in
      (if local_start + len page_idx <=? zlen fetched
       then page_insert key page_idx (subrange fetched local_start (len page_idx)) else io_ret tt) ;*
      admit_pages key range_start len fetched rest
  end.

(** A request for the range of the pages [run_start] to [run_end]. *)
Definition fetch_range (key : BlockKey) (object_key : string) (range_base run_start run_end : Z) : io (list byte) :=
  let range_start := run_start * page_size cfg in
  let range_len := page_end run_end - range_start in
  let* r := execute (fun s => range_flight (flights s) !! (key, run_start, run_end))
    (fun data => with_flights (set_range_flight (key, run_start, run_end) data))
    (let* fetched := get_object_range object_key (range_base + range_start) range_len in
     admit_pages key range_start page_len fetched (seqZ run_start (run_end - run_start + 1)) ;*
     io_ret fetched) in
  io_ret r.2.

(** The pages of a run, from the cache or else from the response. *)
Fixpoint run_pages (key : BlockKey) (range_start : Z) (fetched : list byte) (page_idxs : list Z)
  : io (list (list byte)) :=
  match page_idxs with
  | [] => io_ret []
  | page_idx :: rest =>
      let local_start := page_idx * page_size cfg - range_start in
      let* cached := page_get key page_idx in
      let page := match cached with
        | Some page => page
        | None => if local_start <? zlen fetched
                  then subrange fetched local_start (Z.min (local_start + page_len page_idx) (zlen fetched) - local_start)
                  else []
        end in
      let* pages := run_pages key range_start fetched rest in
      io_ret (page :: pages)
  end.

(** How many pages are missing one after the other. *)
Fixpoint missing_run (pages : list (option (list byte))) : nat :=
  match pages with None :: rest => S (missing_run rest) | _ => O end.

(** The loop over the pages, one request per run of missing ones. Every round
    consumes a page, so as many rounds as pages are enough: [fill_pages_fuel]. *)
Fixpoint fill_pages (fuel : nat) (key : BlockKey) (object_key : string) (range_base page_idx : Z)
    (pages : list (option (list byte))) : io (list (list byte)) :=
  match fuel, pages with
  | _, [] => io_ret []
  | O, _ => io_err (StoreFailure 1)
  | S fuel, Some page :: rest =>
      let* filled := fill_pages fuel key object_key range_base (page_idx + 1) rest in
      io_ret (page :: filled)
  | S fuel, None :: rest =>
      let more := missing_run rest in
      let run_end := page_idx + Z.of_nat more in
      let* fetched := fetch_range key object_key range_base page_idx run_end in
      let* run := run_pages key (page_idx * page_size cfg) fetched (seqZ page_idx (Z.of_nat more + 1)) in
      let* filled := fill_pages fuel key object_key range_base (run_end + 1) (drop more rest) in
      io_ret (run ++ filled)
  end.

Fixpoint lookup_pages (key : BlockKey) (page_idxs : list Z) : io (list (option (list byte))) :=
  match page_idxs with
  | [] => io_ret []
  | page_idx :: rest =>
      let* page := page_get key page_idx in
      let* pages := lookup_pages key rest in
      io_ret (page :: pages)
  end.

Definition is_missing (page : option (list byte)) : bool := match page with None => true | Some _ => false end.

(** The page-granular path of [read_range]. *)
Definition read_ranges (key : BlockKey) (offset n : Z) (layout : ObjectLayout) (range_base : Z)
    (allow_range_prefetch : bool) : io (list byte) :=
  let object_key := object_key_for key layout in
  let start_page := offset / page_size cfg in
  let end_page := (offset + n - 1) / page_size cfg in
  let* pages := lookup_pages key (seqZ start_page (end_page - start_page + 1)) in
  if (offset mod page_size cfg =? 0) && (n mod page_size cfg =? 0) && forallb is_missing pages then
    let* r := execute (fun s => range_flight (flights s) !! (key, start_page, end_page))
      (fun data => with_flights (set_range_flight (key, start_page, end_page) data))
      (let* fetched := get_object_range object_key (range_base + offset) n in
       admit_pages key offset (fun _ => page_size cfg) fetched (seqZ start_page (end_page - start_page + 1)) ;* io_ret fetched) in
    let fetched := take (Z.to_nat n) r.2 in
    io_lift (require_complete_read key offset n (zlen fetched)) ;*
    after_range_miss key object_key layout allow_range_prefetch ;*
    io_ret fetched
  else
    let range_missed := existsb is_missing pages in
    let* filled := fill_pages (length pages) key object_key range_base start_page pages in
    let '(buf, total_read) := copy_pages offset n start_page end_page page_len
      (replicate (Z.to_nat n) Byte.x00, 0) start_page filled in
    io_lift (require_complete_read key offset n total_read) ;*
    (if range_missed then after_range_miss key object_key layout allow_range_prefetch else io_ret tt) ;*
    io_ret buf.

(** The whole-object path of [read_range]: the closure of its flight. *)
Definition fetch_block (key : BlockKey) (layout : option ObjectLayout) (skip_full_read_probe : bool) : io (list byte) :=
  let* cached := cache_get (key_for key) in
  match cached with Some data => io_ret data | None =>
  let* layout := match layout with
    | Some layout => io_ret layout
    | None =>
        if skip_full_read_probe then
          let* cached := evicting_get (fun s => format_cache s !! key) in
          io_ret (default (Versioned NoCompression) cached)
        else resolve_object_layout key
    end in
  let* fetched := observed_full (object_key_for key layout) layout in
  let is_versioned := match layout with Versioned _ => true | Legacy => false end in
  let* fetched :=
    if bool_decide (fetched = None) && skip_full_read_probe && negb (versioned_objects_only cfg) && is_versioned then
      let* fetched := observed_full (key_for key) Legacy in
      cache_format key Legacy ;* io_ret fetched
    else io_ret fetched in
  match fetched with
  | Some data =>
      (if bool_decide (data = []) then io_ret tt else insert_opportunistic (key_for key) data) ;* io_ret data
  | None => io_ret []
  end
  end.

Definition read_full (key : BlockKey) (offset n : Z) (layout : option ObjectLayout) (skip_full_read_probe : bool)
  : io (list byte) :=
  let* r := execute (fun s => read_flight (flights s) !! key)
    (fun data => with_flights (set_read_flight key data)) (fetch_block key layout skip_full_read_probe) in
  copy_out key offset n r.2.

(** The block cache and the staged slice, before any request. *)
Definition read_local (key : BlockKey) (offset n : Z) : io (option (list byte)) :=
  let full_block_read := (offset =? 0) && (block_size cfg <=? n) in
  let* hit := if full_block_read then
      let* cached := cache_get (key_for key) in
      io_ret (cached ← cached;
              if n <=? u64_saturating_sub (zlen cached) offset then Some (subrange cached offset n) else None)
    else get_range_into (key_for key) offset n in
  match hit with Some bs => io_ret (Some bs) | None =>
  let* staged := read_persistent_slice_cache key offset n in
  match staged with
  | None => io_ret None
  | Some bs =>
      (if full_block_read then insert_recent_write_opportunistic (key_for key) bs else io_ret tt) ;*
      io_ret (Some bs)
  end end.

Definition prefer_full_objects : bool :=
  match read_fetch_policy cfg with
  | BackendDefault => prefers_full_object_reads cfg
  | WholeObject => true
  | Sparse => false
  end.

(** A read that the local tiers did not answer. *)
Definition read_remote (key : BlockKey) (offset n : Z) : io (list byte) :=
  let is_sparse := bool_decide (read_fetch_policy cfg = Sparse) in
  let skip_full_read_probe := prefer_full_objects || is_sparse in
  let can_try_object_ranges := (n <=? range_size_threshold cfg) && negb prefer_full_objects in
  let* sparse_sequential := if is_sparse && can_try_object_ranges then
      let* continues := sparse_read_continues_stream key offset n in
      io_ret (continues || (SPARSE_SEQUENTIAL_READ_BYTES <=? n))
    else io_ret false in
  let allow_range_prefetch := negb is_sparse || sparse_sequential in
  if negb can_try_object_ranges then read_full key offset n None skip_full_read_probe else
  let* joined := join (fun s => read_flight (flights s) !! key) in
  match joined with Some block_data => copy_out key offset n block_data | None =>
  let* cached := read_cached_pages key offset n in
  match cached with Some bs => io_ret bs | None =>
  let* layout := resolve_object_layout key in
  match range_base_offset layout with
  | Some range_base => read_ranges key offset n layout range_base allow_range_prefetch
  | None => read_full key offset n (Some layout) skip_full_read_probe
  end end end.

Definition read_range (key : BlockKey) (offset n : Z) : io (list byte) :=
  if n =? 0 then io_ret [] else
  let* coalesced := if supports_coalesced_objects && bool_decide (is_Some (decode_id key.1))
    then read_coalesced key offset n else io_ret None in
  match coalesced with Some bs => io_ret bs | None =>
  let* local := read_local key offset n in
  match local with Some bs => io_ret bs | None => read_remote key offset n end end.

(** ** Writing and deleting *)

Definition store_uploaded_block (key : string) (data : list byte) : io unit :=
  let* _ := try_insert insert_write_hot key data in
  if negb (persist_write_cache_after_upload cfg) then io_ret tt else
  let* _ := try_insert insert_disk key data in io_ret tt.

Definition write_fresh_vectored_inner (key : BlockKey) (offset : Z) (parts : list (list byte)) : io Z :=
  let total_len := zlen (concat parts) in
  if total_len =? 0 then io_ret 0 else
  let parts := make_zero_bytes offset ++ parts in
  match prepare_persisted_upload parts (cfg_compression cfg)
          (populate_write_cache_after_upload cfg || create_only_writes cfg) with
  | None => io_err failure
  | Some prepared =>
      (if create_only_writes cfg
       then put_object_create_only (versioned_key_for key) (default [] (head (chunks prepared)))
       else put_object (versioned_key_for key) (concat (chunks prepared))) ;*
      cache_format key (Versioned (compression prepared)) ;*
      match cache_block prepared with
      | Some block =>
          if populate_write_cache_after_upload cfg && (zlen block <=? block_size cfg)
          then store_uploaded_block (key_for key) block else io_ret tt
      | None => io_ret tt
      end ;*
      io_ret total_len
  end.

Definition object_write_fresh_range (key : BlockKey) (offset : Z) (data : list byte) : io Z :=
  write_fresh_vectored_inner key offset [data] ;* io_ret (zlen data).

Fixpoint delete_blocks (chunk_id : Z) (idxs : list Z) : io unit :=
  match idxs with
  | [] => io_ret tt
  | i :: rest =>
      delete_object (versioned_key_for (chunk_id, i)) ;*
      delete_object (key_for (chunk_id, i)) ;*
      io_set (with_formats (delete (chunk_id, i))) ;*
      delete_blocks chunk_id rest
  end.

Definition object_delete_range (key : BlockKey) (block_count : Z) : io unit :=
  if negb (legacy_delete_allowed cfg) then io_err failure else
  match decode_id key.1 with
  | Some (group, _) =>
      let* shared := get_full (object_key group) (Z.shiftl 4 20) in
      match shared with Some _ => io_err failure | None => io_ret tt end
  | None => io_ret tt
  end ;*
  let end_ := as_u32 (key.2 + as_u32 block_count) in
  delete_blocks key.1 (seqZ key.2 (end_ - key.2)).

Definition delete_coalesced_group (group : Z) : io unit :=
  if negb (legacy_delete_allowed cfg) then io_err failure else
  delete_object (object_key group) ;* io_set (with_index (delete group)).
End store.
