(* ===== verification/Reader.v ===== *)
(** [src/chunk/reader.rs]: which slice supplies which part of a read, how the
    read buffer is carved into block reads, and that the bytes returned are the
    ones the newest covering slice stores. *)
From stdpp Require Import options.
From S2P Require Import Prelude Span Intervals Slices BlockStore.
Import Intervals Spans Slice.

(** ** Visible reads *)

Abbreviation VisibleRead := (Z * Z * SliceDesc)%type.

(** The loop over [slices.iter().rev()], with its early exit. *)
Fixpoint visible_loop (rev_slices : list SliceDesc) (intervals : Intervals)
    (need_read : list VisibleRead) : list VisibleRead :=
  match rev_slices with
  | [] => need_read
  | slice :: rest =>
      let '(intervals, cuts, _) := cut_each intervals (s_offset slice) (s_end slice) in
      let need_read := need_read ++ ((fun '(l, r) => (l, r, slice)) <$> cuts) in
      if is_empty intervals then need_read else visible_loop rest intervals need_read
  end.

Definition visible_reads (slices : list SliceDesc) (offset len : Z) : list VisibleRead :=
  let need_read := visible_loop (reverse slices) (Intervals.new offset (offset ⊕ len)) [] in
  if (1 <? length need_read)%nat then sort_by_key (fun t => t.1.1) need_read else need_read.

(** ** Carving the buffer

    A block read into [buf[rj_start .. rj_start + rj_take]]. *)
Record ReadJob := mkJob { rj_start : Z; rj_take : Z; rj_key : BlockKey; rj_offset : Z }.

(** The inner loop: [seg] is [buf[seg_start .. seg_start + seg_len]]; slicing
    past its end is a panic, [None]. *)
Fixpoint carve_blocks (slice_id seg_start seg_len pos : Z) (blocks : list (Span BlockTag))
  : option (list ReadJob) :=
  match blocks with
  | [] => Some []
  | block :: rest =>
      let take := len block in
      if pos + take <=? seg_len then
        jobs ← carve_blocks slice_id seg_start seg_len (pos + take) rest;
        Some (mkJob (seg_start + pos) take (slice_id, as_u32 (index block)) (offset block) :: jobs)
      else None
  end.

(** The outer loop. [tail] is [buf[tail_start .. tail_start + tail_len]];
    [split_at_mut] past its end is a panic. Returns the block reads, the gaps
    skipped (which [read_at_into] zero-fills) and what is left of [tail]. *)
Fixpoint carve_reads (layout : ChunkLayout) (off : Z) (need_read : list VisibleRead)
    (cursor tail_start tail_len : Z) : option (list ReadJob * list (Z * Z) * (Z * Z)) :=
  match need_read with
  | [] => Some ([], [], (tail_start, tail_len))
  | (l, r, slice) :: rest =>
      let start := l ⊖ off in
      let len := r ⊖ l in
      let gap := start ⊖ cursor in
      if tail_len <? gap then None else
      if tail_len - gap <? len then None else
      let seg_start := tail_start + gap in
      let slice_offset := l ⊖ s_offset slice in
      jobs ← carve_blocks (slice_id slice) seg_start len 0
               (block_span_iter_slice slice_offset (r ⊖ l) layout);
      '(more, gaps, tl) ← carve_reads layout off rest (start ⊕ len)
               (seg_start + len) (tail_len - gap - len);
      Some (jobs ++ more, (tail_start, gap) :: gaps, tl)
  end.

(** [gap_buf.fill(0)]. *)
Definition zero_fill (buf : list byte) (g : Z * Z) : list byte :=
  splice buf (Z.to_nat g.1) (replicate (Z.to_nat g.2) Byte.x00).

(** ** The read *)
Section fetch.
Context {S : Type} `{!BlockStore S}.
(** The order in which the concurrent block reads complete. *)
Context (completion : list ReadJob -> list ReadJob).

(** [while let Some(res) = futures.next().await { res?; }] *)
Fixpoint run_reads (store : S) (jobs : list ReadJob) (buf : list byte)
  : result StoreError (list byte) :=
  match jobs with
  | [] => Ok buf
  | j :: rest =>
      let? out := read_range store (rj_key j) (rj_offset j) (rj_take j) in
      run_reads store rest (splice buf (Z.to_nat (rj_start j)) out)
  end.

(** [None] is a panic. *)
Definition read_at_from_slices (layout : ChunkLayout) (store : S) (slices : list SliceDesc)
    (offset len : Z) : option (result StoreError (list byte)) :=
  if len =? 0 then Some (Ok []) else
  let buf := replicate (Z.to_nat len) Byte.x00 in
  let need_read := visible_reads slices offset len in
  '(jobs, _, _) ← carve_reads layout offset need_read 0 0 len;
  Some (run_reads store (completion jobs) buf).

Definition read_at_into_from_slices (layout : ChunkLayout) (store : S) (slices : list SliceDesc)
    (offset : Z) (buf : list byte) : option (result StoreError (list byte)) :=
  let len := Z.of_nat (length buf) in
  if len =? 0 then Some (Ok buf) else
  let need_read := visible_reads slices offset len in
  '(jobs, gaps, tl) ← carve_reads layout offset need_read 0 0 len;
  Some (let? buf := run_reads store (completion jobs) (foldl zero_fill buf gaps) in
        Ok (zero_fill buf tl)).

(** *** The fetcher object *)
Inductive FetchError := NotPrepared | MetaFailed (code : Z) | BlockFailed (e : StoreError).

Record DataFetcher := mkFetcher {
  layout : ChunkLayout; id : Z; slices : list SliceDesc; prepared : bool }.

Definition fetcher_new (layout : ChunkLayout) (id : Z) : DataFetcher :=
  {| layout := layout; id := id; slices := []; prepared := false |}.

Definition into_slices (f : DataFetcher) : list SliceDesc := slices f.

(** [get_slices] is the metadata layer's answer. *)
Definition prepare_slices (get_slices : Z -> result Z (list SliceDesc)) (f : DataFetcher)
  : result FetchError unit * DataFetcher :=
  match get_slices (id f) with
  | Err e => (Err (MetaFailed e), f)
  | Ok sl => (Ok tt, {| layout := layout f; id := id f; slices := sl; prepared := true |})
  end.

Definition map_err {E E' A} (h : E -> E') (r : result E A) : result E' A :=
  match r with Ok a => Ok a | Err e => Err (h e) end.

Definition read_at (store : S) (f : DataFetcher) (offset len : Z)
  : option (result FetchError (list byte)) :=
  if len =? 0 then Some (Ok []) else
  if negb (prepared f) then Some (Err NotPrepared) else
  map_err BlockFailed <$> read_at_from_slices (layout f) store (slices f) offset len.

Definition read_at_into (store : S) (f : DataFetcher) (offset : Z) (buf : list byte)
  : option (result FetchError (list byte)) :=
  if negb (prepared f) then Some (Err NotPrepared) else
  map_err BlockFailed <$> read_at_into_from_slices (layout f) store (slices f) offset buf.
End fetch.

(** ** What a position holds

    The block and offset of position [x], and its byte: a position no slice
    covers is zero, a covered one is what its slice stored, if it did. *)
Definition source (l : ChunkLayout) (slices : list SliceDesc) (x : Z) : option (BlockKey * Z) :=
  (fun s => let y := x - s_offset s in
            ((slice_id s, as_u32 (y / block_size l)), y mod block_size l)) <$> visible slices x.

Definition chunk_byte {S} `{!BlockStore S, !BlockStoreLaws S} (l : ChunkLayout) (st : S)
    (slices : list SliceDesc) (x : Z) : option byte :=
  match source l slices x with
  | None => Some Byte.x00
  | Some (k, y) => stored st k y
  end.

(** ** The visible reads are exact *)

(** Two reads that share no position. *)
Definition apart (a b : VisibleRead) : Prop := a.1.2 <= b.1.1 \/ b.1.2 <= a.1.1.

(** [nr] lists, without overlap, the pieces of [[lo, hi)] with the slice that is
    visible there, and misses no visible position. *)
Record reads_exact (lo hi : Z) (slices : list SliceDesc) (nr : list VisibleRead) : Prop := {
  re_sound l r s : (l, r, s) ∈ nr ->
    lo <= l < r /\ r <= hi /\ forall x, l <= x < r -> visible slices x = Some s;
  re_complete x s : lo <= x < hi -> visible slices x = Some s ->
    exists l r, (l, r, s) ∈ nr /\ l <= x < r;
  re_apart : ForallOrdPairs apart nr
}.

(** The loop's invariant: [seen] has been processed and [ivs] is what no slice
    of it covers. *)
Definition loop_inv (lo hi : Z) (seen : list SliceDesc) (ivs : Intervals)
    (nr : list VisibleRead) : Prop :=
  ordered hi lo ivs /\
  (forall x, covers ivs x <-> lo <= x < hi /\ visible seen x = None) /\
  reads_exact lo hi seen nr.

Lemma ordered_apart s hi lo cuts : ordered hi lo cuts ->
  ForallOrdPairs apart ((fun '(l, r) => (l, r, s)) <$> cuts).
Proof.
  induction 1 as [|lo l r ivs ? ? ? Ho IH]; cbn; constructor; [|done].
  apply Forall_forall. intros [[l' r'] s'] Hin. left. cbn.
  apply list_elem_of_fmap in Hin as ([l2 r2]&[= -> -> ->]&Hin). clear IH.
  induction Ho as [|lo' l1 r1 ivs ? ? ? ? IH]; [set_solver|].
  apply elem_of_cons in Hin as [[= -> ->]|]; [done|]. etrans; [|apply IH]; try done; lia.
Qed.

Lemma elem_of_tagged (s : SliceDesc) cuts l r t :
  (l, r, t) ∈ ((fun '(l, r) => (l, r, s)) <$> cuts : list VisibleRead) <-> t = s /\ (l, r) ∈ cuts.
Proof.
  rewrite list_elem_of_fmap. split.
  - intros ([? ?]&[= -> -> ->]&?). done.
  - intros [-> ?]. by exists (l, r).
Qed.

Lemma visible_loop_step lo hi seen ivs nr s ivs' cuts b :
  slice_ok s -> loop_inv lo hi seen ivs nr ->
  cut_each ivs (s_offset s) (s_end s) = (ivs', cuts, b) ->
  loop_inv lo hi (s :: seen) ivs' (nr ++ ((fun '(l, r) => (l, r, s)) <$> cuts)).
Proof.
  intros Hs (Ho&Hcov&[Hsound Hcomp Hap]) Hcut.
  pose proof (s_end_ok s Hs) as Hend. destruct Hs as [_ _ Hlen _].
  pose proof (cut_each_loop ivs (s_offset s) (s_end s)) as E. rewrite Hcut in E.
  pose proof (fun x => cut_loop_covers ivs (s_offset s) (s_end s) x ltac:(lia)) as Hsplit.
  destruct (cut_loop_ordered ivs (s_offset s) (s_end s) lo hi Ho ltac:(lia)) as [Ho1 Ho2].
  pose proof (cut_loop_nonempty ivs (s_offset s) (s_end s)) as Hne.
  rewrite Forall_forall in Hne.
  destruct (cut_loop ivs (s_offset s) (s_end s)) as [[rem cs] t]; cbn [fst snd] in *.
  injection E as -> ->.
  assert (Hcuts : forall l r x, (l, r) ∈ cs -> l <= x < r ->
            lo <= x < hi /\ visible seen x = None /\ slice_covers x s = true).
  { intros l r x Hin Hx. assert (covers cs x) as Hc by (by exists l, r).
    apply Hsplit in Hc as [Hc ?]. apply Hcov in Hc as [? ?].
    by rewrite slice_covers_spec, <-Hend. }
  split; [done|]. split; [|split].
  - intros x. rewrite (proj1 (Hsplit x)), Hcov, Hend. cbn. unfold slice_covers.
    destruct (visible seen x); [naive_solver|].
    destruct (Z.leb_spec (s_offset s) x), (Z.ltb_spec x (s_offset s + s_length s)); cbn;
      intuition (lia || congruence).
  - intros l r u. rewrite elem_of_app, elem_of_tagged. intros [Hin|[-> Hin]].
    + destruct (Hsound _ _ _ Hin) as (?&?&Hv). split_and!; [lia..|].
      intros x Hx. cbn. by rewrite Hv.
    + pose proof (Hne _ Hin) as Hlr. cbn in Hlr.
      destruct (Hcuts l r l Hin ltac:(lia)) as [? _].
      destruct (Hcuts l r (r - 1) Hin ltac:(lia)) as [? _]. split_and!; [lia..|].
      intros x Hx. cbn. destruct (Hcuts l r x Hin Hx) as (_&->&->). done.
  - intros x u Hx. cbn. setoid_rewrite elem_of_app. setoid_rewrite elem_of_tagged.
    destruct (visible seen x) as [v|] eqn:Hv; [naive_solver|].
    destruct (slice_covers x s) eqn:Hsc; [|done]. intros [= <-].
    apply slice_covers_spec in Hsc.
    assert (covers cs x) as (l&r&?&?); [|by exists l, r; auto].
    apply Hsplit. rewrite Hcov, Hend. auto.
  - apply ForallOrdPairs_app; [done|by eapply ordered_apart|].
    intros [[l r] u] [[l' r'] u'] Hin. rewrite elem_of_tagged. intros [-> Hin'].
    destruct (Hsound _ _ _ Hin) as (?&?&Hv). pose proof (Hne _ Hin') as Hlr. cbn in Hlr.
    unfold apart; cbn. destruct (Z.le_gt_cases r l'); [by left|].
    destruct (Z.le_gt_cases r' l); [by right|].
    destruct (Hcuts l' r' (Z.max l l') Hin' ltac:(lia)) as (_&Hn&_).
    rewrite Hv in Hn by lia. done.
Qed.

Lemma visible_loop_exact lo hi older : Forall slice_ok older ->
  forall seen ivs nr, loop_inv lo hi seen ivs nr ->
  reads_exact lo hi (reverse older ++ seen) (visible_loop older ivs nr).
Proof.
  induction 1 as [|s older Hs Hf IH]; intros seen ivs nr Hinv; [apply Hinv|].
  cbn [visible_loop].
  destruct (cut_each ivs (s_offset s) (s_end s)) as [[ivs' cuts] b] eqn:Hc.
  pose proof (visible_loop_step _ _ _ _ _ _ _ _ _ Hs Hinv Hc) as Hinv'.
  rewrite reverse_cons, <-app_assoc. cbn [app].
  unfold is_empty. case_bool_decide as He; [|by apply IH].
  subst ivs'. destruct Hinv' as (_&Hcov&[Hsound Hcomp Hap]).
  assert (Hall : forall x, lo <= x < hi -> visible (reverse older ++ s :: seen) x
                   = visible (s :: seen) x).
  { intros x Hx. rewrite visible_app. destruct (visible (s :: seen) x) eqn:E; [done|].
    exfalso. apply (covers_nil x), Hcov. auto. }
  split; [..|done].
  - intros l r u Hin. destruct (Hsound _ _ _ Hin) as (?&?&Hv). split_and!; [lia..|].
    intros x Hx. rewrite Hall by lia. auto.
  - intros x u Hx Hv. rewrite Hall in Hv by done. auto.
Qed.

Lemma reads_exact_perm lo hi slices nr nr' :
  nr ≡ₚ nr' -> reads_exact lo hi slices nr -> reads_exact lo hi slices nr'.
Proof.
  intros Hp [Hsound Hcomp Hap]. split.
  - intros l r s. rewrite <-Hp. apply Hsound.
  - intros x s. setoid_rewrite <-Hp. apply Hcomp.
  - eapply ForallOrdPairs_perm; [|done|done]. unfold apart. tauto.
Qed.

Definition starts_le (a b : VisibleRead) : Prop := a.1.1 <= b.1.1.

Lemma visible_reads_exact slices lo n :
  Forall slice_ok slices -> 0 <= lo -> 0 <= n -> lo + n < u64_modulus ->
  reads_exact lo (lo + n) slices (visible_reads slices lo n) /\
  StronglySorted starts_le (visible_reads slices lo n).
Proof.
  intros Hs Hlo Hn Hb. unfold visible_reads. rewrite u64_add_small by u64_lia.
  set (nr := visible_loop _ _ _). assert (Hex : reads_exact lo (lo + n) slices nr).
  { rewrite <-(reverse_involutive slices), <-(app_nil_r (reverse (reverse slices))).
    apply visible_loop_exact; [by apply Forall_reverse|]. split_and!.
    - repeat constructor; lia.
    - intros x. unfold Intervals.new. rewrite covers_cons, covers_nil. cbn. intuition.
    - split; [set_solver|cbn; done|constructor]. }
  destruct (Nat.ltb_spec 1 (length nr)) as [Hl|Hl].
  - split; [|apply sort_by_key_sorted]. eapply reads_exact_perm; [|done].
    by rewrite sort_by_key_perm.
  - split; [done|]. destruct nr as [|? [|? ?]]; cbn in Hl; [| |lia]; repeat constructor.
Qed.

(** ** The carved block reads *)

(** Where a block read puts its bytes: each lands at the position whose source
    it is. *)
Definition job_ok (l : ChunkLayout) (slices : list SliceDesc) (off n : Z) (j : ReadJob) : Prop :=
  0 <= rj_start j /\ 0 < rj_take j /\ rj_start j + rj_take j <= n /\ 0 <= rj_offset j /\
  forall i, 0 <= i < rj_take j ->
    source l slices (off + rj_start j + i) = Some (rj_key j, rj_offset j + i).

Definition job_covers (i : Z) (j : ReadJob) : Prop := rj_start j <= i < rj_start j + rj_take j.

(** Jobs in buffer order, disjoint, inside [[lo, hi]]. *)
Fixpoint jobs_chain (lo hi : Z) (js : list ReadJob) : Prop :=
  match js with
  | [] => lo <= hi
  | j :: rest => lo <= rj_start j /\ 0 < rj_take j /\ jobs_chain (rj_start j + rj_take j) hi rest
  end.

Lemma jobs_chain_le lo hi js : jobs_chain lo hi js -> lo <= hi.
Proof. revert lo. induction js as [|j js IH]; cbn; [done|]. intros lo (?&?&H%IH). lia. Qed.

Lemma jobs_chain_app lo mid hi js js' :
  jobs_chain lo mid js -> jobs_chain mid hi js' -> jobs_chain lo hi (js ++ js').
Proof.
  revert lo. induction js as [|j js IH]; intros lo Hl Hr; cbn in *.
  - destruct js' as [|j' js']; cbn in *; intuition lia.
  - intuition.
Qed.

Lemma jobs_chain_weaken lo lo' hi js : jobs_chain lo hi js -> lo' <= lo -> jobs_chain lo' hi js.
Proof. destruct js; cbn; intuition lia. Qed.

Lemma jobs_chain_ge lo hi js j : jobs_chain lo hi js -> j ∈ js ->
  lo <= rj_start j /\ 0 < rj_take j /\ rj_start j + rj_take j <= hi.
Proof.
  revert lo. induction js as [|j' js IH]; cbn; intros lo Hc Hin; [set_solver|].
  destruct Hc as (?&?&Hc). apply elem_of_cons in Hin as [->|Hin].
  - pose proof (jobs_chain_le _ _ _ Hc). lia.
  - destruct (IH _ Hc Hin) as (?&?&?). lia.
Qed.

Lemma carve_blocks_spec id seg n a q pos blocks : 0 < a ->
  tiles a q n blocks -> forall seg_len, pos + n <= seg_len -> 0 <= pos ->
  exists js, carve_blocks id seg seg_len pos blocks = Some js /\
    jobs_chain (seg + pos) (seg + pos + n) js /\
    (forall j, j ∈ js -> 0 <= rj_offset j /\ forall i, 0 <= i < rj_take j ->
       let y := q + (rj_start j - seg - pos) + i in
       rj_key j = (id, as_u32 (y / a)) /\ rj_offset j + i = y mod a) /\
    (forall i, 0 <= i < n -> exists j, j ∈ js /\ job_covers (seg + pos + i) j).
Proof.
  intros Ha Ht. revert pos. induction Ht as [q|q n s l ? ? ? Hq ? Ht IH]; intros pos m Hm Hp.
  { exists []. cbn. split_and!; [done|lia|set_solver|lia]. }
  pose proof (tiles_nonneg _ _ _ _ Ht).
  destruct (IH (pos + len s) m ltac:(lia) ltac:(lia)) as (js&Hjs&Hch&Hsrc&Hcov).
  cbn. destruct (Z.leb_spec (pos + len s) m); [|lia]. rewrite Hjs. cbn. eexists. split; [done|].
  split_and!; cbn.
  - split_and!; [lia..|]. replace (seg + pos + n) with (seg + (pos + len s) + (n - len s)) by lia.
    eapply jobs_chain_weaken; [done|lia].
  - intros j Hin. apply elem_of_cons in Hin as [->|Hin]; cbn.
    + split; [lia|]. intros i Hi.
      replace (q + (seg + pos - seg - pos) + i) with (q + i) by lia.
      destruct (tile_coordinates a q (offset s) (index s) i) as [-> ->]; [lia..|]. done.
    + destruct (Hsrc j Hin) as [? Hj]. split; [done|]. intros i Hi.
      destruct (Hj i Hi) as [-> ->].
      by replace (q + len s + (rj_start j - seg - (pos + len s)) + i)
        with (q + (rj_start j - seg - pos) + i) by lia.
  - intros i Hi. setoid_rewrite elem_of_cons. destruct (Z.lt_ge_cases i (len s)).
    + eexists. split; [by left|]. unfold job_covers; cbn. lia.
    + destruct (Hcov (i - len s) ltac:(lia)) as (j&Hin&Hj). exists j. split; [by right|].
      by replace (seg + pos + i) with (seg + (pos + len s) + (i - len s)) by lia.
Qed.

(** Visible reads in buffer order. *)
Fixpoint reads_chain (lo hi : Z) (nr : list VisibleRead) : Prop :=
  match nr with
  | [] => lo <= hi
  | (l, r, _) :: rest => lo <= l /\ l < r /\ reads_chain r hi rest
  end.

Lemma reads_exact_chain lo hi slices nr :
  lo <= hi -> reads_exact lo hi slices nr -> StronglySorted starts_le nr -> reads_chain lo hi nr.
Proof.
  intros Hlh [Hsound _ Hap] Hs.
  assert (forall l r s, (l, r, s) ∈ nr -> lo <= l < r /\ r <= hi) as Hb.
  { intros l r s Hin. destruct (Hsound _ _ _ Hin) as (?&?&_). done. }
  clear Hsound. revert lo Hlh Hb. induction nr as [|[[l r] s] nr IH]; intros lo Hlh Hb; [done|].
  inversion_clear Hap as [|? ? Hx Hap']. inversion_clear Hs as [|? ? Hs' Hle].
  destruct (Hb l r s ltac:(set_solver)). cbn. split_and!; [lia..|].
  rewrite Forall_forall in Hx, Hle. apply IH; [done..|lia|].
  intros l' r' s' Hin. destruct (Hb l' r' s' ltac:(set_solver)).
  specialize (Hx _ Hin). specialize (Hle _ Hin). unfold apart, starts_le in *. cbn in *. lia.
Qed.

Definition in_region (i : Z) (g : Z * Z) : Prop := g.1 <= i < g.1 + g.2.

(** What carving yields from buffer position [c]: block reads in order, and
    regions to zero-fill that cover the rest and meet no block read. *)
Definition carved (l : ChunkLayout) (slices : list SliceDesc) (off n c : Z)
    (nr : list VisibleRead) (js : list ReadJob) (gaps : list (Z * Z)) : Prop :=
  jobs_chain c n js /\
  (forall j, j ∈ js -> job_ok l slices off n j) /\
  (forall i, c <= i < n -> (exists j, j ∈ js /\ job_covers i j) \/ Exists (in_region i) gaps) /\
  Forall (fun g => c <= g.1 /\ 0 <= g.2 /\ g.1 + g.2 <= n /\
            forall i j, in_region i g -> j ∈ js -> ~ job_covers i j) gaps /\
  (forall a b s x, (a, b, s) ∈ nr -> a <= x < b -> exists j, j ∈ js /\ job_covers (x - off) j).

Lemma reads_chain_le lo hi nr : reads_chain lo hi nr -> lo <= hi.
Proof.
  revert lo. induction nr as [|[[l r] s] nr IH]; cbn; [done|]. intros lo (?&?&?%IH). lia.
Qed.

(** The block reads of one visible piece in front of those of the rest. *)
Lemma carved_cons l slices off n c a b s nr bjs js gaps :
  0 <= c -> off + c <= a < b -> b <= off + n ->
  (forall x, a <= x < b -> visible slices x = Some s) ->
  jobs_chain (a - off) (b - off) bjs ->
  (forall j, j ∈ bjs -> 0 <= rj_offset j /\ forall i, 0 <= i < rj_take j ->
     let y := a - s_offset s + (rj_start j - (a - off)) + i in
     rj_key j = (slice_id s, as_u32 (y / block_size l)) /\ rj_offset j + i = y mod block_size l) ->
  (forall i, 0 <= i < b - a -> exists j, j ∈ bjs /\ job_covers (a - off + i) j) ->
  carved l slices off n (b - off) nr js gaps ->
  carved l slices off n c ((a, b, s) :: nr) (bjs ++ js) ((c, a - off - c) :: gaps).
Proof.
  intros Hc Hab Hbn Hv Hbch Hbsrc Hbcov (Hchain&Hjok&Hcov&Hgaps&Hnr).
  assert (forall i j, j ∈ js -> job_covers i j -> b - off <= i) as Hjs_ge.
  { intros i j Hj [? _]. destruct (jobs_chain_ge _ _ _ _ Hchain Hj) as (?&?&?). lia. }
  assert (forall i j, j ∈ bjs -> job_covers i j -> a - off <= i < b - off) as Hbjs_in.
  { intros i j Hj [? ?]. destruct (jobs_chain_ge _ _ _ _ Hbch Hj) as (?&?&?). lia. }
  split_and!.
  - eapply jobs_chain_app; [|done]. eapply jobs_chain_weaken; [done|lia].
  - intros j. rewrite elem_of_app. intros [Hj|Hj]; [|by apply Hjok].
    destruct (Hbsrc j Hj) as [? Hsrc]. destruct (jobs_chain_ge _ _ _ _ Hbch Hj) as (?&?&?).
    split_and!; [lia..|]. intros i Hi. destruct (Hsrc i Hi) as [-> ->].
    unfold source. rewrite Hv by lia. cbn. do 2 f_equal; [do 2 f_equal|]; f_equal; lia.
  - intros i Hi. setoid_rewrite elem_of_app. destruct (Z.lt_ge_cases i (a - off)).
    { right. constructor. unfold in_region; cbn. lia. }
    destruct (Z.lt_ge_cases i (b - off)).
    + left. destruct (Hbcov (i - (a - off)) ltac:(lia)) as (j&?&Hj). exists j. split; [by left|].
      by replace (a - off + (i - (a - off))) with i in Hj by lia.
    + destruct (Hcov i ltac:(lia)) as [(j&?&?)|?]; [left; exists j; auto|right; by constructor].
  - constructor.
    + cbn. split_and!; [lia..|]. intros i j Hi Hj Hcv. unfold in_region in Hi. cbn in Hi.
      apply elem_of_app in Hj as [Hj|Hj]; [apply Hbjs_in in Hcv|apply Hjs_ge in Hcv]; [lia|done|lia|done].
    + eapply Forall_impl; [done|]. cbn. intros g (?&?&?&Hg). split_and!; [lia..|].
      intros i j Hi Hj Hcv. apply elem_of_app in Hj as [Hj|Hj]; [|by eapply Hg].
      apply Hbjs_in in Hcv; [|done]. unfold in_region in Hi. lia.
  - intros a' b' s' x Hin' Hx. setoid_rewrite elem_of_app. apply elem_of_cons in Hin' as [Heq|Hin'].
    + simplify_eq. destruct (Hbcov (x - a) ltac:(lia)) as (j&?&Hj). exists j. split; [by left|].
      by replace (a - off + (x - a)) with (x - off) in Hj by lia.
    + destruct (Hnr _ _ _ _ Hin' Hx) as (j&?&?). exists j; auto.
Qed.

(** Carving never panics. *)
Lemma carve_reads_spec l slices off n nr :
  layout_ok l -> 0 <= off -> off + n < u64_modulus -> Forall slice_ok slices ->
  (forall a b s, (a, b, s) ∈ nr -> forall x, a <= x < b -> visible slices x = Some s) ->
  forall c, 0 <= c -> reads_chain (off + c) (off + n) nr ->
  exists js gaps tl, carve_reads l off nr c c (n - c) = Some (js, gaps, tl) /\
    carved l slices off n c nr js (gaps ++ [tl]).
Proof.
  intros Hl Ho Hb Hok. induction nr as [|[[a b] s] nr IH]; intros Hv c Hc Hch.
  { exists [], [], (c, n - c). cbn in *. split; [done|]. split_and!; [cbn; lia|set_solver| | |set_solver].
    - intros i Hi. right. constructor. unfold in_region; cbn; lia.
    - repeat constructor; cbn; try lia. set_solver. }
  destruct Hch as (Hca&Hab&Hch). pose proof (reads_chain_le _ _ _ Hch) as Hbn.
  pose proof (Hv a b s ltac:(set_solver)) as Hvs.
  destruct (visible_Some _ _ _ (Hvs a ltac:(lia))) as [Hin Hsc%slice_covers_spec].
  pose proof (proj1 (Forall_forall _ _) Hok _ Hin) as [_ Hso Hsl Hse].
  destruct (IH (fun a b s H => Hv a b s ltac:(set_solver)) (b - off) ltac:(lia)
              ltac:(by replace (off + (b - off)) with b by lia))
    as (js&gaps&tl&Hjs&Hcarved).
  cbn. rewrite !(u64_sub_small a), !(u64_sub_small b), (u64_sub_small (a - off)) by u64_lia.
  destruct (Z.ltb_spec (n - c) (a - off - c)); [lia|].
  destruct (Z.ltb_spec (n - c - (a - off - c)) (b - a)); [lia|].
  pose proof (block_spans_tile l (a - s_offset s) (b - a) Hl ltac:(lia) ltac:(lia) ltac:(lia)) as Ht.
  destruct (carve_blocks_spec (slice_id s) (c + (a - off - c)) _ _ _ 0 _
              (proj1 (lo_block _ Hl)) Ht (b - a) ltac:(lia) ltac:(lia))
    as (bjs&Hbjs&Hbch&Hbsrc&Hbcov).
  change (block_span_iter_slice ?x ?y ?z) with (block_span_iter_range x y z).
  rewrite Hbjs. cbn. rewrite u64_add_small by u64_lia.
  replace (a - off + (b - a)) with (b - off) by lia.
  replace (c + (a - off - c) + (b - a)) with (b - off) by lia.
  replace (n - c - (a - off - c) - (b - a)) with (n - (b - off)) by lia.
  rewrite Hjs. cbn. replace (c + (a - off - c)) with (a - off) in * by lia.
  rewrite Z.add_0_r in *. replace (a - off + (b - a)) with (b - off) in * by lia.
  eexists _, _, _. split; [done|]. eapply carved_cons; try done.
  intros j Hj. destruct (Hbsrc j Hj) as [? Hsrc]. split; [done|]. intros i Hi.
  specialize (Hsrc i Hi). by rewrite Z.sub_0_r in Hsrc.
Qed.

(** ** Running the block reads *)
Section run.
Context {S : Type} `{!BlockStore S, !BlockStoreLaws S}.
Context (l : ChunkLayout) (slices : list SliceDesc) (off n : Z).

#[local] Instance job_covers_dec i j : Decision (job_covers i j).
Proof. unfold job_covers. apply _. Defined.

(** What one block read returns. *)
Lemma read_job_spec (st : S) j : job_ok l slices off n j ->
  match read_range st (rj_key j) (rj_offset j) (rj_take j) with
  | Ok out => Z.of_nat (length out) = rj_take j /\
      forall i, job_covers i j ->
        out !! Z.to_nat (i - rj_start j) = chunk_byte l st slices (off + i)
  | Err _ => exists i, 0 <= i < n /\ chunk_byte l st slices (off + i) = None
  end.
Proof.
  intros (?&?&?&?&Hsrc).
  assert (forall i, 0 <= i < rj_take j -> chunk_byte l st slices (off + (rj_start j + i)) =
            stored st (rj_key j) (rj_offset j + i)) as Hbyte.
  { intros i Hi. unfold chunk_byte. by rewrite Z.add_assoc, Hsrc. }
  pose proof (read_range_spec st (rj_key j) (rj_offset j) (rj_take j) ltac:(lia) ltac:(lia)) as Hr.
  destruct (read_range _ _ _ _) as [out|e].
  - destruct Hr as [Hlen Hout]. split; [done|]. intros i [? ?].
    rewrite Hout, Z2Nat.id, <-Hbyte by lia. f_equal. lia.
  - destruct Hr as (i&Hi&Hn). exists (rj_start j + Z.of_nat i). rewrite Hbyte; [|lia].
    split; [lia|done].
Qed.

Lemma run_reads_spec (st : S) js :
  (forall j, j ∈ js -> job_ok l slices off n j) -> forall buf, Z.of_nat (length buf) = n ->
  match run_reads st js buf with
  | Ok buf' => length buf' = length buf /\
      (forall i k, k ∈ js -> job_covers i k ->
         buf' !! Z.to_nat i = chunk_byte l st slices (off + i)) /\
      (forall i, 0 <= i -> (forall k, k ∈ js -> ~ job_covers i k) ->
         buf' !! Z.to_nat i = buf !! Z.to_nat i)
  | Err _ => exists i, 0 <= i < n /\ chunk_byte l st slices (off + i) = None
  end.
Proof.
  induction js as [|j js IH]; intros Hok buf Hlen; [split_and!; set_solver|].
  pose proof (Hok j ltac:(set_solver)) as Hj. pose proof (read_job_spec st j Hj) as Hr.
  destruct Hj as (?&?&?&_). cbn [run_reads].
  destruct (read_range _ _ _ _) as [out|e]; cbn [result_bind]; [|done].
  destruct Hr as [Hout Hbytes].
  assert ((Z.to_nat (rj_start j) + length out <= length buf)%nat) as Hfit by lia.
  specialize (IH ltac:(set_solver) (splice buf (Z.to_nat (rj_start j)) out)).
  rewrite length_splice in IH by done. specialize (IH Hlen).
  destruct (run_reads _ _ _) as [buf'|e]; [|done]. destruct IH as (Hl'&Hcov&Hrest).
  assert (forall i, 0 <= i -> (forall k, k ∈ js -> ~ job_covers i k) -> buf' !! Z.to_nat i =
    if decide (job_covers i j) then chunk_byte l st slices (off + i) else buf !! Z.to_nat i) as Hi.
  { intros i Hi Hk. rewrite Hrest, lookup_splice by done. unfold job_covers.
    destruct (decide (rj_start j <= i < rj_start j + rj_take j)) as [Hd|Hd].
    - rewrite decide_True by lia. rewrite <-Hbytes by done. f_equal. lia.
    - by rewrite decide_False by lia. }
  split_and!; [done| |].
  - intros i k Hin Hk. destruct (decide (Exists (job_covers i) js)) as [He|He].
    { apply Exists_exists in He as (k'&?&?). eauto. }
    rewrite <-Forall_Exists_neg, Forall_forall in He.
    apply elem_of_cons in Hin as [->|Hin]; [|by destruct (He k Hin)].
    rewrite Hi, decide_True by (unfold job_covers in *; (done || lia)). done.
  - intros i Hp Hk. rewrite Hi, decide_False; [done|set_solver..].
Qed.

(** The order of completion does not matter. *)
Lemma run_reads_any_order (st : S) js' js buf :
  js' ≡ₚ js -> (forall j, j ∈ js -> job_ok l slices off n j) -> Z.of_nat (length buf) = n ->
  match run_reads st js' buf with
  | Ok buf' => length buf' = length buf /\
      (forall i k, k ∈ js -> job_covers i k ->
         buf' !! Z.to_nat i = chunk_byte l st slices (off + i)) /\
      (forall i, 0 <= i -> (forall k, k ∈ js -> ~ job_covers i k) ->
         buf' !! Z.to_nat i = buf !! Z.to_nat i)
  | Err _ => exists i, 0 <= i < n /\ chunk_byte l st slices (off + i) = None
  end.
Proof.
  intros Hp Hok Hlen. assert (forall j, j ∈ js' <-> j ∈ js) as Hin by (intros j; by rewrite Hp).
  pose proof (run_reads_spec st js' ltac:(intros j; rewrite Hin; apply Hok) buf Hlen) as Hr.
  destruct (run_reads _ _ _); [|done]. by setoid_rewrite Hin in Hr.
Qed.

End run.

(** ** The reader returns what the newest slices stored *)

(** The contract of a read: no panic; success returns exactly the bytes of the
    range, zero where no slice covers; an error means a byte some slice should
    supply is not stored. *)
Definition read_outcome {S} `{!BlockStore S, !BlockStoreLaws S} (l : ChunkLayout) (st : S)
    (slices : list SliceDesc) (off n : Z) (r : option (result StoreError (list byte))) : Prop :=
  match r with
  | Some (Ok buf) => Z.of_nat (length buf) = n /\
      forall i, 0 <= i < n -> buf !! Z.to_nat i = chunk_byte l st slices (off + i)
  | Some (Err _) => exists i, 0 <= i < n /\ chunk_byte l st slices (off + i) = None
  | None => False
  end.

Lemma carve_exact l slices off n :
  layout_ok l -> Forall slice_ok slices -> 0 <= off -> 0 <= n -> off + n < u64_modulus ->
  exists js gaps tl,
    carve_reads l off (visible_reads slices off n) 0 0 n = Some (js, gaps, tl) /\
    carved l slices off n 0 (visible_reads slices off n) js (gaps ++ [tl]) /\
    (forall i, 0 <= i < n -> (forall j, j ∈ js -> ~ job_covers i j) ->
       source l slices (off + i) = None).
Proof.
  intros Hl Hs Ho Hn Hb. destruct (visible_reads_exact slices off n Hs Ho Hn Hb) as [Hex Hsort].
  pose proof (reads_exact_chain off (off + n) slices _ ltac:(lia) Hex Hsort) as Hch.
  destruct Hex as [Hsound Hcomp _].
  destruct (carve_reads_spec l slices off n (visible_reads slices off n) Hl Ho Hb Hs
              (fun a b s H => proj2 (proj2 (Hsound a b s H))) 0 ltac:(lia))
    as (js&gaps&tl&Hc&Hcarved); [by rewrite Z.add_0_r|].
  rewrite Z.sub_0_r in Hc. exists js, gaps, tl. split_and!; [done..|].
  intros i Hi Hno. unfold source. destruct (visible slices (off + i)) as [s|] eqn:Hv; [|done].
  destruct (Hcomp (off + i) s ltac:(lia) Hv) as (a&b&Hin&Hx).
  destruct Hcarved as (_&_&_&_&Hnr). destruct (Hnr _ _ _ _ Hin Hx) as (j&Hj&Hcv).
  replace (off + i - off) with i in Hcv by lia. by destruct (Hno j).
Qed.

Lemma zero_fill_spec buf g : 0 <= g.1 -> 0 <= g.2 -> g.1 + g.2 <= Z.of_nat (length buf) ->
  length (zero_fill buf g) = length buf /\
  forall i, 0 <= i -> (in_region i g -> zero_fill buf g !! Z.to_nat i = Some Byte.x00) /\
                      (~ in_region i g -> zero_fill buf g !! Z.to_nat i = buf !! Z.to_nat i).
Proof.
  intros H1 H2 H3. unfold zero_fill, in_region.
  rewrite length_splice by (rewrite length_replicate; lia). split; [done|]. intros i Hi.
  rewrite lookup_splice by (rewrite length_replicate; lia). rewrite length_replicate.
  split; intros Hr.
  - rewrite decide_True by lia. apply lookup_replicate_2. lia.
  - by rewrite decide_False by lia.
Qed.

Lemma zero_fills_spec gaps : forall buf,
  Forall (fun g => 0 <= g.1 /\ 0 <= g.2 /\ g.1 + g.2 <= Z.of_nat (length buf)) gaps ->
  length (foldl zero_fill buf gaps) = length buf /\
  forall i, 0 <= i ->
    (Exists (in_region i) gaps -> foldl zero_fill buf gaps !! Z.to_nat i = Some Byte.x00) /\
    (~ Exists (in_region i) gaps -> foldl zero_fill buf gaps !! Z.to_nat i = buf !! Z.to_nat i).
Proof.
  induction gaps as [|g gaps IH]; cbn; intros buf Hf.
  { split; [done|]. intros i _. split; [by inversion 1|done]. }
  inversion_clear Hf as [|? ? (?&?&?) Hf'].
  destruct (zero_fill_spec buf g) as [Hlen Hz]; [done..|].
  destruct (IH (zero_fill buf g)) as [Hlen' Hz']; [by rewrite Hlen|].
  split; [congruence|]. intros i Hi. rewrite Exists_cons.
  destruct (Hz i Hi) as [Hz1 Hz2], (Hz' i Hi) as [Hz1' Hz2'].
  assert (Decision (Exists (in_region i) gaps)) as Hd.
  { apply Exists_dec. intros g'. unfold in_region. apply _. }
  destruct Hd as [He|He].
  - split; [by auto|]. intros []; auto.
  - rewrite Hz2' by done. split; [intros [?|?]; [auto|done]|]. intros. apply Hz2. tauto.
Qed.

Section read.
Context {S : Type} `{!BlockStore S, !BlockStoreLaws S}.

Lemma read_at_from_slices_spec (completion : list ReadJob -> list ReadJob) l (st : S) slices off n :
  (forall js, completion js ≡ₚ js) ->
  layout_ok l -> Forall slice_ok slices -> 0 <= off -> 0 <= n -> off + n < u64_modulus ->
  read_outcome l st slices off n (read_at_from_slices completion l st slices off n).
Proof.
  intros Hp Hl Hs Ho Hn Hb. unfold read_at_from_slices.
  destruct (Z.eqb_spec n 0) as [->|Hnz]; [split; [done|lia]|].
  destruct (carve_exact l slices off n Hl Hs Ho Hn Hb)
    as (js&gaps&tl&Hc&(_&Hok&Hcov&_)&Hhole).
  rewrite Hc. cbn [mbind option_bind read_outcome].
  pose proof (run_reads_any_order l slices off n st (completion js) js
    (replicate (Z.to_nat n) Byte.x00) (Hp js) Hok) as Hr.
  rewrite length_replicate in Hr. specialize (Hr ltac:(lia)).
  destruct (run_reads _ _ _) as [buf|e]; [|done]. destruct Hr as (Hlen&Hin&Hout).
  split; [lia|]. intros i Hi.
  destruct (decide (Exists (fun j => rj_start j <= i < rj_start j + rj_take j) js)) as [He|He].
  - apply Exists_exists in He as (j&?&?). by eapply Hin.
  - rewrite <-Forall_Exists_neg, Forall_forall in He.
    rewrite Hout by (done || lia). unfold chunk_byte. rewrite Hhole by done.
    apply lookup_replicate_2. lia.
Qed.

(** C12: a read of a chunk range, whatever order its concurrent block reads
    complete in, never panics; when it succeeds, byte [i] of the buffer is the
    byte stored for position [offset + i] by the last published slice covering it,
    and zero where no slice does; it fails only if such a byte is missing from
    the store. *)
Theorem read_at_exact (completion : list ReadJob -> list ReadJob) l (st : S) slices off n :
  (forall js, completion js ≡ₚ js) ->
  layout_ok l -> Forall slice_ok slices -> 0 <= off -> 0 <= n -> off + n < u64_modulus ->
  read_outcome l st slices off n (read_at_from_slices completion l st slices off n).
Proof. apply read_at_from_slices_spec. Qed.

(** The variant that fills the caller's buffer returns the same bytes,
    whatever the buffer held before. *)
Theorem read_at_into_exact (completion : list ReadJob -> list ReadJob) l (st : S) slices off buf :
  (forall js, completion js ≡ₚ js) ->
  layout_ok l -> Forall slice_ok slices -> 0 <= off ->
  off + Z.of_nat (length buf) < u64_modulus ->
  read_outcome l st slices off (Z.of_nat (length buf))
    (read_at_into_from_slices completion l st slices off buf).
Proof.
  intros Hp Hl Hs Ho Hb. unfold read_at_into_from_slices. set (n := Z.of_nat (length buf)) in *.
  destruct (Z.eqb_spec n 0) as [Hz|Hnz]; [split; [done|lia]|].
  destruct (carve_exact l slices off n Hl Hs Ho ltac:(lia) Hb)
    as (js&gaps&tl&Hc&(_&Hok&Hcov&Hgaps&_)&Hhole).
  rewrite Hc. cbn [mbind option_bind read_outcome].
  apply Forall_app in Hgaps as [Hgaps Htl]. apply Forall_singleton in Htl as (?&?&?&Htl).
  pose proof (zero_fills_spec gaps buf) as Hz.
  destruct Hz as [Hzlen Hz].
  { eapply Forall_impl; [exact Hgaps|]. cbn. intros g (?&?&?&_). lia. }
  pose proof (run_reads_any_order l slices off n st (completion js) js
    (foldl zero_fill buf gaps) (Hp js) Hok) as Hr.
  rewrite Hzlen in Hr. specialize (Hr eq_refl).
  destruct (run_reads _ _ _) as [b|e]; [|done]. destruct Hr as (Hlen&Hin&Hout). cbn [result_bind].
  destruct (zero_fill_spec b tl) as [Hlt Hzt]; [lia..|]. split; [lia|]. intros i Hi.
  destruct (Hzt i ltac:(lia)) as [Hzt1 Hzt2].
  destruct (decide (Exists (fun j => rj_start j <= i < rj_start j + rj_take j) js)) as [He|He].
  - apply Exists_exists in He as (j&Hj&Hcv). rewrite Hzt2; [by eapply Hin|].
    intros Ht. by destruct (Htl i j Ht Hj).
  - rewrite <-Forall_Exists_neg, Forall_forall in He.
    unfold chunk_byte. rewrite Hhole by done.
    destruct (Hcov i ltac:(lia)) as [(j&Hj&Hcv)|Hreg]; [by destruct (He j Hj)|].
    apply Exists_app in Hreg as [Hreg|Hreg]; [|apply Exists_cons in Hreg as [Hreg|Hreg]];
      [|by apply Hzt1|by inversion Hreg].
    destruct (decide (tl.1 <= i < tl.1 + tl.2)) as [Ht|Ht]; [by apply Hzt1|].
    rewrite Hzt2, Hout by (done || lia). apply Hz; [lia|done].
Qed.

End read.

Lemma jobs_chain_disjoint lo hi js : jobs_chain lo hi js ->
  ForallOrdPairs (fun j k => rj_start j + rj_take j <= rj_start k) js.
Proof.
  revert lo. induction js as [|j js IH]; cbn; intros lo Hc; constructor;
    destruct Hc as (?&?&Hc); [|by eapply IH].
  apply Forall_forall. intros k Hk. apply (jobs_chain_ge _ _ _ _ Hc Hk).
Qed.

(** The raw buffer pieces handed to the concurrent block reads are inside
    the buffer and share no byte, which is what the [unsafe impl Send for SendBuf]
    assumes. *)
Theorem read_buffers_disjoint l slices off n :
  layout_ok l -> Forall slice_ok slices -> 0 <= off -> 0 <= n -> off + n < u64_modulus ->
  exists js gaps tl,
    carve_reads l off (visible_reads slices off n) 0 0 n = Some (js, gaps, tl) /\
    Forall (fun j => 0 <= rj_start j /\ 0 < rj_take j /\ rj_start j + rj_take j <= n) js /\
    ForallOrdPairs (fun j k => rj_start j + rj_take j <= rj_start k) js.
Proof.
  intros Hl Hs Ho Hn Hb. destruct (carve_exact l slices off n Hl Hs Ho Hn Hb)
    as (js&gaps&tl&Hc&(Hch&Hok&_)&_).
  exists js, gaps, tl. split_and!; [done| |by eapply jobs_chain_disjoint].
  apply Forall_forall. intros j Hj. destruct (Hok j Hj) as (?&?&?&_). done.
Qed.

(** ** A concrete chunk

    Blocks of four bytes, chunks of sixteen; slice 2 overwrites the end of
    slice 1 and leaves a hole after it. *)
Definition w_layout : ChunkLayout := mkLayout 16 4.
Definition w_chunk : list SliceDesc := [mkSlice 1 0 0 6; mkSlice 2 0 4 5].
Definition w_store : InMemory.InMemoryBlockStore :=
  InMemory.mkStore (list_to_map
    [((1, 0), [Byte.x61; Byte.x62; Byte.x63; Byte.x64]); ((1, 1), [Byte.x65; Byte.x66]);
     ((2, 0), [Byte.x41; Byte.x42; Byte.x43; Byte.x44]); ((2, 1), [Byte.x45])]).

Lemma w_layout_ok : layout_ok w_layout.
Proof. constructor; vm_compute; intuition congruence. Qed.

Lemma w_chunk_ok : Forall slice_ok w_chunk.
Proof. repeat constructor; vm_compute; intuition congruence. Qed.

Lemma read_at_exact_witness :
  read_at_from_slices reverse w_layout w_store w_chunk 2 8
    = Some (Ok [Byte.x63; Byte.x64; Byte.x41; Byte.x42; Byte.x43; Byte.x44; Byte.x45; Byte.x00]) /\
  read_outcome w_layout w_store w_chunk 2 8 (read_at_from_slices reverse w_layout w_store w_chunk 2 8).
Proof.
  split; [vm_compute; reflexivity|].
  refine (read_at_exact reverse w_layout w_store w_chunk 2 8 _ w_layout_ok w_chunk_ok _ _ _);
    [exact (reverse_Permutation (A := ReadJob))|done..].
Defined.
