(* ===== verification/Writer.v ===== *)
(** [src/chunk/writer.rs]: cutting a vectored payload at block boundaries and
    uploading the blocks concurrently; what is stored afterwards, and what a
    reader sees once the slice is published. *)
From stdpp Require Import options.
From S2P Require Import Prelude Span Slices BlockStore Reader.
Import Spans Slice.

(** ** The cursor over the payload segments *)

Record ChunkCursor := mkCursor { chunks : list (list byte); idx : nat; off : nat }.

Definition cursor_new (chunks : list (list byte)) : ChunkCursor := mkCursor chunks 0 0.

(** The [while need > 0] loop. Indexing past the last segment is a panic, [None].
    An iteration that does not finish steps to the next segment, so one
    iteration per segment left is enough: [take_spec] shows that [None] is
    returned only for lack of bytes. *)
Fixpoint take_loop (fuel : nat) (c : ChunkCursor) (need : nat) (out : list (list byte))
  : option (list (list byte) * ChunkCursor) :=
  match fuel with
  | O => None
  | S fuel =>
      if (need =? 0)%nat then Some (out, c) else
      chunk ← chunks c !! idx c;
      let avail := (length chunk - off c)%nat in
      let take_ := Nat.min need avail in
      let out := out ++ [take take_ (drop (off c) chunk)] in
      let off' := (off c + take_)%nat in
      let need := (need - take_)%nat in
      if (off' =? length chunk)%nat
      then take_loop fuel (mkCursor (chunks c) (S (idx c)) 0) need out
      else take_loop fuel (mkCursor (chunks c) (idx c) off') need out
  end.

Definition cursor_take (c : ChunkCursor) (need : nat) : option (list (list byte) * ChunkCursor) :=
  take_loop (S (length (chunks c) - idx c)) c need [].

(** ** The upload *)

Record Upload := mkUpload { u_key : BlockKey; u_offset : Z; u_chunks : list (list byte) }.

(** The loop that builds one future per block. *)
Fixpoint carve_uploads (slice_id : Z) (cursor : ChunkCursor) (spans : list (Span BlockTag))
  : option (list Upload) :=
  match spans with
  | [] => Some []
  | span :: rest =>
      '(block_chunks, cursor) ← cursor_take cursor (Z.to_nat (len span));
      us ← carve_uploads slice_id cursor rest;
      Some (mkUpload (slice_id, as_u32 (index span)) (offset span) block_chunks :: us)
  end.

(** The segment lengths summed. *)
Definition total_len (chunks : list (list byte)) : Z :=
  Z.of_nat (sum_list (length <$> chunks)).

Section upload.
Context {S : Type} `{!BlockStore S}.
(** The order in which the numbered uploads are carried out. *)
Context (schedule : list (nat * Upload) -> list (nat * Upload)).

Fixpoint run_uploads (store : S) (us : list (nat * Upload))
  : list (nat * result StoreError Z) * S :=
  match us with
  | [] => ([], store)
  | (i, u) :: rest =>
      let '(r, store) := write_fresh_vectored store (u_key u) (u_offset u) (u_chunks u) in
      let '(rs, store) := run_uploads store rest in
      ((i, r) :: rs, store)
  end.

(** [for res in results { res?; }] *)
Fixpoint first_error (rs : list (nat * result StoreError Z)) : result StoreError unit :=
  match rs with
  | [] => Ok tt
  | (_, Ok _) :: rest => first_error rest
  | (_, Err e) :: _ => Err e
  end.

(** [join_all] yields the results in the order of the futures. [None] is a
    panic. *)
Definition write_at_vectored (layout : ChunkLayout) (store : S) (slice_id offset : Z)
    (chunks : list (list byte)) : option (result StoreError unit * S) :=
  us ← carve_uploads slice_id (cursor_new chunks)
         (block_span_iter_slice offset (total_len chunks) layout);
  let '(results, store) := run_uploads store (schedule (imap pair us)) in
  Some (first_error (sort_by_key (fun ir => Z.of_nat ir.1) results), store).
End upload.

(** ** The cursor hands out the payload in order *)

(** The bytes still to be taken. *)
Definition rest_bytes (c : ChunkCursor) : list byte := drop (off c) (concat (drop (idx c) (chunks c))).

Definition cursor_ok (c : ChunkCursor) : Prop :=
  off c = 0%nat \/ exists ch, chunks c !! idx c = Some ch /\ (off c < length ch)%nat.

Lemma cursor_ok_fits c ch : cursor_ok c -> chunks c !! idx c = Some ch -> (off c <= length ch)%nat.
Proof. intros [->|(ch'&?&?)] ?; simplify_eq; lia. Qed.

Lemma rest_bytes_split c ch : chunks c !! idx c = Some ch -> (off c <= length ch)%nat ->
  rest_bytes c = drop (off c) ch ++ concat (drop (S (idx c)) (chunks c)).
Proof.
  intros Hch Hoff. unfold rest_bytes. rewrite (drop_S _ _ _ Hch). cbn [concat].
  by rewrite drop_app_le by done.
Qed.

Lemma rest_bytes_past c : chunks c !! idx c = None -> rest_bytes c = [].
Proof.
  intros Hn%lookup_ge_None. unfold rest_bytes. rewrite (drop_ge (chunks c)) by done.
  apply drop_nil.
Qed.

Lemma take_loop_spec fuel : forall c need out,
  cursor_ok c -> (length (chunks c) - idx c < fuel)%nat ->
  match take_loop fuel c need out with
  | Some (out', c') => cursor_ok c' /\ (need <= length (rest_bytes c))%nat /\
      concat out' = concat out ++ take need (rest_bytes c) /\
      rest_bytes c' = drop need (rest_bytes c)
  | None => (length (rest_bytes c) < need)%nat
  end.
Proof.
  induction fuel as [|fuel IH]; intros c need out Hok Hf; [lia|]. cbn [take_loop].
  destruct (Nat.eqb_spec need 0) as [->|Hneed].
  { rewrite take_0, app_nil_r, drop_0. split_and!; (done || lia). }
  destruct (chunks c !! idx c) as [ch|] eqn:Hch; cbn [mbind option_bind]; last first.
  { rewrite rest_bytes_past by done. cbn. lia. }
  pose proof (cursor_ok_fits c ch Hok Hch) as Hoff. pose proof (lookup_lt_Some _ _ _ Hch).
  rewrite (rest_bytes_split c ch Hch Hoff).
  set (t := Nat.min need (length ch - off c)).
  destruct (Nat.eqb_spec (off c + t) (length ch)) as [Hfull|Hpart].
  - specialize (IH (mkCursor (chunks c) (S (idx c)) 0) (need - t)%nat
      (out ++ [take t (drop (off c) ch)]) (or_introl eq_refl)). cbn [chunks idx] in IH.
    specialize (IH ltac:(lia)). change (rest_bytes (mkCursor (chunks c) (S (idx c)) 0))
      with (concat (drop (S (idx c)) (chunks c))) in IH.
    rewrite length_app, length_drop.
    destruct (take_loop _ _ _ _) as [[out' c']|]; [|lia]. destruct IH as (?&?&Ho&Hr).
    split_and!; [done|lia| |].
    + rewrite Ho, concat_app, <-app_assoc. cbn. rewrite app_nil_r.
      rewrite take_app, length_drop, (take_ge (drop (off c) ch)), (take_ge _ need)
        by (rewrite length_drop; lia).
      do 2 f_equal. f_equal. lia.
    + rewrite Hr, drop_app, (drop_ge (drop _ _)), length_drop by (rewrite length_drop; lia).
      cbn. f_equal. lia.
  - assert (need <= length ch - off c)%nat by lia.
    assert (t = need) as -> by lia. rewrite Nat.sub_diag.
    destruct fuel as [|fuel]; [lia|]. cbn [take_loop Nat.eqb]. split_and!.
    + right. exists ch. cbn. split; [done|lia].
    + rewrite length_app, length_drop. lia.
    + rewrite concat_app. cbn. by rewrite app_nil_r, take_app_le by (rewrite length_drop; lia).
    + rewrite (rest_bytes_split _ ch) by (cbn; (done || lia)). cbn [off idx chunks].
      by rewrite <-drop_drop, (drop_app_le _ _ need) by (rewrite length_drop; lia).
Qed.

Lemma take_spec c need : cursor_ok c ->
  match cursor_take c need with
  | Some (out, c') => cursor_ok c' /\ (need <= length (rest_bytes c))%nat /\
      concat out = take need (rest_bytes c) /\ rest_bytes c' = drop need (rest_bytes c)
  | None => (length (rest_bytes c) < need)%nat
  end.
Proof. intros Hok. apply (take_loop_spec _ c need []); [done|lia]. Qed.

Lemma rest_bytes_new cs : rest_bytes (cursor_new cs) = concat cs.
Proof. done. Qed.

Lemma total_len_concat cs : total_len cs = Z.of_nat (length (concat cs)).
Proof. unfold total_len. by rewrite length_concat. Qed.

(** ** The uploads cover the payload *)

(** Byte [i] of the payload is byte [k] of the upload to the block and offset of
    slice position [q + i]. *)
Definition uploads_cover (a id q : Z) (payload : list byte) (n : Z) (us : list Upload) : Prop :=
  forall i, 0 <= i < n -> exists u (k : nat), u ∈ us /\ u_key u = (id, (q + i) / a) /\
    u_offset u + Z.of_nat k = (q + i) mod a /\ (k < length (concat (u_chunks u)))%nat /\
    concat (u_chunks u) !! k = payload !! Z.to_nat i.

Lemma carve_uploads_spec a id q n spans : 0 < a ->
  tiles a q n spans -> 0 <= q -> q + n <= a * u32_modulus ->
  forall c, cursor_ok c -> n <= Z.of_nat (length (rest_bytes c)) ->
  exists us, carve_uploads id c spans = Some us /\ NoDup (u_key <$> us) /\
    Forall (fun u => (u_key u).1 = id /\ (q / a <= (u_key u).2 /\ (u_key u).2 * a < q + n) /\ 0 <= u_offset u) us /\
    uploads_cover a id q (rest_bytes c) n us.
Proof.
  intros Ha Ht. induction Ht as [q|q n s l Hlen Hoff Hfit Hq Hlast Ht IH]; intros Hp Hb c Hok Hn.
  { exists []. split_and!; [done|constructor|constructor|]. intros i. lia. }
  pose proof (tiles_nonneg _ _ _ _ Ht) as Hge.
  pose proof (take_spec c (Z.to_nat (len s)) Hok) as Htk. cbn [carve_uploads].
  destruct (cursor_take c (Z.to_nat (len s))) as [[out c']|]; [|lia].
  destruct Htk as (Hok'&_&Hout&Hrest). cbn [mbind option_bind].
  destruct (IH ltac:(lia) ltac:(lia) c' Hok') as (us&Hus&Hnd&Hall&Hcov).
  { rewrite Hrest, length_drop. lia. }
  assert (q / a = index s) as Hqa.
  { destruct (tile_coordinates a q (offset s) (index s) 0) as [E _]; [lia..|].
    by rewrite Z.add_0_r in E. }
  assert (0 <= index s < u32_modulus) as Hidx.
  { rewrite <-Hqa. split; [apply Z.div_pos; lia|]. apply Z.div_lt_upper_bound; lia. }
  rewrite Hus. cbn. rewrite as_u32_small by done. eexists. split; [done|].
  assert (us <> [] -> (q + len s) / a = index s + 1) as Hnext.
  { intros Hne. destruct (decide (n = len s)) as [->|Hne'].
    - rewrite Z.sub_diag in Ht. apply tiles_zero in Ht as ->. cbn in Hus. by simplify_eq.
    - rewrite <-Hq, <-Z.add_assoc, Hlast by done.
      replace (index s * a + a) with ((index s + 1) * a) by lia. by apply Z.div_mul; lia. }
  split_and!.
  - cbn. constructor; [|done]. intros (u&Hu&Hin)%list_elem_of_fmap.
    rewrite Forall_forall in Hall. destruct (Hall u Hin) as (_&[Hge' _]&_).
    rewrite Hnext in Hge' by (by intros ->; set_solver). rewrite <-Hu in Hge'. cbn in Hge'. lia.
  - constructor; [cbn; split_and!; (done || lia)|]. eapply Forall_impl; [exact Hall|].
    cbn. intros u (?&[? ?]&?). split_and!; [done| |lia|done].
    etrans; [|done]. apply Z.div_le_mono; lia.
  - intros i Hi. destruct (Z.lt_ge_cases i (len s)) as [Hlt|Hge'].
    + exists (mkUpload (id, index s) (offset s) out), (Z.to_nat i).
      destruct (tile_coordinates a q (offset s) (index s) i) as [-> ->]; [lia..|].
      cbn. split_and!; [set_solver|done|lia|rewrite Hout, length_take; lia|].
      rewrite Hout. apply lookup_take_lt. lia.
    + destruct (Hcov (i - len s) ltac:(lia)) as (u&k&Hin&Hk&Ho&Hl&Hb').
      replace (q + len s + (i - len s)) with (q + i) in * by lia.
      exists u, k. split_and!; [set_solver|done..|]. rewrite Hb', Hrest, lookup_drop. f_equal. lia.
Qed.

(** ** What is stored after the uploads *)
Section stored_after.
Context {S : Type} `{!BlockStore S, !BlockStoreLaws S}.

Definition all_ok (rs : list (nat * result StoreError Z)) : Prop :=
  Forall (fun ir => is_Ok ir.2 = true) rs.

Lemma first_error_ok rs : first_error rs = Ok tt <-> all_ok rs.
Proof.
  unfold all_ok. induction rs as [|[i [z|e]] rs IH]; cbn; [done|..].
  - rewrite IH, Forall_cons. naive_solver.
  - rewrite Forall_cons. cbn. naive_solver.
Qed.

Lemma run_uploads_spec us : forall (st : S),
  NoDup (u_key ∘ snd <$> us) -> Forall (fun iu => 0 <= u_offset iu.2) us ->
  let '(rs, st') := run_uploads st us in
  (forall k x, k ∉ (u_key ∘ snd <$> us) -> stored st' k x = stored st k x) /\
  (all_ok rs -> forall i u (k : nat), (i, u) ∈ us -> (k < length (concat (u_chunks u)))%nat ->
     stored st' (u_key u) (u_offset u + Z.of_nat k) = concat (u_chunks u) !! k).
Proof.
  induction us as [|[i u] us IH]; intros st Hnd Hoff; cbn; [split; set_solver|].
  inversion_clear Hnd as [|? ? Hni Hnd']. inversion_clear Hoff as [|? ? Ho Hoff'].
  destruct (write_fresh_vectored st (u_key u) (u_offset u) (u_chunks u)) as [r st1] eqn:Hw.
  destruct (write_fresh_spec _ _ _ _ _ _ Ho Hw) as [Hframe Hdata].
  specialize (IH st1 Hnd' Hoff'). destruct (run_uploads st1 us) as [rs st2].
  destruct IH as [IHf IHd]. split.
  - intros k x Hk. rewrite IHf, Hframe by set_solver. done.
  - intros Hall. inversion_clear Hall as [|? ? Hr Hall']. cbn in Hr.
    intros j v k Hin Hk. apply elem_of_cons in Hin as [[= -> ->]|Hin]; [|by eapply IHd].
    rewrite IHf by done. destruct r as [z|e]; [|done]. destruct Hdata as [_ Hdata]. by apply Hdata.
Qed.

Lemma imap_pair_snd {A B} (f : A -> B) (l : list A) : f ∘ snd <$> imap pair l = f <$> l.
Proof. rewrite fmap_imap. apply imap_const. Qed.

(** Only the blocks of the range are touched, and hold it on success. *)
Lemma write_at_stored_blocks schedule l (st : S) id q cs :
  (forall us, schedule us ≡ₚ us) -> layout_ok l -> 0 <= q -> q + total_len cs <= chunk_size l ->
  match write_at_vectored schedule l st id q cs with
  | Some (r, st') =>
      (forall k x, k.1 <> id \/ k.2 < q / block_size l \/ q + total_len cs <= k.2 * block_size l ->
         stored st' k x = stored st k x) /\
      (r = Ok tt -> forall i, 0 <= i < total_len cs ->
         stored st' (id, (q + i) / block_size l) ((q + i) mod block_size l)
           = concat cs !! Z.to_nat i)
  | None => False
  end.
Proof.
  intros Hp Hl Hq Hb. pose proof Hl as [Hbs Hcs _ Hblocks]. unfold write_at_vectored.
  assert (0 <= total_len cs) by (unfold total_len; lia).
  pose proof (block_spans_tile l q (total_len cs) Hl Hq ltac:(done) ltac:(lia)) as Ht.
  destruct (carve_uploads_spec (block_size l) id q (total_len cs) _ (proj1 Hbs) Ht Hq ltac:(lia)
              (cursor_new cs)) as (us&Hus&Hnd&Hall&Hcov).
  { by left. }
  { rewrite rest_bytes_new, total_len_concat. lia. }
  change (block_span_iter_slice q (total_len cs) l) with (block_span_iter_range q (total_len cs) l).
  rewrite Hus. cbn [mbind option_bind]. rewrite Forall_forall in Hall.
  assert (forall iu, iu ∈ schedule (imap pair us) -> iu.2 ∈ us) as Hmem.
  { intros [i u]. rewrite Hp, elem_of_lookup_imap. intros (?&?&[= -> ->]&?).
    by eapply list_elem_of_lookup_2. }
  pose proof (run_uploads_spec (schedule (imap pair us)) st) as Hrun.
  destruct (run_uploads st (schedule (imap pair us))) as [rs st'].
  destruct Hrun as [Hframe Hdata].
  { by rewrite Hp, imap_pair_snd. }
  { apply Forall_forall. intros iu Hin. apply (Hall iu.2), Hmem, Hin. }
  split.
  - intros k x Hk. apply Hframe. intros (iu&->&Hin)%list_elem_of_fmap.
    destruct (Hall iu.2 (Hmem _ Hin)) as (? & ? & _). cbn in Hk. destruct Hk as [?|[?|?]]; [done|lia|lia].
  - rewrite first_error_ok. unfold all_ok. rewrite sort_by_key_perm. intros Hok i Hi.
    destruct (Hcov i Hi) as (u&k&Hin&Hkey&Ho&Hlt&Hbyte).
    rewrite <-Hkey, <-Ho, <-rest_bytes_new, <-Hbyte.
    apply list_elem_of_lookup in Hin as [j Hj]. apply (Hdata Hok j); [|done].
    rewrite Hp, elem_of_lookup_imap. by exists j, u.
Qed.

Lemma write_at_stored schedule l (st : S) id q cs :
  (forall us, schedule us ≡ₚ us) -> layout_ok l -> 0 <= q -> q + total_len cs <= chunk_size l ->
  match write_at_vectored schedule l st id q cs with
  | Some (r, st') =>
      (forall k x, k.1 <> id -> stored st' k x = stored st k x) /\
      (r = Ok tt -> forall i, 0 <= i < total_len cs ->
         stored st' (id, (q + i) / block_size l) ((q + i) mod block_size l)
           = concat cs !! Z.to_nat i)
  | None => False
  end.
Proof.
  intros Hp Hl Hq Hb. pose proof (write_at_stored_blocks schedule l st id q cs Hp Hl Hq Hb) as H.
  destruct (write_at_vectored schedule l st id q cs) as [[r st']|]; [|done].
  destruct H as [Hframe Hdata]. split; [|done]. intros k x Hk. apply Hframe. by left.
Qed.
End stored_after.

(** ** Write, publish, read *)
Section round_trip.
Context {S : Type} `{!BlockStore S, !BlockStoreLaws S}.

(** The content of a chunk once a freshly written slice is appended to its list. *)
Lemma chunk_byte_published l (st st' : S) slices id cid start n (data : list byte) x :
  layout_ok l -> 0 <= start -> 0 <= n <= chunk_size l -> id ∉ slice_id <$> slices ->
  (forall k y, k.1 <> id -> stored st' k y = stored st k y) ->
  (forall i, 0 <= i < n ->
     stored st' (id, i / block_size l) (i mod block_size l) = data !! Z.to_nat i) ->
  chunk_byte l st' (slices ++ [mkSlice id cid start n]) x =
  if decide (start <= x < start + n) then data !! Z.to_nat (x - start)
  else chunk_byte l st slices x.
Proof.
  intros Hl Hs Hn Hfresh Hframe Hdata. pose proof Hl as [Hbs Hcs _ Hblocks].
  unfold chunk_byte, source. rewrite visible_app. cbn [visible]. unfold slice_covers.
  cbn [s_offset s_length]. case_decide as Hd.
  - replace (_ && _) with true by lia. cbn [fmap option_fmap option_map s_offset slice_id].
    rewrite as_u32_small; [by apply Hdata; lia|].
    split; [apply Z.div_pos; lia|apply Z.div_lt_upper_bound; lia].
  - replace (_ && _) with false by lia. destruct (visible slices x) as [s|] eqn:Hv; [|done].
    cbn. apply Hframe. cbn. apply visible_Some in Hv as [Hin _]. intros <-.
    apply Hfresh. by apply list_elem_of_fmap_2.
Qed.

(** C13: a payload written to a fresh slice id and then published is read back:
    if the upload reports success, reading any readable range of the chunk from
    the extended slice list succeeds and returns the payload inside the slice and
    the previous content everywhere else, in whatever orders the block uploads
    and block reads run. *)
Theorem write_then_read schedule completion l (st st' : S) id cid start cs slices o n :
  (forall us, schedule us ≡ₚ us) -> (forall js, completion js ≡ₚ js) ->
  layout_ok l -> Forall slice_ok slices -> is_u64 id -> id ∉ slice_id <$> slices ->
  0 <= start -> start + total_len cs <= chunk_size l ->
  write_at_vectored schedule l st id 0 cs = Some (Ok tt, st') ->
  0 <= o -> 0 <= n -> o + n < u64_modulus ->
  (forall i, 0 <= i < n -> is_Some (chunk_byte l st slices (o + i))) ->
  exists buf,
    read_at_from_slices completion l st' (slices ++ [mkSlice id cid start (total_len cs)]) o n
      = Some (Ok buf) /\
    Z.of_nat (length buf) = n /\
    forall i, 0 <= i < n -> buf !! Z.to_nat i =
      if decide (start <= o + i < start + total_len cs)
      then concat cs !! Z.to_nat (o + i - start) else chunk_byte l st slices (o + i).
Proof.
  intros Hsch Hcomp Hl Hok Hid Hfresh Hs Hfit Hw Ho Hn Hb Hold. pose proof Hl as [Hbs Hcs _ _].
  assert (0 <= total_len cs) by (unfold total_len; lia).
  pose proof (write_at_stored schedule l st id 0 cs Hsch Hl ltac:(lia) ltac:(lia)) as Hst.
  rewrite Hw in Hst. destruct Hst as [Hframe Hdata]. specialize (Hdata eq_refl).
  assert (Forall slice_ok (slices ++ [mkSlice id cid start (total_len cs)])) as Hok'.
  { apply Forall_app. split; [done|]. repeat constructor; cbn; u64_lia. }
  pose proof (read_at_from_slices_spec completion l st' _ o n Hcomp Hl Hok' Ho Hn Hb) as Hread.
  assert (forall i, chunk_byte l st' (slices ++ [mkSlice id cid start (total_len cs)]) (o + i) =
    if decide (start <= o + i < start + total_len cs)
    then concat cs !! Z.to_nat (o + i - start) else chunk_byte l st slices (o + i)) as Hbyte.
  { intros i. apply chunk_byte_published; (done || lia). }
  destruct (read_at_from_slices _ _ _ _ _ _) as [[buf|e]|]; [| |done].
  - destruct Hread as [Hlen Hread]. exists buf. split_and!; [done..|].
    intros i Hi. by rewrite Hread, Hbyte.
  - destruct Hread as (i&Hi&Hnone). rewrite Hbyte in Hnone. case_decide as Hd.
    + apply lookup_ge_None_1 in Hnone. rewrite total_len_concat in Hd. lia.
    + destruct (Hold i Hi) as [? Hsome]. by rewrite Hsome in Hnone.
Qed.
End round_trip.

Definition w_payload : list (list byte) := [[Byte.x78]; []; [Byte.x79; Byte.x7a]].

Definition w_written : InMemory.InMemoryBlockStore :=
  match write_at_vectored reverse w_layout w_store 3 0 w_payload with
  | Some (_, st) => st
  | None => w_store
  end.

Lemma w_write_ok : write_at_vectored reverse w_layout w_store 3 0 w_payload = Some (Ok tt, w_written).
Proof. vm_compute. reflexivity. Qed.

Lemma w_readable i : 0 <= i < 6 -> is_Some (chunk_byte w_layout w_store w_chunk (5 + i)).
Proof.
  intros Hi. assert (i ∈ seqZ 0 6) as Hin by (apply elem_of_seqZ; lia). clear Hi. revert i Hin.
  apply Forall_forall. apply (bool_decide_unpack _). vm_compute. exact I.
Qed.

Lemma write_then_read_witness :
  exists buf,
    read_at_from_slices reverse w_layout w_written (w_chunk ++ [mkSlice 3 0 7 (total_len w_payload)]) 5 6
      = Some (Ok buf) /\
    Z.of_nat (length buf) = 6 /\
    forall i, 0 <= i < 6 -> buf !! Z.to_nat i =
      if decide (7 <= 5 + i < 7 + total_len w_payload)
      then concat w_payload !! Z.to_nat (5 + i - 7) else chunk_byte w_layout w_store w_chunk (5 + i).
Proof.
  refine (write_then_read reverse reverse w_layout w_store w_written 3 0 7 w_payload w_chunk 5 6
    (reverse_Permutation (A := _)) (reverse_Permutation (A := _)) w_layout_ok w_chunk_ok
    _ _ _ _ w_write_ok _ _ _ w_readable); (done || (cbn; set_solver)).
Defined.
