(* ===== verification/FileLock.v ===== *)
(** POSIX record locks: [src/meta/file_lock.rs] and the per-inode lock table of
    [src/meta/stores/tikv/mod.rs] ([apply_plock_update], the lookups of
    [get_plock]). *)
From stdpp Require Import options.
From S2P Require Import Prelude.

Module FileLock.

Inductive FileLockType := Read | Write | UnLock.

#[global] Instance FileLockType_eq_dec : EqDecision FileLockType.
Proof. solve_decision. Defined.

Record FileLockRange := mkRange { start : Z; end_ : Z }.

#[global] Instance FileLockRange_eq_dec : EqDecision FileLockRange.
Proof. solve_decision. Defined.

Record PlockRecord := mkLock { lock_type : FileLockType; pid : Z; lock_range : FileLockRange }.

#[global] Instance PlockRecord_eq_dec : EqDecision PlockRecord.
Proof. solve_decision. Defined.

Record FileLockQuery := mkQuery { q_owner : Z; q_lock_type : FileLockType; q_range : FileLockRange }.
Record FileLockInfo := mkInfo { i_lock_type : FileLockType; i_range : FileLockRange; i_pid : Z }.

(** [as_u32] and [from_u32], with the Linux values of [F_RDLCK], [F_WRLCK] and
    [F_UNLCK]. *)
Definition as_u32 (t : FileLockType) : Z :=
  match t with Read => 0 | Write => 1 | UnLock => 2 end.
Definition from_u32 (v : Z) : option FileLockType :=
  if v =? as_u32 Read then Some Read else
  if v =? as_u32 Write then Some Write else
  if v =? as_u32 UnLock then Some UnLock else None.

Definition plock_new (t : FileLockType) (pid start end_ : Z) : PlockRecord :=
  mkLock t pid (mkRange start end_).

Definition overlaps (a b : FileLockRange) : bool :=
  (start b <? end_ a) && (start a <? end_ b).

(** ** Updating one owner's locks *)

Abbreviation lstart l := (start (lock_range l)).
Abbreviation lend l := (end_ (lock_range l)).

Definition insertable (nl : PlockRecord) : bool :=
  negb (bool_decide (lock_type nl = UnLock)) && (lstart nl <? lend nl).

(** The loop over the old locks and the insertion after it. *)
Fixpoint update_loop (ls : list PlockRecord) (nl : PlockRecord) (inserted : bool)
  : list PlockRecord :=
  match ls with
  | [] => if negb inserted && insertable nl then [nl] else []
  | lock :: rest =>
      if lend lock <=? lstart nl then lock :: update_loop rest nl inserted else
      let ins := negb inserted && insertable nl in
      if lend nl <=? lstart lock then
        (if ins then [nl] else []) ++ lock :: update_loop rest nl (inserted || ins)
      else
        (if lstart lock <? lstart nl
         then [plock_new (lock_type lock) (pid lock) (lstart lock) (lstart nl)] else []) ++
        (if ins then [nl] else []) ++
        (if lend nl <? lend lock
         then [plock_new (lock_type lock) (pid lock) (lend nl) (lend lock)] else []) ++
        update_loop rest nl (inserted || ins)
  end.

(** The merge of adjacent locks; [last] is the last element of [merged]. *)
Fixpoint merge_loop (last : PlockRecord) (ls : list PlockRecord) : list PlockRecord :=
  match ls with
  | [] => [last]
  | record :: rest =>
      if bool_decide (lock_type last = lock_type record) && (pid last =? pid record)
         && (lend last =? lstart record)
      then merge_loop (plock_new (lock_type last) (pid last) (lstart last) (lend record)) rest
      else last :: merge_loop record rest
  end.

Definition keep_lock (r : PlockRecord) : bool :=
  negb (bool_decide (lock_type r = UnLock)) && (lstart r <? lend r).

Definition update_locks (ls : list PlockRecord) (nl : PlockRecord) : list PlockRecord :=
  match List.filter keep_lock (update_loop ls nl false) with
  | [] => []
  | r :: rest => merge_loop r rest
  end.

Definition check_conflict (t : FileLockType) (range : FileLockRange) (ls : list PlockRecord) : bool :=
  existsb (fun l => (bool_decide (t = Write) || bool_decide (lock_type l = Write))
                    && (lstart l <? end_ range) && (start range <? lend l)) ls.

(** [PlockRecord::get_plock]: the first conflicting lock; the pid is shown only
    to the session that took the lock. *)
Definition conflicts_with (query : FileLockQuery) (lock : PlockRecord) : bool :=
  overlaps (lock_range lock) (q_range query) &&
  negb (bool_decide (lock_type lock = Read) && bool_decide (q_lock_type query = Read)).

Definition get_plock (locks : list PlockRecord) (query : FileLockQuery) (self_sid lock_sid : Z)
  : option FileLockInfo :=
  (fun '(_, lock) => mkInfo (lock_type lock) (lock_range lock)
             (if self_sid =? lock_sid then pid lock else 0))
  <$> list_find (fun lock => conflicts_with query lock = true) locks.

(** ** The lock table of an inode *)

(** A session id is a UUID, here its 128-bit value. *)
Record StoredPlock := mkStoredPlock { sid : Z; owner : Z; records : list PlockRecord }.

#[global] Instance StoredPlock_eq_dec : EqDecision StoredPlock.
Proof. solve_decision. Defined.

Definition is_mine (my_sid my_owner : Z) (p : StoredPlock) : bool :=
  (sid p =? my_sid) && (owner p =? my_owner).

Fixpoint position_mine (plocks : list StoredPlock) (my_sid my_owner : Z) : option nat :=
  match plocks with
  | [] => None
  | p :: rest => if is_mine my_sid my_owner p then Some O
                 else S <$> position_mine rest my_sid my_owner
  end.

Definition with_records (p : StoredPlock) (rs : list PlockRecord) : StoredPlock :=
  mkStoredPlock (sid p) (owner p) rs.

(** [Err tt] is [MetaError::LockConflict]. *)
Definition apply_plock_update (plocks : list StoredPlock) (my_sid my_owner : Z)
    (new_lock : PlockRecord) (t : FileLockType) (range : FileLockRange)
  : result unit (list StoredPlock) :=
  let current_idx := position_mine plocks my_sid my_owner in
  if bool_decide (t = UnLock) then
    Ok match current_idx with
       | None => plocks
       | Some idx =>
           match plocks !! idx with
           | None => plocks
           | Some p =>
               let updated := update_locks (records p) new_lock in
               if bool_decide (updated = []) then delete idx plocks
               else <[idx := with_records p updated]> plocks
           end
       end
  else if existsb (fun p => negb (is_mine my_sid my_owner p)
                            && check_conflict t range (records p)) plocks
  then Err tt
  else Ok match current_idx with
          | Some idx =>
              match plocks !! idx with
              | None => plocks
              | Some p => <[idx := with_records p (update_locks (records p) new_lock)]> plocks
              end
          | None => plocks ++ [mkStoredPlock my_sid my_owner [new_lock]]
          end.

(** The scan of [MetaStore::get_plock] over the table. *)
Fixpoint query_plocks (plocks : list StoredPlock) (my_sid : Z) (query : FileLockQuery)
  : FileLockInfo :=
  match plocks with
  | [] => mkInfo UnLock (mkRange 0 0) 0
  | p :: rest =>
      if is_mine my_sid (q_owner query) p then query_plocks rest my_sid query else
      match get_plock (records p) query my_sid (sid p) with
      | Some info => info
      | None => query_plocks rest my_sid query
      end
  end.

(** ** What an owner holds

    [held ls x] is the kind and pid of the lock on byte [x]. *)
Definition lock_covers (x : Z) (l : PlockRecord) : bool := (lstart l <=? x) && (x <? lend l).

Fixpoint held (ls : list PlockRecord) (x : Z) : option (FileLockType * Z) :=
  match ls with
  | [] => None
  | l :: rest => if lock_covers x l then Some (lock_type l, pid l) else held rest x
  end.

(** Real locks, non-empty, in order and disjoint, from [lo] on. *)
Fixpoint locks_ok (lo : Z) (ls : list PlockRecord) : Prop :=
  match ls with
  | [] => True
  | l :: rest => lo <= lstart l /\ lstart l < lend l /\ lock_type l <> UnLock /\ locks_ok (lend l) rest
  end.

Lemma locks_ok_weaken lo lo' ls : locks_ok lo ls -> lo' <= lo -> locks_ok lo' ls.
Proof. destruct ls; cbn; [done|]. intros (?&?&?&?) ?. split_and!; (done || lia). Qed.

Lemma held_below lo ls x : locks_ok lo ls -> x < lo -> held ls x = None.
Proof.
  revert lo. induction ls as [|l ls IH]; cbn; intros lo Hok Hx; [done|].
  destruct Hok as (?&?&_&Hok). unfold lock_covers.
  destruct (Z.leb_spec (lstart l) x); [lia|]. apply (IH (lend l)); [done|lia].
Qed.

(** The new lock as a function of the position. *)
Definition update_spec (nl : PlockRecord) (old : option (FileLockType * Z)) (x : Z)
  : option (FileLockType * Z) :=
  if lock_covers x nl then
    if bool_decide (lock_type nl = UnLock) then None else Some (lock_type nl, pid nl)
  else old.

Lemma lock_covers_spec x l : lock_covers x l = true <-> lstart l <= x < lend l.
Proof. unfold lock_covers. lia. Qed.

Lemma held_cons l ls x :
  held (l :: ls) x = if lock_covers x l then Some (lock_type l, pid l) else held ls x.
Proof. done. Qed.

Ltac lock_cases :=
  repeat match goal with
  | |- context [?a <? ?b] => destruct (Z.ltb_spec a b); cbn [andb orb negb app]
  | |- context [?a <=? ?b] => destruct (Z.leb_spec a b); cbn [andb orb negb app]
  end.

(** Raising the lower bound past positions nobody holds. *)
Lemma locks_ok_raise lo b ls :
  locks_ok lo ls -> (forall x, x < b -> held ls x = None) -> locks_ok b ls.
Proof.
  destruct ls as [|l ls]; cbn; [done|]. intros (?&?&?&?) Hx. split_and!; try done.
  destruct (Z.le_gt_cases b (lstart l)); [done|]. specialize (Hx (lstart l) ltac:(lia)).
  unfold lock_covers in Hx. rewrite (proj2 (Z.leb_le _ _)), (proj2 (Z.ltb_lt _ _)) in Hx by lia.
  done.
Qed.

(** Once the new lock is in, or is never to be, the loop only cuts its range out. *)
Lemma update_loop_cut nl ls : forall lo inserted,
  negb inserted && insertable nl = false -> lstart nl <= lend nl -> locks_ok lo ls ->
  locks_ok lo (update_loop ls nl inserted) /\
  forall x, held (update_loop ls nl inserted) x = if lock_covers x nl then None else held ls x.
Proof.
  induction ls as [|l ls IH]; intros lo ins Hins Hnl Hok; cbn [update_loop].
  { rewrite Hins. split; [done|]. intros x. cbn. by destruct (lock_covers x nl). }
  destruct Hok as (Hlo&Hne&Hty&Hok). rewrite Hins, orb_false_r.
  destruct (IH (lend l) ins Hins Hnl Hok) as [IHok IHheld].
  assert (forall x, x < lend l -> held ls x = None) as Hbelow by (intros; by eapply held_below).
  destruct (Z.leb_spec (lend l) (lstart nl)); [|destruct (Z.leb_spec (lend nl) (lstart l))].
  - split; [cbn; split_and!; done|]. intros x. rewrite !held_cons, IHheld. unfold lock_covers.
    lock_cases; (done || lia).
  - split; [cbn; split_and!; done|]. intros x. cbn [app]. rewrite !held_cons, IHheld.
    unfold lock_covers. lock_cases; (done || lia).
  - split.
    + lock_cases; cbn; split_and?; try done; try lia; eapply locks_ok_weaken; (done || lia).
    + intros x. rewrite (held_cons l). specialize (IHheld x). specialize (Hbelow x).
      unfold lock_covers in *. lock_cases; cbn [held lock_covers plock_new lock_range start end_ lock_type pid];
        unfold lock_covers; cbn [lock_range start end_ plock_new]; rewrite ?IHheld;
        lock_cases; try done; try lia; by rewrite Hbelow by lia.
Qed.

(** While the new lock is still to be inserted. *)
Lemma update_loop_insert nl ls : forall lo,
  insertable nl = true -> lo <= lstart nl -> locks_ok lo ls ->
  locks_ok lo (update_loop ls nl false) /\
  forall x, held (update_loop ls nl false) x =
    if lock_covers x nl then Some (lock_type nl, pid nl) else held ls x.
Proof.
  intros lo Hins. assert (lock_type nl <> UnLock /\ lstart nl < lend nl) as [Hty Hne].
  { unfold insertable in Hins. case_bool_decide; [done|]. split; [done|lia]. }
  revert lo. induction ls as [|l ls IH]; intros lo Hlo Hok; cbn [update_loop negb andb]; rewrite Hins.
  { split; [by cbn; split_and!|done]. }
  destruct Hok as (Hl&Hlne&Hlty&Hok).
  destruct (update_loop_cut nl ls (lend l) true eq_refl ltac:(lia) Hok) as [Cok Cheld].
  assert (forall x, x < lend l -> held ls x = None) as Hbelow by (intros; by eapply held_below).
  destruct (Z.leb_spec (lend l) (lstart nl)); [|destruct (Z.leb_spec (lend nl) (lstart l))];
    cbn [orb].
  - destruct (IH (lend l) ltac:(lia) Hok) as [IHok IHheld]. split; [by cbn; split_and!|].
    intros x. rewrite !held_cons, IHheld. unfold lock_covers. lock_cases; (done || lia).
  - split; [cbn; split_and!; (done || lia)|]. intros x. cbn [app].
    rewrite !held_cons, Cheld. unfold lock_covers. lock_cases; (done || lia).
  - assert (locks_ok (lend nl) (update_loop ls nl true)) as Cok'.
    { eapply locks_ok_raise; [exact Cok|]. intros x Hx. rewrite Cheld. unfold lock_covers.
      lock_cases; try done; apply Hbelow; lia. }
    split.
    + lock_cases; cbn; split_and?; try done; lia.
    + intros x. rewrite (held_cons l). specialize (Cheld x). specialize (Hbelow x).
      unfold lock_covers in *. lock_cases; cbn [held lock_covers plock_new lock_range start end_ lock_type pid app];
        unfold lock_covers; cbn [lock_range start end_ plock_new]; rewrite ?Cheld;
        lock_cases; try done; try lia; by rewrite Hbelow by lia.
Qed.

Lemma merge_loop_ok ls : forall lo last, locks_ok lo (last :: ls) ->
  locks_ok lo (merge_loop last ls) /\ forall x, held (merge_loop last ls) x = held (last :: ls) x.
Proof.
  induction ls as [|l ls IH]; intros lo last Hok; [done|]. cbn [merge_loop].
  destruct Hok as (?&?&?&Hok). destruct (IH (lend last) l Hok) as [IHok IHheld].
  destruct Hok as (?&?&?&Hok).
  case_bool_decide as Ht; cbn [andb]; [destruct (Z.eqb_spec (pid last) (pid l)) as [Hp|];
    cbn [andb]; [destruct (Z.eqb_spec (lend last) (lstart l)) as [He|]|]|].
  2-4: split; [by cbn; split_and!|intros x; by rewrite !(held_cons last), IHheld].
  destruct (IH lo (plock_new (lock_type last) (pid last) (lstart last) (lend l))) as [Hok' Hh'].
  { cbn. split_and!; (done || lia). }
  split; [done|]. intros x. rewrite Hh', !held_cons. cbn [plock_new lock_type pid].
  rewrite Ht, Hp. unfold lock_covers. cbn [plock_new lock_range start end_].
  lock_cases; (done || lia).
Qed.

Lemma keep_all lo ls : locks_ok lo ls -> List.filter keep_lock ls = ls.
Proof.
  revert lo. induction ls as [|l ls IH]; cbn; intros lo Hok; [done|].
  destruct Hok as (?&?&?&Hok). unfold keep_lock at 1.
  rewrite bool_decide_false by done. rewrite (proj2 (Z.ltb_lt _ _)) by done. cbn.
  f_equal. eauto.
Qed.

Lemma update_locks_spec ls nl :
  locks_ok 0 ls -> 0 <= lstart nl <= lend nl ->
  locks_ok 0 (update_locks ls nl) /\
  forall x, held (update_locks ls nl) x = update_spec nl (held ls x) x.
Proof.
  intros Hok Hnl. unfold update_locks, update_spec.
  assert (locks_ok 0 (update_loop ls nl false) /\
    forall x, held (update_loop ls nl false) x = update_spec nl (held ls x) x) as [Uok Uheld].
  { unfold update_spec. destruct (insertable nl) eqn:Hins.
    - destruct (update_loop_insert nl ls 0 Hins ltac:(lia) Hok) as [? Hh]. split; [done|].
      intros x. rewrite Hh. unfold insertable in Hins.
      case_bool_decide; [done|]. done.
    - destruct (update_loop_cut nl ls 0 false ltac:(by cbn) ltac:(lia) Hok) as [? Hh].
      split; [done|]. intros x. rewrite Hh. unfold insertable in Hins.
      case_bool_decide; [done|]. cbn in Hins. unfold lock_covers.
      lock_cases; (done || lia). }
  rewrite (keep_all 0) by done. unfold update_spec in Uheld.
  destruct (update_loop ls nl false) as [|r rest]; [done|].
  destruct (merge_loop_ok rest 0 r Uok) as [Mok Mheld]. split; [done|].
  intros x. by rewrite Mheld, Uheld.
Qed.

(** ** The lock table *)

Fixpoint holds (plocks : list StoredPlock) (s o x : Z) : option (FileLockType * Z) :=
  match plocks with
  | [] => None
  | p :: rest => if is_mine s o p then held (records p) x else holds rest s o x
  end.

Definition compatible (a b : option (FileLockType * Z)) : Prop :=
  match a, b with
  | Some (t, _), Some (t', _) => t = Read /\ t' = Read
  | _, _ => True
  end.

(** One row per session and owner, each row a well-formed lock list, and no byte
    on which two owners hold locks unless both are read locks. *)
Record table_ok (plocks : list StoredPlock) : Prop := {
  to_keys : NoDup ((fun p => (sid p, owner p)) <$> plocks);
  to_rows : Forall (fun p => locks_ok 0 (records p)) plocks;
  to_compatible s o s' o' x : (s, o) <> (s', o') ->
    compatible (holds plocks s o x) (holds plocks s' o' x)
}.

Lemma is_mine_spec s o p : is_mine s o p = true <-> (sid p, owner p) = (s, o).
Proof.
  unfold is_mine. rewrite andb_true_iff, !Z.eqb_eq. split; [intros [-> ->]; done|by intros [= -> ->]].
Qed.

Lemma compatible_sym a b : compatible a b -> compatible b a.
Proof. destruct a as [[]|], b as [[]|]; cbn; tauto. Qed.

Lemma position_mine_Some plocks s o idx : position_mine plocks s o = Some idx ->
  exists l1 p l2, plocks = l1 ++ p :: l2 /\ length l1 = idx /\ is_mine s o p = true /\
    Forall (fun q => is_mine s o q = false) l1.
Proof.
  revert idx. induction plocks as [|p l IH]; cbn; intros idx H; [done|].
  destruct (is_mine s o p) eqn:Hm; simplify_eq; [by exists [], p, l|].
  destruct (position_mine l s o) as [j|]; cbn in H; simplify_eq.
  destruct (IH j eq_refl) as (l1&q&l2&->&<-&?&?). exists (p :: l1), q, l2.
  split_and!; try done. by constructor.
Qed.

(** The edits of the table at that index. *)
Lemma position_mine_edit plocks s o idx : position_mine plocks s o = Some idx ->
  exists l1 p l2, plocks = l1 ++ p :: l2 /\ is_mine s o p = true /\
    Forall (fun q => is_mine s o q = false) l1 /\ plocks !! idx = Some p /\
    delete idx plocks = l1 ++ l2 /\ forall q, <[idx := q]> plocks = l1 ++ q :: l2.
Proof.
  intros (l1&p&l2&->&<-&?&?)%position_mine_Some. exists l1, p, l2. split_and!; try done.
  - by apply list_lookup_middle.
  - apply delete_middle.
  - intros q. rewrite insert_app_r_alt, Nat.sub_diag by lia. done.
Qed.

Lemma position_mine_None plocks s o : position_mine plocks s o = None ->
  Forall (fun q => is_mine s o q = false) plocks.
Proof.
  induction plocks as [|p l IH]; cbn; [done|]. destruct (is_mine s o p) eqn:Hm; [done|].
  destruct (position_mine l s o); [done|]. intros _. constructor; auto.
Qed.

Lemma holds_app l1 l2 s o x :
  holds (l1 ++ l2) s o x =
  if bool_decide (Exists (fun p => is_mine s o p = true) l1)
  then holds l1 s o x else holds l2 s o x.
Proof.
  induction l1 as [|p l1 IH]; cbn [app holds].
  { rewrite bool_decide_false; [done|]. by inversion 1. }
  destruct (is_mine s o p) eqn:Hm.
  - rewrite bool_decide_true; [done|]. by constructor.
  - rewrite IH, (bool_decide_ext (Exists _ (p :: l1)) (Exists (fun q => is_mine s o q = true) l1));
      [done|]. rewrite Exists_cons, Hm. intuition done.
Qed.

Lemma holds_elem plocks p x :
  NoDup ((fun p => (sid p, owner p)) <$> plocks) -> p ∈ plocks ->
  holds plocks (sid p) (owner p) x = held (records p) x.
Proof.
  induction plocks as [|q l IH]; cbn; intros Hnd Hin; [set_solver|].
  apply NoDup_cons in Hnd as [Hni Hnd]. apply elem_of_cons in Hin as [->|Hin].
  { by rewrite (proj2 (is_mine_spec _ _ q)). }
  destruct (is_mine (sid p) (owner p) q) eqn:Hm; [|auto].
  apply is_mine_spec in Hm. destruct Hni. rewrite Hm. by apply (list_elem_of_fmap_2 (fun p => (sid p, owner p))).
Qed.

Lemma holds_Some_elem plocks s o x a : holds plocks s o x = Some a ->
  exists p, p ∈ plocks /\ sid p = s /\ owner p = o /\ held (records p) x = Some a.
Proof.
  induction plocks as [|q l IH]; cbn; [done|]. destruct (is_mine s o q) eqn:Hm.
  - apply is_mine_spec in Hm as [= <- <-]. intros. exists q. set_solver.
  - intros H. destruct (IH H) as (p&?&?&?&?). exists p. set_solver.
Qed.

Lemma holds_none l s o x : Forall (fun q => is_mine s o q = false) l -> holds l s o x = None.
Proof. induction 1 as [|q l Hq _ IH]; cbn; [done|]. by rewrite Hq. Qed.

(** Replacing the row of [(s, o)]. *)
Lemma holds_replace l1 p l2 s o (rs : list PlockRecord) s' o' x :
  is_mine s o p = true -> Forall (fun q => is_mine s o q = false) l1 ->
  holds (l1 ++ with_records p rs :: l2) s' o' x =
  if bool_decide ((s', o') = (s, o)) then held rs x else holds (l1 ++ p :: l2) s' o' x.
Proof.
  intros Hp Hl1. apply is_mine_spec in Hp as [= <- <-]. case_bool_decide as Hd.
  - injection Hd as -> ->. rewrite holds_app, bool_decide_false.
    + cbn. rewrite (proj2 (is_mine_spec (sid p) (owner p) (with_records p rs))); done.
    + rewrite Exists_exists. rewrite Forall_forall in Hl1. intros (q&Hq&Hm). by rewrite Hl1 in Hm.
  - rewrite !holds_app. case_bool_decide; [done|]. cbn.
    assert (forall q, (sid q, owner q) = (sid p, owner p) -> is_mine s' o' q = false) as Hne.
    { intros q Hq. apply not_true_iff_false. rewrite is_mine_spec, Hq. congruence. }
    by rewrite (Hne p), (Hne (with_records p rs)).
Qed.

(** [check_conflict] finds exactly the conflicting bytes. *)
Lemma check_conflict_spec t r ls lo : locks_ok lo ls -> start r < end_ r ->
  check_conflict t r ls = true <->
  exists x t' pid, start r <= x < end_ r /\ held ls x = Some (t', pid) /\ (t = Write \/ t' = Write).
Proof.
  intros Hok Hr. unfold check_conflict. rewrite existsb_exists. split.
  - intros (l&Hin%list_elem_of_In&Hc). revert lo Hok Hin. induction ls as [|l' ls IH]; intros lo Hok Hin; [set_solver|].
    destruct Hok as (?&?&?&Hok). apply elem_of_cons in Hin as [->|Hin].
    + exists (Z.max (start r) (lstart l')), (lock_type l'), (pid l').
      rewrite !andb_true_iff, orb_true_iff, !bool_decide_eq_true, !Z.ltb_lt in Hc.
      split; [lia|]. rewrite held_cons, (proj2 (lock_covers_spec _ _)) by lia. split; [done|tauto].
    + destruct (IH (lend l') Hok Hin) as (x&t'&p&?&Hh&?). exists x, t', p. split_and!; try lia; try done.
      rewrite held_cons. destruct (lock_covers x l') eqn:Hcv; [|done].
      apply lock_covers_spec in Hcv. rewrite (held_below (lend l')) in Hh; [done|done|lia].
  - intros (x&t'&p&Hx&Hh&Hw). clear lo Hok. induction ls as [|l ls IH]; [done|].
    rewrite held_cons in Hh. destruct (lock_covers x l) eqn:Hcv.
    + injection Hh as <- <-. apply lock_covers_spec in Hcv. exists l. split; [by left|].
      rewrite !andb_true_iff, orb_true_iff, !bool_decide_eq_true, !Z.ltb_lt. split_and!; (tauto || lia).
    + destruct (IH Hh) as (l'&?&?). exists l'. split; [by right|done].
Qed.

(** What an update does to the table, seen through [holds]. *)
Definition table_updated (plocks plocks' : list StoredPlock) (s o : Z) (nl : PlockRecord) : Prop :=
  forall s' o' x, holds plocks' s' o' x =
    if bool_decide ((s', o') = (s, o)) then update_spec nl (holds plocks s o x) x
    else holds plocks s' o' x.

Lemma table_ok_updated plocks plocks' s o nl :
  table_ok plocks -> table_updated plocks plocks' s o nl ->
  NoDup ((fun p => (sid p, owner p)) <$> plocks') ->
  Forall (fun p => locks_ok 0 (records p)) plocks' ->
  (lock_type nl <> UnLock -> forall s' o' x t' pid, (s', o') <> (s, o) ->
     lstart nl <= x < lend nl -> holds plocks s' o' x = Some (t', pid) ->
     lock_type nl = Read /\ t' = Read) ->
  table_ok plocks'.
Proof.
  intros [Hk Hr Hc] Hu Hk' Hr' Hfree. split; [done..|].
  assert (forall s' o' x, (s', o') <> (s, o) ->
    compatible (update_spec nl (holds plocks s o x) x) (holds plocks s' o' x)) as Hnew.
  { intros s' o' x Hne. unfold update_spec. destruct (lock_covers x nl) eqn:Hcv; [|by apply Hc].
    case_bool_decide as Ht; [done|]. cbn. apply lock_covers_spec in Hcv.
    destruct (holds plocks s' o' x) as [[t' q]|] eqn:Hh; [|done]. by eapply Hfree. }
  intros s1 o1 s2 o2 x Hne. rewrite !Hu. repeat case_bool_decide; simplify_eq; auto.
  by apply compatible_sym, Hnew.
Qed.

Lemma no_conflict plocks s o t r s' o' x t' pid :
  table_ok plocks -> t <> UnLock -> start r < end_ r ->
  existsb (fun p => negb (is_mine s o p) && check_conflict t r (records p)) plocks = false ->
  (s', o') <> (s, o) -> start r <= x < end_ r -> holds plocks s' o' x = Some (t', pid) ->
  t = Read /\ t' = Read.
Proof.
  intros [_ Hrows _] Ht Hr Hno Hne Hx Hh.
  destruct (holds_Some_elem _ _ _ _ _ Hh) as (p&Hin&<-&<-&Hp).
  assert (check_conflict t r (records p) = false) as Hcc.
  { apply not_true_iff_false. intros Hcc. apply not_true_iff_false in Hno. apply Hno.
    apply existsb_exists. exists p. split; [by apply list_elem_of_In|]. rewrite Hcc, andb_true_r.
    apply negb_true_iff, not_true_iff_false. rewrite is_mine_spec. congruence. }
  apply not_true_iff_false in Hcc. rewrite check_conflict_spec in Hcc.
  2: { by apply (proj1 (Forall_forall _ _) Hrows). } 2: done.
  assert (~ (t = Write \/ t' = Write)) as Hw by (intros Hw; apply Hcc; by exists x, t', pid).
  assert (t' <> UnLock) as Ht'.
  { pose proof (proj1 (Forall_forall _ _) Hrows _ Hin) as Hok. cbn in Hok. clear - Hok Hp.
    revert Hok Hp. generalize 0. induction (records p) as [|l ls IH]; intros z; [done|].
    cbn. intros (?&?&?&Hok) Hh. case_match; simplify_eq; [done|]. eauto. }
  destruct t, t'; naive_solver.
Qed.

Lemma NoDup_replace {A B} (f : A -> B) l1 p q l2 :
  f q = f p -> NoDup (f <$> l1 ++ p :: l2) -> NoDup (f <$> l1 ++ q :: l2).
Proof. rewrite !fmap_app, !fmap_cons. by intros ->. Qed.

(** The table after the row of [(s, o)] is replaced, dropped or appended. *)
Lemma replace_row plocks l1 p l2 s o nl :
  table_ok plocks -> plocks = l1 ++ p :: l2 -> is_mine s o p = true ->
  Forall (fun q => is_mine s o q = false) l1 -> 0 <= lstart nl <= lend nl ->
  let rs := update_locks (records p) nl in
  let plocks' := l1 ++ with_records p rs :: l2 in
  table_updated plocks plocks' s o nl /\
  NoDup ((fun p => (sid p, owner p)) <$> plocks') /\
  Forall (fun p => locks_ok 0 (records p)) plocks' /\
  (rs = [] -> table_updated plocks (l1 ++ l2) s o nl /\
     NoDup ((fun p => (sid p, owner p)) <$> l1 ++ l2) /\
     Forall (fun p => locks_ok 0 (records p)) (l1 ++ l2)).
Proof.
  intros [Hk Hrows _] -> Hp Hl1 Hnl rs plocks'.
  assert (locks_ok 0 (records p)) as Hpok.
  { apply (proj1 (Forall_forall _ _) Hrows). set_solver. }
  destruct (update_locks_spec (records p) nl Hpok Hnl) as [Hrs Hheld].
  assert (forall x, holds (l1 ++ p :: l2) s o x = held (records p) x) as Hmine.
  { intros x. pose proof Hp as [= <- <-]%is_mine_spec. apply holds_elem; [done|set_solver]. }
  assert (table_updated (l1 ++ p :: l2) plocks' s o nl) as Hupd.
  { intros s' o' x. unfold plocks'. rewrite (holds_replace l1 p l2 s o rs) by done.
    rewrite Hmine, <-Hheld. done. }
  split_and!.
  - done.
  - by apply (NoDup_replace _ _ p).
  - apply Forall_app in Hrows as [? Hrows]. inversion_clear Hrows. apply Forall_app. split; [done|].
    by constructor.
  - intros Hnil. split_and!.
    + intros s' o' x. rewrite <-(Hupd s' o' x). unfold plocks'. rewrite Hnil, !holds_app.
      case_bool_decide; [done|]. cbn. destruct (is_mine s' o' (with_records p [])) eqn:Hm; [|done].
      apply holds_none. apply Forall_forall. intros q Hq. apply not_true_iff_false.
      rewrite is_mine_spec in Hm |- *. cbn in Hm. intros Hq'. rewrite fmap_app, fmap_cons in Hk.
      apply NoDup_app in Hk as (_&_&Hk). apply NoDup_cons in Hk as [Hk _]. apply Hk.
      rewrite Hm, <-Hq'. by apply (list_elem_of_fmap_2 (fun p => (sid p, owner p))).
    + rewrite fmap_app, fmap_cons in Hk. rewrite fmap_app. apply NoDup_app in Hk as (?&Hd&Hk).
      apply NoDup_cons in Hk as [_ ?]. apply NoDup_app. split_and!; [done| |done].
      intros k Hk1 Hk2. apply (Hd k Hk1), elem_of_cons. by right.
    + apply Forall_app in Hrows as [? Hrows]. inversion_clear Hrows. by apply Forall_app.
Qed.

Lemma append_row plocks s o nl :
  table_ok plocks -> Forall (fun q => is_mine s o q = false) plocks ->
  lock_type nl <> UnLock -> 0 <= lstart nl < lend nl ->
  let plocks' := plocks ++ [mkStoredPlock s o [nl]] in
  table_updated plocks plocks' s o nl /\
  NoDup ((fun p => (sid p, owner p)) <$> plocks') /\
  Forall (fun p => locks_ok 0 (records p)) plocks'.
Proof.
  intros [Hk Hrows _] Hno Hty Hnl plocks'. split_and!.
  - intros s' o' x. unfold plocks', update_spec. rewrite (holds_none plocks s o x Hno).
    rewrite holds_app. case_bool_decide as He.
    + case_bool_decide as Hd; [|done]. injection Hd as -> ->. apply Exists_exists in He as (q&Hq&Hm).
      rewrite Forall_forall in Hno. by rewrite Hno in Hm.
    + assert (holds plocks s' o' x = None) as Hn.
      { apply holds_none, Forall_forall. intros q Hq. apply not_true_iff_false. intros Hm.
        apply He, Exists_exists. eauto. }
      cbn. case_bool_decide as Hd.
      * injection Hd as -> ->. rewrite (proj2 (is_mine_spec s o _)) by done.
        destruct (lock_covers x nl); [|done]. by case_bool_decide.
      * rewrite (proj1 (not_true_iff_false _)); [done|]. rewrite is_mine_spec. cbn. congruence.
  - unfold plocks'. rewrite fmap_app. apply NoDup_app. split_and!; [done| |apply NoDup_singleton].
    intros k (q&->&Hq)%list_elem_of_fmap. cbn. rewrite list_elem_of_singleton. rewrite Forall_forall in Hno.
    intros Heq. specialize (Hno q Hq). apply not_true_iff_false in Hno. by rewrite is_mine_spec in Hno.
  - apply Forall_app. split; [done|]. repeat constructor; cbn; (done || lia).
Qed.

(** The two edits at the owner's index. *)
Lemma edit_row plocks s o nl idx :
  table_ok plocks -> 0 <= lstart nl <= lend nl -> position_mine plocks s o = Some idx ->
  exists p, plocks !! idx = Some p /\
    let rs := update_locks (records p) nl in
    let plocks' := <[idx := with_records p rs]> plocks in
    (table_updated plocks plocks' s o nl /\ NoDup ((fun p => (sid p, owner p)) <$> plocks') /\
     Forall (fun p => locks_ok 0 (records p)) plocks') /\
    (rs = [] -> table_updated plocks (delete idx plocks) s o nl /\
       NoDup ((fun p => (sid p, owner p)) <$> delete idx plocks) /\
       Forall (fun p => locks_ok 0 (records p)) (delete idx plocks)).
Proof.
  intros Hok Hnl (l1&p&l2&Hpl&Hm&Hl1&Hat&->&Hins)%position_mine_edit. exists p. split; [done|].
  cbn zeta. rewrite Hins.
  destruct (replace_row plocks l1 p l2 s o nl Hok Hpl Hm Hl1 Hnl) as (?&?&?&?). done.
Qed.

Lemma locks_ok_type lo ls l : locks_ok lo ls -> l ∈ ls -> lock_type l <> UnLock.
Proof.
  revert lo. induction ls as [|l' ls IH]; cbn; intros lo Hok Hin; [set_solver|].
  destruct Hok as (?&?&?&Hok). apply elem_of_cons in Hin as [->|Hin]; [done|eauto].
Qed.

(** A single row: the query sees a conflict exactly when setting would. *)
Lemma get_plock_conflict ls q s s' lo :
  locks_ok lo ls -> q_lock_type q <> UnLock ->
  match get_plock ls q s s' with
  | Some info => i_lock_type info <> UnLock /\ check_conflict (q_lock_type q) (q_range q) ls = true
  | None => check_conflict (q_lock_type q) (q_range q) ls = false
  end.
Proof.
  intros Hok Hq. unfold get_plock.
  assert (forall l, l ∈ ls -> conflicts_with q l =
    (bool_decide (q_lock_type q = Write) || bool_decide (lock_type l = Write))
      && (lstart l <? end_ (q_range q)) && (start (q_range q) <? lend l)) as Hc.
  { intros l Hin%(locks_ok_type _ _ _ Hok). unfold conflicts_with, overlaps.
    destruct (lock_type l), (q_lock_type q); try done; cbn;
      rewrite ?andb_false_r, ?andb_true_r, ?andb_true_l; try done; by rewrite andb_comm. }
  unfold check_conflict. destruct (list_find _ ls) as [[i l]|] eqn:Hf; cbn.
  - apply list_find_Some in Hf as (Hl&Hcw&_). apply list_elem_of_lookup_2 in Hl as Hin.
    split; [by eapply locks_ok_type|]. apply existsb_exists. exists l.
    split; [by apply list_elem_of_In|]. by rewrite <-Hc.
  - apply list_find_None in Hf. rewrite Forall_forall in Hf. apply not_true_iff_false.
    intros (l&Hin%list_elem_of_In&Hx)%existsb_exists. apply (Hf l Hin). by rewrite Hc.
Qed.

(** ** What the store promises about locks *)

(** C38: setting or clearing a lock keeps the lock table consistent (one
    well-formed row per owner, no byte on which two owners hold locks unless both
    only read), changes exactly the bytes of the given range for the given owner,
    and is refused only when another owner holds a conflicting lock inside the
    range. *)
Theorem plock_update_sound plocks s o t pid r :
  table_ok plocks -> 0 <= start r < end_ r ->
  let nl := plock_new t pid (start r) (end_ r) in
  match apply_plock_update plocks s o nl t r with
  | Ok plocks' => table_ok plocks' /\ table_updated plocks plocks' s o nl
  | Err _ => t <> UnLock /\ exists s' o' x t' pid', (s', o') <> (s, o) /\ start r <= x < end_ r /\
      holds plocks s' o' x = Some (t', pid') /\ (t = Write \/ t' = Write)
  end.
Proof.
  intros Hok Hr nl. unfold apply_plock_update.
  case_bool_decide as Ht.
  - destruct (position_mine plocks s o) as [idx|] eqn:Hpos.
    + destruct (edit_row plocks s o nl idx Hok ltac:(cbn; lia) Hpos) as (p&->&(Hu&Hk&Hrw)&Hnil).
      case_bool_decide as He; [destruct (Hnil He) as (?&?&?)|];
        (split; [|done]); by eapply table_ok_updated.
    + split; [done|]. intros s' o' x. case_bool_decide as Hd; [|done]. injection Hd as -> ->.
      rewrite holds_none by (by apply position_mine_None). unfold update_spec.
      destruct (lock_covers x nl); [|done]. by rewrite bool_decide_true.
  - destruct (existsb _ plocks) eqn:Hex.
    + split; [done|]. apply existsb_exists in Hex as (p&Hin%list_elem_of_In&Hc).
      apply andb_true_iff in Hc as [Hmn%negb_true_iff Hc]. pose proof Hok as [Hk Hrows _].
      pose proof (proj1 (Forall_forall _ _) Hrows _ Hin) as Hp. cbn in Hp.
      apply (check_conflict_spec _ _ _ 0) in Hc as (x&t'&pid'&Hx&Hh&Hw); [|done|lia].
      exists (sid p), (owner p), x, t', pid'. split_and!; [|lia|lia| |done].
      * intros Heq. apply not_true_iff_false in Hmn. by rewrite is_mine_spec in Hmn.
      * by rewrite holds_elem.
    + assert (forall s' o' x t' pid, (s', o') <> (s, o) -> lstart nl <= x < lend nl ->
        holds plocks s' o' x = Some (t', pid) -> lock_type nl = Read /\ t' = Read) as Hfree.
      { intros s' o' x t' pid' Hne Hx Hh.
        eapply (no_conflict plocks s o t r s' o' x t' pid'); (done || lia). }
      destruct (position_mine plocks s o) as [idx|] eqn:Hpos.
      * destruct (edit_row plocks s o nl idx Hok ltac:(cbn; lia) Hpos) as (p&->&(Hu&Hk&Hrw)&_).
        split; [|done]. by eapply table_ok_updated.
      * destruct (append_row plocks s o nl Hok (position_mine_None _ _ _ Hpos) Ht ltac:(cbn; lia))
          as (Hu&Hk&Hrw).
        split; [|done]. by eapply table_ok_updated.
Qed.

(** Asking who blocks a read or write lock answers "nobody" exactly when
    setting that lock would succeed. *)
Theorem plock_query_agrees plocks s q pid :
  table_ok plocks -> q_lock_type q <> UnLock ->
  let r := q_range q in
  i_lock_type (query_plocks plocks s q) = UnLock <->
  is_Ok (apply_plock_update plocks s (q_owner q) (plock_new (q_lock_type q) pid (start r) (end_ r))
           (q_lock_type q) r) = true.
Proof.
  intros [_ Hrows _] Hq r. subst r. unfold apply_plock_update. rewrite bool_decide_false by done.
  assert (i_lock_type (query_plocks plocks s q) = UnLock <->
    existsb (fun p => negb (is_mine s (q_owner q) p)
                      && check_conflict (q_lock_type q) (q_range q) (records p)) plocks = false) as Heq.
  { induction Hrows as [|p l Hp Hrows IH]; cbn; [done|].
    destruct (is_mine s (q_owner q) p); cbn; [done|].
    pose proof (get_plock_conflict (records p) q s (sid p) 0 Hp Hq) as Hg.
    destruct (get_plock _ _ _ _) as [info|].
    - destruct Hg as [Hty ->]. cbn. split; [done|]. discriminate.
    - by rewrite Hg. }
  rewrite Heq. destruct (existsb _ plocks); cbn; naive_solver.
Qed.

(** Session 7: owner 1 writes to [0, 10), owner 2 reads [20, 30). *)
Definition w_table : list StoredPlock :=
  [mkStoredPlock 7 1 [plock_new Write 100 0 10]; mkStoredPlock 7 2 [plock_new Read 200 20 30]].

Lemma w_table_ok : table_ok w_table.
Proof.
  split.
  - repeat constructor; set_solver.
  - repeat constructor; cbn; (done || lia).
  - intros s o s' o' x Hne.
    destruct (holds w_table s o x) as [[t a]|] eqn:H1; [|done].
    destruct (holds w_table s' o' x) as [[t' b]|] eqn:H2; [|done].
    destruct (holds_Some_elem _ _ _ _ _ H1) as (p&Hp&?&?&Hh).
    destruct (holds_Some_elem _ _ _ _ _ H2) as (p'&Hp'&?&?&Hh').
    unfold w_table in Hp, Hp'. rewrite !elem_of_cons in Hp, Hp'.
    destruct Hp as [->|[->|Hp]], Hp' as [->|[->|Hp']]; cbn in *; subst;
      unfold lock_covers in *; cbn in *; try set_solver; repeat case_match; (done || lia).
Qed.

Lemma plock_update_sound_witness :
  match apply_plock_update w_table 7 2 (plock_new Write 200 25 40) Write (mkRange 25 40) with
  | Ok plocks' => table_ok plocks' /\ table_updated w_table plocks' 7 2 (plock_new Write 200 25 40)
  | Err _ => False
  end.
Proof.
  refine (plock_update_sound w_table 7 2 Write 200 (mkRange 25 40) w_table_ok _). done.
Defined.

End FileLock.
