(* ===== verification/Acl.v ===== *)
(** Access control lists: the Linux xattr format and the access policy of
    [meta/posix_acl.rs] and the control ACLs of [control/protocol.rs].  Octal
    modes are written in decimal with the octal form beside them. *)
From stdpp Require Import options.
From coqutil Require Import Z.bitblast.
From Stdlib Require Import Ascii.
From S2P Require Import Prelude.

Lemma fmap_id_on {A} (f : A -> A) (l : list A) : (forall x, x ∈ l -> f x = x) -> f <$> l = l.
Proof. intros Hf. rewrite <-(list_fmap_id l) at 2. apply list_fmap_ext. intros i x Hx. apply Hf. by eapply list_elem_of_lookup_2. Qed.

(** ** POSIX ACLs *)
Module PosixAcl.

Definition UNDEFINED_ID : Z := u32_max.
Definition MAX_BYTES : Z := 65536.

Record Entry := mkEntry { tag : Z; permissions : Z; id : Z }.
Record PosixAcl := mkAcl { entries : list Entry }.

#[export] Instance Entry_eq_dec : EqDecision Entry.
Proof. solve_decision. Defined.

(** The error messages of [decode], in the order of the checks. *)
Inductive DecodeError := VersionLength | TagPermissionsOrder | NamedIdentityOrder | SingletonIdentityDuplicate | IncompleteEntries.

(** [bytes.as_chunks::<8>().0]: whole groups of eight, the rest is dropped. *)
Fixpoint as_chunks (bytes : list byte) : list (list byte) :=
  match bytes with
  | b0 :: b1 :: b2 :: b3 :: b4 :: b5 :: b6 :: b7 :: rest => [b0; b1; b2; b3; b4; b5; b6; b7] :: as_chunks rest
  | _ => []
  end.

Definition decode_entry (raw : list byte) : Entry :=
  mkEntry (from_le_bytes (take 2 raw)) (from_le_bytes (take 2 (drop 2 raw))) (from_le_bytes (drop 4 raw)).

(** The variables of the loop. *)
Record Seen := mkSeen {
  last_tag : Z; last_id : option Z; named : bool; mask : bool; user_obj : bool; group_obj : bool; other : bool }.

Definition is_named (e : Entry) : bool := (tag e =? 2) || (tag e =? 8).

Definition decode_step (seen : Seen) (e : Entry) : result DecodeError Seen :=
  if negb (bool_decide (tag e ∈ [1; 2; 4; 8; 16; 32])) || (7 <? permissions e) || (tag e <? last_tag seen)
  then Err TagPermissionsOrder else
  if is_named e then
    if (id e =? UNDEFINED_ID) ||
       ((last_tag seen =? tag e) && match last_id seen with Some last => id e <=? last | None => false end)
    then Err NamedIdentityOrder
    else Ok (mkSeen (tag e) (Some (id e)) true (mask seen) (user_obj seen) (group_obj seen) (other seen))
  else
    if negb (id e =? UNDEFINED_ID) || (last_tag seen =? tag e) then Err SingletonIdentityDuplicate
    else Ok (mkSeen (tag e) (Some (id e)) (named seen) (mask seen || (tag e =? 16)) (user_obj seen || (tag e =? 1))
               (group_obj seen || (tag e =? 4)) (other seen || (tag e =? 32))).

Fixpoint decode_loop (seen : Seen) (l : list Entry) : result DecodeError Seen :=
  match l with
  | [] => Ok seen
  | e :: l => let? seen := decode_step seen e in decode_loop seen l
  end.

Definition decode (bytes : list byte) : result DecodeError PosixAcl :=
  if (zlen bytes <? 28) || (MAX_BYTES <? zlen bytes) || negb ((zlen bytes - 4) mod 8 =? 0) ||
     negb (bool_decide (take 4 bytes = to_le_bytes 4 2))
  then Err VersionLength else
  let l := decode_entry <$> as_chunks (drop 4 bytes) in
  let? seen := decode_loop (mkSeen 0 None false false false false false) l in
  if negb (user_obj seen) || negb (group_obj seen) || negb (other seen) || (named seen && negb (mask seen))
  then Err IncompleteEntries else Ok (mkAcl l).

Definition encode_entry (e : Entry) : list byte := to_le_bytes 2 (tag e) ++ to_le_bytes 2 (permissions e) ++ to_le_bytes 4 (id e).
Definition encode (a : PosixAcl) : list byte := to_le_bytes 4 2 ++ concat (encode_entry <$> entries a).

Definition is_extended (a : PosixAcl) : bool := existsb (fun e => (tag e =? 2) || (tag e =? 8) || (tag e =? 16)) (entries a).

(** [entries.iter().find(..)]. *)
Definition find_entry (p : Entry -> bool) (a : PosixAcl) : option Entry := List.find p (entries a).
Definition permission (a : PosixAcl) (t : Z) : Z :=
  match find_entry (fun e => tag e =? t) a with Some e => permissions e | None => 0 end.

Definition has_mask (a : PosixAcl) : bool := existsb (fun e => tag e =? 16) (entries a).

Definition mode_bits (a : PosixAcl) : Z :=
  let group := if has_mask a then permission a 16 else permission a 4 in
  Z.lor (Z.lor (Z.shiftl (permission a 1) 6) (Z.shiftl group 3)) (permission a 32).

(** The [mask] of [user_access_mode] and [allows_access]. *)
Definition mask_bits (a : PosixAcl) : Z :=
  match find_entry (fun e => tag e =? 16) a with Some e => permissions e | None => 7 end.

Definition user_access_mode (a : PosixAcl) (owner uid : Z) : option Z :=
  if uid =? owner then Some (permission a 1) else
  if Z.land (mode_bits a) 56 (* 0o070 *) =? 0 then None else
  match find_entry (fun e => (tag e =? 2) && (id e =? uid)) a with
  | Some e => Some (Z.land (permissions e) (mask_bits a))
  | None => None
  end.

Definition allows (requested mode : Z) : bool := Z.land mode requested =? requested.

(** The loop over the group entries: the early [true], or [matched]. *)
Fixpoint group_scan (m requested owning_group : Z) (groups : list Z) (matched : bool) (l : list Entry) : bool + bool :=
  match l with
  | [] => inr matched
  | e :: l =>
      if ((tag e =? 4) && bool_decide (owning_group ∈ groups)) || ((tag e =? 8) && bool_decide (id e ∈ groups)) then
        if allows requested (Z.land (permissions e) m) then inl true else group_scan m requested owning_group groups true l
      else group_scan m requested owning_group groups matched l
  end.

Definition allows_access (a : PosixAcl) (owner owning_group uid : Z) (groups : list Z) (requested : Z) : bool :=
  match user_access_mode a owner uid with
  | Some mode => allows requested mode
  | None =>
      if Z.land (mode_bits a) 56 (* 0o070 *) =? 0 then
        allows requested (if bool_decide (owning_group ∈ groups) then 0 else permission a 32)
      else
        match group_scan (mask_bits a) requested owning_group groups false (entries a) with
        | inl granted => granted
        | inr matched => negb matched && allows requested (permission a 32)
        end
  end.

(** The class bits of a mode that an entry takes; the named entries, and the
    owning group's beside a mask, take none. *)
Definition class_of (masked : bool) (mode : Z) (e : Entry) : option Z :=
  if tag e =? 1 then Some (Z.land (Z.shiftr mode 6) 7) else
  if tag e =? 16 then Some (Z.land (Z.shiftr mode 3) 7) else
  if (tag e =? 4) && negb masked then Some (Z.land (Z.shiftr mode 3) 7) else
  if tag e =? 32 then Some (Z.land mode 7) else None.

Definition with_permissions (p : Z) (e : Entry) : Entry := mkEntry (tag e) p (id e).

Definition inherited_access (a : PosixAcl) (requested_mode : Z) : PosixAcl :=
  mkAcl ((fun e => match class_of (has_mask a) requested_mode e with
                   | Some requested => with_permissions (Z.land (permissions e) requested) e
                   | None => e end) <$> entries a).

Definition chmod (a : PosixAcl) (mode : Z) : PosixAcl :=
  mkAcl ((fun e => match class_of (has_mask a) mode e with
                   | Some permission => with_permissions permission e
                   | None => e end) <$> entries a).

(** *** Well-formed lists

    Entries in the canonical order, one for the owner, the owning group and the
    others, and a mask where an entry names a user or a group. *)
Definition entry_ok (e : Entry) : Prop :=
  tag e ∈ [1; 2; 4; 8; 16; 32] /\ 0 <= permissions e <= 7 /\ is_u32 (id e) /\ (id e = UNDEFINED_ID <-> is_named e = false).
Definition before (e f : Entry) : Prop := tag e < tag f \/ (tag e = tag f /\ id e < id f).
Definition has_tag (t : Z) (l : list Entry) : bool := existsb (fun e => tag e =? t) l.

Record acl_ok (a : PosixAcl) : Prop := {
  ao_entries : Forall entry_ok (entries a);
  ao_order : StronglySorted before (entries a);
  ao_base : has_tag 1 (entries a) = true /\ has_tag 4 (entries a) = true /\ has_tag 32 (entries a) = true;
  ao_mask : existsb is_named (entries a) = true -> has_tag 16 (entries a) = true;
  ao_size : 4 + 8 * zlen (entries a) <= MAX_BYTES }.

#[export] Instance before_trans : Transitive before.
Proof. intros e f g. unfold before. lia. Qed.

(** *** The format *)

Lemma as_chunks_concat l : Forall (fun raw => length raw = 8%nat) l -> as_chunks (concat l) = l.
Proof.
  induction 1 as [|raw l Hr _ IH]; [done|]. do 8 (destruct raw as [|? raw]; [done|]). destruct raw; [|done]. cbn. by rewrite IH.
Qed.

Lemma as_chunks_whole n : forall bs, length bs = (8 * n)%nat ->
  concat (as_chunks bs) = bs /\ Forall (fun raw => length raw = 8%nat) (as_chunks bs) /\ length (as_chunks bs) = n.
Proof.
  induction n as [|n IH]; intros bs Hl; [by destruct bs|]. do 8 (destruct bs as [|? bs]; [cbn in Hl; lia|]). cbn [as_chunks].
  destruct (IH bs) as (I1 & I2 & I3); [cbn in Hl; lia|]. cbn. rewrite I1, I3. split_and!; [done|by constructor|done].
Qed.

Lemma encode_decode_entry raw : length raw = 8%nat -> encode_entry (decode_entry raw) = raw.
Proof.
  intros Hl. unfold encode_entry, decode_entry. cbn [tag permissions id].
  assert (forall n bs, length bs = n -> to_le_bytes n (from_le_bytes bs) = bs) as Hb.
  { intros n bs <-. apply LittleEndianList.split_le_combine. }
  rewrite !Hb by (rewrite ?length_take, ?length_drop; lia). do 8 (destruct raw as [|? raw]; [done|]). by destruct raw.
Qed.

Lemma acl_entry_roundtrip e : entry_ok e -> decode_entry (encode_entry e) = e.
Proof.
  intros (Ht & Hp & Hi & _). assert (0 <= tag e < 65536) as Ht' by (rewrite !elem_of_cons, elem_of_nil in Ht; lia). unfold decode_entry, encode_entry.
  rewrite take_app_length' by by rewrite length_to_le_bytes. rewrite (drop_app_length' (to_le_bytes 2 (tag e))) by by rewrite length_to_le_bytes.
  rewrite take_app_length' by by rewrite length_to_le_bytes. rewrite app_assoc, drop_app_length' by (rewrite length_app, !length_to_le_bytes; done).
  rewrite !from_to_le_bytes by (cbn; u64_lia). by destruct e.
Qed.

Lemma decode_entry_range raw : length raw = 8%nat -> 0 <= permissions (decode_entry raw) /\ is_u32 (id (decode_entry raw)).
Proof.
  intros Hl. unfold decode_entry, from_le_bytes. cbn [permissions id]. pose proof (LittleEndianList.le_combine_bound (take 2 (drop 2 raw))).
  pose proof (LittleEndianList.le_combine_bound (drop 4 raw)) as Hb. rewrite length_drop, Hl in Hb. cbn in Hb. u64_lia.
Qed.

Lemma length_acl_entry e : length (encode_entry e) = 8%nat.
Proof. unfold encode_entry. by rewrite !length_app, !length_to_le_bytes. Qed.

Lemma encode_chunks l : Forall (fun raw => length raw = 8%nat) (encode_entry <$> l).
Proof. apply Forall_fmap, Forall_true. intros e. apply length_acl_entry. Qed.

Lemma length_encode a : zlen (encode a) = 4 + 8 * zlen (entries a).
Proof.
  unfold encode. rewrite length_app, length_to_le_bytes. assert (forall l, length (concat (encode_entry <$> l)) = (8 * length l)%nat) as ->; [|lia].
  induction l as [|e l IH]; [done|]. cbn [fmap list_fmap concat length]. rewrite length_app, length_acl_entry. change (list_fmap Entry (list byte) encode_entry l) with (encode_entry <$> l). lia.
Qed.

(** *** Decoding *)

(** What the loop has seen after an entry it accepts. *)
Definition see (seen : Seen) (e : Entry) : Seen :=
  mkSeen (tag e) (Some (id e)) (named seen || is_named e) (mask seen || (tag e =? 16)) (user_obj seen || (tag e =? 1))
    (group_obj seen || (tag e =? 4)) (other seen || (tag e =? 32)).

(** [prev] is the entry before, if any. *)
Definition at_entry (seen : Seen) (prev : option Entry) : Prop :=
  last_tag seen = from_option tag 0 prev /\ last_id seen = id <$> prev.

Lemma decode_step_spec seen prev e seen' : at_entry seen prev -> from_option entry_ok True prev -> 0 <= permissions e -> is_u32 (id e) ->
  decode_step seen e = Ok seen' <-> entry_ok e /\ from_option (fun p => before p e) True prev /\ seen' = see seen e.
Proof.
  intros [Et Ei] Hp Hpe Hie. unfold decode_step, entry_ok. rewrite Et, Ei.
  case_bool_decide as Htag; cbn [negb orb]; [|split; [done|naive_solver]].
  destruct (Z.ltb_spec 7 (permissions e)); [split; [done|lia]|]. cbn [orb].
  destruct (Z.ltb_spec (tag e) (from_option tag 0 prev)) as [Hlt|Hle].
  { split; [done|]. intros (_ & Hb & _). destruct prev as [p|]; cbn in *; [|rewrite !elem_of_cons, elem_of_nil in Htag; lia]. unfold before in Hb. lia. }
  assert (tag e <> 0) as Hne by (rewrite !elem_of_cons, elem_of_nil in Htag; lia). unfold see.
  destruct (is_named e) eqn:Hn.
  - assert ((tag e =? 16) = false /\ (tag e =? 1) = false /\ (tag e =? 4) = false /\ (tag e =? 32) = false) as (-> & -> & -> & ->)
      by (unfold is_named in Hn; lia). rewrite !orb_false_r, orb_true_r.
    destruct (Z.eqb_spec (id e) UNDEFINED_ID) as [Hu|Hu]; cbn [orb]; [split; [done|naive_solver]|].
    destruct prev as [p|]; cbn in *.
    + unfold before. destruct (Z.eqb_spec (tag p) (tag e)), (Z.leb_spec (id e) (id p)); cbn [andb];
        (split; [first [done|intros [= <-]; split_and!; try done; (lia || naive_solver)]|intros (_ & ? & ->); (done || lia)]).
    + rewrite andb_false_r. split; [intros [= <-]; split_and!; (done || naive_solver || lia)|by intros (_ & _ & ->)].
  - rewrite orb_false_r. destruct (Z.eqb_spec (id e) UNDEFINED_ID) as [Hu|Hu]; cbn [negb orb]; [|split; [done|naive_solver]].
    destruct (Z.eqb_spec (from_option tag 0 prev) (tag e)) as [He|He].
    + split; [done|]. intros (_ & Hb & _). destruct prev as [p|]; cbn in *; [|lia]. unfold before in Hb.
      destruct Hp as (_ & _ & Hpi & Hpn). unfold is_named in *. rewrite He in Hpn. assert (id p = UNDEFINED_ID) by naive_solver. lia.
    + split; [intros [= <-]; split_and!; try (done || naive_solver || lia)|by intros (_ & _ & ->)]. destruct prev as [p|]; cbn in *; [|done]. unfold before. lia.
Qed.

(** Each entry comes before the next. *)
Definition linked (prev : option Entry) (l : list Entry) : Prop :=
  match prev with Some p => Sorted before (p :: l) | None => Sorted before l end.

Lemma linked_cons prev e l : linked prev (e :: l) <-> from_option (fun p => before p e) True prev /\ linked (Some e) l.
Proof.
  destruct prev as [p|]; cbn; [|naive_solver]. split; [intros H|intros [H1 H2]; by constructor; [|constructor]].
  apply Sorted_inv in H as [H1 H2]. by apply HdRel_inv in H2.
Qed.

Lemma decode_loop_spec l : forall seen prev seen', at_entry seen prev -> from_option entry_ok True prev ->
  Forall (fun e => 0 <= permissions e /\ is_u32 (id e)) l ->
  decode_loop seen l = Ok seen' <-> Forall entry_ok l /\ linked prev l /\ seen' = foldl see seen l.
Proof.
  induction l as [|e l IH]; intros seen prev seen' Ha Hp Hr; cbn [decode_loop foldl].
  { split; [intros [= <-]; split_and!; [done| |done]; destruct prev; repeat constructor|by intros (_ & _ & ->)]. }
  apply Forall_cons in Hr as [[Hpe Hie] Hr]. pose proof (decode_step_spec seen prev e) as Hs. rewrite Forall_cons, linked_cons.
  destruct (decode_step seen e) as [s|err] eqn:E; cbn [result_bind].
  - destruct (proj1 (Hs s Ha Hp Hpe Hie) eq_refl) as (He & Hb & ->). rewrite (IH (see seen e) (Some e) seen') by done. naive_solver.
  - split; [done|]. intros ((He & _) & (Hb & _) & _). assert (Err err = Ok (see seen e)) as Hbad by (by apply (Hs (see seen e) Ha Hp Hpe Hie)). done.
Qed.

Lemma foldl_see l : forall seen, let s := foldl see seen l in
  named s = named seen || existsb is_named l /\ mask s = mask seen || has_tag 16 l /\ user_obj s = user_obj seen || has_tag 1 l /\
  group_obj s = group_obj seen || has_tag 4 l /\ other s = other seen || has_tag 32 l.
Proof.
  induction l as [|e l IH]; intros seen; cbn; [by rewrite !orb_false_r|]. destruct (IH (see seen e)) as (-> & -> & -> & -> & ->). cbn. by rewrite !orb_assoc.
Qed.

Lemma has_tag_elem t l : has_tag t l = true <-> exists e, e ∈ l /\ tag e = t.
Proof. unfold has_tag. rewrite existsb_exists. setoid_rewrite list_elem_of_In. setoid_rewrite Z.eqb_eq. done. Qed.

(** At least three entries: the base ones differ in their tags. *)
Lemma acl_ok_length a : acl_ok a -> 3 <= zlen (entries a).
Proof.
  intros [_ _ (H1 & H4 & H32) _ _]. apply has_tag_elem in H1 as (e1 & H1 & T1), H4 as (e4 & H4 & T4), H32 as (e32 & H32 & T32).
  destruct (entries a) as [|x [|y [|z l]]]; [..|cbn; lia]; exfalso; set_unfold; naive_solver congruence.
Qed.

Lemma decode_sound bytes a : decode bytes = Ok a -> acl_ok a /\ bytes = encode a.
Proof.
  unfold decode. destruct (Z.ltb_spec (zlen bytes) 28); [done|]. destruct (Z.ltb_spec MAX_BYTES (zlen bytes)); [done|].
  destruct (Z.eqb_spec ((zlen bytes - 4) mod 8) 0) as [Hm|]; [|done]. case_bool_decide as Hv; [|done]. cbn [negb orb].
  pose proof (Z.div_mod (zlen bytes - 4) 8 ltac:(lia)).
  destruct (as_chunks_whole (Z.to_nat ((zlen bytes - 4) / 8)) (drop 4 bytes)) as (Hc & H8 & Hl); [rewrite length_drop; lia|].
  set (l := decode_entry <$> as_chunks (drop 4 bytes)). destruct (decode_loop _ l) as [seen|] eqn:El; [|done]. cbn [result_bind].
  apply (decode_loop_spec l _ None) in El as (Hok & Hli & ->); [|done|done|].
  2: { apply Forall_fmap. eapply Forall_impl; [exact H8|]. intros raw. apply decode_entry_range. }
  pose proof (foldl_see l (mkSeen 0 None false false false false false)) as (-> & -> & -> & -> & ->). cbn [named mask user_obj group_obj other orb].
  destruct (has_tag 1 l) eqn:E1, (has_tag 4 l) eqn:E4, (has_tag 32 l) eqn:E32; try done. cbn [negb orb].
  destruct (existsb is_named l && negb (has_tag 16 l)) eqn:Em; [done|]. intros [= <-]. split.
  - constructor; cbn [entries]; [done|apply Sorted_StronglySorted; [apply before_trans|done]|done|destruct (has_tag 16 l); [done|]; by destruct (existsb is_named l)|].
    unfold l. rewrite length_fmap, Hl. lia.
  - unfold encode. cbn [entries]. rewrite <-Hv. unfold l. rewrite <-list_fmap_compose.
    assert (encode_entry ∘ decode_entry <$> as_chunks (drop 4 bytes) = as_chunks (drop 4 bytes)) as ->; [|by rewrite Hc, take_drop].
    apply fmap_id_on. intros raw Hr. rewrite Forall_forall in H8. by apply encode_decode_entry, H8.
Qed.

Lemma decode_encode a : acl_ok a -> decode (encode a) = Ok a.
Proof.
  intros Hok. pose proof (length_encode a) as Hlen. pose proof (acl_ok_length a Hok). destruct Hok as [He Ho Hb Hm Hs]. unfold decode. rewrite Hlen.
  destruct (Z.ltb_spec (4 + 8 * zlen (entries a)) 28); [lia|]. destruct (Z.ltb_spec MAX_BYTES (4 + 8 * zlen (entries a))); [lia|].
  replace (4 + 8 * zlen (entries a) - 4) with (zlen (entries a) * 8) by lia. rewrite Z.mod_mul by done. cbn [Z.eqb negb orb].
  unfold encode. rewrite take_app_length' by by rewrite length_to_le_bytes. rewrite bool_decide_true by done. cbn [negb].
  rewrite drop_app_length' by by rewrite length_to_le_bytes. rewrite as_chunks_concat by apply encode_chunks. rewrite <-list_fmap_compose.
  assert (decode_entry ∘ encode_entry <$> entries a = entries a) as ->.
  { apply fmap_id_on. intros e Hin. rewrite Forall_forall in He. by apply acl_entry_roundtrip, He. }
  set (s0 := mkSeen 0 None false false false false false). assert (decode_loop s0 (entries a) = Ok (foldl see s0 (entries a))) as ->.
  { apply (decode_loop_spec _ _ None); [done|done| |].
    - eapply Forall_impl; [exact He|]. intros e (_ & ? & ? & _). split; [lia|done].
    - split_and!; [done|by apply StronglySorted_Sorted|done]. }
  cbn [result_bind]. pose proof (foldl_see (entries a) s0) as (-> & -> & -> & -> & ->). destruct Hb as (-> & -> & ->). cbn.
  destruct (existsb is_named (entries a)); [rewrite Hm by done|]; by destruct a.
Qed.

(** C21: the xattr format.  Decoding accepts a byte string exactly when it is the
    encoding of a well-formed list, and returns that list: unknown tags, wrong or
    unordered identities, duplicates, missing base entries, a missing mask and
    trailing bytes are all refused, and what is stored has one meaning. *)
Theorem posix_acl_codec_exact bytes a : decode bytes = Ok a <-> acl_ok a /\ bytes = encode a.
Proof. split; [apply decode_sound|]. intros [Hok ->]. by apply decode_encode. Qed.

(** *** Class bits *)

Lemma ones_land p : 0 <= p < 8 -> p = Z.land p (Z.ones 3).
Proof. intros. rewrite Z.land_ones by lia. symmetry. apply Z.mod_small. cbn. lia. Qed.

Lemma land_7 x : 0 <= Z.land x 7 <= 7.
Proof. change 7 with (Z.ones 3) at 1 2. rewrite Z.land_ones by lia. pose proof (Z.mod_pos_bound x (2 ^ 3) ltac:(lia)). cbn in *. lia. Qed.

Lemma land_small p c : 0 <= p <= 7 -> 0 <= Z.land p c <= 7.
Proof. intros Hp. rewrite (ones_land p) by lia. rewrite <-Z.land_assoc, (Z.land_comm (Z.ones 3)), Z.land_assoc. apply land_7. Qed.

Lemma class_bits_join m :
  Z.lor (Z.lor (Z.shiftl (Z.land (Z.shiftr m 6) 7) 6) (Z.shiftl (Z.land (Z.shiftr m 3) 7) 3)) (Z.land m 7) = Z.land m 511.
Proof. change 7 with (Z.ones 3). change 511 with (Z.ones 9). Z.bitblast. Qed.

Lemma class_bits_meet p g o m : 0 <= p < 8 -> 0 <= g < 8 -> 0 <= o < 8 ->
  Z.lor (Z.lor (Z.shiftl (Z.land p (Z.land (Z.shiftr m 6) 7)) 6) (Z.shiftl (Z.land g (Z.land (Z.shiftr m 3) 7)) 3)) (Z.land o (Z.land m 7)) =
  Z.land (Z.lor (Z.lor (Z.shiftl p 6) (Z.shiftl g 3)) o) m.
Proof. intros Hp Hg Ho. rewrite (ones_land p Hp), (ones_land g Hg), (ones_land o Ho). change 7 with (Z.ones 3). clear. Z.bitblast. Qed.

Lemma class_bits_split p g o : 0 <= p < 8 -> 0 <= g < 8 -> 0 <= o < 8 ->
  let m := Z.lor (Z.lor (Z.shiftl p 6) (Z.shiftl g 3)) o in
  Z.land (Z.shiftr m 6) 7 = p /\ Z.land (Z.shiftr m 3) 7 = g /\ Z.land m 7 = o /\ Z.land m 56 = Z.shiftl g 3.
Proof.
  intros Hp Hg Ho. rewrite (ones_land p Hp), (ones_land g Hg), (ones_land o Ho). change 56 with (Z.shiftl (Z.ones 3) 3). change 7 with (Z.ones 3). clear.
  cbv zeta. split_and!; Z.bitblast.
Qed.

(** [chmod] and [inherited_access] are the same walk. *)
Definition reclass (g : Z -> Z -> Z) (a : PosixAcl) (mode : Z) : PosixAcl :=
  mkAcl ((fun e => match class_of (has_mask a) mode e with
                   | Some c => with_permissions (g (permissions e) c) e
                   | None => e end) <$> entries a).

Section reclass.
Context (g : Z -> Z -> Z) (a : PosixAcl) (mode : Z).
#[local] Abbreviation f := (fun e => match class_of (has_mask a) mode e with Some c => with_permissions (g (permissions e) c) e | None => e end).

Lemma reclass_key e : tag (f e) = tag e /\ id (f e) = id e.
Proof. cbv beta. by destruct (class_of (has_mask a) mode e). Qed.

Lemma existsb_reclass (p : Entry -> bool) : (forall e q, p (with_permissions q e) = p e) -> existsb p (entries (reclass g a mode)) = existsb p (entries a).
Proof.
  intros Hp. cbn [entries reclass]. induction (entries a) as [|e l IH]; [done|]. cbn. change (list_fmap Entry Entry f l) with (f <$> l). rewrite IH. f_equal.
  destruct (class_of (has_mask a) mode e); [apply Hp|done].
Qed.

Lemma find_reclass t : find_entry (fun e => tag e =? t) (reclass g a mode) = f <$> find_entry (fun e => tag e =? t) a.
Proof.
  unfold find_entry. cbn [entries reclass]. induction (entries a) as [|e l IH]; [done|]. cbn. change (list_fmap Entry Entry f l) with (f <$> l).
  destruct (reclass_key e) as [-> _]. by destruct (tag e =? t).
Qed.

Lemma class_of_range masked e c : class_of masked mode e = Some c -> 0 <= c <= 7.
Proof.
  unfold class_of. repeat match goal with |- context [if ?b then _ else _] => destruct b end; intros [= <-]; apply land_7.
Qed.

Lemma reclass_ok : (forall p c, 0 <= p <= 7 -> 0 <= c <= 7 -> 0 <= g p c <= 7) -> acl_ok a -> acl_ok (reclass g a mode).
Proof.
  intros Hg [He Ho Hb Hm Hs]. assert (forall p : Entry -> bool, (forall e q, p (with_permissions q e) = p e) -> existsb p (entries (reclass g a mode)) = existsb p (entries a)) as Hex
    by apply existsb_reclass. constructor.
  - cbn. apply Forall_fmap. eapply Forall_impl; [exact He|]. intros e (H1 & H2 & H3 & H4). unfold compose. destruct (class_of (has_mask a) mode e) as [c|] eqn:Ec; [|done].
    split; [done|]. split; [apply Hg; [done|by eapply class_of_range]|done].
  - cbn. revert Ho. generalize (entries a). induction l as [|e l IH]; [constructor|]. intros Hl. apply StronglySorted_inv in Hl as [Hl He']. constructor; [by apply IH|].
    change (list_fmap Entry Entry f l) with (f <$> l). apply Forall_fmap. eapply Forall_impl; [exact He'|]. intros e' Hb'. unfold compose, before in *.
    destruct (reclass_key e) as [-> ->], (reclass_key e') as [-> ->]. done.
  - unfold has_tag. rewrite !Hex by done. done.
  - unfold has_tag. rewrite !Hex by done. done.
  - cbn. by rewrite length_fmap.
Qed.

End reclass.

Lemma has_tag_find a t : has_tag t (entries a) = true -> exists e, find_entry (fun e => tag e =? t) a = Some e /\ tag e = t /\ e ∈ entries a.
Proof.
  unfold has_tag, find_entry. induction (entries a) as [|e l IH]; [done|]. cbn. destruct (Z.eqb_spec (tag e) t) as [Et|]; cbn [orb].
  - intros _. exists e. split_and!; [done|done|by left].
  - intros Hl. destruct (IH Hl) as (e' & ? & ? & ?). exists e'. split_and!; [done|done|by right].
Qed.

Lemma permission_range a t : acl_ok a -> 0 <= permission a t <= 7.
Proof.
  intros Hok. unfold permission. destruct (find_entry _ a) as [e|] eqn:E; [|lia]. apply List.find_some in E as [Hin _].
  pose proof (ao_entries _ Hok) as He. rewrite Forall_forall in He. destruct (He e ltac:(by apply list_elem_of_In)) as (_ & ? & _). done.
Qed.

Lemma permission_reclass g a m t c : has_tag t (entries a) = true -> (forall e, tag e = t -> class_of (has_mask a) m e = Some c) ->
  permission (reclass g a m) t = g (permission a t) c.
Proof.
  intros Ht Hc. destruct (has_tag_find a t Ht) as (e & E & Et & _). unfold permission. rewrite find_reclass, E. cbn. by rewrite (Hc e Et).
Qed.

Lemma mode_bits_reclass g a m : acl_ok a -> mode_bits (reclass g a m) =
  Z.lor (Z.lor (Z.shiftl (g (permission a 1) (Z.land (Z.shiftr m 6) 7)) 6)
               (Z.shiftl (g (if has_mask a then permission a 16 else permission a 4) (Z.land (Z.shiftr m 3) 7)) 3))
        (g (permission a 32) (Z.land m 7)).
Proof.
  intros [_ _ (H1 & H4 & H32) _ _]. unfold mode_bits. assert (has_mask (reclass g a m) = has_mask a) as -> by by apply existsb_reclass.
  rewrite (permission_reclass g a m 1 (Z.land (Z.shiftr m 6) 7)), (permission_reclass g a m 32 (Z.land m 7)); [|done| |done|];
    [|intros e Et; unfold class_of; rewrite Et; done || (cbn; by rewrite andb_false_l)..].
  do 3 f_equal. destruct (has_mask a) eqn:Hm; apply permission_reclass; try done; intros e Et; unfold class_of; by rewrite Et, ?Hm.
Qed.

(** The class bits.  Changing the mode of a well-formed list gives a well-formed
    list whose bits are the new mode's, and a list inherited by a new file the
    bits that both the list and the requested mode have; the entries that name
    users and groups, and whether the list needs to be stored, do not change. *)
Theorem posix_acl_class_bits a m : acl_ok a ->
  (acl_ok (chmod a m) /\ mode_bits (chmod a m) = Z.land m 511) /\
  (acl_ok (inherited_access a m) /\ mode_bits (inherited_access a m) = Z.land (mode_bits a) m) /\
  (is_extended (chmod a m) = is_extended a /\ is_extended (inherited_access a m) = is_extended a) /\
  (forall e, is_named e = true -> (e ∈ entries (chmod a m) <-> e ∈ entries a) /\ (e ∈ entries (inherited_access a m) <-> e ∈ entries a)).
Proof.
  intros Hok. change (chmod a m) with (reclass (fun _ c => c) a m). change (inherited_access a m) with (reclass Z.land a m).
  pose proof (fun t => permission_range a t Hok) as Hr. split_and!.
  - by apply reclass_ok.
  - rewrite mode_bits_reclass by done. apply class_bits_join.
  - apply reclass_ok; [|done]. intros. by apply land_small.
  - rewrite mode_bits_reclass by done. pose proof (Hr 1). pose proof (Hr 32). pose proof (Hr 4). pose proof (Hr 16). apply class_bits_meet; [lia| |lia].
    destruct (has_mask a); lia.
  - by apply existsb_reclass.
  - by apply existsb_reclass.
  - assert (forall g e, is_named e = true -> e ∈ entries (reclass g a m) <-> e ∈ entries a) as H; [|by auto]. intros g e Hn. cbn. rewrite list_elem_of_fmap.
    assert (forall x, is_named x = true -> class_of (has_mask a) m x = None) as Hc.
    { intros x Hx. unfold is_named in Hx. apply orb_true_iff in Hx as [Ex%Z.eqb_eq|Ex%Z.eqb_eq]; unfold class_of; by rewrite Ex. }
    split; [intros (x & -> & Hx)|intros He; exists e; by rewrite (Hc e Hn)].
    assert (is_named x = true) as Hx' by (destruct (class_of _ _ x); done). by rewrite (Hc x Hx').
Qed.

(** *** Access *)

Lemma allows_bits req p : allows req p = true <-> forall n, 0 <= n -> Z.testbit req n = true -> Z.testbit p n = true.
Proof.
  unfold allows. rewrite Z.eqb_eq. split.
  - intros <- n Hn. rewrite Z.land_spec. by intros [? _]%andb_true_iff.
  - intros H. apply Z.bits_inj'. intros n Hn. rewrite Z.land_spec. destruct (Z.testbit req n) eqn:E; [|by rewrite andb_false_r]. by rewrite (H n Hn E).
Qed.

Lemma allows_land req p q : allows req (Z.land p q) = true <-> allows req p = true /\ allows req q = true.
Proof.
  rewrite !allows_bits. setoid_rewrite Z.land_spec. setoid_rewrite andb_true_iff. naive_solver.
Qed.

Lemma allows_0 req p : allows req 0 = true -> allows req p = true.
Proof. rewrite !allows_bits. intros H n Hn E. specialize (H n Hn E). by rewrite Z.bits_0 in H. Qed.

Definition group_matches (owning_group : Z) (groups : list Z) (e : Entry) : bool :=
  ((tag e =? 4) && bool_decide (owning_group ∈ groups)) || ((tag e =? 8) && bool_decide (id e ∈ groups)).

Lemma group_scan_spec m req og groups l : forall matched, group_scan m req og groups matched l =
  if existsb (fun e => group_matches og groups e && allows req (Z.land (permissions e) m)) l then inl true
  else inr (matched || existsb (group_matches og groups) l).
Proof.
  induction l as [|e l IH]; intros matched; cbn; [by rewrite orb_false_r|]. fold (group_matches og groups e).
  destruct (group_matches og groups e); cbn [andb]; [|apply IH].
  destruct (allows req (Z.land (permissions e) m)); [done|]. rewrite IH. cbn [orb]. by rewrite !orb_true_r.
Qed.

(** The bits of the three classes. *)
Definition group_bits (a : PosixAcl) : Z := if has_mask a then permission a 16 else permission a 4.

Lemma mode_bits_split a : acl_ok a ->
  Z.land (Z.shiftr (mode_bits a) 6) 7 = permission a 1 /\ Z.land (Z.shiftr (mode_bits a) 3) 7 = group_bits a /\
  Z.land (mode_bits a) 7 = permission a 32 /\ (Z.land (mode_bits a) 56 =? 0) = (group_bits a =? 0).
Proof.
  intros Hok. pose proof (fun t => permission_range a t Hok) as Hr. pose proof (Hr 1). pose proof (Hr 32).
  assert (0 <= group_bits a < 8) as Hg by (unfold group_bits; pose proof (Hr 16); pose proof (Hr 4); destruct (has_mask a); lia).
  destruct (class_bits_split (permission a 1) (group_bits a) (permission a 32)) as (E1 & E2 & E3 & E4); [lia|done|lia|].
  fold (group_bits a) in *. unfold mode_bits. fold (group_bits a). rewrite E1, E2, E3, E4. split_and!; [done..|]. rewrite Z.shiftl_mul_pow2 by done. lia.
Qed.

(** What an entry grants once the mask is applied. *)
Definition effective (a : PosixAcl) (e : Entry) : Z := Z.land (permissions e) (mask_bits a).

Lemma mask_bits_spec a : mask_bits a = if has_mask a then permission a 16 else 7.
Proof.
  unfold mask_bits, permission, has_mask, find_entry. induction (entries a) as [|e l IH]; [done|]. cbn. by destruct (tag e =? 16).
Qed.

(** An entry is determined by its tag and identity, a singleton by its tag. *)
Lemma entry_unique a e f : acl_ok a -> e ∈ entries a -> f ∈ entries a -> tag e = tag f -> (is_named e = true -> id e = id f) -> e = f.
Proof.
  intros Hok He Hf Ht Hn. pose proof (ao_entries _ Hok) as Hen. rewrite Forall_forall in Hen. destruct (Hen e He) as (_ & _ & _ & H1), (Hen f Hf) as (_ & _ & _ & H2).
  assert (id e = id f) as Hid.
  { destruct (is_named e) eqn:E; [by apply Hn|]. assert (is_named f = false) as F by (unfold is_named in *; by rewrite <-Ht). rewrite (proj2 H1), (proj2 H2) by done. done. }
  pose proof (ao_order _ Hok) as Ho. clear -He Hf Ht Hid Ho. induction Ho as [|x l _ IH Hx]; [by apply elem_of_nil in He|]. rewrite Forall_forall in Hx.
  apply elem_of_cons in He as [->|He], Hf as [->|Hf]; [done|..|by apply IH]; [specialize (Hx f Hf)|specialize (Hx e He)]; unfold before in Hx; lia.
Qed.

(** The mask covers the named entries and the owning group. *)
Lemma effective_within a e req : acl_ok a -> e ∈ entries a -> is_named e = true \/ tag e = 4 -> allows req (effective a e) = true -> allows req (group_bits a) = true.
Proof.
  intros Hok He Hc Ha. unfold effective in Ha. rewrite mask_bits_spec in Ha. apply allows_land in Ha as [Hp Hm]. unfold group_bits.
  destruct (has_mask a) eqn:Hmask; [done|]. destruct Hc as [Hn|Ht].
  - rewrite (ao_mask _ Hok : _ -> has_mask a = true) in Hmask; [done|]. apply existsb_exists. exists e. by rewrite <-list_elem_of_In.
  - destruct (has_tag_find a 4) as (e' & E & Et & He'); [apply Hok|]. unfold permission. rewrite E.
    rewrite <-(entry_unique a e e' Hok He He'); [done|congruence|]. unfold is_named. by rewrite Ht.
Qed.

Lemma named_user_spec a uid : match find_entry (fun e => (tag e =? 2) && (id e =? uid)) a with
  | Some e => e ∈ entries a /\ tag e = 2 /\ id e = uid
  | None => forall e, e ∈ entries a -> tag e = 2 -> id e <> uid end.
Proof.
  unfold find_entry. destruct (List.find _ _) as [e|] eqn:E.
  - apply List.find_some in E as [Hin [? ?]%andb_true_iff]. rewrite list_elem_of_In. split_and!; [done|lia..].
  - intros e He Ht Hi. apply list_elem_of_In, (List.find_none _ _ E e) in He. lia.
Qed.

(** The decision for someone other than the owner, where the group class has any
    bit: a named user's entry decides alone; otherwise one matching group entry
    must grant the whole request; otherwise the others' entry counts. *)
Definition grants (a : PosixAcl) (og uid : Z) (groups : list Z) (req : Z) : Prop :=
  (exists e, e ∈ entries a /\ tag e = 2 /\ id e = uid /\ allows req (effective a e) = true) \/
  ((forall e, e ∈ entries a -> tag e = 2 -> id e <> uid) /\
   ((exists e, e ∈ entries a /\ group_matches og groups e = true /\ allows req (effective a e) = true) \/
    ((forall e, e ∈ entries a -> group_matches og groups e = false) /\ allows req (permission a 32) = true))).

Lemma allows_access_grants a owner og uid groups req : acl_ok a -> uid <> owner -> group_bits a <> 0 ->
  allows_access a owner og uid groups req = true <-> grants a og uid groups req.
Proof.
  intros Hok Hu Hg. unfold allows_access, user_access_mode. destruct (mode_bits_split a Hok) as (_ & _ & _ & ->).
  rewrite (proj2 (Z.eqb_neq uid owner)), (proj2 (Z.eqb_neq (group_bits a) 0)) by done. unfold grants. pose proof (named_user_spec a uid) as Hn.
  destruct (find_entry _ a) as [e|].
  - destruct Hn as (He & Ht & Hi). split; [intros H; left; eauto|]. intros [(e' & He' & Ht' & Hi' & H)|[H _]]; [|by destruct (H e He Ht)].
    rewrite (entry_unique a e e' Hok He He'); [done|congruence|congruence].
  - rewrite group_scan_spec. destruct (existsb (fun e => _ && _) (entries a)) eqn:Ex.
    + apply existsb_exists in Ex as (e & He & [Hm Ha]%andb_true_iff). apply list_elem_of_In in He. split; [|done]. intros _. right. split; [done|]. left. by exists e.
    + assert (forall e, e ∈ entries a -> group_matches og groups e = true -> allows req (effective a e) = true -> False) as Hno.
      { intros e He Hm Ha. assert (existsb (fun e => group_matches og groups e && allows req (Z.land (permissions e) (mask_bits a))) (entries a) = true); [|congruence].
        apply existsb_exists. exists e. rewrite <-list_elem_of_In. split; [done|]. by rewrite Hm. }
      cbn [orb]. rewrite andb_true_iff, negb_true_iff. split.
      * intros [Hm Ho]. right. split; [done|]. right. split; [|done]. intros e He. apply not_true_is_false. intros E.
        assert (existsb (group_matches og groups) (entries a) = true); [|congruence]. apply existsb_exists. exists e. by rewrite <-list_elem_of_In.
      * intros [(e & He & Ht & Hi & _)|(_ & [(e & He & Hm & Ha)|[Hm Ho]])]; [by destruct (Hn e He Ht)|by destruct (Hno e He Hm Ha)|]. split; [|done].
        apply not_true_is_false. intros (e & He & E)%existsb_exists. apply list_elem_of_In in He. by rewrite Hm in E.
Qed.

Lemma allows_access_owner a og uid groups req : allows_access a uid og uid groups req = allows req (permission a 1).
Proof. unfold allows_access, user_access_mode. by rewrite Z.eqb_refl. Qed.

Lemma allows_access_empty a owner og uid groups req : acl_ok a -> uid <> owner -> group_bits a = 0 ->
  allows_access a owner og uid groups req = allows req (if bool_decide (og ∈ groups) then 0 else permission a 32).
Proof.
  intros Hok Hu Hg. unfold allows_access, user_access_mode. destruct (mode_bits_split a Hok) as (_ & _ & _ & ->). by rewrite (proj2 (Z.eqb_neq uid owner)), Hg.
Qed.

(** The class a caller falls into by mode bits alone. *)
Definition mode_class (mode owner og uid : Z) (groups : list Z) : Z :=
  if uid =? owner then Z.land (Z.shiftr mode 6) 7 else if bool_decide (og ∈ groups) then Z.land (Z.shiftr mode 3) 7 else Z.land mode 7.

(** The owning group's entry is always there. *)
Lemma group_obj_matches a og groups : acl_ok a -> og ∈ groups -> exists e, e ∈ entries a /\ tag e = 4 /\ group_matches og groups e = true.
Proof.
  intros Hok Hg. destruct (has_tag_find a 4) as (e & _ & Et & He); [apply Hok|]. exists e. split_and!; [done|done|]. unfold group_matches. rewrite Et, bool_decide_true by done. done.
Qed.

(** Without named entries and mask only the owning group's entry can match. *)
Lemma minimal_entries a : is_extended a = false -> has_mask a = false /\ forall e, e ∈ entries a -> is_named e = false.
Proof.
  intros Hx. assert (forall e, e ∈ entries a -> is_named e = false /\ tag e <> 16) as Hn.
  { intros e He. assert (((tag e =? 2) || (tag e =? 8) || (tag e =? 16)) = false) as Hf; [|unfold is_named; by split; [apply orb_false_iff in Hf as [? _]|lia]].
    apply not_true_is_false. intros E. assert (is_extended a = true); [|congruence]. apply existsb_exists. exists e. by rewrite <-list_elem_of_In. }
  split; [|intros e He; by apply Hn]. apply not_true_is_false. intros (e & _ & Et & He)%has_tag_find. by destruct (Hn e He).
Qed.

Lemma minimal_access a owner og uid groups req : acl_ok a -> is_extended a = false -> uid <> owner ->
  allows_access a owner og uid groups req = allows req (if bool_decide (og ∈ groups) then group_bits a else permission a 32).
Proof.
  intros Hok Hx Hu. destruct (minimal_entries a Hx) as [Hmask Hn].
  destruct (decide (group_bits a = 0)) as [Hg|Hg]; [rewrite allows_access_empty by done; case_bool_decide; by rewrite ?Hg|].
  assert (forall e, e ∈ entries a -> tag e <> 2) as H2 by (intros e He; specialize (Hn e He); unfold is_named in Hn; lia).
  assert (forall e, e ∈ entries a -> group_matches og groups e = true -> tag e = 4 /\ og ∈ groups) as H4.
  { intros e He Hm. specialize (Hn e He). unfold group_matches in Hm. unfold is_named in Hn. destruct (bool_decide_reflect (og ∈ groups)); [|lia]. split; [lia|done]. }
  apply eq_true_iff_eq. rewrite allows_access_grants by done. case_bool_decide as Hin.
  - split.
    + intros [(e & He & Ht & _)|(_ & [(e & He & Hm & Ha)|[Hm _]])]; [by destruct (H2 e He)| |].
      * apply (effective_within a e req Hok He); [right; by apply (H4 e)|done].
      * destruct (group_obj_matches a og groups Hok Hin) as (e & He & _ & E). by rewrite Hm in E.
    + intros Ha. right. split; [intros e He Ht; by destruct (H2 e He)|]. left. destruct (has_tag_find a 4) as (e & E & Et & He); [apply Hok|].
      exists e. split_and!; [done|unfold group_matches; by rewrite Et, bool_decide_true|]. unfold group_bits, permission in Ha. rewrite Hmask, E in Ha.
      unfold effective. rewrite mask_bits_spec, Hmask. apply allows_land. split; [done|]. pose proof (ao_entries _ Hok) as Hen. rewrite Forall_forall in Hen.
      destruct (Hen e He) as (_ & Hp & _). rewrite (ones_land (permissions e)) in Ha by lia. by apply allows_land in Ha as [_ Ha].
  - split.
    + intros [(e & He & Ht & _)|(_ & [(e & He & Hm & _)|[_ Ho]])]; [by destruct (H2 e He)|by destruct (H4 e He Hm)|done].
    + intros Ho. right. split; [intros e He Ht; by destruct (H2 e He)|]. right. split; [|done]. intros e He. apply not_true_is_false. intros Hm. by destruct (H4 e He Hm).
Qed.


End PosixAcl.

Definition w_acl : PosixAcl.PosixAcl := PosixAcl.mkAcl
  [ PosixAcl.mkEntry 1 6 u32_max; PosixAcl.mkEntry 2 0 1234; PosixAcl.mkEntry 2 7 2000; PosixAcl.mkEntry 4 0 u32_max;
    PosixAcl.mkEntry 8 2 3000; PosixAcl.mkEntry 8 5 4000; PosixAcl.mkEntry 16 6 u32_max; PosixAcl.mkEntry 32 7 u32_max ].

Lemma w_acl_ok : PosixAcl.acl_ok w_acl.
Proof. apply (PosixAcl.decode_sound (PosixAcl.encode w_acl)). by vm_compute. Qed.

(** ** Control ACLs *)
Module Control.

Record ControlAclEntry := mkControl { scope : string; tag : string; id : option Z; perm : string }.

(** [control_acl_perm_bits]: the loop over [perm.chars().enumerate()]. *)
Fixpoint perm_loop (index mode : Z) (perm : list Ascii.ascii) : option Z :=
  match perm with
  | [] => Some mode
  | ch :: perm =>
      if (index =? 0) && Ascii.eqb ch "r"%char then perm_loop (index + 1) (Z.lor mode 4) perm
      else if (index =? 1) && Ascii.eqb ch "w"%char then perm_loop (index + 1) (Z.lor mode 2) perm
      else if (index =? 2) && Ascii.eqb ch "x"%char then perm_loop (index + 1) (Z.lor mode 1) perm
      else if Ascii.eqb ch "-"%char then perm_loop (index + 1) mode perm
      else None
  end.
Definition control_acl_perm_bits (perm : string) : option Z :=
  if negb (String.length perm =? 3)%nat then None else perm_loop 0 0 (String.list_ascii_of_string perm).

(** The closure [find] of both decisions. *)
Definition find (entries : list ControlAclEntry) (t : string) (i : option Z) : option Z :=
  e ← List.find (fun e => String.eqb (scope e) "access" && String.eqb (tag e) t && bool_decide (id e = i)) entries;
  control_acl_perm_bits (perm e).
Definition masked (entries : list ControlAclEntry) (mode : Z) : Z := Z.land mode (default 7 (find entries "mask" None)).

Definition control_acl_access_mode (entries : list ControlAclEntry) (owner_uid owner_gid uid : Z) (groups : list Z) : option Z :=
  if uid =? owner_uid then find entries "user_obj" None else
  match find entries "user" (Some uid) with
  | Some mode => Some (masked entries mode)
  | None =>
      let matched := if bool_decide (owner_gid ∈ groups) then find entries "group_obj" None else None in
      let matched := foldl (fun matched gid =>
        match find entries "group" (Some gid) with
        | Some mode => Some (Z.lor (default 0 matched) mode)
        | None => matched end) matched groups in
      match matched with Some mode => Some (masked entries mode) | None => find entries "other" None end
  end.

(** The loop over the caller's groups: the early [true], or [matched_group]. *)
Fixpoint groups_scan (entries : list ControlAclEntry) (requested : Z) (matched_group : bool) (groups : list Z) : option bool :=
  match groups with
  | [] => Some matched_group
  | gid :: groups =>
      match find entries "group" (Some gid) with
      | Some mode =>
          if PosixAcl.allows requested (masked entries mode) then None else groups_scan entries requested true groups
      | None => groups_scan entries requested matched_group groups
      end
  end.

Definition control_acl_allows_access (entries : list ControlAclEntry) (owner_uid owner_gid uid : Z) (groups : list Z) (requested : Z) : option bool :=
  if uid =? owner_uid then PosixAcl.allows requested <$> find entries "user_obj" None else
  match find entries "user" (Some uid) with
  | Some mode => Some (PosixAcl.allows requested (masked entries mode))
  | None =>
      let in_group := bool_decide (owner_gid ∈ groups) in
      if in_group && PosixAcl.allows requested (masked entries (default 0 (find entries "group_obj" None))) then Some true else
      match groups_scan entries requested in_group groups with
      | None => Some true
      | Some true => Some false
      | Some false => PosixAcl.allows requested <$> find entries "other" None
      end
  end.

(** *** Validation *)

Inductive AclInvalid :=
| ScopeInvalid (entry_number : Z) | TagUnsupported (entry_number : Z) | PermInvalid (entry_number : Z)
| IdRequired (entry_number : Z) | IdUnexpected (entry_number : Z) | BaseMissing.

Definition valid_acl_perm (perm : string) : bool :=
  match String.list_ascii_of_string perm with
  | [r; w; x] => (Ascii.eqb r "r"%char || Ascii.eqb r "-"%char) && (Ascii.eqb w "w"%char || Ascii.eqb w "-"%char) && (Ascii.eqb x "x"%char || Ascii.eqb x "-"%char)
  | _ => false
  end.

Definition names_identity (t : string) : bool := String.eqb t "user" || String.eqb t "group".

Definition validate_acl_entry (e : ControlAclEntry) (index : Z) : result AclInvalid unit :=
  let entry_number := index + 1 in
  if negb (String.eqb (scope e) "access") && negb (String.eqb (scope e) "default") then Err (ScopeInvalid entry_number) else
  if negb (bool_decide (tag e ∈ ["user_obj"; "user"; "group_obj"; "group"; "mask"; "other"]%string)) then Err (TagUnsupported entry_number) else
  if negb (valid_acl_perm (perm e)) then Err (PermInvalid entry_number) else
  if names_identity (tag e) && bool_decide (id e = None) then Err (IdRequired entry_number) else
  if negb (names_identity (tag e)) && bool_decide (is_Some (id e)) then Err (IdUnexpected entry_number) else Ok tt.

Definition has_acl_entry (entries : list ControlAclEntry) (s t : string) : bool :=
  existsb (fun e => String.eqb (scope e) s && String.eqb (tag e) t) entries.

Definition validate_acl_entry_set (entries : list ControlAclEntry) : result AclInvalid unit :=
  if negb (existsb (fun e => String.eqb (scope e) "access") entries) then Ok tt else
  if has_acl_entry entries "access" "user_obj" && has_acl_entry entries "access" "group_obj" && has_acl_entry entries "access" "other"
  then Ok tt else Err BaseMissing.

Fixpoint validate_each (index : Z) (entries : list ControlAclEntry) : result AclInvalid unit :=
  match entries with
  | [] => Ok tt
  | e :: entries => let? _ := validate_acl_entry e index in validate_each (index + 1) entries
  end.
Definition validate_acl_entries (entries : list ControlAclEntry) : result AclInvalid unit :=
  let? _ := validate_each 0 entries in validate_acl_entry_set entries.

(** *** The same list in both forms *)

Definition tag_name (t : Z) : string :=
  if t =? 1 then "user_obj" else if t =? 2 then "user" else if t =? 4 then "group_obj" else if t =? 8 then "group"
  else if t =? 16 then "mask" else "other".
Definition perm_string (p : Z) : string :=
  String (if Z.testbit p 2 then "r"%char else "-"%char) (String (if Z.testbit p 1 then "w"%char else "-"%char)
    (String (if Z.testbit p 0 then "x"%char else "-"%char) EmptyString)).
Definition key (e : PosixAcl.Entry) : option Z := if PosixAcl.is_named e then Some (PosixAcl.id e) else None.
Definition render (a : PosixAcl.PosixAcl) : list ControlAclEntry :=
  (fun e => mkControl "access" (tag_name (PosixAcl.tag e)) (key e) (perm_string (PosixAcl.permissions e))) <$> PosixAcl.entries a.

Lemma perm_bits_string p : 0 <= p <= 7 -> control_acl_perm_bits (perm_string p) = Some p /\ valid_acl_perm (perm_string p) = true.
Proof.
  intros Hp. assert (p = 0 \/ p = 1 \/ p = 2 \/ p = 3 \/ p = 4 \/ p = 5 \/ p = 6 \/ p = 7) as Hc by lia.
  repeat (destruct Hc as [->|Hc]; [done|]). by subst p.
Qed.

Lemma tag_name_inj t u : t ∈ [1; 2; 4; 8; 16; 32] -> u ∈ [1; 2; 4; 8; 16; 32] -> String.eqb (tag_name t) (tag_name u) = (t =? u).
Proof. rewrite !elem_of_cons, !elem_of_nil. naive_solver. Qed.

Lemma find_render a t i : PosixAcl.acl_ok a -> t ∈ [1; 2; 4; 8; 16; 32] ->
  find (render a) (tag_name t) i = PosixAcl.permissions <$> PosixAcl.find_entry (fun e => (PosixAcl.tag e =? t) && bool_decide (key e = i)) a.
Proof.
  intros Hok Ht. unfold find, render, PosixAcl.find_entry. pose proof (PosixAcl.ao_entries _ Hok) as He. induction He as [|e l (H1 & H2 & _) _ IH]; [done|].
  cbn -[tag_name perm_string String.eqb]. rewrite tag_name_inj by done. destruct ((PosixAcl.tag e =? t) && bool_decide (key e = i)) eqn:E.
  - change (String.eqb "access" "access") with true. cbn [andb]. rewrite E. cbn -[perm_string]. apply perm_bits_string. done.
  - change (String.eqb "access" "access") with true. cbn [andb]. rewrite E. exact IH.
Qed.

Lemma find_render_single a t : PosixAcl.acl_ok a -> t ∈ [1; 4; 16; 32] ->
  find (render a) (tag_name t) None = PosixAcl.permissions <$> PosixAcl.find_entry (fun e => PosixAcl.tag e =? t) a.
Proof.
  intros Hok Ht. assert (t ∈ [1; 2; 4; 8; 16; 32]) as Ht' by set_solver. rewrite (find_render a t None Hok Ht'). f_equal. unfold PosixAcl.find_entry.
  induction (PosixAcl.entries a) as [|e l IH]; [done|]. cbn. rewrite IH. destruct (Z.eqb_spec (PosixAcl.tag e) t) as [E|]; [|done]. cbn [andb].
  rewrite bool_decide_true; [done|]. unfold key, PosixAcl.is_named. rewrite E. rewrite !elem_of_cons, elem_of_nil in Ht. by destruct Ht as [->|[->|[->|[->|[]]]]].
Qed.

Lemma find_render_base a t : PosixAcl.acl_ok a -> t ∈ [1; 4; 32] -> find (render a) (tag_name t) None = Some (PosixAcl.permission a t).
Proof.
  intros Hok Ht. rewrite find_render_single by (try done; set_solver). unfold PosixAcl.permission. destruct (PosixAcl.has_tag_find a t) as (e & -> & _); [|done].
  destruct (PosixAcl.ao_base _ Hok) as (? & ? & ?). rewrite !elem_of_cons, elem_of_nil in Ht. by destruct Ht as [->|[->|[->|[]]]].
Qed.

Lemma masked_render a p : PosixAcl.acl_ok a -> masked (render a) p = Z.land p (PosixAcl.mask_bits a).
Proof.
  intros Hok. unfold masked. change "mask"%string with (tag_name 16). rewrite find_render_single by (try done; set_solver). unfold PosixAcl.mask_bits.
  by destruct (PosixAcl.find_entry _ a).
Qed.

(** Looking a name up finds its one entry. *)
Lemma find_render_named a t i : PosixAcl.acl_ok a -> t ∈ [2; 8] ->
  match find (render a) (tag_name t) (Some i) with
  | Some p => exists e, e ∈ PosixAcl.entries a /\ PosixAcl.tag e = t /\ PosixAcl.id e = i /\ PosixAcl.permissions e = p
  | None => forall e, e ∈ PosixAcl.entries a -> PosixAcl.tag e = t -> PosixAcl.id e <> i
  end.
Proof.
  intros Hok Ht. rewrite find_render by (try done; set_solver). assert (forall e, PosixAcl.tag e = t -> key e = Some (PosixAcl.id e)) as Hk.
  { intros e E. unfold key, PosixAcl.is_named. rewrite E. rewrite !elem_of_cons, elem_of_nil in Ht. by destruct Ht as [->|[->|[]]]. }
  unfold PosixAcl.find_entry. destruct (List.find _ _) as [e|] eqn:E; cbn.
  - apply List.find_some in E as [Hin [Et%Z.eqb_eq Ei%bool_decide_eq_true]%andb_true_iff]. rewrite (Hk e Et) in Ei. injection Ei as Ei. exists e. by rewrite list_elem_of_In.
  - intros e He Et Ei. apply list_elem_of_In, (List.find_none _ _ E e) in He. rewrite Et, Z.eqb_refl, (Hk e Et), Ei, bool_decide_true in He; done.
Qed.

Lemma groups_scan_spec entries req : forall groups matched, groups_scan entries req matched groups =
  if existsb (fun gid => match find entries "group" (Some gid) with Some mode => PosixAcl.allows req (masked entries mode) | None => false end) groups then None
  else Some (matched || existsb (fun gid => match find entries "group" (Some gid) with Some _ => true | None => false end) groups).
Proof.
  induction groups as [|gid groups IH]; intros matched; cbn; [by rewrite orb_false_r|]. destruct (find entries "group" (Some gid)) as [mode|]; [|apply IH].
  destruct (PosixAcl.allows _ _); [done|]. rewrite IH. cbn. by rewrite orb_true_r.
Qed.

Section groups.
Context (a : PosixAcl.PosixAcl) (Hok : PosixAcl.acl_ok a) (og req : Z) (groups : list Z).
#[local] Set Default Proof Using "Hok".

Lemma find_group_iff gid mode : find (render a) "group" (Some gid) = Some mode <->
  exists e, e ∈ PosixAcl.entries a /\ PosixAcl.tag e = 8 /\ PosixAcl.id e = gid /\ PosixAcl.permissions e = mode.
Proof.
  pose proof (find_render_named a 8 gid Hok ltac:(set_solver)) as H. change (tag_name 8) with "group"%string in H. destruct (find _ _ _) as [p|].
  - destruct H as (e & He & Et & Ei & <-). split; [intros [= <-]; by exists e|]. intros (f & Hf & Ft & Fi & <-). do 2 f_equal.
    apply (PosixAcl.entry_unique a e f); congruence || done.
  - split; [done|]. intros (f & Hf & Ft & Fi & _). by destruct (H f Hf Ft).
Qed.

(** The entries of the group class, by the caller's groups. *)
Lemma group_class_iff (P : Z -> bool) :
  (bool_decide (og ∈ groups) && P (PosixAcl.permission a 4) ||
   existsb (fun gid => match find (render a) "group" (Some gid) with Some mode => P mode | None => false end) groups) = true <->
  exists e, e ∈ PosixAcl.entries a /\ PosixAcl.group_matches og groups e = true /\ P (PosixAcl.permissions e) = true.
Proof.
  destruct (PosixAcl.has_tag_find a 4) as (e4 & E4 & T4 & H4); [apply Hok|]. rewrite orb_true_iff, andb_true_iff, bool_decide_eq_true, existsb_exists.
  unfold PosixAcl.permission. rewrite E4. split.
  - intros [[Hg Hp]|(gid & Hgid & Hm)].
    + exists e4. split_and!; [done| |done]. unfold PosixAcl.group_matches. by rewrite T4, bool_decide_true.
    + destruct (find (render a) "group" (Some gid)) as [mode|] eqn:E; [|done]. apply find_group_iff in E as (e & He & Et & <- & <-). exists e.
      split_and!; [done| |done]. unfold PosixAcl.group_matches. rewrite Et, (bool_decide_true (PosixAcl.id e ∈ groups)) by by apply list_elem_of_In. by rewrite orb_true_r.
  - intros (e & He & Hm & Hp). apply orb_true_iff in Hm as [[Et%Z.eqb_eq Hg%bool_decide_eq_true]%andb_true_iff|[Et%Z.eqb_eq Hg%bool_decide_eq_true]%andb_true_iff].
    + left. split; [done|]. rewrite <-(PosixAcl.entry_unique a e e4 Hok He H4); [done|congruence|]. unfold PosixAcl.is_named. by rewrite Et.
    + right. exists (PosixAcl.id e). rewrite <-list_elem_of_In. split; [done|]. by rewrite (proj2 (find_group_iff (PosixAcl.id e) (PosixAcl.permissions e)) ltac:(by exists e)).
Qed.

End groups.

Lemma control_grants a owner og uid groups req : PosixAcl.acl_ok a -> uid <> owner ->
  exists granted, control_acl_allows_access (render a) owner og uid groups req = Some granted /\
    (granted = true <-> PosixAcl.grants a og uid groups req).
Proof.
  intros Hok Hu. unfold control_acl_allows_access. rewrite (proj2 (Z.eqb_neq uid owner)) by done. unfold PosixAcl.grants.
  pose proof (find_render_named a 2 uid Hok ltac:(set_solver)) as Hn. change (tag_name 2) with "user"%string in Hn.
  destruct (find (render a) "user" (Some uid)) as [p|].
  { destruct Hn as (e & He & Et & Ei & <-). eexists. split; [done|]. rewrite masked_render by done. fold (PosixAcl.effective a e). split; [intros H; left; by exists e|].
    intros [(f & Hf & Ft & Fi & H)|[H _]]; [|by destruct (H e He Et)]. rewrite (PosixAcl.entry_unique a e f Hok He Hf); [done|congruence|congruence]. }
  change "group_obj"%string with (tag_name 4). change "other"%string with (tag_name 32). rewrite !find_render_base by (try done; set_solver). cbn [default].
  pose proof (group_class_iff a Hok og groups (fun mode => PosixAcl.allows req (masked (render a) mode))) as Ha.
  pose proof (group_class_iff a Hok og groups (fun _ => true)) as Hm. cbv beta in Ha, Hm. rewrite andb_true_r in Hm. rewrite groups_scan_spec.
  set (X := bool_decide _ && _) in *. set (Y := existsb (fun gid => match find _ _ _ with Some mode => _ | None => false end) groups) in *.
  set (M := existsb (fun gid => match find _ _ _ with Some _ => true | None => false end) groups) in *.
  assert ((if X then Some true else match (if Y then None else Some (bool_decide (og ∈ groups) || M)) with
    | None => Some true | Some true => Some false | Some false => PosixAcl.allows req <$> Some (PosixAcl.permission a 32) end) =
    Some (X || Y || negb (bool_decide (og ∈ groups) || M) && PosixAcl.allows req (PosixAcl.permission a 32))) as ->
    by (destruct X, Y, (bool_decide (og ∈ groups) || M); done).
  eexists. split; [done|]. rewrite orb_true_iff, Ha, andb_true_iff, negb_true_iff.
  setoid_rewrite masked_render; [|done..]. fold (PosixAcl.effective a). split.
  - intros [(e & He & Hme & H)|[Hno Ho]]; right; (split; [done|]); [left; by exists e|]. right. split; [|done]. intros e He. apply not_true_is_false. intros E.
    assert (bool_decide (og ∈ groups) || M = true); [|congruence]. apply Hm. by exists e.
  - intros [(e & He & Et & Ei & _)|(_ & [H|[Hno Ho]])]; [by destruct (Hn e He Et)|by left|]. right. split; [|done]. apply not_true_is_false. rewrite Hm.
    intros (e & He & E & _). by rewrite Hno in E.
Qed.

Lemma render_valid a : PosixAcl.acl_ok a -> validate_acl_entries (render a) = Ok tt.
Proof.
  intros Hok. unfold validate_acl_entries. assert (forall index, validate_each index (render a) = Ok tt) as ->.
  { unfold render. pose proof (PosixAcl.ao_entries _ Hok) as He. induction He as [|e l (H1 & H2 & _) _ IH]; intros index; [done|].
    cbn -[tag_name perm_string validate_acl_entry]. assert (validate_acl_entry (mkControl "access" (tag_name (PosixAcl.tag e)) (key e) (perm_string (PosixAcl.permissions e))) index = Ok tt) as ->; [|apply IH].
    unfold validate_acl_entry. cbn [scope tag id perm]. rewrite (proj2 (perm_bits_string _ H2)). unfold key, PosixAcl.is_named. rewrite !elem_of_cons, elem_of_nil in H1.
    by destruct H1 as [->|[->|[->|[->|[->|[->|[]]]]]]]. }
  cbn [result_bind]. unfold validate_acl_entry_set. destruct (existsb _ _); [|done]. cbn [negb].
  assert (forall t, t ∈ [1; 4; 32] -> has_acl_entry (render a) "access" (tag_name t) = true) as Hh.
  { intros t Ht. destruct (PosixAcl.has_tag_find a t) as (e & _ & <- & He).
    - destruct (PosixAcl.ao_base _ Hok) as (? & ? & ?). rewrite !elem_of_cons, elem_of_nil in Ht. by destruct Ht as [->|[->|[->|[]]]].
    - apply existsb_exists. exists (mkControl "access" (tag_name (PosixAcl.tag e)) (key e) (perm_string (PosixAcl.permissions e))). rewrite <-list_elem_of_In. split; [|by rewrite !String.eqb_refl].
      apply list_elem_of_fmap. by exists e. }
  change "user_obj"%string with (tag_name 1). change "group_obj"%string with (tag_name 4). change "other"%string with (tag_name 32). by rewrite !Hh by set_solver.
Qed.

(** The two forms of a list.  The control form of a well-formed POSIX list is
    valid, and its decision never grants what the POSIX list denies; the two agree
    except for callers other than the owner when no bit is left for the group
    class, where Linux looks at the others' bits even for named entries. *)
Theorem control_acl_agrees a owner og uid groups req : PosixAcl.acl_ok a ->
  validate_acl_entries (render a) = Ok tt /\
  exists granted, control_acl_allows_access (render a) owner og uid groups req = Some granted /\
    (granted = true -> PosixAcl.allows_access a owner og uid groups req = true) /\
    (uid = owner \/ Z.land (PosixAcl.mode_bits a) 56 <> 0 -> granted = PosixAcl.allows_access a owner og uid groups req).
Proof.
  intros Hok. split; [by apply render_valid|]. destruct (decide (uid = owner)) as [->|Hu].
  { exists (PosixAcl.allows req (PosixAcl.permission a 1)). rewrite PosixAcl.allows_access_owner. split; [|done]. unfold control_acl_allows_access. rewrite Z.eqb_refl.
    change "user_obj"%string with (tag_name 1). by rewrite find_render_base by (try done; set_solver). }
  destruct (control_grants a owner og uid groups req Hok Hu) as (granted & E & Hg). exists granted. split; [done|].
  destruct (PosixAcl.mode_bits_split a Hok) as (_ & _ & _ & Hz). destruct (decide (PosixAcl.group_bits a = 0)) as [Hb|Hb].
  - split; [|intros [?|?]; [done|lia]]. rewrite Hg. intros HG. rewrite PosixAcl.allows_access_empty by done.
    assert (PosixAcl.allows req 0 = true -> PosixAcl.allows req (if bool_decide (og ∈ groups) then 0 else PosixAcl.permission a 32) = true) as H0 by apply PosixAcl.allows_0.
    destruct HG as [(e & He & Et & _ & H)|(_ & [(e & He & Hm & H)|[Hno Ho]])].
    + apply H0. rewrite <-Hb. apply (PosixAcl.effective_within a e req Hok He); [|done]. left. unfold PosixAcl.is_named. by rewrite Et.
    + apply H0. rewrite <-Hb. apply (PosixAcl.effective_within a e req Hok He); [|done]. unfold PosixAcl.group_matches in Hm. unfold PosixAcl.is_named. lia.
    + case_bool_decide as Hin; [|done]. destruct (PosixAcl.group_obj_matches a og groups Hok Hin) as (e & He & _ & E'). by rewrite Hno in E'.
  - assert (granted = PosixAcl.allows_access a owner og uid groups req) as <-; [|done]. apply eq_true_iff_eq. rewrite Hg. symmetry. by apply PosixAcl.allows_access_grants.
Qed.

End Control.

