(* ===== verification/Layers.v ===== *)
(** The layers of a workspace: the chain of sealed layers under a writable head
    ([workspace_overlay/model.rs]), the resolution of directory entries, inodes,
    extended attributes and data extents through it
    ([workspace_overlay/resolver]). *)
From stdpp Require Import options.
From S2P Require Import Prelude.

(** ** Ordered maps

    A [BTreeMap] is a list of bindings with increasing keys. *)
Section btree.
Context {K V : Type} `{!EqDecision K} (ltb : K -> K -> bool).

Fixpoint bt_get (k : K) (m : list (K * V)) : option V :=
  match m with (k', v) :: m => if decide (k = k') then Some v else bt_get k m | [] => None end.

Fixpoint bt_insert (k : K) (v : V) (m : list (K * V)) : list (K * V) :=
  match m with
  | (k', v') :: m' => if decide (k = k') then (k, v) :: m' else if ltb k k' then (k, v) :: m else (k', v') :: bt_insert k v m'
  | [] => [(k, v)]
  end.

Fixpoint bt_remove (k : K) (m : list (K * V)) : list (K * V) :=
  match m with (k', v) :: m => if decide (k = k') then m else (k', v) :: bt_remove k m | [] => [] end.

End btree.

(** What the [Ord] of a key promises to the maps. *)
Class KeyOrder {K} (ltb : K -> K -> bool) : Prop := {
  key_irrefl a : ltb a a = false;
  key_trans a b c : ltb a b = true -> ltb b c = true -> ltb a c = true;
  key_total a b : a <> b -> ltb a b = false -> ltb b a = true }.

Section btree_laws.
Context {K V : Type} `{!EqDecision K} (ltb : K -> K -> bool) `{!KeyOrder ltb}.
Implicit Types m : list (K * V).

Definition bt_ok m : Prop := StronglySorted (fun a b => ltb a.1 b.1 = true) m.

Lemma bt_get_insert k v m : bt_get k (bt_insert ltb k v m) = Some v.
Proof using. induction m as [|[k' v'] m IH]; cbn; [by rewrite decide_True|]. case_decide; [|destruct (ltb k k')]; cbn; [by rewrite decide_True|by rewrite decide_True|by rewrite decide_False]. Qed.

Lemma bt_get_insert_ne k k' v m : k <> k' -> bt_get k (bt_insert ltb k' v m) = bt_get k m.
Proof using.
  intros Hne. induction m as [|[k0 v0] m IH]; cbn; [by rewrite decide_False|]. case_decide as E; [|destruct (ltb k' k0)]; cbn.
  - subst. by rewrite !decide_False.
  - by rewrite (decide_False (P := k = k')).
  - by rewrite IH.
Qed.

Lemma bt_insert_elem k v m kv : kv ∈ bt_insert ltb k v m -> kv = (k, v) \/ kv ∈ m.
Proof using.
  induction m as [|[k' v'] m IH]; cbn; [rewrite list_elem_of_singleton; auto|]. case_decide; [|destruct (ltb k k')]; rewrite !elem_of_cons; [tauto|tauto|].
  intros [->|?]; [auto|]. destruct IH; auto.
Qed.

Lemma bt_insert_ok k v m : bt_ok m -> bt_ok (bt_insert ltb k v m).
Proof using KeyOrder0.
  unfold bt_ok. induction 1 as [|[k' v'] m Hs IH Hf]; cbn; [repeat constructor|]. case_decide as E; [subst; by constructor|]. destruct (ltb k k') eqn:El.
  - constructor; [by constructor|]. constructor; [done|]. eapply Forall_impl; [exact Hf|]. cbn. intros [k0 v0] H0. by apply (key_trans k k').
  - constructor; [done|]. rewrite Forall_forall in *. intros [k0 v0] [[= -> ->]|H0]%bt_insert_elem; [by apply key_total|by apply Hf].
Qed.

Lemma bt_get_elem k v m : bt_ok m -> bt_get k m = Some v <-> (k, v) ∈ m.
Proof using KeyOrder0.
  induction 1 as [|[k' v'] m Hs IH Hf]; cbn; [by rewrite elem_of_nil|]. rewrite elem_of_cons. case_decide as E; [|rewrite IH; naive_solver].
  subst. split; [intros [= ->]; by left|]. intros [[= ->]|Hin]; [done|]. rewrite Forall_forall in Hf. specialize (Hf _ Hin). cbn in Hf. by rewrite key_irrefl in Hf.
Qed.

Lemma bt_keys_distinct m : bt_ok m -> NoDup m.*1.
Proof using KeyOrder0.
  induction 1 as [|[k v] m Hs IH Hf]; [constructor|]. cbn. apply NoDup_cons. split; [|done]. intros ([k' v'] & Ek & Hin)%list_elem_of_fmap. cbn in Ek. subst.
  rewrite Forall_forall in Hf. specialize (Hf _ Hin). cbn in Hf. by rewrite key_irrefl in Hf.
Qed.
End btree_laws.

(** Names are compared byte by byte. *)
Definition byte_ltb (a b : byte) : bool := (Byte.to_N a <? Byte.to_N b)%N.
Fixpoint name_ltb (a b : list byte) : bool :=
  match a, b with
  | _, [] => false
  | [], _ :: _ => true
  | x :: a, y :: b => byte_ltb x y || (bool_decide (x = y) && name_ltb a b)
  end.

#[export] Instance Z_order : KeyOrder Z.ltb.
Proof. split; [apply Z.ltb_irrefl|intros a b c; rewrite !Z.ltb_lt; lia|intros a b; rewrite Z.ltb_ge, Z.ltb_lt; lia]. Qed.

#[export] Instance name_order : KeyOrder name_ltb.
Proof.
  assert (forall x : byte, byte_ltb x x = false) as Hi by (intros x; apply N.ltb_irrefl). split.
  - induction a as [|x a IH]; cbn; [done|]. by rewrite Hi, IH, andb_false_r.
  - induction a as [|x a IH]; intros [|y b] [|z c]; cbn; try done. rewrite !orb_true_iff, !andb_true_iff, !bool_decide_eq_true. unfold byte_ltb. rewrite !N.ltb_lt.
    intros [H1|[-> H1]] [H2|[-> H2]]; [left; lia|by left|by left|right; eauto].
  - induction a as [|x a IH]; intros [|y b] Hne; cbn; try done. rewrite orb_false_iff. unfold byte_ltb. rewrite N.ltb_ge. intros [H1 H2]. destruct (decide (x = y)) as [->|Hxy].
    + rewrite bool_decide_true in * by done. cbn in *. rewrite (IH b); [apply orb_true_r|congruence|done].
    + rewrite (proj2 (N.ltb_lt _ _)); [done|]. assert (Byte.to_N x <> Byte.to_N y); [|lia]. intros E. apply Hxy. pose proof (Byte.of_to_N x) as Ex. rewrite E, Byte.of_to_N in Ex. congruence.
Qed.

(** ** Rows *)

Definition WORKSPACE_SCHEMA_VERSION : Z := 1.
Definition LAYER_CHAIN_HARD_LIMIT : Z := 32.

Inductive LayerState := Writable | Sealing | Sealed | Deleting.
Inductive DentryOp := DPut | DWhiteout.
Inductive InodeState := Present | Deleted.
Inductive ValueOp := VPut | VWhiteout.

#[export] Instance LayerState_eq_dec : EqDecision LayerState.
Proof. solve_decision. Defined.

(** A layer's record; its two times are left out. *)
Record LayerRecord := mkLayer {
  layer_id : Z; parent_layer_id : option Z; l_state : LayerState; schema_version : Z; sealed_version : option Z;
  delta_digest : option (list byte); root_hash : option (list byte); depth : Z; owner_workspace_id : option Z; next_sequence : Z;
  owned_slice_count : Z; owned_bytes : Z }.

#[export] Instance LayerRecord_eq_dec : EqDecision LayerRecord.
Proof. solve_decision. Defined.

Record DentryDelta := mkDentry {
  de_layer : Z; de_parent : Z; de_name : list byte; de_op : DentryOp; de_ino : option Z; de_type : option Z; de_sequence : Z }.
Record InodeDelta := mkInode {
  in_layer : Z; in_ino : Z; in_state : InodeState; in_kind : Z; in_size : Z; in_mode : Z; in_uid : Z; in_gid : Z; in_rdev : Z;
  in_nlink : Z; in_atime : Z; in_mtime : Z; in_ctime : Z; in_target : option (list byte); in_parent_hint : option Z;
  in_data_version : Z; in_sequence : Z }.
Record XattrDelta := mkXattr {
  xa_layer : Z; xa_ino : Z; xa_name : list byte; xa_op : ValueOp; xa_value : option (list byte); xa_sequence : Z }.
Record AclDelta := mkAclDelta {
  ac_layer : Z; ac_ino : Z; ac_type : Z; ac_id : Z; ac_op : ValueOp; ac_value : option (list byte); ac_sequence : Z }.

Inductive ExtentKind := Data (slice_id slice_offset : Z) | Hole.
Record DataExtentDelta := mkExtent {
  ex_layer : Z; ex_ino : Z; ex_chunk : Z; ex_offset : Z; ex_length : Z; ex_kind : ExtentKind; ex_sequence : Z }.

#[export] Instance ExtentKind_eq_dec : EqDecision ExtentKind.
Proof. solve_decision. Defined.

#[export] Instance DataExtentDelta_eq_dec : EqDecision DataExtentDelta.
Proof. solve_decision. Defined.

(** What the messages of [CorruptMetadata] and [InvalidReadPlan] distinguish. *)
Inductive WorkspaceError :=
| LayerNotFound (id : Z) | LayerDepthLimit (depth : Z) | UnsupportedSchemaVersion (version : Z)
| EmptyChain | WrongHead | HeadState | ChainCycle | DepthMismatch | NotSealed | MissingRevision | ParentMismatch | RootHasParent
| EmptyName | DentryPayload | PutWithoutInode | PutWithoutType | ValuePayload
| ZeroLength | LogicalOverflow | SliceOverflow | DuplicateSequence | ClipUnderflow | MergedOverflow | EmittedZeroLength
| RangeReversed | ExtentsOverlap
| Busy | BudgetExceeded | IdentityMismatch | ReaderRowLimit
| Fenced | WorkspaceNotFound | InvalidInode | DuplicateDentry | InvalidXattr | XattrWithoutInode | AclTargetKind | AclUndecodable | ModeAclDisagree
| InvalidAcl | ExtentExceedsChunk | SequenceOverflow | OwnedOverflow | InvalidQuery.

(** ** The chain *)

Section validate.
Context (chain : list LayerRecord).

Fixpoint validate_loop (index : Z) (seen : gset Z) (layers : list LayerRecord) : result WorkspaceError unit :=
  match layers with
  | [] => Ok tt
  | layer :: rest =>
      if bool_decide (layer_id layer ∈ seen) then Err ChainCycle else
      if negb (schema_version layer =? WORKSPACE_SCHEMA_VERSION) then Err (UnsupportedSchemaVersion (schema_version layer)) else
      if negb (depth layer =? as_u32 (zlen chain - index)) then Err DepthMismatch else
      if (0 <? index) && negb (bool_decide (l_state layer = Sealed)) then Err NotSealed else
      if bool_decide (l_state layer = Sealed) &&
         (bool_decide (sealed_version layer = None) || bool_decide (delta_digest layer = None) || bool_decide (root_hash layer = None))
      then Err MissingRevision else
      let? _ :=
        match rest with
        | parent :: _ => if bool_decide (parent_layer_id layer = Some (layer_id parent)) then Ok tt else Err ParentMismatch
        | [] => if bool_decide (parent_layer_id layer = None) then Ok tt else Err RootHasParent
        end in
      validate_loop (index + 1) ({[layer_id layer]} ∪ seen) rest
  end.

Definition validate_layer_chain (expected_head : Z) : result WorkspaceError unit :=
  match chain with
  | [] => Err (LayerNotFound expected_head)
  | head :: _ =>
      if LAYER_CHAIN_HARD_LIMIT <? zlen chain then Err (LayerDepthLimit (as_u32 (zlen chain))) else
      if negb (layer_id head =? expected_head) then Err WrongHead else
      if negb (bool_decide (l_state head = Writable) || bool_decide (l_state head = Sealed)) then Err HeadState else
      validate_loop 0 ∅ chain
  end.

(** The check each resolution starts with. *)
Definition check_chain : result WorkspaceError unit :=
  match chain with [] => Err EmptyChain | head :: _ => validate_layer_chain (layer_id head) end.

End validate.

(** ** Resolution *)

Inductive Resolution (T : Type) := RPresent (value : T) | RMasked | RAbsent.
Arguments RPresent {T} value.
Arguments RMasked {T}.
Arguments RAbsent {T}.
Definition into_option {T} (r : Resolution T) : option T := match r with RPresent v => Some v | _ => None end.
Definition resolution_map {T U} (f : T -> U) (r : Resolution T) : Resolution U :=
  match r with RPresent v => RPresent (f v) | RMasked => RMasked | RAbsent => RAbsent end.

(** [max_by_key]: of equal maxima, the last. *)
Definition max_by_key {A} (key : A -> Z) (l : list A) : option A :=
  foldl (fun best x => match best with Some y => if key x <? key y then Some y else Some x | None => Some x end) None l.

(** The loop over the chain: the first layer with a winner decides. *)
Fixpoint first_winner {R T} (winner : Z -> result WorkspaceError (option R)) (finish : Z -> R -> result WorkspaceError (Resolution T))
    (chain : list LayerRecord) : result WorkspaceError (Resolution T) :=
  match chain with
  | [] => Ok RAbsent
  | layer :: rest =>
      let? w := winner (layer_id layer) in
      match w with Some row => finish (layer_id layer) row | None => first_winner winner finish rest end
  end.

Section resolve.
Context (chain : list LayerRecord).

(** *** Inodes *)

Definition resolve_inode_state (deltas : list InodeDelta) (ino : Z) : result WorkspaceError (Resolution InodeDelta) :=
  let? _ := check_chain chain in
  first_winner
    (fun layer => Ok (max_by_key in_sequence (filter (fun d => in_layer d = layer /\ in_ino d = ino) deltas)))
    (fun _ w => Ok match in_state w with Deleted => RMasked | Present => RPresent w end) chain.

Definition resolve_inode (deltas : list InodeDelta) (ino : Z) : result WorkspaceError (option InodeDelta) :=
  let? r := resolve_inode_state deltas ino in Ok (into_option r).

(** *** Extended attributes *)

Definition resolve_value (op : ValueOp) (value : option (list byte)) : result WorkspaceError (Resolution (list byte)) :=
  match op, value with
  | VPut, Some value => Ok (RPresent value)
  | VWhiteout, None => Ok RMasked
  | _, _ => Err ValuePayload
  end.

Definition resolve_xattr_state (deltas : list XattrDelta) (ino : Z) (name : list byte) : result WorkspaceError (Resolution (list byte)) :=
  let? _ := check_chain chain in
  first_winner
    (fun layer => Ok (max_by_key xa_sequence (filter (fun d => xa_layer d = layer /\ xa_ino d = ino /\ xa_name d = name) deltas)))
    (fun _ w => resolve_value (xa_op w) (xa_value w)) chain.

Definition resolve_xattr (deltas : list XattrDelta) (ino : Z) (name : list byte) : result WorkspaceError (option (list byte)) :=
  let? r := resolve_xattr_state deltas ino name in Ok (into_option r).

Definition resolve_acl_state (deltas : list AclDelta) (ino acl_type acl_id : Z) : result WorkspaceError (Resolution (list byte)) :=
  let? _ := check_chain chain in
  first_winner
    (fun layer => Ok (max_by_key ac_sequence (filter (fun d => ac_layer d = layer /\ ac_ino d = ino /\ ac_type d = acl_type /\ ac_id d = acl_id) deltas)))
    (fun _ w => resolve_value (ac_op w) (ac_value w)) chain.

Definition resolve_acl (deltas : list AclDelta) (ino acl_type acl_id : Z) : result WorkspaceError (option (list byte)) :=
  let? r := resolve_acl_state deltas ino acl_type acl_id in Ok (into_option r).

(** *** Directory entries *)

Definition dentry_validate (d : DentryDelta) : result WorkspaceError unit :=
  if bool_decide (de_name d = []) then Err EmptyName else
  match de_op d, de_ino d, de_type d with
  | DPut, Some _, Some _ => Ok tt
  | DWhiteout, None, None => Ok tt
  | _, _, _ => Err DentryPayload
  end.

Fixpoint newest_loop (winner : option DentryDelta) (deltas : list DentryDelta) : result WorkspaceError (option DentryDelta) :=
  match deltas with
  | [] => Ok winner
  | d :: deltas =>
      let? _ := dentry_validate d in
      newest_loop (match winner with Some w => if de_sequence w <? de_sequence d then Some d else Some w | None => Some d end) deltas
  end.
Definition newest_in_layer : list DentryDelta -> result WorkspaceError (option DentryDelta) := newest_loop None.

Record ResolvedDentry := mkResolved { rd_layer : Z; rd_parent : Z; rd_name : list byte; rd_ino : Z; rd_type : Z; rd_sequence : Z }.

Definition materialize (d : DentryDelta) : result WorkspaceError (Resolution ResolvedDentry) :=
  match de_op d with
  | DWhiteout => Ok RMasked
  | DPut =>
      let? ino := of_option PutWithoutInode (de_ino d) in
      let? t := of_option PutWithoutType (de_type d) in
      Ok (RPresent (mkResolved (de_layer d) (de_parent d) (de_name d) ino t (de_sequence d)))
  end.

Definition resolve_dentry_state (deltas : list DentryDelta) (parent : Z) (name : list byte) : result WorkspaceError (Resolution ResolvedDentry) :=
  let? _ := check_chain chain in
  first_winner
    (fun layer => newest_in_layer (filter (fun d => de_layer d = layer /\ de_parent d = parent /\ de_name d = name) deltas))
    (fun _ w => materialize w) chain.

Definition resolve_dentry (deltas : list DentryDelta) (parent : Z) (name : list byte) : result WorkspaceError (option ResolvedDentry) :=
  let? r := resolve_dentry_state deltas parent name in Ok (into_option r).

(** [resolve_directory_state]: the newest row of each name in a layer, and of
    those the first layer's. *)
Fixpoint layer_rows (rows : list (list byte * DentryDelta)) (deltas : list DentryDelta) : result WorkspaceError (list (list byte * DentryDelta)) :=
  match deltas with
  | [] => Ok rows
  | d :: deltas =>
      let? _ := dentry_validate d in
      let replace := match bt_get (de_name d) rows with Some current => de_sequence current <? de_sequence d | None => true end in
      layer_rows (if replace then bt_insert name_ltb (de_name d) d rows else rows) deltas
  end.

Fixpoint take_vacant (winners : list (list byte * Resolution ResolvedDentry)) (rows : list (list byte * DentryDelta)) :
    result WorkspaceError (list (list byte * Resolution ResolvedDentry)) :=
  match rows with
  | [] => Ok winners
  | (name, d) :: rows =>
      match bt_get name winners with
      | Some _ => take_vacant winners rows
      | None => let? r := materialize d in take_vacant (bt_insert name_ltb name r winners) rows
      end
  end.

Fixpoint directory_loop (deltas : list DentryDelta) (parent : Z) (winners : list (list byte * Resolution ResolvedDentry)) (layers : list LayerRecord) :
    result WorkspaceError (list (list byte * Resolution ResolvedDentry)) :=
  match layers with
  | [] => Ok winners
  | layer :: layers =>
      let? rows := layer_rows [] (filter (fun d => de_layer d = layer_id layer /\ de_parent d = parent) deltas) in
      let? winners := take_vacant winners rows in
      directory_loop deltas parent winners layers
  end.

Definition resolve_directory_state (deltas : list DentryDelta) (parent : Z) : result WorkspaceError (list (list byte * Resolution ResolvedDentry)) :=
  let? _ := check_chain chain in directory_loop deltas parent [] chain.

Definition resolve_directory (deltas : list DentryDelta) (parent : Z) : result WorkspaceError (list ResolvedDentry) :=
  let? winners := resolve_directory_state deltas parent in Ok (omap (fun '(_, r) => into_option r) winners).

(** *** Data extents *)

Record ResolvedExtent := mkRExtent { re_offset : Z; re_length : Z; re_kind : ExtentKind }.

Definition extent_validate (d : DataExtentDelta) : result WorkspaceError unit :=
  if ex_length d =? 0 then Err ZeroLength else
  let? _ := of_option LogicalOverflow (u64_checked_add (ex_offset d) (ex_length d)) in
  match ex_kind d with
  | Data _ slice_offset => let? _ := of_option SliceOverflow (u64_checked_add slice_offset (ex_length d)) in Ok tt
  | Hole => Ok tt
  end.

(** Validation of the chunk's rows, before any of them is used. *)
Fixpoint validate_extents (sequences : gset (Z * Z)) (deltas : list DataExtentDelta) : result WorkspaceError unit :=
  match deltas with
  | [] => Ok tt
  | d :: deltas =>
      let? _ := extent_validate d in
      if bool_decide ((ex_layer d, ex_sequence d) ∈ sequences) then Err DuplicateSequence
      else validate_extents ({[(ex_layer d, ex_sequence d)]} ∪ sequences) deltas
  end.

(** The part of an extent inside a gap. *)
Definition clip (extent : DataExtentDelta) (start stop : Z) : result WorkspaceError ResolvedExtent :=
  let? kind :=
    match ex_kind extent with
    | Data slice_id slice_offset =>
        let? clipped := (if start <? ex_offset extent then Err ClipUnderflow else Ok (start - ex_offset extent)) in
        let? offset := of_option SliceOverflow (u64_checked_add slice_offset clipped) in
        Ok (Data slice_id offset)
    | Hole => Ok Hole
    end in
  Ok (mkRExtent start (stop - start) kind).

(** The loop over the gaps. *)
Fixpoint carve_gaps (extent : DataExtentDelta) (extent_end : Z) (remaining : list (Z * Z)) (resolved : list ResolvedExtent) (uncovered : list (Z * Z)) :
    result WorkspaceError (list (Z * Z) * list ResolvedExtent) :=
  match uncovered with
  | [] => Ok (remaining, resolved)
  | (gap_start, gap_end) :: uncovered =>
      let start := Z.max gap_start (ex_offset extent) in
      let stop := Z.min gap_end extent_end in
      if stop <=? start then carve_gaps extent extent_end (remaining ++ [(gap_start, gap_end)]) resolved uncovered else
      let remaining := if gap_start <? start then remaining ++ [(gap_start, start)] else remaining in
      let remaining := if stop <? gap_end then remaining ++ [(stop, gap_end)] else remaining in
      let? piece := clip extent start stop in
      carve_gaps extent extent_end remaining (resolved ++ [piece]) uncovered
  end.

(** The loop over a layer's extents, newest first. *)
Fixpoint carve_layer (uncovered : list (Z * Z)) (resolved : list ResolvedExtent) (extents : list DataExtentDelta) :
    result WorkspaceError (list (Z * Z) * list ResolvedExtent) :=
  match extents with
  | [] => Ok (uncovered, resolved)
  | extent :: extents =>
      match uncovered with
      | [] => Ok (uncovered, resolved)
      | _ :: _ =>
          let? extent_end := of_option LogicalOverflow (u64_checked_add (ex_offset extent) (ex_length extent)) in
          let? (uncovered, resolved) := carve_gaps extent extent_end [] resolved uncovered in
          carve_layer uncovered resolved extents
      end
  end.

Definition of_chunk (ino chunk_index : Z) (d : DataExtentDelta) : Prop := ex_ino d = ino /\ ex_chunk d = chunk_index.
#[export] Instance of_chunk_dec ino chunk_index d : Decision (of_chunk ino chunk_index d) := _.

Definition layer_extents (deltas : list DataExtentDelta) (ino chunk_index layer : Z) : list DataExtentDelta :=
  sort_by_key (fun d => - ex_sequence d) (filter (fun d => ex_layer d = layer /\ of_chunk ino chunk_index d) deltas).

Fixpoint carve_chain (deltas : list DataExtentDelta) (ino chunk_index : Z) (uncovered : list (Z * Z)) (resolved : list ResolvedExtent)
    (layers : list LayerRecord) : result WorkspaceError (list (Z * Z) * list ResolvedExtent) :=
  match layers with
  | [] => Ok (uncovered, resolved)
  | layer :: layers =>
      let? (uncovered, resolved) := carve_layer uncovered resolved (layer_extents deltas ino chunk_index (layer_id layer)) in
      carve_chain deltas ino chunk_index uncovered resolved layers
  end.

Definition can_merge (previous extent : ResolvedExtent) : bool :=
  match re_kind previous, re_kind extent with
  | Hole, Hole => true
  | Data left_id left_offset, Data right_id right_offset =>
      (left_id =? right_id) && bool_decide (u64_checked_add left_offset (re_length previous) = Some right_offset)
  | _, _ => false
  end.

(** [previous] is the last merged extent so far, [merged] those before it. *)
Fixpoint merge_loop (merged : list ResolvedExtent) (previous : option ResolvedExtent) (extents : list ResolvedExtent) :
    result WorkspaceError (list ResolvedExtent) :=
  match extents with
  | [] => Ok (merged ++ option_list previous)
  | extent :: extents =>
      if re_length extent =? 0 then Err EmittedZeroLength else
      match previous with
      | None => merge_loop merged (Some extent) extents
      | Some p =>
          let? previous_end := of_option MergedOverflow (u64_checked_add (re_offset p) (re_length p)) in
          if re_offset extent <? previous_end then Err ExtentsOverlap else
          if (previous_end =? re_offset extent) && can_merge p extent then
            let? length := of_option MergedOverflow (u64_checked_add (re_length p) (re_length extent)) in
            merge_loop merged (Some (mkRExtent (re_offset p) length (re_kind p))) extents
          else merge_loop (merged ++ [p]) (Some extent) extents
      end
  end.
Definition merge_adjacent : list ResolvedExtent -> result WorkspaceError (list ResolvedExtent) := merge_loop [] None.

Definition resolve_extent_coverage (deltas : list DataExtentDelta) (ino chunk_index start stop : Z) :
    result WorkspaceError (list ResolvedExtent * list (Z * Z)) :=
  let? _ := check_chain chain in
  if stop <? start then Err RangeReversed else
  if start =? stop then Ok ([], []) else
  let ids : list Z := layer_id <$> chain in
  let? _ := validate_extents ∅ (filter (fun d => ex_layer d ∈ ids /\ of_chunk ino chunk_index d) deltas) in
  let? (uncovered, resolved) := carve_chain deltas ino chunk_index [(start, stop)] [] chain in
  let? covered := merge_adjacent (sort_by_key re_offset resolved) in
  Ok (covered, uncovered).

Definition resolve_extents (deltas : list DataExtentDelta) (ino chunk_index start stop : Z) : result WorkspaceError (list ResolvedExtent) :=
  let? (covered, absent) := resolve_extent_coverage deltas ino chunk_index start stop in
  let holes := (fun '(a, z) => mkRExtent a (z - a) Hole) <$> absent in
  merge_adjacent (sort_by_key re_offset (covered ++ holes)).

End resolve.

(** A base and a writable head over it. *)
Definition w_base : LayerRecord := mkLayer 1 None Sealed WORKSPACE_SCHEMA_VERSION (Some 3) (Some []) (Some []) 1 None 9 0 0.
Definition w_head : LayerRecord := mkLayer 2 (Some 1) Writable WORKSPACE_SCHEMA_VERSION None None None 2 (Some 1) 9 0 0.
