(* ===== verification/LayerExtents.v ===== *)
(** What the resolution of data extents returns: the newest extent of the first
    layer that has one, for every byte, in maximal runs. *)
From stdpp Require Import options.
From S2P Require Import Prelude Layers.

(** ** Runs *)

Definition rcov (p : ResolvedExtent) (x : Z) : bool := (re_offset p <=? x) && (x <? re_offset p + re_length p).
Definition kind_at (p : ResolvedExtent) (x : Z) : ExtentKind :=
  match re_kind p with Data id off => Data id (off + (x - re_offset p)) | Hole => Hole end.

(** How many runs, and how many gaps, hold a position. *)
Definition cnt (l : list ResolvedExtent) (x : Z) : nat := length (filter (fun p => rcov p x = true) l).
Definition gcov (g : Z * Z) (x : Z) : bool := (g.1 <=? x) && (x <? g.2).
Definition gcnt (l : list (Z * Z)) (x : Z) : nat := length (filter (fun g => gcov g x = true) l).

Lemma rcov_spec p x : rcov p x = true <-> re_offset p <= x < re_offset p + re_length p.
Proof. unfold rcov. lia. Qed.
Lemma gcov_spec g x : gcov g x = true <-> g.1 <= x < g.2.
Proof. unfold gcov. lia. Qed.

Lemma cnt_app l k x : cnt (l ++ k) x = (cnt l x + cnt k x)%nat.
Proof. unfold cnt. by rewrite filter_app, length_app. Qed.
Lemma gcnt_app l k x : gcnt (l ++ k) x = (gcnt l x + gcnt k x)%nat.
Proof. unfold gcnt. by rewrite filter_app, length_app. Qed.
Lemma cnt_cons p l x : cnt (p :: l) x = ((if rcov p x then 1 else 0) + cnt l x)%nat.
Proof. unfold cnt. rewrite filter_cons. destruct (rcov p x); [by rewrite decide_True|by rewrite decide_False]. Qed.
Lemma gcnt_cons g l x : gcnt (g :: l) x = ((if gcov g x then 1 else 0) + gcnt l x)%nat.
Proof. unfold gcnt. rewrite filter_cons. destruct (gcov g x); [by rewrite decide_True|by rewrite decide_False]. Qed.
#[export] Instance cnt_perm : Proper ((≡ₚ) ==> (=) ==> (=)) cnt.
Proof. intros l k Hp x y <-. unfold cnt. by rewrite Hp. Qed.

Lemma cnt_pos l x : (0 < cnt l x)%nat <-> exists p, p ∈ l /\ rcov p x = true.
Proof.
  induction l as [|p l IH]; [split; [unfold cnt; cbn; lia|by intros (? & ?%elem_of_nil & _)]|]. rewrite cnt_cons. setoid_rewrite elem_of_cons.
  destruct (rcov p x) eqn:E; [split; [intros _; eauto|lia]|]. cbn [Nat.add]. rewrite IH. split; [intros (y & ? & ?); eauto|]. intros (y & [->|?] & ?); [congruence|eauto].
Qed.
Lemma gcnt_pos l x : (0 < gcnt l x)%nat <-> exists g, g ∈ l /\ gcov g x = true.
Proof.
  induction l as [|p l IH]; [split; [unfold gcnt; cbn; lia|by intros (? & ?%elem_of_nil & _)]|]. rewrite gcnt_cons. setoid_rewrite elem_of_cons.
  destruct (gcov p x) eqn:E; [split; [intros _; eauto|lia]|]. cbn [Nat.add]. rewrite IH. split; [intros (y & ? & ?); eauto|]. intros (y & [->|?] & ?); [congruence|eauto].
Qed.

(** Runs from [start] to [stop], one after the other. *)
Fixpoint tiles (start : Z) (l : list ResolvedExtent) (stop : Z) : Prop :=
  match l with
  | [] => start = stop
  | p :: l => re_offset p = start /\ 0 < re_length p /\ tiles (start + re_length p) l stop
  end.

(** No two neighbours that touch could be one run. *)
Definition joined (p q : ResolvedExtent) : Prop := re_offset p + re_length p = re_offset q -> can_merge p q = false.
Fixpoint maximal (l : list ResolvedExtent) : Prop :=
  match l with p :: ((q :: _) as l) => joined p q /\ maximal l | _ => True end.

(** Disjoint, in order. *)
Definition in_order (l : list ResolvedExtent) : Prop :=
  Forall (fun p => 0 < re_length p) l /\ StronglySorted (fun p q => re_offset p + re_length p <= re_offset q) l.

(** Sorting disjoint runs puts them in order. *)
Lemma sort_in_order l : Forall (fun p => 0 < re_length p) l -> (forall x, (cnt l x <= 1)%nat) -> in_order (sort_by_key re_offset l).
Proof.
  intros Hl Hc. pose proof (sort_by_key_perm re_offset l) as Hp. split; [by rewrite Hp|]. pose proof (sort_by_key_sorted re_offset l) as Hs.
  assert (forall x, (cnt (sort_by_key re_offset l) x <= 1)%nat) as Hc' by (intros x; by rewrite Hp).
  assert (Forall (fun p => 0 < re_length p) (sort_by_key re_offset l)) as Hl' by by rewrite Hp.
  revert Hs Hc' Hl'. generalize (sort_by_key re_offset l). clear. induction l as [|p l IH]; intros Hs Hc Hl; [constructor|].
  apply StronglySorted_inv in Hs as [Hs Hf]. apply Forall_cons in Hl as [Hp Hl]. constructor.
  - apply IH; [done| |done]. intros x. specialize (Hc x). rewrite cnt_cons in Hc. lia.
  - rewrite Forall_forall in *. intros q Hq. specialize (Hf q Hq). specialize (Hl q Hq). destruct (decide (re_offset p + re_length p <= re_offset q)); [done|].
    specialize (Hc (re_offset q)). rewrite cnt_cons in Hc. assert (rcov p (re_offset q) = true) as E by (apply rcov_spec; lia). rewrite E in Hc.
    assert (0 < cnt l (re_offset q))%nat by (apply cnt_pos; exists q; split; [done|apply rcov_spec; lia]). lia.
Qed.

(** *** Merging *)

(** Two runs hold the same place at each position. *)
Definition same_places (l k : list ResolvedExtent) : Prop :=
  (forall x, cnt l x = cnt k x) /\
  (forall p x, p ∈ k -> rcov p x = true -> exists q, q ∈ l /\ rcov q x = true /\ kind_at q x = kind_at p x).

Lemma same_places_refl l : same_places l l.
Proof. split; [done|]. eauto. Qed.

Lemma same_places_trans l k m : same_places l k -> same_places k m -> same_places l m.
Proof.
  intros [C1 P1] [C2 P2]. split; [intros x; by rewrite C1|]. intros p x Hp Hx. destruct (P2 p x Hp Hx) as (q & Hq & Hqx & Eq).
  destruct (P1 q x Hq Hqx) as (r & Hr & Hrx & Er). exists r. split_and!; [done|done|congruence].
Qed.

Lemma same_places_cons p l k : same_places l k -> same_places (p :: l) (p :: k).
Proof.
  intros [C P]. split; [intros x; by rewrite !cnt_cons, C|]. intros q x [->|Hq]%elem_of_cons Hx; [exists p; split_and!; [by left|done..]|].
  destruct (P q x Hq Hx) as (r & ? & ? & ?). exists r. split_and!; [by right|done..].
Qed.

Definition join (p q : ResolvedExtent) : ResolvedExtent := mkRExtent (re_offset p) (re_length p + re_length q) (re_kind p).

Lemma join_kind p q x : can_merge p q = true -> re_offset p + re_length p = re_offset q -> kind_at (join p q) x = kind_at p x /\ kind_at (join p q) x = kind_at q x.
Proof.
  unfold can_merge, kind_at, join. cbn [re_offset re_length re_kind]. destruct (re_kind p), (re_kind q); try done.
  intros [->%Z.eqb_eq [-> _]%bool_decide_eq_true%u64_checked_add_Some]%andb_true_iff Ho. split; [done|]. f_equal. lia.
Qed.

Lemma join_places p q l : can_merge p q = true -> re_offset p + re_length p = re_offset q -> 0 < re_length p -> 0 < re_length q ->
  same_places (join p q :: l) (p :: q :: l).
Proof.
  intros Hm Ho Hp Hq. assert (forall x, rcov (join p q) x = rcov p x || rcov q x) as Hr by (intros x; unfold rcov; cbn; lia). split.
  - intros x. rewrite !cnt_cons, Hr. destruct (rcov p x) eqn:E1, (rcov q x) eqn:E2; try done. apply rcov_spec in E1, E2. lia.
  - intros r x Hin Hx. rewrite !elem_of_cons in Hin. destruct (join_kind p q x Hm Ho) as [K1 K2]. destruct Hin as [->|[->|Hin]].
    + exists (join p q). split_and!; [by left|by rewrite Hr, Hx|done].
    + exists (join p q). split_and!; [by left|by rewrite Hr, Hx, orb_true_r|done].
    + exists r. split_and!; [by right|done..].
Qed.

Definition bounded (p : ResolvedExtent) : Prop :=
  0 <= re_offset p /\ re_offset p + re_length p < u64_modulus /\
  match re_kind p with Data _ off => 0 <= off /\ off + re_length p < u64_modulus | Hole => True end.

Lemma join_bounded p q : can_merge p q = true -> re_offset p + re_length p = re_offset q -> bounded p -> bounded q -> bounded (join p q).
Proof.
  unfold can_merge, bounded, join. cbn [re_offset re_length re_kind]. destruct (re_kind p), (re_kind q); try done; [|lia].
  intros [_ [-> _]%bool_decide_eq_true%u64_checked_add_Some]%andb_true_iff. lia.
Qed.

Lemma in_order_cons p l : in_order (p :: l) <-> 0 < re_length p /\ Forall (fun q => re_offset p + re_length p <= re_offset q) l /\ in_order l.
Proof. unfold in_order. rewrite Forall_cons. split; [intros [[? ?] [? ?]%StronglySorted_inv]; done|intros (? & ? & ? & ?); split; [done|by constructor]]. Qed.

Lemma merge_some extents : forall merged p, in_order (p :: extents) -> Forall bounded (p :: extents) ->
  exists h tl, merge_loop merged (Some p) extents = Ok (merged ++ h :: tl) /\ re_offset h = re_offset p /\ re_kind h = re_kind p /\
    in_order (h :: tl) /\ maximal (h :: tl) /\ Forall bounded (h :: tl) /\ same_places (h :: tl) (p :: extents).
Proof.
  induction extents as [|e extents IH]; intros merged p Ho Hb; [exists p, []; cbn; split_and!; try done; apply same_places_refl|].
  cbn [merge_loop]. apply in_order_cons in Ho as (Hp & Hpe & Ho). pose proof Ho as (He & Hee & Ho')%in_order_cons. apply Forall_cons in Hpe as [Hpe Hpr].
  apply Forall_cons in Hb as [Hbp Hb]. pose proof Hb as [Hbe Hb']%Forall_cons. pose proof Hbp as (Hp0 & Hpb & _). pose proof Hbe as (He0 & Heb & _).
  assert (u64_checked_add (re_offset p) (re_length p) = Some (re_offset p + re_length p)) as -> by by apply u64_checked_add_Some. cbn [of_option result_bind].
  rewrite (proj2 (Z.eqb_neq (re_length e) 0)), (proj2 (Z.ltb_ge _ _)) by lia.
  destruct ((re_offset p + re_length p =? re_offset e) && can_merge p e) eqn:Hm.
  - apply andb_true_iff in Hm as [Hoe%Z.eqb_eq Hm]. assert (u64_checked_add (re_length p) (re_length e) = Some (re_length p + re_length e)) as ->
      by (apply u64_checked_add_Some; lia). cbn [of_option result_bind]. fold (join p e).
    destruct (IH merged (join p e)) as (h & tl & -> & Eo & Ek & H1 & H2 & H3' & H3).
    + apply in_order_cons. split_and!; [cbn; lia| |done]. eapply Forall_impl; [exact Hee|]. cbn. intros q. lia.
    + constructor; [by apply join_bounded|done].
    + exists h, tl. split_and!; try done. eapply same_places_trans; [exact H3|]. by apply join_places.
  - destruct (IH (merged ++ [p]) e Ho Hb) as (h & tl & -> & Eo & Ek & H1 & H2 & H3' & H3). exists p, (h :: tl). rewrite <-app_assoc. cbn [app]. split_and!; try done.
    + apply in_order_cons. split_and!; [done| |done]. apply in_order_cons in H1 as (Hh & Ht & _). constructor; [lia|]. eapply Forall_impl; [exact Ht|]. cbn. intros q. lia.
    + split; [|done]. intros E. unfold can_merge in *. rewrite Ek. rewrite Eo in E. rewrite (proj2 (Z.eqb_eq _ _) E) in Hm. done.
    + by constructor.
    + by apply same_places_cons.
Qed.

Lemma merge_run_ok l : in_order l -> Forall bounded l -> exists out, merge_adjacent l = Ok out /\ in_order out /\ maximal out /\ Forall bounded out /\ same_places out l.
Proof.
  intros Ho Hb. unfold merge_adjacent. destruct l as [|p l]; [exists []; split_and!; try done; apply same_places_refl|]. cbn [merge_loop].
  pose proof Ho as (Hp & _)%in_order_cons. rewrite (proj2 (Z.eqb_neq (re_length p) 0)) by lia.
  destruct (merge_some l [] p Ho Hb) as (h & tl & -> & _ & _ & H1 & H2 & H3 & H4). by exists (h :: tl).
Qed.

(** *** Tilings *)

(** Runs in order that hold each position of a range, and no other, tile it. *)
Lemma in_order_tiles start stop l : start <= stop -> in_order l -> (forall x, cnt l x = if (start <=? x) && (x <? stop) then 1%nat else 0%nat) -> tiles start l stop.
Proof.
  revert start. induction l as [|p l IH]; intros start Hs Ho Hc.
  { destruct (decide (start = stop)); [done|]. specialize (Hc start). rewrite (proj2 (Z.leb_le _ _)), (proj2 (Z.ltb_lt _ _)) in Hc by lia. done. }
  apply in_order_cons in Ho as (Hp & Hl & Ho). cbn.
  assert (forall x, x < re_offset p + re_length p -> cnt l x = 0%nat) as Hlow.
  { intros x Hx. destruct (cnt l x) eqn:E; [done|]. assert (0 < cnt l x)%nat as (q & Hq & Hqx%rcov_spec)%cnt_pos by lia. rewrite Forall_forall in Hl. specialize (Hl q Hq). lia. }
  assert (start <= re_offset p < stop) as Hin.
  { pose proof (Hc (re_offset p)) as H. rewrite cnt_cons in H. assert (rcov p (re_offset p) = true) as E by (apply rcov_spec; lia). rewrite E in H.
    destruct (start <=? re_offset p) eqn:E1, (re_offset p <? stop) eqn:E2; cbn in H; lia. }
  assert (re_offset p = start) as Eo.
  { destruct (decide (re_offset p = start)); [done|]. pose proof (Hc start) as H. rewrite cnt_cons, (proj2 (Z.leb_le start start)), (proj2 (Z.ltb_lt _ _)) in H by lia.
    rewrite Hlow in H by lia. destruct (rcov p start) eqn:E; [apply rcov_spec in E; lia|done]. }
  assert (re_offset p + re_length p <= stop) as Hle.
  { destruct (decide (re_offset p + re_length p <= stop)); [done|]. pose proof (Hc stop) as H. rewrite cnt_cons, (proj2 (Z.ltb_ge stop stop)), andb_false_r in H by lia.
    assert (rcov p stop = true) as E by (apply rcov_spec; lia). by rewrite E in H. }
  split_and!; [done|done|]. rewrite <-Eo. apply IH; [done|done|]. intros x. pose proof (Hc x) as H. rewrite cnt_cons in H.
  destruct (decide (x < re_offset p + re_length p)) as [Hlt|Hge]; [rewrite Hlow by done; by rewrite (proj2 (Z.leb_gt _ _))|].
  assert (rcov p x = false) as E by (apply not_true_is_false; rewrite rcov_spec; lia). rewrite E in H. cbn [Nat.add] in H. rewrite H.
  by rewrite !(proj2 (Z.leb_le _ _)) by lia.
Qed.

Lemma tiles_bound start l stop : tiles start l stop -> start <= stop /\ Forall (fun p => start <= re_offset p /\ re_offset p + re_length p <= stop) l.
Proof.
  revert start. induction l as [|p l IH]; intros start Ht; cbn in Ht; [split; [lia|done]|]. destruct Ht as (Ho & Hl & Ht). destruct (IH _ Ht) as [H1 H2].
  split; [lia|]. constructor; [lia|]. eapply Forall_impl; [exact H2|]. cbn. lia.
Qed.

(** Maximal tilings with the same places are the same. *)
Lemma kind_at_start p : kind_at p (re_offset p) = re_kind p.
Proof. unfold kind_at. destruct (re_kind p); [|done]. f_equal. lia. Qed.

Lemma longer_merges p p2 q : re_offset p = re_offset q -> re_kind p = re_kind q -> re_length p < re_length q -> 0 < re_length p -> bounded q ->
  re_offset p2 = re_offset p + re_length p -> kind_at p2 (re_offset p2) = kind_at q (re_offset p2) -> can_merge p p2 = true.
Proof.
  intros Ho Hk Hl Hp (_ & _ & Hb) Ho2 Hk2. rewrite kind_at_start in Hk2. unfold can_merge, kind_at in *. rewrite Hk, Hk2. destruct (re_kind q) as [id off|]; [|done].
  rewrite Z.eqb_refl. apply bool_decide_eq_true, u64_checked_add_Some. lia.
Qed.

Lemma maximal_tiles_unique stop l : forall start k, tiles start l stop -> tiles start k stop -> maximal l -> maximal k -> Forall bounded l -> Forall bounded k ->
  (forall p q x, p ∈ l -> q ∈ k -> rcov p x = true -> rcov q x = true -> kind_at p x = kind_at q x) -> l = k.
Proof.
  induction l as [|p l IH]; intros start k Hl Hk Ml Mk Bl Bk Hs; cbn in Hl.
  { destruct k as [|q k]; [done|]. cbn in Hk. destruct Hk as (_ & Hq & [? _]%tiles_bound). lia. }
  destruct k as [|q k]; cbn in Hk; [destruct Hl as (_ & Hp & [? _]%tiles_bound); lia|].
  destruct Hl as (Op & Lp & Tp), Hk as (Oq & Lq & Tq). apply Forall_cons in Bl as [Bp Bl], Bk as [Bq Bk].
  assert (re_kind p = re_kind q) as Hk.
  { rewrite <-(kind_at_start p), <-(kind_at_start q), Op, Oq. apply Hs; [by left|by left|apply rcov_spec; lia|apply rcov_spec; lia]. }
  assert (forall p q l k, tiles (start + re_length p) l stop -> tiles (start + re_length q) k stop -> re_offset p = start -> re_offset q = start -> re_kind p = re_kind q ->
    0 < re_length p -> bounded q -> maximal (p :: l) -> (forall p' x, p' ∈ l -> rcov p' x = true -> rcov q x = true -> kind_at p' x = kind_at q x) -> ~ re_length p < re_length q) as Hlen.
  { clear. intros p q l k Tp Tq Op Oq Hk Lp Bq Ml Hs Hlt. destruct l as [|p2 l]; cbn in Tp; [apply tiles_bound in Tq as [? _]; lia|]. destruct Tp as (O2 & L2 & _), Ml as [Hj _].
    assert (can_merge p p2 = true) as E; [|rewrite Hj in E by lia; done]. apply (longer_merges p p2 q); try done; try lia.
    apply Hs; [by left|apply rcov_spec; lia|apply rcov_spec; lia]. }
  assert (re_length p = re_length q) as El.
  { pose proof (Hlen p q l k Tp Tq Op Oq Hk Lp Bq Ml) as H1. pose proof (Hlen q p k l Tq Tp Oq Op (eq_sym Hk) Lq Bp Mk) as H2.
    assert (~ re_length p < re_length q) by (apply H1; intros p' x Hp' Hx Hq; apply Hs; [by right|by left|done|done]).
    assert (~ re_length q < re_length p) by (apply H2; intros q' x Hq' Hx Hp; symmetry; apply Hs; [by left|by right|done|done]). lia. }
  assert (p = q) as -> by (destruct p, q; cbn in *; congruence). f_equal. eapply (IH (start + re_length q) k); try done; [by destruct l as [|? ?]; [|apply Ml]|by destruct k as [|? ?]; [|apply Mk]|].
  intros p' q' x Hp' Hq'. apply Hs; by right.
Qed.

Lemma cnt_unique l x p q : (cnt l x <= 1)%nat -> p ∈ l -> q ∈ l -> rcov p x = true -> rcov q x = true -> p = q.
Proof.
  induction l as [|r l IH]; intros Hc Hp Hq Ep Eq; [by apply elem_of_nil in Hp|]. rewrite cnt_cons in Hc.
  apply elem_of_cons in Hp as [->|Hp], Hq as [->|Hq]; [done|..|apply IH; [lia|done..]]; [rewrite Ep in Hc|rewrite Eq in Hc].
  - assert (0 < cnt l x)%nat by (apply cnt_pos; eauto). lia.
  - assert (0 < cnt l x)%nat by (apply cnt_pos; eauto). lia.
Qed.

(** ** Carving *)

Definition ecov (x : Z) (d : DataExtentDelta) : bool := (ex_offset d <=? x) && (x <? ex_offset d + ex_length d).
(** Where an extent puts a position. *)
Definition place (d : DataExtentDelta) (x : Z) : ExtentKind :=
  match ex_kind d with Data id off => Data id (off + (x - ex_offset d)) | Hole => Hole end.
(** The first of a list, in the order of precedence, that holds a position. *)
Definition top_at (l : list DataExtentDelta) (x : Z) : option DataExtentDelta := List.find (ecov x) l.

Definition row_ok (d : DataExtentDelta) : Prop :=
  0 <= ex_offset d /\ 0 < ex_length d /\ ex_offset d + ex_length d < u64_modulus /\
  match ex_kind d with Data _ off => 0 <= off /\ off + ex_length d < u64_modulus | Hole => True end.

Lemma top_at_app l k x : top_at (l ++ k) x = match top_at l x with Some d => Some d | None => top_at k x end.
Proof. unfold top_at. induction l as [|d l IH]; [done|]. cbn. by destruct (ecov x d). Qed.

Definition gap_ok (g : Z * Z) : Prop := 0 <= g.1 < g.2 /\ g.2 < u64_modulus.
Definition run_ok (p : ResolvedExtent) : Prop := 0 < re_length p /\ bounded p.

Lemma clip_ok d a z : row_ok d -> ex_offset d <= a -> a < z -> z <= ex_offset d + ex_length d ->
  exists p, clip d a z = Ok p /\ re_offset p = a /\ re_length p = z - a /\ run_ok p /\ forall x, kind_at p x = place d x.
Proof.
  intros (H1 & H2 & H3 & H4) Ha Haz Hz. unfold clip, place, run_ok, bounded, kind_at. destruct (ex_kind d) as [id off|]; cbn [result_bind].
  - rewrite (proj2 (Z.ltb_ge a (ex_offset d))) by done. cbn [result_bind]. assert (u64_checked_add off (a - ex_offset d) = Some (off + (a - ex_offset d))) as ->
      by (apply u64_checked_add_Some; lia). cbn. eexists. split; [done|]. cbn. split_and!; try lia. intros x. f_equal. lia.
  - eexists. split; [done|]. cbn. split_and!; try lia; done.
Qed.

Lemma carve_gaps_ok d : row_ok d -> forall uncovered remaining resolved, Forall gap_ok uncovered ->
  exists rem res, carve_gaps d (ex_offset d + ex_length d) remaining resolved uncovered = Ok (remaining ++ rem, resolved ++ res) /\
    (forall x, (gcnt rem x + cnt res x = gcnt uncovered x)%nat) /\
    (forall g x, g ∈ rem -> gcov g x = true -> ecov x d = false) /\
    (forall p x, p ∈ res -> rcov p x = true -> ecov x d = true /\ kind_at p x = place d x) /\ Forall gap_ok rem /\ Forall run_ok res.
Proof.
  intros Hd. induction uncovered as [|[a z] uncovered IH]; intros remaining resolved Hu.
  { exists [], []. rewrite !app_nil_r. split_and!; try done; by intros ? ? ?%elem_of_nil. }
  apply Forall_cons in Hu as [[Haz Hz] Hu]. cbn [fst snd] in *. cbn [carve_gaps]. set (s := Z.max a (ex_offset d)). set (e := Z.min z (ex_offset d + ex_length d)).
  destruct (Z.leb_spec e s) as [Hle|Hlt].
  - destruct (IH (remaining ++ [(a, z)]) resolved Hu) as (rem & res & -> & H1 & H2 & H3 & H4 & H5). exists ((a, z) :: rem), res. rewrite <-app_assoc. split_and!; try done.
    + intros x. rewrite !gcnt_cons, <-H1. lia.
    + intros g x [->|Hg]%elem_of_cons Hx; [|by apply (H2 g)]. apply gcov_spec in Hx. unfold ecov. cbn in Hx. lia.
    + by constructor.
  - destruct (clip_ok d s e Hd) as (p & -> & Eo & El & Hp & Hk); [lia|lia|lia|]. cbn [result_bind].
    set (parts := (if a <? s then [(a, s)] else []) ++ (if e <? z then [(e, z)] else [])).
    assert ((if e <? z then (if a <? s then remaining ++ [(a, s)] else remaining) ++ [(e, z)] else if a <? s then remaining ++ [(a, s)] else remaining) = remaining ++ parts) as ->
      by (unfold parts; destruct (a <? s), (e <? z); rewrite <-?app_assoc, ?app_nil_r; done).
    destruct (IH (remaining ++ parts) (resolved ++ [p]) Hu) as (rem & res & -> & H1 & H2 & H3 & H4 & H5). exists (parts ++ rem), (p :: res).
    rewrite <-!app_assoc. assert (forall x, (gcnt parts x + (if rcov p x then 1 else 0) = if gcov (a, z) x then 1 else 0)%nat) as Hc.
    { intros x. unfold parts. rewrite gcnt_app. unfold rcov, gcov. cbn [fst snd]. rewrite Eo, El. destruct (Z.ltb_spec a s), (Z.ltb_spec e z); unfold gcnt; rewrite ?filter_cons, ?filter_nil; unfold gcov; cbn [fst snd];
        repeat case_decide; cbn [length Nat.add]; destruct ((s <=? x) && (x <? s + (e - s))) eqn:E1, ((a <=? x) && (x <? z)) eqn:E2; lia. }
    split_and!; try done.
    + intros x. rewrite gcnt_app, cnt_cons, gcnt_cons, <-H1, <-(Hc x). lia.
    + intros g x [Hg|Hg]%elem_of_app Hx; [|by apply (H2 g)]. apply gcov_spec in Hx. unfold ecov. unfold parts in Hg. apply elem_of_app in Hg as [Hg|Hg];
        [destruct (Z.ltb_spec a s)|destruct (Z.ltb_spec e z)]; (apply elem_of_nil in Hg || apply list_elem_of_singleton in Hg); subst; cbn in Hx; lia || done.
    + intros q x [->|Hq]%elem_of_cons Hx; [|by apply H3]. split; [|apply Hk]. apply rcov_spec in Hx. unfold ecov. lia.
    + apply Forall_app. split; [|done]. unfold parts. destruct (Z.ltb_spec a s), (Z.ltb_spec e z); repeat constructor; cbn; lia.
    + by constructor.
Qed.

Section carve.
Context (start stop : Z) (range : 0 <= start < stop) (small : stop < u64_modulus).
#[local] Set Default Proof Using "range small".

(** After the extents of [seen]: each position of the range is in one gap or one
    run, and a run holds what the first extent over it says. *)
Record carved (seen : list DataExtentDelta) (uncovered : list (Z * Z)) (resolved : list ResolvedExtent) : Prop := {
  cv_count : forall x, (gcnt uncovered x + cnt resolved x = if (start <=? x)%Z && (x <? stop)%Z then 1 else 0)%nat;
  cv_gap : forall g x, g ∈ uncovered -> gcov g x = true -> top_at seen x = None;
  cv_run : forall p x, p ∈ resolved -> rcov p x = true -> exists d, top_at seen x = Some d /\ kind_at p x = place d x;
  cv_gaps : Forall gap_ok uncovered;
  cv_runs : Forall run_ok resolved }.

Lemma carved_start : carved [] [(start, stop)] [].
Proof.
  constructor; [|done|by intros ? ? ?%elem_of_nil|repeat constructor; cbn; lia|done]. intros x. rewrite gcnt_cons. unfold gcov. cbn. by destruct ((start <=? x) && (x <? stop)).
Qed.

Lemma carved_step seen d uncovered resolved : row_ok d -> carved seen uncovered resolved ->
  exists u r, carve_gaps d (ex_offset d + ex_length d) [] resolved uncovered = Ok (u, r) /\ carved (seen ++ [d]) u r.
Proof.
  intros Hd [C1 C2 C3 C4 C5]. destruct (carve_gaps_ok d Hd uncovered [] resolved C4) as (rem & res & -> & H1 & H2 & H3 & H4 & H5). eexists _, _. split; [done|].
  assert (forall x, (0 < gcnt uncovered x)%nat -> top_at seen x = None) as Hg by (intros x (g & ? & ?)%gcnt_pos; eauto). cbn [app].
  assert (forall x, top_at [d] x = if ecov x d then Some d else None) as Hd1 by (intros x; unfold top_at; cbn; by destruct (ecov x d)). constructor.
  - intros x. rewrite cnt_app, <-C1, <-H1. lia.
  - intros g x Hin Hx. rewrite top_at_app, Hd1, (H2 g x Hin Hx), Hg; [done|]. rewrite <-H1. assert (0 < gcnt rem x)%nat by (apply gcnt_pos; eauto). lia.
  - intros p x [Hp|Hp]%elem_of_app Hx; rewrite top_at_app.
    + destruct (C3 p x Hp Hx) as (d' & -> & ?). eauto.
    + destruct (H3 p x Hp Hx) as [E1 E2]. rewrite Hd1, E1, Hg; [eauto|]. rewrite <-H1. assert (0 < cnt res x)%nat by (apply cnt_pos; eauto). lia.
  - done.
  - by apply Forall_app.
Qed.

(** Nothing is left to cover. *)
Lemma carved_done seen more resolved : carved seen [] resolved -> carved (seen ++ more) [] resolved.
Proof.
  intros [C1 C2 C3 C4 C5]. constructor; [done|by intros ? ? ?%elem_of_nil| |done|done]. intros p x Hp Hx. rewrite top_at_app. destruct (C3 p x Hp Hx) as (d & -> & ?). eauto.
Qed.

Lemma carve_layer_ok extents : forall seen uncovered resolved, Forall row_ok extents -> carved seen uncovered resolved ->
  exists u r, carve_layer uncovered resolved extents = Ok (u, r) /\ carved (seen ++ extents) u r.
Proof.
  induction extents as [|d extents IH]; intros seen uncovered resolved He Hc; cbn [carve_layer]; [rewrite app_nil_r; eauto|].
  apply Forall_cons in He as [Hd He]. destruct uncovered as [|g uncovered]; [eexists _, _; split; [done|by apply carved_done]|].
  assert (u64_checked_add (ex_offset d) (ex_length d) = Some (ex_offset d + ex_length d)) as -> by (apply u64_checked_add_Some; split; [done|apply Hd]). cbn [of_option result_bind].
  destruct (carved_step seen d (g :: uncovered) resolved Hd Hc) as (u & r & -> & Hc'). cbn [result_bind]. rewrite (app_assoc seen [d] extents : seen ++ d :: extents = _). by apply IH.
Qed.

(** The rows of a chunk in the order of precedence. *)
Definition ranked (deltas : list DataExtentDelta) (ino chunk_index : Z) (layers : list LayerRecord) : list DataExtentDelta :=
  concat ((fun layer => layer_extents deltas ino chunk_index (layer_id layer)) <$> layers).

Lemma carve_chain_ok deltas ino ci layers : forall seen uncovered resolved, Forall row_ok (ranked deltas ino ci layers) -> carved seen uncovered resolved ->
  exists u r, carve_chain deltas ino ci uncovered resolved layers = Ok (u, r) /\ carved (seen ++ ranked deltas ino ci layers) u r.
Proof.
  induction layers as [|layer layers IH]; intros seen uncovered resolved Hr Hc; cbn [carve_chain]; [rewrite app_nil_r; eauto|].
  unfold ranked in *. cbn [fmap list_fmap concat] in *. apply Forall_app in Hr as [Hl Hr].
  destruct (carve_layer_ok _ seen uncovered resolved Hl Hc) as (u & r & -> & Hc'). cbn [result_bind]. rewrite app_assoc. by apply IH.
Qed.

Lemma holes_count (u : list (Z * Z)) x : cnt ((fun '(a, z) => mkRExtent a (z - a) Hole) <$> u) x = gcnt u x.
Proof using Type.
  induction u as [|[a z] u IH]; [done|]. rewrite fmap_cons, cnt_cons, gcnt_cons, IH. unfold rcov, gcov. cbn [re_offset re_length fst snd]. f_equal.
  replace (a + (z - a)) with z by lia. done.
Qed.

(** The runs of a range from what was carved. *)
Lemma carved_runs seen u r : carved seen u r ->
  exists covered out, merge_adjacent (sort_by_key re_offset r) = Ok covered /\
    merge_adjacent (sort_by_key re_offset (covered ++ ((fun '(a, z) => mkRExtent a (z - a) Hole) <$> u))) = Ok out /\
    tiles start out stop /\ maximal out /\ Forall bounded out /\
    forall p x, p ∈ out -> rcov p x = true -> kind_at p x = match top_at seen x with Some d => place d x | None => Hole end.
Proof.
  intros [C1 C2 C3 C4 C5]. set (holes := (fun '(a, z) => mkRExtent a (z - a) Hole) <$> u).
  assert (forall l, Forall run_ok l -> Forall (fun p => 0 < re_length p) l /\ Forall bounded l) as Hsplit by (intros l Hl; split; (eapply Forall_impl; [exact Hl|]); intros p [? ?]; done).
  destruct (Hsplit r C5) as [R1 R2]. destruct (merge_run_ok (sort_by_key re_offset r)) as (covered & E1 & O1 & M1 & B1 & S1).
  { apply sort_in_order; [done|]. intros x. specialize (C1 x). destruct (_ && _); lia. }
  { by rewrite sort_by_key_perm. }
  assert (forall x, cnt covered x = cnt r x) as Hcc by (intros x; rewrite (proj1 S1 x); by rewrite sort_by_key_perm).
  assert (Forall bounded holes /\ Forall (fun p => 0 < re_length p) holes) as [BH LH].
  { unfold holes. split; apply Forall_fmap; (eapply Forall_impl; [exact C4|]); intros [a z] [? ?]; unfold compose, bounded; cbn in *; lia. }
  assert (forall x, cnt (covered ++ holes) x = if (start <=? x) && (x <? stop) then 1%nat else 0%nat) as Htot.
  { intros x. rewrite cnt_app, Hcc. unfold holes. rewrite holes_count. specialize (C1 x). lia. }
  destruct (merge_run_ok (sort_by_key re_offset (covered ++ holes))) as (out & E2 & O2 & M2 & B2 & S2).
  { apply sort_in_order; [apply Forall_app; split; [apply O1|done]|]. intros x. rewrite Htot. destruct (_ && _); lia. }
  { rewrite sort_by_key_perm. by apply Forall_app. }
  assert (forall x, cnt out x = if (start <=? x) && (x <? stop) then 1%nat else 0%nat) as Hout by (intros x; rewrite (proj1 S2 x), sort_by_key_perm; apply Htot).
  exists covered, out. split_and!; try done; [apply in_order_tiles; [lia|done|done]|].
  intros p x Hp Hx. assert ((cnt out x <= 1)%nat /\ (0 < cnt out x)%nat) as [Hle Hpos].
  { split; [rewrite Hout; destruct (_ && _); lia|]. apply cnt_pos. eauto. }
  assert (forall q, q ∈ covered ++ holes -> rcov q x = true -> kind_at p x = kind_at q x) as Hq.
  { intros q Hin Hqx. destruct (proj2 S2 q x) as (q' & Hq' & Hqx' & <-); [by rewrite sort_by_key_perm|done|]. by rewrite (cnt_unique out x p q'). }
  rewrite Hout in Hpos. specialize (C1 x). destruct (_ && _); [|lia]. destruct (decide (0 < cnt r x)%nat) as [(q & Hin & Hqx)%cnt_pos|Hz].
  - destruct (C3 q x Hin Hqx) as (d & -> & <-). destruct (proj2 S1 q x) as (q' & Hq' & Hqx' & <-); [by rewrite sort_by_key_perm|done|]. apply Hq; [apply elem_of_app; by left|done].
  - assert (0 < gcnt u x)%nat as ([a z] & Hg & Hgx)%gcnt_pos by lia. rewrite (C2 (a, z) x Hg Hgx). rewrite (Hq (mkRExtent a (z - a) Hole)); [done| |].
    + apply elem_of_app. right. apply list_elem_of_fmap. by exists (a, z).
    + apply gcov_spec in Hgx. apply rcov_spec. cbn in *. lia.
Qed.

End carve.

(** ** Precedence *)

Definition unsigned (d : DataExtentDelta) : Prop :=
  0 <= ex_offset d /\ 0 <= ex_length d /\ match ex_kind d with Data _ off => 0 <= off | Hole => True end.

Lemma valid_row_ok d : unsigned d -> extent_validate d = Ok tt -> row_ok d.
Proof.
  intros (H1 & H2 & H3). unfold extent_validate. destruct (Z.eqb_spec (ex_length d) 0); [done|].
  destruct (u64_checked_add (ex_offset d) (ex_length d)) as [n1|] eqn:E1; [|done]. apply u64_checked_add_Some in E1 as [_ E1]. cbn [of_option result_bind].
  unfold row_ok. destruct (ex_kind d) as [id off|]; [|intros _; lia].
  destruct (u64_checked_add off (ex_length d)) as [n2|] eqn:E2; [|done]. apply u64_checked_add_Some in E2 as [_ E2]. intros _. lia.
Qed.

Section chain.
Context (chain : list LayerRecord) (deltas : list DataExtentDelta) (ino ci : Z).

Definition chain_ids : list Z := layer_id <$> chain.
(** The rows of the chunk in the layers of the chain. *)
Definition chunk_rows : list DataExtentDelta := filter (fun d => ex_layer d ∈ chain_ids /\ of_chunk ino ci d) deltas.

(** A layer nearer to the head comes first, in a layer the higher sequence. *)
Definition over (d e : DataExtentDelta) : Prop :=
  exists i j, chain_ids !! i = Some (ex_layer d) /\ chain_ids !! j = Some (ex_layer e) /\ ((i < j)%nat \/ (i = j /\ ex_sequence e <= ex_sequence d)).
Definition wins (d : DataExtentDelta) (x : Z) : Prop :=
  d ∈ chunk_rows /\ ecov x d = true /\ forall e, e ∈ chunk_rows -> ecov x e = true -> over d e.

Lemma elem_of_ranked d : d ∈ ranked deltas ino ci chain <-> d ∈ chunk_rows.
Proof.
  unfold ranked, chunk_rows, chain_ids. rewrite list_elem_of_filter, list_elem_of_In, in_concat, !list_elem_of_fmap. setoid_rewrite <-list_elem_of_In. setoid_rewrite list_elem_of_fmap. split.
  - intros (l & (layer & -> & Hl) & Hd). unfold layer_extents in Hd. rewrite sort_by_key_perm, list_elem_of_filter in Hd. destruct Hd as [[El Hc] Hd]. split; [|done]. split; [by exists layer|done].
  - intros [[(layer & El & Hl) Hc] Hd]. exists (layer_extents deltas ino ci (layer_id layer)). split; [eauto|]. unfold layer_extents. rewrite sort_by_key_perm, list_elem_of_filter. done.
Qed.

Lemma ranked_sorted : StronglySorted over (ranked deltas ino ci chain).
Proof.
  assert (forall layers (i : nat), (forall j layer, layers !! j = Some layer -> chain_ids !! (i + j)%nat = Some (layer_id layer)) ->
    StronglySorted over (ranked deltas ino ci layers) /\ Forall (fun d => exists j, (i <= j)%nat /\ chain_ids !! j = Some (ex_layer d)) (ranked deltas ino ci layers)) as H.
  { induction layers as [|layer layers IH]; intros i Hi; [split; constructor|]. unfold ranked. cbn [fmap list_fmap concat]. change (concat _) with (ranked deltas ino ci layers).
    destruct (IH (S i)) as [Hs Hf]. { intros j l Hj. specialize (Hi (S j) l Hj). by rewrite Nat.add_succ_r in Hi. }
    pose proof (Hi 0%nat layer eq_refl) as H0. rewrite Nat.add_0_r in H0.
    assert (Forall (fun d => ex_layer d = layer_id layer) (layer_extents deltas ino ci (layer_id layer))) as Hl.
    { unfold layer_extents. rewrite sort_by_key_perm. apply Forall_forall. intros d [[? _] _]%list_elem_of_filter. done. }
    split.
    - apply StronglySorted_app. split_and!; [| |done].
      + intros d e Hd He. rewrite Forall_forall in Hf, Hl. destruct (Hf e He) as (j & ? & Hj). exists i, j. rewrite (Hl d Hd). split_and!; [done|done|left; lia].
      + pose proof (sort_by_key_sorted (fun d => - ex_sequence d) (filter (fun d => ex_layer d = layer_id layer /\ of_chunk ino ci d) deltas)) as Hsort.
        fold (layer_extents deltas ino ci (layer_id layer)) in Hsort. revert Hl Hsort. generalize (layer_extents deltas ino ci (layer_id layer)). intros l Hl Hsort.
        induction Hsort as [|d l _ IHs Hd]; [constructor|]. apply Forall_cons in Hl as [El Hl]. constructor; [by apply IHs|]. rewrite Forall_forall in *. intros e He.
        exists i, i. rewrite El, (Hl e He). specialize (Hd e He). split_and!; [done|done|right; split; [done|lia]].
    - apply Forall_app. split.
      + eapply Forall_impl; [exact Hl|]. intros d ->. eauto.
      + eapply Forall_impl; [exact Hf|]. intros d (j & ? & ?). exists j. split; [lia|done]. }
  apply (H chain 0%nat). intros j layer Hj. unfold chain_ids. by rewrite list_lookup_fmap, Nat.add_0_l, Hj.
Qed.

Lemma find_split {A} (f : A -> bool) l d : List.find f l = Some d -> exists l1 l2, l = l1 ++ d :: l2 /\ f d = true /\ Forall (fun e => f e = false) l1.
Proof.
  induction l as [|e l IH]; [done|]. cbn. destruct (f e) eqn:E.
  - intros [= ->]. by exists [], l.
  - intros (l1 & l2 & -> & ? & ?)%IH. exists (e :: l1), l2. split_and!; [done|done|by constructor].
Qed.

Lemma top_at_wins x : match top_at (ranked deltas ino ci chain) x with Some d => wins d x | None => forall d, d ∈ chunk_rows -> ecov x d = false end.
Proof.
  destruct (top_at (ranked deltas ino ci chain) x) as [d|] eqn:E.
  - destruct (find_split _ _ _ E) as (l1 & l2 & El & Hx & Hno). pose proof ranked_sorted as Hs. rewrite El in Hs. apply StronglySorted_app in Hs as (_ & _ & Hs).
    apply StronglySorted_inv in Hs as [_ Hd]. assert (d ∈ chunk_rows) as Hin by (apply elem_of_ranked; rewrite El; apply elem_of_app; right; by left).
    split_and!; [done|done|]. intros e He%elem_of_ranked Hex. rewrite El in He. rewrite Forall_forall in Hd, Hno.
    apply elem_of_app in He as [He|[->|He]%elem_of_cons]; [by rewrite (Hno e He) in Hex| |by apply Hd].
    apply list_elem_of_filter in Hin as [[(i & Hi)%list_elem_of_lookup _] _]. exists i, i. split_and!; [done|done|right; split; [done|lia]].
  - intros d Hd%elem_of_ranked. apply (List.find_none _ _ E). by apply list_elem_of_In.
Qed.

(** *** Validation *)

Lemma validate_extents_ok l : forall seqs, validate_extents seqs l = Ok tt <->
  Forall (fun d => extent_validate d = Ok tt) l /\ NoDup ((fun d => (ex_layer d, ex_sequence d)) <$> l) /\
  Forall (fun d => (ex_layer d, ex_sequence d) ∉ seqs) l.
Proof.
  induction l as [|d l IH]; intros seqs; cbn [validate_extents]; [split; [intros _; split_and!; constructor|done]|].
  rewrite !Forall_cons, fmap_cons, NoDup_cons. destruct (extent_validate d) as [[]|] eqn:E; cbn [result_bind]; [|split; [done|intros ((? & _) & _); congruence]].
  case_bool_decide as Hin; [split; [done|intros (_ & _ & ? & _); done]|]. rewrite IH.
  assert (Forall (fun e => (ex_layer e, ex_sequence e) ∉ ({[(ex_layer d, ex_sequence d)]} ∪ seqs)) l <->
    ((ex_layer d, ex_sequence d) ∉ ((fun d => (ex_layer d, ex_sequence d)) <$> l)) /\ Forall (fun e => (ex_layer e, ex_sequence e) ∉ seqs) l) as ->.
  { rewrite !Forall_forall, list_elem_of_fmap. setoid_rewrite not_elem_of_union. setoid_rewrite not_elem_of_singleton. split.
    - intros H. split; [|intros e He; by apply H]. intros (e & Ek & He). by destruct (H e He).
    - intros [H1 H2] e He. split; [|by apply H2]. intros Ek. apply H1. by exists e. }
  split; [intros (? & ? & ? & ?)|intros ((? & ?) & (? & ?) & ? & ?)]; done.
Qed.

Lemma resolve_extents_ok start stop : Forall unsigned deltas -> 0 <= start < stop -> stop < u64_modulus -> check_chain chain = Ok tt ->
  Forall (fun d => extent_validate d = Ok tt) chunk_rows -> NoDup ((fun d => (ex_layer d, ex_sequence d)) <$> chunk_rows) ->
  exists out, resolve_extents chain deltas ino ci start stop = Ok out /\ tiles start out stop /\ maximal out /\ Forall bounded out /\
    forall p x, p ∈ out -> rcov p x = true -> kind_at p x = match top_at (ranked deltas ino ci chain) x with Some d => place d x | None => Hole end.
Proof.
  intros Hu Hr Hs Hc Hv Hn. unfold resolve_extents, resolve_extent_coverage. rewrite Hc. cbn [result_bind].
  rewrite (proj2 (Z.ltb_ge stop start)), (proj2 (Z.eqb_neq start stop)) by lia. fold chain_ids. change (filter _ deltas) with chunk_rows.
  rewrite (proj2 (validate_extents_ok chunk_rows ∅)) by (split_and!; [done|done|]; apply Forall_forall; intros d _; apply not_elem_of_empty). cbn [result_bind].
  destruct (carve_chain_ok start stop Hr Hs deltas ino ci chain [] [(start, stop)] []) as (u & r & -> & Hcv).
  { apply Forall_forall. intros d Hd%elem_of_ranked. rewrite Forall_forall in Hu, Hv. apply valid_row_ok; [|by apply Hv]. apply Hu. by apply list_elem_of_filter in Hd as [_ Hd]. }
  { by apply carved_start. }
  cbn [result_bind]. destruct (carved_runs start stop Hr Hs _ u r Hcv) as (covered & out & -> & E2 & ? & ? & ? & ?). cbn [result_bind]. by exists out.
Qed.

End chain.

(** C19: data through the layers of a workspace.  Resolving a range of a chunk succeeds
    exactly when its rows are valid and no two rows of a layer share a sequence
    number.  The runs returned then tile the range, no two neighbours could be one,
    and each byte has the place given by the newest extent over it in the first
    layer, from the head down, that has one; a byte no extent holds is a hole. *)
Theorem extents_resolved_exact chain deltas ino ci start stop : Forall unsigned deltas -> 0 <= start <= stop -> stop < u64_modulus -> check_chain chain = Ok tt ->
  let rows := chunk_rows chain deltas ino ci in
  (is_Ok (resolve_extents chain deltas ino ci start stop) = true <->
     start = stop \/ (Forall (fun d => extent_validate d = Ok tt) rows /\ NoDup ((fun d => (ex_layer d, ex_sequence d)) <$> rows))) /\
  forall out, resolve_extents chain deltas ino ci start stop = Ok out -> tiles start out stop /\ maximal out /\
    forall p x, p ∈ out -> rcov p x = true ->
      (exists d, wins chain deltas ino ci d x /\ kind_at p x = place d x) \/ ((forall d, d ∈ rows -> ecov x d = false) /\ kind_at p x = Hole).
Proof.
  intros Hu Hr Hs Hc rows. destruct (decide (start = stop)) as [->|Hne].
  { unfold resolve_extents, resolve_extent_coverage. rewrite Hc. cbn [result_bind]. rewrite Z.ltb_irrefl, Z.eqb_refl. cbn [result_bind fmap list_fmap app].
    split; [split; [by left|done]|]. intros out [= <-]. split_and!; [done|done|by intros ? ? ?%elem_of_nil]. }
  assert (is_Ok (resolve_extents chain deltas ino ci start stop) = true -> Forall (fun d => extent_validate d = Ok tt) rows /\ NoDup ((fun d => (ex_layer d, ex_sequence d)) <$> rows)) as Hv.
  { unfold resolve_extents, resolve_extent_coverage. rewrite Hc. cbn [result_bind]. rewrite (proj2 (Z.ltb_ge stop start)), (proj2 (Z.eqb_neq start stop)) by lia.
    fold (chain_ids chain). change (filter _ deltas) with rows. destruct (validate_extents ∅ rows) as [[]|] eqn:Ev; [|done]. intros _. apply validate_extents_ok in Ev as (? & ? & _). done. }
  split.
  - split; [auto|]. intros [?|[Hv1 Hv2]]; [done|]. destruct (resolve_extents_ok chain deltas ino ci start stop Hu ltac:(lia) Hs Hc Hv1 Hv2) as (out & -> & _). done.
  - intros out E. destruct Hv as [Hv1 Hv2]; [by rewrite E|]. destruct (resolve_extents_ok chain deltas ino ci start stop Hu ltac:(lia) Hs Hc Hv1 Hv2) as (out' & E' & Ht & Hm & _ & Hk).
    rewrite E in E'. injection E' as <-. split_and!; [done|done|]. intros p x Hp Hx. rewrite (Hk p x Hp Hx). pose proof (top_at_wins chain deltas ino ci x) as Hw.
    destruct (top_at _ x) as [d|]; [left; by exists d|by right].
Qed.

Definition w_extents : list DataExtentDelta := [mkExtent 1 5 0 0 100 (Data 7 0) 1; mkExtent 2 5 0 40 20 (Data 8 0) 1; mkExtent 2 5 0 50 5 Hole 2].

Lemma extents_resolved_exact_witness :
  resolve_extents [w_head; w_base] w_extents 5 0 30 120 =
    Ok [mkRExtent 30 10 (Data 7 30); mkRExtent 40 10 (Data 8 0); mkRExtent 50 5 Hole; mkRExtent 55 5 (Data 8 15); mkRExtent 60 40 (Data 7 60); mkRExtent 100 20 Hole] /\
  maximal [mkRExtent 30 10 (Data 7 30); mkRExtent 40 10 (Data 8 0); mkRExtent 50 5 Hole; mkRExtent 55 5 (Data 8 15); mkRExtent 60 40 (Data 7 60); mkRExtent 100 20 Hole].
Proof.
  destruct (extents_resolved_exact [w_head; w_base] w_extents 5 0 30 120 ltac:(repeat constructor; done) ltac:(lia) ltac:(reflexivity) ltac:(vm_compute; reflexivity)) as [_ H].
  split; [vm_compute; reflexivity|]. apply H. vm_compute. reflexivity.
Defined.
