(* ===== verification/LayerCompact.v ===== *)
(** Compaction of the extents of a layer
    ([stores/kv_store/extent_compaction.rs], [coalesce_extent_rows]): fewer rows
    that resolve to the same bytes. *)
From stdpp Require Import options.
From S2P Require Import Prelude Layers LayerExtents.

(** ** The code *)

(** [covered.range(..=start).next_back()] and [covered.range(start..).next()]. *)
Definition range_back (start : Z) (covered : list (Z * Z)) : option (Z * Z) := last (filter (fun kv => kv.1 <= start) covered).
Definition range_next (start : Z) (covered : list (Z * Z)) : option (Z * Z) := head (filter (fun kv => start <= kv.1) covered).

(** The [while] loop: intervals that start up to [stop] are absorbed. *)
Fixpoint absorb (fuel : nat) (start stop : Z) (covered : list (Z * Z)) : Z * list (Z * Z) :=
  match fuel with
  | O => (stop, covered)
  | S fuel =>
      match range_next start covered with
      | Some (next, next_end) => if stop <? next then (stop, covered) else absorb fuel start (Z.max stop next_end) (bt_remove next covered)
      | None => (stop, covered)
      end
  end.

(** One row: [None] if the newer rows mask it, else the intervals with it. *)
Definition cover_row (covered : list (Z * Z)) (row : DataExtentDelta) : option (list (Z * Z)) :=
  let start := ex_offset row in
  let stop := start + ex_length row in
  match range_back start covered with
  | Some (previous, previous_end) =>
      if stop <=? previous_end then None else
      let '(start, covered) := if start <=? previous_end then (previous, bt_remove previous covered) else (start, covered) in
      let '(stop, covered) := absorb (length covered) start stop covered in
      Some (bt_insert Z.ltb start stop covered)
  | None =>
      let '(stop, covered) := absorb (length covered) start stop covered in
      Some (bt_insert Z.ltb start stop covered)
  end.

(** The rows that newer ones do not mask, newest first. *)
Fixpoint unmasked (covered : list (Z * Z)) (rows : list DataExtentDelta) : list DataExtentDelta :=
  match rows with
  | [] => []
  | row :: rows => match cover_row covered row with Some covered => row :: unmasked covered rows | None => unmasked covered rows end
  end.

Definition is_hole (row : DataExtentDelta) : Prop := ex_kind row = Hole.
#[export] Instance is_hole_dec row : Decision (is_hole row) := decide (ex_kind row = Hole).

Definition set_extent (length sequence : Z) (row : DataExtentDelta) : DataExtentDelta :=
  mkExtent (ex_layer row) (ex_ino row) (ex_chunk row) (ex_offset row) length (ex_kind row) sequence.

Definition crosses_data (data : list DataExtentDelta) (older newer : DataExtentDelta) : bool :=
  existsb (fun row => (ex_sequence older <? ex_sequence row) && (ex_sequence row <? ex_sequence newer) &&
    (ex_offset row <? ex_offset newer + ex_length newer) && (ex_offset newer <? ex_offset row + ex_length row)) data.

(** Touching holes become one at the older sequence. [previous] is the last of
    [merged]. *)
Fixpoint merge_holes (data : list DataExtentDelta) (merged : list DataExtentDelta) (previous : option DataExtentDelta) (holes : list DataExtentDelta) :
    list DataExtentDelta :=
  match holes with
  | [] => merged ++ option_list previous
  | hole :: holes =>
      match previous with
      | None => merge_holes data merged (Some hole) holes
      | Some p =>
          let '(older, newer) := if ex_sequence p <? ex_sequence hole then (p, hole) else (hole, p) in
          if (ex_offset hole <=? ex_offset p + ex_length p) && negb (crosses_data data older newer) then
            merge_holes data merged
              (Some (set_extent (Z.max (ex_offset p + ex_length p) (ex_offset hole + ex_length hole) - ex_offset p)
                                (Z.min (ex_sequence p) (ex_sequence hole)) p)) holes
          else merge_holes data (merged ++ [p]) (Some hole) holes
      end
  end.

Definition by_offset (a b : DataExtentDelta) : bool :=
  (ex_offset a <? ex_offset b) || ((ex_offset a =? ex_offset b) && (ex_sequence a <=? ex_sequence b)).

Definition coalesce_extent_rows (rows : list DataExtentDelta) : list DataExtentDelta :=
  let kept := unmasked [] (sort_by_key (fun row => - ex_sequence row) rows) in
  let data := filter (fun row => ~ is_hole row) kept in
  let holes := sort_by by_offset (filter is_hole kept) in
  sort_by_key ex_sequence (data ++ merge_holes data [] None holes).

(** ** What rows show *)

(** The place of a position by the rows of a layer. *)
Definition shows (rows : list DataExtentDelta) (x : Z) (k : option ExtentKind) : Prop :=
  match k with
  | Some k => exists d, d ∈ rows /\ ecov x d = true /\ place d x = k /\ forall e, e ∈ rows -> ecov x e = true -> ex_sequence e <= ex_sequence d
  | None => forall e, e ∈ rows -> ecov x e = false
  end.

Lemma shows_perm rows rows' x k : rows ≡ₚ rows' -> shows rows x k -> shows rows' x k.
Proof. intros Hp. destruct k; cbn; by setoid_rewrite Hp. Qed.

Lemma shows_top rows x : shows rows x ((fun d => place d x) <$> top_at (sort_by_key (fun d => - ex_sequence d) rows) x).
Proof.
  apply (shows_perm (sort_by_key (fun d => - ex_sequence d) rows)); [apply sort_by_key_perm|]. pose proof (sort_by_key_sorted (fun d => - ex_sequence d) rows) as Hs.
  revert Hs. generalize (sort_by_key (fun d => - ex_sequence d) rows). intros l Hs. destruct (top_at l x) as [d|] eqn:E; cbn.
  - destruct (find_split _ _ _ E) as (l1 & l2 & -> & Hd & Hno). apply StronglySorted_app in Hs as (_ & _ & [_ Hd2]%StronglySorted_inv). rewrite Forall_forall in Hno, Hd2.
    exists d. split_and!; [apply elem_of_app; right; by left|done|done|]. intros e [He|[->|He]%elem_of_cons]%elem_of_app Hx; [by rewrite (Hno e He) in Hx|lia|specialize (Hd2 e He); lia].
  - intros e He. apply (List.find_none _ _ E). by apply list_elem_of_In.
Qed.

(** With distinct sequences a position shows one thing. *)
Lemma shows_unique rows x k k' : NoDup (ex_sequence <$> rows) -> shows rows x k -> shows rows x k' -> k = k'.
Proof.
  intros Hn. destruct k as [k|], k' as [k'|]; cbn; [|intros (d & Hd & Hx & _) H; by rewrite (H d Hd) in Hx|intros H (d & Hd & Hx & _); by rewrite (H d Hd) in Hx|done].
  intros (d & Hd & Hdx & <- & Hmax) (e & He & Hex & <- & Hmax'). specialize (Hmax e He Hex). specialize (Hmax' d Hd Hdx).
  assert (d = e) as ->; [|done]. apply list_elem_of_lookup in Hd as [i Hi], He as [j Hj].
  assert (i = j) as ->; [|congruence]. apply (NoDup_lookup (ex_sequence <$> rows) i j (ex_sequence d) Hn); rewrite list_lookup_fmap; [by rewrite Hi|]. rewrite Hj. cbn. f_equal. lia.
Qed.

(** ** Dropping masked rows *)

Lemma bt_remove_elem {K V} `{!EqDecision K} (k : K) (m : list (K * V)) kv : kv ∈ bt_remove k m -> kv ∈ m.
Proof. induction m as [|[k' v] m IH]; [done|]. cbn. case_decide; rewrite ?elem_of_cons; [auto|]. intros [->|?]; auto. Qed.

Lemma range_next_Some start covered kv : range_next start covered = Some kv -> kv ∈ covered /\ start <= kv.1.
Proof. unfold range_next. intros H. assert (kv ∈ filter (fun kv => start <= kv.1) covered) as [? ?]%list_elem_of_filter; [|done]. destruct (filter _ covered); [done|]. injection H as ->. by left. Qed.

Lemma range_back_Some start covered kv : range_back start covered = Some kv -> kv ∈ covered /\ kv.1 <= start.
Proof. unfold range_back. intros H%last_Some_elem_of. by apply list_elem_of_filter in H as [? ?]. Qed.

(** The loop ends: each round takes an interval away. *)
Lemma length_bt_remove {V} (k : Z) (m : list (Z * V)) v : (k, v) ∈ m -> length m = S (length (bt_remove k m)).
Proof.
  induction m as [|[k' v'] m IH]; [by intros ?%elem_of_nil|]. cbn. case_decide as E; [done|]. intros [[= -> ->]|H]%elem_of_cons; [done|]. cbn. by rewrite (IH H).
Qed.

Lemma absorb_settles fuel : forall start stop covered, (length covered <= fuel)%nat ->
  let '(stop', covered') := absorb fuel start stop covered in forall kv, range_next start covered' = Some kv -> stop' < kv.1.
Proof.
  induction fuel as [|fuel IH]; intros start stop covered Hf; cbn [absorb].
  { intros kv [Hin _]%range_next_Some. destruct covered; [by apply elem_of_nil in Hin|cbn in Hf; lia]. }
  destruct (range_next start covered) as [[next next_end]|] eqn:E; [|intros kv H; congruence].
  destruct (Z.ltb_spec stop next); [intros kv H'; rewrite E in H'; by injection H' as <-|]. apply IH. apply range_next_Some in E as [Hin _]. rewrite (length_bt_remove next covered next_end Hin) in Hf. lia.
Qed.

(** An interval of [covered] holds positions of rows only. *)
Definition backed (rows : list DataExtentDelta) (iv : Z * Z) : Prop := forall x, iv.1 <= x < iv.2 -> exists r, r ∈ rows /\ ecov x r = true.

Lemma absorb_backed rows fuel : forall start stop covered, Forall (backed rows) covered -> backed rows (start, stop) ->
  let '(stop', covered') := absorb fuel start stop covered in Forall (backed rows) covered' /\ backed rows (start, stop').
Proof.
  induction fuel as [|fuel IH]; intros start stop covered Hc Hb; cbn [absorb]; [done|]. destruct (range_next start covered) as [[next next_end]|] eqn:E; [|done].
  destruct (Z.ltb_spec stop next) as [|Hle]; [done|]. apply range_next_Some in E as [Hin Hn]. rewrite Forall_forall in Hc. apply IH.
  - apply Forall_forall. intros kv Hkv%bt_remove_elem. by apply Hc.
  - intros x Hx. cbn in *. destruct (decide (x < stop)); [apply Hb; cbn; lia|]. apply (Hc _ Hin). cbn. lia.
Qed.

Lemma cover_row_backed seen covered row : Forall (backed seen) covered ->
  match cover_row covered row with
  | Some covered' => Forall (backed (seen ++ [row])) covered'
  | None => forall x, ecov x row = true -> exists r, r ∈ seen /\ ecov x r = true
  end.
Proof.
  intros Hc. assert (forall iv, backed seen iv -> backed (seen ++ [row]) iv) as Hmono.
  { intros iv H x Hx. destruct (H x Hx) as (r & ? & ?). exists r. split; [apply elem_of_app; by left|done]. }
  assert (forall start stop cov, Forall (backed seen) cov -> backed (seen ++ [row]) (start, stop) ->
    let '(stop', cov') := absorb (length cov) start stop cov in Forall (backed (seen ++ [row])) (bt_insert Z.ltb start stop' cov')) as Hins.
  { intros start stop cov Hcov Hb. pose proof (absorb_backed (seen ++ [row]) (length cov) start stop cov) as Ha. destruct (absorb _ _ _ _) as [stop' cov'].
    destruct Ha as [H1 H2]; [eapply Forall_impl; [exact Hcov|apply Hmono]|done|]. apply Forall_forall. intros kv [->|Hkv]%bt_insert_elem; [done|]. rewrite Forall_forall in H1. by apply H1. }
  assert (backed (seen ++ [row]) (ex_offset row, ex_offset row + ex_length row)) as Hrow.
  { intros x Hx. exists row. split; [apply elem_of_app; right; by left|]. unfold ecov. cbn in Hx. lia. }
  unfold cover_row. destruct (range_back (ex_offset row) covered) as [[previous previous_end]|] eqn:E.
  - apply range_back_Some in E as [Hin Hle]. cbn in Hle. rewrite Forall_forall in Hc. pose proof (Hc _ Hin) as Hp. destruct (Z.leb_spec (ex_offset row + ex_length row) previous_end).
    + intros x Hx. apply Hp. unfold ecov in Hx. cbn. lia.
    + destruct (Z.leb_spec (ex_offset row) previous_end).
      * pose proof (Hins previous (ex_offset row + ex_length row) (bt_remove previous covered)) as H'. destruct (absorb _ _ _ _) as [stop' cov']. apply H'.
        -- apply Forall_forall. intros kv Hkv%bt_remove_elem. by apply Hc.
        -- intros x Hx. cbn in Hx. destruct (decide (x < previous_end)); [apply Hmono in Hp; apply Hp; cbn; lia|apply Hrow; cbn; lia].
      * pose proof (Hins (ex_offset row) (ex_offset row + ex_length row) covered) as H'. destruct (absorb _ _ _ _) as [stop' cov']. apply H'; [by apply Forall_forall|done].
  - pose proof (Hins (ex_offset row) (ex_offset row + ex_length row) covered Hc Hrow) as H'. by destruct (absorb _ _ _ _) as [stop' cov'].
Qed.

Lemma unmasked_spec rows : forall seen covered, Forall (backed seen) covered ->
  sublist (unmasked covered rows) rows /\
  forall r x, r ∈ rows -> r ∉ unmasked covered rows -> ecov x r = true -> exists l1 l2, rows = l1 ++ r :: l2 /\ exists r', r' ∈ seen ++ l1 /\ ecov x r' = true.
Proof.
  induction rows as [|row rows IH]; intros seen covered Hc; [split; [done|by intros r x ?%elem_of_nil]|]. cbn [unmasked].
  pose proof (cover_row_backed seen covered row Hc) as Hr. destruct (cover_row covered row) as [covered'|].
  - destruct (IH (seen ++ [row]) covered' Hr) as [Hs Hm]. split; [by constructor|]. intros r x [->|Hin]%elem_of_cons Hno Hx; [destruct Hno; by left|].
    destruct (Hm r x Hin) as (l1 & l2 & -> & r' & Hr' & Hx'); [set_solver|done|]. exists (row :: l1), l2. split; [done|]. exists r'. by rewrite <-app_assoc in Hr'.
  - destruct (IH seen covered Hc) as [Hs Hm]. split; [by constructor|]. intros r x [->|Hin]%elem_of_cons Hno Hx.
    + exists [], rows. rewrite app_nil_r. split; [done|]. by apply Hr.
    + destruct (Hm r x Hin Hno Hx) as (l1 & l2 & -> & r' & Hr' & Hx'). exists (row :: l1), l2. split; [done|]. exists r'. split; [set_solver|done].
Qed.

(** Rows the newer ones mask never show. *)
Lemma unmasked_shows rows x k : StronglySorted (fun a b => ex_sequence b < ex_sequence a) rows -> shows rows x k -> shows (unmasked [] rows) x k.
Proof.
  intros Hs. destruct (unmasked_spec rows [] []) as [Hsub Hm]; [constructor|]. destruct k as [k|]; cbn.
  - intros (d & Hd & Hx & Hk & Hmax). exists d. split_and!; [|done|done|intros e He; apply Hmax; by eapply elem_of_sublist].
    destruct (decide (d ∈ unmasked [] rows)) as [|Hno]; [done|]. destruct (Hm d x Hd Hno Hx) as (l1 & l2 & -> & r & Hr & Hrx). cbn [app] in Hr.
    apply StronglySorted_app in Hs as (Hs & _ & _). specialize (Hs r d Hr ltac:(by left)). specialize (Hmax r ltac:(apply elem_of_app; by left) Hrx). lia.
  - intros H e He. apply H. by eapply elem_of_sublist.
Qed.

(** ** Merging holes *)

Definition hull (p h : DataExtentDelta) : DataExtentDelta :=
  set_extent (Z.max (ex_offset p + ex_length p) (ex_offset h + ex_length h) - ex_offset p) (Z.min (ex_sequence p) (ex_sequence h)) p.

Lemma crosses_spec data older newer r x : crosses_data data older newer = false -> r ∈ data -> ex_sequence older < ex_sequence r < ex_sequence newer ->
  ecov x r = true -> ecov x newer = true -> False.
Proof.
  intros Hc Hr Hs Hx Hn. unfold ecov in *. assert (crosses_data data older newer = true); [|congruence]. apply existsb_exists. exists r. rewrite <-list_elem_of_In. split; [done|]. lia.
Qed.

Lemma hull_shows data p h rest x k : is_hole p -> is_hole h -> ex_offset p <= ex_offset h <= ex_offset p + ex_length p -> 0 < ex_length h ->
  NoDup (ex_sequence <$> p :: h :: rest) -> (forall r, r ∈ rest -> ~ is_hole r -> r ∈ data) ->
  (let '(older, newer) := if ex_sequence p <? ex_sequence h then (p, h) else (h, p) in crosses_data data older newer = false) ->
  shows (p :: h :: rest) x k -> shows (hull p h :: rest) x k.
Proof.
  intros Hp Hh Ho Hl Hn Hd Hc. assert (ecov x (hull p h) = ecov x p || ecov x h) as Hq by (unfold ecov, hull, set_extent; cbn [ex_offset ex_length]; lia).
  assert (place (hull p h) x = Hole /\ place p x = Hole /\ place h x = Hole) as (Pq & Pp & Ph) by (unfold is_hole in *; unfold place, hull, set_extent; cbn [ex_kind]; by rewrite Hp, Hh).
  assert (ex_sequence (hull p h) = Z.min (ex_sequence p) (ex_sequence h)) as Sq by done.
  rewrite !fmap_cons, !NoDup_cons, elem_of_cons in Hn. destruct Hn as (Hnp & Hnh & _).
  destruct k as [k|]; cbn.
  2: { intros H e [->|He]%elem_of_cons; [rewrite Hq, (H p), (H h); [done|right; by left|by left]|]. apply H. by do 2 right. }
  intros (d & Hin & Hx & <- & Hmax). pose proof (Hmax p ltac:(by left)) as Mp. pose proof (Hmax h ltac:(right; by left)) as Mh.
  assert (forall e, e ∈ rest -> ecov x e = true -> ex_sequence e <= ex_sequence d) as Mr by (intros e He; apply Hmax; by do 2 right).
  assert (d ∈ rest \/ (d = p \/ d = h)) as [Hr|Hph] by (rewrite !elem_of_cons in Hin; tauto).
  { exists d. split_and!; [by right|done|done|]. intros e [->|He]%elem_of_cons Hex; [|by apply Mr]. rewrite Hq in Hex. destruct (ecov x p); [specialize (Mp eq_refl)|specialize (Mh Hex)]; lia. }
  assert (place d x = Hole /\ ecov x (hull p h) = true /\ ex_sequence (hull p h) <= ex_sequence d) as (-> & Hqx & Hsq) by (destruct Hph as [->| ->]; rewrite Hq, Hx, ?orb_true_r; split_and!; done || lia).
  pose proof (shows_top rest x) as Ht. destruct (top_at _ x) as [e|]; cbn in Ht.
  2: { exists (hull p h). split_and!; [by left|done|done|]. intros e [->|He]%elem_of_cons Hex; [lia|by rewrite (Ht e He) in Hex]. }
  destruct Ht as (e' & He' & Hex' & _ & Hmax'). destruct (decide (ex_sequence e' <= ex_sequence (hull p h))).
  { exists (hull p h). split_and!; [by left|done|done|]. intros f [->|Hf]%elem_of_cons Hfx; [lia|]. specialize (Hmax' f Hf Hfx). lia. }
  exists e'. split_and!; [by right|done| |intros f [->|Hf]%elem_of_cons Hfx; [lia|by apply Hmax']].
  unfold place. destruct (ex_kind e') as [id off|] eqn:Ek; [|done]. exfalso. assert (e' ∈ data) as Hed by (apply Hd; [done|unfold is_hole; congruence]).
  assert (ex_sequence e' ∈ ex_sequence <$> rest) as Hes by (apply list_elem_of_fmap; by exists e'). specialize (Mr e' He' Hex').
  assert (ex_sequence e' <> ex_sequence p /\ ex_sequence e' <> ex_sequence h) as [N1 N2] by (split; intros E; rewrite E in Hes; [apply Hnp; by right|by apply Hnh]).
  rewrite Sq in *. destruct (Z.ltb_spec (ex_sequence p) (ex_sequence h)).
  - apply (crosses_spec data p h e' x Hc Hed); [destruct Hph as [->| ->]; lia|done|]. destruct Hph as [->| ->]; [lia|done].
  - apply (crosses_spec data h p e' x Hc Hed); [destruct Hph as [->| ->]; lia|done|]. destruct Hph as [->| ->]; [done|lia].
Qed.

(** What merging keeps of each row. *)
Definition of_layer (layer ino ci : Z) (d : DataExtentDelta) : Prop := ex_layer d = layer /\ of_chunk ino ci d /\ row_ok d.

Lemma hull_of_layer layer ino ci p h : is_hole p -> of_layer layer ino ci p -> of_layer layer ino ci h -> ex_offset p <= ex_offset h -> of_layer layer ino ci (hull p h).
Proof.
  intros Hp (H1 & H2 & H3 & H4 & H5 & _) (_ & _ & H6 & H7 & H8 & _) Ho. unfold of_layer, of_chunk, row_ok, hull, set_extent, is_hole in *. cbn. rewrite Hp. split_and!; try done; try lia; apply H2.
Qed.

(** [out] may take the place of [rows]. *)
Record replaces (layer ino ci : Z) (rows out : list DataExtentDelta) : Prop := {
  rp_rows : Forall (of_layer layer ino ci) out;
  rp_distinct : NoDup (ex_sequence <$> out);
  rp_shows : forall x k, shows rows x k -> shows out x k;
  rp_sequences : (ex_sequence <$> out) ⊆ (ex_sequence <$> rows);
  rp_length : (length out <= length rows)%nat
}.

Lemma replaces_trans layer ino ci rows mid out : replaces layer ino ci rows mid -> replaces layer ino ci mid out -> replaces layer ino ci rows out.
Proof. intros [] []. constructor; [done|done|auto|by etrans|lia]. Qed.

Lemma replaces_perm layer ino ci rows out : Forall (of_layer layer ino ci) rows -> NoDup (ex_sequence <$> rows) -> rows ≡ₚ out -> replaces layer ino ci rows out.
Proof. intros Hr Hn Hp. constructor; [by rewrite <-Hp|by rewrite <-Hp|intros x k; by apply shows_perm|by rewrite Hp|by rewrite Hp]. Qed.

Lemma hull_replaces layer ino ci data p h rest : is_hole p -> is_hole h -> ex_offset p <= ex_offset h <= ex_offset p + ex_length p ->
  Forall (of_layer layer ino ci) (p :: h :: rest) -> NoDup (ex_sequence <$> p :: h :: rest) -> (forall r, r ∈ rest -> ~ is_hole r -> r ∈ data) ->
  (let '(older, newer) := if ex_sequence p <? ex_sequence h then (p, h) else (h, p) in crosses_data data older newer = false) ->
  replaces layer ino ci (p :: h :: rest) (hull p h :: rest).
Proof.
  intros Hp Hh Ho Hf Hn Hd Hc. pose proof Hf as (Fp & Fh & Fr)%(fun H => conj (proj1 (proj1 (list.Forall_cons _ _ _) H)) (proj1 (list.Forall_cons _ _ _) (proj2 (proj1 (list.Forall_cons _ _ _) H)))).
  assert (ex_sequence (hull p h) = ex_sequence p \/ ex_sequence (hull p h) = ex_sequence h) as Hs by (unfold hull; cbn; lia).
  constructor.
  - constructor; [apply hull_of_layer; try done; lia|done].
  - rewrite !fmap_cons, !NoDup_cons, elem_of_cons in Hn. destruct Hn as (N1 & N2 & N3). rewrite fmap_cons. apply NoDup_cons. split; [|done]. destruct Hs as [->| ->]; tauto.
  - intros x k. apply (hull_shows data); try done. by destruct Fh as (_ & _ & _ & ? & _).
  - intros s. rewrite !fmap_cons, !elem_of_cons. destruct Hs as [->| ->]; tauto.
  - cbn. lia.
Qed.

Lemma merge_holes_replaces layer ino ci data : forall holes merged previous, let rows := data ++ merged ++ option_list previous ++ holes in
  Forall (of_layer layer ino ci) rows -> NoDup (ex_sequence <$> rows) -> Forall is_hole (merged ++ option_list previous ++ holes) ->
  StronglySorted (fun a b => ex_offset a <= ex_offset b) (option_list previous ++ holes) ->
  replaces layer ino ci rows (data ++ merge_holes data merged previous holes).
Proof.
  induction holes as [|hole holes IH]; intros merged previous rows Hf Hn Hh Hs; cbn [merge_holes].
  { apply replaces_perm; [done|done|]. unfold rows. by rewrite app_nil_r. }
  destruct previous as [p|]; [|by apply (IH merged (Some hole))].
  assert (rows ≡ₚ p :: hole :: (data ++ merged ++ holes)) as Hp by (unfold rows; cbn; by rewrite !Permutation_middle, <-!Permutation_middle).
  assert (replaces layer ino ci (data ++ (merged ++ [p]) ++ option_list (Some hole) ++ holes) (data ++ merge_holes data (merged ++ [p]) (Some hole) holes) ->
          replaces layer ino ci rows (data ++ merge_holes data (merged ++ [p]) (Some hole) holes)) as Hkeep by (unfold rows; cbn; by rewrite <-(app_assoc merged)).
  cbn [option_list app] in Hs. apply StronglySorted_inv in Hs as [Hs Hp1]. apply list.Forall_cons in Hp1 as [Hp1 Hp2].
  assert (replaces layer ino ci rows (data ++ merge_holes data (merged ++ [p]) (Some hole) holes)) as Hno.
  { apply Hkeep, IH; unfold rows in *; cbn in *; rewrite <-?(app_assoc merged); done. }
  rewrite Forall_app in Hh. destruct Hh as [Hm (Hhp & Hhh & Hhs)%(fun H => conj (proj1 (proj1 (list.Forall_cons _ _ _) H)) (proj1 (list.Forall_cons _ _ _) (proj2 (proj1 (list.Forall_cons _ _ _) H))))].
  destruct (if ex_sequence p <? ex_sequence hole then (p, hole) else (hole, p)) as [older newer] eqn:Eon.
  destruct ((ex_offset hole <=? ex_offset p + ex_length p) && negb (crosses_data data older newer)) eqn:Ec; [|done].
  apply andb_true_iff in Ec as [Ec1 Ec2%negb_true_iff]. fold (hull p hole).
  assert (replaces layer ino ci (p :: hole :: (data ++ merged ++ holes)) (hull p hole :: (data ++ merged ++ holes))) as Hstep.
  { apply (hull_replaces _ _ _ data); [done|done|lia|by rewrite <-Hp|by rewrite <-Hp| |by rewrite Eon].
    rewrite Forall_forall in Hm, Hhs. intros r [?|[?|?]%elem_of_app]%elem_of_app Hr; [done| |]; destruct Hr; auto. }
  assert (hull p hole :: (data ++ merged ++ holes) ≡ₚ data ++ merged ++ option_list (Some (hull p hole)) ++ holes) as Hq by (cbn; by rewrite !Permutation_middle).
  eapply replaces_trans; [apply replaces_perm; [done|done|exact Hp]|]. eapply replaces_trans; [exact Hstep|].
  destruct Hstep as [R1 R2 _ _ _]. eapply replaces_trans; [by apply replaces_perm; [| |exact Hq]|]. apply IH.
  - by rewrite <-Hq.
  - by rewrite <-Hq.
  - apply Forall_app. split; [done|]. by constructor.
  - cbn [option_list app]. apply StronglySorted_inv in Hs as [Hs _]. by constructor.
Qed.

Lemma unmasked_replaces layer ino ci rows : StronglySorted (fun a b => ex_sequence b < ex_sequence a) rows -> Forall (of_layer layer ino ci) rows -> NoDup (ex_sequence <$> rows) ->
  replaces layer ino ci rows (unmasked [] rows).
Proof.
  intros Hs Hf Hn. destruct (unmasked_spec rows [] []) as [Hsub _]; [constructor|]. constructor.
  - rewrite Forall_forall in *. intros d Hd. apply Hf. by eapply elem_of_sublist.
  - eapply sublist_NoDup; [exact Hn|by apply fmap_sublist].
  - intros x k. by apply unmasked_shows.
  - intros s (d & -> & Hd)%list_elem_of_fmap. apply list_elem_of_fmap. exists d. split; [done|]. by eapply elem_of_sublist.
  - by apply sublist_length.
Qed.

Lemma filter_split_perm {A} (P : A -> Prop) `{!forall x, Decision (P x)} (l : list A) : l ≡ₚ filter (fun x => ~ P x) l ++ filter P l.
Proof.
  induction l as [|a l IH]; [done|]. rewrite !filter_cons. destruct (decide (P a)) as [Ha|Ha].
  - rewrite decide_False by tauto. rewrite <-Permutation_middle. by f_equiv.
  - rewrite decide_True by done. cbn. by f_equiv.
Qed.

Lemma by_key_strict {A} (key : A -> Z) (l : list A) : NoDup (key <$> l) -> StronglySorted (fun a b => key a <= key b) l -> StronglySorted (fun a b => key a < key b) l.
Proof.
  intros Hn Hs. induction Hs as [|a l _ IH Ha]; [constructor|]. rewrite fmap_cons, NoDup_cons in Hn. destruct Hn as [Hno Hn]. constructor; [by apply IH|].
  rewrite Forall_forall in *. intros b Hb. specialize (Ha b Hb). assert (key a <> key b); [|lia]. intros E. apply Hno. rewrite E. apply list_elem_of_fmap. by exists b.
Qed.

(** The compacted rows may take the place of the old ones, and a data row is kept
    as it is or its sequence number is free. *)
Lemma coalesce_replaces layer ino ci rows : Forall (of_layer layer ino ci) rows -> NoDup (ex_sequence <$> rows) ->
  replaces layer ino ci rows (coalesce_extent_rows rows) /\
  forall d, d ∈ rows -> ~ is_hole d -> d ∈ coalesce_extent_rows rows \/ ex_sequence d ∉ ex_sequence <$> coalesce_extent_rows rows.
Proof.
  intros Hf Hn. unfold coalesce_extent_rows. set (ordered := sort_by_key _ rows). set (kept := unmasked [] ordered).
  set (data := filter _ kept). set (holes := sort_by by_offset _). assert (rows ≡ₚ ordered) as Po by (symmetry; apply sort_by_key_perm).
  assert (replaces layer ino ci ordered kept) as Rk.
  { apply unmasked_replaces; [|by rewrite <-Po|by rewrite <-Po]. eapply StronglySorted_weaken; [|apply (by_key_strict (fun d => - ex_sequence d))]; [cbn; intros; lia| |apply sort_by_key_sorted].
    rewrite Po in Hn. change (NoDup (Z.opp ∘ ex_sequence <$> ordered)). rewrite list_fmap_compose. apply NoDup_fmap_2; [intros ? ?; lia|done]. }
  assert (kept ≡ₚ data ++ holes) as Pk by (unfold holes; rewrite sort_by_perm; apply filter_split_perm).
  assert (Forall is_hole holes) as Hh by (unfold holes; rewrite sort_by_perm; apply Forall_forall; by intros d [? _]%list_elem_of_filter).
  assert (replaces layer ino ci (data ++ holes) (data ++ merge_holes data [] None holes)) as Rm.
  { destruct Rk as [R1 R2 _ _ _]. rewrite Pk in R1, R2. apply (merge_holes_replaces layer ino ci data holes [] None); [done|done|done|].
    eapply StronglySorted_weaken; [|apply sort_by_sorted]; unfold by_offset; cbn; intros; lia. }
  assert (replaces layer ino ci kept (sort_by_key ex_sequence (data ++ merge_holes data [] None holes))) as Rout.
  { pose proof Rk as [R1 R2 _ _ _]. pose proof Rm as [M1 M2 _ _ _]. eapply replaces_trans; [by apply replaces_perm; [| |exact Pk]|]. eapply replaces_trans; [exact Rm|].
    apply replaces_perm; [done|done|symmetry; apply sort_by_key_perm]. }
  split; [eapply replaces_trans; [by apply replaces_perm; [| |exact Po]|]; by eapply replaces_trans|].
  intros d Hd Hnh. destruct (decide (d ∈ kept)) as [Hk|Hk].
  - left. rewrite sort_by_key_perm. apply elem_of_app. left. by apply list_elem_of_filter.
  - right. intros Hs%(rp_sequences _ _ _ _ _ Rout). apply list_elem_of_fmap in Hs as (e & Ee & He). assert (e ∈ rows) as Her by (rewrite Po; destruct (unmasked_spec ordered [] []) as [Hsub _]; [constructor|]; by eapply elem_of_sublist).
    assert (d = e) as ->; [|done]. apply list_elem_of_lookup in Hd as [i Hi], Her as [j Hj]. assert (i = j) as ->; [|congruence].
    apply (NoDup_lookup (ex_sequence <$> rows) i j (ex_sequence d) Hn); rewrite list_lookup_fmap; [by rewrite Hi|rewrite Hj; cbn; by rewrite Ee].
Qed.
