(* ===== verification/LayerHistory.v ===== *)
(** Publication of extents to the head layer of a workspace
    ([stores/kv_store/extent_compaction.rs], [compact_extent_history]): the rows of
    each chunk written are compacted with the rows stored, and the replacements,
    deletions and slice owners join one batch. *)
From stdpp Require Import options.
From S2P Require Import Prelude Layers LayerExtents LayerCompact.

(** ** The code *)

Definition RECOVERY_MAX_ROWS : Z := 8192.
Definition DELTA_SCAN_MAX_ROWS : Z := 4096.

(** [extent_key]: the fields the key is made of. *)
Definition extent_key (row : DataExtentDelta) : Z * Z * Z * Z := (ex_layer row, ex_ino row, ex_chunk row, ex_sequence row).

(** The stored rows by key, and the slice owners ([ExtentSliceOwner]) by layer and
    slice. *)
Abbreviation Rows := (gmap (Z * Z * Z * Z) DataExtentDelta).
Abbreviation Owners := (gmap (Z * Z) Z).

Inductive RowWrite := PutRow (row : DataExtentDelta) | DeleteRow (key : Z * Z * Z * Z).

Definition apply_write (rows : Rows) (w : RowWrite) : Rows :=
  match w with
  | PutRow row => <[extent_key row := row]> rows
  | DeleteRow key => delete key rows
  end.
Definition apply_writes (rows : Rows) (writes : list RowWrite) : Rows := foldl apply_write rows writes.

Definition apply_owners (owners : Owners) (puts : list (Z * Z * Z)) : Owners := list_to_map puts ∪ owners.

Definition rows_of (rows : Rows) : list DataExtentDelta := (map_to_list rows).*2.

Definition incoming_extent (head : Z) (row : DataExtentDelta) : result WorkspaceError DataExtentDelta :=
  let? _ := extent_validate row in
  if ex_layer row =? head then Ok row else Err IdentityMismatch.

(** The first pass over the writes. *)
Fixpoint count_incoming (head count : Z) (rows : list DataExtentDelta) : result WorkspaceError Z :=
  match rows with
  | [] => Ok count
  | row :: rows =>
      let? _ := incoming_extent head row in
      if DELTA_SCAN_MAX_ROWS <? count + 1 then Err BudgetExceeded else count_incoming head (count + 1) rows
  end.

Definition chunk_ltb (a b : Z * Z) : bool := (a.1 <? b.1) || ((a.1 =? b.1) && (a.2 <? b.2)).

(** The second pass: [incoming.entry((ino, chunk_index)).or_default().push(row)]. *)
Definition push_incoming (groups : list (Z * Z * list DataExtentDelta)) (row : DataExtentDelta) : list (Z * Z * list DataExtentDelta) :=
  let key := (ex_ino row, ex_chunk row) in
  bt_insert chunk_ltb key (default [] (bt_get key groups) ++ [row]) groups.

Fixpoint validate_rows (rows : list DataExtentDelta) : result WorkspaceError unit :=
  match rows with
  | [] => Ok tt
  | row :: rows => let? _ := extent_validate row in validate_rows rows
  end.

(** The rows of a chunk in a layer in the order of their keys, and the rows scanned
    for the chunk so far. *)
Definition scan_compaction_chunk (store : Rows) (layer ino chunk scanned : Z) : result WorkspaceError (list DataExtentDelta * Z) :=
  let rows := sort_by_key ex_sequence (filter (fun d => ex_layer d = layer /\ of_chunk ino chunk d) (rows_of store)) in
  if RECOVERY_MAX_ROWS <? scanned + zlen rows then Err BudgetExceeded else
  let? _ := validate_rows rows in
  Ok (rows, scanned + zlen rows).

Fixpoint scan_lower (store : Rows) (ino chunk scanned resulting_rows : Z) (lower_layers : list Z) : result WorkspaceError Z :=
  match lower_layers with
  | [] => Ok resulting_rows
  | lower :: lower_layers =>
      let? (rows, scanned) := scan_compaction_chunk store lower ino chunk scanned in
      scan_lower store ino chunk scanned (resulting_rows + zlen rows) lower_layers
  end.

Definition by_sequence (rows : list DataExtentDelta) : gmap Z DataExtentDelta := list_to_map ((fun row => (ex_sequence row, row)) <$> rows).

(** The end of the slice of a data row that is dropped. *)
Definition retire (retained : gmap Z DataExtentDelta) (retired_slices : gmap Z Z) (row : DataExtentDelta) : gmap Z Z :=
  match retained !! ex_sequence row, ex_kind row with
  | None, Data slice_id slice_offset =>
      let stop := slice_offset + ex_length row in
      <[slice_id := match retired_slices !! slice_id with Some old => Z.max old stop | None => stop end]> retired_slices
  | _, _ => retired_slices
  end.

(** The rows deleted and the rows put for a chunk. *)
Definition chunk_writes (old compacted : list DataExtentDelta) : list RowWrite :=
  let retained := by_sequence compacted in
  let stored := by_sequence old in
  ((fun row => DeleteRow (extent_key row)) <$> filter (fun row => retained !! ex_sequence row = None) old) ++
  (PutRow <$> filter (fun row => stored !! ex_sequence row <> Some row) compacted).

Section compact.
Context (head : Z) (lower_layers : list Z) (reader_limit : Z) (store : Rows).

Definition compact_chunk (ino chunk : Z) (incoming : list DataExtentDelta) (writes : list RowWrite) (retired_slices : gmap Z Z) :
    result WorkspaceError (list RowWrite * gmap Z Z) :=
  let? (old, scanned) := scan_compaction_chunk store head ino chunk 0 in
  let history := old ++ incoming in
  if negb (bool_decide (NoDup (ex_sequence <$> history))) then Err Busy else
  let compacted := coalesce_extent_rows history in
  let? resulting_rows := scan_lower store ino chunk scanned (zlen compacted) lower_layers in
  if reader_limit <? resulting_rows then Err ReaderRowLimit else
  Ok (writes ++ chunk_writes old compacted, foldl (retire (by_sequence compacted)) retired_slices history).

Fixpoint compact_chunks (groups : list (Z * Z * list DataExtentDelta)) (writes : list RowWrite) (retired_slices : gmap Z Z) :
    result WorkspaceError (list RowWrite * gmap Z Z) :=
  match groups with
  | [] => Ok (writes, retired_slices)
  | (ino, chunk, incoming) :: groups =>
      let? (writes, retired_slices) := compact_chunk ino chunk incoming writes retired_slices in
      compact_chunks groups writes retired_slices
  end.

(** [retain_extent_ownership]: the owners to write; one that reaches as far is
    kept. *)
Definition owner_put (owners : Owners) (owner : Z * Z) : option (Z * Z * Z) :=
  let '(slice_id, slice_end) := owner in
  match owners !! (head, slice_id) with
  | Some old => if slice_end <=? old then None else Some (head, slice_id, slice_end)
  | None => Some (head, slice_id, slice_end)
  end.
Definition retain_extent_ownership (slices : gmap Z Z) (owners : Owners) : list (Z * Z * Z) := omap (owner_put owners) (map_to_list slices).

(** The batch for the rows [incoming]: the writes of rows and of owners. *)
Definition compact_extent_history (incoming : list DataExtentDelta) (owners : Owners) : result WorkspaceError (list RowWrite * list (Z * Z * Z)) :=
  let? count := count_incoming head 0 incoming in
  if count =? 0 then Ok ([], []) else
  let groups := foldl push_incoming [] incoming in
  let? (writes, retired_slices) := compact_chunks groups [] ∅ in
  Ok (writes, retain_extent_ownership retired_slices owners).

End compact.

(** ** Stores that resolve alike *)

Record rows_ok (deltas : list DataExtentDelta) : Prop := {
  ro_unsigned : Forall unsigned deltas;
  ro_valid : Forall (fun d => extent_validate d = Ok tt) deltas;
  ro_keys : NoDup (extent_key <$> deltas)
}.

(** The rows of a chunk in a layer. *)
Definition layer_chunk (deltas : list DataExtentDelta) (layer ino ci : Z) : list DataExtentDelta := filter (fun d => ex_layer d = layer /\ of_chunk ino ci d) deltas.

Lemma elem_of_layer_chunk deltas layer ino ci d : d ∈ layer_chunk deltas layer ino ci <-> ex_layer d = layer /\ of_chunk ino ci d /\ d ∈ deltas.
Proof. unfold layer_chunk. rewrite list_elem_of_filter. tauto. Qed.

Lemma NoDup_by {A B C} (f : A -> B) (g : A -> C) (l : list A) : NoDup (f <$> l) -> (forall a b, a ∈ l -> b ∈ l -> g a = g b -> f a = f b) -> NoDup (g <$> l).
Proof.
  induction l as [|a l IH]; [constructor|]. rewrite !fmap_cons, !NoDup_cons. intros [Ha Hn] Hi. split.
  - rewrite list_elem_of_fmap. intros (b & Eb & Hb). apply Ha. rewrite (Hi a b); [|by left|by right|done]. apply list_elem_of_fmap. by exists b.
  - apply IH; [done|]. intros b c Hb Hc. apply Hi; by right.
Qed.

Lemma NoDup_filter_fmap {A B} (f : A -> B) (P : A -> Prop) `{!forall x, Decision (P x)} l : NoDup (f <$> l) -> NoDup (f <$> filter P l).
Proof. intros Hl. eapply sublist_NoDup; [exact Hl|]. apply fmap_sublist, sublist_filter. Qed.

Lemma Forall_filtered {A} (Q P : A -> Prop) `{!forall x, Decision (P x)} l : Forall Q l -> Forall Q (filter P l).
Proof. rewrite !Forall_forall. intros Hl x [_ Hx]%list_elem_of_filter. by apply Hl. Qed.

Lemma filter_same {A} (P Q : A -> Prop) `{!forall x, Decision (P x), !forall x, Decision (Q x)} l : Forall (fun x => P x <-> Q x) l -> filter P l = filter Q l.
Proof. induction 1 as [|x l Hx _ IH]; [done|]. rewrite !filter_cons, IH. apply decide_ext, Hx. Qed.

Lemma layer_chunk_distinct deltas layer ino ci : rows_ok deltas -> NoDup (ex_sequence <$> layer_chunk deltas layer ino ci).
Proof.
  intros [_ _ Hk]. eapply NoDup_by; [by apply NoDup_filter_fmap, Hk|]. intros a b (Ea & [Ea1 Ea2] & _)%elem_of_layer_chunk (Eb & [Eb1 Eb2] & _)%elem_of_layer_chunk Es.
  unfold extent_key. congruence.
Qed.

Lemma chunk_rows_valid chain deltas ino ci : rows_ok deltas ->
  Forall (fun d => extent_validate d = Ok tt) (chunk_rows chain deltas ino ci) /\ NoDup ((fun d => (ex_layer d, ex_sequence d)) <$> chunk_rows chain deltas ino ci).
Proof.
  intros [_ Hv Hk]. unfold chunk_rows. split; [by apply Forall_filtered|]. eapply NoDup_by; [by apply NoDup_filter_fmap, Hk|].
  intros a b [[_ [Ea1 Ea2]] _]%list_elem_of_filter [[_ [Eb1 Eb2]] _]%list_elem_of_filter. unfold extent_key. congruence.
Qed.

Lemma layer_chunk_of_layer deltas layer ino ci : rows_ok deltas -> Forall (of_layer layer ino ci) (layer_chunk deltas layer ino ci).
Proof.
  intros [Hu Hv _]. rewrite Forall_forall in *. intros d (El & Hc & Hd)%elem_of_layer_chunk. split_and!; [done|done|]. apply valid_row_ok; auto.
Qed.

Section same.
Context (deltas deltas' : list DataExtentDelta) (ino ci : Z).
Context (Hok : rows_ok deltas) (Hok' : rows_ok deltas').
Context (Hsame : forall layer x k, shows (layer_chunk deltas layer ino ci) x k -> shows (layer_chunk deltas' layer ino ci) x k).

Lemma top_at_layer layer x : (fun d => place d x) <$> top_at (layer_extents deltas ino ci layer) x = (fun d => place d x) <$> top_at (layer_extents deltas' ino ci layer) x.
Proof using Hok' Hsame.
  eapply (shows_unique (layer_chunk deltas' layer ino ci) x); [by apply layer_chunk_distinct|apply Hsame|]; apply shows_top.
Qed.

Lemma top_at_ranked layers x : (fun d => place d x) <$> top_at (ranked deltas ino ci layers) x = (fun d => place d x) <$> top_at (ranked deltas' ino ci layers) x.
Proof using Hok' Hsame.
  induction layers as [|layer layers IH]; [done|]. unfold ranked. cbn [fmap list_fmap concat]. fold (ranked deltas ino ci layers) (ranked deltas' ino ci layers).
  rewrite !top_at_app. pose proof (top_at_layer (layer_id layer) x) as E.
  destruct (top_at (layer_extents deltas ino ci (layer_id layer)) x), (top_at (layer_extents deltas' ino ci (layer_id layer)) x); done.
Qed.

Lemma resolve_same chain start stop : 0 <= start -> stop < u64_modulus -> resolve_extents chain deltas' ino ci start stop = resolve_extents chain deltas ino ci start stop.
Proof using Hok Hok' Hsame.
  intros H0 Hs. destruct (check_chain chain) as [[]|e] eqn:Hc; [|unfold resolve_extents, resolve_extent_coverage; by rewrite Hc].
  destruct (decide (stop <= start)) as [Hle|Hlt].
  { unfold resolve_extents, resolve_extent_coverage. rewrite Hc. cbn [result_bind]. destruct (Z.ltb_spec stop start); [done|]. by rewrite (proj2 (Z.eqb_eq start stop)) by lia. }
  destruct (chunk_rows_valid chain deltas ino ci Hok) as [V1 N1], (chunk_rows_valid chain deltas' ino ci Hok') as [V2 N2].
  destruct (resolve_extents_ok chain deltas ino ci start stop (ro_unsigned _ Hok) ltac:(lia) Hs Hc V1 N1) as (out & -> & T1 & M1 & B1 & K1).
  destruct (resolve_extents_ok chain deltas' ino ci start stop (ro_unsigned _ Hok') ltac:(lia) Hs Hc V2 N2) as (out' & -> & T2 & M2 & B2 & K2).
  f_equal. apply (maximal_tiles_unique stop out' start out); try done. intros p q x Hp Hq Hpx Hqx. rewrite (K2 p x Hp Hpx), (K1 q x Hq Hqx).
  pose proof (top_at_ranked chain x) as E. destruct (top_at (ranked deltas _ _ _) x), (top_at (ranked deltas' _ _ _) x); cbn in E; congruence.
Qed.
End same.

(** ** The store *)

Definition row_fine (key : Z * Z * Z * Z) (row : DataExtentDelta) : Prop := extent_key row = key /\ unsigned row /\ extent_validate row = Ok tt.
Definition store_ok (store : Rows) : Prop := map_Forall row_fine store.

Lemma elem_of_rows_of store d : store_ok store -> d ∈ rows_of store <-> store !! extent_key d = Some d.
Proof.
  intros Hok. unfold rows_of. rewrite list_elem_of_fmap. split.
  - intros ([k d'] & -> & Hin%elem_of_map_to_list). cbn. destruct (Hok k d' Hin) as [-> _]. done.
  - intros H. exists (extent_key d, d). split; [done|]. by apply elem_of_map_to_list.
Qed.

Lemma rows_of_ok store : store_ok store -> rows_ok (rows_of store).
Proof.
  intros Hok. split.
  - apply Forall_forall. intros d Hd%elem_of_rows_of; [|done]. by destruct (Hok _ _ Hd) as (_ & ? & _).
  - apply Forall_forall. intros d Hd%elem_of_rows_of; [|done]. by destruct (Hok _ _ Hd) as (_ & _ & ?).
  - unfold rows_of. rewrite <-list_fmap_compose. erewrite list_fmap_ext; [apply NoDup_fst_map_to_list|]. intros i [k d] H. cbn.
    apply list_elem_of_lookup_2, elem_of_map_to_list in H. by destruct (Hok _ _ H) as [? _].
Qed.

Definition chunk_of (key : Z * Z * Z * Z) : Z * Z * Z := key.1.

Lemma elem_of_layer_rows store layer ino ci d : store_ok store ->
  d ∈ layer_chunk (rows_of store) layer ino ci <-> chunk_of (extent_key d) = (layer, ino, ci) /\ store !! (layer, ino, ci, ex_sequence d) = Some d.
Proof.
  intros Hok. rewrite elem_of_layer_chunk, elem_of_rows_of by done. unfold of_chunk, chunk_of, extent_key. cbn. split.
  - intros (<- & (<- & <-) & H). done.
  - intros [[= <- <- <-] H]. done.
Qed.

Lemma apply_deletes rows : forall store key,
  apply_writes store ((fun row => DeleteRow (extent_key row)) <$> rows) !! key = if decide (key ∈ extent_key <$> rows) then None else store !! key.
Proof.
  unfold apply_writes. induction rows as [|row rows IH]; intros store key; [done|]. rewrite !fmap_cons. cbn [foldl apply_write]. rewrite IH.
  destruct (decide (key = extent_key row)) as [->|Hne].
  - rewrite lookup_delete_eq. rewrite (decide_True (P := _ ∈ _ :: _)) by (by left). by case_decide.
  - rewrite lookup_delete_ne by done. apply decide_ext. rewrite elem_of_cons. tauto.
Qed.

Lemma apply_puts_other rows : forall store key, (key ∉ extent_key <$> rows) -> apply_writes store (PutRow <$> rows) !! key = store !! key.
Proof.
  unfold apply_writes. induction rows as [|row rows IH]; intros store key Hno; [done|]. rewrite fmap_cons, not_elem_of_cons in Hno. destruct Hno as [Hne Hno].
  cbn [fmap list_fmap foldl apply_write]. rewrite IH by done. by apply lookup_insert_ne.
Qed.

Lemma apply_puts rows : forall store row, NoDup (extent_key <$> rows) -> row ∈ rows -> apply_writes store (PutRow <$> rows) !! extent_key row = Some row.
Proof.
  induction rows as [|r rows IH]; intros store row Hn Hin; [by apply elem_of_nil in Hin|]. rewrite fmap_cons, NoDup_cons in Hn. destruct Hn as [Hno Hn].
  unfold apply_writes. cbn [fmap list_fmap foldl apply_write]. fold (apply_writes (<[extent_key r := r]> store) (PutRow <$> rows)).
  apply elem_of_cons in Hin as [->|Hin]; [|by apply IH]. rewrite apply_puts_other by done. apply lookup_insert_eq.
Qed.

Lemma by_sequence_Some rows s d : NoDup (ex_sequence <$> rows) -> by_sequence rows !! s = Some d <-> d ∈ rows /\ ex_sequence d = s.
Proof.
  intros Hn. unfold by_sequence. rewrite <-elem_of_list_to_map by (rewrite <-list_fmap_compose; exact Hn). rewrite list_elem_of_fmap. split.
  - intros (d' & [= -> ->] & Hd). done.
  - intros [Hd <-]. by exists d.
Qed.

Lemma by_sequence_None rows s : by_sequence rows !! s = None <-> s ∉ ex_sequence <$> rows.
Proof. unfold by_sequence. rewrite <-not_elem_of_list_to_map, <-list_fmap_compose. done. Qed.

(** ** One chunk *)

Section chunk.
Context (layer ino ci : Z).

Definition of_key (d : DataExtentDelta) : Prop := chunk_of (extent_key d) = (layer, ino, ci).

Lemma of_key_eq d s : of_key d -> extent_key d = (layer, ino, ci, s) <-> ex_sequence d = s.
Proof. unfold of_key, chunk_of, extent_key. cbn. intros [= -> -> ->]. split; [by intros [= ->]|by intros ->]. Qed.

Lemma elem_of_keys rows s : Forall of_key rows -> (layer, ino, ci, s) ∈ extent_key <$> rows <-> s ∈ ex_sequence <$> rows.
Proof.
  intros Hk. rewrite Forall_forall in Hk. rewrite !list_elem_of_fmap. split; intros (d & E & Hd); exists d; (split; [|done]); symmetry; symmetry in E; by apply (of_key_eq d s (Hk d Hd)).
Qed.

Lemma chunk_writes_lookup old compacted store s : Forall of_key old -> Forall of_key compacted -> NoDup (ex_sequence <$> old) -> NoDup (ex_sequence <$> compacted) ->
  (forall s, store !! (layer, ino, ci, s) = by_sequence old !! s) -> apply_writes store (chunk_writes old compacted) !! (layer, ino, ci, s) = by_sequence compacted !! s.
Proof.
  intros Ko Kc No Nc Hst. unfold chunk_writes, apply_writes. rewrite foldl_app. set (del := foldl _ store _). set (puts := filter _ compacted).
  assert (Forall of_key puts) as Kp by (by apply Forall_filtered).
  assert (del !! (layer, ino, ci, s) = if decide (s ∈ ex_sequence <$> filter (fun row => by_sequence compacted !! ex_sequence row = None) old) then None else by_sequence old !! s) as Hdel.
  { unfold del. fold (apply_writes store ((fun row => DeleteRow (extent_key row)) <$> filter (fun row => by_sequence compacted !! ex_sequence row = None) old)).
    rewrite apply_deletes, Hst. apply decide_ext, elem_of_keys. by apply Forall_filtered. }
  fold (apply_writes del (PutRow <$> puts)). destruct (by_sequence compacted !! s) as [d|] eqn:E.
  - pose proof E as [Hd Es]%by_sequence_Some; [|done]. destruct (decide (by_sequence old !! s = Some d)) as [Ed|Ed].
    + rewrite apply_puts_other, Hdel, decide_False; [done| |].
      * intros (r & -> & [Hr _]%list_elem_of_filter)%list_elem_of_fmap. congruence.
      * rewrite elem_of_keys by done. intros (r & Er & [Hr Hin]%list_elem_of_filter)%list_elem_of_fmap. apply Hr. rewrite <-Er.
        assert (by_sequence compacted !! s = Some r) by (by apply by_sequence_Some). congruence.
    + rewrite Forall_forall in Kc. rewrite <-(proj2 (of_key_eq d s (Kc d Hd)) Es). apply apply_puts.
      * eapply NoDup_by; [by apply NoDup_filter_fmap, Nc|]. intros a b _ _ Eab. by injection Eab.
      * apply list_elem_of_filter. by rewrite Es.
  - apply by_sequence_None in E as Hno. rewrite apply_puts_other, Hdel; [|rewrite elem_of_keys by done; intros (r & -> & [_ Hin]%list_elem_of_filter)%list_elem_of_fmap; apply Hno, list_elem_of_fmap; by exists r].
    case_decide as Hs; [done|]. destruct (by_sequence old !! s) as [r|] eqn:Er; [|done]. apply by_sequence_Some in Er as [Hr <-]; [|done].
    destruct Hs. apply list_elem_of_fmap. exists r. split; [done|]. by apply list_elem_of_filter.
Qed.

Lemma chunk_writes_other old compacted store key : Forall of_key old -> Forall of_key compacted -> chunk_of key <> (layer, ino, ci) ->
  apply_writes store (chunk_writes old compacted) !! key = store !! key.
Proof.
  intros Ko Kc Hne. assert (forall rows, Forall of_key rows -> key ∉ extent_key <$> rows) as Hno.
  { intros rows Hr (d & -> & Hd)%list_elem_of_fmap. rewrite Forall_forall in Hr. by apply Hne, Hr. }
  unfold chunk_writes, apply_writes. rewrite foldl_app. fold (apply_writes store ((fun row => DeleteRow (extent_key row)) <$> filter (fun row => by_sequence compacted !! ex_sequence row = None) old)).
  rewrite (apply_puts_other (filter _ compacted)), apply_deletes, decide_False; [done| |]; apply Hno; by apply Forall_filtered.
Qed.
End chunk.

(** The rows of a chunk are the ones its keys hold. *)
Lemma layer_chunk_lookup store layer ino ci s : store_ok store -> by_sequence (layer_chunk (rows_of store) layer ino ci) !! s = store !! (layer, ino, ci, s).
Proof.
  intros Hok. pose proof (layer_chunk_distinct _ layer ino ci (rows_of_ok store Hok)) as Hn. apply option_eq. intros d. rewrite by_sequence_Some by done. rewrite elem_of_layer_rows by done. split.
  - intros [[_ H] <-]. done.
  - intros H. destruct (Hok _ _ H) as (Hk & _ & _). unfold chunk_of. rewrite Hk. unfold extent_key in Hk. injection Hk as <- <- <- <-. done.
Qed.

Lemma layer_chunk_perm store rows layer ino ci : store_ok store -> NoDup (ex_sequence <$> rows) -> Forall (of_key layer ino ci) rows ->
  (forall s, store !! (layer, ino, ci, s) = by_sequence rows !! s) -> layer_chunk (rows_of store) layer ino ci ≡ₚ rows.
Proof.
  intros Hok Hn Hk Hs. apply list.NoDup_Permutation.
  - apply (NoDup_fmap_1 ex_sequence). by apply layer_chunk_distinct, rows_of_ok.
  - by apply (NoDup_fmap_1 ex_sequence).
  - intros d. rewrite elem_of_layer_rows, Hs, by_sequence_Some by done. rewrite Forall_forall in Hk. split; [by intros (_ & ? & _)|]. intros Hd. split_and!; [by apply Hk|done|done].
Qed.

Lemma layer_chunk_of_key deltas layer ino ci : Forall (of_key layer ino ci) (layer_chunk deltas layer ino ci).
Proof. apply Forall_forall. intros d (<- & [<- <-] & _)%elem_of_layer_chunk. done. Qed.

Lemma of_layer_key layer ino ci d : of_layer layer ino ci d -> of_key layer ino ci d.
Proof. intros (<- & [<- <-] & _). done. Qed.

(** Rows put without compaction. *)
Lemma apply_puts_chunk rows : forall store key,
  apply_writes store (PutRow <$> rows) !! key = apply_writes store (PutRow <$> filter (fun d => chunk_of (extent_key d) = chunk_of key) rows) !! key.
Proof.
  unfold apply_writes. induction rows as [|row rows IH] using rev_ind; intros store key; [done|]. rewrite filter_app, !fmap_app, !foldl_app, filter_cons, filter_nil. cbn [fmap list_fmap foldl apply_write].
  case_decide as E; cbn [fmap list_fmap foldl apply_write].
  - destruct (decide (extent_key row = key)) as [->|Hne]; [by rewrite !lookup_insert_eq|]. by rewrite !lookup_insert_ne by done.
  - rewrite lookup_insert_ne by congruence. apply IH.
Qed.

Lemma put_lookup store layer ino ci old incoming s : store_ok store -> old ≡ₚ layer_chunk (rows_of store) layer ino ci -> Forall (of_key layer ino ci) incoming ->
  NoDup (ex_sequence <$> old ++ incoming) -> apply_writes store (PutRow <$> incoming) !! (layer, ino, ci, s) = by_sequence (old ++ incoming) !! s.
Proof.
  intros Hok Ho Hk Hn. pose proof Hn as Hn'. rewrite fmap_app in Hn'. apply NoDup_app in Hn' as (No & Hd & Ni). rewrite Forall_forall in Hk.
  destruct (decide (s ∈ ex_sequence <$> incoming)) as [(d & -> & Hin)%list_elem_of_fmap|Hs].
  - rewrite (proj2 (by_sequence_Some _ _ d Hn)) by (split; [apply elem_of_app; by right|done]). rewrite <-(proj2 (of_key_eq _ _ _ d (ex_sequence d) (Hk d Hin)) eq_refl).
    apply apply_puts; [|done]. eapply NoDup_by; [exact Ni|]. intros a b _ _ Eab. by injection Eab.
  - rewrite apply_puts_other by (rewrite (elem_of_keys layer ino ci) by (by apply Forall_forall); done). rewrite <-layer_chunk_lookup by done. apply option_eq. intros d.
    rewrite !by_sequence_Some; [|done|by apply layer_chunk_distinct, rows_of_ok]. rewrite elem_of_app, <-Ho. split; [tauto|]. intros [[?|Hin] <-]; [done|]. destruct Hs. apply list_elem_of_fmap. by exists d.
Qed.

(** ** Slice owners *)

Definition reaches {K} `{Countable K} (m : gmap K Z) (k : K) (stop : Z) : Prop := exists stop', m !! k = Some stop' /\ stop <= stop'.

Lemma reaches_insert {K} `{Countable K} (m : gmap K Z) k k' v stop : (forall old, m !! k' = Some old -> old <= v) -> reaches m k stop -> reaches (<[k' := v]> m) k stop.
Proof.
  intros Hv (e & He & Hle). destruct (decide (k = k')) as [->|Hne]; [|exists e; by rewrite lookup_insert_ne]. exists v. rewrite lookup_insert_eq. split; [done|]. specialize (Hv e He). lia.
Qed.

Lemma retire_mono retained rows : forall m id stop, reaches m id stop -> reaches (foldl (retire retained) m rows) id stop.
Proof.
  induction rows as [|row rows IH]; intros m id stop H; [done|]. apply IH. unfold retire. destruct (retained !! ex_sequence row), (ex_kind row) as [i off|]; try done.
  apply reaches_insert; [|done]. intros old ->. lia.
Qed.

Lemma retire_reaches retained rows d id off : forall m, d ∈ rows -> retained !! ex_sequence d = None -> ex_kind d = Data id off ->
  reaches (foldl (retire retained) m rows) id (off + ex_length d).
Proof.
  induction rows as [|row rows IH]; intros m Hd Hr Hk; [by apply elem_of_nil in Hd|]. apply elem_of_cons in Hd as [->|Hd]; cbn [foldl]; [|by apply IH]. apply retire_mono. unfold retire. rewrite Hr, Hk.
  eexists. rewrite lookup_insert_eq. split; [done|]. destruct (m !! id); lia.
Qed.

Lemma owner_puts_distinct head slices owners : NoDup (retain_extent_ownership head slices owners).*1.
Proof.
  unfold retain_extent_ownership. pose proof (NoDup_fst_map_to_list slices) as Hn. revert Hn. generalize (map_to_list slices). intros l Hn.
  induction l as [|[id e] l IH]; [constructor|]. rewrite fmap_cons, NoDup_cons in Hn. destruct Hn as [Hno Hn]. cbn [omap list_omap]. destruct (owner_put head owners (id, e)) as [o|] eqn:E; [|by apply IH].
  rewrite fmap_cons. apply NoDup_cons. split; [|by apply IH]. intros ([k e'] & Ek & ([id' e''] & Hin & E')%list_elem_of_omap)%list_elem_of_fmap. apply Hno. apply list_elem_of_fmap. exists (id', e''). split; [|done]. cbn in *.
  assert (o.1 = (head, id)) as E1 by (unfold owner_put in E; repeat case_match; by simplify_eq). assert (k = (head, id')) as E2 by (unfold owner_put in E'; repeat case_match; by simplify_eq). congruence.
Qed.

Lemma owner_put_elem head slices owners key e : (key, e) ∈ retain_extent_ownership head slices owners <->
  exists id, key = (head, id) /\ slices !! id = Some e /\ (forall old, owners !! key = Some old -> old < e).
Proof.
  unfold retain_extent_ownership. rewrite list_elem_of_omap. setoid_rewrite <-(fun id e => elem_of_map_to_list slices id e). split.
  - intros ([id e'] & Hin & E). exists id. unfold owner_put in E. destruct (owners !! (head, id)) as [old|] eqn:Eo; [destruct (Z.leb_spec e' old)|]; simplify_eq; split_and!; try done; intros old' ?; simplify_eq; lia.
  - intros (id & -> & Hin & Ho). exists (id, e). split; [done|]. unfold owner_put. destruct (owners !! (head, id)) as [old|] eqn:Eo; [|done]. specialize (Ho old eq_refl). by rewrite (proj2 (Z.leb_gt _ _)).
Qed.

Lemma apply_owners_lookup head slices owners key : apply_owners owners (retain_extent_ownership head slices owners) !! key =
  match list_to_map (M := Owners) (retain_extent_ownership head slices owners) !! key with Some e => Some e | None => owners !! key end.
Proof. unfold apply_owners. rewrite lookup_union. destruct (list_to_map _ !! key), (owners !! key); done. Qed.

Lemma retain_mono head slices owners key stop : reaches owners key stop -> reaches (apply_owners owners (retain_extent_ownership head slices owners)) key stop.
Proof.
  intros (e & He & Hle). unfold reaches. rewrite apply_owners_lookup. destruct (list_to_map _ !! key) as [e'|] eqn:E; [|by exists e].
  apply elem_of_list_to_map in E; [|apply owner_puts_distinct]. apply owner_put_elem in E as (id & _ & _ & Ho). specialize (Ho e He). exists e'. split; [done|lia].
Qed.

Lemma retain_reaches head slices owners id stop : reaches slices id stop -> reaches (apply_owners owners (retain_extent_ownership head slices owners)) (head, id) stop.
Proof.
  intros (e & He & Hle). unfold reaches. rewrite apply_owners_lookup. destruct (list_to_map _ !! (head, id)) as [e'|] eqn:E.
  - apply elem_of_list_to_map in E; [|apply owner_puts_distinct]. apply owner_put_elem in E as (id' & [= <-] & He' & _). exists e'. split; [done|]. simplify_eq. lia.
  - apply not_elem_of_list_to_map in E. destruct (owners !! (head, id)) as [old|] eqn:Eo; [destruct (decide (old < e))|].
    + destruct E. apply list_elem_of_fmap. exists (head, id, e). split; [done|]. apply owner_put_elem. exists id. split_and!; [done|done|]. intros old' ?. by simplify_eq.
    + exists old. split; [done|lia].
    + destruct E. apply list_elem_of_fmap. exists (head, id, e). split; [done|]. apply owner_put_elem. exists id. split_and!; [done|done|]. intros old' ?. by simplify_eq.
Qed.

(** ** The chunks of a batch *)

Section batch.
Context (head : Z) (lower_layers : list Z) (reader_limit : Z) (store : Rows) (store_fine : store_ok store).

(** The rows of a chunk before compaction. *)
Definition history (ino ci : Z) (incoming : list DataExtentDelta) : list DataExtentDelta :=
  sort_by_key ex_sequence (layer_chunk (rows_of store) head ino ci) ++ incoming.

Definition in_chunk (ino ci : Z) (d : DataExtentDelta) : Prop := ex_layer d = head /\ of_chunk ino ci d /\ unsigned d /\ extent_validate d = Ok tt.

Lemma history_of_layer ino ci incoming : Forall (in_chunk ino ci) incoming -> Forall (of_layer head ino ci) (history ino ci incoming).
Proof using store_fine.
  intros Hi. apply Forall_app. split; [rewrite sort_by_key_perm; by apply layer_chunk_of_layer, rows_of_ok|]. eapply Forall_impl; [exact Hi|].
  intros d (El & Hc & Hu & Hv). split_and!; [done|done|by apply valid_row_ok].
Qed.

(** What the batch does for a chunk: the keys of the chunk hold the compacted rows,
    and the slice of a data row that is dropped is retired to its end. *)
Record chunk_done (retired : gmap Z Z) (store' : Rows) (group : Z * Z * list DataExtentDelta) : Prop := {
  cd_distinct : NoDup (ex_sequence <$> history group.1.1 group.1.2 group.2);
  cd_lookup : forall s, store' !! (head, group.1.1, group.1.2, s) = by_sequence (coalesce_extent_rows (history group.1.1 group.1.2 group.2)) !! s;
  cd_retired : forall d id off, d ∈ history group.1.1 group.1.2 group.2 -> ex_kind d = Data id off ->
    (ex_sequence d ∉ ex_sequence <$> coalesce_extent_rows (history group.1.1 group.1.2 group.2)) -> reaches retired id (off + ex_length d)
}.

Lemma compact_chunk_ok ino ci incoming writes retired writes' retired' : Forall (in_chunk ino ci) incoming ->
  compact_chunk head lower_layers reader_limit store ino ci incoming writes retired = Ok (writes', retired') ->
  exists w, writes' = writes ++ w /\ (forall id stop, reaches retired id stop -> reaches retired' id stop) /\
    (forall store' key, chunk_of key <> (head, ino, ci) -> apply_writes store' w !! key = store' !! key) /\
    forall store', (forall s, store' !! (head, ino, ci, s) = store !! (head, ino, ci, s)) -> chunk_done retired' (apply_writes store' w) (ino, ci, incoming).
Proof using store_fine.
  intros Hi. unfold compact_chunk, scan_compaction_chunk. fold (layer_chunk (rows_of store) head ino ci). set (old := sort_by_key ex_sequence _).
  destruct (RECOVERY_MAX_ROWS <? 0 + zlen old); [done|]. destruct (validate_rows old); [|done]. cbn [result_bind]. fold (history ino ci incoming).
  case_bool_decide as Hn; [|done]. cbn [negb]. set (compacted := coalesce_extent_rows _). destruct (scan_lower _ _ _ _ _ _) as [n|]; [|done]. cbn [result_bind].
  destruct (reader_limit <? n); [done|]. intros [= <- <-]. exists (chunk_writes old compacted).
  destruct (coalesce_replaces head ino ci _ (history_of_layer ino ci incoming Hi) Hn) as [[R1 R2 _ _ _] _]. fold compacted in R1, R2.
  assert (Forall (of_key head ino ci) old) as Ko by (unfold old; rewrite sort_by_key_perm; apply layer_chunk_of_key).
  assert (Forall (of_key head ino ci) compacted) as Kc by (eapply Forall_impl; [exact R1|apply of_layer_key]).
  assert (NoDup (ex_sequence <$> old)) as No by (unfold old; rewrite sort_by_key_perm; by apply layer_chunk_distinct, rows_of_ok).
  split_and!; [done|apply retire_mono|intros store' key; by apply chunk_writes_other|]. intros store' Hst. split; cbn [fst snd].
  - done.
  - intros s. apply chunk_writes_lookup; [done|done|done|done|]. intros s'. rewrite Hst, <-layer_chunk_lookup by done.
    apply option_eq. intros d. rewrite !by_sequence_Some; [|done|by apply layer_chunk_distinct, rows_of_ok]. unfold old. by rewrite sort_by_key_perm.
  - intros d id off Hd Hk Hs. by apply retire_reaches; [|apply by_sequence_None|].
Qed.

Lemma compact_chunks_ok groups : forall writes retired writes' retired', NoDup (fst <$> groups) -> Forall (fun g => Forall (in_chunk g.1.1 g.1.2) g.2) groups ->
  compact_chunks head lower_layers reader_limit store groups writes retired = Ok (writes', retired') ->
  exists w, writes' = writes ++ w /\ (forall id stop, reaches retired id stop -> reaches retired' id stop) /\
    (forall store' key, (forall g, g ∈ groups -> chunk_of key <> (head, g.1.1, g.1.2)) -> apply_writes store' w !! key = store' !! key) /\
    forall store', (forall g s, g ∈ groups -> store' !! (head, g.1.1, g.1.2, s) = store !! (head, g.1.1, g.1.2, s)) -> Forall (chunk_done retired' (apply_writes store' w)) groups.
Proof using store_fine.
  induction groups as [|[[ino ci] incoming] groups IH]; intros writes retired writes' retired' Hn Hf; cbn [compact_chunks].
  { intros [= <- <-]. exists []. rewrite app_nil_r. by split_and!. }
  apply list.Forall_cons in Hf as [Hi Hf]. rewrite fmap_cons, NoDup_cons in Hn. destruct Hn as [Hno Hn]. cbn [fst snd] in *.
  destruct (compact_chunk _ _ _ _ _ _ _ _ _) as [[w1 r1]|] eqn:E1; [|done]. cbn [result_bind]. intros E2.
  destruct (compact_chunk_ok _ _ _ _ _ _ _ Hi E1) as (wa & -> & Ma & Oa & Da). destruct (IH _ _ _ _ Hn Hf E2) as (wb & -> & Mb & Ob & Db).
  assert (forall g, g ∈ groups -> (head, g.1.1, g.1.2) <> (head, ino, ci)) as Hother.
  { intros [[i c] l] Hg [= -> ->]. apply Hno. apply list_elem_of_fmap. by exists (ino, ci, l). }
  exists (wa ++ wb). unfold apply_writes in *. setoid_rewrite foldl_app. split_and!; [by rewrite app_assoc|auto| |].
  - intros store' key Hk. rewrite Ob by (intros g Hg; apply Hk; by right). apply Oa. by apply (Hk (ino, ci, incoming)); left.
  - intros store' Hst. constructor.
    + destruct (Da store') as [D1 D2 D3]; [intros s; by apply (Hst (ino, ci, incoming)); left|]. cbn [fst snd] in *. split; cbn [fst snd]; [done| |eauto].
      intros s. rewrite Ob; [apply D2|]. intros g Hg E. by apply (Hother g Hg).
    + apply Db. intros g s Hg. rewrite Oa; [apply Hst; by right|]. by apply Hother.
Qed.
End batch.

#[export] Instance chunk_order : KeyOrder chunk_ltb.
Proof.
  split.
  - intros [i c]. unfold chunk_ltb. cbn. lia.
  - intros [i1 c1] [i2 c2] [i3 c3]. unfold chunk_ltb. cbn. lia.
  - intros [i1 c1] [i2 c2] Hne. unfold chunk_ltb. cbn. assert (i1 <> i2 \/ c1 <> c2) by (destruct (decide (i1 = i2)); [right; congruence|by left]). lia.
Qed.

(** Each group has the rows of its chunk, in the order of the writes. *)
Lemma groups_ok incoming : bt_ok chunk_ltb (foldl push_incoming [] incoming) /\
  forall k, default [] (bt_get k (foldl push_incoming [] incoming)) = filter (fun d => (ex_ino d, ex_chunk d) = k) incoming.
Proof.
  induction incoming as [|d incoming [IH1 IH2]] using rev_ind; [split; [constructor|done]|]. rewrite foldl_app. cbn [foldl]. unfold push_incoming at 1 3. split; [apply bt_insert_ok; [apply _|done]|].
  intros k. rewrite filter_app, filter_cons, filter_nil. case_decide as E.
  - rewrite E, bt_get_insert, IH2. done.
  - rewrite bt_get_insert_ne by done. by rewrite IH2, app_nil_r.
Qed.

Lemma count_incoming_ok head rows : forall count n, count_incoming head count rows = Ok n ->
  n = count + zlen rows /\ Forall (fun d => ex_layer d = head /\ extent_validate d = Ok tt) rows.
Proof.
  induction rows as [|row rows IH]; intros count n; cbn [count_incoming]; [intros [= <-]; split; [cbn; lia|constructor]|].
  unfold incoming_extent. destruct (extent_validate row) as [[]|] eqn:Ev; cbn [result_bind]; [|done]. destruct (Z.eqb_spec (ex_layer row) head) as [El|]; cbn [result_bind]; [|done].
  destruct (DELTA_SCAN_MAX_ROWS <? count + 1); [done|]. intros [-> Hf]%IH. split; [rewrite length_cons; lia|]. by constructor.
Qed.

Lemma of_layer_fine layer ino ci d : of_layer layer ino ci d -> row_fine (layer, ino, ci, ex_sequence d) d.
Proof.
  intros (<- & [<- <-] & H1 & H2 & H3 & H4). split_and!; [done|unfold unsigned; destruct (ex_kind d); lia|].
  unfold extent_validate. rewrite (proj2 (Z.eqb_neq _ _)) by lia. unfold u64_checked_add. rewrite (proj2 (Z.ltb_lt _ _)) by lia. cbn [of_option result_bind].
  destruct (ex_kind d); [|done]. by rewrite (proj2 (Z.ltb_lt _ _)) by lia.
Qed.

Section publish.
Context (head : Z) (store : Rows) (store_fine : store_ok store) (incoming : list DataExtentDelta).
Context (incoming_fine : Forall (fun d => unsigned d /\ ex_layer d = head /\ extent_validate d = Ok tt) incoming).
Context (retired : gmap Z Z) (after : Rows).
Abbreviation groups := (foldl push_incoming [] incoming).
Context (Hdone : Forall (chunk_done head store retired after) groups).
Context (Hother : forall key, (forall g, g ∈ groups -> chunk_of key <> (head, g.1.1, g.1.2)) -> after !! key = store !! key).
Abbreviation before := (apply_writes store (PutRow <$> incoming)).

Lemma group_rows g : g ∈ groups -> g.2 = filter (fun d => (ex_ino d, ex_chunk d) = g.1) incoming /\ Forall (in_chunk head g.1.1 g.1.2) g.2.
Proof using incoming_fine.
  intros Hg. destruct g as [k rows]. destruct (groups_ok incoming) as [Hok Hget]. assert (bt_get k groups = Some rows) as E by (by apply (bt_get_elem chunk_ltb)).
  specialize (Hget k). rewrite E in Hget. cbn in Hget |- *. split; [done|]. rewrite Hget. rewrite Forall_forall in *. intros d [<- Hd]%list_elem_of_filter. destruct (incoming_fine d Hd) as (? & ? & ?). done.
Qed.

(** A chunk is written by a group, or neither way of publishing changes it. *)
Lemma chunk_cases layer ino ci : (exists g, g ∈ groups /\ (layer, ino, ci) = (head, g.1.1, g.1.2)) \/
  forall s, after !! (layer, ino, ci, s) = store !! (layer, ino, ci, s) /\ before !! (layer, ino, ci, s) = store !! (layer, ino, ci, s).
Proof using Hother incoming_fine.
  destruct (groups_ok incoming) as [Hok Hget]. specialize (Hget (ino, ci)). destruct (bt_get (ino, ci) groups) as [rows|] eqn:E; [destruct (decide (layer = head)) as [->|Hne]|].
  - left. exists (ino, ci, rows). split; [by apply (bt_get_elem chunk_ltb)|done].
  - right. intros s. split; [apply Hother; intros g _; unfold chunk_of; cbn; congruence|]. apply apply_puts_other. intros (d & Ed & Hd)%list_elem_of_fmap.
    rewrite Forall_forall in incoming_fine. destruct (incoming_fine d Hd) as (_ & El & _). unfold extent_key in Ed. congruence.
  - right. intros s. split.
    + apply Hother. intros [[i c] rows] Hg. unfold chunk_of. cbn. intros [= -> -> ->]. apply (bt_get_elem chunk_ltb) in Hg; [|done]. congruence.
    + apply apply_puts_other. intros (d & Ed & Hd)%list_elem_of_fmap. unfold extent_key in Ed. injection Ed as _ -> -> _. cbn in Hget. assert (d ∈ ([] : list DataExtentDelta)) as ?%elem_of_nil; [|done].
      rewrite Hget. by apply list_elem_of_filter.
Qed.

Lemma group_history g : g ∈ groups -> replaces head g.1.1 g.1.2 (history head store g.1.1 g.1.2 g.2) (coalesce_extent_rows (history head store g.1.1 g.1.2 g.2)) /\
  (forall d, d ∈ history head store g.1.1 g.1.2 g.2 -> ~ is_hole d ->
     d ∈ coalesce_extent_rows (history head store g.1.1 g.1.2 g.2) \/ ex_sequence d ∉ ex_sequence <$> coalesce_extent_rows (history head store g.1.1 g.1.2 g.2)) /\
  Forall (of_key head g.1.1 g.1.2) (history head store g.1.1 g.1.2 g.2) /\
  forall s, before !! (head, g.1.1, g.1.2, s) = by_sequence (history head store g.1.1 g.1.2 g.2) !! s.
Proof using store_fine incoming_fine Hdone Hother.
  intros Hg. destruct (group_rows g Hg) as [Er Hr]. pose proof Hdone as Hdone'. rewrite Forall_forall in Hdone'. destruct (Hdone' g Hg) as [Hn _ _].
  pose proof (history_of_layer head store store_fine g.1.1 g.1.2 g.2 Hr) as Hf. destruct (coalesce_replaces head g.1.1 g.1.2 _ Hf Hn) as [R D]. split_and!; [done|done|eapply Forall_impl; [exact Hf|apply of_layer_key]|].
  intros s. rewrite apply_puts_chunk. replace (filter _ incoming) with g.2.
  - apply put_lookup; [done|by rewrite sort_by_key_perm| |done]. eapply Forall_impl; [exact Hr|]. intros d (<- & [<- <-] & _). done.
  - rewrite Er. apply filter_same. rewrite Forall_forall in incoming_fine |- *. intros d Hd. destruct (incoming_fine d Hd) as (_ & El & _). unfold chunk_of, extent_key. cbn. destruct g as [[i c] rows]. cbn. split; [by intros [= -> ->]; rewrite El|by intros [= _ -> ->]].
Qed.

Lemma before_ok : store_ok before.
Proof using store_fine incoming_fine.
  assert (forall rows st, store_ok st -> Forall (fun d => unsigned d /\ ex_layer d = head /\ extent_validate d = Ok tt) rows -> store_ok (apply_writes st (PutRow <$> rows))) as H.
  { unfold apply_writes. induction rows as [|d rows IH]; intros st Hst Hf; [done|]. apply list.Forall_cons in Hf as [(Hu & _ & Hv) Hf]. apply IH; [|done]. by apply map_Forall_insert_2. }
  by apply H.
Qed.

Lemma after_ok : store_ok after.
Proof using store_fine incoming_fine Hdone Hother.
  intros [[[l i] c] s] d H. destruct (chunk_cases l i c) as [(g & Hg & [= -> -> ->])|Hs]; [|rewrite (proj1 (Hs s)) in H; by apply store_fine].
  destruct (group_history g Hg) as ([R1 R2 _ _ _] & _). pose proof Hdone as Hdone'. rewrite Forall_forall in Hdone'. destruct (Hdone' g Hg) as [_ Hl _]. rewrite Hl in H.
  apply by_sequence_Some in H as [Hd <-]; [|done]. rewrite Forall_forall in R1. by apply of_layer_fine, R1.
Qed.

Lemma publish_shows layer ino ci x k : shows (layer_chunk (rows_of before) layer ino ci) x k -> shows (layer_chunk (rows_of after) layer ino ci) x k.
Proof using store_fine incoming_fine Hdone Hother.
  destruct (chunk_cases layer ino ci) as [(g & Hg & [= -> -> ->])|Hs].
  - destruct (group_history g Hg) as ([R1 R2 R3 _ _] & _ & Hk & Hb). pose proof Hdone as Hdone'. rewrite Forall_forall in Hdone'. destruct (Hdone' g Hg) as [Hn Hl _].
    intros H. eapply shows_perm; [symmetry; apply (layer_chunk_perm _ _ head g.1.1 g.1.2 after_ok R2); [eapply Forall_impl; [exact R1|apply of_layer_key]|exact Hl]|].
    apply R3. eapply shows_perm; [by apply (layer_chunk_perm _ _ head g.1.1 g.1.2 before_ok Hn)|exact H].
  - apply shows_perm. symmetry. apply layer_chunk_perm; [apply after_ok|apply layer_chunk_distinct, rows_of_ok, before_ok|apply layer_chunk_of_key|].
    intros s. rewrite layer_chunk_lookup by apply before_ok. destruct (Hs s) as [-> ->]. done.
Qed.

Lemma publish_owned d id off : before !! extent_key d = Some d -> ex_kind d = Data id off -> after !! extent_key d = Some d \/ (ex_layer d = head /\ reaches retired id (off + ex_length d)).
Proof using store_fine incoming_fine Hdone Hother.
  intros Hd Hk. unfold extent_key in *. destruct (chunk_cases (ex_layer d) (ex_ino d) (ex_chunk d)) as [(g & Hg & E)|Hs].
  - destruct (group_history g Hg) as ([_ R2 _ _ _] & Hdata & _ & Hb). pose proof Hdone as Hdone'. rewrite Forall_forall in Hdone'. destruct (Hdone' g Hg) as [Hn Hl Hr]. rewrite E in *. injection E as El _ _.
    rewrite Hb in Hd. apply by_sequence_Some in Hd as [Hd _]; [|done]. destruct (Hdata d Hd) as [Hin|Hno]; [unfold is_hole; congruence| |right; split; [done|by eapply Hr]].
    left. rewrite Hl. by apply by_sequence_Some.
  - left. destruct (Hs (ex_sequence d)) as [-> <-]. done.
Qed.

End publish.

(** The batch as a whole. *)
Lemma compact_history_done head lower_layers reader_limit store incoming owners writes puts : store_ok store -> Forall unsigned incoming ->
  compact_extent_history head lower_layers reader_limit store incoming owners = Ok (writes, puts) ->
  Forall (fun d => unsigned d /\ ex_layer d = head /\ extent_validate d = Ok tt) incoming /\
  exists retired, puts = retain_extent_ownership head retired owners /\ Forall (chunk_done head store retired (apply_writes store writes)) (foldl push_incoming [] incoming) /\
    forall store' key, (forall g, g ∈ foldl push_incoming [] incoming -> chunk_of key <> (head, g.1.1, g.1.2)) -> apply_writes store' writes !! key = store' !! key.
Proof.
  intros Hst Hu. unfold compact_extent_history. destruct (count_incoming head 0 incoming) as [n|] eqn:En; [|done]. cbn [result_bind]. apply count_incoming_ok in En as [-> Hv].
  assert (Forall (fun d => unsigned d /\ ex_layer d = head /\ extent_validate d = Ok tt) incoming) as Hf by (rewrite Forall_forall in *; auto). destruct (Z.eqb_spec (0 + zlen incoming) 0) as [E0|_].
  { intros [= <- <-]. destruct incoming; [|cbn in E0; lia]. split; [done|]. exists ∅. split_and!; [done|constructor|done]. }
  destruct (compact_chunks _ _ _ _ _ _ _) as [[w r]|] eqn:E; [|done]. cbn [result_bind]. intros [= <- <-].
  apply (compact_chunks_ok head lower_layers reader_limit store Hst) in E as (w' & Ew & _ & Ho & Hd); [|apply bt_keys_distinct with (ltb := chunk_ltb); [apply _|apply groups_ok]|apply Forall_forall; intros g Hg; by apply (group_rows head incoming Hf)].
  cbn [app] in Ew. subst w. split; [done|]. exists r. split_and!; [done|by apply Hd|done].
Qed.

(** With the keys of other layers. *)
Lemma compact_history_ok head lower_layers reader_limit store incoming owners writes puts : store_ok store -> Forall unsigned incoming ->
  compact_extent_history head lower_layers reader_limit store incoming owners = Ok (writes, puts) ->
  let before := apply_writes store (PutRow <$> incoming) in
  let after := apply_writes store writes in
  let owners' := apply_owners owners puts in
  store_ok after /\
  (forall chain ino ci start stop, 0 <= start -> stop < u64_modulus ->
     resolve_extents chain (rows_of after) ino ci start stop = resolve_extents chain (rows_of before) ino ci start stop) /\
  (forall d id off, before !! extent_key d = Some d -> ex_kind d = Data id off ->
     after !! extent_key d = Some d \/ reaches owners' (ex_layer d, id) (off + ex_length d)) /\
  (forall key stop, reaches owners key stop -> reaches owners' key stop) /\
  (forall store' key, key.1.1.1 <> head -> apply_writes store' writes !! key = store' !! key) /\
  (forall key e, (key, e) ∈ puts -> key.1 = head).
Proof.
  intros Hst Hu E before after owners'. destruct (compact_history_done _ _ _ _ _ _ _ _ Hst Hu E) as (Hf & r & -> & Hd & Ho'). pose proof (Ho' store) as Ho. split_and!.
  - by apply (after_ok head store Hst incoming Hf r after).
  - intros chain ino ci start stop. apply resolve_same; [by apply rows_of_ok, (before_ok head)|by apply rows_of_ok, (after_ok head store Hst incoming Hf r after)|].
    intros layer x k. by apply (publish_shows head store Hst incoming Hf r after).
  - intros d id off Hb Hk. destruct (publish_owned head store Hst incoming Hf r after Hd Ho d id off Hb Hk) as [?|[El Hr]]; [by left|right]. rewrite El. by apply retain_reaches.
  - intros key stop. apply retain_mono.
  - intros store' [[[l i] c] sq] Hl. apply Ho'. intros g _ [= -> _ _]. by apply Hl.
  - intros key e (id & -> & _)%owner_put_elem. done.
Qed.

(** What a layer shows of a chunk, and the keys that stay. *)
Lemma compact_history_shows head lower_layers reader_limit store incoming owners writes puts : store_ok store -> Forall unsigned incoming ->
  compact_extent_history head lower_layers reader_limit store incoming owners = Ok (writes, puts) ->
  let before := apply_writes store (PutRow <$> incoming) in
  let after := apply_writes store writes in
  (forall layer ino ci x k, shows (layer_chunk (rows_of before) layer ino ci) x k -> shows (layer_chunk (rows_of after) layer ino ci) x k) /\
  (forall key, is_Some (after !! key) -> is_Some (before !! key)).
Proof.
  intros Hst Hu E before after. destruct (compact_history_done _ _ _ _ _ _ _ _ Hst Hu E) as (Hf & r & _ & Hd & Ho'). pose proof (Ho' store) as Ho. split.
  - intros layer ino ci x k. by apply (publish_shows head store Hst incoming Hf r after).
  - intros [[[l i] c] q] [d Hk]. destruct (chunk_cases head store incoming Hf after Ho l i c) as [(g & Hg & [= -> -> ->])|Hs]; [|destruct (Hs q) as [E1 E2]; unfold before; rewrite E2, <-E1; by exists d].
    destruct (group_history head store Hst incoming Hf r after Hd Ho g Hg) as ([_ R2 _ R5 _] & _ & _ & Hb). unfold before. rewrite Hb. rewrite Forall_forall in Hd. destruct (Hd g Hg) as [Hn Hl _]. unfold after in Hk. rewrite Hl in Hk.
    apply by_sequence_Some in Hk as [Hin <-]; [|done]. assert (ex_sequence d ∈ ex_sequence <$> history head store g.1.1 g.1.2 g.2) as (e & Ee & He)%list_elem_of_fmap by (apply R5, list_elem_of_fmap; by exists d).
    exists e. by apply by_sequence_Some.
Qed.

(** C18: compaction of what a workspace head has written.  When rows are published
    to the head layer, the batch deletes and rewrites rows of the chunks they
    touch.  The store it leaves is well formed and every range of every chunk,
    through any chain of layers, resolves as if the rows had only been added.  A
    data row that is no longer stored has its slice owned by the head to the end
    of the row, and no owner is lost. *)
Theorem extent_compaction_exact head lower_layers reader_limit store incoming owners writes puts : store_ok store -> Forall unsigned incoming ->
  compact_extent_history head lower_layers reader_limit store incoming owners = Ok (writes, puts) ->
  let before := apply_writes store (PutRow <$> incoming) in
  let after := apply_writes store writes in
  let owners' := apply_owners owners puts in
  store_ok after /\
  (forall chain ino ci start stop, 0 <= start -> stop < u64_modulus ->
     resolve_extents chain (rows_of after) ino ci start stop = resolve_extents chain (rows_of before) ino ci start stop) /\
  (forall d id off, before !! extent_key d = Some d -> ex_kind d = Data id off ->
     after !! extent_key d = Some d \/ reaches owners' (ex_layer d, id) (off + ex_length d)) /\
  (forall key stop, reaches owners key stop -> reaches owners' key stop).
Proof. intros Hst Hu E. destruct (compact_history_ok _ _ _ _ _ _ _ _ Hst Hu E) as (H1 & H2 & H3 & H4 & _). split_and!; done. Qed.

Definition w_stored : list DataExtentDelta := [mkExtent 2 5 0 0 10 (Data 7 0) 1; mkExtent 2 5 0 20 10 Hole 2].
Definition w_written : list DataExtentDelta := [mkExtent 2 5 0 30 10 Hole 3; mkExtent 2 5 0 0 10 (Data 8 0) 4].

Lemma extent_compaction_exact_witness :
  let store := apply_writes ∅ (PutRow <$> w_stored) in
  exists writes puts, compact_extent_history 2 [1] DELTA_SCAN_MAX_ROWS store w_written ∅ = Ok (writes, puts) /\
    apply_writes store writes !! (2, 5, 0, 1) = None /\ apply_writes store writes !! (2, 5, 0, 2) = Some (mkExtent 2 5 0 20 20 Hole 2) /\
    reaches (apply_owners ∅ puts) (2, 7) 10.
Proof.
  intros store. eexists _, _. split; [vm_compute; reflexivity|]. split; [reflexivity|]. split; [reflexivity|].
  destruct (extent_compaction_exact 2 [1] DELTA_SCAN_MAX_ROWS store w_written ∅ _ _ ltac:(by apply (before_ok 2); [apply map_Forall_empty|repeat constructor]) ltac:(repeat constructor; done) ltac:(vm_compute; reflexivity)) as (_ & _ & H & _).
  destruct (H (mkExtent 2 5 0 0 10 (Data 7 0) 1) 7 0 eq_refl eq_refl) as [H'|H']; [|exact H']. vm_compute in H'. discriminate.
Defined.
