(* ===== verification/LayerNames.v ===== *)
(** Names through the layers of a workspace: a directory lists exactly the names
    that a lookup finds ([workspace_overlay/resolver/dentry.rs]). *)
From stdpp Require Import options.
From S2P Require Import Prelude Layers.

(** ** One layer *)

Definition named (name : list byte) (d : DentryDelta) : Prop := de_name d = name.
#[export] Instance named_dec name d : Decision (named name d) := decide (de_name d = name).

(** The map of newest rows holds for each name what the loop of a lookup holds. *)
Lemma layer_rows_newest deltas : forall rows rows', layer_rows rows deltas = Ok rows' -> bt_ok name_ltb rows -> (forall n d, (n, d) ∈ rows -> named n d) ->
  bt_ok name_ltb rows' /\ (forall n d, (n, d) ∈ rows' -> named n d) /\ forall n, newest_loop (bt_get n rows) (filter (named n) deltas) = Ok (bt_get n rows').
Proof.
  induction deltas as [|d deltas IH]; intros rows rows'; cbn [layer_rows]; [intros [= <-]; done|]. destruct (dentry_validate d) as [[]|] eqn:Ev; cbn [result_bind]; [|done].
  intros E Hok Hn. set (rows1 := if _ : bool then _ else rows) in E.
  assert (bt_ok name_ltb rows1 /\ (forall n d, (n, d) ∈ rows1 -> named n d)) as [Hok1 Hn1].
  { unfold rows1. destruct (match bt_get _ _ with Some _ => _ | None => _ end); [|done]. split; [apply bt_insert_ok; [apply _|done]|]. intros n d' [[= -> ->]|H]%bt_insert_elem; [done|by apply Hn]. }
  destruct (IH rows1 rows' E Hok1 Hn1) as (H1 & H2 & H3). split_and!; [done|done|]. intros n. specialize (H3 n). rewrite filter_cons. case_decide as En; unfold named in En.
  - cbn [newest_loop]. rewrite Ev. cbn [result_bind]. rewrite <-H3. f_equal. unfold rows1. rewrite <-En. destruct (bt_get (de_name d) rows) as [w|] eqn:Ew; [|by rewrite bt_get_insert].
    destruct (de_sequence w <? de_sequence d); [by rewrite bt_get_insert|done].
  - rewrite <-H3. f_equal. unfold rows1. destruct (match bt_get (de_name d) rows with Some _ => _ | None => _ end); [|done]. by rewrite bt_get_insert_ne by done.
Qed.

Lemma layer_rows_is_Ok deltas : forall rows, is_Ok (layer_rows rows deltas) = true <-> Forall (fun d => dentry_validate d = Ok tt) deltas.
Proof.
  induction deltas as [|d deltas IH]; intros rows; cbn [layer_rows]; [split; [constructor|done]|]. rewrite list.Forall_cons. destruct (dentry_validate d) as [[]|]; cbn [result_bind].
  - rewrite IH. tauto.
  - split; [done|]. by intros [? _].
Qed.

Lemma layer_rows_from deltas : forall rows rows', layer_rows rows deltas = Ok rows' -> forall n d, (n, d) ∈ rows' -> (n, d) ∈ rows \/ d ∈ deltas.
Proof.
  induction deltas as [|d deltas IH]; intros rows rows'; cbn [layer_rows]; [intros [= <-]; auto|]. destruct (dentry_validate d) as [[]|]; cbn [result_bind]; [|done].
  intros E n d' [H|H]%(IH _ _ E); [|right; by right]. destruct (match bt_get _ _ with Some _ => _ | None => _ end); [|by left]. apply bt_insert_elem in H as [[= -> ->]|H]; [right; by left|by left].
Qed.

(** Names already taken stay; the others take the layer's row. *)
Lemma take_vacant_spec rows : forall winners winners', take_vacant winners rows = Ok winners' -> NoDup rows.*1 -> bt_ok name_ltb winners ->
  bt_ok name_ltb winners' /\ forall n,
  match bt_get n winners, bt_get n rows with
  | Some r, _ => bt_get n winners' = Some r
  | None, Some d => exists r, materialize d = Ok r /\ bt_get n winners' = Some r
  | None, None => bt_get n winners' = None
  end.
Proof.
  induction rows as [|[name d] rows IH]; intros winners winners'; cbn [take_vacant bt_get]; [intros [= <-] _ Hok; split; [done|]; intros n; by destruct (bt_get n winners)|].
  rewrite fmap_cons, NoDup_cons. cbn [fst]. assert ((name ∉ rows.*1) -> bt_get name rows = None) as Hnone.
  { clear. induction rows as [|[k v] rows IH]; [done|]. rewrite fmap_cons, not_elem_of_cons. cbn. intros [? ?]. rewrite decide_False by done. auto. }
  destruct (bt_get name winners) as [r0|] eqn:Ew.
  - intros E [Hno Hn] Hok. destruct (IH _ _ E Hn Hok) as [H1 H2]. split; [done|]. intros n. specialize (H2 n). case_decide as En; [subst; rewrite Ew in *; done|]. done.
  - destruct (materialize d) as [r|] eqn:Em; cbn [result_bind]; [|done]. intros E [Hno Hn] Hok. destruct (IH _ _ E Hn) as [H1 H2]; [apply bt_insert_ok; [apply _|done]|]. split; [done|].
    intros n. specialize (H2 n). case_decide as En.
    + subst. rewrite bt_get_insert in H2. rewrite Ew. eauto.
    + by rewrite bt_get_insert_ne in H2 by done.
Qed.

Lemma materialize_valid d : dentry_validate d = Ok tt -> exists r, materialize d = Ok r /\ forall e, r = RPresent e -> rd_name e = de_name d.
Proof.
  unfold dentry_validate, materialize. case_bool_decide; [done|]. destruct (de_op d), (de_ino d), (de_type d); cbn; try done; intros _; eexists; (split; [done|]); intros e [= <-]; done.
Qed.

Lemma materialize_name d e : materialize d = Ok (RPresent e) -> rd_name e = de_name d.
Proof. unfold materialize. destruct (de_op d), (de_ino d), (de_type d); cbn; try done. by intros [= <-]. Qed.

Lemma take_vacant_is_Ok rows : forall winners, (forall n d, (n, d) ∈ rows -> dentry_validate d = Ok tt) -> is_Ok (take_vacant winners rows) = true.
Proof.
  induction rows as [|[n d] rows IH]; intros winners Hv; cbn [take_vacant]; [done|]. assert (forall n d, (n, d) ∈ rows -> dentry_validate d = Ok tt) as Hv' by (intros ? ? ?; eapply Hv; by right).
  destruct (bt_get n winners); [by apply IH|]. destruct (materialize_valid d) as (r & -> & _); [eapply Hv; by left|]. by apply IH.
Qed.

(** ** The chain *)

Section chain.
Context (deltas : list DentryDelta) (parent : Z).

Definition entry_named (winners : list (list byte * Resolution ResolvedDentry)) : Prop := forall n e, (n, RPresent e) ∈ winners -> rd_name e = n.

Definition lookup_in (name : list byte) (layers : list LayerRecord) : result WorkspaceError (Resolution ResolvedDentry) :=
  first_winner (fun layer => newest_in_layer (filter (fun d => de_layer d = layer /\ de_parent d = parent /\ de_name d = name) deltas)) (fun _ w => materialize w) layers.

Lemma lookup_in_cons name layer layers : lookup_in name (layer :: layers) =
  let? w := newest_loop None (filter (named name) (filter (fun d => de_layer d = layer_id layer /\ de_parent d = parent) deltas)) in
  match w with Some row => materialize row | None => lookup_in name layers end.
Proof. unfold lookup_in. cbn [first_winner]. unfold newest_in_layer. rewrite list_filter_filter. erewrite list_filter_iff; [done|]. unfold named. tauto. Qed.

Lemma directory_loop_spec layers : forall winners winners', directory_loop deltas parent winners layers = Ok winners' -> bt_ok name_ltb winners -> entry_named winners ->
  bt_ok name_ltb winners' /\ entry_named winners' /\ forall n,
  match bt_get n winners with Some r => bt_get n winners' = Some r | None => lookup_in n layers = Ok (default RAbsent (bt_get n winners')) end.
Proof.
  induction layers as [|layer layers IH]; intros winners winners'; cbn [directory_loop].
  { intros [= <-] Hok Hn. split_and!; [done|done|]. intros n. by destruct (bt_get n winners). }
  destruct (layer_rows [] _) as [rows|] eqn:Er; cbn [result_bind]; [|done]. destruct (take_vacant winners rows) as [w1|] eqn:Et; cbn [result_bind]; [|done]. intros E Hok Hn.
  destruct (layer_rows_newest _ _ _ Er) as (R1 & R2 & R3); [constructor|by intros ? ? ?%elem_of_nil|].
  destruct (take_vacant_spec _ _ _ Et) as [T1 T2]; [by apply (bt_keys_distinct name_ltb)|done|].
  assert (entry_named w1) as Hn1.
  { intros n e He%(bt_get_elem name_ltb); [|done]. specialize (T2 n). destruct (bt_get n winners) as [r|] eqn:Ew; [simplify_eq; apply Hn; by apply (bt_get_elem name_ltb)|].
    destruct (bt_get n rows) as [d|] eqn:Ed; [|congruence]. destruct T2 as (r & Hm & E2). simplify_eq. rewrite (materialize_name _ _ Hm). by apply R2, (bt_get_elem name_ltb). }
  destruct (IH _ _ E T1 Hn1) as (H1 & H2 & H3). split_and!; [done|done|]. intros n. specialize (T2 n). specialize (R3 n). specialize (H3 n). cbn [bt_get] in R3.
  destruct (bt_get n winners) as [r|]; [by rewrite T2 in H3|]. rewrite lookup_in_cons, R3. cbn [result_bind]. destruct (bt_get n rows) as [d|]; [|by rewrite T2 in H3].
  destruct T2 as (r & -> & E2). rewrite E2 in H3. by rewrite H3.
Qed.

Lemma directory_loop_is_Ok layers : forall winners, is_Ok (directory_loop deltas parent winners layers) = true <->
  Forall (fun layer => Forall (fun d => dentry_validate d = Ok tt) (filter (fun d => de_layer d = layer_id layer /\ de_parent d = parent) deltas)) layers.
Proof.
  induction layers as [|layer layers IH]; intros winners; cbn [directory_loop]; [split; [constructor|done]|]. rewrite list.Forall_cons, <-(layer_rows_is_Ok _ []).
  destruct (layer_rows [] _) as [rows|] eqn:Er; cbn [result_bind is_Ok]; [|split; [done|by intros [? _]]].
  assert (is_Ok (take_vacant winners rows) = true) as Ht.
  { apply take_vacant_is_Ok. intros n d [?%elem_of_nil|H]%(layer_rows_from _ _ _ Er); [done|]. assert (is_Ok (layer_rows [] (filter (fun d => de_layer d = layer_id layer /\ de_parent d = parent) deltas)) = true) as Hv%layer_rows_is_Ok by (by rewrite Er).
    rewrite Forall_forall in Hv. by apply Hv. }
  destruct (take_vacant winners rows) as [w|]; [|done]. cbn [result_bind]. rewrite IH. tauto.
Qed.
End chain.

Lemma listed_sorted winners : bt_ok name_ltb winners -> entry_named winners ->
  let out := omap (fun '(_, r) => into_option r) winners in
  StronglySorted (fun a b => name_ltb (rd_name a) (rd_name b) = true) out /\
  forall n, List.find (fun e => bool_decide (rd_name e = n)) out = bt_get n winners ≫= into_option.
Proof.
  induction 1 as [|[k r] winners Hs IH Hf]; intros Hn; [split; [constructor|done]|]. destruct IH as [IH1 IH2]; [intros n e He; apply Hn; by right|]. cbn [omap list_omap bt_get].
  assert (forall e, e ∈ omap (fun '(_, r) => into_option r) winners -> name_ltb k (rd_name e) = true) as Hlt.
  { intros e ([n [e'| |]] & Hin & [= <-])%list_elem_of_omap. rewrite (Hn n e') by (by right). rewrite Forall_forall in Hf. apply (Hf _ Hin). }
  destruct r as [e| |]; cbn [into_option].
  - assert (rd_name e = k) as Ee by (apply Hn; by left). split; [constructor; [done|]; apply Forall_forall; intros e' He'; rewrite Ee; by apply Hlt|].
    intros n. cbn [List.find]. rewrite Ee. destruct (decide (n = k)) as [->|]; [by rewrite bool_decide_true|]. rewrite bool_decide_false by done. apply IH2.
  - split; [done|]. intros n. case_decide as En; [|apply IH2]. cbn. subst. destruct (List.find _ _) as [e|] eqn:E; [|done]. apply List.find_some in E as [Hin He%bool_decide_eq_true].
    rewrite <-list_elem_of_In in Hin. specialize (Hlt e Hin). rewrite He, key_irrefl in Hlt. done.
  - split; [done|]. intros n. case_decide as En; [|apply IH2]. cbn. subst. destruct (List.find _ _) as [e|] eqn:E; [|done]. apply List.find_some in E as [Hin He%bool_decide_eq_true].
    rewrite <-list_elem_of_In in Hin. specialize (Hlt e Hin). rewrite He, key_irrefl in Hlt. done.
Qed.

(** A directory of a workspace.  With a valid chain, listing a directory
    succeeds exactly when its rows in the layers of the chain are valid.  The
    listing then has increasing names, and looking up any name gives the listed
    entry of that name, or nothing where the listing has none. *)
Theorem directory_lists_lookups deltas chain parent : check_chain chain = Ok tt ->
  (is_Ok (resolve_directory chain deltas parent) = true <->
     forall d, d ∈ deltas -> de_layer d ∈ layer_id <$> chain -> de_parent d = parent -> dentry_validate d = Ok tt) /\
  forall out, resolve_directory chain deltas parent = Ok out ->
    StronglySorted (fun a b => name_ltb (rd_name a) (rd_name b) = true) out /\
    forall name, resolve_dentry chain deltas parent name = Ok (List.find (fun e => bool_decide (rd_name e = name)) out).
Proof.
  intros Hc. unfold resolve_directory, resolve_directory_state, resolve_dentry, resolve_dentry_state. rewrite Hc. cbn [result_bind]. split.
  - transitivity (is_Ok (directory_loop deltas parent [] chain) = true); [by destruct (directory_loop _ _ _ _)|]. rewrite directory_loop_is_Ok, Forall_forall. setoid_rewrite Forall_forall. setoid_rewrite list_elem_of_filter. split.
    + intros H d Hd (layer & El & Hl)%list_elem_of_fmap Hp. by apply (H layer).
    + intros H layer Hl d [[El Hp] Hd]. apply H; [done| |done]. rewrite El. apply list_elem_of_fmap. by exists layer.
  - intros out. destruct (directory_loop deltas parent [] chain) as [winners|] eqn:E; cbn [result_bind]; [|done]. intros [= <-].
    destruct (directory_loop_spec _ _ _ _ _ E) as (H1 & H2 & H3); [constructor|by intros ? ? ?%elem_of_nil|]. destruct (listed_sorted winners H1 H2) as [L1 L2]. split; [done|].
    intros name. specialize (H3 name). cbn [bt_get] in H3. change (first_winner _ _ chain) with (lookup_in deltas parent name chain). rewrite H3. cbn [result_bind]. rewrite L2. by destruct (bt_get name winners).
Qed.

(** ** Layers with the same rows *)

Lemma first_winner_ext {R T} winner winner' (finish : Z -> R -> result WorkspaceError (Resolution T)) layers :
  Forall (fun layer => winner (layer_id layer) = winner' (layer_id layer)) layers -> first_winner winner finish layers = first_winner winner' finish layers.
Proof. induction 1 as [|layer layers Hl _ IH]; [done|]. cbn [first_winner]. by rewrite Hl, IH. Qed.
