(* ===== verification/MetaTypes.v ===== *)
(** Metadata types: [src/meta/store.rs] (file types, attributes, flags, statfs,
    errors) and the rows of [src/meta/stores/tikv/mod.rs]. *)
From stdpp Require Import options.
From S2P Require Import Prelude Slices FileLock.

(** ** File types and attributes *)

(** [FileType]; [StoredNodeKind] has the same constructors and its two [From]
    implementations are the identity on them. *)
Inductive FileType := File | Dir | Symlink | Fifo | Socket | CharDevice | BlockDevice.
Definition StoredNodeKind : Type := FileType.

#[global] Instance FileType_eq_dec : EqDecision FileType.
Proof. solve_decision. Defined.

Definition S_IFMT : Z := 61440. (* 0o170000 *)

Definition from_mode (mode : Z) : FileType :=
  let t := Z.land mode S_IFMT in
  if t =? 16384 then Dir else       (* 0o040000 *)
  if t =? 40960 then Symlink else   (* 0o120000 *)
  if t =? 4096 then Fifo else       (* 0o010000 *)
  if t =? 49152 then Socket else    (* 0o140000 *)
  if t =? 8192 then CharDevice else (* 0o020000 *)
  if t =? 24576 then BlockDevice    (* 0o060000 *)
  else File.

Definition mode_type_bits (t : FileType) : Z :=
  match t with
  | File => 32768 | Dir => 16384 | Symlink => 40960 | Fifo => 4096
  | Socket => 49152 | CharDevice => 8192 | BlockDevice => 24576
  end.

Definition is_special_node (t : FileType) : bool :=
  match t with Fifo | Socket | CharDevice | BlockDevice => true | _ => false end.

Record FileAttr := mkAttr {
  a_ino : Z; a_size : Z; a_blocks : Z; a_kind : FileType; a_mode : Z; a_rdev : Z;
  a_uid : Z; a_gid : Z; a_atime : Z; a_mtime : Z; a_ctime : Z; a_nlink : Z }.

Record SetAttrRequest := mkSetAttr {
  r_mode : option Z; r_uid : option Z; r_gid : option Z; r_size : option Z;
  r_atime : option Z; r_mtime : option Z; r_ctime : option Z; r_flags : option Z }.

(** [bitflags]: [contains]. *)
Definition flags_contain (flags bit : Z) : bool := Z.land flags bit =? bit.

Definition CLEAR_SUID : Z := 1.
Definition CLEAR_SGID : Z := 2.
Definition SET_ATIME_NOW : Z := 4.
Definition SET_MTIME_NOW : Z := 8.
Definition KERNEL_WRITEBACK_TIMES : Z := 16.
Definition TRUNC : Z := 8.

Definition chmod_request (new_mode : Z) : SetAttrRequest :=
  mkSetAttr (Some (Z.land new_mode 4095)) None None None None None None None.
Definition chown_request (uid gid : option Z) : SetAttrRequest :=
  mkSetAttr None uid gid None None None None None.

Definition timestamps_use_write_permission (req : SetAttrRequest) (flags : Z) : bool :=
  flags_contain flags (Z.lor SET_ATIME_NOW SET_MTIME_NOW) ||
  (flags_contain flags (Z.lor SET_ATIME_NOW KERNEL_WRITEBACK_TIMES)
   && (Z.ldiff flags (Z.lor SET_ATIME_NOW KERNEL_WRITEBACK_TIMES) =? 0)
   && bool_decide (is_Some (r_atime req)) && bool_decide (is_Some (r_mtime req))
   && bool_decide (is_Some (r_ctime req)) && bool_decide (r_mode req = None)
   && bool_decide (r_uid req = None) && bool_decide (r_gid req = None)
   && bool_decide (r_size req = None) && bool_decide (r_flags req = None)).

(** ** Errors; message strings are dropped. *)
Inductive RetryReason := VersionConflict | CompactConflict | TransactionConflict | LockContention.

#[global] Instance RetryReason_eq_dec : EqDecision RetryReason.
Proof. solve_decision. Defined.

Inductive MetaError :=
| NotFound (ino : Z)
| ParentNotFound (ino : Z)
| AlreadyExists (parent : Z) (name : string)
| NotDirectory (ino : Z)
| DirectoryNotEmpty (ino : Z)
| InvalidPath
| NotSupported
| Internal
| ContinueRetry (reason : RetryReason)
| MaxRetriesExceeded
| IoNotADirectory
| IoIsADirectory
| LockConflict (inode owner : Z) (range : FileLock.FileLockRange).

#[global] Instance MetaError_eq_dec : EqDecision MetaError.
Proof. solve_decision. Defined.

Record CreateEntryResult := mkCreated { ce_ino : Z; ce_attr : option FileAttr }.
Record DirEntry := mkDirEntry { de_name : string; de_ino : Z; de_kind : FileType }.
Record RenameOutcome := mkRenameOutcome {
  ro_ino : Z; ro_replaced_ino : option Z; ro_source_is_dir : bool;
  ro_replaced_is_dir : bool; ro_renamed : bool }.

(** ** statfs *)
Record StatFsSnapshot := mkStatFs {
  total_space : Z; available_space : Z; used_inodes : Z; available_inodes : Z }.

Definition DEFAULT_STATFS_TOTAL_SPACE : Z := 2 ^ 50.
Definition DEFAULT_STATFS_AVAILABLE_INODES : Z := 10 * 2 ^ 20.
Definition STATFS_BLOCK_SIZE : Z := 512.

Definition u64_saturating_mul (a b : Z) : Z := Z.min u64_max (a * b).

Definition stat_fs_used_bytes (size blocks : Z) : Z :=
  if 0 <? blocks then u64_saturating_mul blocks STATFS_BLOCK_SIZE else size.

(** The doubling loops, comparing in [u128], which the products cannot overflow.
    Sixty-four doublings leave the range of [u64]: see [grow_spec]. *)
Fixpoint grow (fuel : nat) (small_enough : Z -> bool) (v : Z) : Z :=
  match fuel with
  | O => v
  | S fuel =>
      if small_enough v then
        if u64_max / 2 <=? v then u64_max else grow fuel small_enough (v ⊗ 2)
      else v
  end.

Definition stat_fs_snapshot_from_usage (used_space used_inodes : Z) : StatFsSnapshot :=
  let total := grow 64 (fun t => t * 8 <? used_space * 10) DEFAULT_STATFS_TOTAL_SPACE in
  let total := if total <? used_space then used_space else total in
  let inodes := grow 64 (fun a => a * 4 <? used_inodes) DEFAULT_STATFS_AVAILABLE_INODES in
  {| total_space := total; available_space := u64_saturating_sub total used_space;
     used_inodes := used_inodes; available_inodes := inodes |}.

(** ** Rows *)

(** [kind == StoredNodeKind::Dir]. *)
Definition is_dir (k : StoredNodeKind) : bool := bool_decide (k = Dir).

Record StoredDentry := mkDentry { d_ino : Z; d_kind : StoredNodeKind }.

#[global] Instance StoredDentry_eq_dec : EqDecision StoredDentry.
Proof. solve_decision. Defined.

(** [StoredLinkParent]: a parent directory and a name in it. *)
Definition StoredLinkParent : Type := Z * string.

Record StoredNode := mkNode {
  n_ino : Z; n_parent : Z; n_name : string; n_kind : StoredNodeKind;
  n_size : Z; n_blocks : Z; n_mode : Z; n_rdev : Z; n_uid : Z; n_gid : Z;
  n_atime : Z; n_mtime : Z; n_ctime : Z; n_nlink : Z;
  n_symlink_target : option string; n_deleted : bool }.

(** The status strings ["pending"], ["meta_deleted"] and ["orphan"]; the constant
    reason ["compact"] of a delayed record is dropped. *)
Inductive DelayedStatus := DelayedPending | DelayedMetaDeleted.
Inductive UncommittedStatus := UncommittedPending | UncommittedOrphan.

#[global] Instance DelayedStatus_eq_dec : EqDecision DelayedStatus.
Proof. solve_decision. Defined.
#[global] Instance UncommittedStatus_eq_dec : EqDecision UncommittedStatus.
Proof. solve_decision. Defined.

Record StoredDelayedSliceRecord := mkDelayed {
  dl_id : Z; dl_slice_id : Z; dl_chunk_id : Z; dl_offset : Z; dl_size : Z;
  dl_created_at : Z; dl_status : DelayedStatus }.

Record StoredUncommittedSliceRecord := mkUncommitted {
  un_id : Z; un_slice_id : Z; un_chunk_id : Z; un_size : Z;
  un_created_at : Z; un_operation : string; un_status : UncommittedStatus }.

(** [StoredNode::to_attr]. *)
Definition to_attr (n : StoredNode) : FileAttr :=
  let size := match n_symlink_target n with
              | Some t => Z.of_nat (String.length t)
              | None => n_size n
              end in
  let blocks := match n_symlink_target n with
                | Some _ => div_ceil size 512
                | None => n_blocks n
                end in
  {| a_ino := n_ino n; a_size := size; a_blocks := blocks; a_kind := n_kind n;
     a_mode := n_mode n; a_rdev := n_rdev n; a_uid := n_uid n; a_gid := n_gid n;
     a_atime := n_atime n; a_mtime := n_mtime n; a_ctime := n_ctime n; a_nlink := n_nlink n |}.

(** Field updates. *)
Definition set_binding (p : Z) (nm : string) (n : StoredNode) : StoredNode :=
  mkNode (n_ino n) p nm (n_kind n) (n_size n) (n_blocks n) (n_mode n) (n_rdev n) (n_uid n)
    (n_gid n) (n_atime n) (n_mtime n) (n_ctime n) (n_nlink n) (n_symlink_target n) (n_deleted n).
Definition set_links (nlink : Z) (deleted : bool) (n : StoredNode) : StoredNode :=
  mkNode (n_ino n) (n_parent n) (n_name n) (n_kind n) (n_size n) (n_blocks n) (n_mode n)
    (n_rdev n) (n_uid n) (n_gid n) (n_atime n) (n_mtime n) (n_ctime n) nlink
    (n_symlink_target n) deleted.
Definition set_nlink (nlink : Z) (n : StoredNode) : StoredNode := set_links nlink (n_deleted n) n.
Definition set_times (atime mtime ctime : Z) (n : StoredNode) : StoredNode :=
  mkNode (n_ino n) (n_parent n) (n_name n) (n_kind n) (n_size n) (n_blocks n) (n_mode n)
    (n_rdev n) (n_uid n) (n_gid n) atime mtime ctime (n_nlink n) (n_symlink_target n) (n_deleted n).
Definition touch (now : Z) (n : StoredNode) : StoredNode := set_times (n_atime n) now now n.
Definition set_size (size blocks : Z) (n : StoredNode) : StoredNode :=
  mkNode (n_ino n) (n_parent n) (n_name n) (n_kind n) size blocks (n_mode n)
    (n_rdev n) (n_uid n) (n_gid n) (n_atime n) (n_mtime n) (n_ctime n) (n_nlink n)
    (n_symlink_target n) (n_deleted n).
Definition set_perm (mode uid gid : Z) (n : StoredNode) : StoredNode :=
  mkNode (n_ino n) (n_parent n) (n_name n) (n_kind n) (n_size n) (n_blocks n) mode
    (n_rdev n) uid gid (n_atime n) (n_mtime n) (n_ctime n) (n_nlink n)
    (n_symlink_target n) (n_deleted n).

(** ** File type bits *)

(** A mode built from a type and permission bits reads back as that type. *)
Lemma from_mode_type_bits t m : from_mode (Z.lor (mode_type_bits t) (Z.land m 4095)) = t.
Proof.
  unfold from_mode, S_IFMT. rewrite Z.land_lor_distr_l, <-Z.land_assoc.
  change (Z.land 4095 61440) with 0. rewrite Z.land_0_r, Z.lor_0_r. by destruct t.
Qed.

(** ** The statfs loops *)

Lemma grow_spec fuel f : forall v, 0 < v <= u64_max -> u64_max <= v * 2 ^ Z.of_nat fuel ->
  v <= grow fuel f v <= u64_max /\ (f (grow fuel f v) = false \/ grow fuel f v = u64_max).
Proof.
  induction fuel as [|fuel IH]; intros v Hv Hb; cbn [grow].
  { change (2 ^ Z.of_nat 0) with 1 in Hb. lia. }
  destruct (f v) eqn:Hf; [|split; [lia|by left]].
  destruct (Z.leb_spec (u64_max / 2) v); [lia|].
  assert (v * 2 <= u64_max) by (change (u64_max / 2) with 9223372036854775807 in *; u64_lia).
  rewrite u64_mul_small by u64_lia.
  destruct (IH (v * 2)) as [? ?]; [lia|..]; [|split; [lia|done]].
  rewrite Nat2Z.inj_succ, Z.pow_succ_r in Hb by lia. lia.
Qed.

(** C40: the statfs snapshot never reports less space than is used, reports as
    available exactly the difference, and keeps at least a fifth free unless the
    64-bit range is exhausted; both loops terminate within it. *)
Theorem statfs_snapshot_sound used inodes :
  is_u64 used -> is_u64 inodes ->
  let s := stat_fs_snapshot_from_usage used inodes in
  DEFAULT_STATFS_TOTAL_SPACE <= total_space s <= u64_max /\ used <= total_space s /\
  available_space s = total_space s - used /\ used_inodes s = inodes /\
  (used * 10 <= total_space s * 8 \/ total_space s = u64_max) /\
  (inodes <= available_inodes s * 4 \/ available_inodes s = u64_max).
Proof.
  intros Hu Hi s. unfold s, stat_fs_snapshot_from_usage. cbn [total_space available_space used_inodes available_inodes].
  destruct (grow_spec 64 (fun t => t * 8 <? used * 10) DEFAULT_STATFS_TOTAL_SPACE) as [Ht Ht'];
    [done..|].
  destruct (grow_spec 64 (fun a => a * 4 <? inodes) DEFAULT_STATFS_AVAILABLE_INODES) as [Ha Ha'];
    [done..|].
  cbv beta in *. rewrite Z.ltb_ge in Ht', Ha'.
  set (t := grow 64 _ DEFAULT_STATFS_TOTAL_SPACE) in *.
  set (a := grow 64 _ DEFAULT_STATFS_AVAILABLE_INODES) in *. clearbody t a.
  unfold u64_saturating_sub. destruct (Z.ltb_spec t used); u64_lia.
Qed.

Lemma statfs_snapshot_sound_witness :
  available_space (stat_fs_snapshot_from_usage (2 ^ 52) 7) =
  total_space (stat_fs_snapshot_from_usage (2 ^ 52) 7) - 2 ^ 52.
Proof.
  refine (proj1 (proj2 (proj2 (statfs_snapshot_sound (2 ^ 52) 7 _ _)))); done.
Defined.
