(* ===== verification/Namespace.v ===== *)
(** What makes a namespace well formed, on the part of the metadata that the
    namespace operations care about: node identity, kind, binding and link count,
    directory entries and the bindings of hard-linked files. The operations
    reduce to a few structural changes; each is shown to keep the namespace well
    formed. *)
From stdpp Require Import options.
From S2P Require Import Prelude MetaTypes.

Definition ROOT : Z := 1.

Record Shape := mkShape {
  sh_ino : Z; sh_parent : Z; sh_name : string; sh_kind : StoredNodeKind;
  sh_nlink : Z; sh_deleted : bool }.

Abbreviation Binding := (Z * string)%type.
Abbreviation Dents := (gmap Binding StoredDentry).

Record NS := mkNS {
  ns_nodes : gmap Z Shape; ns_dents : Dents; ns_links : gmap Z (list Binding) }.

(** The entries that name [i], and the number of subdirectories of [p]. *)
Definition ents (ds : Dents) (i : Z) : gset Binding :=
  dom (filter (fun kd : Binding * StoredDentry => d_ino kd.2 = i) ds).
Definition subdirs (ds : Dents) (p : Z) : Z :=
  Z.of_nat (size (filter (fun kd : Binding * StoredDentry => kd.1.1 = p /\ d_kind kd.2 = Dir) ds)).

(** ** Ancestry *)

Definition dir_parent (nodes : gmap Z Shape) (i : Z) : option Z :=
  sh ← nodes !! i; if bool_decide (sh_kind sh = Dir) then Some (sh_parent sh) else None.

(** [depth pm n i]: climbing from [i] reaches the root in [n] steps. *)
Inductive depth (pm : Z -> option Z) : nat -> Z -> Prop :=
| depth_root : depth pm 0 ROOT
| depth_step n i p : i <> ROOT -> pm i = Some p -> depth pm n p -> depth pm (S n) i.

(** The climb from [p] reaches the root without meeting [i]. *)
Inductive avoids (pm : Z -> option Z) (i : Z) : Z -> Prop :=
| avoids_root : i <> ROOT -> avoids pm i ROOT
| avoids_step p q : p <> i -> p <> ROOT -> pm p = Some q -> avoids pm i q -> avoids pm i p.

Definition reaches (pm : Z -> option Z) (i : Z) : Prop := exists n, depth pm n i.

(** ** Well-formedness *)

(** The link bookkeeping of a node that is not a directory: none left, one kept
    in the node, or several kept in its binding list. *)
Inductive file_links (E : gset Binding) (L : option (list Binding)) (sh : Shape) : Prop :=
| file_unlinked : sh_nlink sh = 0 -> sh_deleted sh = true -> L = None -> E = ∅ ->
    file_links E L sh
| file_single : sh_nlink sh = 1 -> sh_deleted sh = false -> L = None ->
    E = {[ (sh_parent sh, sh_name sh) ]} -> file_links E L sh
| file_multi l : 2 <= sh_nlink sh -> sh_deleted sh = false -> L = Some l ->
    NoDup l -> Z.of_nat (length l) = sh_nlink sh -> E = list_to_set l -> file_links E L sh.

(** What holds of node [i] given the entries naming it, the number of its
    subdirectories and its binding list. *)
Definition node_ok (E : gset Binding) (sub : Z) (L : option (list Binding)) (i : Z) (sh : Shape)
  : Prop :=
  sh_ino sh = i /\
  if bool_decide (sh_kind sh = Dir) then
    sh_deleted sh = false /\ sh_nlink sh = 2 + sub /\ L = None /\
    (i = ROOT -> sh_parent sh = ROOT /\ E = ∅) /\
    (i <> ROOT -> E = {[ (sh_parent sh, sh_name sh) ]})
  else i <> ROOT /\ file_links E L sh.

Record ns_ok (ns : NS) : Prop := {
  ok_root : exists sh, ns_nodes ns !! ROOT = Some sh /\ sh_kind sh = Dir;
  ok_node i sh : ns_nodes ns !! i = Some sh ->
    node_ok (ents (ns_dents ns) i) (subdirs (ns_dents ns) i) (ns_links ns !! i) i sh;
  ok_tree i sh : ns_nodes ns !! i = Some sh -> sh_kind sh = Dir ->
    reaches (dir_parent (ns_nodes ns)) i;
  ok_dent p nm d : ns_dents ns !! (p, nm) = Some d ->
    (exists sp, ns_nodes ns !! p = Some sp /\ sh_kind sp = Dir) /\
    (exists sd, ns_nodes ns !! d_ino d = Some sd /\ sh_kind sd = d_kind d);
  ok_links i l : ns_links ns !! i = Some l -> is_Some (ns_nodes ns !! i)
}.

(** ** Entries and counts *)

Lemma elem_of_ents ds i k : k ∈ ents ds i <-> exists d, ds !! k = Some d /\ d_ino d = i.
Proof.
  unfold ents. rewrite elem_of_dom. unfold is_Some. setoid_rewrite map_lookup_filter_Some. done.
Qed.

Lemma ents_insert ds k d i : ds !! k = None ->
  ents (<[k := d]> ds) i = if decide (d_ino d = i) then {[k]} ∪ ents ds i else ents ds i.
Proof.
  intros Hk. apply set_eq. intros k'. rewrite elem_of_ents.
  destruct (decide (k' = k)) as [->|Hne].
  - rewrite lookup_insert_eq. case_decide as Hd.
    + split; [set_solver|]. intros _. eauto.
    + split; [naive_solver|]. rewrite elem_of_ents, Hk. naive_solver.
  - rewrite lookup_insert_ne by done. rewrite <-elem_of_ents. case_decide; set_solver.
Qed.

Lemma ents_delete ds k i : ents (delete k ds) i = ents ds i ∖ {[k]}.
Proof.
  apply set_eq. intros k'. rewrite elem_of_difference, !elem_of_ents, elem_of_singleton.
  destruct (decide (k' = k)) as [->|Hne].
  - rewrite lookup_delete_eq. naive_solver.
  - rewrite lookup_delete_ne by done. naive_solver.
Qed.

Definition counts_in (p : Z) (k : Binding) (d : StoredDentry) : Z :=
  if decide (k.1 = p /\ d_kind d = Dir) then 1 else 0.

Lemma subdirs_insert ds k d p : ds !! k = None ->
  subdirs (<[k := d]> ds) p = subdirs ds p + counts_in p k d.
Proof.
  intros Hk. unfold subdirs, counts_in. case_decide as Hd.
  - rewrite map_filter_insert_True by done. rewrite map_size_insert_None; [lia|].
    rewrite map_lookup_filter_None. by left.
  - rewrite map_filter_insert_False by done. rewrite delete_id by done. lia.
Qed.

Lemma subdirs_delete ds k d p : ds !! k = Some d ->
  subdirs (delete k ds) p = subdirs ds p - counts_in p k d.
Proof.
  intros Hk. rewrite <-(insert_delete_id ds k d Hk) at 2.
  rewrite subdirs_insert by apply lookup_delete_eq. lia.
Qed.

Lemma subdirs_nonneg ds p : 0 <= subdirs ds p.
Proof. unfold subdirs. lia. Qed.

Lemma subdirs_zero ds p : (forall nm, ds !! (p, nm) = None) -> subdirs ds p = 0.
Proof.
  intros Hn. unfold subdirs. rewrite map_empty_filter_2; [done|].
  intros [p' nm] d Hd [Hp _]. cbn in Hp. subst. by rewrite Hn in Hd.
Qed.

(** ** Climbing *)

Lemma depth_unique pm n m i : depth pm n i -> depth pm m i -> n = m.
Proof.
  intros Hn. revert m. induction Hn as [|n i p ? Hp _ IH]; intros m Hm.
  - inversion Hm; [done|congruence].
  - inversion Hm; [congruence|]. f_equal. apply IH. congruence.
Qed.

Lemma depth_mono pm pm' n i :
  (forall j q, j <> ROOT -> pm j = Some q -> pm' j = Some q) -> depth pm n i -> depth pm' n i.
Proof. intros H. induction 1; econstructor; eauto. Qed.

Lemma reaches_mono pm pm' i :
  (forall j q, j <> ROOT -> pm j = Some q -> pm' j = Some q) -> reaches pm i -> reaches pm' i.
Proof. intros H [n Hn]. exists n. by eapply depth_mono. Qed.

Lemma avoids_reaches pm i p : avoids pm i p -> reaches pm p.
Proof.
  induction 1 as [|p q ? ? Hq _ [n IH]]; [exists 0%nat; constructor|].
  exists (S n). by econstructor.
Qed.

Lemma reaches_root pm : reaches pm ROOT.
Proof. exists 0%nat. constructor. Qed.

(** Nothing climbs back to a node below it. *)
Lemma depth_avoids pm n m i p : depth pm n p -> depth pm m i -> (n < m)%nat -> avoids pm i p.
Proof.
  induction 1 as [|n p q Hp Hq Hd IH]; intros Hi Hlt.
  - constructor. intros ->. inversion Hi; [lia|congruence].
  - econstructor; [|done|done|apply IH; [done|lia]].
    intros ->. pose proof (depth_unique _ _ _ _ Hi (depth_step _ _ _ _ Hp Hq Hd)). lia.
Qed.

Lemma parent_avoids pm i p : i <> ROOT -> pm i = Some p -> reaches pm i -> avoids pm i p.
Proof.
  intros Hi Hp [n Hn]. inversion Hn as [|m j q ? Hq Hd]; subst; [done|].
  assert (q = p) as -> by congruence. by eapply depth_avoids; [done|done|lia].
Qed.

Lemma avoids_ne pm i p : avoids pm i p -> p <> i.
Proof. by inversion 1. Qed.

(** ** Consequences of well-formedness *)

Lemma dir_parent_lookup nodes i sh : nodes !! i = Some sh -> sh_kind sh = Dir ->
  dir_parent nodes i = Some (sh_parent sh).
Proof. intros Hi Hk. unfold dir_parent. rewrite Hi. cbn. by rewrite bool_decide_true. Qed.

Section facts.
Context (ns : NS) (Hok : ns_ok ns).
#[local] Set Default Proof Using "Type*".

Lemma dent_into p nm d : ns_dents ns !! (p, nm) = Some d ->
  exists sd, ns_nodes ns !! d_ino d = Some sd /\ sh_kind sd = d_kind d.
Proof. intros Hd. apply (ok_dent _ Hok _ _ _ Hd). Qed.

Lemma dent_from p nm d : ns_dents ns !! (p, nm) = Some d ->
  exists sp, ns_nodes ns !! p = Some sp /\ sh_kind sp = Dir.
Proof. intros Hd. apply (ok_dent _ Hok _ _ _ Hd). Qed.

Lemma absent_no_ents i : ns_nodes ns !! i = None -> ents (ns_dents ns) i = ∅.
Proof.
  intros Hi. apply set_eq. intros [p nm]. rewrite elem_of_ents. split; [|set_solver].
  intros (d&Hd&<-). destruct (dent_into _ _ _ Hd) as (?&?&_). congruence.
Qed.

Lemma non_dir_no_children i :
  (forall sh, ns_nodes ns !! i = Some sh -> sh_kind sh <> Dir) ->
  forall nm, ns_dents ns !! (i, nm) = None.
Proof.
  intros Hi nm. apply eq_None_not_Some. intros [d Hd].
  destruct (dent_from _ _ _ Hd) as (sp&Hsp&?). by apply (Hi sp).
Qed.

Lemma absent_no_links i : ns_nodes ns !! i = None -> ns_links ns !! i = None.
Proof.
  intros Hi. apply eq_None_not_Some. intros [l Hl]. destruct (ok_links _ Hok _ _ Hl). congruence.
Qed.

Lemma root_node_ok sh : ns_nodes ns !! ROOT = Some sh ->
  sh_kind sh = Dir /\ sh_parent sh = ROOT /\ ents (ns_dents ns) ROOT = ∅.
Proof.
  intros Hr. destruct (ok_root _ Hok) as (sh'&Hr'&Hk). simplify_eq.
  destruct (ok_node _ Hok _ _ Hr) as [_ Hn]. rewrite bool_decide_true in Hn by done.
  destruct Hn as (_&_&_&Hn&_). by destruct (Hn eq_refl).
Qed.

Lemma no_entry_to_root p nm d : ns_dents ns !! (p, nm) = Some d -> d_ino d <> ROOT.
Proof.
  intros Hd Heq. destruct (ok_root _ Hok) as (sh&Hr&_). destruct (root_node_ok sh Hr) as (_&_&He).
  assert ((p, nm) ∈ ents (ns_dents ns) ROOT) by (apply elem_of_ents; eauto). set_solver.
Qed.

(** A directory below the root has exactly the entry it records. *)
Lemma dir_entry_unique i sh : ns_nodes ns !! i = Some sh -> sh_kind sh = Dir -> i <> ROOT ->
  forall k d, ns_dents ns !! k = Some d -> d_ino d = i -> k = (sh_parent sh, sh_name sh).
Proof.
  intros Hi Hk Hr k d Hd Hdi. destruct (ok_node _ Hok _ _ Hi) as [_ Hn].
  rewrite bool_decide_true in Hn by done. destruct Hn as (_&_&_&_&Hn).
  assert (k ∈ ents (ns_dents ns) i) as Hin by (apply elem_of_ents; eauto).
  rewrite Hn in Hin by done. set_solver.
Qed.

(** No directory is an entry of itself or of one of its descendants. *)
Lemma entry_parent_avoids p nm d : ns_dents ns !! (p, nm) = Some d -> d_kind d = Dir ->
  avoids (dir_parent (ns_nodes ns)) (d_ino d) p.
Proof.
  intros Hd Hk. destruct (dent_into _ _ _ Hd) as (sd&Hsd&Hkd). rewrite Hk in Hkd.
  pose proof (no_entry_to_root _ _ _ Hd) as Hr.
  pose proof (dir_entry_unique _ _ Hsd Hkd Hr _ _ Hd eq_refl) as [= -> _].
  apply parent_avoids; [done|by apply dir_parent_lookup|by eapply ok_tree].
Qed.

Lemma entry_not_parent p nm d : ns_dents ns !! (p, nm) = Some d -> d_ino d <> p.
Proof.
  intros Hd. destruct (decide (d_kind d = Dir)) as [Hk|Hk].
  - pose proof (entry_parent_avoids _ _ _ Hd Hk) as Ha. by apply avoids_ne in Ha.
  - intros Heq. destruct (dent_from _ _ _ Hd) as (sp&Hsp&Hkp).
    destruct (dent_into _ _ _ Hd) as (sd&Hsd&Hkd). rewrite Heq in Hsd. simplify_eq. congruence.
Qed.

Lemma dir_ok i sh : ns_nodes ns !! i = Some sh -> sh_kind sh = Dir ->
  sh_ino sh = i /\ sh_deleted sh = false /\ sh_nlink sh = 2 + subdirs (ns_dents ns) i /\
  ns_links ns !! i = None.
Proof.
  intros Hi Hk. destruct (ok_node _ Hok _ _ Hi) as [? Hn].
  rewrite bool_decide_true in Hn by done. naive_solver.
Qed.

Lemma file_ok i sh : ns_nodes ns !! i = Some sh -> sh_kind sh <> Dir ->
  sh_ino sh = i /\ i <> ROOT /\ file_links (ents (ns_dents ns) i) (ns_links ns !! i) sh.
Proof.
  intros Hi Hk. destruct (ok_node _ Hok _ _ Hi) as [? Hn].
  rewrite bool_decide_false in Hn by done. naive_solver.
Qed.

End facts.

(** Replaces the link count. *)
Definition sh_set_nlink (n : Z) (sh : Shape) : Shape :=
  mkShape (sh_ino sh) (sh_parent sh) (sh_name sh) (sh_kind sh) n (sh_deleted sh).

(** The ancestry is the same when the directories' parents are. *)
Lemma dir_parent_insert nodes i sh j :
  dir_parent (<[i := sh]> nodes) j =
  if decide (j = i) then (if bool_decide (sh_kind sh = Dir) then Some (sh_parent sh) else None)
  else dir_parent nodes j.
Proof.
  unfold dir_parent. case_decide as Hd; [subst; by rewrite lookup_insert_eq|].
  by rewrite lookup_insert_ne.
Qed.

(** Nodes of [nodes] other than [gone] are still there in [nodes'], with the same
    kind. *)
Definition kinds_kept (gone : Z -> Prop) (nodes nodes' : gmap Z Shape) : Prop :=
  forall i sh, nodes !! i = Some sh -> ~ gone i ->
    exists sh', nodes' !! i = Some sh' /\ sh_kind sh' = sh_kind sh.

(** Old entries stay valid. *)
Lemma ok_dent_kept ns gone nodes' p nm d :
  ns_ok ns -> kinds_kept gone (ns_nodes ns) nodes' -> ns_dents ns !! (p, nm) = Some d ->
  ~ gone p -> ~ gone (d_ino d) ->
  (exists sp, nodes' !! p = Some sp /\ sh_kind sp = Dir) /\
  (exists sd, nodes' !! d_ino d = Some sd /\ sh_kind sd = d_kind d).
Proof.
  intros Hok Hkeep Hd Hp Hi. destruct (ok_dent _ Hok _ _ _ Hd) as [(s1&Hs1&?) (s2&Hs2&?)].
  destruct (Hkeep _ _ Hs1 Hp) as (s1'&?&?), (Hkeep _ _ Hs2 Hi) as (s2'&?&?).
  split; [exists s1'|exists s2']; (split; [done|congruence]).
Qed.

Lemma lookup_insert2_Some {A} (m : gmap Z A) i p a b j x :
  <[i := a]> (<[p := b]> m) !! j = Some x ->
  (j = i /\ x = a) \/ (j <> i /\ j = p /\ x = b) \/ (j <> i /\ j <> p /\ m !! j = Some x).
Proof.
  destruct (decide (j = i)) as [->|]; [rewrite lookup_insert_eq; intros [= <-]; auto|].
  rewrite lookup_insert_ne by done.
  destruct (decide (j = p)) as [->|]; [rewrite lookup_insert_eq; intros [= <-]; auto|].
  rewrite lookup_insert_ne by done. auto.
Qed.

(** ** Creating a node *)

(** The parent of a new node. *)
Definition parent_of_new (k : StoredNodeKind) (sp : Shape) : Shape :=
  if bool_decide (k = Dir) then sh_set_nlink (sh_nlink sp + 1) sp else sp.
Definition new_shape (p : Z) (nm : string) (i : Z) (k : StoredNodeKind) : Shape :=
  mkShape i p nm k (if bool_decide (k = Dir) then 2 else 1) false.

Definition ns_create (p : Z) (sp : Shape) (nm : string) (i : Z) (k : StoredNodeKind) (ns : NS) : NS :=
  mkNS (<[i := new_shape p nm i k]> (<[p := parent_of_new k sp]> (ns_nodes ns)))
       (<[(p, nm) := mkDentry i k]> (ns_dents ns)) (ns_links ns).

Section create.
Context (ns : NS) (p : Z) (sp : Shape) (nm : string) (i : Z) (k : StoredNodeKind).
Context (Hok : ns_ok ns) (Hp : ns_nodes ns !! p = Some sp) (Hkp : sh_kind sp = Dir).
Context (Hfree : ns_dents ns !! (p, nm) = None) (Hi : ns_nodes ns !! i = None).
#[local] Set Default Proof Using "All".

Lemma create_ne : i <> p /\ i <> ROOT.
Proof. split; [congruence|]. intros ->. destruct (ok_root _ Hok) as (?&?&_). congruence. Qed.

Lemma parent_of_new_same : sh_kind (parent_of_new k sp) = Dir /\
  sh_parent (parent_of_new k sp) = sh_parent sp /\ sh_ino (parent_of_new k sp) = sh_ino sp.
Proof. unfold parent_of_new. by case_bool_decide. Qed.

Lemma create_kinds : kinds_kept (fun _ => False) (ns_nodes ns) (ns_nodes (ns_create p sp nm i k ns)).
Proof.
  intros j sj Hj _. destruct parent_of_new_same as (?&_&_). cbn.
  rewrite lookup_insert_ne by congruence. destruct (decide (j = p)) as [->|].
  - rewrite lookup_insert_eq. simplify_eq. eexists. split; [done|congruence].
  - rewrite lookup_insert_ne by done. eauto.
Qed.

Lemma create_nodes_ok j sh : ns_nodes (ns_create p sp nm i k ns) !! j = Some sh ->
  node_ok (ents (ns_dents (ns_create p sp nm i k ns)) j)
    (subdirs (ns_dents (ns_create p sp nm i k ns)) j) (ns_links ns !! j) j sh.
Proof.
  destruct create_ne as [Hip Hir]. destruct parent_of_new_same as (Hk'&_&Hino).
  intros Hj. cbn [ns_dents ns_create]. rewrite ents_insert, subdirs_insert by done. cbn [d_ino].
  unfold counts_in; cbn [fst d_kind].
  apply lookup_insert2_Some in Hj as [[-> ->]|[(?&->&->)|(?&?&Hj)]].
  - rewrite decide_True by done. rewrite (decide_False (P := p = i /\ _)) by naive_solver.
    rewrite (absent_no_ents ns Hok i Hi), (absent_no_links ns Hok i Hi), subdirs_zero.
    2: { apply (non_dir_no_children ns Hok). intros ? ?; congruence. }
    split; [done|]. cbn. case_bool_decide as Hk.
    + split_and!; try done. intros _. set_solver.
    + split; [done|]. apply file_single; cbn; try done; [by rewrite bool_decide_false|set_solver].
  - rewrite decide_False by done. destruct (ok_node _ Hok _ _ Hp) as [Hi' Hn].
    split; [congruence|]. rewrite bool_decide_true in Hn |- * by done.
    unfold parent_of_new. case_bool_decide as Hk.
    + rewrite decide_True by done. destruct Hn as (?&?&?&?&?). cbn. split_and!; try done. lia.
    + rewrite decide_False by naive_solver. by rewrite Z.add_0_r.
  - rewrite !decide_False by naive_solver. rewrite Z.add_0_r. by apply (ok_node _ Hok).
Qed.

Lemma create_tree_ok j sh : ns_nodes (ns_create p sp nm i k ns) !! j = Some sh ->
  sh_kind sh = Dir -> reaches (dir_parent (ns_nodes (ns_create p sp nm i k ns))) j.
Proof.
  destruct create_ne as [Hip Hir]. destruct parent_of_new_same as (Hk'&Hpar'&_).
  assert (forall j q, j <> ROOT -> dir_parent (ns_nodes ns) j = Some q ->
    dir_parent (ns_nodes (ns_create p sp nm i k ns)) j = Some q) as Hmono.
  { intros j' q _ Hj. cbn. rewrite !dir_parent_insert, Hk', Hpar'.
    destruct (decide (j' = i)) as [->|]; [unfold dir_parent in Hj; by rewrite Hi in Hj|].
    destruct (decide (j' = p)) as [->|]; [|done].
    rewrite (dir_parent_lookup _ _ _ Hp Hkp) in Hj. done. }
  intros Hj Hk. apply lookup_insert2_Some in Hj as [[-> ->]|[(?&->&->)|(?&?&Hj)]].
  - destruct (ok_tree _ Hok _ _ Hp Hkp) as [n Hn]. exists (S n).
    apply (depth_step _ _ _ p); [done| |by eapply depth_mono].
    cbn. rewrite dir_parent_insert, decide_True by done. by rewrite Hk.
  - eapply reaches_mono; [exact Hmono|]. by eapply ok_tree.
  - eapply reaches_mono; [exact Hmono|]. by eapply ok_tree.
Qed.

Lemma ns_create_ok : ns_ok (ns_create p sp nm i k ns).
Proof.
  destruct create_ne as [Hip Hir]. split.
  - destruct (ok_root _ Hok) as (sr&Hr&Hkr).
    destruct (create_kinds _ _ Hr (fun H => H)) as (s'&?&?). exists s'. split; [done|congruence].
  - intros j sh. apply create_nodes_ok.
  - intros j sh. apply create_tree_ok.
  - intros q nm' d Hd. cbn [ns_dents ns_create] in Hd.
    destruct (decide ((q, nm') = (p, nm))) as [[= -> ->]|Hne].
    + rewrite lookup_insert_eq in Hd. injection Hd as <-. split.
      * destruct (create_kinds _ _ Hp (fun H => H)) as (s'&?&?). exists s'. split; [done|congruence].
      * cbn. rewrite lookup_insert_eq. eauto.
    + rewrite lookup_insert_ne in Hd by done.
      eapply ok_dent_kept; [exact Hok|exact create_kinds|exact Hd|by intros []..].
  - intros j l Hl. destruct (ok_links _ Hok _ _ Hl) as [sj Hj].
    destruct (create_kinds _ _ Hj (fun H => H)) as (?&?&_). eauto.
Qed.
End create.

(** ** Changing entries while the nodes stay *)

(** A directory whose link count follows the number of its subdirectories. *)
Definition recount (ds ds' : Dents) (j : Z) (sh : Shape) : Shape :=
  if bool_decide (sh_kind sh = Dir)
  then sh_set_nlink (sh_nlink sh + (subdirs ds' j - subdirs ds j)) sh else sh.

Lemma recount_same ds ds' j sh : subdirs ds' j = subdirs ds j -> recount ds ds' j sh = sh.
Proof.
  intros H. unfold recount, sh_set_nlink. rewrite H, Z.sub_diag, Z.add_0_r. case_bool_decide; by destruct sh.
Qed.

Lemma node_ok_recount ds ds' L j sh :
  node_ok (ents ds j) (subdirs ds j) L j sh -> ents ds' j = ents ds j ->
  node_ok (ents ds' j) (subdirs ds' j) L j (recount ds ds' j sh).
Proof.
  intros [Hi Hn] ->. unfold recount, node_ok. case_bool_decide as Hk; [cbn|by rewrite bool_decide_false].
  rewrite bool_decide_true by done. destruct Hn as (?&?&?&?&?). split_and!; try done. lia.
Qed.

(** Link counts, bindings and entries may change together, provided the nodes in
    [U] are consistent afterwards, the others keep their names, and directories
    still hang from the root. *)
Lemma ns_ok_rebind ns nodes' dents' links' (U : Z -> Prop) :
  (forall i, Decision (U i)) -> ns_ok ns ->
  (forall j, sh_kind <$> nodes' !! j = sh_kind <$> ns_nodes ns !! j) ->
  (forall j, ~ U j -> ents dents' j = ents (ns_dents ns) j /\ links' !! j = ns_links ns !! j /\
     nodes' !! j = recount (ns_dents ns) dents' j <$> ns_nodes ns !! j) ->
  (forall i sh', U i -> nodes' !! i = Some sh' ->
     node_ok (ents dents' i) (subdirs dents' i) (links' !! i) i sh') ->
  (forall i, U i -> is_Some (ns_nodes ns !! i)) ->
  (forall p nm d, dents' !! (p, nm) = Some d ->
     (exists sp, ns_nodes ns !! p = Some sp /\ sh_kind sp = Dir) /\
     (exists sd, ns_nodes ns !! d_ino d = Some sd /\ sh_kind sd = d_kind d)) ->
  (forall j, reaches (dir_parent (ns_nodes ns)) j -> reaches (dir_parent nodes') j) ->
  ns_ok (mkNS nodes' dents' links').
Proof.
  intros HU Hok Hkinds Hother Hin Hdom Hdents Htree.
  assert (forall j sh, ns_nodes ns !! j = Some sh ->
    exists sh', nodes' !! j = Some sh' /\ sh_kind sh' = sh_kind sh) as Hkeep.
  { intros j sh Hj. specialize (Hkinds j). rewrite Hj in Hkinds. cbn in Hkinds.
    destruct (nodes' !! j) as [sh'|]; [|done]. injection Hkinds. eauto. }
  assert (forall j sh', nodes' !! j = Some sh' ->
    exists sh, ns_nodes ns !! j = Some sh /\ sh_kind sh' = sh_kind sh) as Hback.
  { intros j sh' Hj. specialize (Hkinds j). rewrite Hj in Hkinds. cbn in Hkinds.
    destruct (ns_nodes ns !! j) as [sh|]; [|done]. injection Hkinds. eauto. }
  split; cbn.
  - destruct (ok_root _ Hok) as (sr&Hr&Hk). destruct (Hkeep _ _ Hr) as (s'&?&?).
    exists s'. split; [done|congruence].
  - intros j sh Hj. destruct (decide (U j)) as [Hu|Hu]; [by apply Hin|].
    destruct (Hother j Hu) as (He&Hl&Hn). destruct (Hback _ _ Hj) as (s0&Hs0&_).
    rewrite Hj, Hs0 in Hn. injection Hn as ->. rewrite Hl. apply node_ok_recount; [|done].
    by apply (ok_node _ Hok).
  - intros j sh Hj Hk. destruct (Hback _ _ Hj) as (s0&Hs0&?). apply Htree.
    eapply ok_tree; [done|done|congruence].
  - intros p nm d Hd. destruct (Hdents _ _ _ Hd) as [(s1&Hs1&?) (s2&Hs2&?)].
    destruct (Hkeep _ _ Hs1) as (s1'&?&?), (Hkeep _ _ Hs2) as (s2'&?&?).
    split; [exists s1'|exists s2']; (split; [done|congruence]).
  - intros j l Hl. destruct (decide (U j)) as [Hu|Hu].
    + destruct (Hdom j Hu) as [s Hs]. destruct (Hkeep _ _ Hs) as (?&?&_). eauto.
    + destruct (Hother j Hu) as (_&Hl'&_). rewrite Hl' in Hl.
      destruct (ok_links _ Hok _ _ Hl) as [s Hs]. destruct (Hkeep _ _ Hs) as (?&?&_). eauto.
Qed.

(** *** The link bookkeeping of one file *)

Definition binding_list (L : option (list Binding)) (sh : Shape) : list Binding :=
  if sh_nlink sh =? 1 then [(sh_parent sh, sh_name sh)] else default [] L.

(** One more name: all names move to the binding list. *)
Definition add_link (k : Binding) (L : option (list Binding)) (sh : Shape) : Shape * list Binding :=
  (mkShape (sh_ino sh) 0 EmptyString (sh_kind sh) (sh_nlink sh + 1) false,
   binding_list L sh ++ [k]).

(** One name less; [None] if the binding list does not have it. *)
Definition drop_link (k : Binding) (L : option (list Binding)) (sh : Shape)
  : option (Shape * option (list Binding)) :=
  if 1 <? sh_nlink sh then
    let lps := default [] L in
    let remaining := filter (fun l => l <> k) lps in
    if (length remaining =? length lps)%nat then None else
    if sh_nlink sh - 1 =? 1 then
      (fun b => (mkShape (sh_ino sh) b.1 b.2 (sh_kind sh) (sh_nlink sh - 1) false, None))
      <$> head remaining
    else Some (mkShape (sh_ino sh) 0 EmptyString (sh_kind sh) (sh_nlink sh - 1) false,
               Some remaining)
  else Some (mkShape (sh_ino sh) 0 EmptyString (sh_kind sh) 0 true, None).

(** The first binding [k] becomes [k']. *)
Fixpoint list_rebind (k k' : Binding) (l : list Binding) : option (list Binding) :=
  match l with
  | [] => None
  | b :: rest => if bool_decide (b = k) then Some (k' :: rest) else cons b <$> list_rebind k k' rest
  end.

Definition move_link (k k' : Binding) (L : option (list Binding)) (sh : Shape)
  : option (Shape * option (list Binding)) :=
  if bool_decide (sh_kind sh = Dir) || (sh_nlink sh <=? 1) then
    Some (mkShape (sh_ino sh) k'.1 k'.2 (sh_kind sh) (sh_nlink sh) (sh_deleted sh), L)
  else (fun l => (mkShape (sh_ino sh) 0 EmptyString (sh_kind sh) (sh_nlink sh) (sh_deleted sh), Some l))
       <$> list_rebind k k' (default [] L).

Lemma filter_ne_NoDup (k : Binding) l : NoDup l -> k ∈ l ->
  length l = S (length (filter (fun b => b <> k) l)).
Proof.
  induction 1 as [|b l Hb Hnd IH]; intros Hin; [set_solver|].
  apply elem_of_cons in Hin as [->|Hin].
  - rewrite filter_cons_False by naive_solver. cbn. f_equal.
    clear -Hb. induction l as [|c l IH]; [done|].
    rewrite filter_cons_True by set_solver. cbn. f_equal. apply IH. set_solver.
  - rewrite filter_cons_True by (intros ->; done). cbn. by rewrite (IH Hin) at 1.
Qed.

Lemma list_to_set_filter_ne (k : Binding) l :
  list_to_set (C := gset Binding) (filter (fun b => b <> k) l) = list_to_set l ∖ {[k]}.
Proof. apply set_eq. intros b. rewrite elem_of_difference, !elem_of_list_to_set, list_elem_of_filter. set_solver. Qed.

Lemma file_links_add E L sh k : file_links E L sh -> sh_deleted sh = false -> k ∉ E ->
  file_links ({[k]} ∪ E) (Some (add_link k L sh).2) (add_link k L sh).1.
Proof.
  intros [Hn Hd _ _|Hn Hd -> ->|l Hn Hd -> Hnd Hlen ->] Hnd' Hk; [congruence|..];
    unfold add_link, binding_list; cbn [fst snd].
  - rewrite Hn. cbn. eapply file_multi; cbn; [lia|done|done| |done|set_solver].
    repeat constructor; set_solver.
  - destruct (Z.eqb_spec (sh_nlink sh) 1); [lia|]. cbn.
    eapply file_multi; cbn; [lia|done|done| |rewrite length_app; cbn; lia|].
    + apply NoDup_app. split_and!; [done|set_solver|apply NoDup_singleton].
    + rewrite list_to_set_app_L. set_solver.
Qed.

Lemma file_links_drop E L sh k : file_links E L sh -> k ∈ E ->
  exists sh' L', drop_link k L sh = Some (sh', L') /\ file_links (E ∖ {[k]}) L' sh'.
Proof.
  intros [Hn Hd _ ->|Hn Hd -> ->|l Hn Hd -> Hnd Hlen ->] Hk; unfold drop_link.
  - set_solver.
  - rewrite Hn. cbn. eexists _, _. split; [done|]. apply file_unlinked; (done || set_solver).
  - destruct (Z.ltb_spec 1 (sh_nlink sh)); [|lia]. change (default [] (Some l)) with l.
    apply elem_of_list_to_set in Hk. pose proof (filter_ne_NoDup k l Hnd Hk) as Hflen.
    set (rem := filter (fun b => b <> k) l) in *.
    destruct (Nat.eqb_spec (length rem) (length l)); [lia|].
    rewrite <-list_to_set_filter_ne. fold rem.
    assert (NoDup rem) as Hrem by (by apply NoDup_filter).
    destruct (Z.eqb_spec (sh_nlink sh - 1) 1) as [E1|E1].
    + assert (length rem = 1%nat) as Hl1 by lia.
      destruct rem as [|b [|]]; [done| |done]. cbn. eexists _, _. split; [done|].
      apply file_single; cbn; try done. destruct b. cbn. set_solver.
    + eexists _, _. split; [done|]. eapply file_multi; cbn; try done; lia.
Qed.

Lemma list_rebind_spec k k' l : NoDup l -> k ∈ l -> k' ∉ l ->
  exists l', list_rebind k k' l = Some l' /\ NoDup l' /\ length l' = length l /\
    list_to_set (C := gset Binding) l' = {[k']} ∪ (list_to_set l ∖ {[k]}).
Proof.
  induction 1 as [|b l Hb Hnd IH]; intros Hk Hk'; [set_solver|]. cbn [list_rebind].
  case_bool_decide as Hbk.
  - subst b. eexists. split; [done|]. split_and!; [|done|].
    + constructor; [set_solver|done].
    + cbn. rewrite difference_union_distr_l_L, difference_diag_L, (difference_disjoint_L (list_to_set l));
        [set_solver|]. intros x Hx Hx'. set_solver.
  - destruct IH as (l'&Hl'&Hnd'&Hlen&Hset); [set_solver..|]. rewrite Hl'. cbn.
    eexists. split; [done|]. split_and!; [|by rewrite <-Hlen|cbn; rewrite Hset; set_solver].
    constructor; [|done]. intros Hin.
    assert (b ∈ list_to_set (C := gset Binding) l') as Hin' by (by apply elem_of_list_to_set).
    rewrite Hset in Hin'. set_solver.
Qed.

Lemma file_links_move E L sh k k' : file_links E L sh -> sh_kind sh <> Dir -> k ∈ E -> k' ∉ E ->
  exists sh' L', move_link k k' L sh = Some (sh', L') /\ file_links ({[k']} ∪ (E ∖ {[k]})) L' sh'.
Proof.
  intros Hf Hkind Hk Hk'. unfold move_link. rewrite bool_decide_false by done. cbn [orb].
  destruct Hf as [Hn Hd _ ->|Hn Hd -> ->|l Hn Hd -> Hnd Hlen ->].
  - set_solver.
  - rewrite Hn. cbn. eexists _, _. split; [done|]. apply file_single; cbn; try done.
    destruct k'. set_solver.
  - destruct (Z.leb_spec (sh_nlink sh) 1); [lia|]. change (default [] (Some l)) with l.
    rewrite elem_of_list_to_set in Hk, Hk'.
    destruct (list_rebind_spec k k' l Hnd Hk Hk') as (l'&Hl'&?&?&?).
    rewrite Hl'. cbn. eexists _, _. split; [done|].
    eapply file_multi; cbn; try done. lia.
Qed.

Lemma add_link_same k L sh : sh_ino (add_link k L sh).1 = sh_ino sh /\
  sh_kind (add_link k L sh).1 = sh_kind sh.
Proof. done. Qed.

Lemma drop_link_same k L sh sh' L' : drop_link k L sh = Some (sh', L') ->
  sh_ino sh' = sh_ino sh /\ sh_kind sh' = sh_kind sh.
Proof.
  unfold drop_link. repeat case_match; intros; simplify_eq; try done.
  destruct (head _); cbn in *; by simplify_eq.
Qed.

Lemma move_link_same k k' L sh sh' L' : move_link k k' L sh = Some (sh', L') ->
  sh_ino sh' = sh_ino sh /\ sh_kind sh' = sh_kind sh /\
  (sh_kind sh = Dir -> L' = L /\ sh_parent sh' = k'.1 /\ sh_name sh' = k'.2 /\
     sh_nlink sh' = sh_nlink sh /\ sh_deleted sh' = sh_deleted sh).
Proof.
  unfold move_link. case_bool_decide as Hk; cbn [orb]; [intros; by simplify_eq|].
  destruct (sh_nlink sh <=? 1); [intros; by simplify_eq|].
  destruct (list_rebind _ _ _); cbn; intros; by simplify_eq.
Qed.

(** *** Linking and unlinking a file *)

Definition set_opt {A} (i : Z) (o : option A) (m : gmap Z A) : gmap Z A :=
  match o with Some a => <[i := a]> m | None => delete i m end.

Lemma lookup_set_opt {A} (m : gmap Z A) i o j :
  set_opt i o m !! j = if decide (j = i) then o else m !! j.
Proof.
  unfold set_opt. destruct o; case_decide as Hd; subst;
    by rewrite ?lookup_insert_eq, ?lookup_delete_eq, ?lookup_insert_ne, ?lookup_delete_ne by done.
Qed.

(** Changing entries of one file only. *)
Lemma ns_file_update_ok ns i sh sh' L' dents' :
  ns_ok ns -> ns_nodes ns !! i = Some sh -> sh_kind sh <> Dir ->
  sh_ino sh' = i -> sh_kind sh' = sh_kind sh ->
  (forall j, j <> i -> ents dents' j = ents (ns_dents ns) j) ->
  (forall p, subdirs dents' p = subdirs (ns_dents ns) p) ->
  (forall p nm d, dents' !! (p, nm) = Some d -> ns_dents ns !! (p, nm) = Some d \/
     (d = mkDentry i (sh_kind sh) /\ exists sp, ns_nodes ns !! p = Some sp /\ sh_kind sp = Dir)) ->
  file_links (ents dents' i) L' sh' ->
  ns_ok (mkNS (<[i := sh']> (ns_nodes ns)) dents' (set_opt i L' (ns_links ns))).
Proof.
  intros Hok Hi Hk Hino Hk' Hents Hsub Hdents Hf.
  destruct (file_ok ns Hok i sh Hi Hk) as (_&Hroot&_).
  apply (ns_ok_rebind ns _ _ _ (fun j => j = i)); try done.
  - intros j. apply _.
  - intros j. destruct (decide (j = i)) as [->|].
    + rewrite lookup_insert_eq, Hi. cbn. congruence.
    + by rewrite lookup_insert_ne.
  - intros j Hj. rewrite lookup_set_opt, decide_False, lookup_insert_ne by done. split_and!; auto.
    destruct (ns_nodes ns !! j); cbn; [|done]. by rewrite recount_same.
  - intros j s -> Hs. rewrite lookup_insert_eq in Hs. injection Hs as <-.
    split; [done|]. rewrite bool_decide_false by congruence.
    rewrite lookup_set_opt, decide_True by done. done.
  - intros j ->. eauto.
  - intros p nm d Hd. destruct (Hdents _ _ _ Hd) as [?|[-> (sp&?&?)]]; [by apply (ok_dent _ Hok p nm)|].
    split; [eauto|]. cbn. eauto.
  - intros j. apply reaches_mono. intros j' q _. rewrite dir_parent_insert. case_decide; [|done].
    subst. unfold dir_parent. rewrite Hi. cbn. by rewrite bool_decide_false.
Qed.

Definition ns_link (k : Binding) (i : Z) (sh : Shape) (ns : NS) : NS :=
  let '(sh', l) := add_link k (ns_links ns !! i) sh in
  mkNS (<[i := sh']> (ns_nodes ns)) (<[k := mkDentry i (sh_kind sh)]> (ns_dents ns))
       (<[i := l]> (ns_links ns)).

Lemma ns_link_ok ns p nm i sh sp :
  ns_ok ns -> ns_nodes ns !! i = Some sh -> sh_kind sh <> Dir -> sh_deleted sh = false ->
  ns_nodes ns !! p = Some sp -> sh_kind sp = Dir -> ns_dents ns !! (p, nm) = None ->
  ns_ok (ns_link (p, nm) i sh ns).
Proof.
  intros Hok Hi Hk Hd Hp Hkp Hfree. destruct (file_ok ns Hok i sh Hi Hk) as (Hino&_&Hf).
  unfold ns_link. destruct (add_link (p, nm) (ns_links ns !! i) sh) as [sh' l] eqn:Hadd.
  assert (sh' = (add_link (p, nm) (ns_links ns !! i) sh).1) as Es by (by rewrite Hadd).
  assert (l = (add_link (p, nm) (ns_links ns !! i) sh).2) as El by (by rewrite Hadd).
  destruct (add_link_same (p, nm) (ns_links ns !! i) sh) as [? ?].
  change (<[i := l]> (ns_links ns)) with (set_opt i (Some l) (ns_links ns)).
  apply (ns_file_update_ok ns i sh); try done; [congruence..| | | |].
  - intros j Hj. rewrite ents_insert by done. by rewrite decide_False by done.
  - intros q. rewrite subdirs_insert by done. unfold counts_in. rewrite decide_False by naive_solver. lia.
  - intros q nm' d Hd'. destruct (decide ((q, nm') = (p, nm))) as [[= -> ->]|].
    + rewrite lookup_insert_eq in Hd'. injection Hd' as <-. right. eauto.
    + rewrite lookup_insert_ne in Hd' by done. by left.
  - rewrite ents_insert by done. rewrite decide_True by done. rewrite Es, El.
    apply file_links_add; [done..|]. rewrite elem_of_ents. intros (?&?&_). congruence.
Qed.

Definition ns_unlink (k : Binding) (i : Z) (sh' : Shape) (L' : option (list Binding)) (ns : NS) : NS :=
  mkNS (<[i := sh']> (ns_nodes ns)) (delete k (ns_dents ns)) (set_opt i L' (ns_links ns)).

Lemma ns_unlink_ok ns k d sh :
  ns_ok ns -> ns_dents ns !! k = Some d -> ns_nodes ns !! d_ino d = Some sh -> sh_kind sh <> Dir ->
  exists sh' L', drop_link k (ns_links ns !! d_ino d) sh = Some (sh', L') /\
    ns_ok (ns_unlink k (d_ino d) sh' L' ns).
Proof.
  intros Hok Hd Hi Hk. destruct (file_ok ns Hok _ sh Hi Hk) as (Hino&_&Hf).
  destruct (file_links_drop _ _ _ k Hf) as (sh'&L'&Hdrop&Hf'); [apply elem_of_ents; eauto|].
  destruct (drop_link_same _ _ _ _ _ Hdrop) as [? ?]. exists sh', L'. split; [done|].
  assert (d_kind d = sh_kind sh) as Hkd.
  { destruct k. destruct (dent_into ns Hok _ _ _ Hd) as (?&?&?). congruence. }
  apply (ns_file_update_ok ns _ sh); try done; [congruence..| | | |].
  - intros j Hj. rewrite ents_delete. apply difference_disjoint_L. intros k' Hk' ->%elem_of_singleton.
    apply elem_of_ents in Hk' as (?&?&?). congruence.
  - intros q. rewrite (subdirs_delete _ _ d) by done. unfold counts_in.
    rewrite decide_False by (rewrite Hkd; naive_solver). lia.
  - intros q nm d' Hd'. left. apply lookup_delete_Some in Hd' as [_ ?]. done.
  - by rewrite ents_delete.
Qed.

(** ** Removing a directory *)

Definition ns_rmdir (k : Binding) (i : Z) (sp : Shape) (ns : NS) : NS :=
  mkNS (delete i (<[k.1 := sh_set_nlink (sh_nlink sp - 1) sp]> (ns_nodes ns)))
       (delete k (ns_dents ns)) (ns_links ns).

Lemma lookup_delete_insert_Some {A} (m : gmap Z A) i p b j x :
  delete i (<[p := b]> m) !! j = Some x ->
  j <> i /\ ((j = p /\ x = b) \/ (j <> p /\ m !! j = Some x)).
Proof.
  intros [Hne Hj]%lookup_delete_Some. split; [done|].
  destruct (decide (j = p)) as [->|]; [rewrite lookup_insert_eq in Hj; left; by simplify_eq|].
  rewrite lookup_insert_ne in Hj by done. auto.
Qed.

Section rmdir.
Context (ns : NS) (p : Z) (nm : string) (d : StoredDentry) (sp sd : Shape).
Context (Hok : ns_ok ns) (Hd : ns_dents ns !! (p, nm) = Some d).
Context (Hp : ns_nodes ns !! p = Some sp) (Hi : ns_nodes ns !! d_ino d = Some sd).
Context (Hk : sh_kind sd = Dir) (Hempty : forall x, ns_dents ns !! (d_ino d, x) = None).
#[local] Set Default Proof Using "All".
Let ns' := ns_rmdir (p, nm) (d_ino d) sp ns.

Lemma rmdir_facts : d_ino d <> p /\ d_ino d <> ROOT /\ d_kind d = Dir /\ sh_kind sp = Dir /\
  ents (ns_dents ns) (d_ino d) = {[ (p, nm) ]}.
Proof.
  destruct (dent_from ns Hok _ _ _ Hd) as (?&?&?). destruct (dent_into ns Hok _ _ _ Hd) as (?&?&?).
  pose proof (no_entry_to_root ns Hok _ _ _ Hd) as Hr.
  split_and!; [by eapply entry_not_parent|done|congruence|congruence|].
  destruct (ok_node _ Hok _ _ Hi) as [_ Hn]. rewrite bool_decide_true in Hn by done.
  destruct Hn as (_&_&_&_&Hn). rewrite Hn by done.
  by rewrite <-(dir_entry_unique ns Hok _ _ Hi Hk Hr _ _ Hd eq_refl).
Qed.

Lemma rmdir_kinds : kinds_kept (fun j => j = d_ino d) (ns_nodes ns) (ns_nodes ns').
Proof.
  intros j sj Hj Hne. cbn. rewrite lookup_delete_ne by done. destruct (decide (j = p)) as [->|].
  - rewrite lookup_insert_eq. simplify_eq. eexists. split; [done|]. done.
  - rewrite lookup_insert_ne by done. eauto.
Qed.

Lemma rmdir_nodes_ok j sh : ns_nodes ns' !! j = Some sh ->
  node_ok (ents (ns_dents ns') j) (subdirs (ns_dents ns') j) (ns_links ns' !! j) j sh.
Proof.
  destruct rmdir_facts as (Hne&Hr&Hkd&Hkp&He).
  intros (Hji&Hj)%lookup_delete_insert_Some. cbn [fst ns_links ns_dents ns_rmdir ns'] in *.
  assert (ents (delete (p, nm) (ns_dents ns)) j = ents (ns_dents ns) j) as ->.
  { rewrite ents_delete. apply difference_disjoint_L. intros k Hin ->%elem_of_singleton.
    apply elem_of_ents in Hin as (?&?&?). congruence. }
  rewrite (subdirs_delete _ _ d) by done. unfold counts_in; cbn [fst].
  destruct Hj as [[-> ->]|[? Hj]].
  - rewrite decide_True by done. destruct (ok_node _ Hok _ _ Hp) as [? Hn]. split; [done|].
    rewrite bool_decide_true in Hn by done. cbn [sh_set_nlink sh_kind]. rewrite bool_decide_true by done.
    destruct Hn as (?&?&?&?&?). cbn. split_and!; try done. lia.
  - rewrite decide_False by naive_solver. rewrite Z.sub_0_r. by apply (ok_node _ Hok).
Qed.

Lemma rmdir_tree_ok j sh : ns_nodes ns' !! j = Some sh -> sh_kind sh = Dir ->
  reaches (dir_parent (ns_nodes ns')) j.
Proof.
  destruct rmdir_facts as (Hne&Hr&_&Hkp&He). intros (Hji&Hj)%lookup_delete_insert_Some Hkj.
  cbn [fst] in Hj.
  assert (exists s, ns_nodes ns !! j = Some s /\ sh_kind s = Dir) as (s&Hs&Hks).
  { destruct Hj as [[-> ->]|[? Hj]]; eauto. }
  destruct (ok_tree _ Hok _ _ Hs Hks) as [n Hn]. clear Hj Hkj sh Hs Hks s. exists n. revert Hji.
  induction Hn as [|n j q Hjr Hq Hdep IH]; intros Hji; [constructor|].
  assert (q <> d_ino d) as Hqi.
  { intros ->. unfold dir_parent in Hq. destruct (ns_nodes ns !! j) as [sj|] eqn:Hj; cbn in Hq; [|done].
    case_bool_decide as Hkj; [|done]. injection Hq as Hq. destruct (ok_node _ Hok _ _ Hj) as [_ Hnj].
    rewrite bool_decide_true in Hnj by done. destruct Hnj as (_&_&_&_&Hnj).
    assert ((sh_parent sj, sh_name sj) ∈ ents (ns_dents ns) j) as Hin by (rewrite Hnj by done; set_solver).
    apply elem_of_ents in Hin as (dj&Hdj&_). rewrite Hq, Hempty in Hdj. done. }
  apply (depth_step _ _ _ q); [done| |auto].
  unfold dir_parent in Hq |- *. cbn. rewrite lookup_delete_ne by done.
  destruct (decide (j = p)) as [->|]; [|by rewrite lookup_insert_ne].
  rewrite lookup_insert_eq. rewrite Hp in Hq. done.
Qed.

Lemma ns_rmdir_ok : ns_ok ns'.
Proof.
  destruct rmdir_facts as (Hne&Hr&_&Hkp&He). split.
  - destruct (ok_root _ Hok) as (sr&Hsr&?). destruct (rmdir_kinds _ _ Hsr) as (s'&?&?); [done|].
    exists s'. split; [done|congruence].
  - apply rmdir_nodes_ok.
  - apply rmdir_tree_ok.
  - intros q x e He'. cbn in He'. apply lookup_delete_Some in He' as [Hqx He'].
    eapply ok_dent_kept; [exact Hok|exact rmdir_kinds|exact He'|..].
    + intros ->. by rewrite Hempty in He'.
    + intros Heq. apply Hqx. assert ((q, x) ∈ ents (ns_dents ns) (d_ino d)) as Hin
        by (apply elem_of_ents; eauto). rewrite He in Hin. set_solver.
  - intros j l Hl. cbn [ns_links ns_rmdir ns'] in Hl. destruct (ok_links _ Hok _ _ Hl) as [s Hs].
    destruct (rmdir_kinds _ _ Hs) as (?&?&_); [|eauto]. intros ->.
    destruct (dir_ok ns Hok _ _ Hi Hk) as (_&_&_&?). congruence.
Qed.
End rmdir.

(** ** Moving and exchanging entries *)

Lemma avoids_pair_reaches pm pm' i j p :
  (forall x, x <> i -> x <> j -> pm' x = pm x) -> avoids pm i p -> avoids pm j p -> reaches pm' p.
Proof.
  intros Hext Hi. induction Hi as [|p q ? ? Hq _ IH]; intros Hj; [apply reaches_root|].
  inversion Hj as [|p' q' ? ? Hq' Hj']; subst; [done|]. assert (q' = q) as -> by congruence.
  destruct (IH Hj') as [n Hn]. exists (S n). apply (depth_step _ _ _ q); [done| |done].
  by rewrite Hext.
Qed.

(** Giving [i] and [j] new parents whose ancestry avoids both keeps every node
    below the root. *)
Lemma reaches_moved pm pm' i j x :
  (forall x, x <> i -> x <> j -> pm' x = pm x) ->
  (forall y, y = i \/ y = j -> is_Some (pm y) ->
     exists t, pm' y = Some t /\ avoids pm i t /\ avoids pm j t) ->
  reaches pm x -> reaches pm' x.
Proof.
  intros Hext Hnew [n Hn]. induction Hn as [|n x q Hx Hq _ IH]; [apply reaches_root|].
  destruct (decide (x = i \/ x = j)) as [Hij|Hij].
  - destruct (Hnew x Hij) as (t&Ht&Hti&Htj); [eauto|].
    destruct (avoids_pair_reaches pm pm' i j t Hext Hti Htj) as [m Hm].
    exists (S m). by apply (depth_step _ _ _ t).
  - destruct IH as [m Hm]. exists (S m). apply (depth_step _ _ _ q); [done| |done].
    rewrite Hext by naive_solver. done.
Qed.

(** A node that is not a directory is on nobody's ancestry. *)
Lemma avoids_non_dir pm j p : pm j = None -> j <> ROOT -> reaches pm p -> avoids pm j p.
Proof.
  intros Hj Hr [n Hn]. induction Hn as [|n p q ? Hq _ IH]; [by constructor|].
  apply (avoids_step _ _ _ q); [congruence|done..].
Qed.

(** A node whose name [k] becomes [k'], its subdirectories untouched. *)
Lemma node_ok_move E sub L i sh k k' :
  node_ok E sub L i sh -> k ∈ E -> k' ∉ E ->
  exists sh' L', move_link k k' L sh = Some (sh', L') /\
    node_ok ({[k']} ∪ (E ∖ {[k]})) sub L' i sh'.
Proof.
  intros [Hi Hn] Hk Hk'. case_bool_decide as Hdir.
  - destruct Hn as (?&?&->&Hroot&Hne).
    assert (i <> ROOT) as Hir by (intros ->; destruct (Hroot eq_refl) as [_ ->]; set_solver).
    rewrite Hne in Hk, Hk' |- * by done. apply elem_of_singleton in Hk as ->.
    unfold move_link. rewrite bool_decide_true by done. cbn [orb]. eexists _, _. split; [done|].
    split; [done|]. cbn. rewrite bool_decide_true by done. split_and!; try done.
    intros _. destruct k'. set_solver.
  - destruct Hn as [Hir Hf]. destruct (file_links_move _ _ _ k k' Hf Hdir Hk Hk') as (sh'&L'&Hm&Hf').
    destruct (move_link_same _ _ _ _ _ _ Hm) as (?&Hk''&_). exists sh', L'. split; [done|].
    split; [congruence|]. rewrite bool_decide_false by congruence. done.
Qed.

Lemma dir_parent_non_dir nodes i sh : nodes !! i = Some sh -> sh_kind sh <> Dir ->
  dir_parent nodes i = None.
Proof. intros Hi Hk. unfold dir_parent. rewrite Hi. cbn. by rewrite bool_decide_false. Qed.

Lemma dir_parent_recount ns dents' nodes' x :
  nodes' !! x = recount (ns_dents ns) dents' x <$> ns_nodes ns !! x ->
  dir_parent nodes' x = dir_parent (ns_nodes ns) x.
Proof.
  intros Hx. unfold dir_parent. rewrite Hx. destruct (ns_nodes ns !! x) as [sh|]; [|done]. cbn.
  unfold recount. by destruct (bool_decide (sh_kind sh = Dir)) eqn:Hk; cbn; rewrite ?Hk.
Qed.

(** The shape a moved node takes, with the ancestry its new parent needs. *)
Lemma moved_dir_parent nodes' i k k' L sh sh' L' :
  nodes' !! i = Some sh' -> move_link k k' L sh = Some (sh', L') ->
  dir_parent nodes' i = if bool_decide (sh_kind sh = Dir) then Some k'.1 else None.
Proof.
  intros Hi Hm. destruct (move_link_same _ _ _ _ _ _ Hm) as (_&Hk&Hdir). unfold dir_parent.
  rewrite Hi. cbn. rewrite Hk. case_bool_decide as Hd; [|done]. f_equal. naive_solver.
Qed.

Section move.
Context (ns : NS) (p1 p2 : Z) (n1 n2 : string) (d : StoredDentry) (sh sp : Shape).
Context (Hok : ns_ok ns) (Hd : ns_dents ns !! (p1, n1) = Some d) (Hfree : ns_dents ns !! (p2, n2) = None).
Context (Hi : ns_nodes ns !! d_ino d = Some sh).
Context (Hp2 : ns_nodes ns !! p2 = Some sp) (Hkp2 : sh_kind sp = Dir).
Context (Havoid : sh_kind sh = Dir -> avoids (dir_parent (ns_nodes ns)) (d_ino d) p2).
#[local] Set Default Proof Using "All".

Definition move_dents : Dents := <[(p2, n2) := d]> (delete (p1, n1) (ns_dents ns)).

Lemma move_free : delete (p1, n1) (ns_dents ns) !! (p2, n2) = None.
Proof. apply lookup_delete_None. by right. Qed.

Lemma move_kind : d_kind d = sh_kind sh.
Proof. destruct (dent_into ns Hok _ _ _ Hd) as (?&?&?). congruence. Qed.

Lemma move_not_parents : d_ino d <> p1 /\ d_ino d <> p2.
Proof.
  split; [by eapply entry_not_parent|]. destruct (decide (sh_kind sh = Dir)) as [Hk|Hk].
  - pose proof (Havoid Hk) as Ha. apply avoids_ne in Ha. congruence.
  - intros Heq. rewrite Heq in Hi. congruence.
Qed.

Lemma move_ents j : ents move_dents j =
  if decide (d_ino d = j) then {[(p2, n2)]} ∪ (ents (ns_dents ns) j ∖ {[(p1, n1)]})
  else ents (ns_dents ns) j.
Proof.
  unfold move_dents. rewrite ents_insert by apply move_free. rewrite ents_delete.
  case_decide as Hj; [done|]. apply difference_disjoint_L. intros k Hk ->%elem_of_singleton.
  apply elem_of_ents in Hk as (?&?&?). congruence.
Qed.

Lemma move_subdirs j : subdirs move_dents j =
  subdirs (ns_dents ns) j - counts_in j (p1, n1) d + counts_in j (p2, n2) d.
Proof. unfold move_dents. by rewrite subdirs_insert, (subdirs_delete _ _ d) by (done || apply move_free). Qed.

Lemma ns_move_ok : exists sh' L',
  move_link (p1, n1) (p2, n2) (ns_links ns !! d_ino d) sh = Some (sh', L') /\
  forall nodes', nodes' !! d_ino d = Some sh' ->
    (forall j, j <> d_ino d -> nodes' !! j = recount (ns_dents ns) move_dents j <$> ns_nodes ns !! j) ->
    ns_ok (mkNS nodes' move_dents (set_opt (d_ino d) L' (ns_links ns))).
Proof.
  destruct move_not_parents as [Hi1 Hi2].
  destruct (node_ok_move _ _ _ _ _ (p1, n1) (p2, n2) (ok_node _ Hok _ _ Hi)) as (sh'&L'&Hm&Hn').
  { apply elem_of_ents. eauto. }
  { rewrite elem_of_ents. intros (?&?&_). congruence. }
  destruct (move_link_same _ _ _ _ _ _ Hm) as (_&Hk'&_).
  exists sh', L'. split; [done|]. intros nodes' Hni Hnj.
  apply (ns_ok_rebind ns _ _ _ (fun j => j = d_ino d)); try done.
  - intros j. apply _.
  - intros j. destruct (decide (j = d_ino d)) as [->|Hj].
    + rewrite Hni, Hi. cbn. congruence.
    + rewrite Hnj by done. destruct (ns_nodes ns !! j) as [s|]; [|done]. cbn. unfold recount.
      by case_bool_decide.
  - intros j Hj. rewrite move_ents, lookup_set_opt, !decide_False by done. auto.
  - intros j s -> Hs. rewrite Hni in Hs. injection Hs as <-.
    rewrite move_ents, move_subdirs, lookup_set_opt, !decide_True by done.
    unfold counts_in; cbn [fst]. rewrite !decide_False by naive_solver.
    by rewrite Z.sub_0_r, Z.add_0_r.
  - intros j ->. eauto.
  - intros q x e He. unfold move_dents in He.
    destruct (decide ((q, x) = (p2, n2))) as [[= -> ->]|].
    + rewrite lookup_insert_eq in He. injection He as <-. split; [eauto|].
      exists sh. split; [done|]. by rewrite move_kind.
    + rewrite lookup_insert_ne in He by done. apply lookup_delete_Some in He as [_ He].
      by apply (ok_dent _ Hok q x).
  - intros j. apply (reaches_moved _ _ (d_ino d) (d_ino d)).
    + intros x Hx _. eapply dir_parent_recount. by apply Hnj.
    + intros y Hy. assert (y = d_ino d) as -> by naive_solver. intros [q Hq].
      rewrite (moved_dir_parent _ _ _ _ _ _ _ _ Hni Hm). unfold dir_parent in Hq. rewrite Hi in Hq.
      cbn in Hq. case_bool_decide as Hk; [|done]. exists p2. split; [done|]. auto.
Qed.
End move.

Lemma subdirs_replace ds k d0 d p : ds !! k = Some d0 ->
  subdirs (<[k := d]> ds) p = subdirs ds p - counts_in p k d0 + counts_in p k d.
Proof.
  intros Hk. rewrite <-insert_delete_eq, subdirs_insert by apply lookup_delete_eq.
  by rewrite (subdirs_delete _ _ d0).
Qed.

(** Of the entry [(p, nm)] naming [d]: the parent's ancestry avoids the node. *)
Lemma parent_avoids_entry ns p nm d : ns_ok ns -> ns_dents ns !! (p, nm) = Some d ->
  avoids (dir_parent (ns_nodes ns)) (d_ino d) p.
Proof.
  intros Hok Hd. destruct (decide (d_kind d = Dir)) as [Hk|Hk]; [by eapply entry_parent_avoids|].
  destruct (dent_into ns Hok _ _ _ Hd) as (sd&Hsd&Hkd). destruct (dent_from ns Hok _ _ _ Hd) as (sp&Hsp&Hkp).
  apply avoids_non_dir; [eapply dir_parent_non_dir; [done|congruence]|by eapply no_entry_to_root|].
  by eapply ok_tree.
Qed.

Section swap.
Context (ns : NS) (p1 p2 : Z) (n1 n2 : string) (d1 d2 : StoredDentry) (sh1 sh2 : Shape).
Context (Hok : ns_ok ns) (Hd1 : ns_dents ns !! (p1, n1) = Some d1) (Hd2 : ns_dents ns !! (p2, n2) = Some d2).
Context (Hi1 : ns_nodes ns !! d_ino d1 = Some sh1) (Hi2 : ns_nodes ns !! d_ino d2 = Some sh2).
Context (Hne : d_ino d1 <> d_ino d2).
Context (Hav1 : sh_kind sh1 = Dir -> avoids (dir_parent (ns_nodes ns)) (d_ino d1) p2).
Context (Hav2 : sh_kind sh2 = Dir -> avoids (dir_parent (ns_nodes ns)) (d_ino d2) p1).
#[local] Set Default Proof Using "All".

Definition swap_dents : Dents := <[(p2, n2) := d1]> (<[(p1, n1) := d2]> (ns_dents ns)).

Lemma swap_keys_ne : (p1, n1) <> (p2, n2).
Proof. intros Heq. rewrite Heq in Hd1. congruence. Qed.

Lemma swap_kinds : d_kind d1 = sh_kind sh1 /\ d_kind d2 = sh_kind sh2.
Proof.
  destruct (dent_into ns Hok _ _ _ Hd1) as (?&?&?), (dent_into ns Hok _ _ _ Hd2) as (?&?&?).
  split; congruence.
Qed.

Lemma swap_not_parents : d_ino d1 <> p1 /\ d_ino d1 <> p2 /\ d_ino d2 <> p1 /\ d_ino d2 <> p2.
Proof.
  destruct (dent_from ns Hok _ _ _ Hd1) as (s1&Hs1&Hk1), (dent_from ns Hok _ _ _ Hd2) as (s2&Hs2&Hk2).
  split_and!; [by eapply entry_not_parent| | |by eapply entry_not_parent].
  - destruct (decide (sh_kind sh1 = Dir)) as [Hk|Hk]; [apply Hav1, avoids_ne in Hk; congruence|].
    intros Heq. rewrite Heq in Hi1. congruence.
  - destruct (decide (sh_kind sh2 = Dir)) as [Hk|Hk]; [apply Hav2, avoids_ne in Hk; congruence|].
    intros Heq. rewrite Heq in Hi2. congruence.
Qed.

Lemma swap_ents j : ents swap_dents j =
  if decide (j = d_ino d1) then {[(p2, n2)]} ∪ (ents (ns_dents ns) j ∖ {[(p1, n1)]})
  else if decide (j = d_ino d2) then {[(p1, n1)]} ∪ (ents (ns_dents ns) j ∖ {[(p2, n2)]})
  else ents (ns_dents ns) j.
Proof.
  pose proof swap_keys_ne as Hk. apply set_eq. intros k. rewrite elem_of_ents. unfold swap_dents.
  assert (forall e : StoredDentry, (exists d, Some e = Some d /\ d_ino d = j) <-> d_ino e = j) as Hone.
  { intros e. split; [by intros (?&[= <-]&?)|eauto]. }
  destruct (decide (k = (p2, n2))) as [->|Hk2].
  { rewrite lookup_insert_eq, Hone. case_decide as H1; [subst; set_solver|].
    case_decide as H2; [subst; set_solver|]. rewrite elem_of_ents, Hd2, Hone. intuition congruence. }
  rewrite lookup_insert_ne by done. destruct (decide (k = (p1, n1))) as [->|Hk1].
  { rewrite lookup_insert_eq, Hone. case_decide as H1; [subst; set_solver|].
    case_decide as H2; [subst; set_solver|]. rewrite elem_of_ents, Hd1, Hone. intuition congruence. }
  rewrite lookup_insert_ne by done. rewrite <-elem_of_ents.
  case_decide; [set_solver|]. case_decide; set_solver.
Qed.

Lemma swap_subdirs j : subdirs swap_dents j =
  subdirs (ns_dents ns) j - counts_in j (p1, n1) d1 + counts_in j (p1, n1) d2
    - counts_in j (p2, n2) d2 + counts_in j (p2, n2) d1.
Proof.
  pose proof swap_keys_ne as Hk. unfold swap_dents.
  rewrite (subdirs_replace _ _ d2), (subdirs_replace _ _ d1); [done|done|].
  by rewrite lookup_insert_ne.
Qed.

Lemma swap_subdirs_other j : j <> p1 -> j <> p2 -> subdirs swap_dents j = subdirs (ns_dents ns) j.
Proof.
  intros H1 H2. rewrite swap_subdirs. unfold counts_in; cbn [fst].
  rewrite !(decide_False (P := p1 = j /\ _)), !(decide_False (P := p2 = j /\ _)) by (intros []; congruence).
  lia.
Qed.

Lemma swap_avoids : (sh_kind sh1 = Dir -> avoids (dir_parent (ns_nodes ns)) (d_ino d1) p2 /\
    avoids (dir_parent (ns_nodes ns)) (d_ino d2) p2) /\
  (sh_kind sh2 = Dir -> avoids (dir_parent (ns_nodes ns)) (d_ino d1) p1 /\
    avoids (dir_parent (ns_nodes ns)) (d_ino d2) p1).
Proof.
  pose proof (parent_avoids_entry ns _ _ _ Hok Hd1). pose proof (parent_avoids_entry ns _ _ _ Hok Hd2).
  auto.
Qed.

Lemma ns_swap_ok : exists sh1' L1' sh2' L2',
  move_link (p1, n1) (p2, n2) (ns_links ns !! d_ino d1) sh1 = Some (sh1', L1') /\
  move_link (p2, n2) (p1, n1) (ns_links ns !! d_ino d2) sh2 = Some (sh2', L2') /\
  forall nodes', nodes' !! d_ino d1 = Some sh1' -> nodes' !! d_ino d2 = Some sh2' ->
    (forall j, j <> d_ino d1 -> j <> d_ino d2 ->
       nodes' !! j = recount (ns_dents ns) swap_dents j <$> ns_nodes ns !! j) ->
    ns_ok (mkNS nodes' swap_dents
             (set_opt (d_ino d2) L2' (set_opt (d_ino d1) L1' (ns_links ns)))).
Proof.
  destruct swap_not_parents as (Hi11&Hi12&Hi21&Hi22). destruct swap_kinds as [Hk1 Hk2].
  destruct swap_avoids as [Hav1' Hav2'].
  destruct (node_ok_move _ _ _ _ _ (p1, n1) (p2, n2) (ok_node _ Hok _ _ Hi1)) as (sh1'&L1'&Hm1&Hn1).
  { apply elem_of_ents. eauto. }
  { rewrite elem_of_ents. intros (?&?&?). congruence. }
  destruct (node_ok_move _ _ _ _ _ (p2, n2) (p1, n1) (ok_node _ Hok _ _ Hi2)) as (sh2'&L2'&Hm2&Hn2).
  { apply elem_of_ents. eauto. }
  { rewrite elem_of_ents. intros (?&?&?). congruence. }
  destruct (move_link_same _ _ _ _ _ _ Hm1) as (_&Hk1'&_), (move_link_same _ _ _ _ _ _ Hm2) as (_&Hk2'&_).
  exists sh1', L1', sh2', L2'. split_and!; [done..|]. intros nodes' Hn1' Hn2' Hnj.
  apply (ns_ok_rebind ns _ _ _ (fun j => j = d_ino d1 \/ j = d_ino d2)); try done.
  - intros j. apply _.
  - intros j. destruct (decide (j = d_ino d1)) as [->|]; [rewrite Hn1', Hi1; cbn; congruence|].
    destruct (decide (j = d_ino d2)) as [->|]; [rewrite Hn2', Hi2; cbn; congruence|].
    rewrite Hnj by done. destruct (ns_nodes ns !! j) as [s|]; [|done]. cbn. unfold recount.
    by case_bool_decide.
  - intros j Hj. rewrite swap_ents, !lookup_set_opt, !decide_False by naive_solver.
    split_and!; [done..|]. apply Hnj; naive_solver.
  - intros j s [->| ->] Hs.
    + rewrite Hn1' in Hs. injection Hs as <-. rewrite swap_ents, swap_subdirs_other by done.
      rewrite decide_True by done. rewrite lookup_set_opt, decide_False by done.
      by rewrite lookup_set_opt, decide_True by done.
    + rewrite Hn2' in Hs. injection Hs as <-. rewrite swap_ents, swap_subdirs_other by done.
      rewrite decide_False by congruence. rewrite decide_True by done.
      by rewrite lookup_set_opt, decide_True by done.
  - intros j [->| ->]; eauto.
  - intros q x e He. unfold swap_dents in He.
    destruct (decide ((q, x) = (p2, n2))) as [[= -> ->]|].
    { rewrite lookup_insert_eq in He. injection He as <-. split; [by eapply dent_from|eauto]. }
    rewrite lookup_insert_ne in He by done. destruct (decide ((q, x) = (p1, n1))) as [[= -> ->]|].
    { rewrite lookup_insert_eq in He. injection He as <-. split; [by eapply dent_from|eauto]. }
    rewrite lookup_insert_ne in He by done. by apply (ok_dent _ Hok q x).
  - intros j. apply (reaches_moved _ _ (d_ino d1) (d_ino d2)).
    + intros x Hx1 Hx2. eapply dir_parent_recount. by apply Hnj.
    + intros y Hy [q Hq]. unfold dir_parent in Hq. destruct Hy as [->| ->].
      * rewrite (moved_dir_parent _ _ _ _ _ _ _ _ Hn1' Hm1). rewrite Hi1 in Hq. cbn in Hq.
        case_bool_decide; [|done]. exists p2. auto.
      * rewrite (moved_dir_parent _ _ _ _ _ _ _ _ Hn2' Hm2). rewrite Hi2 in Hq. cbn in Hq.
        case_bool_decide; [|done]. exists p1. auto.
Qed.
End swap.
