(* ===== verification/Access.v ===== *)
(** Access decisions: the records of [meta/permission.rs] with the checks of the
    client library ([fs.rs]), the checks of the FUSE adapter ([fuse/mod.rs]) and
    the check that the workspace metadata makes with each change
    ([workspace_overlay/meta_layer/mod.rs], [inode_allows_actor]).  Octal modes
    are written in decimal with the octal form beside them. *)
From stdpp Require Import options.
From Stdlib Require Import Ascii.
From S2P Require Import Prelude Acl MetaTypes Layers.

Inductive Errno := EIO | EACCES | EPERM | ENOENT | ENOTDIR | EBUSY | ESTALE | EINVAL | EEXIST | ENODATA | EOPNOTSUPP | EISDIR | ERANGE.

#[export] Instance Errno_eq_dec : EqDecision Errno.
Proof. solve_decision. Defined.

Definition X_OK : Z := 1.
Definition W_OK : Z := 2.
Definition R_OK : Z := 4.

(** ** Permission records *)
Module Permission.

Definition READ : Z := 1.
Definition WRITE : Z := 2.
Definition EXEC : Z := 4.

Inductive AclSubject := User (uid : Z) | Group (gid : Z) | Other.
Record AclEntry := mkAclEntry { subject : AclSubject; flags : Z }.

Definition check_permission (acl : list AclEntry) (uid : Z) (gids : list Z) (flag : Z) : bool :=
  existsb (fun e =>
    match subject e with
    | User u => (u =? uid) && PosixAcl.allows flag (flags e)
    | Group g => bool_decide (g ∈ gids) && PosixAcl.allows flag (flags e)
    | Other => PosixAcl.allows flag (flags e)
    end) acl.

Record Permission := mkPermission { mode : Z; p_uid : Z; p_gid : Z; acl : option (list AclEntry) }.

Definition permission_bits (p : Permission) : Z := Z.land (mode p) 511.        (* 0o777 *)
Definition file_type_bits (p : Permission) : Z := Z.land (mode p) 61440.       (* 0o170000 *)
Definition is_directory (p : Permission) : bool := Z.land (file_type_bits p) 16384 =? 16384.    (* 0o040000 *)
Definition is_regular_file (p : Permission) : bool := Z.land (file_type_bits p) 32768 =? 32768. (* 0o100000 *)

Definition check_access (p : Permission) (uid : Z) (gids : list Z) (flag ugo_mask group_mask other_mask : Z) : bool :=
  if uid =? 0 then true else
  if match acl p with Some acl => check_permission acl uid gids flag | None => false end then true else
  if uid =? p_uid p then negb (Z.land (permission_bits p) ugo_mask =? 0) else
  if bool_decide (p_gid p ∈ gids) then negb (Z.land (permission_bits p) group_mask =? 0) else
  negb (Z.land (permission_bits p) other_mask =? 0).

Definition can_read (p : Permission) (uid : Z) (gids : list Z) : bool := check_access p uid gids READ 256 32 4.    (* 0o400 0o040 0o004 *)
Definition can_write (p : Permission) (uid : Z) (gids : list Z) : bool := check_access p uid gids WRITE 128 16 2.  (* 0o200 0o020 0o002 *)
Definition can_execute (p : Permission) (uid : Z) (gids : list Z) : bool := check_access p uid gids EXEC 64 8 1.   (* 0o100 0o010 0o001 *)

Definition chmod (new_mode : Z) (p : Permission) : Permission :=
  mkPermission (Z.lor (file_type_bits p) (Z.land new_mode 4095)) (p_uid p) (p_gid p) (acl p). (* 0o7777 *)
Definition chown (new_uid new_gid : Z) (p : Permission) : Permission := mkPermission (mode p) new_uid new_gid (acl p).

End Permission.

(** ** The client library *)

Inductive Denied := ReadDenied | WriteDenied | ExecuteDenied | OwnershipRequired.

Record CallerIdentity := mkCaller { c_uid : Z; c_gid : Z; c_groups : list Z }.

Definition permission_for (attr : FileAttr) : Permission.Permission := Permission.mkPermission (a_mode attr) (a_uid attr) (a_gid attr) None.

Definition desired_gid (parent_attr : FileAttr) (current_gid : Z) : Z :=
  if negb (Z.land (a_mode parent_attr) 1024 (* 0o2000 *) =? 0) then a_gid parent_attr else current_gid.

Section client.
Context (enforce_permissions : bool) (caller : CallerIdentity).

(** [FileSystem::check_access]; the mask has the bits of [AccessMask]. *)
Definition client_check_access (attr : FileAttr) (mask : Z) : result Denied unit :=
  if negb enforce_permissions then Ok tt else
  let perm := permission_for attr in
  if flags_contain mask Permission.READ && negb (Permission.can_read perm (c_uid caller) (c_groups caller)) then Err ReadDenied else
  if flags_contain mask Permission.WRITE && negb (Permission.can_write perm (c_uid caller) (c_groups caller)) then Err WriteDenied else
  if flags_contain mask Permission.EXEC && negb (Permission.can_execute perm (c_uid caller) (c_groups caller)) then Err ExecuteDenied else
  Ok tt.

Definition client_check_owner (attr : FileAttr) : result Denied unit :=
  if negb enforce_permissions then Ok tt else
  if (c_uid caller =? 0) || (c_uid caller =? a_uid attr) then Ok tt else Err OwnershipRequired.
End client.

(** ** Groups of a request

    The text of /proc/<pid>/status as ASCII characters. *)

Definition newline : ascii := ascii_of_nat 10.
Definition carriage_return : ascii := ascii_of_nat 13.

Fixpoint split_lines (line : list ascii) (s : list ascii) : list (list ascii) :=
  match s with
  | [] => if bool_decide (line = []) then [] else [line]
  | c :: s => if Ascii.eqb c newline then line :: split_lines [] s else split_lines (line ++ [c]) s
  end.

(** [str::lines]: a carriage return before the newline is dropped. *)
Definition lines (s : list ascii) : list (list ascii) :=
  (fun line => match last line with Some c => if Ascii.eqb c carriage_return then take (length line - 1) line else line | None => line end) <$> split_lines [] s.

Definition is_whitespace (c : ascii) : bool := let n := nat_of_ascii c in ((9 <=? n) && (n <=? 13) || (n =? 32))%nat.

Fixpoint split_whitespace (word : list ascii) (s : list ascii) : list (list ascii) :=
  match s with
  | [] => if bool_decide (word = []) then [] else [word]
  | c :: s =>
      if is_whitespace c then (if bool_decide (word = []) then split_whitespace [] s else word :: split_whitespace [] s)
      else split_whitespace (word ++ [c]) s
  end.

(** [u32::from_str]: an optional plus and digits without overflow. *)
Fixpoint parse_digits (value : Z) (s : list ascii) : option Z :=
  match s with
  | [] => Some value
  | c :: s =>
      let d := Z.of_nat (nat_of_ascii c) - 48 in
      if (0 <=? d) && (d <=? 9) then
        let value := value * 10 + d in
        if value <=? u32_max then parse_digits value s else None
      else None
  end.
Definition parse_u32 (s : list ascii) : option Z :=
  let digits := match s with c :: s' => if Ascii.eqb c "+" then s' else s | [] => s end in
  match digits with [] => None | _ => parse_digits 0 digits end.

Fixpoint strip_prefix (prefix s : list ascii) : option (list ascii) :=
  match prefix, s with
  | [], _ => Some s
  | p :: prefix, c :: s => if Ascii.eqb p c then strip_prefix prefix s else None
  | _ :: _, [] => None
  end.

Fixpoint parse_ids (ids : list Z) (words : list (list ascii)) : option (list Z) :=
  match words with
  | [] => Some ids
  | word :: words => if 65536 <=? zlen ids then None else id ← parse_u32 word; parse_ids (ids ++ [id]) words
  end.

(** The field of a status file; a field that occurs twice is refused. *)
Definition fields (status : list ascii) (prefix : string) : option (list Z) :=
  match omap (strip_prefix (String.list_ascii_of_string prefix)) (lines status) with
  | [value] => parse_ids [] (split_whitespace [] value)
  | _ => None
  end.

Definition verified_proc_status_groups (status : list ascii) (uid gid : Z) : option (list Z) :=
  uids ← fields status "Uid:";
  gids ← fields status "Gid:";
  match uids, gids with
  | [ruid; _; _; fsuid], [rgid; _; _; fsgid] =>
      if ((fsuid =? uid) && (fsgid =? gid)) || ((ruid =? uid) && (rgid =? gid)) then
        groups ← fields status "Groups:";
        let groups := if bool_decide (gid ∈ groups) then groups else groups ++ [gid] in
        Some (dedup (sort_by_key id groups))
      else None
  | _, _ => None
  end.

(** [verified_request_group_ids]; [proc_status] gives the status of a process if it
    can be read within the limit. *)
Definition verified_request_group_ids (proc_status : Z -> option (list ascii)) (pid uid gid : Z) : result Errno (list Z) :=
  if pid =? 0 then Ok [gid] else
  of_option EACCES (status ← proc_status pid; verified_proc_status_groups status uid gid).

(** [request_group_ids]: without verification, for the rules of chmod and chown. *)
Definition parse_proc_status_groups (status : list ascii) : option (list Z) :=
  groups ← head (omap (strip_prefix (String.list_ascii_of_string "Groups:")) (lines status));
  Some (omap parse_u32 (split_whitespace [] groups)).
Definition request_group_ids (proc_status : Z -> option (list ascii)) (pid fallback_gid : Z) : list Z :=
  let groups := default [] (status ← proc_status pid; parse_proc_status_groups status) in
  if bool_decide (fallback_gid ∈ groups) then groups else groups ++ [fallback_gid].

(** ** The FUSE adapter *)

Inductive PosixAclCapability := Unsupported | ReadOnly | ReadWrite.
#[export] Instance PosixAclCapability_eq_dec : EqDecision PosixAclCapability.
Proof. solve_decision. Defined.

(** [InodePermissions]: attributes and ACLs of one version of an inode. *)
Record InodePermissions := mkPermissions { ip_attr : FileAttr; access_acl : option (list byte); control_acl : option (list byte) }.

Definition check_requested_access (mask mode : Z) : result Errno unit :=
  if (negb (Z.land mask R_OK =? 0) && (Z.land mode 4 =? 0)) || (negb (Z.land mask W_OK =? 0) && (Z.land mode 2 =? 0)) ||
     (negb (Z.land mask X_OK =? 0) && (Z.land mode 1 =? 0))
  then Err EACCES else Ok tt.

Definition access_mode_from_bits (attr : FileAttr) (uid gid : Z) : Z :=
  if uid =? a_uid attr then Z.land (Z.shiftr (a_mode attr) 6) 7
  else if gid =? a_gid attr then Z.land (Z.shiftr (a_mode attr) 3) 7 else Z.land (a_mode attr) 7.

Section fuse.
(** [serde_json::from_slice] of control ACLs. *)
Context (parse_control : list byte -> option (list Control.ControlAclEntry)).
(** The groups of the request, verified and not. *)
Context (groups : result Errno (list Z)) (request_groups : list Z).

Definition access_mode_for_permissions (permissions : InodePermissions) (uid requested : Z) : result Errno Z :=
  let attr := ip_attr permissions in
  if uid =? 0 then
    Ok (if (Z.land requested X_OK =? 0) || bool_decide (a_kind attr = Dir) || negb (Z.land (a_mode attr) 73 (* 0o111 *) =? 0) then requested else 0)
  else
  match access_acl permissions with
  | Some raw =>
      let? acl := match PosixAcl.decode raw with Ok acl => Ok acl | Err _ => Err EIO end in
      if negb (PosixAcl.mode_bits acl =? Z.land (a_mode attr) 511 (* 0o777 *)) then Err EIO else
      let? groups := match PosixAcl.user_access_mode acl (a_uid attr) uid with Some _ => Ok [] | None => groups end in
      Ok (if PosixAcl.allows_access acl (a_uid attr) (a_gid attr) uid groups requested then requested else 0)
  | None =>
      let? decided :=
        match control_acl permissions with
        | Some raw =>
            let? entries := of_option EIO (parse_control raw) in
            let? _ := match Control.validate_acl_entries entries with Ok _ => Ok tt | Err _ => Err EIO end in
            let? groups := (if uid =? a_uid attr then Ok [] else groups) in
            Ok (Control.control_acl_allows_access entries (a_uid attr) (a_gid attr) uid groups requested)
        | None => Ok None
        end in
      match decided with
      | Some allowed => Ok (if allowed : bool then requested else 0)
      | None =>
          if uid =? a_uid attr then Ok (Z.land (Z.shiftr (a_mode attr) 6) 7) else
          let? groups := groups in
          Ok (if bool_decide (a_gid attr ∈ groups) then Z.land (Z.shiftr (a_mode attr) 3) 7 else Z.land (a_mode attr) 7)
      end
  end.

(** [acl_access_mode_for_inode]: an ACL that cannot be read or parsed counts as
    none. *)
Definition acl_access_mode_for_inode (raw : option (list byte)) (attr : FileAttr) (uid : Z) (groups : list Z) (requested : Z) : option Z :=
  raw ← raw; entries ← parse_control raw;
  allowed ← Control.control_acl_allows_access entries (a_uid attr) (a_gid attr) uid groups requested;
  Some (if allowed : bool then requested else 0).

(** What the metadata layer answers for an inode: its attributes, its permission
    snapshot, and the control ACL of stores without snapshots. *)
Record Answers := mkAnswers { stat_ino : option FileAttr; inode_permissions_of : result Errno (option InodePermissions); acl_xattr : option (list byte) }.

Definition snapshot_of (answers : Answers) : result Errno InodePermissions :=
  let? permissions := inode_permissions_of answers in of_option ENOENT permissions.

Definition access_mode_for_attr (capability : PosixAclCapability) (answers : Answers) (attr : FileAttr) (uid gid requested : Z) : result Errno Z :=
  if negb (bool_decide (capability = Unsupported)) then
    let? permissions := snapshot_of answers in access_mode_for_permissions permissions uid requested
  else
    let? groups := groups in
    Ok match acl_access_mode_for_inode (acl_xattr answers) attr uid groups requested with
       | Some mode => mode
       | None => access_mode_from_bits attr uid gid
       end.

(** [ensure_access_allowed]; [snapshot_answers] is
    [permission_snapshot_answers_access]. *)
Definition ensure_access_allowed (capability : PosixAclCapability) (snapshot_answers : bool) (answers : Answers) (uid gid mask : Z) : result Errno unit :=
  if negb (mask =? 0) && snapshot_answers then
    let? permissions := snapshot_of answers in
    let? mode := access_mode_for_permissions permissions uid (Z.land mask 7) in
    check_requested_access mask mode
  else
  let? attr := of_option ENOENT (stat_ino answers) in
  if mask =? 0 then Ok tt else
  if (uid =? 0) && bool_decide (capability = Unsupported) then
    if negb (Z.land mask X_OK =? 0) && negb (bool_decide (a_kind attr = Dir)) && (Z.land (a_mode attr) 73 =? 0) then Err EACCES else Ok tt
  else
  let? mode := access_mode_for_attr capability answers attr uid gid (Z.land mask 7) in
  check_requested_access mask mode.

(** [ensure_sticky_parent_allows_child_mutation]. *)
Definition ensure_sticky_parent_allows_child_mutation (parent child : option FileAttr) (uid : Z) : result Errno unit :=
  if uid =? 0 then Ok tt else
  let? parent := of_option ENOENT parent in
  if negb (bool_decide (a_kind parent = Dir)) then Err ENOTDIR else
  if Z.land (a_mode parent) 512 (* S_ISVTX *) =? 0 then Ok tt else
  let? child := of_option ENOENT child in
  if (uid =? a_uid parent) || (uid =? a_uid child) then Ok tt else Err EPERM.

Definition O_WRONLY : Z := 1.
Definition O_RDWR : Z := 2.
Definition O_TRUNC : Z := 512.
Definition FUSE_OPEN_EXEC : Z := 32.

Definition open_flags_access_mask (flags : Z) : Z :=
  let accmode := Z.land flags 3 in
  let mask :=
    if (accmode =? 0) && negb (Z.land flags FUSE_OPEN_EXEC =? 0) then X_OK
    else if accmode =? O_WRONLY then W_OK else if accmode =? O_RDWR then Z.lor R_OK W_OK else R_OK in
  if negb (Z.land flags O_TRUNC =? 0) then Z.lor mask W_OK else mask.

(** *** Attribute changes *)

Definition mode_setattr_only_clears_suid_sgid (current_mode requested_mode : Z) : bool :=
  let current := Z.land current_mode 4095 in      (* 0o7777 *)
  let requested := Z.land requested_mode 4095 in
  let changed := Z.lxor current requested in
  let cleared := Z.ldiff (Z.land current 3072) (Z.land requested 3072) in (* 0o6000 *)
  let added := Z.ldiff (Z.land requested 3072) (Z.land current 3072) in
  (Z.ldiff changed 3072 =? 0) && (added =? 0) && negb (cleared =? 0).

Definition only_time_flags (flags : Z) : bool := Z.ldiff flags (Z.lor SET_ATIME_NOW SET_MTIME_NOW) =? 0.
Definition attr_request_is_empty (req : SetAttrRequest) : bool :=
  bool_decide (r_mode req = None /\ r_uid req = None /\ r_gid req = None /\ r_size req = None /\ r_atime req = None /\ r_mtime req = None /\
    r_ctime req = None /\ r_flags req = None).
Definition setattr_is_truncate_with_optional_timestamps (req : SetAttrRequest) (flags : Z) : bool :=
  bool_decide (is_Some (r_size req) /\ r_mode req = None /\ r_uid req = None /\ r_gid req = None /\ r_flags req = None) && only_time_flags flags.
Definition setattr_is_mode_with_optional_timestamps (req : SetAttrRequest) (flags : Z) : bool :=
  bool_decide (is_Some (r_mode req) /\ r_uid req = None /\ r_gid req = None /\ r_size req = None /\ r_flags req = None) && only_time_flags flags.
Definition setattr_is_chown_with_optional_timestamps (req : SetAttrRequest) (flags : Z) : bool :=
  bool_decide ((is_Some (r_uid req) \/ is_Some (r_gid req)) /\ r_size req = None /\ r_flags req = None) && only_time_flags flags.
Definition setattr_is_timestamp_only (req : SetAttrRequest) (flags : Z) : bool :=
  bool_decide (r_size req = None /\ r_mode req = None /\ r_uid req = None /\ r_gid req = None /\ r_flags req = None) &&
  (bool_decide (is_Some (r_atime req) \/ is_Some (r_mtime req) \/ is_Some (r_ctime req)) || negb (Z.land flags (Z.lor SET_ATIME_NOW SET_MTIME_NOW) =? 0)) &&
  (Z.ldiff flags (Z.lor (Z.lor SET_ATIME_NOW SET_MTIME_NOW) KERNEL_WRITEBACK_TIMES) =? 0).
Definition timestamp_request_is_ctime_only (req : SetAttrRequest) : bool :=
  bool_decide (is_Some (r_ctime req) /\ r_atime req = None /\ r_mtime req = None).

Definition ensure_mode_setattr_allowed (attr : option FileAttr) (uid requested_mode : Z) : result Errno unit :=
  let? attr := of_option ENOENT attr in
  if (uid =? 0) || (uid =? a_uid attr) || mode_setattr_only_clears_suid_sgid (a_mode attr) requested_mode then Ok tt else Err EPERM.

Definition effective_mode_setattr (attr : option FileAttr) (uid requested_mode : Z) : result Errno Z :=
  let? attr := of_option ENOENT attr in
  Ok (if negb (uid =? 0) && negb (Z.land requested_mode 1024 (* 0o2000 *) =? 0) && negb (bool_decide (a_gid attr ∈ request_groups))
      then Z.ldiff requested_mode 1024 else requested_mode).

Definition ensure_timestamp_setattr_allowed (capability : PosixAclCapability) (answers : Answers) (uid gid : Z) (req : SetAttrRequest) (flags : Z) : result Errno unit :=
  let? attr := of_option ENOENT (stat_ino answers) in
  if (uid =? 0) || (uid =? a_uid attr) then Ok tt else
  if timestamp_request_is_ctime_only req then Ok tt else
  let? mode := access_mode_for_attr capability answers attr uid gid W_OK in
  if timestamps_use_write_permission req flags then (if negb (Z.land mode 2 =? 0) then Ok tt else Err EACCES) else Err EPERM.

Definition ensure_chown_setattr_allowed (attr : option FileAttr) (uid : Z) (req : SetAttrRequest) : result Errno bool :=
  let? attr := of_option ENOENT attr in
  if bool_decide (r_uid req = None /\ r_gid req = None) then Ok false else
  if uid =? 0 then Ok false else
  if negb (uid =? a_uid attr) then Err EPERM else
  if match r_uid req with Some new_uid => negb (new_uid =? a_uid attr) | None => false end then Err EPERM else
  if match r_gid req with Some new_gid => negb (new_gid =? a_gid attr) && negb (bool_decide (new_gid ∈ request_groups)) | None => false end then Err EPERM else
  if match r_mode req with
     | Some requested =>
         negb (Z.land (a_mode attr) 4095 =? Z.land requested 4095) && negb (mode_setattr_only_clears_suid_sgid (Z.land (a_mode attr) 4095) (Z.land requested 4095))
     | None => false
     end then Err EPERM else
  Ok (negb (bool_decide (a_kind attr = Dir))).

(** The gate of [setattr]: the request and flags that are then applied.
    [write_handle] is [write_handle_allows_truncate]. *)
Definition setattr_gate (capability : PosixAclCapability) (snapshot_answers : bool) (answers : Answers) (write_handle : bool) (uid gid : Z)
    (req : SetAttrRequest) (flags : Z) : result Errno (SetAttrRequest * Z) :=
  if setattr_is_truncate_with_optional_timestamps req flags && write_handle then Ok (req, flags) else
  if setattr_is_timestamp_only req flags then
    let? _ := ensure_timestamp_setattr_allowed capability answers uid gid req flags in Ok (req, flags)
  else if setattr_is_mode_with_optional_timestamps req flags then
    let requested_mode := default 0 (r_mode req) in
    let? _ := ensure_mode_setattr_allowed (stat_ino answers) uid requested_mode in
    let? mode := effective_mode_setattr (stat_ino answers) uid requested_mode in
    Ok (mkSetAttr (Some mode) (r_uid req) (r_gid req) (r_size req) (r_atime req) (r_mtime req) (r_ctime req) (r_flags req), flags)
  else if setattr_is_chown_with_optional_timestamps req flags then
    let? clear_suid_sgid := ensure_chown_setattr_allowed (stat_ino answers) uid req in
    Ok (req, if clear_suid_sgid && negb (bool_decide (capability = ReadWrite)) then Z.lor flags (Z.lor CLEAR_SUID CLEAR_SGID) else flags)
  else
    let? _ := ensure_access_allowed capability snapshot_answers answers uid gid W_OK in Ok (req, flags).

(** ** The workspace metadata *)

Definition file_type_code (kind : FileType) : Z :=
  match kind with File => 0 | Dir => 1 | Symlink => 2 | Fifo => 3 | Socket => 4 | CharDevice => 5 | BlockDevice => 6 end.

Definition inode_allows_actor (inode : InodeDelta) (access control : option (list byte)) (uid : Z) (groups : list Z) (requested : Z) : result Errno bool :=
  if uid =? 0 then
    Ok ((Z.land requested 1 =? 0) || (in_kind inode =? file_type_code Dir) || negb (Z.land (in_mode inode) 73 =? 0))
  else
  match access with
  | Some bytes =>
      let? acl := match PosixAcl.decode bytes with Ok acl => Ok acl | Err _ => Err EIO end in
      if negb (PosixAcl.mode_bits acl =? Z.land (in_mode inode) 511) then Err EIO else
      Ok (PosixAcl.allows_access acl (in_uid inode) (in_gid inode) uid groups requested)
  | None =>
      let? decided :=
        match control with
        | Some bytes =>
            let? entries := of_option EIO (parse_control bytes) in
            let? _ := match Control.validate_acl_entries entries with Ok _ => Ok tt | Err _ => Err EIO end in
            Ok (Control.control_acl_allows_access entries (in_uid inode) (in_gid inode) uid groups requested)
        | None => Ok None
        end in
      match decided with
      | Some allowed => Ok allowed
      | None =>
          let shift := if uid =? in_uid inode then 6 else if bool_decide (in_gid inode ∈ groups) then 3 else 0 in
          Ok (Z.land (Z.shiftr (in_mode inode) shift) requested =? requested)
      end
  end.
End fuse.

(** ** Bits of a request *)

Lemma allows_3 req y : 0 <= req < 8 -> PosixAcl.allows req y =
  (negb (Z.testbit req 0) || Z.testbit y 0) && (negb (Z.testbit req 1) || Z.testbit y 1) && (negb (Z.testbit req 2) || Z.testbit y 2).
Proof.
  intros Hr. apply eq_bool_prop_intro. rewrite !Is_true_true, PosixAcl.allows_bits, !andb_true_iff, !orb_true_iff, !negb_true_iff. split.
  - intros H. pose proof (H 0 ltac:(lia)). pose proof (H 1 ltac:(lia)). pose proof (H 2 ltac:(lia)). destruct (Z.testbit req 0), (Z.testbit req 1), (Z.testbit req 2); intuition.
  - intros ((H0 & H1) & H2) n Hn Hb. destruct (decide (n < 3)) as [Hlt|Hge].
    + assert (n = 0 \/ n = 1 \/ n = 2) as [->|[->| ->]] by lia; intuition congruence.
    + rewrite (Z.bits_above_log2 req n) in Hb; [done|lia|]. destruct (decide (req = 0)) as [->|]; [cbn; lia|]. apply Z.log2_lt_pow2; [lia|]. apply Z.lt_le_trans with (2 ^ 3); [lia|]. apply Z.pow_le_mono_r; lia.
Qed.

Lemma land_pow2 x k : 0 <= k -> (Z.land x (2 ^ k) =? 0) = negb (Z.testbit x k).
Proof.
  intros Hk. destruct (Z.testbit x k) eqn:E; cbn.
  - apply Z.eqb_neq. intros H. assert (Z.testbit (Z.land x (2 ^ k)) k = true) as H' by (by rewrite Z.land_spec, E, Z.pow2_bits_true). rewrite H, Z.bits_0 in H'. done.
  - apply Z.eqb_eq. apply Z.bits_inj'. intros n Hn. rewrite Z.land_spec, Z.bits_0. destruct (decide (n = k)) as [->|]; [by rewrite E|]. rewrite Z.pow2_bits_false by lia. apply andb_false_r.
Qed.

Lemma land_bit x : (Z.land x 1 =? 0) = negb (Z.testbit x 0) /\ (Z.land x 2 =? 0) = negb (Z.testbit x 1) /\ (Z.land x 4 =? 0) = negb (Z.testbit x 2).
Proof. split_and!; [apply (land_pow2 x 0)|apply (land_pow2 x 1)|apply (land_pow2 x 2)]; lia. Qed.

Lemma check_requested_access_spec req mode : 0 <= req < 8 -> check_requested_access req mode = if PosixAcl.allows req mode then Ok tt else Err EACCES.
Proof.
  intros Hr. rewrite allows_3 by done. unfold check_requested_access, R_OK, W_OK, X_OK.
  destruct (land_bit req) as (-> & -> & ->), (land_bit mode) as (-> & -> & ->).
  destruct (Z.testbit req 0), (Z.testbit req 1), (Z.testbit req 2), (Z.testbit mode 0), (Z.testbit mode 1), (Z.testbit mode 2); done.
Qed.

(** ** The checks agree *)

Section agree.
Context (parse_control : list byte -> option (list Control.ControlAclEntry)).

(** The attributes that the metadata layer reports for an inode. *)
Record attr_of (inode : InodeDelta) (attr : FileAttr) : Prop := {
  ao_kind : in_kind inode = file_type_code (a_kind attr);
  ao_mode : a_mode attr = in_mode inode;
  ao_owner : a_uid attr = in_uid inode /\ a_gid attr = in_gid inode
}.

Definition answered (r : result Errno bool) : result Errno unit := match r with Ok true => Ok tt | Ok false => Err EACCES | Err e => Err e end.

Lemma check_granted req (b : bool) : 0 < req < 8 -> check_requested_access req (if b then req else 0) = if b then Ok tt else Err EACCES.
Proof.
  intros Hr. rewrite check_requested_access_spec by lia. unfold PosixAcl.allows. destruct b; [by rewrite Z.land_diag, Z.eqb_refl|]. rewrite Z.land_0_l, (proj2 (Z.eqb_neq _ _)) by lia. done.
Qed.

Lemma check_class req m : 0 < req < 8 -> check_requested_access req (Z.land m 7) = answered (Ok (Z.land m req =? req)).
Proof.
  intros Hr. rewrite check_requested_access_spec by lia. unfold PosixAcl.allows. rewrite <-Z.land_assoc, (Z.land_comm 7). change 7 with (Z.ones 3). rewrite <-(PosixAcl.ones_land req) by lia. by destruct (_ =? _).
Qed.

Lemma control_owner entries owner og groups groups' req : Control.control_acl_allows_access entries owner og owner groups req = Control.control_acl_allows_access entries owner og owner groups' req.
Proof. unfold Control.control_acl_allows_access. by rewrite Z.eqb_refl. Qed.

Lemma fuse_check_agrees inode attr access control uid gs req : attr_of inode attr -> 0 < req < 8 ->
  (let? mode := access_mode_for_permissions parse_control (Ok gs) (mkPermissions attr access control) uid req in check_requested_access req mode) =
  answered (inode_allows_actor parse_control inode access control uid gs req).
Proof.
  intros [Hk Hm [Hu Hg]] Hr. unfold access_mode_for_permissions, inode_allows_actor. cbn [ip_attr access_acl control_acl]. rewrite Hm, Hu, Hg.
  destruct (Z.eqb_spec uid 0) as [->|H0]; cbn [result_bind].
  { assert (bool_decide (a_kind attr = Dir) = (in_kind inode =? file_type_code Dir)) as -> by (rewrite Hk; by destruct (a_kind attr)). rewrite check_granted by done.
    unfold X_OK. by destruct (_ || _ || _). }
  destruct access as [raw|].
  { destruct (PosixAcl.decode raw) as [acl|]; cbn [result_bind]; [|done]. destruct (PosixAcl.mode_bits acl =? _); cbn [negb result_bind]; [|done].
    destruct (PosixAcl.user_access_mode acl (in_uid inode) uid) as [m|] eqn:E; cbn [result_bind].
    - unfold PosixAcl.allows_access. rewrite E, check_granted by done. by destruct (PosixAcl.allows req m).
    - rewrite check_granted by done. by destruct (PosixAcl.allows_access _ _ _ _ _ _). }
  assert (forall decided, (let? mode := match decided with
      | Some allowed => Ok (if allowed : bool then req else 0)
      | None => if uid =? in_uid inode then Ok (Z.land (Z.shiftr (in_mode inode) 6) 7) else
          let? groups := Ok gs in Ok (if bool_decide (in_gid inode ∈ groups) then Z.land (Z.shiftr (in_mode inode) 3) 7 else Z.land (in_mode inode) 7)
      end in check_requested_access req mode) =
    answered match decided with Some allowed => Ok allowed | None =>
      Ok (Z.land (Z.shiftr (in_mode inode) (if uid =? in_uid inode then 6 else if bool_decide (in_gid inode ∈ gs) then 3 else 0)) req =? req) end) as Hd.
  { intros [allowed|]; cbn [result_bind]; [rewrite check_granted by done; by destruct allowed|]. destruct (uid =? in_uid inode); cbn [result_bind]; [by apply check_class|].
    case_bool_decide; [by apply check_class|]. rewrite Z.shiftr_0_r. by apply check_class. }
  destruct control as [raw|]; cbn [result_bind]; [|apply (Hd None)]. destruct (parse_control raw) as [entries|]; cbn [of_option result_bind]; [|done].
  destruct (Control.validate_acl_entries entries); cbn [result_bind]; [|done]. destruct (Z.eqb_spec uid (in_uid inode)) as [->|Hne]; cbn [result_bind].
  - rewrite (control_owner entries (in_uid inode) (in_gid inode) [] gs req). apply Hd.
  - apply Hd.
Qed.

(** The bits of [AccessMask] as the bits of access(2). *)
Definition posix_mask (mask : Z) : Z :=
  Z.lor (Z.lor (if Z.testbit mask 0 then R_OK else 0) (if Z.testbit mask 1 then W_OK else 0)) (if Z.testbit mask 2 then X_OK else 0).

Definition class_shift (attr : FileAttr) (uid : Z) (gs : list Z) : Z := if uid =? a_uid attr then 6 else if bool_decide (a_gid attr ∈ gs) then 3 else 0.

Lemma check_class_bit attr uid gs flag k : uid <> 0 -> 0 <= k <= 2 ->
  Permission.check_access (permission_for attr) uid gs flag (2 ^ (6 + k)) (2 ^ (3 + k)) (2 ^ k) = Z.testbit (Z.shiftr (a_mode attr) (class_shift attr uid gs)) k.
Proof.
  intros Hu Hk. unfold Permission.check_access, class_shift, permission_for, Permission.permission_bits. cbn [Permission.acl Permission.p_uid Permission.p_gid Permission.mode].
  rewrite (proj2 (Z.eqb_neq _ _) Hu). change 511 with (Z.ones 9).
  assert (forall j, 0 <= j < 9 -> negb (Z.land (Z.land (a_mode attr) (Z.ones 9)) (2 ^ j) =? 0) = Z.testbit (a_mode attr) j) as Hb.
  { intros j Hj. rewrite land_pow2, negb_involutive, Z.land_spec, Z.ones_spec_low, andb_true_r by lia. done. }
  rewrite !Hb by lia. rewrite !Z.shiftr_spec by lia. destruct (uid =? a_uid attr); [f_equal; lia|]. case_bool_decide; f_equal; lia.
Qed.

Lemma client_check_agrees inode attr uid gid gs mask : attr_of inode attr -> uid <> 0 -> 0 < mask < 8 ->
  client_check_access true (mkCaller uid gid gs) attr mask = Ok tt <-> inode_allows_actor parse_control inode None None uid gs (posix_mask mask) = Ok true.
Proof.
  intros [_ Hm [Hu Hg]] H0 Hr. unfold client_check_access, inode_allows_actor, Permission.can_read, Permission.can_write, Permission.can_execute. cbn [negb c_uid c_groups result_bind].
  rewrite (proj2 (Z.eqb_neq _ _) H0). fold (class_shift attr uid gs).
  assert (Permission.check_access (permission_for attr) uid gs Permission.READ 256 32 4 = Z.testbit (Z.shiftr (a_mode attr) (class_shift attr uid gs)) 2) as -> by (apply (check_class_bit attr uid gs _ 2); lia).
  assert (Permission.check_access (permission_for attr) uid gs Permission.WRITE 128 16 2 = Z.testbit (Z.shiftr (a_mode attr) (class_shift attr uid gs)) 1) as -> by (apply (check_class_bit attr uid gs _ 1); lia).
  assert (Permission.check_access (permission_for attr) uid gs Permission.EXEC 64 8 1 = Z.testbit (Z.shiftr (a_mode attr) (class_shift attr uid gs)) 0) as -> by (apply (check_class_bit attr uid gs _ 0); lia).
  unfold class_shift. rewrite Hm, Hu, Hg.
  set (m := Z.shiftr _ _). change (Z.land m (posix_mask mask) =? posix_mask mask) with (PosixAcl.allows (posix_mask mask) m). rewrite allows_3 by (unfold posix_mask; by repeat case_match).
  assert (mask = 1 \/ mask = 2 \/ mask = 3 \/ mask = 4 \/ mask = 5 \/ mask = 6 \/ mask = 7) as Hc by lia.
  destruct (Z.testbit m 0), (Z.testbit m 1), (Z.testbit m 2); destruct Hc as [->|[->|[->|[->|[->|[->| ->]]]]]]; done.
Qed.

End agree.


Definition w_inode : InodeDelta := mkInode 2 5 Present 0 0 480 1000 100 0 1 0 0 0 None (Some 1) 1 4. (* 0o740 *)

