(* ===== verification/Overlay.v ===== *)
(** The metadata of workspaces in a key-value store
    ([workspace_overlay/stores/kv_store.rs]): rows of the layers under their
    keys, the mutation of a head under a guard
    ([workspace_overlay/catalog.rs], [VersionedMutation]) and its commit by
    compare-and-swap. *)
From stdpp Require Import options.
From S2P Require Import Prelude Acl MetaTypes Layers LayerCompact LayerHistory Access.

#[export] Instance DentryOp_eq_dec : EqDecision DentryOp.
Proof. solve_decision. Defined.
#[export] Instance InodeState_eq_dec : EqDecision InodeState.
Proof. solve_decision. Defined.
#[export] Instance ValueOp_eq_dec : EqDecision ValueOp.
Proof. solve_decision. Defined.

(** ** Records *)

Inductive WorkspaceState := WActive | WQuiescing | WSealing | WDeleting | WError.
Inductive LeaseState := LActive | LReleasing | LReleased | LExpired.

#[export] Instance WorkspaceState_eq_dec : EqDecision WorkspaceState.
Proof. solve_decision. Defined.
#[export] Instance LeaseState_eq_dec : EqDecision LeaseState.
Proof. solve_decision. Defined.

(** The fields that the guard of a mutation looks at. *)
Record WorkspaceRecord := mkWorkspace { w_id : Z; w_head_layer : Z; w_epoch : Z; w_state : WorkspaceState; w_active_lease : option Z }.
Record SnapshotLease := mkLease { le_id : Z; le_workspace : Z; le_generation : Z; le_writable : bool; le_state : LeaseState; le_expires : Z }.
Record HeadGuard := mkGuard { g_workspace : Z; g_head : Z; g_epoch : Z; g_lease : Z; g_generation : Z }.

#[export] Instance WorkspaceRecord_eq_dec : EqDecision WorkspaceRecord.
Proof. solve_decision. Defined.
#[export] Instance SnapshotLease_eq_dec : EqDecision SnapshotLease.
Proof. solve_decision. Defined.

(** The rows by key: a layer has one row of a name, an inode, an attribute. *)
Record Store := mkStore {
  s_workspaces : gmap Z WorkspaceRecord; s_layers : gmap Z LayerRecord; s_leases : gmap (Z * Z) SnapshotLease;
  s_dentries : gmap (Z * Z * list byte) DentryDelta; s_inodes : gmap (Z * Z) InodeDelta; s_xattrs : gmap (Z * Z * list byte) XattrDelta;
  s_acls : gmap (Z * Z * Z * Z) AclDelta; s_extents : Rows; s_owners : Owners }.

Definition dentry_key (d : DentryDelta) : Z * Z * list byte := (de_layer d, de_parent d, de_name d).
Definition inode_key (d : InodeDelta) : Z * Z := (in_layer d, in_ino d).
Definition xattr_key (d : XattrDelta) : Z * Z * list byte := (xa_layer d, xa_ino d, xa_name d).
Definition acl_key (d : AclDelta) : Z * Z * Z * Z := (ac_layer d, ac_ino d, ac_type d, ac_id d).

(** ** Mutations *)

Record VersionedMutation := mkMutation {
  m_guard : HeadGuard; m_head : LayerRecord; m_base : LayerRecord; m_dentries : list DentryDelta; m_inodes : list InodeDelta;
  m_xattrs : list XattrDelta; m_acls : list AclDelta; m_extents : list DataExtentDelta; m_chunk_size : Z }.

Definition ACCESS_XATTR : list byte := String.list_byte_of_string "system.posix_acl_access".
Definition DEFAULT_XATTR : list byte := String.list_byte_of_string "system.posix_acl_default".

(** [validate_permission_layers], and the same test in [validate]. *)
Definition fixed_pair (head base : LayerRecord) : bool :=
  bool_decide (l_state head = Writable) && (depth head =? 2) && bool_decide (parent_layer_id head = Some (layer_id base)) &&
  bool_decide (l_state base = Sealed) && (depth base =? 1) && bool_decide (parent_layer_id base = None).
Definition validate_permission_layers (head base : LayerRecord) : result WorkspaceError unit :=
  let? _ := validate_layer_chain [head; base] (layer_id head) in
  if fixed_pair head base then Ok tt else Err Fenced.

Fixpoint validate_inodes (head : Z) (seen : gset Z) (rows : list InodeDelta) : result WorkspaceError unit :=
  match rows with
  | [] => Ok tt
  | row :: rows =>
      if negb (in_layer row =? head) then Err Fenced else
      if (in_ino row <=? 0) || bool_decide (in_ino row ∈ seen) then Err InvalidInode else
      validate_inodes head ({[in_ino row]} ∪ seen) rows
  end.

Fixpoint validate_dentries (head : Z) (seen : gset (Z * list byte)) (rows : list DentryDelta) : result WorkspaceError unit :=
  match rows with
  | [] => Ok tt
  | row :: rows =>
      if negb (de_layer row =? head) then Err Fenced else
      let? _ := dentry_validate row in
      if bool_decide ((de_parent row, de_name row) ∈ seen) then Err DuplicateDentry else
      validate_dentries head ({[(de_parent row, de_name row)]} ∪ seen) rows
  end.

Definition value_matches (op : ValueOp) (value : option (list byte)) : bool :=
  match op, value with VPut, Some _ | VWhiteout, None => true | _, _ => false end.

(** The POSIX ACLs written with an inode. *)
Definition validate_acl_xattr (inode : InodeDelta) (row : XattrDelta) : result WorkspaceError unit :=
  if bool_decide (xa_name row = ACCESS_XATTR) || bool_decide (xa_name row = DEFAULT_XATTR) then
    if (in_kind inode =? 2) || negb (bool_decide (in_state inode = Present)) ||
       (bool_decide (xa_name row = DEFAULT_XATTR) && negb (in_kind inode =? 1) && bool_decide (xa_op row = VPut)) then Err AclTargetKind else
    match xa_value row with
    | Some value =>
        match PosixAcl.decode value with
        | Ok acl => if bool_decide (xa_name row = ACCESS_XATTR) && negb (PosixAcl.mode_bits acl =? Z.land (in_mode inode) 511) then Err ModeAclDisagree else Ok tt
        | Err _ => Err AclUndecodable
        end
    | None => Ok tt
    end
  else Ok tt.

Fixpoint validate_xattrs (head : Z) (inodes : list InodeDelta) (seen : gset (Z * list byte)) (rows : list XattrDelta) : result WorkspaceError unit :=
  match rows with
  | [] => Ok tt
  | row :: rows =>
      if negb (xa_layer row =? head) then Err Fenced else
      if bool_decide ((xa_ino row, xa_name row) ∈ seen) || bool_decide (xa_name row = []) || bool_decide (Byte.x00 ∈ xa_name row) ||
         negb (value_matches (xa_op row) (xa_value row)) then Err InvalidXattr else
      let? inode := of_option XattrWithoutInode (List.find (fun inode => in_ino inode =? xa_ino row) inodes) in
      let? _ := validate_acl_xattr inode row in
      validate_xattrs head inodes ({[(xa_ino row, xa_name row)]} ∪ seen) rows
  end.

Fixpoint validate_acls (head : Z) (seen : gset (Z * Z * Z)) (rows : list AclDelta) : result WorkspaceError unit :=
  match rows with
  | [] => Ok tt
  | row :: rows =>
      if negb (ac_layer row =? head) then Err Fenced else
      if (ac_ino row <=? 0) || bool_decide ((ac_ino row, ac_type row, ac_id row) ∈ seen) || negb (value_matches (ac_op row) (ac_value row)) then Err InvalidAcl else
      validate_acls head ({[(ac_ino row, ac_type row, ac_id row)]} ∪ seen) rows
  end.

Fixpoint validate_mutation_extents (head chunk_size : Z) (inodes : list InodeDelta) (rows : list DataExtentDelta) : result WorkspaceError unit :=
  match rows with
  | [] => Ok tt
  | row :: rows =>
      if negb (ex_layer row =? head) || negb (bool_decide (ex_ino row ∈ in_ino <$> inodes)) then Err Fenced else
      let? _ := extent_validate row in
      if (chunk_size =? 0) || match u64_checked_add (ex_offset row) (ex_length row) with Some stop => chunk_size <? stop | None => true end then Err ExtentExceedsChunk else
      validate_mutation_extents head chunk_size inodes rows
  end.

(** [VersionedMutation::validate]: the number of rows. *)
Definition validate (m : VersionedMutation) : result WorkspaceError Z :=
  let head := g_head (m_guard m) in
  let? _ := validate_layer_chain [m_head m; m_base m] head in
  if negb (layer_id (m_head m) =? head) || negb (fixed_pair (m_head m) (m_base m)) then Err Fenced else
  let? _ := validate_inodes head ∅ (m_inodes m) in
  let? _ := validate_dentries head ∅ (m_dentries m) in
  let? _ := validate_xattrs head (m_inodes m) ∅ (m_xattrs m) in
  let? _ := validate_acls head ∅ (m_acls m) in
  let? _ := validate_mutation_extents head (m_chunk_size m) (m_inodes m) (m_extents m) in
  Ok (zlen (m_dentries m) + zlen (m_inodes m) + zlen (m_xattrs m) + zlen (m_acls m) + zlen (m_extents m)).

(** ** Applying a mutation *)

Definition checked_hot_guard (workspace : WorkspaceRecord) (layer : LayerRecord) (lease : SnapshotLease) (guard : HeadGuard) (now : Z) : result WorkspaceError unit :=
  if negb (w_id workspace =? g_workspace guard) || negb (bool_decide (w_active_lease workspace = Some (g_lease guard))) ||
     negb (bool_decide (w_state workspace = WActive)) || negb (w_head_layer workspace =? g_head guard) || negb (w_epoch workspace =? g_epoch guard) ||
     negb (layer_id layer =? g_head guard) || negb (bool_decide (l_state layer = Writable)) || negb (bool_decide (owner_workspace_id layer = Some (g_workspace guard))) ||
     negb (le_id lease =? g_lease guard) || negb (le_workspace lease =? g_workspace guard) || negb (bool_decide (le_state lease = LActive)) ||
     negb (le_writable lease) || negb (le_generation lease =? g_generation guard) || (le_expires lease <=? now)
  then Err Fenced else Ok tt.

Definition set_next_sequence (next : Z) (l : LayerRecord) : LayerRecord :=
  mkLayer (layer_id l) (parent_layer_id l) (l_state l) (schema_version l) (sealed_version l) (delta_digest l) (root_hash l) (depth l) (owner_workspace_id l)
    next (owned_slice_count l) (owned_bytes l).
Definition set_owned (count bytes : Z) (l : LayerRecord) : LayerRecord :=
  mkLayer (layer_id l) (parent_layer_id l) (l_state l) (schema_version l) (sealed_version l) (delta_digest l) (root_hash l) (depth l) (owner_workspace_id l)
    (next_sequence l) count bytes.

(** [allocate_layer_sequences]: the layer after it and the first number. *)
Definition allocate_layer_sequences (layer : LayerRecord) (count : Z) : result WorkspaceError (LayerRecord * option Z) :=
  if count =? 0 then Ok (layer, None) else
  let? next := of_option SequenceOverflow (u64_checked_add (next_sequence layer) count) in
  Ok (set_next_sequence next layer, Some (next_sequence layer)).

Fixpoint number {R} (stamp : Z -> R -> R) (sequence : Z) (rows : list R) : list R :=
  match rows with [] => [] | row :: rows => stamp sequence row :: number stamp (sequence + 1) rows end.

Definition stamp_dentry (q : Z) (d : DentryDelta) : DentryDelta := mkDentry (de_layer d) (de_parent d) (de_name d) (de_op d) (de_ino d) (de_type d) q.
Definition stamp_inode (q : Z) (d : InodeDelta) : InodeDelta :=
  mkInode (in_layer d) (in_ino d) (in_state d) (in_kind d) (in_size d) (in_mode d) (in_uid d) (in_gid d) (in_rdev d) (in_nlink d) (in_atime d) (in_mtime d) (in_ctime d)
    (in_target d) (in_parent_hint d) (in_data_version d) q.
Definition stamp_xattr (q : Z) (d : XattrDelta) : XattrDelta := mkXattr (xa_layer d) (xa_ino d) (xa_name d) (xa_op d) (xa_value d) q.
Definition stamp_acl (q : Z) (d : AclDelta) : AclDelta := mkAclDelta (ac_layer d) (ac_ino d) (ac_type d) (ac_id d) (ac_op d) (ac_value d) q.
Definition stamp_extent (q : Z) (d : DataExtentDelta) : DataExtentDelta := mkExtent (ex_layer d) (ex_ino d) (ex_chunk d) (ex_offset d) (ex_length d) (ex_kind d) q.

(** The accounting of the data extents. *)
Fixpoint account (layer : LayerRecord) (extents : list DataExtentDelta) : result WorkspaceError LayerRecord :=
  match extents with
  | [] => Ok layer
  | row :: extents =>
      match ex_kind row with
      | Hole => account layer extents
      | Data _ _ =>
          let? count := of_option OwnedOverflow (u64_checked_add (owned_slice_count layer) 1) in
          let? bytes := of_option OwnedOverflow (u64_checked_add (owned_bytes layer) (ex_length row)) in
          account (set_owned count bytes layer) extents
      end
  end.

Fixpoint load_loop (fuel : nat) (layers : gmap Z LayerRecord) (chain : list LayerRecord) (current : option Z) : result WorkspaceError (list LayerRecord) :=
  match current, fuel with
  | None, _ => Ok chain
  | Some id, S fuel =>
      if LAYER_CHAIN_HARD_LIMIT <? zlen chain then Err (LayerDepthLimit (zlen chain)) else
      let? layer := of_option (LayerNotFound id) (layers !! id) in
      load_loop fuel layers (chain ++ [layer]) (parent_layer_id layer)
  | Some _, O => Err (LayerDepthLimit (zlen chain))
  end.
Definition load_layer_chain (layers : gmap Z LayerRecord) (head : Z) : result WorkspaceError (list LayerRecord) :=
  let? chain := load_loop 34 layers [] (Some head) in
  let? _ := validate_layer_chain chain head in
  Ok chain.

(** What a mutation writes when it commits, and the records it was prepared
    from. *)
Record Packet := mkPacket {
  p_workspace : WorkspaceRecord; p_layer : LayerRecord; p_lease : SnapshotLease; p_base : LayerRecord;
  p_layer' : LayerRecord; p_dentries : list DentryDelta; p_inodes : list InodeDelta; p_xattrs : list XattrDelta; p_acls : list AclDelta;
  p_extents : list RowWrite; p_owners : list (Z * Z * Z) }.

(** [hot_mutation_for_version] around [apply_versioned_mutation], up to the
    commit. *)
Definition prepare (m : VersionedMutation) (now : Z) (s : Store) : result WorkspaceError Packet :=
  let guard := m_guard m in
  let? count := validate m in
  let? workspace := of_option WorkspaceNotFound (s_workspaces s !! g_workspace guard) in
  let? layer := of_option Fenced (s_layers s !! g_head guard) in
  let? lease := of_option Fenced (s_leases s !! (g_workspace guard, g_lease guard)) in
  let? _ := checked_hot_guard workspace layer lease guard now in
  if negb (bool_decide (layer = m_head m)) || negb (bool_decide (s_layers s !! layer_id (m_base m) = Some (m_base m))) then Err Busy else
  let? (layer', first) := allocate_layer_sequences layer count in
  match first with
  | None => Ok (mkPacket workspace layer lease (m_base m) layer' [] [] [] [] [] [])
  | Some first =>
      let dentries := number stamp_dentry first (m_dentries m) in
      let xattrs := number stamp_xattr (first + zlen (m_dentries m)) (m_xattrs m) in
      let acls := number stamp_acl (first + zlen (m_dentries m) + zlen (m_xattrs m)) (m_acls m) in
      let inodes := number stamp_inode (first + zlen (m_dentries m) + zlen (m_xattrs m) + zlen (m_acls m)) (m_inodes m) in
      let extents := number stamp_extent (first + zlen (m_dentries m) + zlen (m_xattrs m) + zlen (m_acls m) + zlen (m_inodes m)) (m_extents m) in
      let? layer' := account layer' extents in
      let? lower :=
        match extents, parent_layer_id layer' with
        | _ :: _, Some parent => let? chain := load_layer_chain (s_layers s) parent in Ok (layer_id <$> chain)
        | _, _ => Ok []
        end in
      let? (extent_writes, owners) := compact_extent_history (layer_id layer') lower DELTA_SCAN_MAX_ROWS (s_extents s) extents (s_owners s) in
      Ok (mkPacket workspace layer lease (m_base m) layer' dentries inodes xattrs acls extent_writes owners)
  end.

Definition put_rows {K R} `{Countable K} (key : R -> K) (m : gmap K R) (rows : list R) : gmap K R := foldl (fun m row => <[key row := row]> m) m rows.

Definition apply_packet (p : Packet) (s : Store) : Store :=
  mkStore (s_workspaces s) (<[layer_id (p_layer p) := p_layer' p]> (s_layers s)) (s_leases s)
    (put_rows dentry_key (s_dentries s) (p_dentries p)) (put_rows inode_key (s_inodes s) (p_inodes p)) (put_rows xattr_key (s_xattrs s) (p_xattrs p))
    (put_rows acl_key (s_acls s) (p_acls p)) (apply_writes (s_extents s) (p_extents p)) (apply_owners (s_owners s) (p_owners p)).

(** The compare-and-swap: the records read are still the ones stored and the lease
    has not run out.  The store checks further keys, on which more commits fail. *)
Definition commit_packet (p : Packet) (now : Z) (s : Store) : option Store :=
  if bool_decide (s_workspaces s !! w_id (p_workspace p) = Some (p_workspace p) /\ s_layers s !! layer_id (p_layer p) = Some (p_layer p) /\
       s_leases s !! (le_workspace (p_lease p), le_id (p_lease p)) = Some (p_lease p) /\ s_layers s !! layer_id (p_base p) = Some (p_base p) /\ now < le_expires (p_lease p))
  then Some (apply_packet p s) else None.

(** The attempts of [hot_mutation_for_version]: what each reads and finds when it
    commits. *)
Record Attempt := mkAttempt { at_read : Store; at_read_time : Z; at_commit : Store; at_commit_time : Z }.
Fixpoint apply_versioned_mutation (m : VersionedMutation) (attempts : list Attempt) : result WorkspaceError Store :=
  match attempts with
  | [] => Err Busy
  | a :: attempts =>
      let? p := prepare m (at_read_time a) (at_read a) in
      match commit_packet p (at_commit_time a) (at_commit a) with Some s => Ok s | None => apply_versioned_mutation m attempts end
  end.
