(* ===== verification/OverlayCommits.v ===== *)
(** Commits to a workspace store: a mutation whose records are unchanged when it
    commits is the mutation prepared at that moment, and what it does to the
    contents of the workspace. *)
From stdpp Require Import options.
From S2P Require Import Prelude Acl MetaTypes Layers LayerExtents LayerCompact LayerHistory Access Overlay.

(** ** Rows of a layer *)

(** Two stores with the same rows of a layer. *)
Record same_layer (layer : Z) (s s' : Store) : Prop := {
  sl_dentries : forall p n, s_dentries s !! (layer, p, n) = s_dentries s' !! (layer, p, n);
  sl_inodes : forall i, s_inodes s !! (layer, i) = s_inodes s' !! (layer, i);
  sl_xattrs : forall i n, s_xattrs s !! (layer, i, n) = s_xattrs s' !! (layer, i, n);
  sl_acls : forall i t a, s_acls s !! (layer, i, t, a) = s_acls s' !! (layer, i, t, a);
  sl_extents : forall i c q, s_extents s !! (layer, i, c, q) = s_extents s' !! (layer, i, c, q);
  sl_owners : forall id, s_owners s !! (layer, id) = s_owners s' !! (layer, id)
}.

#[export] Instance same_layer_equivalence layer : Equivalence (same_layer layer).
Proof.
  split.
  - intros s. by split.
  - intros s s' []. split; intros; symmetry; auto.
  - intros s s' s'' [] []. split; intros; etrans; eauto.
Qed.

Lemma put_rows_other {K R} `{Countable K} (key : R -> K) (rows : list R) : forall (m : gmap K R) k, (forall r, r ∈ rows -> key r <> k) -> put_rows key m rows !! k = m !! k.
Proof.
  unfold put_rows. induction rows as [|r rows IH]; intros m k Hk; [done|]. cbn [foldl]. rewrite IH by (intros r' ?; apply Hk; by right). apply lookup_insert_ne. apply Hk. by left.
Qed.

Lemma put_rows_lookup {K R} `{Countable K} (key : R -> K) (rows : list R) : NoDup (key <$> rows) -> forall (m : gmap K R) r, r ∈ rows -> put_rows key m rows !! key r = Some r.
Proof.
  unfold put_rows. induction rows as [|r rows IH]; intros Hn m r' Hr; [by apply elem_of_nil in Hr|]. rewrite fmap_cons, NoDup_cons in Hn. destruct Hn as [Hno Hn]. cbn [foldl].
  apply elem_of_cons in Hr as [->|Hr]; [|by apply IH]. fold (put_rows key (<[key r := r]> m) rows). rewrite put_rows_other; [apply lookup_insert_eq|].
  intros r' Hr' E. apply Hno. rewrite <-E. apply list_elem_of_fmap. by exists r'.
Qed.

Lemma elem_of_number {R} (stamp : Z -> R -> R) rows : forall q r, r ∈ number stamp q rows -> exists q' r', r' ∈ rows /\ r = stamp q' r'.
Proof.
  induction rows as [|r0 rows IH]; intros q r; cbn [number]; [by intros ?%elem_of_nil|]. intros [->|Hr]%elem_of_cons; [exists q, r0; split; [by left|done]|].
  destruct (IH _ _ Hr) as (q' & r' & ? & ?). exists q', r'. split; [by right|done].
Qed.

Lemma length_number {R} (stamp : Z -> R -> R) rows : forall q, length (number stamp q rows) = length rows.
Proof. induction rows as [|r rows IH]; intros q; [done|]. cbn. by rewrite IH. Qed.

(** A field that stamping keeps. *)
Lemma number_fmap {R B} (stamp : Z -> R -> R) (f : R -> B) rows : (forall q r, f (stamp q r) = f r) -> forall q, f <$> number stamp q rows = f <$> rows.
Proof. intros Hf. induction rows as [|r rows IH]; intros q; [done|]. cbn [number]. rewrite !fmap_cons, Hf. f_equal. apply IH. Qed.

Lemma number_Forall {R} (stamp : Z -> R -> R) (P : R -> Prop) rows : (forall q r, P r -> P (stamp q r)) -> forall q, Forall P rows -> Forall P (number stamp q rows).
Proof. intros Hp q Hr. rewrite Forall_forall in *. intros r (q' & r' & Hr' & ->)%elem_of_number. auto. Qed.

(** ** Validation *)

Section validation.
Context (head : Z).

Lemma validate_inodes_ok rows : forall seen, validate_inodes head seen rows = Ok tt -> Forall (fun r => in_layer r = head /\ 0 < in_ino r /\ in_ino r ∉ seen) rows /\ NoDup (in_ino <$> rows).
Proof.
  induction rows as [|r rows IH]; intros seen; cbn [validate_inodes]; [intros _; split; constructor|]. destruct (Z.eqb_spec (in_layer r) head) as [El|]; cbn [negb]; [|done].
  destruct (Z.leb_spec (in_ino r) 0); cbn [orb]; [done|]. case_bool_decide as Hs; [done|]. intros [Hf Hn]%IH. rewrite fmap_cons, NoDup_cons. split_and!.
  - constructor; [split_and!; done || lia|]. eapply Forall_impl; [exact Hf|]. cbn. intros r' (? & ? & ?%not_elem_of_union). tauto.
  - rewrite list_elem_of_fmap. intros (r' & Er & Hr). rewrite Forall_forall in Hf. destruct (Hf r' Hr) as (_ & _ & Hx). apply Hx, elem_of_union_l, elem_of_singleton. by symmetry.
  - done.
Qed.

Lemma validate_dentries_ok rows : forall seen, validate_dentries head seen rows = Ok tt ->
  Forall (fun r => de_layer r = head /\ dentry_validate r = Ok tt /\ (de_parent r, de_name r) ∉ seen) rows /\ NoDup ((fun r => (de_parent r, de_name r)) <$> rows).
Proof.
  induction rows as [|r rows IH]; intros seen; cbn [validate_dentries]; [intros _; split; constructor|]. destruct (Z.eqb_spec (de_layer r) head) as [El|]; cbn [negb]; [|done].
  destruct (dentry_validate r) as [[]|] eqn:Ev; cbn [result_bind]; [|done]. case_bool_decide as Hs; [done|]. intros [Hf Hn]%IH. rewrite fmap_cons, NoDup_cons. split_and!.
  - constructor; [done|]. eapply Forall_impl; [exact Hf|]. cbn. intros r' (? & ? & ?%not_elem_of_union). tauto.
  - rewrite list_elem_of_fmap. intros (r' & Er & Hr). rewrite Forall_forall in Hf. destruct (Hf r' Hr) as (_ & _ & Hx). apply Hx, elem_of_union_l, elem_of_singleton. by symmetry.
  - done.
Qed.

Definition xattr_fine (inodes : list InodeDelta) (r : XattrDelta) : Prop :=
  xa_layer r = head /\ value_matches (xa_op r) (xa_value r) = true /\
  exists inode, inode ∈ inodes /\ in_ino inode = xa_ino r /\ validate_acl_xattr inode r = Ok tt.

Lemma validate_xattrs_ok inodes rows : forall seen, validate_xattrs head inodes seen rows = Ok tt ->
  Forall (fun r => xattr_fine inodes r /\ (xa_ino r, xa_name r) ∉ seen) rows /\ NoDup ((fun r => (xa_ino r, xa_name r)) <$> rows).
Proof.
  induction rows as [|r rows IH]; intros seen; cbn [validate_xattrs]; [intros _; split; constructor|]. destruct (Z.eqb_spec (xa_layer r) head) as [El|]; cbn [negb]; [|done].
  case_bool_decide as Hs; cbn [orb]; [done|]. case_bool_decide; cbn [orb]; [done|]. case_bool_decide; cbn [orb]; [done|]. destruct (value_matches (xa_op r) (xa_value r)) eqn:Em; cbn [negb]; [|done].
  destruct (List.find _ inodes) as [inode|] eqn:Ef; cbn [of_option result_bind]; [|done]. apply List.find_some in Ef as [Hin Ei%Z.eqb_eq]. rewrite <-list_elem_of_In in Hin.
  destruct (validate_acl_xattr inode r) as [[]|] eqn:Ea; cbn [result_bind]; [|done]. intros [Hf Hn]%IH. rewrite fmap_cons, NoDup_cons. split_and!.
  - constructor; [split; [|done]; split_and!; [done|done|by exists inode]|]. eapply Forall_impl; [exact Hf|]. cbn. intros r' (? & ?%not_elem_of_union). tauto.
  - rewrite list_elem_of_fmap. intros (r' & Er & Hr). rewrite Forall_forall in Hf. destruct (Hf r' Hr) as (_ & Hx). apply Hx, elem_of_union_l, elem_of_singleton. by symmetry.
  - done.
Qed.

Lemma validate_acls_ok rows : forall seen, validate_acls head seen rows = Ok tt ->
  Forall (fun r => ac_layer r = head /\ (ac_ino r, ac_type r, ac_id r) ∉ seen) rows /\ NoDup ((fun r => (ac_ino r, ac_type r, ac_id r)) <$> rows).
Proof.
  induction rows as [|r rows IH]; intros seen; cbn [validate_acls]; [intros _; split; constructor|]. destruct (Z.eqb_spec (ac_layer r) head) as [El|]; cbn [negb]; [|done].
  destruct (ac_ino r <=? 0); cbn [orb]; [done|]. case_bool_decide as Hs; cbn [orb]; [done|]. destruct (value_matches _ _); cbn [negb]; [|done]. intros [Hf Hn]%IH. rewrite fmap_cons, NoDup_cons. split_and!.
  - constructor; [done|]. eapply Forall_impl; [exact Hf|]. cbn. intros r' (? & ?%not_elem_of_union). tauto.
  - rewrite list_elem_of_fmap. intros (r' & Er & Hr). rewrite Forall_forall in Hf. destruct (Hf r' Hr) as (_ & Hx). apply Hx, elem_of_union_l, elem_of_singleton. by symmetry.
  - done.
Qed.

Lemma validate_extents_head chunk_size inodes rows : validate_mutation_extents head chunk_size inodes rows = Ok tt -> Forall (fun r => (ex_layer r = head /\ extent_validate r = Ok tt) /\ ex_offset r + ex_length r <= chunk_size) rows.
Proof.
  induction rows as [|r rows IH]; cbn [validate_mutation_extents]; [constructor|]. destruct (Z.eqb_spec (ex_layer r) head) as [El|]; cbn [negb orb]; [|done]. case_bool_decide; cbn [negb]; [|done].
  destruct (extent_validate r) as [[]|] eqn:Ev; cbn [result_bind]; [|done]. destruct (u64_checked_add (ex_offset r) (ex_length r)) eqn:Ea; [|by rewrite orb_true_r]. apply u64_checked_add_Some in Ea as [-> _]. destruct (chunk_size =? 0); cbn [orb]; [done|]. destruct (Z.ltb_spec chunk_size (ex_offset r + ex_length r)); [done|]. intros Hf%IH. by constructor.
Qed.
End validation.

(** ** What a prepared mutation writes *)

Definition typed (m : VersionedMutation) : Prop := Forall unsigned (m_extents m).

(** The rows of a mutation with their sequence numbers. *)
Record stamped (m : VersionedMutation) (first : Z) (p : Packet) : Prop := {
  st_dentries : p_dentries p = number stamp_dentry first (m_dentries m);
  st_xattrs : p_xattrs p = number stamp_xattr (first + zlen (m_dentries m)) (m_xattrs m);
  st_acls : p_acls p = number stamp_acl (first + zlen (m_dentries m) + zlen (m_xattrs m)) (m_acls m);
  st_inodes : p_inodes p = number stamp_inode (first + zlen (m_dentries m) + zlen (m_xattrs m) + zlen (m_acls m)) (m_inodes m)
}.
Definition stamped_extents (m : VersionedMutation) (first : Z) : list DataExtentDelta :=
  number stamp_extent (first + zlen (m_dentries m) + zlen (m_xattrs m) + zlen (m_acls m) + zlen (m_inodes m)) (m_extents m).

(** The layers below the head, for the row limit of readers. *)
Definition lower_of (s : Store) (layer : LayerRecord) (extents : list DataExtentDelta) : result WorkspaceError (list Z) :=
  match extents, parent_layer_id layer with
  | _ :: _, Some parent => let? chain := load_layer_chain (s_layers s) parent in Ok (layer_id <$> chain)
  | _, _ => Ok []
  end.

Record prepared (m : VersionedMutation) (now : Z) (s : Store) (p : Packet) : Prop := {
  pr_valid : exists count, validate m = Ok count;
  pr_guard : checked_hot_guard (p_workspace p) (p_layer p) (p_lease p) (m_guard m) now = Ok tt;
  pr_read : s_workspaces s !! g_workspace (m_guard m) = Some (p_workspace p) /\ s_layers s !! g_head (m_guard m) = Some (p_layer p) /\
            s_leases s !! (g_workspace (m_guard m), g_lease (m_guard m)) = Some (p_lease p) /\ s_layers s !! layer_id (p_base p) = Some (p_base p);
  pr_pair : p_layer p = m_head m /\ p_base p = m_base m;
  pr_writes : (p_layer' p = p_layer p /\ p_dentries p = [] /\ p_inodes p = [] /\ p_xattrs p = [] /\ p_acls p = [] /\ p_extents p = [] /\ p_owners p = [] /\
               m_dentries m = [] /\ m_inodes m = [] /\ m_xattrs m = [] /\ m_acls m = [] /\ m_extents m = []) \/
              (exists next lower, (next_sequence (p_layer p) < next /\ next = next_sequence (p_layer p) + zlen (m_dentries m) + zlen (m_xattrs m) + zlen (m_acls m) + zlen (m_inodes m) + zlen (m_extents m)) /\ stamped m (next_sequence (p_layer p)) p /\
                 account (set_next_sequence next (p_layer p)) (stamped_extents m (next_sequence (p_layer p))) = Ok (p_layer' p) /\
                 lower_of s (p_layer' p) (stamped_extents m (next_sequence (p_layer p))) = Ok lower /\
                 compact_extent_history (layer_id (p_layer' p)) lower DELTA_SCAN_MAX_ROWS (s_extents s) (stamped_extents m (next_sequence (p_layer p))) (s_owners s) =
                   Ok (p_extents p, p_owners p))
}.

Lemma validate_count m count : validate m = Ok count -> count = zlen (m_dentries m) + zlen (m_inodes m) + zlen (m_xattrs m) + zlen (m_acls m) + zlen (m_extents m).
Proof.
  unfold validate. destruct (validate_layer_chain _ _); cbn [result_bind]; [|done]. destruct (_ || _); [done|]. destruct (validate_inodes _ _ _); cbn [result_bind]; [|done].
  destruct (validate_dentries _ _ _); cbn [result_bind]; [|done]. destruct (validate_xattrs _ _ _ _); cbn [result_bind]; [|done]. destruct (validate_acls _ _ _); cbn [result_bind]; [|done].
  destruct (validate_mutation_extents _ _ _ _); cbn [result_bind]; [|done]. by intros [= <-].
Qed.

Lemma prepare_prepared m now s p : prepare m now s = Ok p -> prepared m now s p.
Proof.
  unfold prepare. destruct (validate m) as [count|] eqn:Ev; cbn [result_bind]; [|done]. pose proof (validate_count m count Ev) as Hcount.
  destruct (s_workspaces s !! _) as [workspace|] eqn:Ew; cbn [of_option result_bind]; [|done]. destruct (s_layers s !! g_head _) as [layer|] eqn:El; cbn [of_option result_bind]; [|done].
  destruct (s_leases s !! _) as [lease|] eqn:Ele; cbn [of_option result_bind]; [|done]. destruct (checked_hot_guard _ _ _ _ _) as [[]|] eqn:Eg; cbn [result_bind]; [|done].
  case_bool_decide as Eh; cbn [negb orb]; [|done]. case_bool_decide as Eb; cbn [negb]; [|done]. unfold allocate_layer_sequences. destruct (Z.eqb_spec count 0) as [E0|Hpos]; cbn [result_bind].
  { intros [= <-]. split; [by eexists|done|done|done|]. left. destruct (m_dentries m), (m_inodes m), (m_xattrs m), (m_acls m), (m_extents m); cbn in Hcount; first [done|lia]. }
  destruct (u64_checked_add (next_sequence layer) count) as [next|] eqn:En; cbn [of_option result_bind]; [|done]. apply u64_checked_add_Some in En as [-> _].
  fold (stamped_extents m (next_sequence layer)). destruct (account _ _) as [layer'|] eqn:Ea; cbn [result_bind]; [|done]. fold (lower_of s layer' (stamped_extents m (next_sequence layer))).
  destruct (lower_of _ _ _) as [lower|] eqn:Elo; cbn [result_bind]; [|done]. destruct (compact_extent_history _ _ _ _ _ _) as [[w o]|] eqn:Ec; cbn [result_bind]; [|done]. intros [= <-].
  split; [by eexists|done|done|done|]. right. exists (next_sequence layer + count), lower. cbn. split_and!; try done; lia.
Qed.

(** ** Preparing again *)

Lemma sorted_rows_unique {A} (key : A -> Z) (l k : list A) : l ≡ₚ k -> NoDup (key <$> k) -> sort_by_key key l = sort_by_key key k.
Proof.
  intros Hp Hn. apply (StronglySorted_unique_strong (fun a b => key a <= key b)); [|apply sort_by_key_sorted|apply sort_by_key_sorted|by rewrite !sort_by_key_perm].
  intros a b Ha Hb H1 H2. rewrite sort_by_key_perm in Ha, Hb. rewrite Hp in Ha. assert (key a = key b) as E by lia.
  apply list_elem_of_lookup in Ha as [i Hi], Hb as [j Hj]. assert (i = j) as ->; [|congruence]. apply (NoDup_lookup (key <$> k) i j (key a) Hn); rewrite list_lookup_fmap; [by rewrite Hi|]. rewrite Hj. cbn. by rewrite E.
Qed.

Section same_rows.
Context (rows rows' : Rows) (rows_fine : store_ok rows) (rows_fine' : store_ok rows').

Definition same_extents (layer : Z) : Prop := forall i c q, rows !! (layer, i, c, q) = rows' !! (layer, i, c, q).

Lemma layer_chunk_same layer ino ci : same_extents layer -> layer_chunk (rows_of rows) layer ino ci ≡ₚ layer_chunk (rows_of rows') layer ino ci /\ NoDup (ex_sequence <$> layer_chunk (rows_of rows') layer ino ci).
Proof using rows_fine rows_fine'.
  intros Hs. assert (NoDup (ex_sequence <$> layer_chunk (rows_of rows') layer ino ci)) as Hn by (by apply layer_chunk_distinct, rows_of_ok). split; [|done].
  apply layer_chunk_perm; [done|done|apply layer_chunk_of_key|]. intros q. by rewrite layer_chunk_lookup.
Qed.

Lemma scan_same layer ino ci scanned : same_extents layer -> scan_compaction_chunk rows layer ino ci scanned = scan_compaction_chunk rows' layer ino ci scanned.
Proof using rows_fine rows_fine'.
  intros Hs. unfold scan_compaction_chunk. fold (layer_chunk (rows_of rows) layer ino ci) (layer_chunk (rows_of rows') layer ino ci).
  destruct (layer_chunk_same layer ino ci Hs) as [Hp Hn]. by rewrite (sorted_rows_unique ex_sequence _ _ Hp Hn).
Qed.

Lemma scan_lower_same ino ci lower : forall scanned n, Forall same_extents lower -> scan_lower rows ino ci scanned n lower = scan_lower rows' ino ci scanned n lower.
Proof using rows_fine rows_fine'.
  induction lower as [|l lower IH]; intros scanned n Hf; [done|]. apply list.Forall_cons in Hf as [Hl Hf]. cbn [scan_lower]. rewrite scan_same by done.
  destruct (scan_compaction_chunk rows' l ino ci scanned) as [[r sc]|]; cbn [result_bind]; [by apply IH|done].
Qed.

Lemma compact_chunks_same head lower limit groups : same_extents head -> Forall same_extents lower -> forall w r, compact_chunks head lower limit rows groups w r = compact_chunks head lower limit rows' groups w r.
Proof using rows_fine rows_fine'.
  intros Hh Hl. induction groups as [|[[i c] inc] groups IH]; intros w r; [done|]. cbn [compact_chunks].
  assert (compact_chunk head lower limit rows i c inc w r = compact_chunk head lower limit rows' i c inc w r) as ->.
  { unfold compact_chunk. rewrite scan_same by done. destruct (scan_compaction_chunk rows' head i c 0) as [[o sc]|]; cbn [result_bind]; [|done]. by rewrite scan_lower_same. }
  destruct (compact_chunk head lower limit rows' i c inc w r) as [[w' r']|]; cbn [result_bind]; [apply IH|done].
Qed.

Lemma compact_same head lower limit owners owners' incoming : same_extents head -> Forall same_extents lower -> (forall id, owners !! (head, id) = owners' !! (head, id)) ->
  compact_extent_history head lower limit rows incoming owners = compact_extent_history head lower limit rows' incoming owners'.
Proof using rows_fine rows_fine'.
  intros Hh Hl Ho. unfold compact_extent_history. destruct (count_incoming head 0 incoming) as [n|]; cbn [result_bind]; [|done]. destruct (n =? 0); [done|].
  rewrite compact_chunks_same by done. destruct (compact_chunks _ _ _ rows' _ _ _) as [[w r]|]; cbn [result_bind]; [|done]. do 2 f_equal.
  unfold retain_extent_ownership. apply list_omap_ext. generalize (map_to_list r). intros l. induction l as [|[id e] l IH]; constructor; [|done]. unfold owner_put. by rewrite Ho.
Qed.
End same_rows.

(** The guard: the workspace is active under the lease of the guard, which has not
    run out, and the head is the writable layer of that workspace. *)
Record guarded (workspace : WorkspaceRecord) (layer : LayerRecord) (lease : SnapshotLease) (g : HeadGuard) (now : Z) : Prop := {
  gd_workspace : w_id workspace = g_workspace g /\ w_active_lease workspace = Some (g_lease g) /\ w_state workspace = WActive;
  gd_head : w_head_layer workspace = g_head g /\ w_epoch workspace = g_epoch g /\ layer_id layer = g_head g /\ l_state layer = Writable /\
            owner_workspace_id layer = Some (g_workspace g);
  gd_lease : le_id lease = g_lease g /\ le_workspace lease = g_workspace g /\ le_state lease = LActive /\ le_writable lease = true /\
             le_generation lease = g_generation g /\ now < le_expires lease
}.

Lemma checked_hot_guard_ok workspace layer lease g now : checked_hot_guard workspace layer lease g now = Ok tt <-> guarded workspace layer lease g now.
Proof.
  unfold checked_hot_guard. destruct (_ || (le_expires lease <=? now)) eqn:E.
  - split; [done|]. intros [(H1 & H2 & H3) (H4 & H5 & H6 & H7 & H8) (H9 & H10 & H11 & H12 & H13 & H14)]. exfalso. revert E.
    rewrite H1, H4, H5, H6, H9, H10, H12, H13, !Z.eqb_refl, !bool_decide_true by done. cbn. lia.
  - rewrite !orb_false_iff, !negb_false_iff, !bool_decide_eq_true, !Z.eqb_eq, Z.leb_gt in E. destruct E as (((((((((((((? & ?) & ?) & ?) & ?) & ?) & ?) & ?) & ?) & ?) & ?) & ?) & ?) & ?). split; [|done]. by split.
Qed.

Lemma validate_pair m count : validate m = Ok count -> layer_id (m_head m) = g_head (m_guard m) /\ fixed_pair (m_head m) (m_base m) = true /\ validate_layer_chain [m_head m; m_base m] (g_head (m_guard m)) = Ok tt.
Proof.
  unfold validate. destruct (validate_layer_chain _ _) as [[]|] eqn:E; cbn [result_bind]; [|done]. destruct (Z.eqb_spec (layer_id (m_head m)) (g_head (m_guard m))); cbn [negb orb]; [|done].
  by destruct (fixed_pair (m_head m) (m_base m)).
Qed.

Lemma fixed_pair_parents head base : fixed_pair head base = true -> parent_layer_id head = Some (layer_id base) /\ parent_layer_id base = None /\ l_state head = Writable /\ l_state base = Sealed.
Proof. unfold fixed_pair. rewrite !andb_true_iff, !bool_decide_eq_true. tauto. Qed.

Lemma account_fields extents : forall layer layer', account layer extents = Ok layer' ->
  layer_id layer' = layer_id layer /\ parent_layer_id layer' = parent_layer_id layer /\ next_sequence layer' = next_sequence layer /\ l_state layer' = l_state layer /\ depth layer' = depth layer /\
  schema_version layer' = schema_version layer.
Proof.
  induction extents as [|d extents IH]; intros layer layer'; cbn [account]; [by intros [= <-]|]. destruct (ex_kind d); [|apply IH].
  destruct (u64_checked_add (owned_slice_count layer) 1); cbn [of_option result_bind]; [|done]. destruct (u64_checked_add (owned_bytes layer) _); cbn [of_option result_bind]; [|done]. intros H%IH. exact H.
Qed.

Lemma load_base layers base : layers !! layer_id base = Some base -> parent_layer_id base = None ->
  load_layer_chain layers (layer_id base) = (let? _ := validate_layer_chain [base] (layer_id base) in Ok [base]).
Proof. intros Hl Hp. unfold load_layer_chain. cbn [load_loop]. change (LAYER_CHAIN_HARD_LIMIT <? zlen []) with false. cbn [load_loop]. rewrite Hl. cbn [of_option result_bind app]. by rewrite Hp. Qed.

Lemma lower_of_base s layer base extents lower : parent_layer_id layer = Some (layer_id base) -> parent_layer_id base = None -> s_layers s !! layer_id base = Some base ->
  lower_of s layer extents = Ok lower -> Forall (eq (layer_id base)) lower /\ forall s', s_layers s' !! layer_id base = Some base -> lower_of s' layer extents = Ok lower.
Proof.
  intros Hp Hb Hl. unfold lower_of. destruct extents as [|d extents]; [intros [= <-]; split; [constructor|done]|]. rewrite Hp. rewrite load_base by done.
  destruct (validate_layer_chain [base] (layer_id base)) eqn:Ev; cbn [result_bind]; [|done]. intros [= <-]. split; [by repeat constructor|]. intros s' Hs'. rewrite load_base by done. by rewrite Ev.
Qed.

Lemma prepare_stable m now s t p : store_ok (s_extents s) -> store_ok (s_extents t) -> prepare m now s = Ok p ->
  s_workspaces t !! w_id (p_workspace p) = Some (p_workspace p) -> s_layers t !! layer_id (p_layer p) = Some (p_layer p) ->
  s_leases t !! (le_workspace (p_lease p), le_id (p_lease p)) = Some (p_lease p) -> s_layers t !! layer_id (p_base p) = Some (p_base p) ->
  same_layer (layer_id (p_layer p)) s t -> same_layer (layer_id (p_base p)) s t -> prepare m now t = Ok p.
Proof.
  intros Hs Ht Hp Tw Tl Tle Tb Sh Sb. pose proof (prepare_prepared m now s p Hp) as [[count Hv] Hg (R1 & R2 & R3 & R4) (P1 & P2) Hw].
  pose proof Hg as [(G1 & _ & _) (_ & _ & G3 & _) (G4 & G5 & _)]%checked_hot_guard_ok. destruct (validate_pair m count Hv) as (V1 & V2 & _). apply fixed_pair_parents in V2 as (F1 & F2 & _ & _).
  revert Hp. unfold prepare. rewrite Hv. cbn [result_bind]. rewrite G1 in Tw. rewrite G3 in Tl. rewrite G4, G5 in Tle. rewrite R1, R2, R3, Tw, Tl, Tle. cbn [of_option result_bind]. rewrite Hg. cbn [result_bind].
  rewrite P1, bool_decide_true by done. rewrite P2 in R4, Tb. rewrite !bool_decide_true by done. cbn [negb orb].
  destruct (allocate_layer_sequences _ _) as [[layer' [first|]]|] eqn:Ea; cbn [result_bind]; [|done|done].
  destruct (account layer' _) as [layer''|] eqn:Eac; cbn [result_bind]; [|done]. set (extents := number stamp_extent _ _). fold (lower_of s layer'' extents) (lower_of t layer'' extents).
  assert (layer_id layer'' = layer_id (m_head m) /\ parent_layer_id layer'' = Some (layer_id (m_base m))) as [L1 L2].
  { apply account_fields in Eac as (-> & -> & _). unfold allocate_layer_sequences in Ea. destruct (count =? 0); [done|]. destruct (u64_checked_add _ _); cbn in Ea; [|done]. by injection Ea as <- _. }
  destruct (lower_of s layer'' extents) as [lower|] eqn:Elo; cbn [result_bind]; [|done]. destruct (lower_of_base s layer'' (m_base m) extents lower L2 F2 R4 Elo) as [Lf Lt]. rewrite (Lt t Tb). cbn [result_bind].
  rewrite (compact_same (s_extents s) (s_extents t) Hs Ht _ lower DELTA_SCAN_MAX_ROWS (s_owners s) (s_owners t)); [done| | |].
  - rewrite L1, <-P1. intros i c q. apply (sl_extents _ _ _ Sh).
  - eapply Forall_impl; [exact Lf|]. intros l <-. rewrite <-P2. intros i c q. apply (sl_extents _ _ _ Sb).
  - intros id. rewrite L1, <-P1. apply (sl_owners _ _ _ Sh).
Qed.

(** ** One commit *)

Definition layers_advance (s s' : Store) : Prop :=
  forall layer l, s_layers s !! layer = Some l -> exists l', s_layers s' !! layer = Some l' /\ next_sequence l <= next_sequence l'.

(** The rows of a valid mutation: rows of its head, one of a key. *)
Record mutation_rows (m : VersionedMutation) : Prop := {
  mr_inodes : Forall (fun r => in_layer r = g_head (m_guard m)) (m_inodes m) /\ NoDup (in_ino <$> m_inodes m);
  mr_dentries : Forall (fun r => de_layer r = g_head (m_guard m) /\ dentry_validate r = Ok tt) (m_dentries m) /\ NoDup ((fun r => (de_parent r, de_name r)) <$> m_dentries m);
  mr_xattrs : Forall (xattr_fine (g_head (m_guard m)) (m_inodes m)) (m_xattrs m) /\ NoDup ((fun r => (xa_ino r, xa_name r)) <$> m_xattrs m);
  mr_acls : Forall (fun r => ac_layer r = g_head (m_guard m)) (m_acls m) /\ NoDup ((fun r => (ac_ino r, ac_type r, ac_id r)) <$> m_acls m);
  mr_extents : Forall (fun r => (ex_layer r = g_head (m_guard m) /\ extent_validate r = Ok tt) /\ ex_offset r + ex_length r <= m_chunk_size m) (m_extents m)
}.

Lemma validate_rows_of m count : validate m = Ok count -> mutation_rows m.
Proof.
  unfold validate. destruct (validate_layer_chain _ _) as [[]|]; cbn [result_bind]; [|done]. destruct (_ || _); [done|].
  destruct (validate_inodes _ _ _) as [[]|] eqn:E1; cbn [result_bind]; [|done]. destruct (validate_dentries _ _ _) as [[]|] eqn:E2; cbn [result_bind]; [|done].
  destruct (validate_xattrs _ _ _ _) as [[]|] eqn:E3; cbn [result_bind]; [|done]. destruct (validate_acls _ _ _) as [[]|] eqn:E4; cbn [result_bind]; [|done].
  destruct (validate_mutation_extents _ _ _ _) as [[]|] eqn:E5; cbn [result_bind]; [|done]. intros _.
  apply validate_inodes_ok in E1 as [E1 N1]. apply validate_dentries_ok in E2 as [E2 N2]. apply validate_xattrs_ok in E3 as [E3 N3]. apply validate_acls_ok in E4 as [E4 N4]. apply validate_extents_head in E5.
  split; [split; [eapply Forall_impl; [exact E1|]; by intros r (? & _)|done]|split; [eapply Forall_impl; [exact E2|]; by intros r (? & ? & _)|done]|
    split; [eapply Forall_impl; [exact E3|]; by intros r (? & _)|done]|split; [eapply Forall_impl; [exact E4|]; by intros r (? & _)|done]|done].
Qed.

Section commit.
Context (m : VersionedMutation) (now : Z) (s : Store) (p : Packet).
Context (m_typed : typed m) (s_fine : store_ok (s_extents s)) (Hp : prepare m now s = Ok p).
Abbreviation head := (layer_id (p_layer p)).

Lemma packet_head : head = g_head (m_guard m) /\ layer_id (p_layer' p) = head /\ next_sequence (p_layer p) <= next_sequence (p_layer' p).
Proof using Hp.
  pose proof (prepare_prepared m now s p Hp) as [_ Hg _ _ Hw]. apply checked_hot_guard_ok in Hg as [_ (_ & _ & G & _) _]. split; [done|].
  destruct Hw as [(-> & _)|(next & lower & Hn & _ & Ha & _)]; [split; [done|lia]|]. apply account_fields in Ha as (-> & _ & -> & _). split; [done|]. cbn. lia.
Qed.

Lemma extents_typed first : Forall unsigned (stamped_extents m first).
Proof using m_typed. apply number_Forall; [|exact m_typed]. intros q r H. exact H. Qed.

Lemma packet_extents : store_ok (apply_writes (s_extents s) (p_extents p)) /\
  (forall rows key, key.1.1.1 <> head -> apply_writes rows (p_extents p) !! key = rows !! key) /\ (forall owners key, key.1 <> head -> apply_owners owners (p_owners p) !! key = owners !! key).
Proof using m_typed s_fine Hp.
  pose proof (prepare_prepared m now s p Hp) as [_ _ _ _ Hw]. pose proof packet_head as (_ & Hl & _).
  assert (forall (owners : Owners) key, (forall k e, (k, e) ∈ p_owners p -> k.1 = head) -> key.1 <> head -> apply_owners owners (p_owners p) !! key = owners !! key) as Ho.
  { intros owners key Hk Hne. unfold apply_owners. rewrite lookup_union_r; [done|]. apply not_elem_of_list_to_map. intros ([k e] & -> & Hin)%list_elem_of_fmap. by apply Hne, (Hk k e). }
  destruct Hw as [(_ & _ & _ & _ & _ & E1 & E2 & _)|(next & lower & _ & _ & _ & _ & Hc)].
  - rewrite E1. split_and!; [done|done|]. intros owners key. apply Ho. rewrite E2. by intros ? ? ?%elem_of_nil.
  - rewrite Hl in Hc. destruct (compact_history_ok _ _ _ _ _ _ _ _ s_fine (extents_typed _) Hc) as (H1 & _ & _ & _ & H5 & H6). split_and!; [done|done|]. intros owners key. by apply Ho.
Qed.

Lemma packet_rows : Forall (fun r => in_layer r = head) (p_inodes p) /\ Forall (fun r => de_layer r = head) (p_dentries p) /\
  Forall (fun r => xa_layer r = head) (p_xattrs p) /\ Forall (fun r => ac_layer r = head) (p_acls p).
Proof using Hp.
  pose proof (prepare_prepared m now s p Hp) as [[count Hv] _ _ _ Hw]. destruct packet_head as (-> & _). destruct (validate_rows_of m count Hv) as [[V1 _] [V2 _] [V3 _] [V4 _] _].
  destruct Hw as [(_ & -> & -> & -> & -> & _)|(next & lower & _ & [-> -> -> ->] & _)]; [split_and!; constructor|].
  split_and!; (apply number_Forall; [by intros|]); [done|eapply Forall_impl; [exact V2|]; by intros r (? & _)|eapply Forall_impl; [exact V3|]; by intros r (? & _)|done].
Qed.

(** Other layers keep their rows, in whatever store the packet is applied to. *)
Lemma packet_other t layer : layer <> head -> same_layer layer t (apply_packet p t).
Proof using m_typed s_fine Hp.
  intros Hne. destruct packet_rows as (R1 & R2 & R3 & R4). destruct packet_extents as (_ & X1 & X2). rewrite Forall_forall in R1. rewrite Forall_forall in R2. rewrite Forall_forall in R3. rewrite Forall_forall in R4. unfold apply_packet. split; cbn; intros; symmetry.
  - apply put_rows_other. intros r Hr [= E _ _]. rewrite (R2 r Hr) in E. done.
  - apply put_rows_other. intros r Hr [= E _]. rewrite (R1 r Hr) in E. done.
  - apply put_rows_other. intros r Hr [= E _ _]. rewrite (R3 r Hr) in E. done.
  - apply put_rows_other. intros r Hr [= E _ _ _]. rewrite (R4 r Hr) in E. done.
  - by apply X1.
  - by apply X2.
Qed.

Lemma commit_step now' s' : commit_packet p now' s = Some s' ->
  store_ok (s_extents s') /\ layers_advance s s' /\
  forall layer l l', s_layers s !! layer = Some l -> s_layers s' !! layer = Some l' -> next_sequence l = next_sequence l' -> same_layer layer s s'.
Proof using m_typed s_fine Hp.
  unfold commit_packet. case_bool_decide as Hc; [|done]. intros [= <-]. destruct Hc as (_ & Cl & _). destruct packet_head as (_ & _ & Hn). destruct packet_extents as (X & _). split_and!; [done| |].
  - intros layer l Hl. unfold apply_packet. cbn. destruct (decide (layer = head)) as [->|Hne]; [|rewrite lookup_insert_ne by done; by exists l].
    rewrite lookup_insert_eq. exists (p_layer' p). split; [done|]. by simplify_eq.
  - intros layer l l' Hl Hl' En. destruct (decide (layer = head)) as [->|Hne]; [|by apply packet_other].
    cbn in Hl'. rewrite lookup_insert_eq in Hl'. simplify_eq. pose proof (prepare_prepared m now s p Hp) as [_ _ _ _ [Hw|Hw]].
    + destruct Hw as (_ & E1 & E2 & E3 & E4 & E5 & E6 & _). unfold apply_packet. rewrite E1, E2, E3, E4, E5, E6. split; cbn; intros; try done. unfold apply_owners. cbn. by rewrite (left_id_L ∅ (∪)).
    + destruct Hw as (next & lower & Hlt & _ & Ha & _). apply account_fields in Ha as (_ & _ & Ea & _). cbn in Ea. lia.
Qed.
End commit.

(** ** Commits in any order *)

(** Rows are stored under their own keys. *)
Definition keyed {K R} `{Countable K} (key : R -> K) (rows : gmap K R) : Prop := map_Forall (fun k row => key row = k) rows.

Record store_keyed (s : Store) : Prop := {
  sk_dentries : keyed dentry_key (s_dentries s);
  sk_inodes : keyed inode_key (s_inodes s);
  sk_xattrs : keyed xattr_key (s_xattrs s);
  sk_acls : keyed acl_key (s_acls s);
  sk_extents : store_ok (s_extents s)
}.

Lemma put_rows_keyed {K R} `{Countable K} (key : R -> K) rows : forall m : gmap K R, keyed key m -> keyed key (put_rows key m rows).
Proof. unfold put_rows. induction rows as [|r rows IH]; intros m Hm; [done|]. cbn [foldl]. apply IH. by apply map_Forall_insert_2. Qed.

Lemma apply_packet_keyed p s : store_keyed s -> store_ok (apply_writes (s_extents s) (p_extents p)) -> store_keyed (apply_packet p s).
Proof. intros [] Hs. split; [by apply put_rows_keyed..|done]. Qed.

(** The stores a workspace store goes through, newest first.  A mutation is prepared
    from any earlier store and committed to the newest; workspaces, leases and the
    records of layers also change in other ways, which leave the rows and take
    back no sequence number. *)
Inductive history : list Store -> Prop :=
  | History_start s : store_keyed s -> history [s]
  | History_commit s past s0 m now0 p now s' : history (s :: past) -> s0 ∈ s :: past -> typed m -> prepare m now0 s0 = Ok p -> commit_packet p now s = Some s' ->
      history (s' :: s :: past)
  | History_other s past workspaces layers leases : history (s :: past) ->
      let s' := mkStore workspaces layers leases (s_dentries s) (s_inodes s) (s_xattrs s) (s_acls s) (s_extents s) (s_owners s) in
      layers_advance s s' -> history (s' :: s :: past).

(** From an earlier store to a later one. *)
Record later (s0 s : Store) : Prop := {
  lt_ok : store_keyed s0;
  lt_layers : layers_advance s0 s;
  lt_same : forall layer l l', s_layers s0 !! layer = Some l -> s_layers s !! layer = Some l' -> next_sequence l = next_sequence l' -> same_layer layer s0 s
}.

Lemma later_refl s : store_keyed s -> later s s.
Proof. intros Hs. split; [done| |done]. intros layer l Hl. exists l. split; [done|lia]. Qed.

Lemma later_trans s0 s1 s2 : later s0 s1 -> later s1 s2 -> later s0 s2.
Proof.
  intros [O1 A1 S1] [_ A2 S2]. split; [done| |].
  - intros layer l (l1 & H1 & ?)%A1. destruct (A2 _ _ H1) as (l2 & H2 & ?). exists l2. split; [done|lia].
  - intros layer l l2 Hl Hl2 En. destruct (A1 _ _ Hl) as (l1 & H1 & ?). destruct (A2 _ _ H1) as (l2' & H2 & ?). simplify_eq.
    transitivity s1; [by apply (S1 layer l l1); [..|lia]|by apply (S2 layer l1 l2); [..|lia]].
Qed.

Lemma later_prepare s0 s m now0 p now s' : later s0 s -> store_ok (s_extents s) -> prepare m now0 s0 = Ok p -> commit_packet p now s = Some s' ->
  prepare m now0 s = Ok p /\ same_layer (layer_id (p_layer p)) s0 s /\ same_layer (layer_id (p_base p)) s0 s.
Proof.
  intros [O A S] Hs Hp. unfold commit_packet. case_bool_decide as Hc; [|done]. intros _. destruct Hc as (C1 & C2 & C3 & C4 & _).
  pose proof (prepare_prepared m now0 s0 p Hp) as [_ Hg (_ & R2 & _ & R4) _ _]. pose proof Hg as [_ (_ & _ & G3 & _) _]%checked_hot_guard_ok. rewrite <-G3 in R2.
  assert (same_layer (layer_id (p_layer p)) s0 s) as S1 by (by apply (S _ _ _ R2 C2)). assert (same_layer (layer_id (p_base p)) s0 s) as S2 by (by apply (S _ _ _ R4 C4)).
  split_and!; [by apply (prepare_stable m now0 s0); [apply sk_extents|..]|done|done].
Qed.

Lemma history_later s past : history (s :: past) -> store_keyed s /\ forall s0, s0 ∈ s :: past -> later s0 s.
Proof.
  intros H. remember (s :: past) as trace eqn:E. revert s past E. induction H as [s Hs|s past s0 m now0 p now s' Hh IH H0 Hm Hp Hc|s past ws ls les Hh IH s' Ha]; intros t rest [= <- <-].
  - split; [done|]. intros s0 ->%list_elem_of_singleton. by apply later_refl.
  - destruct (IH s past eq_refl) as [Hk Hl]. pose proof (sk_extents s Hk) as Hs. destruct (later_prepare s0 s m now0 p now s' (Hl s0 H0) Hs Hp Hc) as (Hp' & _ & _).
    destruct (commit_step m now0 s p Hm Hs Hp' now s' Hc) as (Hs' & Ha & Hsame).
    assert (store_keyed s') as Hk' by (revert Hs' Hc; unfold commit_packet; case_bool_decide; [|done]; intros Hs' [= <-]; by apply apply_packet_keyed). split; [done|]. intros s1 [->|H1]%elem_of_cons; [by apply later_refl|].
    apply (later_trans s1 s s'); [by apply Hl|]. by split.
  - destruct (IH s past eq_refl) as [Hk Hl]. assert (store_keyed s') as Hk' by (by destruct Hk). split; [done|]. intros s1 [->|H1]%elem_of_cons; [by apply later_refl|]. apply (later_trans s1 s s'); [by apply Hl|]. by split.
Qed.

(** C16: mutations of a workspace are atomic.  Whatever other mutations, lease and
    layer changes commit between the store a mutation was prepared from and the
    store it commits to, a mutation that commits is the one that preparing at the
    store it commits to gives: the rows of its head and of the base below it, all
    that a plan of it can have read, are the ones it read, and the workspace is
    still active under its lease with the head of its guard, and the lease has not
    run out.  It leaves the rows and the records of every other layer, and takes
    back no sequence number. *)
Theorem mutation_serializable s past s0 m now0 p now s' :
  history (s :: past) -> s0 ∈ s :: past -> typed m -> prepare m now0 s0 = Ok p -> commit_packet p now s = Some s' ->
  (prepare m now0 s = Ok p /\ s' = apply_packet p s) /\
  (same_layer (g_head (m_guard m)) s0 s /\ same_layer (layer_id (m_base m)) s0 s) /\
  (exists workspace lease, s_workspaces s !! g_workspace (m_guard m) = Some workspace /\ s_layers s !! g_head (m_guard m) = Some (m_head m) /\
     s_leases s !! (g_workspace (m_guard m), g_lease (m_guard m)) = Some lease /\ s_layers s !! layer_id (m_base m) = Some (m_base m) /\
     guarded workspace (m_head m) lease (m_guard m) now) /\
  (forall layer, layer <> g_head (m_guard m) -> same_layer layer s s' /\ s_layers s' !! layer = s_layers s !! layer) /\
  later s s'.
Proof.
  intros Hh H0 Hm Hp Hc. destruct (history_later s past Hh) as [Hk Hl]. pose proof (sk_extents s Hk) as Hs. destruct (later_prepare s0 s m now0 p now s' (Hl s0 H0) Hs Hp Hc) as (Hp' & S1 & S2).
  destruct (packet_head m now0 s p Hp') as (Hid & _ & _). pose proof (prepare_prepared m now0 s p Hp') as [_ Hg (R1 & R2 & R3 & R4) (P1 & P2) _]. rewrite Hid in S1. rewrite P2 in S2, R4.
  pose proof (commit_step m now0 s p Hm Hs Hp' now s' Hc) as (_ & Ha & Hsame). revert Hc. unfold commit_packet. case_bool_decide as Hb; [|done]. intros [= <-]. split_and!; try done.
  - exists (p_workspace p), (p_lease p). rewrite <-P1. split_and!; [done|done|done|done|]. apply checked_hot_guard_ok in Hg as [W H (L1 & L2 & L3 & L4 & L5 & _)]. split; [done|done|]. split_and!; try done. tauto.
  - intros layer Hne. rewrite <-Hid in Hne. split; [by apply (packet_other m now0 s p Hm Hs Hp')|]. cbn. by rewrite lookup_insert_ne.
Qed.

Definition w_guard : HeadGuard := mkGuard 1 2 5 7 3.
Definition w_workspace : WorkspaceRecord := mkWorkspace 1 2 5 WActive (Some 7).
Definition w_lease : SnapshotLease := mkLease 7 1 3 true LActive 100.
Definition w_dir : InodeDelta := mkInode 1 1 Present 1 0 16877 0 0 0 2 0 0 0 None None 0 1. (* 0o40755 *)
Definition w_file : InodeDelta := mkInode 2 10 Present 0 8 33188 0 0 0 1 0 0 0 None (Some 1) 0 0. (* 0o100644 *)
Definition w_start : Store :=
  mkStore {[1 := w_workspace]} (<[1 := w_base]> {[2 := w_head]}) {[(1, 7) := w_lease]} ∅ {[(1, 1) := w_dir]} ∅ ∅ ∅ ∅.
Definition w_renewed : Store :=
  mkStore (<[4 := mkWorkspace 4 9 1 WActive None]> {[1 := w_workspace]}) (<[1 := w_base]> {[2 := w_head]}) {[(1, 7) := w_lease]} ∅ {[(1, 1) := w_dir]} ∅ ∅ ∅ ∅.
Definition w_create : VersionedMutation :=
  mkMutation w_guard w_head w_base [mkDentry 2 1 [Byte.x61] DPut (Some 10) (Some 0) 0] [w_file] [] [] [mkExtent 2 10 0 0 8 (Data 3 0) 0] 64.

Lemma w_history : history [w_renewed; w_start].
Proof.
  apply (History_other w_start []); [apply History_start; split; try apply map_Forall_empty; by apply map_Forall_singleton|].
  intros layer l Hl. exists l. split; [exact Hl|lia].
Qed.

Definition w_packet : option Packet := Eval vm_compute in match prepare w_create 20 w_start with Ok p => Some p | Err _ => None end.

Lemma mutation_serializable_witness : exists p s', w_packet = Some p /\ commit_packet p 30 w_renewed = Some s' /\ prepare w_create 20 w_renewed = Ok p /\ s_inodes s' !! (2, 10) = Some (stamp_inode 10 w_file).
Proof.
  destruct w_packet as [p|] eqn:Ep; [|discriminate Ep]. assert (prepare w_create 20 w_start = Ok p) as Hp by (injection Ep as <-; vm_compute; reflexivity).
  assert (exists s', commit_packet p 30 w_renewed = Some s' /\ s_inodes s' !! (2, 10) = Some (stamp_inode 10 w_file)) as (s' & Hc & Hi) by (injection Ep as <-; eexists; split; vm_compute; reflexivity).
  destruct (mutation_serializable w_renewed [w_start] w_start w_create 20 p 30 s' w_history ltac:(right; left) ltac:(repeat constructor; done) Hp Hc) as ((H & _) & _).
  exists p, s'. split_and!; [reflexivity|exact Hc|exact H|exact Hi].
Defined.
