(* ===== verification/OverlayView.v ===== *)
(** What a workspace sees after a mutation: the rows of the mutation under their
    keys and what it saw before under every other key. *)
From stdpp Require Import options.
From S2P Require Import Prelude Acl MetaTypes Layers LayerExtents LayerCompact LayerHistory LayerNames Access Overlay OverlayCommits.

(** The rows of a table. *)
Definition values {K R} `{Countable K} (rows : gmap K R) : list R := (map_to_list rows).*2.

(** ** One row of a key *)

Lemma elem_of_values {K R} `{Countable K} (key : R -> K) (rows : gmap K R) r : keyed key rows -> r ∈ values rows <-> rows !! key r = Some r.
Proof.
  intros Hk. unfold values. rewrite list_elem_of_fmap. split.
  - intros ([k r'] & -> & Hin%elem_of_map_to_list). cbn. by rewrite (Hk _ _ Hin).
  - intros Hr. exists (key r, r). split; [done|]. by apply elem_of_map_to_list.
Qed.

Lemma values_distinct {K R} `{Countable K} (key : R -> K) (rows : gmap K R) : keyed key rows -> NoDup (values rows).
Proof.
  intros Hk. apply (NoDup_fmap_1 key). unfold values. rewrite <-list_fmap_compose. erewrite list_fmap_ext; [apply (NoDup_fst_map_to_list rows)|].
  intros i [k r] Hi%list_elem_of_lookup_2%elem_of_map_to_list. by apply (Hk _ _ Hi).
Qed.

Lemma filter_values {K R} `{Countable K} (key : R -> K) (rows : gmap K R) (P : R -> Prop) `{!forall r, Decision (P r)} k : keyed key rows -> (forall r, P r <-> key r = k) ->
  filter P (values rows) = option_list (rows !! k).
Proof.
  intros Hk HP. assert (filter P (values rows) ≡ₚ option_list (rows !! k)) as Hp.
  { apply list.NoDup_Permutation; [by apply NoDup_filter, (values_distinct key)|destruct (rows !! k); [apply NoDup_singleton|constructor]|]. intros r. rewrite list_elem_of_filter, (elem_of_values key), HP by done.
    destruct (rows !! k) as [r'|] eqn:E; cbn; [rewrite list_elem_of_singleton|rewrite elem_of_nil].
    - split; [intros [<- Hr]; congruence|]. intros ->. pose proof (Hk _ _ E) as E'. cbn in E'. by rewrite E'.
    - split; [|done]. intros [<- Hr]. congruence. }
  destruct (rows !! k) as [r|]; cbn in *; [by apply Permutation_singleton_r in Hp|by apply Permutation_nil_r in Hp].
Qed.

Lemma put_rows_find {K R} `{Countable K} (key : R -> K) (rows : gmap K R) new (test : R -> bool) k : NoDup (key <$> new) -> (forall r, r ∈ new -> test r = true <-> key r = k) ->
  put_rows key rows new !! k = match List.find test new with Some r => Some r | None => rows !! k end.
Proof.
  intros Hn Ht. destruct (List.find test new) as [r|] eqn:E.
  - apply List.find_some in E as [Hr Et]. rewrite <-list_elem_of_In in Hr. apply Ht in Et as <-; [|done]. by apply put_rows_lookup.
  - apply put_rows_other. intros r Hr Hk%Ht; [|done]. rewrite list_elem_of_In in Hr. rewrite (List.find_none _ _ E r Hr) in Hk. done.
Qed.

(** ** Resolution in a store *)

Section stored.
Context (chain : list LayerRecord) (s : Store) (s_fine : store_keyed s).

Lemma stored_inode ino : resolve_inode chain (values (s_inodes s)) ino =
  let? _ := check_chain chain in
  let? r := first_winner (fun layer => Ok (s_inodes s !! (layer, ino))) (fun _ w => Ok match in_state w with Deleted => RMasked | Present => RPresent w end) chain in Ok (into_option r).
Proof using s_fine.
  unfold resolve_inode, resolve_inode_state. destruct (check_chain chain); cbn [result_bind]; [|done]. erewrite first_winner_ext; [done|]. apply Forall_forall. intros layer _. cbn beta. f_equal.
  rewrite (filter_values inode_key _ _ (layer_id layer, ino)); [by destruct (s_inodes s !! _)|by apply sk_inodes|]. intros r. unfold inode_key. split; [by intros [-> ->]|by intros [= -> ->]].
Qed.

Lemma stored_xattr ino name : resolve_xattr chain (values (s_xattrs s)) ino name =
  let? _ := check_chain chain in
  let? r := first_winner (fun layer => Ok (s_xattrs s !! (layer, ino, name))) (fun _ w => resolve_value (xa_op w) (xa_value w)) chain in Ok (into_option r).
Proof using s_fine.
  unfold resolve_xattr, resolve_xattr_state. destruct (check_chain chain); cbn [result_bind]; [|done]. erewrite first_winner_ext; [done|]. apply Forall_forall. intros layer _. cbn beta. f_equal.
  rewrite (filter_values xattr_key _ _ (layer_id layer, ino, name)); [by destruct (s_xattrs s !! _)|by apply sk_xattrs|]. intros r. unfold xattr_key. split; [by intros (-> & -> & ->)|by intros [= -> -> ->]].
Qed.

Lemma stored_acl ino t id : resolve_acl chain (values (s_acls s)) ino t id =
  let? _ := check_chain chain in
  let? r := first_winner (fun layer => Ok (s_acls s !! (layer, ino, t, id))) (fun _ w => resolve_value (ac_op w) (ac_value w)) chain in Ok (into_option r).
Proof using s_fine.
  unfold resolve_acl, resolve_acl_state. destruct (check_chain chain); cbn [result_bind]; [|done]. erewrite first_winner_ext; [done|]. apply Forall_forall. intros layer _. cbn beta. f_equal.
  rewrite (filter_values acl_key _ _ (layer_id layer, ino, t, id)); [by destruct (s_acls s !! _)|by apply sk_acls|]. intros r. unfold acl_key. split; [by intros (-> & -> & -> & ->)|by intros [= -> -> -> ->]].
Qed.

Lemma stored_dentry parent name : resolve_dentry chain (values (s_dentries s)) parent name =
  let? _ := check_chain chain in
  let? r := first_winner (fun layer => newest_loop None (option_list (s_dentries s !! (layer, parent, name)))) (fun _ w => materialize w) chain in Ok (into_option r).
Proof using s_fine.
  unfold resolve_dentry, resolve_dentry_state. destruct (check_chain chain); cbn [result_bind]; [|done]. erewrite first_winner_ext; [done|]. apply Forall_forall. intros layer _. cbn beta. unfold newest_in_layer.
  rewrite (filter_values dentry_key _ _ (layer_id layer, parent, name)); [done|by apply sk_dentries|]. intros r. unfold dentry_key. split; [by intros (-> & -> & ->)|by intros [= -> -> ->]].
Qed.
End stored.

(** ** Extents of a chain *)

Lemma carve_chain_ext deltas deltas' ino ci chain : Forall (fun layer => layer_extents deltas ino ci (layer_id layer) = layer_extents deltas' ino ci (layer_id layer)) chain ->
  forall uncovered resolved, carve_chain deltas ino ci uncovered resolved chain = carve_chain deltas' ino ci uncovered resolved chain.
Proof.
  induction 1 as [|layer chain Hl _ IH]; intros uncovered resolved; [done|]. cbn [carve_chain]. rewrite Hl. destruct (carve_layer _ _ _) as [[u r]|]; cbn [result_bind]; [apply IH|done].
Qed.

Lemma stored_extents_same chain rows rows' ino ci start stop : store_ok rows -> store_ok rows' -> Forall (fun layer => same_extents rows rows' (layer_id layer)) chain ->
  resolve_extents chain (rows_of rows) ino ci start stop = resolve_extents chain (rows_of rows') ino ci start stop.
Proof.
  intros Hr Hr' Hs. unfold resolve_extents, resolve_extent_coverage. destruct (check_chain chain); cbn [result_bind]; [|done]. destruct (stop <? start); [done|]. destruct (start =? stop); [done|].
  assert (forall r, store_ok r -> validate_extents ∅ (chunk_rows chain (rows_of r) ino ci) = Ok tt) as Hv.
  { intros r Hok. destruct (chunk_rows_valid chain (rows_of r) ino ci (rows_of_ok r Hok)) as [V N]. apply validate_extents_ok. split_and!; [done|done|]. apply Forall_forall. intros d _. apply not_elem_of_empty. }
  pose proof (Hv rows Hr) as V. pose proof (Hv rows' Hr') as V'. unfold chunk_rows, chain_ids in V, V'. rewrite V, V'. cbn [result_bind]. rewrite (carve_chain_ext (rows_of rows) (rows_of rows')); [done|].
  eapply Forall_impl; [exact Hs|]. intros layer Hl. cbn beta. destruct (layer_chunk_same rows rows' Hr Hr' (layer_id layer) ino ci Hl) as [Hp Hn]. apply sorted_rows_unique; [exact Hp|].
  change (NoDup ((Z.opp ∘ ex_sequence) <$> layer_chunk (rows_of rows') (layer_id layer) ino ci)). rewrite list_fmap_compose. assert (Inj (=) (=) Z.opp) as Hinj by (intros x y Exy; lia). by apply NoDup_fmap_2.
Qed.

(** ** What a chain sees *)

Record sees_same (chain : list LayerRecord) (s s' : Store) : Prop := {
  ss_dentry : forall parent name, resolve_dentry chain (values (s_dentries s)) parent name = resolve_dentry chain (values (s_dentries s')) parent name;
  ss_inode : forall ino, resolve_inode chain (values (s_inodes s)) ino = resolve_inode chain (values (s_inodes s')) ino;
  ss_xattr : forall ino name, resolve_xattr chain (values (s_xattrs s)) ino name = resolve_xattr chain (values (s_xattrs s')) ino name;
  ss_acl : forall ino t id, resolve_acl chain (values (s_acls s)) ino t id = resolve_acl chain (values (s_acls s')) ino t id;
  ss_extents : forall ino ci start stop, resolve_extents chain (rows_of (s_extents s)) ino ci start stop = resolve_extents chain (rows_of (s_extents s')) ino ci start stop
}.

Lemma same_layers_see chain s s' : store_keyed s -> store_keyed s' -> Forall (fun layer => same_layer (layer_id layer) s s') chain -> sees_same chain s s'.
Proof.
  intros Hs Hs' Hf. split; intros.
  - rewrite !stored_dentry by done. destruct (check_chain chain); cbn [result_bind]; [|done]. erewrite first_winner_ext; [done|]. eapply Forall_impl; [exact Hf|]. intros layer Hl. cbn beta. by rewrite (sl_dentries _ _ _ Hl).
  - rewrite !stored_inode by done. destruct (check_chain chain); cbn [result_bind]; [|done]. erewrite first_winner_ext; [done|]. eapply Forall_impl; [exact Hf|]. intros layer Hl. cbn beta. by rewrite (sl_inodes _ _ _ Hl).
  - rewrite !stored_xattr by done. destruct (check_chain chain); cbn [result_bind]; [|done]. erewrite first_winner_ext; [done|]. eapply Forall_impl; [exact Hf|]. intros layer Hl. cbn beta. by rewrite (sl_xattrs _ _ _ Hl).
  - rewrite !stored_acl by done. destruct (check_chain chain); cbn [result_bind]; [|done]. erewrite first_winner_ext; [done|]. eapply Forall_impl; [exact Hf|]. intros layer Hl. cbn beta. by rewrite (sl_acls _ _ _ Hl).
  - apply stored_extents_same; [by apply sk_extents..|]. eapply Forall_impl; [exact Hf|]. intros layer Hl i c q. apply (sl_extents _ _ _ Hl).
Qed.

(** ** The head before and after *)

Lemma validate_loop_length chain chain' : zlen chain = zlen chain' -> forall layers index seen, validate_loop chain index seen layers = validate_loop chain' index seen layers.
Proof.
  intros E. induction layers as [|layer layers IH]; intros index seen; [done|]. cbn [validate_loop]. rewrite E. destruct (bool_decide _); [done|]. destruct (negb _); [done|]. destruct (negb _); [done|].
  destruct (_ && _); [done|]. destruct (_ && _); [done|]. destruct layers as [|parent layers']; (destruct (bool_decide _); cbn [result_bind]; [apply IH|done]).
Qed.

Lemma check_chain_head l l' rest : layer_id l' = layer_id l -> parent_layer_id l' = parent_layer_id l -> l_state l' = l_state l -> depth l' = depth l -> schema_version l' = schema_version l ->
  l_state l = Writable -> check_chain (l' :: rest) = check_chain (l :: rest).
Proof.
  intros E1 E2 E3 E4 E5 Ew. unfold check_chain, validate_layer_chain. change (zlen (l' :: rest)) with (zlen (l :: rest)). rewrite E1, E3. destruct (LAYER_CHAIN_HARD_LIMIT <? _); [done|]. destruct (negb _); [done|]. destruct (negb _); [done|].
  rewrite (validate_loop_length (l' :: rest) (l :: rest)) by done. cbn [validate_loop]. rewrite E1, E2, E3, E4, E5, Ew. done.
Qed.

(** The first of two layers, where rows [new] were put in it. *)
Lemma two_layers {R T} (w w' : Z -> result WorkspaceError (option R)) (finish : Z -> R -> result WorkspaceError (Resolution T)) h h' b new : layer_id h' = layer_id h ->
  w' (layer_id h) = match new with Some r => Ok (Some r) | None => w (layer_id h) end -> w' (layer_id b) = w (layer_id b) ->
  first_winner w' finish [h'; b] = match new with Some r => finish (layer_id h) r | None => first_winner w finish [h; b] end.
Proof. intros E E1 E2. cbn [first_winner]. rewrite E, E1, E2. by destruct new. Qed.

Section view.
Context (m : VersionedMutation) (now : Z) (s : Store) (p : Packet).
Context (m_typed : typed m) (s_fine : store_keyed s) (Hp : prepare m now s = Ok p).
Abbreviation s' := (apply_packet p s).
Abbreviation before := [m_head m; m_base m].
Abbreviation after := [p_layer' p; m_base m].

Lemma packet_stamped : stamped m (next_sequence (m_head m)) p.
Proof using Hp.
  destruct (prepare_prepared m now s p Hp) as [_ _ _ [-> _] [Hw|(next & lower & _ & Hst & _)]]; [|done].
  destruct Hw as (_ & E1 & E2 & E3 & E4 & _ & _ & M1 & M2 & M3 & M4 & _). split; [by rewrite E1, M1|by rewrite E3, M3|by rewrite E4, M4|by rewrite E2, M2].
Qed.

Lemma packet_keys : NoDup (inode_key <$> p_inodes p) /\ NoDup (dentry_key <$> p_dentries p) /\ NoDup (xattr_key <$> p_xattrs p) /\ NoDup (acl_key <$> p_acls p).
Proof using Hp.
  destruct packet_stamped as [-> -> -> ->]. destruct (prepare_prepared m now s p Hp) as [[count Hv] _ _ _ _]. destruct (validate_rows_of m count Hv) as [[_ N1] [_ N2] [_ N3] [_ N4] _].
  rewrite !number_fmap by done. split_and!; (eapply NoDup_by; [eassumption|]); intros a b _ _; unfold inode_key, dentry_key, xattr_key, acl_key; congruence.
Qed.

Lemma packet_chains : layer_id (p_layer' p) = layer_id (m_head m) /\ check_chain before = Ok tt /\ check_chain after = Ok tt /\ layer_id (m_base m) <> layer_id (p_layer p) /\ p_layer p = m_head m.
Proof using Hp.
  destruct (prepare_prepared m now s p Hp) as [[count Hv] _ (_ & R2 & _ & R4) (P1 & P2) Hw]. destruct (validate_pair m count Hv) as (V1 & V2 & V3). apply fixed_pair_parents in V2 as (F1 & F2 & F3 & _).
  assert (check_chain before = Ok tt) as Hb by (unfold check_chain; by rewrite V1). rewrite P1 in *. rewrite P2 in *.
  assert (layer_id (m_base m) <> layer_id (m_head m)) as Hne by (intros E; rewrite E, V1, R2 in R4; injection R4 as E'; rewrite E' in F1; congruence).
  destruct Hw as [(-> & _)|(next & lower & _ & _ & Ha & _)]; [done|]. apply account_fields in Ha as (H1 & H2 & _ & H4 & H5 & H6). cbn in H1, H2, H4, H5, H6.
  split_and!; try done. by rewrite (check_chain_head (m_head m)).
Qed.

Lemma after_keyed : store_keyed s'.
Proof using m_typed s_fine Hp. apply apply_packet_keyed; [done|]. by apply (packet_extents m now s p m_typed (sk_extents s s_fine) Hp). Qed.

Lemma base_same : same_layer (layer_id (m_base m)) s s'.
Proof using m_typed s_fine Hp. destruct packet_chains as (_ & _ & _ & Hne & _). by apply (packet_other m now s p m_typed (sk_extents s s_fine) Hp). Qed.

(** A row of the packet has a key exactly when it has the rest of the key. *)
Lemma packet_layer : (forall r, r ∈ p_inodes p -> in_layer r = layer_id (m_head m)) /\ (forall r, r ∈ p_dentries p -> de_layer r = layer_id (m_head m)) /\
  (forall r, r ∈ p_xattrs p -> xa_layer r = layer_id (m_head m)) /\ (forall r, r ∈ p_acls p -> ac_layer r = layer_id (m_head m)).
Proof using Hp.
  destruct (packet_rows m now s p Hp) as (R1 & R2 & R3 & R4). destruct packet_chains as (_ & _ & _ & _ & E). rewrite E in *. rewrite Forall_forall in R1. rewrite Forall_forall in R2. rewrite Forall_forall in R3. by rewrite Forall_forall in R4.
Qed.

Lemma view_inode ino : resolve_inode after (values (s_inodes s')) ino =
  match List.find (fun r => in_ino r =? ino) (p_inodes p) with
  | Some r => Ok match in_state r with Present => Some r | Deleted => None end
  | None => resolve_inode before (values (s_inodes s)) ino
  end.
Proof using m_typed s_fine Hp.
  destruct packet_chains as (El & C1 & C2 & _). rewrite !stored_inode, C1, C2 by (done || apply after_keyed). cbn [result_bind].
  rewrite (two_layers (fun layer => Ok (s_inodes s !! (layer, ino))) _ _ (m_head m) _ _ (List.find (fun r => in_ino r =? ino) (p_inodes p))); [|done| |].
  - destruct (List.find _ _) as [r|]; [|done]. cbn. by destruct (in_state r).
  - cbn [s_inodes apply_packet]. rewrite (put_rows_find _ _ _ (fun r => in_ino r =? ino)); [by destruct (List.find _ _)|apply packet_keys|].
    intros r Hr. destruct packet_layer as (L & _). unfold inode_key. rewrite Z.eqb_eq, (L r Hr). split; [by intros ->|by intros [= ->]].
  - by rewrite (sl_inodes _ _ _ base_same).
Qed.

Lemma view_xattr ino name : resolve_xattr after (values (s_xattrs s')) ino name =
  match List.find (fun r => (xa_ino r =? ino) && bool_decide (xa_name r = name)) (p_xattrs p) with
  | Some r => Ok (xa_value r)
  | None => resolve_xattr before (values (s_xattrs s)) ino name
  end.
Proof using m_typed s_fine Hp.
  destruct packet_chains as (El & C1 & C2 & _). rewrite !stored_xattr, C1, C2 by (done || apply after_keyed). cbn [result_bind]. set (test := fun r => _ && _).
  rewrite (two_layers (fun layer => Ok (s_xattrs s !! (layer, ino, name))) _ _ (m_head m) _ _ (List.find test (p_xattrs p))); [|done| |].
  - destruct (List.find _ _) as [r|] eqn:E; [|done]. apply List.find_some in E as [Hr%list_elem_of_In _]. destruct packet_stamped as [_ Ex _ _]. rewrite Ex in Hr. apply elem_of_number in Hr as (q & r' & Hr' & ->).
    destruct (prepare_prepared m now s p Hp) as [[count Hv] _ _ _ _]. destruct (mr_xattrs m (validate_rows_of m count Hv)) as [F _]. rewrite Forall_forall in F. destruct (F r' Hr') as (_ & Hm & _).
    cbn. unfold value_matches in Hm. by destruct (xa_op r'), (xa_value r').
  - cbn [s_xattrs apply_packet]. rewrite (put_rows_find _ _ _ test); [by destruct (List.find _ _)|apply packet_keys|].
    intros r Hr. destruct packet_layer as (_ & _ & L & _). unfold xattr_key, test. rewrite andb_true_iff, Z.eqb_eq, bool_decide_eq_true, (L r Hr). split; [by intros [-> ->]|by intros [= -> ->]].
  - by rewrite (sl_xattrs _ _ _ base_same).
Qed.

Lemma view_dentry parent name : resolve_dentry after (values (s_dentries s')) parent name =
  match List.find (fun r => (de_parent r =? parent) && bool_decide (de_name r = name)) (p_dentries p) with
  | Some r => let? d := materialize r in Ok (into_option d)
  | None => resolve_dentry before (values (s_dentries s)) parent name
  end.
Proof using m_typed s_fine Hp.
  destruct packet_chains as (El & C1 & C2 & _). rewrite !stored_dentry, C1, C2 by (done || apply after_keyed). cbn [result_bind]. set (test := fun r => _ && _).
  rewrite (two_layers (fun layer => newest_loop None (option_list (s_dentries s !! (layer, parent, name)))) _ _ (m_head m) _ _ (List.find test (p_dentries p))); [|done| |].
  - by destruct (List.find _ _).
  - cbn [s_dentries apply_packet]. rewrite (put_rows_find _ _ _ test); [|apply packet_keys|].
    + destruct (List.find _ _) as [r|] eqn:E; [|done]. apply List.find_some in E as [Hr%list_elem_of_In _]. destruct packet_stamped as [Ed _ _ _]. rewrite Ed in Hr. apply elem_of_number in Hr as (q & r' & Hr' & ->).
      destruct (prepare_prepared m now s p Hp) as [[count Hv] _ _ _ _]. destruct (mr_dentries m (validate_rows_of m count Hv)) as [F _]. rewrite Forall_forall in F. destruct (F r' Hr') as (_ & Hd).
      change (newest_loop None [stamp_dentry q r'] = Ok (Some (stamp_dentry q r'))). cbn [newest_loop]. change (dentry_validate (stamp_dentry q r')) with (dentry_validate r'). by rewrite Hd.
    + intros r Hr. destruct packet_layer as (_ & L & _). unfold dentry_key, test. rewrite andb_true_iff, Z.eqb_eq, bool_decide_eq_true, (L r Hr). split; [by intros [-> ->]|by intros [= -> ->]].
  - by rewrite (sl_dentries _ _ _ base_same).
Qed.

(** The extents: the rows added to the head, whatever the store keeps of them. *)
Lemma view_extents ino ci start stop : 0 <= start -> stop < u64_modulus ->
  resolve_extents after (rows_of (s_extents s')) ino ci start stop =
  resolve_extents after (rows_of (apply_writes (s_extents s) (PutRow <$> stamped_extents m (next_sequence (m_head m))))) ino ci start stop.
Proof using m_typed s_fine Hp.
  intros H0 H1. destruct (prepare_prepared m now s p Hp) as [_ _ _ [P _] [Hw|(next & lower & _ & _ & _ & _ & Hc)]].
  - destruct Hw as (_ & _ & _ & _ & _ & E & _ & _ & _ & _ & _ & M). unfold stamped_extents. rewrite M. cbn. by rewrite E.
  - rewrite P in Hc. destruct (compact_history_ok _ _ _ _ _ _ _ _ (sk_extents s s_fine) (extents_typed m m_typed _) Hc) as (_ & H & _). by apply H.
Qed.
End view.

Lemma apply_writes_same writes : forall rows rows' : Rows, forall k, rows !! k = rows' !! k -> apply_writes rows writes !! k = apply_writes rows' writes !! k.
Proof.
  unfold apply_writes. induction writes as [|[d|k'] writes IH]; intros rows rows' k E; [done|..]; cbn [foldl]; apply IH; cbn [apply_write].
  - destruct (decide (extent_key d = k)) as [->|]; [by rewrite !lookup_insert_eq|by rewrite !lookup_insert_ne].
  - destruct (decide (k' = k)) as [->|]; [by rewrite !lookup_delete_eq|by rewrite !lookup_delete_ne].
Qed.

Lemma added_ok m count s first : typed m -> validate m = Ok count -> store_ok (s_extents s) -> store_ok (apply_writes (s_extents s) (PutRow <$> stamped_extents m first)).
Proof.
  intros Hm Hv Hs. apply (before_ok (g_head (m_guard m))); [done|]. pose proof (mr_extents m (validate_rows_of m count Hv)) as He. unfold typed in Hm. rewrite Forall_forall in He, Hm.
  apply number_Forall; [by intros|]. apply Forall_forall. intros r Hr. destruct (He r Hr). auto.
Qed.


