(* ===== verification/OverlayPlan.v ===== *)
(** The reads of a workspace operation
    ([workspace_overlay/meta_layer/mod.rs]).  An operation reads rows one request
    after the other while other clients commit, and ends with one mutation or
    without one.  The caches of the mount, the packed lower layer and the
    read-ahead of the ancestor walk are left out. *)
From stdpp Require Import options.
From S2P Require Import Prelude Acl MetaTypes Layers LayerHistory Access Overlay.

Inductive OverlayError :=
| NotFound (ino : Z) | ParentNotFound (ino : Z) | AlreadyExists (parent : Z) (name : list byte) | EntryNotFound (parent : Z) (name : list byte)
| NotDirectory (ino : Z) | DirectoryNotEmpty (ino : Z) | InvalidPath | NotSupported | Internal | InvalidFilename | FilenameTooLong | Io (e : Errno) | OutOfFuel.

#[export] Instance OverlayError_eq_dec : EqDecision OverlayError.
Proof. solve_decision. Defined.

Definition workspace_to_meta (error : WorkspaceError) : OverlayError :=
  match error with
  | Fenced => Io ESTALE
  | Busy => Io EBUSY
  | WorkspaceNotFound | LayerNotFound _ => NotFound 1
  | _ => Internal
  end.

Definition map_err {E E' A} (f : E -> E') (r : result E A) : result E' A := match r with Ok a => Ok a | Err e => Err (f e) end.

Definition file_type_from_code (code : Z) : result OverlayError FileType :=
  match code with 0 => Ok File | 1 => Ok Dir | 2 => Ok Symlink | 3 => Ok Fifo | 4 => Ok Socket | 5 => Ok CharDevice | 6 => Ok BlockDevice | _ => Err Internal end.

Definition file_attr (inode : InodeDelta) : result OverlayError FileAttr :=
  if negb (bool_decide (in_state inode = Present)) then Err (NotFound (in_ino inode)) else
  let? kind := file_type_from_code (in_kind inode) in
  Ok (mkAttr (in_ino inode) (in_size inode) (div_ceil (in_size inode) 512) kind (in_mode inode) (in_rdev inode) (in_uid inode) (in_gid inode)
        (in_atime inode) (in_mtime inode) (in_ctime inode) (in_nlink inode)).

Definition validate_name_bytes (name : list byte) : result OverlayError unit :=
  if bool_decide (name = []) || bool_decide (name = [Byte.x2e]) || bool_decide (name = [Byte.x2e; Byte.x2e]) || bool_decide (Byte.x00 ∈ name) then Err InvalidFilename else
  if bool_decide (Byte.x2f ∈ name) then Err InvalidFilename else
  if 255 <? zlen name then Err FilenameTooLong else Ok tt.

Definition validate_xattr_name_bytes (name : list byte) : result OverlayError unit :=
  if 255 <? zlen name then Err (Io ERANGE) else
  if bool_decide (name = []) || bool_decide (Byte.x00 ∈ name) then Err InvalidPath else Ok tt.

Definition CONTROL_XATTR : list byte := String.list_byte_of_string "system.brewfs.acl".

(** ** Rows of one store *)

Section reads.
Context (chain : list LayerRecord) (s : Store).

(** A row found under a key carries that key. *)
Definition checked_row {K R} `{EqDecision K} (key : R -> K) (k : K) (row : option R) : result WorkspaceError (list R) :=
  match row with
  | Some r => if bool_decide (key r = k) then Ok [r] else Err IdentityMismatch
  | None => Ok []
  end.

Record PermissionSnapshot := mkSnapshot { ps_head : LayerRecord; ps_base : LayerRecord; ps_inodes : list InodeDelta; ps_xattrs : list XattrDelta }.

Definition snapshot_xattrs (layer ino : Z) : result WorkspaceError (list XattrDelta) :=
  let? access := checked_row xattr_key (layer, ino, ACCESS_XATTR) (s_xattrs s !! (layer, ino, ACCESS_XATTR)) in
  let? default := checked_row xattr_key (layer, ino, DEFAULT_XATTR) (s_xattrs s !! (layer, ino, DEFAULT_XATTR)) in
  let? control := checked_row xattr_key (layer, ino, CONTROL_XATTR) (s_xattrs s !! (layer, ino, CONTROL_XATTR)) in
  Ok (access ++ default ++ control).

(** [read_permission_snapshot] of one inode. *)
Definition read_permission_snapshot (head_id base_id ino : Z) : result WorkspaceError PermissionSnapshot :=
  if (ino <=? 0) || (head_id =? base_id) then Err InvalidQuery else
  let? head := of_option (LayerNotFound head_id) (s_layers s !! head_id) in
  let? base := of_option (LayerNotFound base_id) (s_layers s !! base_id) in
  let? _ := validate_permission_layers head base in
  if negb (layer_id head =? head_id) || negb (layer_id base =? base_id) then Err IdentityMismatch else
  let? head_inode := checked_row inode_key (head_id, ino) (s_inodes s !! (head_id, ino)) in
  let? head_xattrs := snapshot_xattrs head_id ino in
  let? base_inode := checked_row inode_key (base_id, ino) (s_inodes s !! (base_id, ino)) in
  let? base_xattrs := snapshot_xattrs base_id ino in
  Ok (mkSnapshot head base (head_inode ++ base_inode) (head_xattrs ++ base_xattrs)).

Definition PermissionInode : Type := InodeDelta * option (list byte) * option (list byte) * option (list byte).

Definition decode_permission_inode (snapshot : PermissionSnapshot) (ino : Z) : result OverlayError PermissionInode :=
  let layers := [ps_head snapshot; ps_base snapshot] in
  let? found := map_err workspace_to_meta (resolve_inode layers (ps_inodes snapshot) ino) in
  let? inode := of_option (NotFound ino) found in
  let value name := map_err workspace_to_meta (resolve_xattr layers (ps_xattrs snapshot) ino name) in
  let? access := value ACCESS_XATTR in
  let? _ :=
    match access with
    | Some bytes =>
        match PosixAcl.decode bytes with
        | Ok acl => if negb (PosixAcl.mode_bits acl =? Z.land (in_mode inode) 511) then Err (Io EIO) else Ok tt
        | Err _ => Err (Io EIO)
        end
    | None => Ok tt
    end in
  let? default := value DEFAULT_XATTR in
  let? control := value CONTROL_XATTR in
  Ok (inode, access, default, control).

Definition permission_snapshot (ino : Z) : result OverlayError PermissionSnapshot :=
  match chain with
  | [head; base] => map_err workspace_to_meta (read_permission_snapshot (layer_id head) (layer_id base) ino)
  | _ => Err Internal
  end.

Definition permission_inode (expected : LayerRecord * LayerRecord) (ino : Z) : result OverlayError PermissionInode :=
  let? snapshot := permission_snapshot ino in
  if negb (bool_decide ((ps_head snapshot, ps_base snapshot) = expected)) then Err (workspace_to_meta Busy) else
  decode_permission_inode snapshot ino.

(** [retain_mutation_version]. *)
Definition mutation_version (root : Z) : result OverlayError (LayerRecord * LayerRecord) :=
  let? snapshot := permission_snapshot root in Ok (ps_head snapshot, ps_base snapshot).

Definition resolve_inode_delta (ino : Z) : result OverlayError (option InodeDelta) :=
  map_err workspace_to_meta (resolve_inode chain ((map_to_list (s_inodes s)).*2) ino).
Definition resolve_dentry_entry (parent : Z) (name : list byte) : result OverlayError (option ResolvedDentry) :=
  map_err workspace_to_meta (resolve_dentry chain ((map_to_list (s_dentries s)).*2) parent name).
Definition xattr_value (ino : Z) (name : list byte) : result OverlayError (option (list byte)) :=
  map_err workspace_to_meta (resolve_xattr chain ((map_to_list (s_xattrs s)).*2) ino name).
Definition directory_entries (ino : Z) : result OverlayError (list ResolvedDentry) :=
  map_err workspace_to_meta (resolve_directory chain ((map_to_list (s_dentries s)).*2) ino).

End reads.

(** ** Operations *)

(** What an operation asks the store; a read answers with a result, so that an
    operation may go on after a failed one. *)
Inductive plan (A : Type) : Type :=
| Done (r : result OverlayError A)
| ReadInode (ino : Z) (k : result OverlayError (option InodeDelta) -> plan A)
| ReadDentry (parent : Z) (name : list byte) (k : result OverlayError (option ResolvedDentry) -> plan A)
| ReadXattr (ino : Z) (name : list byte) (k : result OverlayError (option (list byte)) -> plan A)
| ReadDirectory (ino : Z) (k : result OverlayError (list ResolvedDentry) -> plan A)
| ReadPermissions (ino : Z) (k : result OverlayError PermissionInode -> plan A)
| AllocateId (k : Z -> plan A)
| Now (k : Z -> plan A).
Arguments Done {A} r.
Arguments ReadInode {A} ino k.
Arguments ReadDentry {A} parent name k.
Arguments ReadXattr {A} ino name k.
Arguments ReadDirectory {A} ino k.
Arguments ReadPermissions {A} ino k.
Arguments AllocateId {A} k.
Arguments Now {A} k.

Fixpoint plan_bind {A B} (p : plan A) (f : A -> plan B) : plan B :=
  match p with
  | Done (Ok a) => f a
  | Done (Err e) => Done (Err e)
  | ReadInode ino k => ReadInode ino (fun r => plan_bind (k r) f)
  | ReadDentry parent name k => ReadDentry parent name (fun r => plan_bind (k r) f)
  | ReadXattr ino name k => ReadXattr ino name (fun r => plan_bind (k r) f)
  | ReadDirectory ino k => ReadDirectory ino (fun r => plan_bind (k r) f)
  | ReadPermissions ino k => ReadPermissions ino (fun r => plan_bind (k r) f)
  | AllocateId k => AllocateId (fun id => plan_bind (k id) f)
  | Now k => Now (fun now => plan_bind (k now) f)
  end.

(** The outcome of [p] as a value. *)
Fixpoint plan_try {A} (p : plan A) : plan (result OverlayError A) :=
  match p with
  | Done r => Done (Ok r)
  | ReadInode ino k => ReadInode ino (fun r => plan_try (k r))
  | ReadDentry parent name k => ReadDentry parent name (fun r => plan_try (k r))
  | ReadXattr ino name k => ReadXattr ino name (fun r => plan_try (k r))
  | ReadDirectory ino k => ReadDirectory ino (fun r => plan_try (k r))
  | ReadPermissions ino k => ReadPermissions ino (fun r => plan_try (k r))
  | AllocateId k => AllocateId (fun id => plan_try (k id))
  | Now k => Now (fun now => plan_try (k now))
  end.

Declare Scope plan_scope.
Delimit Scope plan_scope with plan.
Notation "'let*' x := p 'in' k" := (plan_bind p (fun x => k))
  (at level 10, x pattern, p at level 100, k at level 200) : plan_scope.
Open Scope plan_scope.

Definition lift {A} (r : result OverlayError A) : plan A := Done r.
Definition return_ {A} (a : A) : plan A := Done (Ok a).
Definition fail {A} (e : OverlayError) : plan A := Done (Err e).
Definition get_inode (ino : Z) : plan (option InodeDelta) := ReadInode ino Done.
Definition get_dentry (parent : Z) (name : list byte) : plan (option ResolvedDentry) := ReadDentry parent name Done.
Definition get_xattr (ino : Z) (name : list byte) : plan (option (list byte)) := ReadXattr ino name Done.
Definition get_directory (ino : Z) : plan (list ResolvedDentry) := ReadDirectory ino Done.
Definition get_permissions (ino : Z) : plan PermissionInode := ReadPermissions ino Done.
Definition allocate_id : plan Z := AllocateId return_.
Definition now_ns : plan Z := Now return_.

(** The [n]-th request is answered from the store [e_store n], the [n]-th id and
    time are [e_id n] and [e_now n]. *)
Record Env := mkEnv { e_store : nat -> Store; e_id : nat -> Z; e_now : nat -> Z }.

Section run.
Context (chain : list LayerRecord) (expected : LayerRecord * LayerRecord) (e : Env).

Fixpoint run {A} (n : nat) (p : plan A) : result OverlayError A * nat :=
  match p with
  | Done r => (r, n)
  | ReadInode ino k => run (S n) (k (resolve_inode_delta chain (e_store e n) ino))
  | ReadDentry parent name k => run (S n) (k (resolve_dentry_entry chain (e_store e n) parent name))
  | ReadXattr ino name k => run (S n) (k (xattr_value chain (e_store e n) ino name))
  | ReadDirectory ino k => run (S n) (k (directory_entries chain (e_store e n) ino))
  | ReadPermissions ino k => run (S n) (k (permission_inode chain (e_store e n) expected ino))
  | AllocateId k => run (S n) (k (e_id e n))
  | Now k => run (S n) (k (e_now e n))
  end.

Lemma run_bind {A B} (p : plan A) (f : A -> plan B) : forall n,
  run n (plan_bind p f) = match run n p with (Ok a, n') => run n' (f a) | (Err err, n') => (Err err, n') end.
Proof. induction p as [[a|err]| | | | | | |]; intros n; cbn; auto. Qed.

Lemma run_try {A} (p : plan A) : forall n, run n (plan_try p) = (Ok (run n p).1, (run n p).2).
Proof. induction p; intros n; cbn; auto. Qed.
End run.
