(* ===== verification/OverlayOps.v ===== *)
(** The operations of a workspace that change metadata
    ([workspace_overlay/meta_layer/mod.rs]): each is one attempt, which reads and
    then returns or commits one mutation.  [retry_busy] is the loop around the
    attempts.  The actor, the access mask and the write handle are those of the
    request. *)
From stdpp Require Import options.
From S2P Require Import Prelude Span Slices Acl MetaTypes Layers LayerHistory Access Overlay OverlayPlan.

Record Mount := mkMount { mt_root : Z; mt_chunk_size : Z; mt_guard : HeadGuard }.
Record NamespaceActor := mkActor { act_uid : Z; act_gid : Z; act_groups : list Z }.
Record RequestScope := mkScope { sc_actor : option NamespaceActor; sc_access_mask : option Z; sc_write_handle : option Z }.

(** The end of an attempt. *)
Inductive Step (A : Type) := Return (a : A) | Commit (m : VersionedMutation) (a : A).
Arguments Return {A} a.
Arguments Commit {A} m a.

Definition retry_busy {A} (attempts : list (result OverlayError A)) : result OverlayError A :=
  (fix go fuel attempts :=
     match fuel, attempts with
     | S fuel, Err (Io EBUSY) :: rest => go fuel rest
     | S _, r :: _ => r
     | _, _ => Err (Io EBUSY)
     end) 64%nat attempts.

(** ** Fields of an inode row *)

Definition set_head (head : Z) (d : InodeDelta) : InodeDelta :=
  mkInode head (in_ino d) (in_state d) (in_kind d) (in_size d) (in_mode d) (in_uid d) (in_gid d) (in_rdev d) (in_nlink d) (in_atime d) (in_mtime d) (in_ctime d)
    (in_target d) (in_parent_hint d) (in_data_version d) 0.
Definition set_state (state : InodeState) (d : InodeDelta) : InodeDelta :=
  mkInode (in_layer d) (in_ino d) state (in_kind d) (in_size d) (in_mode d) (in_uid d) (in_gid d) (in_rdev d) (in_nlink d) (in_atime d) (in_mtime d) (in_ctime d)
    (in_target d) (in_parent_hint d) (in_data_version d) (in_sequence d).
Definition set_size (size : Z) (d : InodeDelta) : InodeDelta :=
  mkInode (in_layer d) (in_ino d) (in_state d) (in_kind d) size (in_mode d) (in_uid d) (in_gid d) (in_rdev d) (in_nlink d) (in_atime d) (in_mtime d) (in_ctime d)
    (in_target d) (in_parent_hint d) (in_data_version d) (in_sequence d).
Definition set_mode (mode : Z) (d : InodeDelta) : InodeDelta :=
  mkInode (in_layer d) (in_ino d) (in_state d) (in_kind d) (in_size d) mode (in_uid d) (in_gid d) (in_rdev d) (in_nlink d) (in_atime d) (in_mtime d) (in_ctime d)
    (in_target d) (in_parent_hint d) (in_data_version d) (in_sequence d).
Definition set_owner (uid gid : Z) (d : InodeDelta) : InodeDelta :=
  mkInode (in_layer d) (in_ino d) (in_state d) (in_kind d) (in_size d) (in_mode d) uid gid (in_rdev d) (in_nlink d) (in_atime d) (in_mtime d) (in_ctime d)
    (in_target d) (in_parent_hint d) (in_data_version d) (in_sequence d).
Definition set_nlink (nlink : Z) (d : InodeDelta) : InodeDelta :=
  mkInode (in_layer d) (in_ino d) (in_state d) (in_kind d) (in_size d) (in_mode d) (in_uid d) (in_gid d) (in_rdev d) nlink (in_atime d) (in_mtime d) (in_ctime d)
    (in_target d) (in_parent_hint d) (in_data_version d) (in_sequence d).
Definition set_times (atime mtime ctime : Z) (d : InodeDelta) : InodeDelta :=
  mkInode (in_layer d) (in_ino d) (in_state d) (in_kind d) (in_size d) (in_mode d) (in_uid d) (in_gid d) (in_rdev d) (in_nlink d) atime mtime ctime
    (in_target d) (in_parent_hint d) (in_data_version d) (in_sequence d).
Definition set_parent_hint (hint : option Z) (d : InodeDelta) : InodeDelta :=
  mkInode (in_layer d) (in_ino d) (in_state d) (in_kind d) (in_size d) (in_mode d) (in_uid d) (in_gid d) (in_rdev d) (in_nlink d) (in_atime d) (in_mtime d) (in_ctime d)
    (in_target d) hint (in_data_version d) (in_sequence d).
Definition set_data_version (version : Z) (d : InodeDelta) : InodeDelta :=
  mkInode (in_layer d) (in_ino d) (in_state d) (in_kind d) (in_size d) (in_mode d) (in_uid d) (in_gid d) (in_rdev d) (in_nlink d) (in_atime d) (in_mtime d) (in_ctime d)
    (in_target d) (in_parent_hint d) version (in_sequence d).

Definition set_ctime (now : Z) (d : InodeDelta) : InodeDelta := set_times (in_atime d) (in_mtime d) now d.
Definition touch (now : Z) (d : InodeDelta) : InodeDelta := set_times (in_atime d) now now d.
Definition next_version (d : InodeDelta) : InodeDelta := set_data_version (u64_saturating_add (in_data_version d) 1) d.

(** [u32::checked_add] and [checked_sub] by one. *)
Definition nlink_inc (n : Z) : result OverlayError Z := if n + 1 <=? u32_max then Ok (n + 1) else Err Internal.
Definition nlink_dec (n : Z) : result OverlayError Z := if 1 <=? n then Ok (n - 1) else Err Internal.

Definition is_dir (inode : InodeDelta) : bool := in_kind inode =? file_type_code Dir.

(** [String::from_utf8]. *)
Fixpoint utf8_valid (fuel : nat) (s : list byte) : bool :=
  let z b := Z.of_N (Byte.to_N b) in
  let tail b := (128 <=? z b) && (z b <=? 191) in
  match fuel, s with
  | _, [] => true
  | O, _ => false
  | S fuel, a :: s =>
      if z a <=? 127 then utf8_valid fuel s else
      if (194 <=? z a) && (z a <=? 223) then match s with b :: s => tail b && utf8_valid fuel s | _ => false end else
      if (224 <=? z a) && (z a <=? 239) then
        match s with
        | b :: c :: s => tail b && tail c && negb ((z a =? 224) && (z b <=? 159)) && negb ((z a =? 237) && (160 <=? z b)) && utf8_valid fuel s
        | _ => false
        end else
      if (240 <=? z a) && (z a <=? 244) then
        match s with
        | b :: c :: d :: s => tail b && tail c && tail d && negb ((z a =? 240) && (z b <=? 143)) && negb ((z a =? 244) && (144 <=? z b)) && utf8_valid fuel s
        | _ => false
        end
      else false
  end.
Definition from_utf8 (s : list byte) : result OverlayError (list byte) := if utf8_valid (length s) s then Ok s else Err InvalidFilename.

Section operations.
Context (parse_control : list byte -> option (list Control.ControlAclEntry)).
Context (mount : Mount) (expected : LayerRecord * LayerRecord) (scope : RequestScope) (is_open : Z -> bool) (fuel : nat).
Abbreviation head := (g_head (mt_guard mount)).
Abbreviation root := (mt_root mount).
Abbreviation chunk_size := (mt_chunk_size mount).

(** *** Reads *)

Definition inode_or (e : OverlayError) (ino : Z) : plan InodeDelta :=
  let* found := get_inode ino in lift (of_option e found).

Definition stat (ino : Z) : plan (option FileAttr) :=
  let* found := get_inode ino in
  match found with Some inode => let* attr := lift (file_attr inode) in return_ (Some attr) | None => return_ None end.

Definition lookup (parent : Z) (name : list byte) : plan (option Z) :=
  let* _ := lift (validate_name_bytes name) in
  let* entry := get_dentry parent name in
  return_ (rd_ino <$> entry).

Fixpoint dir_entries (entries : list ResolvedDentry) : result OverlayError (list (list byte * Z * FileType)) :=
  match entries with
  | [] => Ok []
  | entry :: entries =>
      let? name := from_utf8 (rd_name entry) in
      let? kind := file_type_from_code (rd_type entry) in
      let? rest := dir_entries entries in
      Ok ((name, rd_ino entry, kind) :: rest)
  end.

Definition readdir (ino : Z) : plan (list (list byte * Z * FileType)) :=
  let* found := stat ino in
  let* attr := lift (of_option (NotFound ino) found) in
  if negb (bool_decide (a_kind attr = Dir)) then fail (NotDirectory ino) else
  let* entries := get_directory ino in
  lift (dir_entries entries).

Definition directory_is_empty (ino : Z) : plan bool :=
  let* entries := readdir ino in return_ (bool_decide (entries = [])).

Fixpoint descend_loop (fuel : nat) (visited : gset Z) (directory ancestor : Z) : plan bool :=
  match fuel with
  | O => fail OutOfFuel
  | S fuel =>
      if directory =? ancestor then return_ true else
      if directory =? root then return_ false else
      if bool_decide (directory ∈ visited) then fail InvalidPath else
      let* inode := inode_or (NotFound directory) directory in
      let* kind := lift (file_type_from_code (in_kind inode)) in
      if negb (bool_decide (kind = Dir)) then fail (NotDirectory directory) else
      match in_parent_hint inode with
      | Some parent => if parent =? directory then return_ false else descend_loop fuel ({[directory]} ∪ visited) parent ancestor
      | None => return_ false
      end
  end.
Definition directory_is_descendant_of (directory ancestor : Z) : plan bool := descend_loop fuel ∅ directory ancestor.

(** *** Permissions *)

Definition allows (inode : InodeDelta) (access control : option (list byte)) (uid : Z) (groups : list Z) (requested : Z) : plan bool :=
  lift (map_err Io (inode_allows_actor parse_control inode access control uid groups requested)).

Fixpoint check_ancestors (fuel : nat) (visited : gset Z) (uid : Z) (groups : list Z) (ancestor : option Z) : plan unit :=
  match fuel with
  | O => fail OutOfFuel
  | S fuel =>
      let* ino := lift (of_option (Io EIO) ancestor) in
      if bool_decide (ino ∈ visited) then fail (Io EIO) else
      let* (inode, access, _, control) := get_permissions ino in
      if negb (is_dir inode) then fail (NotDirectory ino) else
      let* allowed := allows inode access control uid groups 1 in
      if negb allowed then fail (Io EACCES) else
      if ino =? root then return_ tt else
      check_ancestors fuel ({[ino]} ∪ visited) uid groups (in_parent_hint inode)
  end.

Definition check_namespace_actor_with_parent (parent : Z) (child : option Z) (parent_permission : option PermissionInode) : plan unit :=
  match sc_actor scope with
  | None => return_ tt
  | Some actor =>
      if act_uid actor =? 0 then return_ tt else
      let* (directory, access, _, control) := match parent_permission with Some permission => return_ permission | None => get_permissions parent end in
      if negb (is_dir directory) then fail (NotDirectory parent) else
      let* allowed := allows directory access control (act_uid actor) (act_groups actor) 3 in
      if negb allowed then fail (Io EACCES) else
      let* _ := if parent =? root then return_ tt
                else check_ancestors fuel {[parent]} (act_uid actor) (act_groups actor) (in_parent_hint directory) in
      match child with
      | Some child =>
          if negb (Z.land (in_mode directory) 512 =? 0) && negb (act_uid actor =? in_uid directory) then (* 0o1000 *)
            let* (inode, _, _, _) := get_permissions child in
            if negb (act_uid actor =? in_uid inode) then fail (Io EPERM) else return_ tt
          else return_ tt
      | None => return_ tt
      end
  end.
Definition check_namespace_actor (parent : Z) (child : option Z) : plan unit := check_namespace_actor_with_parent parent child None.

(** *** Mutations *)

Definition mutation (dentries : list DentryDelta) (inodes : list InodeDelta) (xattrs : list XattrDelta) (acls : list AclDelta) (extents : list DataExtentDelta) : VersionedMutation :=
  mkMutation (mt_guard mount) expected.1 expected.2 dentries inodes xattrs acls extents chunk_size.

(** [mutate_inode] and [mutate_data]: the row committed and what it is. *)
Definition mutate_inode {A} (inode : InodeDelta) (xattrs : list XattrDelta) (answer : InodeDelta -> A) : plan (Step A) :=
  let inode := set_head head inode in return_ (Commit (mutation [] [inode] xattrs [] []) (answer inode)).
Definition mutate_data {A} (inode : InodeDelta) (extents : list DataExtentDelta) (xattrs : list XattrDelta) (answer : InodeDelta -> A) : plan (Step A) :=
  let inode := set_head head inode in
  let extents := (fun e => mkExtent head (in_ino inode) (ex_chunk e) (ex_offset e) (ex_length e) (ex_kind e) 0) <$> extents in
  return_ (Commit (mutation [] [inode] xattrs [] extents) (answer inode)).

Fixpoint hole_loop (fuel : nat) (layer ino cursor stop : Z) : result OverlayError (list DataExtentDelta) :=
  if stop <=? cursor then Ok [] else
  match fuel with
  | O => Err OutOfFuel
  | S fuel =>
      let chunk_index := cursor / chunk_size in
      let logical_offset := cursor mod chunk_size in
      let length := Z.min (stop - cursor) (chunk_size - logical_offset) in
      let? next := of_option Internal (u64_checked_add cursor length) in
      let? rest := hole_loop fuel layer ino next stop in
      Ok (mkExtent layer ino chunk_index logical_offset length Hole 0 :: rest)
  end.
(** The chunks that the range touches are enough turns of the loop. *)
Definition hole_extents (layer ino start stop : Z) : result OverlayError (list DataExtentDelta) :=
  hole_loop (Z.to_nat (stop / chunk_size - start / chunk_size + 1)) layer ino start stop.

Definition data_extent (layer ino chunk_index offset length slice_id slice_offset : Z) : DataExtentDelta :=
  mkExtent layer ino chunk_index offset length (Data slice_id slice_offset) 0.
Definition put_dentry (layer parent : Z) (name : list byte) (ino kind : Z) : DentryDelta := mkDentry layer parent name DPut (Some ino) (Some kind) 0.
Definition whiteout (layer parent : Z) (name : list byte) : DentryDelta := mkDentry layer parent name DWhiteout None None 0.
Definition value_row (layer ino : Z) (name : list byte) (value : option (list byte)) : XattrDelta :=
  mkXattr layer ino name (match value with Some _ => VPut | None => VWhiteout end) value 0.

(** *** Attributes *)

Definition some_b {A} (o : option A) : bool := match o with Some _ => true | None => false end.

(** The check of the caller of [set_attr_checked]. *)
Definition set_attr_allowed (inode : InodeDelta) (access control : option (list byte)) (ino : Z) (req : SetAttrRequest) (flags : Z) (actor : option (Z * list Z)) : plan unit :=
  let write_handle := bool_decide (sc_write_handle scope = Some ino) && some_b (r_size req) && negb (some_b (r_mode req)) && negb (some_b (r_uid req)) &&
                      negb (some_b (r_gid req)) && negb (some_b (r_flags req)) in
  match actor with
  | None => return_ tt
  | Some (uid, groups) =>
      if uid =? 0 then return_ tt else
      if ((some_b (r_mode req) || some_b (r_uid req) || some_b (r_gid req)) && negb (uid =? in_uid inode)) ||
         match r_uid req with Some new_uid => negb (new_uid =? in_uid inode) | None => false end ||
         match r_gid req with Some new_gid => negb (new_gid =? in_gid inode) && negb (bool_decide (new_gid ∈ groups)) | None => false end
      then fail (Io EPERM) else
      let* _ :=
        if some_b (r_size req) && negb write_handle then
          let* allowed := allows inode access control uid groups (default 2 (sc_access_mask scope)) in
          if allowed then return_ tt else fail (Io EACCES)
        else return_ tt in
      let user_timestamps := some_b (r_atime req) || some_b (r_mtime req) || negb (Z.land flags (Z.lor SET_ATIME_NOW SET_MTIME_NOW) =? 0) in
      if user_timestamps && negb (some_b (r_size req)) && negb (some_b (r_mode req)) && negb (some_b (r_uid req)) && negb (some_b (r_gid req)) && negb (uid =? in_uid inode) then
        if negb (timestamps_use_write_permission req flags) then fail (Io EPERM) else
        let* allowed := allows inode access control uid groups 2 in
        if allowed then return_ tt else fail (Io EACCES)
      else return_ tt
  end.

(** The new mode and, where the inode has an access list, the new list. *)
Definition set_attr_mode (inode : InodeDelta) (access : option (list byte)) (ino : Z) (req : SetAttrRequest) (actor : option (Z * list Z)) : plan (InodeDelta * list XattrDelta) :=
  match r_mode req with
  | None => return_ (inode, [])
  | Some mode =>
      let new_mode := Z.land mode 4095 in (* 0o7777 *)
      let new_mode :=
        match actor with
        | Some (uid, groups) => if negb (uid =? 0) && negb (bool_decide (default (in_gid inode) (r_gid req) ∈ groups)) then Z.ldiff new_mode 1024 else new_mode (* 0o2000 *)
        | None => new_mode
        end in
      match access with
      | Some bytes =>
          let* acl := lift (map_err (fun _ => Io EIO) (PosixAcl.decode bytes)) in
          let acl := PosixAcl.chmod acl mode in
          return_ (set_mode new_mode inode, [value_row (layer_id expected.1) ino ACCESS_XATTR (if PosixAcl.is_extended acl then Some (PosixAcl.encode acl) else None)])
      | None => return_ (set_mode new_mode inode, [])
      end
  end.

Definition set_attr_size (req : SetAttrRequest) (inode : InodeDelta) : InodeDelta :=
  match r_size req with
  | Some size => let changed := negb (size =? in_size inode) in (if changed then next_version else fun d => d) (set_size size inode)
  | None => inode
  end.

Definition set_attr_times (req : SetAttrRequest) (flags now now' : Z) (inode : InodeDelta) : InodeDelta :=
  let atime := if flags_contain flags SET_ATIME_NOW then now else default (in_atime inode) (r_atime req) in
  let mtime := if flags_contain flags SET_MTIME_NOW then now else
               match r_mtime req with Some mtime => mtime | None => if some_b (r_size req) then now else in_mtime inode end in
  set_times atime mtime (default now' (r_ctime req)) inode.

(** The privilege bits that a change of owner and the flags clear. *)
Definition set_attr_privileges (req : SetAttrRequest) (flags : Z) (inode : InodeDelta) : InodeDelta :=
  let mode := in_mode inode in
  let mode := if (some_b (r_uid req) || some_b (r_gid req)) && negb (is_dir inode) then
                let mode := Z.ldiff mode 2048 in if negb (Z.land mode 8 =? 0) then Z.ldiff mode 1024 else mode (* 0o4000 0o010 0o2000 *)
              else mode in
  let mode := if flags_contain flags CLEAR_SUID then Z.ldiff mode 2048 else mode in
  let mode := if flags_contain flags CLEAR_SGID then Z.ldiff mode 1024 else mode in
  set_mode mode inode.

Definition set_attr_checked (ino : Z) (req : SetAttrRequest) (flags : Z) (actor : option (Z * list Z)) : plan (Step (result OverlayError FileAttr)) :=
  let* (inode, access, _, control) := get_permissions ino in
  let* _ := set_attr_allowed inode access control ino req flags actor in
  let old_size := in_size inode in
  let* (inode, xattrs) := set_attr_mode inode access ino req actor in
  let inode := set_owner (default (in_uid inode) (r_uid req)) (default (in_gid inode) (r_gid req)) inode in
  let inode := set_attr_size req inode in
  let* now := now_ns in
  let* now' := now_ns in
  let inode := set_attr_privileges req flags (set_attr_times req flags now now' inode) in
  if negb (in_size inode =? old_size) then
    let* extents := if in_size inode <? old_size then lift (hole_extents (in_layer inode) ino (in_size inode) old_size) else return_ [] in
    mutate_data inode extents xattrs file_attr
  else mutate_inode inode xattrs file_attr.

Definition XATTR_CREATE : Z := 1.
Definition XATTR_REPLACE : Z := 2.

(** [update_posix_acl_with_flags]; the checks before the attempts are part of it. *)
Definition update_posix_acl_with_flags (ino : Z) (name : list byte) (value : option (list byte)) (flags uid : Z) (groups : list Z) : plan (Step unit) :=
  if negb (bool_decide (name = ACCESS_XATTR)) && negb (bool_decide (name = DEFAULT_XATTR)) then fail (Io EINVAL) else
  if negb (Z.ldiff flags (Z.lor XATTR_CREATE XATTR_REPLACE) =? 0) || (negb (Z.land flags XATTR_CREATE =? 0) && negb (Z.land flags XATTR_REPLACE =? 0)) then fail (Io EINVAL) else
  let* acl :=
    match value with
    | None | Some [] => return_ None
    | Some bytes => if bool_decide (bytes = to_le_bytes 4 2) then return_ None
                    else let* acl := lift (map_err (fun _ => Io EINVAL) (PosixAcl.decode bytes)) in return_ (Some acl)
    end in
  let* (inode, access, default, _) := get_permissions ino in
  if in_kind inode =? file_type_code Symlink then fail (Io EOPNOTSUPP) else
  if negb (uid =? 0) && negb (uid =? in_uid inode) then fail (Io EPERM) else
  let existing := some_b (if bool_decide (name = ACCESS_XATTR) then access else default) in
  if negb (Z.land flags XATTR_CREATE =? 0) && existing then fail (Io EEXIST) else
  if negb (Z.land flags XATTR_REPLACE =? 0) && negb existing then fail (Io ENODATA) else
  if bool_decide (name = DEFAULT_XATTR) && some_b acl && negb (is_dir inode) then fail (Io EACCES) else
  let (inode, stored) :=
    match acl with
    | Some acl =>
        if bool_decide (name = ACCESS_XATTR) then
          let mode := Z.lor (Z.ldiff (in_mode inode) 511) (PosixAcl.mode_bits acl) in
          let mode := if negb (uid =? 0) && negb (bool_decide (in_gid inode ∈ groups)) then Z.ldiff mode 1024 else mode in (* 0o2000 *)
          (set_mode mode inode, if PosixAcl.is_extended acl then Some (PosixAcl.encode acl) else None)
        else (inode, Some (PosixAcl.encode acl))
    | None => (inode, None)
    end in
  let* now := now_ns in
  mutate_inode (set_ctime now inode) [value_row (layer_id expected.1) ino name stored] (fun _ => tt).

(** *** Extended attributes *)

Definition get_xattr_bytes (ino : Z) (name : list byte) : plan (option (list byte)) :=
  let* _ := lift (validate_xattr_name_bytes name) in
  let* found := stat ino in
  if negb (some_b found) then fail (NotFound ino) else get_xattr ino name.

Definition set_xattr_bytes (ino : Z) (name value : list byte) (flags : Z) : plan (Step unit) :=
  let bad_flags := negb (Z.ldiff flags (Z.lor XATTR_CREATE XATTR_REPLACE) =? 0) in
  if bool_decide (name = ACCESS_XATTR) || bool_decide (name = DEFAULT_XATTR) then
    if bad_flags then fail (Io EINVAL) else update_posix_acl_with_flags ino name (Some value) flags 0 []
  else
  let* _ := lift (validate_xattr_name_bytes name) in
  let* inode := inode_or (NotFound ino) ino in
  let* existing := get_xattr_bytes ino name in
  if bad_flags then fail (Io EINVAL) else
  let create_only := negb (Z.land flags XATTR_CREATE =? 0) in
  let replace_only := negb (Z.land flags XATTR_REPLACE =? 0) in
  if create_only && replace_only then fail InvalidPath else
  if create_only && some_b existing then fail (AlreadyExists ino name) else
  if replace_only && negb (some_b existing) then fail (NotFound ino) else
  let* now := now_ns in
  return_ (Commit (mutation [] [set_ctime now (set_head head inode)] [value_row head ino name (Some value)] [] []) tt).

Definition remove_xattr_bytes (ino : Z) (name : list byte) : plan (Step unit) :=
  if bool_decide (name = ACCESS_XATTR) || bool_decide (name = DEFAULT_XATTR) then update_posix_acl_with_flags ino name None XATTR_REPLACE 0 [] else
  let* _ := lift (validate_xattr_name_bytes name) in
  let* existing := get_xattr_bytes ino name in
  if negb (some_b existing) then fail (NotFound ino) else
  let* inode := inode_or (NotFound ino) ino in
  let* now := now_ns in
  return_ (Commit (mutation [] [set_ctime now (set_head head inode)] [value_row head ino name None] [] []) tt).

Definition set_acl (ino acl_type qualifier permissions : Z) : plan (Step unit) :=
  let* _ := inode_or (NotFound ino) ino in
  return_ (Commit (mutation [] [] [] [mkAclDelta head ino acl_type qualifier VPut (Some (rev (to_le_bytes 4 permissions))) 0] []) tt).

(** *** Names *)

(** Mode and access list of a new inode, from the default list of its parent or
    the umask. *)
Definition creation_bits (kind : FileType) (mode umask : Z) (parent_default : option (list byte)) : plan (Z * option (list byte)) :=
  let creation_mode := Z.land mode 4095 in (* 0o7777 *)
  if bool_decide (kind = Symlink) then return_ (creation_mode, None) else
  match parent_default with
  | Some bytes =>
      let* default := lift (map_err (fun _ => Io EIO) (PosixAcl.decode bytes)) in
      let access := PosixAcl.inherited_access default mode in
      return_ (Z.lor (Z.ldiff creation_mode 511) (PosixAcl.mode_bits access), if PosixAcl.is_extended access then Some (PosixAcl.encode access) else None) (* 0o777 *)
  | None => return_ (Z.ldiff creation_mode (Z.land umask 511), None)
  end.

Definition create_entry (parent : Z) (name : list byte) (kind : FileType) (mode umask uid gid rdev : Z) (symlink_target : option (list byte)) :
    plan (Step (Z * result OverlayError FileAttr)) :=
  let* _ := lift (validate_name_bytes name) in
  let* permission := get_permissions parent in
  let* _ := check_namespace_actor_with_parent parent None (Some permission) in
  let '(parent_inode, _, parent_default, _) := permission in
  let creation_uid := match sc_actor scope with Some actor => act_uid actor | None => uid end in
  let creation_gid := match sc_actor scope with Some actor => act_gid actor | None => gid end in
  let* (creation_mode, inherited) := creation_bits kind mode umask parent_default in
  let set_gid := negb (Z.land (in_mode parent_inode) 1024 =? 0) in (* 0o2000 *)
  let creation_gid := if set_gid then in_gid parent_inode else creation_gid in
  let creation_mode := if set_gid && bool_decide (kind = Dir) then Z.lor creation_mode 1024 else creation_mode in
  let creation_mode :=
    match sc_actor scope with
    | Some actor => if negb (act_uid actor =? 0) && negb (bool_decide (kind = Dir)) && negb (bool_decide (creation_gid ∈ act_groups actor)) then Z.ldiff creation_mode 1024 else creation_mode
    | None => creation_mode
    end in
  let* parent_kind := lift (file_type_from_code (in_kind parent_inode)) in
  if negb (bool_decide (parent_kind = Dir)) then fail (NotDirectory parent) else
  let* existing := get_dentry parent name in
  if some_b existing then fail (AlreadyExists parent name) else
  let* ino := allocate_id in
  let* now := now_ns in
  let inode := mkInode head ino Present (file_type_code kind) (match symlink_target with Some target => zlen target | None => 0 end) creation_mode creation_uid creation_gid rdev
                 (if bool_decide (kind = Dir) then 2 else 1) now now now symlink_target (Some parent) 1 0 in
  let* nlink := if bool_decide (kind = Dir) then lift (nlink_inc (in_nlink parent_inode)) else return_ (in_nlink parent_inode) in
  let parent_inode := set_nlink nlink (touch now (set_head head parent_inode)) in
  let row name value := match value with Some value => [value_row head ino name (Some value)] | None => [] end in
  let xattrs := row ACCESS_XATTR inherited ++ row DEFAULT_XATTR (if bool_decide (kind = Dir) then parent_default else None) in
  return_ (Commit (mutation [put_dentry head parent name ino (file_type_code kind)] [inode; parent_inode] xattrs [] []) (ino, file_attr inode)).

(** A link of an inode that is not a directory goes away. *)
Definition drop_link (inode : InodeDelta) : result OverlayError InodeDelta :=
  let? nlink := nlink_dec (in_nlink inode) in
  let inode := set_nlink nlink inode in
  Ok (if (nlink =? 0) && negb (is_open (in_ino inode)) then set_state Deleted inode else inode).

Definition remove_entry (parent : Z) (name : list byte) (directory : bool) : plan (Step unit) :=
  let* _ := lift (validate_name_bytes name) in
  let* found := get_dentry parent name in
  let* entry := lift (of_option (NotFound parent) found) in
  let* _ := check_namespace_actor parent (Some (rd_ino entry)) in
  let* inode := inode_or (NotFound (rd_ino entry)) (rd_ino entry) in
  let* kind := lift (file_type_from_code (in_kind inode)) in
  if directory && negb (bool_decide (kind = Dir)) then fail (NotDirectory (rd_ino entry)) else
  if negb directory && bool_decide (kind = Dir) then fail (Io EISDIR) else
  let* empty := if directory then directory_is_empty (rd_ino entry) else return_ true in
  if negb empty then fail (DirectoryNotEmpty (rd_ino entry)) else
  let* parent_inode := inode_or (ParentNotFound parent) parent in
  let* now := now_ns in
  let* nlink := if directory then lift (nlink_dec (in_nlink parent_inode)) else return_ (in_nlink parent_inode) in
  let parent_inode := set_nlink nlink (touch now (set_head head parent_inode)) in
  let inode := set_ctime now (set_head head inode) in
  let* inode := if directory then return_ (set_nlink 0 (set_state Deleted inode)) else lift (drop_link inode) in
  return_ (Commit (mutation [whiteout head parent name] [inode; parent_inode] [] [] []) tt).

Definition link (ino parent : Z) (name : list byte) : plan (Step (result OverlayError FileAttr)) :=
  let* _ := lift (validate_name_bytes name) in
  let* _ := check_namespace_actor parent None in
  let* existing := lookup parent name in
  if some_b existing then fail (AlreadyExists parent name) else
  let* inode := inode_or (NotFound ino) ino in
  let* kind := lift (file_type_from_code (in_kind inode)) in
  if bool_decide (kind = Dir) then fail NotSupported else
  let* parent_inode := inode_or (ParentNotFound parent) parent in
  let* parent_kind := lift (file_type_from_code (in_kind parent_inode)) in
  if negb (bool_decide (parent_kind = Dir)) then fail (NotDirectory parent) else
  let* now := now_ns in
  let* nlink := lift (nlink_inc (in_nlink inode)) in
  let inode := set_ctime now (set_nlink nlink (set_head head inode)) in
  let parent_inode := touch now (set_head head parent_inode) in
  return_ (Commit (mutation [put_dentry head parent name ino (in_kind inode)] [inode; parent_inode] [] [] []) (file_attr inode)).

(** What replaces the destination of a rename has to fit it. *)
Definition check_replace (source_kind : FileType) (destination : InodeDelta) : plan unit :=
  let* kind := lift (file_type_from_code (in_kind destination)) in
  match bool_decide (source_kind = Dir), bool_decide (kind = Dir) with
  | true, false => fail (NotDirectory (in_ino destination))
  | false, true => fail (Io EISDIR)
  | true, true => let* empty := directory_is_empty (in_ino destination) in if negb empty then fail (DirectoryNotEmpty (in_ino destination)) else return_ tt
  | false, false => return_ tt
  end.

(** The link counts of the parents and of the destination after a rename. *)
Definition rename_counts (old_parent new_parent now : Z) (source_dir : bool) (source old_inode new_inode : InodeDelta) (destination : option InodeDelta) :
    result OverlayError (InodeDelta * InodeDelta * InodeDelta * option InodeDelta) :=
  let old_inode := touch now (set_head head old_inode) in
  let new_inode := touch now (set_head head new_inode) in
  let? (source, old_inode, new_inode) :=
    if source_dir && negb (old_parent =? new_parent) then
      let? fewer := nlink_dec (in_nlink old_inode) in
      let? more := nlink_inc (in_nlink new_inode) in
      Ok (set_parent_hint (Some new_parent) source, set_nlink fewer old_inode, set_nlink more new_inode)
    else Ok (source, old_inode, new_inode) in
  let? (new_inode, destination) :=
    match destination with
    | Some inode =>
        let? kind := file_type_from_code (in_kind inode) in
        if bool_decide (kind = Dir) then
          let? fewer := nlink_dec (in_nlink new_inode) in
          Ok (set_nlink fewer new_inode, Some (set_ctime now (set_head head (set_state Deleted (set_nlink 0 inode)))))
        else
          let? inode := drop_link inode in
          Ok (new_inode, Some (set_ctime now (set_head head inode)))
    | None => Ok (new_inode, None)
    end in
  Ok (set_ctime now (set_head head source), old_inode, new_inode, destination).

Definition rename (old_parent : Z) (old_name : list byte) (new_parent : Z) (new_name : list byte) : plan (Step unit) :=
  let* _ := lift (validate_name_bytes old_name) in
  let* _ := lift (validate_name_bytes new_name) in
  if (old_parent =? new_parent) && bool_decide (old_name = new_name) then return_ (Return tt) else
  let* found := get_dentry old_parent old_name in
  let* source := lift (of_option (NotFound old_parent) found) in
  let* source_inode := inode_or (NotFound (rd_ino source)) (rd_ino source) in
  let* source_kind := lift (file_type_from_code (in_kind source_inode)) in
  let* destination := get_dentry new_parent new_name in
  if match destination with Some entry => rd_ino entry =? rd_ino source | None => false end then return_ (Return tt) else
  let* _ := check_namespace_actor old_parent (Some (rd_ino source)) in
  let* _ := check_namespace_actor new_parent (rd_ino <$> destination) in
  let* below := if bool_decide (source_kind = Dir) then directory_is_descendant_of new_parent (rd_ino source) else return_ false in
  if below then fail InvalidPath else
  let* destination_inode :=
    match destination with
    | Some entry => let* inode := inode_or (NotFound (rd_ino entry)) (rd_ino entry) in return_ (Some inode)
    | None => return_ None
    end in
  let* _ := match destination_inode with Some inode => check_replace source_kind inode | None => return_ tt end in
  let* old_inode := inode_or (ParentNotFound old_parent) old_parent in
  let* new_inode := if old_parent =? new_parent then return_ old_inode else inode_or (ParentNotFound new_parent) new_parent in
  let* new_parent_kind := lift (file_type_from_code (in_kind new_inode)) in
  if negb (bool_decide (new_parent_kind = Dir)) then fail (NotDirectory new_parent) else
  let* now := now_ns in
  let* (source_row, old_row, new_row, destination_row) :=
    lift (rename_counts old_parent new_parent now (bool_decide (source_kind = Dir)) source_inode old_inode new_inode destination_inode) in
  let parents := if old_parent =? new_parent then [new_row] else [old_row; new_row] in
  return_ (Commit (mutation [whiteout head old_parent old_name; put_dentry head new_parent new_name (rd_ino source) (rd_type source)]
                     (source_row :: parents ++ match destination_row with Some row => [row] | None => [] end) [] [] []) tt).

(** The link counts and parents after an exchange. *)
Definition exchange_counts (old_parent new_parent : Z) (left_dir right_dir : bool) (left_inode right_inode old_inode new_inode : InodeDelta) :
    result OverlayError (InodeDelta * InodeDelta * InodeDelta * InodeDelta) :=
  if old_parent =? new_parent then Ok (left_inode, right_inode, old_inode, new_inode) else
  let? (old_inode, new_inode) :=
    if eqb left_dir right_dir then Ok (old_inode, new_inode) else
    if left_dir then
      let? fewer := nlink_dec (in_nlink old_inode) in
      let? more := nlink_inc (in_nlink new_inode) in
      Ok (set_nlink fewer old_inode, set_nlink more new_inode)
    else
      let? fewer := nlink_dec (in_nlink new_inode) in
      let? more := nlink_inc (in_nlink old_inode) in
      Ok (set_nlink more old_inode, set_nlink fewer new_inode) in
  Ok (if left_dir then set_parent_hint (Some new_parent) left_inode else left_inode,
      if right_dir then set_parent_hint (Some old_parent) right_inode else right_inode, old_inode, new_inode).

Definition rename_exchange (old_parent : Z) (old_name : list byte) (new_parent : Z) (new_name : list byte) : plan (Step unit) :=
  let* _ := lift (validate_name_bytes old_name) in
  let* _ := lift (validate_name_bytes new_name) in
  let* found := get_dentry old_parent old_name in
  let* left_entry := lift (of_option (EntryNotFound old_parent old_name) found) in
  let* found := get_dentry new_parent new_name in
  let* right_entry := lift (of_option (EntryNotFound new_parent new_name) found) in
  let* _ := check_namespace_actor old_parent (Some (rd_ino left_entry)) in
  let* _ := check_namespace_actor new_parent (Some (rd_ino right_entry)) in
  if rd_ino left_entry =? rd_ino right_entry then return_ (Return tt) else
  let* kind := lift (file_type_from_code (rd_type left_entry)) in
  let* below := if bool_decide (kind = Dir) then directory_is_descendant_of new_parent (rd_ino left_entry) else return_ false in
  if below then fail InvalidPath else
  let* kind := lift (file_type_from_code (rd_type right_entry)) in
  let* below := if bool_decide (kind = Dir) then directory_is_descendant_of old_parent (rd_ino right_entry) else return_ false in
  if below then fail InvalidPath else
  let* left_inode := inode_or (NotFound (rd_ino left_entry)) (rd_ino left_entry) in
  let* right_inode := inode_or (NotFound (rd_ino right_entry)) (rd_ino right_entry) in
  let* old_inode := inode_or (ParentNotFound old_parent) old_parent in
  let* new_inode := if old_parent =? new_parent then return_ old_inode else inode_or (ParentNotFound new_parent) new_parent in
  let* kind := lift (file_type_from_code (in_kind old_inode)) in
  if negb (bool_decide (kind = Dir)) then fail (NotDirectory (in_ino old_inode)) else
  let* kind := lift (file_type_from_code (in_kind new_inode)) in
  if negb (bool_decide (kind = Dir)) then fail (NotDirectory (in_ino new_inode)) else
  let* left_kind := lift (file_type_from_code (in_kind left_inode)) in
  let* right_kind := lift (file_type_from_code (in_kind right_inode)) in
  let* (left_inode, right_inode, old_inode, new_inode) :=
    lift (exchange_counts old_parent new_parent (bool_decide (left_kind = Dir)) (bool_decide (right_kind = Dir)) left_inode right_inode old_inode new_inode) in
  let* now := now_ns in
  let row inode := set_ctime now (set_head head inode) in
  let inodes := [row left_inode; row right_inode; row (touch now old_inode)] ++ if old_parent =? new_parent then [] else [row (touch now new_inode)] in
  return_ (Commit (mutation [put_dentry head old_parent old_name (rd_ino right_entry) (rd_type right_entry); put_dentry head new_parent new_name (rd_ino left_entry) (rd_type left_entry)] inodes [] [] []) tt).

(** [record_close]: an inode without names goes away with its last handle. *)
Definition close_count (counts : gmap Z Z) (ino : Z) : gmap Z Z * bool :=
  match counts !! ino with
  | Some count => let count := Z.max 0 (count - 1) in if count =? 0 then (delete ino counts, true) else (<[ino := count]> counts, false)
  | None => (counts, false)
  end.
Definition remove_orphan (ino : Z) : plan (Step unit) :=
  let* found := get_inode ino in
  match found with
  | None => return_ (Return tt)
  | Some inode =>
      if negb (in_nlink inode =? 0) then return_ (Return tt) else
      let* now := now_ns in
      mutate_inode (set_ctime now (set_state Deleted inode)) [] (fun _ => tt)
  end.

(** *** File data *)

Definition truncate (ino size requested_chunk_size : Z) : plan (Step unit) :=
  if negb (requested_chunk_size =? chunk_size) then fail Internal else
  let* inode := inode_or (NotFound ino) ino in
  let* kind := lift (file_type_from_code (in_kind inode)) in
  if negb (bool_decide (kind = File)) then fail NotSupported else
  if in_size inode =? size then return_ (Return tt) else
  let* extents := if size <? in_size inode then lift (hole_extents (in_layer inode) ino size (in_size inode)) else return_ [] in
  let* now := now_ns in
  mutate_data (next_version (touch now (set_size size inode))) extents [] (fun _ => tt).

Definition OPEN_RDONLY : Z := 1.
Definition OPEN_WRONLY : Z := 2.
Definition open (ino flags : Z) : plan (Step (result OverlayError FileAttr)) :=
  let* (inode, access, _, control) := get_permissions ino in
  let* _ :=
    match sc_actor scope with
    | Some actor =>
        let bits := Z.land flags 3 in
        let requested := match sc_access_mask scope with
                         | Some mask => mask
                         | None => Z.lor (if negb (Z.land bits OPEN_RDONLY =? 0) then 4 else 0)
                                     (if negb (Z.land bits OPEN_WRONLY =? 0) || flags_contain flags TRUNC then 2 else 0)
                         end in
        let* allowed := allows inode access control (act_uid actor) (act_groups actor) requested in
        if negb allowed then fail (Io EACCES) else return_ tt
    | None => return_ tt
    end in
  let* kind := lift (file_type_from_code (in_kind inode)) in
  if bool_decide (kind = Symlink) then fail NotSupported else
  if flags_contain flags TRUNC then
    if negb (bool_decide (kind = File)) then fail NotSupported else
    let old_size := in_size inode in
    let* now := now_ns in
    let* now' := now_ns in
    let inode := set_times now' now (in_ctime inode) (next_version (set_size 0 inode)) in
    let* extents := lift (hole_extents (in_layer inode) ino 0 old_size) in
    mutate_data inode extents [] file_attr
  else
    let* now := now_ns in
    mutate_inode (set_times now (in_mtime inode) (in_ctime inode) inode) [] file_attr.

(** [apply_hole_range]: the size of the file after it. *)
Definition apply_hole_range (ino offset len : Z) (keep_size : bool) : plan (Step Z) :=
  let* requested_end := lift (of_option InvalidPath (u64_checked_add offset len)) in
  let* inode := inode_or (NotFound ino) ino in
  let* kind := lift (file_type_from_code (in_kind inode)) in
  if negb (bool_decide (kind = File)) then fail NotSupported else
  let range_end := if keep_size then Z.min requested_end (in_size inode) else requested_end in
  if (len =? 0) || (range_end <=? offset) then return_ (Return (in_size inode)) else
  let* extents := lift (hole_extents (in_layer inode) ino offset range_end) in
  let inode := if keep_size then inode else set_size (Z.max (in_size inode) requested_end) inode in
  let* now := now_ns in
  mutate_data (next_version (touch now inode)) extents [] in_size.

Definition validate_write (ino chunk_id : Z) (slice : Slice.SliceDesc) (new_size : Z) : result OverlayError unit :=
  let '(chunk_ino, chunk_index) := ChunkId.extract_ino_and_chunk_index chunk_id in
  if negb (chunk_ino =? ino) || negb (Slice.chunk_id slice =? chunk_id) || (Slice.s_length slice =? 0) then Err InvalidPath else
  let? stop := of_option InvalidPath (u64_checked_add (Slice.s_offset slice) (Slice.s_length slice)) in
  if chunk_size <? stop then Err InvalidPath else
  let? chunk_start := of_option InvalidPath (u64_checked_mul chunk_index chunk_size) in
  let? slice_start := of_option InvalidPath (u64_checked_add chunk_start (Slice.s_offset slice)) in
  if new_size <=? slice_start then Err InvalidPath else Ok tt.

Record PendingWrite := mkPending { pw_ino : Z; pw_chunk_id : Z; pw_slice : Slice.SliceDesc; pw_new_size : Z }.

Definition write_target_inode (ino : Z) : plan InodeDelta :=
  let* inode := inode_or (NotFound ino) ino in
  let* kind := lift (file_type_from_code (in_kind inode)) in
  if negb (bool_decide (kind = File)) then fail NotSupported else return_ inode.

Fixpoint prefetch_loop (inos : list Z) : plan (list (Z * result OverlayError InodeDelta)) :=
  match inos with
  | [] => return_ []
  | ino :: inos =>
      let* inode := plan_try (write_target_inode ino) in
      let* rest := prefetch_loop inos in
      return_ ((ino, inode) :: rest)
  end.
Definition prefetch_write_inodes (batch : list PendingWrite) : plan (list (Z * result OverlayError InodeDelta)) :=
  prefetch_loop (dedup (sort_by_key id (pw_ino <$> batch))).

(** The members whose inode was found, and the answers of the others. *)
Fixpoint split_batch (prefetched : list (Z * result OverlayError InodeDelta)) (batch : list PendingWrite) : list PendingWrite * list (PendingWrite * OverlayError) :=
  match batch with
  | [] => ([], [])
  | member :: batch =>
      let (kept, failed) := split_batch prefetched batch in
      match bt_get (pw_ino member) prefetched with
      | Some (Err e) => (kept, (member, e) :: failed)
      | _ => (member :: kept, failed)
      end
  end.

Definition slice_start (write : PendingWrite) : Z :=
  (ChunkId.extract_ino_and_chunk_index (pw_chunk_id write)).2 * chunk_size + Slice.s_offset (pw_slice write).

Definition write_inode (now : Z) (write : PendingWrite) (inode : InodeDelta) : InodeDelta :=
  next_version (touch now (set_size (Z.max (in_size inode) (pw_new_size write)) inode)).
Definition write_extent (layer : Z) (write : PendingWrite) : DataExtentDelta :=
  let visible_length := Z.min (Slice.s_length (pw_slice write)) (pw_new_size write - slice_start write) in
  data_extent layer (pw_ino write) (ChunkId.extract_ino_and_chunk_index (pw_chunk_id write)).2 (Slice.s_offset (pw_slice write)) visible_length (Slice.slice_id (pw_slice write)) 0.

(** The inode of each member takes its size and times in the order of arrival. *)
Fixpoint fold_writes (now : Z) (inodes : list (Z * InodeDelta)) (batch : list PendingWrite) : list (Z * InodeDelta) :=
  match batch with
  | [] => inodes
  | write :: batch =>
      match bt_get (pw_ino write) inodes with
      | Some inode => fold_writes now (bt_insert Z.ltb (pw_ino write) (write_inode now write inode) inodes) batch
      | None => fold_writes now inodes batch
      end
  end.

(** [commit_write_batch]: one attempt, with the members that fail on their own. *)
Definition commit_write_batch (batch : list PendingWrite) : plan (Step (list (PendingWrite * OverlayError))) :=
  let* prefetched := prefetch_write_inodes batch in
  let (batch, failed) := split_batch prefetched batch in
  match batch with
  | [] => return_ (Return failed)
  | _ :: _ =>
      let inodes := omap (fun '(ino, r) => match r with Ok inode => Some (ino, inode) | Err _ => None end) prefetched in
      let* now := now_ns in
      let rows := (fun kv => set_head head kv.2) <$> fold_writes now inodes batch in
      return_ (Commit (mutation [] rows [] [] (write_extent head <$> batch)) failed)
  end.
End operations.
