(* ===== verification/OverlayTree.v ===== *)
(** The tree of names that a workspace shows: when it is well formed, and that the
    changes the operations make keep it so. *)
From stdpp Require Import infinite options.
From S2P Require Import Prelude MetaTypes Namespace.

#[export] Instance byte_inhabited : Inhabited byte := populate Byte.x00.

Abbreviation Key := (Z * list byte)%type.
Abbreviation Names := (gmap (Z * list byte) (Z * Z)).
Definition DIR : Z := 1.

(** What the tree needs of an inode: its kind, link count and parent hint. *)
Record Node := mkNode { nd_kind : Z; nd_nlink : Z; nd_hint : option Z }.

Definition binds (D : Names) (i : Z) : gset Key := dom (filter (fun kd : Key * (Z * Z) => kd.2.1 = i) D).
Definition links (D : Names) (i : Z) : Z := Z.of_nat (size (binds D i)).
Definition folders (D : Names) (p : Z) : Z := Z.of_nat (size (filter (fun kd : Key * (Z * Z) => kd.1.1 = p /\ kd.2.2 = DIR) D)).

Definition up (N : gmap Z Node) (i : Z) : option Z := nd ← N !! i; if nd_kind nd =? DIR then nd_hint nd else None.

Definition node_ok (D : Names) (i : Z) (nd : Node) : Prop :=
  if nd_kind nd =? DIR
  then nd_nlink nd = 2 + folders D i /\ if decide (i = ROOT) then binds D i = ∅ else exists k, binds D i = {[k]} /\ nd_hint nd = Some k.1
  else i <> ROOT /\ nd_nlink nd = links D i.

Record tree_ok (N : gmap Z Node) (D : Names) : Prop := {
  t_root : exists nd, N !! ROOT = Some nd /\ nd_kind nd = DIR;
  t_node i nd : N !! i = Some nd -> node_ok D i nd;
  t_tree i nd : N !! i = Some nd -> nd_kind nd = DIR -> reaches (up N) i;
  t_entry p n i t : D !! (p, n) = Some (i, t) -> (exists nd, N !! p = Some nd /\ nd_kind nd = DIR) /\ (exists nd, N !! i = Some nd /\ nd_kind nd = t)
}.

(** ** Counts *)

Definition one (b : Prop) `{Decision b} : Z := if decide b then 1 else 0.

Lemma elem_of_binds D i k : k ∈ binds D i <-> exists t, D !! k = Some (i, t).
Proof.
  unfold binds. rewrite elem_of_dom. unfold is_Some. setoid_rewrite map_lookup_filter_Some. cbn. split.
  - intros ([i' t] & ? & <-). eauto.
  - intros [t ?]. exists (i, t). done.
Qed.

Lemma binds_insert D k i t j : D !! k = None -> binds (<[k := (i, t)]> D) j = if decide (i = j) then {[k]} ∪ binds D j else binds D j.
Proof.
  intros Hk. apply set_eq. intros k'. rewrite elem_of_binds. destruct (decide (k' = k)) as [->|Hne].
  - rewrite lookup_insert_eq. case_decide; [split; [set_solver|]; intros _; eexists; by subst|]. rewrite elem_of_binds, Hk. naive_solver.
  - rewrite lookup_insert_ne by done. case_decide; rewrite ?elem_of_union, elem_of_binds; [|done]. rewrite elem_of_singleton. naive_solver.
Qed.

Lemma binds_delete D k j : binds (delete k D) j = binds D j ∖ {[k]}.
Proof.
  apply set_eq. intros k'. rewrite elem_of_difference, !elem_of_binds, elem_of_singleton. destruct (decide (k' = k)) as [->|Hne]; [rewrite lookup_delete_eq; naive_solver|].
  rewrite lookup_delete_ne by done. naive_solver.
Qed.

Lemma links_insert D k i t j : D !! k = None -> links (<[k := (i, t)]> D) j = links D j + one (i = j).
Proof.
  intros Hk. unfold links, one. rewrite binds_insert by done. case_decide; [|lia]. rewrite size_union, size_singleton; [lia|]. apply disjoint_singleton_l. rewrite elem_of_binds, Hk. naive_solver.
Qed.

Lemma links_delete D k i t j : D !! k = Some (i, t) -> links (delete k D) j = links D j - one (i = j).
Proof. intros Hk. rewrite <-(insert_delete_id D k (i, t) Hk) at 2. rewrite links_insert by apply lookup_delete_eq. lia. Qed.

Lemma folders_insert D k i t p : D !! k = None -> folders (<[k := (i, t)]> D) p = folders D p + one (k.1 = p /\ t = DIR).
Proof.
  intros Hk. unfold folders, one. case_decide as Hd.
  - rewrite map_filter_insert_True by done. rewrite map_size_insert_None; [lia|]. rewrite map_lookup_filter_None. by left.
  - rewrite map_filter_insert_False by done. rewrite delete_id by done. lia.
Qed.

Lemma folders_delete D k i t p : D !! k = Some (i, t) -> folders (delete k D) p = folders D p - one (k.1 = p /\ t = DIR).
Proof. intros Hk. rewrite <-(insert_delete_id D k (i, t) Hk) at 2. rewrite folders_insert by apply lookup_delete_eq. lia. Qed.

Lemma folders_none D p : (forall n, D !! (p, n) = None) -> folders D p = 0.
Proof. intros Hn. unfold folders. rewrite map_empty_filter_2; [done|]. intros [p' n] d Hd [Hp _]. cbn in Hp. subst. by rewrite Hn in Hd. Qed.

Lemma binds_none D i : (forall k t, D !! k <> Some (i, t)) -> binds D i = ∅.
Proof. intros Hn. apply elem_of_equiv_empty_L. intros k [t Hk]%elem_of_binds. by apply (Hn k t). Qed.

Lemma links_pos D k i t : D !! k = Some (i, t) -> 0 < links D i.
Proof.
  intros Hk. unfold links. assert (size (binds D i) <> 0%nat); [|lia]. intros E%size_empty_inv. assert (k ∈ binds D i) by (apply elem_of_binds; eauto). set_solver.
Qed.

Lemma links_zero D i : links D i = 0 -> binds D i = ∅.
Proof. unfold links. intros E. apply leibniz_equiv, size_empty_inv. lia. Qed.

(** ** Facts *)

Section facts.
Context (N : gmap Z Node) (D : Names) (ok : tree_ok N D).

Lemma up_dir i nd : N !! i = Some nd -> nd_kind nd = DIR -> up N i = nd_hint nd.
Proof using. intros Hi Hk. unfold up. rewrite Hi. cbn. by rewrite Hk. Qed.

Lemma absent_unbound i : N !! i = None -> binds D i = ∅ /\ forall n, D !! (i, n) = None.
Proof using ok.
  intros Hi. split.
  - apply binds_none. intros [p n] t Hk. destruct (t_entry N D ok _ _ _ _ Hk) as [_ (nd & Hn & _)]. congruence.
  - intros n. destruct (D !! (i, n)) as [[j t]|] eqn:E; [|done]. destruct (t_entry N D ok _ _ _ _ E) as [(nd & Hn & _) _]. congruence.
Qed.

Lemma not_dir_childless i nd : N !! i = Some nd -> nd_kind nd <> DIR -> forall n, D !! (i, n) = None.
Proof using ok. intros Hi Hk n. destruct (D !! (i, n)) as [[j t]|] eqn:E; [|done]. destruct (t_entry N D ok _ _ _ _ E) as [(nd' & Hn & ?) _]. congruence. Qed.

Lemma dir_counts i nd : N !! i = Some nd -> nd_kind nd = DIR -> nd_nlink nd = 2 + folders D i /\ if decide (i = ROOT) then binds D i = ∅ else exists k, binds D i = {[k]} /\ nd_hint nd = Some k.1.
Proof using ok. intros Hi Hk. pose proof (t_node N D ok i nd Hi) as H. unfold node_ok in H. by rewrite Hk in H. Qed.

Lemma file_counts i nd : N !! i = Some nd -> nd_kind nd <> DIR -> i <> ROOT /\ nd_nlink nd = links D i.
Proof using ok. intros Hi Hk. pose proof (t_node N D ok i nd Hi) as H. unfold node_ok in H. destruct (Z.eqb_spec (nd_kind nd) DIR); done. Qed.

Lemma bound_not_root k i t : D !! k = Some (i, t) -> i <> ROOT.
Proof using ok.
  intros Hk ->. destruct (t_root N D ok) as (nd & Hn & Hd). destruct (dir_counts ROOT nd Hn Hd) as [_ H]. rewrite decide_True in H by done.
  assert (k ∈ binds D ROOT) by (apply elem_of_binds; eauto). set_solver.
Qed.

(** A directory has one name, below the parent of its hint. *)
Lemma bound_dir p n i : D !! (p, n) = Some (i, DIR) -> binds D i = {[(p, n)]} /\ up N i = Some p /\ avoids (up N) i p.
Proof using ok.
  intros Hk. destruct (t_entry N D ok _ _ _ _ Hk) as [_ (nd & Hn & Hd)]. pose proof (bound_not_root _ _ _ Hk) as Hr. destruct (dir_counts i nd Hn Hd) as [_ H]. rewrite decide_False in H by done.
  destruct H as (k & Hb & Hh). assert ((p, n) ∈ binds D i) as Hin by (apply elem_of_binds; eauto). rewrite Hb in Hin. apply elem_of_singleton in Hin as <-.
  assert (up N i = Some p) as Hu by (by rewrite (up_dir i nd)). split_and!; [done|done|]. apply parent_avoids; [done|done|]. by apply (t_tree N D ok i nd).
Qed.

Lemma bound_not_parent p n i t : D !! (p, n) = Some (i, t) -> i <> p.
Proof using ok.
  intros Hk ->. destruct (t_entry N D ok _ _ _ _ Hk) as [(nd & Hn & Hd) (nd' & Hn' & <-)]. assert (nd' = nd) as -> by congruence. rewrite Hd in Hk.
  apply bound_dir in Hk as (_ & _ & Ha). by apply avoids_ne in Ha.
Qed.

Lemma recounted D' j nd nd' : N !! j = Some nd -> nd_kind nd' = nd_kind nd ->
  nd_nlink nd' = nd_nlink nd + (if nd_kind nd =? DIR then folders D' j - folders D j else links D' j - links D j) ->
  (nd_kind nd = DIR -> (binds D' j = binds D j /\ nd_hint nd' = nd_hint nd) \/ (j <> ROOT /\ exists k, binds D' j = {[k]} /\ nd_hint nd' = Some k.1)) -> node_ok D' j nd'.
Proof using ok.
  intros Hj Ek En Hd. unfold node_ok. rewrite Ek. destruct (Z.eqb_spec (nd_kind nd) DIR) as [Hk|Hk].
  - destruct (dir_counts j nd Hj Hk) as [H1 H2]. split; [lia|]. case_decide as Hr; [destruct (Hd Hk) as [[-> _]|[? _]]; done|]. destruct (Hd Hk) as [[-> ->]|[_ ?]]; done.
  - destruct (file_counts j nd Hj Hk). split; [done|lia].
Qed.
End facts.

(** Nodes that look the same. *)
Definition same_kind (nd' nd : Node) : Prop := nd_kind nd' = nd_kind nd /\ nd_hint nd' = nd_hint nd.

Lemma reaches_kept N N' i : (forall j nd, N !! j = Some nd -> exists nd', N' !! j = Some nd' /\ same_kind nd' nd) -> reaches (up N) i -> reaches (up N') i.
Proof.
  intros Hs. apply reaches_mono. intros j q _. unfold up. destruct (N !! j) as [nd|] eqn:E; [|done]. destruct (Hs j nd E) as (nd' & -> & Hk & Hh). cbn. by rewrite Hk, Hh.
Qed.

Lemma entry_kept N (N' : gmap Z Node) D p n i t : tree_ok N D -> (forall j nd, N !! j = Some nd -> exists nd', N' !! j = Some nd' /\ nd_kind nd' = nd_kind nd) ->
  D !! (p, n) = Some (i, t) -> (exists nd, N' !! p = Some nd /\ nd_kind nd = DIR) /\ (exists nd, N' !! i = Some nd /\ nd_kind nd = t).
Proof.
  intros ok Hs Hk. destruct (t_entry N D ok _ _ _ _ Hk) as [(a & Ha & Hka) (b & Hb & Hkb)]. destruct (Hs p a Ha) as (a' & ? & ?), (Hs i b Hb) as (b' & ? & ?).
  split; [exists a'|exists b']; split; congruence.
Qed.

(** ** Creation *)

Section create.
Context (N : gmap Z Node) (D : Names) (ok : tree_ok N D) (p : Z) (n : list byte) (i k : Z) (pd : Node).
Context (Hp : N !! p = Some pd) (Hpd : nd_kind pd = DIR) (Hfree : D !! (p, n) = None) (Hnew : N !! i = None).
Definition created : Node := mkNode k (if decide (k = DIR) then 2 else 1) (Some p).
Definition counted : Node := mkNode (nd_kind pd) (nd_nlink pd + one (k = DIR)) (nd_hint pd).

Lemma create_ok : tree_ok (<[i := created]> (<[p := counted]> N)) (<[(p, n) := (i, k)]> D).
Proof using ok Hp Hpd Hfree Hnew.
  destruct (absent_unbound N D ok i Hnew) as [Hb Hc]. assert (i <> p) as Hip by congruence.
  assert (i <> ROOT) as Hir by (destruct (t_root N D ok) as (r & Hr & _); congruence).
  assert (forall j nd, N !! j = Some nd -> exists nd', <[i := created]> (<[p := counted]> N) !! j = Some nd' /\ same_kind nd' nd) as Hs.
  { intros j nd Hj. rewrite lookup_insert_ne by congruence. destruct (decide (j = p)) as [->|]; [rewrite lookup_insert_eq|rewrite lookup_insert_ne by done]; eexists; (split; [done|]); simplify_eq; done. }
  assert (reaches (up N) p) as Hrp by (by apply (t_tree N D ok p pd)). assert (reaches (up (<[i := created]> (<[p := counted]> N))) p) as Hrp' by (by eapply reaches_kept). split.
  - destruct (t_root N D ok) as (r & Hr & Hk). destruct (Hs _ _ Hr) as (r' & ? & ? & _). exists r'. split; congruence.
  - intros j nd. destruct (decide (j = i)) as [->|Hji]; [rewrite lookup_insert_eq; intros [= <-]|rewrite lookup_insert_ne by done].
    + unfold node_ok. cbn. rewrite folders_insert, links_insert, binds_insert, Hb by done. rewrite (folders_none D i Hc). unfold links. rewrite Hb. unfold one. rewrite size_empty.
      destruct (Z.eqb_spec k DIR) as [Hk|Hk]; [rewrite (decide_True (P := k = DIR)) by done|rewrite (decide_False (P := k = DIR)) by done].
      * rewrite !(decide_False (P := p = i /\ _)) by (intros [? _]; congruence). rewrite (decide_False (P := i = ROOT)), (decide_True (P := i = i)) by done. split; [lia|]. exists (p, n). split; [set_solver|done].
      * rewrite (decide_True (P := i = i)) by done. split; [done|lia].
    + destruct (decide (j = p)) as [->|Hjp]; [rewrite lookup_insert_eq; intros [= <-]; rename Hp into Hj|rewrite lookup_insert_ne by done; intros Hj];
        (eapply (recounted N D ok _ _ _ _ Hj); [done|..]).
      * rewrite Hpd. change (DIR =? DIR) with true. cbn. rewrite folders_insert by done. unfold one. cbn. destruct (decide (k = DIR)); [rewrite decide_True by done|rewrite decide_False by tauto]; lia.
      * intros _. left. rewrite binds_insert by done. rewrite decide_False by done. done.
      * rewrite folders_insert, links_insert by done. unfold one. cbn. rewrite (decide_False (P := p = j /\ _)) by (intros [? _]; congruence). rewrite (decide_False (P := i = j)) by done. destruct (_ =? _); lia.
      * intros _. left. rewrite binds_insert by done. rewrite decide_False by done. done.
  - intros j nd Hj Hk. destruct (decide (j = i)) as [->|Hji]; [|rewrite lookup_insert_ne in Hj by done; destruct (decide (j = p)) as [->|Hjp]; [done|]].
    + rewrite lookup_insert_eq in Hj. simplify_eq. cbn in Hk. destruct Hrp' as [d Hd]. exists (S d). apply (depth_step _ _ _ p); [done| |done]. unfold up. rewrite lookup_insert_eq. cbn. by rewrite Hk.
    + rewrite lookup_insert_ne in Hj by done. eapply reaches_kept; [done|]. by apply (t_tree N D ok j nd).
  - intros p' n' i' t Hk. destruct (decide ((p', n') = (p, n))) as [[= -> ->]|Hne].
    + rewrite lookup_insert_eq in Hk. simplify_eq. destruct (Hs p pd Hp) as (pd' & ? & ? & _). split; [exists pd'; split; congruence|]. exists created. by rewrite lookup_insert_eq.
    + rewrite lookup_insert_ne in Hk by done. eapply entry_kept; [exact ok| |exact Hk]. intros j nd Hj. destruct (Hs j nd Hj) as (nd' & ? & ? & _). eauto.
Qed.
End create.

(** ** Changes that move no directory *)

Section counts.
Context (N N' : gmap Z Node) (D D' : Names) (ok : tree_ok N D).
Context (Hnode : forall j nd', N' !! j = Some nd' -> exists nd, N !! j = Some nd /\ same_kind nd' nd /\
  nd_nlink nd' = nd_nlink nd + (if nd_kind nd =? DIR then folders D' j - folders D j else links D' j - links D j) /\ (nd_kind nd = DIR -> binds D' j = binds D j)).
Context (Hroot : is_Some (N' !! ROOT)) (Hup : forall j n i, D !! (j, n) = Some (i, DIR) -> is_Some (N' !! i) -> is_Some (N' !! j)).
Context (Hentry : forall p n i t, D' !! (p, n) = Some (i, t) -> (exists nd, N' !! p = Some nd /\ nd_kind nd = DIR) /\ (exists nd, N' !! i = Some nd /\ nd_kind nd = t)).

Lemma climb_kept d j : depth (up N) d j -> is_Some (N' !! j) -> (exists nd, N !! j = Some nd /\ nd_kind nd = DIR) -> reaches (up N') j.
Proof using All.
  induction 1 as [|d j q Hj Hq _ IH]; intros [nd' Hn'] (nd & Hn & Hk); [apply reaches_root|]. destruct (Hnode j nd' Hn') as (nd0 & Hn0 & [Hk' Hh] & _). assert (nd0 = nd) as -> by congruence.
  destruct (dir_counts N D ok j nd Hn Hk) as [_ Hb]. rewrite decide_False in Hb by done. destruct Hb as ([q' n] & Hb & Hq'). rewrite (up_dir N j nd Hn Hk) in Hq. rewrite Hq in Hq'. injection Hq' as <-.
  assert ((q, n) ∈ binds D j) as [t Ht]%elem_of_binds by (rewrite Hb; by apply elem_of_singleton). destruct (t_entry N D ok _ _ _ _ Ht) as [Hqd (nd1 & Hn1 & Ht1)]. assert (nd1 = nd) as -> by congruence. rewrite <-Ht1, Hk in Ht.
  destruct (IH (Hup _ _ _ Ht ltac:(by rewrite Hn')) Hqd) as [e He]. exists (S e). apply (depth_step _ _ _ q); [done| |done]. rewrite (up_dir N' j nd'); [by rewrite Hh|done|by rewrite Hk'].
Qed.

Lemma counts_ok : tree_ok N' D'.
Proof using All.
  split.
  - destruct Hroot as [r' Hr']. exists r'. split; [done|]. destruct (Hnode _ _ Hr') as (r & Hr & [-> _] & _). destruct (t_root N D ok) as (r0 & ? & ?). congruence.
  - intros j nd' Hj. destruct (Hnode j nd' Hj) as (nd & Hn & [Hk Hh] & Hc & Hb). apply (recounted N D ok D' j nd nd'); auto.
  - intros j nd' Hj Hk. destruct (Hnode j nd' Hj) as (nd & Hn & [Hk' _] & _). destruct (t_tree N D ok j nd Hn) as [d Hd]; [congruence|]. apply (climb_kept d j Hd); [by rewrite Hj|]. exists nd. split; congruence.
  - exact Hentry.
Qed.
End counts.

(** A new name of a file. *)
Lemma link_ok N D p n i nd pd : tree_ok N D -> N !! p = Some pd -> nd_kind pd = DIR -> D !! (p, n) = None -> N !! i = Some nd -> nd_kind nd <> DIR ->
  tree_ok (<[i := mkNode (nd_kind nd) (nd_nlink nd + 1) (nd_hint nd)]> N) (<[(p, n) := (i, nd_kind nd)]> D).
Proof.
  intros ok Hp Hpd Hfree Hi Hk. set (nd1 := mkNode _ _ _).
  assert (forall j nd, N !! j = Some nd -> exists nd', <[i := nd1]> N !! j = Some nd' /\ nd_kind nd' = nd_kind nd) as Hs.
  { intros j nd0 Hj. destruct (decide (j = i)) as [->|]; [rewrite lookup_insert_eq; simplify_eq|rewrite lookup_insert_ne by done]; eauto. }
  apply (counts_ok N _ D); [done| | | |].
  - intros j nd' Hj. rewrite folders_insert, links_insert, binds_insert by done. unfold one. cbn. destruct (decide (i = j)) as [->|Hne].
    + rewrite lookup_insert_eq in Hj. simplify_eq. exists nd. split_and!; [done|done| |done]. cbn. rewrite (proj2 (Z.eqb_neq (nd_kind nd) DIR)) by done. lia.
    + rewrite lookup_insert_ne in Hj by done. exists nd'. split_and!; [done|done| |done]. rewrite decide_False by tauto. destruct (_ =? _); lia.
  - destruct (t_root N D ok) as (r & Hr & _). destruct (Hs _ _ Hr) as (? & -> & _). done.
  - intros j m x Hx _. destruct (t_entry N D ok _ _ _ _ Hx) as [(a & Ha & _) _]. destruct (Hs _ _ Ha) as (? & -> & _). done.
  - intros p' n' i' t Hx. destruct (decide ((p', n') = (p, n))) as [[= -> ->]|Hne].
    + rewrite lookup_insert_eq in Hx. simplify_eq. destruct (Hs p pd Hp) as (pd' & ? & ?). split; [exists pd'; split; congruence|]. exists nd1. by rewrite lookup_insert_eq.
    + rewrite lookup_insert_ne in Hx by done. by eapply entry_kept.
Qed.

(** A name of a file goes; without names the file may go as well. *)
Lemma unlink_ok N D p n i nd (gone : bool) : tree_ok N D -> D !! (p, n) = Some (i, nd_kind nd) -> N !! i = Some nd -> nd_kind nd <> DIR -> (gone = true -> nd_nlink nd = 1) ->
  tree_ok (if gone then delete i N else <[i := mkNode (nd_kind nd) (nd_nlink nd - 1) (nd_hint nd)]> N) (delete (p, n) D).
Proof.
  intros ok Hx Hi Hk Hg. set (nd1 := mkNode _ _ _). set (N' := if gone then _ else _). destruct (file_counts N D ok i nd Hi Hk) as [Hr Hl].
  assert (forall j, j <> i -> N' !! j = N !! j) as Hs by (intros j Hj; unfold N'; destruct gone; [by rewrite lookup_delete_ne|by rewrite lookup_insert_ne]).
  assert (forall j nd, N !! j = Some nd -> nd_kind nd = DIR -> N' !! j = Some nd) as Hd by (intros j nd' Hj Hd; rewrite Hs; [done|congruence]).
  apply (counts_ok N _ D); [done| | | |].
  - intros j nd' Hj. rewrite (folders_delete _ _ _ _ _ Hx), (links_delete _ _ _ _ _ Hx), binds_delete. unfold one. cbn. rewrite (decide_False (P := p = j /\ _)) by tauto. destruct (decide (i = j)) as [->|Hne].
    + exists nd. assert (nd' = nd1) as -> by (unfold N' in Hj; destruct gone; [by rewrite lookup_delete_eq in Hj|rewrite lookup_insert_eq in Hj; congruence]).
      split_and!; [done|done| |done]. cbn. rewrite (proj2 (Z.eqb_neq (nd_kind nd) DIR)) by done. lia.
    + rewrite Hs in Hj by done. exists nd'. split_and!; [done|done|destruct (_ =? _); lia|]. intros _. apply difference_disjoint_L, disjoint_singleton_r. rewrite elem_of_binds, Hx. intros [t [= ? _]]. done.
  - destruct (t_root N D ok) as (r & Hr' & Hd'). rewrite (Hd _ _ Hr' Hd'). done.
  - intros j m x Hx' _. destruct (t_entry N D ok _ _ _ _ Hx') as [(a & Ha & Hda) _]. by rewrite (Hd _ _ Ha Hda).
  - intros p' n' i' t [Hne Hx']%lookup_delete_Some. destruct (t_entry N D ok _ _ _ _ Hx') as [(a & Ha & Hda) (b & Hb & Hdb)]. split; [exists a; auto|].
    destruct (decide (i' = i)) as [->|]; [|exists b; rewrite Hs; done]. exists nd1. assert (b = nd) as -> by congruence. split; [|done]. unfold N'. destruct gone; [|apply lookup_insert_eq]. exfalso.
    specialize (Hg eq_refl). rewrite Hl in Hg. unfold links in Hg. assert (size (binds D i) = 1%nat) as [y Hy]%size_1_elem_of by lia.
    assert ((p, n) ∈ binds D i) as H1 by (apply elem_of_binds; by exists (nd_kind nd)). assert ((p', n') ∈ binds D i) as H2 by (apply elem_of_binds; by exists t).
    rewrite Hy, elem_of_singleton in H1, H2. apply Hne. congruence.
Qed.

(** An empty directory goes. *)
Lemma rmdir_ok N D p n i nd pd : tree_ok N D -> D !! (p, n) = Some (i, DIR) -> N !! i = Some nd -> N !! p = Some pd -> (forall m, D !! (i, m) = None) ->
  tree_ok (delete i (<[p := mkNode (nd_kind pd) (nd_nlink pd - 1) (nd_hint pd)]> N)) (delete (p, n) D).
Proof.
  intros ok Hx Hi Hp He. set (pd1 := mkNode _ _ _). set (N' := delete i _). pose proof (bound_not_parent N D ok _ _ _ _ Hx) as Hip. pose proof (bound_not_root N D ok _ _ _ Hx) as Hir.
  destruct (bound_dir N D ok _ _ _ Hx) as (Hb & _ & _). destruct (t_entry N D ok _ _ _ _ Hx) as [(pd0 & Hp0 & Hpd) (nd0 & Hi0 & Hnd)]. assert (pd0 = pd) as -> by congruence. assert (nd0 = nd) as -> by congruence.
  assert (forall j nd, N !! j = Some nd -> j <> i -> exists nd', N' !! j = Some nd' /\ nd_kind nd' = nd_kind nd) as Hs.
  { intros j nd' Hj Hne. unfold N'. rewrite lookup_delete_ne by done. destruct (decide (j = p)) as [->|]; [rewrite lookup_insert_eq; simplify_eq|rewrite lookup_insert_ne by done]; eauto. }
  apply (counts_ok N _ D); [done| | | |].
  - intros j nd' [Hne Hj]%lookup_delete_Some. rewrite (folders_delete _ _ _ _ _ Hx), (links_delete _ _ _ _ _ Hx), binds_delete. unfold one. cbn.
    assert (binds D j ∖ {[(p, n)]} = binds D j) as -> by (apply difference_disjoint_L, disjoint_singleton_r; rewrite elem_of_binds, Hx; intros [t [= ? _]]; done). rewrite (decide_False (P := i = j)) by done.
    destruct (decide (p = j)) as [->|Hpj].
    + rewrite lookup_insert_eq in Hj. simplify_eq. exists pd. rewrite decide_True, Hpd by done. change (DIR =? DIR) with true. cbn. split_and!; [done|done|lia|done].
    + rewrite lookup_insert_ne in Hj by done. exists nd'. rewrite decide_False by tauto. split_and!; [done|done|destruct (_ =? _); lia|done].
  - destruct (t_root N D ok) as (r & Hr' & _). destruct (Hs _ _ Hr') as (? & -> & _); done.
  - intros j m x Hx' Hxs. destruct (t_entry N D ok _ _ _ _ Hx') as [(a & Ha & _) _]. destruct (Hs j a Ha) as (? & -> & _); [|done]. intros ->. by rewrite He in Hx'.
  - intros p' n' i' t [Hne Hx']%lookup_delete_Some. destruct (t_entry N D ok _ _ _ _ Hx') as [(a & Ha & Hda) (b & Hb' & Hdb)].
    destruct (Hs p' a Ha) as (a' & ? & ?); [intros ->; by rewrite He in Hx'|]. destruct (Hs i' b Hb') as (b' & ? & ?); [|split; [exists a'|exists b']; split; congruence].
    intros ->. assert ((p', n') ∈ binds D i) as Hin by (apply elem_of_binds; eauto). rewrite Hb in Hin. apply elem_of_singleton in Hin. congruence.
Qed.

(** A file without names goes. *)
Lemma forget_ok N D i nd : tree_ok N D -> N !! i = Some nd -> nd_nlink nd = 0 -> tree_ok (delete i N) D.
Proof.
  intros ok Hi Hl. assert (nd_kind nd <> DIR) as Hk by (intros Hk; destruct (dir_counts N D ok i nd Hi Hk) as [E _]; unfold folders in E; lia). destruct (file_counts N D ok i nd Hi Hk) as [Hr E].
  assert (binds D i = ∅) as Hb by (apply links_zero; lia). assert (forall j nd, N !! j = Some nd -> nd_kind nd = DIR -> delete i N !! j = Some nd) as Hd by (intros j nd' Hj Hd; rewrite lookup_delete_ne; [done|congruence]).
  apply (counts_ok N _ D); [done| | | |].
  - intros j nd' [_ Hj]%lookup_delete_Some. exists nd'. split_and!; [done|done|destruct (_ =? _); lia|done].
  - destruct (t_root N D ok) as (r & Hr' & Hd'). by rewrite (Hd _ _ Hr' Hd').
  - intros j m x Hx' _. destruct (t_entry N D ok _ _ _ _ Hx') as [(a & Ha & Hda) _]. by rewrite (Hd _ _ Ha Hda).
  - intros p' n' i' t Hx. destruct (t_entry N D ok _ _ _ _ Hx) as [(a & Ha & Hda) (b & Hb' & Hdb)]. split; [exists a; auto|]. exists b. split; [|done]. rewrite lookup_delete_ne; [done|].
    intros <-. assert ((p', n') ∈ binds D i) as Hin by (apply elem_of_binds; eauto). set_solver.
Qed.

(** ** Moves *)

Section move.
Context (N N' : gmap Z Node) (D : Names) (ok : tree_ok N D) (p1 : Z) (n1 : list byte) (p2 : Z) (n2 : list byte) (i t : Z) (pd : Node).
Context (Hx : D !! (p1, n1) = Some (i, t)) (Hfree : D !! (p2, n2) = None) (Hp2 : N !! p2 = Some pd) (Hpd : nd_kind pd = DIR) (Hout : t = DIR -> avoids (up N) i p2).

Definition moved (j : Z) (nd : Node) : Node :=
  mkNode (nd_kind nd) (nd_nlink nd + (if decide (t = DIR) then one (j = p2) - one (j = p1) else 0)) (if decide (j = i /\ t = DIR) then Some p2 else nd_hint nd).
Context (Hmoved : forall j, N' !! j = moved j <$> N !! j).
Abbreviation D' := (<[(p2, n2) := (i, t)]> (delete (p1, n1) D)).

Lemma moved_free : delete (p1, n1) D !! (p2, n2) = None.
Proof using Hfree. apply lookup_delete_None. by right. Qed.

Lemma moved_binds j : binds D' j = if decide (i = j) then {[(p2, n2)]} ∪ (binds D j ∖ {[(p1, n1)]}) else binds D j.
Proof using Hx Hfree.
  rewrite binds_insert by apply moved_free. rewrite binds_delete. case_decide; [done|]. apply difference_disjoint_L, disjoint_singleton_r. rewrite elem_of_binds, Hx. intros [t' [= ? _]]. done.
Qed.

Lemma moved_up j : up N' j = if decide (j = i /\ t = DIR) then Some p2 else up N j.
Proof using ok Hx Hmoved.
  unfold up. rewrite Hmoved. destruct (t_entry N D ok _ _ _ _ Hx) as [_ (nd & Hn & Hk)]. destruct (N !! j) as [nd'|] eqn:E; cbn.
  - case_decide as H; [|done]. destruct H as [-> Ht]. assert (nd' = nd) as -> by congruence. by rewrite Hk, Ht.
  - rewrite decide_False; [done|]. intros [-> _]. congruence.
Qed.

Lemma move_ok : tree_ok N' D'.
Proof using All.
  destruct (t_entry N D ok _ _ _ _ Hx) as [(q1 & Hq1 & Hqd) (nd & Hn & Hk)]. split.
  - destruct (t_root N D ok) as (r & Hr & Hrk). exists (moved ROOT r). by rewrite Hmoved, Hr.
  - intros j nd' Hj. rewrite Hmoved in Hj. destruct (N !! j) as [nd0|] eqn:E; [|done]. injection Hj as <-. apply (recounted N D ok _ j nd0); [done|done| |].
    + rewrite folders_insert, links_insert by apply moved_free. rewrite (folders_delete _ _ _ _ _ Hx), (links_delete _ _ _ _ _ Hx). cbn [moved nd_nlink fst]. unfold one.
      destruct (Z.eqb_spec (nd_kind nd0) DIR) as [Hd|Hd].
      * destruct (decide (t = DIR)); repeat case_decide; subst; try lia; try naive_solver.
      * assert (j <> p1 /\ j <> p2) as [Hj1 Hj2] by (split; intros ->; congruence). rewrite !(decide_False (P := j = _)) by done. destruct (decide (t = DIR)); repeat case_decide; lia.
    + intros Hd. rewrite moved_binds. cbn [moved nd_hint]. destruct (decide (i = j)) as [<-|Hij]; [|left; split; [done|]; rewrite decide_False by (intros [? _]; congruence); done].
      assert (nd0 = nd) as -> by congruence. assert (t = DIR) as Ht by congruence. rewrite decide_True by done. right. split; [by apply (bound_not_root N D ok (p1, n1) i t)|].
      exists (p2, n2). split; [|done]. destruct (bound_dir N D ok p1 n1 i) as (-> & _); [by rewrite <-Ht|]. apply set_eq. intros k. rewrite elem_of_union, elem_of_difference, !elem_of_singleton. tauto.
  - intros j nd' Hj Hd. rewrite Hmoved in Hj. destruct (N !! j) as [nd0|] eqn:E; [|done]. injection Hj as <-. apply (reaches_moved (up N) _ i i).
    + intros x Hxi _. rewrite moved_up, decide_False; [done|]. intros [? _]. done.
    + intros y Hy [q Hq]. assert (y = i) as -> by tauto. assert (t = DIR) as Ht. { unfold up in Hq. rewrite Hn in Hq. cbn in Hq. destruct (Z.eqb_spec (nd_kind nd) DIR); congruence. }
      exists p2. rewrite moved_up, decide_True by done. auto.
    + by apply (t_tree N D ok j nd0).
  - intros p' n' i' t' Hx'. assert (forall j nd, N !! j = Some nd -> exists nd', N' !! j = Some nd' /\ nd_kind nd' = nd_kind nd) as Hs by (intros j nd0 Hj; rewrite Hmoved, Hj; eexists; split; [done|done]).
    destruct (decide ((p', n') = (p2, n2))) as [[= -> ->]|Hne].
    + rewrite lookup_insert_eq in Hx'. injection Hx' as <- <-. destruct (Hs _ _ Hp2) as (a & ? & ?), (Hs _ _ Hn) as (b & ? & ?). split; [exists a|exists b]; split; congruence.
    + rewrite lookup_insert_ne in Hx' by done. apply lookup_delete_Some in Hx' as [_ Hx']. by eapply entry_kept.
Qed.
End move.

(** Changing the parent of a node that a climb does not meet. *)
Lemma avoids_changed pm pm' x i p : (forall y, y <> x -> pm' y = pm y) -> avoids pm i p -> avoids pm x p -> avoids pm' i p.
Proof.
  intros Hext. induction 1 as [|p q Hp Hr Hq _ IH]; intros Hx; [by constructor|]. inversion Hx as [|p' q' Hp' Hr' Hq' Hx']; subst; [done|].
  assert (q' = q) as -> by congruence. apply (avoids_step _ _ _ q); [done|done| |by apply IH]. by rewrite Hext.
Qed.

(** A move onto a name that is taken: what has it goes first. *)
Section replace.
Context (N N' : gmap Z Node) (D : Names) (ok : tree_ok N D) (p1 : Z) (n1 : list byte) (p2 : Z) (n2 : list byte) (i t d : Z) (pd nd : Node) (gone : bool).
Context (Hx : D !! (p1, n1) = Some (i, t)) (Hd : D !! (p2, n2) = Some (d, nd_kind nd)) (Hp2 : N !! p2 = Some pd) (Hn : N !! d = Some nd) (Hdi : d <> i) (Hout : t = DIR -> avoids (up N) i p2).
Context (Hempty : nd_kind nd = DIR -> forall m, D !! (d, m) = None) (Hgone : gone = true -> nd_nlink nd = 1).

Definition without : gmap Z Node :=
  if decide (nd_kind nd = DIR) then delete d (<[p2 := mkNode (nd_kind pd) (nd_nlink pd - 1) (nd_hint pd)]> N)
  else if gone then delete d N else <[d := mkNode (nd_kind nd) (nd_nlink nd - 1) (nd_hint nd)]> N.

Lemma without_ok : tree_ok without (delete (p2, n2) D).
Proof using ok Hd Hp2 Hn Hempty Hgone.
  unfold without. case_decide as Hk; [|by apply unlink_ok]. apply (rmdir_ok N D p2 n2 d nd pd); auto. by rewrite <-Hk.
Qed.

Lemma without_up y : y <> d -> up without y = up N y.
Proof using Hp2 Hgone.
  intros Hy. unfold up, without. case_decide; [rewrite lookup_delete_ne by done|destruct gone; [by rewrite lookup_delete_ne|by rewrite lookup_insert_ne]].
  destruct (decide (p2 = y)) as [<-|]; [|by rewrite lookup_insert_ne]. by rewrite lookup_insert_eq, Hp2.
Qed.

Lemma replace_ok : (forall j, N' !! j = moved p1 p2 i t j <$> without !! j) -> tree_ok N' (<[(p2, n2) := (i, t)]> (delete (p1, n1) D)).
Proof using ok Hx Hd Hp2 Hn Hdi Hout Hempty Hgone.
  intros Hm. destruct (t_entry N D ok _ _ _ _ Hd) as [(pd0 & Hp0 & Hpd) _]. assert (pd0 = pd) as -> by congruence. assert (d <> p2) as Hdp by (by apply (bound_not_parent N D ok p2 n2 d (nd_kind nd))).
  assert ((p1, n1) <> (p2, n2)) as Hne by congruence. assert (avoids (up N) d p2) as Hda.
  { destruct (decide (nd_kind nd = DIR)) as [Hk|Hk]; [rewrite Hk in Hd; by apply (bound_dir N D ok p2 n2 d)|]. apply avoids_non_dir; [|by apply (bound_not_root N D ok (p2, n2) d (nd_kind nd))|by apply (t_tree N D ok p2 pd)].
    unfold up. rewrite Hn. cbn. by rewrite (proj2 (Z.eqb_neq (nd_kind nd) DIR)). }
  assert (exists pd', without !! p2 = Some pd' /\ nd_kind pd' = DIR) as (pd' & Hp' & Hk').
  { unfold without. case_decide; [rewrite lookup_delete_ne, lookup_insert_eq by done; by eexists|destruct gone; [rewrite lookup_delete_ne by done|rewrite lookup_insert_ne by done]; by exists pd]. }
  pose proof (move_ok without N' _ without_ok p1 n1 p2 n2 i t pd') as Hmove. rewrite lookup_delete_ne, lookup_delete_eq in Hmove by done.
  replace (<[(p2, n2) := (i, t)]> (delete (p1, n1) D)) with (<[(p2, n2) := (i, t)]> (delete (p1, n1) (delete (p2, n2) D))).
  - apply Hmove; try done. intros Ht. apply (avoids_changed (up N) _ d); [by apply without_up|auto|done].
  - apply map_eq. intros k. destruct (decide (k = (p2, n2))) as [->|Hk]; [by rewrite !lookup_insert_eq|]. rewrite !(lookup_insert_ne _ (p2, n2) k) by done.
    destruct (decide (k = (p1, n1))) as [->|]; [by rewrite !lookup_delete_eq|]. by rewrite !lookup_delete_ne.
Qed.
End replace.

Section swap.
Context (N N' : gmap Z Node) (D : Names) (ok : tree_ok N D) (p1 : Z) (n1 : list byte) (p2 : Z) (n2 : list byte) (i1 t1 i2 t2 : Z).
Context (Hx1 : D !! (p1, n1) = Some (i1, t1)) (Hx2 : D !! (p2, n2) = Some (i2, t2)) (Hne : i1 <> i2).
Context (Hout1 : t1 = DIR -> avoids (up N) i1 p2) (Hout2 : t2 = DIR -> avoids (up N) i2 p1).

Definition swapped (j : Z) (nd : Node) : Node :=
  mkNode (nd_kind nd) (nd_nlink nd + (one (t1 = DIR) - one (t2 = DIR)) * (one (j = p2) - one (j = p1)))
    (if decide (j = i1 /\ t1 = DIR) then Some p2 else if decide (j = i2 /\ t2 = DIR) then Some p1 else nd_hint nd).
Context (Hswapped : forall j, N' !! j = swapped j <$> N !! j).

(** Through a name that nothing has. *)
Lemma swap_ok : tree_ok N' (<[(p2, n2) := (i1, t1)]> (<[(p1, n1) := (i2, t2)]> D)).
Proof using All.
  destruct (exist_fresh (set_map snd (dom D) : gset (list byte))) as [tmp Htmp]. assert (forall p, D !! (p, tmp) = None) as Hfree.
  { intros p. apply not_elem_of_dom. intros Hin. apply Htmp, elem_of_map. by exists (p, tmp). }
  assert (tmp <> n1 /\ tmp <> n2) as [Ht1 Ht2] by (split; intros ->; [specialize (Hfree p1)|specialize (Hfree p2)]; congruence).
  destruct (t_entry N D ok _ _ _ _ Hx1) as [(q1 & Hq1 & Hqd1) (nd1 & Hn1 & Hk1)]. destruct (t_entry N D ok _ _ _ _ Hx2) as [(q2 & Hq2 & Hqd2) (nd2 & Hn2 & Hk2)].
  assert ((p1, n1) <> (p2, n2)) as Hkk by congruence.
  set (N1 := map_imap (fun j nd => Some (moved p1 p1 i1 t1 j nd)) N). set (D1 := <[(p1, tmp) := (i1, t1)]> (delete (p1, n1) D)).
  assert (forall j, N1 !! j = moved p1 p1 i1 t1 j <$> N !! j) as L1 by (intros j; unfold N1; rewrite map_lookup_imap; by destruct (N !! j)).
  assert (tree_ok N1 D1) as ok1.
  { apply (move_ok N N1 D ok p1 n1 p1 tmp i1 t1 q1); [done|apply Hfree|done|done| |done]. intros ->. by apply (bound_dir N D ok p1 n1 i1). }
  assert (forall j, up N1 j = up N j) as U1.
  { intros j. rewrite (moved_up N N1 D ok p1 n1 p1 i1 t1 Hx1 L1). case_decide as H; [|done]. destruct H as [-> ->]. symmetry. by apply (bound_dir N D ok p1 n1 i1). }
  assert (D1 !! (p2, n2) = Some (i2, t2)) as Hx2' by (unfold D1; rewrite lookup_insert_ne, lookup_delete_ne by congruence; done).
  assert (D1 !! (p1, n1) = None) as Hf1 by (unfold D1; rewrite lookup_insert_ne by congruence; apply lookup_delete_eq).
  set (N2 := map_imap (fun j nd => Some (moved p2 p1 i2 t2 j nd)) N1). set (D2 := <[(p1, n1) := (i2, t2)]> (delete (p2, n2) D1)).
  assert (forall j, N2 !! j = moved p2 p1 i2 t2 j <$> N1 !! j) as L2 by (intros j; unfold N2; rewrite map_lookup_imap; by destruct (N1 !! j)).
  assert (forall x y, avoids (up N) x y -> avoids (up N1) x y) as A1 by (intros x y; induction 1; econstructor; try done; by rewrite U1).
  assert (tree_ok N2 D2) as ok2.
  { apply (move_ok N1 N2 D1 ok1 p2 n2 p1 n1 i2 t2 (moved p1 p1 i1 t1 p1 q1)); [done|done|by rewrite L1, Hq1|done| |done]. auto. }
  assert (forall x, x <> i2 -> up N2 x = up N x) as U2.
  { intros x Hx. rewrite (moved_up N1 N2 D1 ok1 p2 n2 p1 i2 t2 Hx2' L2), decide_False by (intros [? _]; done). apply U1. }
  assert (D2 !! (p1, tmp) = Some (i1, t1)) as Hx1' by (unfold D2, D1; rewrite lookup_insert_ne, lookup_delete_ne, lookup_insert_eq by congruence; done).
  assert (D2 !! (p2, n2) = None) as Hf2 by (unfold D2; rewrite lookup_insert_ne by done; apply lookup_delete_eq).
  assert (t1 = DIR -> avoids (up N2) i1 p2) as Hout1'.
  { intros Ht. assert (avoids (up N) i2 p2) as Hi2.
    { destruct (decide (t2 = DIR)) as [->|Ht2']; [by apply (bound_dir N D ok p2 n2 i2)|]. apply avoids_non_dir; [|by apply (bound_not_root N D ok (p2, n2) i2 t2)|by apply (t_tree N D ok p2 q2)].
      unfold up. rewrite Hn2. cbn. by rewrite (proj2 (Z.eqb_neq (nd_kind nd2) DIR)) by congruence. }
    by apply (avoids_changed (up N) (up N2) i2); [|apply Hout1|]. }
  assert (tree_ok N' (<[(p2, n2) := (i1, t1)]> (delete (p1, tmp) D2))) as ok3.
  { apply (move_ok N2 N' D2 ok2 p1 tmp p2 n2 i1 t1 (moved p2 p1 i2 t2 p2 (moved p1 p1 i1 t1 p2 q2))); [done|done|by rewrite L2, L1, Hq2|done|done|].
    intros j. rewrite Hswapped, L2, L1. destruct (N !! j) as [nd|] eqn:E; [|done]. cbn. f_equal. unfold swapped, moved, one. cbn. f_equal.
    - repeat case_decide; lia.
    - destruct (decide (t1 = DIR)), (decide (t2 = DIR)); repeat case_decide; naive_solver. }
  replace (<[(p2, n2) := (i1, t1)]> (<[(p1, n1) := (i2, t2)]> D)) with (<[(p2, n2) := (i1, t1)]> (delete (p1, tmp) D2)); [done|].
  apply map_eq. intros k. unfold D2, D1. destruct (decide (k = (p2, n2))) as [->|Hk]; [by rewrite !lookup_insert_eq|]. rewrite !(lookup_insert_ne _ (p2, n2) k) by done.
  destruct (decide (k = (p1, tmp))) as [->|Hkt]; [rewrite lookup_delete_eq, lookup_insert_ne by congruence; symmetry; apply Hfree|]. rewrite lookup_delete_ne by done.
  destruct (decide (k = (p1, n1))) as [->|Hk1']; [by rewrite !lookup_insert_eq|]. rewrite !(lookup_insert_ne _ (p1, n1) k) by done. rewrite lookup_delete_ne by done. rewrite lookup_insert_ne, lookup_delete_ne by done. done.
Qed.
End swap.
