(* ===== verification/OverlayState.v ===== *)
(** What a workspace shows, as finite maps: its inodes, names and extended
    attributes, how a mutation changes them and what the reads of an operation
    find in them. *)
From stdpp Require Import options.
From S2P Require Import Prelude Acl MetaTypes Layers LayerExtents LayerCompact LayerHistory LayerNames Access Overlay OverlayCommits OverlayView OverlayPlan OverlayOps OverlayTree.

(** ** Rows of a layer *)

Section slice.
Context {K K' R : Type} `{Countable K, Countable K'} (f : K -> option K') (g : K' -> K) (f_g : forall k k', f k = Some k' <-> k = g k').

Definition slice_of (m : gmap K R) : gmap K' R := list_to_map (omap (fun kr => (fun k' => (k', kr.2)) <$> f kr.1) (map_to_list m)).

Lemma slice_elem (m : gmap K R) k' r : (k', r) ∈ omap (fun kr => (fun k' => (k', kr.2)) <$> f kr.1) (map_to_list m) <-> m !! g k' = Some r.
Proof using f_g.
  rewrite list_elem_of_omap. split.
  - intros ([k r'] & Hin%elem_of_map_to_list & Hf). cbn in Hf. destruct (f k) as [k''|] eqn:E; [|done]. cbn in Hf. simplify_eq. apply f_g in E as ->. done.
  - intros Hm. exists (g k', r). split; [by apply elem_of_map_to_list|]. cbn. by rewrite (proj2 (f_g (g k') k') eq_refl).
Qed.

Lemma lookup_slice (m : gmap K R) k' : slice_of m !! k' = m !! g k'.
Proof using f_g.
  unfold slice_of. assert (forall r, list_to_map (M := gmap K' R) (omap (fun kr => (fun k' => (k', kr.2)) <$> f kr.1) (map_to_list m)) !! k' = Some r <-> m !! g k' = Some r) as Hr.
  { intros r. rewrite <-slice_elem. symmetry. apply elem_of_list_to_map. pose proof (NoDup_map_to_list m) as Hn.
    assert (forall l : list (K * R), NoDup l -> (forall kr, kr ∈ l -> m !! kr.1 = Some kr.2) -> NoDup (omap (fun kr => (fun k' => (k', kr.2)) <$> f kr.1) l).*1) as Hd; [|apply Hd; [done|]; intros [k r'] Hin%elem_of_map_to_list; done].
    induction l as [|[k r'] l IH]; intros Hnl Hl; [constructor|]. apply NoDup_cons in Hnl as [Hno Hnl]. cbn [omap list_omap fst]. specialize (IH Hnl ltac:(intros kr Hkr; apply Hl; by right)).
    destruct (f k) as [k''|] eqn:E; cbn; [|done]. apply NoDup_cons. split; [|done]. intros ([k1 r1] & Ek & Hin)%list_elem_of_fmap. cbn in Ek. subst k1.
    apply list_elem_of_omap in Hin as ([k2 r2] & Hin & E2). cbn in E2. destruct (f k2) as [k3|] eqn:E3; [|done]. cbn in E2. simplify_eq. apply f_g in E as ->. apply f_g in E3 as ->.
    pose proof (Hl _ ltac:(by left)) as L1. pose proof (Hl _ ltac:(right; exact Hin)) as L2. cbn in L1, L2. apply Hno. congruence. }
  apply option_eq. exact Hr.
Qed.
End slice.

(** Two layers, the rows of the upper one first; a row may hide what is below. *)
Definition overlay {K R V} `{Countable K} (visible : R -> option V) (top bottom : gmap K R) : gmap K V := omap visible (top ∪ bottom).

Definition put_visible {K V} `{Countable K} (k : K) (v : option V) (m : gmap K V) : gmap K V := match v with Some v => <[k := v]> m | None => delete k m end.

Lemma lookup_overlay {K R V} `{Countable K} (visible : R -> option V) (top bottom : gmap K R) k :
  overlay visible top bottom !! k = match top !! k with Some r => visible r | None => bottom !! k ≫= visible end.
Proof. unfold overlay. rewrite lookup_omap, lookup_union. by destruct (top !! k), (bottom !! k). Qed.

Lemma lookup_put_visible {K V} `{Countable K} (k : K) (v : option V) (m : gmap K V) k' : put_visible k v m !! k' = if decide (k' = k) then v else m !! k'.
Proof.
  unfold put_visible. destruct v as [v|]; (destruct (decide (k' = k)) as [->|]; [try apply lookup_insert_eq; apply lookup_delete_eq|]); [by rewrite lookup_insert_ne|by rewrite lookup_delete_ne].
Qed.

Lemma overlay_put {K R V} `{Countable K} (visible : R -> option V) (top bottom : gmap K R) k r :
  overlay visible (<[k := r]> top) bottom = put_visible k (visible r) (overlay visible top bottom).
Proof.
  apply map_eq. intros k'. rewrite lookup_put_visible, !lookup_overlay. destruct (decide (k' = k)) as [->|]; [by rewrite lookup_insert_eq|by rewrite lookup_insert_ne].
Qed.

(** ** The view of a workspace *)

(** An inode row without its place in the layers. *)
Definition strip (r : InodeDelta) : InodeDelta := set_head 0 r.
Definition visible_inode (r : InodeDelta) : option InodeDelta := match in_state r with Present => Some (strip r) | Deleted => None end.
Definition entry_of (r : DentryDelta) : option (Z * Z) := match de_op r, de_ino r, de_type r with DPut, Some i, Some t => Some (i, t) | _, _, _ => None end.

Definition inode_in (layer : Z) (k : Z * Z) : option Z := if k.1 =? layer then Some k.2 else None.
Definition name_in (layer : Z) (k : Z * Z * list byte) : option (Z * list byte) := if k.1.1 =? layer then Some (k.1.2, k.2) else None.

Definition inodes_of (s : Store) (head base : Z) : gmap Z InodeDelta := overlay visible_inode (slice_of (inode_in head) (s_inodes s)) (slice_of (inode_in base) (s_inodes s)).
Definition names_of (s : Store) (head base : Z) : Names := overlay entry_of (slice_of (name_in head) (s_dentries s)) (slice_of (name_in base) (s_dentries s)).
Definition xattrs_of (s : Store) (head base : Z) : gmap (Z * list byte) (list byte) := overlay xa_value (slice_of (name_in head) (s_xattrs s)) (slice_of (name_in base) (s_xattrs s)).

Lemma inode_in_spec layer k ino : inode_in layer k = Some ino <-> k = (layer, ino).
Proof. unfold inode_in. destruct k as [l i]. cbn. destruct (Z.eqb_spec l layer); split; congruence. Qed.

Lemma name_in_spec layer k kn : name_in layer k = Some kn <-> k = (layer, kn.1, kn.2).
Proof. unfold name_in. destruct k as [[l i] n], kn as [i' n']. cbn. destruct (Z.eqb_spec l layer); split; congruence. Qed.

Section of_store.
Context (s : Store) (head base : Z).

Lemma lookup_inodes ino : inodes_of s head base !! ino = match s_inodes s !! (head, ino) with Some r => visible_inode r | None => s_inodes s !! (base, ino) ≫= visible_inode end.
Proof using. unfold inodes_of. rewrite lookup_overlay. by rewrite !(lookup_slice _ (fun i => (_, i)) (inode_in_spec _)). Qed.

Lemma lookup_names p n : names_of s head base !! (p, n) = match s_dentries s !! (head, p, n) with Some r => entry_of r | None => s_dentries s !! (base, p, n) ≫= entry_of end.
Proof using. unfold names_of. rewrite lookup_overlay. by rewrite !(lookup_slice _ (fun kn => (_, kn.1, kn.2)) (name_in_spec _)). Qed.

Lemma lookup_xattrs i n : xattrs_of s head base !! (i, n) = match s_xattrs s !! (head, i, n) with Some r => xa_value r | None => s_xattrs s !! (base, i, n) ≫= xa_value end.
Proof using. unfold xattrs_of. rewrite lookup_overlay. by rewrite !(lookup_slice _ (fun kn => (_, kn.1, kn.2)) (name_in_spec _)). Qed.
End of_store.

(** *** What a mutation does to it *)

Definition put_inode (I : gmap Z InodeDelta) (r : InodeDelta) : gmap Z InodeDelta := put_visible (in_ino r) (visible_inode r) I.
Definition put_name (D : Names) (r : DentryDelta) : Names := put_visible (de_parent r, de_name r) (entry_of r) D.
Definition put_xattr (X : gmap (Z * list byte) (list byte)) (r : XattrDelta) : gmap (Z * list byte) (list byte) := put_visible (xa_ino r, xa_name r) (xa_value r) X.

(** A table that only the rows of the head change. *)
Lemma overlay_rows {K K' R V} `{Countable K, Countable K'} (fh fb : K -> option K') (gh gb : K' -> K) (visible : R -> option V) (key : R -> K) (key' : R -> K') rows :
  (forall k k', fh k = Some k' <-> k = gh k') -> (forall k k', fb k = Some k' <-> k = gb k') -> (forall k k', gh k <> gb k') -> (forall r, r ∈ rows -> key r = gh (key' r)) -> forall m,
  overlay visible (slice_of fh (put_rows key m rows)) (slice_of fb (put_rows key m rows)) =
  foldl (fun M r => put_visible (key' r) (visible r) M) (overlay visible (slice_of fh m) (slice_of fb m)) rows.
Proof.
  intros Hh Hb Hne. unfold put_rows. induction rows as [|r rows IH]; intros Hk m; [done|]. cbn [foldl]. rewrite IH by (intros r' ?; apply Hk; by right). f_equal. rewrite <-overlay_put.
  pose proof (Hk r ltac:(by left)) as Er. apply map_eq. intros k. rewrite !lookup_overlay. rewrite (lookup_slice fh gh Hh), (lookup_slice fb gb Hb). rewrite Er.
  rewrite (lookup_insert_ne _ _ (gb k)) by apply Hne. rewrite (lookup_slice fb gb Hb). destruct (decide (key' r = k)) as [->|Hkk]; [by rewrite !lookup_insert_eq|].
  rewrite lookup_insert_ne; [|intros E; apply Hkk; pose proof (proj2 (Hh (gh (key' r)) (key' r)) eq_refl) as E1; pose proof (proj2 (Hh (gh k) k) eq_refl) as E2; congruence].
  rewrite (lookup_insert_ne _ (key' r)) by done. by rewrite (lookup_slice fh gh Hh).
Qed.

Lemma foldl_number {R M} (step : M -> R -> M) (stamp : Z -> R -> R) rows : (forall M q r, step M (stamp q r) = step M r) -> forall q M, foldl step M (number stamp q rows) = foldl step M rows.
Proof. intros Hs. induction rows as [|r rows IH]; intros q M0; [done|]. cbn [number foldl]. by rewrite Hs, IH. Qed.

(** Whatever the packet is applied to. *)
Section effect.
Context (m : VersionedMutation) (now : Z) (s : Store) (p : Packet) (Hp : prepare m now s = Ok p).
Abbreviation head := (layer_id (m_head m)).
Abbreviation base := (layer_id (m_base m)).

Lemma effect_inodes t : inodes_of (apply_packet p t) head base = foldl put_inode (inodes_of t head base) (m_inodes m).
Proof using Hp.
  destruct (packet_chains m now s p Hp) as (_ & _ & _ & Hne & E). rewrite E in Hne. destruct (packet_layer m now s p Hp) as (L & _ & _ & _). unfold inodes_of. cbn [s_inodes apply_packet].
  rewrite (overlay_rows _ _ (fun i => (head, i)) (fun i => (base, i)) _ _ in_ino); [|apply inode_in_spec|apply inode_in_spec|congruence|].
  - rewrite (st_inodes _ _ _ (packet_stamped m now s p Hp)). by apply foldl_number.
  - intros r Hr. unfold inode_key. by rewrite (L r Hr).
Qed.

Lemma effect_names t : names_of (apply_packet p t) head base = foldl put_name (names_of t head base) (m_dentries m).
Proof using Hp.
  destruct (packet_chains m now s p Hp) as (_ & _ & _ & Hne & E). rewrite E in Hne. destruct (packet_layer m now s p Hp) as (_ & L & _ & _). unfold names_of. cbn [s_dentries apply_packet].
  rewrite (overlay_rows _ _ (fun k => (head, k.1, k.2)) (fun k => (base, k.1, k.2)) _ _ (fun r => (de_parent r, de_name r))); [|apply name_in_spec|apply name_in_spec|congruence|].
  - rewrite (st_dentries _ _ _ (packet_stamped m now s p Hp)). by apply foldl_number.
  - intros r Hr. unfold dentry_key. by rewrite (L r Hr).
Qed.

Lemma effect_xattrs t : xattrs_of (apply_packet p t) head base = foldl put_xattr (xattrs_of t head base) (m_xattrs m).
Proof using Hp.
  destruct (packet_chains m now s p Hp) as (_ & _ & _ & Hne & E). rewrite E in Hne. destruct (packet_layer m now s p Hp) as (_ & _ & L & _). unfold xattrs_of. cbn [s_xattrs apply_packet].
  rewrite (overlay_rows _ _ (fun k => (head, k.1, k.2)) (fun k => (base, k.1, k.2)) _ _ (fun r => (xa_ino r, xa_name r))); [|apply name_in_spec|apply name_in_spec|congruence|].
  - rewrite (st_xattrs _ _ _ (packet_stamped m now s p Hp)). by apply foldl_number.
  - intros r Hr. unfold xattr_key. by rewrite (L r Hr).
Qed.
End effect.

(** *** What the reads find *)

Record rows_valid (s : Store) (head base : Z) : Prop := {
  rv_keyed : store_keyed s;
  rv_dentries layer p n r : layer = head \/ layer = base -> s_dentries s !! (layer, p, n) = Some r -> dentry_validate r = Ok tt;
  rv_xattrs layer i n r : layer = head \/ layer = base -> s_xattrs s !! (layer, i, n) = Some r -> value_matches (xa_op r) (xa_value r) = true
}.

Lemma entry_materialize r : dentry_validate r = Ok tt ->
  (exists d, materialize r = Ok (RPresent d) /\ entry_of r = Some (rd_ino d, rd_type d)) \/ (materialize r = Ok RMasked /\ entry_of r = None).
Proof.
  unfold dentry_validate, materialize, entry_of. case_bool_decide; [done|]. destruct (de_op r), (de_ino r) as [i|], (de_type r) as [t|]; cbn; try done; intros _; [left|by right]. eexists. split; [done|done].
Qed.

Lemma value_resolved op value : value_matches op value = true -> exists r, resolve_value op value = Ok r /\ into_option r = value.
Proof. unfold value_matches, resolve_value. destruct op, value; try done; intros _; eexists; split; done. Qed.

(** A row found under its key, among the rows of a snapshot. *)
Lemma checked_row_ok {K R} `{EqDecision K} (key : R -> K) k o rows : checked_row key k o = Ok rows -> rows = option_list o /\ forall r, o = Some r -> key r = k.
Proof. unfold checked_row. destruct o as [r|]; [case_bool_decide; [|done]|]; intros [= <-]; split; try done. by intros r' [= <-]. Qed.

Lemma filter_option {R} (P : R -> Prop) `{!forall r, Decision (P r)} (o : option R) (b : bool) : (forall r, o = Some r -> P r <-> b = true) -> filter P (option_list o) = if b then option_list o else [].
Proof. intros Ho. destruct o as [r|]; [|by destruct b]. change (option_list (Some r)) with [r]. specialize (Ho r eq_refl). rewrite filter_cons, filter_nil. case_decide as Hp; destruct b; try done; [by apply Ho in Hp|]. exfalso. by apply Hp, Ho. Qed.

Section reads.
Context (H B : LayerRecord) (s : Store).
Abbreviation chain := [H; B].
Abbreviation head := (layer_id H).
Abbreviation base := (layer_id B).
Context (chain_ok : check_chain chain = Ok tt) (s_fine : rows_valid s head base).

Lemma read_inode ino : exists o, resolve_inode_delta chain s ino = Ok o /\ strip <$> o = inodes_of s head base !! ino /\ forall r, o = Some r -> in_ino r = ino /\ in_state r = Present.
Proof using chain_ok s_fine.
  unfold resolve_inode_delta. fold (values (s_inodes s)). rewrite (stored_inode chain s (rv_keyed _ _ _ s_fine)), chain_ok. cbn [result_bind first_winner]. rewrite lookup_inodes. unfold visible_inode.
  assert (forall layer r, s_inodes s !! (layer, ino) = Some r -> in_ino r = ino) as Hk by (intros layer r E; by injection (sk_inodes _ (rv_keyed _ _ _ s_fine) _ _ E)).
  destruct (s_inodes s !! (head, ino)) as [r|] eqn:E1; cbn [result_bind].
  { destruct (in_state r) eqn:Es; cbn; eexists; (split; [done|]); (split; [done|]); intros r' [= <-]; eauto. }
  destruct (s_inodes s !! (base, ino)) as [r|] eqn:E2; cbn; [destruct (in_state r) eqn:Es; cbn|]; eexists; (split; [done|]); (split; [done|]); intros r' [= <-]; eauto.
Qed.

Lemma read_dentry p n : exists o, resolve_dentry_entry chain s p n = Ok o /\ (fun d => (rd_ino d, rd_type d)) <$> o = names_of s head base !! (p, n).
Proof using chain_ok s_fine.
  unfold resolve_dentry_entry. fold (values (s_dentries s)). rewrite (stored_dentry chain s (rv_keyed _ _ _ s_fine)), chain_ok. cbn [result_bind first_winner]. rewrite lookup_names.
  assert (forall layer r, layer = head \/ layer = base -> s_dentries s !! (layer, p, n) = Some r -> dentry_validate r = Ok tt) as Hv by (intros layer r; apply (rv_dentries _ _ _ s_fine)).
  destruct (s_dentries s !! (head, p, n)) as [r|] eqn:E1.
  { pose proof (Hv head r ltac:(by left) E1) as Hr. change (option_list (Some r)) with [r]. cbn [newest_loop]. rewrite Hr. cbn [result_bind]. destruct (entry_materialize r Hr) as [(d & -> & ->)|[-> ->]]; cbn; eexists; split; done. }
  change (option_list None) with (@nil DentryDelta). cbn [newest_loop result_bind]. destruct (s_dentries s !! (base, p, n)) as [r|] eqn:E2; cbn [mbind option_bind].
  { pose proof (Hv base r ltac:(by right) E2) as Hr. change (option_list (Some r)) with [r]. cbn [newest_loop]. rewrite Hr. cbn [result_bind]. destruct (entry_materialize r Hr) as [(d & -> & ->)|[-> ->]]; cbn; eexists; split; done. }
  eexists. split; done.
Qed.

Lemma read_xattr i n : xattr_value chain s i n = Ok (xattrs_of s head base !! (i, n)).
Proof using chain_ok s_fine.
  unfold xattr_value. fold (values (s_xattrs s)). rewrite (stored_xattr chain s (rv_keyed _ _ _ s_fine)), chain_ok. cbn [result_bind first_winner]. rewrite lookup_xattrs.
  destruct (s_xattrs s !! (head, i, n)) as [r|] eqn:E1; cbn [result_bind].
  { destruct (value_resolved _ _ (rv_xattrs _ _ _ s_fine head i n r ltac:(by left) E1)) as (v & -> & Ev). cbn. by rewrite Ev. }
  destruct (s_xattrs s !! (base, i, n)) as [r|] eqn:E2; cbn [result_bind mbind option_bind]; [|done].
  destruct (value_resolved _ _ (rv_xattrs _ _ _ s_fine base i n r ltac:(by right) E2)) as (v & -> & Ev). cbn. by rewrite Ev.
Qed.

Lemma read_directory i : exists out, directory_entries chain s i = Ok out /\ (out = [] <-> forall n, names_of s head base !! (i, n) = None).
Proof using chain_ok s_fine.
  unfold directory_entries. fold (values (s_dentries s)). destruct (directory_lists_lookups (values (s_dentries s)) chain i chain_ok) as [Hok Hlist].
  assert (is_Ok (resolve_directory chain (values (s_dentries s)) i) = true) as Hi.
  { apply Hok. intros d Hd Hl _. apply (elem_of_values dentry_key) in Hd; [|apply sk_dentries, (rv_keyed _ _ _ s_fine)]. apply (rv_dentries _ _ _ s_fine (de_layer d) (de_parent d) (de_name d)); [|done].
    apply list_elem_of_fmap in Hl as (layer & -> & Hin). apply elem_of_cons in Hin as [->|Hin]; [by left|]. apply list_elem_of_singleton in Hin as ->. by right. }
  destruct (resolve_directory _ _ _) as [out|] eqn:E; [|done]. exists out. split; [done|]. destruct (Hlist out eq_refl) as [_ Hl].
  assert (forall n, (fun d => (rd_ino d, rd_type d)) <$> List.find (fun e => bool_decide (rd_name e = n)) out = names_of s head base !! (i, n)) as Hn.
  { intros n. destruct (read_dentry i n) as (o & Ho & <-). unfold resolve_dentry_entry in Ho. fold (values (s_dentries s)) in Ho. rewrite Hl in Ho. by injection Ho as <-. }
  split.
  - intros -> n. by rewrite <-Hn.
  - intros Hnone. destruct out as [|e out]; [done|]. specialize (Hn (rd_name e)). rewrite Hnone in Hn. cbn [List.find] in Hn. by rewrite bool_decide_true in Hn.
Qed.

Lemma snapshot_inode L M rows1 rows2 ino : layer_id L = head -> layer_id M = base -> head <> base -> check_chain [L; M] = Ok tt ->
  checked_row inode_key (head, ino) (s_inodes s !! (head, ino)) = Ok rows1 -> checked_row inode_key (base, ino) (s_inodes s !! (base, ino)) = Ok rows2 ->
  resolve_inode [L; M] (rows1 ++ rows2) ino = resolve_inode chain (values (s_inodes s)) ino.
Proof using chain_ok s_fine.
  intros EL EM Hne Hc (-> & K1)%checked_row_ok (-> & K2)%checked_row_ok. rewrite (stored_inode chain s (rv_keyed _ _ _ s_fine)), chain_ok. unfold resolve_inode, resolve_inode_state. rewrite Hc. cbn [result_bind first_winner]. rewrite EL, EM, !filter_app.
  rewrite (filter_option (fun d => in_layer d = head /\ _) (s_inodes s !! (head, ino)) true), (filter_option (fun d => in_layer d = head /\ _) (s_inodes s !! (base, ino)) false),
    (filter_option (fun d => in_layer d = base /\ _) (s_inodes s !! (head, ino)) false), (filter_option (fun d => in_layer d = base /\ _) (s_inodes s !! (base, ino)) true).
  - rewrite app_nil_r. cbn [app]. by destruct (s_inodes s !! (head, ino)), (s_inodes s !! (base, ino)).
  - intros r Er. injection (K2 r Er) as -> ->. done.
  - intros r Er. injection (K1 r Er) as -> ->. split; [by intros [? _]|done].
  - intros r Er. injection (K2 r Er) as -> ->. split; [by intros [? _]|done].
  - intros r Er. injection (K1 r Er) as -> ->. done.
Qed.

(** The three rows of a layer under the names of the lists. *)
Lemma snapshot_xattrs_ok layer ino rows : snapshot_xattrs s layer ino = Ok rows ->
  forall L name, name ∈ [ACCESS_XATTR; DEFAULT_XATTR; CONTROL_XATTR] ->
  filter (fun d => xa_layer d = L /\ xa_ino d = ino /\ xa_name d = name) rows = if decide (L = layer) then option_list (s_xattrs s !! (layer, ino, name)) else [].
Proof using.
  unfold snapshot_xattrs. destruct (checked_row _ _ (s_xattrs s !! (layer, ino, ACCESS_XATTR))) as [a|] eqn:E1; cbn [result_bind]; [|done]. destruct (checked_row _ _ (s_xattrs s !! (layer, ino, DEFAULT_XATTR))) as [d|] eqn:E2; cbn [result_bind]; [|done].
  destruct (checked_row _ _ (s_xattrs s !! (layer, ino, CONTROL_XATTR))) as [c|] eqn:E3; cbn [result_bind]; [|done]. intros [= <-].
  apply checked_row_ok in E1 as [-> K1]. apply checked_row_ok in E2 as [-> K2]. apply checked_row_ok in E3 as [-> K3]. intros L name Hn. rewrite !filter_app.
  assert (forall nm (o := s_xattrs s !! (layer, ino, nm)), (forall r, o = Some r -> xattr_key r = (layer, ino, nm)) ->
    filter (fun d => xa_layer d = L /\ xa_ino d = ino /\ xa_name d = name) (option_list o) = if bool_decide (L = layer /\ nm = name) then option_list o else []) as Hf.
  { intros nm o K. apply filter_option. intros r Er. injection (K r Er) as -> -> ->. rewrite bool_decide_eq_true. split; [by intros (-> & _ & ->)|by intros [-> ->]]. }
  rewrite (Hf _ K1), (Hf _ K2), (Hf _ K3). destruct (decide (L = layer)) as [->|HL]; [|by rewrite !bool_decide_false by (intros [? _]; done)].
  assert (ACCESS_XATTR <> DEFAULT_XATTR /\ ACCESS_XATTR <> CONTROL_XATTR /\ DEFAULT_XATTR <> CONTROL_XATTR) as (N1 & N2 & N3) by (vm_compute; done).
  rewrite !elem_of_cons, elem_of_nil in Hn. destruct Hn as [->|[->|[->|[]]]].
  - rewrite (bool_decide_true (layer = layer /\ _)), !bool_decide_false by (done || intros [_ ?]; congruence). by rewrite !app_nil_r.
  - rewrite (bool_decide_false (_ /\ ACCESS_XATTR = _)), bool_decide_true, bool_decide_false by (done || intros [_ ?]; congruence). by rewrite app_nil_r.
  - rewrite (bool_decide_false (_ /\ ACCESS_XATTR = _)), (bool_decide_false (_ /\ DEFAULT_XATTR = _)), bool_decide_true by (done || intros [_ ?]; congruence). done.
Qed.

Lemma snapshot_xattr L M rows1 rows2 ino name : layer_id L = head -> layer_id M = base -> head <> base -> check_chain [L; M] = Ok tt -> name ∈ [ACCESS_XATTR; DEFAULT_XATTR; CONTROL_XATTR] ->
  snapshot_xattrs s head ino = Ok rows1 -> snapshot_xattrs s base ino = Ok rows2 -> resolve_xattr [L; M] (rows1 ++ rows2) ino name = Ok (xattrs_of s head base !! (ino, name)).
Proof using chain_ok s_fine.
  intros EL EM Hne Hc Hn H1 H2. pose proof (read_xattr ino name) as Hx. unfold xattr_value in Hx. fold (values (s_xattrs s)) in Hx. rewrite (stored_xattr chain s (rv_keyed _ _ _ s_fine)), chain_ok in Hx. cbn [result_bind] in Hx.
  unfold resolve_xattr, resolve_xattr_state. rewrite Hc. cbn [result_bind first_winner] in Hx |- *. rewrite EL, EM, !filter_app.
  rewrite (snapshot_xattrs_ok head ino rows1 H1 head name Hn), (snapshot_xattrs_ok base ino rows2 H2 head name Hn), (snapshot_xattrs_ok head ino rows1 H1 base name Hn), (snapshot_xattrs_ok base ino rows2 H2 base name Hn).
  rewrite (decide_True (P := head = head)), (decide_True (P := base = base)), (decide_False (P := head = base)), (decide_False (P := base = head)) by congruence. rewrite app_nil_r. cbn [app].
  destruct (s_xattrs s !! (head, ino, name)) as [r1|], (s_xattrs s !! (base, ino, name)) as [r2|]; cbn in Hx |- *; [..|congruence];
    (destruct (resolve_value _ _); cbn in Hx |- *; [congruence|done]).
Qed.

Lemma read_permissions expected ino inode access default control : permission_inode chain s expected ino = Ok (inode, access, default, control) ->
  (s_layers s !! head = Some expected.1 /\ s_layers s !! base = Some expected.2) /\
  (inodes_of s head base !! ino = Some (strip inode) /\ in_ino inode = ino /\ in_state inode = Present) /\
  access = xattrs_of s head base !! (ino, ACCESS_XATTR) /\ default = xattrs_of s head base !! (ino, DEFAULT_XATTR) /\ control = xattrs_of s head base !! (ino, CONTROL_XATTR).
Proof using chain_ok s_fine.
  unfold permission_inode, permission_snapshot, read_permission_snapshot. destruct (Z.leb_spec ino 0); cbn [orb]; [done|]. destruct (Z.eqb_spec head base) as [|Hne]; [done|].
  destruct (s_layers s !! head) as [L|]; cbn [of_option result_bind]; [|done]. destruct (s_layers s !! base) as [M|]; cbn [of_option result_bind]; [|done].
  unfold validate_permission_layers. destruct (validate_layer_chain [L; M] (layer_id L)) as [[]|] eqn:Hc; cbn [result_bind]; [|done]. destruct (fixed_pair L M); [|done]. cbn [result_bind].
  destruct (Z.eqb_spec (layer_id L) head) as [EL|]; cbn [negb orb]; [|done]. destruct (Z.eqb_spec (layer_id M) base) as [EM|]; cbn [negb]; [|done].
  destruct (checked_row _ _ (s_inodes s !! (head, ino))) as [r1|] eqn:R1; cbn [result_bind]; [|done]. destruct (snapshot_xattrs s head ino) as [x1|] eqn:X1; cbn [result_bind]; [|done].
  destruct (checked_row _ _ (s_inodes s !! (base, ino))) as [r2|] eqn:R2; cbn [result_bind]; [|done]. destruct (snapshot_xattrs s base ino) as [x2|] eqn:X2; cbn [result_bind map_err ps_head ps_base]; [|done].
  case_bool_decide as Hx; cbn [negb]; [|done]. subst expected. unfold decode_permission_inode. cbn [ps_head ps_base ps_inodes ps_xattrs].
  assert (check_chain [L; M] = Ok tt) as Hc' by exact Hc. rewrite (snapshot_inode L M r1 r2 ino EL EM Hne Hc' R1 R2). destruct (read_inode ino) as (o & Ho & Hs & Hi). unfold resolve_inode_delta in Ho. fold (values (s_inodes s)) in Ho.
  rewrite Ho. cbn [result_bind]. destruct o as [r|]; cbn [of_option result_bind]; [|done]. destruct (Hi r eq_refl) as [Hino Hst].
  rewrite (snapshot_xattr L M x1 x2 ino ACCESS_XATTR EL EM Hne Hc' ltac:(left) X1 X2), (snapshot_xattr L M x1 x2 ino DEFAULT_XATTR EL EM Hne Hc' ltac:(right; left) X1 X2),
    (snapshot_xattr L M x1 x2 ino CONTROL_XATTR EL EM Hne Hc' ltac:(right; right; left) X1 X2). cbn [map_err result_bind].
  destruct (match xattrs_of s head base !! (ino, ACCESS_XATTR) with Some _ => _ | None => _ end) as [[]|]; cbn [result_bind]; [|done]. intros [= <- <- <- <-]. cbn in Hs. split_and!; done.
Qed.
End reads.
