(* ===== verification/OverlaySteps.v ===== *)
(** What an attempt of a workspace operation can end with, when all that it reads
    is one view of the workspace, and that the mutations which change no name keep
    a view well formed. *)
From stdpp Require Import options.
From S2P Require Import Prelude Span Slices Acl MetaTypes Namespace Layers LayerExtents LayerCompact LayerHistory LayerNames Access Overlay OverlayCommits OverlayView OverlayPlan OverlayOps OverlayTree OverlayState.

(** ** Views *)

Record View := mkView { v_inodes : gmap Z InodeDelta; v_names : Names; v_xattrs : gmap (Z * list byte) (list byte) }.
Definition view_of (s : Store) (head base : Z) : View := mkView (inodes_of s head base) (names_of s head base) (xattrs_of s head base).
Definition apply_mutation (V : View) (m : VersionedMutation) : View :=
  mkView (foldl put_inode (v_inodes V) (m_inodes m)) (foldl put_name (v_names V) (m_dentries m)) (foldl put_xattr (v_xattrs V) (m_xattrs m)).

Definition node_of (r : InodeDelta) : Node := mkNode (in_kind r) (in_nlink r) (in_parent_hint r).

(** The lists of an inode: they decode, the permission bits of its mode are those of
    the access list, and only a directory has a default list. *)
Record lists_ok (X : gmap (Z * list byte) (list byte)) (i : Z) (r : InodeDelta) : Prop := {
  lo_access bytes : X !! (i, ACCESS_XATTR) = Some bytes -> in_kind r <> 2 /\ exists acl, PosixAcl.decode bytes = Ok acl /\ PosixAcl.mode_bits acl = Z.land (in_mode r) 511;
  lo_default bytes : X !! (i, DEFAULT_XATTR) = Some bytes -> in_kind r = DIR /\ exists acl, PosixAcl.decode bytes = Ok acl
}.

Record well_formed (V : View) : Prop := {
  wf_tree : tree_ok (node_of <$> v_inodes V) (v_names V);
  wf_inode i r : v_inodes V !! i = Some r -> in_ino r = i /\ in_state r = Present /\ 0 <= in_kind r <= 6;
  wf_lists i r : v_inodes V !! i = Some r -> lists_ok (v_xattrs V) i r
}.

(** An id that nothing of the view has. *)
Definition fresh (V : View) (i : Z) : Prop := v_inodes V !! i = None /\ forall n, v_xattrs V !! (i, n) = None.

(** ** What a plan can end with *)

Section wp.
Context (V : View) (new : Z -> Prop).

(** Every answer that [p] can end with satisfies [Q]; the ids it allocates are
    [new]. *)
Fixpoint wp {A} (p : plan A) (Q : A -> Prop) : Prop :=
  match p with
  | Done (Ok a) => Q a
  | Done (Err _) => True
  | ReadInode ino k => forall o, strip <$> o = v_inodes V !! ino -> (forall r, o = Some r -> in_ino r = ino /\ in_state r = Present) -> wp (k (Ok o)) Q
  | ReadDentry parent name k => forall o, (fun d => (rd_ino d, rd_type d)) <$> o = v_names V !! (parent, name) -> wp (k (Ok o)) Q
  | ReadXattr ino name k => wp (k (Ok (v_xattrs V !! (ino, name)))) Q
  | ReadDirectory ino k => forall out, (out = [] <-> forall n, v_names V !! (ino, n) = None) -> wp (k (Ok out)) Q
  | ReadPermissions ino k =>
      (forall inode, v_inodes V !! ino = Some (strip inode) -> in_ino inode = ino -> in_state inode = Present ->
         wp (k (Ok (inode, v_xattrs V !! (ino, ACCESS_XATTR), v_xattrs V !! (ino, DEFAULT_XATTR), v_xattrs V !! (ino, CONTROL_XATTR)))) Q) /\
      (forall e, wp (k (Err e)) Q)
  | AllocateId k => forall id, new id -> wp (k id) Q
  | Now k => forall now, wp (k now) Q
  end.

Lemma wp_bind {A B} (p : plan A) (f : A -> plan B) Q : wp p (fun a => wp (f a) Q) -> wp (plan_bind p f) Q.
Proof. induction p as [[a|e]|ino k IH|parent name k IH|ino name k IH|ino k IH|ino k IH|k IH|k IH]; cbn; try done; [auto..| |auto|auto]. intros [H1 H2]. split; auto. Qed.

Lemma wp_mono {A} (p : plan A) (Q Q' : A -> Prop) : (forall a, Q a -> Q' a) -> wp p Q -> wp p Q'.
Proof. intros HQ. induction p as [[a|e]|ino k IH|parent name k IH|ino name k IH|ino k IH|ino k IH|k IH|k IH]; cbn; auto. intros [H1 H2]. split; auto. Qed.

Lemma wp_any {A} (p : plan A) (Q : A -> Prop) : (forall a, Q a) -> wp p Q.
Proof. intros HQ. induction p as [[a|e]|ino k IH|parent name k IH|ino name k IH|ino k IH|ino k IH|k IH|k IH]; cbn; auto. Qed.

Lemma wp_try {A} (p : plan A) (Q : result OverlayError A -> Prop) : wp p (fun a => Q (Ok a)) -> (forall e, Q (Err e)) -> wp (plan_try p) Q.
Proof. intros Hp He. induction p as [[a|e]|ino k IH|parent name k IH|ino name k IH|ino k IH|ino k IH|k IH|k IH]; cbn in *; auto. destruct Hp as [H1 H2]. split; auto. Qed.

Lemma wp_lift {A} (r : result OverlayError A) (Q : A -> Prop) : (forall a, r = Ok a -> Q a) -> wp (lift r) Q.
Proof. destruct r; cbn; auto. Qed.

Lemma wp_inode_or e ino (Q : InodeDelta -> Prop) : (forall r, v_inodes V !! ino = Some (strip r) -> in_ino r = ino -> in_state r = Present -> Q r) -> wp (inode_or e ino) Q.
Proof. intros H. intros [r|] Hr Hi; cbn; [|done]. destruct (Hi r eq_refl). by apply H. Qed.

Lemma wp_inode ino (Q : option InodeDelta -> Prop) : (forall o, strip <$> o = v_inodes V !! ino -> (forall r, o = Some r -> in_ino r = ino /\ in_state r = Present) -> Q o) -> wp (get_inode ino) Q.
Proof. intros H o. apply H. Qed.

Lemma wp_dentry parent name (Q : option ResolvedDentry -> Prop) : (forall o, (fun d => (rd_ino d, rd_type d)) <$> o = v_names V !! (parent, name) -> Q o) -> wp (get_dentry parent name) Q.
Proof. intros H o. apply H. Qed.

Lemma wp_directory ino (Q : list ResolvedDentry -> Prop) : (forall out, (out = [] <-> forall n, v_names V !! (ino, n) = None) -> Q out) -> wp (get_directory ino) Q.
Proof. intros H out. apply H. Qed.

Lemma wp_permissions ino (Q : PermissionInode -> Prop) : (forall inode, v_inodes V !! ino = Some (strip inode) -> in_ino inode = ino -> in_state inode = Present ->
  Q (inode, v_xattrs V !! (ino, ACCESS_XATTR), v_xattrs V !! (ino, DEFAULT_XATTR), v_xattrs V !! (ino, CONTROL_XATTR))) -> wp (get_permissions ino) Q.
Proof. intros H. split; [|done]. intros inode. apply H. Qed.

Lemma wp_return {A} (a : A) (Q : A -> Prop) : Q a -> wp (return_ a) Q.
Proof. done. Qed.
Lemma wp_now (Q : Z -> Prop) : (forall t, Q t) -> wp now_ns Q.
Proof. done. Qed.
Lemma wp_allocate (Q : Z -> Prop) : (forall id, new id -> Q id) -> wp allocate_id Q.
Proof. done. Qed.
End wp.

(** Through an attempt: reads give what the view has, failures end it. *)
Ltac wp_step :=
  lazymatch goal with
  | |- wp _ _ (plan_bind _ _) _ => apply wp_bind
  | |- wp _ _ (return_ _) _ => apply wp_return
  | |- wp _ _ (fail _) _ => exact I
  | |- wp _ _ (lift _) _ => apply wp_lift; intros ? ?
  | |- wp _ _ (inode_or _ _) _ => apply wp_inode_or; intros ? ? ? ?
  | |- wp _ _ (get_inode _) _ => apply wp_inode; intros ? ? ?
  | |- wp _ _ (get_dentry _ _) _ => apply wp_dentry; intros ? ?
  | |- wp _ _ (get_directory _) _ => apply wp_directory; intros ? ?
  | |- wp _ _ (get_permissions _) _ => apply wp_permissions; intros ? ? ? ?
  | |- wp _ _ now_ns _ => apply wp_now; intros ?
  | |- wp _ _ allocate_id _ => apply wp_allocate; intros ? ?
  | |- wp _ _ (if ?b then _ else _) _ => destruct b eqn:?
  end; cbv beta iota.
(** A check that the rest does not depend on. *)
Ltac wp_skip := apply wp_any; intros ?; cbv beta iota.
Ltac wp_check := apply wp_any; intros []; cbv beta iota.

(** *** Against a store *)

Section run.
Context (H B : LayerRecord) (expected : LayerRecord * LayerRecord) (e : Env) (V : View) (new : Z -> Prop).
Context (chain_ok : check_chain [H; B] = Ok tt) (shown : forall n, rows_valid (e_store e n) (layer_id H) (layer_id B) /\ view_of (e_store e n) (layer_id H) (layer_id B) = V) (ids : forall n, new (e_id e n)).

Lemma wp_run {A} (p : plan A) Q : wp V new p Q -> forall n a n', run [H; B] expected e n p = (Ok a, n') -> Q a.
Proof using chain_ok shown ids.
  induction p as [[a|err]|ino k IH|parent name k IH|ino name k IH|ino k IH|ino k IH|k IH|k IH]; cbn [wp run]; intros Hw n b n' Hr.
  - by injection Hr as <- <-.
  - done.
  - destruct (shown n) as [Hs <-]. destruct (read_inode H B _ chain_ok Hs ino) as (o & Ho & Ho' & Hi). rewrite Ho in Hr. by eapply IH, Hr; apply Hw.
  - destruct (shown n) as [Hs <-]. destruct (read_dentry H B _ chain_ok Hs parent name) as (o & Ho & Ho'). rewrite Ho in Hr. by eapply IH, Hr; apply Hw.
  - destruct (shown n) as [Hs <-]. rewrite (read_xattr H B _ chain_ok Hs) in Hr. by eapply IH, Hr.
  - destruct (shown n) as [Hs <-]. destruct (read_directory H B _ chain_ok Hs ino) as (out & Ho & Ho'). rewrite Ho in Hr. by eapply IH, Hr; apply Hw.
  - destruct (shown n) as [Hs <-]. destruct Hw as [H1 H2]. destruct (permission_inode [H; B] (e_store e n) expected ino) as [[[[inode access] default] control]|err] eqn:Ep; [|by eapply IH, Hr].
    destruct (read_permissions H B _ chain_ok Hs _ _ _ _ _ _ Ep) as (_ & (P1 & P2 & P3) & -> & -> & ->). by eapply IH, Hr; apply H1.
  - by eapply IH, Hr; apply Hw.
  - by eapply IH, Hr; apply Hw.
Qed.
End run.

(** ** Mutations of a view *)

Lemma foldl_put {K R T} `{Countable K} (key : R -> K) (visible : R -> option T) (test : R -> bool) rows k : NoDup (key <$> rows) -> (forall r, r ∈ rows -> test r = true <-> key r = k) -> forall M : gmap K T,
  foldl (fun M r => put_visible (key r) (visible r) M) M rows !! k = match List.find test rows with Some r => visible r | None => M !! k end.
Proof.
  induction rows as [|r rows IH]; intros Hn Ht M; [done|]. rewrite fmap_cons, NoDup_cons in Hn. destruct Hn as [Hno Hn]. cbn [foldl List.find].
  pose proof (Ht r ltac:(by left)) as Hr. specialize (IH Hn ltac:(intros r' ?; apply Ht; by right)). rewrite IH, lookup_put_visible. destruct (test r) eqn:E.
  - assert (key r = k) as Ek by (by apply Hr). destruct (List.find test rows) as [r'|] eqn:Ef; [|by rewrite decide_True].
    exfalso. apply List.find_some in Ef as [Hin E']. rewrite <-list_elem_of_In in Hin. apply Hno. apply (Ht r' ltac:(by right)) in E'. rewrite Ek, <-E'. apply list_elem_of_fmap. by exists r'.
  - destruct (List.find test rows); [done|]. rewrite decide_False; [done|]. intros Ek. by pose proof (proj2 Hr (eq_sym Ek)).
Qed.

Lemma NoDup_fmap_eq {A B} (f : A -> B) (l : list A) x y : NoDup (f <$> l) -> x ∈ l -> y ∈ l -> f x = f y -> x = y.
Proof.
  induction l as [|a l IH]; [by intros _ ?%elem_of_nil|]. rewrite fmap_cons, NoDup_cons. intros [Ha Hn] [->|Hx]%elem_of_cons [->|Hy]%elem_of_cons E; [done|..|by apply IH];
    exfalso; apply Ha; [rewrite E|rewrite <-E]; by apply list_elem_of_fmap_2.
Qed.

Lemma nodes_put I r : node_of <$> put_inode I r = match in_state r with Present => <[in_ino r := node_of r]> (node_of <$> I) | Deleted => delete (in_ino r) (node_of <$> I) end.
Proof. unfold put_inode, visible_inode. destruct (in_state r); cbn [put_visible]; [by rewrite fmap_insert|by rewrite fmap_delete]. Qed.

Lemma nodes_quiet rows : forall I, (forall r, r ∈ rows -> in_state r = Present /\ (node_of <$> I) !! in_ino r = Some (node_of r)) -> node_of <$> foldl put_inode I rows = node_of <$> I.
Proof.
  induction rows as [|r rows IH]; intros I Hr; [done|]. cbn [foldl]. destruct (Hr r ltac:(by left)) as [Hs Hi]. assert (node_of <$> put_inode I r = node_of <$> I) as E by (rewrite nodes_put, Hs; by apply insert_id).
  rewrite IH; [done|]. intros r' Hr'. rewrite E. apply Hr. by right.
Qed.

(** An inode row that leaves the lists of its inode right. *)
Definition mode_kept (V : View) (m : VersionedMutation) (r : InodeDelta) : Prop :=
  match v_inodes V !! in_ino r with
  | Some r0 => in_kind r = in_kind r0 /\ (Z.land (in_mode r) 511 = Z.land (in_mode r0) 511 \/ v_xattrs V !! (in_ino r, ACCESS_XATTR) = None \/
                 exists x, x ∈ m_xattrs m /\ xa_ino x = in_ino r /\ xa_name x = ACCESS_XATTR)
  | None => 0 <= in_kind r <= 6 /\ forall n, v_xattrs V !! (in_ino r, n) = None
  end.

Section mutation.
Context (V : View) (m : VersionedMutation) (count : Z) (ok : well_formed V) (valid : validate m = Ok count).
Context (modes : forall r, r ∈ m_inodes m -> in_state r = Present -> mode_kept V m r).

Lemma applied_inode i r : v_inodes (apply_mutation V m) !! i = Some r ->
  (exists r', r' ∈ m_inodes m /\ in_ino r' = i /\ in_state r' = Present /\ r = strip r') \/ (v_inodes V !! i = Some r /\ forall r', r' ∈ m_inodes m -> in_ino r' <> i).
Proof using valid.
  cbn. unfold put_inode. destruct (mr_inodes m (validate_rows_of m count valid)) as [_ Hn]. rewrite (foldl_put in_ino visible_inode (fun r => in_ino r =? i)); [|done|by intros r' _; rewrite Z.eqb_eq].
  destruct (List.find _ (m_inodes m)) as [r'|] eqn:E.
  - apply List.find_some in E as [Hin E%Z.eqb_eq]. rewrite <-list_elem_of_In in Hin. unfold visible_inode. destruct (in_state r') eqn:Es; [|done]. intros [= <-]. left. by exists r'.
  - intros Hi. right. split; [done|]. intros r' Hin Ei. rewrite list_elem_of_In in Hin. pose proof (List.find_none _ _ E r' Hin) as F. cbn in F. by apply Z.eqb_neq in F.
Qed.

Lemma applied_xattr i n v : v_xattrs (apply_mutation V m) !! (i, n) = Some v ->
  (exists x, x ∈ m_xattrs m /\ xa_ino x = i /\ xa_name x = n /\ xa_value x = Some v) \/ (v_xattrs V !! (i, n) = Some v /\ forall x, x ∈ m_xattrs m -> xa_ino x = i -> xa_name x <> n).
Proof using valid.
  cbn. unfold put_xattr. destruct (mr_xattrs m (validate_rows_of m count valid)) as [_ Hn]. rewrite (foldl_put (fun x => (xa_ino x, xa_name x)) xa_value (fun x => bool_decide ((xa_ino x, xa_name x) = (i, n)))); [|done|by intros x _; rewrite bool_decide_eq_true].
  destruct (List.find _ (m_xattrs m)) as [x|] eqn:E.
  - apply List.find_some in E as [Hin E%bool_decide_eq_true]. rewrite <-list_elem_of_In in Hin. injection E as <- <-. left. by exists x.
  - intros Hi. right. split; [done|]. intros x Hin <- <-. rewrite list_elem_of_In in Hin. pose proof (List.find_none _ _ E x Hin) as F. cbn in F. by apply bool_decide_eq_false in F.
Qed.

(** A list written with an inode is right for it. *)
Lemma written_list x r : x ∈ m_xattrs m -> r ∈ m_inodes m -> in_ino r = xa_ino x -> validate_acl_xattr r x = Ok tt.
Proof using valid.
  intros Hx Hr Hi. destruct (validate_rows_of m count valid) as [[_ Hn] _ [Hf _] _ _]. rewrite Forall_forall in Hf. destruct (Hf x Hx) as (_ & _ & r' & Hr' & Hi' & Hv).
  by rewrite (NoDup_fmap_eq in_ino (m_inodes m) r r' Hn Hr Hr' ltac:(congruence)).
Qed.

Lemma list_target x r bytes : validate_acl_xattr r x = Ok tt -> in_state r = Present -> xa_op x = VPut -> xa_value x = Some bytes ->
  (xa_name x = ACCESS_XATTR -> in_kind r <> 2 /\ exists acl, PosixAcl.decode bytes = Ok acl /\ PosixAcl.mode_bits acl = Z.land (in_mode r) 511) /\
  (xa_name x = DEFAULT_XATTR -> in_kind r = DIR /\ exists acl, PosixAcl.decode bytes = Ok acl).
Proof using.
  assert (ACCESS_XATTR <> DEFAULT_XATTR) as Hne by (vm_compute; done). unfold validate_acl_xattr. intros Hv Hs Ho Eb. rewrite Hs, Ho, Eb in Hv. rewrite (bool_decide_true (Present = Present)), (bool_decide_true (VPut = VPut)) in Hv by done. split; intros En; rewrite En in Hv.
  - rewrite (bool_decide_true (ACCESS_XATTR = ACCESS_XATTR)), (bool_decide_false (ACCESS_XATTR = DEFAULT_XATTR)) in Hv by done. cbn in Hv. destruct (Z.eqb_spec (in_kind r) 2); [done|]. cbn in Hv. split; [done|].
    destruct (PosixAcl.decode bytes) as [acl|]; [|done]. exists acl. split; [done|]. destruct (Z.eqb_spec (PosixAcl.mode_bits acl) (Z.land (in_mode r) 511)); done.
  - rewrite (bool_decide_true (DEFAULT_XATTR = DEFAULT_XATTR)), (bool_decide_false (DEFAULT_XATTR = ACCESS_XATTR)) in Hv by done. cbn in Hv. destruct (Z.eqb_spec (in_kind r) 2); [done|].
    destruct (Z.eqb_spec (in_kind r) 1); cbn in Hv; [|done]. split; [done|]. destruct (PosixAcl.decode bytes) as [acl|]; [eauto|done].
Qed.
Lemma lists_kept i r : v_inodes (apply_mutation V m) !! i = Some r -> lists_ok (v_xattrs (apply_mutation V m)) i r.
Proof using ok valid modes.
  intros Hi. pose proof (applied_inode i r Hi) as Hr. assert (ACCESS_XATTR <> DEFAULT_XATTR) as Hne by (vm_compute; done).
  assert (forall x bytes, x ∈ m_xattrs m -> xa_ino x = i -> xa_value x = Some bytes -> exists r', r = strip r' /\ in_state r' = Present /\ validate_acl_xattr r' x = Ok tt /\ xa_op x = VPut) as Hput.
  { intros x bytes Hx Ei Eb. destruct (validate_rows_of m count valid) as [_ _ [Hf _] _ _]. rewrite Forall_forall in Hf. destruct (Hf x Hx) as (_ & Hm & r' & Hr' & Hi' & _). unfold value_matches in Hm. rewrite Eb in Hm.
    destruct Hr as [(r1 & Hr1 & Ei1 & Es & ->)|[_ Hno]]; [|exfalso; apply (Hno r' Hr'); congruence]. exists r1. split_and!; [done|done|apply written_list; [done|done|congruence]|]. by destruct (xa_op x). }
  split; intros bytes Hb; apply applied_xattr in Hb as [(x & Hx & Ei & En & Eb)|[Hold Hno]].
  - destruct (Hput x bytes Hx Ei Eb) as (r' & -> & Hs & Hv & Ho). by apply (list_target x r' bytes).
  - destruct Hr as [(r1 & Hr1 & Ei1 & Es & ->)|[Hr _]]; [|by apply (wf_lists V ok i r Hr)]. pose proof (modes r1 Hr1 Es) as Hm. unfold mode_kept in Hm. rewrite Ei1 in Hm.
    destruct (v_inodes V !! i) as [r0|] eqn:E0; [|destruct Hm as [_ Hm]; by rewrite Hm in Hold]. destruct Hm as [Ek [Em|[Em|(x & Hx & Exi & Exn)]]]; [|by rewrite Em in Hold|by destruct (Hno x Hx Exi)].
    destruct (lo_access _ _ _ (wf_lists V ok i r0 E0) bytes Hold) as [H1 H2]. cbn. by rewrite Ek, Em.
  - destruct (Hput x bytes Hx Ei Eb) as (r' & -> & Hs & Hv & Ho). by apply (list_target x r' bytes).
  - destruct Hr as [(r1 & Hr1 & Ei1 & Es & ->)|[Hr _]]; [|by apply (wf_lists V ok i r Hr)]. pose proof (modes r1 Hr1 Es) as Hm. unfold mode_kept in Hm. rewrite Ei1 in Hm.
    destruct (v_inodes V !! i) as [r0|] eqn:E0; [|destruct Hm as [_ Hm]; by rewrite Hm in Hold]. destruct Hm as [Ek _]. cbn. rewrite Ek. by apply (lo_default _ _ _ (wf_lists V ok i r0 E0)).
Qed.

Lemma mutation_ok : tree_ok (node_of <$> foldl put_inode (v_inodes V) (m_inodes m)) (foldl put_name (v_names V) (m_dentries m)) -> well_formed (apply_mutation V m).
Proof using ok valid modes.
  intros Ht. split; [done| |apply lists_kept]. intros i r [(r' & Hr' & <- & Hs & ->)|[Hr _]]%applied_inode; [|by apply (wf_inode V ok)]. cbn. split_and!; [done|done|..];
    pose proof (modes r' Hr' Hs) as Hm; unfold mode_kept in Hm; (destruct (v_inodes V !! in_ino r') as [r0|] eqn:E; [destruct Hm as [-> _]; by apply (wf_inode V ok (in_ino r') r0)|lia]).
Qed.

(** The names, kinds, link counts and parents stay. *)
Lemma quiet_ok : m_dentries m = [] -> (forall r, r ∈ m_inodes m -> in_state r = Present /\ (node_of <$> v_inodes V) !! in_ino r = Some (node_of r)) -> well_formed (apply_mutation V m).
Proof using ok valid modes. intros Hd Hr. apply mutation_ok. rewrite Hd, nodes_quiet by done. apply (wf_tree V ok). Qed.
End mutation.

(** ** Attempts that change no name *)

Definition step_ok {A} (V : View) (step : Step A) : Prop :=
  match step with Return _ => True | Commit m _ => forall count, validate m = Ok count -> well_formed (apply_mutation V m) end.

Lemma land_ldiff m b : Z.land b 511 = 0 -> Z.land (Z.ldiff m b) 511 = Z.land m 511.
Proof.
  intros Hb. apply Z.bits_inj. intros k. rewrite !Z.land_spec, Z.ldiff_spec. assert (Z.testbit (Z.land b 511) k = false) as Hk by (rewrite Hb; apply Z.bits_0). rewrite Z.land_spec in Hk.
  destruct (Z.testbit m k), (Z.testbit b k), (Z.testbit 511 k); cbn in *; done.
Qed.

(** One row of an inode that is there. *)
Lemma row_ok {A} mount expected V row inode xattrs acls extents (answer : A) : well_formed V -> v_inodes V !! in_ino row = Some (strip inode) -> in_state row = Present -> node_of row = node_of inode ->
  (Z.land (in_mode row) 511 = Z.land (in_mode inode) 511 \/ v_xattrs V !! (in_ino row, ACCESS_XATTR) = None \/ exists x, x ∈ xattrs /\ xa_ino x = in_ino row /\ xa_name x = ACCESS_XATTR) ->
  step_ok V (Commit (mutation mount expected [] [row] xattrs acls extents) answer).
Proof.
  intros ok Hi Hs Hn Hm. intros count valid. apply (quiet_ok V _ count ok valid); cbn [m_inodes m_dentries]; [|done|].
  - intros r ->%list_elem_of_singleton _. unfold mode_kept. rewrite Hi. injection Hn as Hk _ _. by split.
  - intros r ->%list_elem_of_singleton. split; [done|]. rewrite lookup_fmap, Hi, Hn. done.
Qed.

Lemma no_row_ok {A} mount expected V acls (answer : A) : well_formed V -> step_ok V (Commit (mutation mount expected [] [] [] acls []) answer).
Proof. intros ok. intros count valid. apply (quiet_ok V _ count ok valid); cbn [m_inodes m_dentries]; [|done|]; by intros r ?%elem_of_nil. Qed.

Section quiet.
Context (parse_control : list byte -> option (list Control.ControlAclEntry)).
Context (mount : Mount) (expected : LayerRecord * LayerRecord) (scope : RequestScope) (V : View) (new : Z -> Prop) (ok : well_formed V).

Lemma wp_mutate_inode {A} row inode xattrs (answer : InodeDelta -> A) : v_inodes V !! in_ino row = Some (strip inode) -> in_state row = Present -> node_of row = node_of inode ->
  (Z.land (in_mode row) 511 = Z.land (in_mode inode) 511 \/ v_xattrs V !! (in_ino row, ACCESS_XATTR) = None \/ exists x, x ∈ xattrs /\ xa_ino x = in_ino row /\ xa_name x = ACCESS_XATTR) ->
  wp V new (mutate_inode mount expected row xattrs answer) (step_ok V).
Proof using ok. intros. by apply (row_ok mount expected V _ inode). Qed.

Lemma wp_mutate_data {A} row inode extents xattrs (answer : InodeDelta -> A) : v_inodes V !! in_ino row = Some (strip inode) -> in_state row = Present -> node_of row = node_of inode ->
  (Z.land (in_mode row) 511 = Z.land (in_mode inode) 511 \/ v_xattrs V !! (in_ino row, ACCESS_XATTR) = None \/ exists x, x ∈ xattrs /\ xa_ino x = in_ino row /\ xa_name x = ACCESS_XATTR) ->
  wp V new (mutate_data mount expected row extents xattrs answer) (step_ok V).
Proof using ok. intros. by apply (row_ok mount expected V _ inode). Qed.

(** What the rest of [set_attr_checked] leaves of a row. *)
Lemma set_attr_row req flags uid gid now now' d (row := set_attr_privileges req flags (set_attr_times req flags now now' (set_attr_size req (set_owner uid gid d)))) :
  in_ino row = in_ino d /\ in_state row = in_state d /\ node_of row = node_of d /\ Z.land (in_mode row) 511 = Z.land (in_mode d) 511.
Proof.
  assert (exists d', row = set_attr_privileges req flags d' /\ in_ino d' = in_ino d /\ in_state d' = in_state d /\ node_of d' = node_of d /\ in_mode d' = in_mode d) as (d' & -> & <- & <- & <- & <-).
  { eexists. split; [done|]. unfold set_attr_size. destruct (r_size req) as [size|]; [destruct (negb _)|]; done. }
  split_and!; try done. unfold set_attr_privileges. cbn [in_mode set_mode]. destruct (_ && _), (flags_contain flags CLEAR_SUID), (flags_contain flags CLEAR_SGID); cbn zeta; try (destruct (negb (Z.land (Z.ldiff _ _) 8 =? 0))); by rewrite ?land_ldiff.
Qed.

Lemma set_attr_step ino req flags actor : wp V new (set_attr_checked parse_control mount expected scope ino req flags actor) (step_ok V).
Proof using ok.
  unfold set_attr_checked. wp_step. wp_step. wp_step. wp_skip. wp_step.
  assert (wp V new (set_attr_mode expected inode (v_xattrs V !! (ino, ACCESS_XATTR)) ino req actor) (fun '(row, xattrs) =>
    exists mode, row = set_mode mode inode /\ (mode = in_mode inode \/ v_xattrs V !! (ino, ACCESS_XATTR) = None \/ exists x, x ∈ xattrs /\ xa_ino x = ino /\ xa_name x = ACCESS_XATTR))) as Hw.
  { unfold set_attr_mode. destruct (r_mode req) as [mode|]; [|exists (in_mode inode); split; [by destruct inode|by left]]. destruct (v_xattrs V !! (ino, ACCESS_XATTR)) as [bytes|]; [|eexists; split; [done|by right; left]].
    repeat wp_step. eexists. split; [done|]. right. right. eexists. split; [by left|done]. }
  eapply wp_mono; [|exact Hw]. intros [row xattrs] (mode & -> & Hm). cbv beta iota. wp_step. wp_step. wp_step. wp_step.
  match goal with |- context [set_attr_privileges req flags (set_attr_times req flags ?t ?t' (set_attr_size req (set_owner ?u ?g ?d)))] => destruct (set_attr_row req flags u g t t' d) as (R1 & R2 & R3 & R4) end.
  cbn [in_ino in_state in_mode set_mode] in R1, R2, R4. change (node_of (set_mode mode inode)) with (node_of inode) in R3. rewrite H0 in R1.
  repeat wp_step; [eapply (wp_mutate_data _ inode)..|eapply (wp_mutate_inode _ inode)]; (congruence || rewrite R1, R4; destruct Hm as [->|Hm]; tauto).
Qed.

Lemma update_acl_step ino name value flags uid groups : wp V new (update_posix_acl_with_flags mount expected ino name value flags uid groups) (step_ok V).
Proof using ok.
  unfold update_posix_acl_with_flags. do 2 (wp_step; [exact I|]). wp_step. wp_skip. wp_step. wp_step. do 5 (wp_step; [exact I|]).
  set (stored := match a with Some _ => _ | None => _ end). assert (exists mode, stored.1 = set_mode mode inode /\ (mode = in_mode inode \/ name = ACCESS_XATTR)) as (mode & E & Hm).
  { unfold stored. assert (inode = set_mode (in_mode inode) inode) as Hi by (by destruct inode). destruct a as [acl|]; [destruct (bool_decide (name = ACCESS_XATTR)) eqn:En; [apply bool_decide_eq_true in En; eexists; split; [reflexivity|by right]|]|]; eexists; (split; [exact Hi|by left]). }
  destruct stored as [row value']. cbn in E. subst row. wp_step. wp_step. eapply (wp_mutate_inode _ inode); try done; [cbn; congruence|]. destruct Hm as [->| ->]; [by left|]. right. right. eexists. split; [by left|done].
Qed.

Lemma set_xattr_step ino name value flags : wp V new (set_xattr_bytes mount expected ino name value flags) (step_ok V).
Proof using ok.
  unfold set_xattr_bytes. wp_step; [wp_step; [done|apply update_acl_step]|]. wp_step. wp_skip. wp_step. wp_step. wp_step. wp_skip. do 4 (wp_step; [exact I|]). wp_step. wp_step. wp_step. eapply (row_ok mount expected V _ r); try done; [cbn; congruence|by left].
Qed.

Lemma remove_xattr_step ino name : wp V new (remove_xattr_bytes mount expected ino name) (step_ok V).
Proof using ok.
  unfold remove_xattr_bytes. wp_step; [apply update_acl_step|]. wp_step. wp_skip. wp_step. wp_skip. wp_step; [exact I|]. wp_step. wp_step. wp_step. wp_step. wp_step. eapply (row_ok mount expected V _ r); try done; [cbn; congruence|by left].
Qed.

Lemma set_acl_step ino t q p : wp V new (set_acl mount expected ino t q p) (step_ok V).
Proof using ok. unfold set_acl. wp_step. wp_step. wp_step. by apply no_row_ok. Qed.

Lemma truncate_step ino size cs : wp V new (truncate mount expected ino size cs) (step_ok V).
Proof using ok.
  unfold truncate. wp_step; [exact I|]. wp_step. wp_step. wp_step. wp_step. wp_step; [exact I|]. wp_step; [exact I|]. wp_step. wp_skip. wp_step. wp_step. eapply (wp_mutate_data _ r); try done; [cbn; congruence|by left].
Qed.

Lemma open_step ino flags : wp V new (open parse_control mount expected scope ino flags) (step_ok V).
Proof using ok.
  unfold open. wp_step. wp_step. wp_step. wp_skip. wp_step. wp_step. wp_step; [exact I|]. wp_step.
  - wp_step; [exact I|]. do 6 wp_step. eapply (wp_mutate_data _ inode); try done; [cbn; congruence|by left].
  - wp_step. wp_step. eapply (wp_mutate_inode _ inode); try done; [cbn; congruence|by left].
Qed.

Lemma hole_range_step ino offset len keep : wp V new (apply_hole_range mount expected ino offset len keep) (step_ok V).
Proof using ok.
  unfold apply_hole_range. do 6 wp_step. wp_step; [exact I|]. wp_step; [exact I|]. do 4 wp_step. eapply (wp_mutate_data _ r); try (by destruct keep); [destruct keep; cbn; congruence|by left; destruct keep].
Qed.
End quiet.

(** *** Batches of writes *)

Definition write_row (V : View) (kv : Z * InodeDelta) : Prop :=
  in_ino kv.2 = kv.1 /\ in_state kv.2 = Present /\ exists r, v_inodes V !! kv.1 = Some (strip r) /\ node_of kv.2 = node_of r /\ in_mode kv.2 = in_mode r.

Lemma bt_get_in {T} k v (m : list (Z * T)) : bt_get k m = Some v -> (k, v) ∈ m.
Proof. induction m as [|[k' v'] m IH]; cbn; [done|]. case_decide; [intros [= ->]; subst; by left|right; auto]. Qed.

Lemma prefetch_rows V new inos : wp V new (prefetch_loop inos) (fun out => forall ino r, (ino, Ok r) ∈ out -> write_row V (ino, r)).
Proof.
  induction inos as [|ino inos IH]; cbn [prefetch_loop]; [by intros ino r ?%elem_of_nil|]. wp_step.
  assert (wp V new (plan_try (write_target_inode ino)) (fun o => forall r, o = Ok r -> write_row V (ino, r))) as Hw.
  { apply wp_try; [|done]. unfold write_target_inode. do 4 wp_step. wp_step; [exact I|]. wp_step. intros r' [= <-]. split_and!; [done|done|]. by exists r. }
  eapply wp_mono; [|exact Hw]. intros o Ho. wp_step. eapply wp_mono; [|exact IH]. intros out Hout. wp_step. intros ino' r [[= -> <-]|Hin]%elem_of_cons; auto.
Qed.

Lemma fold_writes_rows V now batch : forall inodes, (forall kv, kv ∈ inodes -> write_row V kv) -> forall kv, kv ∈ fold_writes now inodes batch -> write_row V kv.
Proof.
  induction batch as [|write batch IH]; intros inodes Hi; [done|]. cbn [fold_writes]. destruct (bt_get (pw_ino write) inodes) as [inode|] eqn:E; [|by apply IH]. apply IH. intros kv [->|Hin]%bt_insert_elem; [|auto].
  exact (Hi _ (bt_get_in _ _ _ E)).
Qed.

Lemma batch_step V new mount expected batch : well_formed V -> wp V new (commit_write_batch mount expected batch) (step_ok V).
Proof.
  intros ok. unfold commit_write_batch. wp_step. eapply wp_mono; [|apply prefetch_rows]. intros out Hout. cbv beta. destruct (split_batch out batch) as [kept failed]. destruct kept as [|w kept]; [exact I|]. wp_step. wp_step. wp_step.
  set (rows := fold_writes _ _ _). assert (forall kv, kv ∈ rows -> write_row V kv) as Hrows.
  { apply fold_writes_rows. intros [ino r] Hin. apply list_elem_of_omap in Hin as ([ino' [r'|e]] & Hin & E); [|done]. injection E as -> ->. by apply Hout. }
  intros count valid. apply (quiet_ok V _ count ok valid); cbn [m_inodes m_dentries mutation]; [|done|].
  - intros r (kv & -> & Hkv)%list_elem_of_fmap _. destruct (Hrows kv Hkv) as (E1 & _ & r & Hr & En & Em). unfold mode_kept. cbn [in_ino set_head]. rewrite E1, Hr. injection En as Ek _ _. split; [done|]. left. cbn. by rewrite Em.
  - intros r (kv & -> & Hkv)%list_elem_of_fmap. destruct (Hrows kv Hkv) as (E1 & Es & r & Hr & En & _). split; [done|]. cbn [in_ino set_head]. rewrite lookup_fmap, E1, Hr. cbn. f_equal. by symmetry.
Qed.
