(* ===== verification/OverlayWell.v ===== *)
(** Every operation on the names of a workspace keeps what the workspace shows a
    tree with right link counts, however its requests interleave with those of
    other clients. *)
From stdpp Require Import options.
From S2P Require Import Prelude Span Slices Acl MetaTypes Namespace Layers LayerExtents LayerCompact LayerHistory LayerNames Access Overlay OverlayCommits OverlayView OverlayPlan OverlayOps OverlayTree OverlayState OverlaySteps.

Lemma kind_dir code kind : file_type_from_code code = Ok kind -> bool_decide (kind = Dir) = (code =? DIR).
Proof.
  unfold file_type_from_code. destruct code as [|[[[]|[]|]|[[]|[]|]|]|]; intros [= <-]; done.
Qed.

Lemma code_dir kind : (file_type_code kind =? DIR) = bool_decide (kind = Dir).
Proof. by destruct kind. Qed.

Lemma nlink_inc_ok n n' : nlink_inc n = Ok n' -> n' = n + 1.
Proof. unfold nlink_inc. destruct (_ <=? _); congruence. Qed.
Lemma nlink_dec_ok n n' : nlink_dec n = Ok n' -> n' = n - 1.
Proof. unfold nlink_dec. destruct (_ <=? _); congruence. Qed.

(** Rows of inodes by number. *)
Lemma nodes_rows I rows j : NoDup (in_ino <$> rows) ->
  (node_of <$> foldl put_inode I rows) !! j = match List.find (fun r => in_ino r =? j) rows with Some r => node_of <$> visible_inode r | None => (node_of <$> I) !! j end.
Proof.
  intros Hn. rewrite lookup_fmap. unfold put_inode. rewrite (foldl_put in_ino visible_inode (fun r => in_ino r =? j)); [|done|by intros r _; rewrite Z.eqb_eq]. destruct (List.find _ rows); [done|]. by rewrite lookup_fmap.
Qed.

(** An inode row that keeps the kind, mode and size. *)
Definition attrs (r : InodeDelta) : Z * Z * Z := (in_kind r, in_mode r, in_size r).
Definition kept (V : View) (r : InodeDelta) : Prop := exists r0, v_inodes V !! in_ino r = Some (strip r0) /\ attrs r = attrs r0.

(** A mutation that moves no data and changes no size; its other inodes are new. *)
Definition sizes_kept (V : View) (ids : Z -> Prop) (m : VersionedMutation) : Prop :=
  m_extents m = [] /\ forall r, r ∈ m_inodes m -> match v_inodes V !! in_ino r with Some r0 => in_size r = in_size r0 /\ in_kind r = in_kind r0 | None => ids (in_ino r) end.

Definition named_ok {A} (V : View) (ids : Z -> Prop) (step : Step A) : Prop :=
  match step with Return _ => True | Commit m _ => sizes_kept V ids m /\ forall count, validate m = Ok count -> well_formed (apply_mutation V m) end.

Section nodes.
Context {V : View}.
Abbreviation I := (v_inodes V).
Abbreviation N := (node_of <$> v_inodes V).
Abbreviation D := (v_names V).

Lemma shown i r : I !! i = Some (strip r) -> N !! i = Some (node_of r).
Proof using. intros Hi. by rewrite lookup_fmap, Hi. Qed.

Lemma kinds_differ i j a b : I !! i = Some (strip a) -> I !! j = Some (strip b) -> in_kind a <> in_kind b -> i <> j.
Proof using. intros Ha Hb Hk ->. apply Hk. rewrite Ha in Hb. by injection Hb. Qed.

Lemma row_kept row r : I !! in_ino row = Some (strip r) -> attrs row = attrs r -> kept V row.
Proof using. intros Hi Ha. by exists r. Qed.

Lemma named_ok_intro {A} (ok : well_formed V) ids (news : forall id, ids id -> fresh V id) m (answer : A) : m_extents m = [] -> (forall r, r ∈ m_inodes m -> kept V r \/ (0 <= in_kind r <= 6 /\ ids (in_ino r))) ->
  (forall count, validate m = Ok count -> tree_ok (node_of <$> foldl put_inode I (m_inodes m)) (foldl put_name D (m_dentries m))) -> named_ok V ids (Commit m answer).
Proof using.
  intros He Hr Ht. split; [split; [done|]|].
  - intros r Hin. destruct (Hr r Hin) as [(r1 & -> & Ha)|[_ Hi]]; [injection Ha as -> _ ->; done|]. by destruct (news _ Hi) as [-> _].
  - intros count valid. apply (mutation_ok V m count ok valid); [|by apply (Ht count)]. intros r Hin _. unfold mode_kept. destruct (Hr r Hin) as [(r1 & -> & Ha)|[Hk [-> Hx]%news]]; [|done]. injection Ha as Ek Em _. split; [done|]. left. cbn. by rewrite Em.
Qed.

Lemma absent (o : option ResolvedDentry) k : (fun d => (rd_ino d, rd_type d)) <$> o = D !! k -> some_b o = false -> D !! k = None.
Proof using. by destruct o. Qed.

Lemma visible_node r : node_of <$> visible_inode r = match in_state r with Present => Some (node_of r) | Deleted => None end.
Proof using. unfold visible_inode. by destruct (in_state r). Qed.

(** The inode that a name leads to. *)
Lemma bound_node (ok : well_formed V) parent name i t r : D !! (parent, name) = Some (i, t) -> I !! i = Some (strip r) -> t = in_kind r /\ exists pd, N !! parent = Some pd /\ nd_kind pd = DIR.
Proof using. intros Hd Hi. destruct (t_entry _ _ (wf_tree V ok) _ _ _ _ Hd) as [Hp (nd & Hn & Hk)]. rewrite (shown i r Hi) in Hn. by injection Hn as <-. Qed.

End nodes.

(** *** The counts of a rename *)

Record counts_after (p1 p2 : Z) (dir : bool) (source old new source' old' new' : InodeDelta) (dest dest' : option InodeDelta) : Prop := {
  ca_source : in_ino source' = in_ino source /\ in_state source' = in_state source /\ attrs source' = attrs source /\
    node_of source' = mkNode (in_kind source) (in_nlink source) (if dir && negb (p1 =? p2) then Some p2 else in_parent_hint source);
  ca_old : in_ino old' = in_ino old /\ in_state old' = in_state old /\ attrs old' = attrs old /\
    node_of old' = mkNode (in_kind old) (in_nlink old - if dir && negb (p1 =? p2) then 1 else 0) (in_parent_hint old);
  ca_new : in_ino new' = in_ino new /\ in_state new' = in_state new /\ attrs new' = attrs new /\
    node_of new' = mkNode (in_kind new) (in_nlink new + (if dir && negb (p1 =? p2) then 1 else 0) - match dest with Some d => if in_kind d =? DIR then 1 else 0 | None => 0 end) (in_parent_hint new);
  ca_dest : match dest, dest' with
            | Some d, Some d' => in_ino d' = in_ino d /\ attrs d' = attrs d /\
                if in_kind d =? DIR then in_state d' = Deleted
                else node_of d' = mkNode (in_kind d) (in_nlink d - 1) (in_parent_hint d) /\ (in_state d' = in_state d \/ (in_state d' = Deleted /\ in_nlink d = 1))
            | None, None => True
            | _, _ => False
            end
}.

Section renamed.
Context (V : View) (ok : well_formed V).
Abbreviation I := (v_inodes V).
Abbreviation N := (node_of <$> v_inodes V).
Abbreviation D := (v_names V).
Abbreviation tree := (wf_tree V ok).
Context (p1 p2 : Z) (n1 n2 : list byte) (source old new source' old' new' : InodeDelta) (dest dest' : option InodeDelta).
Abbreviation i := (in_ino source).
Abbreviation dir := (in_kind source =? DIR).
Abbreviation rows := (source' :: (if p1 =? p2 then [new'] else [old'; new']) ++ option_list dest').
Context (Hcounts : counts_after p1 p2 (in_kind source =? DIR) source old new source' old' new' dest dest').
Context (Hx : D !! (p1, n1) = Some (in_ino source, in_kind source)) (Hsource : I !! in_ino source = Some (strip source)) (Hold : I !! in_ino old = Some (strip old)) (Hnew : I !! in_ino new = Some (strip new)).
Context (Eold : in_ino old = p1) (Enew : in_ino new = p2) (Hpd : in_kind new = DIR) (Hsame : p1 = p2 -> old = new) (Hout : in_kind source = DIR -> avoids (up N) (in_ino source) p2).
Context (Spresent : in_state source = Present) (Opresent : in_state old = Present) (Npresent : in_state new = Present) (Hrows : NoDup (in_ino <$> rows)).

Lemma source_apart : i <> p1 /\ i <> p2.
Proof using ok Hx Hsource Hnew Enew Hpd Hout.
  split; [by apply (bound_not_parent N D tree p1 n1 i (in_kind source))|]. destruct (decide (in_kind source = DIR)) as [Hk|Hk]; [apply not_eq_sym; by eapply avoids_ne, Hout|].
  rewrite <-Enew. apply (kinds_differ (V := V) _ _ source new); congruence.
Qed.

Lemma source_hint : in_kind source = DIR -> in_parent_hint source = Some p1.
Proof using ok Hx Hsource.
  intros Hk. rewrite Hk in Hx. destruct (bound_dir N D tree p1 n1 i Hx) as (_ & Hu & _). by rewrite (up_dir N i _ (shown _ _ Hsource) Hk) in Hu.
Qed.

Abbreviation N' := (node_of <$> foldl put_inode I rows).

(** The rows are the nodes of the move, but for the destination. *)
Lemma renamed_node j : match dest with Some d => j <> in_ino d | None => True end ->
  N' !! j = moved p1 p2 i (in_kind source) j <$>
    ((fun nd => mkNode (nd_kind nd) (nd_nlink nd - match dest with Some d => if decide (j = p2 /\ in_kind d = DIR) then 1 else 0 | None => 0 end) (nd_hint nd)) <$> N !! j).
Proof using ok Hcounts Hx Hsource Hold Hnew Eold Enew Hpd Hsame Hout Spresent Opresent Npresent Hrows.
  intros Hj. rewrite nodes_rows by exact Hrows. destruct source_apart as [Hi1 Hi2]. destruct Hcounts as [(S1 & S2 & _ & S4) (O1 & O2 & _ & O4) (N1 & N2 & _ & N4) Hd].
  assert (List.find (fun r => in_ino r =? j) (option_list dest') = None) as Hfind.
  { destruct dest as [d|], dest' as [d'|]; try done. cbn. destruct Hd as (-> & _). by rewrite (proj2 (Z.eqb_neq (in_ino d) j)) by done. }
  assert (List.find (fun r => in_ino r =? j) rows = if i =? j then Some source' else if p2 =? j then Some new' else if p1 =? j then Some old' else None) as ->.
  { cbn [List.find]. rewrite S1. destruct (Z.eqb_spec i j) as [|Hij]; [done|]. destruct (Z.eqb_spec p1 p2) as [E12|]; cbn [app List.find]; rewrite ?O1, ?N1, ?Eold, ?Enew, Hfind; destruct (Z.eqb_spec p2 j), (Z.eqb_spec p1 j); congruence. }
  destruct (Z.eqb_spec i j) as [<-|Hij]; [|destruct (Z.eqb_spec p2 j) as [<-|Hp2]; [|destruct (Z.eqb_spec p1 j) as [<-|Hp1]]].
  - rewrite visible_node, S2, Spresent, S4, (shown _ _ Hsource). cbn. f_equal. unfold moved, one. cbn. rewrite !(decide_False (P := in_ino source = _)) by done.
    assert (match dest with Some d => if decide (i = p2 /\ in_kind d = DIR) then 1 else 0 | None => 0 end = 0) as -> by (destruct dest; [by rewrite decide_False by tauto|done]). f_equal.
    + destruct (decide (in_kind source = DIR)); lia.
    + destruct (Z.eqb_spec (in_kind source) DIR) as [Hk|Hk]; cbn [andb]; [|by rewrite decide_False by tauto]. rewrite decide_True by done. destruct (Z.eqb_spec p1 p2) as [E|]; cbn; [|done]. rewrite <-E. by apply source_hint.
  - rewrite visible_node, N2, Npresent, N4. pose proof (shown _ _ Hnew) as Hn. rewrite Enew in Hn. rewrite Hn. cbn. f_equal. unfold moved, one. cbn. rewrite (decide_False (P := p2 = in_ino source /\ _)) by (intros [? _]; congruence). f_equal. rewrite (decide_True (P := p2 = p2)) by done.
    assert (match dest with Some d => if in_kind d =? DIR then 1 else 0 | None => 0 end = match dest with Some d => if decide (p2 = p2 /\ in_kind d = DIR) then 1 else 0 | None => 0 end) as <-.
    { destruct dest as [d|]; [|done]. destruct (Z.eqb_spec (in_kind d) DIR); [by rewrite decide_True|by rewrite decide_False by tauto]. }
    destruct (Z.eqb_spec (in_kind source) DIR), (decide (in_kind source = DIR)), (Z.eqb_spec p1 p2), (decide (p2 = p1)); cbn; try congruence; lia.
  - rewrite visible_node, O2, Opresent, O4. pose proof (shown _ _ Hold) as Hn. rewrite Eold in Hn. rewrite Hn. cbn. f_equal. unfold moved, one. cbn. rewrite (decide_False (P := p1 = in_ino source /\ _)) by (intros [? _]; congruence). f_equal.
    assert (match dest with Some d => if decide (p1 = p2 /\ in_kind d = DIR) then 1 else 0 | None => 0 end = 0) as -> by (destruct dest; [by rewrite decide_False by (intros [? _]; congruence)|done]).
    rewrite (decide_True (P := p1 = p1)), (decide_False (P := p1 = p2)) by congruence. destruct (Z.eqb_spec (in_kind source) DIR), (decide (in_kind source = DIR)), (Z.eqb_spec p1 p2); cbn; try congruence; lia.
  - destruct (N !! j) as [nd|] eqn:En; [|done]. cbn. f_equal. unfold moved, one. cbn. rewrite !(decide_False (P := j = _)) by congruence.
    assert (match dest with Some d => if decide (j = p2 /\ in_kind d = DIR) then 1 else 0 | None => 0 end = 0) as -> by (destruct dest; [by rewrite decide_False by (intros [? _]; congruence)|done]).
    rewrite (decide_False (P := j = in_ino source /\ _)) by (intros [? _]; congruence). destruct nd as [k l h]. cbn. f_equal. destruct (decide (in_kind source = DIR)); lia.
Qed.
Lemma rename_onto_free : dest = None -> D !! (p2, n2) = None -> tree_ok N' (<[(p2, n2) := (i, in_kind source)]> (delete (p1, n1) D)).
Proof using ok Hcounts Hx Hsource Hold Hnew Eold Enew Hpd Hsame Hout Spresent Opresent Npresent Hrows.
  intros Ed Hfree. pose proof (shown _ _ Hnew) as Hn. rewrite Enew in Hn. apply (move_ok N _ D tree p1 n1 p2 n2 i (in_kind source) (node_of new)); try done. intros j. rewrite renamed_node by (by rewrite Ed). rewrite Ed.
  destruct (N !! j) as [[k l h]|]; [|done]. cbn. by rewrite Z.sub_0_r.
Qed.

Lemma rename_onto_taken d d' : dest = Some d -> dest' = Some d' -> D !! (p2, n2) = Some (in_ino d, in_kind d) -> I !! in_ino d = Some (strip d) -> in_state d = Present -> in_ino d <> i ->
  dir = (in_kind d =? DIR) -> (in_kind d = DIR -> forall n, D !! (in_ino d, n) = None) -> tree_ok N' (<[(p2, n2) := (i, in_kind source)]> (delete (p1, n1) D)).
Proof using ok Hcounts Hx Hsource Hold Hnew Eold Enew Hpd Hsame Hout Spresent Opresent Npresent Hrows.
  intros Ed Ed' Hd Hdi Hds Hne Hkind Hempty. pose proof (shown _ _ Hnew) as Hn. rewrite Enew in Hn. destruct (t_entry N D tree _ _ _ _ Hx) as [(old1 & Ho & Hok) _].
  assert (in_ino d <> p2) as Hd2 by (by apply (bound_not_parent N D tree p2 n2 (in_ino d) (in_kind d))).
  assert (in_ino d <> p1) as Hd1 by (intros E; destruct (decide (in_kind d = DIR)) as [Hk|Hk]; [rewrite <-E, Hempty in Hx; done|rewrite <-E, (shown _ _ Hdi) in Ho; by injection Ho as <-]).
  destruct Hcounts as [(S1 & _) (O1 & _) (N1 & _) Hdest]. rewrite Ed, Ed' in Hdest. destruct Hdest as (D1 & _ & D4).
  apply (replace_ok N _ D tree p1 n1 p2 n2 i (in_kind source) (in_ino d) (node_of new) (node_of d) (bool_decide (in_state d' = Deleted /\ in_kind d <> DIR)) Hx Hd Hn (shown _ _ Hdi) Hne Hout Hempty).
  - intros [Hdel Hk]%bool_decide_eq_true. rewrite (proj2 (Z.eqb_neq (in_kind d) DIR)) in D4 by done. destruct D4 as [_ [E|[_ E]]]; [congruence|done].
  - intros j. destruct (decide (j = in_ino d)) as [->|Hj].
    + rewrite nodes_rows by exact Hrows. assert (List.find (fun r => in_ino r =? in_ino d) rows = Some d') as ->.
      { cbn [List.find]. rewrite S1, (proj2 (Z.eqb_neq i (in_ino d))), Ed' by congruence. destruct (p1 =? p2); cbn [app List.find option_list]; rewrite ?O1, N1, ?Eold, Enew, ?(proj2 (Z.eqb_neq p1 (in_ino d))), (proj2 (Z.eqb_neq p2 (in_ino d))) by congruence;
          change (option_list (Some d')) with [d']; cbn [List.find]; by rewrite D1, Z.eqb_refl. }
      rewrite visible_node. unfold without. cbn [nd_kind node_of]. case_decide as Hk; [rewrite (proj2 (Z.eqb_eq (in_kind d) DIR)) in D4 by done; by rewrite lookup_delete_eq, D4|].
      rewrite (proj2 (Z.eqb_neq (in_kind d) DIR)) in D4, Hkind by done. apply Z.eqb_neq in Hkind. destruct D4 as [D4 [->|[-> _]]]; [rewrite Hds, bool_decide_false by (by intros [? _])|by rewrite bool_decide_true, lookup_delete_eq].
      rewrite lookup_insert_eq, D4. cbn. unfold moved. cbn. rewrite !(decide_False (P := in_kind source = DIR)), (decide_False (P := in_ino d = i /\ _)) by tauto. by rewrite Z.add_0_r.
    + rewrite renamed_node by (by rewrite Ed). rewrite Ed. f_equal. unfold without. cbn [nd_kind node_of].
      destruct (decide (in_kind d = DIR)) as [Hk|Hk]; [rewrite lookup_delete_ne by done|destruct (bool_decide _); [rewrite lookup_delete_ne by done|rewrite lookup_insert_ne by done]].
      * destruct (decide (j = p2)) as [->|]; [rewrite lookup_insert_eq, Hn, decide_True by done; done|]. rewrite lookup_insert_ne by done. rewrite decide_False by tauto. destruct (N !! j) as [[k l h]|]; cbn; [by rewrite Z.sub_0_r|done].
      * rewrite decide_False by tauto. destruct (N !! j) as [[k l h]|]; cbn; [by rewrite Z.sub_0_r|done].
      * rewrite decide_False by tauto. destruct (N !! j) as [[k l h]|]; cbn; [by rewrite Z.sub_0_r|done].
Qed.
End renamed.

(** *** The counts of an exchange *)

Definition dirs (b : bool) : Z := if b then 1 else 0.

Record counts_swapped (p1 p2 : Z) (l r old new l' r' old' new' : InodeDelta) : Prop := {
  cs_left : in_ino l' = in_ino l /\ in_state l' = in_state l /\ attrs l' = attrs l /\
    node_of l' = mkNode (in_kind l) (in_nlink l) (if (in_kind l =? DIR) && negb (p1 =? p2) then Some p2 else in_parent_hint l);
  cs_right : in_ino r' = in_ino r /\ in_state r' = in_state r /\ attrs r' = attrs r /\
    node_of r' = mkNode (in_kind r) (in_nlink r) (if (in_kind r =? DIR) && negb (p1 =? p2) then Some p1 else in_parent_hint r);
  cs_old : in_ino old' = in_ino old /\ in_state old' = in_state old /\ attrs old' = attrs old /\
    node_of old' = mkNode (in_kind old) (in_nlink old + if p1 =? p2 then 0 else dirs (in_kind r =? DIR) - dirs (in_kind l =? DIR)) (in_parent_hint old);
  cs_new : in_ino new' = in_ino new /\ in_state new' = in_state new /\ attrs new' = attrs new /\
    node_of new' = mkNode (in_kind new) (in_nlink new + if p1 =? p2 then 0 else dirs (in_kind l =? DIR) - dirs (in_kind r =? DIR)) (in_parent_hint new)
}.

Lemma exchange_counts_ok p1 p2 l r old new l' r' old' new' : exchange_counts p1 p2 (in_kind l =? DIR) (in_kind r =? DIR) l r old new = Ok (l', r', old', new') -> counts_swapped p1 p2 l r old new l' r' old' new'.
Proof.
  unfold exchange_counts. destruct (p1 =? p2) eqn:Ep; [intros [= <- <- <- <-]; split; rewrite ?Ep, ?andb_false_r, ?Z.add_0_r; done|].
  destruct (if eqb _ _ then _ else _) as [[old1 new1]|] eqn:E; cbn [result_bind]; [|done]. intros [= <- <- <- <-].
  assert (exists k, k = dirs (in_kind r =? DIR) - dirs (in_kind l =? DIR) /\ old1 = set_nlink (in_nlink old + k) old /\ new1 = set_nlink (in_nlink new - k) new) as (k & Ek & -> & ->).
  { exists (dirs (in_kind r =? DIR) - dirs (in_kind l =? DIR)). split; [done|].
    destruct (in_kind l =? DIR), (in_kind r =? DIR); cbn [eqb dirs] in E |- *; [injection E as <- <-; rewrite Z.sub_diag, Z.sub_0_r, Z.add_0_r; by destruct old, new| | |injection E as <- <-; rewrite Z.sub_diag, Z.sub_0_r, Z.add_0_r; by destruct old, new].
    - destruct (nlink_dec (in_nlink old)) as [f|] eqn:Ef; cbn [result_bind] in E; [|done]. destruct (nlink_inc (in_nlink new)) as [g|] eqn:Eg; cbn [result_bind] in E; [|done]. apply nlink_dec_ok in Ef. apply nlink_inc_ok in Eg. injection E as <- <-. by subst.
    - destruct (nlink_dec (in_nlink new)) as [f|] eqn:Ef; cbn [result_bind] in E; [|done]. destruct (nlink_inc (in_nlink old)) as [g|] eqn:Eg; cbn [result_bind] in E; [|done]. apply nlink_dec_ok in Ef. apply nlink_inc_ok in Eg. injection E as <- <-. by subst. }
  split; rewrite ?Ep; cbn [negb]; rewrite ?andb_true_r; [by destruct (in_kind l =? DIR)|by destruct (in_kind r =? DIR)|by subst k|]. split_and!; try done. unfold node_of. cbn. f_equal. lia.
Qed.

Section exchanged.
Context (V : View) (ok : well_formed V).
Abbreviation I := (v_inodes V).
Abbreviation N := (node_of <$> v_inodes V).
Abbreviation D := (v_names V).
Abbreviation tree := (wf_tree V ok).
Context (p1 p2 : Z) (n1 n2 : list byte) (l r old new l' r' old' new' : InodeDelta).
Abbreviation rows := ([l'; r'; old'] ++ if p1 =? p2 then [] else [new']).
Context (Hcounts : counts_swapped p1 p2 l r old new l' r' old' new').
Context (Hx1 : D !! (p1, n1) = Some (in_ino l, in_kind l)) (Hx2 : D !! (p2, n2) = Some (in_ino r, in_kind r)) (Hne : in_ino l <> in_ino r).
Context (Hl : I !! in_ino l = Some (strip l)) (Hr : I !! in_ino r = Some (strip r)) (Hold : I !! in_ino old = Some (strip old)) (Hnew : I !! in_ino new = Some (strip new)).
Context (Eold : in_ino old = p1) (Enew : in_ino new = p2) (Dold : in_kind old = DIR) (Dnew : in_kind new = DIR).
Context (Hout1 : in_kind l = DIR -> avoids (up N) (in_ino l) p2) (Hout2 : in_kind r = DIR -> avoids (up N) (in_ino r) p1).
Context (Lpresent : in_state l = Present) (Rpresent : in_state r = Present) (Opresent : in_state old = Present) (Npresent : in_state new = Present) (Hrows : NoDup (in_ino <$> rows)).

Lemma entry_hint p n x : D !! (p, n) = Some (in_ino x, in_kind x) -> I !! in_ino x = Some (strip x) -> in_kind x = DIR -> in_parent_hint x = Some p.
Proof using ok.
  intros Hx Hi Hk. rewrite Hk in Hx. destruct (bound_dir N D tree p n (in_ino x) Hx) as (_ & Hu & _). by rewrite (up_dir N (in_ino x) _ (shown _ _ Hi) Hk) in Hu.
Qed.

Lemma entry_apart p q n x y : D !! (p, n) = Some (in_ino x, in_kind x) -> I !! in_ino x = Some (strip x) -> I !! q = Some (strip y) -> in_kind y = DIR -> (in_kind x = DIR -> avoids (up N) (in_ino x) q) -> in_ino x <> p /\ in_ino x <> q.
Proof using ok.
  intros Hx Hi Hq Hk Hav. split; [by apply (bound_not_parent N D tree p n (in_ino x) (in_kind x))|]. destruct (decide (in_kind x = DIR)) as [Hd|Hd]; [apply not_eq_sym; by eapply avoids_ne, Hav|].
  apply (kinds_differ (V := V) _ _ x y); congruence.
Qed.

Lemma exchange_ok : tree_ok (node_of <$> foldl put_inode I rows) (<[(p2, n2) := (in_ino l, in_kind l)]> (<[(p1, n1) := (in_ino r, in_kind r)]> D)).
Proof using All.
  pose proof (shown _ _ Hold) as Ho. rewrite Eold in Ho. pose proof (shown _ _ Hnew) as Hn. rewrite Enew in Hn. assert (I !! p1 = Some (strip old)) as Ho' by congruence. assert (I !! p2 = Some (strip new)) as Hn' by congruence.
  destruct (entry_apart p1 p2 n1 l new Hx1 Hl Hn' Dnew Hout1) as [L1 L2]. destruct (entry_apart p2 p1 n2 r old Hx2 Hr Ho' Dold Hout2) as [R2 R1].
  destruct Hcounts as [(A1 & A2 & _ & A4) (B1 & B2 & _ & B4) (C1 & C2 & _ & C4) (E1 & E2 & _ & E4)].
  apply (swap_ok N _ D tree p1 n1 p2 n2 (in_ino l) (in_kind l) (in_ino r) (in_kind r) Hx1 Hx2 Hne Hout1 Hout2). intros j. rewrite nodes_rows by exact Hrows.
  assert (List.find (fun x => in_ino x =? j) rows = if in_ino l =? j then Some l' else if in_ino r =? j then Some r' else if p1 =? j then Some old' else if negb (p1 =? p2) && (p2 =? j) then Some new' else None) as ->.
  { cbn [List.find app]. rewrite A1, B1, C1, Eold. destruct (in_ino l =? j), (in_ino r =? j), (p1 =? j), (p1 =? p2); cbn [List.find negb andb]; rewrite ?E1, ?Enew; done. }
  assert (forall k, dirs (k =? DIR) = one (k = DIR)) as Hdirs by (intros k; unfold dirs, one; destruct (Z.eqb_spec k DIR); [by rewrite decide_True|by rewrite decide_False]).
  destruct (Z.eqb_spec (in_ino l) j) as [<-|Hlj]; [|destruct (Z.eqb_spec (in_ino r) j) as [<-|Hrj]; [|destruct (Z.eqb_spec p1 j) as [<-|Hp1]; [|destruct (Z.eqb_spec p2 j) as [<-|Hp2]; rewrite ?andb_true_r, ?andb_false_r]]].
  - rewrite visible_node, A2, Lpresent, A4, (shown _ _ Hl). cbn. f_equal. unfold swapped. cbn. f_equal; [unfold one; rewrite !(decide_False (P := in_ino l = _)) by done; lia|].
    rewrite (decide_False (P := in_ino l = in_ino r /\ _)) by tauto. destruct (Z.eqb_spec (in_kind l) DIR) as [Hk|Hk]; cbn [andb]; [rewrite decide_True by done|by rewrite decide_False by tauto]. destruct (Z.eqb_spec p1 p2) as [E|]; [|done]. rewrite <-E. by apply (entry_hint p1 n1).
  - rewrite visible_node, B2, Rpresent, B4, (shown _ _ Hr). cbn. f_equal. unfold swapped. cbn. f_equal; [unfold one; rewrite !(decide_False (P := in_ino r = _)) by done; lia|].
    rewrite (decide_False (P := in_ino r = in_ino l /\ _)) by (intros [? _]; congruence). destruct (Z.eqb_spec (in_kind r) DIR) as [Hk|Hk]; cbn [andb]; [rewrite decide_True by done|by rewrite decide_False by tauto]. destruct (Z.eqb_spec p1 p2) as [E|]; [|done]. rewrite E. by apply (entry_hint p2 n2).
  - rewrite visible_node, C2, Opresent, C4, Ho, !Hdirs. cbn. f_equal. unfold swapped. cbn. rewrite (decide_False (P := p1 = in_ino l /\ _)), (decide_False (P := p1 = in_ino r /\ _)) by (intros [? _]; congruence). f_equal.
    assert (one (p1 = p1) = 1) as -> by (unfold one; by rewrite decide_True). unfold one at 5. destruct (Z.eqb_spec p1 p2); [rewrite decide_True by done|rewrite decide_False by done]; lia.
  - destruct (Z.eqb_spec p1 p2) as [|H12]; [congruence|]. cbn [negb andb]. rewrite visible_node, E2, Npresent, E4, Hn, !Hdirs. cbn. f_equal. unfold swapped. cbn. rewrite (decide_False (P := p2 = in_ino l /\ _)), (decide_False (P := p2 = in_ino r /\ _)) by (intros [? _]; congruence). f_equal.
    assert (one (p2 = p2) = 1) as -> by (unfold one; by rewrite decide_True). assert (one (p2 = p1) = 0) as -> by (unfold one; rewrite decide_False by congruence; done). lia.
  - destruct (N !! j) as [[k c h]|]; [|done]. cbn. f_equal. unfold swapped. cbn. rewrite (decide_False (P := j = in_ino l /\ _)), (decide_False (P := j = in_ino r /\ _)) by (intros [? _]; congruence). f_equal. unfold one. rewrite !(decide_False (P := j = _)) by congruence. lia.
Qed.
End exchanged.

Section names.
Context (parse_control : list byte -> option (list Control.ControlAclEntry)).
Context (mount : Mount) (expected : LayerRecord * LayerRecord) (scope : RequestScope) (is_open : Z -> bool) (fuel : nat) (V : View) (ok : well_formed V) (at_root : mt_root mount = ROOT).
Context (ids : Z -> Prop) (news : forall id, ids id -> fresh V id).
Abbreviation I := (v_inodes V).
Abbreviation N := (node_of <$> v_inodes V).
Abbreviation D := (v_names V).
Abbreviation tree := (wf_tree V ok).

Lemma wp_more (b : bool) n : wp V ids (if b then lift (nlink_inc n) else return_ n) (fun n' => n' = n + if b then 1 else 0).
Proof using. destruct b; wp_step; [by apply nlink_inc_ok|lia]. Qed.
Lemma wp_fewer (b : bool) n : wp V ids (if b then lift (nlink_dec n) else return_ n) (fun n' => n' = n - if b then 1 else 0).
Proof using. destruct b; wp_step; [by apply nlink_dec_ok|lia]. Qed.

Lemma create_step parent name kind mode umask uid gid rdev target : wp V ids (create_entry parse_control mount expected scope fuel parent name kind mode umask uid gid rdev target) (named_ok V ids).
Proof using ok news.
  unfold create_entry. wp_step. wp_check. wp_step. wp_step. wp_step. wp_check. cbn zeta. wp_step. wp_skip. destruct a as [creation_mode inherited]. wp_step. wp_step. wp_step; [exact Logic.I|]. wp_step. wp_step. wp_step; [exact Logic.I|]. do 4 wp_step. wp_step.
  eapply wp_mono; [|apply wp_more]. intros n' ->. wp_step. rename inode into pd, id into i. destruct (news _ H4) as [Hi Hx]. assert (Hfree := absent _ _ H3 Heqb0).
  rewrite (kind_dir _ _ H2), negb_false_iff, Z.eqb_eq in Heqb. apply (named_ok_intro ok ids news); cbn [m_inodes m_dentries mutation foldl]; [done| |intros _ _].
  - intros r [->| ->%list_elem_of_singleton]%elem_of_cons; [right; split; [by destruct kind|exact H4]|]. left. apply (row_kept _ pd); [cbn; congruence|done].
  - rewrite !nodes_put. cbn [in_state in_ino set_nlink touch set_times set_head]. rewrite H1, H0.
    assert (i <> parent) by congruence. rewrite insert_insert_ne by done.
    pose proof (create_ok N D tree parent name i (file_type_code kind) (node_of pd) (shown _ _ H) Heqb Hfree ltac:(by rewrite lookup_fmap, Hi)) as Hc. unfold created, counted, one in Hc. cbn [nd_kind nd_nlink nd_hint node_of] in Hc.
    by destruct kind.
Qed.

Lemma empty_step i : wp V ids (directory_is_empty i) (fun empty => empty = true -> forall n, D !! (i, n) = None).
Proof using.
  unfold directory_is_empty, readdir. wp_step. wp_step. wp_skip. wp_step. wp_skip. wp_step; [exact Logic.I|]. wp_step. wp_step. wp_step. wp_step. intros Hb%bool_decide_eq_true. apply H.
  destruct out as [|e out]; [done|]. subst. cbn in H0. destruct (from_utf8 _), (file_type_from_code _), (dir_entries out); done.
Qed.

Lemma drop_link_ok r r' : drop_link is_open r = Ok r' ->
  in_ino r' = in_ino r /\ attrs r' = attrs r /\ node_of r' = mkNode (in_kind r) (in_nlink r - 1) (in_parent_hint r) /\
  (in_state r' = in_state r \/ (in_state r' = Deleted /\ in_nlink r = 1)).
Proof using.
  unfold drop_link. destruct (nlink_dec (in_nlink r)) as [n|] eqn:E; cbn [result_bind]; [|done]. apply nlink_dec_ok in E. intros [= <-].
  destruct (Z.eqb_spec n 0); [destruct (is_open _)|]; cbn; split_and!; try done; unfold node_of; cbn; try congruence; auto. right. split; [done|lia].
Qed.

Lemma remove_step parent name directory : wp V ids (remove_entry parse_control mount expected scope is_open fuel parent name directory) (named_ok V ids).
Proof using ok news.
  unfold remove_entry. wp_step. wp_check. wp_step. wp_step. wp_step. wp_step. destruct o as [d|]; [|done]. injection H0 as ->. cbn in H. wp_step. wp_check. wp_step. wp_step. wp_step. wp_step. rename r into nd.
  destruct (bound_node ok parent name _ _ nd (eq_sym H) H0) as [Ek (pd0 & Hp0 & Hpd0)]. rewrite Ek in H. symmetry in H.
  wp_step; [exact Logic.I|]. wp_step; [exact Logic.I|]. rewrite (kind_dir _ _ H3) in Heqb, Heqb0.
  wp_step. assert (wp V ids (if directory then directory_is_empty (rd_ino a) else return_ true) (fun empty => empty = true -> directory = true -> forall n, D !! (rd_ino a, n) = None)) as Hw.
  { destruct directory; [eapply wp_mono; [|apply empty_step]; auto|]. by wp_step. }
  eapply wp_mono; [|exact Hw]. intros empty He. clear Hw. cbv beta. wp_step; [exact Logic.I|]. apply negb_false_iff in Heqb1. specialize (He Heqb1). do 5 wp_step. eapply wp_mono; [|apply wp_fewer]. intros n' ->. wp_step. rename r into pd.
  assert (rd_ino a <> parent) as Hip by (by apply (bound_not_parent _ _ tree parent name (rd_ino a) (in_kind nd))). rewrite (shown _ _ H4) in Hp0. injection Hp0 as <-. cbn in Hpd0.
  destruct directory; cbn [negb andb] in Heqb, Heqb0.
  - wp_step. wp_step. apply negb_false_iff, Z.eqb_eq in Heqb. apply (named_ok_intro ok ids news); cbn [m_inodes m_dentries mutation foldl]; [done| |intros _ _].
    + intros r [->| ->%list_elem_of_singleton]%elem_of_cons; left; [apply (row_kept _ nd)|apply (row_kept _ pd)]; try done; cbn; congruence.
    + rewrite !nodes_put. cbn [in_state in_ino set_nlink set_state set_ctime touch set_times set_head]. rewrite H6, H5, H1. rewrite <-delete_insert_ne by done. rewrite Heqb in H. by apply (rmdir_ok N D parent name (rd_ino a) (node_of nd) (node_of pd) tree H (shown _ _ H0) (shown _ _ H4) (He eq_refl)).
  - apply wp_lift. intros r' Hr'. wp_step. apply Z.eqb_neq in Heqb0. apply drop_link_ok in Hr' as (R1 & R2 & R4 & R5). cbn in R1, R2, R4, R5.
    apply (named_ok_intro ok ids news); cbn [m_inodes m_dentries mutation foldl]; [done| |intros _ _].
    + intros r [->| ->%list_elem_of_singleton]%elem_of_cons; left; [apply (row_kept _ nd); [congruence|exact R2]|apply (row_kept _ pd); [cbn; congruence|done]].
    + rewrite !nodes_put. cbn [in_state in_ino set_nlink touch set_times set_head]. rewrite H6, H5, R1, R4, H1.
      assert (delete (parent, name) D = put_name D (whiteout (g_head (mt_guard mount)) parent name)) as Hn by done. rewrite <-Hn, Z.sub_0_r. rewrite H2 in R5.
      assert (forall M, M !! parent = N !! parent -> <[parent := mkNode (in_kind pd) (in_nlink pd) (in_parent_hint pd)]> M = M) as Hid by (intros M HM; apply insert_id; rewrite HM; by apply shown).
      destruct R5 as [->|[-> Hl]]; change (node_of (set_nlink (in_nlink pd) _)) with (mkNode (in_kind pd) (in_nlink pd) (in_parent_hint pd)).
      * rewrite Hid by (by apply lookup_insert_ne). by apply (unlink_ok N D parent name (rd_ino a) (node_of nd) false tree H (shown _ _ H0) Heqb0).
      * rewrite Hid by (by apply lookup_delete_ne). by apply (unlink_ok N D parent name (rd_ino a) (node_of nd) true tree H (shown _ _ H0) Heqb0).
Qed.

Lemma orphan_step ino : wp V ids (remove_orphan mount expected ino) (named_ok V ids).
Proof using ok news.
  unfold remove_orphan. wp_step. apply wp_inode. intros [r|] Hr Hi; [|exact Logic.I]. destruct (Hi r eq_refl) as [Hino Hs]. cbn in Hr. symmetry in Hr. wp_step; [exact Logic.I|]. apply negb_false_iff, Z.eqb_eq in Heqb. wp_step. wp_step.
  apply (named_ok_intro ok ids news); cbn [m_inodes m_dentries mutation foldl]; [done| |intros _ _].
  - intros r' ->%list_elem_of_singleton. left. apply (row_kept _ r); [cbn; congruence|done].
  - rewrite nodes_put. cbn. rewrite Hino. by apply (forget_ok N D ino (node_of r) tree); [apply shown|].
Qed.

Lemma link_step ino parent name : wp V ids (link parse_control mount expected scope fuel ino parent name) (named_ok V ids).
Proof using ok news.
  unfold link, lookup. wp_step. wp_check. wp_step. wp_check. wp_step. wp_step. wp_check. wp_step. wp_step. wp_step. wp_step; [exact Logic.I|]. do 4 wp_step. wp_step; [exact Logic.I|]. do 4 wp_step. wp_step; [exact Logic.I|]. do 5 wp_step.
  assert (D !! (parent, name) = None) as Hfree by (apply (absent o); [done|by destruct o]). rename r into nd, r0 into pd. rewrite (kind_dir _ _ H3) in Heqb0. apply Z.eqb_neq in Heqb0.
  rewrite (kind_dir _ _ H7) in Heqb1. apply negb_false_iff, Z.eqb_eq in Heqb1. apply nlink_inc_ok in H8. assert (ino <> parent) as Hip by (apply (kinds_differ (V := V) _ _ nd pd); congruence). apply (named_ok_intro ok ids news); cbn [m_inodes m_dentries mutation foldl]; [done| |intros _ _].
  - intros r [->| ->%list_elem_of_singleton]%elem_of_cons; left; [apply (row_kept _ nd); [cbn; congruence|done]|apply (row_kept _ pd); [cbn; congruence|done]].
  - rewrite !nodes_put. cbn [in_state in_ino set_nlink set_ctime touch set_times set_head]. rewrite H2, H6, H1, H5. rewrite H8.
    rewrite insert_id by (rewrite lookup_insert_ne by done; exact (shown _ _ H4)). by apply (link_ok N D parent name ino (node_of nd) (node_of pd) tree); [exact (shown _ _ H4)|..|exact (shown _ _ H0)|].
Qed.
(** The climb of a rename. *)
Lemma descend_step ancestor : ancestor <> ROOT -> forall n visited directory, wp V ids (descend_loop mount n visited directory ancestor) (fun below => below = false -> avoids (up N) ancestor directory).
Proof using ok at_root.
  intros Ha. induction n as [|n IH]; intros visited directory; cbn [descend_loop]; [exact Logic.I|]. rewrite at_root. destruct (Z.eqb_spec directory ancestor) as [|Hda]; [by wp_step|].
  destruct (Z.eqb_spec directory ROOT) as [->|Hdr]; [wp_step; by constructor|]. wp_step; [exact Logic.I|]. do 4 wp_step. wp_step; [exact Logic.I|]. rewrite (kind_dir _ _ H2) in Heqb0. apply negb_false_iff, Z.eqb_eq in Heqb0.
  pose proof (shown _ _ H) as Hn. destruct (dir_counts N D tree directory (node_of r) Hn Heqb0) as [_ Hb]. rewrite decide_False in Hb by done. destruct Hb as ([q m] & _ & Hq). cbn in Hq. rewrite Hq.
  assert (up N directory = Some q) as Hup by (rewrite (up_dir N directory _ Hn Heqb0); exact Hq). destruct (Z.eqb_spec q directory) as [->|Hqd].
  - exfalso. apply (avoids_ne (up N) directory directory); [|done]. by apply parent_avoids; [| |apply (t_tree N D tree directory _ Hn)].
  - eapply wp_mono; [|apply IH]. intros below Hbelow ->. apply (avoids_step _ _ _ q); auto.
Qed.

Lemma below_step (b : bool) ancestor directory : ancestor <> ROOT ->
  wp V ids (if b then directory_is_descendant_of mount fuel directory ancestor else return_ false) (fun below => below = false -> b = true -> avoids (up N) ancestor directory).
Proof using ok at_root. intros Ha. destruct b; [eapply wp_mono; [|by apply descend_step]; auto|by wp_step]. Qed.

(** What [check_replace] finds. *)
Lemma replace_step kind d : wp V ids (check_replace kind d) (fun _ => (bool_decide (kind = Dir) = (in_kind d =? DIR)) /\ (in_kind d = DIR -> forall n, D !! (in_ino d, n) = None)).
Proof using.
  unfold check_replace. wp_step. wp_step. rewrite (kind_dir _ _ H). destruct (bool_decide (kind = Dir)), (Z.eqb_spec (in_kind d) DIR); try exact Logic.I.
  - wp_step. eapply wp_mono; [|apply empty_step]. intros empty He. wp_step; [exact Logic.I|]. wp_step. split; [done|]. intros _. apply He. by apply negb_false_iff.
  - by wp_step.
Qed.

Lemma rename_counts_ok p1 p2 now dir source old new dest source' old' new' dest' : rename_counts mount is_open p1 p2 now dir source old new dest = Ok (source', old', new', dest') ->
  counts_after p1 p2 dir source old new source' old' new' dest dest'.
Proof using.
  unfold rename_counts. set (old0 := touch now _). set (new0 := touch now (set_head _ new)).
  destruct (if dir && _ then _ else _) as [[[source1 old1] new1]|] eqn:E1; cbn [result_bind]; [|done].
  assert (exists hint k, hint = (if dir && negb (p1 =? p2) then Some p2 else in_parent_hint source) /\ k = (if dir && negb (p1 =? p2) then 1 else 0) /\
    source1 = set_parent_hint hint source /\ old1 = set_nlink (in_nlink old - k) old0 /\ new1 = set_nlink (in_nlink new + k) new0) as (hint & k & Eh & Ek & -> & -> & ->).
  { destruct (dir && _); [|injection E1 as <- <- <-; exists (in_parent_hint source), 0; rewrite Z.sub_0_r, Z.add_0_r; by destruct source].
    destruct (nlink_dec _) as [f|] eqn:Ef; cbn [result_bind] in E1; [|done]. destruct (nlink_inc _) as [g|] eqn:Eg; cbn [result_bind] in E1; [|done]. apply nlink_dec_ok in Ef. apply nlink_inc_ok in Eg. cbn in Ef, Eg. injection E1 as <- <- <-.
    exists (Some p2), 1. by rewrite Ef, Eg. }
  clear E1. destruct dest as [d|]; cbn [result_bind].
  - destruct (file_type_from_code (in_kind d)) as [kind|] eqn:Hk; cbn [result_bind]; [|done]. rewrite (kind_dir _ _ Hk). destruct (in_kind d =? DIR) eqn:Ed.
    + destruct (nlink_dec _) as [f|] eqn:Ef; cbn [result_bind]; [|done]. apply nlink_dec_ok in Ef. cbn in Ef. intros [= <- <- <- <-]. split; rewrite ?Ed, <-?Eh, <-?Ek; split_and!; try done; by rewrite Ef.
    + destruct (drop_link is_open d) as [d1|] eqn:Edl; cbn [result_bind]; [|done]. apply drop_link_ok in Edl as (D1 & D2 & D4 & D5). intros [= <- <- <- <-]. split; rewrite ?Ed, <-?Eh, <-?Ek; split_and!; try done. by rewrite Z.sub_0_r.
  - intros [= <- <- <- <-]. split; rewrite <-?Eh, <-?Ek; try split_and!; try done. by rewrite Z.sub_0_r.
Qed.


Lemma rename_step p1 n1 p2 n2 : wp V ids (rename parse_control mount expected scope is_open fuel p1 n1 p2 n2) (named_ok V ids).
Proof using ok news at_root.
  unfold rename. wp_step. wp_check. wp_step. wp_check. wp_step; [exact Logic.I|]. wp_step. wp_step. wp_step. wp_step. destruct o as [e|]; [|done]. injection H0 as ->. cbn in H. wp_step. wp_step. rename r into source. symmetry in H.
  destruct (bound_node ok p1 n1 _ _ source H H0) as [Ek _]. rewrite Ek in H. rewrite <-H1 in H.
  assert (in_ino source <> ROOT) as Hroot by (by apply (bound_not_root N D tree (p1, n1) (in_ino source) (in_kind source))).
  wp_step. wp_step. rewrite (kind_dir _ _ H3). wp_step. wp_step. rename o into target. wp_step; [exact Logic.I|]. rewrite <-H1 in Heqb0. wp_step. wp_check. wp_step. wp_check. wp_step. rewrite <-H1. eapply wp_mono; [|by apply below_step]. intros below Hout. cbv beta.
  wp_step; [exact Logic.I|]. specialize (Hout eq_refl).
  wp_step. assert (wp V ids match target with Some entry => let* inode := inode_or (NotFound (rd_ino entry)) (rd_ino entry) in return_ (Some inode) | None => return_ None end
    (fun dest => match dest with Some d => D !! (p2, n2) = Some (in_ino d, in_kind d) /\ I !! in_ino d = Some (strip d) /\ in_state d = Present /\ in_ino d <> in_ino source | None => D !! (p2, n2) = None end)) as Hw.
  { destruct target as [entry|]; [|by wp_step]. cbn in H4. symmetry in H4. do 3 wp_step. destruct (bound_node ok p2 n2 _ _ r H4 H5) as [Et _]. rewrite Et, <-H6 in H4. apply Z.eqb_neq in Heqb0. rewrite <-H6 in Heqb0, H5. done. }
  eapply wp_mono; [|exact Hw]. clear Hw. intros dest Hdest. cbv beta. wp_step.
  assert (wp V ids match dest with Some inode => check_replace a0 inode | None => return_ tt end
    (fun _ => match dest with Some d => (in_kind source =? DIR) = (in_kind d =? DIR) /\ (in_kind d = DIR -> forall n, D !! (in_ino d, n) = None) | None => True end)) as Hw.
  { destruct dest as [d|]; [|by wp_step]. rewrite <-(kind_dir _ _ H3). eapply wp_mono; [|apply replace_step]. auto. }
  eapply wp_mono; [|exact Hw]. clear Hw. intros [] Hreplace. cbv beta. wp_step. wp_step. rename r into old. wp_step.
  assert (wp V ids (if p1 =? p2 then return_ old else inode_or (ParentNotFound p2) p2) (fun new => in_ino new = p2 /\ I !! in_ino new = Some (strip new) /\ in_state new = Present /\ (p1 = p2 -> old = new))) as Hw.
  { destruct (Z.eqb_spec p1 p2) as [<-|]; wp_step; split_and!; congruence. }
  eapply wp_mono; [|exact Hw]. clear Hw. intros new (N1 & N2 & N3 & Hsame). cbv beta. do 2 wp_step. rewrite (kind_dir _ _ H8). wp_step; [exact Logic.I|]. apply negb_false_iff, Z.eqb_eq in Heqb2. do 3 wp_step. apply wp_lift. intros [[[source' old'] new'] dest'] Hcounts%rename_counts_ok. cbv beta iota. wp_step.
  rewrite <-H1 in H0. rewrite <-H6 in H5. apply (named_ok_intro ok ids news); cbn [m_inodes m_dentries mutation]; [done| |].
  - intros r Hr. left. destruct Hcounts as [(S1 & _ & S3 & _) (O1 & _ & O3 & _) (M1 & _ & M3 & _) Hd]. rewrite elem_of_cons, elem_of_app in Hr. destruct Hr as [->|[Hr|Hr]].
    + apply (row_kept _ source); congruence.
    + assert (r = old' \/ r = new') as [-> | ->] by (destruct (p1 =? p2); [apply list_elem_of_singleton in Hr; by right|]; rewrite elem_of_cons, list_elem_of_singleton in Hr; tauto); [apply (row_kept _ old)|apply (row_kept _ new)]; congruence.
    + destruct dest' as [d'|]; [|by apply elem_of_nil in Hr]. apply list_elem_of_singleton in Hr as ->. destruct dest as [d|]; [|done]. destruct Hd as (D1 & D2 & _), Hdest as (_ & X2 & _). apply (row_kept _ d); congruence.
  - intros count valid. pose proof (proj2 (mr_inodes _ (validate_rows_of _ count valid))) as Hrows. cbn [m_inodes mutation] in Hrows. rewrite Ek. change (foldl put_name D _) with (<[(p2, n2) := (in_ino source, in_kind source)]> (delete (p1, n1) D)).
    assert (in_kind source = DIR -> avoids (up N) (in_ino source) p2) as Hout' by (intros Hk; apply Hout; by apply Z.eqb_eq). destruct dest as [d|].
    + destruct Hdest as (X1 & X2 & X3 & X4), Hreplace as [Y1 Y2]. destruct dest' as [d'|]; [|by destruct (ca_dest _ _ _ _ _ _ _ _ _ _ _ Hcounts)].
      by apply (rename_onto_taken V ok p1 p2 n1 n2 source old new source' old' new' (Some d) (Some d')) with (d := d) (d' := d').
    + destruct dest' as [d'|]; [by destruct (ca_dest _ _ _ _ _ _ _ _ _ _ _ Hcounts)|]. by apply (rename_onto_free V ok p1 p2 n1 n2 source old new source' old' new' None None).
Qed.

Lemma exchange_step p1 n1 p2 n2 : wp V ids (rename_exchange parse_control mount expected scope fuel p1 n1 p2 n2) (named_ok V ids).
Proof using ok news at_root is_open.
  unfold rename_exchange. wp_step. wp_check. wp_step. wp_check. do 4 wp_step. destruct o as [e|]; [|done]. injection H0 as ->. cbn in H. symmetry in H. rename a into el. do 4 wp_step. destruct o as [e|]; [|done]. injection H1 as ->. cbn in H0. symmetry in H0. rename a into er.
  wp_step. wp_check. wp_step. wp_check. wp_step; [exact Logic.I|]. apply Z.eqb_neq in Heqb.
  pose proof (bound_not_root N D tree _ _ _ H) as Hroot1. pose proof (bound_not_root N D tree _ _ _ H0) as Hroot2.
  wp_step. wp_step. wp_step. rewrite (kind_dir _ _ H1). eapply wp_mono; [|by apply below_step]. intros below Hout1. cbv beta. wp_step; [exact Logic.I|]. clear Heqb0. specialize (Hout1 eq_refl). rewrite Z.eqb_eq in Hout1.
  wp_step. wp_step. wp_step. rewrite (kind_dir _ _ H2). eapply wp_mono; [|by apply below_step]. intros below' Hout2. cbv beta. wp_step; [exact Logic.I|]. clear Heqb0. specialize (Hout2 eq_refl). rewrite Z.eqb_eq in Hout2.
  do 2 wp_step. rename r into l. destruct (bound_node ok p1 n1 _ _ l H H3) as [Et1 _]. do 2 wp_step. destruct (bound_node ok p2 n2 _ _ r H0 H6) as [Et2 _]. rewrite Et1 in H, Hout1 |- *. rewrite <-H4 in H, H3, Heqb, Hout1 |- *. rewrite Et2 in H0, Hout2 |- *. rewrite <-H7 in H0, H6, Heqb, Hout2 |- *.
  do 2 wp_step. rename r0 into old. wp_step.
  assert (wp V ids (if p1 =? p2 then return_ old else inode_or (ParentNotFound p2) p2) (fun new => in_ino new = p2 /\ I !! in_ino new = Some (strip new) /\ in_state new = Present)) as Hw by (destruct (Z.eqb_spec p1 p2) as [<-|]; wp_step; split_and!; congruence).
  eapply wp_mono; [|exact Hw]. clear Hw. intros new (N1 & N2 & N3). cbv beta. do 2 wp_step. rewrite (kind_dir _ _ H12). wp_step; [exact Logic.I|]. apply negb_false_iff, Z.eqb_eq in Heqb0.
  do 2 wp_step. rewrite (kind_dir _ _ H13). wp_step; [exact Logic.I|]. apply negb_false_iff, Z.eqb_eq in Heqb1. do 4 wp_step. rewrite (kind_dir _ _ H14), (kind_dir _ _ H15). wp_step. apply wp_lift. intros [[[l' r'] old'] new'] Hcounts%exchange_counts_ok. cbv beta iota. do 3 wp_step.
  rewrite <-H10 in H9.
  set (row x := set_ctime t (set_head (g_head (mt_guard mount)) x)). assert (counts_swapped p1 p2 l r old new (row l') (row r') (row (touch t old')) (row (touch t new'))) as Hc by (destruct Hcounts; by split).
  apply (named_ok_intro ok ids news); cbn [m_inodes m_dentries mutation]; [done| |].
  - intros x Hx. left. destruct Hc as [(A1 & _ & A3 & _) (B1 & _ & B3 & _) (C1 & _ & C3 & _) (E1 & _ & E3 & _)].
    assert (x = row l' \/ x = row r' \/ x = row (touch t old') \/ x = row (touch t new')) as Hcase by (destruct (p1 =? p2); cbn [app] in Hx; rewrite !elem_of_cons, elem_of_nil in Hx; tauto).
    destruct Hcase as [->|[->|[->| ->]]]; [apply (row_kept _ l)|apply (row_kept _ r)|apply (row_kept _ old)|apply (row_kept _ new)]; congruence.
  - intros count valid. pose proof (proj2 (mr_inodes _ (validate_rows_of _ count valid))) as Hrows. change (foldl put_name D _) with (<[(p2, n2) := (in_ino l, in_kind l)]> (<[(p1, n1) := (in_ino r, in_kind r)]> D)). by apply (exchange_ok V ok p1 p2 n1 n2 l r old new (row l') (row r') (row (touch t old')) (row (touch t new'))).
Qed.
End names.
