(* ===== verification/OverlayAttempts.v ===== *)
(** The requests that change a workspace, the attempt that each is, and that it
    keeps the view well formed and commits a mutation of the version it read. *)
From stdpp Require Import options.
From S2P Require Import Prelude Span Slices Acl MetaTypes Namespace Layers LayerExtents LayerCompact LayerHistory LayerNames Access Overlay OverlayCommits OverlayView OverlayPlan OverlayOps OverlayTree OverlayState OverlaySteps OverlayWell.

(** ** Requests *)

Inductive Request :=
| Create (parent : Z) (name : list byte) (kind : FileType) (mode umask uid gid rdev : Z) (target : option (list byte))
| Remove (parent : Z) (name : list byte) (directory : bool)
| Link (ino parent : Z) (name : list byte)
| Rename (old_parent : Z) (old_name : list byte) (new_parent : Z) (new_name : list byte)
| Exchange (old_parent : Z) (old_name : list byte) (new_parent : Z) (new_name : list byte)
| SetAttr (ino : Z) (req : SetAttrRequest) (flags : Z) (actor : option (Z * list Z))
| UpdateAcl (ino : Z) (name : list byte) (value : option (list byte)) (flags uid : Z) (groups : list Z)
| SetXattr (ino : Z) (name value : list byte) (flags : Z)
| RemoveXattr (ino : Z) (name : list byte)
| SetAcl (ino acl_type qualifier permissions : Z)
| Truncate (ino size chunk_size : Z)
| Open (ino flags : Z)
| HoleRange (ino offset len : Z) (keep_size : bool)
| Write (batch : list PendingWrite)
| Orphan (ino : Z).

(** An attempt that changes names keeps the view well formed. *)
Lemma named_step {A} V ids (step : Step A) : named_ok V ids step -> step_ok V step.
Proof. destruct step; [done|]. by intros [_ Hw]. Qed.

Section attempts.
Context (parse_control : list byte -> option (list Control.ControlAclEntry)) (mount : Mount) (expected : LayerRecord * LayerRecord) (scope : RequestScope) (is_open : Z -> bool) (fuel : nat).

Inductive attempt : Request -> forall {A}, plan (Step A) -> Prop :=
| Attempt_create parent name kind mode umask uid gid rdev target :
    attempt (Create parent name kind mode umask uid gid rdev target) (create_entry parse_control mount expected scope fuel parent name kind mode umask uid gid rdev target)
| Attempt_remove parent name directory : attempt (Remove parent name directory) (remove_entry parse_control mount expected scope is_open fuel parent name directory)
| Attempt_link ino parent name : attempt (Link ino parent name) (link parse_control mount expected scope fuel ino parent name)
| Attempt_rename p1 n1 p2 n2 : attempt (Rename p1 n1 p2 n2) (rename parse_control mount expected scope is_open fuel p1 n1 p2 n2)
| Attempt_exchange p1 n1 p2 n2 : attempt (Exchange p1 n1 p2 n2) (rename_exchange parse_control mount expected scope fuel p1 n1 p2 n2)
| Attempt_set_attr ino req flags actor : attempt (SetAttr ino req flags actor) (set_attr_checked parse_control mount expected scope ino req flags actor)
| Attempt_update_acl ino name value flags uid groups : attempt (UpdateAcl ino name value flags uid groups) (update_posix_acl_with_flags mount expected ino name value flags uid groups)
| Attempt_set_xattr ino name value flags : attempt (SetXattr ino name value flags) (set_xattr_bytes mount expected ino name value flags)
| Attempt_remove_xattr ino name : attempt (RemoveXattr ino name) (remove_xattr_bytes mount expected ino name)
| Attempt_set_acl ino t q p : attempt (SetAcl ino t q p) (set_acl mount expected ino t q p)
| Attempt_truncate ino size chunk_size : attempt (Truncate ino size chunk_size) (truncate mount expected ino size chunk_size)
| Attempt_open ino flags : attempt (Open ino flags) (open parse_control mount expected scope ino flags)
| Attempt_hole ino offset len keep_size : attempt (HoleRange ino offset len keep_size) (apply_hole_range mount expected ino offset len keep_size)
| Attempt_write batch : attempt (Write batch) (commit_write_batch mount expected batch)
| Attempt_orphan ino : attempt (Orphan ino) (remove_orphan mount expected ino).

Lemma attempt_ok V ids request {A} (p : plan (Step A)) : well_formed V -> (forall id, ids id -> fresh V id) -> mt_root mount = ROOT -> attempt request p -> wp V ids p (step_ok V).
Proof using.
  intros ok Hids Hroot. destruct 1.
  - eapply wp_mono; [apply named_step|by apply create_step].
  - eapply wp_mono; [apply named_step|by apply remove_step].
  - eapply wp_mono; [apply named_step|by apply link_step].
  - eapply wp_mono; [apply named_step|by apply rename_step].
  - eapply wp_mono; [apply named_step|by apply exchange_step].
  - by apply set_attr_step.
  - by apply update_acl_step.
  - by apply set_xattr_step.
  - by apply remove_xattr_step.
  - by apply set_acl_step.
  - by apply truncate_step.
  - by apply open_step.
  - by apply hole_range_step.
  - by apply batch_step.
  - eapply wp_mono; [apply named_step|by apply orphan_step].
Qed.
End attempts.

(** ** The version of a mutation *)

(** Whatever the reads answer, [p] ends with an answer that satisfies [Q]. *)
Fixpoint always {A} (p : plan A) (Q : A -> Prop) : Prop :=
  match p with
  | Done (Ok a) => Q a
  | Done (Err _) => True
  | ReadInode _ k => forall r, always (k r) Q
  | ReadDentry _ _ k => forall r, always (k r) Q
  | ReadXattr _ _ k => forall r, always (k r) Q
  | ReadDirectory _ k => forall r, always (k r) Q
  | ReadPermissions _ k => forall r, always (k r) Q
  | AllocateId k => forall id, always (k id) Q
  | Now k => forall now, always (k now) Q
  end.

Lemma always_any {A} (p : plan A) (Q : A -> Prop) : (forall a, Q a) -> always p Q.
Proof. intros HQ. induction p as [[a|e]| | | | | | |]; cbn; auto. Qed.

Lemma always_bind {A B} (p : plan A) (f : A -> plan B) Q : (forall a, always (f a) Q) -> always (plan_bind p f) Q.
Proof. intros Hf. induction p as [[a|e]| | | | | | |]; cbn; auto. Qed.

Lemma always_run {A} chain expected e (p : plan A) Q : always p Q -> forall n a n', run chain expected e n p = (Ok a, n') -> Q a.
Proof. induction p as [[a|err]| | | | | | |]; cbn; intros Hp n b n' Hr; [by injection Hr as <- <-|done|..]; by eapply H, Hr. Qed.

Definition of_version {A} (mount : Mount) (expected : LayerRecord * LayerRecord) (step : Step A) : Prop :=
  match step with Return _ => True | Commit m _ => m_guard m = mt_guard mount /\ m_head m = expected.1 /\ m_base m = expected.2 end.

Ltac always_step :=
  lazymatch goal with
  | |- always (plan_bind _ _) _ => apply always_bind; intros ?; cbv beta iota
  | |- always (fail _) _ => exact I
  | |- always (return_ _) _ => done
  | |- always (mutate_inode _ _ _ _ _) _ => done
  | |- always (mutate_data _ _ _ _ _ _) _ => done
  | |- always (match ?x with _ => _ end) _ => destruct x
  | |- always (let (_, _) := ?x in _) _ => destruct x
  end.

Lemma attempt_version parse_control mount expected scope is_open fuel request {A} (p : plan (Step A)) : attempt parse_control mount expected scope is_open fuel request p -> always p (of_version mount expected).
Proof.
  assert (forall ino name value flags uid groups, always (update_posix_acl_with_flags mount expected ino name value flags uid groups) (of_version mount expected)) as Hacl
    by (intros; unfold update_posix_acl_with_flags; repeat always_step).
  destruct 1; [unfold create_entry|unfold remove_entry|unfold link|unfold rename|unfold rename_exchange|unfold set_attr_checked|apply Hacl|unfold set_xattr_bytes|unfold remove_xattr_bytes|unfold set_acl|unfold truncate|unfold open|unfold apply_hole_range
    |unfold commit_write_batch|unfold remove_orphan]; repeat (always_step || apply Hacl).
Qed.
