(* ===== verification/OverlayFuel.v ===== *)
(** The walks of the workspace operations end: with one more step than a view has
    inodes, no attempt that reads this view runs out of fuel. *)
From stdpp Require Import options.
From S2P Require Import Prelude Span Slices Acl MetaTypes Namespace Layers LayerExtents LayerCompact LayerHistory LayerNames Access Overlay OverlayCommits OverlayView OverlayPlan OverlayOps OverlayTree OverlayState OverlaySteps OverlayWell OverlayAttempts.

Create HintDb fuel.

Definition fueled {A} (r : result OverlayError A) : Prop := r <> Err OutOfFuel.

(** Whatever [p] ends with when its reads are answered from [V], the fuel was
    enough. *)
Fixpoint ends {A} (V : View) (p : plan A) : Prop :=
  match p with
  | Done r => fueled r
  | ReadInode ino k => forall o, strip <$> o = v_inodes V !! ino -> ends V (k (Ok o))
  | ReadDentry parent name k => forall o, ends V (k (Ok o))
  | ReadXattr ino name k => forall o, ends V (k (Ok o))
  | ReadDirectory ino k => forall out, ends V (k (Ok out))
  | ReadPermissions ino k =>
      (forall inode access default control, v_inodes V !! ino = Some (strip inode) -> ends V (k (Ok (inode, access, default, control)))) /\
      (forall e, e <> OutOfFuel -> ends V (k (Err e)))
  | AllocateId k => forall id, ends V (k id)
  | Now k => forall now, ends V (k now)
  end.

Lemma ends_bind {A B} V (p : plan A) (f : A -> plan B) : ends V p -> (forall a, ends V (f a)) -> ends V (plan_bind p f).
Proof. intros Hp Hf. induction p as [[a|e]| | | | | | |]; cbn in *; auto; [congruence|]. destruct Hp. split; auto. Qed.

Lemma ends_try {A} V (p : plan A) : ends V p -> ends V (plan_try p).
Proof. intros Hp. induction p; cbn in *; auto; [done|]. destruct Hp. split; auto. Qed.

(** *** Results *)

Lemma fueled_bind {A B} (r : result OverlayError A) (f : A -> result OverlayError B) : fueled r -> (forall a, fueled (f a)) -> fueled (result_bind r f).
Proof. destruct r; cbn; [auto|]. unfold fueled. congruence. Qed.

Lemma fueled_map {E A} (f : E -> OverlayError) (r : result E A) : (forall e, f e <> OutOfFuel) -> fueled (map_err f r).
Proof. destruct r; cbn; [done|]. intros Hf [= E0]. by destruct (Hf e). Qed.

Lemma workspace_fueled error : workspace_to_meta error <> OutOfFuel.
Proof. by destruct error. Qed.

Lemma fueled_kind code : fueled (file_type_from_code code).
Proof. unfold fueled, file_type_from_code. by repeat case_match. Qed.
#[export] Hint Resolve fueled_bind fueled_map workspace_fueled fueled_kind : fuel.

(** Through the cases of a result or a plan. *)
Ltac fuel_step :=
  lazymatch goal with
  | |- fueled (Ok _) => done
  | |- fueled (Err _) => done
  | |- fueled (result_bind _ _) => apply fueled_bind; [|intros ?; cbv beta iota]
  | |- fueled (map_err _ _) => apply fueled_map; [intros ?; first [done|apply workspace_fueled]]
  | |- fueled (file_type_from_code _) => apply fueled_kind
  | |- fueled (of_option _ ?o) => destruct o; done
  | |- fueled (if ?b then _ else _) => destruct b
  | |- fueled (match ?x with _ => _ end) => destruct x
  | |- ends _ (plan_bind _ _) => apply ends_bind; [|intros ?; cbv beta iota]
  | |- ends _ (return_ _) => done
  | |- ends _ (fail _) => done
  | |- ends _ (lift _) => change (ends ?V (lift ?r)) with (fueled r)
  | |- ends _ (get_inode _) => intros ? ?; done
  | |- ends _ (get_dentry _ _) => intros ?; done
  | |- ends _ (get_xattr _ _) => intros ?; done
  | |- ends _ (get_directory _) => intros ?; done
  | |- ends _ (get_permissions _) => split; [done|]; intros ? ? [= ?]; done
  | |- ends _ allocate_id => intros ?; done
  | |- ends _ now_ns => intros ?; done
  | |- ends _ (mutate_inode _ _ _ _ _) => done
  | |- ends _ (mutate_data _ _ _ _ _ _) => done
  | |- ends _ (if ?b then _ else _) => destruct b
  | |- ends _ (match ?x with _ => _ end) => destruct x
  | |- ends _ (let (_, _) := ?x in _) => destruct x
  end; cbv zeta.

Lemma fueled_name name : fueled (validate_name_bytes name).
Proof. unfold validate_name_bytes. repeat fuel_step. Qed.
Lemma fueled_xattr_name name : fueled (validate_xattr_name_bytes name).
Proof. unfold validate_xattr_name_bytes. repeat fuel_step. Qed.
Lemma fueled_attr inode : fueled (file_attr inode).
Proof. unfold file_attr. repeat fuel_step. Qed.
Lemma fueled_inc n : fueled (nlink_inc n).
Proof. unfold nlink_inc. repeat fuel_step. Qed.
Lemma fueled_dec n : fueled (nlink_dec n).
Proof. unfold nlink_dec. repeat fuel_step. Qed.

Lemma fueled_entries entries : fueled (dir_entries entries).
Proof. induction entries as [|entry entries IH]; cbn [dir_entries]; [done|]. unfold from_utf8. repeat fuel_step. done. Qed.

#[export] Hint Resolve fueled_name fueled_xattr_name fueled_attr fueled_inc fueled_dec fueled_entries : fuel.
Ltac fuel_walk := repeat first [fuel_step | solve [eauto with fuel nocore]].

Section hole.
Context (mount : Mount) (cs_pos : 0 < mt_chunk_size mount).
Abbreviation cs := (mt_chunk_size mount).

Lemma fueled_hole_loop layer ino stop : forall fuel cursor, stop / cs - cursor / cs < Z.of_nat fuel -> fueled (hole_loop mount fuel layer ino cursor stop).
Proof using cs_pos.
  induction fuel as [|fuel IH]; intros cursor Hf; cbn [hole_loop]; (destruct (Z.leb_spec stop cursor) as [Hs|Hs]; [done|]).
  - pose proof (Z.div_le_mono cursor stop cs cs_pos ltac:(lia)). lia.
  - pose proof (Z.mod_pos_bound cursor cs cs_pos) as Hm. pose proof (Z.div_mod cursor cs ltac:(lia)) as Hd. cbv zeta. set (l := Z.min _ _). destruct (u64_checked_add cursor l) as [next|] eqn:E; cbn [of_option result_bind]; [|done].
    apply u64_checked_add_Some in E as [-> _]. fuel_step; [|done]. destruct (decide (stop - cursor <= cs - cursor mod cs)) as [Hlast|Hmore].
    + assert (cursor + l = stop) as -> by lia. destruct fuel; cbn [hole_loop]; by rewrite (proj2 (Z.leb_le stop stop)) by lia.
    + apply IH. assert (cursor + l = (cursor / cs + 1) * cs) as -> by lia. rewrite Z.div_mul by lia. lia.
Qed.

Lemma fueled_hole layer ino start stop : fueled (hole_extents mount layer ino start stop).
Proof using cs_pos.
  destruct (Z.leb_spec stop start) as [Hs|Hs]; [|apply fueled_hole_loop; pose proof (Z.div_le_mono start stop cs cs_pos ltac:(lia)); lia].
  unfold hole_extents. destruct (Z.to_nat _); cbn [hole_loop]; by rewrite (proj2 (Z.leb_le stop start)).
Qed.
End hole.

(** *** Walks to the root *)

Section walks.
Context (parse_control : list byte -> option (list Control.ControlAclEntry)) (mount : Mount) (scope : RequestScope) (V : View).
Abbreviation known := (dom (v_inodes V)).

Lemma visited_more (visited : gset Z) i : i ∈ known -> i ∉ visited -> size (({[i]} ∪ visited) ∩ known) = S (size (visited ∩ known)).
Proof using.
  intros Hi Hn. assert (({[i]} ∪ visited) ∩ known = {[i]} ∪ visited ∩ known) as -> by set_solver. rewrite size_union by set_solver. by rewrite size_singleton.
Qed.

Lemma visited_bound (visited : gset Z) : (size (visited ∩ known) <= size (v_inodes V))%nat.
Proof using. rewrite <-size_dom. apply subseteq_size. set_solver. Qed.

Lemma descend_ends ancestor : forall fuel visited directory, (size (v_inodes V) < size (visited ∩ known) + fuel)%nat -> ends V (descend_loop mount fuel visited directory ancestor).
Proof using.
  induction fuel as [|fuel IH]; intros visited directory Hf; cbn [descend_loop]; [pose proof (visited_bound visited); lia|]. destruct (directory =? ancestor), (directory =? mt_root mount); try done.
  destruct (bool_decide (directory ∈ visited)) eqn:Hb; [done|]. apply bool_decide_eq_false in Hb. unfold inode_or. intros [r|] Hr; cbn; [|done].
  destruct (file_type_from_code (in_kind r)) as [kind|e] eqn:Ek; cbn; [|intros [= ->]; by destruct (fueled_kind (in_kind r))]. destruct (bool_decide (kind = Dir)); cbn; [|done]. destruct (in_parent_hint r) as [parent|]; [|done]. destruct (parent =? directory); [done|].
  apply IH. rewrite visited_more; [lia|apply elem_of_dom; cbn in Hr; by eexists|done].
Qed.

Lemma ancestors_end uid groups : forall fuel visited ancestor, (size (v_inodes V) < size (visited ∩ known) + fuel)%nat -> ends V (check_ancestors parse_control mount fuel visited uid groups ancestor).
Proof using.
  induction fuel as [|fuel IH]; intros visited ancestor Hf; cbn [check_ancestors]; [pose proof (visited_bound visited); lia|].
  destruct ancestor as [ino|]; cbn; [|done]. destruct (bool_decide (ino ∈ visited)) eqn:Hb; [done|]. apply bool_decide_eq_false in Hb. split; [|intros e He [= ->]; done]. intros inode access default control Hi. cbn. destruct (is_dir inode); cbn; [|done].
  destruct (inode_allows_actor _ _ _ _ _ _ _) as [allowed|]; cbn; [|done]. destruct allowed; cbn; [|done]. destruct (ino =? mt_root mount); [done|]. apply IH. rewrite visited_more; [lia|apply elem_of_dom; by eexists|done].
Qed.
End walks.

(** ** Attempts *)

Section attempts.
Context (parse_control : list byte -> option (list Control.ControlAclEntry)) (mount : Mount) (expected : LayerRecord * LayerRecord) (scope : RequestScope) (is_open : Z -> bool) (fuel : nat) (V : View).
Context (enough : (size (v_inodes V) < fuel)%nat) (cs_pos : 0 < mt_chunk_size mount).

Lemma actor_ends parent child permission : ends V (check_namespace_actor_with_parent parse_control mount scope fuel parent child permission).
Proof using enough.
  unfold check_namespace_actor_with_parent, allows. repeat fuel_step. apply ancestors_end. lia.
Qed.

Lemma descendant_ends directory ancestor : ends V (directory_is_descendant_of mount fuel directory ancestor).
Proof using enough. apply descend_ends. lia. Qed.

Lemma inode_or_ends e ino : e <> OutOfFuel -> ends V (inode_or e ino).
Proof using. intros He [r|] _; [done|]. cbn. congruence. Qed.

Lemma empty_ends ino : ends V (directory_is_empty ino).
Proof using. unfold directory_is_empty, readdir, stat. fuel_walk. Qed.

Lemma drop_fueled inode : fueled (drop_link is_open inode).
Proof using. unfold drop_link. fuel_walk. Qed.

Lemma hole_fueled layer ino start stop : fueled (hole_extents mount layer ino start stop).
Proof using cs_pos. by apply fueled_hole. Qed.

Lemma rename_counts_fueled p1 p2 now dir source old new dest : fueled (rename_counts mount is_open p1 p2 now dir source old new dest).
Proof using. unfold rename_counts. repeat first [fuel_step | apply drop_fueled | apply fueled_dec | apply fueled_inc]. Qed.

Lemma exchange_counts_fueled p1 p2 ldir rdir l r old new : fueled (exchange_counts p1 p2 ldir rdir l r old new).
Proof using. unfold exchange_counts. repeat first [fuel_step | apply fueled_dec | apply fueled_inc]. Qed.

Ltac attempt_walk :=
  repeat first [fuel_step | apply actor_ends | apply descendant_ends | apply empty_ends | apply rename_counts_fueled | apply exchange_counts_fueled | apply drop_fueled | apply hole_fueled
    | apply inode_or_ends; done | apply fueled_name | apply fueled_xattr_name | apply fueled_attr | apply fueled_inc | apply fueled_dec | apply fueled_entries].

Lemma acl_ends ino name value flags uid groups : ends V (update_posix_acl_with_flags mount expected ino name value flags uid groups).
Proof using. unfold update_posix_acl_with_flags. attempt_walk. Qed.

Lemma batch_ends batch : ends V (commit_write_batch mount expected batch).
Proof using.
  unfold commit_write_batch, prefetch_write_inodes. fuel_step; [|attempt_walk]. generalize (dedup (sort_by_key id (pw_ino <$> batch))). intros inos. induction inos as [|ino inos IH]; cbn [prefetch_loop]; [done|].
  fuel_step; [|fuel_step; [exact IH|done]]. apply ends_try. unfold write_target_inode. attempt_walk.
Qed.

Lemma attempt_ends request {A} (p : plan (Step A)) : attempt parse_control mount expected scope is_open fuel request p -> ends V p.
Proof using enough cs_pos.
  destruct 1; [unfold create_entry, creation_bits|unfold remove_entry, check_namespace_actor|unfold link, lookup, check_namespace_actor|unfold rename, check_replace, check_namespace_actor|unfold rename_exchange, check_namespace_actor
    |unfold set_attr_checked, set_attr_allowed, set_attr_mode, allows|apply acl_ends|unfold set_xattr_bytes, get_xattr_bytes, stat|unfold remove_xattr_bytes, get_xattr_bytes, stat|unfold set_acl|unfold truncate|unfold open, allows|unfold apply_hole_range|apply batch_ends|unfold remove_orphan];
    repeat first [apply acl_ends | attempt_walk].
Qed.
End attempts.

(** *** Against a store *)

Lemma permission_fueled chain s expected ino : fueled (permission_inode chain s expected ino).
Proof.
  assert (forall snapshot, fueled (decode_permission_inode snapshot ino)) as Hd by (intros snapshot; unfold decode_permission_inode; cbv zeta; repeat fuel_step).
  unfold permission_inode, permission_snapshot. fuel_step; [repeat fuel_step|]. fuel_step; [done|apply Hd].
Qed.

Section run.
Context (H B : LayerRecord) (expected : LayerRecord * LayerRecord) (e : Env) (V : View).
Context (chain_ok : check_chain [H; B] = Ok tt) (shown : forall n, rows_valid (e_store e n) (layer_id H) (layer_id B) /\ view_of (e_store e n) (layer_id H) (layer_id B) = V).

Lemma ends_run {A} (p : plan A) : ends V p -> forall n, fueled (run [H; B] expected e n p).1.
Proof using chain_ok shown.
  induction p as [r|ino k IH|parent name k IH|ino name k IH|ino k IH|ino k IH|k IH|k IH]; cbn [ends run]; intros Hp n; [done|..|by apply IH|by apply IH].
  - destruct (shown n) as [Hs <-]. destruct (read_inode H B _ chain_ok Hs ino) as (o & -> & Ho & _). by apply IH, Hp.
  - destruct (shown n) as [Hs _]. destruct (read_dentry H B _ chain_ok Hs parent name) as (o & -> & _). by apply IH.
  - destruct (shown n) as [Hs _]. rewrite (read_xattr H B _ chain_ok Hs). by apply IH.
  - destruct (shown n) as [Hs _]. destruct (read_directory H B _ chain_ok Hs ino) as (out & -> & _). by apply IH.
  - destruct (shown n) as [Hs <-]. destruct Hp as [H1 H2]. pose proof (permission_fueled [H; B] (e_store e n) expected ino) as Hf. destruct (permission_inode [H; B] (e_store e n) expected ino) as [[[[inode access] default] control]|err] eqn:Ep.
    + destruct (read_permissions H B _ chain_ok Hs _ _ _ _ _ _ Ep) as (_ & (P1 & _) & _). by apply IH, H1.
    + apply IH, H2. unfold fueled in Hf. congruence.
Qed.
End run.

(** A request ends: an attempt whose reads all show one view, as all of those do
    that can commit, answers or commits or fails like the code, never for want of
    steps, when it may take one more step to an ancestor than there are inodes. *)
Theorem attempts_end parse_control H B mount expected scope is_open fuel e V request {A} (p : plan (Step A)) : check_chain [H; B] = Ok tt -> 0 < mt_chunk_size mount ->
  (forall n, rows_valid (e_store e n) (layer_id H) (layer_id B) /\ view_of (e_store e n) (layer_id H) (layer_id B) = V) -> (size (v_inodes V) < fuel)%nat ->
  attempt parse_control mount expected scope is_open fuel request p -> (run [H; B] expected e 0 p).1 <> Err OutOfFuel.
Proof. intros Hc Hcs Hs Hf Ha. apply (ends_run H B expected e V Hc Hs). by apply (attempt_ends parse_control mount expected scope is_open fuel V Hf Hcs request). Qed.
