(* ===== verification/OverlayData.v ===== *)
(** The data of the files of a workspace: where each byte of a chunk is, and what
    the mutations of the operations do to it. *)
From stdpp Require Import options.
From S2P Require Import Prelude Span Slices Acl MetaTypes Namespace Layers LayerExtents LayerCompact LayerHistory LayerNames Access Overlay OverlayCommits OverlayView OverlayPlan OverlayOps OverlayTree OverlayState OverlaySteps OverlayWell.

(** ** Places *)

(** Where a layer puts a byte of a chunk. *)
Definition layer_place (rows : Rows) (layer ino ci x : Z) : option ExtentKind := (fun d => place d x) <$> top_at (layer_extents (rows_of rows) ino ci layer) x.

(** Where a workspace has it: in the head, else in the base, else nowhere. *)
Definition place_at (rows : Rows) (head base ino ci x : Z) : ExtentKind :=
  match layer_place rows head ino ci x with Some k => k | None => default Hole (layer_place rows base ino ci x) end.

(** The last row of a mutation over a byte. *)
Definition newest (extents : list DataExtentDelta) (ino ci x : Z) : option DataExtentDelta := top_at (reverse (filter (of_chunk ino ci) extents)) x.

Lemma layer_place_shows rows layer ino ci x k : store_ok rows -> shows (layer_chunk (rows_of rows) layer ino ci) x k <-> layer_place rows layer ino ci x = k.
Proof.
  intros Hok. pose proof (shows_top (layer_chunk (rows_of rows) layer ino ci) x) as Ht. fold (layer_extents (rows_of rows) ino ci layer) in Ht. fold (layer_place rows layer ino ci x) in Ht.
  split; [|by intros <-]. intros Hk. apply (shows_unique _ _ _ _ (layer_chunk_distinct _ layer ino ci (rows_of_ok rows Hok)) Ht Hk).
Qed.

Lemma newest_cons d extents ino ci x : newest (d :: extents) ino ci x = match newest extents ino ci x with Some e => Some e | None => if decide (of_chunk ino ci d /\ ecov x d = true) then Some d else None end.
Proof.
  unfold newest. rewrite filter_cons. destruct (decide (of_chunk ino ci d)) as [Hd|Hd].
  - rewrite reverse_cons, top_at_app. destruct (top_at _ x); [done|]. cbn. destruct (ecov x d) eqn:E; [by rewrite decide_True|by rewrite decide_False by (by intros [_ ?])].
  - destruct (top_at _ x); [done|]. by rewrite decide_False by tauto.
Qed.

Lemma newest_elem extents ino ci x d : newest extents ino ci x = Some d -> d ∈ extents /\ of_chunk ino ci d /\ ecov x d = true.
Proof.
  induction extents as [|e extents IH]; [done|]. rewrite newest_cons. destruct (newest extents ino ci x); [intros [= ->]; destruct IH as (? & ? & ?); [done|]; split_and!; [by right|done|done]|].
  case_decide as He; [|done]. intros [= ->]. destruct He. split_and!; [by left|done|done].
Qed.

(** The rows with their numbers. *)
Lemma newest_number extents ino ci x : forall first, match newest extents ino ci x with
  | Some d => exists q, stamp_extent q d ∈ number stamp_extent first extents /\ of_chunk ino ci d /\ ecov x d = true /\ first <= q /\
                forall e, e ∈ number stamp_extent first extents -> of_chunk ino ci e -> ecov x e = true -> ex_sequence e <= q
  | None => forall e, e ∈ number stamp_extent first extents -> of_chunk ino ci e -> ecov x e = false
  end.
Proof.
  induction extents as [|d extents IH]; intros first; [by intros e ?%elem_of_nil|]. rewrite newest_cons. cbn [number]. specialize (IH (first + 1)). destruct (newest extents ino ci x) as [d'|].
  - destruct IH as (q & Hin & Hc & Hx & Hq & Hmax). exists q. split_and!; [by right|done|done|lia|]. intros e [->|He]%elem_of_cons; [cbn; lia|auto].
  - case_decide as Hd.
    + destruct Hd. exists first. split_and!; [by left|done|done|lia|]. intros e [->|He]%elem_of_cons Hc Hx; [cbn; lia|]. by rewrite (IH e He Hc) in Hx.
    + intros e [->|He]%elem_of_cons Hc; [|by apply IH]. destruct (ecov x (stamp_extent first d)) eqn:E; [|done]. destruct Hd. done.
Qed.

Lemma number_sequences extents : forall first e, e ∈ number stamp_extent first extents -> first <= ex_sequence e < first + zlen extents.
Proof.
  induction extents as [|d extents IH]; intros first e; cbn [number]; [by intros ?%elem_of_nil|]. intros [->|He]%elem_of_cons; [cbn; lia|]. specialize (IH _ _ He). rewrite length_cons. lia.
Qed.

Lemma number_distinct extents : forall first, NoDup (ex_sequence <$> number stamp_extent first extents).
Proof.
  induction extents as [|d extents IH]; intros first; cbn [number]; [constructor|]. rewrite fmap_cons. apply NoDup_cons. split; [|done]. intros (e & Ee & He)%list_elem_of_fmap. apply number_sequences in He. cbn in Ee. lia.
Qed.

(** ** A commit *)

(** The rows of the head are older than its next number. *)
Definition numbered (rows : Rows) (head next : Z) : Prop := forall i c q, is_Some (rows !! (head, i, c, q)) -> q < next.

Section puts.
Context (rows : Rows) (head next : Z) (rows_fine : store_ok rows) (older : numbered rows head next) (extents : list DataExtentDelta) (first : Z) (Hfirst : next <= first).
Context (fine : Forall (fun d => unsigned d /\ ex_layer d = head /\ extent_validate d = Ok tt) extents).
Abbreviation put := (number stamp_extent first extents).
Abbreviation before := (apply_writes rows (PutRow <$> number stamp_extent first extents)).

Lemma put_fine : Forall (fun d => unsigned d /\ ex_layer d = head /\ extent_validate d = Ok tt) put.
Proof using fine. by apply number_Forall. Qed.

Lemma put_found d ino ci : d ∈ layer_chunk (rows_of before) head ino ci <-> (d ∈ put /\ of_chunk ino ci d) \/ d ∈ layer_chunk (rows_of rows) head ino ci.
Proof using All.
  pose proof put_fine as Hf. rewrite Forall_forall in Hf. assert (NoDup (extent_key <$> put)) as Hn by (eapply NoDup_by; [apply (number_distinct extents first)|]; intros a b _ _ E; by injection E).
  rewrite !elem_of_layer_rows by (done || by apply (before_ok head), put_fine). unfold chunk_of. split.
  - intros [Hk Hl]. destruct (decide (extent_key d ∈ extent_key <$> put)) as [(e & Ee & He)%list_elem_of_fmap|Hno].
    + left. unfold extent_key in Hk. cbn in Hk. injection Hk as <- <- <-. fold (extent_key d) in Hl. rewrite Ee, (apply_puts put rows e Hn He) in Hl. injection Hl as ->. done.
    + right. split; [done|]. unfold extent_key in Hk. cbn in Hk. injection Hk as <- <- <-. by rewrite apply_puts_other in Hl.
  - intros [[Hd [<- <-]]|[Hk Hl]].
    + destruct (Hf d Hd) as (_ & <- & _). split; [done|]. fold (extent_key d). by apply apply_puts.
    + split; [done|]. unfold extent_key in Hk. cbn in Hk. injection Hk as <- <- <-. fold (extent_key d). rewrite apply_puts_other; [done|]. intros (e & Ee & He)%list_elem_of_fmap.
      assert (ex_sequence d < next) by (apply (older (ex_ino d) (ex_chunk d)); by exists d). apply number_sequences in He. injection Ee as _ _ _ Eq. lia.
Qed.

Lemma put_place ino ci x : layer_place before head ino ci x = match newest extents ino ci x with Some d => Some (place d x) | None => layer_place rows head ino ci x end.
Proof using All.
  apply layer_place_shows; [by apply (before_ok head), put_fine|]. pose proof (newest_number extents ino ci x first) as Hn. destruct (newest extents ino ci x) as [d|].
  - destruct Hn as (q & Hin & Hc & Hx & Hq & Hmax). exists (stamp_extent q d). split_and!; [apply put_found; by left|done|done|]. intros e [[He Hec]|He]%put_found Hex; [by apply Hmax|].
    apply elem_of_layer_rows in He as [_ He]; [|done]. assert (ex_sequence e < next) by (apply (older ino ci); by exists e). cbn. lia.
  - destruct (layer_place rows head ino ci x) as [k|] eqn:E; apply layer_place_shows in E; [|done| |done].
    + destruct E as (d & Hd & Hx & Hp & Hmax). exists d. split_and!; [apply put_found; by right|done|done|]. intros e [[He Hec]|He]%put_found Hex; [by rewrite (Hn e He Hec) in Hex|by apply Hmax].
    + intros e [[He Hec]|He]%put_found; [by apply Hn|by apply E].
Qed.
End puts.

Lemma layer_place_same rows rows' layer ino ci x : store_ok rows -> store_ok rows' -> same_extents rows rows' layer -> layer_place rows layer ino ci x = layer_place rows' layer ino ci x.
Proof.
  intros Hr Hr' Hs. symmetry. apply layer_place_shows; [done|]. destruct (layer_chunk_same rows rows' Hr Hr' layer ino ci Hs) as [Hp _]. eapply shows_perm; [exact Hp|]. by apply layer_place_shows.
Qed.

Section commit.
Context (m : VersionedMutation) (now : Z) (s : Store) (p : Packet).
Context (m_typed : typed m) (s_fine : store_keyed s) (Hp : prepare m now s = Ok p) (older : numbered (s_extents s) (layer_id (m_head m)) (next_sequence (m_head m))).
Abbreviation head := (layer_id (m_head m)).
Abbreviation base := (layer_id (m_base m)).
Abbreviation s' := (apply_packet p s).

Lemma extents_fine : Forall (fun d => unsigned d /\ ex_layer d = head /\ extent_validate d = Ok tt) (m_extents m).
Proof using m_typed Hp.
  destruct (prepare_prepared m now s p Hp) as [[count Hv] _ _ _ _]. pose proof (mr_extents m (validate_rows_of m count Hv)) as He. destruct (validate_pair m count Hv) as (-> & _). unfold typed in m_typed. rewrite Forall_forall in *. intros d Hd. destruct (He d Hd) as [[? ?] _]. auto.
Qed.

(** The rows of a commit and of the puts alone show the same. *)
Lemma commit_rows : exists first, next_sequence (m_head m) <= first /\ first + zlen (m_extents m) <= next_sequence (p_layer' p) /\
  let before := apply_writes (s_extents s) (PutRow <$> number stamp_extent first (m_extents m)) in
  store_ok before /\ store_ok (s_extents s') /\ (forall ino ci x, layer_place (s_extents s') head ino ci x = layer_place before head ino ci x) /\ forall key, is_Some (s_extents s' !! key) -> is_Some (before !! key).
Proof using m_typed s_fine Hp.
  pose proof (sk_extents s s_fine) as Hs. destruct (prepare_prepared m now s p Hp) as [_ _ _ (P1 & _) [Hw|(next & lower & [_ Hn] & _ & Ha & _ & Hc)]].
  - destruct Hw as (El & _ & _ & _ & _ & Ee & _ & _ & _ & _ & _ & Em). exists (next_sequence (m_head m)). rewrite El, P1, Em. cbn. rewrite Ee. cbn. split_and!; [lia|lia|done|done|done|done].
  - exists (next_sequence (p_layer p) + zlen (m_dentries m) + zlen (m_xattrs m) + zlen (m_acls m) + zlen (m_inodes m)). apply account_fields in Ha as (E1 & _ & E2 & _). cbn in E1, E2. rewrite E2, <-P1. rewrite E1 in Hc.
    assert (store_ok (apply_writes (s_extents s) (PutRow <$> stamped_extents m (next_sequence (p_layer p))))) as Hb by (rewrite P1; apply (before_ok head); [done|]; apply number_Forall; [done|apply extents_fine]).
    destruct (compact_history_shows _ _ _ _ _ _ _ _ Hs (extents_typed m m_typed _) Hc) as [H1 H2]. destruct (compact_history_ok _ _ _ _ _ _ _ _ Hs (extents_typed m m_typed _) Hc) as (H3 & _). split; [lia|]. split; [lia|]. cbv zeta. split_and!; [done|done| |done].
    intros ino ci x. apply layer_place_shows; [done|]. apply H1. by apply layer_place_shows.
Qed.

Lemma commit_place ino ci x : place_at (s_extents s') head base ino ci x = match newest (m_extents m) ino ci x with Some d => place d x | None => place_at (s_extents s) head base ino ci x end.
Proof using m_typed s_fine Hp older.
  destruct commit_rows as (first & Hf & _ & Hb & Ha & Hpl & _). pose proof (sk_extents s s_fine) as Hs. unfold place_at. rewrite Hpl, (put_place (s_extents s) head (next_sequence (m_head m)) Hs older (m_extents m) first Hf extents_fine).
  destruct (newest (m_extents m) ino ci x) as [d|]; [done|]. rewrite (layer_place_same (s_extents s) (s_extents s') base); [done|done|done|]. intros i c q. apply (sl_extents _ _ _ (base_same m now s p m_typed s_fine Hp)).
Qed.

Lemma commit_numbered : numbered (s_extents s') head (next_sequence (p_layer' p)).
Proof using m_typed s_fine Hp older.
  destruct commit_rows as (first & Hf & Hn & Hb & Ha & _ & Hk). intros i c q [d Hd]%Hk. destruct (decide ((head, i, c, q) ∈ extent_key <$> number stamp_extent first (m_extents m))) as [(e & Ee & He)%list_elem_of_fmap|Hno].
  - apply number_sequences in He. injection Ee as _ _ _ ->. lia.
  - rewrite apply_puts_other in Hd by done. assert (q < next_sequence (m_head m)) by (apply (older i c); by exists d). lia.
Qed.
End commit.

(** What a read of the range answers. *)
Lemma place_resolved H B rows ino ci start stop : check_chain [H; B] = Ok tt -> store_ok rows -> 0 <= start < stop -> stop < u64_modulus ->
  exists out, resolve_extents [H; B] (rows_of rows) ino ci start stop = Ok out /\ tiles start out stop /\
    forall p x, p ∈ out -> rcov p x = true -> kind_at p x = place_at rows (layer_id H) (layer_id B) ino ci x.
Proof.
  intros Hc Hr H1 H2. destruct (chunk_rows_valid [H; B] (rows_of rows) ino ci (rows_of_ok rows Hr)) as [V N]. destruct (resolve_extents_ok [H; B] (rows_of rows) ino ci start stop (ro_unsigned _ (rows_of_ok rows Hr)) H1 H2 Hc V N) as (out & Ho & Ht & _ & _ & Hk).
  exists out. split_and!; [done|done|]. intros p x Hin Hx. rewrite (Hk p x Hin Hx). unfold ranked. cbn [fmap list_fmap concat]. rewrite app_nil_r, top_at_app. unfold place_at, layer_place. destruct (top_at (layer_extents _ _ _ (layer_id H)) x); [done|]. by destruct (top_at _ x).
Qed.
