(* ===== verification/OverlayFiles.v ===== *)
(** What the requests of a workspace do to the sizes and the data of files. *)
From stdpp Require Import options.
From S2P Require Import Prelude Span Slices Acl MetaTypes Namespace Layers LayerExtents LayerCompact LayerHistory LayerNames Access Overlay OverlayCommits OverlayView OverlayPlan OverlayOps OverlayTree OverlayState OverlaySteps OverlayWell OverlayAttempts OverlayData.

Section files.
Context (cs : Z) (cs_pos : 0 < cs).

(** ** Files after a request *)

Definition write_start (w : PendingWrite) : Z := (ChunkId.extract_ino_and_chunk_index (pw_chunk_id w)).2 * cs + Slice.s_offset (pw_slice w).
Definition write_covers (w : PendingWrite) (ino pos : Z) : bool :=
  (pw_ino w =? ino) && (write_start w <=? pos) && (pos <? Z.min (write_start w + Slice.s_length (pw_slice w)) (pw_new_size w)).

(** The size of a file of some kind after a request that is carried out. *)
Definition size_after (request : Request) (kind ino size : Z) : Z :=
  match request with
  | SetAttr i req _ _ => if i =? ino then default size (r_size req) else size
  | Truncate i new _ => if i =? ino then new else size
  | Open i flags => if (i =? ino) && flags_contain flags TRUNC then 0 else size
  | HoleRange i offset len keep_size => if (i =? ino) && negb keep_size then Z.max size (offset + len) else size
  | Write batch => if kind =? file_type_code File then foldl (fun n w => if pw_ino w =? ino then Z.max n (pw_new_size w) else n) size batch else size
  | _ => size
  end.

(** Where the byte at [pos] is after it, from where it was. *)
Definition data_after (request : Request) (kind ino pos : Z) (old : ExtentKind) : ExtentKind :=
  match request with
  | SetAttr i req _ _ => match r_size req with Some size => if (i =? ino) && (size <=? pos) then Hole else old | None => old end
  | Truncate i size _ => if (i =? ino) && (size <=? pos) then Hole else old
  | Open i flags => if (i =? ino) && flags_contain flags TRUNC then Hole else old
  | HoleRange i offset len _ => if (i =? ino) && (offset <=? pos) && (pos <? offset + len) then Hole else old
  | Write batch =>
      if kind =? file_type_code File
      then foldl (fun k w => if write_covers w ino pos then Data (Slice.slice_id (pw_slice w)) (pos - write_start w) else k) old batch
      else old
  | _ => old
  end.

Lemma writes_inside batch ino pos : forall size old, (size <= pos -> old = Hole) -> foldl (fun n w => if pw_ino w =? ino then Z.max n (pw_new_size w) else n) size batch <= pos ->
  foldl (fun k w => if write_covers w ino pos then Data (Slice.slice_id (pw_slice w)) (pos - write_start w) else k) old batch = Hole.
Proof using.
  assert (forall batch size, size <= foldl (fun n w => if pw_ino w =? ino then Z.max n (pw_new_size w) else n) size batch) as Hle.
  { clear. induction batch as [|w batch IH]; intros size; [done|]. cbn [foldl]. etrans; [|apply IH]. destruct (pw_ino w =? ino); lia. }
  induction batch as [|w batch IH]; intros size old Hold Hs; cbn [foldl] in *; [auto|]. eapply IH; [|exact Hs]. specialize (Hle batch (if pw_ino w =? ino then Z.max size (pw_new_size w) else size)). unfold write_covers.
  destruct (pw_ino w =? ino); cbn [andb]; [|exact Hold]. intros Hp. destruct (Z.ltb_spec pos (Z.min (write_start w + Slice.s_length (pw_slice w)) (pw_new_size w))); [lia|]. rewrite andb_false_r. apply Hold. lia.
Qed.

(** No data is past the end of a file, if none was before. *)
Lemma data_inside request kind ino size pos old : 0 <= pos -> (size <= pos -> old = Hole) -> size_after request kind ino size <= pos -> data_after request kind ino pos old = Hole.
Proof using.
  intros H0 Hold. destruct request as [| | | | |i req ? ?| | | | |i new ?|i flags|i offset len keep|batch|]; cbn [size_after data_after]; auto.
  - destruct (r_size req) as [n|]; cbn; [|destruct (i =? ino); auto]. destruct (i =? ino); cbn [andb]; [|auto]. intros. by rewrite (proj2 (Z.leb_le n pos)) by lia.
  - destruct (i =? ino); cbn [andb]; [|auto]. intros. by rewrite (proj2 (Z.leb_le new pos)) by lia.
  - destruct (_ && _); auto.
  - destruct (i =? ino); cbn [andb]; [|auto]. intros Hs. destruct (_ && _); [done|]. apply Hold. destruct keep; cbn [negb] in Hs; lia.
  - destruct (kind =? _); [|auto]. by apply writes_inside.
Qed.

(** ** Positions *)

(** What a position shows under the rows of a mutation. *)
Definition shown_by (extents : list DataExtentDelta) (ino pos : Z) (old : ExtentKind) : ExtentKind :=
  match newest extents ino (pos / cs) (pos mod cs) with Some d => place d (pos mod cs) | None => old end.

Lemma chunk_span c o l pos : 0 <= o -> 0 < l -> o + l <= cs -> c = pos / cs /\ o <= pos mod cs < o + l <-> c * cs + o <= pos < c * cs + o + l.
Proof using cs_pos.
  intros H1 H2 H3. pose proof (Z.div_mod pos cs ltac:(lia)) as Hd. pose proof (Z.mod_pos_bound pos cs cs_pos) as Hm. split; [intros [-> ?]; lia|]. intros Hp.
  assert (c = pos / cs) as -> by (apply (Z.div_unique_pos pos cs c (pos - c * cs)); lia). split; [done|lia].
Qed.

Lemma newest_other extents ino ci x : (forall d, d ∈ extents -> ex_ino d <> ino) -> newest extents ino ci x = None.
Proof using. intros Hne. destruct (newest extents ino ci x) as [d|] eqn:E; [|done]. apply newest_elem in E as (Hd & [Hi _] & _). by destruct (Hne d Hd). Qed.

(** Holes over a range. *)
Definition holes_over (extents : list DataExtentDelta) (start stop : Z) : Prop :=
  Forall (fun d => ex_kind d = Hole) extents /\ forall pos, (exists d, d ∈ extents /\ ex_chunk d = pos / cs /\ ecov (pos mod cs) d = true) <-> start <= pos < stop.

Lemma holes_none start stop : stop <= start -> holes_over [] start stop.
Proof using. intros Hs. split; [constructor|]. intros pos. split; [by intros (d & ?%elem_of_nil & _)|lia]. Qed.

Lemma holes_shown extents start stop head ino pos old : holes_over extents start stop ->
  shown_by ((fun e => mkExtent head ino (ex_chunk e) (ex_offset e) (ex_length e) (ex_kind e) 0) <$> extents) ino pos old = if (start <=? pos) && (pos <? stop) then Hole else old.
Proof using.
  intros [Hh Hr]. rewrite Forall_forall in Hh. set (rows := _ <$> extents). unfold shown_by. pose proof (newest_number rows ino (pos / cs) (pos mod cs) 0) as Hn. destruct (newest rows ino (pos / cs) (pos mod cs)) as [d|] eqn:E.
  - clear Hn. apply newest_elem in E as ((e & -> & He)%list_elem_of_fmap & [_ Hc] & Hx). cbn in Hc. assert (start <= pos < stop) as Hin by (apply Hr; by exists e).
    unfold place. cbn. rewrite (Hh e He). rewrite (proj2 (Z.leb_le _ _)), (proj2 (Z.ltb_lt _ _)) by lia. done.
  - destruct (decide (start <= pos < stop)) as [Hin|Hout].
    + exfalso. apply Hr in Hin as (e & He & Hc & Hx). clear Hn. assert (forall l, e ∈ l -> newest ((fun e => mkExtent head ino (ex_chunk e) (ex_offset e) (ex_length e) (ex_kind e) 0) <$> l) ino (pos / cs) (pos mod cs) <> None) as Hl.
      { clear -Hc Hx. induction l as [|d l IH]; [by intros ?%elem_of_nil|]. rewrite fmap_cons, newest_cons. destruct (newest _ _ _ _); [done|]. intros [->|Hin]%elem_of_cons; [|by destruct (IH Hin)]. by rewrite decide_True. }
      by apply (Hl extents He).
    + destruct (Z.leb_spec start pos), (Z.ltb_spec pos stop); cbn; try done. lia.
Qed.

Section holes.
Context (mount : Mount) (mount_cs : mt_chunk_size mount = cs).

Lemma hole_loop_over layer ino stop : forall fuel cursor extents, hole_loop mount fuel layer ino cursor stop = Ok extents -> holes_over extents cursor stop.
Proof using cs_pos mount_cs.
  induction fuel as [|fuel IH]; intros cursor extents; cbn [hole_loop]; rewrite ?mount_cs; (destruct (Z.leb_spec stop cursor) as [Hs|Hs]; [intros [= <-]; by apply holes_none|]); [done|]. cbv zeta.
  pose proof (Z.mod_pos_bound cursor cs cs_pos) as Hm. pose proof (Z.div_mod cursor cs ltac:(lia)) as Hd. set (l := Z.min _ _). assert (0 < l /\ cursor mod cs + l <= cs) as [L1 L2] by lia.
  destruct (u64_checked_add cursor l) as [next|] eqn:E; cbn [of_option result_bind]; [|done]. apply u64_checked_add_Some in E as [-> _].
  destruct (hole_loop mount fuel layer ino (cursor + l) stop) as [rest|] eqn:Er; cbn [result_bind]; [|done]. intros [= <-]. destruct (IH _ _ Er) as [I1 I2]. split; [by constructor|]. intros pos.
  pose proof (chunk_span (cursor / cs) (cursor mod cs) l pos ltac:(lia) L1 L2) as Hc. specialize (I2 pos). split.
  - intros (d & [->|Hd']%elem_of_cons & Hch & Hx).
    + unfold ecov in Hx. cbn in Hch, Hx. apply andb_prop in Hx as [X1%Z.leb_le X2%Z.ltb_lt]. assert (cursor / cs * cs + cursor mod cs <= pos < cursor / cs * cs + cursor mod cs + l) by (by apply Hc). lia.
    + assert (cursor + l <= pos < stop) by (apply I2; by exists d). lia.
  - intros Hp. destruct (decide (pos < cursor + l)) as [Hlt|Hge].
    + destruct (proj2 Hc) as [Hch Hx]; [lia|]. eexists. split; [by left|]. split; [done|]. unfold ecov. cbn. rewrite (proj2 (Z.leb_le _ _)), (proj2 (Z.ltb_lt _ _)) by lia. done.
    + destruct (proj2 I2) as (d & Hd' & Hrest); [lia|]. exists d. split; [by right|done].
Qed.

Lemma hole_extents_over layer ino start stop extents : hole_extents mount layer ino start stop = Ok extents -> holes_over extents start stop.
Proof using cs_pos mount_cs. apply hole_loop_over. Qed.
End holes.

(** ** Attempts *)

(** What a mutation does to the inode [i], which it leaves as [r']. *)
Definition file_ok (request : Request) (V : View) (ids : Z -> Prop) (m : VersionedMutation) (i : Z) (r' : InodeDelta) : Prop :=
  match v_inodes V !! i with
  | Some r => in_kind r' = in_kind r /\ in_size r' = size_after request (in_kind r) i (in_size r) /\
      forall pos old, 0 <= pos -> (in_size r <= pos -> old = Hole) -> shown_by (m_extents m) i pos old = data_after request (in_kind r) i pos old
  | None => ids i /\ m_extents m = []
  end.

Definition data_ok {A} (request : Request) (V : View) (ids : Z -> Prop) (step : Step A) : Prop :=
  match step with
  | Return _ => True
  | Commit m _ => forall count, validate m = Ok count -> typed m -> forall i r', v_inodes (apply_mutation V m) !! i = Some r' -> file_ok request V ids m i r'
  end.

Lemma shown_none ino pos old : shown_by [] ino pos old = old.
Proof using. done. Qed.

(** A request that changes no file. *)
Definition no_data (request : Request) : Prop := forall kind ino size pos old, size_after request kind ino size = size /\ data_after request kind ino pos old = old.

Lemma named_data {A} request V ids (step : Step A) : no_data request -> named_ok V ids step -> data_ok request V ids step.
Proof using.
  intros Hno. destruct step as [|m answer]; [done|]. intros [[He Hk] _] count valid _ i r' Hr'. unfold file_ok. rewrite He. apply (applied_inode V m count valid) in Hr' as [(r & Hr & <- & _ & ->)|[-> _]].
  - specialize (Hk r Hr). destruct (v_inodes V !! in_ino r) as [r0|]; [|done]. destruct Hk as [Hs Hkind]. split_and!; [exact Hkind| |]; [cbn; rewrite Hs; symmetry; by apply (Hno _ _ _ 0 Hole)|]. intros pos old _ _. symmetry. by apply (Hno _ _ 0).
  - split_and!; [done|symmetry; by apply (Hno _ _ _ 0 Hole)|]. intros pos old _ _. symmetry. by apply (Hno _ _ 0).
Qed.

(** A mutation of one inode that is there. *)
Section one.
Context (mount : Mount) (expected : LayerRecord * LayerRecord) (request : Request) (V : View) (ids : Z -> Prop).

Lemma row_data {A} row inode xattrs acls extents (answer : A) : v_inodes V !! in_ino row = Some (strip inode) -> in_kind row = in_kind inode ->
  (forall d, d ∈ extents -> ex_ino d = in_ino row) -> (forall kind i size pos old, in_ino row <> i -> size_after request kind i size = size /\ data_after request kind i pos old = old) ->
  in_size row = size_after request (in_kind inode) (in_ino row) (in_size inode) ->
  (forall pos old, 0 <= pos -> (in_size inode <= pos -> old = Hole) -> shown_by extents (in_ino row) pos old = data_after request (in_kind inode) (in_ino row) pos old) ->
  data_ok request V ids (Commit (mutation mount expected [] [row] xattrs acls extents) answer).
Proof using.
  intros Hi Hk He Hother Hsize Hdata count valid _ i r' Hr'. unfold file_ok. cbn [m_extents mutation]. apply (applied_inode V _ count valid) in Hr' as [(r & ->%list_elem_of_singleton & <- & _ & ->)|[Hr Hne]].
  - rewrite Hi. by split_and!.
  - rewrite Hr. assert (in_ino row <> i) as Hn by (apply Hne; cbn; by left). split_and!; [done|symmetry; by apply (Hother _ _ _ 0 Hole)|]. intros pos old _ _. unfold shown_by. rewrite newest_other by (intros d Hd; by rewrite (He d Hd)). symmetry. by apply (Hother _ _ 0).
Qed.

Lemma quiet_data {A} row inode xattrs acls (answer : A) : no_data request -> v_inodes V !! in_ino row = Some (strip inode) -> in_kind row = in_kind inode -> in_size row = in_size inode ->
  data_ok request V ids (Commit (mutation mount expected [] [row] xattrs acls []) answer).
Proof using.
  intros Hno Hi Hk Hs. apply (row_data row inode); [done|done|by intros d ?%elem_of_nil|intros; apply Hno|rewrite Hs; symmetry; by apply (Hno _ _ _ 0 Hole)|]. intros pos old _ _. symmetry. by apply (Hno _ _ 0).
Qed.

Lemma holes_data {A} row inode extents start stop xattrs (answer : InodeDelta -> A) : v_inodes V !! in_ino row = Some (strip inode) -> in_kind row = in_kind inode -> holes_over extents start stop ->
  (forall kind i size pos old, in_ino row <> i -> size_after request kind i size = size /\ data_after request kind i pos old = old) -> in_size row = size_after request (in_kind inode) (in_ino row) (in_size inode) ->
  (forall pos old, 0 <= pos -> (in_size inode <= pos -> old = Hole) -> (if (start <=? pos) && (pos <? stop) then Hole else old) = data_after request (in_kind inode) (in_ino row) pos old) ->
  wp V ids (mutate_data mount expected row extents xattrs answer) (data_ok request V ids).
Proof using.
  intros Hi Hk Hh Hother Hsize Hdata. apply (row_data (set_head _ row) inode); [done|done| |done|done|].
  - by intros d (e & -> & _)%list_elem_of_fmap.
  - intros pos old H0 Hold. cbn [in_ino set_head]. rewrite (holes_shown extents start stop) by done. by apply Hdata.
Qed.
End one.

(** The operations of one inode. *)
Section walks.
Context (parse_control : list byte -> option (list Control.ControlAclEntry)).
Context (mount : Mount) (expected : LayerRecord * LayerRecord) (scope : RequestScope) (V : View) (ids : Z -> Prop) (mount_cs : mt_chunk_size mount = cs).

Lemma set_attr_sizes req flags uid gid now now' d (row := set_attr_privileges req flags (set_attr_times req flags now now' (set_attr_size req (set_owner uid gid d)))) :
  in_ino row = in_ino d /\ in_kind row = in_kind d /\ in_size row = default (in_size d) (r_size req).
Proof using. unfold row, set_attr_size. destruct (r_size req) as [size|]; [destruct (negb _)|]; done. Qed.

(** Holes from the new size to the old one. *)
Lemma shrunk new old pos k : 0 <= pos -> (old <= pos -> k = Hole) -> (if (new <=? pos) && (pos <? old) then Hole else k) = if new <=? pos then Hole else k.
Proof using. intros H0 Hold. destruct (Z.leb_spec new pos); [|done]. destruct (Z.ltb_spec pos old); cbn; [done|]. by apply Hold. Qed.

Lemma cut_holes layer ino new old : wp V ids (if new <? old then lift (hole_extents mount layer ino new old) else return_ []) (fun extents => holes_over extents new old).
Proof using cs_pos mount_cs. wp_step; wp_step; [by eapply hole_extents_over|]. apply holes_none. by apply Z.ltb_ge. Qed.

Lemma set_attr_data ino req flags actor : wp V ids (set_attr_checked parse_control mount expected scope ino req flags actor) (data_ok (SetAttr ino req flags actor) V ids).
Proof using cs_pos mount_cs.
  unfold set_attr_checked. wp_step. wp_step. wp_step. wp_skip. wp_step.
  assert (wp V ids (set_attr_mode expected inode (v_xattrs V !! (ino, ACCESS_XATTR)) ino req actor) (fun '(row, xattrs) => exists mode, row = set_mode mode inode)) as Hw.
  { unfold set_attr_mode. destruct (r_mode req) as [mode|]; [|exists (in_mode inode); by destruct inode]. destruct (v_xattrs V !! (ino, ACCESS_XATTR)) as [bytes|]; repeat wp_step; by eexists. }
  eapply wp_mono; [|exact Hw]. intros [row xattrs] (mode & ->). cbv beta iota. do 4 wp_step.
  match goal with |- context [set_attr_privileges req flags (set_attr_times req flags ?t ?t' (set_attr_size req (set_owner ?u ?g ?d)))] => destruct (set_attr_sizes req flags u g t t' d) as (R1 & R2 & R3); set (row := set_attr_privileges req flags _) in * end.
  clearbody row. cbn in R1, R2, R3. rewrite H0 in R1.
  assert (forall kind i size pos old, in_ino row <> i -> size_after (SetAttr ino req flags actor) kind i size = size /\ data_after (SetAttr ino req flags actor) kind i pos old = old) as Hother.
  { rewrite R1. intros kind i size pos old Hne%Z.eqb_neq. cbn. rewrite Hne. by destruct (r_size req). }
  assert (in_size row = size_after (SetAttr ino req flags actor) (in_kind inode) (in_ino row) (in_size inode)) as Hsize by (cbn; by rewrite R1, Z.eqb_refl).
  assert (forall pos old, 0 <= pos -> (in_size inode <= pos -> old = Hole) -> (if (in_size row <=? pos) && (pos <? in_size inode) then Hole else old) = data_after (SetAttr ino req flags actor) (in_kind inode) (in_ino row) pos old) as Hdata.
  { intros pos old Hp Hold. cbn. rewrite R1, Z.eqb_refl, (shrunk _ _ _ _ Hp Hold), R3. destruct (r_size req); cbn; [done|]. destruct (Z.leb_spec (in_size inode) pos); [|done]. symmetry. auto. }
  wp_step.
  - wp_step. eapply wp_mono; [|apply cut_holes]. intros extents Hh. by apply (holes_data mount expected _ V ids row inode extents _ _ xattrs _ ltac:(congruence) R2 Hh Hother Hsize Hdata).
  - apply negb_false_iff, Z.eqb_eq in Heqb. apply (row_data mount expected _ V ids (set_head _ row) inode); [cbn; congruence|done|by intros d ?%elem_of_nil|exact Hother|exact Hsize|].
    intros pos old Hp Hold. rewrite shown_none. cbn [in_ino set_head]. rewrite <-(Hdata pos old Hp Hold), Heqb. destruct (Z.leb_spec (in_size inode) pos), (Z.ltb_spec pos (in_size inode)); cbn; try done. lia.
Qed.

Lemma update_acl_data request ino name value flags uid groups : no_data request -> wp V ids (update_posix_acl_with_flags mount expected ino name value flags uid groups) (data_ok request V ids).
Proof using.
  intros Hno. unfold update_posix_acl_with_flags. do 2 (wp_step; [exact I|]). wp_step. wp_skip. wp_step. wp_step. do 5 (wp_step; [exact I|]).
  set (stored := match a with Some _ => _ | None => _ end). assert (in_ino stored.1 = ino /\ in_kind stored.1 = in_kind inode /\ in_size stored.1 = in_size inode) as (E1 & E2 & E3) by (unfold stored; destruct a; [destruct (bool_decide _)|]; done).
  destruct stored as [row value']. cbn in E1, E2, E3. wp_step. wp_step. apply (quiet_data mount expected _ V ids _ inode); [done|cbn; congruence|done|done].
Qed.

Lemma xattr_data ino name value flags : wp V ids (set_xattr_bytes mount expected ino name value flags) (data_ok (SetXattr ino name value flags) V ids).
Proof using.
  unfold set_xattr_bytes. wp_step; [wp_step; [done|by apply update_acl_data]|]. wp_step. wp_skip. wp_step. wp_step. wp_step. wp_skip. do 4 (wp_step; [exact I|]). do 3 wp_step. apply (quiet_data mount expected _ V ids _ r); [done|cbn; congruence|done|done].
Qed.

Lemma no_xattr_data ino name : wp V ids (remove_xattr_bytes mount expected ino name) (data_ok (RemoveXattr ino name) V ids).
Proof using.
  unfold remove_xattr_bytes. wp_step; [by apply update_acl_data|]. wp_step. wp_skip. wp_step. wp_skip. wp_step; [exact I|]. do 5 wp_step. apply (quiet_data mount expected _ V ids _ r); [done|cbn; congruence|done|done].
Qed.

Lemma set_acl_data ino t q p : wp V ids (set_acl mount expected ino t q p) (data_ok (SetAcl ino t q p) V ids).
Proof using.
  unfold set_acl. do 3 wp_step. intros count valid _ i r' [(r0 & ?%elem_of_nil & _)|[Hr _]]%(applied_inode V _ count valid); [done|]. unfold file_ok. by rewrite Hr.
Qed.

Lemma truncate_data ino size chunk_size : wp V ids (truncate mount expected ino size chunk_size) (data_ok (Truncate ino size chunk_size) V ids).
Proof using cs_pos mount_cs.
  unfold truncate. wp_step; [exact I|]. do 4 wp_step. wp_step; [exact I|]. wp_step; [exact I|]. wp_step. eapply wp_mono; [|apply cut_holes]. intros extents Hh. cbv beta. do 2 wp_step.
  apply (holes_data mount expected _ V ids _ r extents size (in_size r)); [cbn; congruence|done|done|..]; cbn [in_ino in_size next_version set_data_version touch set_times set_size size_after data_after]; rewrite H0; [|by rewrite Z.eqb_refl|].
  - by intros _ i ? ? ? ->%Z.eqb_neq.
  - intros pos old Hp Hold. rewrite Z.eqb_refl. by apply shrunk.
Qed.

Lemma open_data ino flags : wp V ids (open parse_control mount expected scope ino flags) (data_ok (Open ino flags) V ids).
Proof using cs_pos mount_cs.
  unfold open. wp_step. wp_step. wp_step. wp_skip. do 2 wp_step. wp_step; [exact I|]. wp_step.
  - wp_step; [exact I|]. do 6 wp_step. apply (holes_data mount expected _ V ids _ inode _ 0 (in_size inode)); [cbn; congruence|done|by eapply hole_extents_over|..];
      cbn [in_ino in_size next_version set_data_version set_times set_size size_after data_after]; rewrite H0, Heqb0, ?Z.eqb_refl; [|done|].
    + by intros _ i ? ? ? ->%Z.eqb_neq.
    + intros pos old Hp Hold. rewrite (shrunk _ _ _ _ Hp Hold). by rewrite (proj2 (Z.leb_le 0 pos)).
  - wp_step. wp_step. apply (quiet_data mount expected _ V ids _ inode); [|cbn; congruence|done|done]. intros kind i size pos old. cbn. by rewrite Heqb0, andb_false_r.
Qed.

Lemma hole_range_data ino offset len keep : wp V ids (apply_hole_range mount expected ino offset len keep) (data_ok (HoleRange ino offset len keep) V ids).
Proof using cs_pos mount_cs.
  unfold apply_hole_range. do 6 wp_step. wp_step; [exact I|]. wp_step; [exact I|]. do 4 wp_step. destruct (u64_checked_add offset len) eqn:E; [|done]. injection H as ->. apply u64_checked_add_Some in E as [-> _].
  apply orb_false_iff in Heqb0 as [_ Hlt%Z.leb_gt].
  apply (holes_data mount expected _ V ids _ r _ offset (if keep then Z.min (offset + len) (in_size r) else offset + len)); [destruct keep; cbn; congruence|by destruct keep|by eapply hole_extents_over|..].
  - intros kind i size pos old Hne. cbn. assert ((ino =? i) = false) as -> by (apply Z.eqb_neq; destruct keep; cbn in Hne; congruence). done.
  - destruct keep; cbn; rewrite H1, Z.eqb_refl; done.
  - intros pos old Hp Hold. assert (in_ino (next_version (touch t (if keep then r else set_size (Z.max (in_size r) (offset + len)) r))) = ino) as -> by (by destruct keep). cbn. rewrite Z.eqb_refl. cbn. destruct keep; [|done].
    destruct (Z.leb_spec offset pos); [|done]. cbn. destruct (Z.ltb_spec pos (Z.min (offset + len) (in_size r))), (Z.ltb_spec pos (offset + len)); try done; [lia|]. apply Hold. lia.
Qed.
End walks.

(** *** Batches of writes *)

Lemma dedup_strict l : StronglySorted Z.le l -> StronglySorted Z.lt (dedup l).
Proof using.
  induction l as [|a [|b l] IH]; intros Hs; [constructor|by repeat constructor|]. change (dedup (a :: b :: l)) with (if bool_decide (a = b) then dedup (b :: l) else a :: dedup (b :: l)).
  apply StronglySorted_inv in Hs as [Hs Hf]. case_bool_decide as E; [by apply IH|]. constructor; [by apply IH|]. apply StronglySorted_inv in Hs as [_ Hb]. apply Forall_cons in Hf as [Hab _]. rewrite Forall_forall in *. intros x [->|Hx]%dedup_elem%elem_of_cons; [lia|]. specialize (Hb x Hx). lia.
Qed.

(** The inodes that the batch finds. *)
Definition prefetch_of (V : View) (kv : Z * result OverlayError InodeDelta) : Prop :=
  match kv.2 with
  | Ok r => in_ino r = kv.1 /\ v_inodes V !! kv.1 = Some (strip r) /\ in_kind r = file_type_code File
  | Err _ => forall r, v_inodes V !! kv.1 = Some r -> in_kind r <> file_type_code File
  end.

Lemma prefetch_all V ids inos : well_formed V -> wp V ids (prefetch_loop inos) (fun out => out.*1 = inos /\ Forall (prefetch_of V) out).
Proof using.
  intros ok. induction inos as [|ino inos IH]; cbn [prefetch_loop]; [by split|]. wp_step. assert (wp V ids (plan_try (write_target_inode ino)) (fun o => prefetch_of V (ino, o))) as Hw.
  { intros o Ho Hi. destruct o as [r|]; cbn in Ho |- *; [|unfold prefetch_of; cbn; intros r; by rewrite <-Ho]. destruct (Hi r eq_refl) as [Hino _]. destruct (wf_inode V ok ino (strip r) (eq_sym Ho)) as (_ & _ & Hk). cbn in Hk.
    assert (in_kind r = 0 \/ in_kind r = 1 \/ in_kind r = 2 \/ in_kind r = 3 \/ in_kind r = 4 \/ in_kind r = 5 \/ in_kind r = 6) as Hcases by lia.
    destruct Hcases as [E|[E|[E|[E|[E|[E|E]]]]]]; rewrite E; cbn; unfold prefetch_of; cbn; [done|..]; intros r'; rewrite <-Ho; intros [= <-]; cbn; by rewrite E. }
  eapply wp_mono; [|exact Hw]. intros o Ho. wp_step. eapply wp_mono; [|exact IH]. intros out [<- Hf]. wp_step. split; [done|]. by constructor.
Qed.

Lemma keys_sorted {T} (l : list (Z * T)) : StronglySorted Z.lt l.*1 -> bt_ok Z.ltb l.
Proof using.
  induction l as [|[k v] l IH]; intros Hs; [constructor|]. rewrite fmap_cons in Hs. apply StronglySorted_inv in Hs as [Hs Hf]. constructor; [by apply IH|]. rewrite Forall_forall in Hf. apply Forall_forall. intros kv Hin. apply Z.ltb_lt, Hf. by apply list_elem_of_fmap_2.
Qed.

Definition found_inodes (prefetched : list (Z * result OverlayError InodeDelta)) : list (Z * InodeDelta) :=
  omap (fun '(ino, r) => match r with Ok inode => Some (ino, inode) | Err _ => None end) prefetched.

Lemma found_elem prefetched i r : (i, r) ∈ found_inodes prefetched <-> (i, Ok r) ∈ prefetched.
Proof using.
  unfold found_inodes. rewrite list_elem_of_omap. split.
  - intros ([k [r'|e]] & Hin & E); [|done]. by injection E as -> ->.
  - intros Hin. by exists (i, Ok r).
Qed.

Lemma found_sorted prefetched : bt_ok Z.ltb prefetched -> bt_ok Z.ltb (found_inodes prefetched).
Proof using.
  induction 1 as [|[k o] l Hs IH Hf]; [constructor|]. cbn. destruct o as [r|e]; [|done]. constructor; [done|]. rewrite Forall_forall in Hf. apply Forall_forall. intros [k' r'] Hin%found_elem. exact (Hf _ Hin).
Qed.

Abbreviation grow i := (fun n w => if pw_ino w =? i then Z.max n (pw_new_size w) else n).

Lemma fold_writes_sizes now batch : forall inodes, bt_ok Z.ltb inodes -> bt_ok Z.ltb (fold_writes now inodes batch) /\
  forall i, match bt_get i inodes with
            | Some r => exists r', bt_get i (fold_writes now inodes batch) = Some r' /\ in_ino r' = in_ino r /\ in_kind r' = in_kind r /\ in_size r' = foldl (grow i) (in_size r) batch
            | None => bt_get i (fold_writes now inodes batch) = None
            end.
Proof using.
  induction batch as [|w batch IH]; intros inodes Hok; cbn [fold_writes]; [split; [done|]; intros i; destruct (bt_get i inodes) as [r|]; [by exists r|done]|].
  destruct (bt_get (pw_ino w) inodes) as [r0|] eqn:E0.
  - destruct (IH (bt_insert Z.ltb (pw_ino w) (write_inode now w r0) inodes)) as [IH1 IH2]; [apply bt_insert_ok; [apply _|done]|]. split; [done|]. intros i. specialize (IH2 i). cbn [foldl]. destruct (Z.eqb_spec (pw_ino w) i) as [<-|Hne].
    + rewrite bt_get_insert in IH2. by rewrite E0.
    + rewrite bt_get_insert_ne in IH2 by done. exact IH2.
  - destruct (IH inodes Hok) as [IH1 IH2]. split; [done|]. intros i. specialize (IH2 i). cbn [foldl]. destruct (Z.eqb_spec (pw_ino w) i) as [<-|Hne]; [by rewrite E0 in *|exact IH2].
Qed.

(** What the members that fail do not change. *)
Lemma split_foldl {T} (f : T -> PendingWrite -> T) i prefetched batch : (forall acc w, pw_ino w <> i -> f acc w = acc) ->
  forall acc, foldl f acc (split_batch prefetched batch).1 = match bt_get i prefetched with Some (Err _) => acc | _ => foldl f acc batch end.
Proof using.
  intros Hf. induction batch as [|w batch IH]; intros acc; [by destruct (bt_get i prefetched) as [[]|]|]. cbn [split_batch foldl]. destruct (split_batch prefetched batch) as [kept failed]. cbn [fst] in IH.
  destruct (decide (pw_ino w = i)) as [<-|Hne]; [|rewrite (Hf acc w Hne)].
  - destruct (bt_get (pw_ino w) prefetched) as [[r|e]|]; cbn [fst foldl]; by rewrite IH.
  - destruct (bt_get (pw_ino w) prefetched) as [[r|e]|]; cbn [fst foldl]; rewrite ?(Hf acc w Hne); by rewrite IH.
Qed.

Lemma foldl_other {T} (f : T -> PendingWrite -> T) i batch : (forall acc w, pw_ino w <> i -> f acc w = acc) -> (forall w, w ∈ batch -> pw_ino w <> i) -> forall acc, foldl f acc batch = acc.
Proof using. intros Hf Hw. induction batch as [|w batch IH]; intros acc; [done|]. cbn [foldl]. rewrite Hf by (apply Hw; by left). apply IH. intros w' Hw'. apply Hw. by right. Qed.

Abbreviation put i pos := (fun k w => if write_covers w i pos then Data (Slice.slice_id (pw_slice w)) (pos - write_start w) else k).

Lemma writes_shown mount head batch i pos : mt_chunk_size mount = cs ->
  Forall (fun d => 0 <= ex_offset d /\ 0 < ex_length d /\ ex_offset d + ex_length d <= cs) (write_extent mount head <$> batch) ->
  forall old, shown_by (write_extent mount head <$> batch) i pos old = foldl (put i pos) old batch.
Proof using cs_pos.
  intros Hcs. induction batch as [|w batch IH]; intros Hf old; [done|]. apply Forall_cons in Hf as [(B1 & B2 & B3) Hf]. specialize (IH Hf). cbn [foldl]. rewrite <-IH. unfold shown_by. rewrite fmap_cons, newest_cons.
  destruct (newest (write_extent mount head <$> batch) i (pos / cs) (pos mod cs)) as [d|]; [done|]. clear IH Hf. set (d := write_extent mount head w) in *.
  pose proof (chunk_span (ex_chunk d) (ex_offset d) (ex_length d) pos B1 B2 B3) as Hspan. assert (ex_chunk d * cs + ex_offset d = write_start w) as Es by done. assert (ex_length d = Z.min (Slice.s_length (pw_slice w)) (pw_new_size w - write_start w)) as El by (cbn; unfold slice_start; by rewrite Hcs).
  assert ((of_chunk i (pos / cs) d /\ ecov (pos mod cs) d = true) <-> write_covers w i pos = true) as Hiff.
  { unfold of_chunk, ecov, write_covers. rewrite !andb_true_iff, !Z.leb_le, !Z.ltb_lt, Z.eqb_eq. change (ex_ino d) with (pw_ino w). rewrite Es, El in Hspan. split; [intros [[? ?] ?]|intros [[? ?] ?]]; [assert (write_start w <= pos < write_start w + Z.min (Slice.s_length (pw_slice w)) (pw_new_size w - write_start w)) by (apply Hspan; lia)|destruct (proj2 Hspan) as [? ?]; [lia|]]; split_and!; lia. }
  destruct (write_covers w i pos) eqn:E.
  - rewrite decide_True by (by apply Hiff). destruct (proj2 Hiff eq_refl) as [[_ Hc] _]. unfold place. cbn [ex_kind d write_extent data_extent]. f_equal. rewrite <-Es, Hc. pose proof (Z.div_mod pos cs ltac:(lia)). lia.
  - by rewrite decide_False by (intros Hx%Hiff; done).
Qed.

(** The rows of the writes are inside their chunks. *)
Lemma extents_bounds m count : validate m = Ok count -> typed m -> Forall (fun d => 0 <= ex_offset d /\ 0 < ex_length d /\ ex_offset d + ex_length d <= m_chunk_size m) (m_extents m).
Proof using.
  intros valid Ht. pose proof (mr_extents m (validate_rows_of m count valid)) as He. unfold typed in Ht. rewrite Forall_forall in Ht, He. apply Forall_forall. intros d Hd. destruct (He d Hd) as [[_ Hv] Hc]. destruct (valid_row_ok d (Ht d Hd) Hv) as (? & ? & _). done.
Qed.

(** The inode [i] after the members of a batch that are not failed. *)
Section batch.
Context (V : View) (prefetched : list (Z * result OverlayError InodeDelta)) (sorted : bt_ok Z.ltb prefetched) (known : Forall (prefetch_of V) prefetched).
Context (batch : list PendingWrite) (asked : forall w, w ∈ batch -> pw_ino w ∈ prefetched.*1) (i : Z) (r : InodeDelta) (shown : v_inodes V !! i = Some r).
Abbreviation members := (split_batch prefetched batch).1.

Lemma batch_fold {T} (f : T -> PendingWrite -> T) acc : (forall acc w, pw_ino w <> i -> f acc w = acc) -> foldl f acc members = if in_kind r =? file_type_code File then foldl f acc batch else acc.
Proof using sorted known asked shown.
  intros Hf. rewrite (split_foldl f i prefetched batch Hf). rewrite Forall_forall in known. destruct (bt_get i prefetched) as [[r0|e]|] eqn:E.
  - apply (bt_get_elem Z.ltb) in E; [|done]. destruct (known _ E) as (_ & Hi & Hk). cbn in Hi. rewrite shown in Hi. injection Hi as ->. change (in_kind (strip r0)) with (in_kind r0). by rewrite Hk.
  - apply (bt_get_elem Z.ltb) in E; [|done]. pose proof (known _ E r shown) as Hk%Z.eqb_neq. by rewrite Hk.
  - rewrite (foldl_other f i); [by destruct (_ =? _)|done|]. intros w Hw <-. apply asked in Hw as ([k o] & Ek & Hin)%list_elem_of_fmap. cbn in Ek. subst. apply (bt_get_elem Z.ltb) in Hin; [|done]. congruence.
Qed.
End batch.

Lemma batch_data mount expected V ids batch : well_formed V -> mt_chunk_size mount = cs -> wp V ids (commit_write_batch mount expected batch) (data_ok (Write batch) V ids).
Proof using cs_pos.
  intros ok Hcs. unfold commit_write_batch. wp_step. eapply wp_mono; [|by apply prefetch_all]. intros prefetched [Hkeys Hpre]. cbv beta.
  assert (bt_ok Z.ltb prefetched) as Hsorted by (apply keys_sorted; rewrite Hkeys; apply dedup_strict, sort_by_key_sorted).
  assert (forall w, w ∈ batch -> pw_ino w ∈ prefetched.*1) as Hasked by (intros w Hw; rewrite Hkeys; apply dedup_elem; rewrite sort_by_key_perm; by apply list_elem_of_fmap_2).
  pose proof (@batch_fold V prefetched Hsorted Hpre batch Hasked) as Hfold. rewrite Forall_forall in Hpre. fold (found_inodes prefetched).
  destruct (split_batch prefetched batch) as [kept failed]. cbn [fst] in Hfold. destruct kept as [|w kept]; [exact I|]. set (members := w :: kept) in *. clearbody members. wp_step. wp_step. wp_step. intros count valid Hty i r' Hr'.
  destruct (fold_writes_sizes t members (found_inodes prefetched) (found_sorted _ Hsorted)) as [Hok Hsizes].
  assert (exists r, v_inodes V !! i = Some r /\ in_kind r' = in_kind r /\ in_size r' = foldl (grow i) (in_size r) members) as (r & Hr & Ekind & Esize).
  { apply (applied_inode V _ count valid) in Hr' as [(row & ([k x] & -> & Hkv)%list_elem_of_fmap & Ei & _ & ->)|[Hr Hno]].
    - apply (bt_get_elem Z.ltb) in Hkv; [|done]. specialize (Hsizes k). destruct (bt_get k (found_inodes prefetched)) as [r0|] eqn:E; [|congruence]. destruct Hsizes as (x' & Hx' & E1 & E2 & E3). rewrite Hkv in Hx'. injection Hx' as <-.
      apply bt_get_in, found_elem in E. destruct (Hpre _ E) as (F1 & F2 & _). cbn in Ei, F1, F2. assert (k = i) as -> by congruence. by exists (strip r0).
    - exists r'. split_and!; [done|done|]. specialize (Hsizes i). destruct (bt_get i (found_inodes prefetched)) as [r0|] eqn:E.
      + destruct Hsizes as (x & Hx & E1 & _). apply bt_get_in, found_elem in E. destruct (Hpre _ E) as (F1 & _). cbn in F1. destruct (Hno (set_head (g_head (mt_guard mount)) x)); [|cbn; congruence]. apply bt_get_in in Hx. cbn. apply list_elem_of_fmap. by exists (i, x).
      + rewrite (Hfold i r' Hr) by (by intros acc w' ->%Z.eqb_neq). destruct (Z.eqb_spec (in_kind r') (file_type_code File)) as [Ek|]; [|done]. rewrite (foldl_other _ i); [done|by intros acc w' ->%Z.eqb_neq|]. intros w' Hw' <-.
        apply Hasked in Hw' as ([k o] & Eo & Hin)%list_elem_of_fmap. cbn in Eo. subst k. pose proof (Hpre _ Hin) as Hp. destruct o as [r0|e]; [|by destruct (Hp r' Hr)]. apply found_elem, (bt_get_elem Z.ltb) in Hin; [congruence|by apply found_sorted]. }
  unfold file_ok. rewrite Hr. split_and!; [done| |].
  - rewrite Esize, (Hfold i r Hr); [done|]. by intros acc w' ->%Z.eqb_neq.
  - intros pos old _ _. cbn [m_extents mutation]. rewrite (writes_shown mount); [|done|rewrite <-Hcs; exact (extents_bounds _ count valid Hty)]. rewrite (Hfold i r Hr); [done|]. intros acc w' Hne%Z.eqb_neq. unfold write_covers. by rewrite Hne.
Qed.

Lemma attempt_data parse_control mount expected scope is_open fuel V ids request {A} (p : plan (Step A)) : mt_chunk_size mount = cs -> well_formed V -> (forall id, ids id -> fresh V id) -> mt_root mount = ROOT ->
  attempt parse_control mount expected scope is_open fuel request p -> wp V ids p (data_ok request V ids).
Proof using cs_pos.
  intros Hcs ok Hids Hroot. destruct 1.
  - eapply wp_mono; [intros step; by apply named_data|by apply create_step].
  - eapply wp_mono; [intros step; by apply named_data|by apply remove_step].
  - eapply wp_mono; [intros step; by apply named_data|by apply link_step].
  - eapply wp_mono; [intros step; by apply named_data|by apply rename_step].
  - eapply wp_mono; [intros step; by apply named_data|by apply exchange_step].
  - by apply set_attr_data.
  - by apply update_acl_data.
  - by apply xattr_data.
  - by apply no_xattr_data.
  - by apply set_acl_data.
  - by apply truncate_data.
  - by apply open_data.
  - by apply hole_range_data.
  - by apply batch_data.
  - eapply wp_mono; [intros step; by apply named_data|by apply orphan_step].
Qed.
End files.
