(* ===== verification/OverlayTrace.v ===== *)
(** The stores that a workspace goes through while clients work on it: requests
    read one row after the other and commit one mutation, other workspaces commit
    in between.  What the workspace shows stays a tree with right link counts. *)
From stdpp Require Import options.
From S2P Require Import Prelude Span Slices Acl MetaTypes Namespace Layers LayerExtents LayerCompact LayerHistory LayerNames Access Overlay OverlayCommits OverlayView OverlayPlan OverlayOps OverlayTree OverlayState OverlaySteps OverlayWell OverlayAttempts OverlayData OverlayFiles.

(** ** Stores of a workspace *)

Section same.
Context (head base : Z) (s s' : Store) (same_head : same_layer head s s') (same_base : same_layer base s s').

Lemma view_same : view_of s head base = view_of s' head base.
Proof using same_head same_base.
  unfold view_of. f_equal; apply map_eq.
  - intros i. by rewrite !lookup_inodes, (sl_inodes _ _ _ same_head), (sl_inodes _ _ _ same_base).
  - intros [p n]. by rewrite !lookup_names, (sl_dentries _ _ _ same_head), (sl_dentries _ _ _ same_base).
  - intros [i n]. by rewrite !lookup_xattrs, (sl_xattrs _ _ _ same_head), (sl_xattrs _ _ _ same_base).
Qed.

Lemma rows_valid_same : store_keyed s' -> rows_valid s head base -> rows_valid s' head base.
Proof using same_head same_base.
  intros Hk [_ Hd Hx]. split; [done| |].
  - intros layer p n r Hl Hr. apply (Hd layer p n r Hl). destruct Hl as [->| ->]; [by rewrite (sl_dentries _ _ _ same_head)|by rewrite (sl_dentries _ _ _ same_base)].
  - intros layer i n r Hl Hr. apply (Hx layer i n r Hl). destruct Hl as [->| ->]; [by rewrite (sl_xattrs _ _ _ same_head)|by rewrite (sl_xattrs _ _ _ same_base)].
Qed.
End same.

Lemma put_rows_cases {K R} `{Countable K} (key : R -> K) rows : forall (m : gmap K R) k r, put_rows key m rows !! k = Some r -> r ∈ rows \/ m !! k = Some r.
Proof.
  unfold put_rows. induction rows as [|r0 rows IH]; intros m k r Hr; [by right|]. cbn [foldl] in Hr. apply IH in Hr as [Hr|Hr]; [left; by right|].
  destruct (decide (key r0 = k)) as [<-|]; [rewrite lookup_insert_eq in Hr; injection Hr as <-; left; by left|rewrite lookup_insert_ne in Hr by done; by right].
Qed.

(** A mutation of the head in a store. *)
Section committed.
Context (m : VersionedMutation) (now : Z) (s0 : Store) (p : Packet) (Hp : prepare m now s0 = Ok p) (s : Store).
Abbreviation head := (layer_id (m_head m)).
Abbreviation base := (layer_id (m_base m)).

Lemma committed_view : view_of (apply_packet p s) head base = apply_mutation (view_of s head base) m.
Proof using Hp. unfold view_of, apply_mutation. cbn. by rewrite (effect_inodes m now s0 p Hp), (effect_names m now s0 p Hp), (effect_xattrs m now s0 p Hp). Qed.

Lemma committed_valid : store_keyed (apply_packet p s) -> rows_valid s head base -> rows_valid (apply_packet p s) head base.
Proof using Hp.
  intros Hk [_ Hd Hx]. destruct (prepare_prepared m now s0 p Hp) as [[count Hv] _ _ _ _]. destruct (validate_rows_of m count Hv) as [_ [Vd _] [Vx _] _ _]. rewrite Forall_forall in Vd. rewrite Forall_forall in Vx. destruct (packet_stamped m now s0 p Hp) as [Ed Ex _ _]. split; [done| |].
  - intros layer q n r Hl [Hr|Hr]%put_rows_cases; [|by apply (Hd layer q n r Hl)]. rewrite Ed in Hr. apply elem_of_number in Hr as (k & r' & Hr' & ->). apply (Vd r' Hr').
  - intros layer i n r Hl [Hr|Hr]%put_rows_cases; [|by apply (Hx layer i n r Hl)]. rewrite Ex in Hr. apply elem_of_number in Hr as (k & r' & Hr' & ->). apply (Vx r' Hr').
Qed.
End committed.

(** ** Traces *)

Section trace.
Context (parse_control : list byte -> option (list Control.ControlAclEntry)) (cs : Z) (H B : LayerRecord) (chain_ok : check_chain [H; B] = Ok tt) (cs_pos : 0 < cs).
Abbreviation chain := [H; B].
Abbreviation head := (layer_id H).
Abbreviation base := (layer_id B).

(** No layer of the workspace has rows of the id. *)
Definition unused (s : Store) (i : Z) : Prop := forall layer, layer = head \/ layer = base ->
  s_inodes s !! (layer, i) = None /\ (forall n, s_xattrs s !! (layer, i, n) = None) /\ forall c q, s_extents s !! (layer, i, c, q) = None.

Lemma unused_fresh s i : unused s i -> fresh (view_of s head base) i.
Proof using.
  intros Hu. destruct (Hu head ltac:(by left)) as (I1 & X1 & _). destruct (Hu base ltac:(by right)) as (I2 & X2 & _). split; [|intros n]; cbn; [by rewrite lookup_inodes, I1, I2|by rewrite lookup_xattrs, X1, X2].
Qed.

(** Where the byte at [pos] of a file is. *)
Definition data_at (s : Store) (ino pos : Z) : ExtentKind := place_at (s_extents s) head base ino (pos / cs) (pos mod cs).

Lemma unused_data s i pos : store_ok (s_extents s) -> unused s i -> data_at s i pos = Hole.
Proof using.
  intros Hs Hu. assert (forall layer, layer = head \/ layer = base -> layer_place (s_extents s) layer i (pos / cs) (pos mod cs) = None) as Hn.
  { intros layer Hl. apply layer_place_shows; [done|]. intros d [_ Hd]%elem_of_layer_rows; [|done]. destruct (Hu layer Hl) as (_ & _ & Hx). by rewrite Hx in Hd. }
  unfold data_at, place_at. by rewrite !Hn by auto.
Qed.

(** The files of a store: rows of the head are older than its next number, and no
    data is past the end of a file. *)
Definition head_numbered (s : Store) : Prop := exists L, s_layers s !! head = Some L /\ numbered (s_extents s) head (next_sequence L).
Definition files_end (s : Store) : Prop := forall i r pos, v_inodes (view_of s head base) !! i = Some r -> 0 <= pos -> in_size r <= pos -> data_at s i pos = Hole.

Lemma files_same s s' : store_ok (s_extents s) -> store_ok (s_extents s') -> same_layer head s s' -> same_layer base s s' -> (exists L L', s_layers s !! head = Some L /\ s_layers s' !! head = Some L' /\ next_sequence L <= next_sequence L') ->
  head_numbered s /\ files_end s -> head_numbered s' /\ files_end s'.
Proof using.
  intros Hs Hs' S1 S2 (L & L' & HL & HL' & Hle) [(L0 & HL0 & Hn) He]. split.
  - exists L'. split; [done|]. intros i c q Hq. rewrite <-(sl_extents _ _ _ S1) in Hq. apply Hn in Hq. simplify_eq. lia.
  - intros i r pos Hr. rewrite <-(view_same head base s s') in Hr by done. intros H1 H2. rewrite <-(He i r pos Hr H1 H2). unfold data_at, place_at.
    assert (forall layer, same_layer layer s s' -> forall ci x, layer_place (s_extents s') layer i ci x = layer_place (s_extents s) layer i ci x) as Hp by (intros layer Sl ci x; symmetry; apply layer_place_same; [done|done|]; intros i' c q; apply (sl_extents _ _ _ Sl)).
    by rewrite !Hp.
Qed.

(** A request that commits: it reads the version at [v], its rows from stores at or
    after [v], prepares its mutation at one of them and commits it to the newest. *)
Inductive committed (trace : list Store) (s : Store) (request : Request) (scope : RequestScope) (m : VersionedMutation) (s' : Store) : Prop :=
| Committed recent v older mount expected is_open fuel e A (p : plan (Step A)) answer n s1 now0 packet now :
    trace = recent ++ v :: older -> g_head (mt_guard mount) = head -> mt_root mount = ROOT -> mt_chunk_size mount = cs -> mutation_version chain v ROOT = Ok expected ->
    attempt parse_control mount expected scope is_open fuel request p ->
    (forall k, e_store e k ∈ recent ++ [v]) -> (forall k, unused s (e_id e k)) -> run chain expected e 0 p = (Ok (Commit m answer), n) ->
    s1 ∈ recent ++ [v] -> prepare m now0 s1 = Ok packet -> commit_packet packet now s = Some s' -> committed trace s request scope m s'.

(** The stores, newest first. *)
Inductive ws_trace : list Store -> Prop :=
| Trace_start s : rows_valid s head base -> well_formed (view_of s head base) -> head_numbered s -> files_end s -> ws_trace [s]
| Trace_request s past request scope m s' : ws_trace (s :: past) -> committed (s :: past) s request scope m s' -> typed m -> ws_trace (s' :: s :: past)
| Trace_elsewhere s past s0 m now0 p now s' : ws_trace (s :: past) -> s0 ∈ s :: past -> g_head (m_guard m) <> head -> g_head (m_guard m) <> base ->
    typed m -> prepare m now0 s0 = Ok p -> commit_packet p now s = Some s' -> ws_trace (s' :: s :: past)
| Trace_other s past workspaces layers leases : ws_trace (s :: past) ->
    let s' := mkStore workspaces layers leases (s_dentries s) (s_inodes s) (s_xattrs s) (s_acls s) (s_extents s) (s_owners s) in
    layers_advance s s' -> ws_trace (s' :: s :: past).

Lemma version_records v expected : mutation_version chain v ROOT = Ok expected ->
  s_layers v !! head = Some expected.1 /\ s_layers v !! base = Some expected.2 /\ layer_id expected.1 = head /\ layer_id expected.2 = base.
Proof using.
  unfold mutation_version, permission_snapshot, read_permission_snapshot. change (ROOT <=? 0) with false. cbn [orb]. destruct (Z.eqb_spec head base) as [|Hne]; [done|].
  destruct (s_layers v !! head) as [L|]; cbn [of_option result_bind map_err]; [|done]. destruct (s_layers v !! base) as [M|]; cbn [of_option result_bind map_err]; [|done].
  destruct (validate_permission_layers L M); cbn [result_bind map_err]; [|done]. destruct (Z.eqb_spec (layer_id L) head) as [EL|]; cbn [negb orb map_err result_bind]; [|done]. destruct (Z.eqb_spec (layer_id M) base) as [EM|]; cbn [negb map_err result_bind]; [|done].
  destruct (checked_row _ _ _); cbn [result_bind map_err]; [|done]. destruct (snapshot_xattrs _ _ _); cbn [result_bind map_err]; [|done]. destruct (checked_row _ _ _); cbn [result_bind map_err]; [|done].
  destruct (snapshot_xattrs _ _ _); cbn [result_bind map_err]; [|done]. by intros [= <-].
Qed.

Lemma history_suffix : forall recent s past, history (recent ++ s :: past) -> history (s :: past).
Proof using.
  induction recent as [|x recent IH]; intros s past Hh; [done|]. apply IH. remember ((x :: recent) ++ s :: past) as trace eqn:E. destruct Hh as [t Ht|t rest s0 m now0 p now s' Hh|t rest ws ls les Hh s' Ha]; cbn in E; injection E as _ E.
  - by destruct recent.
  - by rewrite <-E.
  - by rewrite <-E.
Qed.

(** Between the version and the commit the workspace shows one view. *)
Lemma between recent v older s past expected m now0 s1 packet now s' : recent ++ v :: older = s :: past -> history (s :: past) -> mutation_version chain v ROOT = Ok expected -> m_head m = expected.1 -> m_base m = expected.2 ->
  s1 ∈ s :: past -> prepare m now0 s1 = Ok packet -> commit_packet packet now s = Some s' -> forall x, x ∈ recent ++ [v] -> x ∈ s :: past /\ same_layer head x s /\ same_layer base x s.
Proof using.
  intros Et Hh Hv Em Eb H1 Hp Hc x Hx. destruct (version_records v expected Hv) as (V1 & V2 & V3 & V4). destruct (history_later s past Hh) as [Hk Hl].
  assert (exists newer rest, s :: past = newer ++ x :: rest /\ v ∈ x :: rest) as (newer & rest & Ex & Hvx).
  { apply elem_of_app in Hx as [(a & b & ->)%list_elem_of_split|Hx]; [exists a, (b ++ v :: older); split; [by rewrite <-Et, <-app_assoc|right; apply elem_of_app; right; left]|].
    apply list_elem_of_singleton in Hx as ->. exists recent, older. split; [done|left]. }
  assert (x ∈ s :: past) as Hin by (rewrite Ex; apply elem_of_app; right; left). pose proof Hh as Hh'. rewrite Ex in Hh'. apply history_suffix in Hh'. destruct (history_later x rest Hh') as [_ Hlx]. specialize (Hlx v Hvx). pose proof (Hl x Hin) as Hxs.
  revert Hc. unfold commit_packet. case_bool_decide as Hb; [|done]. intros _. destruct Hb as (_ & C2 & _ & C4 & _). destruct (prepare_prepared m now0 s1 packet Hp) as [_ _ _ (P1 & P2) _]. rewrite P1, Em, V3 in C2. rewrite P2, Eb, V4 in C4. split; [done|].
  destruct (lt_layers _ _ Hlx _ _ V1) as (h & Xh & Lh). destruct (lt_layers _ _ Hxs _ _ Xh) as (h' & Sh & Lh'). destruct (lt_layers _ _ Hlx _ _ V2) as (b & Xb & Lb). destruct (lt_layers _ _ Hxs _ _ Xb) as (b' & Sb & Lb').
  rewrite C2 in Sh. injection Sh as <-. rewrite C4 in Sb. injection Sb as <-. split; [apply (lt_same _ _ Hxs head h expected.1)|apply (lt_same _ _ Hxs base b expected.2)]; [done|done|lia|done|done|lia].
Qed.

Record trace_inv (trace : list Store) : Prop := {
  ti_history : history trace;
  ti_valid : Forall (fun s => rows_valid s head base) trace;
  ti_fine : Forall (fun s => well_formed (view_of s head base)) trace;
  ti_files : Forall (fun s => head_numbered s /\ files_end s) trace
}.

(** What a request that commits is known to end with. *)
Lemma committed_step s past request scope m s' : trace_inv (s :: past) -> committed (s :: past) s request scope m s' ->
  let V := view_of s head base in
  (exists mount expected is_open fuel A (p : plan (Step A)) answer, mt_root mount = ROOT /\ mt_chunk_size mount = cs /\ attempt parse_control mount expected scope is_open fuel request p /\ forall Q, wp V (unused s) p Q -> Q (Commit m answer)) /\
  (exists count, validate m = Ok count) /\ view_of s' head base = apply_mutation V m /\
  exists now0 p now s1, s1 ∈ s :: past /\ prepare m now0 s1 = Ok p /\ commit_packet p now s = Some s' /\ (store_keyed s' -> rows_valid s' head base) /\ layer_id (m_head m) = head /\ layer_id (m_base m) = base.
Proof using chain_ok.
  intros [Hh Hv Hf _] [recent v older mount expected is_open fuel e A p answer n s1 now0 packet now Et Eg Er Ecs Hver Hatt Hstores Hids Hrun H1 Hp Hc] V. rewrite Forall_forall in Hv, Hf.
  assert (forall x, x ∈ recent ++ [v] -> x ∈ s :: past) as Hin by (intros x Hx; rewrite Et; rewrite elem_of_app in *; rewrite list_elem_of_singleton in Hx; rewrite elem_of_cons; tauto).
  destruct (always_run _ _ _ _ _ (attempt_version _ _ _ _ _ _ _ _ Hatt) _ _ _ Hrun) as (_ & Em & Eb). destruct (version_records v expected Hver) as (_ & _ & V3 & V4).
  pose proof (between recent v older s past expected m now0 s1 packet now s' (eq_sym Et) Hh Hver Em Eb (Hin s1 H1) Hp Hc) as Hbetween.
  assert (commit_packet packet now s = Some (apply_packet packet s) /\ s' = apply_packet packet s) as [_ ->] by (revert Hc; unfold commit_packet; case_bool_decide; [|done]; by intros [= <-]).
  pose proof (committed_view m now0 s1 packet Hp s) as Hview. rewrite Em, Eb, V3, V4 in Hview. split_and!.
  - exists mount, expected, is_open, fuel, A, p, answer. split_and!; [done|done|done|]. intros Q HQ. refine (wp_run H B expected e V (unused s) chain_ok _ Hids p Q HQ 0 _ _ Hrun).
    intros k. destruct (Hbetween _ (Hstores k)) as (Hk & S1 & S2). split; [by apply Hv|by apply view_same].
  - by destruct (prepare_prepared m now0 s1 packet Hp) as [Hval _ _ _ _].
  - exact Hview.
  - exists now0, packet, now, s1. split_and!; [by apply Hin|done|done| |congruence|congruence]. intros Hk. pose proof (committed_valid m now0 s1 packet Hp s Hk) as Hrv. rewrite Em, Eb, V3, V4 in Hrv. apply Hrv, Hv. left.
Qed.

(** The files after a request that commits. *)
Lemma committed_files s past request scope m s' : trace_inv (s :: past) -> committed (s :: past) s request scope m s' -> typed m -> head_numbered s' /\
  forall i r', v_inodes (view_of s' head base) !! i = Some r' ->
    match v_inodes (view_of s head base) !! i with
    | Some r => in_size r' = size_after request (in_kind r) i (in_size r) /\ forall pos, 0 <= pos -> data_at s' i pos = data_after cs request (in_kind r) i pos (data_at s i pos)
    | None => forall pos, data_at s' i pos = Hole
    end.
Proof using chain_ok cs_pos.
  intros Hinv Hcm Hty. destruct (committed_step s past request scope m s' Hinv Hcm) as ((mount & expected & is_open & fuel & A & p & answer & Er & Ecs & Hatt & HQ) & (count & Hval) & Hview & now0 & packet & now & s1 & H1 & Hp & Hc & _ & Eh & Eb).
  destruct Hinv as [Hh _ [Hw _]%Forall_cons [[(L & HL & Hn) He] _]%Forall_cons]. destruct (history_later s past Hh) as [Hk Hl]. destruct (later_prepare s1 s m now0 packet now s' (Hl s1 H1) (sk_extents s Hk) Hp Hc) as (Hp' & _ & _).
  revert Hc. unfold commit_packet. case_bool_decide as Hb; [|done]. intros [= <-]. destruct Hb as (_ & C2 & _). destruct (prepare_prepared m now0 s packet Hp') as [_ _ _ (P1 & _) _].
  assert (numbered (s_extents s) (layer_id (m_head m)) (next_sequence (m_head m))) as Hn' by (rewrite P1, Eh, HL in C2; injection C2 as ->; by rewrite Eh).
  pose proof (commit_place m now0 s packet Hty Hk Hp' Hn') as Hplace. pose proof (commit_numbered m now0 s packet Hty Hk Hp' Hn') as Hnum. rewrite Eh, Eb in Hplace. rewrite Eh in Hnum. split.
  - exists (p_layer' packet). split; [|done]. cbn. by rewrite P1, Eh, lookup_insert_eq.
  - intros i r' Hr'. rewrite Hview in Hr'. pose proof (HQ _ (attempt_data cs cs_pos _ _ _ _ _ _ _ _ request p Ecs Hw (unused_fresh s) Er Hatt) count Hval Hty i r' Hr') as Hf. unfold file_ok in Hf. destruct (v_inodes (view_of s head base) !! i) as [r|] eqn:Ei.
    + destruct Hf as (_ & Hsize & Hdata). split; [done|]. intros pos H0. rewrite <-(Hdata pos (data_at s i pos) H0); [apply Hplace|]. intros Hpos. by apply (He i r).
    + destruct Hf as [Hu Hnone]. intros pos. unfold data_at. rewrite Hplace, Hnone. apply (unused_data s i pos); [apply (sk_extents s Hk)|done].
Qed.

Lemma trace_cons s' trace : trace_inv trace -> history (s' :: trace) -> rows_valid s' head base -> well_formed (view_of s' head base) -> head_numbered s' /\ files_end s' -> trace_inv (s' :: trace).
Proof using. intros [_ Hv Hw Hf] Hh. split; [done|by constructor..]. Qed.

(** A store with the rows of the one before. *)
Lemma trace_same s past s' : trace_inv (s :: past) -> history (s' :: s :: past) -> same_layer head s s' -> same_layer base s s' ->
  (forall L, s_layers s !! head = Some L -> exists L', s_layers s' !! head = Some L' /\ next_sequence L <= next_sequence L') -> trace_inv (s' :: s :: past).
Proof using.
  intros IH Hh S1 S2 Hl. pose proof (ti_valid _ IH) as [Hv _]%Forall_cons. pose proof (ti_fine _ IH) as [Hw _]%Forall_cons. pose proof (ti_files _ IH) as [Hf _]%Forall_cons. destruct (history_later _ _ Hh) as [Hk _].
  apply trace_cons; [done|done|by apply (rows_valid_same head base s)|by rewrite <-(view_same head base s)|]. apply (files_same s s'); [apply sk_extents, (rv_keyed _ _ _ Hv)|by apply sk_extents|done|done| |done].
  destruct Hf as [(L & HL & _) _]. destruct (Hl L HL) as (L' & HL' & Hle). by exists L, L'.
Qed.

Lemma trace_invariant trace : ws_trace trace -> trace_inv trace.
Proof using chain_ok cs_pos.
  induction 1 as [s Hv Hw Hn He|s past request scope m s' _ IH Hcm Hty|s past s0 m now0 p now s' _ IH H0 N1 N2 Hty Hp Hc|s past ws ls les _ IH s' Ha].
  - split; [apply History_start, (rv_keyed _ _ _ Hv)|by apply Forall_singleton..].
  - destruct (committed_step s past request scope m s' IH Hcm) as ((mount & expected & is_open & fuel & A & p & answer & Er & _ & Hatt & HQ) & (count & Hval) & Hview & now0 & packet & now & s1 & H1 & Hp & Hc & Hrv & _).
    assert (history (s' :: s :: past)) as Hh by (eapply History_commit; [apply (ti_history _ IH)|exact H1|done|exact Hp|exact Hc]). apply trace_cons; [done|done| | |].
    + apply Hrv. exact (proj1 (history_later s' (s :: past) Hh)).
    + rewrite Hview. pose proof (ti_fine _ IH) as [Hw _]%Forall_cons. exact (HQ (step_ok (view_of s head base)) (attempt_ok _ _ _ _ _ _ _ _ request p Hw (unused_fresh s) Er Hatt) count Hval).
    + destruct (committed_files s past request scope m s' IH Hcm Hty) as [Hn Hf]. split; [done|]. intros i r pos Hr H2 Hpos. specialize (Hf i r Hr). pose proof (ti_files _ IH) as [[_ He] _]%Forall_cons.
      destruct (v_inodes (view_of s head base) !! i) as [r0|] eqn:Ei; [|done]. destruct Hf as [Hsize Hdata]. rewrite Hdata by done. apply (data_inside cs request _ i (in_size r0)); [done| |lia]. by apply (He i r0).
  - assert (history (s' :: s :: past)) as Hh by (eapply History_commit; [apply (ti_history _ IH)|exact H0|done|exact Hp|exact Hc]).
    destruct (history_later _ _ (ti_history _ IH)) as [Hks Hl]. destruct (later_prepare s0 s m now0 p now s' (Hl s0 H0) (sk_extents s Hks) Hp Hc) as (Hp' & _ & _). destruct (packet_head m now0 s p Hp') as (Hid & _ & _).
    assert (layer_id (p_layer p) = g_head (m_guard m)) as Hpl by (destruct (prepare_prepared m now0 s p Hp') as [_ _ _ [E _] _]; congruence).
    assert (s' = apply_packet p s) as -> by (revert Hc; unfold commit_packet; by case_bool_decide; intros [= <-]).
    assert (forall layer, layer <> g_head (m_guard m) -> same_layer layer s (apply_packet p s)) as Hs by (intros layer Hne; apply (packet_other m now0 s p Hty (sk_extents s Hks) Hp'); congruence).
    apply trace_same; [done|done|apply Hs; congruence|apply Hs; congruence|]. intros L HL. exists L. split; [|lia]. cbn. by rewrite lookup_insert_ne by congruence.
  - apply trace_same; [done|exact (History_other s past ws ls les (ti_history _ IH) Ha)|done|done|]. intros L HL. by apply (Ha head L).
Qed.
End trace.
