(* ===== verification/OverlayRequests.v ===== *)
(** What the requests of a workspace do to its names, and who may make them. *)
From stdpp Require Import options.
From S2P Require Import Prelude Span Slices Acl MetaTypes Namespace Layers LayerExtents LayerCompact LayerHistory LayerNames Access Overlay OverlayCommits OverlayView OverlayPlan OverlayOps OverlayTree OverlayState OverlaySteps OverlayWell OverlayAttempts OverlayData OverlayFiles OverlayTrace.

(** ** Names after a request *)

(** No name is below [i]. *)
Definition childless (D : Names) (i : Z) : bool := bool_decide (map_Forall (fun k _ => k.1 <> i) D).

(** The names after a request that is carried out; [id] is the new inode of a
    creation. *)
Definition names_after (request : Request) (V : View) (id : Z) : option Names :=
  let D := v_names V in
  match request with
  | Create parent name kind _ _ _ _ _ _ =>
      match D !! (parent, name), v_inodes V !! id with None, None => Some (<[(parent, name) := (id, file_type_code kind)]> D) | _, _ => None end
  | Remove parent name directory =>
      match D !! (parent, name) with
      | Some (i, t) => if eqb directory (t =? DIR) && childless D i then Some (delete (parent, name) D) else None
      | None => None
      end
  | Link ino parent name =>
      match D !! (parent, name), v_inodes V !! ino with
      | None, Some r => if in_kind r =? DIR then None else Some (<[(parent, name) := (ino, in_kind r)]> D)
      | _, _ => None
      end
  | Rename p1 n1 p2 n2 =>
      match D !! (p1, n1) with
      | Some (i, t) =>
          if match D !! (p2, n2) with Some (d, td) => negb (d =? i) && eqb (t =? DIR) (td =? DIR) && childless D d | None => true end
          then Some (<[(p2, n2) := (i, t)]> (delete (p1, n1) D)) else None
      | None => None
      end
  | Exchange p1 n1 p2 n2 =>
      match D !! (p1, n1), D !! (p2, n2) with
      | Some l, Some r => if l.1 =? r.1 then None else Some (<[(p2, n2) := l]> (<[(p1, n1) := r]> D))
      | _, _ => None
      end
  | _ => Some D
  end.

(** ** Permission to change names *)

Section permission.
Context (parse_control : list byte -> option (list Control.ControlAclEntry)) (V : View) (actor : NamespaceActor).

(** The actor has the access [requested] to a directory. *)
Definition granted (ino requested : Z) : Prop := exists r, v_inodes V !! ino = Some r /\ in_kind r = DIR /\
  inode_allows_actor parse_control r (v_xattrs V !! (ino, ACCESS_XATTR)) (v_xattrs V !! (ino, CONTROL_XATTR)) (act_uid actor) (act_groups actor) requested = Ok true.

(** Every directory from [ino] up to the root may be searched. *)
Inductive searchable : Z -> Prop :=
| Search_root : granted ROOT 1 -> searchable ROOT
| Search_up ino parent : granted ino 1 -> up (node_of <$> v_inodes V) ino = Some parent -> searchable parent -> searchable ino.

(** The actor is root, or may write and search the directory, search all those above
    it and, below a sticky directory, owns it or the child that the name has. *)
Definition authorized (parent : Z) (child : option Z) : Prop :=
  act_uid actor = 0 \/
  (granted parent 3 /\ (parent <> ROOT -> exists above, up (node_of <$> v_inodes V) parent = Some above /\ searchable above) /\
   forall directory c, v_inodes V !! parent = Some directory -> child = Some c -> Z.land (in_mode directory) 512 <> 0 -> (* 0o1000 *)
     act_uid actor = in_uid directory \/ exists r, v_inodes V !! c = Some r /\ act_uid actor = in_uid r).
End permission.

Section checks.
Context (parse_control : list byte -> option (list Control.ControlAclEntry)) (mount : Mount) (scope : RequestScope) (fuel : nat) (V : View) (ids : Z -> Prop) (at_root : mt_root mount = ROOT).
Abbreviation permission ino inode := (inode, v_xattrs V !! (ino, ACCESS_XATTR), v_xattrs V !! (ino, DEFAULT_XATTR), v_xattrs V !! (ino, CONTROL_XATTR)).

Lemma allows_step actor ino inode requested (Q : bool -> Prop) : v_inodes V !! ino = Some (strip inode) -> in_kind inode = DIR -> (forall b, (b = true -> granted parse_control V actor ino requested) -> Q b) ->
  wp V ids (allows parse_control inode (v_xattrs V !! (ino, ACCESS_XATTR)) (v_xattrs V !! (ino, CONTROL_XATTR)) (act_uid actor) (act_groups actor) requested) Q.
Proof using.
  intros Hi Hk HQ. unfold allows. apply wp_lift. intros b Hb. apply HQ. intros ->. exists (strip inode). split_and!; [done|done|].
  assert (forall (r : result Errno bool) a, map_err Io r = Ok a -> r = Ok a) as Hm by (intros [x|x] y; cbn; congruence). exact (Hm _ _ Hb).
Qed.

Lemma ancestors_step actor : forall n visited ancestor, wp V ids (check_ancestors parse_control mount n visited (act_uid actor) (act_groups actor) ancestor) (fun _ => exists above, ancestor = Some above /\ searchable parse_control V actor above).
Proof using at_root.
  induction n as [|n IH]; intros visited ancestor; cbn [check_ancestors]; [exact I|]. wp_step. wp_step. destruct ancestor as [x|]; [|done]. injection H as ->. wp_step; [exact I|]. wp_step. wp_step. wp_step; [exact I|].
  apply negb_false_iff, Z.eqb_eq in Heqb0. wp_step. apply (allows_step _ a inode); [done|done|]. intros b Hb. cbv beta. wp_step; [exact I|]. apply negb_false_iff in Heqb1. specialize (Hb Heqb1). rewrite at_root. destruct (Z.eqb_spec a ROOT) as [->|].
  - wp_step. exists ROOT. split; [done|]. by constructor.
  - eapply wp_mono; [|apply IH]. intros _ (above & E & Hs). exists a. split; [done|]. apply (Search_up _ _ _ _ above); [done| |done]. rewrite (up_dir _ a (node_of inode)); [exact E|by rewrite lookup_fmap, H|done].
Qed.

Lemma check_step parent child perm : match perm with Some p => exists inode, p = permission parent inode /\ v_inodes V !! parent = Some (strip inode) | None => True end ->
  wp V ids (check_namespace_actor_with_parent parse_control mount scope fuel parent child perm) (fun _ => forall actor, sc_actor scope = Some actor -> authorized parse_control V actor parent child).
Proof using at_root.
  intros Hperm. unfold check_namespace_actor_with_parent. destruct (sc_actor scope) as [actor|]; [|by wp_step]. destruct (Z.eqb_spec (act_uid actor) 0); [wp_step; intros a [= <-]; by left|]. wp_step.
  assert (wp V ids match perm with Some p => return_ p | None => get_permissions parent end (fun p => exists inode, p = permission parent inode /\ v_inodes V !! parent = Some (strip inode))) as Hw by (destruct perm; wp_step; eauto).
  eapply wp_mono; [|exact Hw]. clear Hw. intros p (inode & -> & Hi). cbv beta iota. wp_step; [exact I|]. apply negb_false_iff, Z.eqb_eq in Heqb. wp_step. apply (allows_step _ parent inode); [done|done|]. intros b Hb. cbv beta. wp_step; [exact I|].
  apply negb_false_iff in Heqb0. specialize (Hb Heqb0). assert (up (node_of <$> v_inodes V) parent = in_parent_hint inode) as Hup by (rewrite (up_dir _ parent (node_of inode)); [done|by rewrite lookup_fmap, Hi|done]).
  wp_step. rewrite at_root. assert (wp V ids (if parent =? ROOT then return_ tt else check_ancestors parse_control mount fuel {[parent]} (act_uid actor) (act_groups actor) (in_parent_hint inode))
    (fun _ => parent <> ROOT -> exists above, up (node_of <$> v_inodes V) parent = Some above /\ searchable parse_control V actor above)) as Hw.
  { destruct (Z.eqb_spec parent ROOT); [by wp_step|]. eapply wp_mono; [|apply ancestors_step]. intros _ (above & E & Hs) _. exists above. by rewrite Hup. }
  eapply wp_mono; [|exact Hw]. clear Hw. intros [] Habove. cbv beta. destruct child as [c|]; [|wp_step; intros a [= <-]; right; by split_and!].
  wp_step.
  - wp_step. wp_step. wp_step; [exact I|]. apply negb_false_iff, Z.eqb_eq in Heqb2. wp_step. intros a [= <-]. right. split_and!; [done|done|]. intros directory c' Hd [= <-] _. right. exists (strip inode0). done.
  - wp_step. intros a [= <-]. right. split_and!; [done|done|]. intros directory c' Hd [= <-] Hs. rewrite Hi in Hd. injection Hd as <-. left. cbn in *. destruct (Z.eqb_spec (act_uid actor) (in_uid inode)); [done|]. destruct (Z.eqb_spec (Z.land (in_mode inode) 512) 0); done.
Qed.
End checks.

(** ** Attempts *)

Section walks.
Context (parse_control : list byte -> option (list Control.ControlAclEntry)) (mount : Mount) (expected : LayerRecord * LayerRecord) (scope : RequestScope) (is_open : Z -> bool) (fuel : nat) (V : View).
Context (ids : Z -> Prop) (news : forall id, ids id -> fresh V id) (ok : well_formed V) (at_root : mt_root mount = ROOT).
Abbreviation D := (v_names V).
Abbreviation allowed parent child := (forall actor, sc_actor scope = Some actor -> authorized parse_control V actor parent child).

Definition request_ok {A} (request : Request) (step : Step A) : Prop :=
  match step with
  | Return _ => True
  | Commit m _ => (exists id, names_after request V id = Some (foldl put_name D (m_dentries m))) /\
      Forall (fun d => allowed (de_parent d) (fst <$> D !! (de_parent d, de_name d))) (m_dentries m)
  end.

Lemma childless_ok i : (forall n, D !! (i, n) = None) -> childless D i = true.
Proof using. intros Hn. apply bool_decide_eq_true. intros [p n] x Hx. cbn. intros ->. by rewrite Hn in Hx. Qed.

Lemma create_names parent name kind mode umask uid gid rdev target :
  wp V ids (create_entry parse_control mount expected scope fuel parent name kind mode umask uid gid rdev target) (request_ok (Create parent name kind mode umask uid gid rdev target)).
Proof using news at_root.
  unfold create_entry. wp_step. wp_check. wp_step. wp_step. wp_step. eapply wp_mono; [|apply check_step; [done|by exists inode]]. intros [] Hauth. cbv beta iota zeta. wp_step. wp_skip. destruct a as [creation_mode inherited]. wp_step. wp_step. wp_step; [exact I|]. wp_step. wp_step. wp_step; [exact I|].
  do 4 wp_step. wp_step. wp_skip. wp_step. destruct (news _ H4) as [Hi _]. assert (Hfree := absent _ _ H3 Heqb0). split; cbn [m_dentries mutation].
  - exists id. cbn. by rewrite Hfree, Hi.
  - apply Forall_singleton. cbn. by rewrite Hfree.
Qed.

Lemma remove_names parent name directory : wp V ids (remove_entry parse_control mount expected scope is_open fuel parent name directory) (request_ok (Remove parent name directory)).
Proof using ok at_root.
  unfold remove_entry. wp_step. wp_check. wp_step. wp_step. wp_step. wp_step. destruct o as [d|]; [|done]. injection H0 as ->. cbn in H. symmetry in H. wp_step. eapply wp_mono; [|by apply check_step]. intros [] Hauth. cbv beta. wp_step. wp_step. wp_step. wp_step. rename r into nd.
  destruct (bound_node ok parent name _ _ nd H H0) as [Ek _]. wp_step; [exact I|]. wp_step; [exact I|]. rewrite (kind_dir _ _ H3) in Heqb, Heqb0.
  wp_step. assert (wp V ids (if directory then directory_is_empty (rd_ino a) else return_ true) (fun empty => empty = true -> directory = true -> forall n, D !! (rd_ino a, n) = None)) as Hw.
  { destruct directory; [eapply wp_mono; [|apply empty_step]; auto|]. by wp_step. }
  eapply wp_mono; [|exact Hw]. intros empty He. clear Hw. cbv beta. wp_step; [exact I|]. apply negb_false_iff in Heqb1. specialize (He Heqb1). do 5 wp_step. wp_skip. wp_step. wp_skip. wp_step. split; cbn [m_dentries mutation].
  - exists 0. cbn. rewrite H, Ek. rewrite childless_ok; [by destruct directory, (in_kind nd =? DIR)|]. destruct directory; [by apply He|]. cbn in Heqb0. apply Z.eqb_neq in Heqb0. by apply (not_dir_childless _ _ (wf_tree V ok) (rd_ino a) (node_of nd)); [apply shown|].
  - apply Forall_singleton. cbn. by rewrite H.
Qed.

Lemma link_names ino parent name : wp V ids (link parse_control mount expected scope fuel ino parent name) (request_ok (Link ino parent name)).
Proof using at_root.
  unfold link, lookup. wp_step. wp_check. wp_step. eapply wp_mono; [|by apply check_step]. intros [] Hauth. cbv beta. wp_step. wp_step. wp_check. wp_step. wp_step. wp_step. wp_step; [exact I|]. do 4 wp_step. wp_step; [exact I|]. do 4 wp_step. wp_step; [exact I|]. do 5 wp_step.
  assert (D !! (parent, name) = None) as Hfree by (apply (absent o); [done|by destruct o]). rewrite (kind_dir _ _ H3) in Heqb0. split; cbn [m_dentries mutation].
  - exists 0. cbn. rewrite Hfree, H0. cbn. by rewrite Heqb0.
  - apply Forall_singleton. cbn. by rewrite Hfree.
Qed.

Lemma rename_names p1 n1 p2 n2 : wp V ids (rename parse_control mount expected scope is_open fuel p1 n1 p2 n2) (request_ok (Rename p1 n1 p2 n2)).
Proof using ok at_root.
  unfold rename. wp_step. wp_check. wp_step. wp_check. wp_step; [exact I|]. wp_step. wp_step. wp_step. wp_step. destruct o as [e|]; [|done]. injection H0 as ->. cbn in H. wp_step. wp_step. rename r into source. symmetry in H.
  destruct (bound_node ok p1 n1 _ _ source H H0) as [Ek _]. wp_step. wp_step. wp_step. wp_step. rename o into target. wp_step; [exact I|]. wp_step. eapply wp_mono; [|by apply check_step]. intros [] Hauth1. cbv beta. wp_step. eapply wp_mono; [|by apply check_step]. intros [] Hauth2. cbv beta.
  wp_step. wp_skip. wp_step; [exact I|]. wp_step.
  assert (wp V ids match target with Some entry => let* inode := inode_or (NotFound (rd_ino entry)) (rd_ino entry) in return_ (Some inode) | None => return_ None end
    (fun dest => match dest with Some d => exists t, target = Some t /\ rd_ino t = in_ino d /\ rd_type t = in_kind d /\ v_inodes V !! in_ino d = Some (strip d) | None => target = None end)) as Hw.
  { destruct target as [entry|]; [|by wp_step]. cbn in H4. symmetry in H4. do 3 wp_step. destruct (bound_node ok p2 n2 _ _ r H4 H5) as [Et _]. exists entry. rewrite H6. done. }
  eapply wp_mono; [|exact Hw]. clear Hw. intros dest Hdest. cbv beta. wp_step.
  assert (wp V ids match dest with Some inode => check_replace a0 inode | None => return_ tt end
    (fun _ => match dest with Some d => (in_kind source =? DIR) = (in_kind d =? DIR) /\ (in_kind d = DIR -> forall n, D !! (in_ino d, n) = None) | None => True end)) as Hw.
  { destruct dest as [d|]; [|by wp_step]. rewrite <-(kind_dir _ _ H3). eapply wp_mono; [|apply replace_step]. auto. }
  eapply wp_mono; [|exact Hw]. clear Hw. intros [] Hreplace. cbv beta. do 3 wp_step. wp_skip. wp_step. wp_step. wp_step; [exact I|]. do 3 wp_step. apply wp_any. intros [[[source' old'] new'] dest']. cbv beta iota. wp_step. split; cbn [m_dentries mutation].
  - exists 0. cbn. rewrite H, <-H4. destruct target as [entry|]; cbn; [|done]. destruct dest as [d|]; [|done]. destruct Hdest as (t0 & [= <-] & E1 & E2 & Hd), Hreplace as [Hk He]. rewrite Heqb0, Ek, E1, E2, Hk. cbn.
    rewrite eqb_reflx, childless_ok; [done|]. destruct (decide (in_kind d = DIR)) as [Hdir|Hdir]; [auto|]. by apply (not_dir_childless _ _ (wf_tree V ok) (in_ino d) (node_of d)); [apply shown|].
  - apply list.Forall_cons. split; [cbn; by rewrite H|]. apply Forall_singleton. cbn. rewrite <-H4. by destruct target.
Qed.

Lemma exchange_names p1 n1 p2 n2 : wp V ids (rename_exchange parse_control mount expected scope fuel p1 n1 p2 n2) (request_ok (Exchange p1 n1 p2 n2)).
Proof using at_root.
  unfold rename_exchange. wp_step. wp_check. wp_step. wp_check. do 4 wp_step. destruct o as [e|]; [|done]. injection H0 as ->. cbn in H. symmetry in H. rename a into el. do 4 wp_step. destruct o as [e|]; [|done]. injection H1 as ->. cbn in H0. symmetry in H0. rename a into er.
  wp_step. eapply wp_mono; [|by apply check_step]. intros [] Hauth1. cbv beta. wp_step. eapply wp_mono; [|by apply check_step]. intros [] Hauth2. cbv beta. wp_step; [exact I|].
  wp_step. wp_step. wp_step. wp_skip. wp_step; [exact I|]. wp_step. wp_step. wp_step. wp_skip. wp_step; [exact I|]. do 7 wp_step. wp_skip. do 2 wp_step. wp_step; [exact I|]. do 2 wp_step. wp_step; [exact I|]. do 4 wp_step. wp_step. apply wp_any. intros [[[l' r'] old'] new']. cbv beta iota. do 3 wp_step.
  split; cbn [m_dentries mutation].
  - exists 0. cbn. rewrite H, H0. cbn. by rewrite Heqb.
  - apply list.Forall_cons. split; [cbn; by rewrite H|]. apply Forall_singleton. cbn. by rewrite H0.
Qed.

Lemma always_wp {A} (p : plan A) Q : always p Q -> wp V ids p Q.
Proof using. induction p as [[a|e]| | | | | | |]; cbn; auto. Qed.

Definition no_names {A} (step : Step A) : Prop := match step with Return _ => True | Commit m _ => m_dentries m = [] end.

Lemma quiet_request {A} request (p : plan (Step A)) : (forall id, names_after request V id = Some D) -> always p no_names -> wp V ids p (request_ok request).
Proof using. intros Hr Hp. apply (wp_mono V ids p no_names); [|by apply always_wp]. intros [a|m a] Hm; [done|]. cbn in Hm. split; rewrite Hm; [exists 0; apply Hr|constructor]. Qed.

Lemma attempt_names request {A} (p : plan (Step A)) : attempt parse_control mount expected scope is_open fuel request p -> wp V ids p (request_ok request).
Proof using news ok at_root.
  assert (forall ino name value flags uid groups, always (update_posix_acl_with_flags mount expected ino name value flags uid groups) no_names) as Hacl
    by (intros; unfold update_posix_acl_with_flags; repeat always_step).
  destruct 1; [by apply create_names|by apply remove_names|by apply link_names|by apply rename_names|by apply exchange_names|..]; (apply quiet_request; [done|]);
    [unfold set_attr_checked|apply Hacl|unfold set_xattr_bytes|unfold remove_xattr_bytes|unfold set_acl|unfold truncate|unfold open|unfold apply_hole_range|unfold commit_write_batch|unfold remove_orphan]; repeat (always_step || apply Hacl).
Qed.
End walks.

(** ** Theorems *)

(** C4: what a workspace shows stays well formed.  Clients create, remove, link,
    rename and exchange names, change attributes, access lists and extended
    attributes, open, truncate and write files; each reads the version of the
    layers and then row after row while others commit, and commits one mutation.
    Whatever the order of these requests and of the commits to other workspaces, in
    every store the names form a tree below the root: each name leads from a
    directory to an inode of its kind, each directory but the root has one name, which
    its parent hint agrees with and from which a climb reaches the root, the link
    count of a directory is two and its subdirectories, the link count of another
    inode is the number of its names, an access list agrees with the mode of its
    inode and only directories have default lists. *)
Theorem workspace_well_formed parse_control cs H B trace s : check_chain [H; B] = Ok tt -> 0 < cs -> ws_trace parse_control cs H B trace -> s ∈ trace ->
  well_formed (view_of s (layer_id H) (layer_id B)) /\ rows_valid s (layer_id H) (layer_id B).
Proof.
  intros Hc Hcs Ht Hs. destruct (trace_invariant parse_control cs H B Hc Hcs trace Ht) as [_ Hv Hf _]. rewrite Forall_forall in Hv, Hf. auto.
Qed.

(** C5: a request that commits does to the names of the workspace what it asks for,
    as one step on the names that the workspace shows when it commits.  A creation
    binds a free name to a new inode; a removal takes away a name of the kind asked
    for, of an empty directory or a file; a link binds a free name to a file; a
    rename takes the old name away and binds the new one, which was free or had an
    inode of the same kind without names below; an exchange swaps two names; the
    other requests change no name.  The names of other keys stay. *)
Theorem workspace_names_refine parse_control cs H B s past request scope m s' : check_chain [H; B] = Ok tt -> 0 < cs -> ws_trace parse_control cs H B (s :: past) ->
  committed parse_control cs H B (s :: past) s request scope m s' ->
  exists id, names_after request (view_of s (layer_id H) (layer_id B)) id = Some (names_of s' (layer_id H) (layer_id B)).
Proof.
  intros Hc Hcs Ht Hcm. pose proof (trace_invariant parse_control cs H B Hc Hcs _ Ht) as Hinv. destruct (committed_step parse_control cs H B Hc s past request scope m s' Hinv Hcm) as ((mount & expected & is_open & fuel & A & p & answer & Er & _ & Hatt & HQ) & _ & Hview & _).
  pose proof (ti_fine _ _ _ _ Hinv) as [Hw _]%Forall_cons. destruct (HQ _ (attempt_names _ _ _ _ _ _ _ _ (unused_fresh H B s) Hw Er request p Hatt)) as [Hn _]. apply (f_equal v_names) in Hview. cbn in Hview. by rewrite Hview.
Qed.

(** C6: nobody changes a name without the permissions for it.  Of every name that a
    committed request writes or removes on behalf of a user, at the moment of the
    commit: the user is root, or the access list or mode of the directory gives the
    user write and search permission, every directory above it up to the root gives
    search permission, and where the directory is sticky the user owns the directory
    or the inode that the name had. *)
Theorem name_changes_authorized parse_control cs H B s past request scope m s' actor d : check_chain [H; B] = Ok tt -> 0 < cs -> ws_trace parse_control cs H B (s :: past) ->
  committed parse_control cs H B (s :: past) s request scope m s' -> sc_actor scope = Some actor -> d ∈ m_dentries m ->
  let V := view_of s (layer_id H) (layer_id B) in authorized parse_control V actor (de_parent d) (fst <$> v_names V !! (de_parent d, de_name d)).
Proof.
  intros Hc Hcs Ht Hcm Ha Hd V. pose proof (trace_invariant parse_control cs H B Hc Hcs _ Ht) as Hinv. destruct (committed_step parse_control cs H B Hc s past request scope m s' Hinv Hcm) as ((mount & expected & is_open & fuel & A & p & answer & Er & _ & Hatt & HQ) & _ & Hview & _).
  pose proof (ti_fine _ _ _ _ Hinv) as [Hw _]%Forall_cons. destruct (HQ _ (attempt_names _ _ _ _ _ _ _ _ (unused_fresh H B s) Hw Er request p Hatt)) as [_ Hf]. rewrite Forall_forall in Hf. by apply (Hf d Hd).
Qed.

(** *** A request *)

Lemma root_tree hint : tree_ok {[ROOT := mkNode DIR 2 hint]} ∅.
Proof.
  split.
  - by exists (mkNode DIR 2 hint).
  - intros i nd [<- <-]%lookup_singleton_Some. unfold node_ok. cbn. split; [by rewrite folders_none|]. apply binds_none. intros k t. by rewrite lookup_empty.
  - intros i nd [<- <-]%lookup_singleton_Some _. apply reaches_root.
  - intros p n i t. by rewrite lookup_empty.
Qed.

(** C3: a request that commits does to the files of the workspace what it asks for,
    as one step on what the workspace has when it commits.  Setting a size, a
    truncation and an open that truncates cut the file or extend it with a hole; a
    punched or zeroed range becomes a hole, and extends the file where the size is
    not kept; the writes of a batch take their bytes in the order of arrival, the
    later over the earlier, as far as the size that comes with each, and leave inodes
    that are no files alone; no other request changes the size or a byte of a file,
    and the data of a new inode is a hole. *)
Theorem workspace_files_refine parse_control cs H B s past request scope m s' : check_chain [H; B] = Ok tt -> 0 < cs -> ws_trace parse_control cs H B (s :: past) ->
  committed parse_control cs H B (s :: past) s request scope m s' -> typed m ->
  let V := view_of s (layer_id H) (layer_id B) in
  forall i r', v_inodes (view_of s' (layer_id H) (layer_id B)) !! i = Some r' ->
    match v_inodes V !! i with
    | Some r => in_size r' = size_after request (in_kind r) i (in_size r) /\
        forall pos, 0 <= pos -> data_at cs H B s' i pos = data_after cs request (in_kind r) i pos (data_at cs H B s i pos)
    | None => forall pos, data_at cs H B s' i pos = Hole
    end.
Proof.
  intros Hc Hcs Ht Hcm Hty V. exact (proj2 (committed_files parse_control cs H B Hc Hcs s past request scope m s' (trace_invariant parse_control cs H B Hc Hcs _ Ht) Hcm Hty)).
Qed.


Definition w_parse (bytes : list byte) : option (list Control.ControlAclEntry) := None.
Definition w_root : InodeDelta := mkInode 1 1 Present 1 0 493 5 5 0 2 0 0 0 None None 0 1. (* 0o755 *)
Definition w_store : Store := mkStore {[1 := w_workspace]} (<[1 := w_base]> {[2 := w_head]}) {[(1, 7) := w_lease]} ∅ {[(1, 1) := w_root]} ∅ ∅ ∅ ∅.
Definition w_mount : Mount := mkMount 1 64 w_guard.
Definition w_scope : RequestScope := mkScope (Some (mkActor 5 5 [5])) None None.
Definition w_env : Env := mkEnv (fun _ => w_store) (fun _ => 10) (fun _ => 25).
Definition w_request : Request := Create 1 [Byte.x61] File 420 18 5 5 0 None. (* 0o644 0o022 *)
Definition w_plan : plan (Step (Z * result OverlayError FileAttr)) := create_entry w_parse w_mount (w_head, w_base) w_scope 4 1 [Byte.x61] File 420 18 5 5 0 None.
Definition w_new : InodeDelta := mkInode 2 10 Present 0 0 420 5 5 0 1 25 25 25 None (Some 1) 1 0.
Definition w_mutation : VersionedMutation :=
  mkMutation w_guard w_head w_base [mkDentry 2 1 [Byte.x61] DPut (Some 10) (Some 0) 0] [w_new; mkInode 2 1 Present 1 0 493 5 5 0 2 0 25 25 None None 0 0] [] [] [] 64.
Definition w_written : option Packet := Eval vm_compute in match prepare w_mutation 26 w_store with Ok p => Some p | Err _ => None end.

Lemma w_view : view_of w_store 2 1 = mkView {[1 := strip w_root]} ∅ ∅.
Proof. reflexivity. Qed.

Lemma w_trace : ws_trace w_parse 64 w_head w_base [w_store].
Proof.
  apply Trace_start.
  - split; [split; try apply map_Forall_empty; by apply map_Forall_singleton|by intros|by intros].
  - change (layer_id w_head) with 2. change (layer_id w_base) with 1. rewrite w_view. split; cbn.
    + rewrite map_fmap_singleton. apply root_tree.
    + intros i r [<- <-]%lookup_singleton_Some. by vm_compute.
    + intros i r _. split; intros bytes; by rewrite lookup_empty.
  - exists w_head. split; [done|]. intros i c q [d Hd]. change (s_extents w_store) with (∅ : Rows) in Hd. by rewrite lookup_empty in Hd.
  - intros i r pos _ _ _. reflexivity.
Qed.

Definition w_created : Store := Eval vm_compute in match w_written with Some p => default w_store (commit_packet p 27 w_store) | None => w_store end.

Lemma w_committed : committed w_parse 64 w_head w_base [w_store] w_store w_request w_scope w_mutation w_created.
Proof.
  destruct w_written as [p|] eqn:Ep; [|discriminate Ep]. assert (prepare w_mutation 26 w_store = Ok p) as Hp by (injection Ep as <-; vm_compute; reflexivity).
  assert (commit_packet p 27 w_store = Some w_created) as Hc by (injection Ep as <-; vm_compute; reflexivity).
  apply (Committed w_parse 64 w_head w_base [w_store] w_store w_request w_scope w_mutation w_created [] w_store [] w_mount (w_head, w_base) (fun _ => false) 4 w_env _ w_plan (10, file_attr w_new) 4 w_store 26 p 27); try done.
  - apply Attempt_create.
  - intros k. left.
  - intros k layer [->| ->]; split_and!; done.
  - left.
Qed.

(** A write to the file that the request makes. *)
Definition w_head2 : LayerRecord := Eval vm_compute in default w_head (s_layers w_created !! 2).
Definition w_env2 : Env := mkEnv (fun _ => w_created) (fun _ => 11) (fun _ => 35).
Definition w_write : PendingWrite := mkPending 10 (10 * ChunkId.CHUNK_ID_BASE) (Slice.mkSlice 77 (10 * ChunkId.CHUNK_ID_BASE) 2 8) 7.
Definition w_plan2 : plan (Step (list (PendingWrite * OverlayError))) := commit_write_batch w_mount (w_head2, w_base) [w_write].
Definition w_mutation2 : VersionedMutation :=
  mkMutation w_guard w_head2 w_base [] [mkInode 2 10 Present 0 7 420 5 5 0 1 25 35 35 None (Some 1) 2 0] [] [] [mkExtent 2 10 0 2 5 (Data 77 0) 0] 64.
Definition w_written2 : option Packet := Eval vm_compute in match prepare w_mutation2 36 w_created with Ok p => Some p | Err _ => None end.

Definition w_stored : Store := Eval vm_compute in match w_written2 with Some p => default w_store (commit_packet p 37 w_created) | None => w_store end.

Lemma w_trace2 : ws_trace w_parse 64 w_head w_base [w_created; w_store].
Proof. apply (Trace_request _ _ _ _ w_store [] w_request w_scope w_mutation w_created w_trace w_committed). constructor. Qed.

Lemma w_committed2 : committed w_parse 64 w_head w_base [w_created; w_store] w_created (Write [w_write]) w_scope w_mutation2 w_stored.
Proof.
  destruct w_written2 as [p|] eqn:Ep; [|discriminate Ep]. assert (prepare w_mutation2 36 w_created = Ok p) as Hp by (injection Ep as <-; vm_compute; reflexivity).
  assert (commit_packet p 37 w_created = Some w_stored) as Hc by (injection Ep as <-; vm_compute; reflexivity).
  apply (Committed w_parse 64 w_head w_base [w_created; w_store] w_created (Write [w_write]) w_scope w_mutation2 w_stored [] w_created [w_store] w_mount (w_head2, w_base) (fun _ => false) 4 w_env2 _ w_plan2 [] 2 w_created 36 p 37); try done.
  - apply Attempt_write.
  - intros k. left.
  - intros k layer [->| ->]; split_and!; done.
  - left.
Qed.

Lemma w_typed2 : typed w_mutation2.
Proof. by repeat constructor. Qed.

Lemma w_trace3 : ws_trace w_parse 64 w_head w_base [w_stored; w_created; w_store].
Proof. exact (Trace_request _ _ _ _ w_created [w_store] _ w_scope w_mutation2 w_stored w_trace2 w_committed2 w_typed2). Qed.

Lemma w_file : v_inodes (view_of w_stored 2 1) !! 10 = Some (strip (mkInode 2 10 Present 0 7 420 5 5 0 1 25 35 35 None (Some 1) 2 0)).
Proof. vm_compute. reflexivity. Qed.

Lemma workspace_well_formed_witness : ws_trace w_parse 64 w_head w_base [w_stored; w_created; w_store] /\ well_formed (view_of w_stored 2 1).
Proof.
  split; [exact w_trace3|]. apply (workspace_well_formed w_parse 64 w_head w_base [w_stored; w_created; w_store] w_stored eq_refl eq_refl w_trace3 ltac:(left)).
Defined.

Lemma workspace_names_refine_witness : exists id, names_after w_request (view_of w_store 2 1) id = Some (names_of w_created 2 1).
Proof. exact (workspace_names_refine w_parse 64 w_head w_base w_store [] w_request w_scope w_mutation w_created eq_refl eq_refl w_trace w_committed). Defined.

Lemma name_changes_authorized_witness : authorized w_parse (view_of w_store 2 1) (mkActor 5 5 [5]) 1 None.
Proof.
  exact (name_changes_authorized w_parse 64 w_head w_base w_store [] w_request w_scope w_mutation w_created (mkActor 5 5 [5]) (mkDentry 2 1 [Byte.x61] DPut (Some 10) (Some 0) 0) eq_refl eq_refl w_trace w_committed eq_refl ltac:(left)).
Defined.

Lemma workspace_files_refine_witness : data_at 64 w_head w_base w_stored 10 4 = Data 77 2.
Proof.
  pose proof (workspace_files_refine w_parse 64 w_head w_base w_created [w_store] (Write [w_write]) w_scope w_mutation2 w_stored eq_refl eq_refl w_trace2 w_committed2 w_typed2 10 _ w_file) as Hf. cbv zeta in Hf.
  destruct (v_inodes (view_of w_created (layer_id w_head) (layer_id w_base)) !! 10) as [r|] eqn:E; [|vm_compute in E; discriminate E]. destruct Hf as [_ Hf]. rewrite (Hf 4 ltac:(lia)). vm_compute in E. injection E as <-. vm_compute. reflexivity.
Defined.

