(* ===== verification/MetaTxn.v ===== *)
(** Transactions of [src/meta/stores/tikv/mod.rs]: the key space as typed maps,
    the transaction monad with its row accessors, counter leases, and [run_txn]
    with its bounded retries.

    A transaction runs on a [view] that becomes the committed state when the
    commit succeeds and is dropped otherwise; transactions of different clients
    are serialised, as the pessimistic locks of the client library are meant to
    ensure. Counter leases are taken by a nested transaction that commits on its
    own, so they survive a rollback of the outer one. *)
From stdpp Require Import options.
From S2P Require Import Prelude Slices FileLock MetaTypes.
Import Slice.

(** ** The key space *)

Record DB := mkDB {
  inodes : gmap Z StoredNode;
  dentries : gmap (Z * string) StoredDentry;
  link_parents : gmap Z (list StoredLinkParent);
  plocks : gmap Z (list FileLock.StoredPlock);
  chunks : gmap Z (list SliceDesc);
  delayed_pending : gmap Z StoredDelayedSliceRecord;
  delayed_meta_deleted : gmap Z StoredDelayedSliceRecord;
  uncommitted_pending : gmap Z StoredUncommittedSliceRecord;
  uncommitted_orphan : gmap Z StoredUncommittedSliceRecord;
  counters : gmap string Z }.

Definition empty_db : DB := mkDB ∅ ∅ ∅ ∅ ∅ ∅ ∅ ∅ ∅ ∅.

Definition with_inodes (f : gmap Z StoredNode -> gmap Z StoredNode) (d : DB) : DB :=
  mkDB (f (inodes d)) (dentries d) (link_parents d) (plocks d) (chunks d) (delayed_pending d)
    (delayed_meta_deleted d) (uncommitted_pending d) (uncommitted_orphan d) (counters d).
Definition with_dentries (f : gmap (Z * string) StoredDentry -> gmap (Z * string) StoredDentry)
    (d : DB) : DB :=
  mkDB (inodes d) (f (dentries d)) (link_parents d) (plocks d) (chunks d) (delayed_pending d)
    (delayed_meta_deleted d) (uncommitted_pending d) (uncommitted_orphan d) (counters d).
Definition with_link_parents (f : gmap Z (list StoredLinkParent) -> gmap Z (list StoredLinkParent))
    (d : DB) : DB :=
  mkDB (inodes d) (dentries d) (f (link_parents d)) (plocks d) (chunks d) (delayed_pending d)
    (delayed_meta_deleted d) (uncommitted_pending d) (uncommitted_orphan d) (counters d).
Definition with_plocks (f : gmap Z (list FileLock.StoredPlock) -> gmap Z (list FileLock.StoredPlock))
    (d : DB) : DB :=
  mkDB (inodes d) (dentries d) (link_parents d) (f (plocks d)) (chunks d) (delayed_pending d)
    (delayed_meta_deleted d) (uncommitted_pending d) (uncommitted_orphan d) (counters d).
Definition with_chunks (f : gmap Z (list SliceDesc) -> gmap Z (list SliceDesc)) (d : DB) : DB :=
  mkDB (inodes d) (dentries d) (link_parents d) (plocks d) (f (chunks d)) (delayed_pending d)
    (delayed_meta_deleted d) (uncommitted_pending d) (uncommitted_orphan d) (counters d).
Definition with_delayed (f g : gmap Z StoredDelayedSliceRecord -> gmap Z StoredDelayedSliceRecord)
    (d : DB) : DB :=
  mkDB (inodes d) (dentries d) (link_parents d) (plocks d) (chunks d) (f (delayed_pending d))
    (g (delayed_meta_deleted d)) (uncommitted_pending d) (uncommitted_orphan d) (counters d).
Definition with_uncommitted
    (f g : gmap Z StoredUncommittedSliceRecord -> gmap Z StoredUncommittedSliceRecord)
    (d : DB) : DB :=
  mkDB (inodes d) (dentries d) (link_parents d) (plocks d) (chunks d) (delayed_pending d)
    (delayed_meta_deleted d) (f (uncommitted_pending d)) (g (uncommitted_orphan d)) (counters d).
Definition with_counters (f : gmap string Z -> gmap string Z) (d : DB) : DB :=
  mkDB (inodes d) (dentries d) (link_parents d) (plocks d) (chunks d) (delayed_pending d)
    (delayed_meta_deleted d) (uncommitted_pending d) (uncommitted_orphan d) (f (counters d)).

(** ** The monad *)

Record CounterLease := mkLease { lease_next : Z; lease_end : Z }.

(** Leases are kept per client process and counter name. *)
Abbreviation Leases := (gmap (Z * string) CounterLease).

Record TxnState := mkTxn { committed : DB; view : DB; leases : Leases }.

Definition txn (A : Type) : Type := TxnState -> result MetaError A * TxnState.

Definition txn_ret {A} (a : A) : txn A := fun s => (Ok a, s).
Definition txn_err {A} (e : MetaError) : txn A := fun s => (Err e, s).
Definition txn_bind {A B} (m : txn A) (k : A -> txn B) : txn B := fun s =>
  match m s with
  | (Ok a, s') => k a s'
  | (Err e, s') => (Err e, s')
  end.

Declare Scope txn_scope.
Delimit Scope txn_scope with txn.
Notation "'let!' x := m 'in' k" := (txn_bind m (fun x => k))
  (at level 10, x pattern, m at level 100, k at level 200) : txn_scope.
Notation "m ;; k" := (txn_bind m (fun _ => k)) (at level 100, k at level 200, right associativity)
  : txn_scope.
Open Scope txn_scope.

(** [option::ok_or(e)?] and an early [return Err(e)]. *)
Definition ok_or {A} (e : MetaError) (o : option A) : txn A :=
  match o with Some a => txn_ret a | None => txn_err e end.
Definition ensure (b : bool) (e : MetaError) : txn unit := if b then txn_ret tt else txn_err e.

Definition txn_read {A} (f : DB -> A) : txn A := fun s => (Ok (f (view s)), s).
Definition txn_write (f : DB -> DB) : txn unit := fun s =>
  (Ok tt, mkTxn (committed s) (f (view s)) (leases s)).

(** [for x in xs { body(x)?; }] *)
Fixpoint txn_for {A} (xs : list A) (body : A -> txn unit) : txn unit :=
  match xs with
  | [] => txn_ret tt
  | x :: rest => body x ;; txn_for rest body
  end.

(** *** Row accessors *)

Definition txn_get_node (ino : Z) : txn (option StoredNode) := txn_read (fun d => inodes d !! ino).
Definition txn_put_node (n : StoredNode) : txn unit :=
  txn_write (with_inodes <[n_ino n := n]>).
Definition txn_delete_node (ino : Z) : txn unit := txn_write (with_inodes (delete ino)).
Definition txn_get_dentry (parent : Z) (name : string) : txn (option StoredDentry) :=
  txn_read (fun d => dentries d !! (parent, name)).
Definition txn_put_dentry (parent : Z) (name : string) (e : StoredDentry) : txn unit :=
  txn_write (with_dentries <[(parent, name) := e]>).
Definition txn_delete_dentry (parent : Z) (name : string) : txn unit :=
  txn_write (with_dentries (delete (parent, name))).
Definition txn_get_link_parents (ino : Z) : txn (list StoredLinkParent) :=
  txn_read (fun d => default [] (link_parents d !! ino)).
Definition txn_put_link_parents (ino : Z) (parents : list StoredLinkParent) : txn unit :=
  txn_write (with_link_parents <[ino := parents]>).
Definition txn_delete_link_parents (ino : Z) : txn unit :=
  txn_write (with_link_parents (delete ino)).
Definition txn_get_plocks (ino : Z) : txn (list FileLock.StoredPlock) :=
  txn_read (fun d => default [] (plocks d !! ino)).
Definition txn_put_plocks_or_delete (ino : Z) (ls : list FileLock.StoredPlock) : txn unit :=
  txn_write (with_plocks (if bool_decide (ls = []) then delete ino else <[ino := ls]>)).
Definition txn_get_slices (chunk_id : Z) : txn (list SliceDesc) :=
  txn_read (fun d => default [] (chunks d !! chunk_id)).
Definition txn_put_slices_or_delete (chunk_id : Z) (slices : list SliceDesc) : txn unit :=
  txn_write (with_chunks (if bool_decide (slices = []) then delete chunk_id
                          else <[chunk_id := slices]>)).

Definition txn_require_dir (ino : Z) : txn StoredNode :=
  let! node := txn_get_node ino in
  let! node := ok_or (ParentNotFound ino) node in
  ensure (bool_decide (n_kind node = Dir)) (NotDirectory ino) ;;
  txn_ret node.

(** *** Scans, in key order

    The rows under a prefix, sorted by the bytes of the rest of the key. *)
Definition scan_dentries (d : DB) (parent : Z) : list (string * StoredDentry) :=
  sort_by (fun a b => String.leb a.1 b.1)
    (omap (fun '((p, nm), e) => if p =? parent then Some (nm, e) else None)
       (map_to_list (dentries d))).

Definition scan_rows {A} (rows : gmap Z A) : list (Z * A) :=
  sort_by (fun a b => String.leb (pretty a.1) (pretty b.1)) (map_to_list rows).

(** [txn_scan_prefix(.., Some(1))] found nothing. *)
Definition dir_is_empty (d : DB) (ino : Z) : bool :=
  bool_decide (take 1 (scan_dentries d ino) = []).

(** *** Counters *)

Definition INODE_ID_KEY : string := "brewfs:next_inode_id".
Definition SLICE_ID_KEY : string := "brewfs:next_slice_id".
Definition DELAYED_ID_COUNTER : string := "gc/delayed/id".
Definition UNCOMMITTED_ID_COUNTER : string := "gc/uncommitted/id".
Definition FIRST_ALLOCATED_INODE : Z := 2.
Definition INODE_ID_LEASE_SIZE : Z := 1024.
Definition SLICE_ID_LEASE_SIZE : Z := 1024.

Definition i64_modulus_half : Z := 2 ^ 63.
Definition i64_checked_add (a b : Z) : option Z :=
  if (a + b <? i64_modulus_half) && (- i64_modulus_half <=? a + b) then Some (a + b) else None.

Definition txn_alloc_counter_range (name : string) (first_value count : Z) : txn Z :=
  if count <=? 0 then txn_err Internal else
  let! current := txn_read (fun d => default first_value (counters d !! name)) in
  let! next := ok_or Internal (i64_checked_add current count) in
  txn_write (with_counters <[name := next]>) ;;
  txn_ret current.

Definition txn_next_counter (name : string) (first_value : Z) : txn Z :=
  txn_alloc_counter_range name first_value 1.

(** [alloc_counter_range_from]: a transaction of its own on the committed state.
    The enclosing transaction never reads or writes the counter, so its view is
    moved along. *)
Definition alloc_counter_range_from (name : string) (first_value count : Z) : txn Z := fun s =>
  match txn_alloc_counter_range name first_value count (mkTxn (committed s) (committed s) (leases s)) with
  | (Ok start, s') =>
      let c := counters (view s') in
      (Ok start, mkTxn (view s') (with_counters (fun _ => c) (view s)) (leases s))
  | (Err e, _) => (Err e, s)
  end.

Definition next_leased_counter_id (client : Z) (name : string) (first_value lease_size : Z) : txn Z :=
  fun s =>
  let refill :=
    let! start := alloc_counter_range_from name first_value lease_size in
    let! end_ := ok_or Internal (i64_checked_add start lease_size) in
    (fun s => (Ok start, mkTxn (committed s) (view s)
                           (<[(client, name) := mkLease (start + 1) end_]> (leases s)))) in
  match leases s !! (client, name) with
  | Some lease =>
      if lease_next lease <? lease_end lease then
        (Ok (lease_next lease),
         mkTxn (committed s) (view s)
           (<[(client, name) := mkLease (lease_next lease + 1) (lease_end lease)]> (leases s)))
      else refill s
  | None => refill s
  end.

Definition next_leased_inode_id (client : Z) : txn Z :=
  next_leased_counter_id client INODE_ID_KEY FIRST_ALLOCATED_INODE INODE_ID_LEASE_SIZE.
Definition next_leased_slice_id (client : Z) : txn Z :=
  next_leased_counter_id client SLICE_ID_KEY 1 SLICE_ID_LEASE_SIZE.

Definition next_id (client : Z) (key : string) : txn Z :=
  if bool_decide (key = SLICE_ID_KEY) then next_leased_slice_id client
  else txn_next_counter key 1.

(** ** Running a transaction *)

Record Sys := mkSys { sys_db : DB; sys_leases : Leases }.

Definition begin (s : Sys) : TxnState := mkTxn (sys_db s) (sys_db s) (sys_leases s).
Definition commit (t : TxnState) : Sys := mkSys (view t) (leases t).
Definition rollback (t : TxnState) : Sys := mkSys (committed t) (leases t).

Inductive TiKvTxnMode := ModeRead | ModeWrite.

(** What the TiKV client does to one attempt: [begin] fails, a call inside the
    closure fails, before or after an id lease was taken, or the closure runs to
    its end and the commit succeeds, or fails, in which case an error other than a
    conflict may leave the commit applied. *)
Inductive Attempt :=
| BeginFails (e : MetaError)
| TaskFails (e : MetaError) (leased : bool)
| Commits
| CommitFails (e : MetaError) (applied : bool).

Definition is_conflict (e : MetaError) : bool :=
  bool_decide (e = ContinueRetry TransactionConflict).

Section run_txn.
Context {A : Type} (mode : TiKvTxnMode) (task : txn A).
(** What the client library does at each attempt, and what other clients do to
    the shared state before it. *)
Context (oracle : nat -> Attempt) (others : nat -> Sys -> Sys).

Fixpoint run_attempts (left_ attempt : nat) (s : Sys) : result MetaError A * Sys :=
  match left_ with
  | O => (Err MaxRetriesExceeded, s)
  | S left_ =>
      let s := others attempt s in
      let retry_or e s' :=
        if is_conflict e then run_attempts left_ (S attempt) s' else (Err e, s') in
      match oracle attempt with
      | BeginFails e => (Err e, s)
      | TaskFails e leased => retry_or e (if leased then rollback (task (begin s)).2 else s)
      | outcome =>
          match task (begin s) with
          | (Err e, t) => retry_or e (rollback t)
          | (Ok v, t) =>
              match mode, outcome with
              | ModeRead, _ => (Ok v, rollback t)
              | ModeWrite, CommitFails e applied =>
                  if is_conflict e then run_attempts left_ (S attempt) (rollback t)
                  else (Err e, if applied then commit t else rollback t)
              | ModeWrite, _ => (Ok v, commit t)
              end
          end
      end
  end.

Definition TXN_MAX_RETRIES : nat := 10.

Definition run_txn (s : Sys) : result MetaError A * Sys := run_attempts TXN_MAX_RETRIES 0 s.

End run_txn.

(** One call of [run_txn]: what the client library and the other clients do in it. *)
Record Run := mkRun { run_oracle : nat -> Attempt; run_others : nat -> Sys -> Sys }.

Definition read_txn {A} (r : Run) (task : txn A) (s : Sys) : result MetaError A * Sys :=
  run_txn ModeRead task (run_oracle r) (run_others r) s.
Definition write_txn {A} (r : Run) (task : txn A) (s : Sys) : result MetaError A * Sys :=
  run_txn ModeWrite task (run_oracle r) (run_others r) s.

(** *** Atomicity

    [task_keeps I task]: from a state satisfying [I], the state after a commit of
    the task and after its rollback satisfy [I] too. *)
Definition task_keeps {A} (I : Sys -> Prop) (task : txn A) : Prop :=
  forall s, I s ->
    I (rollback (task (begin s)).2) /\
    (is_Ok (task (begin s)).1 = true -> I (commit (task (begin s)).2)).

Definition finished (mode : TiKvTxnMode) (t : TxnState) : Sys :=
  match mode with ModeRead => rollback t | ModeWrite => commit t end.

Lemma run_attempts_atomic {A} mode (task : txn A) oracle others (I : Sys -> Prop) n : forall k s,
  task_keeps I task -> (forall k s, I s -> I (others k s)) -> I s ->
  let '(r, s') := run_attempts mode task oracle others n k s in
  I s' /\
  forall v, r = Ok v -> exists s0 t, I s0 /\ task (begin s0) = (Ok v, t) /\ s' = finished mode t.
Proof.
  induction n as [|n IH]; intros k s Htask Hothers HI; cbn [run_attempts]; [done|].
  pose proof (Hothers k s HI) as HI'. set (s1 := others k s) in *.
  assert (forall s2, I s2 -> let '(r, s') := run_attempts mode task oracle others n (S k) s2 in
    I s' /\ forall v, r = Ok v -> exists s0 t, I s0 /\ task (begin s0) = (Ok v, t) /\ s' = finished mode t)
    as Hrec by (intros; by apply IH).
  destruct (Htask s1 HI') as [Hrb Hcm].
  destruct (oracle k) as [e|e leased| |e applied]; [done| | |]; cbv zeta.
  - assert (I (if leased then rollback (task (begin s1)).2 else s1)) by (by destruct leased).
    by destruct (is_conflict e); [apply Hrec|].
  - destruct (task (begin s1)) as [[v|e] t] eqn:Ht; cbn [fst snd] in *.
    + destruct mode; (split; [auto|]); intros v' [= <-]; eauto.
    + by destruct (is_conflict e); [apply Hrec|].
  - destruct (task (begin s1)) as [[v|e'] t] eqn:Ht; cbn [fst snd] in *.
    + destruct mode; [split; [done|]; intros v' [= <-]; eauto|].
      destruct (is_conflict e); [by apply Hrec|]. split; [|done]. destruct applied; auto.
    + by destruct (is_conflict e'); [apply Hrec|].
Qed.


(** One conflict, then success. *)
Definition w_oracle (k : nat) : Attempt :=
  match k with O => TaskFails (ContinueRetry TransactionConflict) true | _ => Commits end.
Definition w_positive (s : Sys) : Prop := 1 <= default 1 (counters (sys_db s) !! SLICE_ID_KEY).


(** ** Leased ids are never handed out twice *)
Section leases.
Context (name : string) (first : Z).

Definition counter_of (cnt : gmap string Z) : Z := default first (cnt !! name).

(** Leases lie below the counter and do not overlap. *)
Record lease_ok (cnt : gmap string Z) (ls : Leases) : Prop := {
  lk_counter : first <= counter_of cnt < i64_modulus_half;
  lk_range c l : ls !! (c, name) = Some l ->
    first <= lease_next l /\ lease_next l <= lease_end l /\ lease_end l <= counter_of cnt;
  lk_disjoint c c' l l' : c <> c' -> ls !! (c, name) = Some l -> ls !! (c', name) = Some l' ->
    lease_end l <= lease_next l' \/ lease_end l' <= lease_next l
}.

(** The ids that can still be handed out. *)
Definition free_id (cnt : gmap string Z) (ls : Leases) (id : Z) : Prop :=
  counter_of cnt <= id \/
  exists c l, ls !! (c, name) = Some l /\ lease_next l <= id < lease_end l.

(** The effect of taking one id. *)
Record id_taken (cnt : gmap string Z) (ls : Leases) (id : Z) (cnt' : gmap string Z) (ls' : Leases)
  : Prop := {
  it_ok : lease_ok cnt' ls';
  it_first : first <= id < i64_modulus_half;
  it_was_free : free_id cnt ls id;
  it_now_taken : ~ free_id cnt' ls' id;
  it_shrinks id' : free_id cnt' ls' id' -> free_id cnt ls id';
  it_counters n : n <> name -> cnt' !! n = cnt !! n;
  it_leases c n : n <> name -> ls' !! (c, n) = ls !! (c, n)
}.

Lemma take_from_lease cnt ls c l :
  lease_ok cnt ls -> ls !! (c, name) = Some l -> lease_next l < lease_end l ->
  id_taken cnt ls (lease_next l) cnt (<[(c, name) := mkLease (lease_next l + 1) (lease_end l)]> ls).
Proof.
  intros [Hc Hr Hd] Hl Hlt. destruct (Hr _ _ Hl) as (?&?&?).
  assert (forall c' l', <[(c, name) := mkLease (lease_next l + 1) (lease_end l)]> ls !! (c', name) = Some l' ->
    (c' = c /\ l' = mkLease (lease_next l + 1) (lease_end l)) \/ (c' <> c /\ ls !! (c', name) = Some l')) as Hcase.
  { intros c' l'. destruct (decide (c' = c)) as [->|Hne].
    - rewrite lookup_insert_eq. intros [= <-]. auto.
    - rewrite lookup_insert_ne by congruence. auto. }
  split.
  - split; [done|..].
    + intros c' l' [[-> ->]|[? Hl']]%Hcase; cbn; [lia|eauto].
    + intros c1 c2 l1 l2 Hne [[-> ->]|[? Hl1]]%Hcase [[-> ->]|[? Hl2]]%Hcase; cbn; try congruence.
      * destruct (Hd c c2 l l2) as [?|?]; [done..|lia|lia].
      * destruct (Hd c1 c l1 l) as [?|?]; [done..|lia|lia].
      * by apply (Hd c1 c2).
  - lia.
  - right. exists c, l. split; [done|lia].
  - intros [?|(c'&l'&Hl'&?)]; [lia|]. apply Hcase in Hl' as [[-> ->]|[? Hl']]; cbn in *; [lia|].
    destruct (Hd c c' l l') as [?|?]; [done..|lia|lia].
  - intros id' [?|(c'&l'&Hl'&?)]; [by left|right]. apply Hcase in Hl' as [[-> ->]|[? Hl']].
    + exists c, l. cbn in *. split; [done|lia].
    + by exists c', l'.
  - done.
  - intros c' n Hn. by rewrite lookup_insert_ne by congruence.
Qed.

Lemma take_by_refill cnt ls c size :
  lease_ok cnt ls -> 0 < size -> counter_of cnt + size < i64_modulus_half ->
  id_taken cnt ls (counter_of cnt) (<[name := counter_of cnt + size]> cnt)
    (<[(c, name) := mkLease (counter_of cnt + 1) (counter_of cnt + size)]> ls).
Proof.
  intros [Hc Hr Hd] Hs Hmax.
  assert (counter_of (<[name := counter_of cnt + size]> cnt) = counter_of cnt + size) as Hcnt.
  { unfold counter_of at 1. by rewrite lookup_insert_eq. }
  set (nl := mkLease (counter_of cnt + 1) (counter_of cnt + size)).
  assert (forall c' l', <[(c, name) := nl]> ls !! (c', name) = Some l' ->
    (c' = c /\ l' = nl) \/ (c' <> c /\ ls !! (c', name) = Some l')) as Hcase.
  { intros c' l'. destruct (decide (c' = c)) as [->|Hne].
    - rewrite lookup_insert_eq. intros [= <-]. auto.
    - rewrite lookup_insert_ne by congruence. auto. }
  split.
  - split; rewrite ?Hcnt; [lia|..].
    + intros c' l' [[-> ->]|[? Hl']]%Hcase; cbn; [lia|]. destruct (Hr _ _ Hl') as (?&?&?). lia.
    + intros c1 c2 l1 l2 Hne [[-> ->]|[? Hl1]]%Hcase [[-> ->]|[? Hl2]]%Hcase; cbn; try congruence.
      * destruct (Hr _ _ Hl2) as (?&?&?). lia.
      * destruct (Hr _ _ Hl1) as (?&?&?). lia.
      * by apply (Hd c1 c2).
  - done.
  - by left.
  - unfold free_id. rewrite Hcnt. intros [?|(c'&l'&Hl'&?)]; [lia|].
    apply Hcase in Hl' as [[-> ->]|[? Hl']]; cbn in *; [lia|]. destruct (Hr _ _ Hl') as (?&?&?). lia.
  - unfold free_id. rewrite Hcnt. intros id' [?|(c'&l'&Hl'&?)]; [left; lia|].
    apply Hcase in Hl' as [[-> ->]|[? Hl']]; cbn in *; [left; lia|right; eauto].
  - intros n Hn. by rewrite lookup_insert_ne.
  - intros c' n Hn. by rewrite lookup_insert_ne by congruence.
Qed.
End leases.

(** The id allocator inside a transaction: both the committed state and the view
    get the new counter value, nothing else of them changes. *)
Lemma next_leased_spec client name first size s :
  0 < size -> counters (view s) = counters (committed s) ->
  lease_ok name first (counters (committed s)) (leases s) ->
  match next_leased_counter_id client name first size s with
  | (Ok id, s') => exists cnt',
      committed s' = with_counters (fun _ => cnt') (committed s) /\
      view s' = with_counters (fun _ => cnt') (view s) /\
      id_taken name first (counters (committed s)) (leases s) id cnt' (leases s')
  | (Err _, s') => s' = s
  end.
Proof.
  intros Hsize Hcnt Hok. unfold next_leased_counter_id.
  set (refill := txn_bind _ _).
  assert (match refill s with
    | (Ok id, s') => exists cnt',
        committed s' = with_counters (fun _ => cnt') (committed s) /\
        view s' = with_counters (fun _ => cnt') (view s) /\
        id_taken name first (counters (committed s)) (leases s) id cnt' (leases s')
    | (Err _, s') => s' = s
    end) as Hrefill.
  { unfold refill, alloc_counter_range_from, txn_alloc_counter_range.
    destruct (Z.leb_spec size 0); [lia|]. unfold txn_bind, txn_read, ok_or; cbn.
    destruct (i64_checked_add _ size) as [next|] eqn:Hadd; cbn; [|done].
    rewrite Hadd. cbn. unfold i64_checked_add in Hadd. destruct (_ && _) eqn:Hmax; [|done].
    injection Hadd as <-. exists (<[name := counter_of name first (counters (committed s)) + size]>
                                     (counters (committed s))).
    split_and!; [done..|]. apply take_by_refill; [done..|]. fold (counter_of name first (counters (committed s))) in Hmax. lia. }
  destruct (leases s !! (client, name)) as [l|] eqn:Hl; [|done].
  destruct (Z.ltb_spec (lease_next l) (lease_end l)); [|done]. cbn.
  exists (counters (committed s)). split_and!.
  - by destruct (committed s).
  - rewrite <-Hcnt. by destruct (view s).
  - by apply take_from_lease.
Qed.

(** A history of allocations by any clients, each inside a transaction that ends
    in a commit or a rollback; failed allocations hand out nothing. *)
Fixpoint alloc_history (name : string) (first size : Z) (history : list (Z * bool)) (s : Sys)
  : list Z * Sys :=
  match history with
  | [] => ([], s)
  | (client, commits) :: rest =>
      let '(r, t) := next_leased_counter_id client name first size (begin s) in
      let s := if commits then commit t else rollback t in
      let '(ids, s) := alloc_history name first size rest s in
      (match r with Ok id => id :: ids | Err _ => ids end, s)
  end.

Lemma alloc_history_free name first size h : 0 < size -> forall s,
  lease_ok name first (counters (sys_db s)) (sys_leases s) ->
  let '(ids, s') := alloc_history name first size h s in
  NoDup ids /\ Forall (fun id => first <= id /\
    free_id name first (counters (sys_db s)) (sys_leases s) id) ids /\
  lease_ok name first (counters (sys_db s')) (sys_leases s').
Proof.
  intros Hsize. induction h as [|[client b] h IH]; intros s Hok; cbn [alloc_history].
  { split_and!; [constructor|constructor|done]. }
  pose proof (next_leased_spec client name first size (begin s) Hsize eq_refl Hok) as Hn.
  destruct (next_leased_counter_id client name first size (begin s)) as [[id|e] t].
  - destruct Hn as (cnt'&Hc&Hv&[Hok' Hfirst Hfree Htaken Hshrink _ _]).
    set (s1 := if b then commit t else rollback t).
    assert (counters (sys_db s1) = cnt' /\ sys_leases s1 = leases t) as [E1 E2].
    { unfold s1. destruct b; cbn; rewrite ?Hc, ?Hv; done. }
    specialize (IH s1). rewrite E1, E2 in IH. specialize (IH Hok').
    destruct (alloc_history name first size h s1) as [ids s']. destruct IH as (Hnd&Hall&Hok'').
    cbn in Hfree, Htaken, Hshrink. split_and!; [|constructor|done].
    + constructor; [|done]. rewrite Forall_forall in Hall. intros Hin. by destruct (Hall id Hin).
    + split; [lia|done].
    + eapply Forall_impl; [exact Hall|]. cbn. intros id' [? ?]. auto.
  - subst t. replace (if b then commit (begin s) else rollback (begin s)) with s
      by (by destruct b, s).
    specialize (IH s Hok). by destruct (alloc_history name first size h s).
Qed.

(** C27: whatever clients allocate inode or slice ids, in whatever order, and
    whether or not the transactions around the allocations commit, no id is
    handed out twice and none below the first value of the counter. *)
Theorem leased_ids_unique name first size history s :
  0 < size -> lease_ok name first (counters (sys_db s)) (sys_leases s) ->
  let '(ids, _) := alloc_history name first size history s in
  NoDup ids /\ Forall (fun id => first <= id) ids.
Proof.
  intros Hsize Hok. pose proof (alloc_history_free name first size history Hsize s Hok) as H.
  destruct (alloc_history name first size history s) as [ids s']. destruct H as (?&Hall&_).
  split; [done|]. eapply Forall_impl; [exact Hall|]. by intros id [? _].
Qed.

Lemma leased_ids_unique_witness :
  let '(ids, _) := alloc_history SLICE_ID_KEY 1 SLICE_ID_LEASE_SIZE [(1, true); (2, false); (1, true); (2, true)]
                     (mkSys empty_db ∅) in
  NoDup ids /\ Forall (fun id => 1 <= id) ids.
Proof.
  refine (leased_ids_unique SLICE_ID_KEY 1 SLICE_ID_LEASE_SIZE
            [(1, true); (2, false); (1, true); (2, true)] (mkSys empty_db ∅) _ _); [done|].
  split; [done|..]; intros *; cbn; rewrite ?lookup_empty; done.
Defined.
