(* ===== verification/Keys.v ===== *)
(** The key layout of [src/meta/stores/tikv/mod.rs]: rows of different kinds, and
    rows of one kind for different arguments, live under different keys; a prefix
    scan meets exactly the rows of its kind; the batched scan loop returns exactly
    the rows under its prefix, in key order. This is what lets [MetaTxn] treat the
    key space as one map per kind of row.

    Keys are strings of bytes, compared byte by byte as the key-value store does. *)
From stdpp Require Import options.
From Stdlib Require Import Ascii.
From S2P Require Import Prelude MetaTxn.

(** ** Keys *)

Inductive RowKey :=
| InodeKey (ino : Z)
| DentryKey (parent : Z) (name : string)
| ChunkKey (chunk_id : Z)
| LinkParentKey (ino : Z)
| PlockKey (ino : Z)
| DelayedPendingKey (id : Z)
| DelayedMetaDeletedKey (id : Z)
| UncommittedPendingKey (slice_id : Z)
| UncommittedOrphanKey (slice_id : Z)
| CounterKey (name : string).

Definition DELAYED_PENDING_PREFIX : string := "gc/delayed/pending/".
Definition DELAYED_META_DELETED_PREFIX : string := "gc/delayed/meta_deleted/".
Definition UNCOMMITTED_PENDING_PREFIX : string := "gc/uncommitted/pending/".
Definition UNCOMMITTED_ORPHAN_PREFIX : string := "gc/uncommitted/orphan/".

Definition key_suffix (k : RowKey) : string :=
  match k with
  | InodeKey ino => "inode/" ++ pretty ino
  | DentryKey parent name => "dentry/" ++ pretty parent ++ "/" ++ name
  | ChunkKey chunk_id => "chunk/" ++ pretty chunk_id
  | LinkParentKey ino => "link_parent/" ++ pretty ino
  | PlockKey ino => "plock/" ++ pretty ino
  | DelayedPendingKey id => DELAYED_PENDING_PREFIX ++ pretty id
  | DelayedMetaDeletedKey id => DELAYED_META_DELETED_PREFIX ++ pretty id
  | UncommittedPendingKey slice_id => UNCOMMITTED_PENDING_PREFIX ++ pretty slice_id
  | UncommittedOrphanKey slice_id => UNCOMMITTED_ORPHAN_PREFIX ++ pretty slice_id
  | CounterKey name => "counter/" ++ name
  end%string.

Definition scoped_key (namespace suffix : string) : string := (namespace ++ "/" ++ suffix)%string.
Definition key_bytes (namespace : string) (k : RowKey) : string := scoped_key namespace (key_suffix k).

(** The prefixes that are scanned. *)
Inductive ScanPrefix :=
| DentryPrefix (parent : Z) | ChunkPrefix | InodePrefix | DelayedPendingPrefix
| DelayedMetaDeletedPrefix | UncommittedPendingPrefix | UncommittedOrphanPrefix.

Definition prefix_suffix (p : ScanPrefix) : string :=
  match p with
  | DentryPrefix parent => "dentry/" ++ pretty parent ++ "/"
  | ChunkPrefix => "chunk/"
  | InodePrefix => "inode/"
  | DelayedPendingPrefix => DELAYED_PENDING_PREFIX
  | DelayedMetaDeletedPrefix => DELAYED_META_DELETED_PREFIX
  | UncommittedPendingPrefix => UNCOMMITTED_PENDING_PREFIX
  | UncommittedOrphanPrefix => UNCOMMITTED_ORPHAN_PREFIX
  end%string.
Definition prefix_bytes (namespace : string) (p : ScanPrefix) : string :=
  scoped_key namespace (prefix_suffix p).

(** Which rows a scan is meant to find. *)
Definition scans (p : ScanPrefix) (k : RowKey) : bool :=
  match p, k with
  | DentryPrefix parent, DentryKey parent' _ => parent =? parent'
  | ChunkPrefix, ChunkKey _ | InodePrefix, InodeKey _ | DelayedPendingPrefix, DelayedPendingKey _
  | DelayedMetaDeletedPrefix, DelayedMetaDeletedKey _ | UncommittedPendingPrefix, UncommittedPendingKey _
  | UncommittedOrphanPrefix, UncommittedOrphanKey _ => true
  | _, _ => false
  end.

Fixpoint trim_start (s : string) : string :=
  match s with
  | String c rest => if Ascii.eqb c "/"%char then trim_start rest else s
  | EmptyString => EmptyString
  end.
Fixpoint trim_end (s : string) : string :=
  match s with
  | String c rest =>
      match trim_end rest with
      | EmptyString => if Ascii.eqb c "/"%char then EmptyString else String c EmptyString
      | rest => String c rest
      end
  | EmptyString => EmptyString
  end.
Definition trim_matches (s : string) : string := trim_end (trim_start s).
Definition normalize_namespace (default_namespace namespace : string) : string :=
  let namespace := trim_matches namespace in
  if bool_decide (namespace = EmptyString) then default_namespace else namespace.

(** ** Scans *)

(** The last byte that is not 0xff is incremented, what follows it dropped. *)
Fixpoint prefix_range_end (prefix : string) : option string :=
  match prefix with
  | EmptyString => None
  | String c rest =>
      match prefix_range_end rest with
      | Some end_ => Some (String c end_)
      | None => if (N_of_ascii c =? 255)%N then None
                else Some (String (ascii_of_N (N_of_ascii c + 1)) EmptyString)
      end
  end.

Inductive Bound := Included (key : string) | Excluded (key : string) | Unbounded.

Definition key_lt (a b : string) : bool := match String.compare a b with Lt => true | _ => false end.
Definition above (lower : Bound) (key : string) : bool :=
  match lower with Included k => String.leb k key | Excluded k => key_lt k key | Unbounded => true end.
Definition below (upper : Bound) (key : string) : bool :=
  match upper with Included k => String.leb key k | Excluded k => key_lt key k | Unbounded => true end.

Section scan.
Context {V : Type}.
(** [Transaction::scan] of the client library: lower bound, upper bound, limit. *)
Context (scan : Bound -> Bound -> nat -> list (string * V)).

Definition SCAN_BATCH_LIMIT : Z := 1024.

Fixpoint scan_loop (fuel : nat) (lower upper : Bound) (remaining : Z) (out : list (string * V))
  : option (list (string * V)) :=
  match fuel with
  | O => None
  | S fuel =>
      if remaining <=? 0 then Some out else
      let batch_limit := Z.min remaining SCAN_BATCH_LIMIT in
      let batch := scan lower upper (Z.to_nat batch_limit) in
      let batch_len := Z.of_nat (length batch) in
      match last batch with
      | None => Some out
      | Some kv =>
          let out := out ++ batch in
          let remaining := u64_saturating_sub remaining batch_len in
          if batch_len <? batch_limit then Some out
          else scan_loop fuel (Excluded kv.1) upper remaining out
      end
  end.

Definition txn_scan_prefix_from (fuel : nat) (prefix : string) (after : option string) (limit : option Z)
  : option (list (string * V)) :=
  let remaining := default u64_max limit in
  if remaining =? 0 then Some [] else
  let upper := match prefix_range_end prefix with Some end_ => Excluded end_ | None => Unbounded end in
  let lower := match after with Some key => Excluded key | None => Included prefix end in
  scan_loop fuel lower upper remaining [].
End scan.

(** ** Different rows have different keys *)

Fixpoint no_slash (s : string) : bool :=
  match s with EmptyString => true | String c s => negb (Ascii.eqb c "/"%char) && no_slash s end.

Lemma no_slash_app a b : no_slash (a ++ b) = no_slash a && no_slash b.
Proof.
  induction a as [|c a IH]; [done|]. change (no_slash (String c (a ++ b)) = no_slash (String c a) && no_slash b).
  cbn [no_slash]. by rewrite IH, andb_assoc.
Qed.

Lemma pretty_char_no_slash x : Ascii.eqb (pretty_N_char x) "/"%char = false.
Proof. by destruct x as [|[[[[]|[]|]|[[]|[]|]|]|[[[]|[]|]|[[]|[]|]|]|]]. Qed.

Lemma pretty_N_no_slash (x : N) : forall s, no_slash s = true -> no_slash (pretty_N_go x s) = true.
Proof.
  induction (N.lt_wf_0 x) as [x _ IH]; intros s Hs. destruct (decide (0 < x)%N) as [Hx|Hx].
  - rewrite pretty_N_go_step by done. apply IH; [by apply N.div_lt|]. cbn [no_slash].
    by rewrite pretty_char_no_slash.
  - assert (x = 0%N) as -> by lia. by rewrite pretty_N_go_0.
Qed.

Lemma pretty_Z_no_slash (x : Z) : no_slash (pretty x) = true.
Proof.
  assert (forall n : N, no_slash (pretty n) = true) as Hn.
  { intros n. unfold pretty, pretty_N. case_decide; [done|]. by apply pretty_N_no_slash. }
  destruct x as [|x|x]; [done|apply Hn|]. change (pretty (Z.neg x)) with ("-" ++ pretty (N.pos x))%string.
  by rewrite no_slash_app, Hn.
Qed.

(** The part up to the first slash is determined. *)
Lemma slash_split a b x y : no_slash a = true -> no_slash b = true ->
  (a ++ String "/" x)%string = (b ++ String "/" y)%string -> a = b /\ x = y.
Proof.
  revert b. induction a as [|c a IH]; intros [|c' b] Ha Hb H.
  - by injection H.
  - cbn [no_slash] in Hb. injection H as <- _. done.
  - cbn [no_slash] in Ha. injection H as -> _. done.
  - cbn [no_slash] in Ha, Hb. apply andb_true_iff in Ha as [_ Ha], Hb as [_ Hb].
    injection H as -> H. by destruct (IH b Ha Hb H) as [-> ->].
Qed.

Lemma key_suffix_inj k1 k2 : key_suffix k1 = key_suffix k2 -> k1 = k2.
Proof.
  destruct k1, k2; intros H; try discriminate H; cbn [key_suffix] in H;
    try (apply (inj (String.append _)), (inj pretty) in H; by subst).
  - apply (inj (String.append _)) in H.
    apply slash_split in H as [H ->]; [|apply pretty_Z_no_slash..]. by apply (inj pretty) in H as ->.
  - apply (inj (String.append _)) in H. by subst.
Qed.

Lemma prefix_app a b c : String.prefix (a ++ b) (a ++ c) = String.prefix b c.
Proof.
  induction a as [|x a IH]; [done|].
  change (String.prefix (String x (a ++ b)) (String x (a ++ c)) = String.prefix b c). cbn [String.prefix].
  by destruct (ascii_dec x x).
Qed.

Lemma prefix_own a b : String.prefix a (a ++ b) = true.
Proof.
  induction a as [|x a IH]; [by destruct b|].
  change (String.prefix (String x a) (String x (a ++ b)) = true). cbn [String.prefix]. by destruct (ascii_dec x x).
Qed.

Lemma prefix_slash a b y : no_slash a = true -> no_slash b = true ->
  String.prefix (a ++ "/") (b ++ String "/" y) = bool_decide (a = b).
Proof.
  revert b. induction a as [|c a IH]; intros [|c' b] Ha Hb.
  - by destruct y.
  - change (String.prefix "/" (String c' (b ++ String "/" y)) = bool_decide (EmptyString = String c' b)).
    rewrite bool_decide_eq_false_2 by done. cbn [String.prefix no_slash] in *.
    destruct (ascii_dec "/" c') as [<-|]; [done|done].
  - change (String.prefix (String c (a ++ "/")) (String "/" y) = bool_decide (String c a = EmptyString)).
    rewrite bool_decide_eq_false_2 by done. cbn [String.prefix no_slash] in *.
    destruct (ascii_dec c "/") as [->|]; done.
  - change (String.prefix (String c (a ++ "/")) (String c' (b ++ String "/" y)) = bool_decide (String c a = String c' b)).
    cbn [String.prefix no_slash] in *. apply andb_true_iff in Ha as [_ Ha], Hb as [_ Hb].
    destruct (ascii_dec c c') as [->|Hc].
    + rewrite IH by done. apply bool_decide_ext. naive_solver.
    + rewrite bool_decide_eq_false_2; naive_solver.
Qed.

(** Within a namespace two rows have the same key only if they are the same
    row, and a key lies under a scanned prefix exactly if it is a row of the kind,
    and for entries of the directory, that the scan is for. *)
Theorem keys_separate namespace :
  (forall k1 k2, key_bytes namespace k1 = key_bytes namespace k2 -> k1 = k2) /\
  (forall p k, String.prefix (prefix_bytes namespace p) (key_bytes namespace k) = scans p k).
Proof.
  split.
  - intros k1 k2 H. unfold key_bytes, scoped_key in H.
    apply (inj (String.append _)), (inj (String.append _)), key_suffix_inj in H. done.
  - intros p k. unfold prefix_bytes, key_bytes, scoped_key. rewrite !prefix_app.
    destruct p, k; try reflexivity; cbn [prefix_suffix key_suffix scans]; try apply prefix_own.
    rewrite prefix_app. change ("/" ++ name)%string with (String "/" name).
    rewrite prefix_slash by apply pretty_Z_no_slash. destruct (Z.eqb_spec parent parent0) as [->|Hne].
    + by apply bool_decide_eq_true_2.
    + apply bool_decide_eq_false_2. intros H. by apply (inj pretty) in H.
Qed.

(** ** The range of a prefix *)

Lemma compare_cons c a c' b : String.compare (String c a) (String c' b) =
  match N.compare (N_of_ascii c) (N_of_ascii c') with Eq => String.compare a b | r => r end.
Proof. reflexivity. Qed.
Lemma leb_cons c a c' b : String.leb (String c a) (String c' b) =
  match N.compare (N_of_ascii c) (N_of_ascii c') with Eq => String.leb a b | Lt => true | Gt => false end.
Proof. unfold String.leb. rewrite compare_cons. by destruct (N_of_ascii c ?= N_of_ascii c')%N. Qed.
Lemma key_lt_cons c a c' b : key_lt (String c a) (String c' b) =
  match N.compare (N_of_ascii c) (N_of_ascii c') with Eq => key_lt a b | Lt => true | Gt => false end.
Proof. unfold key_lt. rewrite compare_cons. by destruct (N_of_ascii c ?= N_of_ascii c')%N. Qed.

Lemma prefix_range prefix : forall key,
  String.leb prefix key &&
    below (match prefix_range_end prefix with Some e => Excluded e | None => Unbounded end) key =
  String.prefix prefix key.
Proof.
  induction prefix as [|c prefix IH]; intros key; [by destruct key|].
  destruct key as [|c' key]; [done|]. rewrite leb_cons. cbn [String.prefix prefix_range_end].
  specialize (IH key). pose proof (N_ascii_bounded c'). destruct (ascii_dec c c') as [<-|Hne].
  - rewrite N.compare_refl. destruct (prefix_range_end prefix) as [e|]; cbn [below] in *.
    + by rewrite key_lt_cons, N.compare_refl.
    + rewrite <-IH, andb_true_r. destruct (N.eqb_spec (N_of_ascii c) 255); cbn [below]; [by rewrite andb_true_r|].
      rewrite key_lt_cons, N_ascii_embedding by lia.
      by rewrite (proj2 (N.compare_lt_iff _ _)), andb_true_r by lia.
  - destruct (N.compare_spec (N_of_ascii c) (N_of_ascii c')) as [E|Hlt|Hgt]; [|cbn [andb]|done].
    + destruct Hne. by rewrite <-(ascii_N_embedding c), <-(ascii_N_embedding c'), E.
    + destruct (prefix_range_end prefix) as [e|]; cbn [below].
      * by rewrite key_lt_cons, (proj2 (N.compare_gt_iff _ _)).
      * destruct (N.eqb_spec (N_of_ascii c) 255); [lia|]. cbn [below].
        rewrite key_lt_cons, N_ascii_embedding by lia.
        destruct (N.compare_spec (N_of_ascii c') (N_of_ascii c + 1)); [by destruct key|lia|done].
Qed.

(** ** The batched scan *)

Lemma key_lt_trans a : forall b c, key_lt a b = true -> key_lt b c = true -> key_lt a c = true.
Proof.
  induction a as [|x a IH]; intros [|y b] [|z c]; try done. rewrite !key_lt_cons.
  destruct (N.compare_spec (N_of_ascii x) (N_of_ascii y)) as [Exy|Hxy|]; [|..|done];
    destruct (N.compare_spec (N_of_ascii y) (N_of_ascii z)) as [Eyz|Hyz|]; try done; intros Hab Hbc.
  - rewrite Exy, Eyz, N.compare_refl. eauto.
  - by rewrite (proj2 (N.compare_lt_iff (N_of_ascii x) _)) by lia.
  - by rewrite (proj2 (N.compare_lt_iff (N_of_ascii x) _)) by lia.
  - by rewrite (proj2 (N.compare_lt_iff (N_of_ascii x) _)) by lia.
Qed.

Lemma key_lt_asym a b : key_lt a b = true -> key_lt b a = false.
Proof. unfold key_lt. rewrite (String.compare_antisym b a). by destruct (String.compare a b). Qed.
Lemma key_lt_irrefl a : key_lt a a = false.
Proof. destruct (key_lt a a) eqn:E; [|done]. by rewrite (key_lt_asym a a E) in E. Qed.

Lemma above_mono lo a b : above lo a = true -> key_lt a b = true -> above lo b = true.
Proof.
  destruct lo as [k|k|]; cbn [above]; [|apply key_lt_trans|done]. intros Hka Hab.
  assert (k = a \/ key_lt k a = true) as [->|Hlt].
  { unfold String.leb, key_lt in *. destruct (String.compare k a) eqn:E; [left|by right|done].
    by apply String.compare_eq_iff. }
  - unfold String.leb, key_lt in *. by destruct (String.compare a b).
  - pose proof (key_lt_trans _ _ _ Hlt Hab) as H. unfold String.leb, key_lt in *. by destruct (String.compare k b).
Qed.

Lemma filter_filter_and {A} (f g : A -> bool) l :
  List.filter f (List.filter g l) = List.filter (fun x => g x && f x) l.
Proof. induction l as [|a l IH]; cbn; [done|]. destruct (g a); cbn; [destruct (f a)|]; by rewrite ?IH. Qed.

Section scan_exact.
Context {V : Type} (rows : list (string * V)).
Context (scan : Bound -> Bound -> nat -> list (string * V)).
Abbreviation before := (fun a b : string * V => key_lt a.1 b.1 = true).
(** The store holds its rows in key order, and a scan returns the first rows of
    the range. *)
Context (Hsorted : StronglySorted before rows).
Context (Hscan : forall lo hi n,
  scan lo hi n = take n (List.filter (fun kv => above lo kv.1 && below hi kv.1) rows)).
#[local] Set Default Proof Using "All".

Definition range (lo hi : Bound) : list (string * V) :=
  List.filter (fun kv => above lo kv.1 && below hi kv.1) rows.

Lemma sorted_filter (f : string * V -> bool) l : StronglySorted before l -> StronglySorted before (List.filter f l).
Proof.
  induction 1 as [|a l Hl IH Ha]; cbn; [constructor|]. destruct (f a); [|done]. constructor; [done|].
  rewrite Forall_forall in *. intros x [Hx _]%list_elem_of_In%filter_In. by apply Ha, list_elem_of_In.
Qed.

(** What follows the [n]-th row of a sorted list. *)
Lemma filter_after l : StronglySorted before l -> forall n kv,
  last (take n l) = Some kv -> List.filter (fun x => key_lt kv.1 x.1) l = drop n l.
Proof.
  induction 1 as [|a l Hl IH Ha]; intros [|n] kv; try done. cbn [take drop List.filter].
  assert (forall x, x ∈ l -> key_lt a.1 x.1 = true) as Ha' by (by rewrite Forall_forall in Ha).
  destruct (last (take n l)) as [kv'|] eqn:Hlast.
  - rewrite last_cons, Hlast. intros [= ->].
    assert (kv ∈ l) as Hin.
    { apply last_Some_elem_of, elem_of_take in Hlast as (i&Hi&_). by eapply list_elem_of_lookup_2. }
    rewrite (key_lt_asym _ _ (Ha' kv Hin)). by apply IH.
  - apply last_None in Hlast. rewrite Hlast. cbn. intros [= ->]. rewrite key_lt_irrefl.
    assert (List.filter (fun x => key_lt kv.1 x.1) l = l) as ->.
    { clear -Ha'. induction l as [|b l IH]; cbn; [done|]. rewrite Ha' by set_solver. f_equal. apply IH. set_solver. }
    destruct n; [done|]. by destruct l.
Qed.

Lemma range_after lo hi n kv : last (take n (range lo hi)) = Some kv ->
  range (Excluded kv.1) hi = drop n (range lo hi).
Proof.
  intros Hlast. rewrite <-(filter_after (range lo hi) ltac:(by apply sorted_filter) n kv Hlast).
  assert (kv ∈ range lo hi) as Hin.
  { apply last_Some_elem_of, elem_of_take in Hlast as (i&Hi&_). by eapply list_elem_of_lookup_2. }
  unfold range in Hin. apply list_elem_of_In, filter_In in Hin as [_ Hin].
  apply andb_true_iff in Hin as [Hlo _]. unfold range. clear Hlast.
  rewrite filter_filter_and. apply filter_ext. intros x. cbn [above].
  destruct (key_lt kv.1 x.1) eqn:Hlt; [|by rewrite andb_false_r]. by rewrite (above_mono _ _ _ Hlo Hlt), andb_true_r.
Qed.

Lemma scan_loop_exact hi : forall fuel lo remaining out, 0 <= remaining ->
  (length (range lo hi) < fuel)%nat ->
  scan_loop scan fuel lo hi remaining out = Some (out ++ take (Z.to_nat remaining) (range lo hi)).
Proof.
  induction fuel as [|fuel IH]; intros lo remaining out Hr Hf; [lia|]. cbn [scan_loop].
  destruct (Z.leb_spec remaining 0) as [Hz|Hz].
  { replace remaining with 0 by lia. by rewrite take_0, app_nil_r. }
  rewrite Hscan. fold (range lo hi). unfold SCAN_BATCH_LIMIT, u64_saturating_sub.
  set (n := Z.to_nat (Z.min remaining 1024)). assert (0 < n)%nat as Hn by lia.
  destruct (last (take n (range lo hi))) as [kv|] eqn:Hlast.
  2: { apply last_None in Hlast. assert (range lo hi = []) as -> by (destruct (range lo hi), n; done || lia).
       by rewrite take_nil, app_nil_r. }
  rewrite length_take.
  destruct (Z.ltb_spec (Z.of_nat (n `min` length (range lo hi))) (Z.min remaining 1024)).
  - rewrite !take_ge by lia. done.
  - rewrite IH; rewrite ?(range_after lo hi n kv Hlast); [|lia|rewrite length_drop; lia].
    rewrite <-app_assoc. do 2 f_equal. rewrite Z2Nat.inj_max, Z2Nat.inj_sub, Nat2Z.id by lia.
    replace (n `min` length (range lo hi))%nat with n by lia.
    rewrite take_take_drop. f_equal. lia.
Qed.

Lemma scan_prefix_from_spec prefix after limit fuel :
  (forall key, after = Some key -> String.prefix prefix key = true) ->
  0 <= default u64_max limit -> (length rows < fuel)%nat ->
  txn_scan_prefix_from scan fuel prefix after limit =
  Some (take (Z.to_nat (default u64_max limit))
    (List.filter (fun kv => String.prefix prefix kv.1 &&
       match after with Some key => key_lt key kv.1 | None => true end) rows)).
Proof.
  intros Hafter Hlim Hf. unfold txn_scan_prefix_from.
  destruct (Z.eqb_spec (default u64_max limit) 0) as [->|Hz]; [done|].
  set (hi := match prefix_range_end prefix with Some e => Excluded e | None => Unbounded end).
  rewrite scan_loop_exact; [|lia|].
  2: { eapply Nat.le_lt_trans; [|exact Hf]. unfold range. apply filter_length_le. }
  cbn [app]. do 2 f_equal. unfold range. apply filter_ext. intros kv. destruct after as [key|]; cbn [above].
  - specialize (Hafter key eq_refl). rewrite <-(prefix_range prefix key) in Hafter. fold hi in Hafter.
    apply andb_true_iff in Hafter as [Hle _]. rewrite <-prefix_range. fold hi.
    destruct (key_lt key kv.1) eqn:Hlt; [|by rewrite andb_false_r]. rewrite andb_true_r. cbn [andb].
    pose proof (above_mono (Included prefix) _ _ Hle Hlt) as E. cbn [above] in E. by rewrite E.
  - rewrite <-prefix_range. by rewrite andb_true_r.
Qed.
End scan_exact.

(** The batched scan loop ends and returns, in key order, exactly the rows whose
    keys have the prefix, from the row after the cursor if one is given, and no
    more than the limit: no row is missed or repeated at a batch boundary and none
    beyond the prefix is met, even if its last bytes are 0xff. *)
Theorem scan_prefix_exact {V} (rows : list (string * V)) scan prefix after limit :
  StronglySorted (fun a b : string * V => key_lt a.1 b.1 = true) rows ->
  (forall lo hi n, scan lo hi n = take n (List.filter (fun kv => above lo kv.1 && below hi kv.1) rows)) ->
  (forall key, after = Some key -> String.prefix prefix key = true) ->
  0 <= default u64_max limit ->
  txn_scan_prefix_from scan (S (length rows)) prefix after limit =
  Some (take (Z.to_nat (default u64_max limit))
    (List.filter (fun kv => String.prefix prefix kv.1 &&
       match after with Some key => key_lt key kv.1 | None => true end) rows)).
Proof. intros Hsorted Hscan Ha Hl. apply scan_prefix_from_spec; [done..|lia]. Qed.
