(* ===== verification/ObjectExact.v ===== *)
(** What the object store promises: whatever its caches hold or forgot, whichever
    requests are shared and whatever the backend does, a read that succeeds returns
    the bytes that were written; a read of a block that was stored succeeds when
    the backend does its part. *)
From stdpp Require Import options.
From S2P Require Import Prelude Compress Coalesce BlockStore Keys ObjectStore.
Import InMemory.

(** ** Names of objects *)

Lemma two_part_inj (p : string) (a b : BlockKey) :
  (p ++ pretty a.1 ++ "/" ++ pretty a.2)%string = (p ++ pretty b.1 ++ "/" ++ pretty b.2)%string -> a = b.
Proof.
  destruct a as [a1 a2], b as [b1 b2]. cbn [fst snd]. intros H. apply (inj (String.append _)) in H.
  apply slash_split in H as [H1 H2]; [|apply pretty_Z_no_slash..].
  apply (inj pretty) in H1. apply (inj pretty) in H2. by rewrite H1, H2.
Qed.

Lemma key_for_inj a b : key_for a = key_for b -> a = b.
Proof. apply two_part_inj. Qed.
Lemma versioned_key_inj a b : versioned_key_for a = versioned_key_for b -> a = b.
Proof. apply two_part_inj. Qed.
Lemma object_key_inj a b : object_key a = object_key b -> a = b.
Proof.
  intros H. apply (inj (String.append _)) in H.
  apply slash_split in H as [H _]; [|apply pretty_Z_no_slash..]. by apply (inj pretty) in H.
Qed.
Lemma key_for_versioned a b : key_for a <> versioned_key_for b.
Proof. done. Qed.
Lemma key_for_object a b : key_for a <> object_key b.
Proof. done. Qed.
Lemma versioned_object a b : versioned_key_for a <> object_key b.
Proof. done. Qed.

(** ** Blocks

    Blocks are immutable, so the whole run has one [content], one [frame] and one
    [legacy] object for every key, and one object for every group, whether or not
    they are stored at the moment. *)
Record Blocks := mkBlocks {
  content : BlockKey -> option (list byte);
  frame : BlockKey -> option (list byte);
  legacy : BlockKey -> option (list byte);
  group_object : Z -> option (list byte)
}.

Section exact.
Context {codecs : Codecs} (digest : list byte -> list byte) (cfg : BlockStoreConfig) (B : Blocks).

(** How long a stored object may be. *)
Definition stored_limit : Z := block_size cfg * 2 + Z.shiftl 1 20.

Record blocks_ok : Prop := {
  bo_page : 0 < page_size cfg;
  bo_block : 0 < block_size cfg;
  bo_limit : stored_limit < u64_modulus;
  bo_fits k c : content B k = Some c -> zlen c <= block_size cfg;
  bo_frame k f : frame B k = Some f -> zlen f <= stored_limit /\
    exists c, decompress_framed_bytes f (block_size cfg) = Ok c /\ content B k = Some c;
  bo_legacy k o : legacy B k = Some o -> zlen o <= stored_limit /\
    exists c, decode_object cfg Legacy o = Ok c /\ content B k = Some c;
  bo_group group d index id slot e c : group_object B group = Some d ->
    parse_index digest group d = Ok index -> decode_id id = Some (group, slot) ->
    index !! Z.to_nat slot = Some e ->
    decode_member digest e (subrange d (e_offset e) (e_stored e)) = Ok c -> content B (id, 0) = Some c;
  bo_plain k f : versioned_objects_uncompressed cfg = true -> frame B k = Some f ->
    parse_persisted_header f = Framed NoCompression
}.

(** The bytes [d] are those of block [k] from [off]. *)
Definition agrees (k : BlockKey) (off : Z) (d : list byte) : Prop :=
  forall i b, d !! i = Some b -> exists c, content B k = Some c /\ c !! (Z.to_nat off + i)%nat = Some b.

(** A remembered layout is safe to read ranges with. *)
Definition layout_safe (k : BlockKey) (layout : ObjectLayout) : Prop :=
  layout = Versioned NoCompression ->
  forall f, frame B k = Some f -> parse_persisted_header f = Framed NoCompression.

Record coherent (s : ObjectBlockStore) : Prop := {
  co_versioned k o : objects s !! versioned_key_for k = Some o -> frame B k = Some o;
  co_legacy k o : objects s !! key_for k = Some o -> legacy B k = Some o;
  co_group g o : objects s !! object_key g = Some o -> group_object B g = Some o;
  co_write_hot k c : write_hot_cache (block_cache s) !! key_for k = Some c -> content B k = Some c;
  co_hot k c : hot_cache (block_cache s) !! key_for k = Some c -> content B k = Some c;
  co_disk k c : disk_storage (block_cache s) !! key_for k = Some c -> content B k = Some c;
  co_page id b p page : page_cache s !! (id, b, p) = Some page ->
    0 <= p /\ zlen page = page_len cfg p /\ agrees (id, b) (p * page_size cfg) page;
  co_format k layout : format_cache s !! k = Some layout -> layout_safe k layout;
  co_index g index : group_index s !! g = Some index ->
    exists d, group_object B g = Some d /\ parse_index digest g d = Ok index;
  co_file id f b : slice_files s !! id = Some f -> 0 <= b -> b * block_size cfg < zlen f ->
    content B (id, b) = Some (subrange f (b * block_size cfg) (Z.min (block_size cfg) (zlen f - b * block_size cfg)));
  co_read_flight k d : read_flight (flights s) !! k = Some d -> d = [] \/ content B k = Some d;
  co_range_flight k p q d : range_flight (flights s) !! (k, p, q) = Some d -> agrees k (p * page_size cfg) d;
  co_format_flight k layout : format_flight (flights s) !! k = Some layout -> layout_safe k layout;
  co_group_flight g d : group_flight (flights s) !! g = Some (Some d) -> group_object B g = Some d;
  co_prefetch k o layout : (k, o, layout) ∈ prefetches (hints s) -> o = object_key_for k layout
}.

(** A block that is stored and that no remembered answer hides. *)
Record ready (s : ObjectBlockStore) (k : BlockKey) : Prop := {
  re_plain : decode_id k.1 = None;
  re_stored : exists f, frame B k = Some f /\ objects s !! versioned_key_for k = Some f;
  re_format : format_cache s !! k <> Some Legacy;
  re_format_flight : format_flight (flights s) !! k <> Some Legacy;
  re_read_flight d : read_flight (flights s) !! k = Some d -> content B k = Some d;
  re_prefetch o : (k, o, Legacy) ∉ prefetches (hints s)
}.

(** The range requests in flight for a block were answered in full. *)
Definition ranges_full (s : ObjectBlockStore) (k : BlockKey) : Prop :=
  forall p q d c, range_flight (flights s) !! (k, p, q) = Some d -> content B k = Some c ->
    Z.min (page_end cfg q) (zlen c) <= p * page_size cfg + zlen d.

(** The backend does its part. *)
Definition quiet (s : ObjectBlockStore) : Prop :=
  forall n, ch_fails (tape s n) = false /\ ch_withheld (tape s n) <= 0.

(** ** Reasoning about runs

    [live] is whether the backend does its part, [K] the blocks that are ready. A
    run of [m] keeps the invariant, its result satisfies [Q], and it does not fail
    if it [must] not. *)
Context (live : Prop) (K : BlockKey -> Prop) (Hok : blocks_ok).

Record inv (s : ObjectBlockStore) : Prop := {
  in_coherent : coherent s;
  in_ready k : K k -> ready s k;
  in_ranges k : live -> K k -> ranges_full s k;
  in_quiet : live -> quiet s
}.

Definition spec {A} (must : Prop) (m : io A) (Q : A -> Prop) : Prop :=
  forall s, inv s -> inv (m s).2 /\ match (m s).1 with Ok a => Q a | Err _ => ~ must end.

Lemma spec_ret {A} must (a : A) (Q : A -> Prop) : Q a -> spec must (io_ret a) Q.
Proof. by intros HQ s Hs. Qed.

Lemma spec_err {A} (must : Prop) e (Q : A -> Prop) : ~ must -> spec must (io_err e) Q.
Proof. by intros HQ s Hs. Qed.

Lemma spec_bind {A B'} must (m : io A) (k : A -> io B') Q R :
  spec must m Q -> (forall a, Q a -> spec must (k a) R) -> spec must (io_bind m k) R.
Proof.
  intros Hm Hk s Hs. unfold io_bind. destruct (Hm s Hs) as [Hi Hr].
  destruct (m s) as [[a|e] s']; cbn [fst snd] in *; [by apply Hk|done].
Qed.

Lemma spec_weaken {A} (must must' : Prop) (m : io A) (Q R : A -> Prop) :
  spec must' m Q -> (must -> must') -> (forall a, Q a -> R a) -> spec must m R.
Proof.
  intros Hm Hmust HQ s Hs. destruct (Hm s Hs) as [Hi Hr]. split; [done|].
  destruct (m s).1; [auto|tauto].
Qed.

Lemma spec_get {A} must (f : ObjectBlockStore -> A) (Q : A -> Prop) :
  (forall s, inv s -> Q (f s)) -> spec must (io_get f) Q.
Proof. intros HQ s Hs. by split; [|apply HQ]. Qed.

Lemma spec_set must f : (forall s, inv s -> inv (f s)) -> spec must (io_set f) (fun _ => True).
Proof. intros HQ s Hs. by split; [apply HQ|]. Qed.

Lemma spec_choose must : spec must choose (fun c => live -> ch_fails c = false /\ ch_withheld c <= 0).
Proof.
  intros s [Hc Hr Hg Hq]. split; cbn.
  - split; [by destruct Hc|intros k Hk; destruct (Hr k Hk); by split|done|]. intros Hl n. apply (Hq Hl (S n)).
  - intros Hl. apply (Hq Hl 0%nat).
Qed.
Set Default Proof Using "All".

(** ** Changes of the state that keep the invariant *)

Lemma inv_hints f s : inv s ->
  (forall k o layout, (k, o, layout) ∈ prefetches (f (hints s)) -> (k, o, layout) ∈ prefetches (hints s) \/
    o = object_key_for k layout /\ (K k -> layout <> Legacy)) -> inv (with_hints f s).
Proof.
  intros [Hc Hr Hw Hq] Hf. split; [|intros k Hk|done|done].
  - destruct Hc; split; try done. intros k o layout [?|[? _]]%Hf; eauto.
  - destruct (Hr k Hk) as [? ? ? ? ? Hp]; split; try done. intros o [?|[_ Hl]]%Hf; [by apply (Hp o)|by apply Hl].
Qed.

Lemma inv_cache f s : inv s ->
  (forall k c, write_hot_cache (f (block_cache s)) !! key_for k = Some c -> content B k = Some c) ->
  (forall k c, hot_cache (f (block_cache s)) !! key_for k = Some c -> content B k = Some c) ->
  (forall k c, disk_storage (f (block_cache s)) !! key_for k = Some c -> content B k = Some c) ->
  inv (with_cache f s).
Proof. intros [Hc Hr Hw Hq] ???. split; [by destruct Hc|intros k Hk; by destruct (Hr k Hk)|done|done]. Qed.

Lemma insert_key_for k c (m : gmap string (list byte)) : content B k = Some c ->
  (forall k c, m !! key_for k = Some c -> content B k = Some c) ->
  forall k' c', <[key_for k := c]> m !! key_for k' = Some c' -> content B k' = Some c'.
Proof.
  cbn. intros Hk Hm k' c' [[->%key_for_inj <-]|[_ ?]]%lookup_insert_Some; eauto.
Qed.

Lemma inv_insert_cache ins k c s : inv s -> content B k = Some c ->
  ins = insert_hot \/ ins = insert_write_hot \/ ins = insert_disk -> inv (with_cache (ins (key_for k) c) s).
Proof.
  intros Hi Hk Hins. pose proof Hi as [Hc _ _ _]. apply inv_cache; [done|..]; destruct Hins as [->|[->| ->]];
    cbn; try apply insert_key_for; try done; intros; eauto using co_write_hot, co_hot, co_disk.
Qed.

Lemma inv_page k p page s : inv s -> 0 <= p -> zlen page = page_len cfg p ->
  agrees k (p * page_size cfg) page -> inv (with_pages <[(k.1, k.2, p) := page]> s).
Proof.
  intros [Hc Hr Hw Hq] Hp Hl Ha. split; [destruct Hc; split; try done|intros k' Hk; by destruct (Hr k' Hk)|done|done].
  cbn. intros id b q page' [[? <-]|[_ ?]]%lookup_insert_Some; [|eauto]. destruct k. naive_solver.
Qed.

Lemma inv_format k layout s : inv s -> layout_safe k layout -> (K k -> layout <> Legacy) ->
  inv (with_formats <[k := layout]> s).
Proof.
  intros [Hc Hr Hw Hq] Hl Hk. split; [destruct Hc; split; try done| |done|done].
  - cbn. intros k' layout' [[<- <-]|[_ ?]]%lookup_insert_Some; eauto.
  - intros k' HK. destruct (Hr k' HK). split; try done. cbn.
    intros [[<- ->]|[_ ?]]%lookup_insert_Some; [by apply (Hk HK)|done].
Qed.

Lemma inv_index g index s : inv s ->
  (exists d, group_object B g = Some d /\ parse_index digest g d = Ok index) -> inv (with_index <[g := index]> s).
Proof.
  intros [Hc Hr Hw Hq] Hg. split; [destruct Hc; split; try done|intros k' Hk; by destruct (Hr k' Hk)|done|done].
  cbn. intros g' index' [[<- <-]|[_ ?]]%lookup_insert_Some; eauto.
Qed.

Lemma inv_format_flight k layout s : inv s -> layout_safe k layout -> (K k -> layout <> Legacy) ->
  inv (with_flights (set_format_flight k layout) s).
Proof.
  intros [Hc Hr Hw Hq] Hl Hk. split; [destruct Hc; split; try done| |done|done].
  - cbn. intros k' layout' [[<- <-]|[_ ?]]%lookup_insert_Some; eauto.
  - intros k' HK. destruct (Hr k' HK). split; try done. cbn.
    intros [[<- ->]|[_ ?]]%lookup_insert_Some; [by apply (Hk HK)|done].
Qed.

Lemma inv_read_flight k d s : inv s -> (d = [] \/ content B k = Some d) -> (K k -> content B k = Some d) ->
  inv (with_flights (set_read_flight k d) s).
Proof.
  intros [Hc Hr Hw Hq] Hd Hk. split; [destruct Hc; split; try done| |done|done].
  - cbn. intros k' d' [[<- <-]|[_ ?]]%lookup_insert_Some; eauto.
  - intros k' HK. destruct (Hr k' HK). split; try done. cbn.
    intros d' [[<- <-]|[_ ?]]%lookup_insert_Some; eauto.
Qed.

Lemma inv_range_flight k p q d s : inv s -> agrees k (p * page_size cfg) d ->
  (live -> K k -> forall c, content B k = Some c -> Z.min (page_end cfg q) (zlen c) <= p * page_size cfg + zlen d) ->
  inv (with_flights (set_range_flight (k, p, q) d) s).
Proof.
  intros [Hc Hr Hw Hq] Hd Hk. split; [destruct Hc; split; try done|intros k' HK; by destruct (Hr k' HK)| |done].
  - cbn. intros k' p' q' d' [[[= <- <- <-] <-]|[_ ?]]%lookup_insert_Some; eauto.
  - intros k' Hl HK p' q' d' c. cbn. intros [[[= <- <- <-] <-]|[_ ?]]%lookup_insert_Some; [by apply Hk|by apply (Hw k')].
Qed.

Lemma inv_group_flight g d s : inv s -> (forall o, d = Some o -> group_object B g = Some o) ->
  inv (with_flights (set_group_flight g d) s).
Proof.
  intros [Hc Hr Hw Hq] Hd. split; [destruct Hc; split; try done|intros k' Hk; by destruct (Hr k' Hk)|done|done].
  cbn. intros g' o [[<- ?]|[_ ?]]%lookup_insert_Some; eauto.
Qed.

(** ** Bytes of a block *)

Lemma agrees_nil k off : agrees k off [].
Proof. by intros i b H. Qed.

Lemma agrees_content k c : content B k = Some c -> agrees k 0 c.
Proof. intros Hc i b Hb. eauto. Qed.

Lemma agrees_subrange k off d a n : 0 <= off -> 0 <= a -> agrees k off d -> agrees k (off + a) (subrange d a n).
Proof.
  intros Ho Ha H i b Hb. unfold subrange in Hb. apply lookup_take_Some in Hb as [Hb Hi].
  rewrite lookup_drop in Hb. destruct (H _ _ Hb) as (c & Hc & Hx). exists c. split; [done|].
  rewrite <-Hx. f_equal. lia.
Qed.

Lemma agrees_take k off d n : agrees k off d -> agrees k off (take n d).
Proof. intros H i b [Hb _]%lookup_take_Some. eauto. Qed.

Lemma agrees_prefix k off d d' : d `prefix_of` d' -> agrees k off d' -> agrees k off d.
Proof. intros [r ->] H i b Hb. apply H. by apply lookup_app_l_Some. Qed.

Lemma subrange_drop {A} (l : list A) a off n : 0 <= a -> 0 <= off ->
  subrange l (a + off) n = subrange (drop (Z.to_nat a) l) off n.
Proof. intros. unfold subrange. rewrite drop_drop. do 2 f_equal. lia. Qed.

(** ** The backend *)

(** An object that ranges are read from has the block at the base offset. *)
Lemma stored_payload s k layout base o : coherent s -> layout_safe k layout ->
  range_base_offset cfg layout = Some base -> objects s !! object_key_for k layout = Some o ->
  0 <= base /\ content B k = Some (drop (Z.to_nat base) o).
Proof.
  intros Hc Hl Hb Ho. unfold range_base_offset in Hb. destruct layout as [[| |]|]; try done.
  - assert (base = 4) as -> by (unfold PERSISTED_HEADER_LEN in Hb; destruct (cfg_compression cfg); congruence). cbn [object_key_for] in Ho.
    apply (co_versioned s Hc) in Ho as Hf. destruct (bo_frame Hok k o Hf) as (_ & c & Hd & ->). split; [done|].
    unfold decompress_framed_bytes, decompress_framed in Hd. rewrite (Hl eq_refl o Hf) in Hd.
    destruct (_ <=? _); [|done]. cbn [result_bind cow_bytes] in Hd. congruence.
  - apply (co_legacy s Hc) in Ho as Hf. destruct (bo_legacy Hok k o Hf) as (_ & c & Hd & ->).
    unfold decode_object in Hd. destruct (cfg_compression cfg); [|done|done]. by simplify_eq.
Qed.

Lemma range_answer_spec data off n withheld :
  range_answer data off n withheld `prefix_of` subrange (default [] data) off n /\
  (withheld <= 0 -> range_answer data off n withheld = subrange (default [] data) off n).
Proof.
  unfold range_answer. split; [apply prefix_take|]. intros Hw. apply firstn_all2. lia.
Qed.

(** A range read of a block. *)
Definition covers_to (k : BlockKey) (off end_ : Z) (bs : list byte) : Prop :=
  live -> K k -> forall c, content B k = Some c -> Z.min end_ (zlen c) <= off + zlen bs.

Lemma range_read_spec k layout base off n : layout_safe k layout -> (K k -> layout <> Legacy) ->
  range_base_offset cfg layout = Some base -> 0 <= off -> 0 <= n ->
  spec live (get_object_range (object_key_for k layout) (base + off) n)
    (fun bs => agrees k off bs /\ zlen bs <= n /\ covers_to k off (off + n) bs).
Proof.
  intros Hl HK Hb Ho Hn. unfold get_object_range. eapply spec_bind; [apply spec_choose|]. intros c Hq.
  destruct (ch_fails c) eqn:Hf; [apply spec_err; intros H; destruct (Hq H); congruence|].
  apply (spec_bind live _ _ (fun data =>
    match data with Some o => 0 <= base /\ content B k = Some (drop (Z.to_nat base) o) | None => ~ K k end)).
  { apply spec_get. intros s [Hc Hr _ _]. destruct (objects s !! object_key_for k layout) as [o|] eqn:E.
    - by apply (stored_payload s k layout base o).
    - intros Hk. destruct (re_stored s k (Hr k Hk)) as (f & _ & Hs). specialize (HK Hk).
      destruct layout; [|done]. cbn [object_key_for] in E. congruence. }
  intros data Hd. apply spec_ret. destruct (range_answer_spec data (base + off) n (ch_withheld c)) as [Hp Hfull].
  assert (agrees k off (subrange (default [] data) (base + off) n) /\ zlen (subrange (default [] data) (base + off) n) <= n) as [Ha Hlen].
  { split; [|unfold subrange; rewrite length_take; lia]. destruct data as [o|]; cbn [default id].
    - destruct Hd as [Hb0 Hd]. rewrite subrange_drop by done. rewrite <-(Z.add_0_l off) at 1.
      apply agrees_subrange; [done|done|]. by apply agrees_content.
    - unfold subrange. rewrite drop_nil, take_nil. apply agrees_nil. }
  split_and!.
  - by eapply agrees_prefix.
  - apply prefix_length in Hp. lia.
  - intros Hlive Hk cont Hcont. rewrite Hfull by (by apply Hq). destruct data as [o|]; [|done].
    destruct Hd as [Hb0 Hd]. assert (cont = drop (Z.to_nat base) o) as -> by congruence. cbn [default id].
    rewrite subrange_drop by done. unfold subrange. rewrite length_take, !length_drop. lia.
Qed.

(** ** The block cache *)

Definition whole (k : BlockKey) (o : option (list byte)) : Prop := forall c, o = Some c -> content B k = Some c.
Definition hit (k : BlockKey) (off n : Z) (o : option (list byte)) : Prop :=
  forall bs, o = Some bs -> zlen bs = n /\ agrees k off bs.

Lemma whole_None k : whole k None.
Proof. done. Qed.
Lemma hit_None k off n : hit k off n None.
Proof. done. Qed.
Lemma whole_Some k c : content B k = Some c -> whole k (Some c).
Proof. by intros H c' [= <-]. Qed.
Lemma hit_Some k off n bs : zlen bs = n -> agrees k off bs -> hit k off n (Some bs).
Proof. by intros H ? c' [= <-]. Qed.

Lemma copied_hit k off n v : 0 <= off -> 0 <= n -> content B k = Some v ->
  hit k off n (copy_full_cached_range v off n).
Proof.
  intros Ho Hn Hv bs. unfold copy_full_cached_range. destruct (Z.ltb_spec (zlen v) (off + n)); [done|].
  intros [= <-]. split; [by apply length_subrange|]. rewrite <-(Z.add_0_l off) at 1.
  apply agrees_subrange; [done|done|]. by apply agrees_content.
Qed.

Lemma spec_evicting {A} must (f : ObjectBlockStore -> option A) (Q : A -> Prop) :
  (forall s a, inv s -> f s = Some a -> Q a) ->
  spec must (evicting_get f) (fun o => forall a, o = Some a -> Q a).
Proof.
  intros HQ. eapply spec_bind; [apply spec_choose|]. intros c _. apply spec_get. intros s Hs a.
  destruct (ch_present c); [by apply HQ|done].
Qed.

Lemma spec_tier must tier k :
  tier = write_hot_cache \/ tier = hot_cache \/ tier = disk_storage -> spec must (tier_get tier (key_for k)) (whole k).
Proof.
  intros Ht. apply (spec_evicting must (fun s => tier (block_cache s) !! key_for k)).
  intros s a [Hc _ _ _] Ha. destruct Ht as [->|[->| ->]]; eauto using co_write_hot, co_hot, co_disk.
Qed.

Lemma spec_try_insert must ins k c : content B k = Some c ->
  ins = insert_hot \/ ins = insert_write_hot \/ ins = insert_disk ->
  spec must (try_insert ins (key_for k) c) (fun _ => True).
Proof.
  intros Hk Hins. eapply spec_bind; [apply spec_choose|]. intros ch _. destruct (ch_present ch); [|by apply spec_ret].
  eapply spec_bind; [|intros; by apply spec_ret]. apply spec_set. intros s Hs. by apply inv_insert_cache.
Qed.

Lemma spec_then {A} must (m : io unit) (a : A) (Q : A -> Prop) :
  spec must m (fun _ => True) -> Q a -> spec must (m ;* io_ret a) Q.
Proof. intros Hm HQ. eapply spec_bind; [exact Hm|]. intros _ _. by apply spec_ret. Qed.

Lemma spec_ignore {A} must (m : io A) : spec must m (fun _ => True) -> spec must (let* _ := m in io_ret tt) (fun _ => True).
Proof. intros Hm. eapply spec_bind; [exact Hm|]. intros _ _. by apply spec_ret. Qed.

Lemma spec_disk_hit must k c promote : content B k = Some c ->
  spec must (commit_disk_hit (key_for k) (if promote : bool then Some c else None)) (fun _ => True).
Proof. intros Hc. destruct promote; [|by apply spec_ret]. apply spec_ignore, spec_try_insert; auto. Qed.

Lemma spec_promote must : spec must should_promote (fun _ => True).
Proof. eapply spec_bind; [apply spec_choose|]. intros c _. by apply spec_ret. Qed.

Lemma spec_cache_get must k : spec must (cache_get cfg (key_for k)) (whole k).
Proof.
  eapply spec_bind; [apply spec_tier; auto|]. intros [v|] Hv; [by apply spec_ret|].
  eapply spec_bind; [apply spec_tier; auto|]. intros [v|] Hv'; [by apply spec_ret|].
  destruct (negb _); [by apply spec_ret|]. eapply spec_bind; [apply spec_tier; auto|].
  intros [[|b v]|] Hv''; [by apply spec_ret| |by apply spec_ret]. specialize (Hv'' _ eq_refl).
  eapply spec_bind; [apply spec_promote|]. intros promote _. apply spec_then; [by apply spec_disk_hit|by apply whole_Some].
Qed.

Lemma spec_cached_range must k off n : 0 <= off -> 0 <= n -> spec must (get_cached_range (key_for k) off n) (hit k off n).
Proof.
  intros Ho Hn. assert (forall o, whole k o -> hit k off n (v ← o; copy_full_cached_range v off n)) as Hcopy.
  { intros [v|] Hw; [|done]. by apply copied_hit, Hw. }
  eapply spec_bind; [apply spec_tier; auto|]. intros o Hw. apply Hcopy in Hw.
  destruct (v ← o; copy_full_cached_range v off n); [by apply spec_ret|].
  eapply spec_bind; [apply spec_tier; auto|]. intros o' Hw'. apply spec_ret. by apply Hcopy.
Qed.

Lemma spec_range_into must k off n : 0 <= off -> 0 <= n -> spec must (get_range_into cfg (key_for k) off n) (hit k off n).
Proof.
  intros Ho Hn. unfold get_range_into. destruct (Z.eqb_spec n 0) as [->|_].
  { apply spec_ret, hit_Some; [done|apply agrees_nil]. }
  eapply spec_bind; [by apply spec_cached_range|]. intros [bs|] Hh; [by apply spec_ret|].
  destruct (negb _); [by apply spec_ret|]. eapply spec_bind; [apply spec_tier; auto|].
  intros [v|] Hv; [|by apply spec_ret]. specialize (Hv v eq_refl). pose proof (copied_hit k off n v Ho Hn Hv) as Hcopy.
  destruct (copy_full_cached_range v off n); [|by apply spec_ret].
  eapply spec_bind; [apply spec_promote|]. intros promote _. apply spec_then; [by apply spec_disk_hit|done].
Qed.

Lemma spec_persist must k c : content B k = Some c -> spec must (persist_opportunistic cfg (key_for k) c) (fun _ => True).
Proof.
  intros Hc. unfold persist_opportunistic. destruct (negb _); [by apply spec_ret|]. apply spec_ignore, spec_try_insert; auto.
Qed.

Lemma spec_insert_opportunistic must k c : content B k = Some c ->
  spec must (insert_opportunistic cfg (key_for k) c) (fun _ => True).
Proof.
  intros Hc. eapply spec_bind; [apply spec_try_insert; auto|]. intros [] _; [by apply spec_persist|by apply spec_ret].
Qed.

Lemma spec_insert_recent must k c : content B k = Some c ->
  spec must (insert_recent_write_opportunistic cfg (key_for k) c) (fun _ => True).
Proof.
  intros Hc. eapply spec_bind; [apply spec_try_insert; auto|]. intros [] _; [by apply spec_persist|by apply spec_ret].
Qed.

(** ** Shared requests *)

Lemma spec_join {A} (f : ObjectBlockStore -> option A) (Q : A -> Prop) :
  (forall s a, inv s -> f s = Some a -> Q a) -> spec live (join f) (fun o => forall a, o = Some a -> Q a).
Proof.
  intros HQ. eapply spec_bind; [apply spec_choose|]. intros c Hq. destruct (negb _); [by apply spec_ret|].
  apply (spec_bind live _ _ (fun o => forall a, o = Some a -> Q a)).
  { apply spec_get. eauto. }
  intros [v|] Hv; [|by apply spec_ret]. destruct (ch_fails c) eqn:Hf; [|by apply spec_ret].
  apply spec_err. intros Hl. destruct (Hq Hl). congruence.
Qed.

Lemma spec_execute {A} (must : Prop) (f : ObjectBlockStore -> option A) publish leader (Q : A -> Prop) :
  (must -> live) -> (forall s a, inv s -> f s = Some a -> Q a) -> spec must leader Q ->
  (forall s a, inv s -> Q a -> inv (publish a s)) ->
  spec must (execute f publish leader) (fun r => Q r.2).
Proof.
  intros Hm HQ Hl Hp. eapply spec_bind; [eapply spec_weaken; [by apply (spec_join f Q)|done|done]|].
  intros [v|] Hv; [apply spec_ret; by apply Hv|]. eapply spec_bind; [exact Hl|]. intros v' Hv'.
  apply spec_then; [|done]. apply spec_set. intros s Hs. by apply Hp.
Qed.

(** ** Layouts *)

(** A layout to read block [k] with. *)
Definition layout_good (k : BlockKey) (layout : ObjectLayout) : Prop :=
  layout_safe k layout /\ (K k -> layout <> Legacy).

Lemma spec_cache_format must k layout : layout_good k layout -> spec must (cache_format k layout) (fun _ => True).
Proof. intros [? ?]. apply spec_set. intros s Hs. by apply inv_format. Qed.

Lemma framed_header f c : decompress_framed_bytes f (block_size cfg) = Ok c ->
  exists comp, parse_persisted_header f = Framed comp /\ 4 <= zlen f.
Proof.
  unfold decompress_framed_bytes, decompress_framed. intros H.
  destruct (parse_persisted_header f) as [| |comp|] eqn:Hp; try done. exists comp. split; [done|].
  unfold parse_persisted_header, PERSISTED_HEADER_LEN in Hp. destruct (Z.ltb_spec (zlen f) 4); [done|lia].
Qed.

Lemma parse_header_prefix f : 4 <= zlen f -> parse_persisted_header (take 4 f) = parse_persisted_header f.
Proof.
  intros H. unfold parse_persisted_header, PERSISTED_HEADER_LEN. rewrite length_take.
  destruct (Z.ltb_spec (Z.of_nat (4 `min` length f)) 4); [lia|]. destruct (Z.ltb_spec (zlen f) 4); [lia|].
  rewrite take_take. change (2 `min` 4)%nat with 2%nat. rewrite !lookup_take_lt by lia. done.
Qed.

(** What a read of the header of a versioned object answers. *)
Lemma spec_header_read k pos : 0 <= pos < 4 ->
  spec live (get_object_range (versioned_key_for k) pos (4 - pos))
    (fun bs => (bs = [] /\ ~ K k) \/ exists f, frame B k = Some f /\ 4 <= zlen f /\ bs <> [] /\
       bs `prefix_of` subrange f pos (4 - pos) /\ (live -> bs = subrange f pos (4 - pos))).
Proof.
  intros Hpos. eapply spec_bind; [apply spec_choose|]. intros c Hq.
  destruct (ch_fails c) eqn:Hf; [apply spec_err; intros H; destruct (Hq H); congruence|].
  apply (spec_bind live _ _ (fun data => match data with Some f => frame B k = Some f /\ 4 <= zlen f | None => ~ K k end)).
  { apply spec_get. intros s [Hc Hr _ _]. destruct (objects s !! versioned_key_for k) as [f|] eqn:E.
    - apply (co_versioned s Hc) in E. split; [done|]. destruct (bo_frame Hok k f E) as (_ & c' & Hd & _).
      by destruct (framed_header f c' Hd) as (_ & _ & ?).
    - intros Hk. destruct (re_stored s k (Hr k Hk)) as (f & _ & Hs). congruence. }
  intros [f|] Hd; apply spec_ret; [right|left].
  - destruct Hd as [Hk Hlen]. exists f. split_and!; [done|done| |apply range_answer_spec|].
    + unfold range_answer. cbn [default id]. intros Hnil%(f_equal length).
      assert (zlen (subrange f pos (4 - pos)) = 4 - pos) by (apply length_subrange; lia).
      rewrite length_take in Hnil. cbn in Hnil. lia.
    + intros Hl. apply range_answer_spec. by apply Hq.
  - split; [|done]. unfold range_answer, subrange. cbn [default]. by rewrite drop_nil, !take_nil.
Qed.

Lemma take_snoc_prefix {A} (f bs : list A) (n : nat) m : (n <= length f)%nat ->
  bs `prefix_of` take m (drop n f) -> take n f ++ bs = take (n + length bs) f.
Proof.
  intros Hn [r Hr]. assert (bs = take (length bs) (drop n f)) as E.
  { assert (length bs <= m)%nat as Hm.
    { apply (f_equal length) in Hr. rewrite length_take, length_app in Hr. lia. }
    apply (f_equal (take (length bs))) in Hr. rewrite take_app_length, take_take in Hr.
    by rewrite Nat.min_l in Hr. }
  rewrite E at 1. rewrite take_take_drop. done.
Qed.

(** Four reads of at least one byte each get the header. *)
Lemma spec_read_header k : forall fuel header,
  (header = [] \/ ~ live /\ exists f, frame B k = Some f /\ header = take (length header) f) ->
  (length header < 4)%nat -> (4 <= fuel + length header)%nat ->
  spec live (read_header fuel (versioned_key_for k) header)
    (fun o => match o with None => ~ K k | Some h => exists f, frame B k = Some f /\ 4 <= zlen f /\ h = take 4 f end).
Proof.
  induction fuel as [|fuel IH]; intros header Hh Hlen Hfuel; [lia|]. cbn [read_header].
  unfold PERSISTED_HEADER_LEN. eapply spec_bind; [apply spec_header_read; lia|].
  intros bs [[-> HK]|(f & Hf & Hl4 & Hne & Hpre & Hlive)].
  { cbn [length]. destruct header as [|b header]; [by apply spec_ret|]. apply spec_err. by destruct Hh as [|[? _]]. }
  destruct (Z.eqb_spec (zlen bs) 0) as [E|_]; [destruct bs; [done|cbn in E; lia]|].
  assert (header ++ bs = take (length header + length bs) f) as Happ.
  { assert (header = take (length header) f) as Hhf.
    { destruct Hh as [->|(_ & f' & Hf' & E)]; [done|]. by simplify_eq. }
    rewrite Hhf at 1. apply (take_snoc_prefix f bs (length header) (Z.to_nat (4 - zlen header))); [lia|].
    unfold subrange in Hpre. by rewrite Nat2Z.id in Hpre. }
  assert (length bs <= 4 - length header)%nat as Hbs.
  { apply prefix_length in Hpre. unfold subrange in Hpre. rewrite length_take in Hpre. lia. }
  assert (length bs <> 0)%nat by (by destruct bs).
  rewrite length_app. destruct (Z.eqb_spec (Z.of_nat (length header + length bs)) 4) as [E|E].
  - apply spec_ret. exists f. split_and!; [done|done|]. rewrite Happ. f_equal. lia.
  - apply IH; rewrite ?length_app; [|lia|lia]. right. split; [|by exists f].
    intros Hl. specialize (Hlive Hl). apply (f_equal length) in Hlive.
    assert (zlen (subrange f (zlen header) (4 - zlen header)) = 4 - zlen header) by (apply length_subrange; lia). lia.
Qed.

Lemma spec_probe k : spec live (probe_layout k) (layout_good k).
Proof.
  eapply spec_bind; [apply spec_read_header; [by left|cbn; lia..]|]. intros [h|] Hh.
  - destruct Hh as (f & Hf & Hl & ->). rewrite parse_header_prefix by done.
    destruct (bo_frame Hok k f Hf) as (_ & c & Hd & _). destruct (framed_header f c Hd) as (comp & Hp & _).
    rewrite Hp. assert (layout_good k (Versioned comp)) as Hg.
    { split; [|done]. intros [= ->] f' Hf'. congruence. }
    apply spec_then; [by apply spec_cache_format|done].
  - assert (layout_good k Legacy) by done. apply spec_then; [by apply spec_cache_format|done].
Qed.

Lemma spec_resolve k : spec live (resolve_object_layout cfg k) (layout_good k).
Proof.
  eapply spec_bind; [apply (spec_evicting live _ (layout_good k))|].
  { intros s layout [Hc Hr _ _] E. split; [by apply (co_format s Hc)|]. intros Hk ->.
    by destruct (re_format s k (Hr k Hk)). }
  intros [layout|] Hc; [apply spec_ret; by apply Hc|]. destruct (versioned_objects_only cfg).
  - assert (layout_good k (Versioned (if versioned_objects_uncompressed cfg then NoCompression else Lz4))) as Hg.
    { split; [|done]. destruct (versioned_objects_uncompressed cfg) eqn:E; [|done]. intros _ f. by apply (bo_plain Hok). }
    apply spec_then; [by apply spec_cache_format|done].
  - eapply spec_bind; [apply (spec_execute live _ _ _ (layout_good k))|]; [done| |apply spec_probe| |].
    + intros s layout [Hc' Hr _ _] E. split; [by apply (co_format_flight s Hc')|]. intros Hk ->.
      by destruct (re_format_flight s k (Hr k Hk)).
    + intros s layout Hs [? ?]. by apply inv_format_flight.
    + intros [b layout] Hl. by apply spec_ret.
Qed.

(** ** Whole objects *)

Lemma limit_some : (n ← u64_checked_mul (block_size cfg) 2; u64_checked_add n (Z.shiftl 1 20)) = Some stored_limit.
Proof.
  pose proof (bo_limit Hok) as H. pose proof (bo_block Hok) as Hb. unfold stored_limit in *.
  change (Z.shiftl 1 20) with 1048576 in *. unfold u64_checked_mul, u64_checked_add.
  destruct (Z.ltb_spec (block_size cfg * 2) u64_modulus); [|lia]. cbn.
  by destruct (Z.ltb_spec (block_size cfg * 2 + 1048576) u64_modulus); [|lia].
Qed.

Lemma spec_full_object k layout :
  spec live (observed_full cfg (object_key_for k layout) layout)
    (fun o => whole k o /\ (o = None -> K k -> layout = Legacy)).
Proof.
  unfold observed_full. rewrite limit_some.
  assert (forall s o, coherent s -> objects s !! object_key_for k layout = Some o ->
    zlen o <= stored_limit /\ exists c, decode_object cfg layout o = Ok c /\ content B k = Some c) as Hobj.
  { intros s o Hc Ho. destruct layout; cbn [object_key_for] in Ho.
    - by apply (bo_frame Hok), (co_versioned s Hc).
    - by apply (bo_legacy Hok), (co_legacy s Hc). }
  eapply (spec_bind live _ _ (fun o => match o with
    | Some o => exists c, decode_object cfg layout o = Ok c /\ content B k = Some c
    | None => K k -> layout = Legacy end)).
  - eapply spec_bind; [apply spec_choose|]. intros c Hq.
    destruct (ch_fails c) eqn:Hf; [apply spec_err; intros H; destruct (Hq H); congruence|].
    apply (spec_bind live _ _ (fun o => match o with
      | Some o => zlen o <= stored_limit /\ exists c, decode_object cfg layout o = Ok c /\ content B k = Some c
      | None => K k -> layout = Legacy end)).
    { apply spec_get. intros s [Hc Hr _ _]. destruct (objects s !! _) as [o|] eqn:E; [by apply (Hobj s)|].
      intros Hk. destruct (re_stored s k (Hr k Hk)) as (f & _ & Hs). destruct layout; [|done]. cbn in E. congruence. }
    intros [o|] Ho; [|by apply spec_ret]. destruct Ho as [Hl Ho]. destruct (Z.ltb_spec stored_limit (zlen o)); [lia|].
    by apply spec_ret.
  - intros [o|] Ho; [|by apply spec_ret]. destruct Ho as (c & -> & Hc). pose proof (bo_fits Hok k c Hc).
    destruct (Z.ltb_spec (block_size cfg) (zlen c)); [lia|]. apply spec_ret. split; [by apply whole_Some|done].
Qed.

(** ** Pages *)

(** The page holds bytes of the block, as far as the block goes if that is known
    to be stored. *)
Definition page_ok (k : BlockKey) (p : Z) (page : list byte) : Prop :=
  agrees k (p * page_size cfg) page /\ covers_to k (p * page_size cfg) (page_end cfg p) page.

Lemma cached_page_ok s k p page : coherent s -> page_cache s !! (k.1, k.2, p) = Some page ->
  zlen page = page_len cfg p /\ page_ok k p page.
Proof.
  intros Hc Hp. destruct (co_page s Hc _ _ _ _ Hp) as (? & Hl & Ha). split; [done|]. destruct k. split; [done|].
  intros _ _ c _. unfold page_len in Hl. lia.
Qed.

Lemma spec_page_get must k p :
  spec must (page_get k p) (fun o => forall page, o = Some page -> zlen page = page_len cfg p /\ page_ok k p page).
Proof.
  apply (spec_evicting must _ (fun page => zlen page = page_len cfg p /\ page_ok k p page)).
  intros s page [Hc _ _ _]. by apply cached_page_ok.
Qed.

Lemma spec_pages_get must k : forall ps,
  spec must (pages_get k ps) (fun o => forall pages, o = Some pages ->
    Forall2 (fun p page => zlen page = page_len cfg p /\ page_ok k p page) ps pages).
Proof.
  induction ps as [|p ps IH]; cbn [pages_get].
  { apply spec_ret. intros pages [= <-]. constructor. }
  eapply spec_bind; [apply spec_page_get|]. intros [page|] Hp; [|by apply spec_ret].
  eapply spec_bind; [apply IH|]. intros [pages|] Hps; apply spec_ret; [|done]. intros ? [= <-]. constructor; auto.
Qed.

Lemma spec_lookup_pages must k : forall ps,
  spec must (lookup_pages k ps) (Forall2 (fun p o => forall page, o = Some page -> page_ok k p page) ps).
Proof.
  induction ps as [|p ps IH]; cbn [lookup_pages]; [apply spec_ret; constructor|].
  eapply spec_bind; [apply spec_page_get|]. intros o Hp. eapply spec_bind; [apply IH|]. intros pages Hps.
  apply spec_ret. constructor; [|done]. intros page ->. by apply Hp.
Qed.

(** *** Copying pages into the buffer *)

Section copy.
Context (k : BlockKey) (off n : Z).
Context (Hoff : 0 <= off) (Hn : 0 < n) (Hin : off + n <= block_size cfg).

Let ps := page_size cfg.
Let start_page := off / ps.
Let end_page := (off + n - 1) / ps.

(** How much of the buffer the pages before [p] fill. *)
Definition filled (p : Z) : Z := if p <=? start_page then 0 else Z.min n (p * ps - off).

(** The buffer before page [p] is copied. *)
Definition copied (p : Z) (acc : list byte * Z) : Prop :=
  zlen acc.1 = n /\ acc.2 <= filled p /\
  (acc.2 = filled p -> forall i b, Z.of_nat i < filled p -> acc.1 !! i = Some b ->
     exists c, content B k = Some c /\ c !! (Z.to_nat off + i)%nat = Some b) /\
  (live -> K k -> (exists c, content B k = Some c /\ off + n <= zlen c) -> acc.2 = filled p).

Lemma copy_bounds p : start_page <= p <= end_page ->
  0 < ps /\ start_page * ps <= off < (start_page + 1) * ps /\ 0 <= p * ps <= off + n - 1 /\
  (p = end_page -> off + n <= (p + 1) * ps) /\ (p < end_page -> (p + 1) * ps <= off + n - 1).
Proof.
  intros Hp. pose proof (bo_page Hok : 0 < ps) as Hps. unfold start_page, end_page in *.
  pose proof (Z.div_mod off ps ltac:(lia)). pose proof (Z.mod_pos_bound off ps Hps).
  pose proof (Z.div_mod (off + n - 1) ps ltac:(lia)). pose proof (Z.mod_pos_bound (off + n - 1) ps Hps).
  assert (0 <= off / ps) by (apply Z.div_pos; lia).
  split_and!; [done|nia|nia|nia|nia|intros ->; nia|intros; nia].
Qed.

Lemma copy_page_spec p inner acc page : start_page <= p <= end_page -> copied p acc -> page_ok k p page ->
  (p < end_page -> inner = ps) ->
  copied (p + 1) (copy_page cfg off n start_page end_page inner acc p page).
Proof.
  intros Hp (Hlen & Hle & Hex & Hlive) [Ha Hcov] Hinner. destruct acc as [buf total]. cbn [fst snd] in *.
  fold ps in Ha, Hcov.
  destruct (copy_bounds p Hp) as (Hps & Hs & Hb & Hend & Hmid).
  assert (start_page < p -> (start_page + 1) * ps <= p * ps) as Hlt by (intros; apply Z.mul_le_mono_nonneg_r; lia).
  assert (p = start_page -> p * ps = start_page * ps) as Heq by congruence.
  unfold copy_page. fold ps.
  set (copy_start := if p =? start_page then off - p * ps else 0).
  set (requested_end := if p =? end_page then u64_saturating_sub (off + n) (p * ps) else inner).
  assert (p * ps + copy_start - off = filled p /\ 0 <= copy_start) as [Hstart Hcs].
  { unfold copy_start, filled. destruct (Z.eqb_spec p start_page), (Z.leb_spec p start_page); lia. }
  assert (filled (p + 1) = p * ps + requested_end - off /\ copy_start < requested_end <= ps) as [Hnext Hreq].
  { unfold requested_end, filled, u64_saturating_sub, copy_start.
    destruct (Z.leb_spec (p + 1) start_page); [lia|]. destruct (Z.eqb_spec p end_page) as [E|].
    - specialize (Hend E). split; [lia|]. destruct (Z.eqb_spec p start_page); lia.
    - rewrite Hinner by lia. specialize (Hmid ltac:(lia)). split; [lia|]. destruct (Z.eqb_spec p start_page); lia. }
  assert (0 <= filled p <= n) as Hfp by (unfold filled; destruct (Z.leb_spec p start_page); lia).
  assert (filled (p + 1) <= n) as Hfn by (unfold filled; destruct (Z.leb_spec (p + 1) start_page); lia).
  set (copy_end := Z.min requested_end (zlen page)).
  assert (live -> K k -> (exists c, content B k = Some c /\ off + n <= zlen c) -> copy_end = requested_end) as Hfull.
  { intros Hl Hk (c & Hc & Hcl). specialize (Hcov Hl Hk c Hc). unfold page_end in Hcov. fold ps in Hcov. lia. }
  destruct (Z.ltb_spec copy_start copy_end) as [Hc|Hc].
  - assert (zlen (subrange page copy_start (copy_end - copy_start)) = copy_end - copy_start) as Hsl
      by (apply length_subrange; lia).
    split_and!; cbn [fst snd].
    + rewrite length_splice; lia.
    + lia.
    + intros Hall i b Hi. rewrite lookup_splice by lia. rewrite Hstart. case_decide as Hd.
      * rewrite lookup_subrange by lia. intros Hb'. destruct (Ha _ _ Hb') as (c & Hc' & Hx).
        exists c. split; [done|]. rewrite <-Hx. f_equal. lia.
      * intros Hb'. apply Hex; [lia| |done]. lia.
    + intros Hl Hk Hx. rewrite (Hfull Hl Hk Hx), (Hlive Hl Hk Hx). lia.
  - split_and!; cbn [fst snd]; [lia|lia|intros; lia|]. intros Hl Hk Hx. specialize (Hfull Hl Hk Hx). lia.
Qed.

Lemma copy_pages_spec inner pages : forall p acc, copied p acc ->
  start_page <= p -> p + zlen pages = end_page + 1 ->
  Forall2 (page_ok k) (seqZ p (zlen pages)) pages -> (forall q, q < end_page -> inner q = ps) ->
  copied (end_page + 1) (copy_pages cfg off n start_page end_page inner acc p pages).
Proof.
  induction pages as [|page pages IH]; intros p acc Hc Hp Hl Hf Hi; cbn [copy_pages].
  { cbn in Hl. by replace (end_page + 1) with p by lia. }
  cbn [length] in *. rewrite seqZ_cons in Hf by lia. inversion_clear Hf as [|? ? ? ? Hpage Hrest].
  replace (Z.pred (Z.of_nat (S (length pages)))) with (zlen pages) in Hrest by lia.
  replace (Z.succ p) with (p + 1) in Hrest by lia.
  apply IH; [apply copy_page_spec; [lia|done|done|apply Hi]|lia|lia|done|done].
Qed.

(** All pages copied. *)
Lemma copied_all acc : copied (end_page + 1) acc ->
  (acc.2 = n -> agrees k off acc.1) /\
  (live -> K k -> (exists c, content B k = Some c /\ off + n <= zlen c) -> acc.2 = n).
Proof.
  intros (Hlen & _ & Hex & Hlive). destruct (copy_bounds end_page) as (Hps & Hs & Hb & Hend & _).
  { split; [|lia]. unfold start_page, end_page. apply Z.div_le_mono; [apply (bo_page Hok)|lia]. }
  assert (filled (end_page + 1) = n) as E.
  { specialize (Hend eq_refl). unfold filled. destruct (Z.leb_spec (end_page + 1) start_page); [|lia]. nia. }
  rewrite E in *. split; [|done]. intros Ht i b Hi. apply Hex; [done| |done]. apply lookup_lt_Some in Hi. lia.
Qed.

Lemma copied_start : copied start_page (replicate (Z.to_nat n) Byte.x00, 0).
Proof.
  unfold copied. cbn [fst snd]. assert (filled start_page = 0) as -> by (unfold filled; by rewrite Z.leb_refl).
  rewrite length_replicate. split_and!; [lia|lia|intros; lia|done].
Qed.
End copy.

(** ** Answers *)

Definition answer (k : BlockKey) (off n : Z) (bs : list byte) : Prop := zlen bs = n /\ agrees k off bs.

(** A read that the backend and the state of the store let succeed. *)
Definition served (k : BlockKey) (off n : Z) : Prop :=
  live /\ K k /\ exists c, content B k = Some c /\ off + n <= zlen c.

Lemma spec_require (must : Prop) k off n actual : (must -> actual = n) ->
  spec must (io_lift (require_complete_read k off n actual)) (fun _ => actual = n).
Proof.
  intros H s Hs. split; [done|]. cbn. unfold require_complete_read. destruct (Z.eqb_spec actual n); [done|auto].
Qed.

Lemma spec_live {A} k off n (m : io A) Q : spec live m Q -> spec (served k off n) m Q.
Proof. intros H. eapply spec_weaken; [exact H|by intros [? _]|done]. Qed.

Lemma copied_pages k off n inner pages : 0 <= off -> 0 < n -> off + n <= block_size cfg ->
  let start_page := off / page_size cfg in
  let end_page := (off + n - 1) / page_size cfg in
  Forall2 (page_ok k) (seqZ start_page (end_page - start_page + 1)) pages ->
  (forall q, q < end_page -> inner q = page_size cfg) ->
  let acc := copy_pages cfg off n start_page end_page inner (replicate (Z.to_nat n) Byte.x00, 0) start_page pages in
  zlen acc.1 = n /\ (acc.2 = n -> agrees k off acc.1) /\ (served k off n -> acc.2 = n).
Proof.
  intros Ho Hn Hin start_page end_page Hp Hi acc.
  assert (start_page <= end_page) by (apply Z.div_le_mono; [apply (bo_page Hok)|lia]).
  assert (zlen pages = end_page - start_page + 1) as Hlen.
  { apply Forall2_length in Hp. rewrite length_seqZ in Hp. lia. }
  assert (copied k off n (end_page + 1) acc) as Hc.
  { apply copy_pages_spec; [done|done|done|by apply copied_start|fold start_page; lia|fold start_page end_page; lia| |done].
    by rewrite Hlen. }
  split; [by destruct Hc|]. destruct (copied_all k off n Ho Hn Hin acc Hc) as [Ha Hl]. split; [done|].
  intros (? & ? & ?). auto.
Qed.

Lemma spec_copied k off n acc : zlen acc.1 = n -> (acc.2 = n -> agrees k off acc.1) ->
  (served k off n -> acc.2 = n) ->
  spec (served k off n) (io_lift (require_complete_read k off n acc.2)) (fun _ => answer k off n acc.1).
Proof. intros Hl Ha Hs. eapply spec_weaken; [by apply spec_require|done|]. intros ? H. split; auto. Qed.

Lemma last_page off n q : 0 <= off -> 0 < n -> off + n <= block_size cfg ->
  q <= (off + n - 1) / page_size cfg -> q * page_size cfg < block_size cfg.
Proof.
  intros Ho Hn Hin Hq. pose proof (bo_page Hok) as Hps.
  pose proof (Z.mul_div_le (off + n - 1) (page_size cfg) Hps). nia.
Qed.

Lemma inner_page off n q : 0 <= off -> 0 < n -> off + n <= block_size cfg ->
  q < (off + n - 1) / page_size cfg -> page_len cfg q = page_size cfg.
Proof.
  intros Ho Hn Hin Hq. pose proof (last_page off n (q + 1) Ho Hn Hin ltac:(lia)).
  unfold page_len, page_end. lia.
Qed.

Lemma spec_read_cached_pages k off n : 0 <= off -> 0 < n -> off + n <= block_size cfg ->
  spec (served k off n) (read_cached_pages cfg k off n) (hit k off n).
Proof.
  intros Ho Hn Hin. eapply spec_bind; [apply spec_pages_get|]. intros [pages|] Hp; [|by apply spec_ret].
  specialize (Hp pages eq_refl). apply (Forall2_impl _ (page_ok k)) in Hp; [|by intros ? ? [_ ?]].
  destruct (copied_pages k off n (fun _ => page_size cfg) pages Ho Hn Hin Hp ltac:(done)) as (Hl & Ha & Hs).
  destruct (copy_pages _ _ _ _ _ _ _ _) as [buf total]. eapply spec_bind; [by apply (spec_copied k off n (buf, total))|].
  intros _ [? ?]. apply spec_ret. by apply hit_Some.
Qed.

(** *** Admission *)

Lemma spec_admit must k range_start fetched len idxs : 0 <= range_start -> agrees k range_start fetched ->
  Forall (fun p => 0 <= p /\ range_start <= p * page_size cfg /\ len p = page_len cfg p /\ 0 <= len p) idxs ->
  spec must (admit_pages cfg k range_start len fetched idxs) (fun _ => True).
Proof.
  intros Hr Ha. induction 1 as [|p idxs (Hp & Hge & Hlen & Hpos) _ IH]; cbn [admit_pages]; [by apply spec_ret|].
  apply (spec_bind must _ _ (fun _ => True)); [|intros _ _; apply IH]. destruct (Z.leb_spec (p * page_size cfg - range_start + len p) (zlen fetched)); [|by apply spec_ret].
  apply spec_set. intros s Hs. apply inv_page; [done|done| |].
  - rewrite length_subrange by lia. done.
  - replace (p * page_size cfg) with (range_start + (p * page_size cfg - range_start)) at 1 by lia.
    apply agrees_subrange; [done|lia|done].
Qed.

Lemma run_idxs len p q : 0 <= p -> q * page_size cfg < block_size cfg -> (forall r, p <= r <= q -> len r = page_len cfg r) ->
  Forall (fun r => 0 <= r /\ p * page_size cfg <= r * page_size cfg /\ len r = page_len cfg r /\ 0 <= len r)
    (seqZ p (q - p + 1)).
Proof.
  intros Hp Hq Hlen. pose proof (bo_page Hok) as Hps. apply Forall_forall. intros r Hr%elem_of_seqZ.
  rewrite Hlen by lia. unfold page_len, page_end. split_and!; [lia|nia|done|nia].
Qed.

(** A response to a request for the pages [p] to [q]. *)
Definition response (k : BlockKey) (p q : Z) (bs : list byte) : Prop :=
  agrees k (p * page_size cfg) bs /\ covers_to k (p * page_size cfg) (page_end cfg q) bs.

Lemma response_flight k p q s bs : inv s -> range_flight (flights s) !! (k, p, q) = Some bs -> response k p q bs.
Proof.
  intros [Hc _ Hr _] H. split; [by eapply co_range_flight|]. intros Hl Hk c Hcont. by eapply (Hr k).
Qed.

Lemma response_publish k p q s bs : inv s -> response k p q bs -> inv (with_flights (set_range_flight (k, p, q) bs) s).
Proof. intros Hs [? ?]. by apply inv_range_flight. Qed.

(** A shared range request that admits what it gets to the page cache. *)
Lemma spec_range_request k layout base p q len : layout_good k layout -> range_base_offset cfg layout = Some base ->
  0 <= p <= q -> q * page_size cfg < block_size cfg -> (forall r, p <= r <= q -> len r = page_len cfg r) ->
  spec live (execute (fun s => range_flight (flights s) !! (k, p, q))
      (fun data => with_flights (set_range_flight (k, p, q) data))
      (let* fetched := get_object_range (object_key_for k layout) (base + p * page_size cfg) (page_end cfg q - p * page_size cfg) in
       admit_pages cfg k (p * page_size cfg) len fetched (seqZ p (q - p + 1)) ;* io_ret fetched))
    (fun r => response k p q r.2).
Proof.
  intros [Hls HK] Hb Hp Hq Hlen. pose proof (bo_page Hok) as Hps.
  eapply spec_weaken; [apply (spec_execute live _ _ _ (response k p q))|done|done]; [done| | |].
  - intros s bs. apply response_flight.
  - eapply spec_bind; [apply range_read_spec; try done; unfold page_end; nia|].
    intros bs (Ha & _ & Hc). apply spec_then.
    + apply spec_admit; [nia|done|]. apply run_idxs; [lia|lia|done].
    + split; [done|]. by replace (page_end cfg q) with (p * page_size cfg + (page_end cfg q - p * page_size cfg)) by lia.
  - intros s bs Hs Hr. by apply response_publish.
Qed.

(** *** Filling the missing pages *)

Lemma response_page k p q r bs : response k p q bs -> 0 <= p <= r -> r <= q -> r * page_size cfg < block_size cfg ->
  page_ok k r (let local_start := r * page_size cfg - p * page_size cfg in
    if local_start <? zlen bs
    then subrange bs local_start (Z.min (local_start + page_len cfg r) (zlen bs) - local_start) else []).
Proof.
  intros [Ha Hc] Hp Hq Hr. pose proof (bo_page Hok) as Hps. cbn zeta. set (local_start := _ - _).
  assert (0 <= local_start /\ 0 <= p * page_size cfg) as [Hl Hp0] by (unfold local_start; nia).
  assert (page_end cfg r <= page_end cfg q /\ r * page_size cfg <= page_end cfg r) as [He Her] by (unfold page_end; nia).
  assert (r * page_size cfg = p * page_size cfg + local_start) as Er by (unfold local_start; lia).
  unfold page_ok, covers_to. rewrite Er in *. destruct (Z.ltb_spec local_start (zlen bs)); (split; [|intros Hlv Hk c Hcont; specialize (Hc Hlv Hk c Hcont)]).
  - by apply agrees_subrange.
  - assert (local_start + page_len cfg r = page_end cfg r - p * page_size cfg) as E by (unfold page_len; lia).
    rewrite length_subrange; lia.
  - apply agrees_nil.
  - cbn [length]. lia.
Qed.

Lemma spec_run_pages must k p q bs : response k p q bs -> 0 <= p -> q * page_size cfg < block_size cfg ->
  forall idxs, Forall (fun r => p <= r <= q) idxs ->
  spec must (run_pages cfg k (p * page_size cfg) bs idxs) (Forall2 (page_ok k) idxs).
Proof.
  intros Hr Hp Hq idxs. pose proof (bo_page Hok) as Hps.
  induction 1 as [|r idxs Hri _ IH]; cbn [run_pages]; [apply spec_ret; constructor|].
  eapply spec_bind; [apply spec_page_get|]. intros cached Hc. eapply spec_bind; [apply IH|]. intros pages Hpages.
  apply spec_ret. constructor; [|done]. destruct cached as [page|]; [by apply Hc|].
  apply (response_page k p q r bs); [done|lia|lia|nia].
Qed.

Lemma spec_fetch_range k layout base p q : layout_good k layout -> range_base_offset cfg layout = Some base ->
  0 <= p <= q -> q * page_size cfg < block_size cfg ->
  spec live (fetch_range cfg k (object_key_for k layout) base p q) (response k p q).
Proof.
  intros Hl Hb Hp Hq. eapply spec_bind; [by apply spec_range_request|]. intros r Hr. by apply spec_ret.
Qed.

Lemma missing_run_le pages : (missing_run pages <= length pages)%nat.
Proof. induction pages as [|[] pages IH]; cbn; lia. Qed.

(** As many rounds as pages are enough. *)
Lemma fill_pages_fuel k object base : forall fuel pages p s, (length pages <= fuel)%nat ->
  fill_pages cfg fuel k object base p pages s = fill_pages cfg (length pages) k object base p pages s.
Proof.
  assert (forall f1 f2 pages p s, (length pages <= f1)%nat -> (length pages <= f2)%nat ->
    fill_pages cfg f1 k object base p pages s = fill_pages cfg f2 k object base p pages s) as H; [|by intros; apply H].
  induction f1 as [|f1 IH]; intros f2 [|page pages] p s H1 H2; cbn [length] in *; try lia; try (by destruct f2).
  destruct f2 as [|f2]; [lia|]. destruct page as [page|]; cbn [fill_pages]; unfold io_bind.
  - by rewrite (IH f2) by lia.
  - destruct (fetch_range _ _ _ _ _ _ _) as [[bs|] s1]; [|done]. destruct (run_pages _ _ _ _ _ _) as [[run|] s2]; [|done].
    by rewrite (IH f2) by (rewrite length_drop; lia).
Qed.

Definition cached_ok (k : BlockKey) (p : Z) (o : option (list byte)) : Prop := forall page, o = Some page -> page_ok k p page.

Lemma spec_fill_pages k layout base : layout_good k layout -> range_base_offset cfg layout = Some base ->
  forall fuel pages p, (length pages <= fuel)%nat -> 0 <= p -> (p + zlen pages - 1) * page_size cfg < block_size cfg ->
  Forall2 (cached_ok k) (seqZ p (zlen pages)) pages ->
  spec live (fill_pages cfg fuel k (object_key_for k layout) base p pages) (Forall2 (page_ok k) (seqZ p (zlen pages))).
Proof.
  intros Hl Hb. pose proof (bo_page Hok) as Hps.
  induction fuel as [|fuel IH]; intros [|page pages] p Hfuel Hp Hin Hf; cbn [length] in *; try lia.
  1,2: apply spec_ret; constructor.
  rewrite seqZ_cons in Hf |- * by lia. inversion_clear Hf as [|? ? ? ? Hpage Hrest].
  replace (Z.pred (Z.of_nat (S (length pages)))) with (zlen pages) in * by lia. replace (Z.succ p) with (p + 1) in * by lia.
  destruct page as [page|]; cbn [fill_pages].
  - eapply spec_bind; [apply IH; [lia|lia|nia|done]|]. intros filled Hfilled. apply spec_ret. constructor; [by apply Hpage|done].
  - pose proof (missing_run_le pages) as Hm. set (more := missing_run pages) in *.
    assert ((p + Z.of_nat more) * page_size cfg < block_size cfg) as Hq by nia.
    eapply spec_bind; [apply spec_fetch_range; [done|done|lia|done]|]. intros bs Hbs.
    eapply spec_bind; [apply (spec_run_pages live k p (p + Z.of_nat more)); [done|lia|done|]|].
    { apply Forall_forall. intros r Hr%elem_of_seqZ. lia. }
    intros run Hrun. assert (zlen pages = Z.of_nat more + zlen (drop more pages)) as Hlen by (rewrite length_drop; lia).
    rewrite Hlen, seqZ_app in Hrest |- * by lia. apply Forall2_app_inv_l in Hrest as (l1 & l2 & Hl1 & Hl2 & E).
    eapply spec_bind; [apply (IH (drop more pages))|]; [rewrite length_drop; lia|lia|rewrite length_drop; nia| |].
    + apply Forall2_length in Hl1. rewrite length_seqZ in Hl1. assert (drop more pages = l2) as Ed.
      { rewrite E. apply drop_app_length'. lia. }
      rewrite Ed in *. by replace (p + Z.of_nat more + 1) with (p + 1 + Z.of_nat more) by lia.
    + intros filled Hfilled. apply spec_ret. rewrite (seqZ_cons p) in Hrun by lia.
      replace (Z.succ p) with (p + 1) in Hrun by lia. replace (Z.pred (Z.of_nat more + 1)) with (Z.of_nat more) in Hrun by lia.
      replace (p + Z.of_nat more + 1) with (p + 1 + Z.of_nat more) in Hfilled by lia.
      change (p :: ?a ++ ?b) with ((p :: a) ++ b). by apply Forall2_app.
Qed.

(** *** Blocks made of pages *)

Lemma agrees_app k off d d' : 0 <= off -> agrees k off d -> agrees k (off + zlen d) d' -> agrees k off (d ++ d').
Proof.
  intros Ho H H' i b [Hb|[Hi Hb]]%lookup_app_Some; [by apply H|]. destruct (H' _ _ Hb) as (c & Hc & Hx).
  exists c. split; [done|]. rewrite <-Hx. f_equal. lia.
Qed.

Lemma concat_pages k : forall pages p, 0 <= p -> (p + zlen pages - 1) * page_size cfg < block_size cfg ->
  Forall2 (fun p page => zlen page = page_len cfg p /\ page_ok k p page) (seqZ p (zlen pages)) pages ->
  agrees k (p * page_size cfg) (concat pages) /\
  (pages <> [] -> zlen (concat pages) = page_end cfg (p + zlen pages - 1) - p * page_size cfg).
Proof.
  pose proof (bo_page Hok) as Hps. induction pages as [|page pages IH]; intros p Hp Hin Hf; [split; [apply agrees_nil|done]|].
  cbn [length concat] in *. rewrite seqZ_cons in Hf by lia. inversion_clear Hf as [|? ? ? ? [Hlen [Ha _]] Hrest].
  replace (Z.pred (Z.of_nat (S (length pages)))) with (zlen pages) in Hrest by lia. replace (Z.succ p) with (p + 1) in Hrest by lia.
  destruct (IH (p + 1)) as [Har Hlr]; [lia|nia|done|]. destruct pages as [|page' pages].
  - rewrite app_nil_r. split; [done|]. intros _. rewrite Hlen. unfold page_len. do 3 f_equal. cbn. lia.
  - assert (zlen page = page_size cfg) as Hfull.
    { rewrite Hlen. unfold page_len, page_end. cbn [length] in Hin. nia. }
    split.
    + apply agrees_app; [nia|done|]. rewrite Hfull. by replace (p * page_size cfg + page_size cfg) with ((p + 1) * page_size cfg) by lia.
    + intros _. rewrite length_app, Nat2Z.inj_add, Hlr, Hfull by done. set (m := page' :: pages).
      replace (p + Z.of_nat (S (length m)) - 1) with (p + 1 + zlen m - 1) by lia. lia.
Qed.

(** As many bytes as a block has determine it. *)
Lemma agrees_whole k d : agrees k 0 d -> zlen d = block_size cfg -> content B k = Some d.
Proof.
  intros Ha Hl. pose proof (bo_block Hok). destruct (lookup_lt_is_Some_2 d 0) as [b0 Hb0]; [lia|].
  destruct (Ha _ _ Hb0) as (c & Hc & _). rewrite Hc. f_equal. pose proof (bo_fits Hok k c Hc) as Hfit.
  apply list_eq_same_length with (length d); [done| |].
  - destruct (lookup_lt_is_Some_2 d (length d - 1)) as [b Hb]; [lia|]. destruct (Ha _ _ Hb) as (c' & Hc' & Hx).
    apply lookup_lt_Some in Hx. assert (c' = c) as -> by congruence. lia.
  - intros i x y Hi Hx Hy. destruct (Ha _ _ Hy) as (c' & Hc' & Hx'). assert (c' = c) as -> by congruence.
    change (Z.to_nat 0 + i)%nat with i in Hx'. congruence.
Qed.

Lemma spec_promote_pages must k : spec must (try_promote_page_cache_to_block_cache cfg k) (fun _ => True).
Proof.
  eapply spec_bind; [apply spec_pages_get|]. intros [pages|] Hp; [|by apply spec_ret]. specialize (Hp pages eq_refl).
  pose proof (bo_page Hok) as Hps. pose proof (bo_block Hok) as Hbs.
  set (count := div_ceil (block_size cfg) (page_size cfg)) in *.
  assert (1 <= count /\ (count - 1) * page_size cfg < block_size cfg <= count * page_size cfg) as (H1 & H2 & H3).
  { pose proof (div_ceil_spec (block_size cfg) (page_size cfg)) as H. fold count in H. split; [nia|]. apply H; lia. }
  assert (zlen pages = count) as Hlen by (apply Forall2_length in Hp; rewrite length_seqZ in Hp; lia).
  rewrite <-Hlen in *.
  destruct (concat_pages k pages 0) as [Ha Hl]; [lia|nia|done|]. rewrite Z.mul_0_l in *.
  assert (zlen (concat pages) = block_size cfg) as Hz.
  { rewrite Hl by (by destruct pages). unfold page_end. nia. }
  rewrite firstn_all2 by lia. apply spec_then; [|done]. by apply spec_insert_opportunistic, agrees_whole.
Qed.

(** *** Hints *)

Lemma spec_hints must f : (forall h, prefetches (f h) = prefetches h) -> spec must (io_set (with_hints f)) (fun _ => True).
Proof. intros Hf. apply spec_set. intros s Hs. apply inv_hints; [done|]. intros k o layout. rewrite Hf. by left. Qed.

Lemma spec_any {A} must (f : ObjectBlockStore -> option A) : spec must (evicting_get f) (fun _ => True).
Proof. eapply spec_weaken; [apply (spec_evicting must f (fun _ => True))|done|done]. done. Qed.

Lemma spec_continues must k off n : spec must (sparse_read_continues_stream cfg k off n) (fun _ => True).
Proof.
  eapply spec_bind; [apply spec_any|]. intros previous _. eapply spec_bind; [by apply spec_hints|]. intros _ _.
  case_bool_decide; [by apply spec_ret|]. destruct (_ && _); [|by apply spec_ret].
  eapply spec_bind; [apply spec_any|]. intros before _. by apply spec_ret.
Qed.

Lemma spec_dense must slice : spec must (sparse_miss_makes_slice_dense slice) (fun _ => True).
Proof.
  eapply spec_bind; [apply spec_choose|]. intros c _. eapply spec_bind; [by apply (spec_get must _ (fun _ => True))|].
  intros current _. apply spec_then; [by apply spec_hints|done].
Qed.

Lemma spec_spawn must k layout : layout_good k layout ->
  spec must (prefetch_full_block_background k (object_key_for k layout) layout) (fun _ => True).
Proof.
  intros [_ Hl]. apply spec_set. intros s Hs. apply inv_hints; [done|]. cbn.
  intros k' o layout' [?|[= -> -> ->]%list_elem_of_singleton]%elem_of_app; auto.
Qed.

Lemma spec_after_miss must k layout allow : layout_good k layout ->
  spec must (after_range_miss cfg k (object_key_for k layout) layout allow) (fun _ => True).
Proof.
  intros Hl. apply (spec_bind must _ _ (fun _ => True)); [case_bool_decide; [apply spec_dense|by apply spec_ret]|].
  intros dense _. destruct (negb _); [by apply spec_ret|]. eapply spec_bind; [apply spec_promote_pages|]. intros promoted _.
  destruct (_ && _); [by apply spec_spawn|by apply spec_ret].
Qed.

(** *** The page-granular path *)

Lemma aligned_pages off n : 0 <= off -> 0 < n -> off + n <= block_size cfg ->
  off mod page_size cfg = 0 -> n mod page_size cfg = 0 ->
  let start_page := off / page_size cfg in
  let end_page := (off + n - 1) / page_size cfg in
  start_page * page_size cfg = off /\ page_end cfg end_page = off + n /\
  (forall r, start_page <= r <= end_page -> page_size cfg = page_len cfg r).
Proof.
  intros Ho Hn Hin Hm1 Hm2 start_page end_page. pose proof (bo_page Hok) as Hps.
  pose proof (Z.div_mod off (page_size cfg) ltac:(lia)) as H1. pose proof (Z.div_mod n (page_size cfg) ltac:(lia)) as H2.
  assert (end_page = start_page + n / page_size cfg - 1) as E.
  { unfold end_page, start_page. symmetry. apply Z.div_unique with (page_size cfg - 1); lia. }
  fold start_page in H1. set (m := n / page_size cfg) in *. rewrite Hm1, Hm2, Z.add_0_r in *. clearbody start_page m end_page.
  assert (page_end cfg end_page = off + n) as He by (unfold page_end; subst end_page; nia).
  split_and!; [lia|done|]. intros r Hr. unfold page_len, page_end. nia.
Qed.

Section ranges.
Context (k : BlockKey) (off n : Z) (layout : ObjectLayout) (base : Z) (allow : bool).
Context (Hoff : 0 <= off) (Hn : 0 < n) (Hin : off + n <= block_size cfg).
Context (Hl : layout_good k layout) (Hb : range_base_offset cfg layout = Some base).

Let start_page := off / page_size cfg.
Let end_page := (off + n - 1) / page_size cfg.

Lemma pages_in_block : 0 <= start_page <= end_page /\ end_page * page_size cfg < block_size cfg.
Proof.
  pose proof (bo_page Hok) as Hps. split; [|by apply (last_page off n)].
  split; [apply Z.div_pos; lia|apply Z.div_le_mono; lia].
Qed.

Lemma spec_aligned : off mod page_size cfg = 0 -> n mod page_size cfg = 0 ->
  spec live (execute (fun s => range_flight (flights s) !! (k, start_page, end_page))
      (fun data => with_flights (set_range_flight (k, start_page, end_page) data))
      (let* fetched := get_object_range (object_key_for k layout) (base + off) n in
       admit_pages cfg k off (fun _ => page_size cfg) fetched (seqZ start_page (end_page - start_page + 1)) ;* io_ret fetched))
    (fun r => agrees k off r.2 /\ covers_to k off (off + n) r.2).
Proof.
  intros Hm1 Hm2. destruct pages_in_block. destruct (aligned_pages off n Hoff Hn Hin Hm1 Hm2) as (Es & Ee & Hlens).
  fold start_page end_page in Es, Ee, Hlens.
  pose proof (spec_range_request k layout base start_page end_page (fun _ => page_size cfg) Hl Hb) as H1.
  unfold response in H1. rewrite Es, Ee in H1. replace (off + n - off) with n in H1 by lia. by apply H1.
Qed.

Lemma spec_read_ranges : spec (served k off n) (read_ranges cfg k off n layout base allow) (answer k off n).
Proof.
  unfold read_ranges. fold start_page end_page. destruct pages_in_block as [Hse Hend].
  eapply spec_bind; [apply spec_lookup_pages|]. intros pages Hpages.
  assert (zlen pages = end_page - start_page + 1) as Hlen.
  { apply Forall2_length in Hpages. rewrite length_seqZ in Hpages. lia. }
  destruct (_ && forallb _ _) eqn:E.
  - apply andb_prop in E as [[Hm1%Z.eqb_eq Hm2%Z.eqb_eq]%andb_prop _].
    eapply spec_bind; [by apply spec_live, spec_aligned|]. intros r [Ha Hc].
    eapply spec_bind; [apply spec_require|].
    { intros (Hlv & HK & c & Hcont & Hcl). specialize (Hc Hlv HK c Hcont). rewrite length_take. lia. }
    intros ? Hn'. apply spec_then; [by apply spec_after_miss|]. split; [done|]. by apply agrees_take.
  - rewrite <-Hlen in Hpages. eapply spec_bind.
    { apply spec_live, (spec_fill_pages k layout base Hl Hb (length pages) pages start_page); [done|lia| |done].
      rewrite Hlen. by replace (start_page + (end_page - start_page + 1) - 1) with end_page by lia. }
    intros filled Hf. rewrite Hlen in Hf.
    destruct (copied_pages k off n (page_len cfg) filled Hoff Hn Hin Hf) as (Hz & Ha & Hs).
    { intros q Hq. by apply (inner_page off n). }
    fold start_page end_page in Hz, Ha, Hs. destruct (copy_pages _ _ _ _ _ _ _ _) as [buf total].
    eapply spec_bind; [by apply (spec_copied k off n (buf, total))|]. intros ? Hans.
    apply spec_then; [|done]. destruct (existsb _ _); [by apply spec_after_miss|by apply spec_ret].
Qed.
End ranges.

(** ** Whole blocks *)

(** What a request for a whole block answers; empty if there is no such block. *)
Definition block_ok (k : BlockKey) (d : list byte) : Prop :=
  (d = [] \/ content B k = Some d) /\ (K k -> content B k = Some d).

Lemma block_content k d : content B k = Some d -> block_ok k d.
Proof. split; auto. Qed.

Lemma flight_block k s d : inv s -> read_flight (flights s) !! k = Some d -> block_ok k d.
Proof. intros [Hc Hr _ _] H. split; [by apply (co_read_flight s Hc)|]. intros HK. by apply (re_read_flight s k (Hr k HK)). Qed.

Lemma spec_copy_out k off n d : 0 <= off -> 0 < n -> block_ok k d ->
  spec (served k off n) (copy_out k off n d) (answer k off n).
Proof.
  intros Ho Hn [Hd HK]. unfold copy_out. set (len := if off <? zlen d then _ else _).
  eapply spec_bind; [apply spec_require|].
  { intros (_ & Hk & c & Hc & Hl). assert (c = d) as -> by (specialize (HK Hk); congruence).
    unfold len. destruct (Z.ltb_spec off (zlen d)); lia. }
  intros ? Hlen. apply spec_ret. assert (off + n <= zlen d) as Hin by (unfold len in Hlen; destruct (Z.ltb_spec off (zlen d)); lia).
  rewrite Hlen. destruct Hd as [->|Hd]; [cbn in Hin; lia|].
  destruct (copied_hit k off n d Ho ltac:(lia) Hd (subrange d off n)); [|done].
  unfold copy_full_cached_range. by destruct (Z.ltb_spec (zlen d) (off + n)); [lia|].
Qed.

(** What a request ends with when the block was downloaded. *)
Lemma spec_downloaded must k fetched : whole k fetched -> (K k -> fetched <> None) ->
  spec must (match fetched with
    | Some data => (if bool_decide (data = []) then io_ret tt else insert_opportunistic cfg (key_for k) data) ;* io_ret data
    | None => io_ret [] end) (block_ok k).
Proof.
  intros Hw HK. destruct fetched as [d|].
  - specialize (Hw d eq_refl). apply spec_then; [|by apply block_content].
    case_bool_decide; [by apply spec_ret|by apply spec_insert_opportunistic].
  - apply spec_ret. split; [by left|]. intros Hk. by destruct (HK Hk).
Qed.

Lemma spec_block_layout k layout skip : (forall l, layout = Some l -> K k -> l <> Legacy) ->
  spec live (match layout with
    | Some layout => io_ret layout
    | None => if skip : bool then let* cached := evicting_get (fun s => format_cache s !! k) in
                             io_ret (default (Versioned NoCompression) cached)
              else resolve_object_layout cfg k end) (fun l => K k -> l <> Legacy).
Proof.
  intros Hl. destruct layout as [l|]; [apply spec_ret; by apply Hl|]. destruct skip.
  - eapply spec_bind; [apply (spec_evicting live _ (fun l => K k -> l <> Legacy))|].
    + intros s l [_ Hr _ _] E Hk ->. by apply (re_format s k (Hr k Hk)).
    + intros [l|] H; apply spec_ret; [by apply H|done].
  - eapply spec_weaken; [apply spec_resolve|done|]. by intros l [_ ?].
Qed.

Lemma spec_fetch_block k layout skip : (forall l, layout = Some l -> K k -> l <> Legacy) ->
  spec live (fetch_block cfg k layout skip) (block_ok k).
Proof.
  intros Hl. eapply spec_bind; [apply spec_cache_get|].
  intros [d|] Hd; [apply spec_ret, block_content; by apply Hd|].
  eapply spec_bind; [by apply spec_block_layout|]. intros l HK.
  eapply spec_bind; [apply spec_full_object|]. intros fetched [Hw Hn].
  apply (spec_bind live _ _ (fun fetched => whole k fetched /\ (K k -> fetched <> None))).
  - destruct (_ && _) eqn:E; [|apply spec_ret; split; [done|]; intros Hk ->; by apply (HK Hk), Hn].
    apply andb_prop in E as [[[E%bool_decide_eq_true _]%andb_prop _]%andb_prop Ev].
    assert (~ K k) as HnK by (intros Hk; specialize (Hn E Hk); by subst l).
    eapply spec_bind; [apply (spec_full_object k Legacy)|]. intros fetched' [Hw' _].
    apply spec_then; [|by split]. by apply spec_cache_format.
  - intros fetched' [Hw' Hn']. by apply spec_downloaded.
Qed.

Lemma spec_shared_block k leader : spec live leader (block_ok k) ->
  spec live (execute (fun s => read_flight (flights s) !! k) (fun d => with_flights (set_read_flight k d)) leader)
    (fun r => block_ok k r.2).
Proof.
  intros Hl. apply spec_execute; [done|intros s d; apply flight_block|done|]. intros s d Hs [? ?]. by apply inv_read_flight.
Qed.

Lemma spec_read_full k off n layout skip : 0 <= off -> 0 < n -> (forall l, layout = Some l -> K k -> l <> Legacy) ->
  spec (served k off n) (read_full cfg k off n layout skip) (answer k off n).
Proof.
  intros Ho Hn Hl. eapply spec_bind; [by apply spec_live, spec_shared_block, spec_fetch_block|].
  intros r Hr. by apply spec_copy_out.
Qed.

Lemma spec_prefetch k layout : (K k -> layout <> Legacy) ->
  spec live (prefetch_task cfg k (object_key_for k layout) layout) (fun _ => True).
Proof.
  intros Hl. eapply spec_bind; [apply spec_cache_get|]. intros [d|] _; [by apply spec_ret|].
  eapply spec_bind; [apply spec_choose|]. intros permit _. destruct (negb _); [by apply spec_ret|].
  eapply spec_bind; [apply (spec_shared_block k)|intros; by apply spec_ret].
  eapply spec_bind; [apply spec_cache_get|]. intros [d|] Hd; [apply spec_ret, block_content; by apply Hd|].
  eapply spec_bind; [apply spec_full_object|]. intros fetched [Hw Hn]. apply spec_downloaded; [done|].
  intros Hk E. by apply (Hl Hk), Hn.
Qed.

(** ** Staged slices *)

Lemma spec_staged must k off n : 0 <= k.2 -> 0 <= off -> 0 < n -> off + n <= block_size cfg ->
  spec must (read_persistent_slice_cache cfg k off n) (hit k off n).
Proof.
  intros Hb Ho Hn Hin. unfold read_persistent_slice_cache. destruct (negb _); [by apply spec_ret|].
  eapply spec_bind; [apply spec_choose|]. intros c _.
  eapply (spec_bind must _ _ (fun file => forall f, file = Some f -> k.2 * block_size cfg < zlen f ->
    content B k = Some (subrange f (k.2 * block_size cfg) (Z.min (block_size cfg) (zlen f - k.2 * block_size cfg))))).
  { apply spec_get. intros s [Hc _ _ _] f Hf Hlt. destruct k as [id b]. by apply (co_file s Hc). }
  intros file Hf. destruct (ch_fails c); [by apply spec_ret|]. apply spec_ret. intros bs.
  destruct file as [f|]; [|done]. unfold u64_checked_mul, u64_checked_add. cbn.
  destruct (_ <? u64_modulus); [|done]. cbn. destruct (_ <? u64_modulus); [|done]. cbn.
  unfold copy_full_cached_range. set (from := k.2 * block_size cfg) in *.
  destruct (Z.ltb_spec (zlen f) (from + off + n)); [done|]. intros [= <-]. specialize (Hf f eq_refl ltac:(lia)).
  pose proof (bo_block Hok) as Hbs. assert (0 <= from) by (unfold from; nia).
  destruct (copied_hit k off n _ Ho ltac:(lia) Hf (subrange f (from + off) n)); [|done].
  unfold copy_full_cached_range. rewrite length_subrange by lia.
  destruct (Z.ltb_spec (Z.min (block_size cfg) (zlen f - from)) (off + n)); [lia|]. by rewrite subrange_subrange by lia.
Qed.

Lemma spec_read_local must k off n : 0 <= k.2 -> 0 <= off -> 0 < n -> off + n <= block_size cfg ->
  spec must (read_local cfg k off n) (hit k off n).
Proof.
  intros Hb Ho Hn Hin. apply (spec_bind must _ _ (hit k off n)).
  - destruct (_ && _); [|apply spec_range_into; lia]. eapply spec_bind; [apply spec_cache_get|]. intros cached Hc.
    apply spec_ret. destruct cached as [d|]; [|done]. cbn. unfold u64_saturating_sub.
    destruct (Z.leb_spec n (Z.max 0 (zlen d - off))); [|done]. intros bs [= <-].
    eapply (copied_hit k off n d); [lia|lia|by apply Hc|].
    unfold copy_full_cached_range. by destruct (Z.ltb_spec (zlen d) (off + n)); [lia|].
  - intros [bs|] Hh; [by apply spec_ret|]. eapply spec_bind; [by apply spec_staged|].
    intros [bs|] Hs; [|by apply spec_ret]. destruct (Hs bs eq_refl) as [Hl Ha]. apply spec_then; [|done].
    destruct (Z.eqb_spec off 0) as [->|]; [|by apply spec_ret]. destruct (Z.leb_spec (block_size cfg) n); [|by apply spec_ret].
    apply spec_insert_recent, agrees_whole; [done|lia].
Qed.

(** ** Shared objects *)

Lemma spec_fail {A} e (Q : A -> Prop) : spec False (io_err e) Q.
Proof. apply spec_err. tauto. Qed.

Lemma group_answer g data off n o withheld : group_object B g = Some o -> (data = Some o \/ data = None) ->
  zlen (range_answer data off n withheld) = n -> range_answer data off n withheld = subrange o off n.
Proof.
  intros Ho Hd Hn. destruct (range_answer_spec data off n withheld) as [Hp _].
  destruct Hd as [->| ->]; cbn [default] in Hp.
  - apply prefix_length_eq; [done|]. unfold subrange. rewrite length_take. lia.
  - assert (range_answer None off n withheld = []) as E.
    { unfold subrange in Hp. rewrite drop_nil, take_nil in Hp. by apply prefix_nil_inv in Hp. }
    rewrite E in Hn |- *. cbn in Hn. unfold subrange. by subst n.
Qed.

Lemma spec_group_object must key g : key = object_key g ->
  spec must (io_get (fun s => objects s !! key)) (fun data => forall o, data = Some o -> group_object B g = Some o).
Proof. intros ->. apply spec_get. intros s [Hc _ _ _] o. apply (co_group s Hc). Qed.

Lemma spec_group_entries g :
  spec False (group_entries digest g) (fun r => forall index w, r = Some (index, w) ->
    exists d, group_object B g = Some d /\ parse_index digest g d = Ok index /\ forall o, w = Some o -> o = d).
Proof.
  eapply spec_bind; [apply (spec_evicting False _ (fun index => exists d, group_object B g = Some d /\ parse_index digest g d = Ok index))|].
  { intros s index [Hc _ _ _]. apply (co_index s Hc). }
  intros [index|] Hi.
  { apply spec_ret. intros ? ? [= <- <-]. destruct (Hi index eq_refl) as (d & ? & ?). by exists d. }
  eapply spec_bind; [apply (spec_execute False _ _ _ (fun d => forall o, d = Some o -> group_object B g = Some o))|]; [done| | | |].
  - intros s d [Hc _ _ _] E o ->. by apply (co_group_flight s Hc).
  - eapply (spec_bind False _ _ (fun d => forall o, d = Some o -> group_object B g = Some o)).
    + eapply spec_bind; [apply spec_choose|]. intros c _. destruct (ch_fails c); [by apply spec_fail|].
      eapply spec_bind; [by apply (spec_group_object False _ g)|]. intros [o|] Ho; [|by apply spec_ret].
      destruct (_ <? _); [by apply spec_fail|by apply spec_ret].
    + intros [d|] Hd; [|by apply spec_ret]. destruct (parse_index _ _ _); [|by apply spec_fail].
      destruct (forallb _ _); [by apply spec_ret|by apply spec_fail].
  - intros s d Hs Hd. by apply inv_group_flight.
  - intros [b [d|]] Hd; cbn [snd] in *; [|by apply spec_ret]. specialize (Hd d eq_refl).
    destruct (parse_index digest g d) as [index|] eqn:E; [|by apply spec_fail]. apply spec_then.
    + apply spec_set. intros s Hs. apply inv_index; eauto.
    + intros ? ? [= <- <-]. exists d. split_and!; [done|done|]. by intros o [= <-].
Qed.

Lemma spec_read_coalesced k off n : 0 <= off -> 0 < n -> spec False (read_coalesced digest cfg k off n) (hit k off n).
Proof.
  intros Ho Hn. eapply spec_bind; [apply spec_cached_range; lia|]. intros [bs|] Hh; [by apply spec_ret|].
  destruct (decode_id k.1) as [[g slot]|] eqn:Hid; [|by apply spec_fail].
  eapply spec_bind; [apply spec_group_entries|]. intros [[index w]|] Hr; [|by apply spec_ret].
  destruct (Hr index w eq_refl) as (d & Hd & Hp & Hw). destruct (Z.eqb_spec k.2 0) as [Hk2|]; cbn [negb]; [|by apply spec_fail].
  destruct (index !! Z.to_nat slot) as [e|] eqn:He; [|by apply spec_fail].
  eapply (spec_bind False _ _ (fun f => f = subrange d (e_offset e) (e_stored e))).
  { destruct w as [o|]; [apply spec_ret; by rewrite (Hw o)|]. eapply (spec_bind False _ _ (fun bs => zlen bs = e_stored e -> bs = subrange d (e_offset e) (e_stored e))).
    - eapply spec_bind; [apply spec_choose|]. intros c _. destruct (ch_fails c); [by apply spec_fail|].
      eapply spec_bind; [by apply (spec_group_object False _ g)|]. intros data Hdata. apply spec_ret.
      apply (group_answer g); [done|]. destruct data as [o|]; [left; rewrite <-Hd; symmetry; by apply Hdata|by right].
    - intros bs Hbs. destruct (Z.eqb_spec (zlen bs) (e_stored e)); [apply spec_ret; auto|by apply spec_fail]. }
  intros f ->. destruct (decode_member _ _ _) as [c|] eqn:Hdec; [|by apply spec_fail].
  assert (content B k = Some c) as Hc.
  { destruct k as [id b]. cbn in Hk2, Hid. subst b. by apply (bo_group Hok g d index id slot e c). }
  eapply spec_bind; [by apply (spec_ret False c (fun c' => c' = c))|]. intros ? ->.
  eapply spec_bind; [by apply (spec_require False)|]. intros ? Hav.
  apply spec_then; [by apply spec_insert_opportunistic|]. intros bs [= <-].
  eapply (copied_hit k off n c); [done|lia|done|]. unfold copy_full_cached_range.
  destruct (Z.leb_spec (off + n) (zlen c)); [|lia]. by destruct (Z.ltb_spec (zlen c) (off + n)); [lia|].
Qed.

(** ** Reading *)

Lemma spec_read_remote k off n : 0 <= off -> 0 < n -> off + n <= block_size cfg ->
  spec (served k off n) (read_remote cfg k off n) (answer k off n).
Proof.
  intros Ho Hn Hin. apply (spec_bind _ _ _ (fun _ => True)).
  { destruct (_ && _); [|by apply spec_ret]. eapply spec_bind; [apply spec_continues|]. intros. by apply spec_ret. }
  intros sequential _. cbn zeta. destruct (negb (_ && negb _)); [by apply spec_read_full|].
  eapply spec_bind; [apply spec_live, (spec_join _ (block_ok k))|].
  { intros s d. apply flight_block. }
  intros [d|] Hd; [apply spec_copy_out; auto|]. eapply spec_bind; [by apply spec_read_cached_pages|].
  intros [bs|] Hbs; [apply spec_ret; by apply Hbs|]. eapply spec_bind; [apply spec_live, spec_resolve|]. intros layout Hl.
  destruct (range_base_offset cfg layout) eqn:E; [by apply spec_read_ranges|].
  apply spec_read_full; [done|done|]. intros l [= <-]. by apply Hl.
Qed.

Lemma spec_read_range k off n : 0 <= k.2 -> 0 <= off -> 0 < n -> off + n <= block_size cfg ->
  spec (served k off n) (ObjectStore.read_range digest cfg k off n) (answer k off n).
Proof.
  intros Hk Ho Hn Hin s Hs.
  assert (served k off n -> decode_id k.1 = None) as Hplain.
  { intros (_ & HK & _). apply (re_plain s k), (in_ready s Hs k HK). }
  revert s Hs. fold (spec (served k off n) (ObjectStore.read_range digest cfg k off n) (answer k off n)).
  unfold ObjectStore.read_range. destruct (Z.eqb_spec n 0); [lia|]. apply (spec_bind _ _ _ (hit k off n)).
  - destruct (_ && _) eqn:E; [|by apply spec_ret]. apply andb_prop in E as [_ E%bool_decide_eq_true].
    eapply spec_weaken; [by apply spec_read_coalesced| |done].
    intros Hsv. rewrite (Hplain Hsv) in E. by destruct E.
  - intros [bs|] Hh; [apply spec_ret; by apply Hh|]. eapply spec_bind; [by apply spec_read_local|].
    intros [bs|] Hh'; [apply spec_ret; by apply Hh'|by apply spec_read_remote].
Qed.

(** ** Changes of the stored objects *)

(** The object is one that may be stored under that name. *)
Definition may_store (key : string) (o : list byte) : Prop :=
  (forall k, key = versioned_key_for k -> frame B k = Some o) /\
  (forall k, key = key_for k -> legacy B k = Some o) /\
  (forall g, key = object_key g -> group_object B g = Some o).

Lemma may_store_frame k f : frame B k = Some f -> may_store (versioned_key_for k) f.
Proof using Type. intros H. split_and!; [by intros k' ->%versioned_key_inj|by intros k'|by intros g]. Qed.

Lemma may_store_group g o : group_object B g = Some o -> may_store (object_key g) o.
Proof using Type. intros H. split_and!; [by intros k'|by intros k'|by intros g' ->%object_key_inj]. Qed.

Lemma inv_put key o s : inv s -> may_store key o -> inv (with_objects <[key := o]> s).
Proof.
  intros [Hc Hr Hw Hq] (Hf & Hl & Hg). split; [destruct Hc; split; try done| |done|done].
  1-3: cbn; intros ? ? [[E <-]|[_ ?]]%lookup_insert_Some; eauto.
  intros k HK. destruct (Hr k HK) as [? (f & Hfr & Hs) ? ? ? ?]. split; try done. exists f. split; [done|]. cbn.
  destruct (decide (key = versioned_key_for k)) as [->|?]; [|by rewrite lookup_insert_ne].
  rewrite lookup_insert_eq. rewrite <-Hfr. symmetry. by apply Hf.
Qed.

Lemma inv_delete_object key s : inv s -> (forall k, K k -> key <> versioned_key_for k) -> inv (with_objects (delete key) s).
Proof.
  intros [Hc Hr Hw Hq] HK. split; [destruct Hc; split; try done| |done|done].
  1-3: cbn; intros ? ? [_ ?]%lookup_delete_Some; eauto.
  intros k Hk. destruct (Hr k Hk) as [? (f & Hfr & Hs) ? ? ? ?]. split; try done. exists f. split; [done|]. cbn.
  rewrite lookup_delete_ne; auto.
Qed.

Lemma spec_put key o : may_store key o -> spec False (put_object key o) (fun _ => True).
Proof.
  intros Ho. assert (spec False (io_set (with_objects <[key := o]>)) (fun _ => True)) as Hset.
  { apply spec_set. intros s Hs. by apply inv_put. }
  eapply spec_bind; [apply spec_choose|]. intros c _. destruct (ch_fails c); [|done].
  apply (spec_bind _ _ _ (fun _ => True)); [|intros; apply spec_fail]. destruct (ch_applied c); [done|by apply spec_ret].
Qed.

Lemma spec_delete key : (forall k, K k -> key <> versioned_key_for k) -> spec False (delete_object key) (fun _ => True).
Proof.
  intros Hk. assert (spec False (io_set (with_objects (delete key))) (fun _ => True)) as Hset.
  { apply spec_set. intros s Hs. by apply inv_delete_object. }
  eapply spec_bind; [apply spec_choose|]. intros c _. destruct (ch_fails c); [|done].
  apply (spec_bind _ _ _ (fun _ => True)); [|intros; apply spec_fail]. destruct (ch_applied c); [done|by apply spec_ret].
Qed.

(** ** Writing *)

Lemma spec_uploaded must k c : content B k = Some c -> spec must (store_uploaded_block cfg (key_for k) c) (fun _ => True).
Proof.
  intros Hc. eapply spec_bind; [apply spec_try_insert; auto|]. intros _ _. destruct (negb _); [by apply spec_ret|].
  apply spec_ignore, spec_try_insert; auto.
Qed.

(** What a write of [parts] at [off] makes of a fresh block. *)
Definition written (off : Z) (parts : list (list byte)) : list byte := replicate (Z.to_nat off) Byte.x00 ++ concat parts.

(** The write is the one the block comes from. *)
Definition writes (k : BlockKey) (off : Z) (parts : list (list byte)) : Prop :=
  0 <= off /\ content B k = Some (written off parts) /\
  frame B k = Some (encode_persisted_block (written off parts) (cfg_compression cfg)).

Lemma prepare_written off parts contiguous : 0 <= off ->
  exists u, prepare_persisted_upload (make_zero_bytes off ++ parts) (cfg_compression cfg) contiguous = Some u /\
    concat (chunks u) = encode_persisted_block (written off parts) (cfg_compression cfg) /\
    parse_persisted_header (concat (chunks u)) = Framed (compression u) /\
    (contiguous = true -> default [] (head (chunks u)) = concat (chunks u)) /\
    forall block, cache_block u = Some block -> block = written off parts.
Proof using Type.
  intros Ho. destruct (prepare_frame (make_zero_bytes off ++ parts) (cfg_compression cfg) contiguous) as (u & Hu & Hc & Hp & Hb).
  rewrite concat_app, make_zero_bytes_exact in Hc, Hb by done. fold (written off parts) in Hc, Hb.
  exists u. split_and!; [done|done|done| |].
  - intros ->. unfold prepare_persisted_upload in Hu. cbn [negb andb] in Hu.
    destruct (encode_persisted_block_vectored _ _) as [block f]. destruct (parse_persisted_header f); try done.
    injection Hu as <-. cbn. by rewrite app_nil_r.
  - intros block Hb'. destruct Hb as [Hb|[Hb _]]; congruence.
Qed.

Lemma spec_write k off parts : writes k off parts ->
  spec False (write_fresh_vectored_inner cfg k off parts) (fun n => n = zlen (concat parts)).
Proof.
  intros (Ho & Hc & Hf). unfold write_fresh_vectored_inner. destruct (Z.eqb_spec (zlen (concat parts)) 0); [by apply spec_ret|].
  destruct (prepare_written off parts (populate_write_cache_after_upload cfg || create_only_writes cfg) Ho) as (u & -> & Hu & Hp & Hh & Hb).
  pose proof (may_store_frame k _ Hf) as Hst. apply (spec_bind _ _ _ (fun _ => True)).
  { destruct (create_only_writes cfg); [|rewrite Hu; by apply spec_put].
    rewrite Hh, Hu by (by rewrite orb_true_r). eapply spec_bind; [by apply (spec_get _ _ (fun _ => True))|].
    intros [e|] _; [|by apply spec_put]. eapply spec_bind; [apply spec_choose|]. intros ch _.
    destruct (_ && _); [by apply spec_ret|apply spec_fail]. }
  intros _ _. eapply spec_bind; [apply spec_cache_format|].
  { split; [|done]. intros [= E] f Hf'. assert (f = concat (chunks u)) as -> by congruence. congruence. }
  intros _ _. apply spec_then; [|done]. destruct (cache_block u) as [block|]; [|by apply spec_ret].
  destruct (_ && _); [|by apply spec_ret]. apply spec_uploaded. by rewrite (Hb block).
Qed.

(** ** Deleting *)

Lemma inv_forget_format k s : inv s -> inv (with_formats (delete k) s).
Proof.
  intros [Hc Hr Hw Hq]. split; [destruct Hc; split; try done| |done|done].
  - cbn. intros k' layout [_ ?]%lookup_delete_Some. eauto.
  - intros k' Hk. destruct (Hr k' Hk); split; try done. cbn. by intros [_ ?]%lookup_delete_Some.
Qed.

Lemma spec_delete_blocks id idxs : Forall (fun i => ~ K (id, i)) idxs ->
  spec False (delete_blocks id idxs) (fun _ => True).
Proof.
  induction 1 as [|i idxs Hi _ IH]; cbn [delete_blocks]; [by apply spec_ret|].
  eapply spec_bind; [apply spec_delete|intros _ _]. { intros k Hk E%versioned_key_inj. by subst k. }
  eapply spec_bind; [by apply spec_delete|intros _ _].
  eapply spec_bind; [apply spec_set; intros s Hs; by apply inv_forget_format|intros _ _; apply IH].
Qed.

(** The blocks a deletion names. *)
Definition deleted (key : BlockKey) (block_count : Z) (k : BlockKey) : Prop :=
  k.1 = key.1 /\ key.2 <= k.2 < as_u32 (key.2 + as_u32 block_count).

Lemma spec_delete_range key count : (forall k, K k -> ~ deleted key count k) ->
  spec False (object_delete_range cfg key count) (fun _ => True).
Proof.
  intros HK. unfold object_delete_range. destruct (negb _); [apply spec_fail|]. apply (spec_bind _ _ _ (fun _ => True)).
  - destruct (decode_id key.1) as [[g slot]|]; [|by apply spec_ret]. apply (spec_bind _ _ _ (fun _ => True)).
    + eapply spec_bind; [apply spec_choose|]. intros c _. destruct (ch_fails c); [apply spec_fail|].
      eapply spec_bind; [by apply (spec_get _ _ (fun _ => True))|]. intros [d|] _; [|by apply spec_ret].
      destruct (_ <? _); [apply spec_fail|by apply spec_ret].
    + intros [d|] _; [apply spec_fail|by apply spec_ret].
  - intros _ _. apply spec_delete_blocks, Forall_forall. intros i Hi%elem_of_seqZ Hk. apply (HK _ Hk). split; [done|]. cbn. lia.
Qed.

Lemma spec_delete_group g : spec False (delete_coalesced_group cfg g) (fun _ => True).
Proof.
  unfold delete_coalesced_group. destruct (negb _); [apply spec_fail|]. eapply spec_bind; [by apply spec_delete|].
  intros _ _. apply spec_set. intros s [Hc Hr Hw Hq]. split; [destruct Hc; split; try done|intros k Hk; by destruct (Hr k Hk)|done|done].
  cbn. intros g' index [_ ?]%lookup_delete_Some. eauto.
Qed.
End exact.
