(* ===== verification/ObjectRuns.v ===== *)
(** Histories of the object store: blocks are written, groups of small slices
    uploaded, slices staged, blocks read, prefetched and deleted, by this mount and
    by others, with a backend that may fail at any point. *)
From stdpp Require Import options.
From S2P Require Import Prelude Compress Coalesce BlockStore ObjectStore ObjectExact.

(** Where blocks come from: [fresh] is the one write of a block, [old] the object an
    earlier version left, [shared] the members of an uploaded group. *)
Record Source := mkSource {
  fresh : BlockKey -> option (Z * list (list byte));
  old : BlockKey -> option (list byte);
  shared : Z -> option (list Member)
}.

Section runs.
Context {codecs : Codecs} {laws : CodecLaws} (digest : list byte -> list byte) (cfg : BlockStoreConfig) (S : Source).
Context (digest_length : forall data, length (digest data) = 32%nat).

(** ** The blocks of a history *)

Definition ok_or_none {E A} (r : result E A) : option A := match r with Ok a => Some a | Err _ => None end.

Definition content_of (k : BlockKey) : option (list byte) :=
  match fresh S k with
  | Some (off, parts) => Some (written off parts)
  | None =>
      match old S k with
      | Some o => ok_or_none (decode_object cfg Legacy o)
      | None =>
          if k.2 =? 0 then
            '(g, slot) ← decode_id k.1; ms ← shared S g; m ← ms !! Z.to_nat slot;
            ok_or_none (decompress_framed_bytes (m_frame m) MAX_MEMBER_BYTES)
          else None
      end
  end.

Definition frame_of (k : BlockKey) : option (list byte) :=
  '(off, parts) ← fresh S k; Some (encode_persisted_block (written off parts) (cfg_compression cfg)).

Definition group_of (g : Z) : option (list byte) :=
  ms ← shared S g; ok_or_none (encode_object digest g ms).

Definition blocks_of : Blocks := mkBlocks content_of frame_of (old S) group_of.

Record config_ok : Prop := {
  cf_page : 0 < page_size cfg;
  cf_block : 0 < block_size cfg;
  cf_u32 : is_u32 (block_size cfg);
  cf_plain : versioned_objects_uncompressed cfg = true -> cfg_compression cfg = NoCompression
}.

(** Writes stay in their block, every block has one origin, and members are as
    [enqueue_coalesced] makes them. *)
Record source_ok : Prop := {
  so_fresh k off parts : fresh S k = Some (off, parts) ->
    0 <= off /\ 0 < zlen (concat parts) /\ off + zlen (concat parts) <= block_size cfg /\ old S k = None;
  so_old k o : old S k = Some o -> zlen o <= stored_limit cfg /\
    exists c, decode_object cfg Legacy o = Ok c /\ zlen c <= block_size cfg;
  so_shared g ms : shared S g = Some ms -> is_u64 g /\ Forall member_ok ms /\
    Forall (fun m => forall c, decompress_framed_bytes (m_frame m) MAX_MEMBER_BYTES = Ok c -> zlen c <= block_size cfg) ms /\
    forall id slot, decode_id id = Some (g, slot) -> fresh S (id, 0) = None /\ old S (id, 0) = None
}.

Context (Hcfg : config_ok) (Hsrc : source_ok).

Lemma length_written off parts : 0 <= off -> zlen (written off parts) = off + zlen (concat parts).
Proof. intros. unfold written. rewrite length_app, length_replicate. lia. Qed.

Lemma length_encoded data c : zlen (encode_persisted_block data c) <= zlen data + 4.
Proof.
  unfold encode_persisted_block. assert (forall c b, zlen (header c ++ b) = 4 + zlen b) as Hh by (intros; rewrite length_app; cbn; lia).
  assert (forall e, compress data c = Owned e -> zlen e <= zlen data) as Hc.
  { intros e. unfold compress. destruct c as [| |level]; [done|..]; (destruct (bool_decide _); [done|]).
    - destruct (Z.leb_spec (zlen data) (zlen (lz4_compress_prepend_size data) + PERSISTED_HEADER_LEN)); [done|].
      intros E. replace e with (header Lz4 ++ lz4_compress_prepend_size data) by congruence. rewrite Hh. unfold PERSISTED_HEADER_LEN in *. lia.
    - destruct (compress_zstd data level) as [[b|]|]; [|done|done].
      destruct (Z.leb_spec (zlen data) (zlen b + PERSISTED_HEADER_LEN)); [done|].
      intros E. replace e with (header (Zstd level) ++ b) by congruence. rewrite Hh. unfold PERSISTED_HEADER_LEN in *. lia. }
  destruct (compress data c) as [d|e] eqn:E; [|specialize (Hc e eq_refl); lia].
  destruct (compress_cases data c) as [E'|(b & E' & _)]; [|congruence]. assert (d = data) as -> by congruence. rewrite Hh. lia.
Qed.

Lemma group_member g d index id slot e c : group_of g = Some d -> parse_index digest g d = Ok index ->
  decode_id id = Some (g, slot) -> index !! Z.to_nat slot = Some e ->
  decode_member digest e (subrange d (e_offset e) (e_stored e)) = Ok c -> content_of (id, 0) = Some c.
Proof using digest_length Hsrc.
  intros Hd Hp Hid He Hc. unfold group_of in Hd. destruct (shared S g) as [ms|] eqn:Hms; [|done]. cbn in Hd.
  destruct (encode_object digest g ms) as [d'|] eqn:Henc; [|done]. assert (d' = d) as -> by (cbn in Hd; congruence).
  destruct (so_shared Hsrc g ms Hms) as (Hu & Hok & _ & Hdis). destruct (Hdis id slot Hid) as [Hf Ho].
  destruct (parse_encoded digest digest_length g ms d Hu Hok Henc) as (Hp' & pre & Hpre & ->).
  assert (index = entries_of digest (HEADER + ENTRY * zlen ms) ms) as -> by congruence.
  destruct (lookup_lt_is_Some_2 ms (Z.to_nat slot)) as [m Hm].
  { apply lookup_lt_Some in He. by rewrite length_entries_of in He. }
  destruct (entries_of_lookup digest ms (HEADER + ENTRY * zlen ms) (Z.to_nat slot) m Hm) as (o & Hlk & Hsub).
  assert (e = mkEntry o (zlen (m_frame m)) (m_raw m) (digest (m_frame m))) as -> by congruence.
  cbn [e_offset e_stored] in Hc. rewrite (Hsub pre Hpre) in Hc. unfold decode_member in Hc.
  destruct (negb _); [done|]. unfold content_of. cbn [fst snd]. rewrite Hf, Ho, Hid. cbn. rewrite Hms. cbn. rewrite Hm. cbn.
  destruct (decompress_framed_bytes _ _) as [c'|]; [|done]. destruct (_ =? _); [|done]. by injection Hc as ->.
Qed.

Lemma blocks_of_ok : blocks_ok digest cfg blocks_of.
Proof using All.
  destruct Hcfg as [Hp Hb Hu Hpl]. unfold is_u32, u32_modulus in Hu.
  assert (forall k off parts, fresh S k = Some (off, parts) -> zlen (written off parts) <= block_size cfg) as Hw.
  { intros k off parts H. destruct (so_fresh Hsrc k off parts H) as (? & ? & ? & ?). rewrite length_written by done. lia. }
  assert (stored_limit cfg = block_size cfg * 2 + 1048576) as Hlim by done.
  split; [done|done|rewrite Hlim; unfold u64_modulus; lia|..]; cbn [blocks_of content frame legacy group_object].
  - intros k c. unfold content_of. destruct (fresh S k) as [[off parts]|] eqn:Hf.
    { intros [= <-]. by apply (Hw k). }
    destruct (old S k) as [o|] eqn:Ho.
    { destruct (so_old Hsrc k o Ho) as (_ & c' & -> & Hl). by intros [= <-]. }
    destruct (k.2 =? 0); [|done]. destruct (decode_id k.1) as [[g slot]|]; [|done]. cbn.
    destruct (shared S g) as [ms|] eqn:Hms; [|done]. cbn. destruct (ms !! Z.to_nat slot) as [m|] eqn:Hm; [|done]. cbn.
    destruct (so_shared Hsrc g ms Hms) as (_ & _ & Hall & _). rewrite Forall_lookup in Hall.
    destruct (decompress_framed_bytes _ _) eqn:E; [|done]. intros [= <-]. by apply (Hall _ m Hm).
  - intros k f. unfold frame_of, content_of. destruct (fresh S k) as [[off parts]|] eqn:Hf; [|done]. cbn. intros [= <-].
    specialize (Hw k off parts Hf). split; [pose proof (length_encoded (written off parts) (cfg_compression cfg)); lia|].
    exists (written off parts). split; [|done]. apply encode_decodes; [|done]. unfold is_u32, u32_modulus. lia.
  - intros k o Ho. destruct (so_old Hsrc k o Ho) as (Hl & c & Hd & _). split; [done|]. exists c. split; [done|].
    unfold content_of. rewrite Ho. destruct (fresh S k) as [[off parts]|] eqn:Hf; [|by rewrite Hd].
    destruct (so_fresh Hsrc k off parts Hf) as (_ & _ & _ & ?). congruence.
  - apply group_member.
  - intros k f Hv. unfold frame_of. destruct (fresh S k) as [[off parts]|]; [|done]. cbn. intros [= <-].
    rewrite (Hpl Hv). unfold encode_persisted_block. cbn [compress]. apply parse_header.
Qed.

(** ** Histories *)

(** [EEnd]: the requests in flight have ended. [EOther]: another mount stores or
    deletes an object. *)
Inductive Event :=
| EWrite (k : BlockKey)
| ERead (k : BlockKey) (off n : Z)
| EPrefetch (i : nat)
| EDelete (k : BlockKey) (block_count : Z)
| EUpload (group : Z)
| EDeleteGroup (group : Z)
| EStage (id : Z) (file : list byte)
| EUnstage (id : Z)
| EEnd
| EOther (key : string) (o : option (list byte)).

Definition with_slice_files (f : gmap Z (list byte) -> gmap Z (list byte)) (s : ObjectBlockStore) : ObjectBlockStore :=
  mkObs (tape s) (objects s) (f (slice_files s)) (block_cache s) (page_cache s) (format_cache s) (group_index s)
    (flights s) (hints s).

Definition no_flights : Flights := mkFlights ∅ ∅ ∅ ∅.

Definition write_block (k : BlockKey) : io Z :=
  match fresh S k with
  | Some (off, parts) => write_fresh_vectored_inner cfg k off parts
  | None => io_ret 0
  end.

Definition step (s : ObjectBlockStore) (ev : Event) : ObjectBlockStore :=
  match ev with
  | EWrite k => (write_block k s).2
  | ERead k off n => (ObjectStore.read_range digest cfg k off n s).2
  | EPrefetch i =>
      match prefetches (hints s) !! i with
      | Some (k, object_key, layout) => (prefetch_task cfg k object_key layout s).2
      | None => s
      end
  | EDelete k count => (object_delete_range cfg k count s).2
  | EUpload g => match group_of g with Some o => (put_object (object_key g) o s).2 | None => s end
  | EDeleteGroup g => (delete_coalesced_group cfg g s).2
  | EStage id file => with_slice_files <[id := file]> s
  | EUnstage id => with_slice_files (delete id) s
  | EEnd => with_flights (fun _ => no_flights) s
  | EOther key (Some o) => with_objects <[key := o]> s
  | EOther key None => with_objects (delete key) s
  end.

Definition run (h : list Event) (s : ObjectBlockStore) : ObjectBlockStore := foldl step s h.

(** A mount of a store that holds [objs]. *)
Definition mounted (objs : gmap string (list byte)) (t : nat -> Choice) : ObjectBlockStore :=
  mkObs t objs ∅ (mkCache ∅ ∅ ∅) ∅ ∅ ∅ no_flights (mkHints ∅ ∅ []).

Definition stored_ok (objs : gmap string (list byte)) : Prop :=
  forall key o, objs !! key = Some o -> may_store blocks_of key o.

(** The file of a staged slice has the content of its blocks. *)
Definition staged_ok (id : Z) (f : list byte) : Prop :=
  forall b, 0 <= b -> b * block_size cfg < zlen f -> content_of (id, b)
    = Some (subrange f (b * block_size cfg) (Z.min (block_size cfg) (zlen f - b * block_size cfg))).

Definition event_ok (ev : Event) : Prop :=
  match ev with
  | ERead k off n => 0 <= k.2 /\ 0 <= off /\ 0 <= n /\ off + n <= block_size cfg
  | EStage id file => staged_ok id file
  | EOther key (Some o) => may_store blocks_of key o
  | _ => True
  end.

(** The event does not delete the block. *)
Definition spares (k : BlockKey) (ev : Event) : Prop :=
  match ev with
  | EDelete key count => ~ deleted key count k
  | EOther key None => key <> versioned_key_for k
  | _ => True
  end.

Section kept.
Context (K : BlockKey -> Prop).
Abbreviation inv := (inv digest cfg blocks_of False K).
Abbreviation spec := (spec digest cfg blocks_of False K).

Lemma inv_slice_files f s : inv s -> (forall id file, f (slice_files s) !! id = Some file ->
  slice_files s !! id = Some file \/ staged_ok id file) -> inv (with_slice_files f s).
Proof.
  intros [Hc Hr Hw Hq] Hf. split; [destruct Hc; split; try done|intros k Hk; by destruct (Hr k Hk)|done|done].
  intros id file b [?|Hs]%Hf Hb Hlt; [eauto|]. by apply Hs.
Qed.

Lemma inv_end s : inv s -> inv (with_flights (fun _ => no_flights) s).
Proof.
  intros [Hc Hr Hw Hq]. split; [destruct Hc; split; try done|intros k Hk; destruct (Hr k Hk); by split|done|done].
Qed.

Lemma write_block_spec k : spec False (write_block k) (fun _ => True).
Proof using All.
  unfold write_block. destruct (fresh S k) as [[off parts]|] eqn:Hf; [|by apply spec_ret].
  eapply spec_weaken; [apply spec_write|done|done]; [apply blocks_of_ok|]. split_and!.
  - by destruct (so_fresh Hsrc k off parts Hf).
  - cbn. unfold content_of. by rewrite Hf.
  - cbn. unfold frame_of. by rewrite Hf.
Qed.

Lemma step_inv s ev : event_ok ev -> (forall k, K k -> spares k ev) -> inv s -> inv (step s ev).
Proof using All.
  intros Hev Hk Hs. pose proof blocks_of_ok as Hok. destruct ev as [k|k off n|i|k count|g|g|id f|id| |key [o|]]; cbn [step].
  - by apply (write_block_spec k).
  - destruct Hev as (Hk2 & Ho & Hn & Hin). destruct (Z.eqb_spec n 0) as [->|]; [done|].
    apply (spec_read_range digest cfg blocks_of False K Hok k off n); [done|done|lia|done|done].
  - destruct (prefetches (hints s) !! i) as [[[k o] layout]|] eqn:E; [|done]. apply list_elem_of_lookup_2 in E.
    pose proof (co_prefetch _ _ _ s (in_coherent _ _ _ _ _ s Hs) k o layout E) as ->.
    apply (spec_prefetch digest cfg blocks_of False K Hok k layout); [|done].
    intros HK ->. by destruct (re_prefetch _ s k (in_ready _ _ _ _ _ s Hs k HK) (object_key_for k Legacy)).
  - by apply (spec_delete_range digest cfg blocks_of False K Hok k count).
  - destruct (group_of g) as [o|] eqn:E; [|done]. eapply (spec_put digest cfg blocks_of False K Hok); [|done].
    by apply may_store_group.
  - by apply (spec_delete_group digest cfg blocks_of False K Hok g).
  - apply inv_slice_files; [done|]. intros id' f' [[<- <-]|[_ ?]]%lookup_insert_Some; auto.
  - apply inv_slice_files; [done|]. intros id' f' [_ ?]%lookup_delete_Some; auto.
  - by apply inv_end.
  - by apply inv_put.
  - apply inv_delete_object; [done|done|]. intros k HK. by apply (Hk k HK).
Qed.

Lemma run_inv h : forall s, Forall event_ok h -> (forall k, K k -> Forall (spares k) h) -> inv s -> inv (run h s).
Proof using All.
  induction h as [|ev h IH]; intros s Hh Hk Hs; [done|]. inversion_clear Hh. cbn. apply IH; [done| |].
  - intros k HK. by destruct (Forall_cons_1 _ _ _ (Hk k HK)).
  - apply step_inv; [done| |done]. intros k HK. by destruct (Forall_cons_1 _ _ _ (Hk k HK)).
Qed.
End kept.

Lemma mounted_coherent objs t : stored_ok objs -> coherent digest cfg blocks_of (mounted objs t).
Proof.
  intros Ho. split; cbn; try done; intros; try (by apply (Ho _ _ H)); try (by apply not_elem_of_nil in H).
Qed.
End runs.

(** ** What a successful write leaves behind *)

Lemma io_bind_Ok {A B} (m : io A) (k : A -> io B) s b s' : io_bind m k s = (Ok b, s') ->
  exists a s1, m s = (Ok a, s1) /\ k a s1 = (Ok b, s').
Proof. unfold io_bind. destruct (m s) as [[a|e] s1]; [eauto|done]. Qed.

(** The parts of the state that cache insertions do not touch. *)
Definition remote (s : ObjectBlockStore) := (objects s, format_cache s, flights s, hints s).

Lemma try_insert_remote ins key c s r s' : try_insert ins key c s = (Ok r, s') -> remote s' = remote s.
Proof. unfold try_insert, io_bind, choose, io_set, io_ret. destruct (ch_present _); by intros [= <- <-]. Qed.

Lemma uploaded_remote {codecs : Codecs} cfg key c s r s' :
  store_uploaded_block cfg key c s = (Ok r, s') -> remote s' = remote s.
Proof.
  intros (a & s1 & H1%try_insert_remote & H)%io_bind_Ok. rewrite <-H1.
  destruct (negb _); [by injection H as <- <-|]. apply io_bind_Ok in H as (a' & s2 & H2%try_insert_remote & H).
  injection H as <- <-. done.
Qed.

Lemma put_object_Ok key o s r s' : put_object key o s = (Ok r, s') ->
  objects s' = <[key := o]> (objects s) /\ flights s' = flights s /\ hints s' = hints s.
Proof.
  unfold put_object, io_bind, choose, io_set, io_ret, io_err. destruct (ch_fails _); [by destruct (ch_applied _)|].
  by intros [= <- <-].
Qed.

Lemma write_Ok {codecs : Codecs} cfg k off parts s r s' : 0 <= off -> zlen (concat parts) <> 0 ->
  write_fresh_vectored_inner cfg k off parts s = (Ok r, s') ->
  objects s' = <[versioned_key_for k := encode_persisted_block (written off parts) (cfg_compression cfg)]> (objects s) /\
  (exists c, format_cache s' !! k = Some (Versioned c)) /\ flights s' = flights s /\ hints s' = hints s.
Proof.
  intros Ho Hz. unfold write_fresh_vectored_inner. destruct (Z.eqb_spec (zlen (concat parts)) 0); [done|].
  destruct (prepare_written cfg off parts (populate_write_cache_after_upload cfg || create_only_writes cfg) Ho) as (u & -> & Hu & _ & Hh & _).
  intros (x & s1 & Hput & H)%io_bind_Ok.
  assert (objects s1 = <[versioned_key_for k := encode_persisted_block (written off parts) (cfg_compression cfg)]> (objects s) /\
    flights s1 = flights s /\ hints s1 = hints s) as (Ho1 & Hf1 & Hh1).
  { destruct (create_only_writes cfg); [|rewrite Hu in Hput; by apply put_object_Ok in Hput].
    rewrite Hh, Hu in Hput by (by rewrite orb_true_r). apply io_bind_Ok in Hput as (existing & s0 & [= <- <-] & Hput).
    destruct (objects s !! _) as [o|] eqn:Ho'; [|by apply put_object_Ok in Hput].
    unfold io_bind, choose in Hput. destruct (_ && _) eqn:E in Hput; [|done].
    apply andb_prop in E as [E%bool_decide_eq_true _]. injection Hput as <- <-. cbn. by rewrite insert_id by congruence. }
  apply io_bind_Ok in H as (y & s2 & [= <- <-] & H). apply io_bind_Ok in H as (z & s3 & Hcache & [= <- <-]).
  assert (remote s3 = remote (with_formats <[k := Versioned (compression u)]> s1)) as [= -> -> -> ->].
  { destruct (cache_block u); [|by injection Hcache as <- <-].
    destruct (_ && _); [by apply uploaded_remote in Hcache|by injection Hcache as <- <-]. }
  cbn. split_and!; [done| |done|done]. exists (compression u). by rewrite lookup_insert_eq.
Qed.

(** ** The theorems *)

Lemma answer_content B k off n bs : 0 <= off -> 0 < n -> answer B k off n bs ->
  exists c, content B k = Some c /\ off + n <= zlen c /\ bs = subrange c off n.
Proof.
  intros Ho Hn [Hl Ha]. destruct (lookup_lt_is_Some_2 bs (length bs - 1)) as [b Hb]; [lia|].
  destruct (Ha _ _ Hb) as (c & Hc & Hlast). apply lookup_lt_Some in Hlast. exists c. split_and!; [done|lia|].
  apply list_eq_same_length with (length bs); [|done|].
  - pose proof (length_subrange c off n). lia.
  - intros i x y Hi Hx Hy. destruct (Ha _ _ Hx) as (c' & Hc' & Hx'). assert (c' = c) as -> by congruence.
    rewrite lookup_subrange in Hy by lia. replace (Z.to_nat (off + Z.of_nat i)) with (Z.to_nat off + i)%nat in Hy by lia. congruence.
Qed.

(** C14: a read that succeeds returns the bytes of the block, whatever the history of
    the store was: writes, uploads of groups, staged slices, reads, prefetches and
    deletions, by this mount and by others, with failures of the backend, lost
    cache entries and shared requests at any point. *)
Theorem object_reads_exact {codecs : Codecs} {laws : CodecLaws} digest cfg S objs t h k off n bs s' :
  (forall d, length (digest d) = 32%nat) -> config_ok cfg -> source_ok cfg S ->
  stored_ok digest cfg S objs -> Forall (event_ok digest cfg S) h ->
  0 <= k.2 -> 0 <= off -> 0 < n -> off + n <= block_size cfg ->
  ObjectStore.read_range digest cfg k off n (run digest cfg S h (mounted objs t)) = (Ok bs, s') ->
  exists c, content_of cfg S k = Some c /\ off + n <= zlen c /\ bs = subrange c off n.
Proof.
  intros Hd Hcfg Hsrc Hobjs Hh Hk Ho Hn Hin Hread. pose proof (blocks_of_ok digest cfg S Hd Hcfg Hsrc) as Hok.
  apply (answer_content (blocks_of digest cfg S)); [done|done|].
  assert (inv digest cfg (blocks_of digest cfg S) False (fun _ => False) (run digest cfg S h (mounted objs t))) as Hi.
  { apply run_inv; [done..|]. split; [by apply mounted_coherent|done..]. }
  destruct (spec_read_range digest cfg _ _ _ Hok k off n Hk Ho Hn Hin _ Hi) as [_ Ha]. by rewrite Hread in Ha.
Qed.

(** Nobody has asked for the block yet. *)
Definition untouched (s : ObjectBlockStore) (k : BlockKey) : Prop :=
  format_flight (flights s) !! k = None /\ read_flight (flights s) !! k = None /\
  forall o, (k, o, Legacy) ∉ prefetches (hints s).

Lemma write_ready {codecs : Codecs} {laws : CodecLaws} digest cfg S s k w s' : source_ok cfg S ->
  decode_id k.1 = None -> is_Some (fresh S k) -> untouched s k -> write_block cfg S k s = (Ok w, s') ->
  ready (blocks_of digest cfg S) s' k.
Proof.
  intros Hsrc Hid [[off parts] Hf] (Hff & Hrf & Hp) Hw. unfold write_block in Hw. rewrite Hf in Hw.
  destruct (so_fresh cfg S Hsrc k off parts Hf) as (Ho & Hz & _).
  apply write_Ok in Hw as (Hobj & [c Hc] & Hfl & Hh); [|done|lia]. split; [done| |congruence| | |].
  - eexists. split; [cbn; unfold frame_of; by rewrite Hf|]. by rewrite Hobj, lookup_insert_eq.
  - by rewrite Hfl, Hff.
  - rewrite Hfl, Hrf. done.
  - by rewrite Hh.
Qed.


(** ** Deletion *)

Lemma delete_object_frame key s r s' : delete_object key s = (r, s') ->
  format_cache s' = format_cache s /\ (forall key', key' <> key -> objects s' !! key' = objects s !! key') /\
  (forall key' o, objects s' !! key' = Some o -> objects s !! key' = Some o) /\
  (r = Ok tt -> objects s' !! key = None).
Proof.
  unfold delete_object, io_bind, choose, io_set, io_ret, io_err.
  destruct (ch_fails _); [destruct (ch_applied _)|]; intros [= <- <-]; cbn; split_and!; try done.
  1,3: intros; by apply lookup_delete_ne.
  1,2: by intros ? ? [_ ?]%lookup_delete_Some.
  intros _. apply lookup_delete_eq.
Qed.

Lemma delete_blocks_exact id : forall idxs s r s', delete_blocks id idxs s = (r, s') ->
  (forall key, (forall i, i ∈ idxs -> key <> versioned_key_for (id, i) /\ key <> key_for (id, i)) ->
     objects s' !! key = objects s !! key) /\
  (forall key o, objects s' !! key = Some o -> objects s !! key = Some o) /\
  (r = Ok tt -> forall i, i ∈ idxs -> objects s' !! versioned_key_for (id, i) = None /\ objects s' !! key_for (id, i) = None).
Proof.
  induction idxs as [|i idxs IH]; intros s r s'; cbn [delete_blocks].
  { intros [= <- <-]. split_and!; [done|done|]. by intros _ i Hi%not_elem_of_nil. }
  unfold io_bind. destruct (delete_object (versioned_key_for (id, i)) s) as [r1 s1] eqn:E1.
  apply delete_object_frame in E1 as (_ & Hk1 & Hs1 & Ho1). destruct r1 as [[]|e].
  2: { intros [= <- <-]. split_and!; [|done|done]. intros key Hkey. apply Hk1, Hkey, list_elem_of_here. }
  destruct (delete_object (key_for (id, i)) s1) as [r2 s2] eqn:E2.
  apply delete_object_frame in E2 as (_ & Hk2 & Hs2 & Ho2). destruct r2 as [[]|e].
  2: { intros [= <- <-]. split_and!; [|by intros ? ? ?%Hs2%Hs1|done]. intros key Hkey.
       destruct (Hkey i) as [? ?]; [constructor|]. rewrite Hk2, Hk1; done. }
  cbn [io_set]. intros H. apply IH in H as (Hk3 & Hs3 & Ho3). cbn [objects with_formats] in *.
  specialize (Ho1 eq_refl). specialize (Ho2 eq_refl). split_and!.
  - intros key Hkey. destruct (Hkey i) as [? ?]; [constructor|]. rewrite Hk3, Hk2, Hk1; [done..|].
    intros j Hj. apply Hkey. by constructor.
  - by intros key o ?%Hs3%Hs2%Hs1.
  - intros Hr j [->|Hj]%elem_of_cons; [|by apply Ho3]. split; apply eq_None_not_Some; intros [o Ho%Hs3]; [|congruence].
    apply Hs2 in Ho. congruence.
Qed.

Lemma get_full_objects key limit s r s' : get_full key limit s = (r, s') ->
  objects s' = objects s /\ (forall v, r = Ok v -> v = objects s !! key).
Proof.
  unfold get_full, io_bind, choose, io_get, io_ret, io_err. destruct (ch_fails _); [by intros [= <- <-]|].
  cbn. destruct (objects s !! key); [destruct (_ <? _)|]; intros [= <- <-]; split; try done; by intros v [= <-].
Qed.

(** Deleting a run of blocks removes exactly these: when it succeeds, none of
    them is stored any more in either layout; whether or not it succeeds, every
    other object is as it was. The blocks of a slice that shares an object with
    others cannot be deleted while that object exists: the call fails and changes
    no object. *)
Theorem delete_range_exact cfg key count s :
  let '(r, s') := object_delete_range cfg key count s in
  (r = Ok tt -> forall k, deleted key count k ->
     objects s' !! versioned_key_for k = None /\ objects s' !! key_for k = None) /\
  (forall name, (forall k, deleted key count k -> name <> versioned_key_for k /\ name <> key_for k) ->
     objects s' !! name = objects s !! name) /\
  (forall group slot, decode_id key.1 = Some (group, slot) -> is_Some (objects s !! object_key group) ->
     (exists e, r = Err e) /\ objects s' = objects s).
Proof.
  unfold object_delete_range. destruct (negb _); [split_and!; [done|done|]; intros; split; [by eexists|done]|].
  set (check := match decode_id key.1 with Some _ => _ | None => _ end).
  assert (forall r0 s0, check s = (r0, s0) -> objects s0 = objects s /\
    forall group slot, decode_id key.1 = Some (group, slot) -> is_Some (objects s !! object_key group) -> exists e, r0 = Err e) as Hcheck.
  { intros r0 s0. unfold check. destruct (decode_id key.1) as [[g slot]|]; [|by intros [= <- <-]].
    unfold io_bind. destruct (get_full _ _ s) as [r1 s1] eqn:E. apply get_full_objects in E as [Hobj Hv].
    destruct r1 as [v|e]; [|intros [= <- <-]; split; [done|by eexists]]. specialize (Hv v eq_refl). subst v.
    destruct (objects s !! object_key g) eqn:Eo; intros [= <- <-]; (split; [done|]); intros ? ? [= <- <-]; [by eexists|].
    rewrite Eo. by intros [? ?]. }
  unfold io_bind. destruct (check s) as [[u|e] s0]; destruct (Hcheck _ _ eq_refl) as [Hobj Hsh]; clear Hcheck check.
  - destruct (delete_blocks _ _ s0) as [r s'] eqn:E. apply delete_blocks_exact in E as (Hk & _ & Ho).
    split_and!.
    + intros Hr [id b] [? ?]. cbn [fst snd] in *. subst id. apply Ho; [done|]. apply elem_of_seqZ. lia.
    + intros name Hn. rewrite Hk, Hobj; [done|]. intros i Hi%elem_of_seqZ. apply Hn. split; [done|]. cbn. lia.
    + intros group slot Hid Hs. by destruct (Hsh group slot Hid Hs).
  - split_and!; [done|by intros; rewrite Hobj|]. intros. split; [by eexists|done].
Qed.

(** ** A small history *)

Definition w_cfg : BlockStoreConfig :=
  mkConfig 0 16 16 4 true NoCompression false false false false false false BackendDefault false true true.
Definition w_source : Source :=
  mkSource (fun k => if decide (k = (7, 0)) then Some (1, [[Byte.x61; Byte.x62]; [Byte.x63]]) else None)
    (fun _ => None) (fun _ => None).
Definition w_digest (_ : list byte) : list byte := replicate 32 Byte.xff.

(** A backend that does its part, and one whose third answer is an error. *)
Definition w_quiet (n : nat) : Choice := mkChoice false false 0 true false 0.
Definition w_flaky (n : nat) : Choice := if (n =? 2)%nat then mkChoice true false 0 true false 0 else w_quiet n.

#[local] Existing Instance w_codecs.
#[local] Existing Instance w_codec_laws.

Lemma w_config_ok : config_ok w_cfg.
Proof. by split. Qed.

Lemma w_source_ok : source_ok w_cfg w_source.
Proof. split; [|done|done]. intros k off parts. cbn. case_decide; [|done]. by intros [= <- <-]. Qed.

Lemma w_stored_ok : stored_ok w_digest w_cfg w_source ∅.
Proof. by intros key o []%lookup_empty_Some. Qed.

Lemma pair_fst {A B} (p : A * B) a : p.1 = a -> p = (a, p.2).
Proof. by destruct p; cbn; intros ->. Qed.

(** A read after a write and a read that failed. *)
Lemma object_reads_exact_witness :
  let h := [EWrite (7, 0); ERead (7, 0) 0 4] in
  let s := run w_digest w_cfg w_source h (mounted ∅ w_flaky) in
  (ObjectStore.read_range w_digest w_cfg (7, 0) 1 3 s).1 = Ok [Byte.x61; Byte.x62; Byte.x63] /\
  exists c, content_of w_cfg w_source (7, 0) = Some c /\ [Byte.x61; Byte.x62; Byte.x63] = subrange c 1 3.
Proof.
  intros h s. assert ((ObjectStore.read_range w_digest w_cfg (7, 0) 1 3 s).1 = Ok [Byte.x61; Byte.x62; Byte.x63]) as H
    by (vm_compute; reflexivity).
  split; [exact H|]. apply pair_fst in H.
  destruct (object_reads_exact w_digest w_cfg w_source ∅ w_flaky h (7, 0) 1 3 _ _ ltac:(done)
    w_config_ok w_source_ok w_stored_ok ltac:(repeat constructor; cbn; lia) ltac:(cbn; lia) ltac:(lia) ltac:(lia) ltac:(cbn; lia) H)
    as (c & Hc & _ & Hb).
  exists c. exact (conj Hc Hb).
Defined.

