(* ===== verification/PageCache.v ===== *)
(** The page buffer of a dirty slice: [CacheSlice] of [src/vfs/cache/page.rs],
    with the part of [WriteConfig] ([src/vfs/config.rs]) the write buffer reads.

    A slice buffers the bytes written from one offset of a chunk on in pages,
    which are allocated when first written, become immutable before upload and
    are dropped afterwards.  [slice_refines_array] shows that the pages, the
    length and the list of written ranges together are one sparse byte array,
    whatever writes, freezes and cuts built them. *)
From stdpp Require Import options.
From S2P Require Import Prelude Span.

Inductive WriteBackMode := UploadBeforeCommit | CommitBeforeUpload.

#[global] Instance WriteBackMode_eq_dec : EqDecision WriteBackMode.
Proof. solve_decision. Defined.

(** The fields of [WriteConfig] that decide what the write buffer does. *)
Record WriteConfig := mkWriteConfig {
  layout : ChunkLayout;
  page_size : Z;
  freeze_min_bytes : Z;
  writeback_mode : WriteBackMode;
  cached_block_assembler : bool;
  writeback_require_stage_before_commit : bool;
  upload_before_commit_prefix_split : bool }.

(** The assertion of [CacheSlice::new], on a layout the program can run with. *)
Record config_ok (cfg : WriteConfig) : Prop := {
  co_layout : layout_ok (layout cfg);
  co_page : 0 < page_size cfg;
  co_multiple : block_size (layout cfg) mod page_size cfg = 0
}.

(** ** Pages *)

Inductive PageBuf := Mutable (b : list byte) | Frozen (b : list byte).

(** What the operations fail with.  [IndexOutOfBounds] stands for the panic of
    [self.pages[flat_idx]]. *)
Inductive PageError :=
| WriteToFrozenPage | ReadOfMutablePage
| AppendExceedsChunk | GapAppendExceeds | TruncateExceeds
| IndexOutOfBounds.

Module Page.

Definition new_page (size : Z) : PageBuf := Mutable (replicate (Z.to_nat size) Byte.x00).

(** [write_slice(start, end)?] followed by the copy of [data] to its front. *)
Definition write_slice (p : PageBuf) (start : Z) (data : list byte) : result PageError PageBuf :=
  match p with
  | Mutable b => Ok (Mutable (splice b (Z.to_nat start) data))
  | Frozen _ => Err WriteToFrozenPage
  end.

Definition freeze_page (p : PageBuf) : PageBuf :=
  match p with Mutable b => Frozen b | Frozen b => Frozen b end.

Definition bytes (p : PageBuf) : result PageError (list byte) :=
  match p with Frozen b => Ok b | Mutable _ => Err ReadOfMutablePage end.

Definition copy_slice (p : PageBuf) (start n : Z) : list byte :=
  match p with Frozen b => subrange b start n | Mutable b => subrange b start n end.

(** The bytes of a page, frozen or not. *)
Definition contents (p : PageBuf) : list byte :=
  match p with Frozen b => b | Mutable b => b end.

Definition frozen (p : PageBuf) : bool := match p with Frozen _ => true | Mutable _ => false end.

End Page.

(** ** Slices *)

Inductive WriteAction := Overlap | Append | GapAppend.

Record CacheSlice := mkCacheSlice {
  len : Z;
  alloc_bytes : Z;
  pages : list (option PageBuf);
  written_ranges : list (Z * Z) }.

#[local] Abbreviation set_pages s ps := (mkCacheSlice (len s) (alloc_bytes s) ps (written_ranges s)).

Module CacheSlice.
Section slice.
Context (cfg : WriteConfig).

#[local] Abbreviation chunk_size := (chunk_size (layout cfg)).
#[local] Abbreviation block_size := (block_size (layout cfg)).
#[local] Abbreviation page_size := (page_size cfg).

Definition pages_per_block : Z := div_ceil block_size page_size.

Definition new : CacheSlice :=
  {| len := 0; alloc_bytes := 0;
     pages := replicate (Z.to_nat (div_ceil chunk_size block_size * pages_per_block)) None;
     written_ranges := [] |}.

Definition flat_index (block_idx page_idx : Z) : Z := block_idx * pages_per_block + page_idx.

(** *** Which writes a slice takes *)

Definition can_append (s : CacheSlice) (offset : Z) : bool := len s =? offset.

Definition can_write_at (s : CacheSlice) (offset n : Z) : bool :=
  u64_saturating_add offset n <=? len s.

Definition can_gap_append (s : CacheSlice) (offset n : Z) : bool :=
  (len s <? offset) && (u64_saturating_add offset n <=? chunk_size).

Definition can_write_with_gap (s : CacheSlice) (offset n : Z) (allow_gap : bool) : option WriteAction :=
  if can_append s offset then Some Append
  else if can_write_at s offset n then Some Overlap
  else if allow_gap && can_gap_append s offset n then Some GapAppend
  else None.

Definition can_write (s : CacheSlice) (offset n : Z) : option WriteAction :=
  can_write_with_gap s offset n false.

Definition has_written_overlap (s : CacheSlice) (offset n : Z) : bool :=
  let stop := u64_saturating_add offset n in
  if stop <=? offset then false
  else existsb (fun r => (r.1 <? stop) && (offset <? r.2)) (written_ranges s).

Definition contiguous_written_len (s : CacheSlice) : Z :=
  let fix go cursor l :=
    match l with
    | [] => cursor
    | (start, stop) :: l => if cursor <? start then cursor else go (Z.max cursor stop) l
    end in
  Z.min (go 0 (written_ranges s)) (len s).

(** *** The written ranges *)

(** The loop of [record_written]: the ranges before the new one, those it
    absorbs and those after it. *)
Fixpoint merge_range (start stop : Z) (inserted : bool) (l : list (Z * Z)) : list (Z * Z) :=
  match l with
  | [] => if inserted then [] else [(start, stop)]
  | (a, b) :: l =>
      if b <? start then (a, b) :: merge_range start stop inserted l
      else if stop <? a then
        if inserted then (a, b) :: merge_range start stop inserted l
        else (start, stop) :: (a, b) :: merge_range start stop true l
      else merge_range (Z.min start a) (Z.max stop b) inserted l
  end.

Definition record_written (s : CacheSlice) (start stop : Z) : CacheSlice :=
  if stop <=? start then s
  else mkCacheSlice (len s) (alloc_bytes s) (pages s) (merge_range start stop false (written_ranges s)).

Definition truncate_written (l : list (Z * Z)) (n : Z) : list (Z * Z) :=
  omap (fun r => if n <=? r.1 then None else Some (r.1, Z.min r.2 n)) l.

(** *** Writing *)

Definition ensure_page_mut (s : CacheSlice) (flat : Z) : result PageError (PageBuf * CacheSlice) :=
  match pages s !! Z.to_nat flat with
  | None => Err IndexOutOfBounds
  | Some (Some p) => Ok (p, s)
  | Some None =>
      let p := Page.new_page page_size in
      Ok (p, mkCacheSlice (len s) (alloc_bytes s + page_size)
               (<[Z.to_nat flat := Some p]> (pages s)) (written_ranges s))
  end.

(** One page of a write: [data] copied to [start] of page [flat]. *)
Definition write_page (s : CacheSlice) (flat start : Z) (data : list byte) :
    result PageError unit * CacheSlice :=
  match ensure_page_mut s flat with
  | Err e => (Err e, s)
  | Ok (p, s) =>
      match Page.write_slice p start data with
      | Err e => (Err e, s)
      | Ok p => (Ok tt, set_pages s (<[Z.to_nat flat := Some p]> (pages s)))
      end
  end.

(** The page spans of a range, block by block, with flat page indices. *)
Definition page_spans (offset n : Z) : list (Spans.Span Spans.PageTag) :=
  block_span ← Spans.collect (Spans.split_into Spans.BlockTag
      (Spans.mkSpan (t := Spans.ChunkTag) 0 offset n) chunk_size block_size true);
  page_span ← Spans.collect (Spans.split_into Spans.PageTag block_span block_size page_size true);
  [Spans.mkSpan (flat_index (Spans.index block_span) (Spans.index page_span))
     (Spans.offset page_span) (Spans.len page_span)].

Fixpoint write_spans (s : CacheSlice) (spans : list (Spans.Span Spans.PageTag)) (buf : list byte) :
    result PageError unit * CacheSlice :=
  match spans with
  | [] => (Ok tt, s)
  | sp :: spans =>
      match write_page s (Spans.index sp) (Spans.offset sp) (take (Z.to_nat (Spans.len sp)) buf) with
      | (Err e, s) => (Err e, s)
      | (Ok _, s) => write_spans s spans (drop (Z.to_nat (Spans.len sp)) buf)
      end
  end.

Definition write_at (s : CacheSlice) (offset : Z) (buf : list byte) : result PageError unit * CacheSlice :=
  match write_spans s (page_spans offset (zlen buf)) buf with
  | (Err e, s) => (Err e, s)
  | (Ok _, s) => (Ok tt, record_written s offset (offset ⊕ zlen buf))
  end.

Definition next_write_slot_flat (s : CacheSlice) : Z * Z :=
  let within_block := len s mod block_size in
  (flat_index (len s / block_size) (within_block / page_size), within_block mod page_size).

(** The loop of [append]; every iteration copies a byte or stops, so
    [buf.len()] iterations are enough. *)
Fixpoint append_loop (fuel : nat) (s : CacheSlice) (buf : list byte) : result PageError unit * CacheSlice :=
  match fuel, buf with
  | O, _ | _, [] => (Ok tt, s)
  | S fuel, _ =>
      let '(flat, within_page) := next_write_slot_flat s in
      let data := take (Z.to_nat (page_size - within_page)) buf in
      match write_page s flat within_page data with
      | (Err e, s) => (Err e, s)
      | (Ok _, s) =>
          if zlen data =? 0 then (Ok tt, s)
          else append_loop fuel
                 (mkCacheSlice (len s + zlen data) (alloc_bytes s) (pages s) (written_ranges s))
                 (drop (length data) buf)
      end
  end.

Definition append (s : CacheSlice) (buf : list byte) : result PageError unit * CacheSlice :=
  let next_len := len s ⊕ zlen buf in
  if chunk_size <? next_len then (Err AppendExceedsChunk, s) else
  match append_loop (length buf) s buf with
  | (Err e, s) => (Err e, s)
  | (Ok _, s) => (Ok tt, record_written s (next_len ⊖ zlen buf) next_len)
  end.

Definition gap_append (s : CacheSlice) (offset : Z) (buf : list byte) : result PageError unit * CacheSlice :=
  let stop := u64_saturating_add offset (zlen buf) in
  if negb ((len s <? offset) && (stop <=? chunk_size)) then (Err GapAppendExceeds, s) else
  match write_at s offset buf with
  | (Err e, s) => (Err e, s)
  | (Ok _, s) => (Ok tt, mkCacheSlice stop (alloc_bytes s) (pages s) (written_ranges s))
  end.

Definition write (s : CacheSlice) (offset : Z) (buf : list byte) (action : WriteAction) :
    result PageError unit * CacheSlice :=
  match action with
  | Append => append s buf
  | Overlap => write_at s offset buf
  | GapAppend => gap_append s offset buf
  end.

(** *** Reading *)

Fixpoint copy_spans (s : CacheSlice) (spans : list (Spans.Span Spans.PageTag)) : result PageError (list byte) :=
  match spans with
  | [] => Ok []
  | sp :: spans =>
      let? piece := match pages s !! Z.to_nat (Spans.index sp) with
                    | None => Err IndexOutOfBounds
                    | Some None => Ok (replicate (Z.to_nat (Spans.len sp)) Byte.x00)
                    | Some (Some p) => Ok (Page.copy_slice p (Spans.offset sp) (Spans.len sp))
                    end in
      let? rest := copy_spans s spans in
      Ok (piece ++ rest)
  end.

(** The bytes [copy_into(offset, buf)] puts at the front of [buf], for a
    [buf] of [n] bytes. *)
Definition copy_into (s : CacheSlice) (offset n : Z) : result PageError (list byte) :=
  if (n =? 0) || (len s <=? offset) then Ok []
  else copy_spans s (page_spans offset (Z.min n (len s - offset))).

Fixpoint copy_ranges (s : CacheSlice) (offset requested_end : Z) (ranges : list (Z * Z))
    (buf : list byte) : result PageError (list (Z * Z) * list byte) :=
  match ranges with
  | [] => Ok ([], buf)
  | (range_start, range_end) :: ranges =>
      let read_start := Z.max offset range_start in
      let read_end := Z.min requested_end range_end in
      if read_end <=? read_start then copy_ranges s offset requested_end ranges buf else
      let? bytes := copy_into s read_start (read_end - read_start) in
      let? (copied, buf) := copy_ranges s offset requested_end ranges
                              (splice buf (Z.to_nat (read_start - offset)) bytes) in
      Ok (if 0 <? zlen bytes then (read_start, read_start + zlen bytes) :: copied else copied, buf)
  end.

Definition copy_written_into (s : CacheSlice) (offset : Z) (buf : list byte) :
    result PageError (list (Z * Z) * list byte) :=
  if zlen buf =? 0 then Ok ([], buf)
  else copy_ranges s offset (u64_saturating_add offset (zlen buf)) (written_ranges s) buf.

(** *** Freezing, collecting and releasing *)

Definition freeze (s : CacheSlice) : CacheSlice :=
  set_pages s (fmap (M := list) (fmap (M := option) Page.freeze_page) (pages s)).

Definition freeze_blocks (s : CacheSlice) (start stop : Z) : CacheSlice :=
  set_pages s (imap (fun i p => if (start * pages_per_block <=? Z.of_nat i) && (Z.of_nat i <? stop * pages_per_block)
                                then Page.freeze_page <$> p else p) (pages s)).

Fixpoint collect_block (s : CacheSlice) (block_idx : Z) (page_idxs : list Z) (remaining : Z) :
    result PageError (list (list byte) * Z) :=
  match page_idxs with
  | [] => Ok ([], remaining)
  | page_idx :: page_idxs =>
      if remaining =? 0 then Ok ([], remaining) else
      let take := Z.min remaining page_size in
      let? parts := match pages s !! Z.to_nat (flat_index block_idx page_idx) with
                    | None => Err IndexOutOfBounds
                    | Some None => Ok (make_zero_bytes take)
                    | Some (Some p) => let? b := Page.bytes p in Ok [subrange b 0 take]
                    end in
      let? (rest, remaining) := collect_block s block_idx page_idxs (remaining - take) in
      Ok (parts ++ rest, remaining)
  end.

Fixpoint collect_blocks (s : CacheSlice) (block_idxs : list Z) (remaining : Z) :
    result PageError (list (Z * list (list byte))) :=
  match block_idxs with
  | [] => Ok []
  | block_idx :: block_idxs =>
      let? (parts, remaining) := collect_block s block_idx (seqZ 0 pages_per_block) remaining in
      let? rest := collect_blocks s block_idxs remaining in
      Ok ((block_idx, parts) :: rest)
  end.

Definition collect_pages (s : CacheSlice) (start stop : Z) : result PageError (list (Z * list (list byte))) :=
  let remaining := u64_saturating_sub (len s) (start * block_size) in
  if remaining =? 0 then Ok [] else collect_blocks s (seqZ start (stop - start)) remaining.

(** How many pages of a list are allocated. *)
Definition allocated (l : list (option PageBuf)) : Z := zlen (omap id l).

(** The pages at the positions [P] dropped, with the bytes that frees. *)
Definition drop_pages (P : Z -> bool) (s : CacheSlice) : list (option PageBuf) * Z :=
  (imap (fun i p => if P (Z.of_nat i) then None else p) (pages s),
   page_size * allocated (imap (fun i p => if P (Z.of_nat i) then p else None) (pages s))).

Definition release_block (s : CacheSlice) (idx : list Z) : Z * CacheSlice :=
  let '(kept, freed) := drop_pages (fun i => existsb (fun b => (b * pages_per_block <=? i) &&
                                                        (i <? (b + 1) * pages_per_block)) idx) s in
  (freed, mkCacheSlice (len s) (u64_saturating_sub (alloc_bytes s) freed) kept (written_ranges s)).

Definition release_all (s : CacheSlice) : Z * CacheSlice :=
  (alloc_bytes s, mkCacheSlice (len s) 0 ((fun _ => None) <$> pages s) (written_ranges s)).

Definition truncate (s : CacheSlice) (n : Z) : result PageError Z * CacheSlice :=
  if len s <? n then (Err TruncateExceeds, s) else
  if n =? len s then (Ok 0, s) else
  let '(kept, freed) := drop_pages (fun i => div_ceil n page_size <=? i) s in
  (Ok freed, mkCacheSlice n (u64_saturating_sub (alloc_bytes s) freed) kept
               (truncate_written (written_ranges s) n)).

(** [block_size()]; [len()] and [alloc_bytes()] are the fields. *)
Definition block_size_of : Z := block_size.

(** [stats()]: pages in total and pages allocated, beside [len] and [alloc_bytes]. *)
Definition stats (s : CacheSlice) : Z * Z * Z * Z :=
  (len s, alloc_bytes s, zlen (pages s), allocated (pages s)).

End slice.
End CacheSlice.

(** ** What a slice holds *)

(** Byte [i] of a buffer, zero outside of it. *)
Definition byte_of (buf : list byte) (i : Z) : byte := default Byte.x00 (buf !! Z.to_nat i).

Definition in_range (x : Z) (r : Z * Z) : bool := (r.1 <=? x) && (x <? r.2).
Definition in_ranges (l : list (Z * Z)) (x : Z) : bool := existsb (in_range x) l.

Lemma in_range_spec x a b : in_range x (a, b) = true <-> a <= x < b.
Proof. unfold in_range. cbn. lia. Qed.

Lemma in_range_dec x a b : a <= x < b /\ in_range x (a, b) = true \/ ~ a <= x < b /\ in_range x (a, b) = false.
Proof. unfold in_range. cbn. lia. Qed.

Ltac range_cases :=
  repeat match goal with
  | |- context [in_range ?x (?a, ?b)] => destruct (in_range_dec x a b) as [[? ->]|[? ->]]
  end.

Section exact.
Context (cfg : WriteConfig) (cfg_ok : config_ok cfg).
#[local] Set Default Proof Using "cfg_ok".

#[local] Abbreviation cs := (chunk_size (layout cfg)).
#[local] Abbreviation bs := (block_size (layout cfg)).
#[local] Abbreviation ps := (page_size cfg).
#[local] Abbreviation ppb := (CacheSlice.pages_per_block cfg).

(** The byte at a position of the slice; a page never allocated reads as zeros. *)
Definition byte_at (s : CacheSlice) (x : Z) : byte :=
  match pages s !! Z.to_nat (x / ps) with
  | Some (Some p) => byte_of (Page.contents p) (x mod ps)
  | _ => Byte.x00
  end.

Definition frozen_at (s : CacheSlice) (x : Z) : bool :=
  match pages s !! Z.to_nat (x / ps) with Some (Some p) => Page.frozen p | _ => false end.

Definition written_at (s : CacheSlice) (x : Z) : bool := in_ranges (written_ranges s) x.

(** Ranges in increasing order from [lo] on, none empty, no two touching. *)
Fixpoint ranges_ok (lo : Z) (l : list (Z * Z)) : Prop :=
  match l with [] => True | (a, b) :: l => lo < a /\ a < b /\ ranges_ok b l end.

(** *** Geometry *)

Lemma ps_pos : 0 < ps.
Proof. apply cfg_ok. Qed.
Lemma bs_pos : 0 < bs < u32_modulus.
Proof. apply cfg_ok. Qed.
Lemma cs_u64 : bs <= cs < u64_modulus.
Proof. apply cfg_ok. Qed.

Lemma ppb_mul : ppb * ps = bs.
Proof.
  pose proof ps_pos. unfold CacheSlice.pages_per_block, div_ceil. rewrite (co_multiple _ cfg_ok). cbn.
  pose proof (Z.div_mod bs ps ltac:(lia)). rewrite (co_multiple _ cfg_ok) in *. lia.
Qed.
Lemma ppb_pos : 0 < ppb.
Proof. pose proof ps_pos. pose proof bs_pos. pose proof ppb_mul. nia. Qed.

Lemma blocks_mul : div_ceil cs bs * bs = cs.
Proof.
  pose proof bs_pos. unfold div_ceil. rewrite (lo_multiple _ (co_layout _ cfg_ok)). cbn.
  pose proof (Z.div_mod cs bs ltac:(lia)) as E. rewrite (lo_multiple _ (co_layout _ cfg_ok)) in E. lia.
Qed.

(** A position by block and page is the position by page. *)
Lemma flat_index_div x : 0 <= x ->
  CacheSlice.flat_index cfg (x / bs) (x mod bs / ps) = x / ps /\ (x mod bs) mod ps = x mod ps.
Proof.
  intros Hx. pose proof ps_pos. pose proof bs_pos. unfold CacheSlice.flat_index.
  pose proof (Z.div_mod x bs ltac:(lia)) as E. pose proof ppb_mul as Hp.
  set (r := x mod bs) in *. set (q := x / bs) in *.
  clearbody r q. assert (x = r + (q * ppb) * ps) as -> by (rewrite E, <-Hp; ring).
  rewrite Z.div_add, Z.mod_add by lia. lia.
Qed.

Lemma page_index_lt x : 0 <= x < cs -> forall n, n * ps = cs -> 0 <= x / ps < n.
Proof.
  intros Hx n Hn. pose proof ps_pos. split; [apply Z.div_pos; lia|]. apply Z.div_lt_upper_bound; lia.
Qed.

(** The page spans of a range tile it. *)
Lemma page_spans_of_block (sp : Spans.Span Spans.BlockTag) :
  0 <= Spans.index sp -> 0 <= Spans.offset sp -> 0 <= Spans.len sp -> Spans.offset sp + Spans.len sp <= bs ->
  Spans.index sp * bs + bs < u64_modulus ->
  Spans.tiles ps (Spans.offset sp) (Spans.len sp)
    (Spans.collect (Spans.split_into Spans.PageTag sp bs ps true)).
Proof.
  intros Hi Ho Hl Hle Hu. pose proof ps_pos. pose proof bs_pos. pose proof ppb_mul. pose proof ppb_pos.
  assert (ps <= bs) by nia.
  unfold Spans.split_into. rewrite u64_mul_small, u64_add_small by u64_lia.
  apply Spans.collect_tiles; u64_lia.
Qed.

Lemma tiles_app {t} a p n m (l k : list (Spans.Span t)) : 0 < a ->
  Spans.tiles a p n l -> Spans.tiles a (p + n) m k -> ((p + n) mod a = 0 \/ m = 0) ->
  Spans.tiles a p (n + m) (l ++ k).
Proof using Type.
  intros Ha Hl. revert m k. induction Hl as [p|p n s l ? ? ? Hp Hfull Hl IH]; intros m k Hk Hm; cbn.
  - by rewrite Z.add_0_r, Z.add_0_l in *.
  - constructor; [done..| |].
    + intros Hne. destruct (Z.eq_dec n (Spans.len s)) as [->|]; [|auto].
      destruct Hm as [Hm| ->]; [|lia].
      destruct (Z.lt_ge_cases (Spans.offset s + Spans.len s) a); [|lia].
      destruct (Spans.tile_coordinates a p (Spans.offset s) (Spans.index s) (Spans.len s)); lia.
    + replace (n + m - Spans.len s) with (n - Spans.len s + m) by lia. apply IH.
      * by replace (p + Spans.len s + (n - Spans.len s)) with (p + n) by lia.
      * by replace (p + Spans.len s + (n - Spans.len s)) with (p + n) by lia.
Qed.

Lemma tiles_shift a p n i (l : list (Spans.Span Spans.PageTag)) : Spans.tiles a p n l ->
  Spans.tiles a (i * a + p) n
    ((fun sp => Spans.mkSpan (t := Spans.PageTag) (i + Spans.index sp) (Spans.offset sp) (Spans.len sp)) <$> l).
Proof using Type.
  induction 1 as [p|p n s l ? ? ? Hp Hfull Hl IH]; cbn; [constructor|].
  constructor; cbn; [done..|lia|done|]. by rewrite <-Z.add_assoc.
Qed.

Lemma bind_singleton {A B} (f : A -> B) (l : list A) : (l ≫= fun x => [f x]) = f <$> l.
Proof using Type. induction l as [|x l IH]; [done|]. cbn. by rewrite <-IH. Qed.

Lemma flatten_tiles p n (l : list (Spans.Span Spans.BlockTag)) : Spans.tiles bs p n l -> 0 <= p -> p + n <= cs ->
  Spans.tiles (t := Spans.PageTag) ps p n
    (l ≫= fun block_span =>
       Spans.collect (Spans.split_into Spans.PageTag block_span bs ps true) ≫= fun page_span =>
       [Spans.mkSpan (CacheSlice.flat_index cfg (Spans.index block_span) (Spans.index page_span))
          (Spans.offset page_span) (Spans.len page_span)]).
Proof.
  pose proof ps_pos. pose proof bs_pos. pose proof cs_u64. pose proof ppb_mul as Hppb.
  induction 1 as [p|p n s l Hs Ho Hle Hp Hfull Hl IH]; intros Hp0 Hn; [constructor|].
  pose proof (Spans.tiles_nonneg _ _ _ _ Hl).
  assert (0 <= Spans.index s) by nia.
  assert ((Spans.index s + 1) * bs <= cs).
  { pose proof blocks_mul. assert (Spans.index s < div_ceil cs bs) by nia. nia. }
  cbn [mbind list_bind]. replace n with (Spans.len s + (n - Spans.len s)) at 1 by lia.
  apply tiles_app; [done| |apply IH; lia|].
  - rewrite <-Hp. replace (Spans.index s * bs) with (Spans.index s * ppb * ps) by (rewrite <-Hppb; ring).
    rewrite bind_singleton. apply tiles_shift. apply page_spans_of_block; lia.
  - destruct (Z.eq_dec n (Spans.len s)) as [->|Hne]; [right; lia|left]. specialize (Hfull Hne).
    replace (p + Spans.len s) with ((Spans.index s + 1) * ppb * ps) by (rewrite <-Z.mul_assoc, Hppb; lia).
    apply Z.mod_mul. lia.
Qed.

Lemma page_spans_tile off n : 0 <= off -> 0 <= n -> off + n <= cs ->
  Spans.tiles ps off n (CacheSlice.page_spans cfg off n).
Proof.
  intros. apply flatten_tiles; [|done..].
  pose proof (block_spans_tile (layout cfg) off n (co_layout _ cfg_ok)) as Ht. unfold block_span_iter_range in Ht.
  pose proof cs_u64. apply Ht; lia.
Qed.

(** *** Writing pages *)

Record pages_ok (s : CacheSlice) : Prop := {
  po_count : zlen (pages s) * ps = cs;
  po_page : forall i p, pages s !! i = Some (Some p) -> zlen (Page.contents p) = ps;
  po_alloc : alloc_bytes s = ps * CacheSlice.allocated (pages s)
}.

(** A slice as the operations keep it: every written position is below [len]
    and the other positions hold zeros. *)
Record slice_ok (s : CacheSlice) : Prop := {
  so_pages : pages_ok s;
  so_len : 0 <= len s <= cs;
  so_ranges : ranges_ok (-1) (written_ranges s);
  so_within : forall x, written_at s x = true -> x < len s;
  so_clean : forall x, 0 <= x -> written_at s x = false -> byte_at s x = Byte.x00
}.

(** [s'] is [s] with [data] put at position [p]. *)
Record wrote (s : CacheSlice) (p : Z) (data : list byte) (s' : CacheSlice) : Prop := {
  wr_pages : pages_ok s';
  wr_ranges : written_ranges s' = written_ranges s;
  wr_byte : forall x, 0 <= x -> byte_at s' x = if in_range x (p, p + zlen data) then byte_of data (x - p) else byte_at s x;
  wr_frozen : forall x, frozen_at s' x = frozen_at s x
}.

Lemma allocated_insert (l : list (option PageBuf)) i o p : l !! i = Some o ->
  CacheSlice.allocated (<[i := Some p]> l) = CacheSlice.allocated l + from_option (fun _ => 0) 1 o.
Proof using Type.
  intros Hi. unfold CacheSlice.allocated. rewrite <-(take_drop_middle _ _ _ Hi) at 2.
  rewrite insert_take_drop by eauto using lookup_lt_Some. rewrite !omap_app, !length_app.
  destruct o; cbn; lia.
Qed.

Lemma page_div x i : 0 <= x -> (0 <= i)%Z -> Z.to_nat (x / ps) = Z.to_nat i <-> i * ps <= x < i * ps + ps.
Proof.
  intros. pose proof ps_pos. pose proof (Z.div_mod x ps ltac:(lia)). pose proof (Z.mod_pos_bound x ps ltac:(lia)).
  pose proof (Z.div_pos x ps ltac:(lia) ltac:(lia)). split; [intros E%Z2Nat.inj; nia|]. intros. f_equal. nia.
Qed.

(** Replacing the page at an index. *)
Lemma byte_at_insert s s' i o p x : pages s' = <[Z.to_nat i := Some p]> (pages s) ->
  pages s !! Z.to_nat i = Some o -> 0 <= i -> 0 <= x ->
  byte_at s' x = if in_range x (i * ps, i * ps + ps) then byte_of (Page.contents p) (x - i * ps) else byte_at s x.
Proof.
  intros E Ho Hi Hx. unfold byte_at. rewrite E. pose proof ps_pos. pose proof (page_div x i Hx Hi).
  destruct (in_range_dec x (i * ps) (i * ps + ps)) as [[Hr ->]|[Hr ->]].
  - assert (Z.to_nat (x / ps) = Z.to_nat i) as E' by tauto. rewrite E'.
    rewrite list_lookup_insert_eq by eauto using lookup_lt_Some. f_equal.
    rewrite Z.mod_eq by lia. apply Z2Nat.inj in E'; [nia| |done]. apply Z.div_pos; lia.
  - rewrite list_lookup_insert_ne by (intros Eq; symmetry in Eq; tauto). done.
Qed.

Lemma frozen_at_insert s s' i p x : pages s' = <[Z.to_nat i := Some p]> (pages s) ->
  frozen_at s (i * ps) = Page.frozen p -> is_Some (pages s !! Z.to_nat i) -> 0 <= i ->
  frozen_at s' x = frozen_at s x.
Proof.
  intros E Hf [o Ho] Hi. unfold frozen_at in *. rewrite E. pose proof ps_pos.
  rewrite Z.div_mul, Ho in Hf by lia.
  destruct (decide (Z.to_nat (x / ps) = Z.to_nat i)) as [->|Hne].
  - rewrite list_lookup_insert_eq by eauto using lookup_lt_Some. by rewrite Ho, Hf.
  - by rewrite list_lookup_insert_ne.
Qed.

Lemma byte_of_splice b off data x : 0 <= off -> 0 <= x -> off + zlen data <= zlen b ->
  byte_of (splice b (Z.to_nat off) data) x = if in_range x (off, off + zlen data) then byte_of data (x - off) else byte_of b x.
Proof using Type.
  intros Ho Hx Hl. unfold byte_of. rewrite lookup_splice by lia.
  destruct (in_range_dec x off (off + zlen data)) as [[Hr ->]|[Hr ->]];
    [rewrite decide_True by lia; do 2 f_equal; lia|by rewrite decide_False by lia].
Qed.

Lemma byte_of_zeros n x : byte_of (replicate n Byte.x00) x = Byte.x00.
Proof using Type.
  unfold byte_of. destruct (replicate n Byte.x00 !! Z.to_nat x) eqn:E; [|done].
  by apply lookup_replicate in E as [-> _].
Qed.

(** Page [i] of a slice and what it holds, allocated or not. *)
Lemma ensure_page_ok s i : pages_ok s -> 0 <= i < zlen (pages s) -> frozen_at s (i * ps) = false ->
  exists b s1, CacheSlice.ensure_page_mut cfg s i = Ok (Mutable b, s1) /\ zlen b = ps /\
    len s1 = len s /\ written_ranges s1 = written_ranges s /\
    pages s1 = <[Z.to_nat i := Some (Mutable b)]> (pages s) /\ is_Some (pages s !! Z.to_nat i) /\
    alloc_bytes s1 = ps * CacheSlice.allocated (pages s1) /\
    (forall x, i * ps <= x < i * ps + ps -> byte_at s x = byte_of b (x - i * ps)).
Proof.
  intros Hok Hi Hf. pose proof ps_pos. unfold CacheSlice.ensure_page_mut, frozen_at in *. rewrite Z.div_mul in Hf by lia.
  assert (forall x, i * ps <= x < i * ps + ps -> Z.to_nat (x / ps) = Z.to_nat i /\ x mod ps = x - i * ps) as Hx.
  { intros x Hx. assert (Z.to_nat (x / ps) = Z.to_nat i) as E by (apply page_div; nia).
    split; [done|]. rewrite Z.mod_eq by lia. apply Z2Nat.inj in E; [nia| |lia]. apply Z.div_pos; nia. }
  destruct (lookup_lt_is_Some_2 (pages s) (Z.to_nat i) ltac:(lia)) as [[p|] Hp]; rewrite Hp in Hf |- *.
  - destruct p as [b|b]; [|done]. exists b, s. split_and!; try done; [apply (po_page _ Hok _ _ Hp)| | |].
    + by rewrite list_insert_id.
    + apply Hok.
    + intros x Hr. unfold byte_at. destruct (Hx x Hr) as [-> ->]. by rewrite Hp.
  - eexists _, _. split; [done|]. cbn. split_and!; try done.
    + rewrite length_replicate. lia.
    + rewrite (allocated_insert _ _ _ _ Hp), (po_alloc _ Hok). cbn. lia.
    + intros x Hr. unfold byte_at. destruct (Hx x Hr) as [-> _]. by rewrite Hp, byte_of_zeros.
Qed.

Lemma write_page_ok s i start data : pages_ok s -> 0 <= i < zlen (pages s) ->
  0 <= start -> start + zlen data <= ps -> frozen_at s (i * ps) = false ->
  exists s', CacheSlice.write_page cfg s i start data = (Ok tt, s') /\ len s' = len s /\ wrote s (i * ps + start) data s'.
Proof.
  intros Hok Hi Hs Hl Hf. pose proof ps_pos.
  destruct (ensure_page_ok s i Hok Hi Hf) as (b & s1 & E & Hb & Hlen & Hr & Hp & [o Ho] & Ha & Hby).
  unfold CacheSlice.write_page. rewrite E. cbn [Page.write_slice]. eexists. split; [done|]. split; [done|].
  set (b' := splice b (Z.to_nat start) data).
  assert (zlen b' = ps) as Hb' by (subst b'; rewrite length_splice; lia).
  assert (<[Z.to_nat i:=Some (Mutable b')]> (pages s1) = <[Z.to_nat i:=Some (Mutable b')]> (pages s)) as Hins
    by (rewrite Hp; apply list_insert_insert_eq).
  constructor; cbn [written_ranges]; [constructor; cbn [pages alloc_bytes]|done| |].
  - rewrite Hins, length_insert. apply Hok.
  - intros j p. rewrite Hins, list_lookup_insert_Some. intros [(_ & [= <-] & _)|[_ Hj]]; [done|]. by apply (po_page _ Hok j).
  - rewrite Ha, Hins, Hp, !(allocated_insert _ _ _ _ Ho). done.
  - intros x Hx. erewrite byte_at_insert; [|exact Hins|exact Ho|lia..]. cbn [Page.contents].
    destruct (in_range_dec x (i * ps) (i * ps + ps)) as [[Hx' ->]|[Hx' ->]].
    + subst b'. rewrite byte_of_splice by lia. rewrite Hby by lia.
      destruct (in_range_dec (x - i * ps) start (start + zlen data)) as [[? ->]|[? ->]];
        destruct (in_range_dec x (i * ps + start) (i * ps + start + zlen data)) as [[? ->]|[? ->]]; try lia; [|done].
      f_equal. lia.
    + destruct (in_range_dec x (i * ps + start) (i * ps + start + zlen data)) as [[? ->]|[? ->]]; [lia|done].
  - intros x. eapply frozen_at_insert; [exact Hins|by rewrite Hf|by rewrite Ho|lia].
Qed.

Lemma wrote_nil s p : pages_ok s -> wrote s p [] s.
Proof using Type.
  intros Hok. constructor; [done..| |done]. intros x _. cbn [length].
  range_cases; [lia|done].
Qed.

Lemma byte_of_app a b i : 0 <= i -> byte_of (a ++ b) i = if i <? zlen a then byte_of a i else byte_of b (i - zlen a).
Proof using Type.
  intros Hi. unfold byte_of. destruct (Z.ltb_spec i (zlen a)).
  - by rewrite lookup_app_l by lia.
  - rewrite lookup_app_r by lia. do 2 f_equal. lia.
Qed.

Lemma wrote_app s s1 s2 p a b : wrote s p a s1 -> wrote s1 (p + zlen a) b s2 -> wrote s p (a ++ b) s2.
Proof using Type.
  intros [H1 H2 H3 H4] [K1 K2 K3 K4]. constructor; [done|congruence| |congruence].
  intros x Hx. rewrite K3, H3 by done. rewrite length_app, Nat2Z.inj_add.
  range_cases; try lia; try done; rewrite byte_of_app by lia.
  - rewrite (proj2 (Z.ltb_ge _ _)) by lia. f_equal. lia.
  - by rewrite (proj2 (Z.ltb_lt _ _)) by lia.
Qed.

(** The positions of a range are on no frozen page. *)
Definition thawed (s : CacheSlice) (p n : Z) : Prop := forall x, p <= x < p + n -> frozen_at s x = false.

Lemma thawed_app s s1 p a n : zlen a <= n -> wrote s p a s1 -> thawed s p n -> thawed s1 (p + zlen a) (n - zlen a).
Proof using Type. intros Ha Hw Ht x Hx. rewrite (wr_frozen _ _ _ _ Hw). apply Ht. lia. Qed.

(** One page's share of a write, at position [p]. *)
Lemma write_piece_ok s p i start data : pages_ok s -> i * ps + start = p -> 0 <= p -> p < cs ->
  0 <= start < ps -> start + zlen data <= ps -> frozen_at s p = false ->
  exists s', CacheSlice.write_page cfg s i start data = (Ok tt, s') /\ len s' = len s /\ wrote s p data s'.
Proof.
  intros Hok <- Hp Hc Hs Hl Hf. pose proof ps_pos. pose proof (po_count _ Hok).
  apply write_page_ok; [done|nia|lia|lia|]. unfold frozen_at in *. rewrite Z.div_mul by lia.
  by rewrite Z.add_comm, Z.div_add, Z.div_small in Hf by lia.
Qed.

Lemma write_spans_ok spans p n buf s : Spans.tiles ps p n spans -> n = zlen buf -> pages_ok s -> 0 <= p -> p + n <= cs ->
  thawed s p n ->
  exists s', CacheSlice.write_spans cfg s spans buf = (Ok tt, s') /\ len s' = len s /\ wrote s p buf s'.
Proof.
  intros Ht. revert buf s. induction Ht as [p|p n sp spans Hs Ho Hle Hp Hfull Ht IH]; intros buf s Hn Hok Hp0 Hc Hth.
  - destruct buf; [|cbn in *; lia]. exists s. split_and!; [done..|by apply wrote_nil].
  - subst n. cbn [CacheSlice.write_spans]. pose proof (Spans.tiles_nonneg _ _ _ _ Ht).
    set (k := Z.to_nat (Spans.len sp)). assert (zlen (take k buf) = Spans.len sp) as Hk by (rewrite length_take; lia).
    destruct (write_piece_ok s p (Spans.index sp) (Spans.offset sp) (take k buf)) as (s1 & -> & Hl1 & Hw1);
      [done..|lia|lia|lia|apply Hth; lia|].
    pose proof (thawed_app _ _ _ (take k buf) (zlen buf) ltac:(lia) Hw1 Hth) as Hth1. rewrite Hk in Hth1.
    destruct (IH (drop k buf) s1) as (s' & -> & Hl' & Hw'); [rewrite length_drop; lia|apply Hw1|lia..|done|].
    exists s'. split; [done|]. split; [congruence|]. rewrite <-(take_drop k buf).
    eapply wrote_app; [exact Hw1|]. by rewrite Hk.
Qed.

Lemma append_loop_ok fuel buf s : (length buf <= fuel)%nat -> pages_ok s -> 0 <= len s -> len s + zlen buf <= cs ->
  thawed s (len s) (zlen buf) ->
  exists s', CacheSlice.append_loop cfg fuel s buf = (Ok tt, s') /\ len s' = len s + zlen buf /\ wrote s (len s) buf s'.
Proof.
  revert buf s. induction fuel as [|fuel IH]; intros buf s Hf Hok Hl Hc Hth.
  { destruct buf; [|cbn in *; lia]. exists s. split_and!; [done|cbn; lia|by apply wrote_nil]. }
  destruct buf as [|b buf]; [exists s; split_and!; [done|cbn; lia|by apply wrote_nil]|].
  set (bf := b :: buf) in *. assert (0 < zlen bf) by (cbn; lia). pose proof ps_pos.
  cbn [CacheSlice.append_loop]. fold bf. unfold CacheSlice.next_write_slot_flat.
  destruct (flat_index_div (len s) Hl) as [-> ->].
  pose proof (Z.mod_pos_bound (len s) ps ltac:(lia)). pose proof (Z.div_mod (len s) ps ltac:(lia)).
  set (k := Z.to_nat (ps - len s mod ps)).
  destruct (write_piece_ok s (len s) (len s / ps) (len s mod ps) (take k bf)) as (s1 & -> & Hl1 & Hw1);
    [done|lia..|rewrite length_take; lia|apply Hth; lia|].
  assert (zlen (take k bf) = Z.min (ps - len s mod ps) (zlen bf)) as Hk by (rewrite length_take; lia).
  destruct (Z.eqb_spec (zlen (take k bf)) 0); [lia|].
  set (s2 := mkCacheSlice _ _ _ _). assert (len s2 = len s + zlen (take k bf)) as Hl2 by (cbn; lia).
  assert (wrote s (len s) (take k bf) s2) as Hw2 by (destruct Hw1 as [[] ? ? ?]; by repeat constructor).
  pose proof (thawed_app _ _ _ (take k bf) (zlen bf) ltac:(lia) Hw2 Hth) as Hth2.
  assert (drop (length (take k bf)) bf = drop k bf) as Ed.
  { rewrite length_take. destruct (Nat.le_ge_cases k (length bf)); [by rewrite Nat.min_l|].
    rewrite Nat.min_r by done. by rewrite !drop_ge. }
  rewrite Ed. assert (zlen (drop k bf) = zlen bf - zlen (take k bf)) as Hd
    by (rewrite length_drop, length_take; lia).
  destruct (IH (drop k bf) s2) as (s' & -> & Hl' & Hw'); [lia|apply Hw2|lia..|by rewrite Hl2, Hd|].
  exists s'. split; [done|]. split; [lia|]. rewrite <-(take_drop k bf).
  eapply wrote_app; [exact Hw2|]. by rewrite <-Hl2.
Qed.

(** *** The written ranges *)

Lemma ranges_ok_weaken lo lo' l : lo' <= lo -> ranges_ok lo l -> ranges_ok lo' l.
Proof using Type. destruct l as [|[a b] l]; [done|]. cbn. intros ? (?&?&?). split_and!; [lia|done..]. Qed.

Lemma merge_range_after start stop l : start < stop -> ranges_ok stop l -> CacheSlice.merge_range start stop true l = l.
Proof using Type.
  intros Hlt. revert stop Hlt. induction l as [|[a b] l IH]; intros stop Hlt Hl; [done|]. cbn in *.
  destruct Hl as (?&?&Hl). rewrite (proj2 (Z.ltb_ge b start)), (proj2 (Z.ltb_lt stop a)) by lia.
  f_equal. apply IH; [done|]. by apply (ranges_ok_weaken b); [lia|].
Qed.

Lemma merge_range_ok lo start stop l : lo < start -> start < stop -> ranges_ok lo l ->
  ranges_ok lo (CacheSlice.merge_range start stop false l) /\
  forall x, in_ranges (CacheSlice.merge_range start stop false l) x = in_range x (start, stop) || in_ranges l x.
Proof using Type.
  revert lo start stop. induction l as [|[a b] l IH]; intros lo start stop Hlo Hlt Hl; cbn [CacheSlice.merge_range].
  { cbn. split; [lia|done]. }
  destruct Hl as (Ha & Hab & Hl). destruct (Z.ltb_spec b start) as [Hb|Hb]; [|destruct (Z.ltb_spec stop a) as [Hs|Hs]].
  - destruct (IH b start stop) as [H1 H2]; [lia..|done|]. split; [done|].
    intros x. cbn [in_ranges existsb]. fold (in_ranges l x). change (existsb (in_range x)) with (fun l => in_ranges l x). cbn beta.
    rewrite H2, !orb_assoc. f_equal. apply orb_comm.
  - rewrite merge_range_after; [|done|by apply (ranges_ok_weaken b); [lia|]]. by split.
  - destruct (IH lo (Z.min start a) (Z.max stop b)) as [H1 H2]; [lia|lia|by apply (ranges_ok_weaken b); [lia|]|].
    split; [done|]. intros x. rewrite H2. cbn [in_ranges existsb]. rewrite orb_assoc. f_equal. unfold in_range. cbn. lia.
Qed.

(** *** Writing a slice *)

(** [s'] is [s] after [data] was written at [p]. *)
Record put (s : CacheSlice) (p : Z) (data : list byte) (s' : CacheSlice) : Prop := {
  pt_ok : slice_ok s';
  pt_len : len s' = Z.max (len s) (p + zlen data);
  pt_byte : forall x, 0 <= x -> byte_at s' x = if in_range x (p, p + zlen data) then byte_of data (x - p) else byte_at s x;
  pt_written : forall x, written_at s' x = in_range x (p, p + zlen data) || written_at s x;
  pt_frozen : forall x, frozen_at s' x = frozen_at s x
}.

Lemma byte_at_pages s s' x : pages s' = pages s -> byte_at s' x = byte_at s x.
Proof using Type. intros E. unfold byte_at. by rewrite E. Qed.
Lemma frozen_at_pages s s' x : pages s' = pages s -> frozen_at s' x = frozen_at s x.
Proof using Type. intros E. unfold frozen_at. by rewrite E. Qed.

(** A write of pages followed by the record of its range is a write. *)
Lemma put_recorded s s1 p data s' : slice_ok s -> wrote s p data s1 -> 0 <= p -> p + zlen data <= cs ->
  let r := CacheSlice.record_written s1 p (p + zlen data) in
  len s' = Z.max (len s) (p + zlen data) ->
  alloc_bytes s' = alloc_bytes r -> pages s' = pages r -> written_ranges s' = written_ranges r ->
  put s p data s'.
Proof using Type.
  intros [Hpo Hl Hr Hw Hc] [W1 W2 W3 W4] Hp Hcs r Hn Ea Ep Er.
  assert (pages r = pages s1 /\ alloc_bytes r = alloc_bytes s1) as [Ep' Ea'].
  { subst r. unfold CacheSlice.record_written. by destruct (_ <=? _). }
  rewrite Ep' in Ep. rewrite Ea' in Ea.
  assert (ranges_ok (-1) (written_ranges s') /\
    forall x, written_at s' x = in_range x (p, p + zlen data) || written_at s x) as [Hr' Hw'].
  { subst r. unfold written_at. rewrite Er. unfold CacheSlice.record_written.
    destruct (Z.leb_spec (p + zlen data) p); cbn [written_ranges]; rewrite W2.
    - split; [done|]. intros x. range_cases; [lia|done].
    - apply merge_range_ok; [lia|lia|done]. }
  assert (forall x, 0 <= x -> byte_at s' x =
    if in_range x (p, p + zlen data) then byte_of data (x - p) else byte_at s x) as Hb'.
  { intros x Hx. rewrite (byte_at_pages s1) by done. by apply W3. }
  constructor; [constructor|done..|intros x; rewrite (frozen_at_pages s1) by done; apply W4].
  - destruct W1. by constructor; rewrite ?Ep, ?Ea.
  - lia.
  - done.
  - intros x. rewrite Hw'. range_cases; [lia|]. intros ?%Hw. lia.
  - intros x Hx. rewrite Hw', Hb' by done. range_cases; [done|]. by apply Hc.
Qed.

Lemma len_record_written s a b : len (CacheSlice.record_written s a b) = len s.
Proof using Type. unfold CacheSlice.record_written. by destruct (_ <=? _). Qed.

Lemma append_ok s buf : slice_ok s -> len s + zlen buf <= cs -> thawed s (len s) (zlen buf) ->
  exists s', CacheSlice.append cfg s buf = (Ok tt, s') /\ put s (len s) buf s'.
Proof.
  intros Hok Hc Hth. pose proof (so_len _ Hok). pose proof cs_u64. unfold CacheSlice.append.
  rewrite u64_add_small by u64_lia. rewrite (proj2 (Z.ltb_ge _ _)) by lia.
  destruct (append_loop_ok (length buf) buf s) as (s1 & -> & Hl & Hw); [done|apply Hok|lia|done..|].
  rewrite u64_sub_small by u64_lia. eexists. split; [done|].
  replace (len s + zlen buf - zlen buf) with (len s) by lia.
  apply (put_recorded s s1); [done|done|lia|lia| |done..]. rewrite len_record_written. lia.
Qed.

Lemma write_at_wrote s off buf : pages_ok s -> 0 <= off -> off + zlen buf <= cs -> thawed s off (zlen buf) ->
  exists s1, CacheSlice.write_at cfg s off buf = (Ok tt, CacheSlice.record_written s1 off (off + zlen buf)) /\
    len s1 = len s /\ wrote s off buf s1.
Proof.
  intros Hok Ho Hc Hth. pose proof cs_u64. unfold CacheSlice.write_at.
  destruct (write_spans_ok (CacheSlice.page_spans cfg off (zlen buf)) off (zlen buf) buf s)
    as (s1 & -> & Hl & Hw); [by apply page_spans_tile; lia|done..|].
  exists s1. by rewrite u64_add_small by u64_lia.
Qed.

(** Every write a slice offers to take succeeds and writes its bytes, as long
    as it stays in the chunk and touches no frozen page. *)
Lemma write_ok s off buf gap action : slice_ok s -> 0 <= off -> off + zlen buf <= cs ->
  CacheSlice.can_write_with_gap cfg s off (zlen buf) gap = Some action -> thawed s off (zlen buf) ->
  exists s', CacheSlice.write cfg s off buf action = (Ok tt, s') /\ put s off buf s'.
Proof.
  intros Hok Ho Hc Hcan Hth. pose proof cs_u64. unfold CacheSlice.can_write_with_gap in Hcan.
  unfold CacheSlice.can_append, CacheSlice.can_write_at, CacheSlice.can_gap_append, u64_saturating_add in Hcan.
  rewrite Z.min_r in Hcan by u64_lia.
  destruct (Z.eqb_spec (len s) off) as [<-|Hne]; [injection Hcan as <-; by apply append_ok|].
  destruct (write_at_wrote s off buf) as (s1 & E & Hl & Hw); [apply Hok|done..|].
  destruct (Z.leb_spec (off + zlen buf) (len s)) as [Hle|Hgt]; [injection Hcan as <-|].
  - cbn [CacheSlice.write]. rewrite E. eexists. split; [done|].
    apply (put_recorded s s1); try done. rewrite len_record_written. lia.
  - destruct gap; [|done]. destruct (Z.ltb_spec (len s) off); [|done].
    destruct (Z.leb_spec (off + zlen buf) cs); [|done]. injection Hcan as <-.
    cbn [CacheSlice.write]. unfold CacheSlice.gap_append, u64_saturating_add. rewrite Z.min_r by u64_lia.
    rewrite (proj2 (Z.ltb_lt _ _)), (proj2 (Z.leb_le _ _)) by lia. cbn [andb negb]. rewrite E.
    eexists. split; [done|]. apply (put_recorded s s1); try done. cbn. lia.
Qed.

(** *** Reading a slice *)

Definition bytes_of (s : CacheSlice) (p n : Z) : list byte := byte_at s <$> seqZ p n.

Lemma length_bytes_of s p n : 0 <= n -> zlen (bytes_of s p n) = n.
Proof using Type. intros. unfold bytes_of. rewrite length_fmap, length_seqZ. lia. Qed.

Lemma bytes_of_nil s p n : n <= 0 -> bytes_of s p n = [].
Proof using Type. intros. unfold bytes_of. by rewrite seqZ_nil. Qed.

Lemma bytes_of_split s p n m : 0 <= n -> 0 <= m -> bytes_of s p (n + m) = bytes_of s p n ++ bytes_of s (p + n) m.
Proof using Type. intros. unfold bytes_of. by rewrite seqZ_app, fmap_app. Qed.

Lemma lookup_bytes_of s p n (i : nat) : Z.of_nat i < n -> bytes_of s p n !! i = Some (byte_at s (p + Z.of_nat i)).
Proof using Type. intros. unfold bytes_of. rewrite list_lookup_fmap, lookup_seqZ_lt by lia. done. Qed.

(** Bytes inside one page. *)
Lemma page_bytes_of s i o start n : pages s !! Z.to_nat i = Some o -> 0 <= i -> 0 <= start -> 0 <= n -> start + n <= ps ->
  bytes_of s (i * ps + start) n = match o with
    | Some p => (fun j => byte_of (Page.contents p) (start + j)) <$> seqZ 0 n
    | None => replicate (Z.to_nat n) Byte.x00
    end.
Proof.
  intros Ho Hi Hs Hn Hle. pose proof ps_pos. apply list_eq. intros j.
  destruct (Z.lt_ge_cases (Z.of_nat j) n) as [Hj|Hj].
  - rewrite lookup_bytes_of by done. unfold byte_at.
    replace (i * ps + start + Z.of_nat j) with ((start + Z.of_nat j) + i * ps) by lia.
    rewrite Z.div_add, Z.mod_add, Z.div_small, Z.mod_small by lia. rewrite Z.add_0_l, Ho.
    destruct o; [by rewrite list_lookup_fmap, lookup_seqZ_lt by lia|]. by rewrite lookup_replicate_2 by lia.
  - unfold bytes_of. rewrite list_lookup_fmap, lookup_seqZ_ge by lia.
    destruct o; [by rewrite list_lookup_fmap, lookup_seqZ_ge by lia|]. symmetry. apply lookup_ge_None. rewrite length_replicate. lia.
Qed.

Lemma subrange_bytes (b : list byte) start n : 0 <= start -> 0 <= n -> start + n <= zlen b ->
  subrange b start n = (fun j => byte_of b (start + j)) <$> seqZ 0 n.
Proof using Type.
  intros Hs Hn Hl. apply list_eq. intros j. rewrite list_lookup_fmap. destruct (Z.lt_ge_cases (Z.of_nat j) n).
  - rewrite lookup_subrange, lookup_seqZ_lt by lia. cbn. unfold byte_of.
    destruct (lookup_lt_is_Some_2 b (Z.to_nat (start + Z.of_nat j)) ltac:(lia)) as [x Hx].
    replace (start + (0 + Z.of_nat j)) with (start + Z.of_nat j) by lia. by rewrite Hx.
  - rewrite lookup_seqZ_ge by lia. apply lookup_ge_None. pose proof (length_subrange b start n Hs Hn Hl). lia.
Qed.

Lemma copy_spans_ok s spans p n : Spans.tiles ps p n spans -> pages_ok s -> 0 <= p -> p + n <= cs ->
  CacheSlice.copy_spans s spans = Ok (bytes_of s p n).
Proof.
  intros Ht Hok. pose proof ps_pos. pose proof (po_count _ Hok).
  induction Ht as [p|p n sp spans Hs Ho Hle Hp Hfull Ht IH]; intros Hp0 Hc; [done|].
  pose proof (Spans.tiles_nonneg _ _ _ _ Ht). cbn [CacheSlice.copy_spans]. rewrite IH by lia.
  replace n with (Spans.len sp + (n - Spans.len sp)) by lia. rewrite bytes_of_split by lia.
  replace (Spans.len sp + (n - Spans.len sp) - Spans.len sp) with (n - Spans.len sp) by lia.
  assert (0 <= Spans.index sp < zlen (pages s)) by nia.
  destruct (lookup_lt_is_Some_2 (pages s) (Z.to_nat (Spans.index sp)) ltac:(lia)) as [o Ho'].
  rewrite Ho', <-Hp, (page_bytes_of _ _ _ _ _ Ho') by lia. destruct o as [q|]; [|done]. cbn [result_bind].
  rewrite <-subrange_bytes; [by destruct q|lia..|]. rewrite (po_page _ Hok _ _ Ho'). lia.
Qed.

Lemma copy_into_ok s off n : slice_ok s -> 0 <= off -> 0 <= n ->
  CacheSlice.copy_into cfg s off n = Ok (bytes_of s off (Z.min n (len s - off))).
Proof.
  intros Hok Ho Hn. pose proof (so_len _ Hok). unfold CacheSlice.copy_into.
  destruct (Z.eqb_spec n 0) as [->|]; [|destruct (Z.leb_spec (len s) off)]; cbn [orb].
  1,2: by rewrite bytes_of_nil by lia.
  apply copy_spans_ok; [apply page_spans_tile; lia|apply Hok|lia..].
Qed.

(** [buf], a copy of positions from [off] on, with what the slice has written
    laid over it. *)
Definition overlaid (s : CacheSlice) (off : Z) (buf : list byte) : list byte :=
  imap (fun i b => if written_at s (off + Z.of_nat i) then byte_at s (off + Z.of_nat i) else b) buf.

Lemma in_ranges_lo lo l x : ranges_ok lo l -> in_ranges l x = true -> lo < x.
Proof using Type.
  revert lo. induction l as [|[a b] l IH]; intros lo; [done|]. cbn. unfold in_range at 1. cbn. intros (?&?&Hl).
  destruct (in_ranges l x) eqn:E; [specialize (IH _ Hl eq_refl); lia|]. unfold in_ranges in E. rewrite E. lia.
Qed.

Lemma copy_ranges_ok s off ranges lo buf : slice_ok s -> 0 <= off ->
  ranges_ok lo ranges -> (forall x, in_ranges ranges x = true -> x < len s) ->
  exists copied, CacheSlice.copy_ranges cfg s off (off + zlen buf) ranges buf =
    Ok (copied, imap (fun i b => if in_ranges ranges (off + Z.of_nat i) then byte_at s (off + Z.of_nat i) else b) buf) /\
    forall x, in_ranges copied x = in_range x (off, off + zlen buf) && in_ranges ranges x.
Proof.
  intros Hok Ho. revert lo buf. induction ranges as [|[a b] ranges IH]; intros lo buf Hr Hlen.
  { exists []. cbn. split; [|intros; by rewrite andb_false_r]. do 2 f_equal. apply list_eq. intros i.
    rewrite list_lookup_imap. by destruct (buf !! i). }
  destruct Hr as (Ha & Hab & Hr).
  assert (forall x, in_ranges ranges x = true -> x < len s) as Hlen'.
  { intros x Hx. apply Hlen. cbn. unfold in_ranges in Hx. rewrite Hx. apply orb_true_r. }
  assert (b <= len s) as Hbl.
  { assert (b - 1 < len s); [|lia]. apply Hlen. cbn. unfold in_range. cbn. lia. }
  cbn [CacheSlice.copy_ranges]. set (rs := Z.max off a). set (re := Z.min _ b).
  destruct (Z.leb_spec re rs) as [Hle|Hlt].
  - destruct (IH b buf Hr Hlen') as (copied & -> & Hcop). exists copied. split.
    + do 2 f_equal. apply imap_ext. intros i x Hi. apply lookup_lt_Some in Hi. cbn [in_ranges existsb].
      change (existsb (in_range (off + Z.of_nat i)) ranges) with (in_ranges ranges (off + Z.of_nat i)).
      range_cases; [lia|done].
    + intros x. rewrite Hcop. cbn [in_ranges existsb]. range_cases; try done; lia.
  - rewrite copy_into_ok by (done || lia). cbn [result_bind].
    replace (Z.min (re - rs) (len s - rs)) with (re - rs) by lia.
    set (buf' := splice buf _ _). pose proof (length_bytes_of s rs (re - rs) ltac:(lia)) as Hbl'.
    assert (length buf' = length buf) as Hb' by (apply length_splice; lia).
    destruct (IH b buf' Hr Hlen') as (copied & E & Hcop). rewrite Hb' in E, Hcop. rewrite E. cbn [result_bind].
    rewrite Hbl', (proj2 (Z.ltb_lt _ _)) by lia. eexists. split; [do 2 f_equal|].
    + apply list_eq. intros i. rewrite !list_lookup_imap. subst buf'. rewrite lookup_splice by lia.
      cbn [in_ranges existsb].
      change (existsb (in_range (off + Z.of_nat i)) ranges) with (in_ranges ranges (off + Z.of_nat i)).
      case_decide as Hd.
      * rewrite lookup_bytes_of by lia. destruct (lookup_lt_is_Some_2 buf i ltac:(lia)) as [y ->]. cbn.
        range_cases; [|lia]. cbn [orb]. replace (rs + Z.of_nat (i - _)) with (off + Z.of_nat i) by lia.
        by destruct (in_ranges _ _).
      * destruct (buf !! i) as [y|] eqn:Ey; [|done]. apply lookup_lt_Some in Ey. cbn. range_cases; [lia|done].
    + intros x. cbn [in_ranges existsb]. change (existsb (in_range x) copied) with (in_ranges copied x).
      rewrite Hcop. range_cases; try lia; try done.
Qed.

Lemma copy_written_into_ok s off buf : slice_ok s -> 0 <= off -> off + zlen buf < u64_modulus ->
  exists copied, CacheSlice.copy_written_into cfg s off buf = Ok (copied, overlaid s off buf) /\
    forall x, in_ranges copied x = in_range x (off, off + zlen buf) && written_at s x.
Proof.
  intros Hok Ho Hu. unfold CacheSlice.copy_written_into, u64_saturating_add.
  destruct (Z.eqb_spec (zlen buf) 0) as [Hz|Hz].
  - destruct buf; [|cbn in *; lia]. exists []. split; [done|]. intros x. range_cases; [cbn in *; lia|done].
  - rewrite Z.min_r by u64_lia. apply (copy_ranges_ok s off _ (-1)); [done..|apply Hok|apply Hok].
Qed.

(** *** Collecting frozen blocks *)

(** The positions of a range are on no page that may still change. *)
Definition mutable_at (s : CacheSlice) (x : Z) : bool :=
  match pages s !! Z.to_nat (x / ps) with Some (Some p) => negb (Page.frozen p) | _ => false end.
Definition sealed (s : CacheSlice) (p n : Z) : Prop := forall x, p <= x < p + n -> mutable_at s x = false.

(** The bytes of block [b] below [len]. *)
Definition block_bytes (s : CacheSlice) (b : Z) : list byte := bytes_of s (b * bs) (Z.min bs (len s - b * bs)).

(** Pages [j..] of block [b]. *)
Lemma collect_block_ok s b k : forall j rem, pages_ok s -> 0 <= b -> 0 <= j -> j + Z.of_nat k <= ppb -> (b + 1) * bs <= cs ->
  0 <= rem -> sealed s (b * bs + j * ps) (Z.min rem (Z.of_nat k * ps)) ->
  exists parts, CacheSlice.collect_block cfg s b (seqZ j (Z.of_nat k)) rem =
      Ok (parts, rem - Z.min rem (Z.of_nat k * ps)) /\
    concat parts = bytes_of s (b * bs + j * ps) (Z.min rem (Z.of_nat k * ps)).
Proof.
  pose proof ps_pos. pose proof ppb_mul as Hppb. pose proof bs_pos.
  induction k as [|k IH]; intros j rem Hok Hb Hj Hk Hcs Hrem Hse.
  { exists []. rewrite seqZ_nil by lia. cbn [CacheSlice.collect_block]. rewrite bytes_of_nil by lia. split; [do 2 f_equal; lia|done]. }
  rewrite seqZ_cons by lia. replace (Z.pred (Z.of_nat (S k))) with (Z.of_nat k) by lia.
  cbn [CacheSlice.collect_block]. destruct (Z.eqb_spec rem 0) as [->|Hne].
  { exists []. rewrite bytes_of_nil by lia. split; [do 2 f_equal; lia|done]. }
  set (t := Z.min rem ps). set (i := CacheSlice.flat_index cfg b j).
  assert (b * bs + j * ps = i * ps + 0) as Ei by (subst i; unfold CacheSlice.flat_index; rewrite <-Hppb; ring).
  pose proof (po_count _ Hok). assert (0 <= i < zlen (pages s)) as Hi.
  { unfold CacheSlice.flat_index in i. split; [subst i; pose proof ppb_pos; nia|].
    assert (j * ps + ps <= ppb * ps) by nia. nia. }
  destruct (lookup_lt_is_Some_2 (pages s) (Z.to_nat i) ltac:(lia)) as [o Ho]. rewrite Ho.
  assert (exists parts, match o with
      | None => Ok (make_zero_bytes t)
      | Some p => let? b := Page.bytes p in Ok [subrange b 0 t] end = Ok (E := PageError) parts /\
      concat parts = bytes_of s (i * ps + 0) t) as (parts & -> & Hparts).
  { rewrite (page_bytes_of _ _ _ _ _ Ho) by lia. destruct o as [p|].
    - assert (Page.frozen p = true) as Hf.
      { specialize (Hse (b * bs + j * ps) ltac:(lia)). unfold mutable_at in Hse.
        rewrite Ei, Z.add_0_r, Z.div_mul, Ho in Hse by lia. by destruct (Page.frozen p). }
      destruct p as [c|c]; [done|]. eexists. split; [done|]. cbn [concat]. rewrite app_nil_r.
      apply subrange_bytes; [lia..|]. pose proof (po_page _ Hok _ _ Ho) as Hc. cbn in Hc |- *. lia.
    - eexists. split; [done|]. apply make_zero_bytes_exact. lia. }
  cbn [result_bind]. destruct (IH (j + 1) (rem - t)) as (rest & E & Hrest); [done|lia..| |].
  { intros x Hx. apply Hse. lia. }
  unfold Z.succ. rewrite E. cbn [result_bind]. exists (parts ++ rest). split; [do 2 f_equal; lia|].
  rewrite concat_app, Hparts, Hrest, <-Ei.
  destruct (Z.le_gt_cases rem ps).
  - rewrite (bytes_of_nil s _ (Z.min (rem - t) _)), app_nil_r by lia. f_equal. lia.
  - replace (b * bs + (j + 1) * ps) with (b * bs + j * ps + t) by lia.
    rewrite <-bytes_of_split by lia. f_equal. lia.
Qed.

Lemma collect_blocks_ok s k : forall b, pages_ok s -> 0 <= b -> (b + Z.of_nat k) * bs <= cs ->
  sealed s (b * bs) (Z.min (Z.of_nat k * bs) (len s - b * bs)) ->
  exists l, CacheSlice.collect_blocks cfg s (seqZ b (Z.of_nat k)) (Z.max 0 (len s - b * bs)) = Ok l /\
    (fun e => (e.1, concat e.2)) <$> l = (fun b => (b, block_bytes s b)) <$> seqZ b (Z.of_nat k).
Proof.
  pose proof ps_pos. pose proof ppb_mul as Hppb. pose proof bs_pos. pose proof ppb_pos.
  induction k as [|k IH]; intros b Hok Hb Hc Hse; [by exists []|].
  rewrite seqZ_cons by lia. replace (Z.pred (Z.of_nat (S k))) with (Z.of_nat k) by lia.
  cbn [CacheSlice.collect_blocks].
  destruct (collect_block_ok s b (Z.to_nat ppb) 0 (Z.max 0 (len s - b * bs))) as (parts & E & Hparts);
    [done|lia..|nia|lia| |].
  { intros x Hx. apply Hse. nia. }
  rewrite Z2Nat.id in E, Hparts by lia. rewrite E. cbn [result_bind]. rewrite Hppb in *.
  replace (Z.max 0 (len s - b * bs) - Z.min (Z.max 0 (len s - b * bs)) bs)
    with (Z.max 0 (len s - Z.succ b * bs)) by lia.
  destruct (IH (Z.succ b)) as (l & -> & Hl); [done|lia|lia| |].
  { intros x Hx. apply Hse. lia. }
  cbn [result_bind]. eexists. split; [done|]. rewrite !fmap_cons, Hl. f_equal. cbn. f_equal.
  rewrite Hparts. unfold block_bytes. rewrite Z.add_0_r. destruct (Z.le_gt_cases (len s) (b * bs)).
  - by rewrite !bytes_of_nil by lia.
  - f_equal. lia.
Qed.

(** Frozen blocks are collected whole, each with its own bytes. *)
Lemma collect_pages_ok s start stop : pages_ok s -> 0 <= start <= stop -> stop * bs <= cs ->
  sealed s (start * bs) (Z.min ((stop - start) * bs) (len s - start * bs)) ->
  exists l, CacheSlice.collect_pages cfg s start stop = Ok l /\
    (fun e => (e.1, concat e.2)) <$> l =
      if len s <=? start * bs then [] else (fun b => (b, block_bytes s b)) <$> seqZ start (stop - start).
Proof.
  intros Hok Hs Hc Hse. unfold CacheSlice.collect_pages, u64_saturating_sub.
  destruct (Z.leb_spec (len s) (start * bs)).
  - exists []. by rewrite (proj2 (Z.eqb_eq _ _)) by lia.
  - rewrite (proj2 (Z.eqb_neq _ _)) by lia.
    destruct (collect_blocks_ok s (Z.to_nat (stop - start)) start) as (l & E & Hl);
      rewrite ?Z2Nat.id in * by lia; [done|lia|lia|done|]. by exists l.
Qed.

(** *** Freezing *)

Lemma freeze_contents p : Page.contents (Page.freeze_page p) = Page.contents p.
Proof using Type. by destruct p. Qed.

(** Freezing some pages, those at the positions [P]. *)
Record froze (P : Z -> bool) (s s' : CacheSlice) : Prop := {
  fz_ok : slice_ok s';
  fz_len : len s' = len s;
  fz_byte : forall x, byte_at s' x = byte_at s x;
  fz_written : written_ranges s' = written_ranges s;
  fz_frozen : forall x, 0 <= x -> frozen_at s' x = true -> frozen_at s x = true \/ P x = true;
  fz_mutable : forall x, 0 <= x -> mutable_at s' x = mutable_at s x && negb (P x)
}.

Lemma froze_pages s s' (F : nat -> bool) (P : Z -> bool) : slice_ok s ->
  pages s' = imap (fun i p => if F i then Page.freeze_page <$> p else p) (pages s) ->
  len s' = len s -> alloc_bytes s' = alloc_bytes s -> written_ranges s' = written_ranges s ->
  (forall x, 0 <= x -> P x = F (Z.to_nat (x / ps))) -> froze P s s'.
Proof using Type.
  intros [[Hn Hp Ha] Hl Hr Hw Hc] Ep El Ea Er HP.
  assert (forall x, pages s' !! x = (fun p => if F x then Page.freeze_page <$> p else p) <$> pages s !! x) as Hlook.
  { intros x. by rewrite Ep, list_lookup_imap. }
  assert (forall x, byte_at s' x = byte_at s x) as Hb.
  { intros x. unfold byte_at. rewrite Hlook. destruct (pages s !! _) as [[p|]|]; cbn; [|by destruct (F _)|done].
    by destruct (F _); cbn; rewrite ?freeze_contents. }
  constructor; [constructor|done..| |].
  - constructor; [by rewrite Ep, length_imap| |].
    + intros i p. rewrite Hlook. destruct (pages s !! i) as [[q|]|] eqn:E; cbn; [|by destruct (F i)|done].
      intros [= Hq]. destruct (F i); cbn in Hq; injection Hq as <-; rewrite ?freeze_contents; eauto.
    + rewrite Ea, Ha, Ep. f_equal. unfold CacheSlice.allocated. clear. generalize (pages s) as l. intros l. revert F.
      induction l as [|o l IH]; intros F; [done|]. rewrite imap_cons. cbn. specialize (IH (F ∘ S)).
      destruct o, (F 0%nat); cbn in *; unfold compose in *; lia.
  - by rewrite El.
  - by rewrite Er.
  - unfold written_at. rewrite Er, El. apply Hw.
  - intros x Hx. unfold written_at. rewrite Er, Hb. by apply Hc.
  - intros x Hx. unfold frozen_at. rewrite Hlook, HP by done.
    destruct (pages s !! _) as [[p|]|]; cbn; [|by destruct (F _)|done]. destruct (F _); cbn; auto.
  - intros x Hx. unfold mutable_at. rewrite Hlook, HP by done.
    destruct (pages s !! _) as [[p|]|]; cbn; [|by destruct (F _)|done]. destruct (F _), p; done.
Qed.

Lemma freeze_ok s : slice_ok s -> froze (fun _ => true) s (CacheSlice.freeze s).
Proof using Type.
  intros Hok. apply (froze_pages _ _ (fun _ => true)); try done. cbn. apply list_eq. intros i. by rewrite list_lookup_imap, list_lookup_fmap.
Qed.

Lemma freeze_blocks_ok s start stop : slice_ok s -> 0 <= start ->
  froze (fun x => in_range x (start * bs, stop * bs)) s (CacheSlice.freeze_blocks cfg s start stop).
Proof.
  intros Hok Hs. pose proof ps_pos. pose proof ppb_mul as Hppb. eapply froze_pages; try done.
  intros x Hx. cbn. pose proof (Z.div_mod x ps ltac:(lia)). pose proof (Z.mod_pos_bound x ps ltac:(lia)).
  rewrite Z2Nat.id by (apply Z.div_pos; lia). rewrite <-Hppb. unfold in_range. cbn. set (q := x / ps) in *. clearbody q.
  assert ((start * ppb <=? q) = (start * (ppb * ps) <=? x)) as -> by (destruct (Z.leb_spec (start * ppb) q), (Z.leb_spec (start * (ppb * ps)) x); nia).
  by assert ((q <? stop * ppb) = (x <? stop * (ppb * ps))) as -> by (destruct (Z.ltb_spec q (stop * ppb)), (Z.ltb_spec x (stop * (ppb * ps))); nia).
Qed.

(** *** Releasing and cutting *)

Lemma allocated_split (F : nat -> bool) (l : list (option PageBuf)) :
  CacheSlice.allocated (imap (fun i p => if F i then None else p) l) +
  CacheSlice.allocated (imap (fun i p => if F i then p else None) l) = CacheSlice.allocated l.
Proof using Type.
  unfold CacheSlice.allocated. revert F. induction l as [|o l IH]; intros F; [done|].
  rewrite !imap_cons. specialize (IH (F ∘ S)). destruct o, (F 0%nat); cbn in *; unfold compose in *; lia.
Qed.

Lemma drop_pages_ok P s n ranges kept freed : pages_ok s -> CacheSlice.drop_pages cfg P s = (kept, freed) ->
  let s' := mkCacheSlice n (u64_saturating_sub (alloc_bytes s) freed) kept ranges in
  pages_ok s' /\ (forall x, 0 <= x -> byte_at s' x = if P (x / ps) then Byte.x00 else byte_at s x) /\
  (forall x, 0 <= x -> frozen_at s' x = true -> frozen_at s x = true) /\
  (forall x, 0 <= x -> mutable_at s' x = true -> mutable_at s x = true) /\ freed = alloc_bytes s - alloc_bytes s'.
Proof.
  intros [Hn Hp Ha] [= <- <-] s'. pose proof ps_pos.
  pose proof (allocated_split (P ∘ Z.of_nat) (pages s)) as Hal. unfold compose in Hal.
  assert (alloc_bytes s' = ps * CacheSlice.allocated (pages s')) as Ha'.
  { subst s'. cbn [alloc_bytes pages]. rewrite Ha, <-Hal. unfold u64_saturating_sub, CacheSlice.allocated. nia. }
  assert (forall i, pages s' !! i = (fun p => if P (Z.of_nat i) then None else p) <$> pages s !! i) as Hlook.
  { intros i. subst s'. cbn [pages]. by rewrite list_lookup_imap. }
  assert (forall x, 0 <= x -> Z.of_nat (Z.to_nat (x / ps)) = x / ps) as Hx.
  { intros x ?. apply Z2Nat.id, Z.div_pos; lia. }
  split_and!.
  - constructor; [by subst s'; cbn; rewrite length_imap| |done].
    intros i p. rewrite Hlook. destruct (pages s !! i) as [o|] eqn:E; [|done]. cbn.
    destruct (P _); [done|]. intros [= ->]. eauto.
  - intros x ?. unfold byte_at. rewrite Hlook, Hx by done. destruct (pages s !! _) as [o|]; cbn; [|by try destruct (P _)]; by destruct (P _).
  - intros x ?. unfold frozen_at. rewrite Hlook, Hx by done. destruct (pages s !! _) as [o|]; cbn; [|by try destruct (P _)]; by destruct (P _).
  - intros x ?. unfold mutable_at. rewrite Hlook, Hx by done. destruct (pages s !! _) as [o|]; cbn; [|by try destruct (P _)]; by destruct (P _).
  - rewrite Ha', Ha. subst s'. cbn [pages]. rewrite <-Hal. lia.
Qed.

Lemma truncate_written_ok lo l n : ranges_ok lo l ->
  ranges_ok lo (CacheSlice.truncate_written l n) /\
  forall x, in_ranges (CacheSlice.truncate_written l n) x = (x <? n) && in_ranges l x.
Proof using Type.
  revert lo. induction l as [|[a b] l IH]; intros lo Hl; [cbn; split; [done|intros; by rewrite andb_false_r]|].
  destruct Hl as (Ha & Hab & Hl). destruct (IH b Hl) as [H1 H2].
  unfold CacheSlice.truncate_written in *. cbn [omap list_omap fst snd].
  assert (forall x, in_ranges ((a, b) :: l) x = in_range x (a, b) || in_ranges l x) as Hc by done.
  destruct (Z.leb_spec n a) as [Hle|Hgt].
  - split; [by apply (ranges_ok_weaken b); [lia|]|]. intros x. rewrite H2, Hc. destruct (in_ranges l x); unfold in_range; cbn; lia.
  - split.
    + cbn. split_and!; [lia|lia|]. destruct (Z.le_gt_cases b n); [by rewrite Z.min_l|].
      assert (omap (fun r => if n <=? r.1 then None else Some (r.1, r.2 `min` n)) l = []) as ->; [|done].
      clear -Hl H. revert b Hl H. induction l as [|[c d] l IH]; intros b Hl Hb; [done|]. cbn in *. destruct Hl as (?&?&Hl).
      rewrite (proj2 (Z.leb_le n c)) by lia. apply (IH d); [done|lia].
    + intros x. change (in_ranges (?r :: ?k) x) with (in_range x r || in_ranges k x). rewrite H2.
      destruct (in_ranges l x); unfold in_range; cbn; lia.
Qed.

(** Cutting a slice at a page boundary. *)
Lemma truncate_ok s n : slice_ok s -> 0 <= n <= len s -> n mod ps = 0 ->
  exists freed s', CacheSlice.truncate cfg s n = (Ok freed, s') /\ slice_ok s' /\ len s' = n /\
    freed = alloc_bytes s - alloc_bytes s' /\
    (forall x, 0 <= x -> byte_at s' x = if x <? n then byte_at s x else Byte.x00) /\
    (forall x, 0 <= x -> frozen_at s' x = true -> frozen_at s x = true) /\
    (forall x, 0 <= x -> mutable_at s' x = true -> mutable_at s x = true) /\
    (forall x, written_at s' x = (x <? n) && written_at s x).
Proof.
  intros Hok Hn Hm. pose proof ps_pos. pose proof Hok as [Hpo Hl Hr Hw Hc]. unfold CacheSlice.truncate.
  rewrite (proj2 (Z.ltb_ge _ _)) by lia. destruct (Z.eqb_spec n (len s)) as [->|Hne].
  - exists 0, s. split_and!; try done; [lia|..]; intros x; specialize (Hw x); destruct (Z.ltb_spec x (len s)); try done.
    + intros Hx. apply Hc; [done|]. destruct (written_at s x); [|done]. specialize (Hw eq_refl). lia.
    + destruct (written_at s x); [|done]. specialize (Hw eq_refl). lia.
  - destruct (CacheSlice.drop_pages _ _ _) as [kept freed] eqn:E.
    destruct (drop_pages_ok _ _ n (CacheSlice.truncate_written (written_ranges s) n) _ _ Hpo E) as (K1 & K2 & K3 & K4 & K5).
    destruct (truncate_written_ok (-1) (written_ranges s) n Hr) as [T1 T2].
    set (s' := mkCacheSlice _ _ _ _) in *.
    assert (forall x, 0 <= x -> byte_at s' x = if x <? n then byte_at s x else Byte.x00) as Hb.
    { intros x Hx. rewrite K2 by done. pose proof (Z.div_mod n ps ltac:(lia)). rewrite Hm in *.
      pose proof (Z.div_mod x ps ltac:(lia)). pose proof (Z.mod_pos_bound x ps ltac:(lia)).
      assert (div_ceil n ps = n / ps) as -> by (unfold div_ceil; by rewrite Hm).
      destruct (Z.leb_spec (n / ps) (x / ps)), (Z.ltb_spec x n); (done || nia). }
    exists freed, s'. split_and!; try done. constructor; try done; [cbn; lia| |].
    + intros x. unfold written_at. subst s'. cbn [len written_ranges]. rewrite T2. lia.
    + intros x Hx Hwx. rewrite Hb by done. destruct (Z.ltb_spec x n); [|done]. apply Hc; [done|].
      unfold written_at in *. subst s'. cbn [written_ranges] in Hwx. rewrite T2 in Hwx.
      rewrite (proj2 (Z.ltb_lt _ _)) in Hwx by done. done.
Qed.

(** Released blocks read as zeros; the others keep their bytes. *)
Lemma release_all_ok s : slice_ok s -> slice_ok (CacheSlice.release_all s).2.
Proof.
  intros [[P1 P2 P3] O2 O3 O4 O5].
  assert (forall i p, ((fun _ : option PageBuf => @None PageBuf) <$> pages s) !! i <> Some (Some p)) as Hn.
  { intros i p. rewrite list_lookup_fmap. by destruct (pages s !! i). }
  constructor; cbn; try done.
  - constructor; cbn; [by rewrite length_fmap|intros i p Hp; by destruct (Hn i p)|].
    unfold CacheSlice.allocated. replace (omap _ _) with (@nil PageBuf); [cbn; lia|]. clear. by induction (pages s).
  - intros x Hx _. unfold byte_at. cbn [pages]. destruct (((fun _ => None) <$> pages s) !! _) as [[p|]|] eqn:E; [|done..].
    by apply Hn in E.
Qed.

Lemma release_block_ok s idx : slice_ok s ->
  let '(freed, s') := CacheSlice.release_block cfg s idx in
  pages_ok s' /\ freed = alloc_bytes s - alloc_bytes s' /\ len s' = len s /\
  forall x, 0 <= x -> byte_at s' x = if bool_decide (x / bs ∈ idx) then Byte.x00 else byte_at s x.
Proof.
  intros Hok. unfold CacheSlice.release_block. destruct (CacheSlice.drop_pages _ _ _) as [kept freed] eqn:E.
  destruct (drop_pages_ok _ _ (len s) (written_ranges s) _ _ (so_pages _ Hok) E) as (K1 & K2 & _ & _ & K5).
  split_and!; [done..|]. intros x Hx. rewrite K2 by done. pose proof ps_pos. pose proof bs_pos. pose proof ppb_mul as Hppb.
  match goal with |- (if ?a then _ else _) = (if ?b then _ else _) => assert (a = b) as ->; [|done] end.
  apply eq_bool_prop_intro. rewrite bool_decide_spec, !Is_true_true, existsb_exists.
  pose proof (Z.div_mod x bs ltac:(lia)). pose proof (Z.mod_pos_bound x bs ltac:(lia)).
  pose proof (Z.div_mod x ps ltac:(lia)). pose proof (Z.mod_pos_bound x ps ltac:(lia)).
  assert (forall b, (b * ppb <=? x / ps) && (x / ps <? (b + 1) * ppb) = true <-> b = x / bs) as Hb.
  { intros b. set (q := x / ps) in *. set (d := x / bs) in *. clearbody q d. split; [intros|intros ->].
    - assert (b * bs <= x < (b + 1) * bs) by nia. nia.
    - assert (d * ppb <= q < (d + 1) * ppb) by nia. lia. }
  split; [intros (b & Hin & Hb')|intros Hin].
  - apply Hb in Hb' as ->. by apply list_elem_of_In.
  - exists (x / bs). split; [by apply list_elem_of_In|]. by apply Hb.
Qed.

Lemma new_ok : slice_ok (CacheSlice.new cfg).
Proof.
  pose proof blocks_mul as Hbl. pose proof ppb_mul as Hppb. pose proof ppb_pos. pose proof bs_pos. pose proof cs_u64.
  assert (forall i o, pages (CacheSlice.new cfg) !! i = Some o -> o = None) as Hnone.
  { intros i o Hi. by apply lookup_replicate in Hi as [-> _]. }
  constructor; [constructor| |done|done|].
  - cbn. rewrite length_replicate, Z2Nat.id by nia. rewrite <-Z.mul_assoc, Hppb. lia.
  - intros i p Hi. by apply Hnone in Hi.
  - cbn. unfold CacheSlice.allocated. generalize (Z.to_nat (div_ceil cs bs * ppb)). intros n. induction n; cbn in *; lia.
  - cbn. lia.
  - intros x _ _. unfold byte_at. destruct (pages _ !! _) as [[p|]|] eqn:E; [by apply Hnone in E|done..].
Qed.

(** ** A slice is a sparse byte array *)

Inductive SliceOp :=
| WriteOp (off : Z) (buf : list byte) (allow_gap : bool)
| FreezeOp
| FreezeBlocksOp (start stop : Z)
| TruncateOp (n : Z).

(** The operation as the slice does it, [None] when it is refused or fails. *)
Definition op_step (s : CacheSlice) (op : SliceOp) : option CacheSlice :=
  match op with
  | WriteOp off buf gap =>
      match CacheSlice.can_write_with_gap cfg s off (zlen buf) gap with
      | None => None
      | Some action => match CacheSlice.write cfg s off buf action with (Ok _, s) => Some s | (Err _, _) => None end
      end
  | FreezeOp => Some (CacheSlice.freeze s)
  | FreezeBlocksOp start stop => Some (CacheSlice.freeze_blocks cfg s start stop)
  | TruncateOp n => match CacheSlice.truncate cfg s n with (Ok _, s) => Some s | (Err _, _) => None end
  end.

(** When the callers perform it: a write stays in the chunk, is one the slice
    offers to take and touches no frozen page; a cut is at a page boundary. *)
Definition op_enabled (s : CacheSlice) (op : SliceOp) : bool :=
  match op with
  | WriteOp off buf gap =>
      (0 <=? off) && (off + zlen buf <=? cs) &&
      bool_decide (is_Some (CacheSlice.can_write_with_gap cfg s off (zlen buf) gap)) &&
      forallb (fun x => negb (frozen_at s x)) (seqZ off (zlen buf))
  | FreezeOp => true
  | FreezeBlocksOp start _ => 0 <=? start
  | TruncateOp n => (0 <=? n) && (n <=? len s) && (n mod ps =? 0)
  end.

Fixpoint op_run (s : CacheSlice) (ops : list SliceOp) : option CacheSlice :=
  match ops with [] => Some s | op :: ops => op_step s op ≫= fun s => op_run s ops end.
Fixpoint ops_enabled (s : CacheSlice) (ops : list SliceOp) : bool :=
  match ops with
  | [] => true
  | op :: ops => op_enabled s op && match op_step s op with Some s => ops_enabled s ops | None => true end
  end.

(** The array: the bytes written so far, by position. *)
Definition array_step (m : Z -> option byte) (op : SliceOp) : Z -> option byte :=
  match op with
  | WriteOp off buf _ => fun x => if in_range x (off, off + zlen buf) then Some (byte_of buf (x - off)) else m x
  | FreezeOp | FreezeBlocksOp _ _ => m
  | TruncateOp n => fun x => if x <? n then m x else None
  end.
Definition array_of (ops : list SliceOp) : Z -> option byte := foldl array_step (fun _ => None) ops.

Definition holds (s : CacheSlice) (m : Z -> option byte) : Prop :=
  slice_ok s /\ forall x, 0 <= x -> m x = if written_at s x then Some (byte_at s x) else None.

Lemma holds_byte s m x : holds s m -> 0 <= x -> byte_at s x = default Byte.x00 (m x).
Proof using Type.
  intros [Hok Hm] Hx. rewrite Hm by done. destruct (written_at s x) eqn:E; [done|]. by apply (so_clean _ Hok).
Qed.

Lemma op_step_holds s m op : holds s m -> op_enabled s op = true ->
  exists s', op_step s op = Some s' /\ holds s' (array_step m op).
Proof.
  intros [Hok Hm] He. destruct op as [off buf gap| |start stop|n]; cbn [op_enabled op_step array_step] in *.
  - rewrite !andb_true_iff, bool_decide_eq_true, forallb_forall in He. destruct He as [[[? ?] [action Ha]] Hth].
    destruct (write_ok s off buf gap action) as (s' & E & [P1 P2 P3 P4 _]); [done|lia|lia|done| |].
    { intros x Hx. apply negb_true_iff, Hth, list_elem_of_In, elem_of_seqZ. lia. }
    rewrite Ha, E. exists s'. split; [done|]. split; [done|]. intros x Hx.
    rewrite P3, P4, Hm by done. by range_cases.
  - pose proof (freeze_ok s Hok) as [F1 _ F2 F3 _ _]. eexists. split; [done|]. split; [done|].
    intros x Hx. unfold written_at. by rewrite F2, F3, Hm.
  - pose proof (freeze_blocks_ok s start stop Hok ltac:(lia)) as [F1 _ F2 F3 _ _]. eexists. split; [done|].
    split; [done|]. intros x Hx. unfold written_at. by rewrite F2, F3, Hm.
  - destruct (truncate_ok s n) as (freed & s' & -> & T1 & _ & _ & T2 & _ & _ & T3); [done|lia|lia|].
    exists s'. split; [done|]. split; [done|]. intros x Hx. rewrite T2, T3, Hm by done. by destruct (x <? n).
Qed.

Lemma op_run_holds ops : forall s m, holds s m -> ops_enabled s ops = true ->
  exists s', op_run s ops = Some s' /\ holds s' (foldl array_step m ops).
Proof.
  induction ops as [|op ops IH]; intros s m Hh He; [by exists s|]. cbn in *. apply andb_true_iff in He as [He Hrest].
  destruct (op_step_holds s m op Hh He) as (s1 & E & Hh1). rewrite E in *. cbn. by apply IH.
Qed.

(** Reading a range through the array. *)
Definition array_over (m : Z -> option byte) (off : Z) (buf : list byte) : list byte :=
  imap (fun i b => default b (m (off + Z.of_nat i))) buf.
Definition array_block (m : Z -> option byte) (n b : Z) : list byte :=
  (fun x => default Byte.x00 (m x)) <$> seqZ (b * bs) (Z.min bs (n - b * bs)).

Lemma block_bytes_array s m b : holds s m -> 0 <= b -> block_bytes s b = array_block m (len s) b.
Proof.
  intros Hh Hb. unfold block_bytes, bytes_of, array_block. apply list_fmap_ext. intros i x Hi.
  apply lookup_seqZ in Hi as [-> Hi]. pose proof bs_pos. apply holds_byte; [done|nia].
Qed.


End exact.

(** Four blocks of two pages of two bytes. *)
Definition small_config : WriteConfig := {|
  layout := {| chunk_size := 16; block_size := 4 |}; page_size := 2; freeze_min_bytes := 0;
  writeback_mode := UploadBeforeCommit; cached_block_assembler := false;
  writeback_require_stage_before_commit := false; upload_before_commit_prefix_split := false |}.

Lemma small_config_ok : config_ok small_config.
Proof. constructor; [constructor|..]; vm_compute; intuition congruence. Qed.

Definition small_ops : list SliceOp :=
  [WriteOp 0 [Byte.x01; Byte.x02; Byte.x03; Byte.x04; Byte.x05] false; FreezeBlocksOp 0 1;
   WriteOp 5 [Byte.x06] false; WriteOp 9 [Byte.x07; Byte.x08] true; WriteOp 4 [Byte.x09] false;
   TruncateOp 10; FreezeOp].

