(* ===== verification/WriteBuffer.v ===== *)
(** The write buffer of one chunk of an open file, [src/vfs/io/writer.rs]:
    dirty slices, their upload, and the task that publishes them.

    A write goes into a slice of the chunk's queue or opens a new one
    ([find_slice_or_create], [ChunkHandle::write_at]).  A slice is frozen by
    size, age or an explicit flush, its blocks are dispatched and uploaded
    ([prepare_upload], [advance_upload_range]), and the chunk's commit task
    appends the slices to the chunk's metadata front first ([try_commit],
    [commit_chunk]).  Reads see the slices that are not published yet laid over
    what the metadata and the block store hold ([overlay_dirty]).

    Slices are shared between the tasks by [Arc], so they live in a heap of
    numbered cells.  One [Event] is one section of the code that runs under the
    writer's or the slice's lock, or one outcome of the store or the metadata
    service; [step] runs it and [run] a sequence of them.  The writer keeps one
    such buffer per chunk; they share the order counter, the error flag and the
    epoch, which are part of the state here.

    Not modelled: waiting and wake-ups, memory accounting, backpressure,
    statistics, and uploads of coalesced objects (a store whose
    [write_coalesce_limit] is zero). *)
From stdpp Require Import options.
From S2P Require Import Prelude Span Intervals Slices BlockStore Reader Writer PageCache.

Abbreviation SliceDesc := Slice.SliceDesc.

Definition MAX_UNFLUSHED_SLICES : Z := 3.
Definition COMMIT_META_MAX_RETRIES : nat := 15.
Definition UPLOAD_MAX_RETRIES : nat := 5.

Inductive SliceStatus := Writable | Readonly | Uploaded | Failed | Committed.
Inductive SliceFreezeReason := SizeOrChunkEnd | MaxUnflushed | ExplicitFlush | Auto | CommitAgeSafety.
Inductive WriteOrigin := Normal | Cached.
Inductive WriteOriginKind := Unknown | NormalOnly | CachedOnly | Mixed.

Definition origin_mask (o : WriteOrigin) : Z := match o with Normal => 1 | Cached => 2 end.

#[global] Instance SliceStatus_eq_dec : EqDecision SliceStatus.
Proof. solve_decision. Defined.

(** ** Slices *)

Record SliceState := mkSliceState {
  state : SliceStatus;
  slice_id : option Z;
  offset : Z;
  uploaded : Z;
  dispatched_end : Z;
  block_done : Z;
  in_flight : Z;
  upload_task_active : bool;
  writeback_persisted_bytes : Z;
  writeback_record_sealing : bool;
  writeback_record_sealed : bool;
  data : CacheSlice;
  err : bool;
  frozen_epoch : Z;
  meta_write_started : bool;
  freeze_reason : option SliceFreezeReason;
  creation_unique : Z;
  write_order : Z;
  max_write_unique : Z;
  write_origin_mask : Z }.

(** Assignments to the fields. *)
Definition set_state v s := mkSliceState v (slice_id s) (offset s) (uploaded s) (dispatched_end s) (block_done
  s) (in_flight s) (upload_task_active s) (writeback_persisted_bytes s) (writeback_record_sealing s)
  (writeback_record_sealed s) (data s) (err s) (frozen_epoch s) (meta_write_started s) (freeze_reason s)
  (creation_unique s) (write_order s) (max_write_unique s) (write_origin_mask s).
Definition set_slice_id v s := mkSliceState (state s) v (offset s) (uploaded s) (dispatched_end s) (block_done
  s) (in_flight s) (upload_task_active s) (writeback_persisted_bytes s) (writeback_record_sealing s)
  (writeback_record_sealed s) (data s) (err s) (frozen_epoch s) (meta_write_started s) (freeze_reason s)
  (creation_unique s) (write_order s) (max_write_unique s) (write_origin_mask s).
Definition set_uploaded v s := mkSliceState (state s) (slice_id s) (offset s) v (dispatched_end s) (block_done
  s) (in_flight s) (upload_task_active s) (writeback_persisted_bytes s) (writeback_record_sealing s)
  (writeback_record_sealed s) (data s) (err s) (frozen_epoch s) (meta_write_started s) (freeze_reason s)
  (creation_unique s) (write_order s) (max_write_unique s) (write_origin_mask s).
Definition set_dispatched_end v s := mkSliceState (state s) (slice_id s) (offset s) (uploaded s) v (block_done
  s) (in_flight s) (upload_task_active s) (writeback_persisted_bytes s) (writeback_record_sealing s)
  (writeback_record_sealed s) (data s) (err s) (frozen_epoch s) (meta_write_started s) (freeze_reason s)
  (creation_unique s) (write_order s) (max_write_unique s) (write_origin_mask s).
Definition set_block_done v s := mkSliceState (state s) (slice_id s) (offset s) (uploaded s) (dispatched_end
  s) v (in_flight s) (upload_task_active s) (writeback_persisted_bytes s) (writeback_record_sealing s)
  (writeback_record_sealed s) (data s) (err s) (frozen_epoch s) (meta_write_started s) (freeze_reason s)
  (creation_unique s) (write_order s) (max_write_unique s) (write_origin_mask s).
Definition set_in_flight v s := mkSliceState (state s) (slice_id s) (offset s) (uploaded s) (dispatched_end s)
  (block_done s) v (upload_task_active s) (writeback_persisted_bytes s) (writeback_record_sealing s)
  (writeback_record_sealed s) (data s) (err s) (frozen_epoch s) (meta_write_started s) (freeze_reason s)
  (creation_unique s) (write_order s) (max_write_unique s) (write_origin_mask s).
Definition set_upload_task_active v s := mkSliceState (state s) (slice_id s) (offset s) (uploaded s)
  (dispatched_end s) (block_done s) (in_flight s) v (writeback_persisted_bytes s) (writeback_record_sealing s)
  (writeback_record_sealed s) (data s) (err s) (frozen_epoch s) (meta_write_started s) (freeze_reason s)
  (creation_unique s) (write_order s) (max_write_unique s) (write_origin_mask s).
Definition set_writeback_persisted_bytes v s := mkSliceState (state s) (slice_id s) (offset s) (uploaded s)
  (dispatched_end s) (block_done s) (in_flight s) (upload_task_active s) v (writeback_record_sealing s)
  (writeback_record_sealed s) (data s) (err s) (frozen_epoch s) (meta_write_started s) (freeze_reason s)
  (creation_unique s) (write_order s) (max_write_unique s) (write_origin_mask s).
Definition set_writeback_record_sealing v s := mkSliceState (state s) (slice_id s) (offset s) (uploaded s)
  (dispatched_end s) (block_done s) (in_flight s) (upload_task_active s) (writeback_persisted_bytes s) v
  (writeback_record_sealed s) (data s) (err s) (frozen_epoch s) (meta_write_started s) (freeze_reason s)
  (creation_unique s) (write_order s) (max_write_unique s) (write_origin_mask s).
Definition set_writeback_record_sealed v s := mkSliceState (state s) (slice_id s) (offset s) (uploaded s)
  (dispatched_end s) (block_done s) (in_flight s) (upload_task_active s) (writeback_persisted_bytes s)
  (writeback_record_sealing s) v (data s) (err s) (frozen_epoch s) (meta_write_started s) (freeze_reason s)
  (creation_unique s) (write_order s) (max_write_unique s) (write_origin_mask s).
Definition set_data v s := mkSliceState (state s) (slice_id s) (offset s) (uploaded s) (dispatched_end s)
  (block_done s) (in_flight s) (upload_task_active s) (writeback_persisted_bytes s) (writeback_record_sealing
  s) (writeback_record_sealed s) v (err s) (frozen_epoch s) (meta_write_started s) (freeze_reason s)
  (creation_unique s) (write_order s) (max_write_unique s) (write_origin_mask s).
Definition set_err v s := mkSliceState (state s) (slice_id s) (offset s) (uploaded s) (dispatched_end s)
  (block_done s) (in_flight s) (upload_task_active s) (writeback_persisted_bytes s) (writeback_record_sealing
  s) (writeback_record_sealed s) (data s) v (frozen_epoch s) (meta_write_started s) (freeze_reason s)
  (creation_unique s) (write_order s) (max_write_unique s) (write_origin_mask s).
Definition set_frozen_epoch v s := mkSliceState (state s) (slice_id s) (offset s) (uploaded s) (dispatched_end
  s) (block_done s) (in_flight s) (upload_task_active s) (writeback_persisted_bytes s)
  (writeback_record_sealing s) (writeback_record_sealed s) (data s) (err s) v (meta_write_started s)
  (freeze_reason s) (creation_unique s) (write_order s) (max_write_unique s) (write_origin_mask s).
Definition set_meta_write_started v s := mkSliceState (state s) (slice_id s) (offset s) (uploaded s)
  (dispatched_end s) (block_done s) (in_flight s) (upload_task_active s) (writeback_persisted_bytes s)
  (writeback_record_sealing s) (writeback_record_sealed s) (data s) (err s) (frozen_epoch s) v (freeze_reason
  s) (creation_unique s) (write_order s) (max_write_unique s) (write_origin_mask s).
Definition set_freeze_reason v s := mkSliceState (state s) (slice_id s) (offset s) (uploaded s)
  (dispatched_end s) (block_done s) (in_flight s) (upload_task_active s) (writeback_persisted_bytes s)
  (writeback_record_sealing s) (writeback_record_sealed s) (data s) (err s) (frozen_epoch s)
  (meta_write_started s) v (creation_unique s) (write_order s) (max_write_unique s) (write_origin_mask s).
Definition set_write_order v s := mkSliceState (state s) (slice_id s) (offset s) (uploaded s) (dispatched_end
  s) (block_done s) (in_flight s) (upload_task_active s) (writeback_persisted_bytes s)
  (writeback_record_sealing s) (writeback_record_sealed s) (data s) (err s) (frozen_epoch s)
  (meta_write_started s) (freeze_reason s) (creation_unique s) v (max_write_unique s) (write_origin_mask s).
Definition set_max_write_unique v s := mkSliceState (state s) (slice_id s) (offset s) (uploaded s)
  (dispatched_end s) (block_done s) (in_flight s) (upload_task_active s) (writeback_persisted_bytes s)
  (writeback_record_sealing s) (writeback_record_sealed s) (data s) (err s) (frozen_epoch s)
  (meta_write_started s) (freeze_reason s) (creation_unique s) (write_order s) v (write_origin_mask s).
Definition set_write_origin_mask v s := mkSliceState (state s) (slice_id s) (offset s) (uploaded s)
  (dispatched_end s) (block_done s) (in_flight s) (upload_task_active s) (writeback_persisted_bytes s)
  (writeback_record_sealing s) (writeback_record_sealed s) (data s) (err s) (frozen_epoch s)
  (meta_write_started s) (freeze_reason s) (creation_unique s) (write_order s) (max_write_unique s) v.

(** [runtime.frozen] and the statuses the code tests together. *)
Definition is_writable (s : SliceState) : bool := bool_decide (state s = Writable).
Definition sealed_status (s : SliceState) : bool :=
  match state s with Readonly | Failed | Committed => true | Writable | Uploaded => false end.

Module SliceState.
Section slice.
Context (cfg : WriteConfig).
#[local] Abbreviation bs := (block_size (PageCache.layout cfg)).

Definition new (off unique : Z) : SliceState := {|
  state := Writable; slice_id := None; offset := off; uploaded := 0; dispatched_end := 0; block_done := 0;
  in_flight := 0; upload_task_active := false; writeback_persisted_bytes := 0;
  writeback_record_sealing := false; writeback_record_sealed := false; data := CacheSlice.new cfg;
  err := false; frozen_epoch := 0; meta_write_started := false; freeze_reason := None;
  creation_unique := unique; write_order := unique; max_write_unique := unique; write_origin_mask := 0 |}.

Definition writeback_data_fully_persisted (s : SliceState) : bool :=
  len (data s) <=? writeback_persisted_bytes s.

Definition writeback_fully_persisted (s : SliceState) : bool :=
  writeback_data_fully_persisted s && writeback_record_sealed s.

(** Where the bytes not yet dispatched start. *)
Definition pending_start (s : SliceState) : Z := Z.max (dispatched_end s * bs) (uploaded s).

Definition can_write (s : SliceState) (off n : Z) (allow_gap_from : option Z) : option WriteAction :=
  if negb (is_writable s) || (off <? offset s) then None else
  let off_to_slice := off - offset s in
  if off_to_slice <? pending_start s then None else
  let allow_gap := match allow_gap_from with
                   | Some safe_from => safe_from <=? u64_saturating_add (offset s) (len (data s))
                   | None => false
                   end in
  CacheSlice.can_write_with_gap cfg (data s) off_to_slice n allow_gap.

Definition write (s : SliceState) (off : Z) (buf : list byte) (action : WriteAction) (origin : WriteOrigin) :
    result PageError unit * SliceState :=
  match CacheSlice.write cfg (data s) (off - offset s) buf action with
  | (Err e, d) => (Err e, set_data d s)
  | (Ok _, d) => (Ok tt, set_write_origin_mask (Z.lor (write_origin_mask s) (origin_mask origin)) (set_data d s))
  end.

Definition write_origin_kind (s : SliceState) : WriteOriginKind :=
  match Z.land (write_origin_mask s) (origin_mask Normal) =? 0,
        Z.land (write_origin_mask s) (origin_mask Cached) =? 0 with
  | true, true => Unknown
  | false, true => NormalOnly
  | true, false => CachedOnly
  | false, false => Mixed
  end.

Definition data_range (s : SliceState) : option (Z * Z) :=
  let n := len (data s) in if n =? 0 then None else Some (offset s, offset s + n).

Definition can_coalesce_cached_writable (s : SliceState) : bool :=
  is_writable s && bool_decide (slice_id s = None) && (uploaded s =? 0) && (dispatched_end s =? 0) &&
  (block_done s =? 0) && (in_flight s =? 0) && negb (upload_task_active s) &&
  (writeback_persisted_bytes s =? 0) && negb (writeback_record_sealing s) && negb (writeback_record_sealed s) &&
  negb (err s) && (frozen_epoch s =? 0) && negb (meta_write_started s) && bool_decide (freeze_reason s = None) &&
  (0 <? len (data s)) && (CacheSlice.contiguous_written_len (data s) =? len (data s)) &&
  match write_origin_kind s with CachedOnly => true | _ => false end.

Definition write_range_has_written_overlap (s : SliceState) (off n : Z) : bool :=
  let stop := u64_saturating_add off n in
  if stop <=? off then false else
  let slice_end := u64_saturating_add (offset s) (len (data s)) in
  let overlap_start := Z.max off (offset s) in
  let overlap_end := Z.min stop slice_end in
  if overlap_end <=? overlap_start then false else
  CacheSlice.has_written_overlap (data s) (overlap_start - offset s) (overlap_end - overlap_start).

Definition upload_ready_len (s : SliceState) : Z :=
  if is_writable s then CacheSlice.contiguous_written_len (data s) else len (data s).

Definition has_idle_block (s : SliceState) : bool :=
  let remaining := u64_saturating_sub (upload_ready_len s) (pending_start s) in
  if sealed_status s then 0 <? remaining else bs <=? remaining.

Definition idx_need_upload (s : SliceState) : Z * Z :=
  let ready_len := upload_ready_len s in
  (dispatched_end s,
   if sealed_status s then (if ready_len =? 0 then 0 else div_ceil ready_len bs) else ready_len / bs).

Definition upload_complete (s : SliceState) : bool := (in_flight s =? 0) && negb (has_idle_block s).

Definition can_overlay_read (s : SliceState) : bool :=
  match state s with Committed => negb (upload_complete s) | _ => true end.

End slice.
End SliceState.

(** ** What the tasks do with a slice *)
Module SliceHandle.
Section slice.
Context (cfg : WriteConfig).
#[local] Abbreviation bs := (block_size (PageCache.layout cfg)).
#[local] Abbreviation cs := (chunk_size (PageCache.layout cfg)).

Definition can_freeze_for_max_unflushed (s : SliceState) : bool :=
  is_writable s && SliceState.has_idle_block cfg s.

Definition try_write (s : SliceState) (off : Z) (buf : list byte) (origin : WriteOrigin)
    (allow_gap_from : option Z) : result PageError bool * SliceState :=
  match SliceState.can_write cfg s off (zlen buf) allow_gap_from with
  | None => (Ok false, s)
  | Some action =>
      match SliceState.write cfg s off buf action origin with
      | (Err e, s) => (Err e, s)
      | (Ok _, s) => (Ok true, s)
      end
  end.

Definition freeze_with_reason (reason : SliceFreezeReason) (epoch : Z) (s : SliceState) : bool * SliceState :=
  if negb (is_writable s) then (false, s) else
  if len (data s) =? 0 then (false, set_err false (set_state Committed s)) else
  let s := set_data (CacheSlice.freeze (data s))
             (set_freeze_reason (Some reason) (set_frozen_epoch epoch (set_state Readonly s))) in
  (true, if (in_flight s =? 0) && negb (SliceState.has_idle_block cfg s)
         then set_err false (set_state Uploaded s) else s).

(** The pages of a published slice go once its upload is complete. *)
Definition clear_recent_pending_if_complete (s : SliceState) : SliceState :=
  if SliceState.upload_complete cfg s && bool_decide (state s = Committed)
  then set_data (CacheSlice.release_all (data s)).2 s else s.

(** [while current_block < 64 && (done >> current_block) & 1 == 1]. *)
Fixpoint contiguous_done (fuel : nat) (done current : Z) : Z :=
  match fuel with
  | O => current
  | S fuel => if (current <? 64) && Z.testbit done current then contiguous_done fuel done (current + 1) else current
  end.

Definition mark_blocks (done start stop : Z) : Z :=
  foldl (fun d i => if i <? 64 then Z.lor d (Z.shiftl 1 i) else d) done (seqZ start (stop - start)).

Definition advance_upload_range (start stop : Z) (s : SliceState) : SliceState :=
  let done := mark_blocks (block_done s) start stop in
  let new_uploaded := contiguous_done 64 done (uploaded s / bs) * bs in
  let s := set_uploaded (if uploaded s <? new_uploaded then new_uploaded else uploaded s)
             (set_in_flight (u32_saturating_sub (in_flight s) 1) (set_block_done done s)) in
  let s := match state s with
           | Readonly | Failed =>
               if (in_flight s =? 0) && negb (SliceState.has_idle_block cfg s)
               then set_err false (set_state Uploaded s) else s
           | _ => s
           end in
  clear_recent_pending_if_complete s.

Definition should_freeze (s : SliceState) : bool :=
  let ready_len := SliceState.upload_ready_len s in
  if ready_len <? len (data s) then false
  else (cs <=? offset s + ready_len) || (freeze_min_bytes cfg <=? ready_len).

Definition upload_done (s : SliceState) : bool :=
  match state s with Uploaded | Committed => true | _ => false end.
Definition can_commit (s : SliceState) : bool := bool_decide (state s = Uploaded).

Definition can_continue_upload (s : SliceState) : bool :=
  SliceState.has_idle_block cfg s && negb (upload_task_active s).

Definition mark_failed (s : SliceState) : SliceState :=
  set_err true (set_upload_task_active false (set_in_flight 0 (set_state Failed s))).

Definition mark_writeback_persisted (bytes : Z) (s : SliceState) : SliceState :=
  set_writeback_persisted_bytes (u64_saturating_add (writeback_persisted_bytes s) bytes) s.

Definition claim_writeback_record_seal (s : SliceState) : option SliceState :=
  if is_writable s || negb (SliceState.writeback_data_fully_persisted s) ||
     writeback_record_sealed s || writeback_record_sealing s then None else
  match slice_id s with None => None | Some _ => Some (set_writeback_record_sealing true s) end.

Definition mark_writeback_record_sealed (s : SliceState) : SliceState :=
  set_writeback_record_sealed true (set_writeback_record_sealing false s).

(** The plan is the batch's first block, its end and its blocks with their pages. *)
Definition prepare_upload (s : SliceState) :
    result PageError (option (Z * Z * list (Z * list (list byte)))) * SliceState :=
  if bool_decide (state s = Failed) then (Ok None, s) else
  if negb (SliceState.has_idle_block cfg s) then (Ok None, s) else
  let '(start, stop) := SliceState.idx_need_upload cfg s in
  if stop <=? start then (Ok None, s) else
  let s := set_data (CacheSlice.freeze_blocks cfg (data s) start stop) s in
  match CacheSlice.collect_pages cfg (data s) start stop with
  | Err e => (Err e, s)
  | Ok plan => (Ok (Some (start, stop, plan)), set_in_flight (in_flight s + 1) (set_dispatched_end stop s))
  end.

Definition set_slice_id_once (id : Z) (s : SliceState) : SliceState :=
  match slice_id s with None => set_slice_id (Some id) s | Some _ => s end.

(** [chunk_id] is the chunk's. *)
Definition desc_for_commit (chunk_id : Z) (s : SliceState) : option SliceDesc :=
  match slice_id s with
  | None => None
  | Some id => if len (data s) =? 0 then None
               else Some (Slice.mkSlice id chunk_id (offset s) (len (data s)))
  end.

Definition mark_committed (s : SliceState) : SliceState := set_state Committed s.

End slice.
End SliceHandle.

(** ** The chunk's queue *)

Record ChunkState := mkChunkState {
  slices : list nat; recently_committed : list nat; commit_started : bool }.

(** A batch of blocks on its way to the store. *)
Record Batch := mkBatch {
  bt_slice : nat; bt_id : Z; bt_start : Z; bt_stop : Z; bt_data : list (Z * list (list byte)) }.

(** Where a commit task of the chunk stands: about to look at the queue, about
    to look again after finding it empty, holding the front slice, about to
    take the slice it published off the queue, about to move it to the recently
    committed ones, or gone. *)
Inductive TaskPc := AtTop | SawEmpty | AtFront (r : nat) | AtPop (r : nat) | AtMove (r : nat) | Ended.
Record Task := mkTask { pc : TaskPc; commit_failures : nat }.

Record Buffer (S : Type) := mkBuffer {
  heap : gmap nat SliceState;
  next_ref : nat;
  chunk : option ChunkState;
  order : Z;
  gated : list Z;
  error : bool;
  data_epoch : Z;
  batches : list Batch;
  tasks : list Task;
  published : list SliceDesc;
  store : S }.
Arguments mkBuffer {S} _ _ _ _ _ _ _ _ _ _ _.
Arguments heap {S} _.
Arguments next_ref {S} _.
Arguments chunk {S} _.
Arguments order {S} _.
Arguments gated {S} _.
Arguments error {S} _.
Arguments data_epoch {S} _.
Arguments batches {S} _.
Arguments tasks {S} _.
Arguments published {S} _.
Arguments store {S} _.

Section assign.
Context {S : Type}.
Definition set_heap v (b : Buffer S) := mkBuffer v (next_ref b) (chunk b) (order b) (gated b) (error b) (data_epoch b) (batches b) (tasks b) (published b) (store b).
Definition set_chunk v (b : Buffer S) := mkBuffer (heap b) (next_ref b) v (order b) (gated b) (error b) (data_epoch b) (batches b) (tasks b) (published b) (store b).
Definition set_order v (b : Buffer S) := mkBuffer (heap b) (next_ref b) (chunk b) v (gated b) (error b) (data_epoch b) (batches b) (tasks b) (published b) (store b).
Definition set_gated v (b : Buffer S) := mkBuffer (heap b) (next_ref b) (chunk b) (order b) v (error b) (data_epoch b) (batches b) (tasks b) (published b) (store b).
Definition set_error (b : Buffer S) := mkBuffer (heap b) (next_ref b) (chunk b) (order b) (gated b) true (data_epoch b) (batches b) (tasks b) (published b) (store b).
Definition set_epoch v (b : Buffer S) := mkBuffer (heap b) (next_ref b) (chunk b) (order b) (gated b) (error b) v (batches b) (tasks b) (published b) (store b).
Definition set_batches v (b : Buffer S) := mkBuffer (heap b) (next_ref b) (chunk b) (order b) (gated b) (error b) (data_epoch b) v (tasks b) (published b) (store b).
Definition set_tasks v (b : Buffer S) := mkBuffer (heap b) (next_ref b) (chunk b) (order b) (gated b) (error b) (data_epoch b) (batches b) v (published b) (store b).
Definition set_published v (b : Buffer S) := mkBuffer (heap b) (next_ref b) (chunk b) (order b) (gated b) (error b) (data_epoch b) (batches b) (tasks b) v (store b).
Definition set_store (v : S) (b : Buffer S) := mkBuffer (heap b) (next_ref b) (chunk b) (order b) (gated b) (error b) (data_epoch b) (batches b) (tasks b) (published b) v.

(** [Arc::new(ParkingMutex::new(s))]. *)
Definition alloc (s : SliceState) (b : Buffer S) : nat * Buffer S :=
  (next_ref b, mkBuffer (<[next_ref b := s]> (heap b)) (1 + next_ref b) (chunk b) (order b) (gated b) (error b) (data_epoch b) (batches b) (tasks b) (published b) (store b)).

(** [slice.lock()] followed by an assignment. *)
Definition update (r : nat) (f : SliceState -> SliceState) (b : Buffer S) : Buffer S := set_heap (alter f r (heap b)) b.

Definition set_slices v (c : ChunkState) := mkChunkState v (recently_committed c) (commit_started c).
Definition set_recent v (c : ChunkState) := mkChunkState (slices c) v (commit_started c).
Definition on_chunk (f : ChunkState -> ChunkState) (b : Buffer S) : Buffer S := set_chunk (f <$> chunk b) b.

(** The slices of the queue, oldest first, and whether a slice is its front. *)
Definition queue (b : Buffer S) : list nat := match chunk b with Some c => slices c | None => [] end.
Definition is_front (r : nat) (b : Buffer S) : bool := bool_decide (head (queue b) = Some r).

(** [shared.record_writeback_error] after [mark_failed], with the slice's
    batches aborted. *)
Definition fail (r : nat) (b : Buffer S) : Buffer S :=
  set_error (set_batches (filter (fun t => bt_slice t <> r) (batches b)) (update r SliceHandle.mark_failed b)).

End assign.

Inductive WriteError := ExceedsChunk | PageFailed (e : PageError) | RetriesExhausted | WritebackFailed.

Section chunk.
Context (cfg : WriteConfig).
(** Whether the local write-back cache is configured; the chunk's id. *)
Context (write_back : bool) (chunk_id : Z).
Context {S : Type} `{!BlockStore S}.
(** The orders in which concurrent block uploads and block reads run. *)
Context (schedule : list (nat * Upload) -> list (nat * Upload)) (completion : list ReadJob -> list ReadJob).

#[local] Abbreviation bs := (block_size (PageCache.layout cfg)).
#[local] Abbreviation cs := (chunk_size (PageCache.layout cfg)).

Definition order_of (h : gmap nat SliceState) (r : nat) : Z := from_option write_order 0 (h !! r).

(** The first place of a queue whose slice is newer than [ord]. *)
Fixpoint insert_by_order (h : gmap nat SliceState) (ord : Z) (r : nat) (l : list nat) : list nat :=
  match l with
  | [] => [r]
  | q :: l' => if negb (order_of h q =? 0) && (ord <? order_of h q) then r :: l else q :: insert_by_order h ord r l'
  end.
Definition insert_slice (h : gmap nat SliceState) (ord : Z) (r : nat) (l : list nat) : list nat :=
  if ord =? 0 then l ++ [r] else insert_by_order h ord r l.

(** The loop over the queue from the newest slice back: the slice to write to,
    the heap and the slices frozen for staying unflushed too long. *)
Fixpoint scan (off n unique : Z) (gap : option Z) (recent : list nat) (epoch : Z)
    (rev_slices : list nat) (idx : Z) (newer : bool) (h : gmap nat SliceState) (flush : list nat) :
    option nat * gmap nat SliceState * list nat :=
  match rev_slices with
  | [] => (None, h, flush)
  | r :: rest =>
      match h !! r with
      | None => (None, h, flush)
      | Some s =>
          let overlap := SliceState.write_range_has_written_overlap s off n in
          let continue newer h flush := scan off n unique gap recent epoch rest (idx + 1) newer h flush in
          match SliceState.can_write cfg s off n gap with
          | Some action =>
              let recent_overlap := existsb (fun q => match h !! q with
                | None => false
                | Some t => ((write_order s =? 0) || (write_order t =? 0) || (write_order s <? write_order t)) &&
                            SliceState.write_range_has_written_overlap t off n
                end) recent in
              if match action with Overlap => overlap | _ => false end then continue true h flush
              else if newer || recent_overlap then continue newer h flush
              else if negb (unique =? 0) && negb (max_write_unique s =? 0) && (unique <? max_write_unique s) && overlap
              then continue newer h flush
              else (Some r, h, flush)
          | None =>
              let newer := newer || overlap in
              if (MAX_UNFLUSHED_SLICES <? idx) && SliceHandle.can_freeze_for_max_unflushed cfg s then
                let '(froze, s) := SliceHandle.freeze_with_reason cfg MaxUnflushed epoch s in
                continue newer (<[r := s]> h) (if froze then flush ++ [r] else flush)
              else continue newer h flush
          end
      end
  end.

(** The slice to write to, whether to start the commit task, and the slices to
    upload.  The queue is taken out of the chunk before the range is checked. *)
Definition find_slice_or_create (off n unique ord : Z) (gap : option Z) (b : Buffer S) :
    result WriteError (nat * bool * list nat) * Buffer S :=
  match chunk b with
  | None => (Err ExceedsChunk, b)
  | Some c =>
      if negb (off + n <=? cs) then (Err ExceedsChunk, on_chunk (set_slices []) b) else
      let '(found, h, flush) :=
        scan off n unique gap (recently_committed c) (data_epoch b) (reverse (slices c)) 0 false (heap b) [] in
      let b := set_heap h b in
      let '(r, b, l) :=
        match found with
        | Some r =>
            (r, if unique =? 0 then b
                else update r (fun s => if max_write_unique s <? unique then set_max_write_unique unique s else s) b,
             slices c)
        | None =>
            let '(r, b) := alloc (set_write_order ord (SliceState.new cfg off unique)) b in
            (r, b, insert_slice (heap b) ord r (slices c))
        end in
      (Ok (r, negb (commit_started c), flush), set_chunk (Some (mkChunkState l (recently_committed c) true)) b)
  end.

(** One pass of the loop of [ChunkHandle::write_at]; the slice found takes the
    write unless another task freezes it in between, which is when the loop
    goes round again. *)
Definition chunk_write_at (off : Z) (buf : list byte) (unique ord : Z) (origin : WriteOrigin) (gap : option Z)
    (b : Buffer S) : result WriteError (bool * list nat) * Buffer S :=
  match find_slice_or_create off (zlen buf) unique ord gap b with
  | (Err e, b) => (Err e, b)
  | (Ok (r, start_commit, flush), b) =>
      match heap b !! r with
      | None => (Err RetriesExhausted, b)
      | Some s =>
          match SliceHandle.try_write cfg s off buf origin gap with
          | (Err e, s) => (Err (PageFailed e), update r (fun _ => s) b)
          | (Ok false, _) => (Err RetriesExhausted, b)
          | (Ok true, s) =>
              let '(froze, s') := if SliceHandle.should_freeze cfg s
                                  then SliceHandle.freeze_with_reason cfg SizeOrChunkEnd (data_epoch b) s else (false, s) in
              let '(should_flush, s) :=
                match writeback_mode cfg, origin with
                | CommitBeforeUpload, _ | _, Normal => (froze, s')
                | UploadBeforeCommit, Cached => if SliceHandle.can_continue_upload cfg s then (true, s) else (froze, s')
                end in
              (Ok (start_commit, if should_flush then flush ++ [r] else flush), update r (fun _ => s) b)
          end
      end
  end.

Definition get_or_create_chunk (b : Buffer S) : Buffer S :=
  match chunk b with Some _ => b | None => set_chunk (Some (mkChunkState [] [] false)) b end.

(** [spawn_flush_slice]: an upload task for the slice, if it has none. *)
Definition spawn_flush_slice (r : nat) (b : Buffer S) : Buffer S := update r (set_upload_task_active true) b.

(** [write_at_inner] for a range inside the chunk, from where it has its order
    and the flush gate is open. *)
Definition write_ordered (off : Z) (buf : list byte) (unique ord : Z) (origin : WriteOrigin) (b : Buffer S) :
    result WriteError Z * Buffer S :=
  match chunk_write_at off buf unique ord origin None (get_or_create_chunk b) with
  | (Err e, b) => (Err e, b)
  | (Ok (start_commit, flush), b) =>
      let b := foldl (fun b r => spawn_flush_slice r b) b flush in
      (Ok (zlen buf), if start_commit then set_tasks (tasks b ++ [mkTask AtTop 0]) b else b)
  end.

Definition next_write_order (b : Buffer S) : Z * Buffer S := let ord := order b + 1 in (ord, set_order ord b).

(** [write_at] and [write_at_cached] when no flush is waiting. *)
Definition write_at_inner (off : Z) (buf : list byte) (unique : Z) (origin : WriteOrigin) (b : Buffer S) :
    result WriteError Z * Buffer S :=
  if error b then (Err WritebackFailed, b) else
  let '(ord, b) := next_write_order b in write_ordered off buf unique ord origin b.

(** An ordinary write that finds a flush waiting takes its order, then waits. *)
Definition write_gated (b : Buffer S) : Buffer S :=
  if error b then b else let '(ord, b) := next_write_order b in set_gated (gated b ++ [ord]) b.
Definition write_released (ord off : Z) (buf : list byte) (b : Buffer S) : result WriteError Z * Buffer S :=
  write_ordered off buf 0 ord Normal (set_gated (filter (fun o => o <> ord) (gated b)) b).

(** *** Coalescing small cached slices before a flush *)

Record CachedCoalesceCandidate := mkCandidate { c_index : nat; c_start : Z; c_end : Z }.

Definition candidate_leb (a b : CachedCoalesceCandidate) : bool :=
  (c_start a <? c_start b) || ((c_start a =? c_start b) &&
    ((c_end a <? c_end b) || ((c_end a =? c_end b) && (c_index a <=? c_index b)%nat))).

Definition candidates (h : gmap nat SliceState) (l : list nat) : list CachedCoalesceCandidate :=
  omap (fun o => o) (imap (fun i r =>
    match h !! r with
    | Some s => if SliceState.can_coalesce_cached_writable s
                then (fun '(a, z) => mkCandidate i a z) <$> SliceState.data_range s else None
    | None => None
    end) l).

Definition cached_coalesce_run_has_external_overlap (h : gmap nat SliceState) (l : list nat)
    (run : list CachedCoalesceCandidate) (run_start run_end : Z) : bool :=
  existsb (fun o => o) (imap (fun i r =>
    if existsb (fun c => (c_index c =? i)%nat) run then false else
    match h !! r ≫= SliceState.data_range with
    | Some (a, z) => (a <? run_end) && (run_start <? z)
    | None => false
    end) l).

Definition valid_cached_coalesce_indices (h : gmap nat SliceState) (l : list nat)
    (run : list CachedCoalesceCandidate) : option (list nat) :=
  match run with
  | [] | [_] => None
  | c :: _ =>
      if cached_coalesce_run_has_external_overlap h l run (c_start c) (foldr Z.max 0 (c_end <$> run)) then None
      else Some (c_index <$> run)
  end.

Fixpoint coalesce_runs (h : gmap nat SliceState) (l : list nat) (allow_overlap : bool)
    (cands run : list CachedCoalesceCandidate) (run_end : Z) : option (list nat) :=
  match cands with
  | [] => valid_cached_coalesce_indices h l run
  | c :: cands =>
      if bool_decide (run = []) then coalesce_runs h l allow_overlap cands [c] (c_end c)
      else if (if allow_overlap then c_start c <=? run_end else c_start c =? run_end)
      then coalesce_runs h l allow_overlap cands (run ++ [c]) (Z.max run_end (c_end c))
      else match valid_cached_coalesce_indices h l run with
           | Some idx => Some idx
           | None => coalesce_runs h l allow_overlap cands [c] (c_end c)
           end
  end.

Definition find_cached_coalesce_run (h : gmap nat SliceState) (l : list nat) (allow_overlap : bool) : option (list nat) :=
  if (length l <? 2)%nat then None
  else coalesce_runs h l allow_overlap (sort_by candidate_leb (candidates h l)) [] 0.

(** The pieces in the order they are laid down: slices of unknown order first,
    then by order. *)
Definition order_leb (a b : SliceState) : bool :=
  match write_order a =? 0, write_order b =? 0 with
  | true, _ => true
  | false, true => false
  | false, false => write_order a <=? write_order b
  end.

Fixpoint lay_pieces (run_start : Z) (pieces : list SliceState) (merged : list byte) : result PageError (list byte) :=
  match pieces with
  | [] => Ok merged
  | s :: pieces =>
      let? bytes := CacheSlice.copy_into cfg (data s) 0 (len (data s)) in
      lay_pieces run_start pieces (splice merged (Z.to_nat (offset s - run_start)) bytes)
  end.

Definition build_coalesced_cached_slice (pieces : list SliceState) : result PageError SliceState :=
  match pieces with
  | [] => Err IndexOutOfBounds
  | first :: _ =>
      let run_start := foldr Z.min (offset first) (offset <$> pieces) in
      let run_end := foldr Z.max run_start ((fun s => u64_saturating_add (offset s) (len (data s))) <$> pieces) in
      let sorted := sort_by order_leb pieces in
      let? merged_data := lay_pieces run_start sorted (replicate (Z.to_nat (run_end - run_start)) Byte.x00) in
      let least := foldr Z.min u64_max (filter (fun u => u <> 0) (creation_unique <$> pieces)) in
      let unique := if least =? u64_max then 0 else least in
      let merged := SliceState.new cfg run_start unique in
      match CacheSlice.append cfg (data merged) merged_data with
      | (Err e, _) => Err e
      | (Ok _, d) =>
          Ok (set_write_order (foldr Z.max 0 (write_order <$> pieces))
               (set_max_write_unique (foldr Z.max 0 (max_write_unique <$> pieces))
                 (set_write_origin_mask (foldr Z.lor 0 (write_origin_mask <$> pieces)) (set_data d merged))))
      end
  end.

(** [true] when a run was replaced by one slice. *)
Definition coalesce_one_cached_slice_run (b : Buffer S) : bool * Buffer S :=
  match chunk b with
  | None => (false, b)
  | Some c =>
      match find_cached_coalesce_run (heap b) (slices c) (cached_block_assembler cfg) with
      | None => (false, b)
      | Some indices =>
          let run := omap (fun i => slices c !! i) indices in
          if (length run <? 2)%nat then (false, b) else
          match build_coalesced_cached_slice (omap (fun r => heap b !! r) run) with
          | Err _ => (false, b)
          | Ok merged =>
              let kept := filter (fun r => r ∉ run) (slices c) in
              let '(r, b) := alloc merged b in
              (true, set_chunk (Some (set_slices (insert_slice (heap b) (write_order merged) r kept) c)) b)
          end
      end
  end.

(** [while coalesce_one_cached_slice_run(..)? {}]: every round leaves fewer
    slices, so as many rounds as there are slices are enough. *)
Fixpoint coalesce_loop (fuel : nat) (b : Buffer S) : Buffer S :=
  match fuel with
  | O => b
  | Datatypes.S fuel => match coalesce_one_cached_slice_run b with (true, b) => coalesce_loop fuel b | (false, b) => b end
  end.
Definition coalesce_cached_slices_before_explicit_flush (b : Buffer S) : Buffer S := coalesce_loop (length (queue b)) b.

(** *** Uploading *)

(** The upload task allocates the slice id before it dispatches blocks. *)
Definition assign_slice_id (r : nat) (id : Z) (b : Buffer S) : Buffer S := update r (SliceHandle.set_slice_id_once id) b.

(** [prepare_upload] by the slice's upload task. *)
Definition dispatch (r : nat) (b : Buffer S) : Buffer S :=
  match heap b !! r with
  | None => b
  | Some s =>
      match slice_id s with
      | None => b
      | Some id =>
          if negb (upload_task_active s) then b else
          match SliceHandle.prepare_upload cfg s with
          | (Err _, s) => fail r (update r (fun _ => s) b)
          | (Ok None, _) => b
          | (Ok (Some (start, stop, plan)), s) =>
              set_batches (batches b ++ [mkBatch r id start stop plan]) (update r (fun _ => s) b)
          end
      end
  end.

(** [backoff(UPLOAD_MAX_RETRIES, ..)] around the upload of a batch. *)
Fixpoint upload_attempts (n : nat) (t : Batch) (st : S) : bool * S :=
  match n with
  | O => (false, st)
  | Datatypes.S n =>
      match write_at_vectored schedule (PageCache.layout cfg) st (bt_id t) (bt_start t * bs) (concat (bt_data t).*2) with
      | Some (Ok _, st) => (true, st)
      | Some (Err _, st) => upload_attempts n t st
      | None => (false, st)
      end
  end.

(** The uploaded full-block prefix of a writable front slice is closed for
    publication, and its partial tail becomes a slice of its own. *)
Definition split_uploaded_prefix_tail (r : nat) (b : Buffer S) : Buffer S :=
  if bool_decide (writeback_mode cfg = CommitBeforeUpload) then b else
  if negb (upload_before_commit_prefix_split cfg) then b else
  match chunk b, heap b !! r with
  | Some c, Some s =>
      if negb (is_front r b) then b else
      if negb (is_writable s) || negb (in_flight s =? 0) || meta_write_started s || bool_decide (slice_id s = None) then b else
      let up := uploaded s in
      let data_len := len (data s) in
      if (up =? 0) || (data_len <=? up) || negb (up =? dispatched_end s * bs) || negb (up mod bs =? 0) then b else
      let tail_len := data_len - up in
      if bs <=? tail_len then b else
      match CacheSlice.copy_into cfg (data s) up tail_len with
      | Err _ => b
      | Ok tail_buf =>
          if negb (zlen tail_buf =? tail_len) then b else
          let tail := set_write_order (write_order s) (set_max_write_unique (max_write_unique s)
                        (set_write_origin_mask (write_origin_mask s)
                          (SliceState.new cfg (offset s + up) (creation_unique s)))) in
          match CacheSlice.append cfg (data tail) tail_buf with
          | (Err _, _) => b
          | (Ok _, td) =>
              match CacheSlice.truncate cfg (data s) up with
              | (Err _, _) => b
              | (Ok _, d) =>
                  let '(t, b) := alloc (set_data td tail) (update r (fun s => set_state Uploaded (set_data d s)) b) in
                  match slices c with
                  | [] => b
                  | front :: rest => set_chunk (Some (set_slices (front :: t :: rest) c)) b
                  end
              end
          end
      end
  | _, _ => b
  end.

(** A batch ends: its blocks are stored and the slice advances, or the slice
    fails and its other batches are aborted. *)
Definition finish_batch (k : nat) (b : Buffer S) : Buffer S :=
  match batches b !! k with
  | None => b
  | Some t =>
      let '(ok, st) := upload_attempts UPLOAD_MAX_RETRIES t (store b) in
      let b := set_store st (set_batches (delete k (batches b)) b) in
      if ok then split_uploaded_prefix_tail (bt_slice t)
                   (update (bt_slice t) (SliceHandle.advance_upload_range cfg (bt_start t) (bt_stop t)) b)
      else fail (bt_slice t) b
  end.

(** The upload task of a finished slice ends. *)
Definition end_upload_task (r : nat) (b : Buffer S) : Buffer S :=
  match heap b !! r with
  | Some s => if SliceState.upload_complete cfg s &&
                 match state s with Uploaded | Committed | Failed => true | _ => false end &&
                 negb (existsb (fun t => (bt_slice t =? r)%nat) (batches b))
              then update r (set_upload_task_active false) b else b
  | None => b
  end.

(** *** Publishing *)

(** What the metadata service answers, and on an error whether it had applied
    the write all the same and whether the error counts as transient. *)
Inductive MetaOutcome := MetaOk | MetaErr (applied retryable : bool).

Definition meta_apply (out : MetaOutcome) (d : SliceDesc) (l : list SliceDesc) : list SliceDesc :=
  match out with MetaOk | MetaErr true _ => l ++ [d] | MetaErr false _ => l end.

(** A slice frozen before the inode's data epoch moved on is stale. *)
Definition stale (s : SliceState) (b : Buffer S) : bool :=
  negb (frozen_epoch s =? 0) && negb (data_epoch b =? frozen_epoch s).

Inductive CommitResult := CommitDone | CommitDeferred | CommitRejected.

(** The retry loop of [try_commit], which ends at the last attempt. *)
Fixpoint commit_attempts (fuel : nat) (outs : nat -> MetaOutcome) (attempt : nat) (d : SliceDesc) (l : list SliceDesc) :
    CommitResult * list SliceDesc :=
  let l' := meta_apply (outs attempt) d l in
  match outs attempt with
  | MetaOk => (CommitDone, l')
  | MetaErr _ retryable =>
      if retryable then
        match fuel with O => (CommitDeferred, l') | Datatypes.S fuel => commit_attempts fuel outs (1 + attempt) d l' end
      else (CommitRejected, l')
  end.

Definition try_commit (r : nat) (outs : nat -> MetaOutcome) (b : Buffer S) : Buffer S :=
  match heap b !! r with
  | None => b
  | Some s =>
      if negb (SliceHandle.can_commit s) then b else
      match SliceHandle.desc_for_commit chunk_id s with
      | None => b
      | Some d =>
          if stale s b then update r SliceHandle.mark_committed b else
          if meta_write_started s then b else
          if negb (is_front r b) then b else
          let '(res, l) := commit_attempts (COMMIT_META_MAX_RETRIES - 1) outs 0 d (published b) in
          let b := set_published l b in
          match res with
          | CommitDone => update r (fun s => SliceHandle.mark_committed (set_meta_write_started true s)) b
          | CommitDeferred => update r (set_meta_write_started false) b
          | CommitRejected => fail r (update r (set_meta_write_started true) b)
          end
      end
  end.

(** The writeback stage: a batch persisted locally, and the record sealed. *)
Definition persist_stage (r : nat) (bytes : Z) (b : Buffer S) : Buffer S := update r (SliceHandle.mark_writeback_persisted bytes) b.

Definition seal_writeback_record_if_ready (r : nat) (seal_ok : bool) (b : Buffer S) : bool * Buffer S :=
  if negb write_back then (true, b) else
  match heap b !! r ≫= SliceHandle.claim_writeback_record_seal with
  | None => (true, b)
  | Some s => if seal_ok then (true, update r (fun _ => SliceHandle.mark_writeback_record_sealed s) b)
              else (false, fail r (update r (fun _ => s) b))
  end.

(** [true]: the slice counts as published and may leave the queue. *)
Definition try_commit_before_upload_front (r : nat) (seal_ok : bool) (out : MetaOutcome) (b : Buffer S) : bool * Buffer S :=
  if bool_decide (writeback_mode cfg = UploadBeforeCommit) then (false, b) else
  match heap b !! r with
  | None => (false, b)
  | Some s =>
      if is_writable s || SliceHandle.upload_done s then (false, b) else
      match SliceHandle.desc_for_commit chunk_id s with
      | None => (false, b)
      | Some d =>
          if stale s b then (true, update r SliceHandle.mark_committed b) else
          match seal_writeback_record_if_ready r seal_ok b with
          | (false, b) => (false, b)
          | (true, b) =>
              match heap b !! r with
              | None => (false, b)
              | Some s =>
                  if negb (negb write_back || negb (writeback_require_stage_before_commit cfg) ||
                           SliceState.writeback_fully_persisted s) then (false, b) else
                  if meta_write_started s then (false, b) else
                  let b := set_published (meta_apply out d (published b)) b in
                  match out with
                  | MetaOk => (true, update r (fun s => SliceHandle.mark_committed (set_meta_write_started true s)) b)
                  | MetaErr _ _ => (false, b)
                  end
              end
          end
      end
  end.

Definition try_commit_before_upload_if_front (r : nat) (seal_ok : bool) (out : MetaOutcome) (b : Buffer S) : bool * Buffer S :=
  if is_front r b then try_commit_before_upload_front r seal_ok out b else (false, b).

(** *** The commit task *)

Definition set_task (i : nat) (p : TaskPc) (failures : nat) (b : Buffer S) : Buffer S :=
  set_tasks (<[i := mkTask p failures]> (tasks b)) b.

(** The chunk leaves the map once it has nothing left. *)
Definition drop_if_empty (b : Buffer S) : bool * Buffer S :=
  match chunk b with
  | None => (true, b)
  | Some c => if bool_decide (slices c = []) && bool_decide (recently_committed c = []) then (true, set_chunk None b)
              else (false, b)
  end.

Definition keep_recently_committed_if_overlay_needed (r : nat) (b : Buffer S) : Buffer S :=
  match heap b !! r with
  | None => b
  | Some s => if SliceState.can_overlay_read cfg s
              then on_chunk (fun c => set_recent (recently_committed c ++ [r]) c) b
              else update r (fun s => set_data (CacheSlice.release_all (data s)).2 s) b
  end.

Definition pop_front_slice (b : Buffer S) : bool * Buffer S :=
  drop_if_empty (on_chunk (fun c => set_slices (tail (slices c)) c) b).

Definition move_front_slice_to_recently_committed (r : nat) (b : Buffer S) : Buffer S :=
  (drop_if_empty (if is_front r b
                  then keep_recently_committed_if_overlay_needed r (on_chunk (fun c => set_slices (tail (slices c)) c) b)
                  else b)).2.

(** The outcomes one pass of the task meets: the metadata service's answer,
    whether the seal succeeds, whether the wait for the upload timed out, and
    whether the slice is past the age limits by then. *)
Record Choice := mkChoice {
  ch_meta : MetaOutcome; ch_seal_ok : bool; ch_timeout : bool; ch_stalled : bool; ch_old : bool }.

Definition spawn_if_idle (r : nat) (b : Buffer S) : Buffer S :=
  match heap b !! r with
  | Some s => if SliceHandle.can_continue_upload cfg s then spawn_flush_slice r b else b
  | None => b
  end.

(** The pass for a front slice that is not uploaded yet. *)
Definition wait_for_upload (i failures r : nat) (ch : Choice) (s : SliceState) (b : Buffer S) : Buffer S :=
  match try_commit_before_upload_front r (ch_seal_ok ch) (ch_meta ch) b with
  | (true, b) => set_task i (AtMove r) 0 (spawn_if_idle r b)
  | (false, b) =>
      if negb (ch_timeout ch) then set_task i AtTop failures b
      else if is_writable s then
        let '(froze, s) := if ch_old ch then SliceHandle.freeze_with_reason cfg CommitAgeSafety (data_epoch b) s else (false, s) in
        let b := update r (fun _ => s) b in
        set_task i AtTop failures (if froze then spawn_flush_slice r b else b)
      else
        let b := spawn_if_idle r b in
        if ch_stalled ch then set_task i (AtPop r) failures (fail r b) else set_task i AtTop failures b
  end.

(** The pass for a front slice that is uploaded. *)
Definition publish_front (i failures r : nat) (ch : Choice) (s : SliceState) (b : Buffer S) : Buffer S :=
  if err s then set_task i AtTop failures b else
  if stale s b then set_task i (AtPop r) 0 (update r SliceHandle.mark_committed b) else
  if meta_write_started s then set_task i AtTop failures b else
  let b := update r (set_meta_write_started true) b in
  match SliceHandle.desc_for_commit chunk_id s with
  | None => set_task i (AtPop r) 0 b
  | Some d =>
      let b := set_published (meta_apply (ch_meta ch) d (published b)) b in
      match ch_meta ch with
      | MetaOk => set_task i (AtPop r) 0 (update r SliceHandle.mark_committed b)
      | MetaErr _ retryable =>
          let failures := if retryable then Datatypes.S failures else failures in
          if negb retryable || (COMMIT_META_MAX_RETRIES <=? failures)%nat
          then set_task i (AtPop r) 0 (fail r b)
          else set_task i AtTop failures b
      end
  end.

(** One section of [commit_chunk] by task [i]. *)
Definition commit_chunk (i : nat) (ch : Choice) (b : Buffer S) : Buffer S :=
  match tasks b !! i with
  | None => b
  | Some t =>
      match pc t with
      | Ended => b
      | AtTop =>
          match chunk b with
          | None => set_task i Ended (commit_failures t) b
          | Some c => set_task i (match slices c with [] => SawEmpty | r :: _ => AtFront r end) (commit_failures t) b
          end
      | SawEmpty =>
          match chunk b with
          | Some c =>
              if bool_decide (recently_committed c = []) then set_task i Ended (commit_failures t) (set_chunk None b)
              else if bool_decide (slices c = [])
              then set_task i Ended (commit_failures t)
                     (set_chunk (Some (mkChunkState (slices c) (recently_committed c) false)) b)
              else set_task i AtTop (commit_failures t) b
          | None => set_task i Ended (commit_failures t) b
          end
      | AtFront r =>
          let b := split_uploaded_prefix_tail r b in
          match heap b !! r with
          | None => b
          | Some s =>
              match state s with
              | Failed => set_task i (AtPop r) (commit_failures t) b
              | Committed => set_task i (AtPop r) 0 b
              | Uploaded => publish_front i (commit_failures t) r ch s b
              | Writable | Readonly => wait_for_upload i (commit_failures t) r ch s b
              end
          end
      | AtPop r =>
          if bool_decide (state <$> heap b !! r = Some Committed) then
            let b' := match queue b with
                      | [] => b
                      | front :: _ => keep_recently_committed_if_overlay_needed front
                                        (on_chunk (fun c => set_slices (tail (slices c)) c) b)
                      end in
            set_task i AtTop (commit_failures t) b'
          else let '(empty, b) := pop_front_slice b in set_task i (if empty then Ended else AtTop) (commit_failures t) b
      | AtMove r => set_task i AtTop (commit_failures t) (move_front_slice_to_recently_committed r b)
      end
  end.

(** A flush that waited in vain restarts the commit task. *)
Definition restart_commit_task (b : Buffer S) : Buffer S :=
  match chunk b with
  | Some c => if negb (commit_started c) && existsb (fun r => bool_decide (state <$> heap b !! r = Some Uploaded)) (slices c)
              then set_tasks (tasks b ++ [mkTask AtTop 0]) (set_chunk (Some (mkChunkState (slices c) (recently_committed c) true)) b)
              else b
  | None => b
  end.

(** *** Background freezing and draining *)

(** Auto flush, explicit flush: freeze a slice and start its upload. *)
Definition freeze_slice (r : nat) (reason : SliceFreezeReason) (b : Buffer S) : Buffer S :=
  match heap b !! r with
  | None => b
  | Some s => let '(froze, s) := SliceHandle.freeze_with_reason cfg reason (data_epoch b) s in
              let b := update r (fun _ => s) b in if froze then spawn_flush_slice r b else b
  end.

(** The periodic drain of [auto_flush]; [aged r]: two seconds old, [expired r]:
    past [COMMIT_UPLOAD_MAX_WAIT]. *)
Definition drain_recently_committed (aged expired : nat -> bool) (b : Buffer S) : Buffer S :=
  match chunk b with
  | None => b
  | Some c =>
      let pending r := bool_decide (writeback_mode cfg = CommitBeforeUpload) &&
        match heap b !! r with
        | Some s => match state s with Committed | Failed => negb (SliceState.upload_complete cfg s) | _ => false end
        | None => false
        end in
      let late := filter (fun r => pending r && expired r && bool_decide (state <$> heap b !! r = Some Committed) = true)
                    (recently_committed c) in
      let kept := filter (fun r => negb (aged r) || pending r = true) (recently_committed c) in
      foldl (fun b r => fail r b) (drop_if_empty (set_chunk (Some (set_recent kept c)) b)).2 late
  end.

(** *** Reading *)

(** [overlay_slices_for_chunk]: oldest first, unknown order before all. *)
Definition overlay_slices_for_chunk (b : Buffer S) : list SliceState :=
  match chunk b with
  | None => []
  | Some c => sort_by order_leb (omap (fun r => heap b !! r) (recently_committed c ++ slices c))
  end.

(** The positions of a slice inside [[start, stop)], when there are any. *)
Definition slice_window (s : SliceState) (start stop : Z) : option (Z * Z) :=
  let read_start := Z.max start (offset s) in
  let read_end := Z.min stop (offset s + len (data s)) in
  if SliceState.can_overlay_read cfg s && (read_start <? read_end) then Some (read_start, read_end) else None.

Definition overlay_has_overlap (sl : list SliceState) (start stop : Z) : bool :=
  existsb (fun s => match slice_window s start stop with
                    | Some (a, z) => SliceState.write_range_has_written_overlap s a (z - a)
                    | None => false
                    end) sl.

(** The loop that lays the readable slices over a buffer of the positions from
    [start] on, and what none of them covers. *)
Fixpoint overlay_loop (sl : list SliceState) (start : Z) (buf : list byte) (missing : Intervals.Intervals) :
    result PageError (list byte * Intervals.Intervals) :=
  match sl with
  | [] => Ok (buf, missing)
  | s :: sl =>
      match slice_window s start (start + zlen buf) with
      | None => overlay_loop sl start buf missing
      | Some (a, z) =>
          let? (copied, piece) := CacheSlice.copy_written_into cfg (data s) (a - offset s)
                                    (subrange buf (a - start) (z - a)) in
          overlay_loop sl start (splice buf (Z.to_nat (a - start)) piece)
            (foldl (fun m c => (Intervals.cut m (offset s + c.1) (offset s + c.2)).1) missing copied)
      end
  end.

(** The buffer with the dirty bytes laid over it, and whether they cover it all. *)
Definition overlay_dirty_impl (b : Buffer S) (start : Z) (buf : list byte) : result PageError (bool * list byte) :=
  if zlen buf =? 0 then Ok (true, buf) else
  let sl := overlay_slices_for_chunk b in
  if negb (overlay_has_overlap sl start (start + zlen buf)) then Ok (false, buf) else
  let? (buf, missing) := overlay_loop sl start buf (Intervals.new start (start + zlen buf)) in
  Ok (bool_decide (Intervals.collect missing = []), buf).

Definition overlay_dirty (b : Buffer S) (start : Z) (buf : list byte) : result PageError (list byte) :=
  let? (_, buf) := overlay_dirty_impl b start buf in Ok buf.

Definition read_dirty_if_fully_covered (b : Buffer S) (start n : Z) : result PageError (option (list byte)) :=
  let? (covered, buf) := overlay_dirty_impl b start (replicate (Z.to_nat n) Byte.x00) in
  Ok (if covered then Some buf else None).

Inductive ReadError := StoreFailed (e : StoreError) | OverlayFailed (e : PageError).

(** A read of a chunk range: the published content, then the overlay.  [None]
    is a panic. *)
Definition read_chunk (b : Buffer S) (start n : Z) : option (result ReadError (list byte)) :=
  match read_at_from_slices completion (PageCache.layout cfg) (store b) (published b) start n with
  | None => None
  | Some (Err e) => Some (Err (StoreFailed e))
  | Some (Ok base) => Some (map_err OverlayFailed (overlay_dirty b start base))
  end.

(** ** Runs *)

Inductive Event :=
| Write (off : Z) (buf : list byte) (unique : Z) (origin : WriteOrigin)
| TakeOrder
| Released (ord off : Z) (buf : list byte)
| Freeze (r : nat) (reason : SliceFreezeReason)
| Coalesce
| AssignId (r : nat) (id : Z)
| AssignIdFailed (r : nat)
| Dispatch (r : nat)
| FinishBatch (k : nat)
| EndUploadTask (r : nat)
| TryCommit (r : nat) (outs : nat -> MetaOutcome)
| Persist (r : nat) (bytes : Z) (seal_ok : bool) (out : MetaOutcome)
| Task_ (i : nat) (ch : Choice)
| RestartTask
| Drain (aged expired : nat -> bool)
| BumpEpoch.

Definition step (b : Buffer S) (e : Event) : Buffer S :=
  match e with
  | Write off buf unique origin => (write_at_inner off buf unique origin b).2
  | TakeOrder => write_gated b
  | Released ord off buf => if bool_decide (ord ∈ gated b) then (write_released ord off buf b).2 else b
  | Freeze r reason => freeze_slice r reason b
  | Coalesce => coalesce_cached_slices_before_explicit_flush b
  | AssignId r id => assign_slice_id r id b
  | AssignIdFailed r => fail r b
  | Dispatch r => dispatch r b
  | FinishBatch k => finish_batch k b
  | EndUploadTask r => end_upload_task r b
  | TryCommit r outs => try_commit r outs b
  | Persist r bytes seal_ok out =>
      if bool_decide (writeback_mode cfg = UploadBeforeCommit) || negb write_back then b else
      let '(sealed, b) := seal_writeback_record_if_ready r seal_ok (persist_stage r bytes b) in
      if sealed then (try_commit_before_upload_if_front r true out b).2 else b
  | Task_ i ch => commit_chunk i ch b
  | RestartTask => restart_commit_task b
  | Drain aged expired => drain_recently_committed aged expired b
  | BumpEpoch => set_epoch (data_epoch b + 1) b
  end.

Definition run (b : Buffer S) (l : list Event) : Buffer S := foldl step b l.

(** A chunk nothing was written to yet in this session. *)
Definition fresh (pub : list SliceDesc) (st : S) : Buffer S :=
  mkBuffer ∅ 0 None 0 [] false 0 [] [] pub st.

End chunk.
