(* ===== verification/WriteInv.v ===== *)
(** Dirty slices on their own: what every operation of [SliceState] and
    [SliceHandle] keeps, and what it does to the bytes a slice holds. *)
From stdpp Require Import options.
From S2P Require Import Prelude Span Intervals Slices BlockStore Reader Writer PageCache WriteBuffer.

(** Reads the fields of a slice after assignments to others. *)
Ltac slice_cbn :=
  cbn [state slice_id offset uploaded dispatched_end block_done in_flight upload_task_active
    writeback_persisted_bytes writeback_record_sealing writeback_record_sealed data err frozen_epoch
    meta_write_started freeze_reason creation_unique write_order max_write_unique write_origin_mask set_state
    set_slice_id set_uploaded set_dispatched_end set_block_done set_in_flight set_upload_task_active
    set_writeback_persisted_bytes set_writeback_record_sealing set_writeback_record_sealed set_data set_err
    set_frozen_epoch set_meta_write_started set_freeze_reason set_write_order set_max_write_unique
    set_write_origin_mask].

Section slice.
Context (cfg : WriteConfig) (cfg_ok : config_ok cfg).
#[local] Set Default Proof Using "cfg_ok".

#[local] Abbreviation bs := (block_size (PageCache.layout cfg)).
#[local] Abbreviation cs := (chunk_size (PageCache.layout cfg)).

(** The positions of the chunk a slice holds, and their bytes. *)
Definition covers (s : SliceState) (x : Z) : bool := in_range x (offset s, offset s + len (data s)).
Definition slice_byte (s : SliceState) (x : Z) : byte := byte_at cfg (data s) (x - offset s).

(** The writes fill a slice from its offset on without gaps; whole blocks are
    dispatched while it is writable; an uploaded slice is dispatched to its end
    with nothing left in flight. *)
Record slice_inv (s : SliceState) : Prop := {
  si_data : slice_ok cfg (data s);
  si_dense : forall x, written_at (data s) x = in_range x (0, len (data s));
  si_range : 0 <= offset s /\ offset s + len (data s) <= cs;
  si_disp : 0 <= dispatched_end s /\
    (0 < dispatched_end s -> (dispatched_end s - 1) * bs < len (data s) /\ is_Some (slice_id s));
  si_full : state s = Writable -> dispatched_end s * bs <= len (data s);
  si_uploaded : 0 <= uploaded s <= dispatched_end s * bs;
  si_bits : forall i, 0 <= i -> Z.testbit (block_done s) i = true -> i < dispatched_end s;
  si_thawed : state s = Writable -> forall x, dispatched_end s * bs <= x -> frozen_at cfg (data s) x = false;
  si_flight : 0 <= in_flight s /\ (0 < in_flight s -> 0 < dispatched_end s);
  si_done : state s = Uploaded \/ state s = Committed -> in_flight s = 0 /\ len (data s) <= dispatched_end s * bs;
  si_epoch : frozen_epoch s = 0;
  si_sealed : state s <> Writable -> state s <> Committed -> 0 < len (data s)
}.

(** Neither the content of the slice nor its place changes. *)
Record same_core (s s' : SliceState) : Prop := {
  sc_id : slice_id s' = slice_id s;
  sc_offset : offset s' = offset s;
  sc_len : len (data s') = len (data s);
  sc_byte : forall x, byte_at cfg (data s') x = byte_at cfg (data s) x;
  sc_disp : dispatched_end s' = dispatched_end s;
  sc_flight : in_flight s' = in_flight s;
  sc_order : write_order s' = write_order s
}.

Lemma same_core_refl s : same_core s s.
Proof using Type. done. Qed.

Lemma same_core_trans s1 s2 s3 : same_core s1 s2 -> same_core s2 s3 -> same_core s1 s3.
Proof using Type. intros [] []. constructor; intros; congruence. Qed.

Lemma same_core_covers s s' x : same_core s s' -> covers s' x = covers s x.
Proof using Type. intros []. unfold covers. by rewrite sc_offset0, sc_len0. Qed.
Lemma same_core_slice_byte s s' x : same_core s s' -> slice_byte s' x = slice_byte s x.
Proof using Type. intros []. unfold slice_byte. by rewrite sc_offset0, sc_byte0. Qed.

Lemma covers_spec s x : covers s x = true <-> offset s <= x < offset s + len (data s).
Proof using Type. apply in_range_spec. Qed.

(** ** Dense data *)

Lemma dense_ranges l n : ranges_ok (-1) l -> (forall x, in_ranges l x = in_range x (0, n)) -> 0 <= n ->
  l = if n =? 0 then [] else [(0, n)].
Proof using Type.
  intros Hl Hd Hn. destruct l as [|[a b] l].
  { destruct (Z.eqb_spec n 0); [done|]. specialize (Hd 0). cbn in Hd. unfold in_range in Hd. cbn in Hd. lia. }
  destruct Hl as (Ha & Hab & Hl).
  assert (forall x, in_ranges l x = true -> b < x) as Hlo by (intros x; by apply in_ranges_lo).
  assert (forall x, in_ranges ((a, b) :: l) x = in_range x (a, b) || in_ranges l x) as Hc by done.
  assert (in_range a (0, n) = true) as Hra.
  { rewrite <-Hd, Hc. unfold in_range. cbn. lia. }
  apply in_range_spec in Hra.
  assert (a = 0) as ->.
  { pose proof (Hd 0) as HH. rewrite Hc in HH. specialize (Hlo 0). destruct (in_ranges l 0); [specialize (Hlo eq_refl); lia|].
    unfold in_range in HH. cbn in HH. lia. }
  assert (b <= n) as Hb.
  { pose proof (Hd (b - 1)) as HH. rewrite Hc in HH. unfold in_range in HH. cbn in HH. destruct (in_ranges l (b - 1)); lia. }
  assert (b = n) as ->.
  { destruct (Z.eq_dec b n); [done|]. pose proof (Hd b) as HH. rewrite Hc in HH. specialize (Hlo b).
    destruct (in_ranges l b); [specialize (Hlo eq_refl); lia|]. unfold in_range in HH. cbn in HH. lia. }
  rewrite (proj2 (Z.eqb_neq _ _)) by lia. f_equal. destruct l as [|[c d] l]; [done|]. destruct Hl as (? & ? & _).
  pose proof (Hd c) as HH. rewrite Hc in HH. cbn in HH. unfold in_range in HH. cbn in HH. lia.
Qed.

Lemma slice_ranges s : slice_inv s -> written_ranges (data s) = if len (data s) =? 0 then [] else [(0, len (data s))].
Proof using Type.
  intros H. apply dense_ranges; [apply (so_ranges _ _ (si_data _ H))|apply (si_dense _ H)|apply (so_len _ _ (si_data _ H))].
Qed.

Lemma contiguous_len s : slice_inv s -> CacheSlice.contiguous_written_len (data s) = len (data s).
Proof using Type.
  intros H. unfold CacheSlice.contiguous_written_len. rewrite (slice_ranges s H).
  pose proof (so_len _ _ (si_data _ H)). destruct (Z.eqb_spec (len (data s)) 0); cbn; lia.
Qed.

Lemma ready_len s : slice_inv s -> SliceState.upload_ready_len s = len (data s).
Proof using Type. intros H. unfold SliceState.upload_ready_len. rewrite (contiguous_len s H). by destruct (is_writable s). Qed.

Lemma pending_start_disp s : slice_inv s -> SliceState.pending_start cfg s = dispatched_end s * bs.
Proof using Type. intros H. unfold SliceState.pending_start. pose proof (si_uploaded _ H). lia. Qed.

(** A write overlaps a slice when they share a position. *)
Lemma overlap_spec s off n : slice_inv s -> 0 <= off -> 0 <= n -> off + n < u64_modulus ->
  SliceState.write_range_has_written_overlap s off n = true <-> exists x, off <= x < off + n /\ covers s x = true.
Proof.
  intros H Ho Hn Hu. pose proof (si_range _ H). pose proof (so_len _ _ (si_data _ H)). pose proof (cs_u64 cfg cfg_ok).
  unfold SliceState.write_range_has_written_overlap, u64_saturating_add. rewrite (Z.min_r u64_max (off + n)), (Z.min_r u64_max (offset s + len (data s))) by u64_lia.
  setoid_rewrite covers_spec. destruct (Z.leb_spec (off + n) off).
  { split; [done|]. intros (x & ? & ?). lia. }
  destruct (Z.leb_spec (Z.min (off + n) (offset s + len (data s))) (Z.max off (offset s))) as [Hle|Hlt].
  { split; [done|]. intros (x & ? & ?). lia. }
  unfold CacheSlice.has_written_overlap, u64_saturating_add. rewrite Z.min_r by u64_lia.
  rewrite (proj2 (Z.leb_gt _ _)) by lia. rewrite (slice_ranges s H), (proj2 (Z.eqb_neq _ _)) by lia. cbn.
  split; [|lia]. intros _. exists (Z.max off (offset s)). lia.
Qed.

Lemma new_inv off unique : 0 <= off <= cs -> slice_inv (SliceState.new cfg off unique).
Proof.
  intros Ho. pose proof (new_ok cfg cfg_ok) as Hn. constructor; cbn [SliceState.new data offset dispatched_end uploaded block_done
    in_flight frozen_epoch state slice_id]; try done.
  - intros x. unfold written_at. cbn. unfold in_range. cbn. lia.
  - cbn. lia.
  - intros i _. by rewrite Z.bits_0.
  - intros _ x _. unfold frozen_at. destruct (pages _ !! _) as [[p|]|] eqn:E; [|done..].
    by apply lookup_replicate in E as [? _].
Qed.

(** ** Writing *)

(** [s'] is [s] with [buf] added at position [off] of the chunk. *)
Record grew (s : SliceState) (off : Z) (buf : list byte) (s' : SliceState) : Prop := {
  gr_inv : slice_inv s';
  gr_id : slice_id s' = slice_id s;
  gr_state : state s' = state s;
  gr_disp : dispatched_end s' = dispatched_end s;
  gr_flight : in_flight s' = in_flight s;
  gr_order : write_order s' = write_order s;
  gr_offset : offset s' = offset s;
  gr_below : forall x, 0 <= x < dispatched_end s * bs -> byte_at cfg (data s') x = byte_at cfg (data s) x;
  gr_len : len (data s) <= len (data s');
  gr_covers : forall x, covers s' x = in_range x (off, off + zlen buf) || covers s x;
  gr_byte : forall x, covers s' x = true -> slice_byte s' x =
    if in_range x (off, off + zlen buf) then byte_of buf (x - off) else slice_byte s x
}.

Lemma can_write_spec s off n action : slice_inv s -> 0 <= off -> 0 <= n -> off + n <= cs ->
  SliceState.can_write cfg s off n None = Some action ->
  state s = Writable /\ offset s <= off /\ dispatched_end s * bs <= off - offset s /\
  CacheSlice.can_write_with_gap cfg (data s) (off - offset s) n false = Some action.
Proof using Type.
  intros H Ho Hn Hc. unfold SliceState.can_write. rewrite (pending_start_disp s H). unfold is_writable.
  case_bool_decide; [|done]. destruct (Z.ltb_spec off (offset s)); [done|]. cbn [negb orb].
  destruct (Z.ltb_spec (off - offset s) (dispatched_end s * bs)); [done|]. intros Hcan. split_and!; [done|lia|lia|done].
Qed.

(** A slice takes a write at its end, or an empty one. *)
Lemma can_write_append s off n action : slice_inv s -> 0 <= off -> 0 <= n -> off + n <= cs ->
  SliceState.can_write cfg s off n None = Some action ->
  (action = Overlap -> SliceState.write_range_has_written_overlap s off n = false) ->
  off - offset s = len (data s) \/ (n = 0 /\ off - offset s <= len (data s)).
Proof.
  intros H Ho Hn Hc Hcan Hov. pose proof (cs_u64 cfg cfg_ok). destruct (can_write_spec s off n action) as (Hw & Hle & Hd & Hgap); [done..|].
  unfold CacheSlice.can_write_with_gap, CacheSlice.can_append, CacheSlice.can_write_at, u64_saturating_add in Hgap.
  pose proof (si_range _ H). rewrite Z.min_r in Hgap by u64_lia.
  destruct (Z.eqb_spec (len (data s)) (off - offset s)); [by left|].
  destruct (Z.leb_spec (off - offset s + n) (len (data s))); [|done]. injection Hgap as <-. right.
  split; [|lia]. destruct (Z.eq_dec n 0); [done|]. exfalso. specialize (Hov eq_refl).
  assert (SliceState.write_range_has_written_overlap s off n = true) as Ht; [|congruence].
  apply (overlap_spec s off n H); [lia..|]. exists off. rewrite covers_spec. lia.
Qed.

Lemma grew_put s off buf d : slice_inv s -> state s = Writable -> put cfg (data s) (off - offset s) buf d ->
  offset s <= off -> off + zlen buf <= cs -> dispatched_end s * bs <= off - offset s ->
  off - offset s = len (data s) \/ (zlen buf = 0 /\ off - offset s <= len (data s)) ->
  forall mask, grew s off buf (set_write_origin_mask mask (set_data d s)).
Proof.
  intros H Hw [P1 P2 P3 P4 P5] Ho Hc Hd Happ mask. pose proof (si_range _ H). pose proof (so_len _ _ (si_data _ H)).
  pose proof (si_disp _ H) as [Hd0 Hd1]. pose proof (bs_pos cfg cfg_ok).
  constructor; slice_cbn; try done.
  - constructor; slice_cbn; try apply H; try done.
    + intros x. rewrite P4, (si_dense _ H), P2. range_cases; try lia; try done.
    + rewrite P2. lia.
    + split; [done|]. intros Hp. destruct (Hd1 Hp). split; [rewrite P2; lia|done].
    + intros _. rewrite P2. lia.
    + intros _ x Hx. rewrite P5. by apply (si_thawed _ H).
    + rewrite Hw. naive_solver.
  - intros x Hx. rewrite P3 by lia. range_cases; [lia|done].
  - rewrite P2. lia.
  - intros x. unfold covers. slice_cbn. rewrite P2. range_cases; try lia; try done.
  - intros x. unfold slice_byte, covers. slice_cbn. rewrite P2. intros Hx%in_range_spec. rewrite P3 by lia.
    range_cases; try lia; [|done]. f_equal. lia.
Qed.

Lemma try_write_ok s off buf origin action : slice_inv s -> 0 <= off -> off + zlen buf <= cs ->
  SliceState.can_write cfg s off (zlen buf) None = Some action ->
  (action = Overlap -> SliceState.write_range_has_written_overlap s off (zlen buf) = false) ->
  exists s', SliceHandle.try_write cfg s off buf origin None = (Ok true, s') /\ grew s off buf s'.
Proof.
  intros H Ho Hc Hcan Hov. destruct (can_write_spec s off (zlen buf) action) as (Hw & Hle & Hd & Hgap); [done|lia..|done|].
  pose proof (si_range _ H). unfold SliceHandle.try_write, SliceState.write. rewrite Hcan.
  destruct (write_ok cfg cfg_ok (data s) (off - offset s) buf false action) as (d & -> & Hput);
    [apply H|lia|lia|done| |].
  { intros x Hx. apply (si_thawed _ H); [done|lia]. }
  eexists. split; [done|]. apply grew_put; try done. eapply can_write_append; [done|lia|lia|done|done|done].
Qed.

(** ** Freezing *)

Lemma idle_false s : slice_inv s -> sealed_status s = true -> SliceState.has_idle_block cfg s = false ->
  len (data s) <= dispatched_end s * bs.
Proof using Type.
  intros H Hs. unfold SliceState.has_idle_block, u64_saturating_sub. rewrite Hs, (ready_len s H), (pending_start_disp s H).
  intros ?%Z.ltb_ge. lia.
Qed.

Lemma idle_true s : slice_inv s -> SliceState.has_idle_block cfg s = true ->
  if sealed_status s then dispatched_end s * bs < len (data s) else (dispatched_end s + 1) * bs <= len (data s).
Proof.
  intros H. pose proof (bs_pos cfg cfg_ok). unfold SliceState.has_idle_block, u64_saturating_sub.
  rewrite (ready_len s H), (pending_start_disp s H). destruct (sealed_status s); [rewrite Z.ltb_lt|rewrite Z.leb_le]; lia.
Qed.

(** A step of a slice that changes neither its content nor what is owed for it. *)
Record harmless (s s' : SliceState) : Prop := {
  ha_core : same_core s s';
  ha_inv : slice_inv s';
  ha_failed : state s' = Failed -> state s = Failed;
  ha_done : SliceHandle.upload_done s = true -> SliceHandle.upload_done s' = true;
  ha_committed : state s' = Committed -> state s = Committed \/ len (data s) = 0;
  ha_kept : state s = Committed -> state s' = Committed;
  ha_open : state s' = Writable -> state s = Writable
}.

Lemma harmless_refl s : slice_inv s -> harmless s s.
Proof using Type. intros. constructor; auto using same_core_refl. Qed.

Lemma harmless_trans s1 s2 s3 : harmless s1 s2 -> harmless s2 s3 -> harmless s1 s3.
Proof using Type.
  intros [] []. constructor; try done; [by eapply same_core_trans|auto..|auto].
  intros Hc. destruct (ha_committed1 Hc) as [?|Hz]; [auto|]. right. by rewrite <-(sc_len _ _ ha_core0).
Qed.

Lemma freeze_harmless s reason : slice_inv s ->
  harmless s (SliceHandle.freeze_with_reason cfg reason 0 s).2.
Proof.
  intros H. unfold SliceHandle.freeze_with_reason, is_writable. case_bool_decide as Hw; cbn [negb snd]; [|by apply harmless_refl].
  pose proof (si_disp _ H) as [Hd Hd1]. pose proof (si_full _ H Hw). pose proof (si_flight _ H) as [Hf0 Hf1].
  pose proof (bs_pos cfg cfg_ok).
  destruct (Z.eqb_spec (len (data s)) 0) as [Hz|Hz]; cbn [snd].
  { constructor; slice_cbn; [done| |done|done|auto|done|done]. constructor; slice_cbn; try apply H; try done.
    intros _. assert (dispatched_end s = 0) by nia. split; [|lia]. destruct (Z.eq_dec (in_flight s) 0); [done|lia]. }
  pose proof (freeze_ok cfg (data s) (si_data _ H)) as [F1 F2 F3 F4 _ _].
  set (s' := set_data _ _). assert (slice_inv s') as H'.
  { pose proof (so_len _ _ (si_data _ H)). constructor; subst s'; slice_cbn; rewrite ?F2; try done; try apply H; [naive_solver|lia]. }
  assert (harmless s s') as Hh.
  { constructor; [by constructor|done|done| |done|by rewrite Hw|done]. unfold SliceHandle.upload_done. by rewrite Hw. }
  destruct (Z.eqb_spec (in_flight s') 0) as [Hf|Hf]; [|done].
  destruct (SliceState.has_idle_block cfg s') eqn:Hi; [done|]. cbn [andb negb].
  eapply harmless_trans; [exact Hh|]. constructor; slice_cbn; try done.
  constructor; slice_cbn; try apply H'; try done; [intros _; split; [done|by apply idle_false]|]. by intros _ _; apply (si_sealed _ H').
Qed.

(** Fields that only steer the tasks. *)
Lemma set_task_harmless s v : slice_inv s -> harmless s (set_upload_task_active v s).
Proof using Type. intros H. constructor; slice_cbn; auto; constructor; slice_cbn; try apply H; done. Qed.
Lemma set_claim_harmless s v : slice_inv s -> harmless s (set_meta_write_started v s).
Proof using Type. intros H. constructor; slice_cbn; auto; constructor; slice_cbn; try apply H; done. Qed.
Lemma set_unique_harmless s v : slice_inv s -> harmless s (set_max_write_unique v s).
Proof using Type. intros H. constructor; slice_cbn; auto; constructor; slice_cbn; try apply H; done. Qed.

(** ** Dispatching *)

(** What a dispatched slice differs in. *)
Record dispatched (s s' : SliceState) (stop : Z) : Prop := {
  ds_inv : slice_inv s';
  ds_id : slice_id s' = slice_id s;
  ds_offset : offset s' = offset s;
  ds_len : len (data s') = len (data s);
  ds_byte : forall x, byte_at cfg (data s') x = byte_at cfg (data s) x;
  ds_disp : dispatched_end s' = stop;
  ds_flight : in_flight s' = in_flight s + 1;
  ds_order : write_order s' = write_order s;
  ds_state : state s' = state s
}.

(** Which blocks a slice has to dispatch. *)
Lemma idx_need_upload_spec s : slice_inv s -> SliceState.has_idle_block cfg s = true -> state s <> Failed ->
  let stop := (SliceState.idx_need_upload cfg s).2 in
  (state s = Writable \/ state s = Readonly) /\ dispatched_end s < stop /\ stop * bs <= cs /\
  (stop - 1) * bs < len (data s) /\ (state s = Writable -> stop * bs <= len (data s)).
Proof.
  intros H Hi Hf stop. pose proof (bs_pos cfg cfg_ok). pose proof (si_range _ H). pose proof (so_len _ _ (si_data _ H)).
  pose proof (si_disp _ H) as [Hd _]. pose proof (blocks_mul cfg cfg_ok) as Hbm.
  pose proof (idle_true s H Hi) as Hid. pose proof (si_done _ H) as Hdone.
  assert (state s = Writable \/ state s = Readonly) as Hst.
  { unfold sealed_status in Hid. destruct (state s); auto; [destruct Hdone; [by left|nia]|done|destruct Hdone; [by right|nia]]. }
  assert (exists stop', stop = stop' /\ stop' * bs <= (len (data s) / bs + 1) * bs /\ (stop' - 1) * bs < len (data s) /\
    dispatched_end s < stop' /\ (state s = Writable -> stop' * bs <= len (data s))) as (stop' & -> & ? & ? & ? & ?).
  { exists stop. split; [done|]. subst stop. unfold SliceState.idx_need_upload. rewrite (ready_len s H). cbn [snd].
    pose proof (Z.div_mod (len (data s)) bs ltac:(lia)). pose proof (Z.mod_pos_bound (len (data s)) bs ltac:(lia)).
    unfold sealed_status in *. destruct Hst as [Hst|Hst]; rewrite Hst in *.
    - set (q := len (data s) / bs) in *. clearbody q. split_and!; [lia|lia|nia|lia].
    - rewrite (proj2 (Z.eqb_neq _ _)) by nia. pose proof (div_ceil_spec (len (data s)) bs ltac:(lia) ltac:(lia)).
      set (d := div_ceil (len (data s)) bs) in *. clearbody d. set (q := len (data s) / bs) in *. clearbody q.
      split_and!; [|lia|nia|done]. assert (d - 1 < q + 1) by (apply (Z.mul_lt_mono_pos_r bs); lia). nia. }
  split_and!; try done. assert (stop' - 1 < div_ceil cs bs) by nia. nia.
Qed.

Lemma prepare_upload_spec s : slice_inv s -> is_Some (slice_id s) -> state s <> Failed ->
  SliceHandle.prepare_upload cfg s = (Ok None, s) \/
  exists start stop plan s', SliceHandle.prepare_upload cfg s = (Ok (Some (start, stop, plan)), s') /\
    dispatched s s' stop /\ start = dispatched_end s /\ start < stop /\ (state s = Writable \/ state s = Readonly) /\
    (fun e => (e.1, concat e.2)) <$> plan = (fun b => (b, block_bytes cfg (data s) b)) <$> seqZ start (stop - start).
Proof.
  intros H Hid Hf. unfold SliceHandle.prepare_upload. rewrite bool_decide_false by done.
  destruct (SliceState.has_idle_block cfg s) eqn:Hi; cbn [negb]; [|by left].
  pose proof (idx_need_upload_spec s H Hi Hf) as Hidx. cbv zeta in Hidx.
  assert ((SliceState.idx_need_upload cfg s).1 = dispatched_end s) as Hst by done.
  destruct (SliceState.idx_need_upload cfg s) as [start stop]. cbn [fst snd] in *. subst start.
  destruct Hidx as (Hs & Hlt & Hcs & Hlast & Hfull). rewrite (proj2 (Z.leb_gt _ _)) by lia. right.
  pose proof (si_disp _ H) as [Hd _]. pose proof (bs_pos cfg cfg_ok).
  pose proof (freeze_blocks_ok cfg cfg_ok (data s) (dispatched_end s) stop (si_data _ H) Hd) as [F1 F2 F3 F4 F5 F6].
  slice_cbn. set (d := CacheSlice.freeze_blocks _ _ _ _) in *.
  destruct (collect_pages_ok cfg cfg_ok d (dispatched_end s) stop) as (plan & -> & Hplan); [apply F1|lia|done| |].
  { intros x Hx. rewrite F6 by nia. range_cases; [apply andb_false_r|lia]. }
  rewrite F2, (proj2 (Z.leb_gt _ _)) in Hplan by nia.
  eexists _, _, plan, _. split; [done|]. split_and!; try done.
  - constructor; slice_cbn; try done. constructor; slice_cbn; try apply H; try done; rewrite ?F2; try apply H.
    + split; [lia|]. intros _. split; [lia|done].
    + pose proof (si_uploaded _ H). nia.
    + intros i Hi0 Hb. pose proof (si_bits _ H i Hi0 Hb). lia.
    + intros Hw x Hx. destruct (frozen_at cfg d x) eqn:E; [|done]. apply F5 in E as [E|E]; [| |nia].
      * rewrite (si_thawed _ H Hw) in E; [done|nia].
      * apply in_range_spec in E. lia.
    + pose proof (si_flight _ H). lia.
    + intros [E|E]; rewrite E in Hs; naive_solver.
  - rewrite Hplan. apply list_fmap_ext. intros i b Hb. unfold block_bytes, bytes_of. rewrite F2. f_equal.
    apply list_fmap_ext. intros j x _. apply F3.
Qed.

(** ** Finished batches *)

Lemma mark_blocks_bits done start stop i : 0 <= start -> 0 <= i -> Z.testbit (SliceHandle.mark_blocks done start stop) i = true ->
  Z.testbit done i = true \/ start <= i < stop.
Proof.
  intros Hs Hi. unfold SliceHandle.mark_blocks.
  assert (forall l d, (forall j, j ∈ l -> start <= j < stop) ->
    Z.testbit (foldl (fun d i => if i <? 64 then Z.lor d (Z.shiftl 1 i) else d) d l) i = true ->
    Z.testbit d i = true \/ start <= i < stop) as Hl.
  { induction l as [|j l IH]; intros d Hj; [by left|]. cbn. intros Hb.
    pose proof (Hj j ltac:(set_solver)). apply IH in Hb as [Hb|Hb]; [|by right|set_solver].
    destruct (j <? 64); [|by left]. rewrite Z.lor_spec, Z.shiftl_1_l, orb_true_iff in Hb.
    destruct Hb as [?|Hb]; [by left|]. right. rewrite Z.pow2_bits_eqb in Hb by lia. apply Z.eqb_eq in Hb as <-. lia. }
  apply Hl. intros j Hj%elem_of_seqZ. lia.
Qed.

Lemma contiguous_done_le fuel done D : (forall i, 0 <= i -> Z.testbit done i = true -> i < D) ->
  forall c, 0 <= c <= D -> 0 <= SliceHandle.contiguous_done fuel done c <= D.
Proof.
  intros Hb. induction fuel as [|fuel IH]; intros c Hc; cbn; [done|].
  destruct ((c <? 64) && Z.testbit done c) eqn:E; [|done]. apply andb_true_iff in E as [_ E].
  apply IH. specialize (Hb c ltac:(lia) E). lia.
Qed.

(** What a finished batch changes. *)
Record advanced (s s' : SliceState) : Prop := {
  ad_inv : slice_inv s';
  ad_id : slice_id s' = slice_id s;
  ad_offset : offset s' = offset s;
  ad_data : data s' = data s;
  ad_disp : dispatched_end s' = dispatched_end s;
  ad_flight : in_flight s' = in_flight s - 1;
  ad_order : write_order s' = write_order s;
  ad_state : state s' = state s \/ state s' = Uploaded
}.

Lemma advance_spec s start stop : slice_inv s -> 0 <= start -> stop <= dispatched_end s -> 0 < in_flight s ->
  advanced s (SliceHandle.advance_upload_range cfg start stop s).
Proof.
  intros H Hs Hd Hf. pose proof (bs_pos cfg cfg_ok). pose proof (si_uploaded _ H) as Hu. pose proof (si_disp _ H) as [Hd0 _].
  assert (SliceHandle.upload_done s = false) as Hnd.
  { unfold SliceHandle.upload_done. pose proof (si_done _ H). destruct (state s); naive_solver lia. }
  unfold SliceHandle.advance_upload_range.
  set (done := SliceHandle.mark_blocks _ _ _). set (up := if uploaded s <? SliceHandle.contiguous_done 64 done (uploaded s / bs) * bs
    then SliceHandle.contiguous_done 64 done (uploaded s / bs) * bs else uploaded s).
  assert (forall i, 0 <= i -> Z.testbit done i = true -> i < dispatched_end s) as Hbits.
  { intros i Hi Hb. apply mark_blocks_bits in Hb as [Hb|Hb]; [by apply (si_bits _ H)|lia|done|done]. }
  assert (0 <= up <= dispatched_end s * bs) as Hup.
  { pose proof (contiguous_done_le 64 done (dispatched_end s) Hbits (uploaded s / bs)) as Hc.
    assert (0 <= uploaded s / bs <= dispatched_end s) as Hq.
    { split; [apply Z.div_pos; lia|]. apply Z.div_le_upper_bound; lia. }
    specialize (Hc Hq). subst up. destruct (_ <? _); [nia|done]. }
  set (s1 := set_uploaded up _). assert (in_flight s1 = in_flight s - 1) as Hf1.
  { subst s1. slice_cbn. unfold u32_saturating_sub. lia. }
  assert (slice_inv s1) as H1.
  { constructor; try apply H; try done; subst s1; slice_cbn; [pose proof (si_flight _ H); unfold u32_saturating_sub; lia|].
    unfold SliceHandle.upload_done in Hnd. intros [E|E]; rewrite E in Hnd; done. }
  assert (forall s', slice_inv s' -> s' = s1 \/ s' = set_err false (set_state Uploaded s1) ->
    advanced s (SliceHandle.clear_recent_pending_if_complete cfg s')) as Hfin.
  { intros s' Hs' Heq. assert (SliceHandle.clear_recent_pending_if_complete cfg s' = s') as ->.
    { unfold SliceHandle.clear_recent_pending_if_complete. rewrite bool_decide_false; [by rewrite andb_false_r|].
      unfold SliceHandle.upload_done in Hnd. destruct Heq as [->| ->]; [|done]. subst s1. slice_cbn. by destruct (state s). }
    destruct Heq as [->| ->]; constructor; slice_cbn; try done; [by left|by right]. }
  assert (sealed_status s1 = true -> (in_flight s1 =? 0) && negb (SliceState.has_idle_block cfg s1) = true ->
    slice_inv (set_err false (set_state Uploaded s1))) as Hdone.
  { intros Hse [Hz Hi]%andb_true_iff. constructor; slice_cbn; try apply H1; try done.
    - intros _. split; [lia|]. apply (idle_false s1 H1 Hse). by destruct (SliceState.has_idle_block cfg s1).
    - intros _ _. apply (si_sealed _ H1); intros E; change (state s1) with (state s) in E; [unfold sealed_status in Hse|unfold SliceHandle.upload_done in Hnd].
      + change (state s1) with (state s) in Hse. by rewrite E in Hse.
      + by rewrite E in Hnd. }
  change (state (set_uploaded up (set_in_flight (u32_saturating_sub (in_flight s) 1) (set_block_done done s)))) with (state s1).
  destruct (state s1) eqn:Est; try (apply Hfin; [done|by left]).
  - fold s1. destruct (_ && _) eqn:E; [|apply Hfin; [done|by left]]. apply Hfin; [|by right]. apply Hdone; [|done].
    unfold sealed_status. by rewrite Est.
  - fold s1. destruct (_ && _) eqn:E; [|apply Hfin; [done|by left]]. apply Hfin; [|by right]. apply Hdone; [|done].
    unfold sealed_status. by rewrite Est.
Qed.

(** ** What all of these keep *)

(** The content, the place and the order of the slice; it is not reopened, and
    neither its upload nor its publication is undone. *)
Record kept (s s' : SliceState) : Prop := {
  ke_inv : slice_inv s';
  ke_failed : state s' <> Failed;
  ke_open : state s' = Writable -> state s = Writable;
  ke_id : slice_id s' = slice_id s;
  ke_offset : offset s' = offset s;
  ke_len : len (data s') = len (data s);
  ke_byte : forall x, byte_at cfg (data s') x = byte_at cfg (data s) x;
  ke_order : write_order s' = write_order s;
  ke_disp : dispatched_end s <= dispatched_end s';
  ke_done : SliceHandle.upload_done s = true -> SliceHandle.upload_done s' = true;
  ke_kept : state s = Committed -> state s' = Committed
}.

Lemma harmless_kept s s' : harmless s s' -> state s <> Failed -> kept s s'.
Proof using Type. intros [[] ? ? ? ? ? ?] Hf. constructor; auto; lia. Qed.

Lemma kept_refl s : slice_inv s -> state s <> Failed -> kept s s.
Proof using Type. intros. apply harmless_kept; [by apply harmless_refl|done]. Qed.

Lemma dispatched_kept s s' stop : dispatched s s' stop -> state s <> Failed -> dispatched_end s <= stop -> kept s s'.
Proof using Type.
  intros [] Hf Hs. constructor; try done; unfold SliceHandle.upload_done; rewrite ?ds_state0, ?ds_disp0; done.
Qed.

Lemma advanced_kept s s' : advanced s s' -> state s <> Failed -> SliceHandle.upload_done s = false -> kept s s'.
Proof using Type.
  intros [] Hf Hd. assert (state s <> Committed) as Hc by (intros E; unfold SliceHandle.upload_done in Hd; by rewrite E in Hd).
  constructor; try done; [..|by rewrite Hd]; try (destruct ad_state0 as [E|E]; rewrite E; done); [by intros; rewrite ad_data0..|lia].
Qed.

(** ** Splitting off a partial tail *)

(** A slice cut at a block boundary: what stays and what moves on. *)
Lemma split_spec s up tail_buf td d freed : slice_inv s -> state s = Writable -> in_flight s = 0 -> is_Some (slice_id s) ->
  0 < up < len (data s) -> up = dispatched_end s * bs ->
  CacheSlice.copy_into cfg (data s) up (len (data s) - up) = Ok tail_buf ->
  CacheSlice.append cfg (CacheSlice.new cfg) tail_buf = (Ok tt, td) ->
  CacheSlice.truncate cfg (data s) up = (Ok freed, d) ->
  let pre := set_state Uploaded (set_data d s) in
  let post unique order max mask :=
    set_data td (set_write_order order (set_max_write_unique max (set_write_origin_mask mask
      (SliceState.new cfg (offset s + up) unique)))) in
  slice_inv pre /\ (forall unique order max mask, slice_inv (post unique order max mask)) /\
  len d = up /\ (forall x, 0 <= x < up -> byte_at cfg d x = byte_at cfg (data s) x) /\
  len td = len (data s) - up /\ (forall x, 0 <= x < len (data s) - up -> byte_at cfg td x = byte_at cfg (data s) (up + x)).
Proof.
  intros H Hw Hf Hid Hup Hdisp Hcopy Happ Htr pre post. pose proof (si_range _ H). pose proof (bs_pos cfg cfg_ok).
  pose proof (ps_pos cfg cfg_ok). pose proof (ppb_mul cfg cfg_ok) as Hppb. pose proof (new_ok cfg cfg_ok) as Hnew.
  destruct (truncate_ok cfg cfg_ok (data s) up) as (fr & d' & E & T1 & T2 & _ & T3 & T4 & _ & T5);
    [apply H|lia|subst up; rewrite <-Hppb, Z.mul_assoc; apply Z.mod_mul; lia|].
  rewrite E in Htr. injection Htr as -> ->.
  rewrite (copy_into_ok cfg cfg_ok) in Hcopy by (apply H || lia). injection Hcopy as <-. rewrite Z.min_l in Happ by lia.
  set (tb := bytes_of cfg (data s) up _) in *. assert (zlen tb = len (data s) - up) as Htb by (apply length_bytes_of; lia).
  assert (thawed cfg (CacheSlice.new cfg) 0 (zlen tb)) as Hth.
  { intros x _. unfold frozen_at. destruct (pages _ !! _) as [[p|]|] eqn:El; [|done..]. by apply lookup_replicate in El as [? _]. }
  destruct (append_ok cfg cfg_ok (CacheSlice.new cfg) tb) as (td' & E' & [P1 P2 P3 P4 P5]); [done|cbn; lia|done|].
  rewrite E' in Happ. injection Happ as ->. change (len (CacheSlice.new cfg)) with 0 in *.
  rewrite Z.add_0_l in P2, P3, P4. rewrite Z.max_r in P2 by lia.
  split_and!; try done; [| | |lia|].
  - constructor; subst pre; slice_cbn; try apply H; try done; rewrite ?T2.
    + intros x. rewrite T5, (si_dense _ H). unfold in_range. cbn. lia.
    + lia.
    + pose proof (si_disp _ H). split; [lia|]. intros _. split; [lia|done].
    + intros _. split; [done|lia].
    + lia.
  - intros unique order max mask. pose proof (new_inv (offset s + up) unique ltac:(lia)) as Hn.
    pose proof (so_len _ _ P1). constructor; subst post; unfold SliceState.new; slice_cbn; try done.
    + intros x. rewrite P4, P2, Htb. unfold written_at. cbn. by rewrite orb_false_r.
    + rewrite P2, Htb. lia.
    + lia.
    + apply Hn.
    + intros _ x _. rewrite P5. unfold frozen_at. destruct (pages _ !! _) as [[p|]|] eqn:El; [|done..]. by apply lookup_replicate in El as [? _].
    + naive_solver.
  - intros x Hx. rewrite T3 by lia. by rewrite (proj2 (Z.ltb_lt _ _)) by lia.
  - intros x Hx. rewrite P3 by lia. rewrite Htb. range_cases; [|lia]. rewrite Z.sub_0_r. unfold byte_of, tb.
    rewrite lookup_bytes_of by lia. cbn. f_equal. lia.
Qed.

End slice.
