(* ===== verification/WriteView.v ===== *)
(** Reads through the write buffer: the published content of a chunk with the
    dirty slices laid over it is, at every moment, what the writes so far left
    there.  Mode [UploadBeforeCommit], the default; see [orderly] for the
    interleavings the statement is about and WriteRaces for the others. *)
From stdpp Require Import options.
From S2P Require Import Prelude Span Intervals Slices BlockStore Reader Writer PageCache WriteBuffer WriteInv.

Section view.
Context {cfg : WriteConfig} (cfg_ok : config_ok cfg) {chunk_id : Z}.
Context {S : Type} `{!BlockStore S, !BlockStoreLaws S}.
#[local] Set Default Proof Using "cfg_ok".

#[local] Abbreviation layout := (PageCache.layout cfg).
#[local] Abbreviation bs := (block_size layout).
#[local] Abbreviation cs := (chunk_size layout).
#[local] Abbreviation Buffer := (Buffer S).
#[local] Abbreviation slice_inv := (slice_inv cfg).
#[local] Abbreviation desc_of := (SliceHandle.desc_for_commit chunk_id).

(** The slices of the queue. *)
Definition queued (b : Buffer) : list SliceState := omap (fun r => heap b !! r) (queue b).

(** What the newest slice holding a position has there. *)
Fixpoint top (l : list SliceState) (x : Z) : option byte :=
  match l with
  | [] => None
  | s :: l => match top l x with
              | Some v => Some v
              | None => if covers s x then Some (slice_byte cfg s x) else None
              end
  end.

(** Position [x] of slice [r] is on its way to the store. *)
Definition in_batch (b : Buffer) (r : nat) (x : Z) : Prop :=
  exists t, t ∈ batches b /\ bt_slice t = r /\ bt_start t <= x / bs < bt_stop t.

Record batch_ok (b : Buffer) (t : Batch) (s : SliceState) : Prop := {
  bk_slice : heap b !! bt_slice t = Some s;
  bk_id : slice_id s = Some (bt_id t);
  bk_range : 0 <= bt_start t < bt_stop t;
  bk_disp : bt_stop t <= dispatched_end s;
  bk_data : (fun e => (e.1, concat e.2)) <$> bt_data t =
            (fun k => (k, block_bytes cfg (data s) k)) <$> seqZ (bt_start t) (bt_stop t - bt_start t)
}.

(** A slice that can still take writes is older than all behind it. *)
Definition before (s t : SliceState) : Prop :=
  write_order s <= write_order t /\ (state s = Writable -> write_order s < write_order t).

(** The heap and the queue: the slices are sound, none has failed, the queue
    is in the order of the writes and ids are not shared. *)
Record base (b : Buffer) : Prop := {
  ba_slice : forall r s, heap b !! r = Some s -> slice_inv s /\ state s <> Failed /\ 0 < write_order s <= order b;
  ba_fresh : forall r, is_Some (heap b !! r) -> (r < next_ref b)%nat;
  ba_nodup : NoDup (queue b);
  ba_live : forall r, r ∈ queue b -> is_Some (heap b !! r);
  ba_sorted : StronglySorted before (queued b);
  ba_recent : forall c, chunk b = Some c -> recently_committed c = [];
  ba_ids : forall r r' s s' id, heap b !! r = Some s -> heap b !! r' = Some s' ->
    slice_id s = Some id -> slice_id s' = Some id -> r = r';
  ba_u64 : forall r s id, heap b !! r = Some s -> slice_id s = Some id -> is_u64 id;
  ba_epoch : data_epoch b = 0;
  ba_error : error b = false;
  ba_order : 0 <= order b
}.

(** The batches on their way belong to slices that account for them. *)
Definition batches_ok (b : Buffer) : Prop := forall t, t ∈ batches b -> exists s, batch_ok b t s.
Definition counted (b : Buffer) : Prop := forall r s, heap b !! r = Some s ->
  in_flight s = zlen (filter (fun t => bt_slice t = r) (batches b)).

(** A dispatched block is on its way or stored with the slice's bytes. *)
Definition blocks_stored (b : Buffer) : Prop :=
  forall r s id, heap b !! r = Some s -> slice_id s = Some id -> r ∈ queue b \/ state s <> Committed ->
  forall x, 0 <= x < len (data s) -> x < dispatched_end s * bs ->
  in_batch b r x \/ stored (store b) (id, x / bs) (x mod bs) = Some (byte_at cfg (data s) x).

(** A commit task takes off the queue what it knows to be published. *)
Definition tasks_ok (b : Buffer) : Prop := forall t, t ∈ tasks b ->
  match pc t with
  | AtPop r => exists s, heap b !! r = Some s /\ state s = Committed
  | AtMove _ => False
  | _ => True
  end.

(** Only uploaded slices are published, front first; and the content [m] is the
    newest queued byte of each position, or the published one. *)
Record inv (b : Buffer) (m : Z -> byte) : Prop := {
  iv_base : base b;
  iv_batch : batches_ok b;
  iv_count : counted b;
  iv_stored : blocks_stored b;
  iv_pub : forall d r s, d ∈ published b -> heap b !! r = Some s -> slice_id s = Some (Slice.slice_id d) ->
    SliceHandle.upload_done s = true /\ (r ∈ queue b -> head (queue b) = Some r);
  iv_front : forall r s d, head (queue b) = Some r -> heap b !! r = Some s -> desc_of s = Some d ->
    exists P k, published b = P ++ replicate k d /\ (Slice.slice_id d ∉ (Slice.slice_id <$> P)) /\
      (state s = Committed -> (0 < k)%nat);
  iv_behind : forall r s, r ∈ tail (queue b) -> heap b !! r = Some s -> state s = Committed -> len (data s) = 0;
  iv_pub_ok : Forall Slice.slice_ok (published b);
  iv_tasks : tasks_ok b;
  iv_readable : forall x, 0 <= x < cs -> is_Some (chunk_byte layout (store b) (published b) x);
  iv_view : forall x, 0 <= x < cs ->
    Some (m x) = match top (queued b) x with Some v => Some v | None => chunk_byte layout (store b) (published b) x end
}.

(** ** The view of a list of slices *)

(** Slices with the same place and the same bytes. *)
Definition alike (s s' : SliceState) : Prop :=
  (forall x, covers s' x = covers s x) /\ (forall x, covers s x = true -> slice_byte cfg s' x = slice_byte cfg s x).

Lemma alike_refl s : alike s s.
Proof using Type. done. Qed.

Lemma tasks_ok_mono b b' : tasks_ok b -> tasks b' = tasks b ->
  (forall r s, heap b !! r = Some s -> state s = Committed -> exists s', heap b' !! r = Some s' /\ state s' = Committed) -> tasks_ok b'.
Proof using Type.
  intros Ht E Hh t Hin. rewrite E in Hin. specialize (Ht t Hin). destruct (pc t); try done. destruct Ht as (s & Hs & Hc). eauto.
Qed.

Lemma same_core_alike s s' : same_core cfg s s' -> alike s s'.
Proof. intros H. split; intros; [by apply (same_core_covers cfg)|by apply same_core_slice_byte]. Qed.

Lemma top_alike l l' x : Forall2 alike l l' -> top l' x = top l x.
Proof using Type.
  induction 1 as [|s s' l l' [Hc Hb] _ IH]; [done|]. cbn. rewrite IH, Hc. destruct (top l x); [done|].
  destruct (covers s x) eqn:E; [|done]. by rewrite Hb.
Qed.

Lemma top_app l l' x : top (l ++ l') x = match top l' x with Some v => Some v | None => top l x end.
Proof using Type. induction l as [|s l IH]; cbn; [by destruct (top l' x)|]. rewrite IH. by destruct (top l' x). Qed.

Lemma top_None l x : top l x = None <-> forall s, s ∈ l -> covers s x = false.
Proof.
  induction l as [|s l IH]; cbn; [set_solver|]. setoid_rewrite elem_of_cons. destruct (top l x) as [v|].
  - split; [done|]. intros H. destruct IH as [_ IH]. discriminate IH. eauto.
  - destruct (covers s x) eqn:E; [|naive_solver]. split; [done|]. intros H. rewrite H in E by auto. done.
Qed.

Lemma queued_Forall2 (R : SliceState -> SliceState -> Prop) (b b' : Buffer) l :
  (forall r s, r ∈ l -> heap b !! r = Some s -> exists s', heap b' !! r = Some s' /\ R s s') ->
  (forall r, r ∈ l -> is_Some (heap b !! r)) ->
  Forall2 R (omap (fun r => heap b !! r) l) (omap (fun r => heap b' !! r) l).
Proof using Type.
  induction l as [|r l IH]; intros HR Hl; [constructor|]. cbn.
  destruct (Hl r ltac:(by left)) as [s Hs]. destruct (HR r s ltac:(by left) Hs) as (s' & Hs' & ?).
  rewrite Hs, Hs'. constructor; [done|]. apply IH; intros; [eapply HR|apply Hl]; by try right.
Qed.

Lemma elem_of_queued b s : s ∈ queued b <-> exists r, r ∈ queue b /\ heap b !! r = Some s.
Proof. unfold queued. rewrite list_elem_of_omap. naive_solver. Qed.

Lemma before_Forall2 l l' :
  Forall2 (fun s s' => write_order s' = write_order s /\ (state s' = Writable -> state s = Writable)) l l' ->
  StronglySorted before l -> StronglySorted before l'.
Proof using Type.
  induction 1 as [|s s' l l' [Ho Hw] Hl IH]; intros Hsort; [constructor|].
  apply StronglySorted_inv in Hsort as [Hsort Hf]. constructor; [auto|].
  clear IH Hsort. induction Hl as [|t t' l l' [Ho' _] _ IH]; [constructor|].
  inversion_clear Hf as [|?? [Hle Hlt] ?]. constructor; [|auto]. unfold before. rewrite Ho, Ho'. auto.
Qed.

(** ** Changing one slice *)

Lemma heap_update (b : Buffer) r f s : heap b !! r = Some s -> heap (update r f b) = <[r := f s]> (heap b).
Proof using Type.
  intros Hs. cbn. apply map_eq. intros q. destruct (decide (q = r)) as [->|Hne].
  - by rewrite lookup_alter_eq, lookup_insert_eq, Hs.
  - by rewrite lookup_alter_ne, lookup_insert_ne.
Qed.

Lemma update_missing (b : Buffer) r f : heap b !! r = None -> update r f b = b.
Proof using Type.
  intros Hn. unfold update. replace (alter f r (heap b)) with (heap b); [by destruct b|].
  apply map_eq. intros q. destruct (decide (q = r)) as [->|]; [by rewrite lookup_alter_eq, Hn|by rewrite lookup_alter_ne].
Qed.

Lemma queue_update (b : Buffer) r f : queue (update r f b) = queue b.
Proof using Type. done. Qed.

(** A slice of the changed heap, with its old state. *)
Lemma lookup_updated (b : Buffer) r f s q t : heap b !! r = Some s -> heap (update r f b) !! q = Some t ->
  (q = r /\ t = f s) \/ (q <> r /\ heap b !! q = Some t).
Proof using Type. intros Hs. rewrite (heap_update b r f s Hs). intros [[-> <-]|[? ?]]%lookup_insert_Some; auto. Qed.

Lemma base_update b r f s : base b -> heap b !! r = Some s -> slice_inv (f s) -> state (f s) <> Failed ->
  (state (f s) = Writable -> state s = Writable) ->
  write_order (f s) = write_order s -> slice_id (f s) = slice_id s -> base (update r f b).
Proof.
  intros Hb Hs Hinv Hf Hw Ho Hid.
  assert (forall q t, heap (update r f b) !! q = Some t -> exists t0, heap b !! q = Some t0 /\
    slice_inv t /\ state t <> Failed /\ write_order t = write_order t0 /\ slice_id t = slice_id t0) as Hold.
  { intros q t Ht. destruct (lookup_updated b r f s q t Hs Ht) as [[-> ->]|[_ Hq]]; [by exists s|].
    exists t. destruct (ba_slice _ Hb q t Hq) as (? & ? & _). done. }
  assert (forall q t0, heap b !! q = Some t0 -> exists t, heap (update r f b) !! q = Some t /\
    write_order t = write_order t0 /\ (state t = Writable -> state t0 = Writable)) as Hnew.
  { intros q t0 Hq. rewrite (heap_update b r f s Hs). destruct (decide (q = r)) as [->|Hne].
    - exists (f s). rewrite lookup_insert_eq. by simplify_eq.
    - exists t0. by rewrite lookup_insert_ne. }
  constructor; rewrite ?queue_update; try apply Hb.
  - intros q t Ht. destruct (Hold q t Ht) as (t0 & H0 & ? & ? & -> & _). destruct (ba_slice _ Hb q t0 H0) as (_ & _ & ?). done.
  - intros q [t Ht]. destruct (Hold q t Ht) as (t0 & H0 & _). apply (ba_fresh _ Hb). eauto.
  - intros q [t0 Ht0]%(ba_live _ Hb). destruct (Hnew q t0 Ht0) as (t & ? & _). eauto.
  - eapply before_Forall2; [|apply Hb].
    apply queued_Forall2; [|apply (ba_live _ Hb)]. intros q t0 _ Ht0. apply Hnew in Ht0 as (t & ? & ? & ?). eauto.
  - intros q q' t t' id Ht Ht'. destruct (Hold q t Ht) as (t0 & H0 & _ & _ & _ & ->), (Hold q' t' Ht') as (t0' & H0' & _ & _ & _ & ->).
    by apply (ba_ids _ Hb).
  - intros q t id Ht. destruct (Hold q t Ht) as (t0 & H0 & _ & _ & _ & ->). by apply (ba_u64 _ Hb q).
Qed.

Lemma block_bytes_alike d d' k : len d' = len d -> (forall x, byte_at cfg d' x = byte_at cfg d x) ->
  block_bytes cfg d' k = block_bytes cfg d k.
Proof using Type. intros Hl Hb. unfold block_bytes, bytes_of. rewrite Hl. apply list_fmap_ext. intros i x _. apply Hb. Qed.

Lemma batch_ok_kept b b' t r s s' : heap b !! r = Some s -> kept cfg s s' -> heap b' = <[r := s']> (heap b) ->
  forall s0, batch_ok b t s0 -> exists s1, batch_ok b' t s1.
Proof using Type.
  intros Hs Hk Eh s0 [B1 B2 B3 B4 B5]. destruct (decide (bt_slice t = r)) as [E|Hne].
  - assert (s0 = s) as -> by congruence. exists s'. pose proof (ke_disp _ _ _ Hk).
    constructor; [by rewrite Eh, E, lookup_insert_eq|by rewrite (ke_id _ _ _ Hk)|done|lia|].
    rewrite B5. apply list_fmap_ext. intros i k _. f_equal. symmetry. apply block_bytes_alike; apply Hk.
  - exists s0. constructor; try done. by rewrite Eh, lookup_insert_ne.
Qed.

Lemma desc_id s d : desc_of s = Some d -> slice_id s = Some (Slice.slice_id d) /\ 0 <> len (data s) /\
  Slice.s_offset d = offset s /\ Slice.s_length d = len (data s).
Proof using Type.
  unfold SliceHandle.desc_for_commit. destruct (slice_id s); [|done]. destruct (Z.eqb_spec (len (data s)) 0); [done|].
  intros [= <-]. cbn. split_and!; [done|lia|done|done].
Qed.

(** Slice [r] is published: the last descriptor of the chunk is its own. *)
Definition just_published (b : Buffer) (r : nat) (s : SliceState) : Prop :=
  head (queue b) = Some r /\ exists d, desc_of s = Some d /\ last (published b) = Some d.

(** A slice changes, but not its content; what the store and the batches hold
    of it may change with it. *)
Lemma inv_touch b m r f s bt st : inv b m -> heap b !! r = Some s -> kept cfg s (f s) ->
  (state (f s) = Committed -> state s = Committed \/ len (data s) = 0 \/ just_published b r s) ->
  let b' := set_store st (set_batches bt (update r f b)) in
  batches_ok b' -> counted b' -> blocks_stored b' ->
  (forall x, 0 <= x < cs -> chunk_byte layout st (published b) x = chunk_byte layout (store b) (published b) x) -> inv b' m.
Proof.
  intros Hi Hs Hk Hcm b' Hbt Hct Hst Hch. pose proof (iv_base _ _ Hi) as Hb.
  assert (forall q t, heap b' !! q = Some t -> exists t0, heap b !! q = Some t0 /\ (t = t0 \/ q = r /\ t0 = s /\ t = f s)) as Hold.
  { intros q t Ht. destruct (lookup_updated b r f s q t Hs Ht) as [[-> ->]|[_ Hq]]; eauto 10. }
  assert (Forall2 (kept cfg) (queued b) (queued b')) as Hq.
  { apply queued_Forall2; [|apply Hb]. intros q t0 _ Ht0. change (heap b') with (heap (update r f b)).
    rewrite (heap_update b r f s Hs). destruct (decide (q = r)) as [->|Hne].
    - exists (f s). rewrite lookup_insert_eq. by simplify_eq.
    - exists t0. rewrite lookup_insert_ne by done. destruct (ba_slice _ Hb q t0 Ht0) as (? & ? & _). split; [done|by apply kept_refl]. }
  constructor; try done; change (queue b') with (queue b); change (published b') with (published b); try apply Hi.
  - assert (base (update r f b)) as [] by (apply (base_update b r f s); try done; apply Hk). by constructor.
  - intros d q t Hd Ht Hid. destruct (Hold q t Ht) as (t0 & H0 & [->|(-> & -> & ->)]); [by apply (iv_pub _ _ Hi d)|].
    rewrite (ke_id _ _ _ Hk) in Hid. destruct (iv_pub _ _ Hi d r s Hd Hs Hid). split; [by apply Hk|done].
  - intros q t d Hh Ht Hd. destruct (Hold q t Ht) as (t0 & H0 & [->|(-> & -> & ->)]); [by apply (iv_front _ _ Hi q t0)|].
    assert (desc_of s = Some d) as Hd'.
    { rewrite <-Hd. unfold SliceHandle.desc_for_commit. by rewrite (ke_id _ _ _ Hk), (ke_offset _ _ _ Hk), (ke_len _ _ _ Hk). }
    destruct (iv_front _ _ Hi r s d Hh Hs Hd') as (P & k & E & Hn & Hpos). exists P, k. split_and!; [done..|].
    intros [Hc|[Hz|(_ & d' & Hd'' & Hl)]]%Hcm; [auto|by apply desc_id in Hd' as (_ & ? & _)|]. assert (d' = d) as -> by congruence.
    destruct k; [|lia]. exfalso. apply Hn. rewrite E, app_nil_r in Hl. apply last_Some_elem_of in Hl. by apply list_elem_of_fmap_2.
  - intros q t Hin Ht Hc. destruct (Hold q t Ht) as (t0 & H0 & [->|(-> & -> & ->)]); [by apply (iv_behind _ _ Hi q t0)|].
    rewrite (ke_len _ _ _ Hk). destruct (Hcm Hc) as [?|[?|[Hh _]]]; [by apply (iv_behind _ _ Hi r s)|done|].
    pose proof (ba_nodup _ Hb) as Hnd. destruct (queue b); [done|]. cbn in *. injection Hh as ->. by apply NoDup_cons in Hnd as [? _].
  - apply (tasks_ok_mono b); [apply Hi|done|]. intros q t0 H0 Hc. change (heap b') with (heap (update r f b)). rewrite (heap_update b r f s Hs).
    destruct (decide (q = r)) as [->|Hne]; [|rewrite lookup_insert_ne by done; eauto].
    exists (f s). rewrite lookup_insert_eq. split; [done|]. apply Hk. congruence.
  - intros x Hx. change (store b') with st. rewrite Hch by done. by apply Hi.
  - intros x Hx. change (store b') with st. rewrite Hch, (iv_view _ _ Hi x Hx) by done.
    rewrite (top_alike (queued b) (queued b')); [done|]. eapply Forall2_impl; [exact Hq|]. intros t t' Hkt. split; intros; unfold covers, slice_byte;
      by rewrite ?(ke_offset _ _ _ Hkt), ?(ke_len _ _ _ Hkt), ?(ke_byte _ _ _ Hkt).
Qed.

Lemma inv_harmless b m r f s : inv b m -> heap b !! r = Some s -> harmless cfg s (f s) -> inv (update r f b) m.
Proof.
  intros Hi Hs Hh. pose proof (iv_base _ _ Hi) as Hb. destruct (ba_slice _ Hb r s Hs) as (_ & Hf & _).
  pose proof (harmless_kept _ _ _ Hh Hf) as Hk. pose proof (ha_core _ _ _ Hh) as Hc.
  apply (inv_touch b m r f s (batches b) (store b)); try done.
  - intros [?|?]%(ha_committed _ _ _ Hh); auto.
  - intros t [s0 B]%(iv_batch _ _ Hi). eapply (batch_ok_kept b _ t r s (f s)); [done..| |exact B]. exact (heap_update b r f s Hs).
  - intros q t Ht. destruct (lookup_updated b r f s q t Hs Ht) as [[-> ->]|[_ Hq]]; [rewrite (sc_flight _ _ _ Hc)|]; by apply (iv_count _ _ Hi).
  - intros q t id Ht. destruct (lookup_updated b r f s q t Hs Ht) as [[-> ->]|[_ Hq]]; [|by apply (iv_stored _ _ Hi q t)].
    rewrite (sc_id _ _ _ Hc), (sc_len _ _ _ Hc), (sc_disp _ _ _ Hc). intros Hid Hor x Hx Hd. rewrite (sc_byte _ _ _ Hc).
    apply (iv_stored _ _ Hi r s id); try done. destruct Hor as [?|Hne]; [by left|]. right. intros E. by apply Hne, (ha_kept _ _ _ Hh).
Qed.

(** Nothing the invariant speaks of changes, but the counters may grow. *)
Lemma inv_ext b b' m : inv b m -> heap b' = heap b -> queue b' = queue b ->
  (forall c, chunk b' = Some c -> recently_committed c = []) -> batches b' = batches b -> published b' = published b ->
  store b' = store b -> data_epoch b' = data_epoch b -> error b' = error b -> order b <= order b' ->
  (next_ref b <= next_ref b')%nat ->
  (forall t, t ∈ tasks b' -> t ∈ tasks b \/ match pc t with AtPop _ | AtMove _ => False | _ => True end) -> inv b' m.
Proof using Type.
  intros Hi Eh Eq Hr Eb Ep Es Ee Er Ho Hn Ht.
  assert (queued b' = queued b) as Eqd by (unfold queued; by rewrite Eh, Eq).
  destruct Hi as [[] I1 I2 I3 I4 I5 I6 I7 It I8 I9].
  constructor; [constructor|..]; unfold batches_ok, counted, blocks_stored, in_batch, tasks_ok in *; rewrite ?Eh, ?Eqd, ?Eq, ?Eb, ?Ep, ?Es, ?Ee, ?Er; try done.
  - intros r s Hs. destruct (ba_slice0 r s Hs) as (? & ? & ?). split_and!; [done..|lia|lia].
  - intros r Hs. specialize (ba_fresh0 r Hs). lia.
  - lia.
  - intros t Hin. destruct (I1 t Hin) as [s []]. exists s. constructor; try done. by rewrite Eh.
  - intros t [Hin|Hpc]%Ht; [by apply It|]. by destruct (pc t).
Qed.

(** *** Writing into a queued slice *)

Definition put_bytes (m : Z -> byte) (off : Z) (buf : list byte) : Z -> byte :=
  fun x => if in_range x (off, off + zlen buf) then byte_of buf (x - off) else m x.

Lemma queued_app (b : Buffer) l1 r l2 : queue b = l1 ++ r :: l2 -> forall s, heap b !! r = Some s ->
  queued b = omap (fun q => heap b !! q) l1 ++ s :: omap (fun q => heap b !! q) l2.
Proof using Type. intros E s Hs. unfold queued. rewrite E, omap_app. cbn. by rewrite Hs. Qed.

Lemma omap_ext_in {A B} (f g : A -> option B) (l : list A) : (forall q, q ∈ l -> f q = g q) -> omap f l = omap g l.
Proof using Type. induction l as [|q l IH]; intros H; [done|]. cbn. rewrite H, IH; [done|intros; apply H; by right|by left]. Qed.

Lemma omap_update (b : Buffer) r f s (l : list nat) : heap b !! r = Some s -> r ∉ l ->
  omap (fun q => heap (update r f b) !! q) l = omap (fun q => heap b !! q) l.
Proof using Type.
  intros Hs Hn. rewrite (heap_update b r f s Hs). apply omap_ext_in. intros q Hq. apply lookup_insert_ne. by intros ->.
Qed.

Lemma upload_done_writable s : state s = Writable -> SliceHandle.upload_done s = false.
Proof using Type. unfold SliceHandle.upload_done. by intros ->. Qed.

(** The id of a slice still being written is nowhere in the metadata. *)
Lemma unpublished b m r s id : inv b m -> heap b !! r = Some s -> SliceHandle.upload_done s = false -> slice_id s = Some id ->
  id ∉ (Slice.slice_id <$> published b).
Proof using Type.
  intros Hi Hs Hw Hid (d & -> & Hd)%list_elem_of_fmap. destruct (iv_pub _ _ Hi d r s Hd Hs Hid) as [E _]. congruence.
Qed.

Lemma block_bytes_full d d' k n : n * bs <= len d -> len d <= len d' ->
  (forall x, 0 <= x < n * bs -> byte_at cfg d' x = byte_at cfg d x) -> 0 <= k < n ->
  block_bytes cfg d' k = block_bytes cfg d k.
Proof.
  intros Hn Hl Hb Hk. pose proof (bs_pos cfg cfg_ok). unfold block_bytes, bytes_of. rewrite !Z.min_l by nia.
  apply list_fmap_ext. intros i x Hx. apply lookup_seqZ in Hx as [-> Hi]. apply Hb. nia.
Qed.

Lemma inv_write_into b m r s f l1 l2 off buf : inv b m -> queue b = l1 ++ r :: l2 -> heap b !! r = Some s ->
  state s = Writable -> grew cfg s off buf (f s) ->
  (forall q t x, q ∈ l2 -> heap b !! q = Some t -> off <= x < off + zlen buf -> covers t x = false) ->
  inv (update r f b) (put_bytes m off buf).
Proof.
  intros Hi Eq Hs Hw [G1 G2 G3 G4 G5 G6 G7 G8 G9 G10 G11] Hnew.
  assert (forall q t, heap (update r f b) !! q = Some t -> exists t0, heap b !! q = Some t0 /\ slice_inv t /\
    slice_id t = slice_id t0 /\ state t = state t0 /\ write_order t = write_order t0 /\ in_flight t = in_flight t0 /\
    dispatched_end t = dispatched_end t0 /\ (t = t0 \/ state t0 = Writable /\ len (data t0) <= len (data t) /\
      forall x, 0 <= x < dispatched_end t0 * bs -> byte_at cfg (data t) x = byte_at cfg (data t0) x)) as Hold.
  { intros q t Ht. destruct (lookup_updated b r f s q t Hs Ht) as [[-> ->]|[_ Hq]].
    - exists s. split_and!; auto.
    - exists t. split_and!; auto. by apply (ba_slice _ (iv_base _ _ Hi) q t). }
  assert (NoDup (l1 ++ r :: l2)) as Hnd by (rewrite <-Eq; apply Hi). apply NoDup_app in Hnd as (_ & Hd1 & Hd2).
  apply NoDup_cons in Hd2 as [Hr2 _]. assert (r ∉ l1) as Hr1 by (intros Hin; by apply (Hd1 r); [|set_solver]).
  assert (queued (update r f b) = omap (fun q => heap b !! q) l1 ++ f s :: omap (fun q => heap b !! q) l2) as Eq'.
  { rewrite (queued_app (update r f b) l1 r l2 Eq (f s)); [by rewrite !(omap_update b r f s)|].
    rewrite (heap_update b r f s Hs). apply lookup_insert_eq. }
  pose proof (queued_app b l1 r l2 Eq s Hs) as Eq0.
  constructor; rewrite ?queue_update; cbn [chunk batches store published data_epoch error order next_ref update set_heap];
    try apply Hi.
  - apply (base_update _ _ _ s); try done; [apply Hi|by rewrite G3, Hw].
  - intros t [s0 [B1 B2 B3 B4 B5]]%(iv_batch _ _ Hi). destruct (decide (bt_slice t = r)) as [E|Hne].
    + rewrite E in B1. assert (s0 = s) as -> by congruence. exists (f s). constructor; [|by rewrite G2|done|by rewrite G4|].
      { rewrite E, (heap_update b _ f s Hs). apply lookup_insert_eq. }
      rewrite B5. apply list_fmap_ext. intros i k Hk. apply lookup_seqZ in Hk as [-> ?]. f_equal. symmetry.
      destruct (ba_slice _ (iv_base _ _ Hi) _ _ Hs) as (Hsi & _). pose proof (si_full _ _ Hsi Hw).
      apply (block_bytes_full _ _ _ (dispatched_end s)); [done..|lia].
    + exists s0. constructor; try done. by rewrite (heap_update b r f s Hs), lookup_insert_ne.
  - intros q t Ht. destruct (Hold q t Ht) as (t0 & H0 & _ & _ & _ & _ & -> & _). by apply (iv_count _ _ Hi).
  - intros q t id Ht. destruct (Hold q t Ht) as (t0 & H0 & _ & -> & -> & _ & _ & -> & Hb). intros Hid Hor x Hx Hd.
    destruct (ba_slice _ (iv_base _ _ Hi) q t0 H0) as (Hsi & _).
    destruct Hb as [->|(Hw0 & Hlen & Hb)]; [by apply (iv_stored _ _ Hi q t0 id)|].
    pose proof (si_full _ _ Hsi Hw0). rewrite Hb by lia. apply (iv_stored _ _ Hi q t0 id); try done. lia.
  - intros d q t Hd Ht. destruct (Hold q t Ht) as (t0 & H0 & _ & -> & Est & _). unfold SliceHandle.upload_done. rewrite Est.
    by apply (iv_pub _ _ Hi d q t0).
  - intros q t d Hh Ht Hdesc. destruct (Hold q t Ht) as (t0 & H0 & _ & Eid & Est & _ & _ & _ & Hb).
    destruct Hb as [->|(Hw0 & _)]; [by apply (iv_front _ _ Hi q t0)|].
    exists (published b), 0%nat. rewrite app_nil_r. split_and!; [done| |rewrite Est, Hw0; done].
    eapply (unpublished b m q t0); [done..|by apply upload_done_writable|]. rewrite <-Eid. by apply desc_id.
  - intros q t Hin Ht. destruct (Hold q t Ht) as (t0 & H0 & _ & _ & -> & _ & _ & _ & Hb) . intros Ec.
    destruct Hb as [->|(Hw0 & _)]; [by apply (iv_behind _ _ Hi q t0)|congruence].
  - apply (tasks_ok_mono b); [apply Hi|done|]. intros q t0 H0 Hc. rewrite (heap_update b r f s Hs), lookup_insert_ne by congruence. eauto.
  - intros x Hx. unfold put_bytes. rewrite Eq', top_app. cbn [top].
    assert (forall v, off <= x < off + zlen buf -> top (omap (fun q => heap b !! q) l2) x = v -> v = None) as Htop.
    { intros v Hr <-. apply top_None. intros t (q & Hq & Ht)%list_elem_of_omap. by apply (Hnew q t). }
    pose proof (iv_view _ _ Hi x Hx) as Hv. rewrite Eq0, top_app in Hv. cbn [top] in Hv.
    destruct (in_range_dec x off (off + zlen buf)) as [[Hr Er]|[Hr Er]]; rewrite Er.
    + rewrite (Htop _ Hr eq_refl). pose proof (G10 x) as Hc. rewrite Er in Hc. rewrite Hc, G11 by done. by rewrite Er.
    + destruct (top (omap _ l2) x); [done|]. pose proof (G10 x) as Hc. rewrite Er in Hc. cbn in Hc. rewrite Hc.
      destruct (covers s x) eqn:Ecv; [|done]. rewrite G11 by done. by rewrite Er.
Qed.

(** *** Opening a slice *)

Lemma inv_open b b' m s0 : inv b m -> slice_inv s0 -> state s0 = Writable -> slice_id s0 = None -> in_flight s0 = 0 ->
  len (data s0) = 0 -> 0 < write_order s0 <= order b -> (forall s, s ∈ queued b -> write_order s < write_order s0) ->
  heap b' = <[next_ref b := s0]> (heap b) -> next_ref b' = (1 + next_ref b)%nat -> queue b' = queue b ++ [next_ref b] ->
  (forall c, chunk b' = Some c -> recently_committed c = []) -> batches b' = batches b -> published b' = published b ->
  store b' = store b -> data_epoch b' = data_epoch b -> error b' = error b -> order b' = order b -> tasks b' = tasks b -> inv b' m.
Proof.
  intros Hi. pose proof (iv_base _ _ Hi) as Hb. intros H0 Hw Hid Hf Hlen Hord Hmax Eh En Eq Hr Eb Ep Es Ee Er Eo Et.
  assert (heap b !! next_ref b = None) as Hnone.
  { destruct (heap b !! next_ref b) eqn:E; [|done]. pose proof (ba_fresh _ Hb (next_ref b) ltac:(eauto)). lia. }
  assert (next_ref b ∉ queue b) as Hnq by (intros [s Hs]%(ba_live _ Hb); congruence).
  assert (forall r s, heap b' !! r = Some s -> r = next_ref b /\ s = s0 \/ r <> next_ref b /\ heap b !! r = Some s) as Hold.
  { intros r s. rewrite Eh. intros [[<- <-]|[? ?]]%lookup_insert_Some; auto. }
  assert (queued b' = queued b ++ [s0]) as Eqd.
  { unfold queued. rewrite Eq, omap_app, Eh. cbn. rewrite lookup_insert_eq. f_equal. apply omap_ext_in.
    intros q Hq. apply lookup_insert_ne. by intros <-. }
  assert (forall x, covers s0 x = false) as Hcov.
  { intros x. destruct (covers s0 x) eqn:E; [|done]. apply covers_spec in E. lia. }
  constructor; [constructor|..]; unfold batches_ok, counted, blocks_stored, in_batch; rewrite ?En, ?Eqd, ?Eb, ?Ep, ?Es, ?Ee, ?Er, ?Eo; try apply Hi; try apply Hb; try done.
  - intros r s Hs. destruct (Hold r s Hs) as [[-> ->]|[_ Hs']]; [by rewrite Hw|by apply (ba_slice _ Hb r)].
  - intros r [s Hs]. destruct (Hold r s Hs) as [[-> _]|[_ Hs']]; [lia|]. pose proof (ba_fresh _ Hb r ltac:(eauto)). lia.
  - rewrite Eq. apply NoDup_app. split_and!; [apply Hb|set_solver|apply NoDup_singleton].
  - intros r. rewrite Eq, Eh. intros [Hr'|Hr']%elem_of_app; [|apply list_elem_of_singleton in Hr' as ->; rewrite lookup_insert_eq; eauto].
    rewrite lookup_insert_is_Some'. right. by apply Hb.
  - apply StronglySorted_app_2; [|apply Hb|repeat constructor]. intros s t Hs Ht%list_elem_of_singleton. subst t.
    apply Hmax in Hs. split; [lia|done].
  - intros r r' s s' id Hs Hs'. destruct (Hold r s Hs) as [[-> ->]|[_ Hs1]], (Hold r' s' Hs') as [[-> ->]|[_ Hs2]]; rewrite ?Hid; try done.
    by apply (ba_ids _ Hb).
  - intros r s id Hs. destruct (Hold r s Hs) as [[-> ->]|[_ Hs1]]; rewrite ?Hid; [done|]. by apply (ba_u64 _ Hb r).
  - intros t Ht. destruct (iv_batch _ _ Hi t Ht) as [s [B1 B2 B3 B4 B5]]. exists s. constructor; try done.
    rewrite Eh, lookup_insert_ne; [done|]. intros E. rewrite <-E in B1. congruence.
  - intros r s Hs. destruct (Hold r s Hs) as [[-> ->]|[_ Hs1]]; [|by apply (iv_count _ _ Hi)].
    rewrite Hf. symmetry. assert (filter (fun t => bt_slice t = next_ref b) (batches b) = []) as ->; [|done].
    apply elem_of_nil_inv. intros t [E Ht]%list_elem_of_filter. destruct (iv_batch _ _ Hi t Ht) as [s [B1 _ _ _ _]]. congruence.
  - intros r s id Hs. destruct (Hold r s Hs) as [[-> ->]|[Hne Hs1]]; rewrite ?Hid; [done|]. intros Hi' Hor. apply (iv_stored _ _ Hi r s id); try done.
    destruct Hor as [Hin|?]; [|by right]. rewrite Eq in Hin. left. set_solver.
  - intros d r s Hd Hs. destruct (Hold r s Hs) as [[-> ->]|[Hne Hs1]]; rewrite ?Hid; [done|]. intros Hi'.
    destruct (iv_pub _ _ Hi d r s Hd Hs1 Hi') as [? Hh]. split; [done|]. rewrite Eq. intros Hin.
    assert (r ∈ queue b) as Hin' by set_solver. specialize (Hh Hin'). destruct (queue b); [done|]. by cbn in *.
  - intros r s d. rewrite Eq. intros Hh Hs Hd. destruct (Hold r s Hs) as [[-> ->]|[Hne Hs1]].
    + apply desc_id in Hd as (E & _). congruence.
    + apply (iv_front _ _ Hi r s d); try done. destruct (queue b); [|done]. cbn in Hh. congruence.
  - intros r s Hin Hs. destruct (Hold r s Hs) as [[-> ->]|[Hne Hs1]]; [done|]. apply (iv_behind _ _ Hi r s); [|done].
    rewrite Eq in Hin. destruct (queue b); cbn in *; set_solver.
  - apply (tasks_ok_mono b); [apply Hi|done|]. intros q t0 Ht0 Hc. rewrite Eh, lookup_insert_ne by congruence. eauto.
  - intros x Hx. rewrite top_app. cbn. rewrite Hcov. by apply (iv_view _ _ Hi).
Qed.

(** *** Choosing the slice for a write *)

(** None of the slices holds a position of the range. *)
Definition clear_of (h : gmap nat SliceState) (l : list nat) (off n : Z) : Prop :=
  forall q t x, q ∈ l -> h !! q = Some t -> off <= x < off + n -> covers t x = false.

Lemma inv_set_heap b h r s s' m : inv (set_heap h b) m -> h !! r = Some s -> harmless cfg s s' -> inv (set_heap (<[r := s']> h) b) m.
Proof.
  intros Hi Hs Hh. pose proof (inv_harmless (set_heap h b) m r (fun _ => s') s Hi Hs Hh) as Hi'.
  eapply inv_ext; [exact Hi'|..]; try done; [|apply Hi|by left]. cbn.
  apply map_eq. intros q. destruct (decide (q = r)) as [->|]; [by rewrite lookup_insert_eq, lookup_alter_eq, Hs|].
  by rewrite lookup_insert_ne, lookup_alter_ne.
Qed.

Lemma scan_ok b m off n unique : 0 <= off -> 0 <= n -> off + n <= cs -> forall rev post idx newer h flush,
  inv (set_heap h b) m -> queue b = reverse rev ++ post -> (newer = false -> clear_of h post off n) ->
  let '(found, h', _) := scan cfg off n unique None [] 0 rev idx newer h flush in
  inv (set_heap h' b) m /\ (forall q, order_of h' q = order_of h q) /\
  forall r, found = Some r -> exists l1 l2 s action, queue b = l1 ++ r :: l2 /\ h' !! r = Some s /\
    SliceState.can_write cfg s off n None = Some action /\
    (action = Overlap -> SliceState.write_range_has_written_overlap s off n = false) /\ clear_of h' l2 off n.
Proof.
  intros Ho Hn Hc. pose proof (cs_u64 cfg cfg_ok). induction rev as [|r rev IH]; intros post idx newer h flush Hi Eq Hclear; [done|].
  cbn [scan]. rewrite reverse_cons, <-app_assoc in Eq. cbn in Eq.
  destruct (ba_live _ (iv_base _ _ Hi) r) as [s Hs]; [cbn in Eq |- *; change (queue (set_heap h b)) with (queue b); rewrite Eq; set_solver|].
  cbn in Hs. rewrite Hs. destruct (ba_slice _ (iv_base _ _ Hi) r s Hs) as (Hsi & _).
  set (ov := SliceState.write_range_has_written_overlap s off n).
  assert (ov = false -> forall x, off <= x < off + n -> covers s x = false) as Hov.
  { intros Hf x Hx. destruct (covers s x) eqn:E; [|done]. exfalso.
    assert (ov = true); [|congruence]. apply (overlap_spec cfg cfg_ok); [done|lia..|]. eauto. }
  assert (forall h', h' !! r = h !! r \/ (exists s', h' !! r = Some s' /\ same_core cfg s s') ->
    (forall q, q <> r -> h' !! q = h !! q) -> newer || ov = false -> clear_of h' (r :: post) off n) as Hstep.
  { intros h' Hr Hq [Hnw Hvf]%orb_false_iff q t x [->|Hin]%elem_of_cons Ht Hx.
    - destruct Hr as [Hr|(s' & Hr & Hsc)]; rewrite Hr in Ht; [simplify_eq; auto|]. injection Ht as <-.
      rewrite (same_core_covers cfg s) by done. auto.
    - assert (q <> r) as Hne.
      { intros ->. pose proof (ba_nodup _ (iv_base _ _ Hi)) as Hnd. change (queue (set_heap h b)) with (queue b) in Hnd.
        rewrite Eq, NoDup_app, NoDup_cons in Hnd. naive_solver. }
      rewrite Hq in Ht by done. by apply (Hclear Hnw q t x). }
  destruct (SliceState.can_write cfg s off n None) as [action|] eqn:Hcan.
  - destruct (match action with Overlap => ov | _ => false end) eqn:Hovl; [by apply (IH (r :: post))|].
    cbn [existsb]. destruct newer; cbn [orb]; [by apply (IH (r :: post))|].
    assert (action = Overlap -> ov = false) as Hao by (by intros ->).
    assert (ov = false) as Hovf.
    { apply not_true_is_false. intros (x & Hx & Hcx)%(overlap_spec cfg cfg_ok); [|done|lia..]. apply covers_spec in Hcx.
      destruct (can_write_append cfg cfg_ok s off n action Hsi Ho Hn Hc Hcan Hao); lia. }
    rewrite Hovf, !andb_false_r. split_and!; [done..|]. intros r' [= <-]. exists (reverse rev), post, s, action. split_and!; auto.
  - destruct ((MAX_UNFLUSHED_SLICES <? idx) && _); [|by apply (IH (r :: post)); [..|apply Hstep; [by left|done]]].
    pose proof (freeze_harmless cfg cfg_ok s MaxUnflushed Hsi) as Hfr.
    destruct (SliceHandle.freeze_with_reason cfg MaxUnflushed 0 s) as [froze s']. cbn [snd] in Hfr.
    assert (forall q, order_of (<[r := s']> h) q = order_of h q) as Hord.
    { intros q. unfold order_of. destruct (decide (q = r)) as [->|]; [|by rewrite lookup_insert_ne]. rewrite lookup_insert_eq, Hs.
      cbn. apply Hfr. }
    specialize (IH (r :: post) (idx + 1) (newer || ov) (<[r := s']> h) (if froze then flush ++ [r] else flush)).
    destruct (scan _ _ _ _ _ _ _ _ _ _ _ _) as [[found h'] fl]. destruct IH as (? & Ho' & ?); [by apply (inv_set_heap b h r s)|done| |].
    + apply Hstep; [|intros; by rewrite lookup_insert_ne]. right. exists s'. rewrite lookup_insert_eq. split; [done|]. apply Hfr.
    + split_and!; [done| |done]. intros q. by rewrite Ho', Hord.
Qed.

Lemma inv_update_again b m r s1 s2 s : inv (update r (fun _ => s1) b) m -> heap b !! r = Some s -> harmless cfg s1 s2 ->
  inv (update r (fun _ => s2) b) m.
Proof.
  intros Hi Hs Hh.
  assert (heap (update r (fun _ => s1) b) !! r = Some s1) as Hs1 by (rewrite (heap_update b r _ s Hs); apply lookup_insert_eq).
  pose proof (inv_harmless _ m r (fun _ => s2) s1 Hi Hs1 Hh) as Hi'.
  eapply inv_ext; [exact Hi'|..]; try done; [|apply Hi|by left].
  rewrite (heap_update _ r _ s1 Hs1), !(heap_update b r _ s Hs). by rewrite insert_insert_eq.
Qed.

Lemma inv_spawn b m r : inv b m -> inv (spawn_flush_slice r b) m.
Proof.
  intros Hi. unfold spawn_flush_slice. destruct (heap b !! r) as [s|] eqn:Hs; [|by rewrite update_missing].
  apply (inv_harmless b m r _ s Hi Hs), set_task_harmless. by apply (ba_slice _ (iv_base _ _ Hi) r s).
Qed.

Lemma inv_spawns m l : forall b, inv b m -> inv (foldl (fun b r => spawn_flush_slice r b) b l) m.
Proof. induction l as [|r l IH]; intros b Hi; [done|]. cbn. apply IH. by apply inv_spawn. Qed.

Lemma inv_tasks b m l : inv b m ->
  (forall t, t ∈ l -> t ∈ tasks b \/ match pc t with AtPop _ | AtMove _ => False | _ => True end) -> inv (set_tasks l b) m.
Proof using Type. intros Hi Hl. pose proof (ba_recent _ (iv_base _ _ Hi)). by eapply inv_ext. Qed.

Lemma inv_set_chunk b m c : inv b m -> slices c = queue b -> recently_committed c = [] -> inv (set_chunk (Some c) b) m.
Proof using Type. intros Hi Eq Er. eapply inv_ext; [exact Hi|..]; try done; [|by left]. cbn. by intros ? [= <-]. Qed.

(** A slice takes the write and may be frozen for its size. *)
Lemma write_taken b m r s s' l1 l2 off buf : inv b m -> queue b = l1 ++ r :: l2 -> heap b !! r = Some s -> state s = Writable ->
  grew cfg s off buf s' -> clear_of (heap b) l2 off (zlen buf) -> forall s'', s'' = s' \/
    s'' = (SliceHandle.freeze_with_reason cfg SizeOrChunkEnd (data_epoch b) s').2 ->
  inv (update r (fun _ => s'') b) (put_bytes m off buf).
Proof.
  intros Hi Eq Hs Hw Hg Hcl s'' Hs''. rewrite (ba_epoch _ (iv_base _ _ Hi)) in Hs''.
  assert (inv (update r (fun _ => s') b) (put_bytes m off buf)) as Hi'.
  { apply (inv_write_into b m r s (fun _ => s') l1 l2); done. }
  destruct Hs'' as [->| ->]; [done|]. eapply inv_update_again; [exact Hi'|exact Hs|].
  apply freeze_harmless; [done|]. apply Hg.
Qed.

Lemma insert_by_order_end h ord r l : (forall q, q ∈ l -> order_of h q <= ord) -> insert_by_order h ord r l = l ++ [r].
Proof.
  induction l as [|q l IH]; intros Hl; [done|]. cbn. rewrite (proj2 (Z.ltb_ge _ _)) by (apply Hl; set_solver).
  rewrite andb_false_r. f_equal. apply IH. set_solver.
Qed.

(** The newest request id a slice has seen, kept when the slice is reused. *)
Definition note_unique (unique : Z) (r : nat) (b : Buffer) : Buffer :=
  if unique =? 0 then b
  else update r (fun s => if max_write_unique s <? unique then set_max_write_unique unique s else s) b.

Lemma inv_note_unique b m r s unique : inv b m -> heap b !! r = Some s ->
  inv (note_unique unique r b) m /\ queue (note_unique unique r b) = queue b /\
  (exists s1, heap (note_unique unique r b) !! r = Some s1 /\ (s1 = s \/ s1 = set_max_write_unique unique s)) /\
  (forall q, q <> r -> heap (note_unique unique r b) !! q = heap b !! q).
Proof.
  intros Hi Hs. unfold note_unique. destruct (unique =? 0); [by eauto 10|].
  destruct (ba_slice _ (iv_base _ _ Hi) r s Hs) as (Hsi & _). set (f := fun t : SliceState => if max_write_unique t <? unique then set_max_write_unique unique t else t).
  assert (f s = s \/ f s = set_max_write_unique unique s) as Hf by (subst f; cbn; destruct (_ <? _); auto).
  rewrite (heap_update b r f s Hs). split_and!; [|done|exists (f s); by rewrite lookup_insert_eq|intros; by apply lookup_insert_ne].
  apply (inv_harmless _ m r _ s Hi Hs). destruct Hf as [->| ->]; [by apply harmless_refl|by apply set_unique_harmless].
Qed.

Context (mode : writeback_mode cfg = UploadBeforeCommit).
#[local] Set Default Proof Using "cfg_ok mode".

Lemma chunk_write_taken b m off buf unique ord origin b1 r start flush s s' l1 l2 :
  find_slice_or_create cfg off (zlen buf) unique ord None b = (Ok (r, start, flush), b1) -> inv b1 m ->
  queue b1 = l1 ++ r :: l2 -> heap b1 !! r = Some s -> state s = Writable ->
  SliceHandle.try_write cfg s off buf origin None = (Ok true, s') -> grew cfg s off buf s' ->
  clear_of (heap b1) l2 off (zlen buf) ->
  exists flush' b', chunk_write_at cfg off buf unique ord origin None b = (Ok (start, flush'), b') /\
    inv b' (put_bytes m off buf).
Proof.
  intros Hfind Hi Eq Hs Hw Htry Hg Hcl. unfold chunk_write_at. rewrite Hfind, Hs, Htry, mode.
  pose proof (write_taken b1 m r s s' l1 l2 off buf Hi Eq Hs Hw Hg Hcl) as Hin.
  destruct (SliceHandle.should_freeze cfg s');
    [destruct (SliceHandle.freeze_with_reason cfg SizeOrChunkEnd (data_epoch b1) s') as [froze s''] eqn:Hfz; cbn [snd] in Hin|];
    destruct origin; [| | |]; try destruct (SliceHandle.can_continue_upload cfg s'); eexists _, _; (split; [done|]); apply Hin; auto.
Qed.

Lemma find_ok b c off n unique found h flush r b1 l : chunk b = Some c -> base b -> off + n <= cs ->
  scan cfg off n unique None [] 0 (reverse (slices c)) 0 false (heap b) [] = (found, h, flush) ->
  match found with
  | Some r => (r, note_unique unique r (set_heap h b), slices c)
  | None => let '(r, b2) := alloc (set_write_order (order b) (SliceState.new cfg off unique)) (set_heap h b) in
            (r, b2, insert_slice (heap b2) (order b) r (slices c))
  end = (r, b1, l) ->
  find_slice_or_create cfg off n unique (order b) None b =
    (Ok (r, negb (commit_started c), flush), set_chunk (Some (mkChunkState l [] true)) b1).
Proof.
  intros Hc Hb Hcs Escan E. unfold find_slice_or_create.
  rewrite Hc, (ba_recent _ Hb c Hc), (ba_epoch _ Hb), (proj2 (Z.leb_le _ _)) by done. cbn [negb].
  rewrite Escan. unfold note_unique in E. by rewrite E.
Qed.

(** Reusing a slice. *)
Lemma write_reused b m c off buf unique origin r h flush : inv b m -> chunk b = Some c -> 0 <= off -> off + zlen buf <= cs ->
  scan cfg off (zlen buf) unique None [] 0 (reverse (slices c)) 0 false (heap b) [] = (Some r, h, flush) ->
  inv (set_heap h b) m ->
  (exists l1 l2 s action, queue b = l1 ++ r :: l2 /\ h !! r = Some s /\
    SliceState.can_write cfg s off (zlen buf) None = Some action /\
    (action = Overlap -> SliceState.write_range_has_written_overlap s off (zlen buf) = false) /\ clear_of h l2 off (zlen buf)) ->
  exists start flush b', chunk_write_at cfg off buf unique (order b) origin None b = (Ok (start, flush), b') /\
    inv b' (put_bytes m off buf).
Proof.
  intros Hi Hc Ho Hcs Escan Hi1 (l1 & l2 & s & action & El & Hs & Hcan & Hov & Hcl).
  pose proof (iv_base _ _ Hi) as Hb. destruct (ba_slice _ (iv_base _ _ Hi1) r s Hs) as (Hsi & _).
  destruct (inv_note_unique (set_heap h b) m r s unique Hi1 Hs) as (Hi2 & Hq2 & (s1 & Hs1 & Hor) & Hne).
  assert (queue b = slices c) as Eq by (unfold queue; by rewrite Hc).
  assert (state s = Writable) as Hw by (by eapply (can_write_spec cfg s off (zlen buf)); [|lia|lia|..]).
  assert (slice_inv s1 /\ state s1 = Writable /\ SliceState.can_write cfg s1 off (zlen buf) None = Some action /\
    (action = Overlap -> SliceState.write_range_has_written_overlap s1 off (zlen buf) = false)) as (Hsi1 & Hw1 & Hcan1 & Hov1).
  { split_and!; [by apply (ba_slice _ (iv_base _ _ Hi2) r s1)|by destruct Hor as [->| ->]..]. }
  destruct (try_write_ok cfg cfg_ok s1 off buf origin action) as (s' & Htry & Hg); [done..|].
  pose proof (find_ok b c off (zlen buf) unique (Some r) h flush r _ _ Hc Hb Hcs Escan eq_refl) as Hfind.
  destruct (chunk_write_taken b m off buf unique (order b) origin _ r _ flush s1 s' l1 l2 Hfind) as (flush' & b' & E & Hi');
    [apply inv_set_chunk; [done|by rewrite Hq2|done]|by cbn; rewrite <-Eq|done|done|done|done| |by eauto].
  intros q t x Hq Ht Hx. cbn [heap set_chunk] in Ht. assert (q <> r) as Hnr.
  { intros ->. pose proof (ba_nodup _ Hb) as Hnd. rewrite El, NoDup_app, NoDup_cons in Hnd. naive_solver. }
  rewrite Hne in Ht by done. by apply (Hcl q t x).
Qed.

(** Opening a slice for the write. *)
Lemma write_opened b m c off buf unique origin h flush : inv b m -> chunk b = Some c -> 0 < order b -> 0 <= off -> off + zlen buf <= cs ->
  scan cfg off (zlen buf) unique None [] 0 (reverse (slices c)) 0 false (heap b) [] = (None, h, flush) ->
  inv (set_heap h b) m -> (forall q, order_of h q < order b) ->
  exists start flush b', chunk_write_at cfg off buf unique (order b) origin None b = (Ok (start, flush), b') /\
    inv b' (put_bytes m off buf).
Proof.
  intros Hi Hc Hord Ho Hcs Escan Hi1 Hold. pose proof (iv_base _ _ Hi) as Hb.
  assert (queue b = slices c) as Eq by (unfold queue; by rewrite Hc).
  set (s0 := set_write_order (order b) (SliceState.new cfg off unique)).
  pose proof (new_inv cfg cfg_ok off unique ltac:(lia)) as Hn.
  assert (slice_inv s0) as Hs0 by (destruct Hn; by constructor).
  set (b2 := (alloc s0 (set_heap h b)).2).
  assert (insert_slice (heap b2) (order b) (next_ref b) (slices c) = slices c ++ [next_ref b]) as Eins.
  { unfold insert_slice. rewrite (proj2 (Z.eqb_neq _ _)) by lia. apply insert_by_order_end. intros q Hq. specialize (Hold q). unfold order_of in *. cbn.
    destruct (decide (q = next_ref b)) as [->|Hne]; [rewrite lookup_insert_eq; cbn; lia|]. rewrite lookup_insert_ne by done. lia. }
  pose proof (find_ok b c off (zlen buf) unique None h flush (next_ref b) b2 (slices c ++ [next_ref b]) Hc Hb Hcs Escan) as Hfind.
  cbn [alloc] in Hfind. fold s0 in Hfind. change (mkBuffer _ _ _ _ _ _ _ _ _ _ _) with b2 in Hfind.
  change (next_ref (set_heap h b)) with (next_ref b) in Hfind. rewrite Eins in Hfind. specialize (Hfind eq_refl).
  assert (SliceState.can_write cfg s0 off (zlen buf) None = Some Append) as Hcan.
  { unfold SliceState.can_write, SliceState.pending_start, CacheSlice.can_write_with_gap, CacheSlice.can_append, is_writable, s0.
    slice_cbn. cbn. rewrite Z.ltb_irrefl, Z.sub_diag. done. }
  destruct (try_write_ok cfg cfg_ok s0 off buf origin Append) as (s' & Htry & Hg); [done..|].
  destruct (chunk_write_taken b m off buf unique (order b) origin _ _ _ flush s0 s' (slices c) [] Hfind) as (flush' & b' & E & Hi');
    [|done| |done|done|done|by intros q t x Hq%elem_of_nil|by eauto].
  - eapply (inv_open (set_heap h b)); [exact Hi1|exact Hs0|..]; try done.
    + intros t (q & _ & Ht)%elem_of_queued. specialize (Hold q). unfold order_of in Hold. cbn in Ht. by rewrite Ht in Hold.
    + cbn. change (queue (set_heap h b)) with (queue b). by rewrite Eq.
    + cbn. by intros ? [= <-].
  - cbn. apply lookup_insert_eq.
Qed.

(** A write inside the chunk is taken, and becomes the newest content. *)
Lemma chunk_write_ok b m off buf unique origin : inv b m -> is_Some (chunk b) -> 0 < order b ->
  (forall q, order_of (heap b) q < order b) -> 0 <= off -> off + zlen buf <= cs ->
  exists start flush b', chunk_write_at cfg off buf unique (order b) origin None b = (Ok (start, flush), b') /\
    inv b' (put_bytes m off buf).
Proof.
  intros Hi [c Hc] Hord Hold Ho Hcs.
  pose proof (scan_ok b m off (zlen buf) unique Ho ltac:(lia) Hcs (reverse (slices c)) [] 0 false (heap b) []) as Hscan.
  destruct (scan cfg off (zlen buf) unique None [] 0 (reverse (slices c)) 0 false (heap b) []) as [[found h] flush] eqn:Escan.
  destruct Hscan as (Hi1 & Horder & Hfound).
  { eapply inv_ext; [exact Hi|..]; try done; [apply (iv_base _ _ Hi)|by left]. }
  { unfold queue. by rewrite Hc, reverse_involutive, app_nil_r. }
  { by intros _ q t x Hq%elem_of_nil. }
  destruct found as [r|]; [by eapply write_reused; eauto|]. eapply write_opened; try done. intros q. by rewrite Horder.
Qed.

End view.

Arguments inv cfg chunk_id {_ _ _} b m.
Arguments queued {_} b.
Arguments in_batch cfg {_} b r x.
Arguments batch_ok cfg {_} b t s.
Arguments base cfg {_} b.
Arguments batches_ok cfg {_} b.
Arguments blocks_stored cfg {_ _ _} b.
Arguments just_published chunk_id {_} b r s.

Arguments top : clear implicits.
Arguments alike : clear implicits.
