(* ===== verification/WriteSteps.v ===== *)
(** Every step of the write buffer keeps the view of WriteView: writes,
    freezing, dispatch, the end of an upload, the split of an uploaded prefix,
    publication and the commit task. *)
From stdpp Require Import options.
From S2P Require Import Prelude Span Intervals Slices BlockStore Reader Writer PageCache WriteBuffer WriteInv WriteView.

Section steps.
Context (cfg : WriteConfig) (cfg_ok : config_ok cfg) (chunk_id : Z).
Context {S : Type} `{!BlockStore S, !BlockStoreLaws S}.
#[local] Set Default Proof Using "cfg_ok".

#[local] Abbreviation layout := (PageCache.layout cfg).
#[local] Abbreviation bs := (block_size layout).
#[local] Abbreviation cs := (chunk_size layout).
#[local] Abbreviation Buffer := (Buffer S).
#[local] Abbreviation slice_inv := (slice_inv cfg).
#[local] Abbreviation inv := (inv cfg chunk_id).
#[local] Abbreviation base := (base cfg).
#[local] Abbreviation desc_of := (SliceHandle.desc_for_commit chunk_id).

(** ** Writes *)

Lemma inv_order b m n : inv b m -> order b <= n -> inv (set_order n b) m.
Proof. intros Hi Hn. eapply inv_ext; [exact Hi|..]; try done; [apply (iv_base _ _ Hi)|by left]. Qed.

Lemma inv_get_or_create b m : inv b m -> inv (get_or_create_chunk b) m.
Proof.
  intros Hi. unfold get_or_create_chunk. destruct (chunk b) eqn:E; [done|].
  apply inv_set_chunk; try done. unfold queue. by rewrite E.
Qed.

Lemma get_or_create_some (b : Buffer) : is_Some (chunk (get_or_create_chunk b)).
Proof. unfold get_or_create_chunk. destruct (chunk b) eqn:E; [by rewrite E|by cbn]. Qed.

Lemma write_at_inner_ok (mode : writeback_mode cfg = UploadBeforeCommit) b m off buf unique origin : inv b m -> 0 <= off -> off + zlen buf <= cs ->
  exists b', write_at_inner cfg off buf unique origin b = (Ok (zlen buf), b') /\ inv b' (put_bytes m off buf).
Proof.
  intros Hi Ho Hc. pose proof (iv_base _ _ Hi) as Hb. pose proof (ba_order _ Hb). unfold write_at_inner. rewrite (ba_error _ Hb).
  cbn [next_write_order]. unfold write_ordered. set (b1 := get_or_create_chunk (set_order (order b + 1) b)).
  assert (inv b1 m) as Hi1 by (apply inv_get_or_create, inv_order; [done|lia]).
  assert (order b1 = order b + 1 /\ heap b1 = heap b) as [Eo Eh].
  { subst b1. unfold get_or_create_chunk. by destruct (chunk _). }
  destruct (chunk_write_ok cfg_ok mode b1 m off buf unique origin Hi1) as (start & flush & b2 & E & Hi2);
    [apply get_or_create_some|lia| |done|done|].
  { intros q. rewrite Eh, Eo. unfold order_of. destruct (heap b !! q) as [t|] eqn:Ht; cbn; [|lia].
    destruct (ba_slice _ Hb q t Ht) as (_ & _ & ?). lia. }
  rewrite Eo in E. rewrite E. pose proof (inv_spawns cfg_ok _ flush _ Hi2) as Hi3.
  eexists. split; [done|]. destruct start; [|done]. apply inv_tasks; [done|].
  intros t [?|Ht%list_elem_of_singleton]%elem_of_app; [by left|]. right. by subst t.
Qed.

Lemma write_gated_ok b m : inv b m -> inv (write_gated b) m.
Proof.
  intros Hi. unfold write_gated. destruct (error b); [done|]. cbn. eapply inv_ext; [exact Hi|..]; try done; [apply (iv_base _ _ Hi)|cbn; lia|by left].
Qed.

(** ** Freezing *)

Lemma inv_freeze b m r s reason : inv b m -> heap b !! r = Some s ->
  inv (update r (fun _ => (SliceHandle.freeze_with_reason cfg reason (data_epoch b) s).2) b) m.
Proof.
  intros Hi Hs. pose proof (iv_base _ _ Hi) as Hb. rewrite (ba_epoch _ Hb). apply (inv_harmless cfg_ok b m r _ s Hi Hs).
  apply freeze_harmless; [done|]. by apply (ba_slice _ Hb r s).
Qed.

Lemma freeze_slice_ok b m r reason : inv b m -> inv (freeze_slice cfg r reason b) m.
Proof.
  intros Hi. unfold freeze_slice. destruct (heap b !! r) as [s|] eqn:Hs; [|done].
  pose proof (inv_freeze b m r s reason Hi Hs) as Hi'. destruct (SliceHandle.freeze_with_reason _ _ _ _) as [froze s'].
  cbn [snd] in Hi'. destruct froze; [by apply inv_spawn|done].
Qed.

Lemma end_upload_task_ok b m r : inv b m -> inv (end_upload_task cfg r b) m.
Proof.
  intros Hi. unfold end_upload_task. destruct (heap b !! r) as [s|] eqn:Hs; [|done]. destruct (_ && _ && _); [|done].
  apply (inv_harmless cfg_ok b m r _ s Hi Hs), set_task_harmless. by apply (ba_slice _ (iv_base _ _ Hi) r s).
Qed.

(** ** Slice ids *)

Lemma no_id_idle s : slice_inv s -> slice_id s = None -> dispatched_end s = 0 /\ (SliceHandle.upload_done s = true -> len (data s) = 0).
Proof.
  intros Hs Hn. pose proof (si_disp _ _ Hs) as [Hd0 Hd]. assert (dispatched_end s = 0) as E.
  { destruct (Z.eq_dec (dispatched_end s) 0); [done|]. destruct Hd as [_ [? ?]]; [lia|]. congruence. }
  split; [done|]. intros Hu. pose proof (so_len _ _ (si_data _ _ Hs)). destruct (si_done _ _ Hs) as [_ ?]; [|lia].
  unfold SliceHandle.upload_done in Hu. destruct (state s); auto; done.
Qed.

Lemma assign_base (b : Buffer) r s id : base b -> heap b !! r = Some s -> slice_id s = None -> is_u64 id ->
  (forall q t, heap b !! q = Some t -> slice_id t <> Some id) -> base (update r (set_slice_id (Some id)) b).
Proof.
  intros Hb Hs Hn Hid Hfresh. destruct (ba_slice _ Hb r s Hs) as (Hsi & Hf & Ho).
  assert (slice_inv (set_slice_id (Some id) s)) as Hsi'.
  { destruct Hsi as [? ? ? [? Hd] ? ? ? ? ? ? ? ?]. constructor; try done. split; [done|]. intros Hp. destruct (Hd Hp). by split. }
  assert (forall q t, heap (update r (set_slice_id (Some id)) b) !! q = Some t ->
    q = r /\ t = set_slice_id (Some id) s \/ q <> r /\ heap b !! q = Some t) as Hold by (intros q t; by apply lookup_updated).
  destruct Hb as [B1 B2 B3 B4 B5 B6 B7 B8 B9 B10 B11]. constructor; try done.
  - intros q t Ht. destruct (Hold q t Ht) as [[-> ->]|[_ Hq]]; [done|by apply (B1 q)].
  - intros q [t Ht]. destruct (Hold q t Ht) as [[-> ->]|[_ Hq]]; apply B2; eauto.
  - intros q Hq. rewrite (heap_update b r _ s Hs), lookup_insert_is_Some'. auto.
  - eapply before_Forall2; [|exact B5]. apply queued_Forall2; [|done]. intros q t0 _ Ht0. rewrite (heap_update b r _ s Hs).
    destruct (decide (q = r)) as [->|Hne]; [rewrite lookup_insert_eq|rewrite lookup_insert_ne by done; by eauto].
    assert (t0 = s) as -> by congruence. by eexists.
  - intros q q' t t' i Ht Ht' Hi Hi'. destruct (Hold q t Ht) as [[-> ->]|[_ Hq]], (Hold q' t' Ht') as [[-> ->]|[_ Hq']]; [done|..|by eapply B7].
    + injection Hi as <-. by destruct (Hfresh q' t' Hq').
    + injection Hi' as <-. by destruct (Hfresh q t Hq).
  - intros q t i Ht Hi. destruct (Hold q t Ht) as [[-> ->]|[_ Hq]]; [by injection Hi as <-|by eapply B8].
Qed.

Lemma assign_slice_id_ok b m r id : inv b m -> is_u64 id -> (forall q t, heap b !! q = Some t -> slice_id t <> Some id) ->
  (id ∉ (Slice.slice_id <$> published b)) -> inv (assign_slice_id r id b) m.
Proof.
  intros Hi Hid Hfresh Hpub. pose proof (iv_base _ _ Hi) as Hb. unfold assign_slice_id.
  destruct (heap b !! r) as [s|] eqn:Hs; [|by rewrite update_missing]. destruct (ba_slice _ Hb r s Hs) as (Hsi & Hf & Ho).
  destruct (slice_id s) as [i|] eqn:Hn.
  { apply (inv_harmless cfg_ok b m r _ s Hi Hs). unfold SliceHandle.set_slice_id_once. rewrite Hn. by apply harmless_refl. }
  destruct (no_id_idle s Hsi Hn) as [Hd0 Hl0].
  assert (update r (SliceHandle.set_slice_id_once id) b = update r (set_slice_id (Some id)) b) as ->.
  { unfold update. f_equal. apply alter_ext. intros t Ht. assert (t = s) as -> by congruence. unfold SliceHandle.set_slice_id_once. by rewrite Hn. }
  set (f := set_slice_id (Some id)). set (b' := update r f b).
  assert (forall q t, heap b' !! q = Some t -> q = r /\ t = f s \/ q <> r /\ heap b !! q = Some t) as Hold by (intros q t; by apply lookup_updated).
  constructor; change (queue b') with (queue b); change (published b') with (published b); try apply Hi; [by apply (assign_base b r s)|..].
  - intros t [s0 [B1 B2 B3 B4 B5]]%(iv_batch _ _ Hi). exists s0. constructor; try done. subst b'. rewrite (heap_update b r f s Hs), lookup_insert_ne; [done|congruence].
  - intros q t Ht. destruct (Hold q t Ht) as [[-> ->]|[_ Hq]]; [by apply (iv_count _ _ Hi r s)|by apply (iv_count _ _ Hi)].
  - intros q t i Ht Hi' Hor x Hx Hd. destruct (Hold q t Ht) as [[-> ->]|[_ Hq]]; [|by apply (iv_stored _ _ Hi q t)].
    change (dispatched_end (f s)) with (dispatched_end s) in Hd. rewrite Hd0 in Hd. lia.
  - intros d q t Hd Ht Hi'. destruct (Hold q t Ht) as [[-> ->]|[_ Hq]]; [|by apply (iv_pub _ _ Hi d)]. injection Hi' as ->.
    destruct Hpub. by apply list_elem_of_fmap_2.
  - intros q t d Hh Ht Hd. destruct (Hold q t Ht) as [[-> ->]|[_ Hq]]; [|by apply (iv_front _ _ Hi q t)].
    apply desc_id in Hd as (E & Hl & _). injection E as ->. exists (published b), 0%nat. rewrite app_nil_r. split_and!; [done..|].
    intros Hc. destruct Hl. symmetry. apply Hl0. unfold SliceHandle.upload_done. change (state s) with (state (f s)). by rewrite Hc.
  - intros q t Hin Ht. destruct (Hold q t Ht) as [[-> ->]|[_ Hq]]; [by apply (iv_behind _ _ Hi r s)|by apply (iv_behind _ _ Hi q t)].
  - apply (tasks_ok_mono b); [apply Hi|done|]. intros q t0 H0 Hc. subst b'. rewrite (heap_update b r f s Hs).
    destruct (decide (q = r)) as [->|]; [rewrite lookup_insert_eq|rewrite lookup_insert_ne by done; by eauto].
    exists (f s). split; [done|]. by assert (t0 = s) as -> by congruence.
  - intros x Hx. rewrite (iv_view _ _ Hi x Hx). rewrite (top_alike (queued b) (queued b')); [done|].
    apply queued_Forall2; [|apply Hb]. intros q t0 _ Ht0. subst b'. rewrite (heap_update b r f s Hs).
    destruct (decide (q = r)) as [->|]; [rewrite lookup_insert_eq|rewrite lookup_insert_ne by done; by eauto using alike_refl].
    assert (t0 = s) as -> by congruence. by eexists.
Qed.

(** ** Dispatching blocks *)

Lemma dispatch_ok b m r : inv b m -> inv (dispatch cfg r b) m.
Proof.
  intros Hi. pose proof (iv_base _ _ Hi) as Hb. pose proof (bs_pos cfg cfg_ok). unfold dispatch. destruct (heap b !! r) as [s|] eqn:Hs; [|done].
  destruct (slice_id s) as [id|] eqn:Hid; [|done]. destruct (negb (upload_task_active s)); [done|].
  destruct (ba_slice _ Hb r s Hs) as (Hsi & Hf & _).
  destruct (prepare_upload_spec cfg cfg_ok s Hsi ltac:(eauto) Hf) as [->|(start & stop & plan & s' & -> & Hds & Est & Hlt & Hst & Hplan)]; [done|].
  pose proof (dispatched_kept cfg s s' stop Hds Hf ltac:(lia)) as Hk. pose proof (si_disp _ _ Hsi) as [Hd0 _].
  set (t := mkBatch r id start stop plan).
  assert (forall q u, heap (update r (fun _ => s') b) !! q = Some u -> q = r /\ u = s' \/ q <> r /\ heap b !! q = Some u) as Hold
    by (intros q u; by apply (lookup_updated b r (fun _ => s') s)).
  apply (inv_touch cfg_ok b m r (fun _ => s') s (batches b ++ [t]) (store b)); try done.
  - rewrite (ds_state _ _ _ _ Hds). auto.
  - intros u [Hu|Hu%list_elem_of_singleton]%elem_of_app.
    + destruct (iv_batch _ _ Hi u Hu) as [s0 B]. refine (batch_ok_kept b _ u r s s' Hs Hk _ s0 B). exact (heap_update b r _ s Hs).
    + subst u. exists s'. constructor; [| |cbn; lia| |].
      * cbn. by rewrite lookup_alter_eq, Hs.
      * by rewrite (ds_id _ _ _ _ Hds).
      * cbn. by rewrite (ds_disp _ _ _ _ Hds).
      * cbn [bt_data bt_start bt_stop t]. rewrite Hplan. apply list_fmap_ext. intros i k _. f_equal. symmetry. apply block_bytes_alike; apply Hds.
  - intros q u Hu. cbn [batches set_store set_batches]. rewrite filter_app, length_app, Nat2Z.inj_add.
    destruct (Hold q u Hu) as [[-> ->]|[Hne Hq]].
    + rewrite (ds_flight _ _ _ _ Hds), (iv_count _ _ Hi r s Hs), filter_cons_True by done. done.
    + rewrite (iv_count _ _ Hi q u Hq), filter_cons_False by (by cbn). cbn. lia.
  - intros q u i Hu Hi' Hor x Hx Hd.
    assert (forall q x, in_batch cfg b q x -> in_batch cfg (set_store (store b) (set_batches (batches b ++ [t]) (update r (fun _ => s') b))) q x) as Hmono.
    { intros q' x' (u' & ? & ?). exists u'. split; [|done]. cbn. apply elem_of_app. by left. }
    destruct (Hold q u Hu) as [[-> ->]|[Hne Hq]].
    + rewrite (ds_id _ _ _ _ Hds) in Hi'. rewrite (ds_len _ _ _ _ Hds) in Hx. rewrite (ds_disp _ _ _ _ Hds) in Hd. rewrite (ds_state _ _ _ _ Hds) in Hor.
      rewrite (ds_byte _ _ _ _ Hds). destruct (decide (x < dispatched_end s * bs)).
      * destruct (iv_stored _ _ Hi r s i Hs Hi' Hor x Hx) as [?|?]; auto.
      * left. exists t. cbn. split_and!; [set_solver|done| |].
        -- subst start. apply Z.div_le_lower_bound; lia.
        -- apply Z.div_lt_upper_bound; lia.
    + destruct (iv_stored _ _ Hi q u i Hq Hi' Hor x Hx Hd) as [?|?]; auto.
Qed.

(** ** The end of an upload *)

Lemma concat_blocks d n : forall k, 0 <= k ->
  concat (block_bytes cfg d <$> seqZ k (Z.of_nat n)) = bytes_of cfg d (k * bs) (Z.min (Z.of_nat n * bs) (len d - k * bs)).
Proof.
  pose proof (bs_pos cfg cfg_ok). induction n as [|n IH]; intros k Hk.
  { cbn. by rewrite bytes_of_nil by lia. }
  rewrite seqZ_cons by lia. cbn. replace (Z.pred (Z.of_nat (Datatypes.S n))) with (Z.of_nat n) by lia. rewrite IH by lia. unfold block_bytes.
  destruct (Z.le_gt_cases (len d) (k * bs)) as [Hle|Hgt].
  { rewrite !bytes_of_nil by nia. done. }
  destruct (Z.le_gt_cases (len d) ((k + 1) * bs)) as [Hle|Hgt'].
  { rewrite (bytes_of_nil _ _ _ (Z.min _ (len d - Z.succ k * bs))) by lia. rewrite app_nil_r. f_equal. nia. }
  replace (Z.succ k * bs) with (k * bs + bs) by lia. rewrite (Z.min_l bs) by lia. rewrite <-bytes_of_split by nia. f_equal. lia.
Qed.

(** What a batch carries. *)
Lemma batch_payload (b : Buffer) t s : batch_ok cfg b t s -> slice_inv s ->
  bt_start t * bs < len (data s) /\
  concat (concat (bt_data t).*2) = bytes_of cfg (data s) (bt_start t * bs) (Z.min (bt_stop t * bs) (len (data s)) - bt_start t * bs).
Proof.
  intros [B1 B2 B3 B4 B5] Hsi. pose proof (bs_pos cfg cfg_ok). pose proof (si_disp _ _ Hsi) as [_ [Hd _]]; [lia|]. split; [nia|].
  assert (concat (concat (bt_data t).*2) = concat ((fun e => (e.1, concat e.2)) <$> bt_data t).*2) as ->.
  { clear. induction (bt_data t) as [|[k ps] l IH]; [done|]. cbn. by rewrite concat_app, IH. }
  rewrite B5, <-list_fmap_compose. change (_ ∘ _) with (block_bytes cfg (data s)).
  replace (bt_stop t - bt_start t) with (Z.of_nat (Z.to_nat (bt_stop t - bt_start t))) by lia.
  rewrite concat_blocks by lia. f_equal. nia.
Qed.

Lemma flight_pos b m t s : inv b m -> t ∈ batches b -> heap b !! bt_slice t = Some s -> 0 < in_flight s.
Proof.
  intros Hi Ht Hs. rewrite (iv_count _ _ Hi _ s Hs).
  assert (t ∈ filter (fun u => bt_slice u = bt_slice t) (batches b)) as Hin by (by apply list_elem_of_filter).
  destruct (filter _ _); [by apply elem_of_nil in Hin|]. cbn. lia.
Qed.

Lemma flight_not_done s : slice_inv s -> 0 < in_flight s -> SliceHandle.upload_done s = false.
Proof.
  intros Hs Hf. unfold SliceHandle.upload_done. pose proof (si_done _ _ Hs) as Hd. destruct (state s); try done; destruct Hd; auto; lia.
Qed.

Lemma published_frame (st st' : S) pub x :
  (forall d k y, d ∈ pub -> k.1 = Slice.slice_id d -> stored st' k y = stored st k y) ->
  chunk_byte layout st' pub x = chunk_byte layout st pub x.
Proof.
  intros Hf. unfold chunk_byte, source. destruct (Slice.visible pub x) as [d|] eqn:Hv; [|done]. cbn.
  apply Slice.visible_Some in Hv as [Hin _]. by eapply Hf.
Qed.

Section schedule.
Context (schedule : list (nat * Upload) -> list (nat * Upload)) (schedule_perm : forall us, schedule us ≡ₚ us).
#[local] Set Default Proof Using "cfg_ok schedule_perm".

Lemma upload_attempts_spec t q : q = bt_start t * bs -> 0 <= bt_start t -> q + total_len (concat (bt_data t).*2) <= cs -> forall n (st : S),
  let '(ok, st') := upload_attempts cfg schedule n t st in
  (forall k x, k.1 <> bt_id t \/ k.2 < bt_start t \/ q + total_len (concat (bt_data t).*2) <= k.2 * bs -> stored st' k x = stored st k x) /\
  (ok = true -> forall i, 0 <= i < total_len (concat (bt_data t).*2) ->
     stored st' (bt_id t, (q + i) / bs) ((q + i) mod bs) = concat (concat (bt_data t).*2) !! Z.to_nat i).
Proof.
  intros Eq H0 Hcs. pose proof (bs_pos cfg cfg_ok). induction n as [|n IH]; intros st; [done|]. cbn [upload_attempts]. rewrite <-Eq.
  pose proof (write_at_stored_blocks schedule layout st (bt_id t) q (concat (bt_data t).*2) schedule_perm (co_layout _ cfg_ok) ltac:(nia) Hcs) as Hw.
  destruct (write_at_vectored _ _ _ _ _ _) as [[[u|e] st1]|]; [..|done]; destruct Hw as [Hfr Hdata].
  - split; [|intros _; destruct u; by apply Hdata]. intros k x Hk. apply Hfr. subst q. by rewrite Z.div_mul by lia.
  - specialize (IH st1). destruct (upload_attempts _ _ _ _ _) as [ok st']. destruct IH as [IH1 IH2]. split; [|done].
    intros k x Hk. rewrite IH1 by done. apply Hfr. subst q. by rewrite Z.div_mul by lia.
Qed.

(** The store after a successful batch: its blocks hold the slice's bytes, the
    others are as before. *)
Lemma batch_stored (b : Buffer) t s n st st' : batch_ok cfg b t s -> slice_inv s ->
  upload_attempts cfg schedule n t st = (true, st') ->
  (forall k y, k.1 <> bt_id t \/ k.2 < bt_start t \/ bt_stop t <= k.2 -> stored st' k y = stored st k y) /\
  (forall x, 0 <= x < len (data s) -> bt_start t <= x / bs < bt_stop t ->
     stored st' (bt_id t, x / bs) (x mod bs) = Some (byte_at cfg (data s) x)).
Proof.
  intros Hbt Hsi E. destruct (batch_payload b t s Hbt Hsi) as [Hlt Hpay]. destruct Hbt as [_ _ B3 B4 _].
  pose proof (bs_pos cfg cfg_ok). pose proof (si_range _ _ Hsi).
  assert (total_len (concat (bt_data t).*2) = Z.min (bt_stop t * bs) (len (data s)) - bt_start t * bs) as Htot.
  { rewrite total_len_concat, Hpay, length_bytes_of by nia. done. }
  pose proof (upload_attempts_spec t _ eq_refl ltac:(lia) ltac:(rewrite Htot; lia) n st) as Hup. rewrite E, Htot in Hup. destruct Hup as [Hf Hd].
  split.
  - intros k y Hk. apply Hf. destruct Hk as [?|[?|?]]; [auto..|]. right. right. nia.
  - intros x Hx Hb. pose proof (Z.div_mod x bs ltac:(lia)). pose proof (Z.mod_pos_bound x bs ltac:(lia)).
    assert (bt_start t * bs <= x < bt_stop t * bs) as Hr by nia.
    specialize (Hd eq_refl (x - bt_start t * bs) ltac:(lia)). rewrite Zplus_minus in Hd. rewrite Hd, Hpay, lookup_bytes_of by lia.
    f_equal. f_equal. lia.
Qed.

Lemma batch_done_ok b m k t st : inv b m -> batches b !! k = Some t ->
  upload_attempts cfg schedule UPLOAD_MAX_RETRIES t (store b) = (true, st) ->
  inv (update (bt_slice t) (SliceHandle.advance_upload_range cfg (bt_start t) (bt_stop t)) (set_store st (set_batches (delete k (batches b)) b))) m.
Proof.
  intros Hi Hk Hup. pose proof (iv_base _ _ Hi) as Hb. pose proof (delete_Permutation _ _ _ Hk) as Hperm.
  assert (t ∈ batches b) as Hin by (by eapply list_elem_of_lookup_2). destruct (iv_batch _ _ Hi t Hin) as [s Hbt].
  pose proof (bk_slice _ _ _ Hbt) as Hs. destruct (ba_slice _ Hb _ s Hs) as (Hsi & Hf & _).
  pose proof (flight_pos b m t s Hi Hin Hs) as Hfl. pose proof (flight_not_done s Hsi Hfl) as Hnd.
  destruct (batch_stored b t s _ _ _ Hbt Hsi Hup) as [Hframe Hdata]. pose proof Hbt as [_ B2 B3 B4 _].
  set (f := SliceHandle.advance_upload_range cfg (bt_start t) (bt_stop t)).
  assert (advanced cfg s (f s)) as Had by (apply advance_spec; [done|done|lia|done|done]).
  pose proof (advanced_kept cfg s (f s) Had Hf Hnd) as Hke. set (r := bt_slice t) in *.
  assert (forall q u, heap (update r f b) !! q = Some u -> q = r /\ u = f s \/ q <> r /\ heap b !! q = Some u) as Hold
    by (intros q u; by apply (lookup_updated b r f s)).
  apply (inv_touch cfg_ok b m r f s (delete k (batches b)) st); try done.
  - intros Hc. destruct (ad_state _ _ _ Had) as [E|E]; [left; congruence|congruence].
  - intros u Hu. assert (u ∈ batches b) as Hu' by (rewrite Hperm; set_solver). destruct (iv_batch _ _ Hi u Hu') as [s0 B].
    refine (batch_ok_kept b _ u r s (f s) Hs Hke _ s0 B). exact (heap_update b r _ s Hs).
  - intros q u Hu. cbn [batches set_store set_batches].
    assert (zlen (filter (fun u => bt_slice u = q) (batches b)) = zlen (filter (fun u => bt_slice u = q) (t :: delete k (batches b)))) as E.
    { f_equal. apply Permutation_length. by rewrite Hperm at 1. }
    destruct (Hold q u Hu) as [[-> ->]|[Hne Hq]].
    + rewrite (ad_flight _ _ _ Had), (iv_count _ _ Hi r s Hs), E, filter_cons_True by done. by rewrite length_cons, Nat2Z.inj_succ, <-Z.add_1_r, Z.add_simpl_r.
    + rewrite (iv_count _ _ Hi q u Hq), E, filter_cons_False by (subst r; congruence). done.
  - intros q u i Hu Hid Hor x Hx Hd. destruct (Hold q u Hu) as [[-> ->]|[Hne Hq]].
    + rewrite (ad_id _ _ _ Had), B2 in Hid. injection Hid as <-. rewrite (ad_data _ _ _ Had) in *. rewrite (ad_disp _ _ _ Had) in Hd.
      destruct (decide (bt_start t <= x / bs < bt_stop t)) as [Hin'|Hout]; [right; by apply Hdata|].
      assert (state s <> Committed) as Hnc by (intros E; unfold SliceHandle.upload_done in Hnd; by rewrite E in Hnd).
      destruct (iv_stored _ _ Hi r s (bt_id t) Hs B2 (or_intror Hnc) x Hx Hd) as [(u & Hu' & Er & Hr)|Hst].
      * left. exists u. split; [|by split]. cbn. rewrite Hperm in Hu'. apply elem_of_cons in Hu' as [->|?]; [done|done].
      * right. cbn. rewrite Hframe by (cbn; lia). done.
    + destruct (iv_stored _ _ Hi q u i Hq Hid Hor x Hx Hd) as [(v & Hv & Er & Hr)|Hst].
      * left. exists v. split; [|by split]. cbn. rewrite Hperm in Hv. apply elem_of_cons in Hv as [->|?]; [by subst q|done].
      * right. cbn. rewrite Hframe; [done|]. left. cbn. intros ->. by apply Hne, (ba_ids _ Hb q r u s (bt_id t)).
  - intros x Hx. apply published_frame. intros d k' y Hd Hk'. apply Hframe. left. rewrite Hk'. intros E.
    destruct (iv_pub _ _ Hi d r s Hd Hs) as [? _]; congruence.
Qed.

End schedule.

(** ** The split of an uploaded prefix *)

(** What a slice becomes when its uploaded prefix is closed. *)
Record split_of (s pre post : SliceState) (up : Z) : Prop := {
  sp_pre : slice_inv pre;
  sp_post : slice_inv post;
  sp_up : 0 < up <= dispatched_end s * bs /\ up <= len (data s);
  sp_state : state s = Writable /\ state pre = Uploaded /\ state post = Writable;
  sp_id : is_Some (slice_id s) /\ slice_id pre = slice_id s /\ slice_id post = None;
  sp_flight : in_flight s = 0 /\ in_flight pre = 0 /\ in_flight post = 0;
  sp_order : write_order pre = write_order s /\ write_order post = write_order s;
  sp_disp : dispatched_end pre = dispatched_end s;
  sp_offset : offset pre = offset s /\ offset post = offset s + up;
  sp_len : len (data pre) = up /\ len (data post) = len (data s) - up;
  sp_head : forall x, 0 <= x < up -> byte_at cfg (data pre) x = byte_at cfg (data s) x;
  sp_tail : forall x, 0 <= x < len (data s) - up -> byte_at cfg (data post) x = byte_at cfg (data s) (up + x)
}.

Lemma split_top s pre post up l x : split_of s pre post up -> top cfg (pre :: post :: l) x = top cfg (s :: l) x.
Proof.
  intros [_ _ Hup _ _ _ _ _ [Eo Eo'] [El El'] Hh Ht]. cbn. destruct (top cfg l x); [done|]. unfold covers, slice_byte. rewrite Eo, Eo', El, El'.
  assert (forall y, offset s + up <= y < offset s + len (data s) -> byte_at cfg (data post) (y - (offset s + up)) = byte_at cfg (data s) (y - offset s)) as Ht'.
  { intros y Hy. rewrite Ht by lia. f_equal. lia. }
  range_cases; try lia; try done; [by rewrite Ht' by lia|by rewrite Hh by lia].
Qed.

Section split.
Context (b : Buffer) (m : Z -> byte) (r : nat) (rest : list nat) (c : ChunkState) (s pre post : SliceState) (up : Z).
Context (Hi : inv b m) (Hc : chunk b = Some c) (Hq : slices c = r :: rest) (Hs : heap b !! r = Some s) (Hsp : split_of s pre post up).
#[local] Set Default Proof Using "cfg_ok Hi Hc Hq Hs Hsp".

#[local] Abbreviation b' :=
  (set_chunk (Some (set_slices (r :: next_ref b :: rest) c)) (alloc post (update r (fun _ => pre) b)).2).

Lemma split_queue : queue b = r :: rest.
Proof. unfold queue. by rewrite Hc. Qed.

Lemma split_fresh : heap b !! next_ref b = None /\ next_ref b <> r /\ (next_ref b ∉ rest) /\ (r ∉ rest).
Proof.
  pose proof (iv_base _ _ Hi) as Hb. assert (heap b !! next_ref b = None) as Hn.
  { destruct (heap b !! next_ref b) eqn:E; [|done]. pose proof (ba_fresh _ Hb (next_ref b) ltac:(eauto)). lia. }
  split_and!; [done|congruence| |].
  - intros Hin. destruct (ba_live _ Hb (next_ref b)) as [? ?]; [rewrite split_queue; by right|congruence].
  - pose proof (ba_nodup _ Hb) as Hnd. rewrite split_queue in Hnd. by apply NoDup_cons in Hnd as [? _].
Qed.

Lemma split_heap q : heap b' !! q = if decide (q = next_ref b) then Some post else if decide (q = r) then Some pre else heap b !! q.
Proof.
  destruct split_fresh as (Hn & Hne & _). cbn. change (alter (fun _ => pre) r (heap b)) with (heap (update r (fun _ => pre) b)).
  rewrite (heap_update b r _ s Hs). repeat case_decide; subst; rewrite ?lookup_insert_eq, ?lookup_insert_ne by done; try done.
  by rewrite lookup_insert_eq.
Qed.

Lemma split_lookup q t : heap b' !! q = Some t ->
  q = next_ref b /\ t = post \/ q = r /\ t = pre \/ q <> r /\ heap b !! q = Some t.
Proof. rewrite split_heap. repeat case_decide; subst; intros; simplify_eq; auto. Qed.

Lemma split_queued : queued b' = pre :: post :: omap (fun q => heap b !! q) rest /\ queued b = s :: omap (fun q => heap b !! q) rest.
Proof.
  destruct split_fresh as (_ & Hne & Hn & Hr). split.
  - assert (heap b' !! r = Some pre) as H1 by (rewrite split_heap, decide_False, decide_True by congruence; done).
    assert (heap b' !! next_ref b = Some post) as H2 by (rewrite split_heap, decide_True by done; done).
    unfold queued. change (queue b') with (r :: next_ref b :: rest). cbn [omap list_omap]. rewrite H1, H2. do 2 f_equal.
    apply omap_ext_in. intros q Hin. rewrite split_heap, !decide_False; [done|congruence..].
  - unfold queued. rewrite split_queue. cbn. by rewrite Hs.
Qed.

Lemma split_sorted : StronglySorted before (queued b').
Proof.
  destruct split_queued as [-> E]. pose proof (ba_sorted _ (iv_base _ _ Hi)) as Hst. rewrite E in Hst.
  apply StronglySorted_inv in Hst as [Hst Hf]. pose proof (sp_order _ _ _ _ Hsp) as [O1 O2]. pose proof (sp_state _ _ _ _ Hsp) as (S1 & S2 & S3).
  constructor; [constructor; [done|]|constructor].
  - eapply Forall_impl; [exact Hf|]. intros t [? Hlt]. specialize (Hlt S1). split; lia.
  - split; [lia|by rewrite S2].
  - eapply Forall_impl; [exact Hf|]. intros t [? Hlt]. specialize (Hlt S1). split; lia.
Qed.

Lemma split_no_batch t : t ∈ batches b -> bt_slice t <> r.
Proof.
  intros Ht <-. pose proof (flight_pos b m t s Hi Ht Hs). pose proof (sp_flight _ _ _ _ Hsp). lia.
Qed.

Lemma split_base : base b'.
Proof.
  pose proof (iv_base _ _ Hi) as Hb. destruct split_fresh as (Hn & Hne & Hnr & Hr). destruct Hsp as [P1 P2 _ (S1 & S2 & S3) (_ & I2 & I3) _ [O1 O2] _ _ _ _ _].
  destruct (ba_slice _ Hb r s Hs) as (_ & _ & Ho). constructor; try done; try apply Hb.
  - intros q t [[-> ->]|[[-> ->]|[_ Ht]]]%split_lookup; [by rewrite S3, O2|by rewrite S2, O1|by apply (ba_slice _ Hb q)].
  - intros q [t [[-> _]|[[-> _]|[_ Ht]]]%split_lookup]; cbn; [lia|..].
    + pose proof (ba_fresh _ Hb r ltac:(eauto)). lia.
    + pose proof (ba_fresh _ Hb q ltac:(eauto)). lia.
  - cbn. pose proof (ba_nodup _ Hb) as Hnd. rewrite split_queue in Hnd. apply NoDup_cons in Hnd as [_ Hnd].
    apply NoDup_cons. split; [by intros [?|?]%elem_of_cons|]. by apply NoDup_cons.
  - intros q Hin. rewrite split_heap. repeat case_decide; [done..|]. apply (ba_live _ Hb). rewrite split_queue. cbn in Hin. set_solver.
  - apply split_sorted.
  - cbn. intros ? [= <-]. exact (ba_recent _ Hb c Hc).
  - intros q q' t t' id Ht Ht'. destruct (split_lookup q t Ht) as [[-> ->]|[[-> ->]|[Hq1 Ho1]]], (split_lookup q' t' Ht') as [[-> ->]|[[-> ->]|[Hq1' Ho2]]];
      rewrite ?I2, ?I3; try done; by apply (ba_ids _ Hb).
  - intros q t id Ht. destruct (split_lookup q t Ht) as [[-> ->]|[[-> ->]|[Hq1 Ho1]]]; rewrite ?I2, ?I3; [done|by apply (ba_u64 _ Hb r s)|by apply (ba_u64 _ Hb q t)].
Qed.

Lemma inv_split : inv b' m.
Proof.
  pose proof (iv_base _ _ Hi) as Hb. destruct split_fresh as (Hn & Hne & Hnr & Hr). pose proof Hsp as [P1 P2 Hup (S1 & S2 & S3) ([id Hid] & I2 & I3) (F1 & F2 & F3) _ D1 _ [L1 L2] Hh _].
  pose proof (upload_done_writable s S1) as Hnd. pose proof (unpublished b m r s id Hi Hs Hnd Hid) as Hnp.
  constructor; try apply Hi; [apply split_base|..].
  - intros t Ht. destruct (iv_batch _ _ Hi t Ht) as [s0 [B1 B2 B3 B4 B5]]. exists s0. constructor; try done.
    rewrite split_heap, !decide_False; [done|by apply split_no_batch|congruence].
  - intros q t Ht. destruct (split_lookup q t Ht) as [[-> ->]|[[-> ->]|[Hq1 Ho1]]]; [|rewrite F2, <-F1; by apply (iv_count _ _ Hi r s)|by apply (iv_count _ _ Hi)].
    rewrite F3. symmetry. cbn. assert (filter (fun t => bt_slice t = next_ref b) (batches b) = []) as ->; [|done].
    apply elem_of_nil_inv. intros t [E Hin]%list_elem_of_filter. destruct (iv_batch _ _ Hi t Hin) as [s0 [B1 _ _ _ _]]. congruence.
  - intros q t i Ht Hi' Hor x Hx Hd. change (in_batch cfg b' q x) with (in_batch cfg b q x). change (store b') with (store b).
    destruct (split_lookup q t Ht) as [[-> ->]|[[-> ->]|[Hq1 Ho1]]]; [congruence|..].
    + rewrite Hh by lia. apply (iv_stored _ _ Hi r s i Hs); [congruence|right; by rewrite S1|lia|by rewrite <-D1].
    + apply (iv_stored _ _ Hi q t i Ho1 Hi'); [|done|done]. destruct Hor as [Hin|?]; [|by right]. left. rewrite split_queue.
      cbn in Hin. apply elem_of_cons in Hin as [->|[->|?]%elem_of_cons]; [by left|congruence|by right].
  - intros d q t Hd Ht Hi'. destruct (split_lookup q t Ht) as [[-> ->]|[[-> ->]|[Hq1 Ho1]]]; [congruence|..].
    + destruct Hnp. apply list_elem_of_fmap. exists d. split; [congruence|done].
    + destruct (iv_pub _ _ Hi d q t Hd Ho1 Hi') as [? Hhd]. split; [done|]. intros Hin. cbn in Hin. apply elem_of_cons in Hin as [->|[->|Hin]%elem_of_cons]; [done|congruence|].
      rewrite split_queue in Hhd. specialize (Hhd ltac:(by right)). cbn in Hhd. congruence.
  - cbn. intros q t d [= <-] Ht Hd. assert (t = pre) as -> by (rewrite split_heap, decide_False, decide_True in Ht; congruence).
    apply desc_id in Hd as (E & _). exists (published b), 0%nat. rewrite app_nil_r. split_and!; [done| |congruence].
    replace (Slice.slice_id d) with id by congruence. done.
  - cbn. intros q t Hin Ht. destruct (split_lookup q t Ht) as [[-> ->]|[[-> ->]|[Hq1 Ho1]]]; [congruence..|]. apply (iv_behind _ _ Hi q t); [|done].
    rewrite split_queue. cbn. apply elem_of_cons in Hin as [->|?]; [congruence|done].
  - apply (tasks_ok_mono b); [apply Hi|done|]. intros q t Hqt Hcm. exists t. split; [|done]. rewrite split_heap, !decide_False; [done|congruence..].
  - intros x Hx. destruct split_queued as [-> E]. rewrite (iv_view _ _ Hi x Hx), E, (split_top s pre post up) by done. done.
Qed.

End split.

Lemma split_guard s up td d freed tail_buf : slice_inv s -> state s = Writable -> in_flight s = 0 -> is_Some (slice_id s) ->
  0 < up < len (data s) -> up = dispatched_end s * bs ->
  CacheSlice.copy_into cfg (data s) up (len (data s) - up) = Ok tail_buf ->
  CacheSlice.append cfg (CacheSlice.new cfg) tail_buf = (Ok tt, td) ->
  CacheSlice.truncate cfg (data s) up = (Ok freed, d) ->
  split_of s (set_state Uploaded (set_data d s))
    (set_data td (set_write_order (write_order s) (set_max_write_unique (max_write_unique s)
      (set_write_origin_mask (write_origin_mask s) (SliceState.new cfg (offset s + up) (creation_unique s)))))) up.
Proof.
  intros Hsi Hw Hf Hid Hup Ed Hcp Hap Htr.
  destruct (split_spec cfg cfg_ok s up tail_buf td d freed Hsi Hw Hf Hid Hup Ed Hcp Hap Htr) as (H1 & H2 & H3 & H4 & H5 & H6).
  constructor; try done; subst up; lia.
Qed.

(** The split does nothing, or cuts the front slice in two. *)
Lemma split_cases b m r : inv b m -> split_uploaded_prefix_tail cfg r b = b \/
  exists rest c s pre post up, chunk b = Some c /\ slices c = r :: rest /\ heap b !! r = Some s /\ split_of s pre post up /\
    split_uploaded_prefix_tail cfg r b =
      set_chunk (Some (set_slices (r :: next_ref b :: rest) c)) (alloc post (update r (fun _ => pre) b)).2.
Proof.
  intros Hi. unfold split_uploaded_prefix_tail. destruct (bool_decide _); [by left|]. destruct (negb (upload_before_commit_prefix_split cfg)); [by left|].
  destruct (chunk b) as [c|] eqn:Hc; [|by left]. destruct (heap b !! r) as [s|] eqn:Hs; [|by left].
  destruct (is_front r b) eqn:Hfr; [|by left]. cbn [negb]. apply bool_decide_eq_true in Hfr. unfold queue in Hfr. rewrite Hc in Hfr.
  destruct (slices c) as [|r' rest] eqn:Hq; [by left|]. injection Hfr as ->.
  destruct (ba_slice _ (iv_base _ _ Hi) r s Hs) as (Hsi & _).
  destruct (is_writable s) eqn:Hw; [|by left]. apply bool_decide_eq_true in Hw. destruct (Z.eqb_spec (in_flight s) 0) as [Hf|]; [|by left].
  destruct (meta_write_started s); [by left|]. cbn [negb orb]. case_bool_decide as Hid; [by left|]. apply not_eq_None_Some in Hid.
  destruct (Z.eqb_spec (uploaded s) 0); [by left|]. destruct (Z.leb_spec (len (data s)) (uploaded s)); [by left|].
  destruct (Z.eqb_spec (uploaded s) (dispatched_end s * bs)) as [Ed|]; [|by left]. destruct (_ mod _ =? 0); [|by left]. cbn [negb orb].
  destruct (bs <=? _); [by left|]. pose proof (si_uploaded _ _ Hsi).
  destruct (CacheSlice.copy_into _ _ _ _) as [tb|] eqn:Hcp; [|by left]. destruct (zlen tb =? _); [|by left]. cbn [negb data set_write_order
    set_max_write_unique set_write_origin_mask SliceState.new].
  destruct (CacheSlice.append _ _ _) as [[[]|] td] eqn:Hap; [|by left]. destruct (CacheSlice.truncate _ _ _) as [[freed|] d] eqn:Htr; [|by left].
  pose proof (split_guard s (uploaded s) td d freed tb Hsi Hw Hf Hid ltac:(lia) Ed Hcp Hap Htr) as Hsp.
  right. eexists rest, c, s, _, _, (uploaded s). split_and!; [done..|exact Hsp|]. cbn [alloc snd]. do 2 f_equal. unfold update.
  assert (alter (fun s => set_state Uploaded (set_data d s)) r (heap b) = alter (fun _ => set_state Uploaded (set_data d s)) r (heap b)) as ->; [|done].
  apply alter_ext. intros t Ht. by assert (t = s) as -> by congruence.
Qed.

Lemma split_uploaded_prefix_tail_ok b m r : inv b m -> inv (split_uploaded_prefix_tail cfg r b) m.
Proof.
  intros Hi. destruct (split_cases b m r Hi) as [->|(rest & c & s & pre & post & up & Hc & Hq & Hs & Hsp & ->)]; [done|].
  by apply (inv_split b m r rest c s pre post up).
Qed.

Lemma finish_batch_ok schedule b m k : (forall us, schedule us ≡ₚ us) -> inv b m -> error (finish_batch cfg schedule k b) = false -> inv (finish_batch cfg schedule k b) m.
Proof.
  intros Hperm Hi. unfold finish_batch. destruct (batches b !! k) as [t|] eqn:Hk; [|done].
  destruct (upload_attempts _ _ _ _ _) as [ok st] eqn:Hup. destruct ok; [|done]. intros _.
  apply split_uploaded_prefix_tail_ok. by apply (batch_done_ok schedule).
Qed.

(** ** Publishing *)

Lemma uploaded_stored b m r s id : inv b m -> r ∈ queue b \/ state s <> Committed -> heap b !! r = Some s -> SliceHandle.upload_done s = true -> slice_id s = Some id ->
  forall y, 0 <= y < len (data s) -> stored (store b) (id, y / bs) (y mod bs) = Some (byte_at cfg (data s) y).
Proof.
  intros Hi Hor Hs Hd Hid y Hy. destruct (ba_slice _ (iv_base _ _ Hi) r s Hs) as (Hsi & _).
  assert (in_flight s = 0 /\ len (data s) <= dispatched_end s * bs) as [Hf Hl].
  { apply (si_done _ _ Hsi). unfold SliceHandle.upload_done in Hd. destruct (state s); auto; done. }
  destruct (iv_stored _ _ Hi r s id Hs Hid Hor y Hy ltac:(lia)) as [(t & Ht & Er & _)|?]; [|done].
  rewrite <-Er in Hs. pose proof (flight_pos b m t s Hi Ht Hs). lia.
Qed.

Lemma chunk_byte_desc (st : S) pub s d x : slice_inv s -> desc_of s = Some d ->
  (forall y, 0 <= y < len (data s) -> stored st (Slice.slice_id d, y / bs) (y mod bs) = Some (byte_at cfg (data s) y)) ->
  chunk_byte layout st (pub ++ [d]) x = if covers s x then Some (slice_byte cfg s x) else chunk_byte layout st pub x.
Proof.
  intros Hsi Hd Hst. destruct (desc_id s d Hd) as (_ & _ & Eo & El). pose proof (si_range _ _ Hsi). pose proof (bs_pos cfg cfg_ok).
  pose proof (lo_blocks _ (co_layout _ cfg_ok)). unfold chunk_byte, source. rewrite Slice.visible_app. cbn [Slice.visible].
  replace (Slice.slice_covers x d) with (covers s x) by (unfold covers, in_range, Slice.slice_covers; cbn; by rewrite Eo, El).
  destruct (covers s x) eqn:Ec; [|done]. apply covers_spec in Ec. cbn. rewrite Eo.
  rewrite as_u32_small; [apply Hst; lia|]. split; [apply Z.div_pos; lia|apply Z.div_lt_upper_bound; nia].
Qed.

Lemma desc_slice_ok b m r s d : inv b m -> heap b !! r = Some s -> desc_of s = Some d -> Slice.slice_ok d.
Proof.
  intros Hi Hs Hd. destruct (desc_id s d Hd) as (Eid & _ & Eo & El). destruct (ba_slice _ (iv_base _ _ Hi) r s Hs) as (Hsi & _).
  pose proof (si_range _ _ Hsi). pose proof (so_len _ _ (si_data _ _ Hsi)). pose proof (cs_u64 cfg cfg_ok).
  constructor; [by apply (ba_u64 _ (iv_base _ _ Hi) r s)|lia..].
Qed.

Lemma inv_publish_front b m r s d : inv b m -> head (queue b) = Some r -> heap b !! r = Some s -> state s = Uploaded -> desc_of s = Some d ->
  inv (set_published (published b ++ [d]) b) m.
Proof.
  intros Hi Hh Hs Hu Hd. destruct (ba_slice _ (iv_base _ _ Hi) r s Hs) as (Hsi & _). destruct (desc_id s d Hd) as (Eid & _).
  assert (SliceHandle.upload_done s = true) as Hud by (unfold SliceHandle.upload_done; by rewrite Hu).
  assert (r ∈ queue b) as Hin by (destruct (queue b); [done|injection Hh as ->; by left]).
  assert (forall x, chunk_byte layout (store b) (published b ++ [d]) x =
    if covers s x then Some (slice_byte cfg s x) else chunk_byte layout (store b) (published b) x) as Hcb.
  { intros x. apply chunk_byte_desc; try done. by eapply uploaded_stored; eauto. }
  pose proof (iv_base _ _ Hi) as []. constructor; try apply Hi; [by constructor|..]; cbn [published set_published].
  - intros t Ht. destruct (iv_batch _ _ Hi t Ht) as [s0 []]. by exists s0.
  - intros d' q t [Hd'|Hd'%list_elem_of_singleton]%elem_of_app Ht Hid; [by apply (iv_pub _ _ Hi d')|]. subst d'.
    change (heap _) with (heap b) in Ht. assert (q = r) as -> by (by eapply ba_ids). assert (t = s) as -> by congruence. done.
  - intros q t d' Hq Ht Hd'. change (queue _) with (queue b) in Hq. change (heap _) with (heap b) in Ht.
    assert (q = r) as -> by congruence. assert (t = s) as -> by congruence. assert (d' = d) as -> by congruence.
    destruct (iv_front _ _ Hi r s d Hh Hs Hd) as (P & k & E & Hn & _). exists P, (k + 1)%nat. rewrite E, replicate_add, <-app_assoc.
    split_and!; [done..|lia].
  - apply Forall_app. split; [apply Hi|]. constructor; [by eapply desc_slice_ok|done].
  - intros x Hx. cbn [store set_published]. rewrite Hcb. destruct (covers s x); [by eexists|by apply Hi].
  - intros x Hx. cbn [store set_published]. rewrite Hcb, (iv_view _ _ Hi x Hx). change (queued (set_published _ b)) with (queued b).
    destruct (top cfg (queued b) x) eqn:Et; [done|]. rewrite (proj1 (top_None cfg_ok _ x) Et s); [done|]. apply (elem_of_queued cfg_ok). eauto.
Qed.

Lemma inv_publishes b m r s d j : inv b m -> head (queue b) = Some r -> heap b !! r = Some s -> state s = Uploaded -> desc_of s = Some d ->
  inv (set_published (published b ++ replicate j d) b) m.
Proof.
  intros Hi Hh Hs Hu Hd. induction j as [|j IH].
  { cbn. rewrite app_nil_r. by destruct b. }
  rewrite replicate_S_end, app_assoc. exact (inv_publish_front _ m r s d IH Hh Hs Hu Hd).
Qed.

(** The front slice of the last descriptor is marked as committed. *)
Lemma inv_commit b m r s f : inv b m -> heap b !! r = Some s -> state s = Uploaded -> just_published chunk_id b r s ->
  f s = SliceHandle.mark_committed s \/ (exists v, f s = SliceHandle.mark_committed (set_meta_write_started v s)) -> inv (update r f b) m.
Proof.
  intros Hi Hs Hu Hj Hf. destruct (ba_slice _ (iv_base _ _ Hi) r s Hs) as (Hsi & _).
  assert (kept cfg s (f s) /\ in_flight (f s) = in_flight s /\ dispatched_end (f s) = dispatched_end s) as (Hk & Hfl & Hde).
  { assert (in_flight s = 0 /\ len (data s) <= dispatched_end s * bs) as Hdn by (apply (si_done _ _ Hsi); auto).
    assert (forall s', s' = SliceHandle.mark_committed s \/ (exists v, s' = SliceHandle.mark_committed (set_meta_write_started v s)) ->
      slice_inv s') as Hinv.
    { destruct Hsi. intros s' [->|[v ->]]; by constructor. }
    pose proof (Hinv _ Hf) as Hsi'. destruct Hf as [E|[v E]]; rewrite E in Hsi' |- *; (split; [|done]); constructor; try done; apply Z.le_refl. }
  apply (inv_touch cfg_ok b m r f s (batches b) (store b)); try done; auto.
  - intros t [s0 B]%(iv_batch _ _ Hi). refine (batch_ok_kept b _ t r s (f s) Hs Hk _ s0 B). exact (heap_update b r f s Hs).
  - intros q t Ht. destruct (lookup_updated b r f s q t Hs Ht) as [[-> ->]|[_ Hq]]; [rewrite Hfl|]; by apply (iv_count _ _ Hi).
  - intros q t id Ht. destruct (lookup_updated b r f s q t Hs Ht) as [[-> ->]|[_ Hq]]; [|by apply (iv_stored _ _ Hi q t)].
    rewrite (ke_id _ _ _ Hk), (ke_len _ _ _ Hk). intros Hid _ x Hx _. right. rewrite (ke_byte _ _ _ Hk).
    eapply (uploaded_stored b m r s); try done; [right; congruence|unfold SliceHandle.upload_done; by rewrite Hu].
Qed.

Lemma not_stale b m r s : inv b m -> heap b !! r = Some s -> stale s b = false.
Proof.
  intros Hi Hs. destruct (ba_slice _ (iv_base _ _ Hi) r s Hs) as (Hsi & _). unfold stale. by rewrite (si_epoch _ _ Hsi).
Qed.

Lemma commit_attempts_spec fuel outs d : forall a l, exists j res, commit_attempts fuel outs a d l = (res, l ++ replicate j d) /\
  (res = CommitDone -> (0 < j)%nat).
Proof.
  assert (forall out l, exists i, meta_apply out d l = l ++ replicate i d /\ (out = MetaOk -> i = 1%nat)) as Happ.
  { intros [|[] r] l; [by exists 1%nat..|]. exists 0%nat. by rewrite app_nil_r. }
  induction fuel as [|fuel IH]; intros a l; cbn [commit_attempts]; destruct (Happ (outs a) l) as (i & -> & Hone); destruct (outs a) as [|app re];
    try destruct re; try (exists i; eexists; split; [done|]; intros; by rewrite ?Hone by done; lia).
  destruct (IH (1 + a)%nat (l ++ replicate i d)) as (j & res & -> & Hj). exists (i + j)%nat, res. rewrite replicate_add, app_assoc.
  split; [done|]. intros. specialize (Hj ltac:(done)). lia.
Qed.

Lemma last_published (l : list SliceDesc) d j : (0 < j)%nat -> last (l ++ replicate j d) = Some d.
Proof. intros Hj. destruct j; [lia|]. by rewrite replicate_S_end, app_assoc, last_snoc. Qed.

Lemma try_commit_ok b m r outs : inv b m -> error (try_commit chunk_id r outs b) = false -> inv (try_commit chunk_id r outs b) m.
Proof.
  intros Hi. unfold try_commit. destruct (heap b !! r) as [s|] eqn:Hs; [|done]. destruct (SliceHandle.can_commit s) eqn:Hu; [|done].
  apply bool_decide_eq_true in Hu. cbn [negb]. destruct (desc_of s) as [d|] eqn:Hd; [|done]. rewrite (not_stale b m r s) by done.
  destruct (meta_write_started s); [done|]. destruct (is_front r b) eqn:Hh; [|done]. apply bool_decide_eq_true in Hh. cbn [negb].
  destruct (commit_attempts_spec (COMMIT_META_MAX_RETRIES - 1) outs d 0 (published b)) as (j & res & -> & Hj).
  pose proof (inv_publishes b m r s d j Hi Hh Hs Hu Hd) as Hi'. set (b1 := set_published _ b) in *.
  destruct (ba_slice _ (iv_base _ _ Hi) r s Hs) as (Hsi & _). destruct res; [|intros _|done].
  - intros _. apply (inv_commit b1 m r s); [done|done|done| |by right; exists true].
    split; [done|]. exists d. split; [done|]. apply last_published. auto.
  - apply (inv_harmless cfg_ok b1 m r _ s Hi' Hs). by apply set_claim_harmless.
Qed.

(** ** Taking a published slice off the queue *)

Lemma committed_not_overlaid s : slice_inv s -> state s = Committed -> SliceState.can_overlay_read cfg s = false.
Proof.
  intros Hsi Hc. unfold SliceState.can_overlay_read, SliceState.upload_complete, SliceState.has_idle_block, sealed_status, u64_saturating_sub.
  destruct (si_done _ _ Hsi) as [Hf Hl]; [auto|]. rewrite Hc, (ready_len cfg s Hsi), (pending_start_disp cfg s Hsi), Hf. cbn.
  rewrite (proj2 (Z.ltb_ge _ _)) by lia. done.
Qed.

Lemma release_inv s : slice_inv s -> state s = Committed -> slice_inv (set_data (CacheSlice.release_all (data s)).2 s).
Proof.
  intros [] Hc. constructor; try done; [by apply release_all_ok|]. slice_cbn. by rewrite Hc.
Qed.

(** What a published front slice holds, the published content holds too. *)
Lemma front_published b m r s x : inv b m -> head (queue b) = Some r -> heap b !! r = Some s -> state s = Committed -> covers s x = true ->
  chunk_byte layout (store b) (published b) x = Some (slice_byte cfg s x).
Proof.
  intros Hi Hh Hs Hc Hx. destruct (ba_slice _ (iv_base _ _ Hi) r s Hs) as (Hsi & _). pose proof (proj1 (covers_spec s x) Hx) as Hr.
  assert (r ∈ queue b) as Hin by (destruct (queue b); [done|injection Hh as ->; by left]).
  assert (SliceHandle.upload_done s = true) as Hud by (unfold SliceHandle.upload_done; by rewrite Hc).
  destruct (slice_id s) as [id|] eqn:Hid; [|destruct (no_id_idle s Hsi Hid) as [_ Hz]; specialize (Hz Hud); lia].
  assert (exists d, desc_of s = Some d) as [d Hd].
  { unfold SliceHandle.desc_for_commit. rewrite Hid, (proj2 (Z.eqb_neq _ _)) by lia. eauto. }
  destruct (iv_front _ _ Hi r s d Hh Hs Hd) as (P & k & E & _ & Hk). specialize (Hk Hc). destruct k as [|k]; [lia|].
  rewrite E, replicate_S_end, app_assoc. rewrite (chunk_byte_desc (store b) _ s d x Hsi Hd); [by rewrite Hx|].
  apply desc_id in Hd as (Hid' & _). intros y Hy. eapply (uploaded_stored b m r s); eauto.
Qed.

Lemma inv_pop b m r rest c s : inv b m -> chunk b = Some c -> slices c = r :: rest -> heap b !! r = Some s -> state s = Committed ->
  inv (update r (fun s => set_data (CacheSlice.release_all (data s)).2 s) (set_chunk (Some (set_slices rest c)) b)) m.
Proof.
  intros Hi Hc Hsl Hs Hcm. pose proof (iv_base _ _ Hi) as Hb. destruct (ba_slice _ Hb r s Hs) as (Hsi & Hnf & Hord).
  assert (queue b = r :: rest) as Eq by (unfold queue; by rewrite Hc). pose proof (ba_nodup _ Hb) as Hnd. rewrite Eq in Hnd. apply NoDup_cons in Hnd as [Hr Hnd].
  set (f := fun s => set_data (CacheSlice.release_all (data s)).2 s). set (b' := update r f _).
  assert (forall q t, heap b' !! q = Some t -> q = r /\ t = f s \/ q <> r /\ heap b !! q = Some t) as Hold.
  { intros q t Ht. by apply (lookup_updated (set_chunk (Some (set_slices rest c)) b) r f s). }
  assert (forall q, q <> r -> heap b' !! q = heap b !! q) as Hne.
  { intros q Hq. subst b'. rewrite (heap_update _ r f s) by done. by rewrite lookup_insert_ne. }
  assert (queued b = s :: queued b') as Eqd.
  { unfold queued. change (queue b') with rest. rewrite Eq. cbn [omap list_omap]. rewrite Hs. f_equal. apply omap_ext_in. intros q Hq. rewrite Hne; [done|congruence]. }
  assert (slice_inv (f s)) as Hsi' by (by apply release_inv).
  assert (forall q, q ∈ rest -> head (queue b) <> Some q) as Hhd by (intros q Hq; rewrite Eq; cbn; congruence).
  constructor; try apply Hi; [constructor; try apply Hb|..].
  - intros q t Ht. destruct (Hold q t Ht) as [[-> ->]|[_ Hq]]; [done|by apply (ba_slice _ Hb q)].
  - intros q [t Ht]. destruct (Hold q t Ht) as [[-> ->]|[_ Hq]]; apply (ba_fresh _ Hb); eauto.
  - done.
  - intros q Hq. change (q ∈ rest) in Hq. rewrite Hne by congruence. apply (ba_live _ Hb). rewrite Eq. by right.
  - pose proof (ba_sorted _ Hb) as Hst. rewrite Eqd in Hst. by apply StronglySorted_inv in Hst as [? _].
  - cbn. intros ? [= <-]. exact (ba_recent _ Hb c Hc).
  - intros q q' t t' id Ht Ht'. destruct (Hold q t Ht) as [[-> ->]|[_ Hq]], (Hold q' t' Ht') as [[-> ->]|[_ Hq']]; try done;
      [apply (ba_ids _ Hb r q' s t')|apply (ba_ids _ Hb q r t s)|apply (ba_ids _ Hb q q' t t')]; done.
  - intros q t id Ht. destruct (Hold q t Ht) as [[-> ->]|[_ Hq]]; [by apply (ba_u64 _ Hb r s)|by apply (ba_u64 _ Hb q)].
  - intros t Ht. destruct (iv_batch _ _ Hi t Ht) as [s0 [B1 B2 B3 B4 B5]]. exists s0. constructor; try done. rewrite Hne; [done|].
    intros E. rewrite E in B1. assert (s0 = s) as -> by congruence. rewrite <-E in Hs. pose proof (flight_pos b m t s Hi Ht Hs).
    destruct (si_done _ _ Hsi); [auto|lia].
  - intros q t Ht. destruct (Hold q t Ht) as [[-> ->]|[_ Hq]]; [by apply (iv_count _ _ Hi r s)|by apply (iv_count _ _ Hi)].
  - intros q t id Ht Hid Hor. destruct (Hold q t Ht) as [[-> ->]|[Hn Hq]].
    + destruct Hor as [Hin|Hx]; [by destruct Hr|by destruct Hx].
    + apply (iv_stored _ _ Hi q t id Hq Hid). destruct Hor as [Hin|?]; [|by right]. left. rewrite Eq. by right.
  - intros d q t Hd Ht Hid. destruct (Hold q t Ht) as [[-> ->]|[Hn Hq]].
    + destruct (iv_pub _ _ Hi d r s Hd Hs Hid). split; [done|]. intros Hin. by destruct Hr.
    + destruct (iv_pub _ _ Hi d q t Hd Hq Hid) as [? Hh]. split; [done|]. intros Hin. exfalso. apply (Hhd q Hin), Hh. rewrite Eq. by right.
  - intros q t d Hh Ht Hd. change (queue b') with rest in Hh. assert (q ∈ rest) as Hin by (destruct rest; [done|]; injection Hh as ->; by left).
    destruct (Hold q t Ht) as [[-> _]|[Hn Hq]]; [done|]. destruct (desc_id t d Hd) as (Hid & Hl & _). change (published b') with (published b).
    exists (published b), 0%nat. rewrite app_nil_r. split_and!; [done| |].
    + intros (d' & E & Hd')%list_elem_of_fmap. rewrite E in Hid. destruct (iv_pub _ _ Hi d' q t Hd' Hq Hid) as [_ Hh']. apply (Hhd q Hin), Hh'. rewrite Eq. by right.
    + intros Ht'. destruct Hl. symmetry. apply (iv_behind _ _ Hi q t); [by rewrite Eq|done|done].
  - intros q t Hin Ht Hct. change (queue b') with rest in Hin. assert (q ∈ rest) as Hin' by (destruct rest; [done|by right]).
    destruct (Hold q t Ht) as [[-> _]|[Hn Hq]]; [done|]. apply (iv_behind _ _ Hi q t); [by rewrite Eq|done|done].
  - apply (tasks_ok_mono b); [apply Hi|done|]. intros q t0 H0 Hct. destruct (decide (q = r)) as [->|Hn]; [|rewrite Hne by done; by eauto].
    exists (f s). subst b'. rewrite (heap_update _ r f s) by done. by rewrite lookup_insert_eq.
  - intros x Hx. rewrite (iv_view _ _ Hi x Hx), Eqd. cbn [top]. change (published b') with (published b). change (store b') with (store b).
    destruct (top cfg (queued b') x); [done|]. destruct (covers s x) eqn:Hcv; [|done]. symmetry. eapply front_published; try done. by rewrite Eq.
Qed.

(** ** The commit task *)

Lemma inv_set_task b m i p n : inv b m ->
  match p with AtPop r => exists s, heap b !! r = Some s /\ state s = Committed | AtMove _ => False | _ => True end ->
  inv (set_task i p n b) m.
Proof.
  intros Hi Hp. pose proof (iv_base _ _ Hi) as []. constructor; try apply Hi; [by constructor| |].
  - intros t Hin. destruct (iv_batch _ _ Hi t Hin) as [s0 []]. by exists s0.
  - intros t Ht. cbn in Ht. apply list_elem_of_lookup in Ht as [j Hj]. destruct (decide (j = i)) as [->|Hne].
    + apply list_lookup_insert_Some in Hj as [(_ & <- & _)|[? _]]; [|done]. by destruct p.
    + rewrite list_lookup_insert_ne in Hj by done. by apply (iv_tasks _ _ Hi t), list_elem_of_lookup_2 with j.
Qed.

Lemma uploaded_desc s : slice_inv s -> state s = Uploaded -> exists d, desc_of s = Some d.
Proof.
  intros Hsi Hu. pose proof (si_sealed _ _ Hsi) as Hl. rewrite Hu in Hl. specialize (Hl ltac:(done) ltac:(done)).
  unfold SliceHandle.desc_for_commit. rewrite (proj2 (Z.eqb_neq _ _)) by lia. destruct (slice_id s) eqn:Hid; [eauto|].
  destruct (no_id_idle s Hsi Hid) as [_ Hz]. unfold SliceHandle.upload_done in Hz. rewrite Hu in Hz. specialize (Hz eq_refl). lia.
Qed.

Lemma publish_front_ok b m i n r ch s : inv b m -> head (queue b) = Some r -> heap b !! r = Some s -> state s = Uploaded ->
  error (publish_front chunk_id i n r ch s b) = false -> inv (publish_front chunk_id i n r ch s b) m.
Proof.
  intros Hi Hh Hs Hu. destruct (ba_slice _ (iv_base _ _ Hi) r s Hs) as (Hsi & _). destruct (uploaded_desc s Hsi Hu) as [d Hd].
  unfold publish_front. destruct (err s); [by intros _; apply inv_set_task|]. rewrite (not_stale b m r s) by done.
  destruct (meta_write_started s); [by intros _; apply inv_set_task|]. rewrite Hd.
  set (b1 := update r (set_meta_write_started true) b). set (s1 := set_meta_write_started true s).
  assert (inv b1 m) as Hi1 by (apply (inv_harmless cfg_ok b m r _ s Hi Hs); by apply set_claim_harmless).
  assert (heap b1 !! r = Some s1) as Hs1 by (subst b1; rewrite (heap_update b r _ s Hs); apply lookup_insert_eq).
  assert (exists j, meta_apply (ch_meta ch) d (published b1) = published b1 ++ replicate j d /\ (ch_meta ch = MetaOk -> (0 < j)%nat)) as (j & -> & Hj).
  { destruct (ch_meta ch) as [|[] ?]; [exists 1%nat; by auto with lia..|]. exists 0%nat. by rewrite app_nil_r. }
  pose proof (inv_publishes b1 m r s1 d j Hi1 Hh Hs1 Hu Hd) as Hi2. set (b2 := set_published _ b1) in *.
  destruct (ch_meta ch) as [|app re].
  - intros _. apply inv_set_task.
    + apply (inv_commit b2 m r s1); [done..| |by left]. split; [done|]. exists d. split; [done|]. apply last_published. auto.
    + exists (SliceHandle.mark_committed s1). rewrite (heap_update b2 r _ s1 Hs1). by rewrite lookup_insert_eq.
  - destruct (negb re || _); [done|]. intros _. by apply inv_set_task.
Qed.

Lemma wait_for_upload_ok (mode : writeback_mode cfg = UploadBeforeCommit) write_back b m i n r ch s : inv b m -> heap b !! r = Some s ->
  error (wait_for_upload cfg write_back chunk_id i n r ch s b) = false -> inv (wait_for_upload cfg write_back chunk_id i n r ch s b) m.
Proof.
  intros Hi Hs. unfold wait_for_upload, try_commit_before_upload_front. rewrite bool_decide_true by done.
  destruct (ch_timeout ch); cbn [negb]; [|intros _; by apply inv_set_task].
  destruct (is_writable s).
  - intros _. destruct (ch_old ch); cbn.
    + pose proof (inv_freeze b m r s CommitAgeSafety Hi Hs) as Hi'. destruct (SliceHandle.freeze_with_reason _ _ _ _) as [froze s'].
      apply inv_set_task; [|done]. cbn [snd] in Hi'. destruct froze; [by apply inv_spawn|done].
    + apply inv_set_task; [|done]. apply (inv_harmless cfg_ok b m r _ s Hi Hs). apply harmless_refl. by apply (ba_slice _ (iv_base _ _ Hi) r s).
  - destruct (ch_stalled ch); [done|]. intros _. apply inv_set_task; [|done]. unfold spawn_if_idle. rewrite Hs.
    destruct (SliceHandle.can_continue_upload cfg s); [by apply inv_spawn|done].
Qed.

(** The interleavings the statement is about: a commit task that found the queue
    empty finds it empty again when it removes the chunk, publishes a slice only
    while it is the front, and takes off the queue the slice it published. *)
Definition orderly_task (b : Buffer) (p : TaskPc) : Prop :=
  match p with
  | SawEmpty => queue b = []
  | AtFront r => head (queue b) = Some r \/ state <$> heap b !! r <> Some Uploaded
  | AtPop r => head (queue b) = Some r
  | _ => True
  end.

Lemma split_front b r : head (queue (split_uploaded_prefix_tail cfg r b)) = head (queue (S := S) b).
Proof.
  unfold split_uploaded_prefix_tail. destruct (bool_decide _); [done|]. destruct (negb (upload_before_commit_prefix_split cfg)); [done|].
  destruct (chunk b) as [c|] eqn:Hc; [|done]. destruct (heap b !! r) as [s|]; [|done]. destruct (negb (is_front r b)); [done|].
  destruct (_ || bool_decide _); [done|]. destruct (_ || negb (_ mod _ =? _)); [done|]. destruct (bs <=? _); [done|].
  destruct (CacheSlice.copy_into _ _ _ _); [|done]. destruct (negb _); [done|]. destruct (CacheSlice.append _ _ _) as [[|] ?]; [|done].
  destruct (CacheSlice.truncate _ _ _) as [[|] ?]; [|done]. cbn. unfold queue at 2. rewrite Hc. destruct (slices c) eqn:Hs; [|done]. unfold queue. cbn. by rewrite ?Hc, Hs.
Qed.

Lemma split_not_front (b : Buffer) r : head (queue b) <> Some r -> split_uploaded_prefix_tail cfg r b = b.
Proof.
  intros Hh. unfold split_uploaded_prefix_tail, is_front. rewrite (bool_decide_false (head _ = _)) by done.
  repeat case_match; done.
Qed.

Lemma commit_chunk_ok (mode : writeback_mode cfg = UploadBeforeCommit) write_back b m i ch : inv b m -> (forall t, tasks b !! i = Some t -> orderly_task b (pc t)) ->
  error (commit_chunk cfg write_back chunk_id i ch b) = false -> inv (commit_chunk cfg write_back chunk_id i ch b) m.
Proof.
  intros Hi Hord. unfold commit_chunk. destruct (tasks b !! i) as [t|] eqn:Ht; [|done]. specialize (Hord t eq_refl).
  pose proof (iv_tasks _ _ Hi t ltac:(by eapply list_elem_of_lookup_2)) as Htk. pose proof (iv_base _ _ Hi) as Hb.
  destruct (pc t) as [| |r|r|r|] eqn:Hp; cbn in Hord; [..|done]; [| | | |done].
  - intros _. destruct (chunk b) as [c|]; [|by apply inv_set_task]. destruct (slices c); by apply inv_set_task.
  - intros _. unfold queue in Hord. destruct (chunk b) as [c|] eqn:Hc; [|by apply inv_set_task]. rewrite (ba_recent _ Hb c Hc), bool_decide_true by done.
    apply inv_set_task; [|done]. eapply inv_ext; [exact Hi|..]; try done; [|by left]. unfold queue. cbn. by rewrite Hc.
  - pose proof (split_uploaded_prefix_tail_ok b m r Hi) as Hi'. pose proof (split_front b r) as Hf.
    assert (head (queue (split_uploaded_prefix_tail cfg r b)) = Some r \/ state <$> heap (split_uploaded_prefix_tail cfg r b) !! r <> Some Uploaded) as Ho'.
    { rewrite Hf. destruct (decide (head (queue b) = Some r)) as [|Hne]; [by left|]. rewrite split_not_front by done. naive_solver. }
    set (b1 := split_uploaded_prefix_tail cfg r b) in *. destruct (heap b1 !! r) as [s|] eqn:Hs; [|done].
    destruct (ba_slice _ (iv_base _ _ Hi') r s Hs) as (_ & Hnf & _). destruct (state s) eqn:Est; [..|done|].
    + by apply wait_for_upload_ok.
    + by apply wait_for_upload_ok.
    + destruct Ho' as [Hh|Hn]; [by apply publish_front_ok|]. cbn in Hn. by rewrite Est in Hn.
    + intros _. apply inv_set_task; eauto.
  - destruct Htk as (s & Hs & Hc). intros _. rewrite Hs. cbn [fmap option_fmap option_map]. rewrite Hc, bool_decide_true by done.
    apply inv_set_task; [|done]. unfold queue in *. destruct (chunk b) as [c|] eqn:Hch; [|done]. destruct (slices c) as [|q rest] eqn:Hsl; [done|].
    injection Hord as ->. unfold keep_recently_committed_if_overlay_needed, on_chunk. rewrite Hch. cbn [heap set_chunk fmap option_fmap option_map]. rewrite Hs.
    rewrite committed_not_overlaid by (done || by apply (ba_slice _ Hb r s)). rewrite Hsl. cbn [tail]. by apply (inv_pop b m r rest c s).
Qed.

Lemma restart_ok b m : inv b m -> inv (restart_commit_task b) m.
Proof.
  intros Hi. unfold restart_commit_task. destruct (chunk b) as [c|] eqn:Hc; [|done]. destruct (_ && _); [|done].
  apply inv_tasks; [apply inv_set_chunk; [done|unfold queue; by rewrite Hc|exact (ba_recent _ (iv_base _ _ Hi) c Hc)]|].
  intros t [?|Ht%list_elem_of_singleton]%elem_of_app; [by left|right; by subst t].
Qed.

Lemma drain_ok b m aged expired : inv b m -> inv (drain_recently_committed cfg aged expired b) m.
Proof.
  intros Hi. unfold drain_recently_committed. destruct (chunk b) as [c|] eqn:Hc; [|done]. pose proof (ba_recent _ (iv_base _ _ Hi) c Hc) as Hr.
  rewrite Hr. cbn [filter list_filter foldl]. unfold drop_if_empty. cbn. assert (queue b = slices c) as Eq by (unfold queue; by rewrite Hc).
  destruct (bool_decide (slices c = [])) eqn:He; cbn; [|by apply inv_set_chunk].
  apply bool_decide_eq_true in He. eapply inv_ext; [exact Hi|..]; try done; [|by left]. by rewrite Eq.
Qed.

End steps.
