(* ===== verification/WriteCoalesce.v ===== *)
(** Coalescing cached slices before an explicit flush: a run of small slices
    that touch is replaced by one slice, and no read can tell. *)
From stdpp Require Import options.
From S2P Require Import Prelude Span Intervals Slices BlockStore Reader Writer PageCache WriteBuffer WriteInv WriteView WriteSteps.

(** ** Runs of candidates *)

Lemma candidate_leb_total a b : candidate_leb a b = false -> candidate_leb b a = true.
Proof.
  unfold candidate_leb. destruct (Nat.leb_spec (c_index a) (c_index b)), (Nat.leb_spec (c_index b) (c_index a)); lia.
Qed.
Lemma candidate_leb_trans a b c : candidate_leb a b = true -> candidate_leb b c = true -> candidate_leb a c = true.
Proof.
  unfold candidate_leb. destruct (Nat.leb_spec (c_index a) (c_index b)), (Nat.leb_spec (c_index b) (c_index c)), (Nat.leb_spec (c_index a) (c_index c)); lia.
Qed.

(** A candidate is a slice of the queue that may be merged, with its range. *)
Definition candidate_of (h : gmap nat SliceState) (l : list nat) (c : CachedCoalesceCandidate) (s : SliceState) : Prop :=
  exists r, l !! c_index c = Some r /\ h !! r = Some s /\ SliceState.can_coalesce_cached_writable s = true /\
    c_start c = offset s /\ c_end c = offset s + len (data s).

Lemma elem_of_candidates h l c : c ∈ candidates h l -> exists s, candidate_of h l c s.
Proof.
  unfold candidates. rewrite list_elem_of_omap. intros (o & Ho & ->). apply list_elem_of_lookup in Ho as [i Hi].
  rewrite list_lookup_imap in Hi. destruct (l !! i) as [r|] eqn:Hr; [|done]. cbn in Hi. injection Hi as Hi.
  destruct (h !! r) as [s|] eqn:Hs; [|done]. destruct (SliceState.can_coalesce_cached_writable s) eqn:Hc; [|done].
  unfold SliceState.data_range in Hi. destruct (_ =? 0); [done|]. injection Hi as <-. exists s, r. done.
Qed.

Lemma imap_index {A} (l : list A) : forall (f : nat -> A -> option CachedCoalesceCandidate) k,
  (forall i a c, f i a = Some c -> c_index c = (k + i)%nat) ->
  NoDup (c_index <$> omap (fun o => o) (imap f l)) /\ forall c, c ∈ omap (fun o => o) (imap f l) -> (k <= c_index c)%nat.
Proof.
  induction l as [|a l IH]; intros f k Hf; [split; [constructor|by intros c Hc%elem_of_nil]|]. cbn.
  destruct (IH (f ∘ Datatypes.S) (Datatypes.S k)) as [Hnd Hle]; [intros i b c Hc; apply Hf in Hc; lia|].
  destruct (f 0%nat a) as [c|] eqn:Ea; [|split; [done|]; intros c Hc%Hle; lia]. apply Hf in Ea. split.
  - cbn. apply NoDup_cons. split; [|done]. intros (c' & E & Hc')%list_elem_of_fmap. apply Hle in Hc'. lia.
  - intros c' [->|Hc'%Hle]%elem_of_cons; lia.
Qed.

Lemma candidates_nodup h l : NoDup (c_index <$> candidates h l).
Proof.
  apply (imap_index l _ 0). intros i r c. destruct (h !! r) as [s|]; [|done]. destruct (SliceState.can_coalesce_cached_writable s); [|done].
  destruct (SliceState.data_range s) as [[a z]|]; [|done]. by intros [= <-].
Qed.

(** The ranges of a run leave no gap. *)
Record chained (run : list CachedCoalesceCandidate) (a z : Z) : Prop := {
  ch_first : exists c rest, run = c :: rest /\ c_start c = a;
  ch_within : forall c, c ∈ run -> a <= c_start c /\ c_end c <= z;
  ch_last : exists c, c ∈ run /\ c_end c = z;
  ch_cover : forall x, a <= x < z -> exists c, c ∈ run /\ c_start c <= x < c_end c
}.

Lemma chained_single c : c_start c <= c_end c -> chained [c] (c_start c) (c_end c).
Proof.
  intros Hc. constructor; [eauto|..].
  - intros c' ->%list_elem_of_singleton. lia.
  - exists c. set_solver.
  - intros x Hx. exists c. set_solver.
Qed.

Lemma chained_snoc run a z c : chained run a z -> a <= c_start c -> c_start c <= z -> c_start c <= c_end c ->
  chained (run ++ [c]) a (Z.max z (c_end c)).
Proof.
  intros [(c0 & rest & -> & <-) H2 (cl & Hl & El) H4] Ha Hz Hc. constructor.
  - exists c0, (rest ++ [c]). done.
  - intros c' [Hin|Hin%list_elem_of_singleton]%elem_of_app; [destruct (H2 c' Hin); lia|subst; lia].
  - destruct (Z.max_spec z (c_end c)) as [[_ ->]|[_ ->]]; [exists c|exists cl]; set_solver.
  - intros x Hx. destruct (Z.lt_ge_cases x z) as [Hlt|Hge].
    + destruct (H4 x ltac:(lia)) as (c' & ? & ?). exists c'. set_solver.
    + exists c. split; [set_solver|lia].
Qed.

Lemma max_ends run a z : chained run a z -> (forall c, c ∈ run -> 0 <= c_end c) -> foldr Z.max 0 (c_end <$> run) = z.
Proof.
  intros [_ H2 (c & Hin & <-) _] H0. assert (forall l, (forall c', c' ∈ l -> 0 <= c_end c' <= c_end c) -> c ∈ l -> foldr Z.max 0 (c_end <$> l) = c_end c) as Hl.
  { clear. induction l as [|c' l IH]; intros Hl Hin; [by apply elem_of_nil in Hin|]. cbn.
    pose proof (Hl c' ltac:(by left)). apply elem_of_cons in Hin as [->|Hin].
    - assert (foldr Z.max 0 (c_end <$> l) <= c_end c'); [|lia]. clear IH. induction l as [|d l IH]; cbn; [lia|].
      pose proof (Hl d ltac:(set_solver)). specialize (IH ltac:(set_solver)). lia.
    - rewrite IH; [lia|set_solver|done]. }
  apply Hl; [|done]. intros c' Hc'. split; [by apply H0|by apply H2].
Qed.

Definition starts_le (a b : CachedCoalesceCandidate) : Prop := c_start a <= c_start b.

Lemma coalesce_runs_spec h l allow idx cands : forall run a z,
  StronglySorted starts_le (run ++ cands) -> (forall c, c ∈ run ++ cands -> 0 <= c_start c <= c_end c) ->
  (run = [] \/ chained run a z) -> coalesce_runs h l allow cands run z = Some idx ->
  exists run' a' z', idx = c_index <$> run' /\ run' `sublist_of` run ++ cands /\ (2 <= length run')%nat /\ chained run' a' z' /\
    cached_coalesce_run_has_external_overlap h l run' a' z' = false.
Proof.
  assert (forall run a z, (run = [] \/ chained run a z) -> (forall c, c ∈ run -> 0 <= c_start c <= c_end c) ->
    valid_cached_coalesce_indices h l run = Some idx -> exists a' z', idx = c_index <$> run /\ (2 <= length run)%nat /\ chained run a' z' /\
    cached_coalesce_run_has_external_overlap h l run a' z' = false) as Hvalid.
  { intros run a z [->|Hch] H0 Hv; [done|]. exists a, z. unfold valid_cached_coalesce_indices in Hv.
    rewrite (max_ends run a z Hch) in Hv by (intros c Hc; apply H0 in Hc; lia). destruct (ch_first _ _ _ Hch) as (c & rest & -> & Ea).
    destruct rest as [|c' rest]; [done|]. rewrite Ea in Hv. destruct (cached_coalesce_run_has_external_overlap _ _ _ _ _); [done|].
    injection Hv as <-. split_and!; [done|cbn; lia|done|done]. }
  induction cands as [|c cands IH]; intros run a z Hst H0 Hch; cbn [coalesce_runs].
  { intros Hv. rewrite app_nil_r in *. destruct (Hvalid run a z Hch H0 Hv) as (a' & z' & ? & ? & ? & ?). exists run, a', z'. by split_and!. }
  pose proof (H0 c ltac:(set_solver)) as Hc. case_bool_decide as He.
  { subst run. intros Hv. apply (IH [c] (c_start c) (c_end c)) in Hv as (run' & a' & z' & ?); [by exists run', a', z'|done|done|].
    right. apply chained_single. lia. }
  destruct Hch as [?|Hch]; [done|]. destruct (if allow then _ else _) eqn:Ej.
  - intros Hv. apply (IH (run ++ [c]) a) in Hv as (run' & a' & z' & Hr).
    + rewrite <-app_assoc in Hr. by exists run', a', z'.
    + by rewrite <-app_assoc.
    + by rewrite <-app_assoc.
    + right. destruct (ch_first _ _ _ Hch) as (c0 & rest & E & <-). apply chained_snoc; [done| |destruct allow; lia|lia].
      subst run. apply StronglySorted_inv in Hst as [_ Hf]. rewrite Forall_forall in Hf. apply Hf. set_solver.
  - destruct (valid_cached_coalesce_indices h l run) as [idx'|] eqn:Hv.
    + intros [= ->]. destruct (Hvalid run a z (or_intror Hch) ltac:(set_solver) Hv) as (a' & z' & ? & ? & ? & ?). exists run, a', z'.
      split; [done|]. split; [by apply sublist_inserts_r|done].
    + intros Hv'. apply (IH [c] (c_start c) (c_end c)) in Hv' as (run' & a' & z' & ? & Hsub & ?).
      * exists run', a', z'. split; [done|]. split; [by apply sublist_inserts_l|done].
      * by apply StronglySorted_app_1_r in Hst.
      * set_solver.
      * right. apply chained_single. lia.
Qed.

(** ** Sorted queues *)

Lemma StronglySorted_sublist {A} (R : A -> A -> Prop) (l k : list A) : k `sublist_of` l -> StronglySorted R l -> StronglySorted R k.
Proof.
  induction 1 as [|x k l Hs IH|x k l Hs IH]; intros Hl; [done| |]; apply StronglySorted_inv in Hl as [Hl Hf]; [|auto].
  constructor; [auto|]. rewrite Forall_forall in *. intros y Hy. apply Hf. by eapply sublist_subseteq.
Qed.

Lemma StronglySorted_pair {A} (R : A -> A -> Prop) (l : list A) x y : StronglySorted R l -> x ∈ l -> y ∈ l -> x <> y -> R x y \/ R y x.
Proof.
  induction 1 as [|u l _ IH Hf]; intros Hx Hy Hne; [by apply elem_of_nil in Hx|]. rewrite Forall_forall in Hf.
  apply elem_of_cons in Hx, Hy. destruct Hx as [->|Hx], Hy as [->|Hy]; auto; done.
Qed.

(** The slices behind the references of a queue, in order. *)
Definition behind {A B} (f : A -> option B) (R : B -> B -> Prop) (q q' : A) : Prop :=
  forall s t, f q = Some s -> f q' = Some t -> R s t.

Lemma StronglySorted_omap {A B} (f : A -> option B) (R : B -> B -> Prop) (l : list A) :
  (forall r, r ∈ l -> is_Some (f r)) -> StronglySorted R (omap f l) <-> StronglySorted (behind f R) l.
Proof.
  induction l as [|r l IH]; intros Hl; [split; constructor|]. destruct (Hl r ltac:(by left)) as [s Hs]. cbn. rewrite Hs.
  destruct IH as [IH1 IH2]; [intros; apply Hl; by right|].
  split; intros H; apply StronglySorted_inv in H as [H Hf]; rewrite Forall_forall in Hf; (constructor; [auto|]); apply Forall_forall.
  - intros q Hq s' t Hs' Ht. assert (s' = s) as -> by congruence. apply Hf, list_elem_of_omap. eauto.
  - intros t (q & Hq & Ht)%list_elem_of_omap. by apply (Hf q).
Qed.

Lemma insert_by_order_split h ord r l : StronglySorted (fun q q' => order_of h q <= order_of h q') l -> (forall q, q ∈ l -> 0 < order_of h q) ->
  exists l1 l2, l = l1 ++ l2 /\ insert_by_order h ord r l = l1 ++ r :: l2 /\
    (forall q, q ∈ l1 -> order_of h q <= ord) /\ (forall q, q ∈ l2 -> ord < order_of h q).
Proof.
  induction 1 as [|q l Hs IH Hf]; intros Hpos; [exists [], []; by split_and!; [..|intros ? ?%elem_of_nil|intros ? ?%elem_of_nil]|].
  cbn. pose proof (Hpos q ltac:(by left)). rewrite (proj2 (Z.eqb_neq _ _)) by lia. cbn [negb andb].
  destruct (Z.ltb_spec ord (order_of h q)).
  - exists [], (q :: l). split_and!; [done|done|by intros ? ?%elem_of_nil|]. rewrite Forall_forall in Hf.
    intros u [->|Hu%Hf]%elem_of_cons; lia.
  - destruct IH as (l1 & l2 & -> & -> & H1 & H2); [intros; apply Hpos; by right|]. exists (q :: l1), l2. split_and!; [done|done| |done].
    intros u [->|Hu]%elem_of_cons; auto.
Qed.

Section coalesce.
Context (cfg : WriteConfig) (cfg_ok : config_ok cfg) (chunk_id : Z).
Context {S : Type} `{!BlockStore S, !BlockStoreLaws S}.
#[local] Set Default Proof Using "cfg_ok".

#[local] Abbreviation bs := (block_size (PageCache.layout cfg)).
#[local] Abbreviation cs := (chunk_size (PageCache.layout cfg)).
#[local] Abbreviation Buffer := (Buffer S).
#[local] Abbreviation slice_inv := (slice_inv cfg).
#[local] Abbreviation inv := (inv cfg chunk_id).
#[local] Abbreviation base := (base cfg).

(** A run found in the queue [l]: its slices fill [[a, z)], and the other
    slices of the queue stay clear of it. *)
Record run_of (h : gmap nat SliceState) (l run : list nat) (a z : Z) : Prop := {
  ro_nodup : NoDup run;
  ro_some : run <> [];
  ro_in : forall r, r ∈ run -> r ∈ l;
  ro_slice : forall r, r ∈ run -> exists s, h !! r = Some s /\ SliceState.can_coalesce_cached_writable s = true /\
    a <= offset s /\ offset s + len (data s) <= z;
  ro_first : exists r s, r ∈ run /\ h !! r = Some s /\ offset s = a;
  ro_last : exists r s, r ∈ run /\ h !! r = Some s /\ offset s + len (data s) = z;
  ro_cover : forall x, a <= x < z -> exists r s, r ∈ run /\ h !! r = Some s /\ covers s x = true;
  ro_clear : forall q t x, q ∈ l -> q ∉ run -> h !! q = Some t -> a <= x < z -> covers t x = false
}.

Lemma external_overlap_false h l run a z : cached_coalesce_run_has_external_overlap h l run a z = false ->
  forall i q t x, l !! i = Some q -> (forall c, c ∈ run -> c_index c <> i) -> h !! q = Some t -> a <= x < z -> covers t x = false.
Proof.
  unfold cached_coalesce_run_has_external_overlap. intros He i q t x Hq Hout Ht Hx.
  set (l' := imap _ _) in He. assert (l' !! i = Some (match h !! q ≫= SliceState.data_range with Some (a', z') => (a' <? z) && (a <? z') | None => false end)) as Hl.
  { subst l'. rewrite list_lookup_imap, Hq. cbn [fmap option_fmap option_map]. f_equal. destruct (existsb (fun c => (c_index c =? i)%nat) run) eqn:E; [|done]. apply existsb_exists in E as (c & Hc & Ec).
    apply Nat.eqb_eq in Ec. exfalso. apply (Hout c); [by apply list_elem_of_In|done]. }
  assert (match h !! q ≫= SliceState.data_range with Some (a', z') => (a' <? z) && (a <? z') | None => false end = false) as Hf.
  { apply not_true_is_false. intros E. rewrite E in Hl. apply list_elem_of_lookup_2, list_elem_of_In in Hl.
    assert (existsb (fun o => o) l' = true) by (apply existsb_exists; eauto). congruence. }
  rewrite Ht in Hf. cbn in Hf. unfold SliceState.data_range in Hf. apply not_true_is_false. intros Hc%covers_spec.
  destruct (Z.eqb_spec (len (data t)) 0); lia.
Qed.

Lemma run_lookup (l : list nat) idx : (forall i, i ∈ idx -> is_Some (l !! i)) ->
  (forall r, r ∈ omap (fun i => l !! i) idx <-> exists i, i ∈ idx /\ l !! i = Some r) /\
  (NoDup l -> NoDup idx -> NoDup (omap (fun i => l !! i) idx)) /\ length (omap (fun i => l !! i) idx) = length idx.
Proof.
  intros Hi. assert (forall r, r ∈ omap (fun i => l !! i) idx <-> exists i, i ∈ idx /\ l !! i = Some r) as Hel by (intros; apply list_elem_of_omap).
  split_and!; [done|..].
  - clear Hel. intros Hnd. induction 1 as [|i idx Hn _ IH]; [constructor|]. cbn. destruct (Hi i ltac:(by left)) as [r Hr]. rewrite Hr.
    apply NoDup_cons. split; [|apply IH; intros; apply Hi; by right]. intros (j & Hj & Hr')%list_elem_of_omap.
    by assert (i = j) as -> by (by eapply NoDup_lookup).
  - clear Hel. induction idx as [|i idx IH]; [done|]. cbn. destruct (Hi i ltac:(by left)) as [r ->]. cbn. f_equal. apply IH. intros; apply Hi; by right.
Qed.

Lemma coalescible_open s : SliceState.can_coalesce_cached_writable s = true ->
  state s = Writable /\ slice_id s = None /\ dispatched_end s = 0 /\ in_flight s = 0 /\ 0 < len (data s).
Proof.
  unfold SliceState.can_coalesce_cached_writable, is_writable. rewrite !andb_true_iff, !bool_decide_eq_true.
  intros H. destruct_and!. split_and!; [done|done|lia..].
Qed.

Lemma find_run_spec h l allow idx : NoDup l -> (forall r s, r ∈ l -> h !! r = Some s -> slice_inv s) ->
  find_cached_coalesce_run h l allow = Some idx ->
  exists a z, run_of h l (omap (fun i => l !! i) idx) a z /\ (2 <= length (omap (fun i => l !! i) idx))%nat.
Proof.
  intros Hnd Hsi Hf. unfold find_cached_coalesce_run in Hf. destruct (_ <? 2)%nat; [done|].
  assert (forall c, c ∈ sort_by candidate_leb (candidates h l) -> exists s, candidate_of h l c s /\ 0 <= c_start c < c_end c) as Hcand.
  { intros c Hc. rewrite sort_by_perm in Hc. destruct (elem_of_candidates h l c Hc) as (s & r & Hr & Hs & Hco & Ea & Ez). exists s. split; [by exists r|].
    pose proof (coalescible_open s Hco). pose proof (si_range _ _ (Hsi r s ltac:(by eapply list_elem_of_lookup_2) Hs)). lia. }
  apply (coalesce_runs_spec h l allow idx _ [] 0 0) in Hf as (run & a & z & -> & Hsub & Hlen & Hch & Hext); [|..|by left].
  2: { eapply StronglySorted_weaken; [|apply sort_by_sorted; [apply candidate_leb_total|apply candidate_leb_trans]]. unfold candidate_leb, starts_le. intros; lia. }
  2: { intros c Hc. destruct (Hcand c Hc) as (s & _ & ?). lia. }
  cbn [app] in Hsub. assert (forall c, c ∈ run -> exists s, candidate_of h l c s /\ 0 <= c_start c < c_end c) as Hrun.
  { intros c Hc. apply Hcand. by eapply sublist_subseteq. }
  assert (NoDup (c_index <$> run)) as Hndi.
  { eapply sublist_NoDup; [|by apply fmap_sublist]. rewrite sort_by_perm. apply candidates_nodup. }
  destruct (run_lookup l (c_index <$> run)) as (Hel & Hnodup & Hlength).
  { intros i (c & -> & Hc)%list_elem_of_fmap. destruct (Hrun c Hc) as (s & (r & -> & _) & _). eauto. }
  assert (forall c, c ∈ run -> exists r s, r ∈ omap (fun i => l !! i) (c_index <$> run) /\ h !! r = Some s /\
    SliceState.can_coalesce_cached_writable s = true /\ c_start c = offset s /\ c_end c = offset s + len (data s)) as Hto.
  { intros c Hc. destruct (Hrun c Hc) as (s & (r & Hr & Hs & ? & ? & ?) & _). exists r, s. split_and!; try done. apply Hel. exists (c_index c).
    split; [by apply list_elem_of_fmap_2|done]. }
  assert (forall r, r ∈ omap (fun i => l !! i) (c_index <$> run) -> exists c s, c ∈ run /\ candidate_of h l c s /\ h !! r = Some s) as Hfrom.
  { intros r (i & (c & -> & Hc)%list_elem_of_fmap & Hr)%Hel. destruct (Hrun c Hc) as (s & Hco & _). exists c, s. split_and!; [done..|].
    destruct Hco as (r' & ? & ? & _). congruence. }
  destruct Hch as [(c0 & rest & E0 & Ea) Hwithin (cl & Hcl & El) Hcover].
  exists a, z. split; [|by rewrite Hlength, length_fmap]. constructor.
  - by apply Hnodup.
  - intros E. rewrite E, length_fmap in Hlength. cbn in Hlength. lia.
  - intros r (i & _ & Hr)%Hel. by eapply list_elem_of_lookup_2.
  - intros r Hr. destruct (Hfrom r Hr) as (c & s & Hc & (r' & _ & _ & Hco & E1 & E2) & Hs). exists s. destruct (Hwithin c Hc). split_and!; [done|done|lia..].
  - destruct (Hto c0) as (r & s & ? & ? & _ & ? & _); [rewrite E0; by left|]. exists r, s. split_and!; [done|done|lia].
  - destruct (Hto cl Hcl) as (r & s & ? & ? & _ & _ & ?). exists r, s. split_and!; [done|done|lia].
  - intros x Hx. destruct (Hcover x Hx) as (c & Hc & Hcx). destruct (Hto c Hc) as (r & s & ? & ? & _ & ? & ?). exists r, s. split_and!; [done..|].
    apply covers_spec. lia.
  - intros q t x [i Hi]%list_elem_of_lookup Hn Ht Hx. eapply (external_overlap_false h l run a z Hext i q); try done.
    intros c Hc <-. apply Hn, Hel. exists (c_index c). split; [by apply list_elem_of_fmap_2|done].
Qed.

(** ** The merged slice *)

Lemma top_filter l x : top cfg l x = (fun s => slice_byte cfg s x) <$> last (filter (fun s => covers s x = true) l).
Proof.
  induction l as [|s l IH]; [done|]. cbn [top]. rewrite IH, filter_cons. destruct (last (filter _ l)) as [t|] eqn:El; cbn.
  - case_decide; [|by rewrite El]. destruct (filter _ l) as [|u k] eqn:Ef; [done|]. cbn in *. by rewrite El.
  - apply last_None in El. rewrite El. destruct (covers s x); [by rewrite decide_True|by rewrite decide_False].
Qed.

Lemma lay_pieces_ok a : forall pieces merged,
  (forall s, s ∈ pieces -> slice_inv s /\ a <= offset s /\ offset s + len (data s) <= a + zlen merged) ->
  exists out, lay_pieces cfg a pieces merged = Ok out /\ zlen out = zlen merged /\
    forall i, 0 <= i < zlen merged -> out !! Z.to_nat i = match top cfg pieces (a + i) with Some v => Some v | None => merged !! Z.to_nat i end.
Proof.
  induction pieces as [|s pieces IH]; intros merged Hp; [by exists merged|]. destruct (Hp s ltac:(by left)) as (Hsi & Ha & Hz).
  pose proof (so_len _ _ (si_data _ _ Hsi)). cbn [lay_pieces]. rewrite (copy_into_ok cfg cfg_ok) by (apply Hsi || lia). cbn [result_bind].
  rewrite Z.sub_0_r, Z.min_id. set (bytes := bytes_of cfg (data s) 0 (len (data s))).
  assert (zlen bytes = len (data s)) as Hb by (apply length_bytes_of; lia).
  assert (length (splice merged (Z.to_nat (offset s - a)) bytes) = length merged) as Hlen by (apply length_splice; lia).
  destruct (IH (splice merged (Z.to_nat (offset s - a)) bytes)) as (out & -> & Hout & Hi); rewrite ?Hlen in *; [intros t Ht; apply Hp; by right|].
  exists out. split_and!; [done..|]. intros i Hi'. rewrite Hi by done. cbn [top]. destruct (top cfg pieces (a + i)); [done|].
  rewrite lookup_splice by lia. unfold covers. range_cases.
  - rewrite decide_True by lia. unfold bytes. rewrite lookup_bytes_of by lia. f_equal. unfold slice_byte. f_equal. lia.
  - by rewrite decide_False by lia.
Qed.

(** A new slice that took one append. *)
Lemma appended_inv off unique ord mx mask buf td : 0 <= off -> off + zlen buf <= cs ->
  CacheSlice.append cfg (CacheSlice.new cfg) buf = (Ok tt, td) ->
  slice_inv (set_write_order ord (set_max_write_unique mx (set_write_origin_mask mask (set_data td (SliceState.new cfg off unique))))) /\
  len td = zlen buf /\ forall x, 0 <= x < zlen buf -> byte_at cfg td x = byte_of buf x.
Proof.
  intros Ho Hc Happ. pose proof (new_ok cfg cfg_ok) as Hnew. pose proof (new_inv cfg cfg_ok off unique ltac:(lia)) as Hn.
  assert (forall x, frozen_at cfg (CacheSlice.new cfg) x = false) as Hth.
  { intros x. unfold frozen_at. destruct (pages _ !! _) as [[p|]|] eqn:El; [|done..]. by apply lookup_replicate in El as [? _]. }
  destruct (append_ok cfg cfg_ok (CacheSlice.new cfg) buf Hnew) as (td' & E & [P1 P2 P3 P4 P5]); [cbn; lia|by intros x _|].
  rewrite E in Happ. injection Happ as ->. change (len (CacheSlice.new cfg)) with 0 in *. rewrite Z.add_0_l in P2, P3, P4. rewrite Z.max_r in P2 by lia.
  split_and!; [|done|].
  - destruct Hn. constructor; slice_cbn; try done.
    + intros x. rewrite P4, P2. unfold written_at. cbn. by rewrite orb_false_r.
    + rewrite P2. unfold SliceState.new. slice_cbn. lia.
    + rewrite P2. unfold SliceState.new. slice_cbn. lia.
    + intros _ x _. by rewrite P5.
    + unfold SliceState.new. slice_cbn. naive_solver.
  - intros x Hx. rewrite P3 by lia. range_cases; [|lia]. f_equal. lia.
Qed.

Lemma fold_min_attained (l : list Z) d a : (forall y, y ∈ l -> a <= y) -> a <= d -> a ∈ l -> foldr Z.min d l = a.
Proof.
  intros Hl Hd Hin.
  assert (forall k, (forall y, y ∈ k -> a <= y) -> a <= foldr Z.min d k) as Hk.
  { induction k as [|y k IH]; intros Hk; cbn; [done|]. pose proof (Hk y ltac:(by left)). specialize (IH ltac:(intros; apply Hk; by right)). lia. }
  specialize (Hk l Hl). clear Hl. induction l as [|y l IH]; [by apply elem_of_nil in Hin|]. cbn in *.
  apply elem_of_cons in Hin as [->|Hin]; [lia|]. specialize (IH Hin ltac:(lia)). lia.
Qed.
Lemma fold_max_attained (l : list Z) d a : (forall y, y ∈ l -> y <= a) -> d <= a -> a ∈ l -> foldr Z.max d l = a.
Proof.
  intros Hl Hd Hin.
  assert (forall k, (forall y, y ∈ k -> y <= a) -> foldr Z.max d k <= a) as Hk.
  { induction k as [|y k IH]; intros Hk; cbn; [done|]. pose proof (Hk y ltac:(by left)). specialize (IH ltac:(intros; apply Hk; by right)). lia. }
  specialize (Hk l Hl). clear Hl. induction l as [|y l IH]; [by apply elem_of_nil in Hin|]. cbn in *.
  apply elem_of_cons in Hin as [->|Hin]; [lia|]. specialize (IH Hin ltac:(lia)). lia.
Qed.

Lemma fold_max_in (l : list Z) : l <> [] -> (forall y, y ∈ l -> 0 < y) -> foldr Z.max 0 l ∈ l.
Proof.
  induction l as [|y l IH]; intros Hne Hp; [done|]. cbn. pose proof (Hp y ltac:(by left)). destruct l as [|u l].
  { cbn. rewrite Z.max_l by lia. by left. }
  destruct (Z.max_spec y (foldr Z.max 0 (u :: l))) as [[_ ->]|[_ ->]]; [right; apply IH; [done|intros; apply Hp; by right]|by left].
Qed.

(** The slice a run is replaced by: the newest byte of each position. *)
Record merged_of (pieces : list SliceState) (a z : Z) (s' : SliceState) : Prop := {
  me_inv : slice_inv s';
  me_state : state s' = Writable;
  me_id : slice_id s' = None;
  me_flight : in_flight s' = 0;
  me_range : offset s' = a /\ len (data s') = z - a;
  me_order : write_order s' = foldr Z.max 0 (write_order <$> pieces);
  me_byte : forall x v, top cfg (sort_by order_leb pieces) x = Some v -> a <= x < z -> slice_byte cfg s' x = v
}.

Lemma build_ok pieces a z : (forall s, s ∈ pieces -> slice_inv s /\ a <= offset s /\ offset s + len (data s) <= z) ->
  (exists s, s ∈ pieces /\ offset s = a) -> (exists s, s ∈ pieces /\ offset s + len (data s) = z) ->
  exists s', build_coalesced_cached_slice cfg pieces = Ok s' /\ merged_of pieces a z s'.
Proof.
  intros Hp (sa & Hsa & Ea) (sz & Hsz & Ez). pose proof (cs_u64 cfg cfg_ok). unfold build_coalesced_cached_slice.
  destruct (Hp sa Hsa) as (Hia & _ & Haz). pose proof (so_len _ _ (si_data _ _ Hia)). pose proof (si_range _ _ Hia).
  destruct (Hp sz Hsz) as (Hiz & _). pose proof (si_range _ _ Hiz).
  destruct pieces as [|first rest]; [by apply elem_of_nil in Hsa|]. set (pieces := first :: rest) in *.
  assert (foldr Z.min (offset first) (offset <$> pieces) = a) as ->.
  { apply fold_min_attained; [intros y (s & -> & Hs)%list_elem_of_fmap; by apply Hp|apply Hp; by left|]. apply list_elem_of_fmap. eauto. }
  assert (forall s, s ∈ pieces -> u64_saturating_add (offset s) (len (data s)) = offset s + len (data s)) as Hsat.
  { intros s Hs. destruct (Hp s Hs) as (Hi & _). pose proof (si_range _ _ Hi). unfold u64_saturating_add. apply Z.min_r. u64_lia. }
  assert (foldr Z.max a ((fun s => u64_saturating_add (offset s) (len (data s))) <$> pieces) = z) as ->.
  { apply fold_max_attained; [|lia|].
    - intros y (s & -> & Hs)%list_elem_of_fmap. rewrite Hsat by done. by apply Hp.
    - apply list_elem_of_fmap. exists sz. by rewrite Hsat. }
  destruct (lay_pieces_ok a (sort_by order_leb pieces) (replicate (Z.to_nat (z - a)) Byte.x00)) as (buf & -> & Hlen & Hbuf).
  { intros s Hs. rewrite sort_by_perm in Hs. rewrite length_replicate. destruct (Hp s Hs) as (? & ? & ?). split_and!; [done|done|lia]. }
  rewrite length_replicate in Hlen, Hbuf. cbn [result_bind]. set (unique := if _ =? u64_max then _ else _).
  change (data (SliceState.new cfg a unique)) with (CacheSlice.new cfg).
  destruct (append_ok cfg cfg_ok (CacheSlice.new cfg) buf (new_ok cfg cfg_ok)) as (td & E & _); [cbn; lia| |].
  { intros x _. unfold frozen_at. destruct (pages _ !! _) as [[p|]|] eqn:El; [|done..]. by apply lookup_replicate in El as [? _]. }
  rewrite E. eexists. split; [done|].
  destruct (appended_inv a unique (foldr Z.max 0 (write_order <$> pieces)) (foldr Z.max 0 (max_write_unique <$> pieces))
    (foldr Z.lor 0 (write_origin_mask <$> pieces)) buf td) as (Hi & Hl & Hb); [lia|lia|done|].
  constructor; try done; [split; [done|]; cbn; lia|]. intros x v Hv Hx. unfold slice_byte. cbn [offset data set_write_order set_max_write_unique set_write_origin_mask set_data SliceState.new].
  rewrite Hb by lia. unfold byte_of. specialize (Hbuf (x - a) ltac:(lia)). rewrite Zplus_minus, Hv in Hbuf. by rewrite Hbuf.
Qed.

(** ** Replacing the run *)

Lemma top_omap_filter (h : gmap nat SliceState) (P : nat -> Prop) `{!forall q, Decision (P q)} x l :
  (forall q t, q ∈ l -> ~ P q -> h !! q = Some t -> covers t x = false) ->
  top cfg (omap (fun q => h !! q) l) x = top cfg (omap (fun q => h !! q) (filter P l)) x.
Proof.
  induction l as [|q l IH]; intros Hl; [done|]. cbn [omap list_omap]. rewrite filter_cons.
  assert (top cfg (omap (fun q => h !! q) l) x = top cfg (omap (fun q => h !! q) (filter P l)) x) as IH' by (apply IH; intros u t Hu; apply Hl; by right).
  destruct (h !! q) as [t|] eqn:Ht; case_decide as Hd; cbn [omap list_omap]; rewrite ?Ht; [cbn [top]; by rewrite IH'| |done|done].
  cbn [top]. rewrite IH', (Hl q t) by (done || by left). clear IH IH'. by destruct (top cfg _ x).
Qed.

Section replace.
Context (b : Buffer) (m : Z -> byte) (c : ChunkState) (run : list nat) (a z : Z) (s' : SliceState).
Context (Hi : inv b m) (Hc : chunk b = Some c) (Hrun : run_of (heap b) (slices c) run a z).
Context (Hme : merged_of (omap (fun r => heap b !! r) run) a z s').
#[local] Set Default Proof Using "cfg_ok Hi Hc Hrun Hme".

#[local] Abbreviation rn := (next_ref b).
#[local] Abbreviation kept_refs := (filter (fun r => r ∉ run) (slices c)).
#[local] Abbreviation h' := (<[rn := s']> (heap b)).
#[local] Abbreviation l' := (insert_slice h' (write_order s') rn kept_refs).
#[local] Abbreviation b' := (set_chunk (Some (set_slices l' c)) (alloc s' b).2).
#[local] Abbreviation ord q := (order_of (heap b) q).

Lemma rp_queue : queue b = slices c.
Proof. unfold queue. by rewrite Hc. Qed.

Lemma rp_live q : q ∈ slices c -> exists t, heap b !! q = Some t /\ slice_inv t /\ 0 < write_order t /\ ord q = write_order t.
Proof.
  intros Hq. rewrite <-rp_queue in Hq. destruct (ba_live _ (iv_base _ _ Hi) q Hq) as [t Ht]. destruct (ba_slice _ (iv_base _ _ Hi) q t Ht) as (? & _ & ?).
  exists t. unfold order_of. rewrite Ht. split_and!; [done..|lia|done].
Qed.

Lemma rp_fresh : heap b !! rn = None /\ (rn ∉ slices c) /\ (rn ∉ run).
Proof.
  assert (heap b !! rn = None) as Hn.
  { destruct (heap b !! rn) eqn:E; [|done]. pose proof (ba_fresh _ (iv_base _ _ Hi) rn ltac:(eauto)). lia. }
  assert (rn ∉ slices c) as Hs by (intros (t & Ht & _)%rp_live; congruence). split_and!; [done|done|]. intros Hr. by apply Hs, (ro_in _ _ _ _ _ Hrun).
Qed.

(** The newest slice of the run. *)
Lemma rp_newest : exists r s, r ∈ run /\ heap b !! r = Some s /\ state s = Writable /\ write_order s = write_order s' /\ 0 < write_order s'.
Proof.
  assert (forall y, y ∈ (write_order <$> omap (fun r => heap b !! r) run) -> 0 < y) as Hpos.
  { intros y (s & -> & (r & Hr & Hs)%list_elem_of_omap)%list_elem_of_fmap. destruct (rp_live r) as (t & Ht & _ & ? & _); [by apply (ro_in _ _ _ _ _ Hrun)|].
    by assert (t = s) as -> by congruence. }
  assert (write_order s' ∈ (write_order <$> omap (fun r => heap b !! r) run)) as Hin.
  { rewrite (me_order _ _ _ _ Hme). apply fold_max_in; [|done]. destruct (ro_first _ _ _ _ _ Hrun) as (r & s & Hr & Hs & _). intros E.
    assert (write_order s ∈ (write_order <$> omap (fun r => heap b !! r) run)) as Hin by (apply list_elem_of_fmap_2, list_elem_of_omap; eauto).
    rewrite E in Hin. by apply elem_of_nil in Hin. }
  pose proof (Hpos _ Hin) as Hp. apply list_elem_of_fmap in Hin as (s & Es & (r & Hr & Hs)%list_elem_of_omap). exists r, s. split_and!; try done.
  destruct (ro_slice _ _ _ _ _ Hrun r Hr) as (t & Ht & Hco & _). assert (t = s) as -> by congruence. by apply coalescible_open in Hco as [? _].
Qed.

Lemma rp_sorted : StronglySorted (behind (fun q => heap b !! q) before) (slices c).
Proof.
  rewrite <-rp_queue. apply StronglySorted_omap; [apply (ba_live _ (iv_base _ _ Hi))|apply (ba_sorted _ (iv_base _ _ Hi))].
Qed.

(** A slice that stays is older than the merged one or behind it. *)
Lemma rp_compare q t : q ∈ slices c -> q ∉ run -> heap b !! q = Some t -> before t s' \/ write_order s' < write_order t.
Proof.
  intros Hq Hn Ht. destruct rp_newest as (r & s & Hr & Hs & Hw & Eo & _).
  destruct (StronglySorted_pair _ _ q r rp_sorted) as [H|H]; [done|by apply (ro_in _ _ _ _ _ Hrun)|congruence|..].
  - left. destruct (H t s Ht Hs) as [H1 H2]. unfold before. rewrite <-Eo. auto.
  - right. destruct (H s t Hs Ht) as [_ H2]. specialize (H2 Hw). lia.
Qed.

Lemma rp_order q : q ∈ slices c -> order_of h' q = ord q.
Proof. intros Hq. unfold order_of. rewrite lookup_insert_ne; [done|]. intros <-. by destruct rp_fresh as (_ & ? & _). Qed.

(** Where the merged slice goes. *)
Lemma rp_insert : exists l1 l2, kept_refs = l1 ++ l2 /\ l' = l1 ++ rn :: l2 /\
  (forall q t, q ∈ l1 -> heap b !! q = Some t -> before t s') /\ (forall q t, q ∈ l2 -> heap b !! q = Some t -> before s' t).
Proof.
  destruct rp_newest as (_ & _ & _ & _ & _ & _ & Hpos).
  assert (forall q, q ∈ kept_refs -> q ∈ slices c /\ q ∉ run) as Hk by (intros q [? ?]%list_elem_of_filter; done).
  destruct (insert_by_order_split h' (write_order s') rn kept_refs) as (l1 & l2 & E1 & E2 & H1 & H2).
  - eapply (StronglySorted_sublist _ (slices c)); [apply sublist_filter|].
    assert (forall l, (forall q, q ∈ l -> q ∈ slices c) -> StronglySorted (behind (fun q => heap b !! q) before) l ->
      StronglySorted (fun q q' => order_of h' q <= order_of h' q') l) as Hw; [|apply Hw; [done|apply rp_sorted]].
    intros l Hl. induction 1 as [|q l _ IH Hf]; constructor; [apply IH; intros; apply Hl; by right|]. rewrite Forall_forall in *. intros u Hu.
    rewrite !rp_order by (apply Hl; by (left || right)). destruct (rp_live q) as (t & Ht & _ & _ & ->); [apply Hl; by left|].
    destruct (rp_live u) as (v & Hv & _ & _ & ->); [apply Hl; by right|]. by apply (Hf u Hu).
  - intros q [Hq _]%Hk. rewrite rp_order by done. destruct (rp_live q Hq) as (t & _ & _ & ? & ->). done.
  - exists l1, l2. split_and!; [done|unfold insert_slice; by rewrite (proj2 (Z.eqb_neq _ _)) by lia|..].
    + intros q t Hq Ht. destruct (Hk q) as [Hq1 Hq2]; [rewrite E1; apply elem_of_app; by left|].
      specialize (H1 q Hq). rewrite rp_order in H1 by done. destruct (rp_compare q t Hq1 Hq2 Ht) as [?|?]; [done|].
      unfold order_of in H1. rewrite Ht in H1. cbn in H1. lia.
    + intros q t Hq Ht. destruct (Hk q) as [Hq1 Hq2]; [rewrite E1; apply elem_of_app; by right|].
      specialize (H2 q Hq). rewrite rp_order in H2 by done. unfold order_of in H2. rewrite Ht in H2. cbn in H2. split; lia.
Qed.

(** The slices of the run, in the order of the queue and as they are laid down. *)
Lemma rp_run_sorted : omap (fun q => heap b !! q) (filter (fun r => r ∈ run) (slices c)) = sort_by order_leb (omap (fun r => heap b !! r) run).
Proof.
  set (R := fun s t => write_order s < write_order t). assert (AntiSymm (=) R) as HR by (intros s t; unfold R; lia).
  assert (filter (fun r => r ∈ run) (slices c) ≡ₚ run) as Hperm.
  { apply list.NoDup_Permutation; [apply NoDup_filter; rewrite <-rp_queue; apply (ba_nodup _ (iv_base _ _ Hi))|apply (ro_nodup _ _ _ _ _ Hrun)|].
    intros r. rewrite list_elem_of_filter. pose proof (ro_in _ _ _ _ _ Hrun r). naive_solver. }
  assert (StronglySorted R (omap (fun q => heap b !! q) (filter (fun r => r ∈ run) (slices c)))) as H1.
  { apply StronglySorted_omap; [intros r [_ (t & ? & _)%rp_live]%list_elem_of_filter; eauto|].
    pose proof (StronglySorted_sublist _ _ _ (sublist_filter (fun r => r ∈ run) (slices c)) rp_sorted) as Hs.
    assert (forall l, (forall r, r ∈ l -> r ∈ run) -> StronglySorted (behind (fun q => heap b !! q) before) l ->
      StronglySorted (behind (fun q => heap b !! q) R) l) as Hw; [|apply Hw; [intros r [? _]%list_elem_of_filter; done|done]].
    intros l Hl. induction 1 as [|q l _ IH Hf]; constructor; [apply IH; intros; apply Hl; by right|]. rewrite Forall_forall in *.
    intros u Hu s t Hs' Ht. destruct (Hf u Hu s t Hs' Ht) as [_ Hlt]. apply Hlt.
    destruct (ro_slice _ _ _ _ _ Hrun q ltac:(apply Hl; by left)) as (s0 & Hs0 & Hco & _). assert (s0 = s) as -> by congruence.
    by apply coalescible_open in Hco as [? _]. }
  apply (StronglySorted_unique R); [done| |by rewrite sort_by_perm, Hperm].
  assert (NoDup (write_order <$> sort_by order_leb (omap (fun r => heap b !! r) run))) as Hnd.
  { rewrite sort_by_perm, <-Hperm. clear -H1. induction H1 as [|s l _ IH Hf]; cbn; constructor; [|done].
    intros (t & E & Ht)%list_elem_of_fmap. rewrite Forall_forall in Hf. specialize (Hf t Ht). unfold R in Hf. lia. }
  assert (StronglySorted (fun s t => order_leb s t = true) (sort_by order_leb (omap (fun r => heap b !! r) run))) as Hst.
  { apply sort_by_sorted; intros s t; [|intros u]; unfold order_leb; destruct (write_order s =? 0), (write_order t =? 0); try done; [lia|..];
      destruct (write_order u =? 0); try done; lia. }
  assert (forall s, s ∈ sort_by order_leb (omap (fun r => heap b !! r) run) -> 0 < write_order s) as Hpos.
  { intros s Hs. rewrite sort_by_perm in Hs. apply list_elem_of_omap in Hs as (r & Hr & Hs). destruct (rp_live r) as (t & ? & _ & ? & _); [by apply (ro_in _ _ _ _ _ Hrun)|].
    by assert (t = s) as -> by congruence. }
  clear -Hnd Hst Hpos. induction Hst as [|s l _ IH Hf]; constructor.
  - apply IH; [by apply NoDup_cons in Hnd as [_ ?]|intros; apply Hpos; by right].
  - rewrite Forall_forall in *. intros t Ht. specialize (Hf t Ht). pose proof (Hpos s ltac:(by left)). pose proof (Hpos t ltac:(by right)).
    cbn in Hnd. apply NoDup_cons in Hnd as [Hn _]. assert (write_order s <> write_order t) by (intros E; apply Hn; rewrite E; by apply list_elem_of_fmap_2).
    unfold order_leb in Hf. rewrite (proj2 (Z.eqb_neq _ _)), (proj2 (Z.eqb_neq (write_order t) 0)) in Hf by lia. unfold R. lia.
Qed.

Section placed.
Context (l1 l2 : list nat) (E1 : kept_refs = l1 ++ l2) (E2 : l' = l1 ++ rn :: l2).
Context (Hbefore : forall q t, q ∈ l1 -> heap b !! q = Some t -> before t s') (Hafter : forall q t, q ∈ l2 -> heap b !! q = Some t -> before s' t).
#[local] Set Default Proof Using "cfg_ok Hi Hc Hrun Hme E1 E2 Hbefore Hafter".

Lemma rp_kept q : q ∈ l1 \/ q ∈ l2 <-> q ∈ slices c /\ q ∉ run.
Proof. rewrite <-elem_of_app, <-E1, list_elem_of_filter. tauto. Qed.

Lemma rp_elem q : q ∈ l' <-> q = rn \/ (q ∈ slices c /\ q ∉ run).
Proof. rewrite E2, elem_of_app, elem_of_cons, <-rp_kept. tauto. Qed.

Lemma rp_lookup q t : h' !! q = Some t -> q = rn /\ t = s' \/ q <> rn /\ heap b !! q = Some t.
Proof. intros [[<- <-]|[? ?]]%lookup_insert_Some; auto. Qed.

Lemma rp_omap (l : list nat) : (forall q, q ∈ l -> q ∈ slices c) -> omap (fun q => h' !! q) l = omap (fun q => heap b !! q) l.
Proof.
  intros Hl. apply omap_ext_in. intros q Hq%Hl. apply lookup_insert_ne. intros <-. by destruct rp_fresh as (_ & ? & _).
Qed.

Lemma rp_queued : queued b' = omap (fun q => heap b !! q) l1 ++ s' :: omap (fun q => heap b !! q) l2.
Proof.
  change (queued b') with (omap (fun q => h' !! q) l'). rewrite E2, omap_app. cbn [omap list_omap]. rewrite lookup_insert_eq.
  rewrite !rp_omap; [done|..]; intros q Hq; apply (rp_kept q); auto.
Qed.

Lemma rp_head r : head (queue b) = Some r -> r ∉ run -> head l' = Some r.
Proof.
  rewrite rp_queue. intros Hh Hn. assert (exists l, slices c = r :: l) as [l El] by (clear -Hh; destruct (slices c); [done|]; injection Hh as ->; eauto).
  pose proof E1 as E. rewrite El, filter_cons_True in E by done. rewrite E2. destruct (decide (l1 = [])) as [E0|E0].
  2: { clear -E E0. destruct l1 as [|q l1']; [done|]. cbn in *. by injection E as -> _. }
  exfalso. rewrite E0 in E. cbn in E. destruct (rp_live r ltac:(rewrite El; by left)) as (t & Ht & _).
  destruct rp_newest as (rN & sN & HrN & HsN & _ & Eo & _).
  assert (rN ∈ l) as HinN.
  { pose proof (ro_in _ _ _ _ _ Hrun rN HrN) as Hin. rewrite El in Hin. apply elem_of_cons in Hin as [->|?]; done. }
  pose proof rp_sorted as Hs. rewrite El in Hs. apply StronglySorted_inv in Hs as [_ Hf]. rewrite Forall_forall in Hf.
  destruct (Hf rN HinN t sN Ht HsN) as [Hle _]. destruct (Hafter r t ltac:(rewrite <-E; by left) Ht) as [_ Hlt]. specialize (Hlt (me_state _ _ _ _ Hme)). lia.
Qed.

Lemma rp_view x : 0 <= x < cs -> top cfg (queued b') x = top cfg (queued b) x.
Proof.
  intros Hx. destruct (me_range _ _ _ _ Hme) as [Eo El].
  assert (forall q t, q ∈ slices c -> q ∈ run -> heap b !! q = Some t -> covers t x = true -> a <= x < z) as Hin.
  { intros q t _ Hq Ht Hcv%covers_spec. destruct (ro_slice _ _ _ _ _ Hrun q Hq) as (t' & Ht' & _ & ? & ?). assert (t' = t) as -> by congruence. lia. }
  unfold queued at 2. rewrite rp_queue, rp_queued, top_app. cbn [top].
  assert (covers s' x = in_range x (a, z)) as Hcv by (unfold covers; rewrite Eo, El; f_equal; f_equal; lia). rewrite Hcv.
  destruct (in_range_dec x a z) as [[Hr Er]|[Hr Er]]; rewrite Er.
  - assert (forall l : list nat, (forall q, q ∈ l -> q ∈ slices c /\ q ∉ run) -> top cfg (omap (fun q => heap b !! q) l) x = None) as Hnone.
    { intros l Hl. apply (top_None cfg_ok). intros t (q & Hq & Ht)%list_elem_of_omap. destruct (Hl q Hq). by eapply (ro_clear _ _ _ _ _ Hrun q t x). }
    rewrite (Hnone l2) by (intros q Hq; apply rp_kept; auto).
    rewrite (top_omap_filter (heap b) (fun r => r ∈ run) x (slices c)) by (intros q t Hq Hn Ht; by eapply (ro_clear _ _ _ _ _ Hrun q t x)).
    rewrite rp_run_sorted. destruct (top cfg (sort_by order_leb _) x) as [v|] eqn:Et.
    + f_equal. by eapply (me_byte _ _ _ _ Hme).
    + exfalso. destruct (ro_cover _ _ _ _ _ Hrun x Hr) as (r & s & Hr' & Hs & Hcs). assert (covers s x = false); [|congruence].
      apply (proj1 (top_None cfg_ok _ x) Et). rewrite sort_by_perm, list_elem_of_omap. eauto.
  - rewrite (top_omap_filter (heap b) (fun r => r ∉ run) x (slices c)), E1, omap_app, top_app; [by destruct (top cfg (omap _ l2) x)|].
    intros q t Hq Hn%dec_stable Ht. apply not_true_is_false. intros Hc'. specialize (Hin q t Hq Hn Ht Hc'). lia.
Qed.

Lemma rp_base : base b'.
Proof.
  pose proof (iv_base _ _ Hi) as Hb. destruct rp_fresh as (Hn & Hns & Hnr). destruct rp_newest as (rN & sN & HrN & HsN & _ & Eo & Hpos).
  constructor; try apply Hb.
  - intros q t [[-> ->]|[_ Ht]]%rp_lookup; [|by apply (ba_slice _ Hb q)]. rewrite (me_state _ _ _ _ Hme). split_and!; [apply Hme|done|done|].
    rewrite <-Eo. by apply (ba_slice _ Hb rN sN).
  - intros q [t [[-> _]|[_ Ht]]%rp_lookup]; cbn; [lia|]. pose proof (ba_fresh _ Hb q ltac:(eauto)). lia.
  - change (queue b') with l'. rewrite E2. assert (NoDup (l1 ++ l2)) as Hnd.
    { rewrite <-E1. apply NoDup_filter. rewrite <-rp_queue. apply Hb. }
    rewrite <-Permutation_middle. apply NoDup_cons. split; [|done]. intros [? _]%elem_of_app%rp_kept. done.
  - intros q [->|[Hq _]]%rp_elem; change (heap b') with h'; [rewrite lookup_insert_eq; eauto|]. destruct (rp_live q Hq) as (t & Ht & _).
    exists t. rewrite lookup_insert_ne; [done|]. by intros <-.
  - rewrite rp_queued. assert (StronglySorted before (omap (fun q => heap b !! q) l1 ++ omap (fun q => heap b !! q) l2)) as Hst.
    { rewrite <-omap_app, <-E1. apply StronglySorted_omap; [intros q [_ (t & ? & _)%rp_live]%list_elem_of_filter; eauto|].
      eapply StronglySorted_sublist; [apply sublist_filter|apply rp_sorted]. }
    apply StronglySorted_app in Hst as (H1 & H2 & H3). apply StronglySorted_app_2; [|done|].
    + intros s t Hs [->|Ht]%elem_of_cons; [|by apply H1]. apply list_elem_of_omap in Hs as (q & ? & ?). by eapply Hbefore.
    + constructor; [done|]. apply Forall_forall. intros t (q & ? & ?)%list_elem_of_omap. by eapply Hafter.
  - cbn. intros ? [= <-]. exact (ba_recent _ Hb c Hc).
  - intros q q' t t' id Ht Ht'. destruct (rp_lookup q t Ht) as [[-> ->]|[_ Hq]], (rp_lookup q' t' Ht') as [[-> ->]|[_ Hq']];
      rewrite ?(me_id _ _ _ _ Hme); try done. by apply (ba_ids _ Hb).
  - intros q t id Ht. destruct (rp_lookup q t Ht) as [[-> ->]|[_ Hq]]; rewrite ?(me_id _ _ _ _ Hme); [done|]. by apply (ba_u64 _ Hb q).
Qed.

Lemma rp_inv : inv b' m.
Proof.
  pose proof (iv_base _ _ Hi) as Hb. destruct rp_fresh as (Hn & Hns & Hnr).
  assert (forall r s id, heap b !! r = Some s -> slice_id s = Some id -> r ∉ run) as Hidr.
  { intros r s id Hs Hid Hr. destruct (ro_slice _ _ _ _ _ Hrun r Hr) as (t & Ht & Hco & _). apply coalescible_open in Hco. assert (t = s) as -> by congruence.
    destruct Hco as (_ & ? & _). congruence. }
  assert (forall q, q ∈ l' -> q <> rn -> q ∈ queue b) as Hqin by (intros q [?|[? _]]%rp_elem ?; [done|by rewrite rp_queue]).
  constructor; try apply Hi; [apply rp_base|..].
  - intros t Ht. destruct (iv_batch _ _ Hi t Ht) as [s0 [B1 B2 B3 B4 B5]]. exists s0. constructor; try done. change (h' !! bt_slice t = Some s0).
    rewrite lookup_insert_ne; [done|congruence].
  - intros q t [[-> ->]|[_ Ht]]%rp_lookup; [|by apply (iv_count _ _ Hi)]. rewrite (me_flight _ _ _ _ Hme). symmetry. cbn.
    assert (filter (fun t => bt_slice t = rn) (batches b) = []) as ->; [|done].
    apply elem_of_nil_inv. intros t [E Hin]%list_elem_of_filter. destruct (iv_batch _ _ Hi t Hin) as [s0 [B1 _ _ _ _]]. congruence.
  - intros q t id [[-> ->]|[Hne Ht]]%rp_lookup Hid Hor; [by rewrite (me_id _ _ _ _ Hme) in Hid|]. apply (iv_stored _ _ Hi q t id Ht Hid).
    destruct Hor as [Hin|?]; [left; by apply Hqin|by right].
  - intros d q t Hd [[-> ->]|[Hne Ht]]%rp_lookup Hid; [by rewrite (me_id _ _ _ _ Hme) in Hid|].
    destruct (iv_pub _ _ Hi d q t Hd Ht Hid) as [? Hh]. split; [done|]. intros Hin. apply rp_head; [by apply Hh, Hqin|by eapply Hidr].
  - intros q t d Hh [[-> ->]|[Hne Ht]]%rp_lookup Hd; destruct (desc_id _ d Hd) as (Hid & Hl & _); [by rewrite (me_id _ _ _ _ Hme) in Hid|].
    destruct (decide (head (queue b) = Some q)) as [Hq|Hq]; [by apply (iv_front _ _ Hi q t)|].
    assert (q ∈ queue b) as Hin by (apply Hqin; [|done]; change (queue b') with l' in Hh; clear -Hh; destruct l'; [done|]; injection Hh as ->; by left).
    exists (published b), 0%nat. rewrite app_nil_r. split_and!; [done| |].
    + intros (d' & E & Hd')%list_elem_of_fmap. rewrite E in Hid. destruct (iv_pub _ _ Hi d' q t Hd' Ht Hid) as [_ Hh']. auto.
    + intros Hcm. destruct Hl. symmetry. apply (iv_behind _ _ Hi q t); [|done|done]. clear -Hq Hin. destruct (queue b) as [|u l]; [done|].
      apply elem_of_cons in Hin as [->|?]; done.
  - intros q t Hin [[-> ->]|[Hne Ht]]%rp_lookup Hcm; [by rewrite (me_state _ _ _ _ Hme) in Hcm|].
    assert (q ∈ l' /\ head l' <> Some q) as [Hl Hh].
    { pose proof (ba_nodup _ rp_base) as Hnd. change (queue b') with l' in Hnd, Hin. clear -Hin Hnd. destruct l' as [|u l]; [done|]. cbn in Hin.
      apply NoDup_cons in Hnd as [Hu _]. split; [by right|]. cbn. congruence. }
    assert (q ∉ run) as Hq by (apply rp_elem in Hl as [?|[_ ?]]; done).
    apply (iv_behind _ _ Hi q t); [|done|done]. assert (head (queue b) <> Some q) as Hh' by (intros E; by apply Hh, rp_head).
    specialize (Hqin q Hl Hne). clear -Hqin Hh'. destruct (queue b) as [|u l]; [done|]. apply elem_of_cons in Hqin as [->|?]; done.
  - apply (tasks_ok_mono b); [apply Hi|done|]. intros q t Ht Hcm. exists t. split; [|done]. change (h' !! q = Some t). rewrite lookup_insert_ne; [done|congruence].
  - intros x Hx. rewrite rp_view by done. by apply (iv_view _ _ Hi).
Qed.

End placed.

Lemma inv_replace : inv b' m.
Proof. destruct rp_insert as (l1 & l2 & E1 & E2 & H1 & H2). by apply (rp_inv l1 l2). Qed.

End replace.

(** One round does nothing, or replaces a run of cached slices by one slice. *)
Lemma coalesce_one_cases b m : inv b m -> coalesce_one_cached_slice_run cfg b = (false, b) \/
  exists c run a z s', chunk b = Some c /\ run_of (heap b) (slices c) run a z /\ merged_of (omap (fun r => heap b !! r) run) a z s' /\
    (2 <= length run)%nat /\
    coalesce_one_cached_slice_run cfg b = (true, set_chunk (Some (set_slices (insert_slice (<[next_ref b := s']> (heap b)) (write_order s')
      (next_ref b) (filter (fun r => r ∉ run) (slices c))) c)) (alloc s' b).2).
Proof.
  intros Hi. pose proof (iv_base _ _ Hi) as Hb. unfold coalesce_one_cached_slice_run. destruct (chunk b) as [c|] eqn:Hc; [|by left].
  assert (queue b = slices c) as Eq by (unfold queue; by rewrite Hc).
  destruct (find_cached_coalesce_run _ _ _) as [idx|] eqn:Hf; [|by left].
  apply find_run_spec in Hf as (a & z & Hrun & Hlen); [|rewrite <-Eq; apply Hb|intros r s _ Hs; by apply (ba_slice _ Hb r s)].
  set (run := omap _ idx) in *. rewrite (proj2 (Nat.ltb_ge _ _)) by done.
  destruct (build_ok (omap (fun r => heap b !! r) run) a z) as (s' & -> & Hme).
  - intros s (r & Hr & Hs)%list_elem_of_omap. destruct (ro_slice _ _ _ _ _ Hrun r Hr) as (t & Ht & _ & ? & ?). assert (t = s) as -> by congruence.
    split_and!; [by apply (ba_slice _ Hb r s)|done..].
  - destruct (ro_first _ _ _ _ _ Hrun) as (r & s & ? & ? & ?). exists s. rewrite list_elem_of_omap. eauto.
  - destruct (ro_last _ _ _ _ _ Hrun) as (r & s & ? & ? & ?). exists s. rewrite list_elem_of_omap. eauto.
  - right. exists c, run, a, z, s'. done.
Qed.

Lemma coalesce_one_ok b m : inv b m -> inv (coalesce_one_cached_slice_run cfg b).2 m.
Proof.
  intros Hi. destruct (coalesce_one_cases b m Hi) as [->|(c & run & a & z & s' & Hc & Hrun & Hme & _ & ->)]; [done|].
  by apply (inv_replace b m c run a z s').
Qed.

Lemma coalesce_ok b m : inv b m -> inv (coalesce_cached_slices_before_explicit_flush cfg b) m.
Proof.
  intros Hi. unfold coalesce_cached_slices_before_explicit_flush. generalize (length (queue b)) as fuel. intros fuel. revert b Hi.
  induction fuel as [|fuel IH]; intros b Hi; cbn [coalesce_loop]; [done|]. pose proof (coalesce_one_ok b m Hi) as Hi'.
  destruct (coalesce_one_cached_slice_run cfg b) as [[] b1]; [by apply IH|done].
Qed.

Lemma insert_slice_perm h ord r l : insert_slice h ord r l ≡ₚ r :: l.
Proof using Type.
  unfold insert_slice. destruct (ord =? 0); [by rewrite Permutation_app_comm|]. induction l as [|q l IH]; [done|]. cbn.
  destruct (_ && _); [done|]. rewrite IH. by constructor.
Qed.

(** A round that replaces a run leaves fewer slices. *)
Lemma coalesce_one_shrinks b m b' : inv b m -> coalesce_one_cached_slice_run cfg b = (true, b') -> (length (queue b') < length (queue b))%nat.
Proof.
  intros Hi E. destruct (coalesce_one_cases b m Hi) as [E'|(c & run & a & z & s' & Hc & Hrun & _ & Hlen & E')]; rewrite E' in E; [done|].
  injection E as <-. unfold queue at 2. rewrite Hc. change (queue _) with (insert_slice (<[next_ref b := s']> (heap b)) (write_order s')
    (next_ref b) (filter (fun r => r ∉ run) (slices c))). rewrite insert_slice_perm. cbn [length].
  assert (length run + length (filter (fun r => r ∉ run) (slices c)) <= length (slices c))%nat; [|lia].
  rewrite <-length_app. apply submseteq_length, NoDup_submseteq.
  - apply NoDup_app. split_and!; [apply Hrun| |apply NoDup_filter; pose proof (ba_nodup _ (iv_base _ _ Hi)) as Hn; unfold queue in Hn; by rewrite Hc in Hn].
    intros r Hr [Hn _]%list_elem_of_filter. done.
  - intros r [Hr|[_ Hr]%list_elem_of_filter]%elem_of_app; [by apply (ro_in _ _ _ _ _ Hrun)|done].
Qed.

(** The loop before a flush has gone round often enough: no run is left. *)
Lemma coalesce_settles b m : inv b m -> (coalesce_one_cached_slice_run cfg (coalesce_cached_slices_before_explicit_flush cfg b)).1 = false.
Proof.
  intros Hi. unfold coalesce_cached_slices_before_explicit_flush.
  assert (forall fuel b, inv b m -> (length (queue b) <= fuel)%nat -> (coalesce_one_cached_slice_run cfg (coalesce_loop cfg fuel b)).1 = false) as H; [|by apply H].
  clear b Hi. induction fuel as [|fuel IH]; intros b Hi Hf; cbn [coalesce_loop].
  - destruct (coalesce_one_cached_slice_run cfg b) as [[] b'] eqn:E; [|done]. pose proof (coalesce_one_shrinks b m b' Hi E). lia.
  - pose proof (coalesce_one_ok b m Hi) as Hi'. destruct (coalesce_one_cached_slice_run cfg b) as [[] b'] eqn:E.
    2: { assert (b' = b) as -> by (destruct (coalesce_one_cases b m Hi) as [E'|(? & ? & ? & ? & ? & _ & _ & _ & _ & E')]; congruence). by rewrite E. }
    apply IH; [done|]. pose proof (coalesce_one_shrinks b m b' Hi E). lia.
Qed.

End coalesce.
