(* ===== verification/WriteReads.v ===== *)
(** Reads through the write buffer, and the run theorem: whatever the tasks have
    done so far, a read of the chunk returns what the writes left there. *)
From stdpp Require Import options.
From S2P Require Import Prelude Span Intervals Slices BlockStore Reader Writer PageCache WriteBuffer WriteInv WriteView WriteSteps WriteCoalesce.

Lemma sort_by_id {A} (leb : A -> A -> bool) (l : list A) : StronglySorted (fun a b => leb a b = true) l -> sort_by leb l = l.
Proof.
  induction 1 as [|x l _ IH Hf]; [done|]. cbn. change (foldr (insert_by leb) [] l) with (sort_by leb l). rewrite IH.
  destruct l as [|y l]; [done|]. cbn. apply Forall_cons in Hf as [Hxy _]. by rewrite Hxy.
Qed.

Section reads.
Context (cfg : WriteConfig) (cfg_ok : config_ok cfg) (mode : writeback_mode cfg = UploadBeforeCommit).
Context (write_back : bool) (chunk_id : Z).
Context {S : Type} `{!BlockStore S, !BlockStoreLaws S}.
Context (schedule : list (nat * Upload) -> list (nat * Upload)) (schedule_perm : forall us, schedule us ≡ₚ us).
Context (completion : list ReadJob -> list ReadJob) (completion_perm : forall js, completion js ≡ₚ js).
#[local] Set Default Proof Using "cfg_ok".

#[local] Abbreviation layout := (PageCache.layout cfg).
#[local] Abbreviation bs := (block_size layout).
#[local] Abbreviation cs := (chunk_size layout).
#[local] Abbreviation Buffer := (Buffer S).
#[local] Abbreviation slice_inv := (slice_inv cfg).
#[local] Abbreviation inv := (inv cfg chunk_id).

(** ** The overlay *)

Definition readable (l : list SliceState) : list SliceState := filter (fun s => SliceState.can_overlay_read cfg s = true) l.

Lemma window_spec s start stop : slice_inv s ->
  match slice_window cfg s start stop with
  | Some (a, z) => SliceState.can_overlay_read cfg s = true /\ a < z /\ start <= a /\ z <= stop /\ offset s <= a /\ z <= offset s + len (data s) /\
      forall x, start <= x < stop -> covers s x = in_range x (a, z)
  | None => SliceState.can_overlay_read cfg s = false \/ forall x, start <= x < stop -> covers s x = false
  end.
Proof.
  intros Hsi. unfold slice_window. destruct (SliceState.can_overlay_read cfg s); [|by left].
  destruct (Z.ltb_spec (Z.max start (offset s)) (Z.min stop (offset s + len (data s)))); cbn [andb].
  - split_and!; [done|lia..|]. intros x Hx. unfold covers. range_cases; lia || done.
  - right. intros x Hx. apply not_true_is_false. intros ?%covers_spec. lia.
Qed.

Lemma foldl_cut_keeps o (copied : list (Z * Z)) x : forall missing, Intervals.covers missing x -> in_ranges copied (x - o) = false ->
  Intervals.covers (foldl (fun m c => (Intervals.cut m (o + c.1) (o + c.2)).1) missing copied) x.
Proof.
  induction copied as [|[a z] copied IH]; intros missing Hm Hc; [done|]. cbn in *. apply orb_false_iff in Hc as [Hc1 Hc2].
  apply IH; [|done]. apply Intervals.cut_keeps; [done|]. unfold in_range in Hc1. cbn in Hc1. lia.
Qed.

Lemma overlay_loop_ok start : 0 <= start -> forall sl buf missing, (forall s, s ∈ sl -> slice_inv s) -> start + zlen buf <= cs ->
  exists buf' missing', overlay_loop cfg sl start buf missing = Ok (buf', missing') /\ length buf' = length buf /\
    (forall i, 0 <= i < zlen buf -> buf' !! Z.to_nat i = match top cfg (readable sl) (start + i) with Some v => Some v | None => buf !! Z.to_nat i end) /\
    (forall x, start <= x < start + zlen buf -> Intervals.covers missing x -> top cfg (readable sl) x = None -> Intervals.covers missing' x).
Proof.
  intros Hst. induction sl as [|s sl IH]; intros buf missing Hsl Hc; [by exists buf, missing|].
  pose proof (Hsl s ltac:(by left)) as Hsi. assert (forall t, t ∈ sl -> slice_inv t) as Hsl' by (intros; apply Hsl; by right).
  cbn [overlay_loop]. pose proof (window_spec s start (start + zlen buf) Hsi) as Hw. unfold readable in *. rewrite filter_cons.
  destruct (slice_window cfg s start (start + zlen buf)) as [[a z]|].
  2: { destruct (IH buf missing Hsl' Hc) as (buf' & missing' & E & Hl & Hi & Hm). exists buf', missing'. split; [done|]. split; [done|].
    case_decide as Hd; [|done]. destruct Hw as [Hw|Hw]; [congruence|]. cbn [top].
    split; [intros i Hi'; rewrite Hi by done|intros x Hx Hcx Ht; apply Hm; try done];
      destruct (top cfg _ _); try done; by rewrite Hw by lia. }
  destruct Hw as (Hr & Haz & Ha & Hz & Hoa & Hoz & Hcov). rewrite decide_True by done. cbn [top].
  assert (zlen (subrange buf (a - start) (z - a)) = z - a) as Hsub by (apply length_subrange; lia).
  pose proof (si_range _ _ Hsi). pose proof (cs_u64 cfg cfg_ok).
  destruct (copy_written_into_ok cfg cfg_ok (data s) (a - offset s) (subrange buf (a - start) (z - a))) as (copied & -> & Hcop); [apply Hsi|lia|u64_lia|].
  cbn [result_bind]. set (piece := overlaid _ _ _ _). assert (zlen piece = z - a) as Hpl by (unfold piece, overlaid; by rewrite length_imap).
  assert (length (splice buf (Z.to_nat (a - start)) piece) = length buf) as Hlen by (apply length_splice; lia).
  destruct (IH (splice buf (Z.to_nat (a - start)) piece) (foldl (fun m c => (Intervals.cut m (offset s + c.1) (offset s + c.2)).1) missing copied))
    as (buf' & missing' & E & Hl & Hi & Hm); [done|by rewrite Hlen|]. rewrite Hlen in *. exists buf', missing'. split; [done|]. split; [done|]. split.
  - intros i Hi'. rewrite Hi by done. destruct (top cfg (filter _ sl) (start + i)); [done|]. rewrite Hcov by lia. rewrite lookup_splice by lia. range_cases.
    + rewrite decide_True by lia. unfold piece, overlaid. rewrite list_lookup_imap.
      destruct (lookup_lt_is_Some_2 (subrange buf (a - start) (z - a)) (Z.to_nat i - Z.to_nat (a - start))) as [y ->]; [lia|]. cbn. f_equal.
      rewrite (si_dense _ _ Hsi). range_cases; [|lia]. unfold slice_byte. f_equal. lia.
    + by rewrite decide_False by lia.
  - intros x Hx Hcx Ht. destruct (top cfg (filter _ sl) x) eqn:Et; [done|]. rewrite Hcov in Ht by lia. apply Hm; try done.
    apply foldl_cut_keeps; [done|]. rewrite Hcop, Hsub. destruct (in_range_dec x a z) as [[_ E']|[Hn _]]; [by rewrite E' in Ht|].
    destruct (written_at (data s) (x - offset s)); [|by rewrite andb_false_r]. range_cases; lia || done.
Qed.

(** ** What a read sees *)

Lemma order_leb_sorted b m : inv b m -> sort_by order_leb (queued b) = queued b.
Proof.
  intros Hi. apply sort_by_id. pose proof (ba_sorted _ (iv_base _ _ Hi)) as Hs.
  assert (forall s, s ∈ queued b -> 0 < write_order s) as Hpos.
  { intros s (r & _ & Hr)%(elem_of_queued cfg_ok). by destruct (ba_slice _ (iv_base _ _ Hi) r s Hr) as (_ & _ & ? & _). }
  induction Hs as [|s l _ IH Hf]; constructor; [apply IH; intros; apply Hpos; by right|]. rewrite Forall_forall in *. intros t Ht.
  destruct (Hf t Ht) as [Hle _]. pose proof (Hpos s ltac:(by left)). pose proof (Hpos t ltac:(by right)).
  unfold order_leb. rewrite !(proj2 (Z.eqb_neq _ _)) by lia. lia.
Qed.

Lemma overlay_slices_ok b m : inv b m -> overlay_slices_for_chunk b = queued b.
Proof.
  intros Hi. rewrite <-(order_leb_sorted b m Hi). unfold overlay_slices_for_chunk, queued, queue. destruct (chunk b) as [c|] eqn:Hc; [|done].
  by rewrite (ba_recent _ (iv_base _ _ Hi) c Hc).
Qed.

Lemma queued_inv b m s : inv b m -> s ∈ queued b -> slice_inv s.
Proof. intros Hi (r & _ & Hr)%(elem_of_queued cfg_ok). by apply (ba_slice _ (iv_base _ _ Hi) r s). Qed.

(** Slices without a position do not show. *)
Lemma top_readable l x : (forall s, s ∈ l -> slice_inv s) -> (forall s, s ∈ l -> state s = Committed -> covers s x = false) ->
  top cfg (readable l) x = top cfg l x.
Proof.
  induction l as [|s l IH]; intros Hl Hc; [done|]. unfold readable in *. rewrite filter_cons.
  assert (top cfg (filter (fun s => SliceState.can_overlay_read cfg s = true) l) x = top cfg l x) as IH'
    by (apply IH; intros; [apply Hl|apply Hc]; (by right) || done).
  case_decide as Hr; cbn [top]; rewrite IH'; [done|]. rewrite (Hc s); [by destruct (top cfg l x)|by left|].
  unfold SliceState.can_overlay_read in Hr. by destruct (state s).
Qed.

(** The content is the newest readable byte of each position, or the published
    one. *)
Lemma readable_view b m x : inv b m -> 0 <= x < cs ->
  Some (m x) = match top cfg (readable (queued b)) x with Some v => Some v | None => chunk_byte layout (store b) (published b) x end.
Proof.
  intros Hi Hx. rewrite (iv_view _ _ Hi x Hx). pose proof (fun s => queued_inv b m s Hi) as Hinv.
  destruct (queue b) as [|r rest] eqn:Eq; [unfold queued; by rewrite Eq|].
  destruct (ba_live _ (iv_base _ _ Hi) r) as [s Hs]; [rewrite Eq; by left|]. destruct (ba_slice _ (iv_base _ _ Hi) r s Hs) as (Hsi & _).
  assert (queued b = s :: omap (fun q => heap b !! q) rest) as Eqd by (unfold queued; rewrite Eq; cbn; by rewrite Hs). rewrite Eqd in *.
  assert (top cfg (readable (omap (fun q => heap b !! q) rest)) x = top cfg (omap (fun q => heap b !! q) rest) x) as Hrest.
  { apply top_readable; [intros; apply Hinv; by right|]. intros t (q & Hq & Ht)%list_elem_of_omap Hc. apply not_true_is_false. intros Hcv%covers_spec.
    pose proof (iv_behind _ _ Hi q t) as Hz. rewrite Eq in Hz. specialize (Hz Hq Ht Hc). lia. }
  unfold readable in *. rewrite filter_cons. case_decide as Hr; cbn [top]; rewrite Hrest; [done|]. clear Hrest. destruct (top cfg (omap _ rest) x); [done|].
  destruct (covers s x) eqn:Hcv; [|done]. symmetry. eapply (front_published cfg cfg_ok chunk_id b m r s); try done; [by rewrite Eq|].
  unfold SliceState.can_overlay_read in Hr. by destruct (state s).
Qed.

Lemma no_overlap b m start n : inv b m -> 0 <= start -> 0 <= n -> start + n <= cs -> overlay_has_overlap cfg (queued b) start (start + n) = false ->
  forall x, start <= x < start + n -> top cfg (readable (queued b)) x = None.
Proof.
  intros Hi Hs Hn Hc Ho x Hx. pose proof (cs_u64 cfg cfg_ok). apply (top_None cfg_ok). intros s [Hr Hin]%list_elem_of_filter. apply not_true_is_false. intros Hcv.
  pose proof (queued_inv b m s Hi Hin) as Hsi. pose proof (window_spec s start (start + n) Hsi) as Hw.
  assert (overlay_has_overlap cfg (queued b) start (start + n) = true); [|congruence].
  unfold overlay_has_overlap. apply existsb_exists. exists s. split; [by apply list_elem_of_In|].
  destruct (slice_window cfg s start (start + n)) as [[a z]|]; [|destruct Hw as [?|Hw]; [congruence|by rewrite Hw in Hcv]].
  destruct Hw as (_ & ? & ? & ? & ? & ? & Hcov). apply (overlap_spec cfg cfg_ok); [done|lia..|u64_lia|]. exists x. split; [|done].
  rewrite Hcov in Hcv by done. apply in_range_spec in Hcv. cbn in Hcv. lia.
Qed.

Lemma overlay_impl_ok b m start buf : inv b m -> 0 <= start -> start + zlen buf <= cs ->
  exists covered buf', overlay_dirty_impl cfg b start buf = Ok (covered, buf') /\ length buf' = length buf /\
    (forall i, 0 <= i < zlen buf -> buf' !! Z.to_nat i =
      match top cfg (readable (queued b)) (start + i) with Some v => Some v | None => buf !! Z.to_nat i end) /\
    (covered = true -> forall x, start <= x < start + zlen buf -> top cfg (readable (queued b)) x <> None).
Proof.
  intros Hi Hs Hc. unfold overlay_dirty_impl. rewrite (overlay_slices_ok b m Hi). destruct (Z.eqb_spec (zlen buf) 0) as [Hz|Hz].
  { exists true, buf. split_and!; [done|done|lia|lia]. }
  destruct (overlay_has_overlap _ _ _ _) eqn:Ho; cbn [negb].
  2: { exists false, buf. split_and!; [done|done| |done]. intros i Hi'. by rewrite (no_overlap b m start (zlen buf) Hi Hs ltac:(lia) Hc Ho) by lia. }
  destruct (overlay_loop_ok start Hs (queued b) buf (Intervals.new start (start + zlen buf))) as (buf' & missing & -> & Hl & Hb & Hm);
    [intros s Hin; by eapply queued_inv|done|]. cbn [result_bind]. eexists _, buf'. split_and!; [done..|].
  intros He%bool_decide_eq_true x Hx Ht. specialize (Hm x Hx). unfold Intervals.collect in He. rewrite He in Hm. apply (Intervals.covers_nil x), Hm; [|done].
  exists start, (start + zlen buf). split; [by left|done].
Qed.

(** The content of a range. *)
Definition content (m : Z -> byte) (start n : Z) : list byte := m <$> seqZ start n.

Lemma content_eq m start n buf : zlen buf = n -> (forall i, 0 <= i < n -> buf !! Z.to_nat i = Some (m (start + i))) -> buf = content m start n.
Proof.
  intros Hl Hb. apply list_eq. intros i. unfold content. rewrite list_lookup_fmap.
  destruct (decide (Z.of_nat i < n)) as [Hi|Hi].
  - rewrite lookup_seqZ_lt by lia. cbn. rewrite <-Hb by lia. by rewrite Nat2Z.id.
  - rewrite lookup_seqZ_ge by lia. apply lookup_ge_None. lia.
Qed.

Lemma read_chunk_ok b m start n : inv b m -> 0 <= start -> 0 <= n -> start + n <= cs ->
  read_chunk cfg completion b start n = Some (Ok (content m start n)).
Proof using cfg_ok completion_perm.
  intros Hi Hs Hn Hc. pose proof (cs_u64 cfg cfg_ok). unfold read_chunk.
  pose proof (read_at_from_slices_spec completion layout (store b) (published b) start n completion_perm (co_layout _ cfg_ok) (iv_pub_ok _ _ Hi) Hs Hn
    ltac:(u64_lia)) as Hr.
  destruct (read_at_from_slices _ _ _ _ _ _) as [[buf|e]|]; [..|done].
  - destruct Hr as [Hl Hb]. destruct (overlay_impl_ok b m start buf Hi Hs ltac:(lia)) as (cov & buf' & E & Hl' & Hb' & _).
    unfold overlay_dirty. rewrite E. cbn. do 2 f_equal. apply content_eq; [lia|]. intros i Hi'. rewrite Hb' by lia.
    rewrite (readable_view b m (start + i) Hi) by lia. rewrite Hb by done. by destruct (top cfg _ _).
  - destruct Hr as (i & Hi' & He). destruct (iv_readable _ _ Hi (start + i) ltac:(lia)) as [v Hv]. congruence.
Qed.

(** The fast path answers with the content too, or not at all. *)
Lemma read_dirty_ok b m start n : inv b m -> 0 <= start -> 0 <= n -> start + n <= cs ->
  read_dirty_if_fully_covered cfg b start n = Ok None \/ read_dirty_if_fully_covered cfg b start n = Ok (Some (content m start n)).
Proof.
  intros Hi Hs Hn Hc. unfold read_dirty_if_fully_covered. set (zeros := replicate (Z.to_nat n) Byte.x00).
  assert (zlen zeros = n) as Hz by (unfold zeros; rewrite length_replicate; lia).
  destruct (overlay_impl_ok b m start zeros Hi Hs ltac:(lia)) as (cov & buf' & -> & Hl & Hb & Hcv). cbn. destruct cov; [right|by left].
  do 2 f_equal. apply content_eq; [lia|]. intros i Hi'. rewrite Hb by lia. specialize (Hcv eq_refl (start + i) ltac:(lia)).
  rewrite (readable_view b m (start + i) Hi) by lia. by destruct (top cfg _ _).
Qed.

(** ** The error flag stays set *)

Ltac error_cbn := cbn [error set_heap set_chunk set_order set_gated set_error set_epoch set_batches set_tasks set_published set_store update
  fail set_task spawn_flush_slice on_chunk alloc fst snd].
Ltac error_cases := error_cbn; try done;
  lazymatch goal with
  | |- error (match ?x with _ => _ end) = _ => destruct x; error_cases
  | |- error (match ?x with _ => _ end).2 = _ => destruct x; error_cases
  end.

Lemma error_write_at off buf unique ord origin gap (b : Buffer) : error (chunk_write_at cfg off buf unique ord origin gap b).2 = error b.
Proof using Type.
  unfold chunk_write_at. assert (forall e b', find_slice_or_create cfg off (zlen buf) unique ord gap b = (e, b') -> error b' = error b) as Hf.
  { intros e b'. unfold find_slice_or_create. destruct (chunk b); [|by intros [= <- <-]]. destruct (negb _); [by intros [= <- <-]|].
    destruct (scan _ _ _ _ _ _ _ _ _ _ _ _) as [[found h] flush]. destruct found; [|by intros [= <- <-]]. by destruct (unique =? 0); intros [= <- <-]. }
  destruct (find_slice_or_create _ _ _ _ _ _ _) as [e b'] eqn:E. specialize (Hf e b' eq_refl). error_cases.
Qed.

Lemma error_spawns flush : forall b : Buffer, error (foldl (fun b r => spawn_flush_slice r b) b flush) = error b.
Proof using Type. induction flush as [|r flush IH]; intros b; [done|]. cbn. by rewrite IH. Qed.

Lemma error_write_ordered off buf unique ord origin (b : Buffer) : error (write_ordered cfg off buf unique ord origin b).2 = error b.
Proof using Type.
  unfold write_ordered. pose proof (error_write_at off buf unique ord origin None (get_or_create_chunk b)) as Hw.
  assert (error (get_or_create_chunk b) = error b) as Hg by (unfold get_or_create_chunk; by destruct (chunk b)).
  destruct (chunk_write_at _ _ _ _ _ _ _ _) as [[[start flush]|e] b']; cbn in *; [|congruence]. destruct start; cbn; rewrite error_spawns; congruence.
Qed.

Lemma error_coalesce fuel : forall b : Buffer, error (coalesce_loop cfg fuel b) = error b.
Proof using Type.
  induction fuel as [|fuel IH]; intros b; [done|]. cbn [coalesce_loop]. unfold coalesce_one_cached_slice_run. destruct (chunk b); [|done].
  destruct (find_cached_coalesce_run _ _ _); [|done]. destruct (_ <? 2)%nat; [done|]. destruct (build_coalesced_cached_slice _ _); [|done]. cbn. by rewrite IH.
Qed.

Lemma error_fails l : forall b : Buffer, error b = true -> error (foldl (fun b r => fail r b) b l) = true.
Proof using Type. induction l as [|r l IH]; intros b Hb; [done|]. cbn. by apply IH. Qed.

Lemma error_split r (b : Buffer) : error (split_uploaded_prefix_tail cfg r b) = error b.
Proof using Type. unfold split_uploaded_prefix_tail. error_cases. Qed.

Lemma error_seal r seal_ok (b : Buffer) : error b = true -> error (seal_writeback_record_if_ready write_back r seal_ok b).2 = true.
Proof using Type. intros Hb. unfold seal_writeback_record_if_ready. error_cases. Qed.

Lemma error_before_upload r seal_ok out (b : Buffer) : error b = true -> error (try_commit_before_upload_front cfg write_back chunk_id r seal_ok out b).2 = true.
Proof using Type.
  intros Hb. unfold try_commit_before_upload_front. pose proof (error_seal r seal_ok b Hb) as Hs.
  destruct (seal_writeback_record_if_ready write_back r seal_ok b) as [sealed b1]. cbn in Hs. error_cases.
Qed.

Lemma error_wait i n r ch s (b : Buffer) : error b = true -> error (wait_for_upload cfg write_back chunk_id i n r ch s b) = true.
Proof using Type.
  intros Hb. unfold wait_for_upload, spawn_if_idle. pose proof (error_before_upload r (ch_seal_ok ch) (ch_meta ch) b Hb) as Hu.
  destruct (try_commit_before_upload_front _ _ _ _ _ _ _) as [fin b1]. cbn in Hu. error_cases.
Qed.

Lemma error_keep r (b : Buffer) : error (keep_recently_committed_if_overlay_needed cfg r b) = error b.
Proof using Type. unfold keep_recently_committed_if_overlay_needed. error_cases. Qed.

Lemma error_drop (b : Buffer) : error (drop_if_empty b).2 = error b.
Proof using Type. unfold drop_if_empty. error_cases. Qed.

Lemma step_error (b : Buffer) e : error b = true -> error (step cfg write_back chunk_id schedule b e) = true.
Proof using Type.
  intros Hb. destruct e; cbn [step].
  - unfold write_at_inner. by rewrite Hb.
  - unfold write_gated. by rewrite Hb.
  - case_bool_decide; [|done]. unfold write_released. by rewrite error_write_ordered.
  - unfold freeze_slice. error_cases.
  - unfold coalesce_cached_slices_before_explicit_flush. by rewrite error_coalesce.
  - done.
  - done.
  - unfold dispatch. error_cases.
  - unfold finish_batch. destruct (batches b !! k); [|done]. destruct (upload_attempts _ _ _ _ _) as [[] ?]; [|done]. by rewrite error_split.
  - unfold end_upload_task. error_cases.
  - unfold try_commit. error_cases.
  - destruct (_ || _); [done|]. pose proof (error_seal r seal_ok (persist_stage r bytes b) Hb) as Hs.
    destruct (seal_writeback_record_if_ready _ _ _ _) as [[] b1]; [|done]. unfold try_commit_before_upload_if_front.
    destruct (is_front r b1); [by apply error_before_upload|done].
  - unfold commit_chunk. destruct (tasks b !! i) as [t|]; [|done]. destruct (pc t) as [| |r|r|r|]; [error_cases|error_cases| | | |done].
    + pose proof (error_split r b) as Hs. set (b1 := split_uploaded_prefix_tail cfg r b) in *. rewrite Hb in Hs.
      destruct (heap b1 !! r) as [s|]; [|done]. destruct (state s); try done; [by apply error_wait..|unfold publish_front; error_cases].
    + destruct (bool_decide _); [destruct (queue b); error_cbn; by rewrite ?error_keep|]. unfold pop_front_slice.
      pose proof (error_drop (on_chunk (fun c => set_slices (tail (slices c)) c) b)) as Hd. destruct (drop_if_empty _) as [empty b1]. error_cbn. cbn in Hd. congruence.
    + error_cbn. unfold move_front_slice_to_recently_committed. rewrite error_drop. destruct (is_front r b); [by rewrite error_keep|done].
  - unfold restart_commit_task. error_cases.
  - unfold drain_recently_committed. destruct (chunk b); [|done]. apply error_fails. by rewrite error_drop.
  - done.
Qed.

(** ** Runs *)

(** What the writes of a run leave. *)
Definition written (m : Z -> byte) (e : Event) : Z -> byte :=
  match e with Write off buf _ _ => put_bytes m off buf | _ => m end.

(** The events the statement is about: writes inside the chunk that find the
    flush gate open, fresh slice ids, commit tasks as in [orderly_task], and no
    change of the data epoch (a truncation by this mount). *)
Definition orderly (b : Buffer) (e : Event) : Prop :=
  match e with
  | Write off buf _ _ => 0 <= off /\ off + zlen buf <= cs
  | AssignId _ id => is_u64 id /\ map_Forall (fun _ t => slice_id t <> Some id) (heap b) /\
      (id ∉ (Slice.slice_id <$> published b))
  | Task_ i _ => match tasks b !! i with Some t => orderly_task b (pc t) | None => True end
  | Released _ _ _ | BumpEpoch => False
  | _ => True
  end.

Fixpoint orderly_run (b : Buffer) (l : list Event) : Prop :=
  match l with
  | [] => True
  | e :: l => orderly b e /\ orderly_run (step cfg write_back chunk_id schedule b e) l
  end.

#[global] Instance orderly_dec b e : Decision (orderly b e).
Proof using Type.
  destruct e; cbn; try apply _. destruct (tasks b !! i) as [t|]; [|apply _]. unfold orderly_task. destruct (pc t); apply _.
Defined.

#[global] Instance orderly_run_dec l : forall b, Decision (orderly_run b l).
Proof using Type. induction l as [|e l IH]; intros b; [apply _|]. cbn. apply _. Defined.

Lemma step_ok b m e : inv b m -> orderly b e -> error (step cfg write_back chunk_id schedule b e) = false ->
  inv (step cfg write_back chunk_id schedule b e) (written m e).
Proof using cfg_ok mode schedule_perm.
  intros Hi Ho He. destruct e; cbn [step written orderly] in *; try done.
  - destruct Ho as [Ho Hc]. destruct (write_at_inner_ok cfg cfg_ok chunk_id mode b m off buf unique origin Hi Ho Hc) as (b' & -> & ?). done.
  - by apply write_gated_ok.
  - by apply freeze_slice_ok.
  - by apply coalesce_ok.
  - destruct Ho as (? & ? & ?). by eapply assign_slice_id_ok.
  - by eapply dispatch_ok.
  - by eapply finish_batch_ok.
  - by eapply end_upload_task_ok.
  - by eapply try_commit_ok.
  - by rewrite mode, bool_decide_true.
  - apply commit_chunk_ok; try done. intros t Ht. by rewrite Ht in Ho.
  - by apply restart_ok.
  - by apply drain_ok.
Qed.

Lemma run_error l : forall b : Buffer, error b = true -> error (run cfg write_back chunk_id schedule b l) = true.
Proof using Type. induction l as [|e l IH]; intros b Hb; [done|]. cbn. by apply IH, step_error. Qed.

Lemma run_ok l : forall b m, inv b m -> orderly_run b l -> error (run cfg write_back chunk_id schedule b l) = false ->
  inv (run cfg write_back chunk_id schedule b l) (foldl written m l).
Proof using cfg_ok mode schedule_perm.
  induction l as [|e l IH]; intros b m Hi Ho He; [done|]. destruct Ho as [Ho Hr]. change (run cfg write_back chunk_id schedule b (e :: l)) with (run cfg write_back chunk_id schedule (step cfg write_back chunk_id schedule b e) l) in *. cbn [foldl]. apply IH; [|done|done]. apply step_ok; [done|done|].
  apply not_true_is_false. intros Ht. apply (run_error l) in Ht. congruence.
Qed.

Lemma fresh_inv_buffer pub st m : Forall Slice.slice_ok pub -> (forall x, 0 <= x < cs -> chunk_byte layout st pub x = Some (m x)) ->
  inv (fresh pub st) m.
Proof.
  intros Hp Hm.
  assert (forall r s, (∅ : gmap nat SliceState) !! r = Some s -> False) as He by (intros r s; by rewrite lookup_empty).
  constructor; [constructor|..]; cbn; try done; try (by intros r [s ?%He]); try (intros; exfalso; by eapply He); try constructor.
  - by intros r ?%elem_of_nil.
  - by intros t ?%elem_of_nil.
  - by intros t ?%elem_of_nil.
  - intros x Hx. rewrite Hm by done. eauto.
  - intros x Hx. by rewrite Hm.
Qed.


End reads.

(** A slice is written, frozen, uploaded and published while a newer one is
    written over it; cached slices are merged, and one metadata call fails after
    it took effect. *)
Definition w_choice (out : MetaOutcome) : Choice := mkChoice out true false false false.
Definition w_events : list Event :=
  [ Write 0 [Byte.x01; Byte.x02; Byte.x03; Byte.x04; Byte.x05] 0 Normal; Freeze 0 Auto; AssignId 0 5; Dispatch 0;
    Write 4 [Byte.x11; Byte.x12] 0 Normal; FinishBatch 0; Task_ 0 (w_choice MetaOk); TryCommit 0 (fun n => match n with O => MetaErr true true | _ => MetaOk end);
    Task_ 0 (w_choice MetaOk); Task_ 0 (w_choice MetaOk); Write 8 [Byte.x21] 0 Cached; Write 10 [Byte.x22] 0 Cached; Write 9 [Byte.x23] 0 Cached; Coalesce;
    Freeze 1 ExplicitFlush; TakeOrder; Drain (fun _ => true) (fun _ => false); EndUploadTask 0; RestartTask ].

