(* ===== verification/WriteFlush.v ===== *)
(** Flushing a chunk's write buffer ([flush_with_deadline_inner] of
    [vfs/io/writer.rs]): what is published once the slices a flush collected are
    committed. *)
From stdpp Require Import options.
From S2P Require Import Prelude Span Intervals Slices BlockStore Reader Writer PageCache WriteBuffer WriteInv WriteView WriteSteps WriteCoalesce WriteReads.

Section flush.
Context (cfg : WriteConfig).
Context {S : Type} `{!BlockStore S}.
#[local] Abbreviation Buffer := (Buffer S).

(** A flush merges small cached slices, collects the slices of the queue and
    freezes them, which starts their uploads; here in one go.  The source counts
    fragments in between. *)
Definition flush_begin (b : Buffer) : list nat * Buffer :=
  let b := coalesce_cached_slices_before_explicit_flush cfg b in
  (queue b, foldl (fun b r => freeze_slice cfg r ExplicitFlush b) b (queue b)).

(** [all_done] of the wait loop. *)
Definition flush_done (captured : list nat) (b : Buffer) : bool :=
  forallb (fun r => bool_decide (state <$> heap b !! r = Some Committed)) captured.

(** ** The slices behind a flush

    The collected slices take no more writes, and the other slices of the queue
    hold only positions of [W]. *)
Definition footing (C : list nat) (W : Z -> Prop) (h : gmap nat SliceState) (q : list nat) (n : nat) : Prop :=
  (forall r, r ∈ C -> (r < n)%nat) /\
  (forall r s, r ∈ C -> h !! r = Some s -> state s <> Writable) /\
  (forall r s x, r ∈ q -> r ∉ C -> h !! r = Some s -> covers s x = true -> W x).
Definition flushing (C : list nat) (W : Z -> Prop) (b : Buffer) : Prop := footing C W (heap b) (queue b) (next_ref b).

(** A step of a slice that neither reopens nor extends it. *)
Definition calm (s s' : SliceState) : Prop :=
  (state s' = Writable -> state s = Writable) /\ offset s' = offset s /\ len (data s') = len (data s).

Lemma calm_refl s : calm s s.
Proof. done. Qed.
Lemma calm_covers s s' x : calm s s' -> covers s' x = covers s x.
Proof. intros (_ & E1 & E2). unfold covers. by rewrite E1, E2. Qed.

Lemma footing_calm C W h q n h' q' n' : footing C W h q n -> (n <= n')%nat -> (forall r, r ∈ q' -> r ∈ q) ->
  (forall r s', h' !! r = Some s' -> exists s, h !! r = Some s /\ calm s s') -> footing C W h' q' n'.
Proof.
  intros (H1 & H2 & H3) Hn Hq Hh. split_and!.
  - intros r Hr. specialize (H1 r Hr). lia.
  - intros r s' Hr E. destruct (Hh r s' E) as (s & Es & Hc). intros Hw. by apply (H2 r s Hr Es), Hc.
  - intros r s' x Hr Hc E Hx. destruct (Hh r s' E) as (s & Es & Hs). rewrite (calm_covers s s' x Hs) in Hx. by apply (H3 r s x (Hq r Hr)).
Qed.

Lemma flushing_weaken C (W W' : Z -> Prop) b : (forall x, W x -> W' x) -> flushing C W b -> flushing C W' b.
Proof. intros Hw (H1 & H2 & H3). split_and!; [done..|]. intros r s x Hr Hc E Hx. apply Hw. by apply (H3 r s x). Qed.

Lemma flushing_update C W r f (b : Buffer) : (forall s, heap b !! r = Some s -> calm s (f s)) -> flushing C W b -> flushing C W (update r f b).
Proof.
  intros Hf Hb. eapply footing_calm; [exact Hb|done| |].
  - intros q. by rewrite queue_update.
  - intros q s' E. cbn in E. apply lookup_alter_Some in E as [(<- & s & Es & ->)|(_ & Es)]; [exists s; auto|exists s'; split; [done|apply calm_refl]].
Qed.

(** Steps that change neither the state nor the data. *)
Lemma flushing_set C W r f (b : Buffer) : (forall s, state (f s) = state s /\ offset (f s) = offset s /\ data (f s) = data s) ->
  flushing C W b -> flushing C W (update r f b).
Proof. intros Hf. apply flushing_update. intros s _. destruct (Hf s) as (E1 & E2 & E3). unfold calm. by rewrite E1, E2, E3. Qed.

Lemma flushing_fail C W r (b : Buffer) : flushing C W b -> flushing C W (fail r b).
Proof. intros Hb. apply (flushing_update C W r SliceHandle.mark_failed b); [|done]. intros s _. done. Qed.

Lemma flushing_pop C W (b : Buffer) : flushing C W b -> flushing C W (on_chunk (fun c => set_slices (tail (slices c)) c) b).
Proof.
  intros Hb. eapply footing_calm; [exact Hb|done| |eauto using calm_refl]. unfold queue. cbn. destruct (chunk b) as [c|]; [|done].
  cbn. destruct (slices c); [done|]. intros r. by right.
Qed.

Lemma flushing_drop C W (b : Buffer) : flushing C W b -> flushing C W (drop_if_empty b).2.
Proof.
  intros Hb. unfold drop_if_empty. destruct (chunk b); [|done]. destruct (_ && _); [|done].
  eapply footing_calm; [exact Hb|done| |eauto using calm_refl]. by intros r ?%elem_of_nil.
Qed.

(** *** Slices *)

Lemma freeze_calm reason e s : calm s (SliceHandle.freeze_with_reason cfg reason e s).2.
Proof.
  unfold SliceHandle.freeze_with_reason. destruct (negb _); [done|]. destruct (_ =? 0); [done|]. cbn zeta. by destruct (_ && _).
Qed.

Lemma advance_calm start stop s : calm s (SliceHandle.advance_upload_range cfg start stop s).
Proof.
  unfold SliceHandle.advance_upload_range. set (s1 := set_uploaded _ _). assert (calm s s1) as H1 by done. clearbody s1.
  assert (forall t, calm s t -> calm s (SliceHandle.clear_recent_pending_if_complete cfg t)) as Hc.
  { intros t (T1 & T2 & T3). unfold SliceHandle.clear_recent_pending_if_complete. by destruct (_ && _). }
  assert (calm s (set_err false (set_state Uploaded s1))) as H2 by (destruct H1 as (_ & ? & ?); done).
  apply Hc. destruct (state s1); try exact H1; by destruct (_ && _).
Qed.

Lemma prepare_calm s : calm s (SliceHandle.prepare_upload cfg s).2.
Proof.
  unfold SliceHandle.prepare_upload. destruct (bool_decide _); [done|]. destruct (negb _); [done|].
  destruct (SliceState.idx_need_upload cfg s) as [start stop]. destruct (stop <=? start); [done|]. by destruct (CacheSlice.collect_pages _ _ _ _).
Qed.

(** *** Events that take no write *)

Lemma flushing_freeze C W r reason (b : Buffer) : flushing C W b -> flushing C W (freeze_slice cfg r reason b).
Proof.
  intros Hb. unfold freeze_slice. destruct (heap b !! r) as [s|] eqn:E; [|done]. pose proof (freeze_calm reason (data_epoch b) s) as Hc.
  destruct (SliceHandle.freeze_with_reason _ _ _ _) as [froze s']. cbn [snd] in Hc.
  assert (flushing C W (update r (fun _ => s') b)) as Hu.
  { apply flushing_update; [|done]. intros t Et. by assert (t = s) as -> by congruence. }
  destruct froze; [by apply flushing_set|done].
Qed.

Lemma flushing_dispatch C W r (b : Buffer) : flushing C W b -> flushing C W (dispatch cfg r b).
Proof.
  intros Hb. unfold dispatch. destruct (heap b !! r) as [s|] eqn:E; [|done]. destruct (slice_id s); [|done]. destruct (negb _); [done|].
  pose proof (prepare_calm s) as Hc. destruct (SliceHandle.prepare_upload cfg s) as [res s']. cbn [snd] in Hc.
  assert (flushing C W (update r (fun _ => s') b)) as Hu.
  { apply flushing_update; [|done]. intros t Et. by assert (t = s) as -> by congruence. }
  destruct res as [[[[? ?] ?]|]|]; [done|done|by apply flushing_fail].
Qed.

Lemma flushing_try_commit C W chunk_id r outs (b : Buffer) : flushing C W b -> flushing C W (try_commit chunk_id r outs b).
Proof.
  intros Hb. unfold try_commit. destruct (heap b !! r) as [s|]; [|done]. destruct (negb _); [done|].
  destruct (SliceHandle.desc_for_commit _ _); [|done]. destruct (stale s b); [by apply flushing_update|].
  destruct (meta_write_started s); [done|]. destruct (negb _); [done|]. destruct (commit_attempts _ _ _ _ _) as [[] l]; cbn zeta.
  - by apply (flushing_update C W r _ (set_published l b)).
  - by apply (flushing_set C W r _ (set_published l b)).
  - apply flushing_fail. by apply (flushing_set C W r _ (set_published l b)).
Qed.

Lemma flushing_keep C W r (b : Buffer) : flushing C W b -> flushing C W (keep_recently_committed_if_overlay_needed cfg r b).
Proof.
  intros Hb. unfold keep_recently_committed_if_overlay_needed. destruct (heap b !! r); [|done]. destruct (SliceState.can_overlay_read _ _).
  - eapply footing_calm; [exact Hb|done| |eauto using calm_refl]. unfold queue. cbn. by destruct (chunk b).
  - by apply flushing_update.
Qed.

Lemma flushing_publish C W chunk_id i n r ch s (b : Buffer) : flushing C W b -> flushing C W (publish_front chunk_id i n r ch s b).
Proof.
  intros Hb. unfold publish_front. destruct (err s); [done|]. destruct (stale s b); [by apply (flushing_update C W r _ b)|].
  destruct (meta_write_started s); [done|].
  assert (flushing C W (update r (set_meta_write_started true) b)) as H1 by by apply flushing_set.
  destruct (SliceHandle.desc_for_commit _ _) as [d|]; [|done]. destruct (ch_meta ch) as [|applied retryable].
  - by apply (flushing_update C W r SliceHandle.mark_committed (set_published (published b ++ [d]) (update r (set_meta_write_started true) b))).
  - destruct (_ || _); [|done]. by apply (flushing_fail C W r (set_published (meta_apply (MetaErr applied retryable) d (published b)) (update r (set_meta_write_started true) b))).
Qed.

Lemma flushing_spawn_if_idle C W r (b : Buffer) : flushing C W b -> flushing C W (spawn_if_idle cfg r b).
Proof.
  intros Hb. unfold spawn_if_idle. destruct (heap b !! r); [|done]. destruct (SliceHandle.can_continue_upload _ _); [by apply flushing_set|done].
Qed.

Lemma flushing_wait C W (mode : writeback_mode cfg = UploadBeforeCommit) write_back chunk_id i n r ch s (b : Buffer) :
  heap b !! r = Some s -> flushing C W b -> flushing C W (wait_for_upload cfg write_back chunk_id i n r ch s b).
Proof.
  intros E Hb. unfold wait_for_upload, try_commit_before_upload_front. rewrite mode, bool_decide_true by done.
  destruct (negb _); [done|]. destruct (is_writable s).
  - assert (calm s (if ch_old ch then SliceHandle.freeze_with_reason cfg CommitAgeSafety (data_epoch b) s else (false, s)).2) as Hc
      by (destruct (ch_old ch); [apply freeze_calm|done]).
    destruct (if ch_old ch then _ else _) as [froze s1]. cbn [snd] in Hc.
    assert (flushing C W (update r (fun _ => s1) b)) as Hu.
    { apply flushing_update; [|done]. intros t Et. by assert (t = s) as -> by congruence. }
    destruct froze; [by apply (flushing_set C W r _ (update r (fun _ => s1) b))|done].
  - pose proof (flushing_spawn_if_idle C W r b Hb). destruct (ch_stalled ch); [by apply (flushing_fail C W r)|done].
Qed.

End flush.

(** ** The run after a flush *)
Section run.
Context (cfg : WriteConfig) (cfg_ok : config_ok cfg) (mode : writeback_mode cfg = UploadBeforeCommit).
Context (write_back : bool) (chunk_id : Z).
Context {S : Type} `{!BlockStore S, !BlockStoreLaws S}.
Context (schedule : list (nat * Upload) -> list (nat * Upload)) (schedule_perm : forall us, schedule us ≡ₚ us).
#[local] Set Default Proof Using "cfg_ok".

#[local] Abbreviation layout := (PageCache.layout cfg).
#[local] Abbreviation cs := (chunk_size layout).
#[local] Abbreviation Buffer := (Buffer S).
#[local] Abbreviation slice_inv := (slice_inv cfg).
#[local] Abbreviation inv := (inv cfg chunk_id).

(** A new slice of the queue. *)
Lemma flushing_enqueue C W h q n s h' q' : footing C W h q n -> h !! n = None -> h' = <[n := s]> h -> (forall r, r ∈ q' -> r = n \/ r ∈ q) ->
  (forall x, covers s x = true -> W x) -> footing C W h' q' (1 + n).
Proof using Type.
  intros (H1 & H2 & H3) Hn -> Hq Hs. split_and!.
  - intros r Hr. specialize (H1 r Hr). lia.
  - intros r t Hr E. specialize (H1 r Hr). rewrite lookup_insert_ne in E by lia. by apply (H2 r t Hr).
  - intros r t x Hr Hc E Hx. destruct (decide (r = n)) as [->|Hne].
    + rewrite lookup_insert_eq in E. injection E as <-. by apply Hs.
    + rewrite lookup_insert_ne in E by done. destruct (Hq r Hr); [done|]. by apply (H3 r t x).
Qed.

Lemma flushing_split C W r b m : inv b m -> flushing C W b -> flushing C W (split_uploaded_prefix_tail cfg r b).
Proof.
  intros Hi Hf. destruct (split_cases cfg cfg_ok chunk_id b m r Hi) as [->|(rest & c & s & pre & post & up & Hc & Hq & Hs & Hsp & ->)]; [done|].
  pose proof (iv_base _ _ Hi) as Hb. assert (queue b = r :: rest) as Eq by (unfold queue; by rewrite Hc).
  assert (heap b !! next_ref b = None) as Hn.
  { destruct (heap b !! next_ref b) eqn:E; [|done]. pose proof (ba_fresh _ Hb (next_ref b) ltac:(eauto)). lia. }
  destruct (sp_state _ _ _ _ _ Hsp) as (Hw & Hp & _). pose proof (sp_up _ _ _ _ _ Hsp) as [Hup0 Hup].
  assert (r ∉ C) as Hr by (intros Hin; destruct Hf as (_ & H2 & _); by apply (H2 r s)).
  assert (forall x, covers s x = true -> W x) as Hcov.
  { intros x Hx. destruct Hf as (_ & _ & H3). apply (H3 r s x); [rewrite Eq; by left|done..]. }
  destruct (sp_offset _ _ _ _ _ Hsp) as [Eo Eo']. destruct (sp_len _ _ _ _ _ Hsp) as [El El'].
  apply (flushing_enqueue C W (heap (update r (fun _ => pre) b)) (queue b) (next_ref b) post).
  - split_and!; [apply Hf| |].
    + intros q t Hq' Et. cbn in Et. rewrite lookup_alter_ne in Et by congruence. destruct Hf as (_ & H2 & _). by apply (H2 q t).
    + intros q t x Hq' Hqc Et Hx. cbn in Et. destruct (decide (q = r)) as [->|Hne].
      * rewrite lookup_alter_eq, Hs in Et. injection Et as <-. apply Hcov. rewrite covers_spec in *. lia.
      * rewrite lookup_alter_ne in Et by congruence. destruct Hf as (_ & _ & H3). by apply (H3 q t x).
  - cbn. rewrite lookup_alter_ne; [done|]. intros ->. congruence.
  - done.
  - rewrite Eq. intros q. change (queue _) with (r :: next_ref b :: rest). rewrite !elem_of_cons. tauto.
  - intros x Hx. apply Hcov. rewrite covers_spec in *. lia.
Qed.

Lemma flushing_finish C W k b m : inv b m -> error (finish_batch cfg schedule k b) = false -> flushing C W b -> flushing C W (finish_batch cfg schedule k b).
Proof using cfg_ok schedule_perm.
  intros Hi He Hf. unfold finish_batch in *. destruct (batches b !! k) as [t|] eqn:Hk; [|done].
  destruct (upload_attempts _ _ _ _ _) as [[] st] eqn:Hup; [|by apply flushing_fail].
  eapply flushing_split; [by apply (batch_done_ok cfg cfg_ok chunk_id schedule schedule_perm b m)|]. apply flushing_update; [|done]. intros s _. apply advance_calm.
Qed.

Lemma flushing_coalesce C W b m : inv b m -> flushing C W b -> flushing C W (coalesce_cached_slices_before_explicit_flush cfg b).
Proof.
  intros Hi Hf. unfold coalesce_cached_slices_before_explicit_flush. generalize (length (queue b)) as fuel. intros fuel. revert b Hi Hf.
  induction fuel as [|fuel IH]; intros b Hi Hf; [done|]. cbn [coalesce_loop]. pose proof (coalesce_one_ok cfg cfg_ok chunk_id b m Hi) as Hi'.
  destruct (coalesce_one_cases cfg cfg_ok chunk_id b m Hi) as [->|(c & run & a & z & s' & Hc & Hrun & Hme & _ & E)]; [done|]. rewrite E in Hi' |- *.
  apply IH; [done|]. pose proof (iv_base _ _ Hi) as Hb. assert (queue b = slices c) as Eq by (unfold queue; by rewrite Hc).
  apply (flushing_enqueue C W (heap b) (queue b) (next_ref b) s'); [done| |done| |].
  - destruct (heap b !! next_ref b) eqn:En; [|done]. pose proof (ba_fresh _ Hb (next_ref b) ltac:(eauto)). lia.
  - intros r Hr. change (r ∈ insert_slice (<[next_ref b := s']> (heap b)) (write_order s') (next_ref b) (filter (fun r => r ∉ run) (slices c))) in Hr.
    rewrite insert_slice_perm in Hr. rewrite Eq. apply elem_of_cons in Hr as [->|[_ Hr]%list_elem_of_filter]; auto.
  - intros x Hx. destruct (me_range _ _ _ _ _ Hme) as [Eo El]. apply covers_spec in Hx. rewrite Eo, El in Hx.
    destruct (ro_cover _ _ _ _ _ Hrun x ltac:(lia)) as (r & s & Hr & Hs & Hcx). destruct Hf as (_ & H2 & H3).
    apply (H3 r s x); [rewrite Eq; by apply (ro_in _ _ _ _ _ Hrun)| |done|done]. intros Hin. apply (H2 r s Hin Hs).
    destruct (ro_slice _ _ _ _ _ Hrun r Hr) as (t & Et & Hco & _). assert (t = s) as -> by congruence.
    unfold SliceState.can_coalesce_cached_writable, is_writable in Hco. case_bool_decide; [done|by cbn in Hco].
Qed.

Lemma flushing_commit_chunk C W i ch b m : inv b m -> flushing C W b -> flushing C W (commit_chunk cfg write_back chunk_id i ch b).
Proof using cfg_ok mode.
  intros Hi Hf. unfold commit_chunk. destruct (tasks b !! i) as [t|]; [|done]. destruct (pc t) as [| |r|r|r|]; [by destruct (chunk b)| | | | |done].
  - destruct (chunk b) as [c|] eqn:Hc; [|done]. destruct (bool_decide _); [|destruct (bool_decide _) eqn:Hs; [|done]].
    + eapply footing_calm; [exact Hf|done|by intros r ?%elem_of_nil|eauto using calm_refl].
    + eapply footing_calm; [exact Hf|done| |eauto using calm_refl]. intros r. unfold queue. by rewrite Hc.
  - pose proof (flushing_split C W r b m Hi Hf) as Hs. set (b1 := split_uploaded_prefix_tail cfg r b) in *. clearbody b1. cbv zeta.
    destruct (heap b1 !! r) as [s|] eqn:E; [|done]. destruct (state s); try done; [by apply flushing_wait..|by apply flushing_publish].
  - destruct (bool_decide _); [destruct (queue b); [done|by apply (flushing_keep cfg C W n), flushing_pop]|]. unfold pop_front_slice.
    pose proof (flushing_drop C W _ (flushing_pop C W b Hf)) as Hd. by destruct (drop_if_empty _) as [[] b1].
  - unfold move_front_slice_to_recently_committed. apply (flushing_drop C W).
    destruct (is_front r b); [by apply (flushing_keep cfg C W r), flushing_pop|done].
Qed.

Lemma flushing_drain C W aged expired b : flushing C W b -> flushing C W (drain_recently_committed cfg aged expired b (S := S)).
Proof using Type.
  intros Hf. unfold drain_recently_committed. destruct (chunk b) as [c|] eqn:Hc; [|done]. cbv zeta. set (b1 := (drop_if_empty _).2).
  assert (flushing C W b1) as H1.
  { apply (flushing_drop C W). eapply footing_calm; [exact Hf|done| |eauto using calm_refl]. intros r. unfold queue. by rewrite Hc. }
  clearbody b1. match goal with |- context [foldl _ b1 ?l] => generalize l end. intros l. revert b1 H1.
  induction l as [|q l IH]; intros b1 H1; [done|]. cbn. by apply IH, flushing_fail.
Qed.

(** *** Writes *)

Lemma harmless_calm s s' : harmless cfg s s' -> calm s s'.
Proof using Type. intros H. split_and!; [apply (ha_open _ _ _ H)|apply (ha_core _ _ _ H)..]. Qed.

(** The search for a slice only freezes others. *)
Lemma scan_harmless off n unique gap recent l : forall idx newer h flush, map_Forall (fun _ s => slice_inv s) h ->
  let '(_, h', _) := scan cfg off n unique gap recent 0 l idx newer h flush in
  forall r s', h' !! r = Some s' -> exists s, h !! r = Some s /\ harmless cfg s s'.
Proof.
  induction l as [|r l IH]; intros idx newer h flush Hh; cbn [scan];
    (assert (forall q s', h !! q = Some s' -> exists s, h !! q = Some s /\ harmless cfg s s') as Hid
      by (intros q s E; exists s; split; [done|]; apply harmless_refl; by apply (Hh q s))); [done|].
  assert (forall newer h' flush, map_Forall (fun _ s => slice_inv s) h' -> (forall q s', h' !! q = Some s' -> exists s, h !! q = Some s /\ harmless cfg s s') ->
    let '(_, h2, _) := scan cfg off n unique gap recent 0 l (idx + 1) newer h' flush in
    forall q s', h2 !! q = Some s' -> exists s, h !! q = Some s /\ harmless cfg s s') as Hc.
  { intros nw h' fl Hh' Hr. specialize (IH (idx + 1) nw h' fl Hh'). destruct (scan _ _ _ _ _ _ _ _ _ _ _ _) as [[found h2] fl2].
    intros q s' E. destruct (IH q s' E) as (t & Et & Ht).
    destruct (Hr q t Et) as (s & Es & Hs). exists s. split; [done|]. by eapply harmless_trans. }
  destruct (h !! r) as [s|] eqn:Es; [|done]. destruct (SliceState.can_write _ _ _ _ _) as [w|].
  - destruct (match w with Overlap => _ | _ => false end); [by apply Hc|]. destruct (newer || _); [by apply Hc|].
    destruct (_ && _); [by apply Hc|]. done.
  - destruct (_ && _); [|by apply Hc]. pose proof (freeze_harmless cfg cfg_ok s MaxUnflushed (Hh r s Es)) as Hfr.
    destruct (SliceHandle.freeze_with_reason cfg MaxUnflushed 0 s) as [froze s']. cbn [snd] in Hfr. apply Hc.
    + apply map_Forall_insert_2; [apply Hfr|done].
    + intros q t E. destruct (decide (q = r)) as [->|Hne]; [|rewrite lookup_insert_ne in E by done; by apply Hid].
      rewrite lookup_insert_eq in E. injection E as <-. eauto.
Qed.

Lemma try_write_cases s off buf origin : slice_inv s -> 0 <= off -> off + zlen buf <= cs ->
  SliceHandle.try_write cfg s off buf origin None = (Ok false, s) \/
  exists s', SliceHandle.try_write cfg s off buf origin None = (Ok true, s') /\ state s = Writable /\
    forall x, covers s' x = true -> covers s x = true \/ off <= x < off + zlen buf.
Proof.
  intros Hs Ho Hc. destruct (SliceState.can_write cfg s off (zlen buf) None) as [action|] eqn:Hcan.
  2: { left. unfold SliceHandle.try_write. by rewrite Hcan. }
  right. pose proof (can_write_spec cfg s off (zlen buf) action Hs Ho ltac:(lia) Hc Hcan) as (Hw & Hle & Hd & Hgap).
  unfold SliceHandle.try_write, SliceState.write. rewrite Hcan. pose proof (si_range _ _ Hs).
  destruct (write_ok cfg cfg_ok (data s) (off - offset s) buf false action) as (d & -> & Hput); [apply Hs|lia|lia|done| |].
  { intros x Hx. apply (si_thawed _ _ Hs); [done|lia]. }
  eexists. split_and!; [done..|]. intros x. rewrite !covers_spec. cbn [offset data set_write_origin_mask set_data]. rewrite (pt_len _ _ _ _ _ Hput).
  unfold CacheSlice.can_write_with_gap, CacheSlice.can_append, CacheSlice.can_write_at, u64_saturating_add in Hgap.
  pose proof (cs_u64 cfg cfg_ok). rewrite Z.min_r in Hgap by u64_lia.
  destruct (Z.eqb_spec (len (data s)) (off - offset s)); [lia|]. destruct (Z.leb_spec (off - offset s + zlen buf) (len (data s))); [lia|done].
Qed.

(** A slice outside the flush grows by positions of [W]. *)
Lemma flushing_grow (C : list nat) (W : Z -> Prop) r s s' (b : Buffer) : flushing C W b -> heap b !! r = Some s -> state s = Writable ->
  (forall x, covers s' x = true -> covers s x = true \/ W x) -> flushing C W (update r (fun _ => s') b).
Proof using Type.
  intros (H1 & H2 & H3) Hs Hw Hg. assert (r ∉ C) as Hr by (intros Hin; by apply (H2 r s)). split_and!; [done|..].
  - intros q t Hq Et. cbn in Et. rewrite lookup_alter_ne in Et by congruence. by apply (H2 q t).
  - intros q t x Hq Hqc Et Hx. rewrite queue_update in Hq. cbn in Et. destruct (decide (q = r)) as [->|Hne].
    + rewrite lookup_alter_eq, Hs in Et. injection Et as <-. destruct (Hg x Hx); [|done]. by apply (H3 r s x).
    + rewrite lookup_alter_ne in Et by congruence. by apply (H3 q t x).
Qed.

Lemma flushing_find (C : list nat) (W : Z -> Prop) off n unique ord b m : inv b m -> 0 <= off -> 0 <= n -> off + n <= cs -> flushing C W b ->
  let b' := (find_slice_or_create cfg off n unique ord None b).2 in
  flushing C W b' /\ map_Forall (fun _ s => slice_inv s) (heap b') /\ data_epoch b' = 0.
Proof using cfg_ok mode.
  intros Hi Ho Hn Hc Hf. pose proof (iv_base _ _ Hi) as Hb.
  assert (map_Forall (fun _ s => slice_inv s) (heap b)) as Hsi by (intros r s Es; by apply (ba_slice _ Hb r s)). pose proof (ba_epoch _ Hb) as He.
  unfold find_slice_or_create. destruct (chunk b) as [c|] eqn:Hch; [|done]. rewrite (proj2 (Z.leb_le _ _) Hc), He. cbn [negb].
  pose proof (scan_harmless off n unique None (recently_committed c) (reverse (slices c)) 0 false (heap b) [] Hsi) as Hs.
  destruct (scan _ _ _ _ _ _ _ _ _ _ _ _) as [[found h] flush].
  assert (map_Forall (fun _ s => slice_inv s) h) as Hsi'.
  { intros r t Et. destruct (Hs r t Et) as (s & _ & Hh). apply Hh. }
  assert (queue b = slices c) as Eq by (unfold queue; by rewrite Hch).
  assert (footing C W h (slices c) (next_ref b)) as Hf1.
  { eapply footing_calm; [exact Hf|done|by rewrite Eq|]. intros r s' Er. destruct (Hs r s' Er) as (s & ? & ?). eauto using harmless_calm. }
  destruct found as [r|]; cbn [alloc snd].
  - destruct (unique =? 0); [done|]. set (f := fun t : SliceState => if max_write_unique t <? unique then set_max_write_unique unique t else t).
    assert (forall t, slice_inv t -> harmless cfg t (f t)) as Hu
      by (intros t Ht; subst f; cbn; destruct (_ <? _); [by apply set_unique_harmless|by apply harmless_refl]). clearbody f.
    assert (forall q t', alter f r h !! q = Some t' -> exists t, h !! q = Some t /\ harmless cfg t t') as Ha.
    { intros q t' [(<- & t & Et & ->)|(_ & Et)]%lookup_alter_Some; [exists t; split; [done|]; apply Hu; by apply (Hsi' r)|].
      exists t'. split; [done|]. apply harmless_refl. by apply (Hsi' q). }
    split_and!; [|by intros q t' (t & _ & Hh)%Ha; apply Hh|done]. eapply footing_calm; [exact Hf1|done|done|]. intros q t' (t & ? & ?)%Ha. eauto using harmless_calm.
  - split_and!; [| |done].
    + eapply (flushing_enqueue C W h (slices c) (next_ref b)); [done| |done| |].
      * destruct (h !! next_ref b) as [t|] eqn:En; [|done]. destruct (Hs _ _ En) as (t' & Et & _). pose proof (ba_fresh _ Hb (next_ref b) ltac:(eauto)). lia.
      * intros q Hq. change (q ∈ insert_slice (heap (alloc (set_write_order ord (SliceState.new cfg off unique)) (set_heap h b)).2) ord (next_ref b) (slices c)) in Hq.
        rewrite insert_slice_perm, elem_of_cons in Hq. done.
      * intros x Hx%covers_spec. cbn in Hx. lia.
    + apply map_Forall_insert_2; [|done]. pose proof (new_inv cfg cfg_ok off unique ltac:(lia)) as Hnew. destruct Hnew; by constructor.
Qed.

Lemma flushing_spawns (C : list nat) (W : Z -> Prop) flush : forall b : Buffer, flushing C W b -> flushing C W (foldl (fun b r => spawn_flush_slice r b) b flush).
Proof using Type. induction flush as [|r flush IH]; intros b Hb; [done|]. cbn. by apply IH, flushing_set. Qed.

Lemma flushing_chunk_write (C : list nat) (W : Z -> Prop) off buf unique ord origin b m : inv b m -> 0 <= off -> off + zlen buf <= cs ->
  (forall x, off <= x < off + zlen buf -> W x) -> flushing C W b -> flushing C W (chunk_write_at cfg off buf unique ord origin None b).2.
Proof using cfg_ok mode.
  intros Hi Ho Hc Hw Hf. unfold chunk_write_at. pose proof (flushing_find C W off (zlen buf) unique ord b m Hi Ho ltac:(lia) Hc Hf) as Hn.
  destruct (find_slice_or_create _ _ _ _ _ _ _) as [[[[r start] flush]|e] b1]; cbn [snd] in Hn; destruct Hn as (Hf1 & Hsi & He); [|done].
  destruct (heap b1 !! r) as [s|] eqn:Hs; [|done]. destruct (try_write_cases s off buf origin (Hsi r s Hs) Ho Hc) as [->|(s' & -> & Hwr & Hcov)]; [done|].
  assert (forall t, calm s' t -> flushing C W (update r (fun _ => t) b1)) as Hg.
  { intros t Ht. apply (flushing_grow C W r s); [done..|]. intros x Hx. rewrite (calm_covers s' t x Ht) in Hx. destruct (Hcov x Hx); auto. }
  assert (calm s' (if SliceHandle.should_freeze cfg s' then SliceHandle.freeze_with_reason cfg SizeOrChunkEnd (data_epoch b1) s' else (false, s')).2) as Hfz
    by (destruct (SliceHandle.should_freeze _ _); [apply freeze_calm|done]).
  destruct (if SliceHandle.should_freeze cfg s' then _ else _) as [froze s'']. cbn [snd] in Hfz.
  destruct (writeback_mode cfg), origin; try destruct (SliceHandle.can_continue_upload cfg s'); cbn [snd]; apply Hg; done || apply calm_refl.
Qed.

Lemma flushing_write (C : list nat) (W : Z -> Prop) off buf unique origin b m : inv b m -> 0 <= off -> off + zlen buf <= cs ->
  (forall x, off <= x < off + zlen buf -> W x) -> flushing C W b -> flushing C W (write_at_inner cfg off buf unique origin b).2.
Proof using cfg_ok mode.
  intros Hi Ho Hc Hw Hf. pose proof (iv_base _ _ Hi) as Hb. pose proof (ba_order _ Hb). unfold write_at_inner. rewrite (ba_error _ Hb). cbn [next_write_order]. unfold write_ordered.
  set (b1 := get_or_create_chunk (set_order (order b + 1) b)). assert (inv b1 m) as Hi1 by (apply (inv_get_or_create cfg cfg_ok), (inv_order cfg cfg_ok); [done|lia]).
  assert (flushing C W b1) as Hf1.
  { subst b1. unfold get_or_create_chunk. destruct (chunk _); [done|]. eapply footing_calm; [exact Hf|done|by intros q ?%elem_of_nil|eauto using calm_refl]. }
  pose proof (flushing_chunk_write C W off buf unique (order b + 1) origin b1 m Hi1 Ho Hc Hw Hf1) as H2.
  destruct (chunk_write_at _ _ _ _ _ _ _ _) as [[[start flush]|e] b2]; [|done]. cbn [snd] in *. apply (flushing_spawns C W flush) in H2. by destruct start.
Qed.

(** ** Runs *)

(** The positions the writes of a run touch. *)
Definition touches (l : list Event) (x : Z) : bool :=
  existsb (fun e => match e with Write off buf _ _ => in_range x (off, off + zlen buf) | _ => false end) l.

Lemma flushing_step (C : list nat) (W : Z -> Prop) e b m : inv b m -> orderly cfg b e -> error (step cfg write_back chunk_id schedule b e) = false ->
  (forall x, touches [e] x = true -> W x) -> flushing C W b -> flushing C W (step cfg write_back chunk_id schedule b e).
Proof using cfg_ok mode schedule_perm.
  intros Hi Ho He Hw Hf. destruct e; cbn [step orderly] in *; try done.
  - destruct Ho as [Ho Hc]. eapply flushing_write; try done. intros x Hx. apply Hw. cbn. rewrite orb_false_r. by apply in_range_spec.
  - unfold write_gated. by destruct (error b).
  - by apply flushing_freeze.
  - by eapply flushing_coalesce.
  - apply flushing_set; [|done]. intros s. unfold SliceHandle.set_slice_id_once. by destruct (slice_id s).
  - by apply flushing_dispatch.
  - by eapply flushing_finish.
  - unfold end_upload_task in *. destruct (heap b !! r); [|done]. destruct (_ && _); [by apply flushing_set|done].
  - by apply flushing_try_commit.
  - by rewrite mode, bool_decide_true.
  - by eapply flushing_commit_chunk.
  - unfold restart_commit_task. destruct (chunk b) as [c|] eqn:Hc; [|done]. destruct (_ && _); [|done].
    eapply footing_calm; [exact Hf|done| |eauto using calm_refl]. intros q. unfold queue. by rewrite Hc.
  - by apply flushing_drain.
Qed.

Lemma flushing_run (C : list nat) (W : Z -> Prop) l : forall b m, inv b m -> orderly_run cfg write_back chunk_id schedule b l ->
  error (run cfg write_back chunk_id schedule b l) = false -> (forall x, touches l x = true -> W x) -> flushing C W b ->
  flushing C W (run cfg write_back chunk_id schedule b l).
Proof using cfg_ok mode schedule_perm.
  induction l as [|e l IH]; intros b m Hi Ho He Hw Hf; [done|]. destruct Ho as [Ho Hr]. change (run cfg write_back chunk_id schedule b (e :: l)) with (run cfg write_back chunk_id schedule (step cfg write_back chunk_id schedule b e) l) in *.
  assert (error (step cfg write_back chunk_id schedule b e) = false) as He1.
  { apply not_true_is_false. intros Ht. apply (run_error cfg write_back chunk_id schedule l) in Ht. congruence. }
  eapply IH; [by eapply step_ok|done|done| |].
  - intros x Hx. apply Hw. unfold touches in *. cbn. by rewrite Hx, orb_true_r.
  - eapply flushing_step; try done. intros x Hx. apply Hw. unfold touches in *. cbn in *. rewrite orb_false_r in Hx. by rewrite Hx.
Qed.

Lemma freeze_not_writable reason e s : state (SliceHandle.freeze_with_reason cfg reason e s).2 <> Writable.
Proof using Type.
  unfold SliceHandle.freeze_with_reason, is_writable. case_bool_decide as Hw; cbn [negb]; [|done]. destruct (_ =? 0); [done|]. cbn zeta. by destruct (_ && _).
Qed.

Lemma queue_freeze r reason (b : Buffer) : queue (freeze_slice cfg r reason b) = queue b.
Proof using Type. unfold freeze_slice. destruct (heap b !! r); [|done]. by destruct (SliceHandle.freeze_with_reason _ _ _ _) as [[] ?]. Qed.

Lemma freeze_seals C (W : Z -> Prop) r reason (b : Buffer) : (r < next_ref b)%nat -> flushing C W b -> flushing (C ++ [r]) W (freeze_slice cfg r reason b).
Proof using Type.
  intros Hr Hf. pose proof (flushing_freeze cfg C W r reason b Hf) as (H1 & H2 & H3). split_and!.
  - intros q [Hq| ->%list_elem_of_singleton]%elem_of_app; [by apply H1|]. unfold freeze_slice. destruct (heap b !! r); [|done].
    by destruct (SliceHandle.freeze_with_reason _ _ _ _) as [[] ?].
  - intros q s [Hq| ->%list_elem_of_singleton]%elem_of_app Hs; [by apply (H2 q s)|]. unfold freeze_slice in Hs. destruct (heap b !! r) as [t|] eqn:Et; [|congruence].
    pose proof (freeze_not_writable reason (data_epoch b) t) as Hn. destruct (SliceHandle.freeze_with_reason _ _ _ _) as [[] t']; cbn in Hs, Hn;
      rewrite ?lookup_alter_eq, Et in Hs; cbn in Hs; by injection Hs as <-.
  - intros q s x Hq Hqc. apply H3; [done|]. intros Hin. apply Hqc, elem_of_app. by left.
Qed.

Lemma freeze_all (W : Z -> Prop) reason l : forall C b m, inv b m -> (forall r, r ∈ l -> (r < next_ref b)%nat) -> flushing C W b ->
  let b' := foldl (fun b r => freeze_slice cfg r reason b) b l in inv b' m /\ queue b' = queue b /\ flushing (C ++ l) W b'.
Proof.
  induction l as [|r l IH]; intros C b m Hi Hl Hf; [by rewrite app_nil_r|]. cbn [foldl].
  assert (next_ref (freeze_slice cfg r reason b) = next_ref b) as En.
  { unfold freeze_slice. destruct (heap b !! r); [|done]. by destruct (SliceHandle.freeze_with_reason _ _ _ _) as [[] ?]. }
  destruct (IH (C ++ [r]) (freeze_slice cfg r reason b) m) as (I1 & I2 & I3).
  - by apply freeze_slice_ok.
  - intros q Hq. rewrite En. apply Hl. by right.
  - apply freeze_seals; [apply Hl; by left|done].
  - rewrite queue_freeze in I2. by rewrite <-app_assoc in I3.
Qed.

(** What a flush collects is all the queue holds. *)
Lemma flush_begin_ok b m : inv b m -> let '(captured, b') := flush_begin cfg b in inv b' m /\ flushing captured (fun _ => False) b'.
Proof.
  intros Hi. unfold flush_begin. pose proof (coalesce_ok cfg cfg_ok chunk_id b m Hi) as Hi1. set (b1 := coalesce_cached_slices_before_explicit_flush cfg b) in *. clearbody b1.
  cbv zeta. destruct (freeze_all (fun _ => True) ExplicitFlush (queue b1) [] b1 m Hi1) as (H1 & H2 & H3).
  - intros r Hr. apply (ba_fresh _ (iv_base _ _ Hi1)). by apply (ba_live _ (iv_base _ _ Hi1)).
  - split_and!; [by intros r ?%elem_of_nil|by intros r s ?%elem_of_nil|done].
  - split; [done|]. destruct H3 as (F1 & F2 & _). split_and!; [done..|]. intros r s x Hr. by rewrite H2 in Hr.
Qed.

(** Once the collected slices are committed, what the queue still covers was
    written since. *)
Lemma flush_done_ok captured W b m x : inv b m -> flushing captured W b -> flush_done captured b = true -> 0 <= x < cs -> ~ W x ->
  chunk_byte layout (store b) (published b) x = Some (m x).
Proof.
  intros Hi Hf Hd Hx Hn. rewrite (iv_view _ _ Hi x Hx). assert (forall r s, r ∈ queue b -> heap b !! r = Some s -> covers s x = true -> state s = Committed) as Hcov.
  { intros r s Hr Hs Hc. destruct (decide (r ∈ captured)) as [Hin|Hout]; [|destruct Hf as (_ & _ & H3); destruct Hn; by apply (H3 r s x)].
    unfold flush_done in Hd. rewrite forallb_forall in Hd. specialize (Hd r ltac:(by apply list_elem_of_In)). apply bool_decide_eq_true in Hd.
    rewrite Hs in Hd. by injection Hd. }
  destruct (queue b) as [|r rest] eqn:Eq; [unfold queued; by rewrite Eq|].
  destruct (ba_live _ (iv_base _ _ Hi) r) as [s Hs]; [rewrite Eq; by left|].
  assert (queued b = s :: omap (fun q => heap b !! q) rest) as Eqd by (unfold queued; rewrite Eq; cbn; by rewrite Hs). rewrite Eqd. cbn [top].
  assert (top cfg (omap (fun q => heap b !! q) rest) x = None) as ->.
  { apply (top_None cfg_ok). intros t (q & Hq & Ht)%list_elem_of_omap. apply not_true_is_false. intros Hcv.
    pose proof (iv_behind _ _ Hi q t) as Hz. rewrite Eq in Hz. specialize (Hz Hq Ht (Hcov q t ltac:(by right) Ht Hcv)). apply covers_spec in Hcv. lia. }
  destruct (covers s x) eqn:Hcv; [|done]. eapply (front_published cfg cfg_ok chunk_id b m r s); try done; [by rewrite Eq|]. apply (Hcov r s); [by left|done..].
Qed.

Lemma untouched l x : forall m : Z -> byte, touches l x = false -> foldl written m l x = m x.
Proof using Type.
  induction l as [|e l IH]; intros m Ht; [done|]. cbn in Ht |- *. apply orb_false_iff in Ht as [Ht1 Ht2]. rewrite IH by done. destruct e; try done. cbn.
  unfold put_bytes. by rewrite Ht1.
Qed.


End run.

(** Two slices are collected; while they are uploaded and published, a write
    lands on the tail of the first and goes to a slice of its own. *)
Definition f_before : list Event :=
  [ Write 0 [Byte.x01; Byte.x02; Byte.x03; Byte.x04; Byte.x05] 0 Normal; Write 8 [Byte.x21] 0 Cached ].
Definition f_task : Event := Task_ 0 (w_choice MetaOk).
Definition f_after : list Event :=
  [ AssignId 0 5; Dispatch 0; Write 4 [Byte.x11; Byte.x12] 0 Normal; FinishBatch 0; f_task; f_task; f_task; f_task; f_task; f_task;
    AssignId 1 6; Dispatch 1; FinishBatch 0; f_task; f_task; f_task ].
Definition f_flush := flush_begin small_config (run small_config false 7 (fun us => us) (fresh [] InMemory.new) f_before).
Definition f_end := run small_config false 7 (fun us => us) f_flush.2 f_after.

