(* ===== verification/WriteRaces.v ===== *)
(** Interleavings of the write buffer that WriteReads leaves out, and what they do
    to acknowledged writes: runs of the model, evaluated. *)
From stdpp Require Import options.
From S2P Require Import Prelude Span Intervals Slices BlockStore Reader Writer PageCache WriteBuffer WriteInv WriteView WriteReads.

Abbreviation Store := InMemory.InMemoryBlockStore.

(** ** Lost writes *)
Section races.
Context (cfg : WriteConfig).

Definition run_step (b : Buffer Store) (e : Event) : Buffer Store := step cfg false 7 (fun us => us) b e.
Definition run_events (l : list Event) : Buffer Store := run cfg false 7 (fun us => us) (fresh [] InMemory.new) l.

(** Every write of the run is answered with success. *)
Definition answered (b : Buffer Store) (e : Event) : bool :=
  match e with
  | Write off buf unique origin => match (write_at_inner cfg off buf unique origin b).1 with Ok n => n =? zlen buf | Err _ => false end
  | Released ord off buf => match (write_released cfg ord off buf b).1 with Ok n => bool_decide (ord ∈ gated b) && (n =? zlen buf) | Err _ => false end
  | _ => true
  end.
Fixpoint acknowledged (b : Buffer Store) (l : list Event) : bool :=
  match l with [] => true | e :: l => answered b e && acknowledged (run_step b e) l end.

(** The content of the chunk, which was empty, after the writes in the order in
    which they were answered. *)
Definition answered_content (l : list Event) : Z -> byte :=
  foldl (fun m e => match e with Write off buf _ _ | Released _ off buf => put_bytes m off buf | _ => m end) (fun _ => Byte.x00) l.

(** Nothing is left to do for the chunk. *)
Definition settled (b : Buffer Store) : bool :=
  bool_decide (queue b = []) && bool_decide (batches b = []) && bool_decide (gated b = []) &&
  forallb (fun t => match pc t with Ended => true | _ => false end) (tasks b).

(** A commit task stands where the queue was empty, but it no longer is. *)
Definition overtaken (b : Buffer Store) (e : Event) : bool :=
  match e with
  | Task_ i _ => match pc <$> tasks b !! i with Some SawEmpty => negb (bool_decide (queue b = [])) | _ => false end
  | _ => false
  end.
Fixpoint some_overtaken (b : Buffer Store) (l : list Event) : bool :=
  match l with [] => false | e :: l => overtaken b e || some_overtaken (run_step b e) l end.

End races.

Definition done_ : Choice := mkChoice MetaOk true false false false.

(** A slice is written, uploaded, published and taken off the queue; the commit
    task sees the queue empty; a second write is taken; the task removes the
    chunk. *)
Definition drained_run : list Event :=
  [ Write 0 [Byte.x01; Byte.x02; Byte.x03] 0 Normal; Freeze 0 Auto; AssignId 0 5; Dispatch 0; FinishBatch 0; EndUploadTask 0;
    Task_ 0 done_; Task_ 0 done_; Task_ 0 done_; Task_ 0 done_; Write 8 [Byte.x11; Byte.x12] 0 Normal; Task_ 0 done_ ].


(** A write takes its order and waits for a flush; a cached write comes after it
    and its slice is published; the waiting write is released and goes to the
    front of the queue just before the commit task takes the front off.  Two
    seconds later the recently committed slices are dropped. *)
Definition gated_run : list Event :=
  [ TakeOrder; Write 0 [Byte.x01; Byte.x02; Byte.x03] 0 Cached; Freeze 0 ExplicitFlush; AssignId 0 5; Dispatch 0; FinishBatch 0; EndUploadTask 0;
    Task_ 0 done_; Task_ 0 done_; Released 1 8 [Byte.x11; Byte.x12]; Task_ 0 done_; Task_ 0 done_; Task_ 0 done_; Task_ 0 done_;
    Task_ 0 done_; Task_ 0 done_; Drain (fun _ => true) (fun _ => false) ].


(** The other mode: a slice is published before its upload, a second slice over
    the same bytes is uploaded and published first. *)
Definition early_config : WriteConfig :=
  mkWriteConfig (layout small_config) (page_size small_config) (freeze_min_bytes small_config) CommitBeforeUpload
    (cached_block_assembler small_config) false false.
Definition early_run : list Event :=
  [ Write 0 [Byte.x01; Byte.x02; Byte.x03] 0 Normal; Freeze 0 Auto; AssignId 0 5; Task_ 0 done_; Task_ 0 done_; Task_ 0 done_;
    Write 0 [Byte.x11; Byte.x12; Byte.x13] 0 Normal; Freeze 1 Auto; AssignId 1 6; Dispatch 1; FinishBatch 0; EndUploadTask 1;
    Task_ 0 done_; Task_ 0 done_; Task_ 0 done_ ].


(** ** A claim that is never given up *)
Section claim.
Context (cfg : WriteConfig) (write_back : bool) (chunk_id : Z).
Context {S : Type} `{!BlockStore S}.
Context (schedule : list (nat * Upload) -> list (nat * Upload)).
#[local] Abbreviation Buffer := (Buffer S).

(** A slice whose publication was claimed and which is not stale. *)
Definition claimed_slice (epoch : Z) (s : SliceState) : Prop :=
  meta_write_started s = true /\ (state s = Uploaded \/ state s = Failed) /\
  (frozen_epoch s = 0 \/ frozen_epoch s = epoch).
Definition claimed (r : nat) (b : Buffer) : Prop :=
  (exists s, heap b !! r = Some s /\ claimed_slice (data_epoch b) s) /\ (r < next_ref b)%nat.

Lemma claimed_update r q f (b : Buffer) :
  claimed r b -> (forall s, heap b !! q = Some s -> claimed_slice (data_epoch b) s -> claimed_slice (data_epoch b) (f s)) -> claimed r (update q f b).
Proof using Type.
  intros [(s & E & Hs) Hn] Hf. split; [|done]. cbn. destruct (decide (q = r)) as [->|Hq].
  - exists (f s). rewrite lookup_alter_eq, E. eauto.
  - exists s. by rewrite lookup_alter_ne.
Qed.

Lemma claimed_alloc r s (b : Buffer) : claimed r b -> claimed r (alloc s b).2.
Proof using Type. intros [(t & E & Ht) Hn]. split; [exists t; cbn; rewrite lookup_insert_ne by lia; done|cbn; lia]. Qed.

Lemma claimed_fail r q (b : Buffer) : claimed r b -> claimed r (fail q b).
Proof using Type. intros Hb. apply (claimed_update r q SliceHandle.mark_failed b Hb). intros s _ (H1 & _ & H3). split_and!; cbn; auto. Qed.

(** What leaves the claim, the state and the epoch alone leaves the claim. *)
Lemma claimed_like e s s' :
  meta_write_started s' = meta_write_started s -> state s' = state s -> frozen_epoch s' = frozen_epoch s -> claimed_slice e s -> claimed_slice e s'.
Proof using Type. unfold claimed_slice. by intros -> -> ->. Qed.

Lemma claimed_not_writable e s : claimed_slice e s -> is_writable s = false.
Proof using Type. intros (_ & [H|H] & _); unfold is_writable; by rewrite H. Qed.

Lemma claimed_not_stale r s (b : Buffer) : heap b !! r = Some s -> claimed r b -> claimed_slice (data_epoch b) s /\ stale s b = false.
Proof using Type.
  intros E [(t & E' & Ht) _]. assert (t = s) as -> by congruence. split; [done|]. destruct Ht as (_ & _ & Hf). unfold stale.
  destruct Hf as [->| ->]; [done|]. rewrite Z.eqb_refl. by rewrite andb_false_r.
Qed.

(** A slice that is stale or not claimed is another slice. *)
Lemma claimed_other r q s (b : Buffer) : heap b !! q = Some s -> claimed r b ->
  forall f, stale s b = true \/ meta_write_started s = false -> claimed r (update q f b).
Proof using Type.
  intros E Hb f Hw. destruct (decide (q = r)) as [->|Hq].
  - destruct (claimed_not_stale r s b E Hb) as [(Hm & _) Hs]. destruct Hw; congruence.
  - destruct Hb as [(t & Et & Ht) Hn]. split; [exists t|done]. cbn. by rewrite lookup_alter_ne.
Qed.

Lemma claimed_frozen reason e s : claimed_slice e s -> SliceHandle.freeze_with_reason cfg reason e s = (false, s).
Proof using Type. intros H. unfold SliceHandle.freeze_with_reason. by rewrite (claimed_not_writable e s H). Qed.

Lemma claimed_advance e start stop s : claimed_slice e s -> claimed_slice e (SliceHandle.advance_upload_range cfg start stop s).
Proof using Type.
  intros Hs. unfold SliceHandle.advance_upload_range. set (s1 := set_uploaded _ _).
  assert (claimed_slice e s1) as H1 by by apply (claimed_like e s).
  assert (forall t, claimed_slice e t -> claimed_slice e (SliceHandle.clear_recent_pending_if_complete cfg t)) as Hc.
  { intros t Ht. unfold SliceHandle.clear_recent_pending_if_complete. destruct (_ && _); [by apply (claimed_like e t)|done]. }
  apply Hc. clearbody s1. assert (claimed_slice e (set_err false (set_state Uploaded s1))) as H2 by (destruct H1 as (? & _ & ?); split_and!; cbn; auto).
  destruct (state s1); try done; by destruct (_ && _).
Qed.

Lemma claimed_prepare e s : claimed_slice e s -> claimed_slice e (SliceHandle.prepare_upload cfg s).2.
Proof using Type.
  intros H. unfold SliceHandle.prepare_upload. destruct (bool_decide _); [done|]. destruct (negb _); [done|].
  destruct (SliceState.idx_need_upload cfg s) as [start stop]. destruct (stop <=? start); [done|].
  destruct (CacheSlice.collect_pages _ _ _ _); by apply (claimed_like e s).
Qed.

Lemma claimed_scan e r off n unique gap recent rs : forall idx newer h flush,
  (exists s, h !! r = Some s /\ claimed_slice e s) ->
  exists s, (scan cfg off n unique gap recent e rs idx newer h flush).1.2 !! r = Some s /\ claimed_slice e s.
Proof using Type.
  induction rs as [|q rs IH]; intros idx newer h flush Hh; [done|]. cbn [scan]. destruct (h !! q) as [s|] eqn:E; [|done].
  destruct (SliceState.can_write _ _ _ _ _) as [w|].
  - destruct (match w with Overlap => _ | _ => false end); [by apply IH|]. destruct (newer || _); [by apply IH|].
    destruct (_ && _); [by apply IH|done].
  - destruct (_ && _); [|auto]. destruct (SliceHandle.freeze_with_reason cfg MaxUnflushed e s) as [froze s'] eqn:F. apply IH.
    destruct Hh as (t & Et & Ht). destruct (decide (q = r)) as [->|Hq]; [|exists t; by rewrite lookup_insert_ne].
    assert (t = s) as -> by congruence. rewrite (claimed_frozen MaxUnflushed e s Ht) in F. simplify_eq. exists s'. by rewrite lookup_insert_eq.
Qed.

(** *** No operation gives the claim up *)

Lemma claimed_like_update r q f (b : Buffer) :
  (forall s, meta_write_started (f s) = meta_write_started s /\ state (f s) = state s /\ frozen_epoch (f s) = frozen_epoch s) ->
  claimed r b -> claimed r (update q f b).
Proof using Type. intros Hf Hb. apply (claimed_update r q f b Hb). intros s _ Hs. destruct (Hf s) as (? & ? & ?). by apply (claimed_like _ s). Qed.

Lemma claimed_spawns r flush : forall b : Buffer, claimed r b -> claimed r (foldl (fun b q => spawn_flush_slice q b) b flush).
Proof using Type. induction flush as [|q flush IH]; intros b Hb; [done|]. cbn. apply IH. by apply claimed_like_update. Qed.

Lemma claimed_find r off n unique ord gap (b : Buffer) : claimed r b -> claimed r (find_slice_or_create cfg off n unique ord gap b).2.
Proof using Type.
  intros Hb. unfold find_slice_or_create. destruct (chunk b) as [c|]; [|done]. destruct (negb _); [done|]. destruct Hb as [Hs Hn].
  pose proof (claimed_scan (data_epoch b) r off n unique gap (recently_committed c) (reverse (slices c)) 0 false (heap b) [] Hs) as Hh.
  destruct (scan _ _ _ _ _ _ _ _ _ _ _ _) as [[found h] flush]. cbn [fst snd] in Hh. assert (claimed r (set_heap h b)) as H1 by done.
  destruct found as [q|].
  - destruct (unique =? 0); [done|]. cbn [snd]. apply (claimed_like_update r q (fun s => if max_write_unique s <? unique then set_max_write_unique unique s else s) _); [|done].
    intros s. by destruct (_ <? _).
  - apply (claimed_alloc r (set_write_order ord (SliceState.new cfg off unique)) _ H1).
Qed.

Lemma claimed_try_write e s off buf origin gap : claimed_slice e s -> SliceHandle.try_write cfg s off buf origin gap = (Ok false, s).
Proof using Type. intros Hs. unfold SliceHandle.try_write, SliceState.can_write. by rewrite (claimed_not_writable e s Hs). Qed.

Lemma claimed_write_at r off buf unique ord origin gap (b : Buffer) :
  claimed r b -> claimed r (chunk_write_at cfg off buf unique ord origin gap b).2.
Proof using Type.
  intros Hb. unfold chunk_write_at. pose proof (claimed_find r off (zlen buf) unique ord gap b Hb) as Hf.
  destruct (find_slice_or_create _ _ _ _ _ _ _) as [[[[q start] flush]|e] b1]; [|done]. cbn [snd] in Hf.
  destruct (heap b1 !! q) as [s|] eqn:E; [|done].
  destruct (SliceHandle.try_write cfg s off buf origin gap) as [res s'] eqn:W.
  assert (forall t, claimed r (update q (fun _ => t) b1) \/ res = Ok false) as Ht.
  { intros t. assert (res = Ok false \/ res <> Ok false) as [Hr|Hr] by (destruct res as [[]|]; naive_solver); [by right|left]. apply (claimed_update r q (fun _ => t) b1 Hf). intros s0 E0 Hs.
    assert (s0 = s) as -> by congruence. rewrite (claimed_try_write _ s off buf origin gap Hs) in W. congruence. }
  destruct res as [[]|]; [|done|by destruct (Ht s')].
  destruct (if SliceHandle.should_freeze cfg s' then _ else _) as [froze s2].
  destruct (match writeback_mode cfg with UploadBeforeCommit => _ | CommitBeforeUpload => _ end) as [fl s3]. by destruct (Ht s3).
Qed.

Lemma claimed_write r off buf unique ord origin (b : Buffer) : claimed r b -> claimed r (write_ordered cfg off buf unique ord origin b).2.
Proof using Type.
  intros Hb. unfold write_ordered. assert (claimed r (get_or_create_chunk b)) as Hg by (unfold get_or_create_chunk; by destruct (chunk b)).
  pose proof (claimed_write_at r off buf unique ord origin None _ Hg) as Hw.
  destruct (chunk_write_at _ _ _ _ _ _ _ _) as [[[start flush]|e] b1]; [|done]. cbn [snd] in *.
  pose proof (claimed_spawns r flush b1 Hw) as Hs. by destruct start.
Qed.

Lemma claimed_coalesce r fuel : forall b : Buffer, claimed r b -> claimed r (coalesce_loop cfg fuel b).
Proof using Type.
  induction fuel as [|fuel IH]; intros b Hb; [done|]. cbn [coalesce_loop]. unfold coalesce_one_cached_slice_run.
  destruct (chunk b); [|done]. destruct (find_cached_coalesce_run _ _ _); [|done]. destruct (_ <? 2)%nat; [done|].
  destruct (build_coalesced_cached_slice _ _) as [merged|]; [|done]. apply IH, (claimed_alloc r merged b Hb).
Qed.

Lemma claimed_freeze r q reason (b : Buffer) : claimed r b -> claimed r (freeze_slice cfg q reason b).
Proof using Type.
  intros Hb. unfold freeze_slice. destruct (heap b !! q) as [s|] eqn:E; [|done].
  destruct (SliceHandle.freeze_with_reason cfg reason (data_epoch b) s) as [froze s'] eqn:F.
  assert (claimed r (update q (fun _ => s') b)) as Hu.
  { apply (claimed_update r q (fun _ => s') b Hb). intros s0 E0 Hs. assert (s0 = s) as -> by congruence.
    rewrite (claimed_frozen reason _ s Hs) in F. by simplify_eq. }
  destruct froze; [by apply claimed_like_update|done].
Qed.

Lemma claimed_dispatch r q (b : Buffer) : claimed r b -> claimed r (dispatch cfg q b).
Proof using Type.
  intros Hb. unfold dispatch. destruct (heap b !! q) as [s|] eqn:E; [|done]. destruct (slice_id s); [|done]. destruct (negb _); [done|].
  destruct (SliceHandle.prepare_upload cfg s) as [res s'] eqn:F.
  assert (claimed r (update q (fun _ => s') b)) as Hu.
  { apply (claimed_update r q (fun _ => s') b Hb). intros s0 E0 Hs. assert (s0 = s) as -> by congruence.
    pose proof (claimed_prepare _ s Hs) as Hp. by rewrite F in Hp. }
  destruct res as [[[[start stop] plan]|]|]; [done|done|by apply claimed_fail].
Qed.

Lemma claimed_split r q (b : Buffer) : claimed r b -> claimed r (split_uploaded_prefix_tail cfg q b).
Proof using Type.
  intros Hb. unfold split_uploaded_prefix_tail. destruct (bool_decide _); [done|]. destruct (negb _); [done|].
  destruct (chunk b) as [c|]; [|done]. destruct (heap b !! q) as [s|] eqn:E; [|done]. destruct (negb (is_front _ _)); [done|].
  destruct (negb (is_writable s) || _ || _ || _) eqn:Hg; [done|]. cbv zeta. destruct ((_ =? 0) || _ || _ || _); [done|]. destruct (block_size _ <=? _); [done|].
  destruct (CacheSlice.copy_into _ _ _ _) as [tl|]; [|done]. destruct (negb (zlen tl =? _)); [done|]. set (new := set_write_order _ _).
  destruct (CacheSlice.append _ _ _) as [[?|?] td]; [|done]. destruct (CacheSlice.truncate _ _ _) as [[?|?] d]; [|done].
  assert (claimed r (update q (fun s => set_state Uploaded (set_data d s)) b)) as Hu.
  { apply (claimed_update r q _ b Hb). intros s0 E0 Hs. assert (s0 = s) as -> by congruence.
    rewrite (claimed_not_writable _ s Hs) in Hg. done. }
  pose proof (claimed_alloc r (set_data td new) _ Hu) as Ha. cbn [alloc snd] in Ha |- *. by destruct (slices c).
Qed.

Lemma claimed_finish r k (b : Buffer) : claimed r b -> claimed r (finish_batch cfg schedule k b).
Proof using Type.
  intros Hb. unfold finish_batch. destruct (batches b !! k) as [t|]; [|done]. destruct (upload_attempts _ _ _ _ _) as [[] st].
  - apply claimed_split, (claimed_update r (bt_slice t)); [done|]. intros s _. apply claimed_advance.
  - by apply claimed_fail.
Qed.

Lemma claimed_try_commit r q outs (b : Buffer) : claimed r b -> claimed r (try_commit chunk_id q outs b).
Proof using Type.
  intros Hb. unfold try_commit. destruct (heap b !! q) as [s|] eqn:E; [|done]. destruct (negb _); [done|].
  destruct (SliceHandle.desc_for_commit _ _) as [d|]; [|done].
  pose proof (claimed_other r q s b E Hb) as Hu.
  destruct (stale s b); [apply Hu; by left|]. destruct (meta_write_started s); [done|]. destruct (negb _); [done|].
  destruct (commit_attempts _ _ _ _ _) as [[] l]; cbn zeta; [apply Hu; by right..|]. apply claimed_fail, Hu; by right.
Qed.

Lemma claimed_seal r q ok (b : Buffer) : claimed r b -> claimed r (seal_writeback_record_if_ready write_back q ok b).2.
Proof using Type.
  intros Hb. unfold seal_writeback_record_if_ready. destruct (negb write_back); [done|].
  destruct (heap b !! q ≫= SliceHandle.claim_writeback_record_seal) as [s'|] eqn:F; [|done].
  apply bind_Some in F as (s & E & F). unfold SliceHandle.claim_writeback_record_seal in F.
  destruct (_ || _ || _ || _); [done|]. destruct (slice_id s); [|done]. injection F as <-.
  assert (forall t, meta_write_started t = meta_write_started s -> state t = state s -> frozen_epoch t = frozen_epoch s -> claimed r (update q (fun _ => t) b)) as Hu.
  { intros t H1 H2 H3. apply (claimed_update r q (fun _ => t) b Hb). intros s0 E0. assert (s0 = s) as -> by congruence. by apply claimed_like. }
  destruct ok; [by apply Hu|]. apply claimed_fail. by apply Hu.
Qed.

Lemma claimed_before_upload r q ok out (b : Buffer) :
  claimed r b -> claimed r (try_commit_before_upload_front cfg write_back chunk_id q ok out b).2.
Proof using Type.
  intros Hb. unfold try_commit_before_upload_front. destruct (bool_decide _); [done|]. destruct (heap b !! q) as [s|] eqn:E; [|done].
  destruct (is_writable s || _); [done|]. destruct (SliceHandle.desc_for_commit _ _) as [d|]; [|done].
  destruct (stale s b) eqn:Hst.
  { apply (claimed_update r q SliceHandle.mark_committed b Hb). intros s0 E0 Hs. assert (s0 = s) as -> by congruence.
    assert (stale s b = false) as Hs' by (destruct Hs as (_ & _ & [Hf|Hf]); unfold stale; rewrite Hf, ?Z.eqb_refl, ?andb_false_r; done). congruence. }
  pose proof (claimed_seal r q ok b Hb) as Hs. destruct (seal_writeback_record_if_ready _ _ _ _) as [[] b1]; [|done]. cbn [snd] in Hs.
  destruct (heap b1 !! q) as [s1|] eqn:E1; [|done]. destruct (negb _); [done|]. destruct (meta_write_started s1) eqn:Hm; [done|].
  destruct out; [|done]. apply (claimed_update r q (fun s => SliceHandle.mark_committed (set_meta_write_started true s)) b1 Hs).
  intros s0 E0 (H1 & _). congruence.
Qed.

Lemma claimed_keep r q (b : Buffer) : claimed r b -> claimed r (keep_recently_committed_if_overlay_needed cfg q b).
Proof using Type.
  intros Hb. unfold keep_recently_committed_if_overlay_needed. destruct (heap b !! q); [|done].
  destruct (SliceState.can_overlay_read _ _); [done|]. by apply claimed_like_update.
Qed.

Lemma claimed_drop r (b : Buffer) : claimed r b -> claimed r (drop_if_empty b).2.
Proof using Type. intros Hb. unfold drop_if_empty. destruct (chunk b); [|done]. by destruct (_ && _). Qed.

Lemma claimed_spawn_if_idle r q (b : Buffer) : claimed r b -> claimed r (spawn_if_idle cfg q b).
Proof using Type.
  intros Hb. unfold spawn_if_idle. destruct (heap b !! q); [|done]. destruct (SliceHandle.can_continue_upload _ _); [|done]. by apply claimed_like_update.
Qed.

Lemma claimed_wait r i n q ch s (b : Buffer) :
  heap b !! q = Some s -> claimed r b -> claimed r (wait_for_upload cfg write_back chunk_id i n q ch s b).
Proof using Type.
  intros E Hb. unfold wait_for_upload. pose proof (claimed_before_upload r q (ch_seal_ok ch) (ch_meta ch) b Hb) as Hu.
  destruct (try_commit_before_upload_front _ _ _ _ _ _ _) as [[] b1]; cbn [snd] in Hu; [by apply (claimed_spawn_if_idle r q)|].
  destruct (negb _); [done|]. destruct (is_writable s) eqn:Hw.
  - assert (q <> r) as Hq.
    { intros ->. destruct (claimed_not_stale r s b E Hb) as [Hs _]. rewrite (claimed_not_writable _ s Hs) in Hw. done. }
    assert (forall t, claimed r (update q (fun _ => t) b1)) as Ht.
    { intros t. destruct Hu as [(u & Eu & Hu) Hn]. split; [exists u; cbn; by rewrite lookup_alter_ne|done]. }
    destruct (if ch_old ch then _ else _) as [froze s1]. destruct froze; [|apply Ht]. by apply (claimed_like_update r q (set_upload_task_active true)).
  - pose proof (claimed_spawn_if_idle r q b1 Hu) as Hs. destruct (ch_stalled ch); [by apply (claimed_fail r q)|done].
Qed.

Lemma claimed_publish r i n q ch s (b : Buffer) : heap b !! q = Some s -> claimed r b -> claimed r (publish_front chunk_id i n q ch s b).
Proof using Type.
  intros E Hb. unfold publish_front. destruct (err s); [done|].
  pose proof (claimed_other r q s b E Hb) as Hu.
  destruct (stale s b); [apply Hu; by left|]. destruct (meta_write_started s) eqn:Hm; [done|].
  assert (q <> r) as Hq by (intros ->; destruct (claimed_not_stale r s b E Hb) as [(? & _) _]; congruence).
  assert (claimed r (update q (set_meta_write_started true) b)) as H1 by (apply Hu; by right).
  destruct (SliceHandle.desc_for_commit _ _) as [d|]; [|done]. destruct (ch_meta ch) as [|applied retryable].
  - destruct H1 as [(t & Et & Ht) Hn]. split; [exists t|done]. cbn. by rewrite lookup_alter_ne.
  - destruct (_ || _); [by apply (claimed_fail r q)|done].
Qed.

Lemma claimed_commit_chunk r i ch (b : Buffer) : claimed r b -> claimed r (commit_chunk cfg write_back chunk_id i ch b).
Proof using Type.
  intros Hb. unfold commit_chunk. destruct (tasks b !! i) as [t|]; [|done]. destruct (pc t) as [| |q|q|q|]; [by destruct (chunk b)| | | | |done].
  - destruct (chunk b); [|done]. destruct (bool_decide _); [done|]. by destruct (bool_decide _).
  - pose proof (claimed_split r q b Hb) as Hs. set (b1 := split_uploaded_prefix_tail cfg q b) in *. clearbody b1. cbv zeta.
    destruct (heap b1 !! q) as [s|] eqn:E; [|done]. destruct (state s); try done; [by apply claimed_wait..|by apply claimed_publish].
  - destruct (bool_decide _); [destruct (queue b); [done|by apply (claimed_keep r n)]|]. unfold pop_front_slice.
    pose proof (claimed_drop r (on_chunk (fun c => set_slices (tail (slices c)) c) b) Hb) as Hd. by destruct (drop_if_empty _) as [[] b1].
  - unfold move_front_slice_to_recently_committed. apply (claimed_drop r). destruct (is_front q b); [by apply (claimed_keep r q)|done].
Qed.

Lemma claimed_fails r l : forall b : Buffer, claimed r b -> claimed r (foldl (fun b q => fail q b) b l).
Proof using Type. induction l as [|q l IH]; intros b Hb; [done|]. cbn. by apply IH, claimed_fail. Qed.

Lemma claimed_drain r aged expired (b : Buffer) : claimed r b -> claimed r (drain_recently_committed cfg aged expired b).
Proof using Type.
  intros Hb. unfold drain_recently_committed. destruct (chunk b); [|done]. by apply claimed_fails, (claimed_drop r).
Qed.

Lemma claimed_step r e (b : Buffer) : e <> BumpEpoch -> claimed r b -> claimed r (step cfg write_back chunk_id schedule b e).
Proof using Type.
  intros He Hb. destruct e; cbn [step]; try done.
  - unfold write_at_inner. destruct (error b); [done|]. by apply claimed_write.
  - unfold write_gated. by destruct (error b).
  - case_bool_decide; [|done]. unfold write_released. by apply claimed_write.
  - by apply claimed_freeze.
  - by apply claimed_coalesce.
  - apply claimed_like_update; [|done]. intros s. unfold SliceHandle.set_slice_id_once. by destruct (slice_id s).
  - by apply claimed_fail.
  - by apply claimed_dispatch.
  - by apply claimed_finish.
  - unfold end_upload_task. destruct (heap b !! r0); [|done]. destruct (_ && _); [by apply claimed_like_update|done].
  - by apply claimed_try_commit.
  - destruct (_ || _); [done|]. assert (claimed r (persist_stage r0 bytes b)) as Hp by (by apply claimed_like_update).
    pose proof (claimed_seal r r0 seal_ok _ Hp) as Hs. destruct (seal_writeback_record_if_ready _ _ _ _) as [[] b1]; [|done].
    unfold try_commit_before_upload_if_front. destruct (is_front r0 b1); [by apply claimed_before_upload|done].
  - by apply claimed_commit_chunk.
  - unfold restart_commit_task. destruct (chunk b); [|done]. by destruct (_ && _).
  - by apply claimed_drain.
Qed.


End claim.

(** The metadata service fails once with a transient error, then never again. *)
Definition transient_run : list Event :=
  [ Write 0 [Byte.x01; Byte.x02; Byte.x03] 0 Normal; Freeze 0 Auto; AssignId 0 5; Dispatch 0; FinishBatch 0; EndUploadTask 0;
    Task_ 0 done_; Task_ 0 (mkChoice (MetaErr false true) true false false false) ].
Definition retries : list Event := [ Task_ 0 done_; Task_ 0 done_; RestartTask; TryCommit 0 (fun _ => MetaOk); Task_ 0 done_ ].

