(* ===== verification/CachedWrites.v ===== *)
(** The kernel's write-back of cached pages ([write_at_cached] of
    [vfs/io/writer.rs]): the watermarks that keep an old page from overwriting a
    newer one, and the filter for zero pages of preallocated ranges.  Requests
    carry the kernel's sequence number and may arrive in any order. *)
From stdpp Require Import options.
From S2P Require Import Prelude Span Intervals PageCache WriteView.
Import Spans.

Record CachedWriteRange := mkRange { start : Z; stop : Z; max_unique : Z }.
Record CachedWriteSegment := mkSegment { file_offset : Z; buf_offset : Z; seg_len : Z }.

(** ** Watermarks of one chunk *)

Fixpoint windows {A} (l : list A) : list (A * A) :=
  match l with
  | a :: ((b :: _) as rest) => (a, b) :: windows rest
  | _ => []
  end.

(** [range.end <= start || range.start >= end]. *)
Definition apart (r : CachedWriteRange) (a z : Z) : bool := (stop r <=? a) || (z <=? start r).

(** The parts of a range outside [[a, z)]. *)
Definition outside (a z : Z) (r : CachedWriteRange) : list CachedWriteRange :=
  if apart r a z then [r] else
  (if start r <? a then [mkRange (start r) a (max_unique r)] else []) ++
  (if z <? stop r then [mkRange z (stop r) (max_unique r)] else []).

Definition range_leb (r q : CachedWriteRange) : bool :=
  (start r <? start q) || ((start r =? start q) && (stop r <=? stop q)).

(** The merging loop: empty ranges go, a range that continues the last one with
    the same number extends it. *)
Definition merge_push (merged : list CachedWriteRange) (r : CachedWriteRange) : list CachedWriteRange :=
  if stop r <=? start r then merged else
  match last merged with
  | Some q => if (stop q =? start r) && (max_unique q =? max_unique r)
              then removelast merged ++ [mkRange (start q) (stop r) (max_unique q)] else merged ++ [r]
  | None => merged ++ [r]
  end.

Definition boundaries (ranges : list CachedWriteRange) (a z : Z) : list Z :=
  dedup (sort_by_key (fun p => p)
    ([a; z] ++ flat_map (fun r => if apart r a z then [] else [Z.max (start r) a; Z.min (stop r) z]) ranges)).

Definition record_cached_write_watermark (ranges : list CachedWriteRange) (a z unique : Z) : list CachedWriteRange :=
  if (unique =? 0) || (z <=? a) then ranges else
  let segments := flat_map (fun '(seg_start, seg_end) =>
    if seg_end <=? seg_start then [] else
    [mkRange seg_start seg_end
       (foldl (fun m r => if (start r <? seg_end) && (seg_start <? stop r) then Z.max m (max_unique r) else m) unique ranges)])
    (windows (boundaries ranges a z)) in
  foldl merge_push [] (sort_by range_leb (flat_map (outside a z) ranges ++ segments)).

(** The parts of a write that no newer request overwrote. *)
Definition allowed_ranges (ranges : list CachedWriteRange) (off stop_ unique : Z) : list (Z * Z) :=
  foldl (fun ivs r => if unique <? max_unique r
                      then (Intervals.cut ivs (Z.max (start r) off) (Z.min (stop r) stop_)).1 else ivs)
    (Intervals.new off stop_) ranges.

(** ** Preallocated ranges of one chunk *)

Definition sparse_push (merged : list (Z * Z)) (r : Z * Z) : list (Z * Z) :=
  if r.2 <=? r.1 then merged else
  match last merged with
  | Some q => if r.1 <=? q.2 then removelast merged ++ [(q.1, Z.max q.2 r.2)] else merged ++ [r]
  | None => merged ++ [r]
  end.

Definition interval_leb (a b : Z * Z) : bool := (a.1 <? b.1) || ((a.1 =? b.1) && (a.2 <=? b.2)).

Definition record_sparse_range (ranges : list (Z * Z)) (a z : Z) : list (Z * Z) :=
  foldl sparse_push [] (sort_by interval_leb (ranges ++ [(a, z)])).

Definition sparse_subranges (ranges : list (Z * Z)) (a n : Z) : list (Z * Z) :=
  let z := u64_saturating_add a n in
  omap (fun r => let s := Z.max r.1 a in let e := Z.min r.2 z in if s <? e then Some (s, e) else None) ranges.

(** ** The file's writer *)

(** [Inner]'s two maps, by chunk id. *)
Record CachedState := mkCached { cached_write_watermarks : gmap Z (list CachedWriteRange);
                                 sparse_fallocate_ranges : gmap Z (list (Z * Z)) }.

Section file.
Context (layout : ChunkLayout) (ino : Z).

Definition allowed_cached_write_ranges_inner (chunk_id off n unique : Z) (st : CachedState) : list (Z * Z) * CachedState :=
  if n =? 0 then ([], st) else
  if unique =? 0 then ([(off, n)], st) else
  let ranges := default [] (cached_write_watermarks st !! chunk_id) in
  ((fun '(a, z) => (a, z - a)) <$> Intervals.collect (allowed_ranges ranges off (off + n) unique),
   mkCached (<[chunk_id := record_cached_write_watermark ranges off (off + n) unique]> (cached_write_watermarks st))
     (sparse_fallocate_ranges st)).

Definition record_sparse_fallocate_range (chunk_id a z : Z) (st : CachedState) : CachedState :=
  if z <=? a then st else
  mkCached (cached_write_watermarks st)
    (<[chunk_id := record_sparse_range (default [] (sparse_fallocate_ranges st !! chunk_id)) a z]> (sparse_fallocate_ranges st)).

Definition sparse_fallocate_subranges (chunk_id a n : Z) (st : CachedState) : list (Z * Z) :=
  sparse_subranges (default [] (sparse_fallocate_ranges st !! chunk_id)) a n.

(** The chunk ids of the spans, or the first error. *)
Fixpoint span_cids (spans : list (Span ChunkTag)) : result ChunkId.IdError (list (Span ChunkTag * Z)) :=
  match spans with
  | [] => Ok []
  | sp :: spans => let? cid := ChunkId.chunk_id_for ino (index sp) in let? rest := span_cids spans in Ok ((sp, cid) :: rest)
  end.

Definition record_sparse_fallocate (off n : Z) (st : CachedState) : result ChunkId.IdError unit * CachedState :=
  if n =? 0 then (Ok tt, st) else
  match span_cids (split_chunk_spans layout off n) with
  | Err e => (Err e, st)
  | Ok spans => (Ok tt, foldl (fun st '(sp, cid) => record_sparse_fallocate_range cid (offset sp) (offset sp + len sp) st) st spans)
  end.

Fixpoint allowed_loop (spans : list (Span ChunkTag * Z)) (at_ unique : Z) (st : CachedState) : list CachedWriteSegment * CachedState :=
  match spans with
  | [] => ([], st)
  | (sp, cid) :: spans =>
      let '(allowed, st) := allowed_cached_write_ranges_inner cid (offset sp) (len sp) unique st in
      let '(rest, st) := allowed_loop spans (at_ + len sp) unique st in
      (((fun '(a, n) => mkSegment (index sp * chunk_size layout + a) (at_ + (a - offset sp)) n) <$> allowed) ++ rest, st)
  end.

Definition allowed_cached_write_ranges (off n unique : Z) (st : CachedState) :
    result ChunkId.IdError (list CachedWriteSegment) * CachedState :=
  if n =? 0 then (Ok [], st) else
  if unique =? 0 then (Ok [mkSegment off 0 n], st) else
  match span_cids (split_chunk_spans layout off n) with
  | Err e => (Err e, st)
  | Ok spans => let '(segments, st) := allowed_loop spans 0 unique st in (Ok segments, st)
  end.

(** A piece is kept unless it is all zero. *)
Definition push_sparse_cached_segment_if_materialized (at_ boff n : Z) (buf : list byte) : list CachedWriteSegment :=
  if existsb (fun c => negb (bool_decide (c = Byte.x00))) (subrange buf boff n) then [mkSegment at_ boff n] else [].

(** The pieces of a span from [cursor] on: the gaps before, between and after
    the preallocated ranges, and the ranges. *)
Fixpoint sparse_pieces (sparse : list (Z * Z)) (sp : Span ChunkTag) (boff cursor : Z) (buf : list byte) : list CachedWriteSegment :=
  let piece a z := push_sparse_cached_segment_if_materialized (index sp * chunk_size layout + a) (boff + (a - offset sp)) (z - a) buf in
  match sparse with
  | [] => if cursor <? offset sp + len sp then piece cursor (offset sp + len sp) else []
  | (a, z) :: sparse => (if cursor <? a then piece cursor a else []) ++ piece a z ++ sparse_pieces sparse sp boff z buf
  end.

Fixpoint filter_spans (spans : list (Span ChunkTag)) (boff : Z) (buf : list byte) (st : CachedState) :
    result ChunkId.IdError (list CachedWriteSegment) :=
  match spans with
  | [] => Ok []
  | sp :: spans =>
      let? cid := ChunkId.chunk_id_for ino (index sp) in
      let sparse := sparse_fallocate_subranges cid (offset sp) (len sp) st in
      let out := if bool_decide (sparse = []) then [mkSegment (index sp * chunk_size layout + offset sp) boff (len sp)]
                 else sparse_pieces sparse sp boff (offset sp) buf in
      let? rest := filter_spans spans (boff + len sp) buf st in Ok (out ++ rest)
  end.

Fixpoint filter_sparse_fallocate_zero_segments (segments : list CachedWriteSegment) (buf : list byte) (st : CachedState) :
    result ChunkId.IdError (list CachedWriteSegment) :=
  match segments with
  | [] => Ok []
  | s :: segments =>
      let? out := filter_spans (split_chunk_spans layout (file_offset s) (seg_len s)) (buf_offset s) buf st in
      let? rest := filter_sparse_fallocate_zero_segments segments buf st in Ok (out ++ rest)
  end.

(** The answer, the writes passed to [write_at_inner] in order, and the state. *)
Definition write_at_cached (off : Z) (buf : list byte) (unique : Z) (st : CachedState) :
    result ChunkId.IdError (Z * list (Z * list byte)) * CachedState :=
  match allowed_cached_write_ranges off (zlen buf) unique st with
  | (Err e, st) => (Err e, st)
  | (Ok segments, st) =>
      ((let? segments := filter_sparse_fallocate_zero_segments segments buf st in
        Ok (zlen buf, (fun s => (file_offset s, subrange buf (buf_offset s) (seg_len s))) <$> segments)), st)
  end.

End file.

(** ** What the watermarks say *)

(** The highest number recorded for a position. *)
Definition watermark (ranges : list CachedWriteRange) (x : Z) : Z :=
  foldr (fun r m => if in_range x (start r, stop r) then Z.max (max_unique r) m else m) 0 ranges.

Lemma watermark_nil x : watermark [] x = 0.
Proof. done. Qed.
Lemma watermark_cons r l x : watermark (r :: l) x = if in_range x (start r, stop r) then Z.max (max_unique r) (watermark l x) else watermark l x.
Proof. done. Qed.

Lemma watermark_nonneg l x : 0 <= watermark l x.
Proof. induction l as [|r l IH]; [done|]. rewrite watermark_cons. destruct (in_range _ _); lia. Qed.

Lemma watermark_app l k x : watermark (l ++ k) x = Z.max (watermark l x) (watermark k x).
Proof.
  induction l as [|r l IH]; [by rewrite Z.max_r by apply watermark_nonneg|]. cbn [app]. rewrite !watermark_cons, IH. destruct (in_range _ _); lia.
Qed.

Lemma watermark_perm l k x : l ≡ₚ k -> watermark l x = watermark k x.
Proof.
  induction 1 as [|r l k _ IH|r q l|l1 l2 l3 _ IH1 _ IH2]; [done| | |congruence]; rewrite !watermark_cons; [by rewrite IH|].
  destruct (in_range x (start r, _)), (in_range x (start q, _)); lia.
Qed.

(** *** Merging *)

Definition proper (r : CachedWriteRange) : Prop := start r < stop r.

Lemma merge_push_ok l r x : Forall proper l ->
  Forall proper (merge_push l r) /\ watermark (merge_push l r) x = watermark (l ++ [r]) x.
Proof.
  intros Hl. unfold merge_push. destruct r as [a z u]. cbn [start stop max_unique]. destruct (Z.leb_spec z a) as [Hz|Hz].
  { split; [done|]. rewrite watermark_app, watermark_cons. cbn [start stop]. destruct (in_range_dec x a z) as [[? _]|[_ ->]]; [lia|].
    pose proof (watermark_nonneg l x). rewrite watermark_nil. lia. }
  assert (Forall proper (l ++ [mkRange a z u])) as Ha by (apply Forall_app; split; [done|by repeat constructor]).
  destruct (last l) as [[a' z' u']|] eqn:El; [|done]. cbn [start stop max_unique]. destruct ((z' =? a) && (u' =? u)) eqn:E; [|done].
  apply andb_true_iff in E as [->%Z.eqb_eq ->%Z.eqb_eq]. apply last_Some in El as [l' ->]. rewrite removelast_last.
  apply Forall_app in Hl as [Hl' Hq]. apply list.Forall_cons in Hq as [Hq _]. unfold proper in Hq. cbn in Hq. split.
  - apply Forall_app. split; [done|]. repeat constructor. unfold proper. cbn. lia.
  - rewrite !watermark_app, !watermark_cons, !watermark_nil. cbn [start stop max_unique].
    destruct (in_range_dec x a' z) as [[? ->]|[? ->]], (in_range_dec x a' a) as [[? ->]|[? ->]], (in_range_dec x a z) as [[? ->]|[? ->]]; lia.
Qed.

Lemma merge_ok l : forall acc x, Forall proper acc ->
  Forall proper (foldl merge_push acc l) /\ watermark (foldl merge_push acc l) x = watermark (acc ++ l) x.
Proof.
  induction l as [|r l IH]; intros acc x Ha; [by rewrite app_nil_r|]. cbn [foldl].
  destruct (merge_push_ok acc r x Ha) as [Hp Hw]. destruct (IH (merge_push acc r) x Hp) as [H1 H2]. split; [done|].
  rewrite H2, watermark_app, Hw, <-watermark_app, <-app_assoc. done.
Qed.

(** *** Splitting *)

Lemma outside_watermark a z ranges x : a < z ->
  watermark (flat_map (outside a z) ranges) x = if in_range x (a, z) then 0 else watermark ranges x.
Proof.
  intros Hz. induction ranges as [|[s e u] ranges IH]; [by destruct (in_range _ _)|]. cbn [flat_map]. rewrite watermark_app, IH, watermark_cons.
  pose proof (watermark_nonneg ranges x). unfold outside, apart. cbn [start stop max_unique].
  destruct (Z.leb_spec e a), (Z.leb_spec z s); cbn [orb]; [..|destruct (Z.ltb_spec s a), (Z.ltb_spec z e)];
    cbn [app]; rewrite ?watermark_cons, ?watermark_nil; cbn [start stop max_unique];
    repeat match goal with |- context [in_range x (?p, ?q)] => destruct (in_range_dec x p q) as [[? ->]|[? ->]] end; lia.
Qed.

(** The window of a sorted list that a position falls in. *)
Lemma windows_spec (f : Z -> Z -> Z) x l : StronglySorted Z.le l ->
  let segs := flat_map (fun '(s, e) => if e <=? s then [] else [mkRange s e (f s e)]) (windows l) in
  match head l, last l with
  | Some a, Some z =>
      if in_range x (a, z)
      then exists s e, s <= x < e /\ a <= s /\ e <= z /\ (forall p, p ∈ l -> p <= s \/ e <= p) /\ watermark segs x = Z.max (f s e) 0
      else watermark segs x = 0
  | _, _ => True
  end.
Proof.
  induction l as [|a [|b l] IH]; intros Hs; [done|..].
  - cbn. destruct (in_range_dec x a a) as [[? _]|[_ ->]]; [lia|done].
  - apply StronglySorted_inv in Hs as [Hs Hf]. specialize (IH Hs). cbv zeta in IH |- *. rewrite last_cons_cons.
    assert (forall p, p ∈ b :: l -> b <= p) as Hb.
    { intros p [->|Hp]%elem_of_cons; [lia|]. apply StronglySorted_inv in Hs as [_ Hs]. rewrite Forall_forall in Hs. by apply Hs. }
    assert (a <= b) as Hab by (inversion_clear Hf; lia). destruct (last (b :: l)) as [z|] eqn:El; [|by destruct (proj1 (last_None (b :: l)) El)].
    assert (b <= z) as Hbz by (apply Hb, last_Some_elem_of; done).
    change (windows (a :: b :: l)) with ((a, b) :: windows (b :: l)). cbn [flat_map head] in *. rewrite watermark_app.
    set (segs := watermark (flat_map _ (windows (b :: l))) x) in *.
    assert (watermark (if b <=? a then [] else [mkRange a b (f a b)]) x = if in_range x (a, b) then Z.max (f a b) 0 else 0) as ->.
    { destruct (Z.leb_spec b a); [|done]. destruct (in_range_dec x a b) as [[? _]|[_ ->]]; [lia|done]. }
    destruct (in_range_dec x b z) as [[Hx E]|[Hx E]]; rewrite E in IH.
    + destruct IH as (s & e & H1 & H2 & H3 & H4 & H5). rewrite (proj2 (in_range_spec x a z)) by lia.
      exists s, e. split_and!; [lia..| |].
      * intros p [->|Hp]%elem_of_cons; [left; lia|by apply H4].
      * destruct (in_range_dec x a b) as [[? _]|[_ ->]]; [lia|]. rewrite H5. lia.
    + rewrite IH. destruct (in_range_dec x a z) as [[Hz ->]|[Hz ->]], (in_range_dec x a b) as [[Hy ->]|[Hy ->]]; [|lia..].
      exists a, b. split_and!; [lia..| |lia]. intros p [->|Hp]%elem_of_cons; [left; lia|right; by apply Hb].
Qed.

Lemma sorted_head l a : StronglySorted Z.le l -> a ∈ l -> (forall p, p ∈ l -> a <= p) -> head l = Some a.
Proof.
  intros Hs Ha Hm. destruct l as [|b l]; [by apply not_elem_of_nil in Ha|]. cbn. f_equal.
  apply StronglySorted_inv in Hs as [_ Hf]. rewrite Forall_forall in Hf. apply Z.le_antisymm; [|apply Hm; by left].
  apply elem_of_cons in Ha as [->|Ha]; [lia|by apply Hf].
Qed.

Lemma sorted_last l z : StronglySorted Z.le l -> z ∈ l -> (forall p, p ∈ l -> p <= z) -> last l = Some z.
Proof.
  intros Hs Hz Hm. destruct (last l) as [b|] eqn:E; [|apply last_None in E; subst; by apply not_elem_of_nil in Hz]. f_equal.
  apply Z.le_antisymm; [by apply Hm, last_Some_elem_of|]. apply last_Some in E as [l' ->].
  apply elem_of_app in Hz as [Hz|[->|[]%not_elem_of_nil]%elem_of_cons]; [|done].
  apply list_elem_of_split in Hz as (l1 & l2 & ->). rewrite <-app_assoc in Hs. apply StronglySorted_app in Hs as (_ & _ & Hs).
  apply StronglySorted_inv in Hs as [_ Hf]. rewrite Forall_forall in Hf. apply Hf, elem_of_app. right. by left.
Qed.

Lemma boundaries_spec ranges a z : a < z ->
  let l := boundaries ranges a z in
  StronglySorted Z.le l /\ head l = Some a /\ last l = Some z /\
  (forall r, r ∈ ranges -> apart r a z = false -> Z.max (start r) a ∈ l /\ Z.min (stop r) z ∈ l).
Proof.
  intros Hz. cbv zeta. set (pts := flat_map (fun r => if apart r a z then [] else [Z.max (start r) a; Z.min (stop r) z]) ranges).
  assert (forall p, p ∈ boundaries ranges a z <-> p = a \/ p = z \/ p ∈ pts) as He.
  { intros p. unfold boundaries. rewrite dedup_elem, sort_by_key_perm. cbn [app]. rewrite !elem_of_cons. done. }
  assert (StronglySorted Z.le (boundaries ranges a z)) as Hs by apply dedup_sorted, sort_by_key_sorted.
  assert (forall r, r ∈ ranges -> apart r a z = false -> Z.max (start r) a ∈ pts /\ Z.min (stop r) z ∈ pts) as Hp.
  { intros r Hr Ha. subst pts. rewrite !list_elem_of_In, !in_flat_map.
    split; exists r; rewrite Ha; (split; [by apply list_elem_of_In|]); cbn; auto. }
  assert (forall p, p ∈ pts -> a <= p <= z) as Hb.
  { intros p. subst pts. rewrite list_elem_of_In, in_flat_map. intros (r & _ & Hin). unfold apart in Hin.
    destruct (Z.leb_spec (stop r) a), (Z.leb_spec z (start r)); cbn in Hin; lia. }
  split_and!; [done|apply sorted_head|apply sorted_last|intros r Hr Ha; rewrite !He; destruct (Hp r Hr Ha); auto]; try done;
    try (apply He; auto); intros p [->|[->|Hin%Hb]]%He; lia.
Qed.

Lemma overlap_fold ranges s e x : (forall r, r ∈ ranges -> (start r <? e) && (s <? stop r) = in_range x (start r, stop r)) -> forall u,
  0 <= u -> foldl (fun m r => if (start r <? e) && (s <? stop r) then Z.max m (max_unique r) else m) u ranges = Z.max u (watermark ranges x).
Proof.
  induction ranges as [|r ranges IH]; intros H u Hu; [rewrite watermark_nil; cbn; lia|]. cbn [foldl]. rewrite (H r) by (by left).
  assert (forall r, r ∈ ranges -> (start r <? e) && (s <? stop r) = in_range x (start r, stop r)) as H' by (intros q Hq; apply H; by right).
  rewrite watermark_cons. destruct (in_range _ _); rewrite IH by (done || lia); lia.
Qed.

(** Recording a write raises the watermark of its positions to its number. *)
Lemma record_watermark ranges a z u x : a < z -> 0 < u ->
  watermark (record_cached_write_watermark ranges a z u) x =
  if in_range x (a, z) then Z.max (watermark ranges x) u else watermark ranges x.
Proof.
  intros Hz Hu. unfold record_cached_write_watermark. rewrite (proj2 (Z.eqb_neq u 0)), (proj2 (Z.leb_gt z a)) by lia. cbn [orb].
  rewrite (proj2 (merge_ok _ [] x ltac:(constructor))). cbn [app]. rewrite (watermark_perm _ _ x (sort_by_perm _ _)), watermark_app.
  rewrite outside_watermark by done. destruct (boundaries_spec ranges a z Hz) as (Hs & Hh & Hl & Hb).
  pose proof (windows_spec (fun s e => foldl (fun m r => if (start r <? e) && (s <? stop r) then Z.max m (max_unique r) else m) u ranges) x _ Hs) as Hw.
  cbv zeta in Hw. rewrite Hh, Hl in Hw. pose proof (watermark_nonneg ranges x). destruct (in_range x (a, z)) eqn:Ex; [|rewrite Hw; lia].
  destruct Hw as (s & e & H1 & H2 & H3 & H4 & ->). rewrite (overlap_fold ranges s e x); [lia| |lia].
  intros r Hr. apply eq_true_iff_eq. rewrite in_range_spec, andb_true_iff, !Z.ltb_lt. split; [|lia]. intros [? ?].
  assert (apart r a z = false) as Ha by (unfold apart; lia). destruct (Hb r Hr Ha) as [[?|?]%H4 [?|?]%H4]; lia.
Qed.

Lemma record_proper ranges a z u : Forall proper ranges -> Forall proper (record_cached_write_watermark ranges a z u).
Proof.
  intros Hr. unfold record_cached_write_watermark. destruct (_ || _); [done|]. apply (proj1 (merge_ok _ [] 0 ltac:(constructor))).
Qed.

(** *** What a write may still touch *)

Lemma cut_apart ivs sl sr z lo : Intervals.ordered z lo ivs -> sr <= lo \/ z <= sl -> (Intervals.cut_loop ivs sl sr).2 = false.
Proof.
  induction 1 as [|lo l r ivs ? ? ? Ho IH]; intros Hd; [done|]. cbn. destruct (Intervals.cut_loop ivs sl sr) as [[rem cuts] t]. cbn in IH.
  destruct (Z.leb_spec r sl), (Z.leb_spec sr l); cbn; (apply IH || idtac); lia.
Qed.

Lemma cut_clipped ivs s e off z x : Intervals.ordered z off ivs -> s < e ->
  let ivs' := (Intervals.cut ivs (Z.max s off) (Z.min e z)).1 in
  (Intervals.covers ivs' x <-> Intervals.covers ivs x /\ ~ s <= x < e) /\ Intervals.ordered z off ivs'.
Proof.
  intros Ho Hse. cbv zeta.
  assert ((Intervals.cut ivs (Z.max s off) (Z.min e z)).1 = (Intervals.cut_loop ivs (Z.max s off) (Z.min e z)).1.1) as ->.
  { unfold Intervals.cut. pose proof (Intervals.cut_each_loop ivs (Z.max s off) (Z.min e z)) as <-. by destruct (Intervals.cut_each _ _ _) as [[? ?] ?]. }
  pose proof (Intervals.ordered_covers z off ivs x Ho) as Hc. destruct (Z.le_gt_cases (Z.max s off) (Z.min e z)) as [Hle|Hgt].
  - split; [|by apply Intervals.cut_loop_ordered]. rewrite (proj1 (Intervals.cut_loop_covers ivs _ _ x Hle)). intuition lia.
  - rewrite Intervals.cut_loop_untouched; cbn [fst].
    + split; [|done]. split; [intros H; specialize (Hc H); split; [done|lia]|tauto].
    + destruct ivs as [|[l r] ivs]; [done|]. apply (cut_apart _ _ _ z off); [done|]. inversion_clear Ho. lia.
Qed.

Lemma allowed_ranges_spec ranges off z u x : Forall proper ranges -> off <= z -> 0 <= u ->
  (Intervals.covers (allowed_ranges ranges off z u) x <-> off <= x < z /\ watermark ranges x <= u) /\
  Intervals.ordered z off (allowed_ranges ranges off z u).
Proof.
  intros Hr Hz Hu. unfold allowed_ranges.
  assert (forall ivs, Intervals.ordered z off ivs -> let ivs' := foldl (fun ivs r => if u <? max_unique r
      then (Intervals.cut ivs (Z.max (start r) off) (Z.min (stop r) z)).1 else ivs) ivs ranges in
    (Intervals.covers ivs' x <-> Intervals.covers ivs x /\ watermark ranges x <= u) /\ Intervals.ordered z off ivs') as H.
  { induction Hr as [|r ranges Hp Hr IH]; intros ivs Ho; cbv zeta; cbn [foldl]; [rewrite watermark_nil; split; [intuition lia|done]|].
    rewrite watermark_cons. destruct (Z.ltb_spec u (max_unique r)) as [Hlt|Hge].
    - destruct (cut_clipped ivs (start r) (stop r) off z x Ho Hp) as [Hc Ho']. destruct (IH _ Ho') as [IH1 IH2]. split; [|done].
      rewrite IH1, Hc. destruct (in_range_dec x (start r) (stop r)) as [[? ->]|[? ->]]; intuition lia.
    - destruct (IH _ Ho) as [IH1 IH2]. split; [|done]. rewrite IH1. destruct (in_range _ _); intuition lia. }
  destruct (H (Intervals.new off z)) as [H1 H2]; [repeat constructor; lia|]. split; [|done]. rewrite H1.
  unfold Intervals.new. rewrite Intervals.covers_cons, Intervals.covers_nil. intuition lia.
Qed.

(** ** The writer of a file *)

Definition marks_proper (st : CachedState) : Prop := map_Forall (fun _ l => Forall proper l) (cached_write_watermarks st).

Definition in_segments (l : list CachedWriteSegment) (x : Z) : Prop :=
  exists s, s ∈ l /\ file_offset s <= x < file_offset s + seg_len s.

(** Segments of [[p, p + n)] whose bytes start at [at_] of the buffer. *)
Definition placed_in (p n at_ : Z) (s : CachedWriteSegment) : Prop :=
  file_offset s - buf_offset s = p - at_ /\ p <= file_offset s /\ 0 <= seg_len s /\ file_offset s + seg_len s <= p + n.

Lemma in_segments_nil x : in_segments [] x <-> False.
Proof. unfold in_segments. set_solver. Qed.
Lemma in_segments_app l k x : in_segments (l ++ k) x <-> in_segments l x \/ in_segments k x.
Proof. unfold in_segments. set_solver. Qed.
Lemma in_segments_cons s l x : in_segments (s :: l) x <-> file_offset s <= x < file_offset s + seg_len s \/ in_segments l x.
Proof. unfold in_segments. set_solver. Qed.

Lemma placed_in_grow p n at_ p' n' at' s : p' <= p -> p + n <= p' + n' -> p - at_ = p' - at' -> placed_in p n at_ s -> placed_in p' n' at' s.
Proof. unfold placed_in. lia. Qed.

Lemma marks_lookup st id : marks_proper st -> Forall proper (default [] (cached_write_watermarks st !! id)).
Proof. intros H. destruct (cached_write_watermarks st !! id) eqn:E; [by apply (H id)|constructor]. Qed.

(** Intervals of a chunk as segments of the file. *)
Lemma intervals_segments z lo ivs base at_ off x : Intervals.ordered z lo ivs -> off <= lo ->
  let segs := (fun '(a, n) => mkSegment (base + a) (at_ + (a - off)) n) <$> ((fun '(a, z) => (a, z - a)) <$> ivs) in
  (in_segments segs x <-> Intervals.covers ivs (x - base)) /\ Forall (placed_in (base + off) (z - off) at_) segs.
Proof.
  intros Ho Hlo. induction Ho as [|lo l r ivs ? ? ? Ho IH]; cbv zeta; [rewrite in_segments_nil, Intervals.covers_nil; split; [done|constructor]|].
  destruct IH as [IH1 IH2]; [lia|]. cbn [fmap list_fmap]. split; [|constructor; [unfold placed_in; cbn; lia|done]].
  rewrite in_segments_cons, IH1, Intervals.covers_cons. cbn. intuition lia.
Qed.

Section file_proofs.
Context (layout : ChunkLayout) (layout_okay : layout_ok layout) (ino : Z).
#[local] Abbreviation cs := (chunk_size layout).

Definition chunk_of (x : Z) : Z := ino * ChunkId.CHUNK_ID_BASE + x / cs.

(** The watermark of a position of the file. *)
Definition file_mark (st : CachedState) (x : Z) : Z :=
  watermark (default [] (cached_write_watermarks st !! chunk_of x)) (x mod cs).

(** The positions of a span. *)
Lemma span_positions (sp : Span ChunkTag) x : 0 <= offset sp -> offset sp + len sp <= cs ->
  index sp * cs + offset sp <= x < index sp * cs + offset sp + len sp <-> x / cs = index sp /\ offset sp <= x mod cs < offset sp + len sp.
Proof using layout_okay.
  intros Ho Hl. pose proof (lo_block _ layout_okay). pose proof (lo_chunk _ layout_okay).
  pose proof (Z.div_mod x cs ltac:(lia)). pose proof (Z.mod_pos_bound x cs ltac:(lia)). split; [|nia].
  intros Hx. assert (x / cs = index sp) as E; [|nia]. symmetry. apply (Z.div_unique_pos x cs _ (x - index sp * cs)); lia.
Qed.

Lemma mod_of x : x mod cs = x - x / cs * cs.
Proof using layout_okay. pose proof (lo_block _ layout_okay). pose proof (lo_chunk _ layout_okay). pose proof (Z.div_mod x cs ltac:(lia)). lia. Qed.

Lemma allowed_inner_spec (sp : Span ChunkTag) at_ u st : 0 <= offset sp -> 0 < len sp -> offset sp + len sp <= cs -> 0 < u -> marks_proper st ->
  let p := index sp * cs + offset sp in
  let '(allowed, st') := allowed_cached_write_ranges_inner (ino * ChunkId.CHUNK_ID_BASE + index sp) (offset sp) (len sp) u st in
  let segs := (fun '(a, n) => mkSegment (index sp * cs + a) (at_ + (a - offset sp)) n) <$> allowed in
  (forall x, in_segments segs x <-> p <= x < p + len sp /\ file_mark st x <= u) /\
  Forall (placed_in p (len sp) at_) segs /\
  (forall x, file_mark st' x = if in_range x (p, p + len sp) then Z.max (file_mark st x) u else file_mark st x) /\
  marks_proper st' /\ sparse_fallocate_ranges st' = sparse_fallocate_ranges st.
Proof using layout_okay.
  intros Ho Hn Hl Hu Hst p. unfold allowed_cached_write_ranges_inner. rewrite (proj2 (Z.eqb_neq (len sp) 0)), (proj2 (Z.eqb_neq u 0)) by lia.
  set (cid := ino * ChunkId.CHUNK_ID_BASE + index sp). set (ranges := default [] (cached_write_watermarks st !! cid)).
  pose proof (marks_lookup st cid Hst) as Hp. fold ranges in Hp. unfold Intervals.collect.
  pose proof (fun x => allowed_ranges_spec ranges (offset sp) (offset sp + len sp) u x Hp ltac:(lia) ltac:(lia)) as Ha.
  assert (forall x, x / cs = index sp -> chunk_of x = cid) as Hc by (intros x E; unfold chunk_of, cid; by rewrite E).
  pose proof (fun x => intervals_segments _ _ _ (index sp * cs) at_ (offset sp) x (proj2 (Ha 0)) ltac:(lia)) as Hs. cbv zeta in Hs. split_and!.
  - intros x. rewrite (proj1 (Hs x)), (proj1 (Ha _)). subst p. split.
    + intros [Hx Hw]. assert (index sp * cs + offset sp <= x < index sp * cs + offset sp + len sp) as Hr by lia. split; [done|].
      apply span_positions in Hr as [E _]; [|done..]. unfold file_mark. rewrite (Hc x E), mod_of, E. done.
    + intros [Hr Hw]. split; [lia|]. apply span_positions in Hr as [E _]; [|done..]. unfold file_mark in Hw. by rewrite (Hc x E), mod_of, E in Hw.
  - destruct (Hs 0) as [_ H]. by replace (offset sp + len sp - offset sp) with (len sp) in H by lia.
  - intros x. unfold file_mark. cbn [cached_write_watermarks]. destruct (decide (x / cs = index sp)) as [E|E].
    + rewrite (Hc x E), lookup_insert_eq. cbn [default]. unfold from_option, id. rewrite record_watermark by lia. fold ranges.
      rewrite mod_of, E. destruct (in_range_dec x p (p + len sp)) as [[? ->]|[? ->]],
        (in_range_dec (x - index sp * cs) (offset sp) (offset sp + len sp)) as [[? ->]|[? ->]]; lia || done.
    + rewrite lookup_insert_ne by (unfold chunk_of, cid; lia). destruct (in_range_dec x p (p + len sp)) as [[Hr _]|[_ ->]]; [|done].
      by apply span_positions in Hr as [? _].
  - apply map_Forall_insert_2; [by apply record_proper|done].
  - done.
Qed.

Lemma allowed_loop_spec spans : forall p n at_ u st, tiles cs p n spans -> 0 < u -> marks_proper st ->
  let '(segs, st') := allowed_loop layout ((fun sp => (sp, ino * ChunkId.CHUNK_ID_BASE + index sp)) <$> spans) at_ u st in
  (forall x, in_segments segs x <-> p <= x < p + n /\ file_mark st x <= u) /\
  Forall (placed_in p n at_) segs /\
  (forall x, file_mark st' x = if in_range x (p, p + n) then Z.max (file_mark st x) u else file_mark st x) /\
  marks_proper st' /\ sparse_fallocate_ranges st' = sparse_fallocate_ranges st.
Proof using layout_okay.
  induction spans as [|sp spans IH]; intros p n at_ u st Ht Hu Hst.
  - inversion_clear Ht. cbn. split_and!; [|constructor| |done..].
    + intros x. rewrite in_segments_nil. lia.
    + intros x. by destruct (in_range_dec x p (p + 0)) as [[? _]|[_ ->]]; [lia|].
  - inversion Ht as [|? ? ? ? Hn Ho Hl Hp _ Ht']; subst. cbn [fmap list_fmap allowed_loop].
    pose proof (allowed_inner_spec sp at_ u st Ho Hn Hl Hu Hst) as Hi. cbv zeta in Hi. set (p := index sp * cs + offset sp) in *.
    destruct (allowed_cached_write_ranges_inner _ _ _ _ _) as [allowed st1]. destruct Hi as (H1 & H2 & H3 & H4 & H5).
    specialize (IH (p + len sp) (n - len sp) (at_ + len sp) u st1 Ht' Hu H4). change (list_fmap _ _ ?f ?l) with (f <$> l) in *.
    destruct (allowed_loop _ _ _ _ _) as [rest st2]. destruct IH as (I1 & I2 & I3 & I4 & I5).
    pose proof (tiles_nonneg _ _ _ _ Ht') as Hn'. split_and!; [| | |done|congruence].
    + intros x. rewrite in_segments_app, H1, I1, H3. destruct (in_range_dec x p (p + len sp)) as [[? ->]|[? ->]]; intuition lia.
    + apply Forall_app. split; (eapply Forall_impl; [eassumption|]); intros s; apply placed_in_grow; lia.
    + intros x. rewrite I3, H3. repeat match goal with |- context [in_range x (?a, ?b)] => destruct (in_range_dec x a b) as [[? ->]|[? ->]] end; lia.
Qed.

(** The chunk ids of a range exist. *)
Definition addressable (off n : Z) : Prop :=
  0 <= off /\ off + n < u64_modulus /\ 0 <= ino /\ ino * ChunkId.CHUNK_ID_BASE + (off + n) / cs < u64_modulus.

Lemma chunk_ids_exist p n (spans : list (Span ChunkTag)) : tiles cs p n spans -> addressable p n ->
  Forall (fun sp => ChunkId.chunk_id_for ino (index sp) = Ok (ino * ChunkId.CHUNK_ID_BASE + index sp)) spans.
Proof using layout_okay.
  pose proof (lo_block _ layout_okay). pose proof (lo_chunk _ layout_okay). intros Ht (Hp & _ & Hi & Hm).
  apply Forall_lookup. intros i sp Hsp. pose proof (tiles_spans_len _ _ _ _ Ht) as Hs.
  destruct (tiles_lookup _ _ _ _ _ _ Ht Hsp) as (H1 & H2 & H3 & H4). apply ChunkId.chunk_id_for_Ok.
  assert (0 <= spans_len (take i spans) /\ spans_len (take i spans) <= spans_len spans) as Hle.
  { clear -Ht. revert i. induction Ht as [|p n s l ? ? ? ? ? ? IH]; intros [|i]; cbn; [lia..| |].
    - specialize (IH 0%nat). rewrite take_0 in IH. cbn in IH. fold (@spans_len ChunkTag l). lia.
    - specialize (IH i). fold (@spans_len ChunkTag (take i l)). fold (@spans_len ChunkTag l). lia. }
  assert (index sp <= (p + n) / cs) by (apply Z.div_le_lower_bound; lia). assert (0 <= index sp) by nia.
  unfold ChunkId.CHUNK_ID_BASE in *. lia.
Qed.

Lemma span_cids_ok (spans : list (Span ChunkTag)) : Forall (fun sp => ChunkId.chunk_id_for ino (index sp) = Ok (ino * ChunkId.CHUNK_ID_BASE + index sp)) spans ->
  span_cids ino spans = Ok ((fun sp => (sp, ino * ChunkId.CHUNK_ID_BASE + index sp)) <$> spans).
Proof using Type. induction 1 as [|sp spans E _ IH]; [done|]. cbn. rewrite E. cbn. by rewrite IH. Qed.

(** *** The filter for preallocated ranges *)

(** A segment list keeps a position or its byte is zero. *)
Definition kept_or_zero (buf : list byte) (p at_ : Z) (out : list CachedWriteSegment) (x : Z) : Prop :=
  in_segments out x \/ byte_of buf (at_ + (x - p)) = Byte.x00.

Lemma materialized_spec base a z at_ off buf x : off <= a -> a <= z -> 0 <= at_ ->
  let out := push_sparse_cached_segment_if_materialized (base + a) (at_ + (a - off)) (z - a) buf in
  (base + a <= x < base + z -> kept_or_zero buf (base + off) at_ out x) /\ Forall (placed_in (base + off) (z - off) at_) out.
Proof using Type.
  intros Ha Hz Hat. unfold push_sparse_cached_segment_if_materialized, kept_or_zero. cbv zeta. destruct (existsb _ _) eqn:E.
  - split; [|repeat constructor; unfold placed_in; cbn; lia]. intros Hx. left. rewrite in_segments_cons. cbn. lia.
  - split; [|constructor]. intros Hx. right. unfold byte_of.
    destruct (buf !! Z.to_nat (at_ + (x - (base + off)))) as [c|] eqn:El; [|done]. cbn.
    assert (c ∈ subrange buf (at_ + (a - off)) (z - a)) as Hin.
    { apply list_elem_of_lookup. exists (Z.to_nat (x - (base + a))). rewrite lookup_subrange by lia. rewrite <-El. f_equal. lia. }
    destruct (decide (c = Byte.x00)) as [->|Hc]; [done|]. exfalso. apply not_true_iff_false in E. apply E, existsb_exists.
    exists c. split; [by apply list_elem_of_In|]. by rewrite bool_decide_eq_false_2.
Qed.

Lemma sparse_pieces_spec (sp : Span ChunkTag) at_ buf x sparse : forall cursor,
  let p := index sp * cs + offset sp in
  0 <= at_ -> offset sp <= cursor <= offset sp + len sp ->
  Forall (fun r => offset sp <= r.1 /\ r.1 < r.2 /\ r.2 <= offset sp + len sp) sparse ->
  let out := sparse_pieces layout sparse sp at_ cursor buf in
  (index sp * cs + cursor <= x < p + len sp -> kept_or_zero buf p at_ out x) /\ Forall (placed_in p (len sp) at_) out.
Proof using Type.
  induction sparse as [|[a z] sparse IH]; intros cursor p Hat Hc Hs out; subst out; cbn [sparse_pieces].
  - destruct (Z.ltb_spec cursor (offset sp + len sp)) as [Hlt|Hge]; [|split; [lia|constructor]].
    destruct (materialized_spec (index sp * cs) cursor (offset sp + len sp) at_ (offset sp) buf x ltac:(lia) ltac:(lia) Hat) as [H1 H2].
    split; [intros Hx; apply H1; lia|]. by replace (offset sp + len sp - offset sp) with (len sp) in H2 by lia.
  - apply list.Forall_cons in Hs as [Hr Hs]. cbn in Hr. specialize (IH z Hat ltac:(lia) Hs). cbv zeta in IH. destruct IH as [I1 I2].
    destruct (materialized_spec (index sp * cs) a z at_ (offset sp) buf x ltac:(lia) ltac:(lia) Hat) as [H1 H2]. fold p in H1, H2, I1, I2.
    set (gap := if cursor <? a then _ else _).
    assert ((index sp * cs + cursor <= x < index sp * cs + a -> kept_or_zero buf p at_ gap x) /\ Forall (placed_in p (len sp) at_) gap) as [G1 G2].
    { subst gap. destruct (Z.ltb_spec cursor a) as [Hlt|Hge]; [|split; [lia|constructor]].
      destruct (materialized_spec (index sp * cs) cursor a at_ (offset sp) buf x ltac:(lia) ltac:(lia) Hat) as [M1 M2]. fold p in M1, M2.
      split; [done|]. eapply Forall_impl; [exact M2|]. intros s. apply placed_in_grow; lia. }
    split.
    + intros Hx. unfold kept_or_zero in *. rewrite !in_segments_app.
      destruct (Z.lt_ge_cases x (index sp * cs + a)); [destruct G1; [lia|auto..]|]. destruct (Z.lt_ge_cases x (index sp * cs + z)); [destruct H1; [lia|auto..]|].
      destruct I1; [lia|auto..].
    + rewrite !Forall_app. split_and!; [done| |done]. eapply Forall_impl; [exact H2|]. intros s. apply placed_in_grow; lia.
Qed.

Lemma sparse_subranges_inside ranges a n : 0 <= a -> 0 <= n -> a + n < u64_modulus ->
  Forall (fun r => a <= r.1 /\ r.1 < r.2 /\ r.2 <= a + n) (sparse_subranges ranges a n).
Proof using Type.
  intros Ha Hn Hu. apply Forall_forall. intros r (q & _ & E)%list_elem_of_omap. unfold u64_saturating_add in E.
  destruct (Z.ltb_spec (Z.max q.1 a) (Z.min q.2 (Z.min u64_max (a + n)))); [|done]. injection E as <-. cbn. lia.
Qed.

(** Whether a preallocation was recorded for the chunk of a position. *)
Definition preallocated (st : CachedState) (x : Z) : Prop := default [] (sparse_fallocate_ranges st !! chunk_of x) <> [].

Lemma filter_spans_spec buf st x spans : forall p n at_, tiles cs p n spans -> 0 <= at_ ->
  Forall (fun sp => ChunkId.chunk_id_for ino (index sp) = Ok (ino * ChunkId.CHUNK_ID_BASE + index sp)) spans ->
  exists out, filter_spans layout ino spans at_ buf st = Ok out /\ Forall (placed_in p n at_) out /\
    (p <= x < p + n -> in_segments out x \/ preallocated st x /\ byte_of buf (at_ + (x - p)) = Byte.x00).
Proof using layout_okay.
  induction spans as [|sp spans IH]; intros p n at_ Ht Hat Hids.
  { inversion_clear Ht. exists []. split_and!; [done|constructor|lia]. }
  inversion Ht as [|? ? ? ? Hn Ho Hl Hp _ Ht']; subst. apply list.Forall_cons in Hids as [Hid Hids]. set (p := index sp * cs + offset sp) in *.
  destruct (IH (p + len sp) (n - len sp) (at_ + len sp) Ht' ltac:(lia) Hids) as (rest & E & H1 & H2).
  cbn [filter_spans]. rewrite Hid. cbn [result_bind]. rewrite E. cbn [result_bind]. pose proof (tiles_nonneg _ _ _ _ Ht').
  unfold sparse_fallocate_subranges. set (sparse := sparse_subranges _ _ _). set (out := if bool_decide (sparse = []) then _ else _).
  assert (Forall (placed_in p (len sp) at_) out /\
    (p <= x < p + len sp -> in_segments out x \/ preallocated st x /\ byte_of buf (at_ + (x - p)) = Byte.x00)) as [G1 G2].
  { subst out. case_bool_decide as Es.
    - split; [repeat constructor; unfold placed_in; cbn; lia|]. intros Hx. left. rewrite in_segments_cons. cbn. lia.
    - pose proof (lo_chunk _ layout_okay).
      assert (Forall (fun r => offset sp <= r.1 /\ r.1 < r.2 /\ r.2 <= offset sp + len sp) sparse) as Hs by (apply sparse_subranges_inside; lia).
      destruct (sparse_pieces_spec sp at_ buf x sparse (offset sp) Hat ltac:(lia) Hs) as [P1 P2]. split; [done|]. intros Hx.
      destruct (P1 Hx) as [|Hz]; [by left|right]. split; [|done]. unfold preallocated.
      apply span_positions in Hx as [Ei _]; [|done..]. unfold chunk_of. rewrite Ei. intros E0. subst sparse. by rewrite E0 in Es. }
  eexists. split_and!; [done| |].
  - apply Forall_app. split; (eapply Forall_impl; [eassumption|]); intros s; apply placed_in_grow; lia.
  - intros Hx. rewrite in_segments_app. destruct (Z.lt_ge_cases x (p + len sp)); [destruct G2; [lia|auto..]|].
    replace (at_ + (x - p)) with (at_ + len sp + (x - (p + len sp))) by lia. destruct H2; [lia|auto..].
Qed.

Lemma addressable_sub p n off k : addressable p n -> p <= off -> 0 <= k -> off + k <= p + n -> addressable off k.
Proof using layout_okay.
  pose proof (lo_block _ layout_okay). pose proof (lo_chunk _ layout_okay). intros (? & ? & ? & ?) ? ? ?.
  assert ((off + k) / cs <= (p + n) / cs) by (apply Z.div_le_mono; lia). unfold addressable. lia.
Qed.

Lemma filter_segments_spec buf st p n x segs : addressable p n -> Forall (placed_in p n 0) segs ->
  exists out, filter_sparse_fallocate_zero_segments layout ino segs buf st = Ok out /\ Forall (placed_in p n 0) out /\
    (in_segments out x -> in_segments segs x) /\
    (in_segments segs x -> in_segments out x \/ preallocated st x /\ byte_of buf (x - p) = Byte.x00).
Proof using layout_okay.
  intros Ha. induction 1 as [|s segs (P1 & P2 & P3 & P4) _ (rest & E & H1 & H2 & H3)].
  { exists []. split_and!; [done|constructor|done|by rewrite in_segments_nil]. }
  pose proof (addressable_sub p n (file_offset s) (seg_len s) Ha P2 P3 P4) as Hs. pose proof Hs as (Ho & Hu & _).
  pose proof (chunk_spans_tile layout (file_offset s) (seg_len s) layout_okay Ho P3 Hu) as Ht.
  destruct (filter_spans_spec buf st x _ _ _ (buf_offset s) Ht ltac:(lia) (chunk_ids_exist _ _ _ Ht Hs)) as (out & Eo & O1 & O2).
  cbn [filter_sparse_fallocate_zero_segments]. rewrite Eo, E. cbn [result_bind]. eexists. split_and!; [done| | |].
  - apply Forall_app. split; [|done]. eapply Forall_impl; [exact O1|]. intros q. apply placed_in_grow; lia.
  - rewrite in_segments_app, in_segments_cons. intros [(q & Hq & Hx)|Hr]; [left|by auto].
    rewrite Forall_forall in O1. destruct (O1 q Hq) as (_ & ? & ? & ?). lia.
  - rewrite in_segments_app, in_segments_cons. intros [Hx|Hr]; [|destruct (H3 Hr); auto].
    replace (x - p) with (buf_offset s + (x - file_offset s)) by lia. destruct (O2 Hx); auto.
Qed.

(** *** One request *)

Definition put_all (m : Z -> byte) (writes : list (Z * list byte)) : Z -> byte := foldl (fun m w => put_bytes m w.1 w.2) m writes.

Lemma put_segments off buf x segs : Forall (placed_in off (zlen buf) 0) segs -> forall m,
  let m' := put_all m ((fun s => (file_offset s, subrange buf (buf_offset s) (seg_len s))) <$> segs) in
  (in_segments segs x -> m' x = byte_of buf (x - off)) /\ (~ in_segments segs x -> m' x = m x).
Proof using Type.
  induction 1 as [|s segs (P1 & P2 & P3 & P4) _ IH]; intros m; cbv zeta; [by rewrite in_segments_nil|].
  change (put_all m _) with (put_all (put_bytes m (file_offset s) (subrange buf (buf_offset s) (seg_len s)))
    ((fun s => (file_offset s, subrange buf (buf_offset s) (seg_len s))) <$> segs)).
  set (m1 := put_bytes m _ _). destruct (IH m1) as [IH1 IH2]. rewrite in_segments_cons.
  assert (m1 x = if in_range x (file_offset s, file_offset s + seg_len s) then byte_of buf (x - off) else m x) as Hm.
  { subst m1. unfold put_bytes. rewrite length_subrange by lia.
    destruct (in_range_dec x (file_offset s) (file_offset s + seg_len s)) as [[? ->]|[? ->]]; [|done].
    unfold byte_of. rewrite lookup_subrange by lia. do 2 f_equal. lia. }
  assert (in_segments segs x \/ ~ in_segments segs x) as [Hs|Hs].
  { destruct (decide (Exists (fun s => file_offset s <= x < file_offset s + seg_len s) segs)) as [H|H]; rewrite list.Exists_exists in H; [by left|by right]. }
  - split; [by auto|tauto].
  - rewrite (IH2 Hs), Hm. destruct (in_range_dec x (file_offset s) (file_offset s + seg_len s)) as [[? ->]|[? ->]]; split; tauto.
Qed.

Lemma write_at_cached_spec off buf u st x : addressable off (zlen buf) -> 0 < u -> marks_proper st ->
  let hit := off <= x < off + zlen buf /\ file_mark st x <= u in
  exists writes st', write_at_cached layout ino off buf u st = (Ok (zlen buf, writes), st') /\
    marks_proper st' /\ sparse_fallocate_ranges st' = sparse_fallocate_ranges st /\
    file_mark st' x = (if in_range x (off, off + zlen buf) then Z.max (file_mark st x) u else file_mark st x) /\
    forall m, (~ hit -> put_all m writes x = m x) /\
      (hit -> put_all m writes x = byte_of buf (x - off) \/
              preallocated st x /\ byte_of buf (x - off) = Byte.x00 /\ put_all m writes x = m x).
Proof using layout_okay.
  intros Ha Hu Hst hit. pose proof Ha as (Ho & Hm & _). unfold write_at_cached, allowed_cached_write_ranges.
  destruct (Z.eqb_spec (zlen buf) 0) as [E0|E0].
  { exists [], st. split_and!; [done..| |].
    - rewrite E0. by destruct (in_range_dec x off (off + 0)) as [[? _]|[_ ->]]; [lia|].
    - intros m. split; [done|]. intros [? _]. lia. }
  rewrite (proj2 (Z.eqb_neq u 0)) by lia. pose proof (chunk_spans_tile layout off (zlen buf) layout_okay Ho ltac:(lia) Hm) as Ht.
  rewrite (span_cids_ok _ (chunk_ids_exist _ _ _ Ht Ha)). pose proof (allowed_loop_spec _ off (zlen buf) 0 u st Ht Hu Hst) as Hl.
  destruct (allowed_loop _ _ _ _ _) as [segs st']. destruct Hl as (L1 & L2 & L3 & L4 & L5).
  destruct (filter_segments_spec buf st' off (zlen buf) x segs Ha L2) as (out & Eo & F1 & F2 & F3). rewrite Eo. cbn [result_bind].
  eexists _, st'. split_and!; [done..|apply L3|]. intros m. destruct (put_segments off buf x out F1 m) as [P1 P2]. cbv zeta in P1, P2.
  unfold hit. rewrite <-L1. split; [intros Hx; apply P2; tauto|]. intros Hx. destruct (F3 Hx) as [Hi|[Hs Hz]]; [left; by apply P1|].
  assert (in_segments out x \/ ~ in_segments out x) as [Hi|Hi]; [|left; by apply P1|].
  { destruct (decide (Exists (fun s => file_offset s <= x < file_offset s + seg_len s) out)) as [H|H]; rewrite list.Exists_exists in H; [by left|by right]. }
  right. unfold preallocated in *. rewrite L5 in Hs. split_and!; [done..|by apply P2].
Qed.

(** *** Requests in any order *)

Record Request := mkRequest { q_off : Z; q_buf : list byte; q_unique : Z }.

(** The requests in the order of their arrival; [None] if one is not answered
    with its full length. *)
Fixpoint arrivals (l : list Request) (st : CachedState) (m : Z -> byte) : option (CachedState * (Z -> byte)) :=
  match l with
  | [] => Some (st, m)
  | q :: l => match write_at_cached layout ino (q_off q) (q_buf q) (q_unique q) st with
              | (Ok (n, writes), st) => if n =? zlen (q_buf q) then arrivals l st (put_all m writes) else None
              | (Err _, _) => None
              end
  end.

(** The number and the byte of the newest request for a position. *)
Definition newer (x : Z) (acc : Z * byte) (q : Request) : Z * byte :=
  if in_range x (q_off q, q_off q + zlen (q_buf q)) && (acc.1 <=? q_unique q) then (q_unique q, byte_of (q_buf q) (x - q_off q)) else acc.

Lemma newer_swap x acc a b : q_unique b < q_unique a -> newer x (newer x acc a) b = newer x (newer x acc b) a.
Proof using Type.
  intros H. destruct acc as [u c]. unfold newer. cbn [fst]. destruct (in_range x (q_off a, _)), (in_range x (q_off b, _)); cbn [andb];
    destruct (Z.leb_spec u (q_unique a)), (Z.leb_spec u (q_unique b)); cbn [fst andb];
    repeat match goal with |- context [?a <=? ?b] => destruct (Z.leb_spec a b) end; cbn; done || lia.
Qed.

Lemma newer_insert x a l : forall acc, foldl (newer x) acc (insert_by (fun a b => q_unique a <=? q_unique b) a l) = foldl (newer x) acc (a :: l).
Proof using Type.
  induction l as [|b l IH]; intros acc; [done|]. cbn [insert_by]. destruct (Z.leb_spec (q_unique a) (q_unique b)); [done|].
  cbn [foldl]. rewrite IH. cbn [foldl]. by rewrite (newer_swap x acc a b H).
Qed.

Lemma newer_sort x l : forall acc, foldl (newer x) acc (sort_by_key q_unique l) = foldl (newer x) acc l.
Proof using Type. induction l as [|a l IH]; intros acc; [done|]. cbn [sort_by_key sort_by foldr]. rewrite newer_insert. cbn [foldl]. apply IH. Qed.

Lemma newer_sorted x l : StronglySorted (fun a b => q_unique a <= q_unique b) l -> forall u m, Forall (fun q => u <= q_unique q) l ->
  (foldl (newer x) (u, m x) l).2 = foldl (fun m q => put_bytes m (q_off q) (q_buf q)) m l x.
Proof using Type.
  induction 1 as [|q l Hs IH Hf]; intros u m Hu; [done|]. apply list.Forall_cons in Hu as [Hq Hu]. cbn [foldl].
  set (m1 := put_bytes m (q_off q) (q_buf q)).
  assert (newer x (u, m x) q = (if in_range x (q_off q, q_off q + zlen (q_buf q)) then q_unique q else u, m1 x)) as ->.
  { unfold newer, m1, put_bytes. cbn [fst]. destruct (in_range _ _); [|done]. by rewrite (proj2 (Z.leb_le u (q_unique q))). }
  apply IH. destruct (in_range _ _); [done|done].
Qed.

Lemma arrivals_spec x l : forall st m, Forall (fun q => 0 < q_unique q /\ addressable (q_off q) (zlen (q_buf q))) l -> marks_proper st ->
  exists st' m', arrivals l st m = Some (st', m') /\
    (~ preallocated st x -> (file_mark st' x, m' x) = foldl (newer x) (file_mark st x, m x) l).
Proof using layout_okay.
  induction l as [|q l IH]; intros st m Hl Hst; [by exists st, m|]. apply list.Forall_cons in Hl as [[Hu Ha] Hl].
  destruct (write_at_cached_spec (q_off q) (q_buf q) (q_unique q) st x Ha Hu Hst) as (writes & st1 & E & H1 & H2 & H3 & H4).
  cbn [arrivals]. rewrite E, Z.eqb_refl. destruct (IH st1 (put_all m writes) Hl H1) as (st' & m' & E' & Hm).
  exists st', m'. split; [done|]. intros Hp. rewrite Hm by (unfold preallocated in *; by rewrite H2).
  cbn [foldl]. f_equal. unfold newer. cbn [fst]. rewrite H3. destruct (H4 m) as [W1 W2].
  destruct (in_range_dec x (q_off q) (q_off q + zlen (q_buf q))) as [[Hx ->]|[Hx ->]]; cbn [andb]; [|f_equal; apply W1; tauto].
  destruct (Z.leb_spec (file_mark st x) (q_unique q)) as [Hle|Hgt]; [|rewrite W1 by lia; f_equal; lia].
  destruct W2 as [->|[? _]]; [done|f_equal; lia|done].
Qed.


End file_proofs.


