(* ===== verification/TxnRun.v ===== *)
(** Reasoning about runs of the transaction monad: what a successful run of each
    construct says, and the tactics that split a run into its steps. *)
From stdpp Require Import options.
From S2P Require Import Prelude MetaTypes MetaTxn.

(** ** Steps *)

Lemma is_dir_spec k : is_dir k = true <-> k = Dir.
Proof. unfold is_dir. by rewrite bool_decide_eq_true. Qed.
Lemma is_dir_false k : is_dir k = false <-> k <> Dir.
Proof. unfold is_dir. by rewrite bool_decide_eq_false. Qed.

Lemma txn_bind_Ok {A B} (m : txn A) (k : A -> txn B) s b s' :
  txn_bind m k s = (Ok b, s') -> exists a s1, m s = (Ok a, s1) /\ k a s1 = (Ok b, s').
Proof. unfold txn_bind. destruct (m s) as [[a|e] s1]; [eauto|done]. Qed.
Lemma txn_ret_Ok {A} (a b : A) s s' : txn_ret a s = (Ok b, s') -> a = b /\ s' = s.
Proof. by intros [= -> ->]. Qed.
Lemma txn_err_Ok {A} e (b : A) s s' : txn_err e s = (Ok b, s') -> False.
Proof. done. Qed.
Lemma ok_or_Ok {A} e (o : option A) a s s' : ok_or e o s = (Ok a, s') -> o = Some a /\ s' = s.
Proof. destruct o; [by intros [= -> ->]|done]. Qed.
Lemma ensure_Ok b e u s s' : ensure b e s = (Ok u, s') -> b = true /\ s' = s.
Proof. destruct b; [by intros [= _ ->]|done]. Qed.
Lemma txn_read_Ok {A} (f : DB -> A) a s s' : txn_read f s = (Ok a, s') -> a = f (view s) /\ s' = s.
Proof. by intros [= <- <-]. Qed.
Lemma txn_write_Ok f u s s' : txn_write f s = (Ok u, s') ->
  s' = mkTxn (committed s) (f (view s)) (leases s).
Proof. by intros [= _ <-]. Qed.

Lemma if_read_Ok {A} (b : bool) (x : A) (f : DB -> A) a s s' :
  (if b then txn_ret x else txn_read f) s = (Ok a, s') -> a = (if b then x else f (view s)) /\ s' = s.
Proof. destruct b; by intros [= -> ->]. Qed.

Lemma bind_read {A B} (f : DB -> A) (k : A -> txn B) s :
  txn_bind (txn_read f) k s = k (f (view s)) s.
Proof. done. Qed.
Lemma bind_ok_or {A B} e (o : option A) (k : A -> txn B) s :
  txn_bind (ok_or e o) k s = match o with Some a => k a s | None => (Err e, s) end.
Proof. by destruct o. Qed.
Lemma bind_ensure {B} b e (k : unit -> txn B) s :
  txn_bind (ensure b e) k s = if b then k tt s else (Err e, s).
Proof. by destruct b. Qed.

(** Transactions that leave the committed state and the leases alone. *)
Definition local_txn {A} (m : txn A) : Prop :=
  forall s, committed (m s).2 = committed s /\ leases (m s).2 = leases s.

Lemma local_bind {A B} (m : txn A) (k : A -> txn B) :
  local_txn m -> (forall a, local_txn (k a)) -> local_txn (txn_bind m k).
Proof.
  intros Hm Hk s. unfold txn_bind. destruct (Hm s) as [H1 H2].
  destruct (m s) as [[a|e] s1]; cbn in *; [|done].
  destruct (Hk a s1) as [-> ->]. done.
Qed.
Lemma local_ret {A} (a : A) : local_txn (txn_ret a).
Proof. done. Qed.
Lemma local_err {A} e : local_txn (txn_err (A := A) e).
Proof. done. Qed.
Lemma local_read {A} (f : DB -> A) : local_txn (txn_read f).
Proof. done. Qed.
Lemma local_write f : local_txn (txn_write f).
Proof. done. Qed.
Lemma local_ok_or {A} e (o : option A) : local_txn (ok_or e o).
Proof. by destruct o. Qed.
Lemma local_ensure b e : local_txn (ensure b e).
Proof. by destruct b. Qed.

Create HintDb txn_local discriminated.
#[export] Hint Resolve local_bind local_ret local_err local_read local_write local_ok_or
  local_ensure : txn_local.

Lemma rollback_local {A} (m : txn A) s : local_txn m -> rollback (m (begin s)).2 = s.
Proof.
  intros Hm. destruct (Hm (begin s)) as [H1 H2]. unfold rollback. rewrite H1, H2. by destruct s.
Qed.

(** A write transaction that reports success is one run of its closure. *)
Lemma write_txn_Ok {A} r (task : txn A) s v s' : write_txn r task s = (Ok v, s') ->
  exists s0 t, task (begin s0) = (Ok v, t) /\ s' = commit t.
Proof.
  unfold write_txn, run_txn. generalize TXN_MAX_RETRIES. intros n H.
  pose proof (run_attempts_atomic ModeWrite task (run_oracle r) (run_others r) (fun _ => True)
    n 0 s ltac:(done) ltac:(done) I) as Ha.
  rewrite H in Ha. destruct Ha as [_ Ha]. destruct (Ha v eq_refl) as (s0&t&_&?&?). eauto.
Qed.

(** Splits a successful run into its steps; row accessors are unfolded. *)
Ltac txn_rows := unfold txn_require_dir, txn_get_node, txn_put_node, txn_delete_node, txn_get_dentry,
  txn_put_dentry, txn_delete_dentry, txn_get_link_parents, txn_put_link_parents,
  txn_delete_link_parents, StoredLinkParent in *.
Ltac txn_inv :=
  repeat match goal with
  | H : txn_bind _ _ _ = (Ok _, _) |- _ =>
      let a := fresh "a" in let s := fresh "st" in let H1 := fresh "Hrun" in
      apply txn_bind_Ok in H as (a & s & H1 & H); cbv beta in H
  | H : txn_ret _ _ = (Ok _, _) |- _ => apply txn_ret_Ok in H as [H ?]; subst
  | H : txn_err _ _ = (Ok _, _) |- _ => by apply txn_err_Ok in H
  | H : ok_or _ _ _ = (Ok _, _) |- _ => apply ok_or_Ok in H as [H ?]; subst
  | H : ensure _ _ _ = (Ok _, _) |- _ => apply ensure_Ok in H as [H ?]; subst
  | H : txn_read _ _ = (Ok _, _) |- _ => apply txn_read_Ok in H as [H ?]; subst
  | H : txn_write _ _ = (Ok _, _) |- _ => apply txn_write_Ok in H; subst
  | H : (if _ then txn_ret _ else txn_read _) _ = (Ok _, _) |- _ =>
      apply if_read_Ok in H as [H ?]; subst
  end; cbn [view committed leases begin sys_db sys_leases] in *;
  repeat match goal with H : Some _ = _ |- _ => symmetry in H end.

(** Turns the boolean guards that were passed into propositions. *)
Ltac txn_guards :=
  repeat match goal with
  | u : unit |- _ => destruct u
  | H : negb _ = true |- _ => apply negb_true_iff in H
  | H : bool_decide _ = true |- _ => apply bool_decide_eq_true in H
  | H : bool_decide _ = false |- _ => apply bool_decide_eq_false in H
  | H : _ || _ = false |- _ => apply orb_false_iff in H as [? ?]
  | H : is_dir _ = true |- _ => apply is_dir_spec in H
  | H : is_dir _ = false |- _ => apply is_dir_false in H
  | H : (_ =? _) = false |- _ => apply Z.eqb_neq in H
  | H : (_ =? _) = true |- _ => apply Z.eqb_eq in H
  end.

Ltac solve_local :=
  txn_rows; repeat match goal with
  | |- local_txn (txn_bind _ _) => apply local_bind; [|intros ?]
  | |- local_txn (match ?x with _ => _ end) => destruct x
  | |- local_txn _ => solve [auto with txn_local]
  end.
