(* ===== verification/MetaOps.v ===== *)
(** The operations of [src/meta/stores/tikv/mod.rs] on the namespace and on node
    attributes. [now] is the clock value the operation reads, [client] the
    process it runs in. *)
From stdpp Require Import options.
From Stdlib Require Import Ascii.
From S2P Require Import Prelude MetaTypes MetaTxn.

Definition ROOT_INODE : Z := 1.
Definition ROOT_SIZE : Z := 4096.
Definition RELATIME_MAX_AGE_NANOS : Z := 24 * 60 * 60 * 1000000000.

Definition root_node (now : Z) : StoredNode :=
  mkNode ROOT_INODE ROOT_INODE "/" Dir ROOT_SIZE (div_ceil ROOT_SIZE 512) 16877 (* 0o40755 *)
    0 0 0 now now now 2 None false.

(** ** Reads *)

Definition stat (ino : Z) : txn (option FileAttr) :=
  let! node := txn_get_node ino in txn_ret (to_attr <$> node).

Definition lookup (parent : Z) (name : string) : txn (option Z) :=
  let! e := txn_get_dentry parent name in txn_ret (d_ino <$> e).

(** [path.split('/')]. *)
Fixpoint split_slash (path : string) : list string :=
  match path with
  | EmptyString => [EmptyString]
  | String c rest =>
      match split_slash rest with
      | seg :: segs =>
          if Ascii.eqb c "/"%char then EmptyString :: seg :: segs else String c seg :: segs
      | [] => []
      end
  end.

Definition path_segments (path : string) : list string :=
  filter (fun s => s <> EmptyString) (split_slash path).

Fixpoint walk (d : DB) (current : Z) (segs : list string) : option Z :=
  match segs with
  | [] => Some current
  | s :: rest => e ← dentries d !! (current, s); walk d (d_ino e) rest
  end.

Definition lookup_path (path : string) : txn (option (Z * FileType)) :=
  if bool_decide (path = EmptyString) then txn_ret None else
  if bool_decide (path = "/"%string) then txn_ret (Some (ROOT_INODE, Dir)) else
  let! current := txn_read (fun d => walk d ROOT_INODE (path_segments path)) in
  match current with
  | None => txn_ret None
  | Some ino => let! node := txn_get_node ino in
                txn_ret ((fun n => (n_ino n, n_kind n)) <$> node)
  end.

Definition dir_entry (row : string * StoredDentry) : DirEntry :=
  mkDirEntry row.1 (d_ino row.2) (d_kind row.2).

Definition readdir (ino : Z) : txn (list DirEntry) :=
  let! node := txn_get_node ino in
  let! node := ok_or (NotFound ino) node in
  ensure (is_dir (n_kind node)) (NotDirectory ino) ;;
  let! rows := txn_read (fun d => scan_dentries d ino) in
  txn_ret (dir_entry <$> rows).

(** Starts at the first name not below [start]; the limit is capped at the
    [u32] of the scan call. *)
Definition readdir_page (ino : Z) (start : string) (limit : Z) : txn (list DirEntry) :=
  if limit =? 0 then txn_ret [] else
  let! node := txn_get_node ino in
  let! node := ok_or (NotFound ino) node in
  ensure (is_dir (n_kind node)) (NotDirectory ino) ;;
  let! rows := txn_read (fun d => scan_dentries d ino) in
  let rows := List.filter (fun row => String.leb start row.1) rows in
  txn_ret (dir_entry <$> take (Z.to_nat (Z.min limit u32_max)) rows).

Definition read_symlink (ino : Z) : txn string :=
  let! node := txn_get_node ino in
  let! node := ok_or (NotFound ino) node in
  ensure (bool_decide (n_kind node = Symlink)) NotSupported ;;
  ok_or Internal (n_symlink_target node).

Definition stat_fs : txn StatFsSnapshot :=
  let! rows := txn_read (fun d => scan_rows (inodes d)) in
  let '(used_space, used_inodes) :=
    foldl (fun '(space, cnt) '(_, node) =>
             if n_deleted node || (n_nlink node =? 0) then (space, cnt) else
             let attr := to_attr node in
             ((if is_dir (a_kind attr) then space
               else u64_saturating_add space (stat_fs_used_bytes (a_size attr) (a_blocks attr))),
              u64_saturating_add cnt 1)) (0, 0) rows in
  txn_ret (stat_fs_snapshot_from_usage used_space used_inodes).

Definition close (ino : Z) : txn unit :=
  let! attr := stat ino in
  let! _ := ok_or (NotFound ino) attr in txn_ret tt.

Definition get_deleted_files : txn (list Z) :=
  let! rows := txn_read (fun d => scan_rows (inodes d)) in
  txn_ret (omap (fun '(_, n) => if n_deleted n && negb (is_dir (n_kind n))
                                then Some (n_ino n) else None) rows).

(** ** Creation *)

(** Size, blocks, mode and link count of a new node. *)
Definition initial_attrs (kind : StoredNodeKind) (symlink_target : option string) : Z * Z * Z * Z :=
  match kind with
  | File => (0, 0, 33188, 1)                                    (* 0o100644 *)
  | Dir => (ROOT_SIZE, div_ceil ROOT_SIZE 512, 16877, 2)        (* 0o40755 *)
  | Symlink => let size := from_option (fun t => Z.of_nat (String.length t)) 0 symlink_target in
               (size, div_ceil size 512, 41471, 1)              (* 0o120777 *)
  | k => (0, 0, Z.lor (mode_type_bits k) 420, 1)                (* 0o644 *)
  end.

Definition txn_create_node_with_attrs (client now parent : Z) (name : string)
    (kind : StoredNodeKind) (symlink_target : option string) (attrs : option (Z * Z * Z * Z))
  : txn Z :=
  let! parent_node := txn_get_node parent in
  let! existing := txn_get_dentry parent name in
  let! parent_node := ok_or (ParentNotFound parent) parent_node in
  ensure (is_dir (n_kind parent_node)) (NotDirectory parent) ;;
  ensure (bool_decide (existing = None)) (AlreadyExists parent name) ;;
  let! ino := next_leased_inode_id client in
  let '(size, blocks, mode, nlink) := initial_attrs kind symlink_target in
  let '(mode, uid, gid, rdev) := default (mode, 0, 0, 0) attrs in
  let node := mkNode ino parent name kind size blocks mode rdev uid gid now now now nlink
                symlink_target false in
  let parent_node := if is_dir kind
    then set_nlink (u32_saturating_add (n_nlink parent_node) 1) parent_node else parent_node in
  txn_put_node (touch now parent_node) ;;
  txn_put_node node ;;
  txn_put_dentry parent name (mkDentry ino kind) ;;
  txn_ret ino.

Definition txn_create_node_with_target (client now parent : Z) (name : string)
    (kind : StoredNodeKind) (symlink_target : option string) : txn Z :=
  txn_create_node_with_attrs client now parent name kind symlink_target None.

Definition txn_create_node (client now parent : Z) (name : string) (kind : StoredNodeKind) : txn Z :=
  txn_create_node_with_target client now parent name kind None.

Definition mkdir (client now parent : Z) (name : string) : txn Z :=
  txn_create_node client now parent name Dir.

Definition create_file_with_attr (client now parent : Z) (name : string) : txn CreateEntryResult :=
  let! ino := txn_create_node client now parent name File in
  let! node := txn_get_node ino in
  let! node := ok_or (NotFound ino) node in
  txn_ret (mkCreated ino (Some (to_attr node))).

Definition create_file (client now parent : Z) (name : string) : txn Z :=
  let! r := create_file_with_attr client now parent name in txn_ret (ce_ino r).

Definition create_node (client now parent : Z) (name : string) (kind : FileType)
    (mode uid gid rdev : Z) : txn Z :=
  ensure (is_special_node kind) NotSupported ;;
  txn_create_node_with_attrs client now parent name kind None
    (Some (Z.lor (mode_type_bits kind) (Z.land mode 4095), uid, gid, rdev)).

Definition symlink (client now parent : Z) (name target : string) : txn (Z * FileAttr) :=
  let! ino := txn_create_node_with_target client now parent name Symlink (Some target) in
  let! node := txn_get_node ino in
  let! node := ok_or (NotFound ino) node in
  txn_ret (ino, to_attr node).

Definition link (now ino parent : Z) (name : string) : txn FileAttr :=
  ensure (negb (ino =? ROOT_INODE)) NotSupported ;;
  let! parent_node := txn_require_dir parent in
  let! existing := txn_get_dentry parent name in
  ensure (bool_decide (existing = None)) (AlreadyExists parent name) ;;
  let! node := txn_get_node ino in
  let! node := ok_or (NotFound ino) node in
  ensure (negb (is_dir (n_kind node))) NotSupported ;;
  ensure (negb (bool_decide (n_kind node = Symlink))) NotSupported ;;
  ensure (negb (n_deleted node || (n_nlink node =? 0))) (NotFound ino) ;;
  let! lps := (if n_nlink node =? 1 then txn_ret [(n_parent node, n_name node)]
               else txn_get_link_parents ino) in
  let lps := lps ++ [(parent, name)] in
  let node := touch now (set_binding 0 EmptyString
                (set_links (u32_saturating_add (n_nlink node) 1) false node)) in
  txn_put_link_parents ino lps ;;
  txn_put_node node ;;
  txn_put_node (touch now parent_node) ;;
  txn_put_dentry parent name (mkDentry ino (n_kind node)) ;;
  txn_ret (to_attr node).

(** ** Removal *)

Definition txn_remove_non_dir_dentry (now parent : Z) (name : string) (e : StoredDentry) : txn unit :=
  ensure (negb (is_dir (d_kind e))) NotSupported ;;
  let! node := txn_get_node (d_ino e) in
  let! node := ok_or (NotFound (d_ino e)) node in
  ensure (negb (is_dir (n_kind node))) NotSupported ;;
  ensure (negb (n_deleted node || (n_nlink node =? 0))) (NotFound (d_ino e)) ;;
  txn_delete_dentry parent name ;;
  let! node :=
    (if 1 <? n_nlink node then
       let! lps := txn_get_link_parents (n_ino node) in
       let remaining := filter (fun l => l <> (parent, name)) lps in
       ensure (negb (length remaining =? length lps)%nat) Internal ;;
       let node := set_links (n_nlink node - 1) false node in
       if n_nlink node =? 1 then
         let! first := ok_or Internal (head remaining) in
         txn_delete_link_parents (n_ino node) ;;
         txn_ret (set_binding first.1 first.2 node)
       else
         txn_put_link_parents (n_ino node) remaining ;;
         txn_ret (set_binding 0 EmptyString node)
     else
       txn_delete_link_parents (n_ino node) ;;
       txn_ret (set_binding 0 EmptyString (set_links 0 true node))) in
  txn_put_node (touch now node).

Definition unlink (now parent : Z) (name : string) : txn unit :=
  let! parent_node := txn_require_dir parent in
  let! e := txn_get_dentry parent name in
  let! e := ok_or (NotFound parent) e in
  txn_remove_non_dir_dentry now parent name e ;;
  txn_put_node (touch now parent_node).

Definition rmdir (now parent : Z) (name : string) : txn unit :=
  let! parent_node := txn_require_dir parent in
  let! e := txn_get_dentry parent name in
  let! e := ok_or (NotFound parent) e in
  ensure (is_dir (d_kind e)) (NotDirectory (d_ino e)) ;;
  let! dir_node := txn_get_node (d_ino e) in
  let! dir_node := ok_or (NotFound (d_ino e)) dir_node in
  ensure (is_dir (n_kind dir_node)) (NotDirectory (d_ino e)) ;;
  let! empty := txn_read (fun d => dir_is_empty d (d_ino e)) in
  ensure empty (DirectoryNotEmpty (d_ino e)) ;;
  txn_put_node (touch now (set_nlink (u32_saturating_sub (n_nlink parent_node) 1) parent_node)) ;;
  txn_delete_dentry parent name ;;
  txn_delete_node (d_ino e).

Definition remove_file_metadata (ino : Z) : txn unit :=
  txn_delete_node ino ;; txn_delete_link_parents ino.

(** ** Rename *)

(** The ancestry walk. Each iteration that continues visits a new existing inode,
    so one more iteration than there are inodes is enough: [validate_total]. *)
Fixpoint validate_loop (fuel : nat) (d : DB) (parent ancestor : Z) (visited : gset Z)
  : option (result MetaError unit) :=
  match fuel with
  | O => None
  | S fuel =>
      if parent =? ancestor then Some (Err InvalidPath) else
      if parent =? ROOT_INODE then Some (Ok tt) else
      if bool_decide (parent ∈ visited) then Some (Err InvalidPath) else
      match inodes d !! parent with
      | None => Some (Err InvalidPath)
      | Some node =>
          if negb (is_dir (n_kind node)) || (n_parent node =? parent) then Some (Err InvalidPath)
          else validate_loop fuel d (n_parent node) ancestor ({[parent]} ∪ visited)
      end
  end.

Definition validate_directory_move (d : DB) (parent ancestor : Z) : result MetaError unit :=
  default (Err InvalidPath) (validate_loop (S (size (inodes d))) d parent ancestor ∅).

Definition validate_directory_move_in_txn (parent ancestor : Z) : txn unit :=
  let! r := txn_read (fun d => validate_directory_move d parent ancestor) in
  match r with Ok _ => txn_ret tt | Err e => txn_err e end.

(** The first binding equal to [old] becomes [new]; [None] if there is none. *)
Fixpoint rebind (old new : StoredLinkParent) (lps : list StoredLinkParent)
  : option (list StoredLinkParent) :=
  match lps with
  | [] => None
  | l :: rest => if bool_decide (l = old) then Some (new :: rest)
                 else cons l <$> rebind old new rest
  end.

Definition txn_move_node_binding (node : StoredNode) (old_parent : Z) (old_name : string)
    (new_parent : Z) (new_name : string) : txn StoredNode :=
  if is_dir (n_kind node) || (n_nlink node <=? 1)
  then txn_ret (set_binding new_parent new_name node) else
  let! lps := txn_get_link_parents (n_ino node) in
  let! lps := ok_or Internal (rebind (old_parent, old_name) (new_parent, new_name) lps) in
  txn_put_link_parents (n_ino node) lps ;;
  txn_ret (set_binding 0 EmptyString node).

(** [delta] is an [i32]. *)
Definition apply_nlink_delta (nlink delta : Z) : Z :=
  if 0 <=? delta then u32_saturating_add nlink delta else u32_saturating_sub nlink (Z.abs delta).

(** Removing the entry a rename replaces; the result is the change of the new
    parent's link count and whether a directory was replaced. *)
Definition replace_destination (now new_parent : Z) (new_name : string) (source_node : StoredNode)
    (dest : StoredDentry) (dest_node : StoredNode) : txn (Z * bool) :=
  match n_kind source_node, n_kind dest_node with
  | Dir, Dir =>
      let! empty := txn_read (fun d => dir_is_empty d (d_ino dest)) in
      ensure empty (DirectoryNotEmpty (d_ino dest)) ;;
      txn_delete_dentry new_parent new_name ;;
      txn_delete_node (d_ino dest) ;;
      txn_delete_link_parents (d_ino dest) ;;
      txn_ret (-1, true)
  | Dir, _ => txn_err IoNotADirectory
  | _, Dir => txn_err IoIsADirectory
  | _, _ =>
      txn_remove_non_dir_dentry now new_parent new_name dest ;;
      txn_ret (0, false)
  end.

(** Writing back the two parents, which may be the same directory. *)
Definition put_parents (now old_parent new_parent : Z) (old_parent_node new_parent_node : StoredNode)
    (old_delta new_delta : Z) : txn unit :=
  if old_parent =? new_parent then
    txn_put_node (touch now (set_nlink (apply_nlink_delta (n_nlink old_parent_node)
                                          (old_delta + new_delta)) old_parent_node))
  else
    txn_put_node (touch now (set_nlink (apply_nlink_delta (n_nlink old_parent_node) old_delta)
                               old_parent_node)) ;;
    txn_put_node (touch now (set_nlink (apply_nlink_delta (n_nlink new_parent_node) new_delta)
                               new_parent_node)).

(** The part of a rename after the destination is out of the way. *)
Definition finish_rename (now old_parent : Z) (old_name : string) (new_parent : Z) (new_name : string)
    (source : StoredDentry) (source_node old_parent_node new_parent_node : StoredNode)
    (replaced_ino : option Z) (new_delta : Z) (replaced_is_dir : bool) : txn RenameOutcome :=
  let source_is_dir := is_dir (n_kind source_node) in
  let! moved := txn_move_node_binding source_node old_parent old_name new_parent new_name in
  let moves_dir := source_is_dir && negb (old_parent =? new_parent) in
  txn_delete_dentry old_parent old_name ;;
  txn_put_node (touch now moved) ;;
  put_parents now old_parent new_parent old_parent_node new_parent_node
    (if moves_dir then -1 else 0) (if moves_dir then new_delta + 1 else new_delta) ;;
  txn_put_dentry new_parent new_name source ;;
  txn_ret (mkRenameOutcome (d_ino source) replaced_ino source_is_dir replaced_is_dir true).

Definition rename_with_mode (now old_parent : Z) (old_name : string) (new_parent : Z)
    (new_name : string) (noreplace : bool) : txn RenameOutcome :=
  if (old_parent =? new_parent) && bool_decide (old_name = new_name) then
    let! ino := lookup old_parent old_name in
    let! ino := ok_or (NotFound old_parent) ino in
    txn_ret (mkRenameOutcome ino None false false false)
  else
  let! old_parent_node := txn_get_node old_parent in
  let! new_parent_row := txn_get_node new_parent in
  let! source_row := txn_get_dentry old_parent old_name in
  let! destination := txn_get_dentry new_parent new_name in
  let! old_parent_node := ok_or (ParentNotFound old_parent) old_parent_node in
  ensure (is_dir (n_kind old_parent_node)) (NotDirectory old_parent) ;;
  let! new_parent_node :=
    (if old_parent =? new_parent then txn_ret old_parent_node else
     let! node := ok_or (ParentNotFound new_parent) new_parent_row in
     ensure (is_dir (n_kind node)) (NotDirectory new_parent) ;;
     txn_ret node) in
  let! source := ok_or (NotFound old_parent) source_row in
  let replaced_ino := e ← destination; if d_ino e =? d_ino source then None else Some (d_ino e) in
  ensure (negb (noreplace && bool_decide (is_Some destination))) (AlreadyExists new_parent new_name) ;;
  let! source_node := txn_get_node (d_ino source) in
  let! dest_row := txn_read (fun d => e ← destination; inodes d !! d_ino e) in
  let! source_node := ok_or (NotFound (d_ino source)) source_node in
  ensure (negb (n_deleted source_node || (n_nlink source_node =? 0))) (NotFound (d_ino source)) ;;
  let source_is_dir := is_dir (n_kind source_node) in
  (if source_is_dir then validate_directory_move_in_txn new_parent (d_ino source)
   else txn_ret tt) ;;
  let finish := finish_rename now old_parent old_name new_parent new_name source source_node
                  old_parent_node new_parent_node replaced_ino in
  match destination with
  | None => finish 0 false
  | Some dest =>
      if d_ino dest =? d_ino source
      then txn_ret (mkRenameOutcome (d_ino source) None source_is_dir false false)
      else
        let! dest_node := ok_or (NotFound (d_ino dest)) dest_row in
        let! (new_delta, replaced_is_dir) :=
          replace_destination now new_parent new_name source_node dest dest_node in
        finish new_delta replaced_is_dir
  end.

Definition rename_exchange (now old_parent : Z) (old_name : string) (new_parent : Z)
    (new_name : string) : txn unit :=
  if (old_parent =? new_parent) && bool_decide (old_name = new_name) then txn_ret tt else
  let! old_parent_node := txn_require_dir old_parent in
  let! new_parent_node :=
    (if old_parent =? new_parent then txn_ret old_parent_node else txn_require_dir new_parent) in
  let! old_entry := txn_get_dentry old_parent old_name in
  let! old_entry := ok_or (NotFound old_parent) old_entry in
  let! new_entry := txn_get_dentry new_parent new_name in
  let! new_entry := ok_or (NotFound new_parent) new_entry in
  if d_ino old_entry =? d_ino new_entry then txn_ret tt else
  let! old_node := txn_get_node (d_ino old_entry) in
  let! old_node := ok_or (NotFound (d_ino old_entry)) old_node in
  let! new_node := txn_get_node (d_ino new_entry) in
  let! new_node := ok_or (NotFound (d_ino new_entry)) new_node in
  ensure (negb (n_deleted old_node || (n_nlink old_node =? 0))) (NotFound (d_ino old_entry)) ;;
  ensure (negb (n_deleted new_node || (n_nlink new_node =? 0))) (NotFound (d_ino new_entry)) ;;
  (if is_dir (n_kind old_node)
   then validate_directory_move_in_txn new_parent (d_ino old_entry) else txn_ret tt) ;;
  (if is_dir (n_kind new_node)
   then validate_directory_move_in_txn old_parent (d_ino new_entry) else txn_ret tt) ;;
  let crossing := negb (old_parent =? new_parent) in
  let old_moves := crossing && is_dir (n_kind old_node) in
  let new_moves := crossing && is_dir (n_kind new_node) in
  let old_delta := (if old_moves then -1 else 0) + (if new_moves then 1 else 0) in
  let new_delta := (if old_moves then 1 else 0) + (if new_moves then -1 else 0) in
  let! old_node := txn_move_node_binding old_node old_parent old_name new_parent new_name in
  let! new_node := txn_move_node_binding new_node new_parent new_name old_parent old_name in
  txn_put_dentry old_parent old_name new_entry ;;
  txn_put_dentry new_parent new_name old_entry ;;
  txn_put_node (touch now old_node) ;;
  txn_put_node (touch now new_node) ;;
  put_parents now old_parent new_parent old_parent_node new_parent_node old_delta new_delta.

(** ** Attributes *)

Definition set_file_size (now ino size : Z) : txn unit :=
  let! node := txn_get_node ino in
  let! node := ok_or (NotFound ino) node in
  ensure (bool_decide (n_kind node = File)) NotSupported ;;
  txn_put_node (touch now (set_size size (div_ceil size 512) node)).

Definition extend_file_size (now ino size : Z) : txn unit :=
  let! node := txn_get_node ino in
  let! node := ok_or (NotFound ino) node in
  ensure (bool_decide (n_kind node = File)) NotSupported ;;
  if n_size node <? size
  then txn_put_node (touch now (set_size size (div_ceil size 512) node))
  else txn_ret tt.

(** The attribute changes of [set_attr]; [None] when a size is given for a node
    that is not a regular file. *)
Definition apply_set_attr (now : Z) (req : SetAttrRequest) (flags : Z) (node : StoredNode)
  : option StoredNode :=
  let mode := from_option (fun m => Z.lor (Z.land (n_mode node) S_IFMT) (Z.land m 4095))
                (n_mode node) (r_mode req) in
  let uid := default (n_uid node) (r_uid req) in
  let gid := default (n_gid node) (r_gid req) in
  let clear_suid := flags_contain flags CLEAR_SUID in
  let clear_sgid := flags_contain flags CLEAR_SGID in
  let mode := if clear_suid then Z.ldiff mode 2048 else mode in
  let mode := if clear_sgid then Z.ldiff mode 1024 else mode in
  let ctime_update := bool_decide (is_Some (r_mode req)) || bool_decide (is_Some (r_uid req))
    || bool_decide (is_Some (r_gid req)) || clear_suid || clear_sgid in
  let node := set_perm mode uid gid node in
  '(node, ctime_update) ←
    match r_size req with
    | None => Some (node, ctime_update)
    | Some size =>
        if bool_decide (n_kind node = File) then
          Some ((if n_size node =? size then node
                 else set_times (n_atime node) now (n_ctime node)
                        (set_size size (div_ceil size 512) node)), true)
        else None
    end;
  let '(atime, ctime_update) :=
    if flags_contain flags SET_ATIME_NOW then (now, true)
    else match r_atime req with Some t => (t, true) | None => (n_atime node, ctime_update) end in
  let '(mtime, ctime_update) :=
    if flags_contain flags SET_MTIME_NOW then (now, true)
    else match r_mtime req with Some t => (t, true) | None => (n_mtime node, ctime_update) end in
  let ctime := match r_ctime req with
               | Some t => t
               | None => if ctime_update : bool then now else n_ctime node
               end in
  Some (set_times atime mtime ctime node).

Definition set_attr (now ino : Z) (req : SetAttrRequest) (flags : Z) : txn FileAttr :=
  let! node := txn_get_node ino in
  let! node := ok_or (NotFound ino) node in
  let! node := ok_or NotSupported (apply_set_attr now req flags node) in
  txn_put_node node ;;
  txn_ret (to_attr node).

(** [now.saturating_sub(atime)] stays inside [i64] for the comparison made. *)
Definition atime_needs_update (node : StoredNode) (now : Z) : bool :=
  (n_atime node <=? n_mtime node) || (n_atime node <=? n_ctime node)
  || (RELATIME_MAX_AGE_NANOS <=? now - n_atime node).

(** The write transaction of [open]. *)
Definition open_update (now ino : Z) (truncate : bool) : txn FileAttr :=
  let! node := txn_get_node ino in
  let! node := ok_or (NotFound ino) node in
  ensure (negb (bool_decide (n_kind node = Symlink))) NotSupported ;;
  ensure (negb (truncate && negb (bool_decide (n_kind node = File)))) NotSupported ;;
  let node := if atime_needs_update node now
              then set_times now (n_mtime node) (n_ctime node) node else node in
  let node := if truncate then touch now (set_size 0 0 node) else node in
  txn_put_node node ;;
  txn_ret (to_attr node).

(** Without truncation a read transaction of its own comes first, and is enough
    when the access time may stay. *)
Definition open (r1 r2 : Run) (now now' ino flags : Z) (s : Sys) : result MetaError FileAttr * Sys :=
  if flags_contain flags TRUNC then write_txn r2 (open_update now' ino true) s else
  let probe := let! node := txn_get_node ino in ok_or (NotFound ino) node in
  match read_txn r1 probe s with
  | (Err e, s) => (Err e, s)
  | (Ok node, s) =>
      if bool_decide (n_kind node = Symlink) then (Err NotSupported, s) else
      if negb (atime_needs_update node now) then (Ok (to_attr node), s)
      else write_txn r2 (open_update now' ino false) s
  end.

(** ** Names and paths *)

Definition pair_leb (a b : Z * string) : bool :=
  (a.1 <? b.1) || ((a.1 =? b.1) && String.leb a.2 b.2).

(** The bindings of a live node, as [get_names] and [get_paths] read them. *)
Definition node_bindings (d : DB) (node : StoredNode) : list StoredLinkParent :=
  if is_dir (n_kind node) || (n_nlink node <=? 1) then [(n_parent node, n_name node)]
  else default [] (link_parents d !! n_ino node).

(** The sort of [(Option<i64>, String)] pairs, all of them [Some]; the root answers
    with no parent. *)
Definition get_names (ino : Z) : txn (list (option Z * string)) :=
  if ino =? ROOT_INODE then txn_ret [(None, "/"%string)] else
  let! node := txn_get_node ino in
  match node with
  | None => txn_ret []
  | Some node =>
      if n_deleted node || (n_nlink node =? 0) then txn_ret [] else
      let! out := txn_read (fun d =>
        if is_dir (n_kind node) || (n_nlink node <=? 1) then node_bindings d node
        else dedup (sort_by pair_leb (node_bindings d node))) in
      txn_ret ((fun '(p, nm) => (Some p, nm)) <$> out)
  end.

(** The climb to the root: [None] if it does not end within the fuel,
    [Some None] if an ancestor is missing or deleted, else the names from the
    root down. *)
Fixpoint climb (fuel : nat) (d : DB) (current : Z) (parts : list string)
  : option (option (list string)) :=
  match fuel with
  | O => None
  | S fuel =>
      if current =? ROOT_INODE then Some (Some parts) else
      match inodes d !! current with
      | None => Some None
      | Some node =>
          if n_deleted node || (n_nlink node =? 0) then Some None
          else climb fuel d (n_parent node) (n_name node :: parts)
      end
  end.

Definition join_path (parts : list string) : string :=
  ("/" ++ String.concat "/" parts)%string.

(** [None] when the walk over a broken ancestry does not end. *)
Definition paths_of (d : DB) (bindings : list StoredLinkParent) : option (list string) :=
  rs ← mapM (fun '(p, nm) => climb (S (size (inodes d))) d p [nm]) bindings;
  Some (join_path <$> omap id rs).

Definition get_paths (ino : Z) : txn (option (list string)) :=
  if ino =? ROOT_INODE then txn_ret (Some ["/"%string]) else
  let! node := txn_get_node ino in
  match node with
  | None => txn_ret (Some [])
  | Some node =>
      if n_deleted node || (n_nlink node =? 0) then txn_ret (Some []) else
      let! out := txn_read (fun d => paths_of d (node_bindings d node)) in
      txn_ret ((fun l => dedup (sort_by String.leb l)) <$> out)
  end.

(** ** Initialisation *)

Definition initialize_write (now : Z) : txn unit :=
  let! root := txn_get_node ROOT_INODE in
  (if bool_decide (root = None) then txn_put_node (root_node now) else txn_ret tt) ;;
  let! counter := txn_read (fun d => counters d !! INODE_ID_KEY) in
  if bool_decide (counter = None)
  then txn_write (with_counters <[INODE_ID_KEY := FIRST_ALLOCATED_INODE]>)
  else txn_ret tt.

Definition initialize (r1 r2 : Run) (now : Z) (s : Sys) : result MetaError unit * Sys :=
  let probe :=
    let! root := txn_get_node ROOT_INODE in
    let! counter := txn_read (fun d => counters d !! INODE_ID_KEY) in
    txn_ret (bool_decide (is_Some root), bool_decide (is_Some counter)) in
  match read_txn r1 probe s with
  | (Err e, s) => (Err e, s)
  | (Ok (root_exists, counter_exists), s) =>
      if root_exists && counter_exists then (Ok tt, s) else write_txn r2 (initialize_write now) s
  end.
