(* ===== verification/MetaInv.v ===== *)
(** Every metadata operation keeps the namespace well formed: the operations of
    [MetaOps] are shown to perform the structural changes of [Namespace] on the
    rows they commit, and the id allocator to hand out unused inode numbers. *)
From stdpp Require Import options.
From S2P Require Import Prelude MetaTypes MetaTxn TxnRun MetaOps Namespace.

(** ** The invariant *)

Definition shape (n : StoredNode) : Shape :=
  mkShape (n_ino n) (n_parent n) (n_name n) (n_kind n) (n_nlink n) (n_deleted n).

Definition ns_of (d : DB) : NS := mkNS (shape <$> inodes d) (dentries d) (link_parents d).

(** Inode numbers in use can no longer be allocated. *)
Record alloc_ok (d : DB) (ls : Leases) : Prop := {
  al_leases : lease_ok INODE_ID_KEY FIRST_ALLOCATED_INODE (counters d) ls;
  al_used i : is_Some (inodes d !! i) -> ~ free_id INODE_ID_KEY FIRST_ALLOCATED_INODE (counters d) ls i
}.

Record sys_ok (s : Sys) : Prop := {
  so_ns : ns_ok (ns_of (sys_db s));
  so_alloc : alloc_ok (sys_db s) (sys_leases s)
}.

(** Few enough entries for link counts not to saturate their [u32]. *)
Definition small (d : DB) : Prop := Z.of_nat (size (dentries d)) + 2 < u32_max.

(** [op_keeps m]: run on a well-formed state, [m] leaves a well-formed state
    whether its transaction commits or is rolled back. *)
Definition keeps_result {A} (r : result MetaError A * TxnState) : Prop :=
  sys_ok (rollback r.2) /\ forall a t, r = (Ok a, t) -> sys_ok (commit t).
Definition op_keeps {A} (m : txn A) : Prop :=
  forall s, sys_ok s -> small (sys_db s) -> keeps_result (m (begin s)).

(** ** Views of the rows *)

Lemma ns_node d i n : inodes d !! i = Some n -> ns_nodes (ns_of d) !! i = Some (shape n).
Proof. intros H. cbn. by rewrite lookup_fmap, H. Qed.
Lemma ns_node_inv d i sh : ns_nodes (ns_of d) !! i = Some sh ->
  exists n, inodes d !! i = Some n /\ shape n = sh.
Proof. cbn. rewrite lookup_fmap. destruct (inodes d !! i) as [n|]; [|done]. intros [= <-]. eauto. Qed.
Lemma ns_node_None d i : inodes d !! i = None -> ns_nodes (ns_of d) !! i = None.
Proof. intros H. cbn. by rewrite lookup_fmap, H. Qed.

Lemma node_ino d i n : ns_ok (ns_of d) -> inodes d !! i = Some n -> n_ino n = i.
Proof. intros Hok Hi%ns_node. by destruct (ok_node _ Hok _ _ Hi). Qed.

(** Rewriting a row without changing its shape. *)
Lemma ns_of_same_shape d n n' :
  inodes d !! n_ino n = Some n -> shape n' = shape n ->
  ns_of (with_inodes <[n_ino n := n']> d) = ns_of d.
Proof.
  intros Hn Hs. unfold ns_of. cbn. f_equal. rewrite fmap_insert, Hs.
  apply insert_id. by rewrite lookup_fmap, Hn.
Qed.

Lemma shape_touch now n : shape (touch now n) = shape n.
Proof. done. Qed.

(** Link counts are below the saturation point. *)
Lemma subdirs_le ds p : subdirs ds p <= Z.of_nat (size ds).
Proof.
  unfold subdirs. apply inj_le. apply map_subseteq_size. apply map_filter_subseteq.
Qed.

Lemma ents_size_le ds i : (size (ents ds i) <= size ds)%nat.
Proof.
  unfold ents. rewrite size_dom. apply map_subseteq_size, map_filter_subseteq.
Qed.

Lemma nlink_small d i n : ns_ok (ns_of d) -> small d -> inodes d !! i = Some n ->
  0 <= n_nlink n < u32_max.
Proof.
  intros Hok Hsm Hi%ns_node. unfold small in Hsm. pose proof (subdirs_le (dentries d) i).
  pose proof (subdirs_nonneg (dentries d) i).
  destruct (decide (n_kind n = Dir)) as [Hk|Hk].
  - destruct (dir_ok _ Hok _ _ Hi Hk) as (_&_&Hn&_). cbn in Hn. lia.
  - destruct (file_ok _ Hok _ _ Hi Hk) as (_&_&Hf). cbn in Hf.
    pose proof (ents_size_le (dentries d) i).
    destruct Hf as [Hn _ _ _|Hn _ _ _|l Hn _ _ Hnd Hlen He]; cbn in *; [lia..|].
    rewrite He, size_list_to_set in * by done. lia.
Qed.

Lemma nlink_succ n : n < u32_max -> u32_saturating_add n 1 = n + 1.
Proof. unfold u32_saturating_add. lia. Qed.

(** The inode allocator only looks at its own counter and leases. *)
Lemma alloc_ok_same d d' ls ls' : alloc_ok d ls ->
  counters d' !! INODE_ID_KEY = counters d !! INODE_ID_KEY ->
  (forall c, ls' !! (c, INODE_ID_KEY) = ls !! (c, INODE_ID_KEY)) ->
  (forall i, is_Some (inodes d' !! i) -> is_Some (inodes d !! i)) -> alloc_ok d' ls'.
Proof.
  intros [[Hc Hr Hd] Hu] Hcnt Hls Hi.
  assert (counter_of INODE_ID_KEY FIRST_ALLOCATED_INODE (counters d') =
          counter_of INODE_ID_KEY FIRST_ALLOCATED_INODE (counters d)) as E
    by (unfold counter_of; by rewrite Hcnt).
  split.
  - split; rewrite ?E; [done|..]; setoid_rewrite Hls; done.
  - intros i Hin. unfold free_id. rewrite E. setoid_rewrite Hls. by apply Hu, Hi.
Qed.

(** For operations without allocation only the commit matters. *)
Lemma op_keeps_local {A} (m : txn A) : local_txn m ->
  (forall d ls a t, ns_ok (ns_of d) -> small d -> m (mkTxn d d ls) = (Ok a, t) ->
     ns_ok (ns_of (view t)) /\ counters (view t) !! INODE_ID_KEY = counters d !! INODE_ID_KEY /\
     (forall i, is_Some (inodes (view t) !! i) -> is_Some (inodes d !! i))) ->
  op_keeps m.
Proof.
  intros Hl Hm s [Hns Hal] Hsm. split; [rewrite rollback_local by done; by split|].
  intros a t Ht. destruct (Hl (begin s)) as [_ Hle]. rewrite Ht in Hle. cbn in Hle.
  destruct (Hm (sys_db s) (sys_leases s) a t Hns Hsm Ht) as (Hns'&Hc&Hi).
  split; [done|]. cbn. eapply alloc_ok_same; [done|done| |done]. by rewrite Hle.
Qed.

(** *** Attributes *)

Lemma put_same_shape d n n' i :
  ns_ok (ns_of d) -> inodes d !! i = Some n -> shape n' = shape n ->
  let d' := with_inodes <[n_ino n' := n']> d in
  ns_ok (ns_of d') /\ counters d' !! INODE_ID_KEY = counters d !! INODE_ID_KEY /\
  (forall j, is_Some (inodes d' !! j) -> is_Some (inodes d !! j)).
Proof.
  intros Hok Hi Hs d'. pose proof (node_ino d i n Hok Hi) as Hino. subst i.
  assert (n_ino n' = n_ino n) as Hino' by (by injection Hs). subst d'. rewrite Hino'.
  rewrite (ns_of_same_shape d n n' Hi Hs). split_and!; [done..|].
  intros j. cbn. rewrite lookup_insert_is_Some. intros [<-|[_ ?]]; [|done]. by rewrite Hi.
Qed.

Lemma put_none d : ns_ok (ns_of d) ->
  ns_ok (ns_of d) /\ counters d !! INODE_ID_KEY = counters d !! INODE_ID_KEY /\
  (forall j, is_Some (inodes d !! j) -> is_Some (inodes d !! j)).
Proof. done. Qed.

Lemma apply_set_attr_shape now req flags n n' :
  apply_set_attr now req flags n = Some n' -> shape n' = shape n.
Proof.
  unfold apply_set_attr. intros ([node cu]&Hnode&H)%bind_Some.
  assert (shape node = shape n) as <-.
  { destruct (r_size req) as [sz|]; [|by simplify_eq]. case_bool_decide; [|done].
    simplify_eq. by destruct (_ =? sz). }
  clear Hnode. destruct (if flags_contain flags SET_ATIME_NOW then _ else _) as [atime cu1].
  destruct (if flags_contain flags SET_MTIME_NOW then _ else _) as [mtime cu2]. by simplify_eq.
Qed.

Lemma set_file_size_keeps now ino size : op_keeps (set_file_size now ino size).
Proof.
  apply op_keeps_local; [unfold set_file_size; solve_local|]. unfold set_file_size; txn_rows.
  intros d ls a t Hok Hsm H. txn_inv. by eapply put_same_shape.
Qed.

Lemma extend_file_size_keeps now ino size : op_keeps (extend_file_size now ino size).
Proof.
  apply op_keeps_local; [unfold extend_file_size; solve_local|]. unfold extend_file_size; txn_rows.
  intros d ls a t Hok Hsm H. txn_inv. case_match; txn_inv; [by eapply put_same_shape|by apply put_none].
Qed.

Lemma set_attr_keeps now ino req flags : op_keeps (set_attr now ino req flags).
Proof.
  apply op_keeps_local; [unfold set_attr; solve_local|]. unfold set_attr; txn_rows.
  intros d ls a t Hok Hsm H. txn_inv. eapply put_same_shape; [done|done|].
  by eapply apply_set_attr_shape.
Qed.

Lemma open_update_keeps now ino truncate : op_keeps (open_update now ino truncate).
Proof.
  apply op_keeps_local; [unfold open_update; solve_local|].
  unfold open_update; txn_rows. intros d ls a t Hok Hsm H. txn_inv.
  eapply put_same_shape; [done|done|]. by repeat case_match.
Qed.

(** *** Creation *)

(** Continuations that only look. *)
Definition observes {A B} (k : A -> txn B) : Prop := forall a s, (k a s).2 = s.

Lemma op_keeps_then {A B} (m : txn A) (k : A -> txn B) :
  op_keeps m -> observes k -> op_keeps (txn_bind m k).
Proof.
  intros Hm Hk s Hs Hsm. destruct (Hm s Hs Hsm) as [Hr Hc]. unfold txn_bind.
  destruct (m (begin s)) as [[a|e] t] eqn:Ht; cbn in *; [|done].
  pose proof (Hk a t) as Hkt. destruct (k a t) as [r t']. cbn in Hkt |- *. subst t'.
  split; [done|]. intros b t'' [= _ <-]. by eapply Hc.
Qed.

Lemma op_keeps_guard {A} b e (m : txn A) : op_keeps m -> op_keeps (txn_bind (ensure b e) (fun _ => m)).
Proof. intros Hm. destruct b; [done|]. intros s Hs Hsm. by destruct s. Qed.

(** An error before anything was allocated. *)
Lemma keeps_err {A} s (e : MetaError) : sys_ok s -> keeps_result (Err (A := A) e, begin s).
Proof. by destruct s. Qed.

(** The allocator has run: the counters moved, the taken id is [ino]. *)
Lemma sys_ok_counters s cnt' ls' ino :
  sys_ok s ->
  id_taken INODE_ID_KEY FIRST_ALLOCATED_INODE (counters (sys_db s)) (sys_leases s) ino cnt' ls' ->
  sys_ok (mkSys (with_counters (fun _ => cnt') (sys_db s)) ls').
Proof.
  intros [Hns [Hl Hu]] [Hok _ _ _ Hshrink _ _]. split; [done|]. split; cbn; [done|].
  intros i Hi Hf. apply (Hu i Hi). auto.
Qed.

(** The rows written for a new node. *)
Definition created_db (now parent : Z) (name : string) (pn node : StoredNode) (d : DB) : DB :=
  let pn' := if is_dir (n_kind node) then set_nlink (u32_saturating_add (n_nlink pn) 1) pn else pn in
  with_dentries <[(parent, name) := mkDentry (n_ino node) (n_kind node)]>
    (with_inodes <[n_ino node := node]>
       (with_inodes <[n_ino (touch now pn') := touch now pn']> d)).

Lemma created_ns now parent name pn node d :
  ns_ok (ns_of d) -> small d -> inodes d !! parent = Some pn -> n_kind pn = Dir ->
  dentries d !! (parent, name) = None -> inodes d !! n_ino node = None ->
  shape node = new_shape parent name (n_ino node) (n_kind node) ->
  ns_ok (ns_of (created_db now parent name pn node d)).
Proof.
  intros Hok Hsm Hp Hk Hfree Hi Hs. pose proof (node_ino d _ _ Hok Hp) as Hino.
  assert (ns_of (created_db now parent name pn node d) =
          ns_create parent (shape pn) name (n_ino node) (n_kind node) (ns_of d)) as ->.
  { destruct (nlink_small d _ _ Hok Hsm Hp) as [_ Hlt].
    unfold ns_of, ns_create, created_db. cbn. f_equal. rewrite !fmap_insert, Hs. f_equal.
    unfold parent_of_new, is_dir. case_bool_decide; cbn; rewrite Hino; [|done].
    f_equal. unfold shape, sh_set_nlink. cbn. by rewrite nlink_succ. }
  apply ns_create_ok; [done|by apply ns_node|done|done|by apply ns_node_None].
Qed.

Lemma create_keeps client now parent name kind target attrs :
  op_keeps (txn_create_node_with_attrs client now parent name kind target attrs).
Proof.
  intros s Hs Hsm. pose proof Hs as [Hns [Hls Hused]].
  unfold txn_create_node_with_attrs; txn_rows. rewrite !bind_read, bind_ok_or. cbn [view begin].
  destruct (inodes (sys_db s) !! parent) as [pn|] eqn:Hp; [|by apply keeps_err].
  rewrite bind_ensure. destruct (is_dir (n_kind pn)) eqn:Hdir; [|by apply keeps_err].
  apply is_dir_spec in Hdir. rewrite bind_ensure. case_bool_decide as Hfree; [|by apply keeps_err].
  unfold txn_bind at 1.
  pose proof (next_leased_spec client INODE_ID_KEY FIRST_ALLOCATED_INODE INODE_ID_LEASE_SIZE
                (begin s) eq_refl eq_refl Hls) as Hn.
  unfold next_leased_inode_id.
  destruct (next_leased_counter_id _ _ _ _ (begin s)) as [[ino|e] t]; [|subst t; by apply keeps_err].
  destruct Hn as (cnt'&Hc&Hv&Htaken). cbn [committed view begin leases] in *.
  assert (inodes (sys_db s) !! ino = None) as Hino.
  { apply eq_None_not_Some. intros Hi. apply (Hused _ Hi). by destruct Htaken. }
  destruct (initial_attrs kind target) as [[[size blocks] mode] nlink] eqn:Hia.
  destruct (default (mode, 0, 0, 0) attrs) as [[[mode' uid] gid] rdev].
  set (node := mkNode ino parent name kind size blocks mode' rdev uid gid now now now nlink target false).
  assert (shape node = new_shape parent name (n_ino node) (n_kind node)) as Hshape.
  { unfold new_shape, shape, node. cbn. f_equal. unfold initial_attrs in Hia.
    destruct kind; simplify_eq; done. }
  set (d' := created_db now parent name pn node (view t)).
  match goal with |- context [txn_bind ?a ?k t] =>
    change (txn_bind a k t) with (Ok (E := MetaError) ino, mkTxn (committed t) d' (leases t)) end.
  split; unfold rollback, commit; cbn; [rewrite Hc; by eapply sys_ok_counters|].
  intros a t' [= _ <-]. cbn. split; cbn.
  - unfold d'. rewrite Hv. by apply (created_ns now parent name pn node (with_counters (fun _ => cnt') (sys_db s))).
  - destruct Htaken as [Hok' Hf Hfr Htk Hsh _ _]. unfold d'. rewrite Hv. split; cbn; [done|].
    intros i Hi Hfree'. rewrite lookup_insert_is_Some in Hi. destruct Hi as [<-|[_ Hi]]; [done|].
    apply lookup_insert_is_Some in Hi as [<-|[_ Hi]]; [|by apply (Hused i); auto].
    apply (Hused parent); [by rewrite Hp|]. apply Hsh.
    replace parent with (n_ino pn) by (by eapply node_ino).
    revert Hfree'. by destruct (is_dir kind).
Qed.

Lemma mkdir_keeps client now parent name : op_keeps (mkdir client now parent name).
Proof. apply create_keeps. Qed.

Lemma observes_get_attr {B} (f : Z -> StoredNode -> B) :
  observes (fun ino => let! node := txn_get_node ino in
                       let! node := ok_or (NotFound ino) node in txn_ret (f ino node)).
Proof. intros ino s. unfold txn_bind, txn_get_node, txn_read. cbn. by destruct (inodes (view s) !! ino). Qed.

Lemma create_file_keeps client now parent name : op_keeps (create_file client now parent name).
Proof.
  unfold create_file, create_file_with_attr. apply op_keeps_then; [|by intros ? ?].
  apply op_keeps_then; [apply create_keeps|].
  apply (observes_get_attr (fun ino node => mkCreated ino (Some (to_attr node)))).
Qed.

Lemma symlink_keeps client now parent name target : op_keeps (symlink client now parent name target).
Proof.
  unfold symlink. apply op_keeps_then; [apply create_keeps|].
  apply (observes_get_attr (fun ino node => (ino, to_attr node))).
Qed.

Lemma create_node_keeps client now parent name kind mode uid gid rdev :
  op_keeps (create_node client now parent name kind mode uid gid rdev).
Proof. unfold create_node. apply op_keeps_guard, create_keeps. Qed.

(** *** Links *)

(** No inode rows are added. *)
Definition rows_sub {A} (m m0 : gmap Z A) : Prop := forall j, is_Some (m !! j) -> is_Some (m0 !! j).

Lemma rows_sub_refl {A} (m : gmap Z A) : rows_sub m m.
Proof. by intros j. Qed.
Lemma rows_sub_insert {A} (m m0 : gmap Z A) i a : is_Some (m0 !! i) -> rows_sub m m0 -> rows_sub (<[i := a]> m) m0.
Proof. intros Hi Hm j. rewrite lookup_insert_is_Some. intros [<-|[_ ?]]; auto. Qed.
Lemma rows_sub_delete {A} (m m0 : gmap Z A) i : rows_sub m m0 -> rows_sub (delete i m) m0.
Proof. intros Hm j. rewrite lookup_delete_is_Some. intros [_ ?]; auto. Qed.
#[export] Hint Resolve rows_sub_refl rows_sub_insert rows_sub_delete : txn_local.

(** Inserting what is there. *)
Lemma shape_insert_id (m : gmap Z StoredNode) i n n' :
  m !! i = Some n -> shape n' = shape n -> shape <$> <[i := n']> m = shape <$> m.
Proof. intros Hi Hs. rewrite fmap_insert, Hs. apply insert_id. by rewrite lookup_fmap, Hi. Qed.

Lemma linked_ns now ino parent name pn node d :
  ns_ok (ns_of d) -> small d -> inodes d !! parent = Some pn -> n_kind pn = Dir ->
  dentries d !! (parent, name) = None ->
  inodes d !! ino = Some node -> n_kind node <> Dir -> n_deleted node = false ->
  let node' := touch now (set_binding 0 EmptyString
                 (set_links (u32_saturating_add (n_nlink node) 1) false node)) in
  let lps := if n_nlink node =? 1 then [(n_parent node, n_name node)] else default [] (link_parents d !! ino) in
  ns_ok (ns_of (with_dentries <[(parent, name) := mkDentry ino (n_kind node)]>
    (with_inodes <[n_ino pn := touch now pn]> (with_inodes <[n_ino node := node']>
      (with_link_parents <[ino := lps ++ [(parent, name)]]> d))))).
Proof.
  intros Hok Hsm Hp Hkp Hfree Hi Hk Hdel node' lps.
  rewrite (node_ino d _ _ Hok Hp), (node_ino d _ _ Hok Hi).
  destruct (nlink_small d _ _ Hok Hsm Hi) as [_ Hlt].
  pose proof (ns_link_ok (ns_of d) parent name ino _ _ Hok (ns_node _ _ _ Hi) Hk Hdel
                (ns_node _ _ _ Hp) Hkp Hfree) as Hlink.
  unfold ns_link in Hlink. unfold ns_of. cbn.
  rewrite (shape_insert_id (<[ino := node']> (inodes d)) parent pn);
    [|by rewrite lookup_insert_ne by congruence|done].
  rewrite fmap_insert. replace (shape node') with (add_link (parent, name) (link_parents d !! ino) (shape node)).1;
    [exact Hlink|]. unfold add_link, shape. cbn. by rewrite nlink_succ.
Qed.

Lemma link_keeps now ino parent name : op_keeps (link now ino parent name).
Proof.
  apply op_keeps_local; [unfold link; solve_local|].
  unfold link; txn_rows. intros d ls a t Hok Hsm H. txn_inv. txn_guards.
  match goal with Hp : inodes d !! parent = Some ?pn, Hi : inodes d !! ino = Some ?n |- _ =>
    pose proof (node_ino d _ _ Hok Hp); pose proof (node_ino d _ _ Hok Hi);
    split_and!; [by apply (linked_ns now ino parent name pn n d)|done|] end.
  cbn. apply rows_sub_insert, rows_sub_insert, rows_sub_refl; naive_solver.
Qed.

(** *** Unlinking *)

(** The rows after removing the entry of a node that is not a directory. *)
Definition unlinked_db (k : Binding) (i : Z) (node' : StoredNode) (L' : option (list Binding)) (d : DB) : DB :=
  with_inodes <[i := node']> (with_link_parents (set_opt i L') (with_dentries (delete k) d)).

Lemma remove_dentry_run now p nm e d c ls s' u :
  ns_ok (ns_of d) -> txn_remove_non_dir_dentry now p nm e (mkTxn c d ls) = (Ok u, s') ->
  exists node node' L', inodes d !! d_ino e = Some node /\ n_kind node <> Dir /\
    drop_link (p, nm) (link_parents d !! d_ino e) (shape node) = Some (shape node', L') /\
    s' = mkTxn c (unlinked_db (p, nm) (d_ino e) node' L' d) ls.
Proof.
  intros Hok. unfold txn_remove_non_dir_dentry; txn_rows. intros H. txn_inv. txn_guards.
  match goal with Hi : inodes d !! _ = Some ?n |- _ =>
    rename n into node; pose proof (node_ino d _ _ Hok Hi) as Hino end.
  unfold drop_link. cbn [shape sh_nlink]. rewrite <-Hino in *.
  destruct (1 <? n_nlink node) eqn:Hn.
  - txn_inv. cbn [n_nlink set_links link_parents with_dentries] in *.
    match goal with H : negb _ = true |- _ => apply negb_true_iff in H as Hlen end.
    destruct (n_nlink node - 1 =? 1) eqn:Hn1; txn_inv;
      [eexists node, _, None|eexists node, _, (Some _)]; (split_and!; [done|done| |reflexivity]);
      rewrite Hn, Hn1, Hlen; [|done].
    match goal with H : head _ = Some _ |- _ => rewrite H end. done.
  - txn_inv. eexists node, _, None. split_and!; [done|done| |reflexivity]. by rewrite Hn.
Qed.

Lemma unlinked_ns k e node node' L' d :
  ns_ok (ns_of d) -> dentries d !! k = Some e -> inodes d !! d_ino e = Some node ->
  n_kind node <> Dir -> drop_link k (link_parents d !! d_ino e) (shape node) = Some (shape node', L') ->
  ns_of (unlinked_db k (d_ino e) node' L' d) = ns_unlink k (d_ino e) (shape node') L' (ns_of d) /\
  ns_ok (ns_of (unlinked_db k (d_ino e) node' L' d)).
Proof.
  intros Hok He Hi Hk Hdrop.
  destruct (ns_unlink_ok (ns_of d) k e _ Hok He (ns_node _ _ _ Hi) Hk) as (sh'&L''&Hdrop'&Hok').
  injection (eq_trans (eq_sym Hdrop) Hdrop') as <- <-.
  assert (ns_of (unlinked_db k (d_ino e) node' L' d) = ns_unlink k (d_ino e) (shape node') L' (ns_of d)) as ->; [|done].
  unfold ns_of, ns_unlink. cbn. by rewrite fmap_insert.
Qed.

(** Touching a directory on the way out. *)
Lemma put_touched_ns d now i n : inodes d !! i = Some n ->
  ns_of (with_inodes <[i := touch now n]> d) = ns_of d.
Proof. intros Hi. unfold ns_of. cbn. by rewrite (shape_insert_id _ _ n). Qed.

Lemma unlink_keeps now parent name : op_keeps (unlink now parent name).
Proof.
  apply op_keeps_local; [unfold unlink, txn_remove_non_dir_dentry; solve_local|].
  unfold unlink; txn_rows. intros d ls a t Hok Hsm H. txn_inv. txn_guards.
  match goal with
    Hp : inodes d !! parent = Some ?n, Hr : txn_remove_non_dir_dentry _ _ _ ?x _ = _ |- _ =>
      rename n into pn, x into e, Hp into Hpn; apply remove_dentry_run in Hr as (node&node'&L'&Hi&Hk&Hdrop&->); [|done] end.
  destruct (unlinked_ns (parent, name) e node node' L' d) as [_ Hok']; [done..|].
  change (n_ino (touch now pn)) with (n_ino pn). rewrite (node_ino d _ _ Hok Hpn) in *.
  cbn [view]. split_and!; [|done|].
  - rewrite put_touched_ns; [done|]. cbn. rewrite lookup_insert_ne; [done|]. congruence.
  - apply rows_sub_insert, rows_sub_insert, rows_sub_refl; naive_solver.
Qed.

(** *** Removing directories *)

Lemma scan_dentries_elem d p nm e : (nm, e) ∈ scan_dentries d p <-> dentries d !! (p, nm) = Some e.
Proof.
  unfold scan_dentries. rewrite sort_by_perm, list_elem_of_omap.
  split.
  - intros ([[p' nm'] e']&Hin&Heq). apply elem_of_map_to_list in Hin.
    destruct (Z.eqb_spec p' p); [|done]. by simplify_eq.
  - intros He. exists ((p, nm), e). split; [by apply elem_of_map_to_list|]. by rewrite Z.eqb_refl.
Qed.

Lemma dir_is_empty_spec d i : dir_is_empty d i = true <-> forall x, dentries d !! (i, x) = None.
Proof.
  unfold dir_is_empty. rewrite bool_decide_eq_true.
  pose proof (fun nm e => scan_dentries_elem d i nm e) as Hel.
  destruct (scan_dentries d i) as [|[nm e] rest]; cbn.
  - split; [|done]. intros _ x. apply eq_None_not_Some. intros [e He].
    apply (Hel x e) in He. set_solver.
  - split; [done|]. intros Hn. assert (dentries d !! (i, nm) = Some e) as He by (apply Hel; set_solver).
    by rewrite Hn in He.
Qed.

(** The rows after removing an empty directory, its parent's link count given. *)
Lemma rmdir_ns d p nm e pn pn' :
  ns_ok (ns_of d) -> dentries d !! (p, nm) = Some e -> inodes d !! p = Some pn ->
  (exists n, inodes d !! d_ino e = Some n /\ n_kind n = Dir) -> dir_is_empty d (d_ino e) = true ->
  shape pn' = sh_set_nlink (n_nlink pn - 1) (shape pn) ->
  ns_ok (ns_of (with_inodes (delete (d_ino e)) (with_dentries (delete (p, nm))
                  (with_inodes <[p := pn']> d)))).
Proof.
  intros Hok He Hp (n&Hi&Hk) Hempty Hs. rewrite dir_is_empty_spec in Hempty.
  pose proof (ns_rmdir_ok (ns_of d) p nm e _ _ Hok He (ns_node _ _ _ Hp) (ns_node _ _ _ Hi) Hk Hempty) as Hr.
  unfold ns_rmdir in Hr. unfold ns_of. cbn. by rewrite fmap_delete, fmap_insert, Hs.
Qed.

Lemma dir_nlink d i n : ns_ok (ns_of d) -> small d -> inodes d !! i = Some n -> n_kind n = Dir ->
  2 <= n_nlink n < u32_max.
Proof.
  intros Hok Hsm Hi Hk. split; [|by eapply nlink_small].
  destruct (dir_ok _ Hok _ _ (ns_node _ _ _ Hi) Hk) as (_&_&Hn&_). cbn in Hn.
  pose proof (subdirs_nonneg (dentries d) i). lia.
Qed.

Lemma rmdir_keeps now parent name : op_keeps (rmdir now parent name).
Proof.
  apply op_keeps_local; [unfold rmdir; solve_local|].
  unfold rmdir; txn_rows. intros d ls a t Hok Hsm H. txn_inv. txn_guards.
  match goal with Hp : inodes d !! parent = Some ?n, He : dentries d !! _ = Some ?x |- _ =>
    rename n into pn, x into e, Hp into Hpn; pose proof (dir_nlink d _ _ Hok Hsm Hpn) as Hnl end.
  change (n_ino (touch now _)) with (n_ino pn). rewrite (node_ino d _ _ Hok Hpn).
  split_and!; [|done|].
  - eapply rmdir_ns; [done..|eauto|done|]. unfold shape, sh_set_nlink. cbn. f_equal.
    unfold u32_saturating_sub. specialize (Hnl ltac:(done)). lia.
  - cbn. apply rows_sub_delete, rows_sub_insert, rows_sub_refl; naive_solver.
Qed.

(** *** The ancestry check *)

Abbreviation parents_of d := (dir_parent (ns_nodes (ns_of d))).

Lemma validate_loop_sound fuel d : forall p anc visited,
  validate_loop fuel d p anc visited = Some (Ok tt) -> avoids (parents_of d) anc p.
Proof.
  induction fuel as [|fuel IH]; intros p anc visited; cbn [validate_loop]; [done|].
  destruct (Z.eqb_spec p anc); [done|]. destruct (Z.eqb_spec p ROOT_INODE) as [->|].
  { intros _. constructor. by intros ->. }
  case_bool_decide; [done|]. destruct (inodes d !! p) as [node|] eqn:Hp; [|done].
  destruct (is_dir (n_kind node)) eqn:Hk; cbn [negb orb]; [|done]. apply is_dir_spec in Hk.
  destruct (n_parent node =? p); [done|]. intros Ha%IH.
  eapply avoids_step; [done|done| |exact Ha]. by eapply (dir_parent_lookup _ _ (shape node)); [apply ns_node|].
Qed.

(** Each iteration visits an inode that was not visited before. *)
Lemma validate_loop_total d : forall fuel p anc visited,
  visited ⊆ dom (inodes d) -> (size (inodes d) < size visited + fuel)%nat ->
  is_Some (validate_loop fuel d p anc visited).
Proof.
  induction fuel as [|fuel IH]; intros p anc visited Hsub Hlt.
  { apply subseteq_size in Hsub. rewrite size_dom in Hsub. lia. }
  cbn [validate_loop]. destruct (p =? anc); [done|]. destruct (p =? ROOT_INODE); [done|].
  case_bool_decide as Hv; [done|]. destruct (inodes d !! p) as [node|] eqn:Hp; [|done].
  destruct (negb _ || _); [done|]. apply IH.
  - apply union_subseteq. split; [|done]. apply singleton_subseteq_l, elem_of_dom. eauto.
  - rewrite size_union, size_singleton by set_solver. lia.
Qed.

(** On a well-formed ancestry the check accepts every target outside the moved
    directory: the climb meets no node twice. *)
Lemma validate_loop_complete d : forall fuel p anc visited,
  avoids (parents_of d) anc p -> (forall x, x ∈ visited -> avoids (parents_of d) x p) ->
  is_Some (validate_loop fuel d p anc visited) ->
  validate_loop fuel d p anc visited = Some (Ok tt).
Proof.
  induction fuel as [|fuel IH]; intros p anc visited Ha Hv; cbn [validate_loop]; [by intros []|].
  destruct (Z.eqb_spec p anc) as [->|_]; [by apply avoids_ne in Ha|].
  destruct (Z.eqb_spec p ROOT_INODE) as [|Hr]; [done|].
  rewrite bool_decide_false by (intros Hin%Hv; by apply avoids_ne in Hin).
  inversion Ha as [|p' q ? ? Hq Haq]; subst; [done|].
  assert (reaches (parents_of d) p) as Hreach by (by eapply avoids_reaches).
  unfold dir_parent in Hq. cbn in Hq. rewrite lookup_fmap in Hq.
  destruct (inodes d !! p) as [node|] eqn:Hp; [|done]. cbn in Hq.
  case_bool_decide as Hk; [|done]. injection Hq as <-.
  unfold is_dir. rewrite bool_decide_true by done. cbn [negb orb].
  assert (parents_of d p = Some (n_parent node)) as Hpm
    by (by eapply (dir_parent_lookup _ _ (shape node)); [apply ns_node|]).
  pose proof (parent_avoids _ p _ Hr Hpm Hreach) as Hself.
  destruct (Z.eqb_spec (n_parent node) p); [by apply avoids_ne in Hself|].
  intros Hs. apply IH; [done| |done]. intros x [->%elem_of_singleton|Hx]%elem_of_union; [done|].
  specialize (Hv x Hx). inversion Hv; subst; [done|]. congruence.
Qed.

Lemma validate_directory_move_spec d p anc :
  validate_directory_move d p anc = Ok tt <-> avoids (parents_of d) anc p.
Proof.
  unfold validate_directory_move.
  assert (is_Some (validate_loop (S (size (inodes d))) d p anc ∅)) as Hs.
  { apply validate_loop_total; [set_solver|]. rewrite size_empty. lia. }
  split.
  - destruct Hs as [r Hr]. rewrite Hr. cbn. intros ->. by eapply validate_loop_sound.
  - intros Ha. by rewrite (validate_loop_complete d _ p anc ∅) by set_solver.
Qed.

(** C39: the ancestry check of a directory move ends on every key space, cyclic
    or broken ones included, within one iteration more than there are inodes, and
    accepts a target exactly when climbing from it reaches the root without
    meeting the moved directory. *)
Theorem validate_directory_move_exact d parent ancestor :
  is_Some (validate_loop (S (size (inodes d))) d parent ancestor ∅) /\
  (validate_directory_move d parent ancestor = Ok tt <-> avoids (parents_of d) ancestor parent).
Proof.
  split; [|apply validate_directory_move_spec].
  apply validate_loop_total; [set_solver|]. rewrite size_empty. lia.
Qed.

Lemma validate_in_txn_Ok p anc u s s' :
  validate_directory_move_in_txn p anc s = (Ok u, s') ->
  avoids (parents_of (view s)) anc p /\ s' = s.
Proof.
  rewrite <-validate_directory_move_spec. unfold validate_directory_move_in_txn.
  rewrite bind_read. by destruct (validate_directory_move (view s) p anc) as [[]|]; intros [= _ <-].
Qed.
