(* ===== verification/MetaRename.v ===== *)
(** Renames and exchanges keep the namespace well formed, and with them every
    sequence of metadata operations from an initialised volume. *)
From stdpp Require Import options.
From S2P Require Import Prelude MetaTypes MetaTxn TxnRun MetaOps Namespace MetaInv.

(** ** Rebinding and the parents' link counts *)

Lemma set_opt_id {A} (m : gmap Z A) i : set_opt i (m !! i) m = m.
Proof. unfold set_opt. destruct (m !! i) eqn:Hi; [by apply insert_id|by apply delete_id]. Qed.

Lemma move_binding_run node p1 n1 p2 n2 c d ls node' s' :
  txn_move_node_binding node p1 n1 p2 n2 (mkTxn c d ls) = (Ok node', s') ->
  exists L', move_link (p1, n1) (p2, n2) (link_parents d !! n_ino node) (shape node) = Some (shape node', L') /\
    s' = mkTxn c (with_link_parents (set_opt (n_ino node) L') d) ls.
Proof.
  unfold txn_move_node_binding, move_link. cbn [shape sh_kind sh_nlink].
  fold (is_dir (n_kind node)). destruct (is_dir (n_kind node) || (n_nlink node <=? 1)); txn_rows; intros H; txn_inv.
  - eexists. split; [done|]. unfold with_link_parents. rewrite set_opt_id. by destruct d.
  - match goal with H : rebind _ _ _ = Some ?l |- _ => exists (Some l) end. split; [|done].
    match goal with H : rebind ?k ?k' ?l = Some _ |- _ =>
      change (rebind k k' l) with (list_rebind k k' l) in H; rewrite H end. done.
Qed.

(** What the two parents' link counts change by. *)
Definition parent_delta (p1 p2 d1 d2 j : Z) : Z :=
  (if decide (j = p1) then d1 else 0) + (if decide (j = p2) then d2 else 0).

Lemma apply_nlink_delta_exact nl delta :
  2 <= nl < u32_max -> -1 <= delta <= 1 -> apply_nlink_delta nl delta = nl + delta.
Proof.
  intros. unfold apply_nlink_delta, u32_saturating_add, u32_saturating_sub.
  destruct (Z.leb_spec 0 delta); lia.
Qed.

Section put_parents.
Context (now p1 p2 d1 d2 : Z) (pn1 pn2 : StoredNode).
Context (Hi1 : n_ino pn1 = p1) (Hi2 : n_ino pn2 = p2) (Hsame : p1 = p2 -> pn2 = pn1).
Context (Hb1 : 2 <= n_nlink pn1 < u32_max) (Hb2 : 2 <= n_nlink pn2 < u32_max).
Context (Hd1 : -1 <= d1 <= 1) (Hd2 : -1 <= d2 <= 1) (Hd : -1 <= d1 + d2 <= 1).
#[local] Set Default Proof Using "All".

(** The rows of the parents afterwards, as shapes. *)
Definition parents_put (m : gmap Z StoredNode) (j : Z) : option Shape :=
  if decide (j = p1) then Some (sh_set_nlink (n_nlink pn1 + parent_delta p1 p2 d1 d2 j) (shape pn1))
  else if decide (j = p2) then Some (sh_set_nlink (n_nlink pn2 + parent_delta p1 p2 d1 d2 j) (shape pn2))
  else shape <$> m !! j.

Lemma put_parents_run c d ls u s' :
  put_parents now p1 p2 pn1 pn2 d1 d2 (mkTxn c d ls) = (Ok u, s') ->
  exists m', s' = mkTxn c (with_inodes (fun _ => m') d) ls /\
    (forall j, shape <$> m' !! j = parents_put (inodes d) j) /\
    (forall m0, rows_sub (inodes d) m0 -> is_Some (m0 !! p1) -> is_Some (m0 !! p2) -> rows_sub m' m0).
Proof.
  unfold put_parents, parents_put, parent_delta. destruct (Z.eqb_spec p1 p2) as [E|E]; txn_rows;
    intros H; txn_inv; (eexists; split_and!; [reflexivity| |by intros; repeat apply rows_sub_insert]); intros j; cbn.
  - rewrite apply_nlink_delta_exact, <-E by done. destruct (decide (j = n_ino pn1)) as [->|].
    + by rewrite lookup_insert_eq.
    + by rewrite lookup_insert_ne.
  - rewrite !apply_nlink_delta_exact by done. destruct (decide (j = n_ino pn2)) as [->|].
    + by rewrite lookup_insert_eq, !decide_False by done.
    + rewrite lookup_insert_ne by done. destruct (decide (j = n_ino pn1)) as [->|].
      * rewrite lookup_insert_eq. cbn. by rewrite Z.add_0_r.
      * by rewrite lookup_insert_ne.
Qed.
End put_parents.

(** ** Rename *)

Lemma avoids_ext pm pm' i p : (forall x, pm' x = pm x) -> avoids pm i p -> avoids pm' i p.
Proof. intros Hx. induction 1; econstructor; rewrite ?Hx; eauto. Qed.

(** Changing the link count of a directory changes no ancestry. *)
Lemma parents_of_recounted d p n nl x : inodes d !! p = Some n ->
  parents_of (with_inodes <[p := set_nlink nl n]> d) x = parents_of d x.
Proof.
  intros Hp. cbn [ns_of ns_nodes inodes with_inodes]. rewrite fmap_insert, dir_parent_insert.
  case_decide as E; [|done]. subst x. unfold dir_parent. rewrite lookup_fmap, Hp. cbn. done.
Qed.

Section finish.
Context (now p1 p2 : Z) (n1 n2 : string) (e : StoredDentry) (src pn1 pn2 : StoredNode).
Context (D : DB) (new_delta : Z).
(** The new parent as it is once the replaced entry is accounted for. *)
Let D' := with_inodes <[p2 := set_nlink (n_nlink pn2 + new_delta) pn2]> D.
Context (Hok : ns_ok (ns_of D')).
Context (He : dentries D !! (p1, n1) = Some e) (Hfree : dentries D !! (p2, n2) = None).
Context (Hsrc : inodes D !! d_ino e = Some src).
Context (Hp1 : inodes D !! p1 = Some pn1) (Hp2 : inodes D !! p2 = Some pn2).
Context (Hk1 : n_kind pn1 = Dir) (Hk2 : n_kind pn2 = Dir).
Context (Hino : n_ino pn1 = p1 /\ n_ino pn2 = p2).
Context (Hb1 : 2 <= n_nlink pn1 < u32_max) (Hb2 : 2 <= n_nlink pn2 < u32_max).
Context (Hnd : new_delta = 0 \/ new_delta = -1).
Context (Hav : n_kind src = Dir -> avoids (parents_of D) (d_ino e) p2).
#[local] Set Default Proof Using "All".

Lemma finish_not_new_parent : d_ino e <> p2.
Proof.
  intros E. destruct (decide (n_kind src = Dir)) as [Hk|Hk]; [by apply Hav, avoids_ne in Hk|congruence].
Qed.

Lemma finish_src : ns_nodes (ns_of D') !! d_ino e = Some (shape src).
Proof. pose proof finish_not_new_parent. cbn. by rewrite lookup_fmap, lookup_insert_ne, Hsrc by done. Qed.

Lemma finish_avoids : n_kind src = Dir -> avoids (parents_of D') (d_ino e) p2.
Proof. intros Hk. eapply avoids_ext; [|by apply Hav]. intros x. by apply parents_of_recounted. Qed.

Lemma finish_new_parent : ns_nodes (ns_of D') !! p2 =
  Some (sh_set_nlink (n_nlink pn2 + new_delta) (shape pn2)).
Proof. cbn. by rewrite lookup_fmap, lookup_insert_eq. Qed.

(** The changes of the parents' counts. *)
Let d1 := if is_dir (n_kind src) && negb (p1 =? p2) then -1 else 0.
Let d2 := if is_dir (n_kind src) && negb (p1 =? p2) then new_delta + 1 else new_delta.

Lemma finish_kind : d_kind e = n_kind src.
Proof. destruct (dent_into _ Hok p1 n1 e He) as (?&Hs&?). rewrite finish_src in Hs. by simplify_eq. Qed.

(** They are what the moved entry is worth in either directory. *)
Lemma finish_delta j : parent_delta p1 p2 d1 d2 j =
  (if decide (j = p2) then new_delta else 0) - counts_in j (p1, n1) e + counts_in j (p2, n2) e.
Proof.
  unfold parent_delta, d1, d2, counts_in, is_dir. rewrite finish_kind. cbn [fst].
  destruct (Z.eqb_spec p1 p2); case_bool_decide; repeat case_decide; cbn;
    first [lia|exfalso; naive_solver].
Qed.

(** Every node but the moved one is the old one recounted. *)
Lemma finish_recounted (m : gmap Z StoredNode) j : j <> d_ino e -> m !! j = inodes D !! j ->
  parents_put p1 p2 d1 d2 pn1 pn2 m j =
  recount (dentries D) (move_dents (ns_of D') p1 p2 n1 n2 e) j <$> ns_nodes (ns_of D') !! j.
Proof.
  intros Hj Hm. unfold parents_put. rewrite finish_delta.
  assert (subdirs (move_dents (ns_of D') p1 p2 n1 n2 e) j - subdirs (dentries D) j =
    - counts_in j (p1, n1) e + counts_in j (p2, n2) e) as Hsub.
  { unfold move_dents. cbn [ns_dents ns_of D' dentries with_inodes].
    rewrite subdirs_insert, (subdirs_delete _ _ e); [lia|done|]. apply lookup_delete_None. by right. }
  destruct (decide (j = p2)) as [->|Hne2].
  - rewrite finish_new_parent. cbn [fmap option_fmap option_map]. unfold recount.
    cbn [sh_kind sh_set_nlink shape]. rewrite bool_decide_true, Hsub by done.
    assert ((if decide (p2 = p1) then pn1 else pn2) = pn2) as Hpn by (case_decide; congruence).
    destruct (decide (p2 = p1)); [subst pn1|]; unfold sh_set_nlink; cbn; do 2 f_equal; lia.
  - cbn. rewrite lookup_fmap, lookup_insert_ne by done. destruct (decide (j = p1)) as [->|Hne1].
    + rewrite Hp1. cbn [fmap option_fmap option_map]. unfold recount. cbn [sh_kind shape].
      rewrite bool_decide_true, Hsub by done. unfold sh_set_nlink. cbn. do 2 f_equal; lia.
    + rewrite Hm. destruct (inodes D !! j) as [n|]; [|done]. cbn [fmap option_fmap option_map].
      rewrite recount_same; [done|]. unfold counts_in in Hsub. cbn [fst] in Hsub.
      rewrite !decide_False in Hsub by naive_solver. lia.
Qed.

Lemma finish_run replaced rdir c ls r t :
  finish_rename now p1 n1 p2 n2 e src pn1 pn2 replaced new_delta rdir (mkTxn c D ls) = (Ok r, t) ->
  ns_ok (ns_of (view t)) /\ counters (view t) = counters D /\
  (forall m0, rows_sub (inodes D) m0 -> rows_sub (inodes (view t)) m0).
Proof.
  unfold finish_rename; txn_rows. intros H. txn_inv. rename a into moved.
  apply move_binding_run in Hrun as (L'&Hm&->). cbn [view committed leases] in *.
  destruct (move_link_same _ _ _ _ _ _ Hm) as (Hinom&_).
  assert (n_ino src = d_ino e) as Hinos by (by destruct (ok_node _ Hok _ _ finish_src)).
  change (n_ino (touch now moved)) with (sh_ino (shape moved)) in *.
  rewrite Hinom in *. cbn [sh_ino shape] in *. rewrite Hinos in *.
  apply put_parents_run in Hrun2 as (m'&->&Hm'&Hsub); [|by destruct Hino..| | | | | |].
  2: { intros ->. congruence. }
  2-6: unfold d1, d2 in *; repeat case_match; lia.
  assert (d_ino e <> p1) as Hne1 by (by eapply (entry_not_parent _ Hok)).
  cbn [view]. split_and!; [|done|].
  - destruct (ns_move_ok (ns_of D') p1 p2 n1 n2 e (shape src) _ Hok He Hfree finish_src
                finish_new_parent Hk2 finish_avoids) as (sh'&L''&Hm''&Hmk).
    injection (eq_trans (eq_sym Hm) Hm'') as <- <-. apply (Hmk (shape <$> m')).
    + rewrite lookup_fmap, Hm'. unfold parents_put. rewrite !decide_False by (done || apply finish_not_new_parent).
      cbn. by rewrite lookup_insert_eq.
    + intros j Hj. rewrite lookup_fmap, Hm'. apply finish_recounted; [done|]. cbn. by rewrite lookup_insert_ne.
  - intros m0 Hm0. apply Hsub; [|eauto..]. cbn. apply rows_sub_insert; [|done]. eauto.
Qed.
End finish.

Lemma avoids_other pm pm' i j p : (forall x, x <> j -> pm' x = pm x) ->
  avoids pm i p -> avoids pm j p -> avoids pm' i p.
Proof.
  intros Hx. induction 1 as [|p q ? ? Hq _ IH]; intros Hj; [by constructor|].
  inversion Hj as [|p' q' ? ? Hq' Hj']; subst; [done|].
  apply (avoids_step _ _ _ q); [done|done|by rewrite Hx|]. apply IH. congruence.
Qed.

Lemma recounted_same d p n : inodes d !! p = Some n ->
  ns_of (with_inodes <[p := set_nlink (n_nlink n + 0) n]> d) = ns_of d.
Proof.
  intros Hp. unfold ns_of. cbn. rewrite (shape_insert_id _ _ n); [done|done|].
  unfold shape, set_nlink. cbn. by rewrite Z.add_0_r.
Qed.

(** The state between the removal of the replaced entry and the move. *)
Record replaced_state (d D : DB) (p2 : Z) (n2 : string) (pn2 : StoredNode) (dest : StoredDentry)
    (is_directory : bool) (delta : Z) : Prop := {
  rp_delta : delta = 0 \/ delta = -1;
  rp_ok : ns_ok (ns_of (with_inodes <[p2 := set_nlink (n_nlink pn2 + delta) pn2]> D));
  rp_dents : dentries D = delete (p2, n2) (dentries d);
  rp_nodes j : j <> d_ino dest -> inodes D !! j = inodes d !! j;
  rp_counters : counters D = counters d;
  rp_rows : rows_sub (inodes D) (inodes d);
  rp_kind : exists n, inodes d !! d_ino dest = Some n /\ is_dir (n_kind n) = is_directory;
  rp_empty : is_directory = true -> forall x, dentries d !! (d_ino dest, x) = None
}.

Lemma replace_dir_state d p2 n2 pn2 dest destn :
  ns_ok (ns_of d) -> dentries d !! (p2, n2) = Some dest -> inodes d !! d_ino dest = Some destn ->
  n_kind destn = Dir -> inodes d !! p2 = Some pn2 -> dir_is_empty d (d_ino dest) = true ->
  replaced_state d (with_link_parents (delete (d_ino dest)) (with_inodes (delete (d_ino dest))
    (with_dentries (delete (p2, n2)) d))) p2 n2 pn2 dest true (-1).
Proof.
  intros Hok Hdest Hi Hk Hp2 Hempty. pose proof (entry_not_parent _ Hok _ _ _ Hdest) as Hne.
  destruct (dir_ok _ Hok _ _ (ns_node _ _ _ Hi) Hk) as (_&_&_&Hl). cbn in Hl.
  assert (d_ino dest <> p2) as Hne' by exact Hne.
  split; [by right| |done| |done|apply rows_sub_delete, rows_sub_refl| |by rewrite <-dir_is_empty_spec].
  - pose proof (rmdir_ns d p2 n2 dest pn2 (set_nlink (n_nlink pn2 + -1) pn2) Hok Hdest Hp2
                  (ex_intro _ destn (conj Hi Hk)) Hempty eq_refl) as Hr.
    revert Hr. unfold ns_of. cbn. by rewrite (delete_insert_ne _ (d_ino dest)), (delete_id (link_parents d)) by done.
  - intros j Hj. cbn. by rewrite lookup_delete_ne.
  - exists destn. split; [done|]. by apply is_dir_spec.
Qed.

Lemma replace_file_state d p2 n2 pn2 dest node node' L' :
  ns_ok (ns_of d) -> dentries d !! (p2, n2) = Some dest -> inodes d !! d_ino dest = Some node ->
  n_kind node <> Dir -> inodes d !! p2 = Some pn2 ->
  drop_link (p2, n2) (link_parents d !! d_ino dest) (shape node) = Some (shape node', L') ->
  replaced_state d (unlinked_db (p2, n2) (d_ino dest) node' L' d) p2 n2 pn2 dest false 0.
Proof.
  intros Hok Hdest Hi Hk Hp2 Hdrop. pose proof (entry_not_parent _ Hok _ _ _ Hdest) as Hne.
  destruct (unlinked_ns _ _ _ _ _ _ Hok Hdest Hi Hk Hdrop) as [_ Hok'].
  split; [by left| |done| |done| | |done].
  - rewrite recounted_same; [done|]. cbn. by rewrite lookup_insert_ne.
  - intros j Hj. cbn. by rewrite lookup_insert_ne.
  - cbn. apply rows_sub_insert, rows_sub_refl. by rewrite Hi.
  - exists node. split; [done|]. by apply is_dir_false.
Qed.

Lemma replace_destination_run now p2 n2 src dest destn pn2 c d ls delta rdir s' :
  ns_ok (ns_of d) -> dentries d !! (p2, n2) = Some dest -> inodes d !! d_ino dest = Some destn ->
  inodes d !! p2 = Some pn2 ->
  replace_destination now p2 n2 src dest destn (mkTxn c d ls) = (Ok (delta, rdir), s') ->
  rdir = is_dir (n_kind src) /\ exists D, s' = mkTxn c D ls /\ replaced_state d D p2 n2 pn2 dest rdir delta.
Proof.
  intros Hok Hdest Hi Hp2. unfold replace_destination; txn_rows.
  assert (forall r, (txn_remove_non_dir_dentry now p2 n2 dest ;; txn_ret (0, false)) (mkTxn c d ls) = (Ok r, s') ->
    exists D, s' = mkTxn c D ls /\ r = (0, false) /\ replaced_state d D p2 n2 pn2 dest false 0) as Hfile.
  { intros r H. txn_inv. match goal with H : txn_remove_non_dir_dentry _ _ _ _ _ = _ |- _ =>
      apply remove_dentry_run in H as (node&node'&L'&Hi'&Hk&Hdrop&->); [|done] end.
    eexists. split_and!; [done|done|]. by eapply replace_file_state. }
  destruct (n_kind src) eqn:Hks, (n_kind destn) eqn:Hkd; try (by intros H; txn_inv);
    try (intros (D&->&[= -> ->]&HD)%Hfile; split; [done|by exists D]).
  intros H. txn_inv. match goal with H : (_, _) = (_, _) |- _ => injection H as <- <- end.
  split; [done|]. eexists. split; [done|]. by eapply replace_dir_state.
Qed.

(** The facts a rename has established when it starts to write. *)
Record rename_facts (d : DB) (p1 : Z) (n1 : string) (p2 : Z) (n2 : string) (e : StoredDentry)
    (src pn1 pn2 : StoredNode) : Prop := {
  rf_keys : (p1, n1) <> (p2, n2);
  rf_p1 : inodes d !! p1 = Some pn1; rf_k1 : n_kind pn1 = Dir;
  rf_p2 : inodes d !! p2 = Some pn2; rf_k2 : n_kind pn2 = Dir;
  rf_entry : dentries d !! (p1, n1) = Some e;
  rf_src : inodes d !! d_ino e = Some src;
  rf_avoids : n_kind src = Dir -> avoids (parents_of d) (d_ino e) p2
}.

Definition kept (d : DB) (t : TxnState) : Prop :=
  ns_ok (ns_of (view t)) /\ counters (view t) !! INODE_ID_KEY = counters d !! INODE_ID_KEY /\ rows_sub (inodes (view t)) (inodes d).

Section rename_tail.
Context (now p1 p2 : Z) (n1 n2 : string) (e : StoredDentry) (src pn1 pn2 : StoredNode) (d : DB).
Context (Hok : ns_ok (ns_of d)) (Hsm : small d) (Hf : rename_facts d p1 n1 p2 n2 e src pn1 pn2).
#[local] Set Default Proof Using "All".

Lemma rename_inos : n_ino pn1 = p1 /\ n_ino pn2 = p2.
Proof. destruct Hf. split; by eapply node_ino. Qed.

Lemma finish_free_run replaced c ls r t : dentries d !! (p2, n2) = None ->
  finish_rename now p1 n1 p2 n2 e src pn1 pn2 replaced 0 false (mkTxn c d ls) = (Ok r, t) -> kept d t.
Proof.
  intros Hfree H. pose proof rename_inos. destruct Hf.
  apply finish_run in H as (?&?&Hs); try done; try (by eapply (dir_nlink d)); [|by rewrite recounted_same|by left].
  split_and!; [done|congruence|]. apply Hs, rows_sub_refl.
Qed.

Lemma finish_replaced_run replaced c ls r t dest D delta : dentries d !! (p2, n2) = Some dest ->
  d_ino dest <> d_ino e -> replaced_state d D p2 n2 pn2 dest (is_dir (n_kind src)) delta ->
  finish_rename now p1 n1 p2 n2 e src pn1 pn2 replaced delta (is_dir (n_kind src)) (mkTxn c D ls) = (Ok r, t) ->
  kept d t.
Proof.
  intros Hdest Hne HD H. pose proof rename_inos. destruct Hf, HD.
  assert (d_ino dest <> p1) as Hn1.
  { destruct rp_kind0 as (n&Hn&Hk). intros E. rewrite E in *.
    assert (is_dir (n_kind src) = true) as Hd by (rewrite <-Hk; apply is_dir_spec; congruence).
    by rewrite (rp_empty0 Hd) in rf_entry0. }
  assert (d_ino dest <> p2) as Hn2 by (by eapply (entry_not_parent _ Hok)).
  apply finish_run in H as (?&?&Hs); try done; try (by rewrite rp_nodes0); try (by eapply (dir_nlink d));
    [|by rewrite rp_dents0, lookup_delete_ne|by rewrite rp_dents0, lookup_delete_eq|].
  - split_and!; [done|congruence|]. by apply Hs.
  - intros Hk. eapply avoids_other; [|by apply rf_avoids0|by eapply (parent_avoids_entry _ _ _ _ Hok)].
    intros x Hx. unfold dir_parent. cbn. by rewrite !lookup_fmap, rp_nodes0.
Qed.
End rename_tail.

Lemma second_parent_Ok p1 p2 pn1 pn2 c d ls (k : txn StoredNode) s' :
  inodes d !! p1 = Some pn1 -> n_kind pn1 = Dir ->
  (p1 <> p2 -> k (mkTxn c d ls) = (Ok pn2, s') ->
     inodes d !! p2 = Some pn2 /\ n_kind pn2 = Dir /\ s' = mkTxn c d ls) ->
  (if p1 =? p2 then txn_ret pn1 else k) (mkTxn c d ls) = (Ok pn2, s') ->
  inodes d !! p2 = Some pn2 /\ n_kind pn2 = Dir /\ s' = mkTxn c d ls.
Proof.
  intros Hp Hk Hother. destruct (Z.eqb_spec p1 p2) as [->|]; [by intros [= -> ->]|auto].
Qed.

Lemma check_move_Ok (b : bool) p anc u s s' :
  (if b then validate_directory_move_in_txn p anc else txn_ret tt) s = (Ok u, s') ->
  (b = true -> avoids (parents_of (view s)) anc p) /\ s' = s.
Proof.
  destruct b; [|by intros [= _ ->]]. intros [? ->]%validate_in_txn_Ok. done.
Qed.

Lemma same_binding_false p1 p2 (n1 n2 : string) :
  (p1 =? p2) && bool_decide (n1 = n2) = false -> (p1, n1) <> (p2, n2).
Proof. intros H [= -> ->]. by rewrite Z.eqb_refl, bool_decide_true in H. Qed.

Lemma rename_with_mode_keeps now p1 n1 p2 n2 noreplace :
  op_keeps (rename_with_mode now p1 n1 p2 n2 noreplace).
Proof.
  apply op_keeps_local.
  { unfold rename_with_mode, lookup, validate_directory_move_in_txn, finish_rename, put_parents,
      txn_move_node_binding, replace_destination, txn_remove_non_dir_dentry. solve_local. }
  unfold rename_with_mode, lookup; txn_rows. intros d ls r t Hok Hsm H. fold (kept d t).
  destruct ((p1 =? p2) && bool_decide (n1 = n2)) eqn:Hsame; [txn_inv; by apply put_none|].
  apply same_binding_false in Hsame. txn_inv. txn_guards. change (kept d t).
  match goal with
    Hp : inodes d !! p1 = Some ?x, He : dentries d !! (p1, n1) = Some ?y,
    Hs : inodes _ !! d_ino ?y = Some ?z, H2 : (if p1 =? p2 then _ else _) _ = (Ok ?w, _),
    Hv : (if is_dir _ then _ else _) _ = _ |- _ =>
      rename x into pn1, y into e, z into src, w into pn2;
      apply second_parent_Ok in H2 as (Hp2&Hk2&->); [|done|done|by intros _ ?; txn_inv; txn_guards];
      apply check_move_Ok in Hv as [Hav ->] end.
  cbn [view] in *. rewrite is_dir_spec in Hav.
  assert (rename_facts d p1 n1 p2 n2 e src pn1 pn2) as Hf by done.
  destruct (dentries d !! (p2, n2)) as [dest|] eqn:Hdest; [|by eapply finish_free_run].
  destruct (Z.eqb_spec (d_ino dest) (d_ino e)); [txn_inv; by apply put_none|]. cbn [mbind option_bind] in *.
  txn_inv. match goal with x : (Z * bool)%type |- _ => destruct x as [delta rdir] end.
  match goal with H : replace_destination _ _ _ _ _ _ _ = _ |- _ =>
    apply (replace_destination_run _ _ _ _ _ _ pn2) in H as (->&D&->&HD); [|done..] end.
  by eapply finish_replaced_run.
Qed.

(** ** Exchange *)

Section exchange.
Context (now p1 p2 : Z) (n1 n2 : string) (e1 e2 : StoredDentry) (nd1 nd2 pn1 pn2 : StoredNode) (d : DB).
Context (Hok : ns_ok (ns_of d)) (Hsm : small d).
Context (Hp1 : inodes d !! p1 = Some pn1) (Hp2 : inodes d !! p2 = Some pn2).
Context (Hk1 : n_kind pn1 = Dir) (Hk2 : n_kind pn2 = Dir).
Context (He1 : dentries d !! (p1, n1) = Some e1) (He2 : dentries d !! (p2, n2) = Some e2).
Context (Hn1 : inodes d !! d_ino e1 = Some nd1) (Hn2 : inodes d !! d_ino e2 = Some nd2).
Context (Hne : d_ino e1 <> d_ino e2).
Context (Hav1 : n_kind nd1 = Dir -> avoids (parents_of d) (d_ino e1) p2).
Context (Hav2 : n_kind nd2 = Dir -> avoids (parents_of d) (d_ino e2) p1).
#[local] Set Default Proof Using "All".

Let moves1 := negb (p1 =? p2) && is_dir (n_kind nd1).
Let moves2 := negb (p1 =? p2) && is_dir (n_kind nd2).
Let d1 := (if moves1 then -1 else 0) + (if moves2 then 1 else 0).
Let d2 := (if moves1 then 1 else 0) + (if moves2 then -1 else 0).
Let ds := swap_dents (ns_of d) p1 p2 n1 n2 e1 e2.

Lemma exchange_delta j : parent_delta p1 p2 d1 d2 j = subdirs ds j - subdirs (dentries d) j.
Proof.
  unfold ds. rewrite (swap_subdirs _ _ _ _ _ _ _ _ _ Hok He1 He2 (ns_node _ _ _ Hn1) (ns_node _ _ _ Hn2) Hne Hav1 Hav2).
  destruct (swap_kinds _ _ _ _ _ _ _ _ _ Hok He1 He2 (ns_node _ _ _ Hn1) (ns_node _ _ _ Hn2) Hne Hav1 Hav2) as [E1 E2].
  unfold counts_in. rewrite E1, E2. cbn [fst ns_of ns_dents shape sh_kind].
  unfold parent_delta, d1, d2, moves1, moves2, is_dir.
  destruct (Z.eqb_spec p1 p2); repeat case_bool_decide; repeat case_decide; cbn;
    first [lia|exfalso; naive_solver].
Qed.

Lemma exchange_recounted (m : gmap Z StoredNode) j :
  m !! j = inodes d !! j ->
  parents_put p1 p2 d1 d2 pn1 pn2 m j = recount (dentries d) ds j <$> ns_nodes (ns_of d) !! j.
Proof.
  intros Hm. unfold parents_put. cbn [ns_of ns_nodes]. rewrite exchange_delta, lookup_fmap, Hm.
  destruct (decide (j = p1)) as [->|Hj1]; [|destruct (decide (j = p2)) as [->|Hj2]].
  - rewrite Hp1. cbn. unfold recount. cbn. by rewrite bool_decide_true.
  - rewrite Hp2. cbn. unfold recount. cbn. by rewrite bool_decide_true.
  - destruct (inodes d !! j) as [n|]; [|done]. cbn [fmap option_fmap option_map].
    pose proof (exchange_delta j) as Hd. unfold parent_delta in Hd. rewrite !decide_False in Hd by done.
    rewrite recount_same; [done|lia].
Qed.

Lemma exchange_run c ls u t :
  (let! m1 := txn_move_node_binding nd1 p1 n1 p2 n2 in
   let! m2 := txn_move_node_binding nd2 p2 n2 p1 n1 in
   txn_put_dentry p1 n1 e2 ;;
   txn_put_dentry p2 n2 e1 ;;
   txn_put_node (touch now m1) ;;
   txn_put_node (touch now m2) ;;
   put_parents now p1 p2 pn1 pn2 d1 d2) (mkTxn c d ls) = (Ok u, t) -> kept d t.
Proof.
  txn_rows. intros H. apply txn_bind_Ok in H as (m1&s1&H1&H).
  apply move_binding_run in H1 as (L1&Hm1&->). apply txn_bind_Ok in H as (m2&s2&H2&H).
  apply move_binding_run in H2 as (L2&Hm2&->). txn_inv.
  destruct (move_link_same _ _ _ _ _ _ Hm1) as (Hi1&_), (move_link_same _ _ _ _ _ _ Hm2) as (Hi2&_).
  cbn [sh_ino shape] in Hi1, Hi2.
  change (n_ino (touch now m1)) with (n_ino m1) in *. change (n_ino (touch now m2)) with (n_ino m2) in *.
  rewrite Hi1, Hi2 in *. rewrite (node_ino d _ _ Hok Hn1), (node_ino d _ _ Hok Hn2) in *.
  cbn [link_parents with_link_parents] in Hm2. rewrite lookup_set_opt, decide_False in Hm2 by done.
  pose proof (node_ino d _ _ Hok Hp1). pose proof (node_ino d _ _ Hok Hp2).
  apply put_parents_run in H as (m'&->&Hm'&Hsub); try done; try (by eapply (dir_nlink d));
    [|congruence|unfold d1, d2, moves1, moves2; repeat case_match; lia..].
  destruct (swap_not_parents _ _ _ _ _ _ _ _ _ Hok He1 He2 (ns_node _ _ _ Hn1) (ns_node _ _ _ Hn2) Hne Hav1 Hav2)
    as (?&?&?&?).
  unfold kept. cbn [view]. split_and!; [|done|].
  - destruct (ns_swap_ok (ns_of d) p1 p2 n1 n2 e1 e2 _ _ Hok He1 He2 (ns_node _ _ _ Hn1) (ns_node _ _ _ Hn2) Hne Hav1 Hav2)
      as (sh1&L1'&sh2&L2'&Hs1&Hs2&Hmk).
    injection (eq_trans (eq_sym Hm1) Hs1) as <- <-. injection (eq_trans (eq_sym Hm2) Hs2) as <- <-.
    apply (Hmk (shape <$> m')).
    + rewrite lookup_fmap, Hm'. unfold parents_put. rewrite !decide_False by done.
      cbn. by rewrite lookup_insert_ne, lookup_insert_eq by done.
    + rewrite lookup_fmap, Hm'. unfold parents_put. rewrite !decide_False by done.
      cbn. by rewrite lookup_insert_eq.
    + intros j Hj1 Hj2. rewrite lookup_fmap, Hm'. apply exchange_recounted. cbn. by rewrite !lookup_insert_ne.
  - apply Hsub; [|eauto..]. cbn. apply rows_sub_insert, rows_sub_insert, rows_sub_refl; eauto.
Qed.
End exchange.

Lemma rename_exchange_keeps now p1 n1 p2 n2 : op_keeps (rename_exchange now p1 n1 p2 n2).
Proof.
  apply op_keeps_local.
  { unfold rename_exchange, validate_directory_move_in_txn, put_parents, txn_move_node_binding. solve_local. }
  unfold rename_exchange; txn_rows. intros d ls r t Hok Hsm H.
  destruct ((p1 =? p2) && bool_decide (n1 = n2)) eqn:Hsame; [txn_inv; by apply put_none|].
  apply txn_bind_Ok in H as (pn1&s1&Hp1&H). apply txn_bind_Ok in H as (pn2&s2&Hp2&H).
  assert (inodes d !! p1 = Some pn1 /\ n_kind pn1 = Dir /\ s1 = mkTxn d d ls) as (Hi1&Hk1&->)
    by (clear H Hp2; txn_inv; txn_guards; done).
  apply second_parent_Ok in Hp2 as (Hi2&Hk2&->); [|done|done|by intros _ ?; txn_inv; txn_guards].
  clear Hp1. do 4 (apply txn_bind_Ok in H as (?&?&?&H)). txn_inv.
  destruct (d_ino _ =? d_ino _) eqn:Hne in H; [txn_inv; by apply put_none|].
  do 8 (apply txn_bind_Ok in H as (?&?&?&H)).
  repeat match goal with Hv : (if is_dir _ then _ else _) _ = _ |- _ =>
    let Hav := fresh "Hav" in apply check_move_Ok in Hv as [Hav ->]; rewrite is_dir_spec in Hav end.
  revert H. match goal with |- ?m _ = _ -> _ => set (tail := m) end. intros H. txn_inv. txn_guards.
  eapply (exchange_run now p1 p2 n1 n2); [done..|exact H].
Qed.
