(* ===== verification/MetaChunks.v ===== *)
(** The operations of [src/meta/stores/tikv/mod.rs] on chunks: the slice lists,
    their replacement by compaction, the records of slices waiting for deletion
    or publication, and the byte-range locks. *)
From stdpp Require Import options.
From S2P Require Import Prelude Slices FileLock MetaTypes MetaTxn.
Import Slice.

(** ** Slices *)

Definition get_slices (chunk : Z) : txn (list SliceDesc) := txn_get_slices chunk.

Definition append_slice (chunk : Z) (slice : SliceDesc) : txn unit :=
  let! slices := txn_get_slices chunk in
  txn_put_slices_or_delete chunk (slices ++ [slice]).

Definition write (now ino chunk : Z) (slice : SliceDesc) (new_size : Z) : txn unit :=
  let! node := txn_get_node ino in
  let! node := ok_or (NotFound ino) node in
  ensure (bool_decide (n_kind node = File)) NotSupported ;;
  let! slices := txn_get_slices chunk in
  txn_put_slices_or_delete chunk (slices ++ [slice]) ;;
  if n_size node <? new_size
  then txn_put_node (touch now (set_size new_size (div_ceil new_size 512) node))
  else txn_ret tt.

(** One pass of [list_chunk_ids]: the ids after the cursor, the key of the last
    row, and whether there were rows. Every chunk key ends in a decimal id. *)
Definition chunk_ids_after (after : option string) (limit : Z) : txn (list Z * option string * bool) :=
  let! rows := txn_read (fun d => scan_rows (chunks d)) in
  let rows := List.filter (fun row => match after with
    | Some key => negb (String.leb (pretty row.1) key) | None => true end) rows in
  let ids := take (Z.to_nat limit) rows.*1 in
  txn_ret (ids, pretty <$> last ids, negb (bool_decide (ids = []))).

(** The cursor is kept in the store object. At its end the scan starts over once. *)
Definition list_chunk_ids (r1 r2 : Run) (limit : Z) (cursor : option string) (s : Sys)
  : result MetaError (list Z) * option string * Sys :=
  if limit =? 0 then (Ok [], cursor, s) else
  match read_txn r1 (chunk_ids_after cursor limit) s with
  | (Err e, s) => (Err e, cursor, s)
  | (Ok (ids, last_key, true), s) => (Ok ids, last_key, s)
  | (Ok (_, _, false), s) =>
      match cursor with
      | None => (Ok [], None, s)
      | Some _ =>
          match read_txn r2 (chunk_ids_after None limit) s with
          | (Err e, s) => (Err e, None, s)
          | (Ok (ids, last_key, true), s) => (Ok ids, last_key, s)
          | (Ok (_, _, false), s) => (Ok [], None, s)
          end
      end
  end.

(** ** Compaction *)

Fixpoint stage_loop (chunk now : Z) (delayed : list (Z * Z * Z)) (next_id : Z) : txn Z :=
  match delayed with
  | [] => txn_ret next_id
  | (slice_id, offset, size) :: rest =>
      let! next_id := ok_or Internal (i64_checked_add next_id 1) in
      let record := mkDelayed next_id slice_id chunk offset size now DelayedPending in
      txn_write (with_delayed <[next_id := record]> id) ;;
      stage_loop chunk now rest next_id
  end.

Definition txn_stage_delayed_slice_records (chunk : Z) (delayed : list (Z * Z * Z)) (now : Z) : txn unit :=
  if bool_decide (delayed = []) then txn_ret tt else
  let! next_id := txn_read (fun d => default 0 (counters d !! DELAYED_ID_COUNTER)) in
  let! next_id := stage_loop chunk now delayed next_id in
  txn_write (with_counters <[DELAYED_ID_COUNTER := next_id]>).

(** The two length checks before the transaction starts. *)
Definition delayed_slices_of (data : list byte) : txn (list (Z * Z * Z)) :=
  ensure (bool_decide (data = []) || (length data mod 20 =? 0)%nat) Internal ;;
  ok_or Internal (decode_delayed_data data).

Definition retain_other_ids (ids : list Z) (slices : list SliceDesc) : list SliceDesc :=
  filter (fun s => slice_id s ∉ ids) slices.

Definition replace_slices_for_compact (now chunk : Z) (new_slices : list SliceDesc)
    (old_slices_to_delay : list byte) : txn unit :=
  let! delayed := delayed_slices_of old_slices_to_delay in
  let delayed_ids := (fun e => e.1.1) <$> delayed in
  let! updated := txn_get_slices chunk in
  txn_put_slices_or_delete chunk (retain_other_ids delayed_ids updated ++ new_slices) ;;
  txn_stage_delayed_slice_records chunk delayed now.

(** The reservation a new slice needs to be published by a versioned replace. *)
Definition reserved_for (chunk : Z) (r : option StoredUncommittedSliceRecord) : bool :=
  match r with
  | Some record => bool_decide (un_status record = UncommittedPending) && (un_chunk_id record =? chunk)
  | None => false
  end.

Definition replace_slices_for_compact_with_version (now chunk : Z) (new_slices : list SliceDesc)
    (old_slices_to_delay : list byte) (expected_slices : list SliceDesc) : txn unit :=
  let! delayed := delayed_slices_of old_slices_to_delay in
  let! current := txn_get_slices chunk in
  ensure (bool_decide (current = expected_slices)) (ContinueRetry CompactConflict) ;;
  txn_for new_slices (fun slice =>
    let! reservation := txn_read (fun d => uncommitted_pending d !! slice_id slice) in
    ensure (reserved_for chunk reservation) (ContinueRetry CompactConflict)) ;;
  txn_put_slices_or_delete chunk new_slices ;;
  txn_for new_slices (fun slice =>
    txn_write (with_uncommitted (delete (slice_id slice)) (delete (slice_id slice)))) ;;
  txn_stage_delayed_slice_records chunk delayed now.

(** ** Slices not published yet *)

Definition record_uncommitted_slice (now slice chunk size : Z) (operation : string) : txn Z :=
  let! pending := txn_read (fun d => uncommitted_pending d !! slice) in
  match pending with
  | Some existing => txn_ret (un_id existing)
  | None =>
      let! orphan := txn_read (fun d => uncommitted_orphan d !! slice) in
      let! id :=
        match orphan with
        | Some existing => txn_ret (un_id existing)
        | None =>
            let! current := txn_read (fun d => default 0 (counters d !! UNCOMMITTED_ID_COUNTER)) in
            let! next := ok_or Internal (i64_checked_add current 1) in
            txn_write (with_counters <[UNCOMMITTED_ID_COUNTER := next]>) ;;
            txn_ret next
        end in
      let record := mkUncommitted id slice chunk size now operation UncommittedPending in
      txn_write (with_uncommitted <[slice := record]> (delete slice)) ;;
      txn_ret id
  end.

Definition confirm_slice_committed (slice : Z) : txn unit :=
  txn_write (with_uncommitted (delete slice) (delete slice)).

Definition delete_uncommitted_slices (slices : list Z) : txn unit :=
  txn_for slices (fun slice => txn_write (with_uncommitted (delete slice) (delete slice))).

(** The records a cleanup round looks at: old pending ones, and all orphans. *)
Definition cleanup_candidates (cutoff batch_size : Z)
  : txn (list StoredUncommittedSliceRecord * list StoredUncommittedSliceRecord) :=
  let! pending := txn_read (fun d => scan_rows (uncommitted_pending d)) in
  let! orphans := txn_read (fun d => scan_rows (uncommitted_orphan d)) in
  let pending := List.filter (fun r => bool_decide (un_status r = UncommittedPending)
                                       && (un_created_at r <? cutoff)) pending.*2 in
  let orphans := List.filter (fun r => bool_decide (un_status r = UncommittedOrphan)) orphans.*2 in
  txn_ret (take (Z.to_nat batch_size) (sort_by_key un_id pending),
           take (Z.to_nat batch_size) (sort_by_key un_id orphans)).

Definition set_un_status (st : UncommittedStatus) (r : StoredUncommittedSliceRecord) :=
  mkUncommitted (un_id r) (un_slice_id r) (un_chunk_id r) (un_size r) (un_created_at r) (un_operation r) st.

(** One pending record becomes an orphan unless its slice is in use. *)
Definition cleanup_one (cutoff : Z) (record : StoredUncommittedSliceRecord) : txn (option (Z * Z)) :=
  let! current := txn_read (fun d => uncommitted_pending d !! un_slice_id record) in
  match current with
  | None => txn_ret None
  | Some current =>
      if negb (bool_decide (un_status current = UncommittedPending)) || (cutoff <=? un_created_at current)
      then txn_ret None else
      let! slices := txn_get_slices (un_chunk_id current) in
      if existsb (fun s => slice_id s =? un_slice_id current) slices
      then txn_write (with_uncommitted (delete (un_slice_id record)) id) ;; txn_ret None
      else
        txn_write (with_uncommitted (delete (un_slice_id record))
                     <[un_slice_id record := set_un_status UncommittedOrphan current]>) ;;
        txn_ret (Some (un_slice_id current, un_size current))
  end.

(** The two loops over the candidates, one transaction per pending record; the
    list holds every slice once. *)
Fixpoint cleanup_pending (runs : nat -> Run) (cutoff : Z) (records : list StoredUncommittedSliceRecord)
    (cleaned : list (Z * Z)) (s : Sys) : result MetaError (list (Z * Z)) * Sys :=
  match records with
  | [] => (Ok cleaned, s)
  | record :: rest =>
      match write_txn (runs (length rest)) (cleanup_one cutoff record) s with
      | (Err e, s) => (Err e, s)
      | (Ok transition, s) =>
          let cleaned := match transition with
            | Some (slice, size) => if bool_decide (slice ∈ cleaned.*1) then cleaned
                                    else cleaned ++ [(slice, size)]
            | None => cleaned
            end in
          cleanup_pending runs cutoff rest cleaned s
      end
  end.

Definition add_orphans (cleaned : list (Z * Z)) (orphans : list StoredUncommittedSliceRecord)
  : list (Z * Z) :=
  foldl (fun cleaned r => if bool_decide (un_slice_id r ∈ cleaned.*1) then cleaned
                          else cleaned ++ [(un_slice_id r, un_size r)]) cleaned orphans.

Definition cleanup_orphan_uncommitted_slices (r : Run) (runs : nat -> Run)
    (now_secs max_age_secs batch_size : Z) (s : Sys) : result MetaError (list (Z * Z)) * Sys :=
  if batch_size =? 0 then (Ok [], s) else
  let cutoff := now_secs - max_age_secs in
  match read_txn r (cleanup_candidates cutoff batch_size) s with
  | (Err e, s) => (Err e, s)
  | (Ok (pending, orphans), s) =>
      match cleanup_pending runs cutoff pending [] s with
      | (Err e, s) => (Err e, s)
      | (Ok cleaned, s) => (Ok (add_orphans cleaned orphans), s)
      end
  end.

(** ** Slices waiting for deletion *)

Definition delayed_candidates (cutoff batch_size : Z) : txn (list StoredDelayedSliceRecord) :=
  let! pending := txn_read (fun d => scan_rows (delayed_pending d)) in
  let! meta_deleted := txn_read (fun d => scan_rows (delayed_meta_deleted d)) in
  let records := List.filter (fun r => dl_created_at r <=? cutoff) (pending.*2 ++ meta_deleted.*2) in
  txn_ret (take (Z.to_nat batch_size) (sort_by_key dl_id records)).

Definition set_dl_status (st : DelayedStatus) (r : StoredDelayedSliceRecord) :=
  mkDelayed (dl_id r) (dl_slice_id r) (dl_chunk_id r) (dl_offset r) (dl_size r) (dl_created_at r) st.

Definition delayed_entry_of (r : StoredDelayedSliceRecord) : Z * Z * Z * Z :=
  (dl_slice_id r, dl_offset r, dl_size r, dl_id r).

(** The transaction that takes a pending record's slice out of its chunk. *)
Definition process_one (cutoff : Z) (record : StoredDelayedSliceRecord) : txn (option (Z * Z * Z * Z)) :=
  let! current := txn_read (fun d => delayed_pending d !! dl_id record) in
  match current with
  | None => txn_ret None
  | Some current =>
      if negb (bool_decide (dl_status current = DelayedPending)) || (cutoff <? dl_created_at current)
      then txn_ret None else
      let! slices := txn_get_slices (dl_chunk_id current) in
      txn_put_slices_or_delete (dl_chunk_id current) (retain_other_ids [dl_slice_id current] slices) ;;
      txn_write (with_delayed (delete (dl_id record))
                   <[dl_id record := set_dl_status DelayedMetaDeleted current]>) ;;
      txn_ret (Some (delayed_entry_of current))
  end.

Fixpoint process_loop (runs : nat -> Run) (cutoff : Z) (records : list StoredDelayedSliceRecord)
    (ready : list (Z * Z * Z * Z)) (s : Sys) : result MetaError (list (Z * Z * Z * Z)) * Sys :=
  match records with
  | [] => (Ok ready, s)
  | record :: rest =>
      if bool_decide (dl_status record = DelayedMetaDeleted)
      then process_loop runs cutoff rest (ready ++ [delayed_entry_of record]) s
      else
        match write_txn (runs (length rest)) (process_one cutoff record) s with
        | (Err e, s) => (Err e, s)
        | (Ok processed, s) =>
            process_loop runs cutoff rest (ready ++ option_list processed) s
        end
  end.

Definition process_delayed_slices (r : Run) (runs : nat -> Run) (now_secs batch_size max_age_secs : Z)
    (s : Sys) : result MetaError (list (Z * Z * Z * Z)) * Sys :=
  if batch_size =? 0 then (Ok [], s) else
  let cutoff := now_secs - max_age_secs in
  match read_txn r (delayed_candidates cutoff batch_size) s with
  | (Err e, s) => (Err e, s)
  | (Ok records, s) => process_loop runs cutoff records [] s
  end.

Definition confirm_delayed_deleted (delayed_ids : list Z) : txn unit :=
  txn_for delayed_ids (fun id => txn_write (with_delayed (delete id) (delete id))).

(** ** Byte-range locks *)

Definition get_plock (sid inode : Z) (query : FileLock.FileLockQuery) : txn FileLock.FileLockInfo :=
  let! plocks := txn_get_plocks inode in
  txn_ret (FileLock.query_plocks plocks sid query).

Definition try_set_plock (sid inode owner : Z) (new_lock : FileLock.PlockRecord)
    (lock_type : FileLock.FileLockType) (range : FileLock.FileLockRange) : txn unit :=
  let! plocks := txn_get_plocks inode in
  match FileLock.apply_plock_update plocks sid owner new_lock lock_type range with
  | Ok plocks => txn_put_plocks_or_delete inode plocks
  | Err _ => txn_err (LockConflict inode owner range)
  end.

Definition is_lock_conflict (e : MetaError) : bool :=
  match e with LockConflict _ _ _ => true | _ => false end.

(** [runs] are the attempts made so far: a blocking request tries again as long as
    it meets a conflicting lock, [None] meaning that it still waits. *)
Fixpoint set_plock (runs : list Run) (sid inode owner : Z) (block : bool)
    (lock_type : FileLock.FileLockType) (range : FileLock.FileLockRange) (pid : Z) (s : Sys)
  : option (result MetaError unit) * Sys :=
  match runs with
  | [] => (None, s)
  | r :: runs =>
      let new_lock := FileLock.plock_new lock_type pid (FileLock.start range) (FileLock.end_ range) in
      match write_txn r (try_set_plock sid inode owner new_lock lock_type range) s with
      | (Ok _, s) => (Some (Ok tt), s)
      | (Err e, s) =>
          if is_lock_conflict e && block
          then set_plock runs sid inode owner block lock_type range pid s
          else (Some (Err e), s)
      end
  end.
