(* ===== verification/ChunkTxns.v ===== *)
(** What the chunk transactions of [MetaChunks] commit, as changes of the slice
    lists and of the records of unpublished and replaced slices. *)
From stdpp Require Import options.
From S2P Require Import Prelude Slices MetaTypes MetaTxn TxnRun MetaChunks.
Import Slice.

Definition slices_of (d : DB) (chunk : Z) : list SliceDesc := default [] (chunks d !! chunk).

Lemma slices_of_put d c l c' :
  slices_of (with_chunks (if bool_decide (l = []) then delete c else <[c := l]>) d) c' =
  if decide (c' = c) then l else slices_of d c'.
Proof.
  unfold slices_of. cbn. case_bool_decide as Hl; case_decide as Hc; subst;
    by rewrite ?lookup_delete_eq, ?lookup_insert_eq, ?lookup_delete_ne, ?lookup_insert_ne by done.
Qed.

(** ** Staging replaced slices *)

(** What staging [entries] of chunk [c] may change: new pending deletions, all of
    them for the given slices, and the counter that numbers them. *)
Record staged (c now : Z) (entries : list (Z * Z * Z)) (d d' : DB) : Prop := {
  sg_chunks : chunks d' = chunks d;
  sg_meta_deleted : delayed_meta_deleted d' = delayed_meta_deleted d;
  sg_pending_un : uncommitted_pending d' = uncommitted_pending d;
  sg_orphan_un : uncommitted_orphan d' = uncommitted_orphan d;
  sg_inodes : inodes d' = inodes d;
  sg_dentries : dentries d' = dentries d;
  sg_links : link_parents d' = link_parents d;
  sg_counters n : n <> DELAYED_ID_COUNTER -> counters d' !! n = counters d !! n;
  sg_new i r : delayed_pending d' !! i = Some r -> delayed_pending d !! i = Some r \/
    exists id off size, (id, off, size) ∈ entries /\ r = mkDelayed i id c off size now DelayedPending;
  sg_all id off size : (id, off, size) ∈ entries ->
    exists i, delayed_pending d' !! i = Some (mkDelayed i id c off size now DelayedPending);
  sg_kept i r : i <= default 0 (counters d !! DELAYED_ID_COUNTER) ->
    delayed_pending d !! i = Some r -> delayed_pending d' !! i = Some r
}.

(** The loop numbers the records from [next + 1]. *)
Lemma stage_loop_run c now entries : forall next last cm d ls t,
  stage_loop c now entries next (mkTxn cm d ls) = (Ok last, t) ->
  exists dp', t = mkTxn cm (with_delayed (fun _ => dp') id d) ls /\ next <= last /\
    (forall i r, dp' !! i = Some r -> delayed_pending d !! i = Some r \/
       exists id off size, (id, off, size) ∈ entries /\ r = mkDelayed i id c off size now DelayedPending) /\
    (forall id off size, (id, off, size) ∈ entries ->
       exists i, dp' !! i = Some (mkDelayed i id c off size now DelayedPending)) /\
    (forall i, i <= next -> dp' !! i = delayed_pending d !! i).
Proof.
  induction entries as [|[[id off] size] rest IH]; intros next last cm d ls t; cbn [stage_loop]; intros H; txn_inv.
  { exists (delayed_pending d). split_and!; [by destruct d|lia|auto|set_solver|done]. }
  match goal with H : i64_checked_add _ _ = Some _ |- _ =>
    unfold i64_checked_add in H; destruct (_ && _); [|done]; injection H as <- end.
  apply IH in H as (dp'&->&Hle&Hnew&Hall&Hkept). cbn [delayed_pending with_delayed] in *.
  exists dp'. split_and!; [done|lia|..].
  - intros i r Hi. destruct (Hnew i r Hi) as [Hr|(id'&off'&size'&?&?)]; [|right; exists id', off', size'; set_solver].
    destruct (decide (i = next + 1)) as [->|].
    + rewrite lookup_insert_eq in Hr. injection Hr as <-. right. exists id, off, size. set_solver.
    + rewrite lookup_insert_ne in Hr by done. by left.
  - intros id' off' size' [[= -> -> ->]|Hin]%elem_of_cons; [|by apply Hall].
    exists (next + 1). rewrite Hkept by lia. apply lookup_insert_eq.
  - intros i Hi. rewrite Hkept, lookup_insert_ne by lia. done.
Qed.

Lemma stage_run c now entries cm d ls u t :
  txn_stage_delayed_slice_records c entries now (mkTxn cm d ls) = (Ok u, t) ->
  exists d', t = mkTxn cm d' ls /\ staged c now entries d d'.
Proof.
  unfold txn_stage_delayed_slice_records. case_bool_decide as He; intros H; txn_inv.
  { subst. exists d. split; [done|]. split; try done; [by left|set_solver]. }
  match goal with H : stage_loop _ _ _ _ _ = _ |- _ =>
    apply stage_loop_run in H as (dp'&->&_&Hnew&Hall&Hkept) end.
  eexists. split; [done|]. split; try done.
  - intros n Hn. cbn. by rewrite lookup_insert_ne.
  - intros i r Hi Hr. cbn. by rewrite Hkept.
Qed.

(** ** Replacing slices *)

Lemma delayed_slices_of_Ok data l s s' : delayed_slices_of data s = (Ok l, s') ->
  decode_delayed_data data = Some l /\ s' = s.
Proof. unfold delayed_slices_of. intros H. by txn_inv. Qed.

Lemma replace_run now c new data cm d ls u t entries :
  decode_delayed_data data = Some entries ->
  replace_slices_for_compact now c new data (mkTxn cm d ls) = (Ok u, t) ->
  exists d1, t = mkTxn cm (view t) ls /\ staged c now entries d1 (view t) /\
    d1 = with_chunks (if bool_decide (retain_other_ids ((fun e => e.1.1) <$> entries) (slices_of d c) ++ new = [])
                      then delete c
                      else <[c := retain_other_ids ((fun e => e.1.1) <$> entries) (slices_of d c) ++ new]>) d.
Proof.
  intros Hdec. unfold replace_slices_for_compact, txn_get_slices, txn_put_slices_or_delete. intros H.
  apply txn_bind_Ok in H as (l&s1&Hl&H). apply delayed_slices_of_Ok in Hl as [Hl ->].
  rewrite Hdec in Hl. injection Hl as <-. txn_inv. apply stage_run in H as (d'&->&Hst).
  eexists. split_and!; [done|exact Hst|done].
Qed.

(** The reservations of all new slices were found. *)
Lemma reservations_Ok c new cm d ls u s' :
  txn_for new (fun slice =>
    let! reservation := txn_read (fun d => uncommitted_pending d !! slice_id slice) in
    ensure (reserved_for c reservation) (ContinueRetry CompactConflict)) (mkTxn cm d ls) = (Ok u, s') ->
  s' = mkTxn cm d ls /\ Forall (fun s => reserved_for c (uncommitted_pending d !! slice_id s) = true) new.
Proof.
  induction new as [|s new IH]; cbn [txn_for]; intros H; txn_inv; [by constructor|].
  apply IH in H as [-> ?]. by split; [|constructor].
Qed.

Definition delete_all_ids (ids : list Z) {A} (m : gmap Z A) : gmap Z A := foldl (fun m i => delete i m) m ids.

Lemma lookup_delete_all_ids ids {A} (m : gmap Z A) i :
  delete_all_ids ids m !! i = if decide (i ∈ ids) then None else m !! i.
Proof.
  revert m. induction ids as [|j ids IH]; intros m; [by rewrite decide_False by set_solver|].
  change (delete_all_ids (j :: ids) m) with (delete_all_ids ids (delete j m)). rewrite IH. destruct (decide (i = j)) as [->|Hne].
  - rewrite lookup_delete_eq, (decide_True (P := j ∈ j :: ids)) by set_solver. by case_decide.
  - rewrite lookup_delete_ne by done. repeat case_decide; set_solver.
Qed.

Lemma forget_run (ids : list Z) cm d ls u s' :
  txn_for ids (fun i => txn_write (with_uncommitted (delete i) (delete i))) (mkTxn cm d ls) = (Ok u, s') ->
  s' = mkTxn cm (with_uncommitted (delete_all_ids ids) (delete_all_ids ids) d) ls.
Proof.
  revert d. induction ids as [|i ids IH]; intros d; cbn [txn_for]; intros H; txn_inv; [by destruct d|].
  by apply IH in H as ->.
Qed.

Lemma txn_for_fmap {A B} (f : A -> B) (l : list A) (body : B -> txn unit) s :
  txn_for (f <$> l) body s = txn_for l (fun a => body (f a)) s.
Proof.
  revert s. induction l as [|a l IH]; intros s; cbn; [done|]. unfold txn_bind.
  by destruct (body (f a) s) as [[]].
Qed.

Lemma replace_version_run now c new data expected cm d ls u t entries :
  decode_delayed_data data = Some entries ->
  replace_slices_for_compact_with_version now c new data expected (mkTxn cm d ls) = (Ok u, t) ->
  slices_of d c = expected /\
  Forall (fun s => reserved_for c (uncommitted_pending d !! slice_id s) = true) new /\
  exists d1, t = mkTxn cm (view t) ls /\ staged c now entries d1 (view t) /\
    d1 = with_uncommitted (delete_all_ids (slice_id <$> new)) (delete_all_ids (slice_id <$> new))
           (with_chunks (if bool_decide (new = []) then delete c else <[c := new]>) d).
Proof.
  intros Hdec. unfold replace_slices_for_compact_with_version, txn_get_slices, txn_put_slices_or_delete. intros H.
  apply txn_bind_Ok in H as (l&s1&Hl&H). apply delayed_slices_of_Ok in Hl as [Hl ->].
  rewrite Hdec in Hl. injection Hl as <-.
  do 3 (apply txn_bind_Ok in H as (?&?&?&H)). 
  match goal with H : txn_for _ _ _ = _ |- _ => revert H end. txn_inv. intros [-> Hres]%reservations_Ok.
  txn_inv. match goal with H : bool_decide _ = true |- _ => apply bool_decide_eq_true in H end.
  match goal with H : txn_for new _ _ = _ |- _ =>
    rewrite <-(txn_for_fmap slice_id new (fun i => txn_write (with_uncommitted (delete i) (delete i)))) in H;
    apply forget_run in H as -> end.
  apply stage_run in H as (d'&->&Hst). split_and!; [done|done|]. eexists. split_and!; [done|exact Hst|done].
Qed.

(** ** When a versioned replace fails *)

Lemma txn_bind_Err {A B} (m : txn A) (k : A -> txn B) s e s' : txn_bind m k s = (Err e, s') ->
  m s = (Err e, s') \/ exists a s1, m s = (Ok a, s1) /\ k a s1 = (Err e, s').
Proof. unfold txn_bind. destruct (m s) as [[a|e'] s1]; [eauto|]. intros [= -> ->]. by left. Qed.

Lemma stage_loop_Err c now entries : forall next cm d ls e t,
  - i64_modulus_half <= next + 1 ->
  stage_loop c now entries next (mkTxn cm d ls) = (Err e, t) ->
  e = Internal /\ i64_modulus_half <= next + Z.of_nat (length entries).
Proof.
  induction entries as [|[[id off] size] rest IH]; intros next cm d ls e t Hn; cbn [stage_loop]; [done|].
  rewrite bind_ok_or. unfold i64_checked_add.
  destruct ((next + 1 <? i64_modulus_half) && (- i64_modulus_half <=? next + 1)) eqn:Hb.
  - intros [H|([]&s1&[= <-]&H)]%txn_bind_Err; [done|]. apply IH in H as [-> ?]; [|lia]. split; [done|]. cbn [length]. lia.
  - intros [= <- <-]. split; [done|]. cbn [length]. lia.
Qed.

Lemma reservations_Err c new s e s' :
  txn_for new (fun slice =>
    let! reservation := txn_read (fun d => uncommitted_pending d !! slice_id slice) in
    ensure (reserved_for c reservation) (ContinueRetry CompactConflict)) s = (Err e, s') ->
  e = ContinueRetry CompactConflict /\
  exists a, a ∈ new /\ reserved_for c (uncommitted_pending (view s) !! slice_id a) = false.
Proof.
  induction new as [|a new IH]; cbn [txn_for]; [done|]. unfold txn_bind at 1. rewrite bind_read.
  destruct (reserved_for c _) eqn:Hr; cbn.
  - intros H. destruct (IH H) as (->&b&?&?). split; [done|]. exists b. set_solver.
  - intros [= <- _]. split; [done|]. exists a. set_solver.
Qed.

Lemma forget_total (new : list SliceDesc) s :
  is_Ok (txn_for new (fun slice =>
    txn_write (with_uncommitted (delete (slice_id slice)) (delete (slice_id slice)))) s).1 = true.
Proof. revert s. induction new as [|a new IH]; intros s; cbn [txn_for]; [done|]. apply IH. Qed.


(** Slice 5, reserved for chunk 0, replaces slice 1. *)
Definition z_db : DB :=
  with_uncommitted <[5 := mkUncommitted 1 5 0 4 10 "compact_heavy" UncommittedPending]> id
    (with_chunks <[0 := [mkSlice 1 0 0 4]]> empty_db).

