(* ===== verification/Volume.v ===== *)
(** The metadata volume as a whole: whatever operations clients run, in whatever
    order, committing or rolled back, the namespace stays well formed. *)
From stdpp Require Import options.
From S2P Require Import Prelude Slices FileLock MetaTypes MetaTxn TxnRun MetaOps Namespace.
From S2P Require Import MetaInv MetaRename MetaChunks ChunkTxns.
Import Slice.

(** ** Chunk and lock transactions leave the namespace alone *)

Definition same_ns (d d' : DB) : Prop :=
  inodes d' = inodes d /\ dentries d' = dentries d /\ link_parents d' = link_parents d /\
  counters d' !! INODE_ID_KEY = counters d !! INODE_ID_KEY.

Lemma same_ns_refl d : same_ns d d.
Proof. done. Qed.
Lemma same_ns_trans d1 d2 d3 : same_ns d1 d2 -> same_ns d2 d3 -> same_ns d1 d3.
Proof. unfold same_ns. naive_solver congruence. Qed.

(** Every run of [m] keeps the namespace rows. *)
Definition off_ns {A} (m : txn A) : Prop :=
  forall s, same_ns (view s) (view (m s).2) /\ committed (m s).2 = committed s /\ leases (m s).2 = leases s.

Lemma off_bind {A B} (m : txn A) (k : A -> txn B) :
  off_ns m -> (forall a, off_ns (k a)) -> off_ns (txn_bind m k).
Proof.
  intros Hm Hk s. unfold txn_bind. destruct (Hm s) as (H1&H2&H3).
  destruct (m s) as [[a|e] s1]; cbn in *; [|done].
  destruct (Hk a s1) as (H4&->&->). split_and!; [|done..]. by eapply same_ns_trans.
Qed.
Lemma off_ret {A} (a : A) : off_ns (txn_ret a).
Proof. done. Qed.
Lemma off_err {A} e : off_ns (txn_err (A := A) e).
Proof. done. Qed.
Lemma off_read {A} (f : DB -> A) : off_ns (txn_read f).
Proof. done. Qed.
Lemma off_ok_or {A} e (o : option A) : off_ns (ok_or e o).
Proof. by destruct o. Qed.
Lemma off_ensure b e : off_ns (ensure b e).
Proof. by destruct b. Qed.
Lemma off_chunks f : off_ns (txn_write (with_chunks f)).
Proof. done. Qed.
Lemma off_plocks f : off_ns (txn_write (with_plocks f)).
Proof. done. Qed.
Lemma off_delayed f g : off_ns (txn_write (with_delayed f g)).
Proof. done. Qed.
Lemma off_uncommitted f g : off_ns (txn_write (with_uncommitted f g)).
Proof. done. Qed.
Lemma off_counter n v : n <> INODE_ID_KEY -> off_ns (txn_write (with_counters <[n := v]>)).
Proof. intros Hn s. split_and!; [|done..]. unfold same_ns. cbn. by rewrite lookup_insert_ne. Qed.
Lemma off_for {A} (l : list A) body : (forall a, off_ns (body a)) -> off_ns (txn_for l body).
Proof. intros Hb. induction l as [|a l IH]; cbn; [done|]. by apply off_bind. Qed.

Create HintDb off_ns discriminated.
#[export] Hint Resolve off_ret off_err off_read off_ok_or off_ensure off_chunks off_plocks off_delayed
  off_uncommitted : off_ns.
#[export] Hint Extern 1 (off_ns (txn_write (with_counters _))) => apply off_counter; discriminate : off_ns.

Ltac solve_off :=
  unfold txn_get_slices, txn_put_slices_or_delete, txn_get_plocks, txn_put_plocks_or_delete in *;
  repeat match goal with
  | |- off_ns (txn_bind _ _) => apply off_bind; [|intros ?]
  | |- off_ns (txn_for _ _) => apply off_for; intros ?
  | |- off_ns (match ?x with _ => _ end) => destruct x
  | |- off_ns _ => solve [auto with off_ns]
  end.

Lemma off_keeps {A} (m : txn A) : off_ns m -> op_keeps m.
Proof.
  intros Hm. apply op_keeps_local.
  - intros s. by destruct (Hm s) as (_&?&?).
  - intros d ls a t Hok _ Ht. destruct (Hm (mkTxn d d ls)) as ((Hi&He&Hl&Hc)&_). rewrite Ht in *. cbn in *.
    unfold ns_of. rewrite Hi, He, Hl. by split_and!.
Qed.

Lemma stage_off c now l n : off_ns (stage_loop c now l n).
Proof.
  revert n. induction l as [|[[id off] size] l IH]; intros n; cbn [stage_loop]; [done|].
  solve_off.
Qed.
Lemma stage_records_off c l now : off_ns (txn_stage_delayed_slice_records c l now).
Proof. unfold txn_stage_delayed_slice_records. pose proof stage_off. solve_off. Qed.
Lemma delayed_of_off data : off_ns (delayed_slices_of data).
Proof. unfold delayed_slices_of. solve_off. Qed.
#[export] Hint Resolve stage_records_off delayed_of_off stage_off : off_ns.

Lemma append_slice_keeps chunk s : op_keeps (append_slice chunk s).
Proof. apply off_keeps. unfold append_slice. solve_off. Qed.
Lemma replace_keeps now chunk new data : op_keeps (replace_slices_for_compact now chunk new data).
Proof. apply off_keeps. unfold replace_slices_for_compact. solve_off. Qed.
Lemma replace_version_keeps now chunk new data expected :
  op_keeps (replace_slices_for_compact_with_version now chunk new data expected).
Proof. apply off_keeps. unfold replace_slices_for_compact_with_version. solve_off. Qed.
Lemma record_uncommitted_keeps now slice chunk size operation :
  op_keeps (record_uncommitted_slice now slice chunk size operation).
Proof. apply off_keeps. unfold record_uncommitted_slice. solve_off. Qed.
Lemma confirm_committed_keeps slice : op_keeps (confirm_slice_committed slice).
Proof. apply off_keeps. unfold confirm_slice_committed. solve_off. Qed.
Lemma delete_uncommitted_keeps l : op_keeps (delete_uncommitted_slices l).
Proof. apply off_keeps. unfold delete_uncommitted_slices. solve_off. Qed.
Lemma cleanup_one_keeps cutoff r : op_keeps (cleanup_one cutoff r).
Proof. apply off_keeps. unfold cleanup_one. solve_off. Qed.
Lemma process_one_keeps cutoff r : op_keeps (process_one cutoff r).
Proof. apply off_keeps. unfold process_one. solve_off. Qed.
Lemma confirm_delayed_keeps l : op_keeps (confirm_delayed_deleted l).
Proof. apply off_keeps. unfold confirm_delayed_deleted. solve_off. Qed.
Lemma set_plock_keeps sid ino owner l ty range : op_keeps (try_set_plock sid ino owner l ty range).
Proof. apply off_keeps. unfold try_set_plock. solve_off. Qed.

Lemma write_keeps now ino chunk slice size : op_keeps (write now ino chunk slice size).
Proof.
  apply op_keeps_local; [unfold write, txn_get_slices, txn_put_slices_or_delete; solve_local|].
  unfold write, txn_get_slices, txn_put_slices_or_delete; txn_rows.
  intros d ls a t Hok _ H. txn_inv. case_match; txn_inv; [|done].
  match goal with H : inodes d !! _ = Some ?n |- _ => by apply (put_same_shape (with_chunks _ d) n _ ino) end.
Qed.

(** Ids of other counters. *)
Lemma next_leased_frame client name first size s r t :
  name <> INODE_ID_KEY -> next_leased_counter_id client name first size s = (r, t) ->
  same_ns (committed s) (committed t) /\
  (counters (view s) = counters (committed s) -> same_ns (view s) (view t)) /\
  forall c, leases t !! (c, INODE_ID_KEY) = leases s !! (c, INODE_ID_KEY).
Proof.
  intros Hn. unfold next_leased_counter_id. set (refill := txn_bind _ _).
  assert (forall r t, refill s = (r, t) -> same_ns (committed s) (committed t) /\
    (counters (view s) = counters (committed s) -> same_ns (view s) (view t)) /\
    forall c, leases t !! (c, INODE_ID_KEY) = leases s !! (c, INODE_ID_KEY)) as Hrefill.
  { clear r t. intros r t. unfold refill, alloc_counter_range_from, txn_alloc_counter_range.
    destruct (size <=? 0); [by intros [= _ <-]|].
    unfold txn_bind, txn_read, ok_or, txn_write, txn_ret; cbn.
    destruct (i64_checked_add _ size) as [next|] eqn:Hadd; cbn; [|by intros [= _ <-]].
    rewrite Hadd. cbn. intros [= _ <-]. unfold same_ns. cbn. rewrite lookup_insert_ne by done.
    split_and!; [done..|by intros ->|]. intros c. by rewrite lookup_insert_ne by congruence. }
  destruct (leases s !! (client, name)) as [l|] eqn:Hl; [|apply Hrefill].
  destruct (_ <? _); [|apply Hrefill]. intros [= _ <-]. cbn.
  split_and!; [done..|]. intros c. by rewrite lookup_insert_ne by congruence.
Qed.

Lemma sys_ok_same s s' : sys_ok s -> same_ns (sys_db s) (sys_db s') ->
  (forall c, sys_leases s' !! (c, INODE_ID_KEY) = sys_leases s !! (c, INODE_ID_KEY)) -> sys_ok s'.
Proof.
  intros [Hns Hal] (Hi&He&Hl&Hc) Hls. split.
  - unfold ns_of. by rewrite Hi, He, Hl.
  - eapply alloc_ok_same; [done..|]. by rewrite Hi.
Qed.

Lemma next_id_keeps client key : key <> INODE_ID_KEY -> op_keeps (next_id client key).
Proof.
  intros Hk. unfold next_id. case_bool_decide as Hs.
  - intros s Hok _. unfold keeps_result, next_leased_slice_id.
    destruct (next_leased_counter_id _ _ _ _ _) as [r t] eqn:Ht. cbn.
    apply next_leased_frame in Ht as (Hc&Hv&Hls); [|done]. specialize (Hv eq_refl).
    split; [by apply (sys_ok_same s)|]. intros a t' [= -> ->]. by apply (sys_ok_same s).
  - apply off_keeps. unfold txn_next_counter, txn_alloc_counter_range.
    solve_off. by apply off_counter.
Qed.

(** ** Purging unlinked files *)

Lemma ns_purge_ok ns i sh : ns_ok ns -> ns_nodes ns !! i = Some sh -> sh_kind sh <> Dir ->
  sh_deleted sh = true ->
  ns_ok (mkNS (delete i (ns_nodes ns)) (ns_dents ns) (delete i (ns_links ns))).
Proof.
  intros Hok Hi Hk Hd. destruct (file_ok _ Hok _ _ Hi Hk) as (_&Hroot&Hf).
  assert (ents (ns_dents ns) i = ∅) as Hno by (destruct Hf; congruence).
  destruct Hok as [(shr&Hr&Hrk) Hn Ht He Hl]. split; cbn.
  - exists shr. by rewrite lookup_delete_ne.
  - intros j shj [Hne Hj]%lookup_delete_Some. rewrite lookup_delete_ne by done. by apply Hn.
  - intros j shj [Hne Hj]%lookup_delete_Some Hjk. eapply reaches_mono; [|by eapply Ht].
    intros x y _ Hx. unfold dir_parent in *. destruct (decide (x = i)) as [->|]; [|by rewrite lookup_delete_ne].
    rewrite Hi in Hx. cbn in Hx. by rewrite bool_decide_eq_false_2 in Hx.
  - intros p nm d Hpd. destruct (He _ _ _ Hpd) as [(sp&Hp&Hpk) (sd&Hsd&Hsk)]. split.
    + exists sp. rewrite lookup_delete_ne; [done|]. intros ->. congruence.
    + exists sd. rewrite lookup_delete_ne; [done|]. intros ->.
      assert ((p, nm) ∈ ents (ns_dents ns) (d_ino d)) by (apply elem_of_ents; eauto). set_solver.
  - intros j l [Hne Hj]%lookup_delete_Some. rewrite lookup_delete_ne by done. by eapply Hl.
Qed.

(** What [get_deleted_files] reports is safe to purge. *)
Definition purgeable (d : DB) (ino : Z) : Prop :=
  forall n, inodes d !! ino = Some n -> n_kind n <> Dir /\ n_deleted n = true.

Lemma remove_file_metadata_keeps ino s : sys_ok s -> purgeable (sys_db s) ino ->
  keeps_result (remove_file_metadata ino (begin s)).
Proof.
  intros [Hns Hal] Hp. unfold remove_file_metadata; txn_rows. split; [by destruct s|].
  intros a t [= _ <-]. split; cbn.
  - unfold ns_of. cbn. rewrite fmap_delete. destruct (inodes (sys_db s) !! ino) as [n|] eqn:Hi.
    + destruct (Hp _ Hi). by eapply (ns_purge_ok (ns_of (sys_db s)) ino (shape n)); [|apply ns_node| |].
    + rewrite !delete_id; [done| |by apply ns_node_None].
      by apply (absent_no_links (ns_of (sys_db s))); [|apply ns_node_None].
  - eapply alloc_ok_same; [done..|]. cbn. intros i [x [_ ?]%lookup_delete_Some]. eauto.
Qed.

(** ** Histories *)

(** The transactions clients run, each with its arguments. *)
Inductive metadata_txn : forall A, txn A -> Prop :=
| MkMkdir client now p nm : metadata_txn _ (mkdir client now p nm)
| MkCreateFile client now p nm : metadata_txn _ (create_file client now p nm)
| MkCreateNode client now p nm k mode uid gid rdev :
    metadata_txn _ (create_node client now p nm k mode uid gid rdev)
| MkSymlink client now p nm target : metadata_txn _ (symlink client now p nm target)
| MkLink now ino p nm : metadata_txn _ (link now ino p nm)
| MkUnlink now p nm : metadata_txn _ (unlink now p nm)
| MkRmdir now p nm : metadata_txn _ (rmdir now p nm)
| MkRename now p nm p' nm' noreplace : metadata_txn _ (rename_with_mode now p nm p' nm' noreplace)
| MkExchange now p nm p' nm' : metadata_txn _ (rename_exchange now p nm p' nm')
| MkSetSize now ino size : metadata_txn _ (set_file_size now ino size)
| MkExtend now ino size : metadata_txn _ (extend_file_size now ino size)
| MkSetAttr now ino req flags : metadata_txn _ (set_attr now ino req flags)
| MkOpen now ino truncate : metadata_txn _ (open_update now ino truncate)
| MkAppend chunk s : metadata_txn _ (append_slice chunk s)
| MkWrite now ino chunk s size : metadata_txn _ (write now ino chunk s size)
| MkReplace now chunk new data : metadata_txn _ (replace_slices_for_compact now chunk new data)
| MkReplaceVersion now chunk new data expected :
    metadata_txn _ (replace_slices_for_compact_with_version now chunk new data expected)
| MkRecord now slice chunk size operation :
    metadata_txn _ (record_uncommitted_slice now slice chunk size operation)
| MkConfirm slice : metadata_txn _ (confirm_slice_committed slice)
| MkForget slices : metadata_txn _ (delete_uncommitted_slices slices)
| MkCleanup cutoff r : metadata_txn _ (cleanup_one cutoff r)
| MkProcess cutoff r : metadata_txn _ (process_one cutoff r)
| MkConfirmDelayed ids : metadata_txn _ (confirm_delayed_deleted ids)
| MkSetPlock sid ino owner l ty range : metadata_txn _ (try_set_plock sid ino owner l ty range)
| MkNextId client key : key <> INODE_ID_KEY -> metadata_txn _ (next_id client key).

Lemma metadata_txn_keeps A (m : txn A) : metadata_txn A m -> op_keeps m.
Proof.
  destruct 1; eauto using mkdir_keeps, create_file_keeps, create_node_keeps, symlink_keeps, link_keeps,
    unlink_keeps, rmdir_keeps, rename_with_mode_keeps, rename_exchange_keeps, set_file_size_keeps,
    extend_file_size_keeps, set_attr_keeps, open_update_keeps, append_slice_keeps, write_keeps.
  all: eauto using replace_keeps, replace_version_keeps, record_uncommitted_keeps, confirm_committed_keeps,
    delete_uncommitted_keeps, cleanup_one_keeps, process_one_keeps, confirm_delayed_keeps,
    set_plock_keeps, next_id_keeps.
Qed.

(** The states of a volume: initialised once, then changed by transactions that
    commit or are rolled back, and by the purge of unlinked files. *)
Inductive volume : Sys -> Prop :=
| volume_init now t : initialize_write now (begin (mkSys empty_db ∅)) = (Ok tt, t) -> volume (commit t)
| volume_commit s A (m : txn A) a t : volume s -> small (sys_db s) -> metadata_txn A m ->
    m (begin s) = (Ok a, t) -> volume (commit t)
| volume_rollback s A (m : txn A) : volume s -> small (sys_db s) -> metadata_txn A m ->
    volume (rollback (m (begin s)).2)
| volume_purge s ino a t : volume s -> purgeable (sys_db s) ino ->
    remove_file_metadata ino (begin s) = (Ok a, t) -> volume (commit t).

Definition fresh_volume (now : Z) : Sys :=
  mkSys (with_counters <[INODE_ID_KEY := FIRST_ALLOCATED_INODE]>
           (with_inodes <[ROOT_INODE := root_node now]> empty_db)) ∅.

Lemma initialised now t :
  initialize_write now (begin (mkSys empty_db ∅)) = (Ok tt, t) -> commit t = fresh_volume now.
Proof. by intros [= <-]. Qed.

Lemma fresh_volume_ok now : sys_ok (fresh_volume now).
Proof.
  split.
  - assert (forall i sh, ns_nodes (ns_of (sys_db (fresh_volume now))) !! i = Some sh ->
              i = ROOT /\ sh = shape (root_node now)) as Hone.
    { intros i sh. cbn. rewrite fmap_insert, fmap_empty. intros [[<- <-]|[_ ?]]%lookup_insert_Some; done. }
    split.
    + by exists (shape (root_node now)).
    + intros i sh [-> ->]%Hone. split; [done|]. cbn. by rewrite bool_decide_eq_true_2.
    + intros i sh [-> _]%Hone _. apply reaches_root.
    + done.
    + done.
  - split; [split; [done..|]|]; cbn; [by intros * _ ?|].
    intros i [x [[<- _]|[_ ?]]%lookup_insert_Some] [Hfr|(c&l&?&_)]; [|done..]. by vm_compute in Hfr.
Qed.

Lemma volume_ok s : volume s -> sys_ok s.
Proof.
  induction 1 as [now t ->%initialised|s A m a t _ IH Hsm Hm Ht|s A m _ IH Hsm Hm|s ino a t _ IH Hp Ht].
  - apply fresh_volume_ok.
  - destruct (metadata_txn_keeps A m Hm s IH Hsm) as [_ H]. by eapply H.
  - by destruct (metadata_txn_keeps A m Hm s IH Hsm).
  - destruct (remove_file_metadata_keeps ino s IH Hp) as [_ H]. by eapply H.
Qed.


Definition exec {A} (m : txn A) (s : Sys) : Sys := commit (m (begin s)).2.

Lemma volume_exec A (m : txn A) s : volume s -> small (sys_db s) -> metadata_txn A m ->
  is_Ok (m (begin s)).1 = true -> volume (exec m s).
Proof.
  intros Hs Hsm Hm Hok. unfold exec. destruct (m (begin s)) as [[a|e] t] eqn:Ht; [|done].
  by eapply volume_commit.
Qed.

(** A directory moved below another one, a file with two names one of which is
    replaced by a rename, and an unlinked file. *)
Definition w_volume : Sys :=
  exec (rmdir 9 1 "d") (exec (unlink 8 2 "f") (exec (rename_with_mode 7 2 "g" 3 "h" false)
    (exec (rename_with_mode 6 1 "b" 2 "b" false) (exec (mkdir 1 5 1 "d") (exec (link 5 4 3 "h")
      (exec (create_file 2 4 2 "g") (exec (create_file 1 3 2 "f") (exec (mkdir 1 2 1 "b")
        (exec (mkdir 1 1 1 "a") (fresh_volume 0)))))))))).

Lemma w_volume_reached : volume w_volume.
Proof.
  repeat (apply volume_exec; [|vm_compute; reflexivity|constructor|vm_compute; reflexivity]).
  by apply (volume_init 0 (initialize_write 0 (begin (mkSys empty_db ∅))).2).
Qed.


