(* ===== verification/Paths.v ===== *)
(** Names and paths: in a well-formed namespace [get_paths] answers with exactly
    the absolute paths that [lookup_path] resolves to the node. *)
From stdpp Require Import options.
From Stdlib Require Import Ascii.
From S2P Require Import Prelude MetaTypes MetaTxn Keys TxnRun MetaOps Namespace MetaInv Volume.

(** ** Splitting and joining *)

Definition valid_name (s : string) : Prop := s <> EmptyString /\ no_slash s = true.

(** The names that clients of the store give their entries. *)
Definition valid_names (d : DB) : Prop :=
  forall p nm e, dentries d !! (p, nm) = Some e -> valid_name nm.

Lemma split_slash_nonempty s : split_slash s <> [].
Proof.
  induction s as [|c s IH]; cbn; [done|]. destruct (split_slash s); [done|]. by destruct (Ascii.eqb _ _).
Qed.

Lemma split_slash_app a b : no_slash a = true ->
  split_slash (a ++ String "/" b) = a :: split_slash b.
Proof.
  induction a as [|c a IH]; intros H.
  - change (split_slash (String "/" b) = EmptyString :: split_slash b). cbn.
    by destruct (split_slash b) eqn:E; [destruct (split_slash_nonempty b)|].
  - cbn in H. apply andb_true_iff in H as [Hc Ha].
    change (split_slash (String c (a ++ String "/" b)) = String c a :: split_slash b). cbn [split_slash].
    rewrite IH by done. by destruct (Ascii.eqb c "/").
Qed.

Lemma split_slash_single a : no_slash a = true -> split_slash a = [a].
Proof.
  induction a as [|c a IH]; cbn; intros H; [done|].
  apply andb_true_iff in H as [Hc Ha]. rewrite IH by done. by destruct (Ascii.eqb c "/").
Qed.

Lemma split_concat parts : parts <> [] -> Forall (fun s => no_slash s = true) parts ->
  split_slash (String.concat "/" parts) = parts.
Proof.
  induction parts as [|a parts IH]; [done|]. intros _ [Ha Hp]%Forall_cons.
  destruct parts as [|b parts]; [by apply split_slash_single|].
  change (String.concat "/" (a :: b :: parts))
    with (a ++ String "/" (String.concat "/" (b :: parts)))%string.
  rewrite split_slash_app by done. by rewrite IH.
Qed.

Lemma path_segments_join parts : parts <> [] -> Forall valid_name parts ->
  path_segments (join_path parts) = parts.
Proof.
  intros Hne Hv. unfold path_segments, join_path.
  change (("/" ++ String.concat "/" parts)%string) with (EmptyString ++ String "/" (String.concat "/" parts))%string.
  rewrite split_slash_app by done.
  rewrite split_concat; [|done|eapply Forall_impl; [exact Hv|by intros ? [_ ?]]].
  rewrite filter_cons_False by (intros H; by apply H). clear Hne.
  induction Hv as [|a parts [Ha _] _ IH]; [done|]. by rewrite filter_cons_True, IH by done.
Qed.

Lemma join_path_not_root parts : parts <> [] -> Forall valid_name parts -> join_path parts <> "/"%string.
Proof.
  intros Hne Hv H. pose proof (path_segments_join parts Hne Hv) as E. rewrite H in E.
  by vm_compute in E; subst.
Qed.

(** ** Depth of directories *)

(** The directories above [i], itself included, are pairwise different. *)
Lemma depth_chain pm n i : depth pm n i ->
  exists X : gset Z, size X = S n /\
    forall x, x ∈ X -> (exists m, (m <= n)%nat /\ depth pm m x) /\ (x = ROOT \/ is_Some (pm x)).
Proof.
  induction 1 as [|n i p Hi Hp Hd (X&Hsize&HX)].
  - exists {[ROOT]}. rewrite size_singleton. split; [done|]. intros x ->%elem_of_singleton.
    split; [exists 0%nat; by split; [|constructor]|by left].
  - assert (depth pm (S n) i) as Hdi by by econstructor.
    exists ({[i]} ∪ X). split.
    + rewrite size_union, size_singleton, Hsize; [done|]. intros x ->%elem_of_singleton Hx.
      destruct (HX _ Hx) as [(m&Hm&Hdm) _]. pose proof (depth_unique _ _ _ _ Hdi Hdm). lia.
    + intros x [->%elem_of_singleton|Hx]%elem_of_union.
      * split; [by exists (S n)|right; eauto].
      * destruct (HX _ Hx) as [(m&Hm&Hdm) ?]. split; [exists m; split; [lia|done]|done].
Qed.

Lemma depth_bound d n i : ns_ok (ns_of d) -> depth (dir_parent (ns_nodes (ns_of d))) n i ->
  (S n <= size (inodes d))%nat.
Proof.
  intros Hok (X&<-&HX)%depth_chain. rewrite <-(size_dom (D := gset Z)). apply subseteq_size.
  intros x Hx. apply elem_of_dom. destruct (HX x Hx) as [_ [->|[q Hq]]].
  - destruct (ok_root _ Hok) as (sh&(n'&->&_)%ns_node_inv&_). eauto.
  - unfold dir_parent in Hq. cbn in Hq. rewrite lookup_fmap in Hq. by destruct (inodes d !! x).
Qed.

(** ** Walking down and climbing up *)

Lemma walk_app d i l1 l2 : walk d i (l1 ++ l2) = (j ← walk d i l1; walk d j l2).
Proof.
  revert i. induction l1 as [|s l1 IH]; intros i; cbn; [done|].
  destruct (dentries d !! (i, s)) as [e|]; cbn; [apply IH|done].
Qed.

Section walks.
Context (d : DB) (Hok : ns_ok (ns_of d)).
#[local] Set Default Proof Using "All".

(** The entry of a directory other than the root is the one its node names. *)
Lemma dir_entry i n : inodes d !! i = Some n -> n_kind n = Dir -> i <> ROOT ->
  exists e, dentries d !! (n_parent n, n_name n) = Some e /\ d_ino e = i.
Proof.
  intros Hi Hk Hr. destruct (ok_node _ Hok _ _ (ns_node _ _ _ Hi)) as [_ Hn].
  cbn [sh_kind shape] in Hn. rewrite bool_decide_true in Hn by done. destruct Hn as (_&_&_&_&Hn).
  cbn in Hn. apply elem_of_ents. rewrite Hn by done. set_solver.
Qed.

Lemma entry_nodes p nm e : dentries d !! (p, nm) = Some e ->
  (exists np, inodes d !! p = Some np /\ n_kind np = Dir) /\
  (exists n, inodes d !! d_ino e = Some n /\ n_kind n = d_kind e).
Proof.
  intros He. destruct (ok_dent _ Hok _ _ _ He) as [(sp&(np&?&<-)%ns_node_inv&?) (sd&(n&?&<-)%ns_node_inv&?)].
  split; eauto.
Qed.

Lemma dir_live i n : inodes d !! i = Some n -> n_kind n = Dir -> n_deleted n || (n_nlink n =? 0) = false.
Proof.
  intros Hi Hk. destruct (dir_ok _ Hok _ _ (ns_node _ _ _ Hi) Hk) as (_&Hd&Hn&_). cbn in Hd, Hn.
  pose proof (subdirs_nonneg (dentries d) i). rewrite Hd. cbn. lia.
Qed.

(** Every directory is found by a walk as long as it is deep. *)
Lemma walk_to_dir n i : depth (dir_parent (ns_nodes (ns_of d))) n i ->
  exists segs, length segs = n /\ walk d ROOT segs = Some i.
Proof.
  induction 1 as [|n i p Hi Hp Hd (segs&Hlen&Hw)]; [by exists []|].
  unfold dir_parent in Hp. apply bind_Some in Hp as (sh&(nd&Hnd&<-)%ns_node_inv&Hp).
  case_bool_decide as Hk; [|done]. injection Hp as <-.
  destruct (dir_entry i nd Hnd Hk Hi) as (e&He&Hei). exists (segs ++ [n_name nd]).
  split; [rewrite length_app; cbn; lia|]. rewrite walk_app, Hw. cbn. cbn in He. by rewrite He, <-Hei.
Qed.

(** Climbing retraces the walk that leads to a directory. *)
Lemma climb_walk segs : forall i n parts fuel, walk d ROOT segs = Some i ->
  inodes d !! i = Some n -> n_kind n = Dir -> (length segs < fuel)%nat ->
  climb fuel d i parts = Some (Some (segs ++ parts)).
Proof.
  induction segs as [|nm segs IH] using rev_ind; intros i n parts fuel Hw Hi Hk Hf.
  { injection Hw as <-. destruct fuel as [|fuel]; [cbn in Hf; lia|]. done. }
  rewrite walk_app in Hw. apply bind_Some in Hw as (p&Hp&Hw). cbn in Hw.
  apply bind_Some in Hw as (e&He&[= <-]). destruct (entry_nodes _ _ _ He) as [(np&Hnp&Hpk) _].
  pose proof (no_entry_to_root _ Hok _ _ _ He) as Hr.
  pose proof (dir_entry_unique _ Hok _ _ (ns_node _ _ _ Hi) Hk Hr _ _ He eq_refl) as [= Hpar Hnm].
  rewrite length_app in Hf. cbn in Hf. destruct fuel as [|fuel]; [lia|]. cbn [climb].
  destruct (Z.eqb_spec (d_ino e) ROOT_INODE) as [|_]; [done|].
  rewrite Hi, (dir_live _ _ Hi Hk), <-Hpar, <-Hnm, (IH p np) by (done || lia). by rewrite <-app_assoc.
Qed.

Lemma dir_depth i n : inodes d !! i = Some n -> n_kind n = Dir ->
  exists m, depth (dir_parent (ns_nodes (ns_of d))) m i.
Proof. intros Hi Hk. by eapply (ok_tree _ Hok _ _ (ns_node _ _ _ Hi)). Qed.

(** The bindings of a live node are the entries that name it. *)
Lemma node_bindings_spec i n : inodes d !! i = Some n -> i <> ROOT -> n_deleted n || (n_nlink n =? 0) = false ->
  list_to_set (node_bindings d n) = ents (dentries d) i /\ NoDup (node_bindings d n) /\
  Z.of_nat (length (node_bindings d n)) = if is_dir (n_kind n) then 1 else n_nlink n.
Proof.
  intros Hi Hr [Hd Hl]%orb_false_iff. pose proof (node_ino d i n Hok Hi) as Hino. unfold node_bindings, StoredLinkParent.
  destruct (is_dir (n_kind n)) eqn:Hk; cbn.
  - apply is_dir_spec in Hk. destruct (ok_node _ Hok _ _ (ns_node _ _ _ Hi)) as [_ Hn].
    cbn [sh_kind shape] in Hn. rewrite bool_decide_true in Hn by done. destruct Hn as (_&_&_&_&Hn).
    cbn in Hn. rewrite Hn by done. split_and!; [set_solver|apply NoDup_singleton|done].
  - apply is_dir_false in Hk. destruct (file_ok _ Hok _ _ (ns_node _ _ _ Hi) Hk) as (_&_&Hf). cbn in Hf.
    destruct Hf as [Hn _ _ _|Hn _ _ He|l Hn _ HL Hnd Hlen He]; cbn in *.
    + lia.
    + rewrite Hn. cbn. rewrite He. split_and!; [set_solver|apply NoDup_singleton|done].
    + destruct (Z.leb_spec (n_nlink n) 1); [lia|]. rewrite Hino, HL. cbn.
      by split_and!.
Qed.
End walks.

(** ** Paths of a node *)

Lemma mapM_total {A B} (f : A -> option B) (g : A -> B) l :
  (forall a, a ∈ l -> f a = Some (g a)) -> mapM f l = Some (g <$> l).
Proof.
  induction l as [|a l IH]; intros H; cbn; [done|]. rewrite H by set_solver. cbn.
  by rewrite IH by set_solver.
Qed.

Lemma dedup_NoDup {A} `{!EqDecision A} (l : list A) : NoDup l -> dedup l = l.
Proof.
  induction l as [|a [|b l] IH]; cbn; [done..|]. intros [Ha Hl]%NoDup_cons.
  rewrite bool_decide_eq_false_2 by set_solver. f_equal. by apply IH.
Qed.

Lemma join_path_inj l1 l2 : l1 <> [] -> l2 <> [] -> Forall valid_name l1 -> Forall valid_name l2 ->
  join_path l1 = join_path l2 -> l1 = l2.
Proof. intros. rewrite <-(path_segments_join l1), <-(path_segments_join l2) by done. congruence. Qed.

Section paths.
Context (d : DB) (Hok : ns_ok (ns_of d)) (Hnames : valid_names d).
#[local] Set Default Proof Using "All".

Lemma walk_names segs : forall i j, walk d i segs = Some j -> Forall valid_name segs.
Proof.
  induction segs as [|s segs IH]; intros i j; cbn; [constructor|].
  intros (e&He&Hw)%bind_Some. constructor; [by eapply Hnames|by eapply IH].
Qed.

(** The segments of the path a binding stands for. *)
Definition binding_segs (b : StoredLinkParent) : list string :=
  default [] (default None (climb (S (size (inodes d))) d b.1 [b.2])).

Lemma binding_climbs p nm e : dentries d !! (p, nm) = Some e ->
  exists pre, walk d ROOT pre = Some p /\ binding_segs (p, nm) = pre ++ [nm] /\
    climb (S (size (inodes d))) d p [nm] = Some (Some (pre ++ [nm])).
Proof.
  intros He. destruct (entry_nodes d Hok _ _ _ He) as [(np&Hnp&Hk) _].
  destruct (dir_depth d Hok _ _ Hnp Hk) as [m Hm]. pose proof (depth_bound d m p Hok Hm) as Hb.
  destruct (walk_to_dir d Hok _ _ Hm) as (pre&Hlen&Hw). exists pre.
  assert (climb (S (size (inodes d))) d p [nm] = Some (Some (pre ++ [nm]))) as Hc
    by (eapply climb_walk; [done..|lia]).
  split_and!; [done| |done]. unfold binding_segs. cbn [fst snd]. by rewrite Hc.
Qed.

(** A path leads to the node exactly if it is the path of one of its bindings. *)
Lemma binding_segs_iff i n segs : inodes d !! i = Some n -> i <> ROOT ->
  n_deleted n || (n_nlink n =? 0) = false ->
  walk d ROOT segs = Some i <-> exists b, b ∈ node_bindings d n /\ segs = binding_segs b.
Proof.
  intros Hi Hr Hlive. destruct (node_bindings_spec d Hok i n Hi Hr Hlive) as (Hset&_&_).
  assert (forall b : Binding, b ∈ node_bindings d n <-> exists e, dentries d !! b = Some e /\ d_ino e = i) as Hb.
  { intros b. rewrite <-elem_of_ents, <-Hset. by rewrite elem_of_list_to_set. }
  split.
  - intros Hw. destruct segs as [|nm pre] using rev_ind; [by injection Hw as <-|clear IHpre].
    pose proof Hw as Hw'. rewrite walk_app in Hw. apply bind_Some in Hw as (p&Hp&Hw). cbn in Hw.
    apply bind_Some in Hw as (e&He&[= Hei]). exists (p, nm). split; [apply Hb; eauto|].
    destruct (binding_climbs _ _ _ He) as (pre'&Hw''&->&_). f_equal.
    destruct (entry_nodes d Hok _ _ _ He) as [(np&Hnp&Hk) _].
    pose proof (climb_walk d Hok pre p np [] (S (length pre + length pre')) Hp Hnp Hk ltac:(lia)) as E1.
    pose proof (climb_walk d Hok pre' p np [] (S (length pre + length pre')) Hw'' Hnp Hk ltac:(lia)) as E2.
    rewrite !app_nil_r in *. congruence.
  - intros ([p nm]&(e&He&Hei)%Hb&->). destruct (binding_climbs _ _ _ He) as (pre&Hw&->&_).
    rewrite walk_app, Hw. cbn. rewrite He. cbn. by rewrite Hei.
Qed.

Lemma paths_of_bindings i n : inodes d !! i = Some n -> i <> ROOT ->
  n_deleted n || (n_nlink n =? 0) = false ->
  let ps := (fun b => join_path (binding_segs b)) <$> node_bindings d n in
  paths_of d (node_bindings d n) = Some ps /\ NoDup ps.
Proof.
  intros Hi Hr Hlive ps. destruct (node_bindings_spec d Hok i n Hi Hr Hlive) as (Hset&Hnd&_).
  assert (forall p nm, (p, nm) ∈ node_bindings d n -> exists e, dentries d !! (p, nm) = Some e) as Hb.
  { intros p nm Hin. assert ((p, nm) ∈ ents (dentries d) i) as (e&He&_)%elem_of_ents; [|eauto].
    rewrite <-Hset. by apply elem_of_list_to_set. }
  split.
  - unfold paths_of. rewrite (mapM_total _ (fun b => Some (binding_segs b))).
    + cbn. f_equal. unfold ps. clear. induction (node_bindings d n) as [|b l IH]; cbn; [done|]. by f_equal.
    + intros [p nm] Hin. destruct (Hb _ _ Hin) as [e He].
      by destruct (binding_climbs _ _ _ He) as (pre&_&->&->).
  - apply NoDup_fmap_2_strong; [|done]. intros [p1 n1] [p2 n2] H1 H2 Heq.
    destruct (Hb _ _ H1) as [e1 He1], (Hb _ _ H2) as [e2 He2].
    destruct (binding_climbs _ _ _ He1) as (pre1&Hw1&E1&_), (binding_climbs _ _ _ He2) as (pre2&Hw2&E2&_).
    rewrite E1, E2 in Heq. apply join_path_inj in Heq.
    + apply app_inj_tail in Heq as [-> ->]. congruence.
    + by destruct pre1.
    + by destruct pre2.
    + apply Forall_app. split; [by eapply walk_names|]. constructor; [by eapply Hnames|done].
    + apply Forall_app. split; [by eapply walk_names|]. constructor; [by eapply Hnames|done].
Qed.
End paths.

(** The canonical spelling of a path below the root. *)
Definition canonical (path : string) (segs : list string) : Prop :=
  segs <> [] /\ Forall valid_name segs /\ path = join_path segs.

Lemma lookup_canonical path segs s : canonical path segs ->
  lookup_path path s = (Ok (j ← walk (view s) ROOT segs; (fun n => (n_ino n, n_kind n)) <$> inodes (view s) !! j), s).
Proof.
  intros (Hne&Hv&->). unfold lookup_path.
  rewrite bool_decide_eq_false_2 by done.
  rewrite bool_decide_eq_false_2 by by apply join_path_not_root.
  rewrite bind_read, path_segments_join by done. fold ROOT.
  change ROOT_INODE with ROOT. destruct (walk (view s) ROOT segs); done.
Qed.

(** C28: in a well-formed namespace whose entry names contain no slash, [get_paths]
    of a live node other than the root returns, each once, exactly the canonical
    absolute paths that [lookup_path] resolves to that node and its kind, one path
    for a directory and as many as its link count for any other node; its climb
    to the root always ends. *)
Theorem paths_roundtrip d ls ino n :
  ns_ok (ns_of d) -> valid_names d -> inodes d !! ino = Some n -> ino <> ROOT_INODE ->
  n_deleted n || (n_nlink n =? 0) = false ->
  let s := mkTxn d d ls in
  exists paths, get_paths ino s = (Ok (Some paths), s) /\ NoDup paths /\
    Z.of_nat (length paths) = (if is_dir (n_kind n) then 1 else n_nlink n) /\
    forall path, path ∈ paths <->
      (exists segs, canonical path segs) /\ lookup_path path s = (Ok (Some (ino, n_kind n)), s).
Proof.
  intros Hok Hnames Hi Hr Hlive s. pose proof (node_ino d ino n Hok Hi) as Hino.
  destruct (paths_of_bindings d Hok Hnames ino n Hi Hr Hlive) as [Hps Hnd].
  destruct (node_bindings_spec d Hok ino n Hi Hr Hlive) as (_&_&Hlen).
  set (ps := (fun b => join_path (binding_segs d b)) <$> node_bindings d n) in *.
  exists (sort_by String.leb ps).
  assert (sort_by String.leb ps ≡ₚ ps) as Hperm by apply sort_by_perm.
  split_and!.
  - unfold get_paths; txn_rows. destruct (Z.eqb_spec ino ROOT_INODE); [done|].
    rewrite bind_read. cbn [view s]. rewrite Hi, Hlive, bind_read. cbn [view s]. rewrite Hps. cbn.
    by rewrite dedup_NoDup by by rewrite Hperm.
  - by rewrite Hperm.
  - rewrite Hperm. unfold ps. by rewrite length_fmap.
  - intros path. rewrite Hperm. unfold ps. rewrite list_elem_of_fmap. split.
    + intros (b&->&Hb). assert (walk d ROOT (binding_segs d b) = Some ino) as Hw
        by (apply (binding_segs_iff d Hok Hnames ino n); eauto).
      assert (canonical (join_path (binding_segs d b)) (binding_segs d b)) as Hc.
      { split_and!; [|by eapply walk_names|done]. intros E. rewrite E in Hw. by injection Hw as <-. }
      split; [eauto|]. rewrite (lookup_canonical _ _ s Hc). change (view s) with d. rewrite Hw. cbn. rewrite Hi. cbn.
      by rewrite Hino.
    + intros [[segs Hc] Hl]. rewrite (lookup_canonical _ _ s Hc) in Hl. injection Hl as Hl.
      apply bind_Some in Hl as (j&Hw&Hj). apply fmap_Some in Hj as (nj&Hj&[= -> _]). cbn in Hw, Hj.
      rewrite (node_ino d j nj Hok Hj) in *. destruct Hc as (_&_&->).
      rewrite (binding_segs_iff d Hok Hnames j n) in Hw by done. naive_solver.
Qed.

Lemma paths_roundtrip_witness :
  let s := begin w_volume in
  exists paths, get_paths 1026 s = (Ok (Some paths), s) /\ NoDup paths /\ Z.of_nat (length paths) = 1 /\
    forall path, path ∈ paths <->
      (exists segs, canonical path segs) /\ lookup_path path s = (Ok (Some (1026, File)), s).
Proof.
  destruct (inodes (sys_db w_volume) !! 1026) as [n|] eqn:Hn; [|by vm_compute in Hn].
  assert (n_kind n = File /\ n_nlink n = 1 /\ n_deleted n = false) as (Hk&Hl&Hd)
    by (vm_compute in Hn; by injection Hn as <-).
  assert (valid_names (sys_db w_volume)) as Hv.
  { intros p nm e He. assert (map_Forall (fun k _ => valid_name k.2) (dentries (sys_db w_volume))) as H
      by (apply (bool_decide_unpack _); vm_compute; reflexivity).
    apply (H _ _ He). }
  destruct (volume_ok w_volume w_volume_reached) as [Hok _].
  pose proof (paths_roundtrip (sys_db w_volume) (sys_leases w_volume) 1026 n Hok Hv Hn) as H.
  rewrite Hk, Hl, Hd in H. exact (H ltac:(done) eq_refl).
Defined.
