(* ===== verification/Requests.v ===== *)
(** What the namespace operations do: in a well-formed namespace each of them
    succeeds exactly when the conditions a user expects hold, changes exactly the
    entries it is asked to change, and leaves the contents of every node alone. *)
From stdpp Require Import options.
From S2P Require Import Prelude MetaTypes MetaTxn TxnRun MetaOps Namespace MetaInv MetaRename Volume.

(** ** The specification *)

Inductive Request :=
| Link (ino parent : Z) (name : string)
| Unlink (parent : Z) (name : string)
| Rmdir (parent : Z) (name : string)
| Rename (old_parent : Z) (old_name : string) (new_parent : Z) (new_name : string) (noreplace : bool)
| Exchange (old_parent : Z) (old_name : string) (new_parent : Z) (new_name : string).

Definition perform (now : Z) (r : Request) : txn unit :=
  match r with
  | Link ino p nm => let! _ := link now ino p nm in txn_ret tt
  | Unlink p nm => unlink now p nm
  | Rmdir p nm => rmdir now p nm
  | Rename p1 n1 p2 n2 noreplace => let! _ := rename_with_mode now p1 n1 p2 n2 noreplace in txn_ret tt
  | Exchange p1 n1 p2 n2 => rename_exchange now p1 n1 p2 n2
  end.

Definition is_directory (d : DB) (i : Z) : Prop := exists n, inodes d !! i = Some n /\ n_kind n = Dir.
Definition no_children (d : DB) (i : Z) : Prop := forall nm, dentries d !! (i, nm) = None.
(** A directory may only move to a place outside itself. *)
Definition may_move (d : DB) (e : StoredDentry) (parent : Z) : Prop :=
  d_kind e = Dir -> avoids (parents_of d) (d_ino e) parent.
(** What may be replaced by [e]. *)
Definition may_replace (d : DB) (e dest : StoredDentry) : Prop :=
  (d_kind e = Dir /\ d_kind dest = Dir /\ no_children d (d_ino dest)) \/
  (d_kind e <> Dir /\ d_kind dest <> Dir).

Definition enabled (d : DB) (r : Request) : Prop :=
  match r with
  | Link ino p nm =>
      is_directory d p /\ dentries d !! (p, nm) = None /\
      exists n, inodes d !! ino = Some n /\ n_kind n <> Dir /\ n_kind n <> Symlink /\ n_nlink n <> 0
  | Unlink p nm => exists e, dentries d !! (p, nm) = Some e /\ d_kind e <> Dir
  | Rmdir p nm => exists e, dentries d !! (p, nm) = Some e /\ d_kind e = Dir /\ no_children d (d_ino e)
  | Rename p1 n1 p2 n2 noreplace =>
      exists e, dentries d !! (p1, n1) = Some e /\
        ((p1, n1) = (p2, n2) \/
         (is_directory d p2 /\ may_move d e p2 /\
          match dentries d !! (p2, n2) with
          | None => True
          | Some dest => noreplace = false /\ (d_ino dest = d_ino e \/ may_replace d e dest)
          end))
  | Exchange p1 n1 p2 n2 =>
      (p1, n1) = (p2, n2) \/
      exists e1 e2, dentries d !! (p1, n1) = Some e1 /\ dentries d !! (p2, n2) = Some e2 /\
        (d_ino e1 = d_ino e2 \/ (may_move d e1 p2 /\ may_move d e2 p1))
  end.

(** The entries afterwards. *)
Definition effect (d : DB) (r : Request) : Dents :=
  let ds := dentries d in
  match r with
  | Link ino p nm =>
      match inodes d !! ino with
      | Some n => <[(p, nm) := mkDentry ino (n_kind n)]> ds
      | None => ds
      end
  | Unlink p nm | Rmdir p nm => delete (p, nm) ds
  | Rename p1 n1 p2 n2 _ =>
      match ds !! (p1, n1) with
      | Some e => if bool_decide ((d_ino <$> ds !! (p2, n2)) = Some (d_ino e)) then ds
                  else <[(p2, n2) := e]> (delete (p1, n1) ds)
      | None => ds
      end
  | Exchange p1 n1 p2 n2 =>
      match ds !! (p1, n1), ds !! (p2, n2) with
      | Some e1, Some e2 => if d_ino e1 =? d_ino e2 then ds
                            else <[(p2, n2) := e1]> (<[(p1, n1) := e2]> ds)
      | _, _ => ds
      end
  end.

(** What a node holds besides its place in the namespace and its times. *)
Record Core := mkCore {
  co_kind : StoredNodeKind; co_size : Z; co_blocks : Z; co_mode : Z; co_rdev : Z; co_uid : Z; co_gid : Z;
  co_target : option string }.
Definition core (n : StoredNode) : Core :=
  mkCore (n_kind n) (n_size n) (n_blocks n) (n_mode n) (n_rdev n) (n_uid n) (n_gid n) (n_symlink_target n).

(** The node that disappears: a removed or replaced directory. *)
Definition removed (d : DB) (r : Request) : option Z :=
  match r with
  | Rmdir p nm => d_ino <$> dentries d !! (p, nm)
  | Rename p1 n1 p2 n2 _ =>
      e ← dentries d !! (p1, n1); dest ← dentries d !! (p2, n2);
      if bool_decide (d_ino dest <> d_ino e /\ d_kind dest = Dir) then Some (d_ino dest) else None
  | _ => None
  end.
Definition cores (m : gmap Z StoredNode) : gmap Z Core := core <$> m.

(** The outcome of a run from [d]: [ok] tells when it succeeds, then the entries
    and the nodes' contents are the given ones. *)
Definition outcome {A} (r : result MetaError A * TxnState) (ok : Prop) (ds : Dents) (cs : gmap Z Core) : Prop :=
  match r with
  | (Ok _, t) => ok /\ dentries (view t) = ds /\ cores (inodes (view t)) = cs
  | (Err _, _) => ~ ok
  end.

Definition drop_opt (o : option Z) (m : gmap Z Core) : gmap Z Core := from_option (fun i => delete i m) m o.

(** ** Stepping through runs *)

Lemma bind_bind {A B C} (m : txn A) (k : A -> txn B) (k' : B -> txn C) s :
  txn_bind (txn_bind m k) k' s = txn_bind m (fun a => txn_bind (k a) k') s.
Proof. unfold txn_bind. by destruct (m s) as [[]]. Qed.
Lemma bind_ret {A B} (a : A) (k : A -> txn B) s : txn_bind (txn_ret a) k s = k a s.
Proof. done. Qed.
Lemma bind_write {B} f (k : unit -> txn B) s :
  txn_bind (txn_write f) k s = k tt (mkTxn (committed s) (f (view s)) (leases s)).
Proof. done. Qed.
Lemma bind_Ok {A B} (m : txn A) (k : A -> txn B) s a s' : m s = (Ok a, s') -> txn_bind m k s = k a s'.
Proof. unfold txn_bind. by intros ->. Qed.

Lemma bind_Err {A B} (m : txn A) (k : A -> txn B) s e s' : m s = (Err e, s') -> txn_bind m k s = (Err e, s').
Proof. unfold txn_bind. by intros ->. Qed.

(** Runs the accessors at the front of a transaction. *)
Ltac txn_step :=
  repeat (rewrite ?bind_bind, ?bind_read, ?bind_ok_or, ?bind_ensure, ?bind_ret, ?bind_write;
          cbn [view committed leases fst snd]).

(** ** Contents of nodes *)

Lemma cores_insert m i n n' : m !! i = Some n -> core n' = core n -> cores (<[i := n']> m) = cores m.
Proof. intros Hi Hc. unfold cores. rewrite fmap_insert, Hc. apply insert_id. by rewrite lookup_fmap, Hi. Qed.
Lemma cores_lookup m i n : m !! i = Some n -> cores m !! i = Some (core n).
Proof. intros Hi. unfold cores. by rewrite lookup_fmap, Hi. Qed.
Lemma cores_insert' m i n' : cores m !! i = Some (core n') -> cores (<[i := n']> m) = cores m.
Proof. intros Hi. unfold cores in *. rewrite fmap_insert. by apply insert_id. Qed.

Section facts.
Context (d : DB) (Hok : ns_ok (ns_of d)).
#[local] Set Default Proof Using "All".

Lemma entry_facts p nm e : dentries d !! (p, nm) = Some e ->
  exists np n, inodes d !! p = Some np /\ n_kind np = Dir /\ n_ino np = p /\
    inodes d !! d_ino e = Some n /\ n_kind n = d_kind e /\ n_ino n = d_ino e /\ d_ino e <> p /\
    n_deleted n || (n_nlink n =? 0) = false.
Proof.
  intros He. destruct (ok_dent _ Hok _ _ _ He) as [(sp&(np&?&<-)%ns_node_inv&?) (sd&(n&Hn&<-)%ns_node_inv&?)].
  exists np, n. split_and!; try done; try (by eapply node_ino); [by eapply (entry_not_parent _ Hok)|].
  destruct (decide (n_kind n = Dir)) as [Hk|Hk].
  - destruct (dir_ok _ Hok _ _ (ns_node _ _ _ Hn) Hk) as (_&Hd&Hl&_). cbn in Hd, Hl. rewrite Hd, Hl.
    pose proof (subdirs_nonneg (dentries d) (d_ino e)). cbn. lia.
  - destruct (file_ok _ Hok _ _ (ns_node _ _ _ Hn) Hk) as (_&_&Hf). cbn in Hf.
    assert ((p, nm) ∈ ents (dentries d) (d_ino e)) as Hin by (apply elem_of_ents; eauto).
    destruct Hf as [_ _ _ He0|Hn1 Hd _ _|l Hn1 Hd _ _ _ _]; cbn in *; [set_solver|rewrite Hd; cbn; lia..].
Qed.

(** The kinds of files that can be linked once more. *)
Lemma live_iff i n : inodes d !! i = Some n -> n_kind n <> Dir -> n_deleted n || (n_nlink n =? 0) = (n_nlink n =? 0).
Proof.
  intros Hi Hk. destruct (file_ok _ Hok _ _ (ns_node _ _ _ Hi) Hk) as (_&_&Hf).
  destruct Hf as [Hl Hd _ _|Hl Hd _ _|l Hl Hd _ _ _ _]; cbn in Hl, Hd; rewrite Hd; [by rewrite Hl|done..].
Qed.

(** Removing the entry of a file never fails. *)
Lemma remove_total now p nm e : dentries d !! (p, nm) = Some e -> d_kind e <> Dir ->
  forall c ls, exists t, txn_remove_non_dir_dentry now p nm e (mkTxn c d ls) = (Ok tt, t) /\
    dentries (view t) = delete (p, nm) (dentries d) /\ cores (inodes (view t)) = cores (inodes d) /\
    (forall i, i <> d_ino e -> link_parents (view t) !! i = link_parents d !! i).
Proof.
  intros He Hk c ls. destruct (entry_facts _ _ _ He) as (np&n&_&_&_&Hn&Hkn&Hino&_&Hlive).
  unfold txn_remove_non_dir_dentry; txn_rows. txn_step.
  rewrite (proj2 (is_dir_false _) Hk), Hn. cbn [negb]. txn_step. rewrite Hkn, (proj2 (is_dir_false _) Hk). cbn [negb].
  txn_step. rewrite Hlive. cbn [negb]. txn_step.
  assert (n_kind n <> Dir) as Hk' by congruence.
  destruct (file_ok _ Hok _ _ (ns_node _ _ _ Hn) Hk') as (_&_&Hf).
  assert ((p, nm) ∈ ents (dentries d) (d_ino e)) as Hin by (apply elem_of_ents; eauto).
  destruct Hf as [_ _ _ He0|Hn1 Hd _ _|l Hn1 Hd HL Hnd Hlen Hl]; cbn in Hin; [set_solver| |]; cbn in *.
  - rewrite Hn1. cbn. eexists. split_and!; [reflexivity|done| |]; cbn; rewrite ?Hino.
    + by eapply cores_insert.
    + intros i Hi. by rewrite lookup_delete_ne.
  - destruct (Z.ltb_spec 1 (n_nlink n)); [|lia]. txn_step. cbn [link_parents with_dentries]. rewrite Hino, HL. cbn.
    rewrite Hl, elem_of_list_to_set in Hin. pose proof (filter_ne_NoDup (p, nm) l Hnd Hin) as Hlen'.
    destruct (Nat.eqb_spec (length (filter (fun b => b <> (p, nm)) l)) (length l)); [lia|]. cbn. txn_step.
    destruct (Z.eqb_spec (n_nlink n - 1) 1).
    + destruct (filter (fun b => b <> (p, nm)) l) as [|b rest] eqn:Hrest; [cbn in *; lia|]. cbn. txn_step.
      eexists. split_and!; [reflexivity|done| |]; cbn; rewrite ?Hino; [by eapply cores_insert|].
      intros i Hi. by rewrite lookup_delete_ne.
    + txn_step. eexists. split_and!; [reflexivity|done| |]; cbn; rewrite ?Hino; [by eapply cores_insert|].
      intros i Hi. by rewrite lookup_insert_ne.
Qed.

(** Moving a binding that is there never fails. *)
Lemma bound_in_list p nm e n : dentries d !! (p, nm) = Some e -> inodes d !! d_ino e = Some n ->
  is_dir (n_kind n) || (n_nlink n <=? 1) = false -> (p, nm) ∈ default [] (link_parents d !! d_ino e).
Proof.
  intros He Hn [Hk Hl]%orb_false_iff. apply is_dir_false in Hk.
  assert ((p, nm) ∈ ents (dentries d) (d_ino e)) as Hin by (apply elem_of_ents; eauto).
  destruct (file_ok _ Hok _ _ (ns_node _ _ _ Hn) Hk) as (_&_&Hf).
  destruct Hf as [Hn1 _ _ _|Hn1 _ _ _|l _ _ HL _ _ Hset]; cbn in *; [lia..|].
  unfold StoredLinkParent. rewrite HL. cbn. by rewrite Hset, elem_of_list_to_set in Hin.
Qed.
End facts.

Lemma rebind_total k k' l : k ∈ l -> is_Some (rebind k k' l).
Proof.
  induction l as [|a l IH]; intros Hin; cbn; [set_solver|]. case_bool_decide; [done|].
  destruct IH as [l' ->]; [set_solver|done].
Qed.

Lemma move_total n p1 n1 p2 n2 D :
  (is_dir (n_kind n) || (n_nlink n <=? 1) = false -> (p1, n1) ∈ default [] (link_parents D !! n_ino n)) ->
  forall c ls, exists n' f,
    txn_move_node_binding n p1 n1 p2 n2 (mkTxn c D ls) = (Ok n', mkTxn c (with_link_parents f D) ls) /\
    core n' = core n /\ n_ino n' = n_ino n /\
    (forall i, i <> n_ino n -> f (link_parents D) !! i = link_parents D !! i).
Proof.
  intros Hin c ls. unfold txn_move_node_binding; txn_rows.
  destruct (is_dir (n_kind n) || (n_nlink n <=? 1)).
  - exists (set_binding p2 n2 n), id. split_and!; [by destruct D|done..].
  - destruct (rebind_total (p1, n1) (p2, n2) _ (Hin eq_refl)) as [l Hl]. txn_step. rewrite Hl. txn_step.
    eexists _, _. split_and!; [reflexivity|done..|]. intros i Hi. cbn. by rewrite lookup_insert_ne.
Qed.

Lemma put_parents_total now p1 p2 pn1 pn2 d1 d2 c D ls :
  cores (inodes D) !! n_ino pn1 = Some (core pn1) -> cores (inodes D) !! n_ino pn2 = Some (core pn2) ->
  exists m, put_parents now p1 p2 pn1 pn2 d1 d2 (mkTxn c D ls) = (Ok tt, mkTxn c (with_inodes (fun _ => m) D) ls) /\
    cores m = cores (inodes D).
Proof.
  intros H1 H2. unfold put_parents; txn_rows. destruct (p1 =? p2).
  - eexists. split; [reflexivity|]. by apply cores_insert'.
  - eexists. split; [reflexivity|]. cbn. rewrite cores_insert'; [by apply cores_insert'|].
    rewrite (cores_insert' (inodes D)); done.
Qed.

Lemma finish_total now p1 n1 p2 n2 e src pn1 pn2 replaced delta rdir c D ls :
  cores (inodes D) !! n_ino src = Some (core src) ->
  cores (inodes D) !! n_ino pn1 = Some (core pn1) -> cores (inodes D) !! n_ino pn2 = Some (core pn2) ->
  (is_dir (n_kind src) || (n_nlink src <=? 1) = false -> (p1, n1) ∈ default [] (link_parents D !! n_ino src)) ->
  exists r t, finish_rename now p1 n1 p2 n2 e src pn1 pn2 replaced delta rdir (mkTxn c D ls) = (Ok r, t) /\
    dentries (view t) = <[(p2, n2) := e]> (delete (p1, n1) (dentries D)) /\
    cores (inodes (view t)) = cores (inodes D).
Proof.
  intros Hs H1 H2 Hin. unfold finish_rename; txn_rows.
  destruct (move_total src p1 n1 p2 n2 D Hin c ls) as (moved&f&Hm&Hc&Hi&_).
  rewrite (bind_Ok _ _ _ _ _ Hm). txn_step.
  set (D' := with_inodes _ _).
  assert (cores (inodes D') = cores (inodes D)) as HD.
  { unfold D'. cbn. apply cores_insert'. cbn. rewrite Hi, Hs. f_equal. rewrite <-Hc. by destruct moved. }
  destruct (put_parents_total now p1 p2 pn1 pn2
    (if is_dir (n_kind src) && negb (p1 =? p2) then -1 else 0)
    (if is_dir (n_kind src) && negb (p1 =? p2) then delta + 1 else delta) c D' ls) as (m&Hp&Hcm);
    [by rewrite HD..|].
  rewrite (bind_Ok _ _ _ _ _ Hp). txn_step. eexists _, _. split_and!; [reflexivity|done|].
  change (cores m = cores (inodes D)). by rewrite Hcm.
Qed.

(** ** Outcomes *)

Lemma outcome_err {A} (e : MetaError) t (ok : Prop) ds cs : ~ ok -> outcome (Err (A := A) e, t) ok ds cs.
Proof. done. Qed.

Lemma not_directory d i n : inodes d !! i = Some n -> is_dir (n_kind n) = false -> ~ is_directory d i.
Proof. intros Hi Hk%is_dir_false (n'&Hi'&Hk'). congruence. Qed.
Lemma missing_directory d i : inodes d !! i = None -> ~ is_directory d i.
Proof. intros Hi (n'&Hi'&Hk'). congruence. Qed.

Section outcomes.
Context (now : Z) (d : DB) (ls : Leases) (Hok : ns_ok (ns_of d)).
#[local] Set Default Proof Using "All".
Abbreviation s0 := (mkTxn d d ls).
Definition exact (r : Request) : Prop :=
  outcome (perform now r s0) (enabled d r) (effect d r) (drop_opt (removed d r) (cores (inodes d))).

Lemma entry_directory p nm e : dentries d !! (p, nm) = Some e -> is_directory d p.
Proof. intros He. destruct (entry_facts d Hok _ _ _ He) as (np&_&?&?&_). by exists np. Qed.

Lemma link_exact ino p nm : exact (Link ino p nm).
Proof.
  unfold exact, perform, link; txn_rows. txn_step.
  destruct (Z.eqb_spec ino ROOT_INODE) as [->|Hroot]; cbn [negb].
  { apply outcome_err. intros (_&_&n&Hn&Hk&_). destruct (ok_root _ Hok) as (sh&Hsh&Hsk).
    apply ns_node in Hn. change ROOT_INODE with ROOT in Hn.
    assert (sh = shape n) as -> by congruence. by destruct (Hk Hsk). }
  destruct (inodes d !! p) as [np|] eqn:Hp; [|by apply outcome_err; intros [?%(missing_directory d p) _]].
  case_bool_decide as Hkp; [|apply outcome_err; intros [(?&?&?) _]; congruence]. txn_step.
  case_bool_decide as Hfree; [|by apply outcome_err; intros (_&?&_)]. txn_step.
  destruct (inodes d !! ino) as [n|] eqn:Hn; [|apply outcome_err; intros (_&_&n&?&_); congruence]. txn_step.
  destruct (is_dir (n_kind n)) eqn:Hk; cbn [negb].
  { apply is_dir_spec in Hk. apply outcome_err. intros (_&_&n'&?&?&_). congruence. }
  apply is_dir_false in Hk. txn_step. case_bool_decide as Hsym; cbn [negb].
  { apply outcome_err. intros (_&_&n'&?&?&?&_). congruence. }
  txn_step. rewrite (live_iff d Hok _ _ Hn Hk). destruct (Z.eqb_spec (n_nlink n) 0) as [Hz|Hz]; cbn [negb].
  { apply outcome_err. intros (_&_&n'&?&?&?&?). congruence. }
  assert (exists l, (if n_nlink n =? 1 then txn_ret [(n_parent n, n_name n)]
    else txn_read (fun d => default [] (link_parents d !! ino))) s0 = (Ok l, s0)) as [l Hl] by (case_match; eauto).
  rewrite (bind_Ok _ _ _ _ _ Hl). txn_step. unfold txn_ret. cbn [outcome view]. split_and!.
  - split; [by exists np|]. split; [done|]. by exists n.
  - cbn. by rewrite Hn.
  - cbn [removed drop_opt from_option inodes with_inodes with_dentries with_link_parents view].
    set (n' := touch now (set_binding _ _ _)).
    change (n_ino (touch now np)) with (n_ino np). change (n_ino n') with (n_ino n).
    rewrite (node_ino d _ _ Hok Hp), (node_ino d _ _ Hok Hn).
    rewrite cores_insert'; [by apply (cores_insert _ _ n)|].
    rewrite (cores_insert (inodes d) ino n) by done. exact (cores_lookup _ _ _ Hp).
Qed.

Lemma unlink_exact p nm : exact (Unlink p nm).
Proof.
  unfold exact, perform, unlink; txn_rows. txn_step.
  destruct (inodes d !! p) as [np|] eqn:Hp.
  2: { apply outcome_err. intros (e&He&_). apply (missing_directory d p Hp). by eapply entry_directory. }
  case_bool_decide as Hkp.
  2: { apply outcome_err. intros (e&He&_). apply entry_directory in He as (?&?&?). congruence. }
  txn_step. destruct (dentries d !! (p, nm)) as [e|] eqn:He; [|by apply outcome_err; intros (?&?&_); congruence].
  destruct (decide (d_kind e = Dir)) as [Hk|Hk].
  { unfold txn_remove_non_dir_dentry. txn_step. rewrite (proj2 (is_dir_spec _) Hk).
    apply outcome_err. intros (?&?&?). congruence. }
  destruct (remove_total d Hok now p nm e He Hk d ls) as (t&Ht&Hd&Hc&_).
  rewrite (bind_Ok _ _ _ _ _ Ht). cbn [outcome view txn_write]. split_and!.
  - by exists e.
  - exact Hd.
  - cbn. rewrite (node_ino d _ _ Hok Hp), cores_insert'; [done|]. rewrite Hc. exact (cores_lookup _ _ _ Hp).
Qed.

Lemma rmdir_exact p nm : exact (Rmdir p nm).
Proof.
  unfold exact, perform, rmdir; txn_rows. txn_step.
  destruct (inodes d !! p) as [np|] eqn:Hp.
  2: { apply outcome_err. intros (e&He&_). apply (missing_directory d p Hp). by eapply entry_directory. }
  case_bool_decide as Hkp.
  2: { apply outcome_err. intros (e&He&_). apply entry_directory in He as (?&?&?). congruence. }
  txn_step. destruct (dentries d !! (p, nm)) as [e|] eqn:He; [|by apply outcome_err; intros (?&?&_); congruence].
  txn_step. destruct (entry_facts d Hok _ _ _ He) as (np'&n&Hp'&_&Hinop&Hn&Hkn&_&Hne&_). simplify_eq.
  destruct (is_dir (d_kind e)) eqn:Hk; [|apply is_dir_false in Hk; apply outcome_err; naive_solver].
  apply is_dir_spec in Hk. txn_step. rewrite Hn. txn_step. rewrite Hkn, (proj2 (is_dir_spec _) Hk). txn_step.
  destruct (dir_is_empty d (d_ino e)) eqn:Hempty.
  - pose proof (proj1 (dir_is_empty_spec _ _) Hempty). cbn [outcome view txn_write]. unfold txn_write. split_and!; [by exists e|done|].
    cbn. rewrite He. cbn. unfold cores. rewrite fmap_delete. f_equal.
    by apply (cores_insert _ _ np).
  - apply outcome_err. intros (e'&He'&_&Hno). simplify_eq. apply (dir_is_empty_spec d) in Hno. congruence.
Qed.

Lemma replace_outcome p2 n2 src e dest destn : dentries d !! (p2, n2) = Some dest ->
  inodes d !! d_ino dest = Some destn -> n_kind destn = d_kind dest -> n_kind src = d_kind e ->
  (may_replace d e dest /\ exists delta rdir t,
     replace_destination now p2 n2 src dest destn s0 = (Ok (delta, rdir), t) /\
     committed t = d /\ leases t = ls /\
     dentries (view t) = delete (p2, n2) (dentries d) /\
     cores (inodes (view t)) =
       drop_opt (if bool_decide (d_kind dest = Dir) then Some (d_ino dest) else None) (cores (inodes d)) /\
     (forall i, i <> d_ino dest -> link_parents (view t) !! i = link_parents d !! i)) \/
  (~ may_replace d e dest /\ exists err t, replace_destination now p2 n2 src dest destn s0 = (Err err, t)).
Proof.
  intros Hdest Hi Hkd Hks. unfold may_replace.
  assert (d_kind e <> Dir -> d_kind dest <> Dir -> exists delta rdir t,
     (txn_remove_non_dir_dentry now p2 n2 dest ;; txn_ret (0, false)) s0 = (Ok (delta, rdir), t) /\
     committed t = d /\ leases t = ls /\
     dentries (view t) = delete (p2, n2) (dentries d) /\
     cores (inodes (view t)) =
       drop_opt (if bool_decide (d_kind dest = Dir) then Some (d_ino dest) else None) (cores (inodes d)) /\
     (forall i, i <> d_ino dest -> link_parents (view t) !! i = link_parents d !! i)) as Hfile.
  { intros _ Hk. destruct (remove_total d Hok now p2 n2 dest Hdest Hk d ls) as (t&Ht&Hd&Hc&Hl).
    assert (local_txn (txn_remove_non_dir_dentry now p2 n2 dest)) as Hloc
      by (unfold txn_remove_non_dir_dentry; solve_local).
    destruct (Hloc s0) as [Hcm Hls]. rewrite Ht in Hcm, Hls. cbn in Hcm, Hls.
    rewrite (bind_Ok _ _ _ _ _ Ht). exists 0, false, t. by rewrite bool_decide_eq_false_2. }
  unfold replace_destination. rewrite Hks, Hkd.
  destruct (d_kind e) eqn:Hke, (d_kind dest) eqn:Hkdest;
    try (left; split; [right; split; congruence|]; by apply Hfile);
    try (right; split; [naive_solver|by eexists _, _]).
  txn_rows. txn_step. destruct (dir_is_empty d (d_ino dest)) eqn:Hempty; txn_step.
  - left. split; [left; split_and!; [done|done|exact (proj1 (dir_is_empty_spec _ _) Hempty)]|].
    eexists _, _, _. split_and!; [reflexivity|done|done|done| |].
    + cbn. unfold cores. by rewrite fmap_delete.
    + intros i Hne. cbn. by rewrite lookup_delete_ne.
  - right. split; [|by eexists _, _]. intros [(_&_&Hno)|[? _]]; [|done].
    apply (dir_is_empty_spec d) in Hno. congruence.
Qed.

(** The part of a rename that follows its checks. *)
Lemma rename_free p1 n1 p2 n2 e src pn1 pn2 noreplace : (p1, n1) <> (p2, n2) ->
  dentries d !! (p1, n1) = Some e -> dentries d !! (p2, n2) = None ->
  inodes d !! d_ino e = Some src -> inodes d !! p1 = Some pn1 -> inodes d !! p2 = Some pn2 ->
  n_kind pn2 = Dir -> may_move d e p2 ->
  outcome ((let! _ := finish_rename now p1 n1 p2 n2 e src pn1 pn2 None 0 false in txn_ret tt) s0)
    (enabled d (Rename p1 n1 p2 n2 noreplace)) (effect d (Rename p1 n1 p2 n2 noreplace))
    (drop_opt (removed d (Rename p1 n1 p2 n2 noreplace)) (cores (inodes d))).
Proof.
  intros Hne He Hfree Hs H1 H2 Hk2 Hmv.
  pose proof (node_ino d _ _ Hok Hs) as Hsi. pose proof (node_ino d _ _ Hok H1) as Hi1.
  pose proof (node_ino d _ _ Hok H2) as Hi2.
  destruct (finish_total now p1 n1 p2 n2 e src pn1 pn2 None 0 false d d ls) as (r&t&Ht&Hd&Hc);
    rewrite ?Hsi, ?Hi1, ?Hi2; try (by apply cores_lookup); [by eapply (bound_in_list d Hok)|].
  rewrite (bind_Ok _ _ _ _ _ Ht). unfold outcome, txn_ret. cbn [enabled effect removed].
  rewrite He, Hfree, Hd, Hc. split_and!; [|done|done].
  exists e. split; [done|]. right. split_and!; [by exists pn2|done|done].
Qed.

Lemma rename_replacing p1 n1 p2 n2 e dest src destn pn1 pn2 : (p1, n1) <> (p2, n2) ->
  dentries d !! (p1, n1) = Some e -> dentries d !! (p2, n2) = Some dest -> d_ino dest <> d_ino e ->
  inodes d !! d_ino e = Some src -> inodes d !! d_ino dest = Some destn -> n_kind destn = d_kind dest ->
  n_kind src = d_kind e ->
  inodes d !! p1 = Some pn1 -> inodes d !! p2 = Some pn2 -> n_kind pn1 = Dir -> n_kind pn2 = Dir -> may_move d e p2 ->
  outcome ((let! _ := (let! (new_delta, rdir) := replace_destination now p2 n2 src dest destn in
            finish_rename now p1 n1 p2 n2 e src pn1 pn2 (Some (d_ino dest)) new_delta rdir) in txn_ret tt) s0)
    (enabled d (Rename p1 n1 p2 n2 false)) (effect d (Rename p1 n1 p2 n2 false))
    (drop_opt (removed d (Rename p1 n1 p2 n2 false)) (cores (inodes d))).
Proof.
  intros Hne He Hdest Hino Hs Hdn Hkd Hks H1 H2 Hk1 Hk2 Hmv.
  pose proof (node_ino d _ _ Hok Hs) as Hsi. pose proof (node_ino d _ _ Hok H1) as Hi1.
  pose proof (node_ino d _ _ Hok H2) as Hi2. rewrite bind_bind.
  destruct (replace_outcome p2 n2 src e dest destn Hdest Hdn Hkd Hks)
    as [(Hmr&delta&rdir&t&Ht&Hcm&Hls&Hd&Hc&Hl)|(Hmr&err&t&Ht)].
  2: { unfold txn_bind. rewrite Ht. apply outcome_err. cbn. rewrite Hdest. naive_solver. }
  rewrite (bind_Ok _ _ _ _ _ Ht). destruct t as [c D ls']. cbn in Hcm, Hls, Hd, Hc, Hl. subst c ls'.
  assert (forall i n, i <> d_ino dest -> inodes d !! i = Some n -> cores (inodes D) !! i = Some (core n)) as Hcore.
  { intros i n Hi Hn. rewrite Hc. case_bool_decide; cbn; rewrite ?lookup_delete_ne by done; by apply cores_lookup. }
  assert (d_ino dest <> p2) as Hd2 by (by destruct (entry_facts d Hok _ _ _ Hdest) as (?&?&_&_&_&_&_&_&?&_)).
  assert (d_ino dest <> p1) as Hd1.
  { intros <-. assert (d_kind dest = Dir) as Hkd' by congruence.
    destruct Hmr as [(_&_&Hno)|[_ ?]]; [|done]. by rewrite Hno in He. }
  destruct (finish_total now p1 n1 p2 n2 e src pn1 pn2 (Some (d_ino dest)) delta rdir d D ls) as (r&t&Ht'&Hd'&Hc').
  { rewrite Hsi. by apply Hcore. }
  { rewrite Hi1. by apply Hcore. }
  { rewrite Hi2. by apply Hcore. }
  { rewrite Hsi, Hl by done. by eapply (bound_in_list d Hok). }
  rewrite (bind_Ok _ _ _ _ _ Ht'). unfold outcome, txn_ret. cbn [enabled effect removed].
  rewrite He, Hdest, Hd', Hc', Hd, Hc. cbn [fmap option_fmap option_map mbind option_bind].
  rewrite bool_decide_eq_false_2 by congruence. split_and!.
  - exists e. split; [done|]. right. split_and!; [by exists pn2|done|done|by right].
  - by rewrite delete_delete, insert_delete_eq.
  - f_equal. by repeat case_bool_decide; naive_solver.
Qed.

Lemma directory_dec i : is_directory d i \/ ~ is_directory d i.
Proof.
  destruct (inodes d !! i) as [n|] eqn:Hi; [|right; by apply missing_directory].
  destruct (is_dir (n_kind n)) eqn:Hk; [left|right; by eapply not_directory].
  exists n. by apply is_dir_spec in Hk.
Qed.

Lemma require_outcome i : (exists n, inodes d !! i = Some n /\ n_kind n = Dir /\ txn_require_dir i s0 = (Ok n, s0)) \/
  (~ is_directory d i /\ exists err, txn_require_dir i s0 = (Err err, s0)).
Proof.
  destruct (directory_dec i) as [(n&Hi&Hk)|Hno]; [left; exists n|right; split; [done|]];
    unfold txn_require_dir; txn_rows; txn_step.
  - rewrite Hi. txn_step. by rewrite bool_decide_eq_true_2.
  - destruct (inodes d !! i) as [n|] eqn:Hi; [|eauto]. txn_step.
    rewrite bool_decide_eq_false_2; [eauto|]. intros Hk. apply Hno. by exists n.
Qed.

(** The second parent of a rename or exchange, checked unless it is the first. *)
Lemma second_parent p1 p2 pn1 (k : txn StoredNode) : inodes d !! p1 = Some pn1 -> n_kind pn1 = Dir ->
  k s0 = txn_require_dir p2 s0 ->
  (exists pn2, inodes d !! p2 = Some pn2 /\ n_kind pn2 = Dir /\ (if p1 =? p2 then txn_ret pn1 else k) s0 = (Ok pn2, s0)) \/
  (~ is_directory d p2 /\ exists err, (if p1 =? p2 then txn_ret pn1 else k) s0 = (Err err, s0)).
Proof.
  intros H1 Hk Hkk. destruct (Z.eqb_spec p1 p2) as [->|_]; [left; by exists pn1|]. rewrite Hkk. apply require_outcome.
Qed.

(** The ancestry check made for directories. *)
Lemma move_check p e n : n_kind n = d_kind e ->
  let m := if is_dir (n_kind n) then validate_directory_move_in_txn p (d_ino e) else txn_ret tt in
  (may_move d e p /\ m s0 = (Ok tt, s0)) \/ (~ may_move d e p /\ exists err, m s0 = (Err err, s0)).
Proof.
  intros Hk. unfold may_move. cbn zeta. destruct (is_dir (n_kind n)) eqn:Hd; rewrite Hk in Hd.
  - apply is_dir_spec in Hd. unfold validate_directory_move_in_txn. txn_step.
    pose proof (validate_directory_move_spec d p (d_ino e)) as Hspec.
    destruct (validate_directory_move d p (d_ino e)) as [[]|err].
    + left. split; [|done]. intros _. by apply Hspec.
    + right. split; [|by exists err]. intros Hmv. by apply Hspec in Hmv.
  - apply is_dir_false in Hd. by left.
Qed.

Lemma rename_exact p1 n1 p2 n2 noreplace : exact (Rename p1 n1 p2 n2 noreplace).
Proof.
  unfold exact. cbn [perform]. unfold rename_with_mode, lookup; txn_rows.
  destruct ((p1 =? p2) && bool_decide (n1 = n2)) eqn:Hsame.
  { apply andb_true_iff in Hsame as [->%Z.eqb_eq ->%bool_decide_eq_true]. txn_step.
    destruct (dentries d !! (p2, n2)) as [e|] eqn:He; [|apply outcome_err; cbn; naive_solver].
    unfold outcome, txn_ret. cbn [enabled effect removed fmap option_fmap option_map]. txn_step. rewrite He.
    cbn [fmap option_fmap option_map mbind option_bind].
    rewrite bool_decide_eq_true_2, bool_decide_eq_false_2 by naive_solver. split_and!; [eauto|done..]. }
  apply same_binding_false in Hsame. txn_step.
  destruct (dentries d !! (p1, n1)) as [e|] eqn:He.
  2: { assert (~ enabled d (Rename p1 n1 p2 n2 noreplace)) as Hno by (cbn; naive_solver).
       repeat (case_match; txn_step; try by apply outcome_err). }
  destruct (entry_facts d Hok _ _ _ He) as (pn1&src&Hp1&Hk1&_&Hs&Hks&_&_&Hlive).
  rewrite Hp1. txn_step. rewrite (proj2 (is_dir_spec _) Hk1). txn_step.
  edestruct (second_parent p1 p2 pn1 (let! node := ok_or (ParentNotFound p2) (inodes d !! p2) in
    ensure (is_dir (n_kind node)) (NotDirectory p2) ;; txn_ret node) Hp1 Hk1) as [(pn2&Hp2&Hk2&E)|(Hno&err&E)].
  { unfold txn_require_dir; txn_rows. txn_step. by destruct (inodes d !! p2). }
  2: { rewrite (bind_Err _ _ _ _ _ E). apply outcome_err. intros (?&?&[?|(?&_)]); done. }
  rewrite (bind_Ok _ _ _ _ _ E). clear E. txn_step.
  destruct (dentries d !! (p2, n2)) as [dest|] eqn:Hdest.
  - destruct noreplace; cbn [andb].
    { rewrite bool_decide_eq_true_2 by done. apply outcome_err. cbn. rewrite Hdest. naive_solver. }
    cbn [negb]. txn_step. rewrite Hs. txn_step. rewrite Hlive. cbn [negb]. txn_step.
    destruct (move_check p2 e src Hks) as [[Hmv E]|[Hmv [err E]]].
    2: { rewrite (bind_Err _ _ _ _ _ E). apply outcome_err. cbn [enabled]. rewrite He, Hdest.
         by intros (?&[= <-]&[?|(_&?&_)]). }
    rewrite (bind_Ok _ _ _ _ _ E). clear E.
    destruct (Z.eqb_spec (d_ino dest) (d_ino e)) as [Heq|Hneq].
    { txn_step. unfold outcome, txn_ret. cbn [enabled effect removed view]. rewrite He, Hdest.
      cbn [fmap option_fmap option_map mbind option_bind].
      rewrite bool_decide_eq_true_2, bool_decide_eq_false_2 by (congruence || by intros []). split_and!; [|done..].
      exists e. split; [done|]. right. split_and!; [by exists pn2|done|done|by left]. }
    destruct (entry_facts d Hok _ _ _ Hdest) as (?&destn&_&_&_&Hdn&Hkd&_).
    cbn [mbind option_bind]. rewrite Hdn. destruct (Z.eqb_spec (d_ino dest) (d_ino e)); [done|].
    rewrite bind_bind, bind_ok_or. by apply rename_replacing.
  - rewrite bool_decide_eq_false_2 by (by intros []). rewrite andb_false_r. cbn [negb]. txn_step.
    rewrite Hs. txn_step. rewrite Hlive. cbn [negb]. txn_step.
    destruct (move_check p2 e src Hks) as [[Hmv E]|[Hmv [err E]]].
    2: { rewrite (bind_Err _ _ _ _ _ E). apply outcome_err. cbn [enabled]. rewrite He, Hdest.
         by intros (?&[= <-]&[?|(_&?&_)]). }
    rewrite (bind_Ok _ _ _ _ _ E). clear E.
    by apply rename_free.
Qed.

(** The part of an exchange that follows its checks. *)
Lemma exchange_tail p1 n1 p2 n2 e1 e2 nd1 nd2 pn1 pn2 d1 d2 : (p1, n1) <> (p2, n2) ->
  dentries d !! (p1, n1) = Some e1 -> dentries d !! (p2, n2) = Some e2 -> d_ino e1 <> d_ino e2 ->
  inodes d !! d_ino e1 = Some nd1 -> inodes d !! d_ino e2 = Some nd2 ->
  inodes d !! p1 = Some pn1 -> inodes d !! p2 = Some pn2 -> may_move d e1 p2 -> may_move d e2 p1 ->
  outcome ((let! m1 := txn_move_node_binding nd1 p1 n1 p2 n2 in
     let! m2 := txn_move_node_binding nd2 p2 n2 p1 n1 in
     txn_put_dentry p1 n1 e2 ;; txn_put_dentry p2 n2 e1 ;;
     txn_put_node (touch now m1) ;; txn_put_node (touch now m2) ;;
     put_parents now p1 p2 pn1 pn2 d1 d2) s0)
    (enabled d (Exchange p1 n1 p2 n2)) (effect d (Exchange p1 n1 p2 n2)) (cores (inodes d)).
Proof.
  intros Hne He1 He2 Hino Hn1 Hn2 Hp1 Hp2 Hm1 Hm2. txn_rows.
  pose proof (node_ino d _ _ Hok Hn1) as Hi1. pose proof (node_ino d _ _ Hok Hn2) as Hi2.
  pose proof (node_ino d _ _ Hok Hp1) as Hip1. pose proof (node_ino d _ _ Hok Hp2) as Hip2.
  destruct (move_total nd1 p1 n1 p2 n2 d ltac:(rewrite Hi1; by eapply (bound_in_list d Hok)) d ls)
    as (m1&f1&E1&Hc1&Hj1&Hf1).
  rewrite (bind_Ok _ _ _ _ _ E1).
  destruct (move_total nd2 p2 n2 p1 n1 (with_link_parents f1 d)
    ltac:(cbn; rewrite Hf1, Hi2 by congruence; by eapply (bound_in_list d Hok)) d ls) as (m2&f2&E2&Hc2&Hj2&_).
  rewrite (bind_Ok _ _ _ _ _ E2). txn_step. set (D := with_inodes _ _).
  assert (cores (inodes D) = cores (inodes d)) as HD.
  { unfold D. cbn [inodes with_inodes with_dentries with_link_parents].
    change (n_ino (touch now m1)) with (n_ino m1). change (n_ino (touch now m2)) with (n_ino m2).
    rewrite Hj1, Hj2, Hi1, Hi2. rewrite cores_insert'.
    - by apply (cores_insert _ _ nd1).
    - rewrite (cores_insert _ _ nd1) by done. rewrite (cores_lookup _ _ _ Hn2). by rewrite <-Hc2. }
  destruct (put_parents_total now p1 p2 pn1 pn2 d1 d2 d D ls) as (m&Hp&Hcm);
    [rewrite HD, ?Hip1, ?Hip2; by apply cores_lookup..|].
  rewrite Hp. unfold outcome. cbn [enabled effect view]. rewrite He1, He2. split_and!.
  - right. exists e1, e2. split_and!; [done|done|by right].
  - cbn. by destruct (Z.eqb_spec (d_ino e1) (d_ino e2)).
  - change (cores m = cores (inodes d)). congruence.
Qed.

Lemma exchange_exact p1 n1 p2 n2 : exact (Exchange p1 n1 p2 n2).
Proof.
  unfold exact. cbn [perform]. unfold rename_exchange.
  destruct ((p1 =? p2) && bool_decide (n1 = n2)) eqn:Hsame.
  { apply andb_true_iff in Hsame as [->%Z.eqb_eq ->%bool_decide_eq_true].
    unfold outcome, txn_ret. cbn [enabled effect removed view]. split_and!; [by left| |done].
    destruct (dentries d !! (p2, n2)); [by rewrite Z.eqb_refl|done]. }
  apply same_binding_false in Hsame.
  destruct (require_outcome p1) as [(pn1&Hp1&Hk1&E)|(Hno&err&E)].
  2: { rewrite (bind_Err _ _ _ _ _ E). apply outcome_err. intros [?|(e1&?&He1&_)]; [done|].
       by apply entry_directory in He1. }
  rewrite (bind_Ok _ _ _ _ _ E). clear E.
  destruct (second_parent p1 p2 pn1 (txn_require_dir p2) Hp1 Hk1 eq_refl) as [(pn2&Hp2&Hk2&E)|(Hno&err&E)].
  2: { rewrite (bind_Err _ _ _ _ _ E). apply outcome_err. intros [?|(?&e2&_&He2&_)]; [done|].
       by apply entry_directory in He2. }
  rewrite (bind_Ok _ _ _ _ _ E). clear E. unfold txn_get_dentry, txn_get_node. txn_step.
  destruct (dentries d !! (p1, n1)) as [e1|] eqn:He1; [|apply outcome_err; cbn; naive_solver]. txn_step.
  destruct (dentries d !! (p2, n2)) as [e2|] eqn:He2; [|apply outcome_err; cbn; naive_solver]. txn_step.
  destruct (d_ino e1 =? d_ino e2) eqn:Heq.
  { unfold outcome, txn_ret. cbn [enabled effect removed view]. rewrite He1, He2, Heq. apply Z.eqb_eq in Heq.
    split_and!; [|done|done]. right. exists e1, e2. split_and!; [done|done|by left]. }
  apply Z.eqb_neq in Heq. txn_step.
  destruct (entry_facts d Hok _ _ _ He1) as (?&nd1&_&_&_&Hn1&Hkn1&_&_&Hl1).
  destruct (entry_facts d Hok _ _ _ He2) as (?&nd2&_&_&_&Hn2&Hkn2&_&_&Hl2).
  rewrite Hn1. txn_step. rewrite Hn2. txn_step. rewrite Hl1. txn_step. rewrite Hl2. cbn [negb]. txn_step.
  destruct (move_check p2 e1 nd1 Hkn1) as [[Hm1 E]|[Hm1 [err E]]].
  2: { rewrite (bind_Err _ _ _ _ _ E). apply outcome_err. cbn. naive_solver. }
  rewrite (bind_Ok _ _ _ _ _ E). clear E.
  destruct (move_check p1 e2 nd2 Hkn2) as [[Hm2 E]|[Hm2 [err E]]].
  2: { rewrite (bind_Err _ _ _ _ _ E). apply outcome_err. cbn. naive_solver. }
  rewrite (bind_Ok _ _ _ _ _ E). by apply exchange_tail.
Qed.
End outcomes.



(** ** Creation *)

Definition created_core (kind : StoredNodeKind) (target : option string) (attrs : option (Z * Z * Z * Z)) : Core :=
  let '(size, blocks, mode, _) := initial_attrs kind target in
  let '(mode, uid, gid, rdev) := default (mode, 0, 0, 0) attrs in
  mkCore kind size blocks mode rdev uid gid target.

(** C9: creating a file, directory, symlink or special node succeeds exactly when
    the parent is a directory without such an entry and an inode number is
    available; the new node gets a number no node has, its row holds the type's
    initial attributes or the requested ones, its entry is the only change of the
    directory tree, and no other node's contents change. A failed creation leaves
    the volume as it was. *)
Theorem create_exact client now p nm kind target attrs s : sys_ok s ->
  let d := sys_db s in
  match txn_create_node_with_attrs client now p nm kind target attrs (begin s) with
  | (Ok ino, t) => is_directory d p /\ dentries d !! (p, nm) = None /\ inodes d !! ino = None /\
      dentries (view t) = <[(p, nm) := mkDentry ino kind]> (dentries d) /\
      cores (inodes (view t)) = <[ino := created_core kind target attrs]> (cores (inodes d))
  | (Err e, t) => rollback t = s /\
      (~ is_directory d p \/ is_Some (dentries d !! (p, nm)) \/
       is_Ok (next_leased_inode_id client (begin s)).1 = false)
  end.
Proof.
  intros Hs d. pose proof Hs as [Hns [Hls Hused]].
  unfold txn_create_node_with_attrs; txn_rows. txn_step. cbn [begin view]. fold d.
  assert (rollback (begin s) = s) as Hrb by (by destruct s).
  destruct (inodes d !! p) as [pn|] eqn:Hp; [|split; [done|]; left; by apply missing_directory].
  txn_step. destruct (is_dir (n_kind pn)) eqn:Hdir; [|split; [done|]; left; by eapply not_directory].
  apply is_dir_spec in Hdir. txn_step. case_bool_decide as Hfree.
  2: { split; [done|]. right. left. by destruct (dentries d !! (p, nm)); [eexists|]. }
  pose proof (next_leased_spec client INODE_ID_KEY FIRST_ALLOCATED_INODE INODE_ID_LEASE_SIZE
                (begin s) eq_refl eq_refl Hls) as Hn.
  unfold txn_bind at 1. unfold next_leased_inode_id in *.
  destruct (next_leased_counter_id _ _ _ _ (begin s)) as [[ino|e] t]; [|subst t; auto].
  destruct Hn as (cnt'&_&Hv&Htaken). cbn [view begin] in Hv. fold d in Hv.
  assert (inodes d !! ino = None) as Hino.
  { apply eq_None_not_Some. intros Hi. apply (Hused _ Hi). by destruct Htaken. }
  unfold created_core. destruct (initial_attrs kind target) as [[[size blocks] mode] nlink].
  destruct (default (mode, 0, 0, 0) attrs) as [[[mode' uid] gid] rdev]. txn_step. unfold txn_ret. cbn [view].
  split_and!; [by exists pn|done|done|by rewrite Hv|].
  rewrite Hv. cbn [inodes with_inodes with_dentries with_counters]. unfold cores. rewrite fmap_insert.
  cbn [core n_kind n_size n_blocks n_mode n_rdev n_uid n_gid n_symlink_target n_ino]. f_equal.
  apply (cores_insert _ _ pn); [|by destruct (is_dir kind)].
  replace (n_ino _) with p; [done|]. destruct (is_dir kind); cbn; symmetry; by eapply node_ino.
Qed.

Lemma create_exact_witness :
  let d := sys_db w_volume in
  match txn_create_node_with_attrs 1 9 2 "new" Fifo None (Some (4516, 7, 8, 0)) (begin w_volume) with
  | (Ok ino, t) => inodes d !! ino = None /\
      cores (inodes (view t)) = <[ino := mkCore Fifo 0 0 4516 0 7 8 None]> (cores (inodes d))
  | (Err e, t) => False
  end.
Proof.
  intros d. pose proof (create_exact 1 9 2 "new" Fifo None (Some (4516, 7, 8, 0)) w_volume
    (volume_ok _ w_volume_reached)) as H.
  destruct (txn_create_node_with_attrs 1 9 2 "new" Fifo None (Some (4516, 7, 8, 0)) (begin w_volume))
    as [[ino|e] t] eqn:E; [|by vm_compute in E].
  destruct H as (_&_&H1&_&H2). split; [exact H1|exact H2].
Defined.
