(* ===== verification/Compactor.v ===== *)
(** Chunk compaction, [src/chunk/compact/compactor.rs], and the deletion of
    collected slices, [src/chunk/compact/gc.rs], on a metadata store and a block
    store: light compaction drops covered slices, heavy compaction rewrites the
    chunk as one slice and publishes it only over the list it was read from. *)
From stdpp Require Import options.
From Stdlib Require Import QArith.
From S2P Require Import Prelude Span Slices BlockStore Reader MetaTypes MetaTxn TxnRun MetaChunks ChunkTxns.
Import Layout Spans Slice.
Close Scope Q_scope.

Inductive CompactResult := Skipped | Light (removed : nat) | Heavy (new_slice_id : Z).

Inductive CompactorError :=
| MetaStoreError (e : MetaError)
| BlockStoreError (e : StoreError)
| InvalidData.

(** The fields that the decisions read. Ratios are rationals. *)
Record CompactConfig := mkCompactConfig {
  min_slice_count : Z; min_fragment_ratio : Q; sync_threshold : Z;
  light_enabled : bool; light_threshold : Z;
  heavy_enabled : bool; heavy_fragment_threshold : Q; heavy_slice_threshold : Z;
  heavy_force_fragment_threshold : Q }.

Record ChunkSnapshot := mkSnapshot { cs_slices : list SliceDesc; cs_total : Z; cs_fragmentation : Q }.

Definition count (snap : ChunkSnapshot) : Z := Z.of_nat (length (cs_slices snap)).

Definition snapshot_of (slices : list SliceDesc) : ChunkSnapshot :=
  mkSnapshot slices (total_size slices) (calculate_fragmentation slices).

Definition snapshot (r : Run) (chunk : Z) (s : Sys) : result CompactorError ChunkSnapshot * Sys :=
  match read_txn r (get_slices chunk) s with
  | (Ok slices, s) => (Ok (snapshot_of slices), s)
  | (Err e, s) => (Err (MetaStoreError e), s)
  end.

Definition analyze_chunk (r : Run) (chunk : Z) (s : Sys) : result CompactorError (Z * Z * Q) * Sys :=
  match snapshot r chunk s with
  | (Ok snap, s) => (Ok (count snap, cs_total snap, cs_fragmentation snap), s)
  | (Err e, s) => (Err e, s)
  end.

(** [(should compact, synchronously)] *)
Definition should_compact_snapshot (cfg : CompactConfig) (snap : ChunkSnapshot) : bool * bool :=
  if count snap <? min_slice_count cfg then (false, false) else
  if negb (Qle_bool (min_fragment_ratio cfg) (cs_fragmentation snap)) then (false, false) else
  (true, sync_threshold cfg <=? count snap).

Definition should_compact (r : Run) (cfg : CompactConfig) (chunk : Z) (s : Sys)
  : result CompactorError (bool * bool) * Sys :=
  match snapshot r chunk s with
  | (Ok snap, s) => (Ok (should_compact_snapshot cfg snap), s)
  | (Err e, s) => (Err e, s)
  end.

(** ** Light compaction *)

Definition light_plan (slices : list SliceDesc) : list Z :=
  find_replaced_ids slices (remove_fully_covered slices).

Definition compact_light_inner (r : Run) (now : Z) (slices : list SliceDesc) (chunk : Z) (s : Sys)
  : result CompactorError (option nat) * Sys :=
  if (length slices <=? 1)%nat then (Ok None, s) else
  let replaced_ids := light_plan slices in
  if bool_decide (replaced_ids = []) then (Ok None, s) else
  let delayed := encode_delayed_data slices replaced_ids in
  match write_txn r (replace_slices_for_compact now chunk [] delayed) s with
  | (Ok _, s) => (Ok (Some (length replaced_ids)), s)
  | (Err e, s) => (Err (MetaStoreError e), s)
  end.

(** ** Heavy compaction *)

(** The end of the last slice; [None] if a slice does not fit the chunk. *)
Fixpoint occupied_end (l : ChunkLayout) (slices : list SliceDesc) (prefix_end : Z) : option Z :=
  match slices with
  | [] => Some prefix_end
  | s :: rest =>
      end_ ← u64_checked_add (s_offset s) (s_length s);
      if end_ <=? chunk_size l then occupied_end l rest (Z.max prefix_end end_) else None
  end.

Section blocks.
Context {S : Type} `{!BlockStore S}.

Fixpoint read_spans (st : S) (slice : Z) (spans : list (Span BlockTag)) : result StoreError (list byte) :=
  match spans with
  | [] => Ok []
  | span :: rest =>
      let? out := read_range st (slice, as_u32 (index span)) (offset span) (len span) in
      let? more := read_spans st slice rest in
      Ok (out ++ more)
  end.

Definition read_slice_data_into (l : ChunkLayout) (st : S) (slice : SliceDesc) : result StoreError (list byte) :=
  read_spans st (slice_id slice) (block_span_iter_slice 0 (s_length slice) l).

(** In publication order, so that the last entry wins. *)
Fixpoint read_and_merge_slices (l : ChunkLayout) (st : S) (slices : list SliceDesc)
    (merged_data : list byte) : result CompactorError (list byte) :=
  match slices with
  | [] => Ok merged_data
  | slice :: rest =>
      if Z.of_nat (length merged_data) <? s_offset slice + s_length slice then Err InvalidData else
      let? data := map_err BlockStoreError (read_slice_data_into l st slice) in
      read_and_merge_slices l st rest (splice merged_data (Z.to_nat (s_offset slice)) data)
  end.

Fixpoint write_spans (st : S) (slice : Z) (spans : list (Span BlockTag)) (data : list byte)
  : result StoreError unit * S :=
  match spans with
  | [] => (Ok tt, st)
  | span :: rest =>
      let take_ := Z.to_nat (Z.min (len span) (Z.of_nat (length data))) in
      match write_fresh_range st (slice, as_u32 (index span)) (offset span) (take take_ data) with
      | (Ok _, st) => write_spans st slice rest (drop take_ data)
      | (Err e, st) => (Err e, st)
      end
  end.

Definition write_merged_data (l : ChunkLayout) (st : S) (slice : Z) (data : list byte)
  : result StoreError unit * S :=
  write_spans st slice (block_span_iter_chunk 0 (Z.of_nat (length data)) l) data.

(** Deletes the blocks; the reservation is left to the collector. *)
Definition cleanup_uncommitted_slice (l : ChunkLayout) (st : S) (slice size : Z)
  : result StoreError unit * S :=
  let num_blocks := div_ceil size (block_size l) in
  if 0 <? num_blocks then delete_range st (slice, 0) num_blocks else (Ok tt, st).

(** [next_id(SLICE_ID_KEY)], which runs in no transaction of its own. *)
Definition next_slice_id (client : Z) (s : Sys) : result MetaError Z * Sys :=
  let '(r, t) := next_leased_slice_id client (begin s) in (r, rollback t).

(** The slice a heavy compaction publishes. *)
Definition merged_slice (id chunk size : Z) : SliceDesc := mkSlice id chunk 0 size.

Definition compact_heavy_inner (runs : nat -> Run) (client now now' : Z) (l : ChunkLayout)
    (slices : list SliceDesc) (chunk : Z) (s : Sys) (st : S) : result CompactorError Z * Sys * S :=
  match occupied_end l slices 0 with
  | None => (Err InvalidData, s, st)
  | Some size =>
  match read_and_merge_slices l st slices (replicate (Z.to_nat size) Byte.x00) with
  | Err e => (Err e, s, st)
  | Ok merged_data =>
  match next_slice_id client s with
  | (Err e, s) => (Err (MetaStoreError e), s, st)
  | (Ok new_id, s) =>
  match write_txn (runs 0%nat) (record_uncommitted_slice now new_id chunk size "compact_heavy") s with
  | (Err e, s) => (Err (MetaStoreError e), s, st)
  | (Ok _, s) =>
  match write_merged_data l st new_id merged_data with
  | (Err e, st) => (Err (BlockStoreError e), s, st)
  | (Ok _, st) =>
  let delayed := encode_delayed_data slices (slice_id <$> slices) in
  match write_txn (runs 1%nat) (replace_slices_for_compact_with_version now' chunk
          [merged_slice new_id chunk size] delayed slices) s with
  | (Ok _, s) =>
      (* a failure of the confirmation is only logged *)
      let '(_, s) := write_txn (runs 2%nat) (confirm_slice_committed new_id) s in (Ok new_id, s, st)
  | (Err (ContinueRetry reason), s) =>
      let '(_, st) := cleanup_uncommitted_slice l st new_id size in
      (Err (MetaStoreError (ContinueRetry reason)), s, st)
  | (Err e, s) => (Err (MetaStoreError e), s, st)
  end end end end end end.

(** ** Light, then heavy *)

Definition needs_heavy (cfg : CompactConfig) (snap : ChunkSnapshot) : bool :=
  heavy_enabled cfg && (Qle_bool (heavy_fragment_threshold cfg) (cs_fragmentation snap)
                        || (heavy_slice_threshold cfg <=? count snap)).

(** The decision after a light compaction that removed something. *)
Definition needs_heavy_after_light (cfg : CompactConfig) (snap : ChunkSnapshot) : bool :=
  let needed := needs_heavy cfg snap
    || Qle_bool (heavy_force_fragment_threshold cfg) (cs_fragmentation snap) in
  if count snap <=? 1 then false else needed.

Definition compact_snapshot (r1 r2 : Run) (runs : nat -> Run) (client now now' now'' : Z)
    (cfg : CompactConfig) (l : ChunkLayout) (chunk : Z) (snap : ChunkSnapshot) (s : Sys) (st : S)
  : result CompactorError CompactResult * Sys * S :=
  if count snap <=? 1 then (Ok Skipped, s, st) else
  let finish (needed : bool) (light_removed : nat) (snap : ChunkSnapshot) (s : Sys) :=
    if needed then
      match compact_heavy_inner runs client now' now'' l (cs_slices snap) chunk s st with
      | (Ok new_id, s, st) => (Ok (Heavy new_id), s, st)
      | (Err e, s, st) => (Err e, s, st)
      end
    else (Ok (if (0 <? light_removed)%nat then Light light_removed else Skipped), s, st) in
  if light_enabled cfg && (light_threshold cfg <=? count snap) then
    match compact_light_inner r1 now (cs_slices snap) chunk s with
    | (Err e, s) => (Err e, s, st)
    | (Ok (Some n), s) =>
        if (0 <? n)%nat then
          match snapshot r2 chunk s with
          | (Err e, s) => (Err e, s, st)
          | (Ok snap, s) => finish (needs_heavy_after_light cfg snap) n snap s
          end
        else finish (needs_heavy cfg snap) n snap s
    | (Ok None, s) => finish (needs_heavy cfg snap) 0%nat snap s
    end
  else finish (needs_heavy cfg snap) 0%nat snap s.

Definition compact_sequential (r0 r1 r2 : Run) (runs : nat -> Run) (client now now' now'' : Z)
    (cfg : CompactConfig) (l : ChunkLayout) (chunk : Z) (s : Sys) (st : S)
  : result CompactorError CompactResult * Sys * S :=
  match snapshot r0 chunk s with
  | (Err e, s) => (Err e, s, st)
  | (Ok snap, s) => compact_snapshot r1 r2 runs client now now' now'' cfg l chunk snap s st
  end.

(** ** Deleting collected slices *)

Inductive GCError := GCMeta (e : MetaError) | GCBlockStore (e : StoreError) | UnsupportedVolumeFormat.

Record BlockGcConfig := mkGcConfig {
  gc_min_age_secs : Z; gc_batch_size : Z; gc_block_size : Z; gc_orphan_cleanup_age_secs : Z;
  gc_volume_format : option string }.

(** For a slice that is not a member of a coalesced group. *)
Definition delete_slice_blocks (st : S) (slice size block_size : Z) : result StoreError unit * S :=
  if size =? 0 then (Ok tt, st) else
  let num_blocks := div_ceil size block_size in
  if num_blocks =? 0 then (Ok tt, st) else delete_range st (slice, 0) num_blocks.

(** Deletes slice after slice; a failure is logged and the slice left for later. *)
Fixpoint delete_all (st : S) (block_size : Z) (victims : list (Z * Z * Z)) : list Z * S :=
  match victims with
  | [] => ([], st)
  | (slice, size, tag) :: rest =>
      let '(r, st) := delete_slice_blocks st slice size block_size in
      let '(done_, st) := delete_all st block_size rest in
      (match r with Ok _ => tag :: done_ | Err _ => done_ end, st)
  end.

Definition run_gc_cycle (r1 r2 : Run) (runs1 runs2 : nat -> Run) (r3 r4 : Run) (now now' : Z)
    (cfg : BlockGcConfig) (s : Sys) (st : S) : result GCError unit * Sys * S :=
  if bool_decide (gc_volume_format cfg = Some "workspace-native-v2"%string)
  then (Err UnsupportedVolumeFormat, s, st) else
  match process_delayed_slices r1 runs1 now (gc_batch_size cfg) (gc_min_age_secs cfg) s with
  | (Err e, s) => (Err (GCMeta e), s, st)
  | (Ok pending_deletions, s) =>
      let victims := (fun '(slice, _, size, delayed_id) => (slice, size, delayed_id)) <$> pending_deletions in
      let '(confirmed, st) := delete_all st (gc_block_size cfg) victims in
      let s := if bool_decide (confirmed = []) then s
               else (write_txn r3 (confirm_delayed_deleted confirmed) s).2 in
      match cleanup_orphan_uncommitted_slices r2 runs2 now' (gc_orphan_cleanup_age_secs cfg)
              (gc_batch_size cfg) s with
      | (Err _, s) => (Ok tt, s, st)
      | (Ok orphans, s) =>
          if bool_decide (orphans = []) then (Ok tt, s, st) else
          let '(cleaned, st) := delete_all st (gc_block_size cfg)
                                  ((fun '(slice, size) => (slice, size, slice)) <$> orphans) in
          let s := if bool_decide (cleaned = []) then s
                   else (write_txn r4 (delete_uncommitted_slices cleaned) s).2 in
          (Ok tt, s, st)
      end
  end.
End blocks.

(** ** What heavy compaction reads and writes *)
Section merge.
Context {S : Type} `{!BlockStore S, !BlockStoreLaws S}.

(** Byte [y] of slice [id], by the slice-relative block layout. *)
Definition slice_byte (l : ChunkLayout) (st : S) (id y : Z) : option byte :=
  stored st (id, y / block_size l) (y mod block_size l).

Lemma chunk_byte_slice l (st : S) slices x :
  layout_ok l -> Forall (fun s => 0 <= s_offset s /\ s_offset s + s_length s <= chunk_size l) slices ->
  chunk_byte l st slices x =
  match visible slices x with Some s => slice_byte l st (slice_id s) (x - s_offset s) | None => Some Byte.x00 end.
Proof.
  intros [Hb Hc _ Hn] Hs. unfold chunk_byte, source, slice_byte.
  destruct (visible slices x) as [s|] eqn:Hv; cbn; [|done]. apply visible_Some in Hv as [Hin Hcov].
  rewrite Forall_forall in Hs. specialize (Hs s Hin). rewrite slice_covers_spec in Hcov.
  rewrite as_u32_small; [done|]. split; [apply Z.div_pos; lia|]. apply Z.div_lt_upper_bound; lia.
Qed.

Lemma read_spans_spec a (st : S) id spans p n : 0 < a -> 0 <= p -> p + n <= a * u32_modulus ->
  tiles a p n spans ->
  match read_spans st id spans with
  | Ok bs => Z.of_nat (length bs) = n /\ forall i, 0 <= i < n ->
      bs !! Z.to_nat i = stored st (id, (p + i) / a) ((p + i) mod a)
  | Err _ => exists i, 0 <= i < n /\ stored st (id, (p + i) / a) ((p + i) mod a) = None
  end.
Proof.
  intros Ha Hp Hb Ht. induction Ht as [p|p n s rest Hlen Hoff Hfit Hq Hlast Ht IH]; cbn.
  { split; [done|lia]. }
  pose proof (tiles_nonneg _ _ _ _ Ht) as Hge.
  assert (forall k, 0 <= k < len s -> (p + k) / a = index s /\ (p + k) mod a = offset s + k) as Hco
    by (intros; apply tile_coordinates; lia).
  destruct (Hco 0 ltac:(lia)) as [Hidx _]. rewrite Z.add_0_r in Hidx.
  rewrite as_u32_small by (rewrite <-Hidx; split; [apply Z.div_pos|apply Z.div_lt_upper_bound]; lia).
  pose proof (read_range_spec st (id, index s) (offset s) (len s) Hoff ltac:(lia)) as Hr.
  destruct (read_range st (id, index s) (offset s) (len s)) as [bs|e]; cbn.
  - destruct Hr as [Hl Hr]. specialize (IH ltac:(lia) ltac:(lia)).
    destruct (read_spans st id rest) as [more|e]; cbn.
    + destruct IH as [Hl' IH]. rewrite length_app. split; [lia|]. intros i Hi.
      destruct (Z.lt_ge_cases i (len s)).
      * destruct (Hco i ltac:(lia)) as [-> ->]. rewrite lookup_app_l by lia. rewrite Hr by lia.
        f_equal. lia.
      * rewrite lookup_app_r by lia. replace (Z.to_nat i - length bs)%nat with (Z.to_nat (i - len s)) by lia.
        rewrite IH by lia. by replace (p + len s + (i - len s)) with (p + i) by lia.
    + destruct IH as (i&Hi&Hn). exists (len s + i). split; [lia|]. by rewrite Z.add_assoc.
  - destruct Hr as (i&Hi&Hn). exists (Z.of_nat i). split; [lia|].
    by destruct (Hco (Z.of_nat i) ltac:(lia)) as [-> ->].
Qed.

(** A slice inside the chunk. *)
Definition fits (l : ChunkLayout) (s : SliceDesc) : Prop :=
  0 <= s_offset s /\ 0 <= s_length s /\ s_offset s + s_length s <= chunk_size l.

Lemma read_slice_spec l (st : S) s : layout_ok l -> fits l s ->
  match read_slice_data_into l st s with
  | Ok bs => Z.of_nat (length bs) = s_length s /\
      forall i, 0 <= i < s_length s -> bs !! Z.to_nat i = slice_byte l st (slice_id s) i
  | Err _ => exists i, 0 <= i < s_length s /\ slice_byte l st (slice_id s) i = None
  end.
Proof.
  intros Hl (?&?&?). pose proof Hl as [Hb Hc _ Hn]. unfold read_slice_data_into, slice_byte.
  apply (read_spans_spec (block_size l) st (slice_id s) _ 0); [lia..|].
  apply block_spans_tile; (done || lia).
Qed.

(** The merged buffer holds what a reader of the list sees, and what it held
    before where no slice covers. *)
Lemma read_and_merge_spec l (st : S) slices : layout_ok l -> Forall (fits l) slices ->
  forall buf, match read_and_merge_slices l st slices buf with
  | Ok out => length out = length buf /\ forall x, 0 <= x < Z.of_nat (length buf) ->
      out !! Z.to_nat x = match visible slices x with
        | Some s => slice_byte l st (slice_id s) (x - s_offset s) | None => buf !! Z.to_nat x end
  | Err InvalidData => exists s, s ∈ slices /\ Z.of_nat (length buf) < s_offset s + s_length s
  | Err _ => exists s i, s ∈ slices /\ 0 <= i < s_length s /\ slice_byte l st (slice_id s) i = None
  end.
Proof.
  intros Hl. induction 1 as [|s rest Hs Hrest IH]; intros buf; cbn [read_and_merge_slices]; [done|].
  destruct (Z.ltb_spec (Z.of_nat (length buf)) (s_offset s + s_length s)); [exists s; split; [set_solver|lia]|].
  pose proof (read_slice_spec l st s Hl Hs) as Hr. destruct Hs as (?&?&?).
  destruct (read_slice_data_into l st s) as [data|e]; cbn; [|destruct Hr as (i&?&?); exists s, i; set_solver].
  destruct Hr as [Hlen Hr]. specialize (IH (splice buf (Z.to_nat (s_offset s)) data)).
  rewrite length_splice in IH by lia.
  destruct (read_and_merge_slices l st rest _) as [out|[]];
    [|destruct IH as (t&i&?&?); exists t, i; set_solver..|destruct IH as (t&?&?); exists t; set_solver].
  destruct IH as [Hlo IH]. split; [done|]. intros x Hx. rewrite IH by done.
  destruct (visible rest x) as [t|]; [done|]. rewrite lookup_splice by lia. unfold slice_covers.
  case_decide as Hd.
  - replace (_ && _) with true by lia.
    replace (Z.to_nat x - Z.to_nat (s_offset s))%nat with (Z.to_nat (x - s_offset s)) by lia.
    apply Hr. lia.
  - replace (_ && _) with false by lia. done.
Qed.

Lemma occupied_end_spec l slices : forall pe e, Forall (fun s => 0 <= s_offset s /\ 0 <= s_length s) slices ->
  occupied_end l slices pe = Some e ->
  Forall (fits l) slices /\ Forall (fun s => s_offset s + s_length s <= e) slices /\
  pe <= e /\ e <= Z.max pe (chunk_size l).
Proof.
  induction slices as [|s rest IH]; intros pe e Hs; cbn [occupied_end].
  { intros [= ->]. split_and!; [constructor..|lia|lia]. }
  inversion_clear Hs as [|? ? Hs0 Hrest]. destruct (u64_checked_add _ _) as [en|] eqn:Ha; [|done].
  apply u64_checked_add_Some in Ha as [-> _]. cbn [mbind option_bind].
  destruct (Z.leb_spec (s_offset s + s_length s) (chunk_size l)); [|done].
  intros (?&?&?&?)%IH; [|done]. split_and!; [constructor..|lia|lia]; unfold fits; (done || lia).
Qed.

Lemma write_spans_spec a id spans p n : 0 < a -> tiles a p n spans ->
  forall (st : S) data, 0 <= p -> p + n <= a * u32_modulus -> Z.of_nat (length data) = n ->
  let '(r, st') := write_spans st id spans data in
  (forall k x, k.1 <> id \/ k.2 < p / a -> stored st' k x = stored st k x) /\
  (r = Ok tt -> forall i, 0 <= i < n ->
     stored st' (id, (p + i) / a) ((p + i) mod a) = data !! Z.to_nat i).
Proof.
  intros Ha Ht. induction Ht as [p|p n s rest Hlen Hoff Hfit Hq Hlast Ht IH]; intros st data Hp Hb Hd; cbn.
  { split; [done|lia]. }
  pose proof (tiles_nonneg _ _ _ _ Ht) as Hge.
  assert (forall k, 0 <= k < len s -> (p + k) / a = index s /\ (p + k) mod a = offset s + k) as Hco
    by (intros; apply tile_coordinates; lia).
  destruct (Hco 0 ltac:(lia)) as [Hidx _]. rewrite Z.add_0_r in Hidx.
  assert (0 <= index s < u32_modulus) as Hix
    by (rewrite <-Hidx; split; [apply Z.div_pos|apply Z.div_lt_upper_bound]; lia).
  rewrite as_u32_small, Z.min_l by (done || lia).
  destruct (write_fresh_range st (id, index s) (offset s) (take (Z.to_nat (len s)) data)) as [[w|e] st1] eqn:Hw;
    destruct (write_fresh_spec _ _ _ _ _ _ Hoff Hw) as [Hframe Hdata]; last first.
  { split; [|done]. intros k x Hk. apply Hframe. intros ->. cbn in Hk. lia. }
  destruct Hdata as [_ Hdata]. rewrite length_take in Hdata.
  specialize (IH st1 (drop (Z.to_nat (len s)) data) ltac:(lia) ltac:(lia) ltac:(rewrite length_drop; lia)).
  assert (rest = [] \/ index s < (p + len s) / a) as Hnext.
  { destruct (decide (n = len s)) as [->|E]; [left; rewrite Z.sub_diag in Ht; by eapply tiles_zero|].
    right. rewrite <-Hq, <-Z.add_assoc, Hlast by done.
    replace (index s * a + a) with ((index s + 1) * a) by lia. rewrite Z.div_mul; lia. }
  assert (index s < (p + len s) / a \/ write_spans st1 id rest (drop (Z.to_nat (len s)) data) = (Ok tt, st1)) as Hsame
    by (destruct Hnext as [->|]; [by right|by left]).
  destruct (write_spans st1 id rest (drop (Z.to_nat (len s)) data)) as [r st2].
  destruct IH as [IHf IHd].
  assert (p / a <= (p + len s) / a) by (apply Z.div_le_mono; lia). split.
  - intros k x Hk. rewrite IHf by lia. apply Hframe. intros ->. cbn in Hk. lia.
  - intros Hr i Hi. destruct (Z.lt_ge_cases i (len s)) as [Hlt|Hge'].
    + destruct (Hco i ltac:(lia)) as [-> ->].
      assert (stored st2 (id, index s) (offset s + i) = stored st1 (id, index s) (offset s + i)) as ->.
      { destruct Hsame as [?|[= _ ->]]; [|done]. apply IHf. by right. }
      specialize (Hdata (Z.to_nat i) ltac:(lia)). rewrite Z2Nat.id in Hdata by lia.
      rewrite Hdata. apply lookup_take_lt. lia.
    + specialize (IHd Hr (i - len s) ltac:(lia)). replace (p + len s + (i - len s)) with (p + i) in IHd by lia.
      rewrite IHd, lookup_drop. f_equal. lia.
Qed.

Lemma write_merged_spec l (st : S) id data r st' : layout_ok l -> Z.of_nat (length data) <= chunk_size l ->
  write_merged_data l st id data = (r, st') ->
  (forall k x, k.1 <> id -> stored st' k x = stored st k x) /\
  (r = Ok tt -> forall i, 0 <= i < Z.of_nat (length data) -> slice_byte l st' id i = data !! Z.to_nat i).
Proof.
  intros Hl Hb Hw. pose proof Hl as [Hbs Hcs _ Hn]. unfold write_merged_data in Hw.
  pose proof (write_spans_spec (block_size l) id (block_span_iter_chunk 0 (Z.of_nat (length data)) l) 0
                (Z.of_nat (length data)) ltac:(lia)) as Hspec.
  specialize (Hspec ltac:(apply block_spans_tile; (done || lia)) st data ltac:(lia) ltac:(lia) eq_refl).
  rewrite Hw in Hspec. destruct Hspec as [Hf Hd]. split; [auto|]. exact Hd.
Qed.
End merge.

(** ** Heavy compaction as a whole *)

Section heavy.
Context {S : Type} `{!BlockStore S, !BlockStoreLaws S}.

(** The merged slice shows what the list shows. *)
Lemma merged_content l (st st' : S) slices size data id chunk : layout_ok l ->
  Forall (fun s => 0 <= s_offset s /\ 0 <= s_length s) slices ->
  occupied_end l slices 0 = Some size ->
  read_and_merge_slices l st slices (replicate (Z.to_nat size) Byte.x00) = Ok data ->
  write_merged_data l st id data = (Ok tt, st') ->
  forall x, 0 <= x < chunk_size l -> chunk_byte l st' [merged_slice id chunk size] x = chunk_byte l st slices x.
Proof.
  intros Hl Hs Ho Hr Hw x Hx. destruct (occupied_end_spec l slices 0 size Hs Ho) as (Hfits&Hend&Hge&Hmax).
  pose proof Hl as [Hb Hc _ _].
  pose proof (read_and_merge_spec l st slices Hl Hfits (replicate (Z.to_nat size) Byte.x00)) as Hm.
  rewrite Hr, length_replicate in Hm. destruct Hm as [Hlen Hm].
  destruct (write_merged_spec l st id data (Ok tt) st' Hl ltac:(lia) Hw) as [_ Hd]. specialize (Hd eq_refl).
  rewrite !chunk_byte_slice; try done.
  2: { eapply Forall_impl; [exact Hfits|]. by intros s (?&?&?). }
  2: { constructor; [cbn; lia|constructor]. }
  cbn [visible]. unfold slice_covers. cbn [s_offset s_length merged_slice].
  destruct (Z.lt_ge_cases x size) as [Hlt|Hge'].
  - replace ((0 <=? x) && (x <? 0 + size)) with true by lia.
    change (slice_id (merged_slice id chunk size)) with id. rewrite Z.sub_0_r, Hd, Hm by lia.
    destruct (visible slices x); [done|]. apply lookup_replicate_2. lia.
  - replace ((0 <=? x) && (x <? 0 + size)) with false by lia.
    destruct (visible slices x) as [s|] eqn:Hv; [|done]. apply visible_Some in Hv as [Hin Hcov].
    rewrite slice_covers_spec in Hcov. rewrite Forall_forall in Hend. specialize (Hend s Hin). lia.
Qed.

(** C24: when heavy compaction reports success, whatever other clients did
    meanwhile, its publication found exactly the slice list it had merged, replaced
    it by the one new slice, staged every old slice for deletion, and a reader of
    the new list sees at every position of the chunk the byte a reader of the old
    list saw. No block of another slice was touched. *)
Theorem heavy_compaction_exact runs client now now' l slices chunk s (st : S) new_id s' st' :
  layout_ok l -> Forall slice_ok slices ->
  compact_heavy_inner runs client now now' l slices chunk s st = (Ok new_id, s', st') ->
  exists size s0 t,
    replace_slices_for_compact_with_version now' chunk [merged_slice new_id chunk size]
      (encode_delayed_data slices (slice_id <$> slices)) slices (begin s0) = (Ok tt, t) /\
    slices_of (sys_db s0) chunk = slices /\ slices_of (view t) chunk = [merged_slice new_id chunk size] /\
    (forall a, a ∈ slices -> exists i, delayed_pending (view t) !! i =
       Some (mkDelayed i (slice_id a) chunk (s_offset a) (delayed_entry a).2 now' DelayedPending)) /\
    (forall x, 0 <= x < chunk_size l ->
       chunk_byte l st' [merged_slice new_id chunk size] x = chunk_byte l st slices x) /\
    (forall k x, k.1 <> new_id -> stored st' k x = stored st k x).
Proof.
  intros Hl Hok. assert (Forall (fun s => 0 <= s_offset s /\ 0 <= s_length s) slices) as Hs.
  { eapply Forall_impl; [exact Hok|]. intros a Ha. destruct Ha. lia. }
  unfold compact_heavy_inner.
  destruct (occupied_end l slices 0) as [size|] eqn:Ho; [|done].
  destruct (read_and_merge_slices _ _ _ _) as [data|] eqn:Hr; [|done].
  destruct (next_slice_id client s) as [[id|] s1]; [|done].
  destruct (write_txn (runs 0%nat) _ s1) as [[u|] s2]; [|done].
  destruct (write_merged_data l st id data) as [[[]|] st1] eqn:Hw; [|done].
  destruct (write_txn (runs 1%nat) _ s2) as [[[]|e] s3] eqn:Hp; [|destruct e; try done; by destruct (cleanup_uncommitted_slice l st1 id size)].
  destruct (write_txn (runs 2%nat) _ s3) as [v s4]. intros [= <- <- <-].
  apply write_txn_Ok in Hp as (s0&t&Ht&->). exists size, s0, t.
  pose proof (decode_encode_delayed slices (slice_id <$> slices) Hok) as Hdec.
  destruct (replace_version_run _ _ _ _ _ _ _ _ _ _ _ Hdec Ht) as (Hcur&_&d1&_&Hst&->).
  split_and!; [done|done| | |by eapply merged_content|].
  - unfold slices_of. rewrite (sg_chunks _ _ _ _ _ Hst).
    rewrite bool_decide_eq_false_2 by done. cbn. by rewrite lookup_insert_eq.
  - intros a Ha. apply (sg_all _ _ _ _ _ Hst).
    assert (delayed_entry a ∈ delayed_entry <$> filter (fun s => slice_id s ∈ slice_id <$> slices) slices) as Hin.
    { apply list_elem_of_fmap_2, list_elem_of_filter. split; [|done]. by apply list_elem_of_fmap_2. }
    exact Hin.
  - destruct (occupied_end_spec l slices 0 size Hs Ho) as (Hfits&_&_&?). pose proof Hl as [? ? _ _].
    pose proof (read_and_merge_spec l st slices Hl Hfits (replicate (Z.to_nat size) Byte.x00)) as Hm.
    rewrite Hr, length_replicate in Hm. destruct Hm as [Hlen _].
    by destruct (write_merged_spec l st id data (Ok tt) st1 Hl ltac:(lia) Hw).
Qed.
End heavy.

(** Two overlapping slices in a chunk of two blocks. *)
Definition y_slices : list SliceDesc := [mkSlice 1 0 3 2; mkSlice 2 0 2 4].
Definition y_store : InMemory.InMemoryBlockStore :=
  (write_merged_data w_layout (write_merged_data w_layout InMemory.new 1 [Byte.x61; Byte.x62]).2
     2 [Byte.x63; Byte.x64; Byte.x65; Byte.x66]).2.
Definition y_sys : Sys :=
  mkSys (with_counters <[SLICE_ID_KEY := 3]> (with_chunks <[0 := y_slices]> empty_db)) ∅.
Definition y_run : Run := mkRun (fun _ => Commits) (fun _ s => s).

Lemma y_slices_ok : Forall slice_ok y_slices.
Proof. repeat constructor; vm_compute; congruence. Qed.

Lemma heavy_compaction_exact_witness :
  exists s' st', compact_heavy_inner (fun _ => y_run) 1 100 101 w_layout y_slices 0 y_sys y_store = (Ok 3, s', st') /\
    exists size, forall x, 0 <= x < chunk_size w_layout ->
      chunk_byte w_layout st' [merged_slice 3 0 size] x = chunk_byte w_layout y_store y_slices x.
Proof.
  destruct (compact_heavy_inner (fun _ => y_run) 1 100 101 w_layout y_slices 0 y_sys y_store)
    as [[[id|e] s'] st'] eqn:E; [|by vm_compute in E].
  assert (id = 3) as -> by (vm_compute in E; congruence). exists s', st'. split; [reflexivity|].
  destruct (heavy_compaction_exact (fun _ => y_run) 1 100 101 w_layout y_slices 0 y_sys y_store 3 s' st'
    w_layout_ok y_slices_ok E) as (size&_&_&_&_&_&_&H&_).
  by exists size.
Defined.

(** ** Decisions *)

(** [heavy_enabled = false] does not keep heavy compaction off: once a light
    compaction has removed a slice, fragmentation at the force threshold makes the
    chunk be rewritten all the same. *)
Theorem heavy_forced_when_disabled cfg snap :
  heavy_enabled cfg = false -> 1 < count snap ->
  Qle (heavy_force_fragment_threshold cfg) (cs_fragmentation snap) ->
  needs_heavy cfg snap = false /\ needs_heavy_after_light cfg snap = true.
Proof.
  intros He Hc Hq. unfold needs_heavy_after_light, needs_heavy. rewrite He. cbn.
  destruct (Z.leb_spec (count snap) 1); [lia|]. split; [done|]. by apply Qle_bool_iff.
Qed.
