(* ===== verification/Lifecycle.v ===== *)
(** The life of a slice across writers, compactors and collectors.

    Writers upload a slice and publish it, compactors drop covered slices or
    rewrite a chunk, collectors delete the blocks of slices that are out of use;
    all of them run at the same time on the metadata store and the block store,
    with snapshots that may be stale when they are used. The state machine below
    interleaves their transactions and block operations. Its refinement: the
    content of every chunk is what the published writes, in publication order,
    say it is. *)
From stdpp Require Import options.
From S2P Require Import Prelude Span Slices BlockStore Reader Writer MetaTypes MetaTxn TxnRun MetaChunks ChunkTxns Compactor.
Import Layout Spans Slice.

(** ** Covered slices in a list that moves on *)

Definition spans_over (b a : SliceDesc) : Prop :=
  s_offset b <= s_offset a /\ s_offset a + s_length a <= s_offset b + s_length b.

(** Every slice of [cur] with an id in [ids] is covered by a newer one. *)
Definition droppable (ids : list Z) (cur : list SliceDesc) : Prop :=
  forall l1 a l2, cur = l1 ++ a :: l2 -> slice_id a ∈ ids -> exists b, b ∈ l2 /\ spans_over b a.

Lemma spans_over_trans a b c : spans_over c b -> spans_over b a -> spans_over c a.
Proof. unfold spans_over. lia. Qed.

(** The newest of the slices that contain [a] is not droppable. *)
Lemma newest_cover ids cur a : droppable ids cur -> forall l2 pre b,
  cur = pre ++ b :: l2 -> spans_over b a ->
  exists b', b' ∈ b :: l2 /\ spans_over b' a /\ slice_id b' ∉ ids.
Proof.
  intros Hd l2. remember (length l2) as n eqn:Hn. revert l2 Hn.
  induction n as [n IH] using lt_wf_ind. intros l2 -> pre b Hcur Hs.
  destruct (decide (slice_id b ∈ ids)) as [Hin|Hni]; [|exists b; set_solver].
  destruct (Hd pre b l2 Hcur Hin) as (c&Hc&Hcs). apply list_elem_of_split in Hc as (m1&m2&->).
  destruct (IH (length m2)) with (l2 := m2) (pre := pre ++ b :: m1) (b := c) as (b'&Hb'&?&?); try done.
  - rewrite length_app. cbn. lia.
  - by rewrite Hcur, <-app_assoc.
  - by eapply spans_over_trans.
  - exists b'. set_solver.
Qed.

Lemma filter_split {A} (P : A -> Prop) `{!forall x, Decision (P x)} cur l1 a l2 :
  filter P cur = l1 ++ a :: l2 ->
  exists m1 m2, cur = m1 ++ a :: m2 /\ filter P m1 = l1 /\ filter P m2 = l2 /\ P a.
Proof.
  revert l1. induction cur as [|c cur IH]; intros l1 Hf; [by destruct l1|].
  destruct (decide (P c)) as [HP|HP].
  - rewrite filter_cons_True in Hf by done. destruct l1 as [|d l1]; cbn in Hf; injection Hf as -> Hf.
    + by exists [], cur.
    + destruct (IH l1 Hf) as (m1&m2&->&?&?&?). exists (d :: m1), m2. split_and!; try done.
      rewrite filter_cons_True by done. by f_equal.
  - rewrite filter_cons_False in Hf by done. destruct (IH l1 Hf) as (m1&m2&->&?&?&?).
    exists (c :: m1), m2. split_and!; try done. by rewrite filter_cons_False.
Qed.

Lemma droppable_retain ids ids' cur :
  droppable ids cur -> droppable ids' cur -> droppable ids (retain_other_ids ids' cur).
Proof.
  intros Hd Hd' l1 a l2 Hf Hin. apply filter_split in Hf as (m1&m2&Hcur&_&<-&_).
  destruct (Hd m1 a m2 Hcur Hin) as (b&Hb&Hs). apply list_elem_of_split in Hb as (n1&n2&->).
  destruct (newest_cover ids' cur a Hd' n2 (m1 ++ a :: n1) b) as (b'&Hb'&?&?); [by rewrite Hcur, <-app_assoc|done|].
  exists b'. split; [|done]. apply list_elem_of_filter. set_solver.
Qed.

Lemma droppable_snoc ids cur w : slice_id w ∉ ids -> droppable ids cur -> droppable ids (cur ++ [w]).
Proof.
  intros Hw Hd l1 a l2 Hcur Hin. destruct l2 as [|z l2 _] using rev_ind.
  { apply app_inj_tail in Hcur as [-> ->]. done. }
  change (a :: l2 ++ [z]) with ((a :: l2) ++ [z]) in Hcur. rewrite app_assoc in Hcur.
  apply app_inj_tail in Hcur as [Hcur ->]. destruct (Hd l1 a l2 Hcur Hin) as (b&?&?). exists b. set_solver.
Qed.

Lemma droppable_none ids cur : (forall s, s ∈ cur -> slice_id s ∉ ids) -> droppable ids cur.
Proof. intros Hn l1 a l2 -> Hin. exfalso. apply (Hn a); [set_solver|done]. Qed.

(** Dropping covered slices changes no position. *)
Lemma visible_retain ids cur x : droppable ids cur ->
  visible (retain_other_ids ids cur) x = visible cur x.
Proof.
  unfold retain_other_ids. induction cur as [|a cur IH]; intros Hd; [done|].
  assert (droppable ids cur) as Hd'.
  { intros l1 b l2 -> Hin. apply (Hd (a :: l1) b l2); done. }
  specialize (IH Hd'). destruct (decide (slice_id a ∈ ids)) as [Hin|Hni].
  - rewrite filter_cons_False by naive_solver. rewrite IH. cbn [visible].
    destruct (visible cur x) as [t|] eqn:Hv; [done|]. destruct (slice_covers x a) eqn:Hc; [|done].
    destruct (Hd [] a cur eq_refl Hin) as (b&Hb&Hs). rewrite visible_None in Hv.
    specialize (Hv b Hb). unfold spans_over in Hs. rewrite slice_covers_spec in Hc.
    assert (slice_covers x b = true) by (apply slice_covers_spec; lia). congruence.
  - rewrite filter_cons_True by done. cbn [visible]. by rewrite IH.
Qed.

Lemma survivors_suffix l1 l2 : survivors l2 ⊆ survivors (l1 ++ l2).
Proof. induction l1 as [|a l1 IH]; cbn; [done|]. destruct (existsb _ _); set_solver. Qed.

(** What a light compaction plans to drop is covered in the list it looked at. *)
Lemma light_plan_droppable snap : Forall slice_ok snap -> droppable (light_plan snap) snap.
Proof.
  intros Hok l1 a l2 -> Hin. unfold light_plan in Hin.
  rewrite remove_fully_covered_survivors in Hin. apply find_replaced_elem in Hin as [_ Hni].
  destruct (existsb (range_covers (s_offset a) (s_end a)) ((fun t => (s_offset t, s_end t)) <$> l2)) eqn:E.
  - apply existsb_exists in E as (r&Hin&Hr). apply list_elem_of_In, list_elem_of_fmap in Hin as (t&->&Ht).
    apply Forall_app in Hok as [_ Hok]. inversion_clear Hok as [|? ? Ha Hl]. rewrite Forall_forall in Hl.
    unfold range_covers in Hr; cbn in Hr. rewrite !s_end_ok in Hr by auto.
    exists t. split; [done|]. unfold spans_over. lia.
  - exfalso. apply Hni, list_elem_of_fmap_2, survivors_suffix. cbn. rewrite E. set_solver.
Qed.

(** ** A list and a snapshot of it *)

(** What is left of the snapshot, then slices published since. *)
Definition moved_on (snap cur : list SliceDesc) : Prop :=
  exists u v, cur = u ++ v /\ u `sublist_of` snap /\ forall s, s ∈ v -> slice_id s ∉ slice_id <$> snap.

Lemma moved_on_refl snap : moved_on snap snap.
Proof. exists snap, []. split_and!; [by rewrite app_nil_r|done|set_solver]. Qed.

Lemma moved_on_snoc snap cur w : slice_id w ∉ slice_id <$> snap -> moved_on snap cur -> moved_on snap (cur ++ [w]).
Proof.
  intros Hw (u&v&->&Hu&Hv). exists u, (v ++ [w]). split_and!; [by rewrite app_assoc|done|set_solver].
Qed.

Lemma filter_sublist {A} (P : A -> Prop) `{!forall x, Decision (P x)} l : filter P l `sublist_of` l.
Proof.
  induction l as [|a l IH]; [done|]. destruct (decide (P a)).
  - rewrite filter_cons_True by done. by constructor.
  - rewrite filter_cons_False by done. by constructor.
Qed.

Lemma moved_on_retain snap cur ids : moved_on snap cur -> moved_on snap (retain_other_ids ids cur).
Proof.
  intros (u&v&->&Hu&Hv). exists (retain_other_ids ids u), (retain_other_ids ids v).
  unfold retain_other_ids. split_and!; [apply filter_app|by etrans; [apply filter_sublist|]|].
  intros s [_ Hs]%list_elem_of_filter. auto.
Qed.

Lemma moved_on_one snap m : slice_id m ∉ slice_id <$> snap -> moved_on snap [m].
Proof. intros Hm. exists [], [m]. split_and!; [done|apply sublist_nil_l|set_solver]. Qed.

Lemma sublist_same_length {A} (l1 l2 : list A) : l1 `sublist_of` l2 -> length l1 = length l2 -> l1 = l2.
Proof.
  induction 1 as [|a l1 l2 Hs IH|a l1 l2 Hs IH]; cbn; [done|intros [= ?]; f_equal; auto|].
  apply sublist_length in Hs. lia.
Qed.

(** A list that differs from the snapshot never becomes equal to it again: the
    newest slice is never dropped. *)
Lemma moved_on_back ids snap cur :
  droppable ids cur -> moved_on snap cur -> retain_other_ids ids cur = snap -> cur = snap.
Proof.
  intros Hd (u&v&->&Hu&Hv) Hr. destruct v as [|z v _] using rev_ind.
  - rewrite app_nil_r in *. apply sublist_same_length; [done|].
    assert (length (retain_other_ids ids u) <= length u)%nat by apply length_filter.
    apply sublist_length in Hu. rewrite Hr in *. lia.
  - exfalso. assert (slice_id z ∉ ids) as Hz.
    { intros Hin. destruct (Hd (u ++ v) z [] ltac:(by rewrite app_assoc) Hin) as (b&Hb&_). set_solver. }
    apply (Hv z); [set_solver|]. rewrite <-Hr. apply list_elem_of_fmap_2, list_elem_of_filter. set_solver.
Qed.

(** ** The state machine *)

(** What is going on with an allocated id that is not published: a writer fills
    it, has filled it, or a compactor does the same with merged data. *)
Inductive Flight :=
| Writing
| Written (slice : SliceDesc) (data : list byte)
| Merging (chunk : Z) (snap : list SliceDesc) (data : list byte)
| Merged (chunk : Z) (snap : list SliceDesc) (data : list byte).

Definition by_writer (f : Flight) : bool :=
  match f with Writing | Written _ _ => true | _ => false end.

(** The two stores, and what the running tasks remember: ids in flight, snapshots
    of slice lists, data merged from a snapshot, slices a collector was told to
    delete. [published] is the history of publications. *)
Record World (S : Type) := mkWorld {
  w_sys : Sys; w_store : S;
  w_flights : gmap Z Flight;
  w_snaps : list (Z * list SliceDesc);
  w_merges : list (Z * list SliceDesc * list byte);
  w_doomed : gset Z;
  w_published : gmap Z (Z * SliceDesc) }.
Arguments mkWorld {S}.
Arguments w_sys {S}.
Arguments w_store {S}.
Arguments w_flights {S}.
Arguments w_snaps {S}.
Arguments w_merges {S}.
Arguments w_doomed {S}.
Arguments w_published {S}.

(** Rows outside the reach of the chunk operations. *)
Record chunk_rows_same (d d' : DB) : Prop := {
  cr_chunks : chunks d' = chunks d;
  cr_dp : delayed_pending d' = delayed_pending d;
  cr_dm : delayed_meta_deleted d' = delayed_meta_deleted d;
  cr_up : uncommitted_pending d' = uncommitted_pending d;
  cr_uo : uncommitted_orphan d' = uncommitted_orphan d
}.

Abbreviation slice_lease_ok s := (lease_ok SLICE_ID_KEY 1 (counters (sys_db s)) (sys_leases s)).
Abbreviation slice_free s := (free_id SLICE_ID_KEY 1 (counters (sys_db s)) (sys_leases s)).

Section machine.
Context {S : Type} `{!BlockStore S, !BlockStoreLaws S} (l : ChunkLayout).

Abbreviation W := (World S).
Definition dbw (w : W) : DB := sys_db (w_sys w).

Definition set_sys (s : Sys) (w : W) : W :=
  mkWorld s (w_store w) (w_flights w) (w_snaps w) (w_merges w) (w_doomed w) (w_published w).
Definition set_store (st : S) (w : W) : W :=
  mkWorld (w_sys w) st (w_flights w) (w_snaps w) (w_merges w) (w_doomed w) (w_published w).
Definition set_flights (f : gmap Z Flight -> gmap Z Flight) (w : W) : W :=
  mkWorld (w_sys w) (w_store w) (f (w_flights w)) (w_snaps w) (w_merges w) (w_doomed w) (w_published w).
Definition add_snap (x : Z * list SliceDesc) (w : W) : W :=
  mkWorld (w_sys w) (w_store w) (w_flights w) (x :: w_snaps w) (w_merges w) (w_doomed w) (w_published w).
Definition add_merge (x : Z * list SliceDesc * list byte) (w : W) : W :=
  mkWorld (w_sys w) (w_store w) (w_flights w) (w_snaps w) (x :: w_merges w) (w_doomed w) (w_published w).
Definition doom (ids : gset Z) (w : W) : W :=
  mkWorld (w_sys w) (w_store w) (w_flights w) (w_snaps w) (w_merges w) (ids ∪ w_doomed w) (w_published w).
Definition publish (c : Z) (s : SliceDesc) (w : W) : W :=
  mkWorld (w_sys w) (w_store w) (delete (slice_id s) (w_flights w)) (w_snaps w) (w_merges w) (w_doomed w)
    (<[slice_id s := (c, s)]> (w_published w)).

(** A transaction that commits. *)
Definition commits {A} (m : txn A) (a : A) (s s' : Sys) : Prop :=
  exists t, m (begin s) = (Ok a, t) /\ s' = commit t.

(** The effect of a step on the content of the chunks. *)
Inductive Event := Quiet | Wrote (chunk start : Z) (data : list byte).

Inductive step (w : W) : Event -> W -> Prop :=
(* writers: [DataUploader] and [MetaStore::write] or [append_slice] *)
| step_write_begin client id s' :
    next_slice_id client (w_sys w) = (Ok id, s') ->
    step w Quiet (set_flights <[id := Writing]> (set_sys s' w))
| step_write_upload schedule id c start cs r st' :
    w_flights w !! id = Some Writing -> (forall us, schedule us ≡ₚ us) ->
    0 <= start -> start + total_len cs <= chunk_size l ->
    write_at_vectored schedule l (w_store w) id 0 cs = Some (r, st') ->
    step w Quiet (set_store st' (match r with
      | Ok _ => set_flights <[id := Written (mkSlice id c start (total_len cs)) (concat cs)]> w
      | Err _ => w end))
| step_append id s data s' :
    w_flights w !! id = Some (Written s data) ->
    commits (append_slice (chunk_id s) s) tt (w_sys w) s' ->
    step w (Wrote (chunk_id s) (s_offset s) data) (publish (chunk_id s) s (set_sys s' w))
| step_write id s data now ino new_size s' :
    w_flights w !! id = Some (Written s data) ->
    commits (write now ino (chunk_id s) s new_size) tt (w_sys w) s' ->
    step w (Wrote (chunk_id s) (s_offset s) data) (publish (chunk_id s) s (set_sys s' w))
(* compactors *)
| step_snapshot c :
    step w Quiet (add_snap (c, slices_of (dbw w) c) w)
| step_light now c snap s' :
    (c, snap) ∈ w_snaps w ->
    commits (replace_slices_for_compact now c [] (encode_delayed_data snap (light_plan snap))) tt (w_sys w) s' ->
    step w Quiet (set_sys s' w)
| step_merge c snap size data :
    (c, snap) ∈ w_snaps w -> occupied_end l snap 0 = Some size ->
    read_and_merge_slices l (w_store w) snap (replicate (Z.to_nat size) Byte.x00) = Ok data ->
    step w Quiet (add_merge (c, snap, data) w)
| step_reserve client now op c snap data id i s1 s' :
    (c, snap, data) ∈ w_merges w -> next_slice_id client (w_sys w) = (Ok id, s1) ->
    commits (record_uncommitted_slice now id c (Z.of_nat (length data)) op) i s1 s' ->
    step w Quiet (set_flights <[id := Merging c snap data]> (set_sys s' w))
| step_merge_upload id c snap data r st' :
    w_flights w !! id = Some (Merging c snap data) -> write_merged_data l (w_store w) id data = (r, st') ->
    step w Quiet (set_store st' (match r with
      | Ok _ => set_flights <[id := Merged c snap data]> w | Err _ => w end))
| step_heavy now id c snap data s' :
    w_flights w !! id = Some (Merged c snap data) ->
    commits (replace_slices_for_compact_with_version now c [merged_slice id c (Z.of_nat (length data))]
               (encode_delayed_data snap (slice_id <$> snap)) snap) tt (w_sys w) s' ->
    step w Quiet (publish c (merged_slice id c (Z.of_nat (length data))) (set_sys s' w))
| step_abandon id f size r st' :
    w_flights w !! id = Some f -> cleanup_uncommitted_slice l (w_store w) id size = (r, st') ->
    step w Quiet (set_store st' (set_flights (delete id) w))
(* collectors *)
| step_process cutoff record e s' :
    commits (process_one cutoff record) e (w_sys w) s' ->
    step w Quiet (doom (list_to_set ((fun x => x.1.1.1) <$> option_list e)) (set_sys s' w))
| step_process_again i r :
    delayed_meta_deleted (dbw w) !! i = Some r -> step w Quiet (doom {[dl_slice_id r]} w)
| step_cleanup cutoff record e s' :
    commits (cleanup_one cutoff record) e (w_sys w) s' ->
    step w Quiet (doom (list_to_set (fst <$> option_list e)) (set_sys s' w))
| step_cleanup_again i r :
    uncommitted_orphan (dbw w) !! i = Some r -> step w Quiet (doom {[un_slice_id r]} w)
| step_delete id size bs r st' :
    id ∈ w_doomed w -> delete_slice_blocks (w_store w) id size bs = (r, st') ->
    step w Quiet (set_store st' w)
| step_confirm ids s' :
    commits (confirm_delayed_deleted ids) tt (w_sys w) s' -> step w Quiet (set_sys s' w)
| step_forget ids s' :
    commits (delete_uncommitted_slices ids) tt (w_sys w) s' -> step w Quiet (set_sys s' w)
(* everything else: other rows, and ids taken by other clients *)
| step_other s' :
    chunk_rows_same (dbw w) (sys_db s') -> slice_lease_ok s' ->
    (forall i, slice_free s' i -> slice_free (w_sys w) i) ->
    step w Quiet (set_sys s' w).

(** ** The invariant *)

Definition live (d : DB) (id : Z) : Prop := exists c s, s ∈ slices_of d c /\ slice_id s = id.

(** A slice with a deletion record. *)
Definition delayed_id (d : DB) (id : Z) : Prop :=
  exists i r, (delayed_pending d !! i = Some r \/ delayed_meta_deleted d !! i = Some r) /\ dl_slice_id r = id.

Abbreviation up w id := (uncommitted_pending (dbw w) !! id).
Abbreviation uo w id := (uncommitted_orphan (dbw w) !! id).

Record inv (w : W) : Prop := {
  iv_lease : slice_lease_ok (w_sys w);
  (* the phases of an id *)
  iv_published id : is_Some (w_published w !! id) ->
    ~ slice_free (w_sys w) id /\ w_flights w !! id = None /\ up w id = None /\ uo w id = None;
  iv_flight id f : w_flights w !! id = Some f -> ~ slice_free (w_sys w) id /\ 1 <= id < i64_modulus_half /\
    (by_writer f = true -> up w id = None /\ uo w id = None /\ id ∉ w_doomed w);
  iv_pending id r : up w id = Some r ->
    ~ slice_free (w_sys w) id /\ un_slice_id r = id /\ (id ∉ w_doomed w) /\ uo w id = None;
  iv_orphan id r : uo w id = Some r -> ~ slice_free (w_sys w) id /\ un_slice_id r = id;
  iv_delayed id : delayed_id (dbw w) id -> is_Some (w_published w !! id) /\ ~ live (dbw w) id;
  iv_doomed id : id ∈ w_doomed w -> ~ slice_free (w_sys w) id /\ ~ live (dbw w) id;
  iv_live c s : s ∈ slices_of (dbw w) c -> w_published w !! slice_id s = Some (c, s);
  (* lists and snapshots *)
  iv_good id c s : w_published w !! id = Some (c, s) -> slice_id s = id /\ fits l s /\ slice_ok s;
  iv_snap c snap : (c, snap) ∈ w_snaps w -> (forall s, s ∈ snap -> w_published w !! slice_id s = Some (c, s)) /\
    droppable (light_plan snap) (slices_of (dbw w) c) /\ moved_on snap (slices_of (dbw w) c);
  (* data *)
  iv_written id s data : w_flights w !! id = Some (Written s data) ->
    slice_id s = id /\ fits l s /\ slice_ok s /\ Z.of_nat (length data) = s_length s /\
    forall i, 0 <= i < s_length s -> slice_byte l (w_store w) id i = data !! Z.to_nat i;
  iv_merge c snap data : (c, snap, data) ∈ w_merges w -> (c, snap) ∈ w_snaps w /\
    occupied_end l snap 0 = Some (Z.of_nat (length data)) /\
    (slices_of (dbw w) c = snap -> forall x, 0 <= x < Z.of_nat (length data) ->
       data !! Z.to_nat x = chunk_byte l (w_store w) snap x);
  iv_merging id c snap data : w_flights w !! id = Some (Merging c snap data) -> (c, snap, data) ∈ w_merges w;
  iv_merged id c snap data : w_flights w !! id = Some (Merged c snap data) -> (c, snap, data) ∈ w_merges w /\
    (is_Some (up w id) -> forall i, 0 <= i < Z.of_nat (length data) ->
       slice_byte l (w_store w) id i = data !! Z.to_nat i)
}.

(** The content the chunks show. *)
Definition shows (w : W) (content : Z -> Z -> byte) : Prop :=
  forall c x, chunk_byte l (w_store w) (slices_of (dbw w) c) x = Some (content c x).

(** ** Steps that neither publish nor drop slices *)

(** Records may go away, pending reservations may become orphans, and slices may
    be doomed that are neither in use nor about to be. *)
Record quiet_change (w w' : W) : Prop := {
  qc_lease : slice_lease_ok (w_sys w');
  qc_free id : slice_free (w_sys w') id -> slice_free (w_sys w) id;
  qc_slices c : slices_of (dbw w') c = slices_of (dbw w) c;
  qc_delayed id : delayed_id (dbw w') id -> delayed_id (dbw w) id;
  qc_up id r : up w' id = Some r -> up w id = Some r;
  qc_uo id r : uo w' id = Some r -> un_slice_id r = id /\
    (is_Some (uo w id) \/ (is_Some (up w id) /\ up w' id = None));
  qc_doomed id : id ∈ w_doomed w' -> id ∈ w_doomed w \/
    (~ slice_free (w_sys w) id /\ ~ live (dbw w) id /\ up w' id = None /\
     forall f, w_flights w !! id = Some f -> by_writer f = false);
  qc_rest : w_flights w' = w_flights w /\ w_snaps w' = w_snaps w /\ w_merges w' = w_merges w /\
    w_store w' = w_store w /\ w_published w' = w_published w
}.

Lemma live_ext d d' id : (forall c, slices_of d' c = slices_of d c) -> live d' id <-> live d id.
Proof. intros Hc. unfold live. by setoid_rewrite Hc. Qed.

Lemma inv_quiet w w' : inv w -> quiet_change w w' -> inv w'.
Proof.
  intros Hi [Hl Hf Hs Hd Hu Ho Hdm (Efl&Esn&Emg&Est&Epb)].
  assert (forall id, up w id = None -> up w' id = None) as HuN.
  { intros id Hn. destruct (up w' id) eqn:E; [|done]. apply Hu in E. congruence. }
  assert (forall id, up w id = None -> uo w id = None -> uo w' id = None) as HoN.
  { intros id Hn Hn'. destruct (uo w' id) as [r|] eqn:E; [|done].
    destruct (Ho _ _ E) as [_ [[? ?]|[[? ?] _]]]; congruence. }
  split; rewrite ?Efl, ?Esn, ?Emg, ?Est, ?Epb.
  - done.
  - intros id Hp. destruct (iv_published _ Hi id Hp) as (?&?&?&?). split_and!; auto.
  - intros id f Hfl. destruct (iv_flight _ Hi id f Hfl) as (?&?&Hw). split_and!; [auto|lia|lia|].
    intros Hb. destruct (Hw Hb) as (?&?&?). split_and!; auto.
    intros [?|(_&_&_&Hn)]%Hdm; [done|]. rewrite (Hn f Hfl) in Hb. done.
  - intros id r Hr. pose proof (Hu _ _ Hr) as Hr'. destruct (iv_pending _ Hi id r Hr') as (?&?&?&?).
    split_and!; [auto|done| |].
    + intros [?|(_&_&Hn&_)]%Hdm; [done|congruence].
    + destruct (uo w' id) as [r'|] eqn:E; [|done]. destruct (Ho _ _ E) as [_ [[? ?]|[_ ?]]]; congruence.
  - intros id r Hr. destruct (Ho _ _ Hr) as [Hid Hor]. split; [|done]. intros Hfr%Hf.
    destruct Hor as [[r' Hr']|[[r' Hr'] _]].
    + by destruct (iv_orphan _ Hi _ _ Hr').
    + by destruct (iv_pending _ Hi _ _ Hr').
  - intros id [Hp Hn]%Hd%(iv_delayed _ Hi). split; [done|]. by rewrite live_ext.
  - intros id Hid. rewrite (live_ext _ _ _ Hs). destruct (Hdm id Hid) as [Hin|(?&?&_)]; [|auto].
    destruct (iv_doomed _ Hi id Hin). auto.
  - intros c s. rewrite Hs. apply (iv_live _ Hi).
  - apply (iv_good _ Hi).
  - intros c snap. rewrite Hs. apply (iv_snap _ Hi).
  - apply (iv_written _ Hi).
  - intros c snap data. rewrite Hs. apply (iv_merge _ Hi).
  - apply (iv_merging _ Hi).
  - intros id c snap data Hfl. destruct (iv_merged _ Hi _ _ _ _ Hfl) as [? Hby]. split; [done|].
    intros [r Hr]. apply Hby. exists r. auto.
Qed.

Lemma shows_quiet w w' content : quiet_change w w' -> shows w content -> shows w' content.
Proof. intros [? ? Hs ? ? ? ? (_&_&_&Est&_)] Hsh c x. rewrite Est, Hs. apply Hsh. Qed.

(** *** Collectors *)

Lemma retain_not_live d c id : ~ live d id -> retain_other_ids [id] (slices_of d c) = slices_of d c.
Proof.
  intros Hn. assert (forall s, s ∈ slices_of d c -> slice_id s <> id) as Hall.
  { intros s Hs E. apply Hn. by exists c, s. }
  unfold retain_other_ids. induction (slices_of d c) as [|a cur IH]; [done|].
  rewrite filter_cons_True by (rewrite list_elem_of_singleton; apply Hall; set_solver).
  f_equal. apply IH. intros s Hs. apply Hall. set_solver.
Qed.

Lemma delayed_published w i r : inv w ->
  delayed_pending (dbw w) !! i = Some r \/ delayed_meta_deleted (dbw w) !! i = Some r ->
  is_Some (w_published w !! dl_slice_id r) /\ ~ live (dbw w) (dl_slice_id r).
Proof. intros Hi Hr. apply (iv_delayed _ Hi). by exists i, r. Qed.

(** Slices with a deletion record may be handed to the block deletion. *)
Lemma doom_published w id : inv w -> is_Some (w_published w !! id) -> ~ live (dbw w) id ->
  ~ slice_free (w_sys w) id /\ ~ live (dbw w) id /\ up w id = None /\
  forall f, w_flights w !! id = Some f -> by_writer f = false.
Proof.
  intros Hi Hp Hn. destruct (iv_published _ Hi id Hp) as (?&Hfl&?&?). split_and!; [done..|].
  intros f Hf. congruence.
Qed.

Lemma doom_nothing w : doom ∅ w = w.
Proof. unfold doom. rewrite union_empty_l_L. by destruct w. Qed.

(** Only rows of other operations, and ids taken. *)
Lemma quiet_rows w s' ids : inv w -> chunk_rows_same (dbw w) (sys_db s') -> slice_lease_ok s' ->
  (forall i, slice_free s' i -> slice_free (w_sys w) i) ->
  (forall id, id ∈ ids -> ~ slice_free (w_sys w) id /\ ~ live (dbw w) id /\ up w id = None /\
     forall f, w_flights w !! id = Some f -> by_writer f = false) ->
  quiet_change w (doom ids (set_sys s' w)).
Proof.
  intros Hi [Hc Hdp Hdm Hup Huo] Hl Hf Hids.
  split; unfold dbw in *; cbn [w_sys doom set_sys w_doomed]; try done.
  - intros c. unfold slices_of. by rewrite Hc.
  - intros id. unfold delayed_id. by rewrite Hdp, Hdm.
  - intros id r. by rewrite Hup.
  - intros id r. rewrite Huo. intros Hr. split; [|eauto]. by destruct (iv_orphan _ Hi id r Hr).
  - intros id [Hin|?]%elem_of_union; [right|by left]. rewrite Hup. by apply Hids.
Qed.

Lemma quiet_doom w ids : inv w ->
  (forall id, id ∈ ids -> ~ slice_free (w_sys w) id /\ ~ live (dbw w) id /\ up w id = None /\
     forall f, w_flights w !! id = Some f -> by_writer f = false) ->
  quiet_change w (doom ids w).
Proof.
  intros Hi Hids. assert (w = set_sys (w_sys w) w) as E by (by destruct w). rewrite E at 2.
  apply quiet_rows; try done. apply (iv_lease _ Hi).
Qed.

Lemma quiet_none w ids : inv w -> ids = ∅ -> quiet_change w (doom ids (set_sys (w_sys w) w)).
Proof. intros Hi ->. apply quiet_rows; [done|done|apply (iv_lease _ Hi)|done|set_solver]. Qed.

Lemma commit_begin s : commit (begin s) = s.
Proof. by destruct s. Qed.

Lemma process_quiet w cutoff record e s' : inv w -> commits (process_one cutoff record) e (w_sys w) s' ->
  quiet_change w (doom (list_to_set ((fun x => x.1.1.1) <$> option_list e)) (set_sys s' w)).
Proof.
  intros Hi (t&Ht&->). revert Ht.
  unfold process_one, txn_get_slices, txn_put_slices_or_delete. rewrite bind_read. cbn [view begin].
  change (sys_db (w_sys w)) with (dbw w) in *.
  destruct (delayed_pending (dbw w) !! dl_id record) as [cur|] eqn:Hc; last first.
  { intros [= <- <-]. rewrite commit_begin. by apply quiet_none. }
  destruct (negb _ || _).
  { intros [= <- <-]. rewrite commit_begin. by apply quiet_none. }
  intros H. txn_inv. change (sys_db (w_sys w)) with (dbw w).
  destruct (delayed_published w _ _ Hi (or_introl Hc)) as [Hpub Hnl].
  fold (slices_of (dbw w) (dl_chunk_id cur)). rewrite retain_not_live by done.
  split; unfold dbw; cbn [w_sys doom set_sys w_doomed sys_db sys_leases commit view leases counters with_delayed with_chunks];
    try done; try (apply (iv_lease _ Hi)).
  - intros c. change (sys_db (w_sys w)) with (dbw w).
    etrans; [apply slices_of_put|]. by case_decide; subst.
  - intros id (i&r&Hor&<-). cbn in Hor. destruct (decide (i = dl_id record)) as [->|Hne].
    + rewrite lookup_delete_eq, lookup_insert_eq in Hor. destruct Hor as [|[= <-]]; [done|]. cbn.
      exists (dl_id record), cur. auto.
    + rewrite lookup_delete_ne, lookup_insert_ne in Hor by done. by exists i, r.
  - intros id r Hr. split; [|eauto]. by destruct (iv_orphan _ Hi id r Hr).
  - intros id [Hin|?]%elem_of_union; [right|by left]. cbn in Hin.
    assert (id = dl_slice_id cur) as -> by set_solver. by apply doom_published.
Qed.

Lemma process_again_quiet w i r : inv w -> delayed_meta_deleted (dbw w) !! i = Some r ->
  quiet_change w (doom {[dl_slice_id r]} w).
Proof.
  intros Hi Hr. apply quiet_doom; [done|]. intros id ->%elem_of_singleton.
  destruct (delayed_published w i r Hi (or_intror Hr)). by apply doom_published.
Qed.

(** An orphan is in nobody's hands but possibly a compactor's that lost it. *)
Lemma doom_orphan w id r : inv w -> uo w id = Some r ->
  ~ slice_free (w_sys w) id /\ ~ live (dbw w) id /\ up w id = None /\
  forall f, w_flights w !! id = Some f -> by_writer f = false.
Proof.
  intros Hi Hr. destruct (iv_orphan _ Hi id r Hr) as [Hf _]. split_and!; [done|..].
  - intros (c&s&Hs&<-). apply (iv_live _ Hi) in Hs. by destruct (iv_published _ Hi (slice_id s)) as (?&?&?&?); [|congruence].
  - destruct (up w id) as [r'|] eqn:E; [|done]. destruct (iv_pending _ Hi id r' E) as (?&?&?&?). congruence.
  - intros f Hfl. destruct (iv_flight _ Hi id f Hfl) as (?&?&Hw). destruct (by_writer f); [|done].
    destruct (Hw eq_refl) as (?&?&?). congruence.
Qed.

Lemma cleanup_again_quiet w i r : inv w -> uo w i = Some r -> quiet_change w (doom {[un_slice_id r]} w).
Proof.
  intros Hi Hr. apply quiet_doom; [done|]. intros id ->%elem_of_singleton.
  destruct (iv_orphan _ Hi i r Hr) as [_ ->]. by eapply doom_orphan.
Qed.

Lemma pending_not_live w id r : inv w -> up w id = Some r -> ~ live (dbw w) id.
Proof.
  intros Hi Hr (c&s&Hs&<-). apply (iv_live _ Hi) in Hs.
  destruct (iv_published _ Hi (slice_id s)) as (?&?&?&?); [done|congruence].
Qed.

Lemma cleanup_quiet w cutoff record e s' : inv w -> commits (cleanup_one cutoff record) e (w_sys w) s' ->
  quiet_change w (doom (list_to_set (fst <$> option_list e)) (set_sys s' w)).
Proof.
  intros Hi (t&Ht&->). revert Ht.
  unfold cleanup_one, txn_get_slices. rewrite bind_read. cbn [view begin].
  change (sys_db (w_sys w)) with (dbw w) in *.
  destruct (up w (un_slice_id record)) as [cur|] eqn:Hc; last first.
  { intros [= <- <-]. rewrite commit_begin. by apply quiet_none. }
  destruct (negb _ || _).
  { intros [= <- <-]. rewrite commit_begin. by apply quiet_none. }
  destruct (iv_pending _ Hi _ _ Hc) as (Hfr&Hid&_&Huo). rewrite bind_read.
  destruct (existsb _ _) eqn:Hex.
  { exfalso. apply existsb_exists in Hex as (s&Hs&Heq%Z.eqb_eq). apply list_elem_of_In in Hs.
    apply (pending_not_live w _ _ Hi Hc). exists (un_chunk_id cur), s. split; [done|congruence]. }
  intros H. txn_inv. change (sys_db (w_sys w)) with (dbw w).
  split; unfold dbw; cbn [w_sys doom set_sys w_doomed sys_db sys_leases commit view leases counters with_uncommitted
    uncommitted_pending uncommitted_orphan]; try done; try (apply (iv_lease _ Hi)).
  - intros id r Hr. by apply lookup_delete_Some in Hr as [_ ?].
  - intros id r Hr. destruct (decide (id = un_slice_id record)) as [->|Hne].
    + rewrite lookup_insert_eq in Hr. injection Hr as <-. split; [done|]. right. split; [eauto|]. apply lookup_delete_eq.
    + rewrite lookup_insert_ne in Hr by done. split; [|eauto]. by destruct (iv_orphan _ Hi id r Hr).
  - intros id [Hin|?]%elem_of_union; [right|by left]. cbn in Hin.
    assert (id = un_slice_id record) as -> by set_solver. split_and!; [done|by eapply pending_not_live|apply lookup_delete_eq|].
    intros f Hfl. destruct (iv_flight _ Hi _ f Hfl) as (?&?&Hw). destruct (by_writer f); [|done].
    destruct (Hw eq_refl) as (?&?&?). congruence.
Qed.

Lemma for_write_run {A} (xs : list A) (f : A -> DB -> DB) s u s' :
  txn_for xs (fun x => txn_write (f x)) s = (Ok u, s') ->
  s' = mkTxn (committed s) (foldl (fun d x => f x d) (view s) xs) (leases s).
Proof.
  revert s. induction xs as [|x xs IH]; intros s; cbn [txn_for]; intros H; txn_inv; [by destruct s|].
  by apply IH in H as ->.
Qed.

Lemma confirm_rows ids d : let d' := foldl (fun d i => with_delayed (delete i) (delete i) d) d ids in
  chunks d' = chunks d /\ counters d' = counters d /\
  uncommitted_pending d' = uncommitted_pending d /\ uncommitted_orphan d' = uncommitted_orphan d /\
  delayed_pending d' = delete_all_ids ids (delayed_pending d) /\
  delayed_meta_deleted d' = delete_all_ids ids (delayed_meta_deleted d).
Proof.
  revert d. induction ids as [|i ids IH]; intros d; [done|]. cbn.
  destruct (IH (with_delayed (delete i) (delete i) d)) as (->&->&->&->&->&->). done.
Qed.

Lemma confirm_quiet w ids s' : inv w -> commits (confirm_delayed_deleted ids) tt (w_sys w) s' ->
  quiet_change w (set_sys s' w).
Proof.
  intros Hi (t&Ht&->). apply for_write_run in Ht as ->. cbn [view begin committed leases].
  destruct (confirm_rows ids (sys_db (w_sys w))) as (Hc&Hn&Hu&Ho&Hp&Hm).
  split; unfold dbw; cbn [w_sys set_sys w_doomed sys_db sys_leases commit view leases]; try done.
  - rewrite Hn. apply (iv_lease _ Hi).
  - intros id. by rewrite Hn.
  - intros c. unfold slices_of. by rewrite Hc.
  - intros id (i&r&Hr&<-). rewrite Hp, Hm, !lookup_delete_all_ids in Hr. case_decide; [naive_solver|]. by exists i, r.
  - intros id r. by rewrite Hu.
  - intros id r. rewrite Ho. intros Hr. split; [|eauto]. by destruct (iv_orphan _ Hi id r Hr).
  - auto.
Qed.

Lemma forget_quiet w ids s' : inv w -> commits (delete_uncommitted_slices ids) tt (w_sys w) s' ->
  quiet_change w (set_sys s' w).
Proof.
  intros Hi (t&Ht&->). apply forget_run in Ht as ->.
  split; unfold dbw; cbn [w_sys set_sys w_doomed sys_db sys_leases commit view leases with_uncommitted
    uncommitted_pending uncommitted_orphan counters]; try done; try (apply (iv_lease _ Hi)).
  - intros id r. rewrite lookup_delete_all_ids. by case_decide.
  - intros id r. rewrite lookup_delete_all_ids. case_decide; [done|]. intros Hr.
    split; [|eauto]. by destruct (iv_orphan _ Hi id r Hr).
  - auto.
Qed.

(** *** Ids *)

Lemma next_slice_id_spec client s id s' : slice_lease_ok s -> next_slice_id client s = (Ok id, s') ->
  chunk_rows_same (sys_db s) (sys_db s') /\ slice_lease_ok s' /\ slice_free s id /\ ~ slice_free s' id /\
  1 <= id < i64_modulus_half /\ forall i, slice_free s' i -> slice_free s i.
Proof.
  intros Hl. unfold next_slice_id, next_leased_slice_id.
  pose proof (next_leased_spec client SLICE_ID_KEY 1 SLICE_ID_LEASE_SIZE (begin s) eq_refl eq_refl Hl) as Hn.
  destruct (next_leased_counter_id _ _ _ _ (begin s)) as [[i|e] t]; [|done]. intros [= -> <-].
  destruct Hn as (cnt'&Hc&_&[Hok Hfirst Hfree Htaken Hshrink _ _]). cbn [committed begin leases] in *.
  unfold rollback. cbn. rewrite Hc. cbn. split_and!; [done|done|done|done|lia|lia|done].
Qed.

(** An id that can still be handed out has never been used. *)
Record unused (w : W) (id : Z) : Prop := {
  un_pub : w_published w !! id = None;
  un_fl : w_flights w !! id = None;
  un_up : up w id = None;
  un_uo : uo w id = None;
  un_doom : id ∉ w_doomed w
}.

Lemma free_unused w id : inv w -> slice_free (w_sys w) id -> unused w id.
Proof.
  intros Hi Hf. split.
  - destruct (w_published w !! id) eqn:E; [|done]. by destruct (iv_published _ Hi id) as [? _].
  - destruct (w_flights w !! id) as [f|] eqn:E; [|done]. by destruct (iv_flight _ Hi id f E) as [? _].
  - destruct (up w id) as [r|] eqn:E; [|done]. by destruct (iv_pending _ Hi id r E) as [? _].
  - destruct (uo w id) as [r|] eqn:E; [|done]. by destruct (iv_orphan _ Hi id r E) as [? _].
  - intros Hin. by destruct (iv_doomed _ Hi id Hin) as [? _].
Qed.

(** Taking an id changes nothing else. *)
Lemma alloc_inv w client id s' : inv w -> next_slice_id client (w_sys w) = (Ok id, s') ->
  inv (set_sys s' w) /\ unused (set_sys s' w) id /\ ~ slice_free s' id /\ 1 <= id < i64_modulus_half /\
  forall content, shows w content -> shows (set_sys s' w) content.
Proof.
  intros Hi Hn. destruct (next_slice_id_spec _ _ _ _ (iv_lease _ Hi) Hn) as (Hrows&Hl&Hf&Ht&Hb&Hs).
  assert (quiet_change w (set_sys s' w)) as Hq.
  { rewrite <-doom_nothing. apply quiet_rows; (done || set_solver). }
  split_and!; [by eapply inv_quiet| |done|lia|lia|].
  - destruct (free_unused w id Hi Hf). destruct Hrows as [_ _ _ Hup Huo].
    split; unfold dbw in *; cbn [w_sys set_sys]; rewrite ?Hup, ?Huo; done.
  - intros content. by apply shows_quiet.
Qed.

(** Starting a flight that is neither [Written] nor [Merged]. *)
Lemma inv_new_flight w id f : inv w -> w_flights w !! id = None -> w_published w !! id = None ->
  ~ slice_free (w_sys w) id -> 1 <= id < i64_modulus_half ->
  (by_writer f = true -> up w id = None /\ uo w id = None /\ id ∉ w_doomed w) ->
  (match f with
   | Writing => True
   | Merging c snap data => (c, snap, data) ∈ w_merges w
   | _ => False end) ->
  inv (set_flights <[id := f]> w).
Proof.
  intros Hi Hfl Hpub Hfr Hb Hw Hf.
  assert (forall id' f', <[id := f]> (w_flights w) !! id' = Some f' ->
    (id' = id /\ f' = f) \/ (id' <> id /\ w_flights w !! id' = Some f')) as Hcase.
  { intros id' f'. destruct (decide (id' = id)) as [->|].
    - rewrite lookup_insert_eq. intros [= <-]. auto.
    - rewrite lookup_insert_ne by done. auto. }
  split; unfold dbw; cbn [w_sys set_flights w_flights w_doomed w_published w_store w_merges w_snaps];
    try (apply Hi).
  - intros id' Hp. destruct (iv_published _ Hi id' Hp) as (?&?&?&?). split_and!; try done.
    rewrite lookup_insert_ne; [done|]. intros <-. rewrite Hpub in Hp. by destruct Hp.
  - intros id' f' [[-> ->]|[_ Hf']]%Hcase; [by split_and!; [|lia|lia|]|]. by apply (iv_flight _ Hi).
  - intros id' s data [[-> <-]|[_ Hf']]%Hcase; [done|]. by apply (iv_written _ Hi).
  - intros id' c snap data [[-> <-]|[_ Hf']]%Hcase; [done|]. by apply (iv_merging _ Hi id').
  - intros id' c snap data [[-> <-]|[_ Hf']]%Hcase; [done|]. by apply (iv_merged _ Hi).
Qed.

Lemma shows_flights w f content : shows w content -> shows (set_flights f w) content.
Proof. done. Qed.

(** *** Snapshots *)

Lemma snap_good w c snap : inv w -> (c, snap) ∈ w_snaps w -> Forall slice_ok snap /\ Forall (fits l) snap.
Proof.
  intros Hi Hs. destruct (iv_snap _ Hi _ _ Hs) as [Hp _].
  split; apply Forall_forall; intros s Hin; by destruct (iv_good _ Hi _ _ _ (Hp s Hin)) as (?&?&?).
Qed.

Lemma slices_good w c : inv w -> Forall slice_ok (slices_of (dbw w) c) /\ Forall (fits l) (slices_of (dbw w) c).
Proof.
  intros Hi. split; apply Forall_forall; intros s Hs%(iv_live _ Hi);
    by destruct (iv_good _ Hi _ _ _ Hs) as (?&?&?).
Qed.

Lemma inv_snapshot w c : inv w -> inv (add_snap (c, slices_of (dbw w) c) w).
Proof.
  intros Hi. destruct (slices_good w c Hi) as [Hg _].
  split; unfold dbw; cbn [w_sys add_snap w_flights w_doomed w_published w_store w_merges w_snaps]; try (apply Hi).
  - intros c' snap [[= -> ->]|Hin]%elem_of_cons; [|by apply (iv_snap _ Hi)]. split_and!.
    + intros s. apply (iv_live _ Hi).
    + by apply light_plan_droppable.
    + apply moved_on_refl.
  - intros c' snap data Hm. destruct (iv_merge _ Hi _ _ _ Hm) as (?&?&?). split_and!; [set_solver|done..].
Qed.

Lemma merged_data_exact (st : S) snap size data : layout_ok l -> Forall slice_ok snap ->
  occupied_end l snap 0 = Some size ->
  read_and_merge_slices l st snap (replicate (Z.to_nat size) Byte.x00) = Ok data ->
  Z.of_nat (length data) = size /\
  forall x, 0 <= x < size -> data !! Z.to_nat x = chunk_byte l st snap x.
Proof.
  intros Hl Hok Hsize Hread.
  destruct (occupied_end_spec l snap 0 size) as (Hfits&_&Hge&_); [|done|].
  { eapply Forall_impl; [exact Hok|]. by intros s []. }
  pose proof (read_and_merge_spec l st snap Hl Hfits (replicate (Z.to_nat size) Byte.x00)) as Hm.
  rewrite Hread, length_replicate in Hm. destruct Hm as [Hlen Hm]. split; [lia|]. intros x Hx.
  rewrite Hm by lia. rewrite chunk_byte_slice by (done || (eapply Forall_impl; [exact Hfits|]; by intros s (?&?&?))).
  destruct (visible snap x); [done|]. apply lookup_replicate_2. lia.
Qed.

Lemma inv_merge_read w c snap size data : layout_ok l -> inv w -> (c, snap) ∈ w_snaps w ->
  occupied_end l snap 0 = Some size ->
  read_and_merge_slices l (w_store w) snap (replicate (Z.to_nat size) Byte.x00) = Ok data ->
  inv (add_merge (c, snap, data) w).
Proof.
  intros Hl Hi Hs Hsize Hread. destruct (snap_good w c snap Hi Hs) as [Hg _].
  destruct (merged_data_exact _ _ _ _ Hl Hg Hsize Hread) as [Hlen Hdata].
  split; unfold dbw; cbn [w_sys add_merge w_flights w_doomed w_published w_store w_merges w_snaps]; try (apply Hi).
  - intros c' snap' data' [[= -> -> ->]|Hin]%elem_of_cons; [|by apply (iv_merge _ Hi)].
    split_and!; [done|by rewrite Hlen|]. intros _ x Hx. apply Hdata. lia.
  - intros id c' snap' data' Hfl. apply elem_of_cons. right. by apply (iv_merging _ Hi id).
  - intros id c' snap' data' Hfl. destruct (iv_merged _ Hi _ _ _ _ Hfl) as [? ?].
    split; [|done]. apply elem_of_cons. by right.
Qed.

(** *** Blocks *)

Lemma chunk_byte_frame (st st' : S) slices id x :
  (forall k y, k.1 <> id -> stored st' k y = stored st k y) ->
  (forall s, s ∈ slices -> slice_id s <> id) ->
  chunk_byte l st' slices x = chunk_byte l st slices x.
Proof.
  intros Hf Hn. unfold chunk_byte, source. destruct (visible slices x) as [s|] eqn:Hv; [|done]. cbn.
  apply visible_Some in Hv as [Hin _]. apply Hf. cbn. by apply Hn.
Qed.

Lemma slice_byte_frame (st st' : S) id id' y :
  (forall k y, k.1 <> id -> stored st' k y = stored st k y) -> id' <> id ->
  slice_byte l st' id' y = slice_byte l st id' y.
Proof. intros Hf Hne. by apply Hf. Qed.

(** Blocks of an id that is not in use may change, unless a flight relies on them. *)
Lemma inv_store w id st' : inv w -> ~ live (dbw w) id ->
  (forall k y, k.1 <> id -> stored st' k y = stored (w_store w) k y) ->
  (forall s data, w_flights w !! id <> Some (Written s data)) ->
  (forall c snap data, w_flights w !! id = Some (Merged c snap data) -> up w id = None) ->
  inv (set_store st' w) /\ forall content, shows w content -> shows (set_store st' w) content.
Proof.
  intros Hi Hn Hf Hw Hm.
  assert (forall c s, s ∈ slices_of (dbw w) c -> slice_id s <> id) as Hne.
  { intros c s Hs <-. apply Hn. by exists c, s. }
  split; [|intros content Hsh c x; cbn; rewrite (chunk_byte_frame (w_store w) st' _ id) by eauto; apply Hsh].
  split; unfold dbw; cbn [w_sys set_store w_flights w_doomed w_published w_store w_merges w_snaps]; try (apply Hi).
  - intros id' s data Hfl. destruct (iv_written _ Hi _ _ _ Hfl) as (?&?&?&?&Hb). split_and!; try done.
    intros i Hr. rewrite (slice_byte_frame (w_store w) st' id) by (done || (intros ->; by destruct (Hw s data))). auto.
  - intros c snap data Hin. destruct (iv_merge _ Hi _ _ _ Hin) as (?&?&Hd). split_and!; try done.
    intros Hcur x Hx. rewrite (chunk_byte_frame (w_store w) st' _ id); [auto|done|]. rewrite <-Hcur. apply Hne.
  - intros id' c snap data Hfl. destruct (iv_merged _ Hi _ _ _ _ Hfl) as [? Hb]. split; [done|].
    intros Hup i Hr. rewrite (slice_byte_frame (w_store w) st' id); [by apply Hb|done|]. intros ->.
    change (is_Some (up w id)) in Hup. rewrite (Hm _ _ _ Hfl) in Hup. by destruct Hup.
Qed.

Lemma flight_not_live w id f : inv w -> w_flights w !! id = Some f -> ~ live (dbw w) id.
Proof.
  intros Hi Hf (c&s&Hs&<-). apply (iv_live _ Hi) in Hs.
  destruct (iv_published _ Hi (slice_id s)) as (?&?&_); [done|congruence].
Qed.

(** The uploaded data of a flight. *)
Lemma inv_uploaded w id f f' : inv w -> w_flights w !! id = Some f -> by_writer f' = by_writer f ->
  (match f' with
   | Written s data => slice_id s = id /\ fits l s /\ slice_ok s /\ Z.of_nat (length data) = s_length s /\
       forall i, 0 <= i < s_length s -> slice_byte l (w_store w) id i = data !! Z.to_nat i
   | Merged c snap data => (c, snap, data) ∈ w_merges w /\
       forall i, 0 <= i < Z.of_nat (length data) -> slice_byte l (w_store w) id i = data !! Z.to_nat i
   | _ => False
   end) -> inv (set_flights <[id := f']> w).
Proof.
  intros Hi Hfl Hby Hf.
  assert (forall id' g, <[id := f']> (w_flights w) !! id' = Some g ->
    (id' = id /\ g = f') \/ (id' <> id /\ w_flights w !! id' = Some g)) as Hcase.
  { intros id' g. destruct (decide (id' = id)) as [->|].
    - rewrite lookup_insert_eq. intros [= <-]. auto.
    - rewrite lookup_insert_ne by done. auto. }
  split; unfold dbw; cbn [w_sys set_flights w_flights w_doomed w_published w_store w_merges w_snaps];
    try (apply Hi).
  - intros id' Hp. destruct (iv_published _ Hi id' Hp) as (?&?&?&?). split_and!; try done.
    rewrite lookup_insert_ne; [done|]. intros <-. congruence.
  - intros id' g [[-> ->]|[_ Hg]]%Hcase; [|by apply (iv_flight _ Hi)].
    destruct (iv_flight _ Hi _ _ Hfl) as (?&?&?). by rewrite Hby.
  - intros id' s data [[-> <-]|[_ Hg]]%Hcase; [done|]. by apply (iv_written _ Hi).
  - intros id' c snap data [[-> <-]|[_ Hg]]%Hcase; [done|]. by apply (iv_merging _ Hi id').
  - intros id' c snap data [[-> <-]|[_ Hg]]%Hcase; [naive_solver|]. by apply (iv_merged _ Hi).
Qed.

Lemma inv_drop_flight w id : inv w -> inv (set_flights (delete id) w).
Proof.
  intros Hi. assert (forall id' g, delete id (w_flights w) !! id' = Some g -> w_flights w !! id' = Some g) as Hcase.
  { intros id' g Hg. by apply lookup_delete_Some in Hg as [_ ?]. }
  split; unfold dbw; cbn [w_sys set_flights w_flights w_doomed w_published w_store w_merges w_snaps];
    try (apply Hi).
  - intros id' Hp. destruct (iv_published _ Hi id' Hp) as (?&?&?&?). split_and!; try done.
    apply lookup_delete_None. by right.
  - intros id' g Hg%Hcase. by apply (iv_flight _ Hi).
  - intros id' s data Hg%Hcase. by apply (iv_written _ Hi).
  - intros id' c snap data Hg%Hcase. by apply (iv_merging _ Hi id').
  - intros id' c snap data Hg%Hcase. by apply (iv_merged _ Hi).
Qed.

Lemma write_upload_inv w schedule id c start cs r st' : layout_ok l -> inv w ->
  w_flights w !! id = Some Writing -> (forall us, schedule us ≡ₚ us) ->
  0 <= start -> start + total_len cs <= chunk_size l ->
  write_at_vectored schedule l (w_store w) id 0 cs = Some (r, st') ->
  let w' := set_store st' (match r with
      | Ok _ => set_flights <[id := Written (mkSlice id c start (total_len cs)) (concat cs)]> w
      | Err _ => w end) in
  inv w' /\ forall content, shows w content -> shows w' content.
Proof.
  intros Hl Hi Hfl Hsch Hs Hfit Hw. pose proof Hl as [Hbs Hcs _ Hblk].
  assert (0 <= total_len cs) by (unfold total_len; lia).
  pose proof (write_at_stored schedule l (w_store w) id 0 cs Hsch Hl ltac:(lia) ltac:(lia)) as Hst.
  rewrite Hw in Hst. destruct Hst as [Hframe Hdata].
  destruct (inv_store w id st' Hi (flight_not_live _ _ _ Hi Hfl) Hframe) as [Hi' Hsh]; [congruence..|].
  destruct r as [[]|e]; [|done]. specialize (Hdata eq_refl). split; [|done].
  apply (inv_uploaded (set_store st' w) id Writing); [done|done|done|].
  destruct (iv_flight _ Hi _ _ Hfl) as (_&Hid&_). cbn [slice_id s_length s_offset w_store set_store].
  split_and!; [done|..].
  - unfold fits. cbn. lia.
  - split; cbn; unfold i64_modulus_half in Hid; u64_lia.
  - symmetry. apply total_len_concat.
  - apply Hdata.
Qed.

Lemma merge_upload_inv w id c snap data r st' : layout_ok l -> inv w ->
  w_flights w !! id = Some (Merging c snap data) -> write_merged_data l (w_store w) id data = (r, st') ->
  let w' := set_store st' (match r with
      | Ok _ => set_flights <[id := Merged c snap data]> w | Err _ => w end) in
  inv w' /\ forall content, shows w content -> shows w' content.
Proof.
  intros Hl Hi Hfl Hw. pose proof (iv_merging _ Hi _ _ _ _ Hfl) as Hm.
  destruct (iv_merge _ Hi _ _ _ Hm) as (Hsn&Hocc&_). destruct (snap_good w c snap Hi Hsn) as [Hg _].
  destruct (occupied_end_spec l snap 0 (Z.of_nat (length data))) as (_&_&_&Hle); [|done|].
  { eapply Forall_impl; [exact Hg|]. by intros s []. }
  pose proof Hl as [Hbs Hcs _ _].
  destruct (write_merged_spec l (w_store w) id data r st' Hl ltac:(lia) Hw) as [Hframe Hdata].
  destruct (inv_store w id st' Hi (flight_not_live _ _ _ Hi Hfl) Hframe) as [Hi' Hsh]; [congruence..|].
  destruct r as [[]|e]; [|done]. split; [|done].
  apply (inv_uploaded (set_store st' w) id (Merging c snap data)); try done. split; [done|]. by apply Hdata.
Qed.

Lemma abandon_inv w id f size r st' : inv w -> w_flights w !! id = Some f ->
  cleanup_uncommitted_slice l (w_store w) id size = (r, st') ->
  let w' := set_store st' (set_flights (delete id) w) in
  inv w' /\ forall content, shows w content -> shows w' content.
Proof.
  intros Hi Hfl Hc. pose proof (flight_not_live _ _ _ Hi Hfl) as Hn.
  assert (forall k y, k.1 <> id -> stored st' k y = stored (w_store w) k y) as Hf.
  { unfold cleanup_uncommitted_slice in Hc. destruct (0 <? _); [|by injection Hc as _ <-].
    by eapply delete_range_frame. }
  apply (inv_store (set_flights (delete id) w) id st'); [by apply inv_drop_flight|done|done|..];
    cbn; rewrite lookup_delete_eq; done.
Qed.

Lemma delete_inv w id size bs r st' : inv w -> id ∈ w_doomed w ->
  delete_slice_blocks (w_store w) id size bs = (r, st') ->
  inv (set_store st' w) /\ forall content, shows w content -> shows (set_store st' w) content.
Proof.
  intros Hi Hd Hdel. destruct (iv_doomed _ Hi id Hd) as [_ Hn].
  apply (inv_store w id st'); [done|done|..].
  - unfold delete_slice_blocks in Hdel. destruct (size =? 0); [by injection Hdel as _ <-|].
    destruct (_ =? 0); [by injection Hdel as _ <-|]. by eapply delete_range_frame.
  - intros s data Hfl. destruct (iv_flight _ Hi _ _ Hfl) as (_&_&Hw). by destruct (Hw eq_refl) as (_&_&?).
  - intros c snap data Hfl. destruct (up w id) as [r'|] eqn:E; [|done].
    by destruct (iv_pending _ Hi id r' E) as (_&_&?&_).
Qed.

(** *** Reservations *)

Lemma inv_reserve w s' id r c snap data : inv w -> w_flights w !! id = Some (Merging c snap data) ->
  id ∉ w_doomed w -> un_slice_id r = id ->
  chunks (sys_db s') = chunks (dbw w) -> delayed_pending (sys_db s') = delayed_pending (dbw w) ->
  delayed_meta_deleted (sys_db s') = delayed_meta_deleted (dbw w) ->
  uncommitted_pending (sys_db s') = <[id := r]> (uncommitted_pending (dbw w)) ->
  uncommitted_orphan (sys_db s') = delete id (uncommitted_orphan (dbw w)) ->
  slice_lease_ok s' -> (forall i, slice_free s' i -> slice_free (w_sys w) i) ->
  inv (set_sys s' w).
Proof.
  intros Hi Hfl Hdm Hid Hc Hdp Hdmd Hup Huo Hl Hf.
  assert (forall c, slices_of (sys_db s') c = slices_of (dbw w) c) as Hs by (intros; unfold slices_of; by rewrite Hc).
  split; unfold dbw; cbn [w_sys set_sys w_flights w_doomed w_published w_store w_merges w_snaps];
    rewrite ?Hup, ?Huo; try done; try (apply Hi).
  - intros id' Hp. destruct (iv_published _ Hi id' Hp) as (?&?&?&?).
    assert (id' <> id) by congruence. rewrite lookup_insert_ne, lookup_delete_ne by done. split_and!; auto.
  - intros id' f Hg. destruct (iv_flight _ Hi id' f Hg) as (?&?&Hw). split_and!; [auto|lia|lia|].
    intros Hb. assert (id' <> id) by (intros ->; rewrite Hfl in Hg; by injection Hg as <-).
    rewrite lookup_insert_ne, lookup_delete_ne by done. auto.
  - intros id' r' Hr. destruct (decide (id' = id)) as [->|Hne].
    + rewrite lookup_insert_eq in Hr. injection Hr as <-. rewrite lookup_delete_eq.
      destruct (iv_flight _ Hi _ _ Hfl) as (?&_). split_and!; auto.
    + rewrite lookup_insert_ne in Hr by done. rewrite lookup_delete_ne by done.
      destruct (iv_pending _ Hi id' r' Hr) as (?&?&?&?). split_and!; auto.
  - intros id' r' [_ Hr]%lookup_delete_Some. destruct (iv_orphan _ Hi id' r' Hr). auto.
  - intros id'. unfold delayed_id. rewrite Hdp, Hdmd, (live_ext _ _ _ Hs). apply (iv_delayed _ Hi).
  - intros id' Hin. rewrite (live_ext _ _ _ Hs). destruct (iv_doomed _ Hi id' Hin). auto.
  - intros c' s. rewrite Hs. apply (iv_live _ Hi).
  - intros c' sn. rewrite Hs. apply (iv_snap _ Hi).
  - intros c' sn dt. rewrite Hs. apply (iv_merge _ Hi).
  - intros id' c' sn dt Hg. destruct (iv_merged _ Hi _ _ _ _ Hg) as [? Hb]. split; [done|].
    assert (id' <> id) by congruence. rewrite lookup_insert_ne by done. done.
Qed.

Lemma slice_counter_same s s' : counters (sys_db s') !! SLICE_ID_KEY = counters (sys_db s) !! SLICE_ID_KEY ->
  sys_leases s' = sys_leases s -> slice_lease_ok s ->
  slice_lease_ok s' /\ forall i, slice_free s' i <-> slice_free s i.
Proof.
  intros Hc Hl Hok.
  assert (counter_of SLICE_ID_KEY 1 (counters (sys_db s')) = counter_of SLICE_ID_KEY 1 (counters (sys_db s))) as E
    by (unfold counter_of; by rewrite Hc).
  rewrite Hl. split.
  - destruct Hok as [? ? ?]. by split; rewrite ?E.
  - intros i. unfold free_id. by rewrite E.
Qed.

Lemma reserve_inv w client now op c snap data id i s1 s' : inv w -> (c, snap, data) ∈ w_merges w ->
  next_slice_id client (w_sys w) = (Ok id, s1) ->
  commits (record_uncommitted_slice now id c (Z.of_nat (length data)) op) i s1 s' ->
  let w' := set_flights <[id := Merging c snap data]> (set_sys s' w) in
  inv w' /\ forall content, shows w content -> shows w' content.
Proof.
  intros Hi Hm Hn (t&Ht&->). destruct (alloc_inv w client id s1 Hi Hn) as (Hi1&[Hpub Hfl Hup Huo Hdm]&Hfr&Hb&Hsh).
  unfold dbw in *. cbn [w_sys set_sys w_published w_flights w_doomed] in *.
  revert Ht. unfold record_uncommitted_slice. rewrite bind_read. cbn [view begin]. rewrite Hup.
  rewrite bind_read. cbn [view begin]. rewrite Huo. intros H. txn_inv.
  assert (inv (set_flights <[id := Merging c snap data]> (set_sys s1 w))) as Hi2 by (by apply inv_new_flight).
  set (s' := commit _). destruct (slice_counter_same s1 s') as [Hl' Hf']; [|done|apply (iv_lease _ Hi1)|].
  { cbn. by rewrite lookup_insert_ne. }
  split.
  - change (inv (set_sys s' (set_flights <[id := Merging c snap data]> (set_sys s1 w)))).
    apply (inv_reserve (set_flights <[id := Merging c snap data]> (set_sys s1 w)) s' id
      (mkUncommitted i id c (Z.of_nat (length data)) now op UncommittedPending) c snap data); try done.
    + apply lookup_insert_eq.
    + intros j. apply Hf'.
  - intros content Hc. apply Hsh in Hc. exact Hc.
Qed.

(** *** Publications *)

Section publication.
Context (w : W) (s' : Sys) (id c : Z) (f : Flight) (s : SliceDesc) (cur' : list SliceDesc).
Context (Hi : inv w) (Hfl : w_flights w !! id = Some f) (Hdm : id ∉ w_doomed w).
Context (Hid : slice_id s = id) (Hgood : fits l s /\ slice_ok s).
Context (Hl : slice_lease_ok s') (Hf : forall i, slice_free s' i -> slice_free (w_sys w) i).
Context (Hsl : forall c', slices_of (sys_db s') c' = if decide (c' = c) then cur' else slices_of (dbw w) c').
Context (Hcur : forall a, a ∈ cur' -> a = s \/ a ∈ slices_of (dbw w) c) (Hin : s ∈ cur').
Context (Hdel : forall i, delayed_id (sys_db s') i -> delayed_id (dbw w) i \/
  ((i ∉ slice_id <$> cur') /\ exists a, a ∈ slices_of (dbw w) c /\ slice_id a = i)).
Context (Hup : forall i r, uncommitted_pending (sys_db s') !! i = Some r -> up w i = Some r /\ i <> id).
Context (Huo : forall i r, uncommitted_orphan (sys_db s') !! i = Some r -> uo w i = Some r /\ i <> id).
Context (Hsnap : forall snap, (c, snap) ∈ w_snaps w -> droppable (light_plan snap) cur' /\ moved_on snap cur').
#[local] Set Default Proof Using "All".

Lemma not_yet_published : w_published w !! id = None.
Proof.
  destruct (w_published w !! id) eqn:E; [|done]. destruct (iv_published _ Hi id) as (_&?&_); [done|congruence].
Qed.

Lemma live_after i : live (sys_db s') i -> i = id \/ (live (dbw w) i /\ i <> id).
Proof.
  intros (c'&a&Ha&<-). rewrite Hsl in Ha. destruct (decide (slice_id a = id)) as [|Hne]; [by left|right].
  split; [|done]. case_decide as Hc; [|by exists c', a]. destruct (Hcur a Ha) as [->|?]; [done|]. by exists c, a.
Qed.

Lemma inv_publish : inv (publish c s (set_sys s' w)).
Proof.
  pose proof not_yet_published as Hnp. destruct (iv_flight _ Hi _ _ Hfl) as (Hnf&_&_).
  assert (forall i, up w i = None -> uncommitted_pending (sys_db s') !! i = None) as HupN.
  { intros i Hn. destruct (uncommitted_pending (sys_db s') !! i) eqn:E; [|done]. apply Hup in E as [? _]. congruence. }
  assert (forall i, uo w i = None -> uncommitted_orphan (sys_db s') !! i = None) as HuoN.
  { intros i Hn. destruct (uncommitted_orphan (sys_db s') !! i) eqn:E; [|done]. apply Huo in E as [? _]. congruence. }
  assert (forall i g, delete id (w_flights w) !! i = Some g -> w_flights w !! i = Some g) as Hcase.
  { intros i g Hg. by apply lookup_delete_Some in Hg as [_ ?]. }
  split; unfold dbw; cbn [w_sys publish set_sys w_flights w_doomed w_published w_store w_merges w_snaps]; rewrite ?Hid.
  - done.
  - intros i Hp. destruct (decide (i = id)) as [->|Hne].
    + rewrite lookup_delete_eq. split_and!; [auto|done|..].
      * destruct (uncommitted_pending (sys_db s') !! id) eqn:E; [|done]. by apply Hup in E as [_ ?].
      * destruct (uncommitted_orphan (sys_db s') !! id) eqn:E; [|done]. by apply Huo in E as [_ ?].
    + rewrite lookup_insert_ne in Hp by done. rewrite lookup_delete_ne by done.
      destruct (iv_published _ Hi i Hp) as (?&?&?&?). split_and!; auto.
  - intros i g Hg%Hcase. destruct (iv_flight _ Hi i g Hg) as (?&?&Hw). split_and!; [auto|lia|lia|].
    intros Hb. destruct (Hw Hb) as (?&?&?). auto.
  - intros i r [Hr _]%Hup. destruct (iv_pending _ Hi i r Hr) as (?&?&?&?). split_and!; auto.
  - intros i r [Hr _]%Huo. destruct (iv_orphan _ Hi i r Hr). auto.
  - intros i Hdl. destruct (Hdel i Hdl) as [[Hp Hn]%(iv_delayed _ Hi)|[Hn (a&Ha&<-)]].
    + assert (i <> id) by (intros ->; rewrite Hnp in Hp; by destruct Hp). rewrite lookup_insert_ne by done.
      split; [done|]. by intros [|[? _]]%live_after.
    + pose proof (iv_live _ Hi _ _ Ha) as Hpa. assert (slice_id a <> id) by congruence.
      rewrite lookup_insert_ne by done. split; [done|]. intros (c'&b&Hb&Hab). rewrite Hsl in Hb.
      case_decide as Hc; [apply Hn; rewrite <-Hab; by apply list_elem_of_fmap_2|].
      apply (iv_live _ Hi) in Hb. rewrite Hab in Hb. congruence.
  - intros i Hd. destruct (iv_doomed _ Hi i Hd). split; [auto|]. intros [->|[? _]]%live_after; done.
  - intros c' a Ha. rewrite Hsl in Ha.
    assert (a = s /\ c' = c \/ a ∈ slices_of (dbw w) c') as [[-> ->]|Ha'].
    { case_decide as Hc; [subst|by right]. destruct (Hcur a Ha); auto. }
    + rewrite Hid. apply lookup_insert_eq.
    + apply (iv_live _ Hi) in Ha'. by rewrite lookup_insert_ne by congruence.
  - intros i c' a. destruct (decide (i = id)) as [->|Hne].
    + rewrite lookup_insert_eq. intros [= <- <-]. by destruct Hgood.
    + rewrite lookup_insert_ne by done. apply (iv_good _ Hi).
  - intros c' snap Hs. destruct (iv_snap _ Hi _ _ Hs) as (Hp&Hd&Hm). rewrite Hsl. split.
    + intros a Ha. specialize (Hp a Ha). by rewrite lookup_insert_ne by congruence.
    + case_decide as Hc; [subst; by apply Hsnap|done].
  - intros i a data Hg%Hcase. by apply (iv_written _ Hi).
  - intros c' snap data Hm. destruct (iv_merge _ Hi _ _ _ Hm) as (Hs&?&Hd). split_and!; [done..|]. rewrite Hsl.
    case_decide as Hc; [|done]. intros <-. exfalso. destruct (iv_snap _ Hi _ _ Hs) as (Hp&_).
    specialize (Hp s Hin). congruence.
  - intros i c' snap data Hg%Hcase. by apply (iv_merging _ Hi i).
  - intros i c' snap data Hg%Hcase. destruct (iv_merged _ Hi _ _ _ _ Hg) as [? Hb]. split; [done|].
    intros [r Hr]. apply Hup in Hr as [Hr _]. apply Hb. by exists r.
Qed.
End publication.

(** What both publishing transactions do to the rows. *)
Record appended (c : Z) (s : SliceDesc) (s0 s1 : Sys) : Prop := {
  ap_slices c' : slices_of (sys_db s1) c' =
    if decide (c' = c) then slices_of (sys_db s0) c ++ [s] else slices_of (sys_db s0) c';
  ap_dp : delayed_pending (sys_db s1) = delayed_pending (sys_db s0);
  ap_dm : delayed_meta_deleted (sys_db s1) = delayed_meta_deleted (sys_db s0);
  ap_up : uncommitted_pending (sys_db s1) = uncommitted_pending (sys_db s0);
  ap_uo : uncommitted_orphan (sys_db s1) = uncommitted_orphan (sys_db s0);
  ap_counters : counters (sys_db s1) = counters (sys_db s0);
  ap_leases : sys_leases s1 = sys_leases s0
}.

Lemma append_effect c s s0 s1 : commits (append_slice c s) tt s0 s1 -> appended c s s0 s1.
Proof.
  intros (t&Ht&->). injection Ht as <-. split; try done. intros c'. apply (slices_of_put (sys_db s0)).
Qed.

Lemma write_effect now ino c s size s0 s1 : commits (write now ino c s size) tt s0 s1 -> appended c s s0 s1.
Proof.
  intros (t&Ht&->). revert Ht. unfold write, txn_get_slices, txn_put_slices_or_delete; txn_rows. intros H.
  txn_inv. case_match; txn_inv; (split; try done; intros c'; apply (slices_of_put (sys_db s0))).
Qed.

(** The content after a step. *)
Definition apply_event (e : Event) (content : Z -> Z -> byte) (c x : Z) : byte :=
  match e with
  | Quiet => content c x
  | Wrote c' start data =>
      if decide (c = c' /\ start <= x < start + Z.of_nat (length data))
      then default Byte.x00 (data !! Z.to_nat (x - start)) else content c x
  end.

Lemma append_inv w id s data s' : layout_ok l -> inv w -> w_flights w !! id = Some (Written s data) ->
  appended (chunk_id s) s (w_sys w) s' ->
  let w' := publish (chunk_id s) s (set_sys s' w) in
  inv w' /\ forall content, shows w content ->
    shows w' (apply_event (Wrote (chunk_id s) (s_offset s) data) content).
Proof.
  intros Hl Hi Hfl [Hs Hdp Hdm Hup Huo Hc Hle].
  destruct (iv_written _ Hi _ _ _ Hfl) as (Hid&Hfit&Hok&Hlen&Hbytes).
  destruct (iv_flight _ Hi _ _ Hfl) as (Hnf&_&Hw). destruct (Hw eq_refl) as (Hupn&Huon&Hdmn).
  destruct (slice_counter_same (w_sys w) s') as [Hl' Hf']; [by rewrite Hc|done|apply (iv_lease _ Hi)|].
  assert (forall c a, w_published w !! slice_id a = Some (c, a) -> slice_id a <> id) as Hnew.
  { intros c a Ha E. destruct (iv_published _ Hi (slice_id a)) as (_&?&_); [done|congruence]. }
  split.
  - apply (inv_publish w s' id (chunk_id s) (Written s data) s (slices_of (dbw w) (chunk_id s) ++ [s])); try done.
    + intros j. apply Hf'.
    + set_solver.
    + set_solver.
    + intros j. unfold delayed_id. rewrite Hdp, Hdm. by left.
    + intros j r. rewrite Hup. intros Hr. split; [done|]. intros ->. change (up w id = Some r) in Hr. congruence.
    + intros j r. rewrite Huo. intros Hr. split; [done|]. intros ->. change (uo w id = Some r) in Hr. congruence.
    + intros snap Hsn. destruct (iv_snap _ Hi _ _ Hsn) as (Hp&Hd&Hm).
      assert (slice_id s ∉ slice_id <$> snap) as Hni.
      { intros (a&Ha&Hin)%list_elem_of_fmap. apply (Hnew _ a (Hp a Hin)). congruence. }
      split; [|by apply moved_on_snoc]. apply droppable_snoc; [|done].
      unfold light_plan. rewrite find_replaced_elem. tauto.
  - intros content Hsh c x. change (dbw (publish (chunk_id s) s (set_sys s' w))) with (sys_db s'). cbn [w_store publish set_sys].
    rewrite Hs. change (sys_db (w_sys w)) with (dbw w). destruct Hfit as (?&?&?). cbn [apply_event]. rewrite Hlen. case_decide as E.
    + subst c. assert (s = mkSlice id (chunk_id s) (s_offset s) (s_length s)) as Es by (subst id; by destruct s).
      pose proof (chunk_byte_published l (w_store w) (w_store w) (slices_of (dbw w) (chunk_id s)) id
                    (chunk_id s) (s_offset s) (s_length s) data x Hl) as Hpub. rewrite <-Es in Hpub.
      rewrite Hpub; try done; [|lia|].
      * case_decide as E'; [rewrite decide_True by lia|rewrite decide_False by lia; apply Hsh].
        destruct (lookup_lt_is_Some_2 data (Z.to_nat (x - s_offset s))) as [b Hb]; [lia|]. by rewrite Hb.
      * intros (a&Ha&Hin)%list_elem_of_fmap. apply (iv_live _ Hi) in Hin. by apply Hnew in Hin.
    + rewrite decide_False by naive_solver. apply Hsh.
Qed.

(** *** Light compaction *)

Lemma retain_ext ids ids' cur : (forall i, i ∈ ids <-> i ∈ ids') ->
  retain_other_ids ids cur = retain_other_ids ids' cur.
Proof. intros H. unfold retain_other_ids. apply list_filter_iff. intros s. by rewrite H. Qed.

Lemma chunk_byte_visible (st : S) sl sl' x : visible sl x = visible sl' x -> chunk_byte l st sl x = chunk_byte l st sl' x.
Proof. intros H. unfold chunk_byte, source. by rewrite H. Qed.

(** The ids staged for a set of slices of the snapshot. *)
Lemma staged_ids (snap : list SliceDesc) (ids : list Z) : (fun e : Z * Z * Z => e.1.1) <$> (delayed_entry <$> filter (fun s => slice_id s ∈ ids) snap)
  = slice_id <$> filter (fun s => slice_id s ∈ ids) snap.
Proof. rewrite <-list_fmap_compose. by apply list_fmap_ext. Qed.

Lemma light_plan_ids (snap : list SliceDesc) i :
  i ∈ slice_id <$> filter (fun s => slice_id s ∈ light_plan snap) snap <-> i ∈ light_plan snap.
Proof.
  rewrite list_elem_of_fmap. setoid_rewrite list_elem_of_filter. unfold light_plan.
  setoid_rewrite find_replaced_elem. setoid_rewrite list_elem_of_fmap. naive_solver.
Qed.

Section drop.
Context (w : W) (s' : Sys) (c : Z) (ids : list Z).
Context (Hi : inv w) (Hdr : droppable ids (slices_of (dbw w) c)).
Context (Hids : forall i, i ∈ ids -> exists a, w_published w !! i = Some (c, a)).
Context (Hl : slice_lease_ok s') (Hf : forall i, slice_free s' i -> slice_free (w_sys w) i).
Context (Hsl : forall c', slices_of (sys_db s') c' =
  if decide (c' = c) then retain_other_ids ids (slices_of (dbw w) c) else slices_of (dbw w) c').
Context (Hdel : forall i, delayed_id (sys_db s') i -> delayed_id (dbw w) i \/ i ∈ ids).
Context (Hup : uncommitted_pending (sys_db s') = uncommitted_pending (dbw w)).
Context (Huo : uncommitted_orphan (sys_db s') = uncommitted_orphan (dbw w)).
#[local] Set Default Proof Using "All".

Lemma drop_sub c' a : a ∈ slices_of (sys_db s') c' -> a ∈ slices_of (dbw w) c' /\ (c' = c -> slice_id a ∉ ids).
Proof. rewrite Hsl. case_decide; [subst|done]. by intros [? ?]%list_elem_of_filter. Qed.

Lemma inv_drop : inv (set_sys s' w) /\ forall content, shows w content -> shows (set_sys s' w) content.
Proof.
  assert (forall i, live (sys_db s') i -> live (dbw w) i) as Hlive.
  { intros i (c'&a&[Ha _]%drop_sub&<-). by exists c', a. }
  split; [|intros content Hsh c' x; change (dbw (set_sys s' w)) with (sys_db s'); cbn [w_store set_sys];
    rewrite Hsl; case_decide; [subst; rewrite <-Hsh; by apply chunk_byte_visible, visible_retain|apply Hsh]].
  split; unfold dbw; cbn [w_sys set_sys w_flights w_doomed w_published w_store w_merges w_snaps];
    rewrite ?Hup, ?Huo; try done; try (apply Hi).
  - intros i Hp. destruct (iv_published _ Hi i Hp) as (?&?&?&?). split_and!; auto.
  - intros i f Hg. destruct (iv_flight _ Hi i f Hg) as (?&?&?). split_and!; [auto|lia|lia|done].
  - intros i r Hr. destruct (iv_pending _ Hi i r Hr) as (?&?&?&?). split_and!; auto.
  - intros i r Hr. destruct (iv_orphan _ Hi i r Hr). auto.
  - intros i Hd. destruct (Hdel i Hd) as [[? Hn]%(iv_delayed _ Hi)|Hin]; [auto|].
    destruct (Hids i Hin) as [a Ha]. split; [done|]. intros (c'&b&[Hb Hni]%drop_sub&<-).
    apply (iv_live _ Hi) in Hb. apply Hni; [congruence|done].
  - intros i Hd. destruct (iv_doomed _ Hi i Hd). auto.
  - intros c' a [Ha _]%drop_sub. by apply (iv_live _ Hi).
  - intros c' snap Hs. destruct (iv_snap _ Hi _ _ Hs) as (?&?&?). split; [done|]. rewrite Hsl.
    case_decide; [subst|done]. split; [by apply droppable_retain|by apply moved_on_retain].
  - intros c' snap data Hm. destruct (iv_merge _ Hi _ _ _ Hm) as (Hs&?&Hd). split_and!; [done..|].
    rewrite Hsl. case_decide; [subst c'|done]. intros Hr. apply Hd.
    destruct (iv_snap _ Hi _ _ Hs) as (_&_&?). by eapply moved_on_back.
Qed.
End drop.

Lemma light_inv w now c snap s' : inv w -> (c, snap) ∈ w_snaps w ->
  commits (replace_slices_for_compact now c [] (encode_delayed_data snap (light_plan snap))) tt (w_sys w) s' ->
  inv (set_sys s' w) /\ forall content, shows w content -> shows (set_sys s' w) content.
Proof.
  intros Hi Hsn (t&Ht&->). destruct (snap_good w c snap Hi Hsn) as [Hg _].
  destruct (iv_snap _ Hi _ _ Hsn) as (Hp&Hd&_).
  apply (replace_run now c [] _ _ _ _ _ _ _ (decode_encode_delayed snap (light_plan snap) Hg)) in Ht as (d1&Et&Hst&Hd1).
  set (ids := (fun e : Z * Z * Z => e.1.1) <$> (delayed_entry <$> filter (fun s => slice_id s ∈ light_plan snap) snap)) in *.
  assert (forall i, i ∈ ids <-> i ∈ light_plan snap) as Hids by (intros i; unfold ids; rewrite staged_ids; apply light_plan_ids).
  rewrite app_nil_r in Hd1. change (sys_db (w_sys w)) with (dbw w) in *.
  set (s' := commit t). destruct (slice_counter_same (w_sys w) s') as [Hl' Hf'].
  { cbn. rewrite (sg_counters _ _ _ _ _ Hst) by done. by rewrite Hd1. }
  { cbn. by rewrite Et. }
  { apply (iv_lease _ Hi). }
  apply (inv_drop w s' c ids); try done.
  - intros l1 a l2 Hcur Hin. apply (Hd l1 a l2 Hcur). by apply Hids.
  - intros i Hin. unfold ids in Hin. rewrite staged_ids in Hin.
    apply list_elem_of_fmap in Hin as (a&->&[_ Ha]%list_elem_of_filter). exists a. by apply Hp.
  - intros j. apply Hf'.
  - intros c'. unfold slices_of. cbn [sys_db s' commit]. rewrite (sg_chunks _ _ _ _ _ Hst), Hd1. apply slices_of_put.
  - intros i (j&r&Hor&<-). cbn [sys_db s' commit] in Hor. destruct Hor as [Hr|Hr].
    + destruct (sg_new _ _ _ _ _ Hst j r Hr) as [Hr'|(id&off&size&Hin&->)].
      * left. exists j, r. rewrite Hd1 in Hr'. by split; [left|].
      * right. cbn. unfold ids. apply list_elem_of_fmap. by exists (id, off, size).
    + left. rewrite (sg_meta_deleted _ _ _ _ _ Hst), Hd1 in Hr. exists j, r. by split; [right|].
  - cbn. by rewrite (sg_pending_un _ _ _ _ _ Hst), Hd1.
  - cbn. by rewrite (sg_orphan_un _ _ _ _ _ Hst), Hd1.
Qed.

(** *** Heavy compaction *)

Lemma merged_chunk_byte (st : S) snap id c data x : layout_ok l -> Forall slice_ok snap ->
  occupied_end l snap 0 = Some (Z.of_nat (length data)) ->
  (forall i, 0 <= i < Z.of_nat (length data) -> slice_byte l st id i = data !! Z.to_nat i) ->
  (forall i, 0 <= i < Z.of_nat (length data) -> data !! Z.to_nat i = chunk_byte l st snap i) ->
  chunk_byte l st [merged_slice id c (Z.of_nat (length data))] x = chunk_byte l st snap x.
Proof.
  intros Hl Hok Hocc Hst Hdata.
  destruct (occupied_end_spec l snap 0 (Z.of_nat (length data))) as (Hfits&Hends&_&Hle); [|done|].
  { eapply Forall_impl; [exact Hok|]. by intros s []. }
  pose proof Hl as [Hbs Hcs _ _].
  rewrite (chunk_byte_slice l st [_]); [|done|]; last first.
  { repeat constructor; cbn; lia. }
  cbn [visible]. unfold slice_covers. cbn [s_offset s_length merged_slice].
  destruct (decide (0 <= x < Z.of_nat (length data))) as [Hx|Hx].
  - replace (_ && _) with true by lia. cbn [slice_id merged_slice s_offset]. rewrite Z.sub_0_r, Hst by done. by apply Hdata.
  - replace (_ && _) with false by lia. unfold chunk_byte, source.
    destruct (visible snap x) as [s|] eqn:Hv; [|done]. apply visible_Some in Hv as [Hin Hcov].
    rewrite slice_covers_spec in Hcov. rewrite !Forall_forall in Hfits, Hends.
    specialize (Hfits s Hin). specialize (Hends s Hin). destruct Hfits as (?&?&?). lia.
Qed.

Lemma heavy_inv w now id c snap data s' : layout_ok l -> inv w ->
  w_flights w !! id = Some (Merged c snap data) ->
  commits (replace_slices_for_compact_with_version now c [merged_slice id c (Z.of_nat (length data))]
             (encode_delayed_data snap (slice_id <$> snap)) snap) tt (w_sys w) s' ->
  let w' := publish c (merged_slice id c (Z.of_nat (length data))) (set_sys s' w) in
  inv w' /\ forall content, shows w content -> shows w' content.
Proof.
  intros Hl Hi Hfl (t&Ht&->). set (M := merged_slice id c (Z.of_nat (length data))).
  destruct (iv_merged _ Hi _ _ _ _ Hfl) as [Hm Hbytes]. destruct (iv_merge _ Hi _ _ _ Hm) as (Hsn&Hocc&Hdata).
  destruct (snap_good w c snap Hi Hsn) as [Hg _].
  destruct (replace_version_run now c [M] _ _ _ _ _ _ _ _ (decode_encode_delayed snap (slice_id <$> snap) Hg) Ht)
    as (Hcur&Hres&d1&Et&Hst&Hd1). change (sys_db (w_sys w)) with (dbw w) in *.
  rewrite Forall_singleton in Hres. change (slice_id M) with id in Hres. change (slice_id <$> [M]) with [id] in Hd1.
  destruct (up w id) as [r|] eqn:Hr; [|done]. destruct (iv_pending _ Hi _ _ Hr) as (_&_&Hdoom&_).
  destruct (iv_flight _ Hi _ _ Hfl) as (_&Hid&_).
  destruct (occupied_end_spec l snap 0 (Z.of_nat (length data))) as (_&_&_&Hle); [|done|].
  { eapply Forall_impl; [exact Hg|]. by intros s []. }
  pose proof Hl as [Hbs Hcs _ _].
  assert (forall c a, w_published w !! slice_id a = Some (c, a) -> slice_id a <> id) as Hnew.
  { intros c' a Ha E. destruct (iv_published _ Hi (slice_id a)) as (_&?&_); [done|congruence]. }
  set (s' := commit t). destruct (slice_counter_same (w_sys w) s') as [Hl' Hf'].
  { cbn. rewrite (sg_counters _ _ _ _ _ Hst) by done. by rewrite Hd1. }
  { cbn. by rewrite Et. }
  { apply (iv_lease _ Hi). }
  assert (forall c', slices_of (sys_db s') c' = if decide (c' = c) then [M] else slices_of (dbw w) c') as Hsl.
  { intros c'. unfold slices_of. cbn [sys_db s' commit]. rewrite (sg_chunks _ _ _ _ _ Hst), Hd1.
    apply (slices_of_put (dbw w) c [M]). }
  split.
  - apply (inv_publish w s' id c (Merged c snap data) M [M]); try done.
    + split; [unfold fits; cbn; lia|]. split; cbn; unfold i64_modulus_half in Hid; u64_lia.
    + intros j. apply Hf'.
    + set_solver.
    + set_solver.
    + intros i (j&q&Hor&<-). cbn [sys_db s' commit] in Hor. destruct Hor as [Hq|Hq].
      * destruct (sg_new _ _ _ _ _ Hst j q Hq) as [Hq'|(id'&off&size&Hin&->)].
        { left. exists j, q. rewrite Hd1 in Hq'. by split; [left|]. }
        right. cbn [dl_slice_id]. apply list_elem_of_fmap in Hin as (a&[= -> -> ->]&[_ Ha]%list_elem_of_filter).
        rewrite Hcur. split; [|eauto]. cbn. destruct (iv_snap _ Hi _ _ Hsn) as (Hp&_).
        rewrite list_elem_of_singleton. by apply (Hnew c), Hp.
      * left. rewrite (sg_meta_deleted _ _ _ _ _ Hst), Hd1 in Hq. exists j, q. by split; [right|].
    + intros i q. cbn [sys_db s' commit]. rewrite (sg_pending_un _ _ _ _ _ Hst), Hd1. cbn.
      by intros [? ?]%lookup_delete_Some.
    + intros i q. cbn [sys_db s' commit]. rewrite (sg_orphan_un _ _ _ _ _ Hst), Hd1. cbn.
      by intros [? ?]%lookup_delete_Some.
    + intros snap' Hsn'. destruct (iv_snap _ Hi _ _ Hsn') as (Hp&_).
      assert (slice_id M ∉ slice_id <$> snap') as Hni.
      { intros (a&Ha&Hin)%list_elem_of_fmap. apply (Hnew _ a (Hp a Hin)). by rewrite <-Ha. }
      split; [|by apply moved_on_one]. apply droppable_none. intros a ->%list_elem_of_singleton.
      unfold light_plan. rewrite find_replaced_elem. tauto.
  - intros content Hsh c' x. change (dbw (publish c M (set_sys s' w))) with (sys_db s'). cbn [w_store publish set_sys].
    rewrite Hsl. case_decide as E; [|apply Hsh]. subst c'. rewrite <-Hsh, Hcur.
    apply (merged_chunk_byte (w_store w) snap id c data x); (done || auto).
Qed.

(** ** Refinement *)

Lemma step_keeps w e w' : layout_ok l -> inv w -> step w e w' ->
  inv w' /\ forall content, shows w content -> shows w' (apply_event e content).
Proof.
  intros Hl Hi Hs. destruct Hs.
  - destruct (alloc_inv w _ _ _ Hi H) as (Hi1&[]&?&?&?). split; [|done]. by apply inv_new_flight.
  - by eapply write_upload_inv.
  - eapply append_inv; [done..|by apply append_effect].
  - eapply append_inv; [done..|by eapply write_effect].
  - split; [by apply inv_snapshot|done].
  - by eapply light_inv.
  - split; [by eapply inv_merge_read|done].
  - by eapply reserve_inv.
  - by eapply merge_upload_inv.
  - by eapply heavy_inv.
  - by eapply abandon_inv.
  - pose proof (process_quiet w _ _ _ _ Hi H) as Hq. split; [by eapply inv_quiet|]. intros content. by apply shows_quiet.
  - pose proof (process_again_quiet w _ _ Hi H) as Hq. split; [by eapply inv_quiet|]. intros content. by apply shows_quiet.
  - pose proof (cleanup_quiet w _ _ _ _ Hi H) as Hq. split; [by eapply inv_quiet|]. intros content. by apply shows_quiet.
  - pose proof (cleanup_again_quiet w _ _ Hi H) as Hq. split; [by eapply inv_quiet|]. intros content. by apply shows_quiet.
  - by eapply delete_inv.
  - pose proof (confirm_quiet w _ _ Hi H) as Hq. split; [by eapply inv_quiet|]. intros content. by apply shows_quiet.
  - pose proof (forget_quiet w _ _ Hi H) as Hq. split; [by eapply inv_quiet|]. intros content. by apply shows_quiet.
  - assert (quiet_change w (set_sys s' w)) as Hq.
    { rewrite <-doom_nothing. apply quiet_rows; (done || set_solver). }
    split; [by eapply inv_quiet|]. intros content. by apply shows_quiet.
Qed.

(** Histories from a volume without chunks. *)
Definition fresh_world (s : Sys) (st : S) : W := mkWorld s st ∅ [] [] ∅ ∅.

Inductive history (w0 : W) : list Event -> W -> Prop :=
| history_nil : history w0 [] w0
| history_snoc es w e w' : history w0 es w -> step w e w' -> history w0 (es ++ [e]) w'.

(** The content the events describe: zeros, then write after write. *)
Definition content_after (es : list Event) : Z -> Z -> byte :=
  foldl (fun content e => apply_event e content) (fun _ _ => Byte.x00) es.

Lemma fresh_inv s st : slice_lease_ok s -> chunk_rows_same empty_db (sys_db s) ->
  inv (fresh_world s st) /\ shows (fresh_world s st) (fun _ _ => Byte.x00).
Proof.
  intros Hl [Hc Hdp Hdm Hup Huo].
  assert (forall c, slices_of (sys_db s) c = []) as Hs by (intros c; unfold slices_of; by rewrite Hc).
  split; [|intros c x; unfold dbw; cbn [w_sys fresh_world w_store]; by rewrite Hs].
  split; unfold dbw; cbn [w_sys fresh_world w_flights w_published w_doomed w_snaps w_merges w_store].
  - done.
  - intros id. rewrite lookup_empty. by intros [].
  - intros id f. by rewrite lookup_empty.
  - intros id r. rewrite Hup. cbn. by rewrite lookup_empty.
  - intros id r. rewrite Huo. cbn. by rewrite lookup_empty.
  - intros id (i&r&Hor&_). rewrite Hdp, Hdm in Hor. cbn in Hor. rewrite lookup_empty in Hor. naive_solver.
  - set_solver.
  - intros c a. rewrite Hs. set_solver.
  - intros id c a. by rewrite lookup_empty.
  - set_solver.
  - intros id a data. by rewrite lookup_empty.
  - set_solver.
  - intros id c snap data. by rewrite lookup_empty.
  - intros id c snap data. by rewrite lookup_empty.
Qed.

Lemma history_keeps s st es w : layout_ok l -> slice_lease_ok s -> chunk_rows_same empty_db (sys_db s) ->
  history (fresh_world s st) es w -> inv w /\ shows w (content_after es).
Proof.
  intros Hl Hls Hrows. induction 1 as [|es w e w' _ [Hi Hsh] Hstep]; [by apply fresh_inv|].
  destruct (step_keeps w e w' Hl Hi Hstep) as [Hi' Hsh']. split; [done|].
  unfold content_after. rewrite foldl_app. cbn. by apply Hsh'.
Qed.

(** What was doomed stays doomed. *)
Lemma step_doomed w e w' : step w e w' -> w_doomed w ⊆ w_doomed w'.
Proof. destruct 1; cbn; try (destruct r); set_solver. Qed.

Lemma history_doomed w es w' : history w es w' -> w_doomed w ⊆ w_doomed w'.
Proof. induction 1 as [|es w1 e w2 _ IH Hs]; [done|]. apply step_doomed in Hs. set_solver. Qed.

Lemma history_inv w es w' : layout_ok l -> inv w -> history w es w' -> inv w'.
Proof.
  intros Hl Hi. induction 1 as [|es w1 e w2 _ IH Hs]; [done|]. by destruct (step_keeps _ _ _ Hl IH Hs).
Qed.
End machine.

(** ** Properties *)
Section properties.
Context {S : Type} `{!BlockStore S, !BlockStoreLaws S} (l : ChunkLayout) (Hl : layout_ok l).
Context (s : Sys) (st : S) (Hls : slice_lease_ok s) (Hrows : chunk_rows_same empty_db (sys_db s)).
#[local] Set Default Proof Using "All".

(** C1: whatever writers, light and heavy compactions working from snapshots of
    any age, and collectors do in whatever interleaving, the content of every
    chunk is what the published writes make it, in the order of their
    publication: every read of a chunk succeeds and returns exactly the bytes of
    the last write to each position, zeros where nothing was written. *)
Theorem chunk_content_refined completion es w c off n :
  (forall js, completion js ≡ₚ js) -> 0 <= off -> 0 <= n -> off + n < u64_modulus ->
  history l (fresh_world s st) es w ->
  exists buf, read_at_from_slices completion l (w_store w) (slices_of (dbw w) c) off n = Some (Ok buf) /\
    Z.of_nat (length buf) = n /\
    forall i, 0 <= i < n -> buf !! Z.to_nat i = Some (content_after es c (off + i)).
Proof.
  intros Hp Ho Hn Hb Hh. destruct (history_keeps l s st es w Hl Hls Hrows Hh) as [Hi Hsh].
  destruct (slices_good l w c Hi) as [Hg _].
  pose proof (read_at_from_slices_spec completion l (w_store w) (slices_of (dbw w) c) off n Hp Hl Hg Ho Hn Hb) as Hr.
  destruct (read_at_from_slices _ _ _ _ _ _) as [[buf|e]|]; [| |done].
  - destruct Hr as [Hlen Hr]. exists buf. split_and!; [done..|]. intros i Hr'. by rewrite Hr, Hsh.
  - destruct Hr as (i&_&Hnone). rewrite Hsh in Hnone. done.
Qed.

(** C2: a slice that a collector was told to delete the blocks of is in no slice
    list at that time and never will be again, whatever runs before its blocks
    are deleted. *)
Theorem collector_spares_live es w es' w' id :
  history l (fresh_world s st) es w -> id ∈ w_doomed w -> history l w es' w' ->
  ~ live (dbw w) id /\ ~ live (dbw w') id.
Proof.
  intros Hh Hd Hh'. destruct (history_keeps l s st es w Hl Hls Hrows Hh) as [Hi _].
  split; [by apply (iv_doomed l w Hi)|].
  apply (iv_doomed l w' (history_inv l w es' w' Hl Hi Hh')). by apply (history_doomed l w es' w').
Qed.
End properties.

(** ** A run

    Two writes, the second over the first; light compaction drops the first; a
    collector takes the record and deletes the blocks. *)

Definition run_step (m : txn unit) (w : World InMemory.InMemoryBlockStore) : Sys :=
  commit (m (begin (w_sys w))).2.
Definition upload_to (id : Z) (cs : list (list byte)) (w : World InMemory.InMemoryBlockStore)
  : InMemory.InMemoryBlockStore :=
  match write_at_vectored reverse w_layout (w_store w) id 0 cs with
  | Some (_, st) => st
  | None => w_store w
  end.

Definition x_first : SliceDesc := mkSlice 1 0 3 2.
Definition x_second : SliceDesc := mkSlice 2 0 2 4.
Definition x_bytes1 : list (list byte) := [[Byte.x61; Byte.x62]].
Definition x_bytes2 : list (list byte) := [[Byte.x63]; [Byte.x64; Byte.x65; Byte.x66]].

Definition x0 : World InMemory.InMemoryBlockStore := fresh_world (mkSys empty_db ∅) InMemory.new.
Definition x1 := set_flights <[1 := Writing]> (set_sys (next_slice_id 1 (w_sys x0)).2 x0).
Definition x2 := set_store (upload_to 1 x_bytes1 x1)
  (set_flights <[1 := Written (mkSlice 1 0 3 (total_len x_bytes1)) (concat x_bytes1)]> x1).
Definition x3 := publish 0 x_first (set_sys (run_step (append_slice 0 x_first) x2) x2).
Definition x4 := set_flights <[2 := Writing]> (set_sys (next_slice_id 1 (w_sys x3)).2 x3).
Definition x5 := set_store (upload_to 2 x_bytes2 x4)
  (set_flights <[2 := Written (mkSlice 2 0 2 (total_len x_bytes2)) (concat x_bytes2)]> x4).
Definition x6 := publish 0 x_second (set_sys (run_step (append_slice 0 x_second) x5) x5).
Definition x7 := add_snap (0, slices_of (dbw x6) 0) x6.
Definition x_light := replace_slices_for_compact 100 0 []
  (encode_delayed_data [x_first; x_second] (light_plan [x_first; x_second])).
Definition x8 := set_sys (run_step x_light x7) x7.
Definition x_record := mkDelayed 1 1 0 3 2 100 DelayedPending.
Definition x9 := doom (list_to_set ((fun x => x.1.1.1) <$> option_list (Some (delayed_entry_of x_record))))
  (set_sys (commit (process_one 200 x_record (begin (w_sys x8))).2) x8).
Definition x10 := set_store (delete_slice_blocks (w_store x9) 1 2 4).2 x9.

Definition x_events : list Event :=
  [Quiet; Quiet; Wrote 0 3 (concat x_bytes1); Quiet; Quiet; Wrote 0 2 (concat x_bytes2); Quiet; Quiet; Quiet].

Ltac run_commits := eexists; split; [vm_compute; reflexivity|reflexivity].

Ltac run_upload := [> vm_compute; reflexivity | intros us; apply reverse_Permutation
  | vm_compute; congruence | vm_compute; congruence | vm_compute; reflexivity ].

Lemma x_history6 : history w_layout x0 (take 6 x_events) x6.
Proof.
  assert (history w_layout x0 (take 1 x_events) x1) as H1.
  { apply (history_snoc _ _ [] x0); [constructor|]. apply (step_write_begin _ _ 1). vm_compute. reflexivity. }
  assert (history w_layout x0 (take 2 x_events) x2) as H2.
  { apply (history_snoc _ _ (take 1 x_events) x1); [done|].
    apply (step_write_upload _ x1 reverse 1 0 3 x_bytes1 (Ok tt)); run_upload. }
  assert (history w_layout x0 (take 3 x_events) x3) as H3.
  { apply (history_snoc _ _ (take 2 x_events) x2); [done|].
    apply (step_append _ x2 1 x_first); [vm_compute; reflexivity|run_commits]. }
  assert (history w_layout x0 (take 4 x_events) x4) as H4.
  { apply (history_snoc _ _ (take 3 x_events) x3); [done|]. apply (step_write_begin _ _ 1). vm_compute. reflexivity. }
  assert (history w_layout x0 (take 5 x_events) x5) as H5.
  { apply (history_snoc _ _ (take 4 x_events) x4); [done|].
    apply (step_write_upload _ x4 reverse 2 0 2 x_bytes2 (Ok tt)); run_upload. }
  apply (history_snoc _ _ (take 5 x_events) x5); [done|].
  apply (step_append _ x5 2 x_second); [vm_compute; reflexivity|run_commits].
Qed.

Lemma x_history9 : history w_layout x0 x_events x9.
Proof.
  apply (history_snoc _ _ (take 8 x_events) x8).
  - apply (history_snoc _ _ (take 7 x_events) x7).
    + apply (history_snoc _ _ (take 6 x_events) x6); [apply x_history6|]. apply step_snapshot.
    + apply (step_light _ x7 100 0 [x_first; x_second]); [|run_commits].
      change (w_snaps x7) with [(0, slices_of (dbw x6) 0)]. apply list_elem_of_singleton. vm_compute. reflexivity.
  - apply (step_process _ x8 200 x_record). run_commits.
Qed.

Lemma x_history10 : history w_layout x9 [Quiet] x10.
Proof.
  apply (history_snoc _ _ [] x9); [constructor|].
  apply (step_delete _ x9 1 2 4 (Ok tt)); [|vm_compute; reflexivity].
  apply (bool_decide_unpack _). vm_compute. exact I.
Qed.

Lemma x_start_ok : slice_lease_ok (mkSys empty_db ∅) /\ chunk_rows_same empty_db empty_db.
Proof. split; [|done]. split; [done|..]; intros *; cbn; by rewrite ?lookup_empty. Qed.

Lemma chunk_content_refined_witness :
  exists buf, read_at_from_slices reverse w_layout (w_store x9) (slices_of (dbw x9) 0) 1 6 = Some (Ok buf) /\
    Z.of_nat (length buf) = 6 /\
    forall i, 0 <= i < 6 -> buf !! Z.to_nat i = Some (content_after x_events 0 (1 + i)).
Proof.
  apply (chunk_content_refined w_layout w_layout_ok (mkSys empty_db ∅) InMemory.new (proj1 x_start_ok)
           (proj2 x_start_ok) reverse x_events x9 0 1 6); [|done..|apply x_history9].
  intros js. apply reverse_Permutation.
Defined.

Lemma collector_spares_live_witness : ~ live (dbw x9) 1 /\ ~ live (dbw x10) 1.
Proof.
  apply (collector_spares_live w_layout w_layout_ok (mkSys empty_db ∅) InMemory.new (proj1 x_start_ok)
           (proj2 x_start_ok) x_events x9 [Quiet] x10); [apply x_history9| |apply x_history10].
  apply (bool_decide_unpack _). vm_compute. exact I.
Defined.
