(* ===== verification/MarkSweep.v ===== *)
(** The mark-and-sweep collector of [src/daemon/worker.rs]: it deletes the blocks
    of replaced slices, and for every unlinked file the objects at the positions
    of the file's chunks before it drops the file's row. *)
From stdpp Require Import options.
From S2P Require Import Prelude Span Slices BlockStore MetaTypes MetaTxn MetaOps MetaChunks Compactor.
Import Layout.

(** [ObjectBlockStore::key_for] and [versioned_key_for]: the object that holds
    block [key.2] of slice [key.1]. *)
Definition key_for (key : BlockKey) : string :=
  ("chunks/" ++ pretty key.1 ++ "/" ++ pretty key.2)%string.
Definition versioned_key_for (key : BlockKey) : string :=
  ("chunks-v2/" ++ pretty key.1 ++ "/" ++ pretty key.2)%string.

Inductive SweepError :=
| SweepMeta (e : MetaError)
| SweepObject (e : StoreError)
| SweepDisabled.

Record ObjectGcConfig := mkObjectGcConfig {
  og_batch_size : Z; og_max_age_secs : Z; og_layout : ChunkLayout; og_volume_format : option string }.

Section sweep.
(** The object client is a library behind a trait: [delete_object] is what it does. *)
Context {O : Type} (delete_object : O -> string -> result StoreError unit * O).

(** The body of the two inner loops, for the pairs of loop variables in order. *)
Fixpoint delete_positions (positions : list (Z * Z)) (deleted_objects : Z) (o : O)
  : result SweepError Z * O :=
  match positions with
  | [] => (Ok deleted_objects, o)
  | (chunk_id, block_index) :: rest =>
      match delete_object o ("chunks/" ++ pretty chunk_id ++ "/" ++ pretty block_index)%string with
      | (Err e, o) => (Err (SweepObject e), o)
      | (Ok _, o) =>
          match delete_object o ("chunks-v2/" ++ pretty chunk_id ++ "/" ++ pretty block_index)%string with
          | (Err e, o) => (Err (SweepObject e), o)
          | (Ok _, o) => delete_positions rest (deleted_objects + 1) o
          end
      end
  end.

(** [0..chunk_count] times [0..blocks_per_chunk]. *)
Definition positions (l : ChunkLayout) (size : Z) : list (Z * Z) :=
  chunk_id ← seqZ 0 (div_ceil size (chunk_size l));
  (fun block_index => (chunk_id, block_index)) <$> seqZ 0 (blocks_per_chunk l).

Fixpoint delete_objects (runs : nat -> Run) (l : ChunkLayout) (deleted_inodes : list Z)
    (deleted_objects : Z) (s : Sys) (o : O) : result SweepError Z * Sys * O :=
  match deleted_inodes with
  | [] => (Ok deleted_objects, s, o)
  | inode :: rest =>
      match read_txn (runs (length rest)) (stat inode) s with
      | (Err e, s) => (Err (SweepMeta e), s, o)
      | (Ok None, s) => delete_objects runs l rest deleted_objects s o
      | (Ok (Some attr), s) =>
          match delete_positions (positions l (a_size attr)) deleted_objects o with
          | (Err e, o) => (Err e, s, o)
          | (Ok n, o) => delete_objects runs l rest n s o
          end
      end
  end.

Fixpoint cleanup_deleted_file_metadata (runs : nat -> Run) (deleted_inodes : list Z) (s : Sys)
  : result SweepError unit * Sys :=
  match deleted_inodes with
  | [] => (Ok tt, s)
  | inode :: rest =>
      match write_txn (runs (length rest)) (remove_file_metadata inode) s with
      | (Err e, s) => (Err (SweepMeta e), s)
      | (Ok _, s) => cleanup_deleted_file_metadata runs rest s
      end
  end.

(** The answer counts the delayed slices, the files and the objects. *)
Definition sweep_cycle {S} `{!BlockStore S} (r1 r2 r3 : Run) (runs runs' runs'' : nat -> Run) (now : Z)
    (cfg : ObjectGcConfig) (s : Sys) (st : S) (o : O) : result SweepError (Z * Z * Z) * Sys * S * O :=
  if bool_decide (og_volume_format cfg = Some "workspace-native-v2"%string)
  then (Err SweepDisabled, s, st, o) else
  match process_delayed_slices r1 runs now (og_batch_size cfg) (og_max_age_secs cfg) s with
  | (Err e, s) => (Err (SweepMeta e), s, st, o)
  | (Ok pending_deletions, s) =>
      let delayed_deleted_count := Z.of_nat (length pending_deletions) in
      let victims := (fun '(slice, _, size, delayed_id) => (slice, size, delayed_id)) <$> pending_deletions in
      let '(confirmed_ids, st) := delete_all st (block_size (og_layout cfg)) victims in
      let s := if bool_decide (confirmed_ids = []) then s
               else (write_txn r2 (confirm_delayed_deleted confirmed_ids) s).2 in
      match read_txn r3 get_deleted_files s with
      | (Err e, s) => (Err (SweepMeta e), s, st, o)
      | (Ok deleted_inodes, s) =>
          if bool_decide (deleted_inodes = []) then (Ok (delayed_deleted_count, 0, 0), s, st, o) else
          match delete_objects runs' (og_layout cfg) deleted_inodes 0 s o with
          | (Err e, s, o) => (Err e, s, st, o)
          | (Ok deleted_objects, s, o) =>
              match cleanup_deleted_file_metadata runs'' deleted_inodes s with
              | (Err e, s) => (Err e, s, st, o)
              | (Ok _, s) =>
                  (Ok (delayed_deleted_count, Z.of_nat (length deleted_inodes), deleted_objects), s, st, o)
              end
          end
      end
  end.
End sweep.

(** ** What the sweep of unlinked files deletes *)

(** Objects as a map, deletion always succeeding. *)
Definition map_delete (o : gmap string (list byte)) (key : string)
  : result StoreError unit * gmap string (list byte) := (Ok tt, delete key o).

Definition gone (o : gmap string (list byte)) (slice block : Z) : Prop :=
  o !! key_for (slice, block) = None /\ o !! versioned_key_for (slice, block) = None.

Lemma delete_positions_gone ps : forall n o, exists o',
  delete_positions map_delete ps n o = (Ok (n + Z.of_nat (length ps)), o') /\
  (forall p, p ∈ ps -> gone o' p.1 p.2) /\ (forall k, o !! k = None -> o' !! k = None).
Proof.
  induction ps as [|[c b] ps IH]; intros n o; cbn [delete_positions map_delete].
  { exists o. split_and!; [by rewrite Z.add_0_r|set_solver|done]. }
  destruct (IH (n + 1) (delete (versioned_key_for (c, b)) (delete (key_for (c, b)) o))) as (o'&E&Hg&Hk).
  exists o'. unfold versioned_key_for, key_for in E. cbn [fst snd] in E. rewrite E.
  split_and!; [f_equal; f_equal; cbn [length]; lia| |].
  - intros p [->|Hp]%elem_of_cons; [|by apply Hg]. split; apply Hk; cbn [fst snd].
    + rewrite lookup_delete_ne, lookup_delete_eq; done.
    + by rewrite lookup_delete_eq.
  - intros k Hn. apply Hk. by rewrite !lookup_delete_None; right; right.
Qed.

Lemma elem_of_file_positions l size c b : (c, b) ∈ positions l size <->
  0 <= c < div_ceil size (chunk_size l) /\ 0 <= b < blocks_per_chunk l.
Proof.
  unfold positions. rewrite list_elem_of_bind. split.
  - intros (x&(y&[= -> ->]&Hy%elem_of_seqZ)%list_elem_of_fmap&Hx%elem_of_seqZ). lia.
  - intros [? ?]. exists c. split; [|apply elem_of_seqZ; lia].
    apply list_elem_of_fmap_2, elem_of_seqZ. lia.
Qed.

Definition quiet : Run := mkRun (fun _ => Commits) (fun _ s => s).

Lemma quiet_stat i s : read_txn quiet (stat i) s = (Ok (to_attr <$> inodes (sys_db s) !! i), s).
Proof. by destruct s. Qed.

Lemma delete_objects_gone l inos : forall n s o, exists m o',
  delete_objects map_delete (fun _ => quiet) l inos n s o = (Ok m, s, o') /\
  (forall i node c b, i ∈ inos -> inodes (sys_db s) !! i = Some node ->
     (c, b) ∈ positions l (a_size (to_attr node)) -> gone o' c b) /\
  (forall k, o !! k = None -> o' !! k = None).
Proof.
  induction inos as [|i inos IH]; intros n s o; cbn [delete_objects].
  { exists n, o. split_and!; [done|set_solver|done]. }
  rewrite quiet_stat. destruct (inodes (sys_db s) !! i) as [node|] eqn:Hi; cbn [fmap option_fmap option_map].
  - destruct (delete_positions_gone (positions l (a_size (to_attr node))) n o) as (o1&->&Hg&Hk).
    destruct (IH (n + Z.of_nat (length (positions l (a_size (to_attr node))))) s o1) as (m&o'&->&Hg'&Hk').
    exists m, o'. split_and!; [done| |auto].
    intros j nj c b [->|Hj]%elem_of_cons Hn Hp; [|by eapply Hg']. simplify_eq.
    destruct (Hg _ Hp). split; by apply Hk'.
  - destruct (IH n s o) as (m&o'&->&Hg'&Hk'). exists m, o'. split_and!; [done| |done].
    intros j nj c b [->|Hj]%elem_of_cons Hn Hp; [congruence|by eapply Hg'].
Qed.

(** Sweeping an unlinked file deletes the objects of the slices whose ids are
    the positions 0, 1, ... of the file's chunks, whichever files those slices
    belong to: after the sweep of a file with [n] chunks no block of the slices
    below [n] is left, live or not. *)
Theorem sweep_deletes_by_position l deleted_inodes ino node slice block s o :
  ino ∈ deleted_inodes -> inodes (sys_db s) !! ino = Some node ->
  0 <= slice < div_ceil (a_size (to_attr node)) (chunk_size l) -> 0 <= block < blocks_per_chunk l ->
  exists n o', delete_objects map_delete (fun _ => quiet) l deleted_inodes 0 s o = (Ok n, s, o') /\
    o' !! key_for (slice, block) = None /\ o' !! versioned_key_for (slice, block) = None.
Proof.
  intros Hin Hn Hs Hb. destruct (delete_objects_gone l deleted_inodes 0 s o) as (n&o'&E&Hg&_).
  exists n, o'. split; [done|]. apply (Hg ino node slice block Hin Hn), elem_of_file_positions.
  by split.
Qed.

(** An unlinked file of two chunks; slice 1 is the data of another file. *)
Definition v_unlinked : StoredNode :=
  mkNode 3 0 "" File (2 * DEFAULT_CHUNK_SIZE) 0 33188 0 0 0 0 0 0 0 None true.
Definition v_sys : Sys :=
  mkSys (with_chunks <[2000000000 := [Slice.mkSlice 1 2000000000 0 4]]>
           (with_inodes <[3 := v_unlinked]> empty_db)) ∅.
Definition v_objects : gmap string (list byte) := {[ versioned_key_for (1, 0) := [Byte.x61] ]}.
